(* ===== verification/_CoqProject ===== *)
-Q . S2P
Prelude.v
Oops.v
Packed.v
Bytecode.v
Builder.v
OldSpace.v
Codec.v
Scopes.v
OopMaps.v
Lexer.v
Ast.v
Parser.v
Capture.v
CaptureCorrect.v
Heap.v
World.v
WorldCorrect.v
WorldOk.v
SampleWorld.v
Pickle.v
PickleSafe.v
PickleCorrect.v
WorkerMessages.v
Codegen.v
MethodDict.v
Hierarchy.v
CodeTable.v
Lookup.v
Ic.v
Ir.v
Intervals.v
Regalloc.v
Residents.v
Allocation.v
Scavenge.v
ScavengeInv.v
ScavengeCorrect.v
FullGc.v
FullGcInv.v
FullGcCorrect.v
Survival.v
Mutator.v
Extension.v
ObjectGraph.v
Simulation.v
MutatorCorrect.v
Process.v
Activation.v
FrameList.v
MachineLogic.v
Unwind.v
ActivationCorrect.v
UnwindCorrect.v
NonLocalReturn.v
Closures.v
Curtailment.v
Interpreter.v
InterpreterCorrect.v
StaleHome.v
HoistedCapture.v
StackTyping.v
Cfg.v
Emission.v
CodegenTyped.v
TypedRun.v
