(* ===== verification/Prelude.v ===== *)
(** * WINVM: a verified model of the virtual machine's core

    WINVM is a Smalltalk virtual machine written in Rust ([src/src/]): a front
    end that compiles class files to bytecode, an interpreter with inline
    caches, an optimising compiler with deoptimization, and a generational
    copying collector.  This library translates the parts below into Rocq
    functions, one definition per function of the source and under its name,
    and proves what each part promises to the others.

    ** Parts

    Object model.
    - [Oops] ([oops/layout.rs], [mod.rs], [smi.rs], [mark.rs]): tagged words,
      small-integer arithmetic, the mark word.
    - [Packed] ([oops/home_ref.rs], [bytecode/method.rs], [runtime/osr.rs]):
      records packed in one small integer.
    - [Heap] ([oops/heap.rs], [klass.rs], [wrappers.rs]): headers, klass-
      directed sizes, forwarding, the oop-bearing words of an object.

    Memory.
    - [OldSpace] ([memory/layout.rs], [spaces.rs], [cards.rs], [offsets.rs]):
      geometry, spaces, card table, object-start table, age table.
    - [Scavenge], [ScavengeInv], [ScavengeCorrect] ([memory/scavenge.rs]): the
      copying collector, the invariant of a cycle, and its correctness.
    - [FullGc], [FullGcInv], [FullGcCorrect] ([memory/fullgc.rs]): the marking
      and sliding collector, in the same three steps.
    - [Mutator] ([memory/alloc.rs], [memory/store.rs]): the allocation cascade
      and the store barrier.  [Survival] states what either collector promises
      the mutator, [Extension] what a new object and a store keep of a heap,
      [ObjectGraph] the abstract machine of objects that never move, and
      [Simulation] and [MutatorCorrect] that the heap implements it.

    Bytecode.
    - [Bytecode] ([bytecode/opcode.rs]) and [Builder] ([bytecode/builder.rs]):
      the instruction set, its decoder, and the assembler.

    Interpreter.
    - [Process] ([interpreter/stack.rs]): the process stack, its frames, the
      machine's state, and the monad of what can panic or end the process.
    - [Activation] ([interpreter/blocks.rs], [send.rs], [mod.rs], and the
      primitives of [runtime/primitives.rs] that activate blocks): frames of
      methods and blocks, closures, contexts.
    - [Unwind] ([interpreter/unwind.rs]): returns, non-local returns, and the
      handlers of [ensure:] and [ifCurtailed:].
    - [Interpreter] ([interpreter/mod.rs], [send.rs]): the dispatch loop.
    - [StaleHome] runs a program whose [^] returns through a home that is gone.
    - [FrameList] reads the stack's words as a list of frames, [MachineLogic]
      has the rules of a weakest precondition for the monad; with them
      [ActivationCorrect], [UnwindCorrect], [NonLocalReturn], [Closures],
      [Curtailment] and [InterpreterCorrect] prove what the four do to the list.

    Front end.
    - [Lexer], [Ast], [Parser] ([frontend/lexer.rs], [ast.rs], [parser.rs]).
    - [Capture] ([frontend/capture.rs]) decides where variables live:
      [CaptureCorrect] proves it.
    - [World] ([memory/symbols.rs], [memory/universe.rs], [runtime/globals.rs]):
      the objects the front end makes, the symbol table and the globals, which
      [WorldCorrect] proves to be finite maps.
    - [Pickle] ([runtime/mop.rs]): a graph of such objects as bytes, for another
      machine.  [WorldOk] says when objects are well formed, with sample worlds
      in [SampleWorld]; [PickleSafe] and [PickleCorrect] are about the two
      directions, [WorkerMessages] about the messages built by hand.
    - [Codegen] ([frontend/codegen.rs]): from trees to methods, over the state
      of a unit: objects, builder, literal cache, free frame slot.
    - [StackTyping] says what stack types code has, [Emission] how a piece of
      the code generator advances them, [CodegenTyped] that its methods are well
      typed, and [TypedRun] what the interpreter gets from that.
      [HoistedCapture] compiles and runs concrete methods that the analysis or
      the generator gets wrong.

    Dispatch.
    - [MethodDict] ([oops/method_dict.rs]), [Hierarchy] and [Lookup]
      ([runtime/lookup.rs]), [Ic] ([interpreter/ic.rs], [send.rs]), [CodeTable]
      ([codecache/nmethod.rs], [flush.rs], [runtime/deps.rs]).

    Compiler.
    - [Codec], [Scopes] ([compiler/scopes.rs]) and [OopMaps]
      ([compiler/oopmap.rs]): what compiled code tells the collector and the
      deoptimizer.
    - [Cfg] ([compiler/decode.rs]): the basic blocks of a method's bytecode.
    - [Ir] ([compiler/ir.rs]), [Intervals], [Regalloc], [Residents],
      [Allocation] ([compiler/regalloc.rs]): linear-scan allocation.

    The parts meet in these places.  [Builder] emits what [Bytecode] decodes.
    [Codegen] calls [Capture], [World] and [Builder]; a run of it is a session
    of [Builder], which is how [build_spec] and the stack types apply to it, and
    its methods are those of [Interpreter] by [TypedRun.twin].
    [Parser] is written against the class of token sources that [Lexer]
    implements.  [Ic] calls [Lookup], which walks [Hierarchy] over the
    dictionaries of [MethodDict] and invalidates entries of [CodeTable].
    [Allocation] joins the allocator's result with the maps of [OopMaps].
    [Scavenge] and [FullGc] run over [Heap] objects in the spaces and tables of
    [OldSpace]; [Mutator] calls both, and relies on [Survival] alone.  The
    interpreter's objects are those of [ObjectGraph]'s machine, which never
    move: [MutatorCorrect] is what allows that; what a send finds is a
    parameter of [Interpreter], which [Ic] describes.

    ** Conventions

    A machine word is a [Z]; an operation that can leave its width is followed
    by its wrap ([wrapU], [wrapS] below), or is checked the way the source
    checks it.  Fallible code answers an option or a sum.  A panic, a failed
    assertion (a debug assertion included), an index out of range and an
    arithmetic underflow are [None] ([Panics] in the parser's monad), so that a
    theorem which gives a result also says that none of them happens.  Mutable
    state is a record that is passed and returned; a hash map is a [gmap]; a
    vector is a list, a stack's top standing where the comment says.  Fuel is
    always computed from the input by the caller, never a parameter of a
    property, and the properties show that the result is produced.

    ** What the theorems show

    - Words: tagging is a bijection, arithmetic is exact or overflows visibly,
      mark fields are independent, packed records round-trip.
    - Bytecode: decoding inverts encoding; a successful assembly session yields
      code that decodes to the instructions emitted, whatever collections move
      its literals meanwhile.
    - Heap tables: every address in the old generation finds the start of its
      object; the walk of a dirty card visits exactly the objects that meet it.
    - Scavenger: a cycle stalls or copies each reachable young object exactly
      once and relocates every reference; the heap it leaves satisfies the
      precondition again, with the remembered set complete.  Both hold without
      assumption on the ages, the threshold or how survivors are split between
      to-space and the old generation.
    - Full collection: it always succeeds, keeps exactly what the roots reach,
      packs every space in order and re-establishes the same heap.
    - Mutator: whatever collections an allocation runs, the program sees the
      graph of an abstract machine without a collector.  With collection
      enabled, as it is from the end of genesis, it never panics, and it stops
      only after a full collection, and where growing has left no room; with
      collection disabled it panics where it would have to collect.
    - Interpreter: turns of the loop that stay in a frame do what their
      instructions say; a block finds what its closure captured; a return runs
      the handler of its frame, a non-local return the handlers of the frames
      it leaves and an error those of the frames down to the entry frame, each
      once, innermost first, all this on stacks of any depth, down to the
      words.  These theorems are about handlers that return normally, whatever
      else they do; a handler that itself returns with [^] out of its method
      abandons the return that ran it, and the value of that return with it
      ([handler_return_abandons]).  A home that is gone can be mistaken for a
      live one ([StaleHome]).
    - Front end: tokens and the trivia between them tile the text, and spans are
      exact while line and column fit their [u32]; a literal's digits
      denote its value; parsing terminates on every input with a tree of the
      promised shape or an error.  Capture analysis gives every reference the
      place of the variable it stands for, through dissolved blocks, unless its
      name is one that a dissolved block of an enclosing scope declares and the
      reference stands outside that block: such names leak, a bug that
      [HoistedCapture.dissolved_names_leak] shows.  Interning
      and the globals refine finite maps, through every growth; interning ends
      the process when a new symbol does not fit the eden.
    - Code: from any tree of the parser's shape the code generator makes code in
      which control always finds an instruction with its operands, temporary,
      literal and send site, and such code does not go wrong in the interpreter.
      Two ways in which the code generator loses variables are shown of
      concrete methods, by compiling and running them (lemmas of
      [HoistedCapture], not properties).
    - Pickle: any bytes unpickle to an object or an error, in a world that is
      well formed again and in which nothing old has changed, or end the process
      at a symbol the eden has no room for; a pickled graph
      is copied exactly, sharing and cycles included, into any world with the
      same classes; pickling panics only where a vector of unboxed numbers
      is reachable; the messages built by hand are pickles.
    - Dispatch: dictionaries refine finite maps, for selectors that have an
      identity hash (on others a debug assertion of the probe fails); the lookup
      cache never changes
      an answer; installing a method invalidates exactly what depends on it;
      a send through an inline cache calls the method a lookup would find, or
      compiled code of exactly that method -- except through a super site that
      has been given the compiled form of an override
      ([super_site_enters_override]).
    - Compiler: the graph of basic blocks has exactly the paths of the
      instructions; metadata round-trips; live values never share a register or a
      slot; every oop live at a safepoint is in that safepoint's map.

    ** Fuel and bounds

    - The walks over classes take as many steps as there are classes; a chain
      without cycles is shorter.
    - [Parser.loop] and the grammar's recursion are bounded by the input left;
      every iteration consumes some of it.
    - [Scavenge.card_objects] takes 66 steps: a 512-byte card meets at most 32
      objects of two words, and the one that reaches in from the left.
    - [Scavenge.cheney_fuel] is the size of the spaces that are filled: each
      step but the last scans an object.
    - [FullGc.mark_fuel] counts a marked object per two words of the used
      space: a header is two words and an object is pushed once.  The walks of
      a space take as many steps as the space has room for objects.
    - [Mutator.grow_fuel] is the number of segments left to commit, and two: the
      last partial segment and the turn that finds nothing to commit.
    - [Unwind.chain_fuel], for walks along the saved frame pointers, is one more
      than the frame pointer: each link is below the frame that holds it.  The
      cycle of returns that [ensure:] handlers cause leaves a frame per turn.
    - [Pickle.pk] and [Pickle.up] recurse on the nesting left of [MAX_DEPTH], as
      the code counts it; a varint takes at most ten groups of seven bits.
    - [Cfg.sweep] takes a step per byte of code left, and an instruction has one
      at least.
    - [Interpreter.dispatch_from] takes the number of turns to make: the loop
      itself need not end.
    - Positions of operations in [Intervals] and after it are unbounded, a
      method having fewer than 2^32 operations.

    ** Not modelled

    - Machine-code emission, stubs, patching, trap handlers and the foreign
      interface: they need models of two instruction sets and of the operating
      system.
    - In the interpreter: entering compiled code, on-stack replacement, tracing,
      the debugger, and the primitives that do not activate a block (a
      parameter).
    - The translation of basic blocks to the register form and the optimiser.
    - In the code generator and the pickle: the handles that protect oops from
      collections (objects never move there, as in [ObjectGraph]); in the code
      generator, the debugger's copy of the line map, which is an answer.  That
      it reports an error or succeeds on every tree is not proved, and not true
      (see [HoistedCapture]).
    - The pickle stores into objects as such; that three of its stores skip the
      barrier that the collectors rely on is noted as a finding, since the
      model of objects that never move cannot show its effect.  How many words
      of the eden are free when interning allocates is a part of the state
      ([World.eden_free]), not computed by an allocator.
    - Stores into the two words of a klass that lay out its instances, the
      typed allocators that differ only in the klass they take, and the words
      of boxed floats are outside the abstract machine.
    - In the collectors: root slots are list arguments in the order the source
      enumerates them; the flush of the lookup cache, reported statistics,
      tracing, poisoning, the verifier and debug-only re-walks are left out.
    - Shells, the image store, the binding generator and vendored code are not
      part of the machine's core. *)
From Stdlib Require Export ZArith Lia.
From Stdlib Require Export Btauto.
From stdpp Require Export base tactics numbers option list.

#[global] Open Scope Z_scope.

Create HintDb winvm.

(** ** Machine integers

    A [w]-bit integer is a [Z].  An operation of the source that cannot leave
    its width is the operation on [Z]; one that truncates (an [as] cast, a
    left shift, a wrapping subtraction) is followed by the wrap written
    here. *)

(** [wrapU n z]: the value of [z] as an unsigned [n]-bit integer (Rust's
    [as u8], [as u16], [as u32], [as u64] and the shifts of unsigned words). *)
Definition wrapU (n z : Z) : Z := z mod 2 ^ n.

(** [wrapS n z]: the value of [z] as a two's-complement [n]-bit integer
    (Rust's [as i8], [as i32], [as i64]). *)
Definition wrapS (n z : Z) : Z := (z + 2 ^ (n - 1)) mod 2 ^ n - 2 ^ (n - 1).

Definition inU (n z : Z) : Prop := 0 <= z < 2 ^ n.
Definition inS (n z : Z) : Prop := - 2 ^ (n - 1) <= z < 2 ^ (n - 1).

Abbreviation u8 := (wrapU 8).
Abbreviation u16 := (wrapU 16).
Abbreviation u32 := (wrapU 32).
Abbreviation u64 := (wrapU 64).
Abbreviation i8 := (wrapS 8).
Abbreviation i32 := (wrapS 32).
Abbreviation i64 := (wrapS 64).

(** Bitwise complement of an unsigned 64-bit word (Rust's [!] on [u64]). *)
Definition not64 (z : Z) : Z := Z.lxor z (Z.ones 64).

#[global] Instance inU_dec n z : Decision (inU n z).
Proof. unfold inU. apply _. Defined.
#[global] Instance inS_dec n z : Decision (inS n z).
Proof. unfold inS. apply _. Defined.

Lemma wrapU_id n z : inU n z -> wrapU n z = z.
Proof. unfold inU, wrapU. intros. by apply Z.mod_small. Qed.

Lemma wrapU_in n z : 0 <= n -> inU n (wrapU n z).
Proof. intros. apply Z.mod_pos_bound. lia. Qed.

Lemma wrapS_id n z : 0 < n -> inS n z -> wrapS n z = z.
Proof.
  unfold inS, wrapS. intros Hn Hz.
  replace (2 ^ n) with (2 * 2 ^ (n - 1)) by (rewrite <- Z.pow_succ_r by lia; f_equal; lia).
  rewrite Z.mod_small by lia. lia.
Qed.

Lemma wrapS_in n z : 0 < n -> inS n (wrapS n z).
Proof.
  unfold inS, wrapS. intros Hn.
  replace (2 ^ n) with (2 * 2 ^ (n - 1)) by (rewrite <- Z.pow_succ_r by lia; f_equal; lia).
  pose proof (Z.mod_pos_bound (z + 2 ^ (n - 1)) (2 * 2 ^ (n - 1))). lia.
Qed.

(** Re-reading the bits of a signed value as unsigned and back is lossless. *)
Lemma wrapS_wrapU n z : 0 < n -> wrapS n (wrapU n z) = wrapS n z.
Proof.
  intros Hn. unfold wrapS, wrapU. f_equal.
  by rewrite Zplus_mod_idemp_l.
Qed.

#[export] Hint Resolve wrapU_in wrapS_in : winvm.

(** ** Bit-level reasoning *)

(** Rewrites a goal about [Z.testbit] down to the testbits of its atoms. *)
Ltac testbits :=
  repeat first
    [ rewrite Z.lor_spec | rewrite Z.land_spec | rewrite Z.lxor_spec
    | rewrite Z.ldiff_spec | rewrite Z.lnot_spec by lia
    | rewrite Z.shiftr_spec by lia | rewrite Z.shiftl_spec by lia
    | rewrite Z.testbit_mod_pow2 by lia | rewrite Z.testbit_ones by lia
    | rewrite Z.bits_0 ].

(** Decides every comparison left in the goal, discarding absurd cases. *)
Ltac cmp_cases :=
  repeat match goal with
  | |- context [?a <? ?b] => destruct (Z.ltb_spec a b); try lia
  | |- context [?a <=? ?b] => destruct (Z.leb_spec a b); try lia
  | |- context [?a =? ?b] => destruct (Z.eqb_spec a b); try lia
  end.

Ltac bit_atoms :=
  repeat match goal with
  | |- context [Z.testbit ?x ?i] => rewrite (Z.testbit_neg_r x i) by lia
  end.

(** Solves a boolean equation between testbits once the positions are
    compared; proves an equation of bit expressions, bit by bit. *)
Ltac bit_cases := cmp_cases; bit_atoms; try reflexivity; try btauto.
Ltac bitwise :=
  apply Z.bits_inj'; let i := fresh "i" in let Hi := fresh "Hi" in
  intros i Hi; unfold not64, wrapU; testbits; bit_cases.

(** A word of fewer than [n] bits has no bit at or above [n]. *)
Lemma testbit_high n z i : inU n z -> 0 <= n <= i -> Z.testbit z i = false.
Proof.
  unfold inU. intros Hz Hi. rewrite <- (Z.mod_small z (2 ^ n)) by lia.
  rewrite Z.testbit_mod_pow2 by lia. by cmp_cases.
Qed.

Lemma inU_by_bits n z :
  0 <= n -> 0 <= z -> (forall i, n <= i -> Z.testbit z i = false) -> inU n z.
Proof.
  intros Hn Hz H. unfold inU.
  assert (z = z mod 2 ^ n) as ->; [|apply Z.mod_pos_bound; lia].
  apply Z.bits_inj'. intros i Hi. rewrite Z.testbit_mod_pow2 by lia.
  destruct (Z.ltb_spec i n); [done|]. by apply H.
Qed.

(** ** Bit fields

    The packed words of the program (the mark word, method flags, home
    references, inline-cache metadata) are all sequences of fields [s, s+b)
    read by mask-then-shift and written by clear-then-or.  The laws of one
    field and of two disjoint fields are proved once here. *)
Section fields.
Definition fmask (s b : Z) : Z := Z.shiftl (Z.ones b) s.
Definition fget (s b w : Z) : Z := Z.shiftr (Z.land w (fmask s b)) s.
Definition fset (s b w v : Z) : Z :=
  Z.lor (Z.land w (Z.lnot (fmask s b))) (Z.shiftl v s).

Context (s b : Z) (Hs : 0 <= s) (Hb : 0 <= b).

Lemma fget_in w : inU b (fget s b w).
Proof.
  apply inU_by_bits; [done| |].
  - unfold fget, fmask. apply Z.shiftr_nonneg, Z.land_nonneg. right.
    apply Z.shiftl_nonneg. rewrite Z.ones_equiv. lia.
  - intros i Hi. unfold fget, fmask. rewrite Z.shiftr_spec by lia.
    testbits. by bit_cases.
Qed.

Lemma fget_fset w v : inU b v -> fget s b (fset s b w v) = v.
Proof.
  intros Hv. unfold fget, fset, fmask. apply Z.bits_inj'. intros i Hi.
  testbits. replace (i + s - s) with i by lia. bit_cases.
  rewrite (testbit_high b v i) by (done || lia). btauto.
Qed.

Lemma fset_fget w : fset s b w (fget s b w) = w.
Proof.
  unfold fget, fset, fmask. apply Z.bits_inj'. intros i Hi. testbits.
  bit_cases; testbits; replace (i - s + s) with i by lia; bit_cases.
Qed.

Lemma fset_fset w v v' : inU b v -> fset s b (fset s b w v) v' = fset s b w v'.
Proof.
  intros Hv. unfold fset, fmask. apply Z.bits_inj'. intros i Hi.
  testbits. bit_cases.
  rewrite (testbit_high b v (i - s)) by (done || lia). btauto.
Qed.

Lemma fget_fset_other s' b' w v :
  0 <= s' -> 0 <= b' -> inU b v -> s + b <= s' \/ s' + b' <= s ->
  fget s' b' (fset s b w v) = fget s' b' w.
Proof.
  intros Hs' Hb' Hv Hd. unfold fget, fset, fmask. apply Z.bits_inj'. intros i Hi.
  testbits. bit_cases.
  rewrite (testbit_high b v (i + s' - s)) by (done || lia). btauto.
Qed.

(** Writing a field of an [n]-bit word leaves it an [n]-bit word. *)
Lemma fset_in n w v : s + b <= n -> inU n w -> inU b v -> inU n (fset s b w v).
Proof.
  intros Hn Hw Hv. apply inU_by_bits; [lia| |].
  - unfold fset. apply Z.lor_nonneg. split.
    + apply Z.land_nonneg. left. unfold inU in Hw. lia.
    + apply Z.shiftl_nonneg. unfold inU in Hv. lia.
  - intros i Hi. unfold fset, fmask. testbits.
    rewrite (testbit_high n w i) by (done || lia).
    rewrite (testbit_high b v (i - s)) by (done || lia). btauto.
Qed.
End fields.

(** A one-bit field read as a flag and written by or-ing or clearing its
    mask. *)
Lemma flag_get s w : 0 <= s ->
  negb (Z.land w (Z.shiftl 1 s) =? 0) = Z.testbit w s.
Proof.
  intros Hs. destruct (Z.eqb_spec (Z.land w (Z.shiftl 1 s)) 0) as [H|H]; cbn.
  - apply (f_equal (fun z => Z.testbit z s)) in H. revert H. testbits.
    replace (s - s) with 0 by lia. change (Z.testbit 1 0) with true.
    by rewrite andb_true_r.
  - destruct (Z.testbit w s) eqn:E; [done|]. destruct H.
    apply Z.bits_inj'. intros i Hi. testbits.
    destruct (decide (i = s)) as [->|]; [by rewrite E|].
    destruct (Z.ltb_spec i s); [rewrite (Z.testbit_neg_r 1) by lia; btauto|].
    rewrite (testbit_high 1 1 (i - s)) by (unfold inU; lia). btauto.
Qed.

Lemma testbit_fget s w : 0 <= s -> Z.testbit w s = (fget s 1 w =? 1).
Proof.
  intros Hs. pose proof (fget_in s 1 Hs ltac:(lia) w) as Hb.
  assert (Z.testbit (fget s 1 w) 0 = Z.testbit w s) as <-.
  { unfold fget, fmask. testbits. replace (0 + s) with s by lia. bit_cases. }
  unfold inU in Hb. assert (fget s 1 w = 0 \/ fget s 1 w = 1) as [->| ->] by lia; done.
Qed.

Lemma flag_set s w : 0 <= s -> Z.lor w (Z.shiftl 1 s) = fset s 1 w 1.
Proof.
  intros Hs. unfold fset, fmask. apply Z.bits_inj'. intros i Hi. testbits.
  destruct (Z.ltb_spec i s); [rewrite (Z.testbit_neg_r _ (i - s)) by lia; bit_cases|].
  destruct (decide (i = s)) as [->|].
  - replace (s - s) with 0 by lia. change (Z.testbit 1 0) with true. btauto.
  - rewrite (testbit_high 1 1 (i - s)) by (unfold inU; lia). bit_cases.
Qed.

Lemma flag_clear s w : 0 <= s -> Z.land w (Z.lnot (Z.shiftl 1 s)) = fset s 1 w 0.
Proof. intros Hs. unfold fset, fmask. rewrite Z.shiftl_0_l, Z.lor_0_r. done. Qed.

(** Two words with the same field agree on the field's bits. *)
Lemma fget_testbit s b w i :
  0 <= s -> 0 <= b -> s <= i < s + b -> Z.testbit (fget s b w) (i - s) = Z.testbit w i.
Proof.
  intros Hs Hb Hi. unfold fget, fmask. testbits.
  replace (i - s + s) with i by lia. bit_cases.
Qed.

(** Words built by or-ing shifted values together: a field of the whole is
    the or of the fields of the parts. *)
Lemma fget_lor s b x y : 0 <= s -> fget s b (Z.lor x y) = Z.lor (fget s b x) (fget s b y).
Proof. intros Hs. unfold fget. by rewrite Z.land_lor_distr_l, Z.shiftr_lor. Qed.

Lemma fget_shiftl_same s b v : 0 <= s -> inU b v -> 0 <= b -> fget s b (Z.shiftl v s) = v.
Proof.
  intros Hs Hv Hb. unfold fget, fmask. apply Z.bits_inj'. intros i Hi. testbits.
  replace (i + s - s) with i by lia. bit_cases.
  rewrite (testbit_high b v i) by (done || lia). btauto.
Qed.

Lemma fget_shiftl_other s b s' b' v :
  0 <= s -> 0 <= b -> 0 <= s' -> 0 <= b' -> inU b' v -> s + b <= s' \/ s' + b' <= s ->
  fget s b (Z.shiftl v s') = 0.
Proof.
  intros Hs Hb Hs' Hb' Hv Hd. unfold fget, fmask. apply Z.bits_inj'. intros i Hi. testbits.
  destruct Hd; bit_cases. rewrite (testbit_high b' v (i + s - s')) by (done || lia). btauto.
Qed.

Lemma if_lor_shiftl (c : bool) w s :
  (if c then Z.lor w (Z.shiftl 1 s) else w) = Z.lor w (Z.shiftl (Z.b2z c) s).
Proof. destruct c; cbn [Z.b2z]; [done|]. by rewrite Z.shiftl_0_l, Z.lor_0_r. Qed.

Lemma inU_lor n x y : 0 <= n -> inU n x -> inU n y -> inU n (Z.lor x y).
Proof.
  intros Hn Hx Hy. apply inU_by_bits; [done| |].
  - apply Z.lor_nonneg. unfold inU in *. lia.
  - intros i Hi. testbits. by rewrite !(testbit_high n) by (done || lia).
Qed.

Lemma inU_shiftl n b s v : 0 <= s -> 0 <= b -> s + b <= n -> inU b v -> inU n (Z.shiftl v s).
Proof.
  intros Hs Hb Hn Hv. apply inU_by_bits; [lia| |].
  - apply Z.shiftl_nonneg. unfold inU in Hv. lia.
  - intros i Hi. testbits. by apply (testbit_high b); [|lia].
Qed.

Lemma wrapU_shiftl n b s v :
  0 <= s -> 0 <= b -> s + b <= n -> inU b v -> wrapU n (Z.shiftl v s) = Z.shiftl v s.
Proof. intros. by apply wrapU_id, (inU_shiftl n b). Qed.

Lemma inU_mono n m z : 0 <= n <= m -> inU n z -> inU m z.
Proof.
  unfold inU. intros Hnm Hz.
  pose proof (Z.pow_le_mono_r 2 n m ltac:(lia) ltac:(lia)). lia.
Qed.

Lemma inU_16_64 v : inU 16 v -> inU 64 v.
Proof. apply inU_mono. lia. Qed.

Lemma fget_agree s b w w' :
  0 <= s -> 0 <= b -> fget s b w = fget s b w' ->
  forall i, s <= i < s + b -> Z.testbit w i = Z.testbit w' i.
Proof. intros ? ? E i Hi. by rewrite <- (fget_testbit s b w i), <- (fget_testbit s b w' i), E. Qed.

(** On a 64-bit word, the source's [w & !mask] clears exactly the mask. *)
Lemma land_not64 w m : inU 64 w -> Z.land w (not64 m) = Z.land w (Z.lnot m).
Proof.
  intros Hw. apply Z.bits_inj'. intros i Hi. unfold not64. testbits.
  bit_cases.
  rewrite (testbit_high 64 w i) by (done || lia). btauto.
Qed.

Lemma inU_bool n (v : bool) : 0 < n -> inU n (Z.b2z v).
Proof.
  intros Hn. unfold inU. assert (2 ^ 1 <= 2 ^ n) by (apply Z.pow_le_mono_r; lia).
  destruct v; cbn; lia.
Qed.

#[export] Hint Resolve fget_in inU_bool : winvm.
#[export] Hint Extern 1 (_ <= _) => lia : winvm.
#[export] Hint Extern 1 (_ < _) => lia : winvm.

(** Side conditions of the field laws: ranges, widths and disjointness. *)
Ltac field_side :=
  try apply fset_in; try lia; auto with winvm; try (unfold inU in *; lia).

(** ** Lists indexed by machine integers *)

(** [l[i]]: [None] is the index-out-of-bounds panic. *)
Definition zlookup {A} (l : list A) (i : Z) : option A :=
  if i <? 0 then None else l !! Z.to_nat i.

(** [l[i] = x], when [i] is in bounds. *)
Definition zinsert {A} (l : list A) (i : Z) (x : A) : list A :=
  if i <? 0 then l else <[Z.to_nat i := x]> l.

Definition zlen {A} (l : list A) : Z := Z.of_nat (length l).

Lemma zlen_app {A} (l k : list A) : zlen (l ++ k) = zlen l + zlen k.
Proof. unfold zlen. rewrite length_app. lia. Qed.

Lemma zlen_cons {A} (x : A) l : zlen (x :: l) = 1 + zlen l.
Proof. unfold zlen. cbn [length]. lia. Qed.

Lemma zlen_nil {A} : zlen (@nil A) = 0.
Proof. done. Qed.

Lemma zlen_nonneg {A} (l : list A) : 0 <= zlen l.
Proof. unfold zlen. lia. Qed.

Lemma zlen_insert {A} (l : list A) i x : zlen (zinsert l i x) = zlen l.
Proof. unfold zlen, zinsert. destruct (_ <? _); [done|]. by rewrite length_insert. Qed.

Lemma zlen_replicate {A} n (x : A) : zlen (replicate n x) = Z.of_nat n.
Proof. unfold zlen. by rewrite length_replicate. Qed.

Lemma lookup_snoc_inv {A} (l : list A) x i y :
  (l ++ [x]) !! i = Some y -> l !! i = Some y \/ i = length l /\ y = x.
Proof.
  intros [H|[Hl H]]%lookup_app_Some; [by left|right].
  apply list_lookup_singleton_Some in H as [? ->]. split; [lia|done].
Qed.

Lemma zlookup_lt {A} (l : list A) i x : zlookup l i = Some x -> 0 <= i < zlen l.
Proof.
  unfold zlookup, zlen. destruct (Z.ltb_spec i 0); [done|]. intros Hl%lookup_lt_Some. lia.
Qed.

Lemma zlookup_app_l {A} (l k : list A) i : i < zlen l -> zlookup (l ++ k) i = zlookup l i.
Proof.
  unfold zlookup, zlen. destruct (Z.ltb_spec i 0); [done|]. intros.
  rewrite lookup_app_l by lia. done.
Qed.

Lemma zlookup_app_r {A} (l k : list A) i :
  zlen l <= i -> zlookup (l ++ k) i = zlookup k (i - zlen l).
Proof.
  unfold zlookup, zlen. intros. destruct (Z.ltb_spec i 0); [lia|].
  destruct (Z.ltb_spec (i - Z.of_nat (length l)) 0); [lia|].
  rewrite lookup_app_r by lia. f_equal. lia.
Qed.

Lemma zlookup_mid {A} (l : list A) x k : zlookup (l ++ x :: k) (zlen l) = Some x.
Proof. rewrite zlookup_app_r by lia. by rewrite Z.sub_diag. Qed.

Lemma zlookup_mid_off {A} (l k : list A) i :
  0 <= i -> zlookup (l ++ k) (zlen l + i) = zlookup k i.
Proof. intros. rewrite zlookup_app_r by lia. f_equal. lia. Qed.

Lemma zinsert_app_r {A} (l k : list A) i x :
  zlen l <= i -> zinsert (l ++ k) i x = l ++ zinsert k (i - zlen l) x.
Proof.
  unfold zinsert, zlen. intros. destruct (Z.ltb_spec i 0); [lia|].
  destruct (Z.ltb_spec (i - Z.of_nat (length l)) 0); [lia|].
  rewrite insert_app_r_alt by lia. do 2 f_equal. lia.
Qed.

Lemma zinsert_app_l {A} (l k : list A) i x :
  i < zlen l -> zinsert (l ++ k) i x = zinsert l i x ++ k.
Proof.
  unfold zinsert, zlen. intros. destruct (Z.ltb_spec i 0); [done|].
  by rewrite insert_app_l by lia.
Qed.

Lemma zlookup_zinsert {A} (l : list A) i x : 0 <= i < zlen l -> zlookup (zinsert l i x) i = Some x.
Proof.
  unfold zlookup, zinsert, zlen. intros. destruct (Z.ltb_spec i 0); [lia|].
  apply list_lookup_insert_eq. lia.
Qed.

Lemma zlookup_zinsert_ne {A} (l : list A) i j x :
  i <> j -> 0 <= i -> zlookup (zinsert l i x) j = zlookup l j.
Proof.
  unfold zlookup, zinsert. intros. destruct (Z.ltb_spec i 0); [lia|].
  destruct (Z.ltb_spec j 0); [done|]. apply list_lookup_insert_ne. lia.
Qed.

(** [l[i] = x]: [None] is the index-out-of-bounds panic. *)
Definition zset {A} (l : list A) (i : Z) (x : A) : option (list A) :=
  if (0 <=? i) && (i <? zlen l) then Some (zinsert l i x) else None.

Lemma zlookup_is_Some {A} (l : list A) i : 0 <= i < zlen l -> exists x, zlookup l i = Some x.
Proof.
  unfold zlookup, zlen. intros. destruct (Z.ltb_spec i 0); [lia|].
  apply lookup_lt_is_Some. lia.
Qed.

Lemma zset_ok {A} (l : list A) i x : 0 <= i < zlen l -> zset l i x = Some (zinsert l i x).
Proof.
  intros. unfold zset. destruct (Z.leb_spec 0 i); [|lia]. by destruct (Z.ltb_spec i (zlen l)); [|lia].
Qed.

Lemma zset_Some {A} (l : list A) i x l' :
  zset l i x = Some l' -> 0 <= i < zlen l /\ l' = zinsert l i x.
Proof.
  unfold zset. destruct (Z.leb_spec 0 i); [|done]. destruct (Z.ltb_spec i (zlen l)); [|done].
  by intros [= <-].
Qed.

Lemma zlookup_zset {A} (l : list A) i x l' j : zset l i x = Some l' ->
  zlookup l' j = if decide (i = j) then Some x else zlookup l j.
Proof.
  intros [Hi ->]%zset_Some. destruct (decide (i = j)) as [<-|].
  - by apply zlookup_zinsert.
  - apply zlookup_zinsert_ne; [done|lia].
Qed.

(** A loop that writes [f i] at every index of a list of indices. *)
Fixpoint zset_all {A} (f : Z -> A) (is_ : list Z) (l : list A) : option (list A) :=
  match is_ with
  | [] => Some l
  | i :: is_ => l ← zset l i (f i); zset_all f is_ l
  end.

Lemma zset_all_ok {A} (f : Z -> A) is_ : forall l, (forall i, i ∈ is_ -> 0 <= i < zlen l) ->
  exists l', zset_all f is_ l = Some l' /\ zlen l' = zlen l /\
    forall j, zlookup l' j = if decide (j ∈ is_) then Some (f j) else zlookup l j.
Proof.
  induction is_ as [|i is_ IH]; intros l Hl; cbn.
  - exists l. split_and!; [done..|]. intros j. by rewrite decide_False by (apply not_elem_of_nil).
  - rewrite zset_ok by (apply Hl; left). cbn.
    destruct (IH (zinsert l i (f i))) as (l' & H1 & H2 & H3).
    { intros j Hj. rewrite zlen_insert. apply Hl. by right. }
    exists l'. rewrite zlen_insert in H2. split_and!; [done..|]. intros j. rewrite H3.
    destruct (decide (j ∈ is_)) as [Hj|Hj]; [by rewrite decide_True by by right|].
    destruct (decide (i = j)) as [<-|Hne].
    + rewrite decide_True by by left. apply zlookup_zinsert. apply Hl. left.
    + rewrite decide_False by (by intros [->|?]%elem_of_cons).
      apply zlookup_zinsert_ne; [done|]. apply Hl. left.
Qed.

(** [for i in lo..hi] as a list of indices. *)
Definition zrange (lo hi : Z) : list Z := (fun n => lo + Z.of_nat n) <$> seq 0 (Z.to_nat (hi - lo)).

Lemma elem_of_zrange lo hi i : i ∈ zrange lo hi <-> lo <= i < hi.
Proof.
  unfold zrange. rewrite list_elem_of_fmap. split.
  - intros (n & -> & Hn%elem_of_seq). lia.
  - intros Hi. exists (Z.to_nat (i - lo)). split; [lia|]. apply elem_of_seq. lia.
Qed.

Lemma zrange_nil lo hi : hi <= lo -> zrange lo hi = [].
Proof. intros. unfold zrange. by replace (Z.to_nat (hi - lo)) with 0%nat by lia. Qed.

Lemma zrange_snoc lo hi : lo <= hi -> zrange lo (hi + 1) = zrange lo hi ++ [hi].
Proof.
  intros. unfold zrange. replace (Z.to_nat (hi + 1 - lo)) with (Z.to_nat (hi - lo) + 1)%nat by lia.
  rewrite seq_app, fmap_app. cbn. do 2 f_equal. lia.
Qed.

Lemma zrange_cons (lo hi : Z) : lo < hi -> zrange lo hi = lo :: zrange (lo + 1) hi.
Proof.
  intros Hz. unfold zrange. replace (Z.to_nat (hi - lo)) with (S (Z.to_nat (hi - (lo + 1)))) by lia.
  cbn [seq fmap list_fmap]. f_equal; [lia|]. rewrite <- fmap_S_seq, <- list_fmap_compose.
  apply list_fmap_ext. intros i x _. cbn. lia.
Qed.

Lemma zlen_snoc {A} (l : list A) x : zlen (l ++ [x]) = zlen l + 1.
Proof. unfold zlen. rewrite length_app. cbn. lia. Qed.
