(* ===== verification/Oops.v ===== *)
(** Tagged words and the packed words of the object model
    ([src/src/oops/layout.rs], [oops/mod.rs], [oops/smi.rs], [oops/mark.rs],
    [oops/home_ref.rs], and the flag and counter words of a compiled method,
    [bytecode/method.rs] and [runtime/osr.rs]).

    A machine word is a [Z]; a [u64] word satisfies [inU 64], an [i64] value
    satisfies [inS 64]. *)
From S2P Require Import Prelude.

(** ** Bit layout constants (oops/layout.rs) *)
Module Layout.
Definition TAG_BITS : Z := 2.
Definition TAG_MASK : Z := 3.
Definition INT_TAG : Z := 0.
Definition MEM_TAG : Z := 1.
Definition RESERVED_TAG : Z := 2.
Definition MARK_TAG : Z := 3.
Definition NLR_SENTINEL : Z := 6.
Definition PRIM_FAIL_SENTINEL : Z := 10.
Definition POISON : Z := 0xF0F0F0F0F0F0F0F3.
Definition SMI_SHIFT : Z := 2.
Definition SMI_BITS : Z := 62.
Definition SMI_MAX : Z := Z.shiftl 1 61 - 1.
Definition SMI_MIN : Z := - Z.shiftl 1 61.
Definition WORD_SIZE : Z := 8.
Definition MARK_OFFSET : Z := 0.
Definition KLASS_OFFSET : Z := 8.
Definition BODY_OFFSET : Z := 16.
Definition HEADER_WORDS : Z := 2.

Definition MARK_SENTINEL_SHIFT : Z := 2.
Definition MARK_NEAR_DEATH_SHIFT : Z := 3.
Definition MARK_TAGGED_CONTENTS_SHIFT : Z := 4.
Definition MARK_AGE_SHIFT : Z := 5.
Definition MARK_AGE_BITS : Z := 7.
Definition MARK_AGE_MAX : Z := 127.
Definition MARK_HASH_SHIFT : Z := 12.
Definition MARK_HASH_BITS : Z := 32.
Definition MARK_SENTINEL_MASK : Z := Z.shiftl 1 MARK_SENTINEL_SHIFT.
Definition MARK_NEAR_DEATH_MASK : Z := Z.shiftl 1 MARK_NEAR_DEATH_SHIFT.
Definition MARK_TAGGED_CONTENTS_MASK : Z := Z.shiftl 1 MARK_TAGGED_CONTENTS_SHIFT.
Definition MARK_AGE_MASK : Z := Z.shiftl (Z.shiftl 1 MARK_AGE_BITS - 1) MARK_AGE_SHIFT.
Definition MARK_HASH_MASK : Z := Z.shiftl (Z.shiftl 1 MARK_HASH_BITS - 1) MARK_HASH_SHIFT.
Definition MARK_GC_MARK_SHIFT : Z := 44.
Definition MARK_GC_MARK_MASK : Z := Z.shiftl 1 MARK_GC_MARK_SHIFT.
Definition MARK_PRISTINE : Z := Z.lor MARK_TAG MARK_SENTINEL_MASK.

Definition METHOD_FLAGS_ARGC_SHIFT : Z := 0.
Definition METHOD_FLAGS_ARGC_BITS : Z := 4.
Definition METHOD_FLAGS_NTEMPS_SHIFT : Z := 4.
Definition METHOD_FLAGS_NTEMPS_BITS : Z := 8.
Definition METHOD_FLAGS_HAS_CTX_SHIFT : Z := 12.
Definition METHOD_FLAGS_IS_BLOCK_SHIFT : Z := 13.
Definition METHOD_FLAGS_PRIM_FAILS_SHIFT : Z := 14.
Definition METHOD_FLAGS_CAPTURES_CTX_SHIFT : Z := 15.
Definition METHOD_FLAGS_NCTX_SHIFT : Z := 16.
Definition METHOD_FLAGS_NCTX_BITS : Z := 8.
Definition METHOD_FLAGS_ARGC_MASK : Z :=
  Z.shiftl (Z.shiftl 1 METHOD_FLAGS_ARGC_BITS - 1) METHOD_FLAGS_ARGC_SHIFT.
Definition METHOD_FLAGS_NTEMPS_MASK : Z :=
  Z.shiftl (Z.shiftl 1 METHOD_FLAGS_NTEMPS_BITS - 1) METHOD_FLAGS_NTEMPS_SHIFT.
Definition METHOD_FLAGS_HAS_CTX_MASK : Z := Z.shiftl 1 METHOD_FLAGS_HAS_CTX_SHIFT.
Definition METHOD_FLAGS_IS_BLOCK_MASK : Z := Z.shiftl 1 METHOD_FLAGS_IS_BLOCK_SHIFT.
Definition METHOD_FLAGS_PRIM_FAILS_MASK : Z := Z.shiftl 1 METHOD_FLAGS_PRIM_FAILS_SHIFT.
Definition METHOD_FLAGS_CAPTURES_CTX_MASK : Z := Z.shiftl 1 METHOD_FLAGS_CAPTURES_CTX_SHIFT.
Definition METHOD_FLAGS_NCTX_MASK : Z :=
  Z.shiftl (Z.shiftl 1 METHOD_FLAGS_NCTX_BITS - 1) METHOD_FLAGS_NCTX_SHIFT.
Definition METHOD_ARGC_MAX : Z := Z.shiftl 1 METHOD_FLAGS_ARGC_BITS - 1.
Definition METHOD_NTEMPS_MAX : Z := Z.shiftl 1 METHOD_FLAGS_NTEMPS_BITS - 1.

Definition HOME_REF_FP_BITS : Z := 22.
Definition HOME_REF_SERIAL_BITS : Z := 32.
Definition HOME_REF_PROC_BITS : Z := 8.
Definition HOME_REF_FP_SHIFT : Z := 0.
Definition HOME_REF_SERIAL_SHIFT : Z := HOME_REF_FP_SHIFT + HOME_REF_FP_BITS.
Definition HOME_REF_PROC_SHIFT : Z := HOME_REF_SERIAL_SHIFT + HOME_REF_SERIAL_BITS.
Definition HOME_REF_FP_MAX : Z := Z.shiftl 1 HOME_REF_FP_BITS - 1.
Definition HOME_REF_FP_MASK : Z :=
  Z.shiftl (Z.shiftl 1 HOME_REF_FP_BITS - 1) HOME_REF_FP_SHIFT.
Definition HOME_REF_SERIAL_MASK : Z :=
  Z.shiftl (Z.shiftl 1 HOME_REF_SERIAL_BITS - 1) HOME_REF_SERIAL_SHIFT.
Definition HOME_REF_PROC_MASK : Z :=
  Z.shiftl (Z.shiftl 1 HOME_REF_PROC_BITS - 1) HOME_REF_PROC_SHIFT.
Definition HOME_REF_ALL_MASK : Z :=
  Z.lor (Z.lor HOME_REF_FP_MASK HOME_REF_SERIAL_MASK) HOME_REF_PROC_MASK.

Definition BCI_SENTINEL_BASE : Z := 0x7FFF0000.

Definition IC_STRIDE : Z := 4.
Definition IC_SEL_OFFSET : Z := 0.
Definition IC_META_OFFSET : Z := 1.
Definition IC_GUARD_OFFSET : Z := 2.
Definition IC_TARGET_OFFSET : Z := 3.
Definition IC_META_ARGC_SHIFT : Z := 0.
Definition IC_META_ARGC_BITS : Z := 8.
Definition IC_META_EPOCH_SHIFT : Z := 8.
Definition IC_META_EPOCH_BITS : Z := 24.
Definition IC_META_ARGC_MASK : Z :=
  Z.shiftl (Z.shiftl 1 IC_META_ARGC_BITS - 1) IC_META_ARGC_SHIFT.
Definition IC_META_EPOCH_MASK : Z :=
  Z.shiftl (Z.shiftl 1 IC_META_EPOCH_BITS - 1) IC_META_EPOCH_SHIFT.
Definition IC_EPOCH_MAX : Z := Z.shiftl 1 IC_META_EPOCH_BITS - 1.
Definition IC_GUARD_POLY : Z := 1.
Definition IC_GUARD_MEGA : Z := 2.
Definition IC_POLY_MAX_PAIRS : Z := 4.
Definition IC_POLY_ARRAY_LEN : Z := IC_POLY_MAX_PAIRS * 3.

Definition COUNTERS_INVOCATION_MASK : Z := 0xFFFF.
Definition COUNTERS_INVOCATION_MAX : Z := 0xFFFF.
Definition COUNTERS_LOOP_SHIFT : Z := 16.
Definition COUNTERS_LOOP_MASK : Z := Z.shiftl 0xFFFF COUNTERS_LOOP_SHIFT.
Definition LOOP_COUNTER_LIMIT : Z := 10000.
Definition COUNTERS_COMPILE_DISABLED_BIT : Z := Z.shiftl 1 33.
Definition COUNTERS_HAS_BP_BIT : Z := Z.shiftl 1 32.
End Layout.
Export Layout.

(** ** Oops (oops/mod.rs): a tagged 64-bit word *)
Module Oop.
(** [from_raw] rejects (a debug assertion) the two tags no oop carries. *)
Definition from_raw (w : Z) : option Z :=
  if Z.land w TAG_MASK =? RESERVED_TAG then None
  else if Z.land w TAG_MASK =? MARK_TAG then None
  else Some w.
Definition tag (o : Z) : Z := Z.land o TAG_MASK.
Definition is_smi (o : Z) : bool := tag o =? INT_TAG.
Definition is_mem (o : Z) : bool := tag o =? MEM_TAG.
Definition mem_addr (o : Z) : Z := o - MEM_TAG.
End Oop.

(** ** Small integers (oops/smi.rs) *)
Module SmallInt.
Definition try_new (v : Z) : option Z :=
  if negb ((SMI_MIN <=? v) && (v <=? SMI_MAX)) then None
  else Some (u64 (Z.shiftl (u64 v) SMI_SHIFT)).
(** [new] panics ([None]) exactly when [try_new] refuses. *)
Definition new (v : Z) : option Z := try_new v.
Definition value (s : Z) : Z := Z.shiftr (i64 s) SMI_SHIFT.
Definition try_from (o : Z) : option Z := if Oop.is_smi o then Some o else None.

(** [i64::checked_*]: the exact result, when it is an [i64]. *)
Definition checked_i64 (z : Z) : option Z := if decide (inS 64 z) then Some z else None.

Definition checked_add (a b : Z) : option Z := checked_i64 (value a + value b) ≫= try_new.
Definition checked_sub (a b : Z) : option Z := checked_i64 (value a - value b) ≫= try_new.
Definition checked_mul (a b : Z) : option Z := checked_i64 (value a * value b) ≫= try_new.

(** The source's [/] and [%] truncate towards zero ([Z.quot], [Z.rem]). *)
Definition floor_div (a b : Z) : Z :=
  let q := Z.quot a b in
  let r := Z.rem a b in
  if negb (r =? 0) && xorb (r <? 0) (b <? 0) then q - 1 else q.
Definition floor_mod (a b : Z) : Z :=
  let r := Z.rem a b in
  if negb (r =? 0) && xorb (r <? 0) (b <? 0) then r + b else r.

Definition checked_div (s t : Z) : option Z :=
  let a := value s in
  let b := value t in
  if b =? 0 then None else try_new (floor_div a b).
Definition checked_rem (s t : Z) : option Z :=
  let a := value s in
  let b := value t in
  if b =? 0 then None else try_new (floor_mod a b).

Definition checked_shl (s by_ : Z) : option Z :=
  if 64 <=? by_ then None
  else
    let shifted := wrapS 128 (Z.shiftl (value s) by_) in
    if (SMI_MAX <? shifted) || (shifted <? SMI_MIN) then None
    else try_new (i64 shifted).

(** A word that is a small integer. *)
Definition smi_ok (s : Z) : Prop := inU 64 s /\ Oop.is_smi s = true.

(** The contract of a checked operation: the exact value, or [None] when it
    is not a small integer. *)
Definition in_range (z : Z) : option Z :=
  if decide (SMI_MIN <= z <= SMI_MAX) then Some z else None.

Lemma range_inS v : SMI_MIN <= v <= SMI_MAX -> inS 64 v.
Proof. unfold inS. change SMI_MIN with (- 2 ^ 61). change SMI_MAX with (2 ^ 61 - 1). lia. Qed.

Lemma tag_mod w : Oop.tag w = w mod 4.
Proof. unfold Oop.tag. change TAG_MASK with (Z.ones 2). by rewrite Z.land_ones by lia. Qed.

Lemma value_div s : value s = i64 s / 4.
Proof. unfold value. by rewrite Z.shiftr_div_pow2. Qed.

Lemma try_new_eq v : SMI_MIN <= v <= SMI_MAX -> try_new v = Some (u64 (4 * v)).
Proof.
  intros Hv. unfold try_new.
  destruct (Z.leb_spec SMI_MIN v); [|lia]. destruct (Z.leb_spec v SMI_MAX); [|lia]. cbn.
  rewrite Z.shiftl_mul_pow2 by (compute; discriminate).
  unfold wrapU. rewrite Z.mul_mod_idemp_l by lia. do 2 f_equal.
  change (2 ^ SMI_SHIFT) with 4. lia.
Qed.

Lemma try_new_none v : ~ (SMI_MIN <= v <= SMI_MAX) -> try_new v = None.
Proof.
  intros Hv. unfold try_new.
  destruct (Z.leb_spec SMI_MIN v), (Z.leb_spec v SMI_MAX); cbn; done || lia.
Qed.

Lemma smi_tag_u64 z : Oop.is_smi (u64 (4 * z)) = true.
Proof.
  unfold Oop.is_smi. rewrite tag_mod. unfold wrapU. apply Z.eqb_eq.
  change (2 ^ 64) with (4 * 2 ^ 62). rewrite Zmult_mod_distr_l.
  rewrite Z.mul_comm. apply Z.mod_mul. lia.
Qed.

Lemma value_u64 v : SMI_MIN <= v <= SMI_MAX -> value (u64 (4 * v)) = v.
Proof.
  intros Hv. rewrite value_div, wrapS_wrapU by lia.
  rewrite wrapS_id; [|lia|].
  - rewrite Z.mul_comm. apply Z.div_mul. lia.
  - unfold inS. change SMI_MIN with (- 2 ^ 61) in Hv. change SMI_MAX with (2 ^ 61 - 1) in Hv. lia.
Qed.

Lemma value_in_range s : smi_ok s -> SMI_MIN <= value s <= SMI_MAX /\ s = u64 (4 * value s).
Proof.
  intros [Hs Ht]. unfold Oop.is_smi in Ht. rewrite tag_mod in Ht.
  apply Z.eqb_eq in Ht. change INT_TAG with 0 in Ht.
  rewrite value_div. pose proof (wrapS_in 64 s ltac:(lia)) as Hw.
  assert (i64 s mod 4 = 0) as Hm.
  { unfold wrapS. pose proof (Z.div_mod (s + 2 ^ 63) (2 ^ 64) ltac:(lia)) as Hk.
    change (64 - 1) with 63.
    replace ((s + 2 ^ 63) mod 2 ^ 64 - 2 ^ 63)
      with (s + (- (2 ^ 62 * ((s + 2 ^ 63) / 2 ^ 64))) * 4) by lia.
    by rewrite Z.mod_add. }
  pose proof (Z.div_mod (i64 s) 4 ltac:(lia)) as Hd.
  change SMI_MIN with (- 2 ^ 61). change SMI_MAX with (2 ^ 61 - 1).
  unfold inS in Hw. split; [lia|].
  replace (4 * (i64 s / 4)) with (i64 s) by lia.
  unfold wrapS, wrapU. unfold inU in Hs.
  pose proof (Z.div_mod (s + 2 ^ 63) (2 ^ 64) ltac:(lia)) as Hk.
  change (64 - 1) with 63.
  replace ((s + 2 ^ 63) mod 2 ^ 64 - 2 ^ 63)
    with (s + (- ((s + 2 ^ 63) / 2 ^ 64)) * 2 ^ 64) by lia.
  rewrite Z.mod_add by lia. symmetry. by apply Z.mod_small.
Qed.

Lemma try_new_smi_ok v s : try_new v = Some s -> smi_ok s /\ value s = v.
Proof.
  destruct (decide (SMI_MIN <= v <= SMI_MAX)).
  - rewrite try_new_eq by done. intros [= <-]. split; [split|].
    + apply wrapU_in. lia.
    + apply smi_tag_u64.
    + by apply value_u64.
  - by rewrite try_new_none.
Qed.

Lemma try_new_ok v : SMI_MIN <= v <= SMI_MAX ->
  exists s, try_new v = Some s /\ smi_ok s /\ value s = v.
Proof.
  intros Hv. exists (u64 (4 * v)). rewrite try_new_eq by done.
  split; [done|]. by apply try_new_smi_ok, try_new_eq.
Qed.

Lemma try_new_value s : smi_ok s -> try_new (value s) = Some s.
Proof.
  intros Hs. destruct (value_in_range s Hs) as [Hr He].
  rewrite try_new_eq by done. by rewrite <- He.
Qed.

Lemma try_new_spec v : option_map value (try_new v) = in_range v.
Proof.
  unfold in_range. destruct (decide _).
  - rewrite try_new_eq by done. cbn. f_equal. by apply value_u64.
  - by rewrite try_new_none.
Qed.

Lemma checked_bind v : option_map value (checked_i64 v ≫= try_new) = in_range v.
Proof.
  unfold checked_i64. destruct (decide (inS 64 v)) as [|Hn]; cbn; [apply try_new_spec|].
  unfold in_range. destruct (decide _); [|done]. by destruct Hn; apply range_inS.
Qed.

Lemma floor_div_spec a b : b <> 0 -> floor_div a b = a / b /\ floor_mod a b = a mod b.
Proof.
  intros Hb. unfold floor_div, floor_mod.
  pose proof (Z.quot_rem a b Hb) as Hqr.
  pose proof (Z.rem_bound_abs a b Hb) as Hr.
  pose proof (Z.rem_sign_mul a b Hb) as Hs.
  assert (Hc : forall q r, a = b * q + r -> (0 <= r < b \/ b < r <= 0) -> q = a / b /\ r = a mod b).
  { intros q r H1 H2. split; [by apply (Z.div_unique a b q r)|by apply (Z.mod_unique a b q r)]. }
  destruct (Z.eqb_spec (Z.rem a b) 0) as [Hz|Hz]; cbn [negb andb].
  - apply Hc; lia.
  - destruct (Z.ltb_spec (Z.rem a b) 0), (Z.ltb_spec b 0); cbn [xorb]; apply Hc; nia.
Qed.

Lemma shl_fits v n :
  SMI_MIN <= v <= SMI_MAX -> 0 <= n < 64 -> inS 128 (v * 2 ^ n).
Proof.
  change SMI_MIN with (- 2 ^ 61). change SMI_MAX with (2 ^ 61 - 1). intros Hv Hn.
  assert (1 <= 2 ^ n <= 2 ^ 63).
  { split; [pose proof (Z.pow_pos_nonneg 2 n); lia|]. apply Z.pow_le_mono_r; lia. }
  unfold inS. change (2 ^ (128 - 1)) with (2 ^ 64 * 2 ^ 63). nia.
Qed.

(** Tagging is a bijection between the integers [SMI_MIN..SMI_MAX] and
    the 64-bit words with the small-integer tag: [value] undoes [try_new],
    [try_new] undoes [value], and [try_new] refuses every other integer. *)
Theorem smi_tagging_bijective :
  (forall v, SMI_MIN <= v <= SMI_MAX ->
     exists s, try_new v = Some s /\ smi_ok s /\ value s = v) /\
  (forall s, smi_ok s -> try_new (value s) = Some s) /\
  (forall v, ~ (SMI_MIN <= v <= SMI_MAX) -> try_new v = None) /\
  (forall w, try_from w = Some w <-> Oop.is_smi w = true).
Proof.
  split_and!.
  - apply try_new_ok.
  - apply try_new_value.
  - apply try_new_none.
  - intros w. unfold try_from. destruct (Oop.is_smi w); naive_solver.
Qed.

(** C32. Small-integer arithmetic is exact or refused: each operation answers
    the mathematical result when it is a small integer and fails otherwise;
    [//] and [\\\\] are the floored quotient and modulo, failing on a zero
    divisor, and a modulo never overflows; a shift is multiplication by a
    power of two. *)
Theorem smi_arith_exact a b n (Ha : smi_ok a) (Hb : smi_ok b) (Hn : 0 <= n) :
  option_map value (checked_add a b) = in_range (value a + value b) /\
  option_map value (checked_sub a b) = in_range (value a - value b) /\
  option_map value (checked_mul a b) = in_range (value a * value b) /\
  option_map value (checked_div a b) =
    (if value b =? 0 then None else in_range (value a / value b)) /\
  option_map value (checked_rem a b) =
    (if value b =? 0 then None else Some (value a mod value b)) /\
  option_map value (checked_shl a n) =
    (if 64 <=? n then None else in_range (value a * 2 ^ n)).
Proof.
  apply value_in_range in Ha as [Ha _]. apply value_in_range in Hb as [Hb _].
  split_and!; [apply checked_bind..| | |].
  - unfold checked_div. destruct (Z.eqb_spec (value b) 0); [done|].
    rewrite (proj1 (floor_div_spec _ _ n0)). apply try_new_spec.
  - unfold checked_rem. destruct (Z.eqb_spec (value b) 0) as [|Hz]; [done|].
    rewrite (proj2 (floor_div_spec _ _ Hz)), try_new_spec. unfold in_range.
    change SMI_MIN with (- 2 ^ 61) in *. change SMI_MAX with (2 ^ 61 - 1) in *.
    destruct (decide _) as [|Hr]; [done|]. destruct Hr.
    pose proof (Z.mod_pos_bound (value a) (value b)).
    pose proof (Z.mod_neg_bound (value a) (value b)). lia.
  - unfold checked_shl. destruct (Z.leb_spec 64 n); [done|].
    rewrite Z.shiftl_mul_pow2, wrapS_id by (done || apply shl_fits; lia).
    destruct (Z.ltb_spec SMI_MAX (value a * 2 ^ n)); cbn [orb option_map].
    { unfold in_range. destruct (decide _); [lia|done]. }
    destruct (Z.ltb_spec (value a * 2 ^ n) SMI_MIN); cbn [option_map].
    { unfold in_range. destruct (decide _); [lia|done]. }
    rewrite wrapS_id, try_new_spec by (done || apply range_inS; lia). done.
Qed.

Lemma smi_arith_exact_witness :
  smi_ok 40 /\ value 40 = 10 /\ value (u64 (-12)) = -3 /\
  option_map value (checked_div 40 (u64 (-12))) = in_range (10 / -3) /\
  option_map value (checked_rem 40 (u64 (-12))) = Some (10 mod -3) /\
  option_map value (checked_shl 40 60) = None.
Proof.
  assert (H1 : smi_ok 40) by (split; [split; vm_compute; congruence | reflexivity]).
  assert (H2 : smi_ok (u64 (-12))) by (split; [split; vm_compute; congruence | reflexivity]).
  destruct (smi_arith_exact 40 (u64 (-12)) 60 H1 H2 ltac:(discriminate))
    as (_ & _ & _ & Hd & Hr & Hs).
  split; [exact H1|]. split; [reflexivity|]. split; [reflexivity|].
  split; [exact Hd|]. split; [exact Hr|]. exact Hs.
Defined.
End SmallInt.

(** ** The mark word (oops/mark.rs) *)
Module Mark.
Definition pristine : Z := MARK_PRISTINE.
(** [from_word] rejects (debug assertions) a word without the mark tag or
    with a clear sentinel bit. *)
Definition from_word (w : Z) : option Z :=
  if negb (Z.land w TAG_MASK =? MARK_TAG) then None
  else if Z.land w MARK_SENTINEL_MASK =? 0 then None
  else Some w.
Definition age (m : Z) : Z := u8 (Z.shiftr (Z.land m MARK_AGE_MASK) MARK_AGE_SHIFT).
Definition with_age (m a : Z) : Z :=
  Z.lor (Z.land m (not64 MARK_AGE_MASK)) (u64 (Z.shiftl a MARK_AGE_SHIFT)).
Definition hash (m : Z) : Z := u32 (Z.shiftr (Z.land m MARK_HASH_MASK) MARK_HASH_SHIFT).
Definition with_hash (m h : Z) : Z :=
  Z.lor (Z.land m (not64 MARK_HASH_MASK)) (u64 (Z.shiftl h MARK_HASH_SHIFT)).
Definition near_death (m : Z) : bool := negb (Z.land m MARK_NEAR_DEATH_MASK =? 0).
Definition with_near_death (m : Z) (v : bool) : Z :=
  if v then Z.lor m MARK_NEAR_DEATH_MASK else Z.land m (not64 MARK_NEAR_DEATH_MASK).
Definition tagged_contents (m : Z) : bool := negb (Z.land m MARK_TAGGED_CONTENTS_MASK =? 0).
Definition with_tagged_contents (m : Z) (v : bool) : Z :=
  if v then Z.lor m MARK_TAGGED_CONTENTS_MASK else Z.land m (not64 MARK_TAGGED_CONTENTS_MASK).
Definition gc_mark (m : Z) : bool := negb (Z.land m MARK_GC_MARK_MASK =? 0).
Definition with_gc_mark (m : Z) (v : bool) : Z :=
  if v then Z.lor m MARK_GC_MARK_MASK else Z.land m (not64 MARK_GC_MARK_MASK).
Definition is_pristine (m : Z) : bool := m =? MARK_PRISTINE.
Definition word_is_forwarded (w : Z) : bool := Z.land w TAG_MASK =? MEM_TAG.
Definition forwardee (w : Z) : Z := w.

(** The abstract mark: what the header word of an object says, field by
    field; [v_reserved] is the bits above the full-collection mark. *)
Record view := MkView {
  v_tag : Z; v_sentinel : bool; v_near_death : bool; v_tagged : bool;
  v_age : Z; v_hash : Z; v_gc_mark : bool; v_reserved : Z }.

Definition view_of (m : Z) : view :=
  MkView (Z.land m TAG_MASK) (negb (Z.land m MARK_SENTINEL_MASK =? 0)) (near_death m)
    (tagged_contents m) (age m) (hash m) (gc_mark m) (Z.shiftr m 45).

Definition view_set_age (v : view) a :=
  MkView (v_tag v) (v_sentinel v) (v_near_death v) (v_tagged v) a (v_hash v) (v_gc_mark v)
    (v_reserved v).
Definition view_set_hash (v : view) h :=
  MkView (v_tag v) (v_sentinel v) (v_near_death v) (v_tagged v) (v_age v) h (v_gc_mark v)
    (v_reserved v).
Definition view_set_near_death (v : view) b :=
  MkView (v_tag v) (v_sentinel v) b (v_tagged v) (v_age v) (v_hash v) (v_gc_mark v)
    (v_reserved v).
Definition view_set_tagged (v : view) b :=
  MkView (v_tag v) (v_sentinel v) (v_near_death v) b (v_age v) (v_hash v) (v_gc_mark v)
    (v_reserved v).
Definition view_set_gc_mark (v : view) b :=
  MkView (v_tag v) (v_sentinel v) (v_near_death v) (v_tagged v) (v_age v) (v_hash v) b
    (v_reserved v).

Lemma view_of_fields m : inU 64 m ->
  view_of m = MkView (fget 0 2 m) (fget 2 1 m =? 1) (fget 3 1 m =? 1) (fget 4 1 m =? 1)
                (fget 5 7 m) (fget 12 32 m) (fget 44 1 m =? 1) (fget 45 19 m).
Proof.
  intros Hm. unfold view_of, near_death, tagged_contents, gc_mark, age, hash. f_equal.
  - unfold MARK_SENTINEL_MASK. rewrite flag_get by (compute; discriminate).
    by apply testbit_fget.
  - unfold MARK_NEAR_DEATH_MASK. rewrite flag_get by (compute; discriminate).
    by apply testbit_fget.
  - unfold MARK_TAGGED_CONTENTS_MASK. rewrite flag_get by (compute; discriminate).
    by apply testbit_fget.
  - change (Z.shiftr (Z.land m MARK_AGE_MASK) MARK_AGE_SHIFT) with (fget 5 7 m).
    apply wrapU_id. pose proof (fget_in 5 7 ltac:(lia) ltac:(lia) m). unfold inU in *. lia.
  - change (Z.shiftr (Z.land m MARK_HASH_MASK) MARK_HASH_SHIFT) with (fget 12 32 m).
    apply wrapU_id, fget_in; lia.
  - unfold MARK_GC_MARK_MASK. rewrite flag_get by (compute; discriminate).
    by apply testbit_fget.
  - unfold fget, fmask. bitwise.
    rewrite (testbit_high 64 m (i + 45)) by (done || lia). btauto.
Qed.

Lemma hash_fget m : inU 64 m -> hash m = fget 12 32 m.
Proof. intros Hm. exact (f_equal v_hash (view_of_fields m Hm)). Qed.

Lemma with_age_fset m a : inU 64 m -> inU 7 a -> with_age m a = fset 5 7 m a.
Proof.
  intros Hm Ha. unfold with_age. rewrite land_not64 by done. unfold fset. f_equal.
  apply wrapU_id. unfold inU in *. rewrite Z.shiftl_mul_pow2 by (compute; discriminate).
  change (2 ^ MARK_AGE_SHIFT) with 32. lia.
Qed.

Lemma with_hash_fset m h : inU 64 m -> inU 32 h -> with_hash m h = fset 12 32 m h.
Proof.
  intros Hm Hh. unfold with_hash. rewrite land_not64 by done. unfold fset. f_equal.
  apply wrapU_id. unfold inU in *. rewrite Z.shiftl_mul_pow2 by (compute; discriminate).
  change (2 ^ MARK_HASH_SHIFT) with 4096. lia.
Qed.

Lemma with_flag_fset s m (v : bool) : 0 <= s -> inU 64 m ->
  (if v then Z.lor m (Z.shiftl 1 s) else Z.land m (not64 (Z.shiftl 1 s))) =
  fset s 1 m (Z.b2z v).
Proof.
  intros Hs Hm. destruct v; cbn [Z.b2z].
  - by apply flag_set.
  - rewrite land_not64 by done. by apply flag_clear.
Qed.

Lemma b2z_eqb1 (v : bool) : (Z.b2z v =? 1) = v.
Proof. by destruct v. Qed.

(** Reduces a statement about a written mark word to the field laws. *)
Ltac mark_fields :=
  rewrite !view_of_fields by field_side;
  rewrite ?fget_fset by field_side;
  rewrite ?fget_fset_other by field_side;
  rewrite ?b2z_eqb1; reflexivity.

(** The mark word's fields are independent: on any header word each
    setter writes exactly its own field (identity hash, age, near-death,
    tagged-contents and full-collection mark bits) and leaves the tag, the
    sentinel, every other field and the reserved bits as they were. *)
Theorem mark_setters_isolated m a h b (Hm : inU 64 m) (Ha : inU 7 a) (Hh : inU 32 h) :
  view_of (with_age m a) = view_set_age (view_of m) a /\
  view_of (with_hash m h) = view_set_hash (view_of m) h /\
  view_of (with_near_death m b) = view_set_near_death (view_of m) b /\
  view_of (with_tagged_contents m b) = view_set_tagged (view_of m) b /\
  view_of (with_gc_mark m b) = view_set_gc_mark (view_of m) b.
Proof.
  rewrite with_age_fset, with_hash_fset by done.
  unfold with_near_death, with_tagged_contents, with_gc_mark.
  unfold MARK_NEAR_DEATH_MASK, MARK_TAGGED_CONTENTS_MASK, MARK_GC_MARK_MASK.
  rewrite !with_flag_fset by (done || (compute; discriminate)).
  unfold MARK_NEAR_DEATH_SHIFT, MARK_TAGGED_CONTENTS_SHIFT, MARK_GC_MARK_SHIFT.
  split_and!; mark_fields.
Qed.

Lemma mark_setters_isolated_witness :
  view_of (with_hash (with_age pristine 127) 0xDEADBEEF) =
    MkView MARK_TAG true false false 127 0xDEADBEEF false 0.
Proof.
  destruct (mark_setters_isolated (with_age pristine 127) 3 0xDEADBEEF true
              ltac:(vm_compute; split; congruence) ltac:(vm_compute; split; congruence)
              ltac:(vm_compute; split; congruence)) as (_ & H & _).
  rewrite H. reflexivity.
Defined.

(** The mark word carries nothing but its fields: two header words with
    the same abstract mark are the same word, and a word is never read both
    as a mark and as a forwarding pointer. *)
Theorem mark_view_faithful m1 m2 (H1 : inU 64 m1) (H2 : inU 64 m2) :
  (view_of m1 = view_of m2 -> m1 = m2) /\
  (word_is_forwarded m1 = true -> from_word m1 = None).
Proof.
  split.
  - rewrite !view_of_fields by done. intros E.
    pose proof (f_equal v_tag E) as E0. pose proof (f_equal v_sentinel E) as E2.
    pose proof (f_equal v_near_death E) as E3. pose proof (f_equal v_tagged E) as E4.
    pose proof (f_equal v_age E) as E5. pose proof (f_equal v_hash E) as E12.
    pose proof (f_equal v_gc_mark E) as E44. pose proof (f_equal v_reserved E) as E45.
    cbn [v_tag v_sentinel v_near_death v_tagged v_age v_hash v_gc_mark v_reserved] in *.
    clear E.
    rewrite <- (testbit_fget 2 m1), <- (testbit_fget 2 m2) in E2 by discriminate.
    rewrite <- (testbit_fget 3 m1), <- (testbit_fget 3 m2) in E3 by discriminate.
    rewrite <- (testbit_fget 4 m1), <- (testbit_fget 4 m2) in E4 by discriminate.
    rewrite <- (testbit_fget 44 m1), <- (testbit_fget 44 m2) in E44 by discriminate.
    pose proof (fget_agree 0 2 m1 m2 ltac:(discriminate) ltac:(discriminate) E0) as BE0.
    clear E0.
    pose proof (fget_agree 5 7 m1 m2 ltac:(discriminate) ltac:(discriminate) E5) as BE5.
    clear E5.
    pose proof (fget_agree 12 32 m1 m2 ltac:(discriminate) ltac:(discriminate) E12) as BE12.
    clear E12.
    pose proof (fget_agree 45 19 m1 m2 ltac:(discriminate) ltac:(discriminate) E45) as BE45.
    clear E45.
    apply Z.bits_inj'. intros i Hi. destruct (decide (64 <= i)).
    { by rewrite !(testbit_high 64) by (done || lia). }
    destruct (decide (i = 2 \/ i = 3 \/ i = 4 \/ i = 44)) as [H|H].
    { by destruct H as [->|[->|[->| ->]]]. }
    clear E2 E3 E4 E44.
    destruct (decide (i < 2)); [apply BE0; lia|].
    destruct (decide (i < 12)); [apply BE5; lia|].
    destruct (decide (i < 44)); [apply BE12; lia|]. apply BE45. lia.
  - unfold word_is_forwarded, from_word. intros ->%Z.eqb_eq. reflexivity.
Qed.

Lemma mark_view_faithful_witness :
  word_is_forwarded 0x1001 = true /\ from_word 0x1001 = None.
Proof.
  split; [reflexivity|].
  refine (proj2 (mark_view_faithful 0x1001 7 _ _) eq_refl); vm_compute; split; congruence.
Defined.
End Mark.
