(* ===== verification/Packed.v ===== *)
(** Packed words above the object header: a closure's home reference
    ([src/src/oops/home_ref.rs]), a compiled method's flags word and counters
    word ([src/src/bytecode/method.rs], [src/src/runtime/osr.rs]).  Each is
    stored in one small integer. *)
From S2P Require Import Prelude Oops.

(** ** Home references (oops/home_ref.rs) *)
Module HomeRef.
Record home_ref := MkHomeRef { proc : Z; serial : Z; fp : Z }.

Definition home_raw (h : home_ref) : Z :=
  Z.lor (Z.lor (u64 (Z.shiftl (proc h) HOME_REF_PROC_SHIFT))
               (u64 (Z.shiftl (serial h) HOME_REF_SERIAL_SHIFT)))
        (u64 (Z.shiftl (fp h) HOME_REF_FP_SHIFT)).

Definition pack_home_ref (h : home_ref) : option Z :=
  let raw := home_raw h in
  let signed := Z.shiftr (i64 (u64 (Z.shiftl raw 2))) 2 in
  SmallInt.new signed.

Definition unpack_home_ref (s : Z) : home_ref :=
  let raw := Z.land (u64 (SmallInt.value s)) HOME_REF_ALL_MASK in
  MkHomeRef (u8 (Z.shiftr raw HOME_REF_PROC_SHIFT))
            (u32 (Z.shiftr raw HOME_REF_SERIAL_SHIFT))
            (Z.land (Z.shiftr raw HOME_REF_FP_SHIFT) HOME_REF_FP_MAX).

Definition home_dead_sentinel : option Z := pack_home_ref (MkHomeRef 1 0 0).

(** The fields' widths: [u8], [u32] and the 22-bit frame index. *)
Definition home_ok (h : home_ref) : Prop :=
  inU 8 (proc h) /\ inU 32 (serial h) /\ inU 22 (fp h).

Lemma home_raw_fields h : home_ok h ->
  inU 62 (home_raw h) /\ fget 54 8 (home_raw h) = proc h /\
  fget 22 32 (home_raw h) = serial h /\ fget 0 22 (home_raw h) = fp h.
Proof.
  intros (Hp & Hs & Hf). unfold home_raw.
  change HOME_REF_PROC_SHIFT with 54. change HOME_REF_SERIAL_SHIFT with 22.
  change HOME_REF_FP_SHIFT with 0.
  rewrite (wrapU_shiftl 64 8), (wrapU_shiftl 64 32), (wrapU_shiftl 64 22) by (done || lia).
  rewrite !fget_lor by lia. split_and!.
  - apply inU_lor; [lia|apply inU_lor; [lia| |]|].
    + by apply (inU_shiftl 62 8).
    + by apply (inU_shiftl 62 32).
    + by apply (inU_shiftl 62 22).
  - rewrite fget_shiftl_same, (fget_shiftl_other _ _ 22 32), (fget_shiftl_other _ _ 0 22)
      by (done || lia). by rewrite !Z.lor_0_r.
  - rewrite (fget_shiftl_other _ _ 54 8), fget_shiftl_same, (fget_shiftl_other _ _ 0 22)
      by (done || lia). by rewrite Z.lor_0_r.
  - rewrite (fget_shiftl_other _ _ 54 8), (fget_shiftl_other _ _ 22 32), fget_shiftl_same
      by (done || lia). done.
Qed.

(** The 62-bit pattern is the whole value space of a small integer. *)
Lemma sign_extend_62 raw : inU 62 raw ->
  let v := Z.shiftr (i64 (u64 (Z.shiftl raw 2))) 2 in
  SMI_MIN <= v <= SMI_MAX /\ v mod 2 ^ 62 = raw.
Proof.
  unfold inU. intros Hr. cbn zeta. rewrite wrapS_wrapU by lia.
  rewrite Z.shiftl_mul_pow2, Z.shiftr_div_pow2 by lia. unfold wrapS.
  change (64 - 1) with 63. change SMI_MIN with (- 2 ^ 61). change SMI_MAX with (2 ^ 61 - 1).
  destruct (decide (raw < 2 ^ 61)).
  - rewrite (Z.mod_small (raw * 2 ^ 2 + 2 ^ 63)) by lia.
    replace (raw * 2 ^ 2 + 2 ^ 63 - 2 ^ 63) with (raw * 2 ^ 2) by lia.
    rewrite Z.div_mul by lia. split; [lia|]. apply Z.mod_small. lia.
  - replace (raw * 2 ^ 2 + 2 ^ 63) with (raw * 2 ^ 2 - 2 ^ 63 + 1 * 2 ^ 64) by lia.
    rewrite Z.mod_add, Z.mod_small by lia.
    replace (raw * 2 ^ 2 - 2 ^ 63 - 2 ^ 63) with ((raw - 2 ^ 62) * 2 ^ 2) by lia.
    rewrite Z.div_mul by lia. split; [lia|].
    replace (raw - 2 ^ 62) with (raw + (-1) * 2 ^ 62) by lia.
    rewrite Z.mod_add by lia. apply Z.mod_small. lia.
Qed.


Lemma unpack_fields raw v : inU 62 raw -> v mod 2 ^ 62 = raw -> inS 64 v ->
  Z.land (u64 v) HOME_REF_ALL_MASK = raw.
Proof.
  intros Hr Hv _. change HOME_REF_ALL_MASK with (Z.ones 62).
  rewrite Z.land_ones by lia. unfold wrapU.
  rewrite Z.mod_mod_divide by (exists 4; reflexivity). done.
Qed.

Lemma unpack_eq raw :
  inU 62 raw ->
  MkHomeRef (u8 (Z.shiftr raw HOME_REF_PROC_SHIFT)) (u32 (Z.shiftr raw HOME_REF_SERIAL_SHIFT))
    (Z.land (Z.shiftr raw HOME_REF_FP_SHIFT) HOME_REF_FP_MAX) =
  MkHomeRef (fget 54 8 raw) (fget 22 32 raw) (fget 0 22 raw).
Proof.
  intros Hr. change HOME_REF_PROC_SHIFT with 54. change HOME_REF_SERIAL_SHIFT with 22.
  change HOME_REF_FP_SHIFT with 0. change HOME_REF_FP_MAX with (Z.ones 22).
  f_equal; unfold fget, fmask; bitwise; rewrite ?Z.sub_0_r, ?Z.add_0_r; bit_cases.
Qed.

Lemma raw_of_fields raw : inU 62 raw ->
  home_raw (MkHomeRef (fget 54 8 raw) (fget 22 32 raw) (fget 0 22 raw)) = raw.
Proof.
  intros Hr. unfold home_raw. cbn [proc serial fp].
  change HOME_REF_PROC_SHIFT with 54. change HOME_REF_SERIAL_SHIFT with 22.
  change HOME_REF_FP_SHIFT with 0.
  rewrite (wrapU_shiftl 64 8), (wrapU_shiftl 64 32), (wrapU_shiftl 64 22)
    by (lia || (apply fget_in; lia)).
  apply Z.bits_inj'. intros i Hi. testbits.
  destruct (decide (62 <= i)).
  { rewrite (testbit_high 62 raw i) by (done || lia).
    rewrite (testbit_high 8), (testbit_high 32), (testbit_high 22)
      by (lia || (apply fget_in; lia)). done. }
  destruct (decide (54 <= i)).
  { rewrite (testbit_high 32 (fget 22 32 raw)), (testbit_high 22 (fget 0 22 raw))
      by (lia || (apply fget_in; lia)).
    rewrite (fget_testbit 54 8) by lia. btauto. }
  destruct (decide (22 <= i)).
  { rewrite (Z.testbit_neg_r _ (i - 54)) by lia.
    rewrite (testbit_high 22 (fget 0 22 raw)) by (lia || (apply fget_in; lia)).
    rewrite (fget_testbit 22 32) by lia. btauto. }
  rewrite (Z.testbit_neg_r _ (i - 54)), (Z.testbit_neg_r _ (i - 22)) by lia.
  rewrite (fget_testbit 0 22) by lia. btauto.
Qed.

Lemma smi_inS s : SmallInt.smi_ok s -> inS 64 (SmallInt.value s).
Proof. intros Hs. apply SmallInt.range_inS. by apply SmallInt.value_in_range. Qed.

Lemma pack_home_ref_ok h : home_ok h -> exists s, pack_home_ref h = Some s /\ SmallInt.smi_ok s /\ unpack_home_ref s = h.
Proof.
  intros Hh. destruct (home_raw_fields h Hh) as (Hr & E1 & E2 & E3).
  destruct (sign_extend_62 (home_raw h) Hr) as [Hv Hm].
  destruct (SmallInt.try_new_ok _ Hv) as (s & Es & Hs & Ev).
  exists s. split_and!; [exact Es|done|]. unfold unpack_home_ref. rewrite Ev.
  rewrite (unpack_fields (home_raw h)) by (done || by apply SmallInt.range_inS).
  rewrite unpack_eq, E1, E2, E3 by done. by destruct h.
Qed.

(** Home references are a bijective encoding: every (process, serial,
    frame) triple packs without a panic, unpacking gives it back, and every
    small integer is the packing of the triple it unpacks to.  The dead-home
    sentinel is the triple of process 1, so it never equals a live home. *)
Theorem home_ref_bijective :
  (forall h, home_ok h ->
     exists s, pack_home_ref h = Some s /\ SmallInt.smi_ok s /\ unpack_home_ref s = h) /\
  (forall s, SmallInt.smi_ok s ->
     home_ok (unpack_home_ref s) /\ pack_home_ref (unpack_home_ref s) = Some s) /\
  (forall s, home_dead_sentinel = Some s -> proc (unpack_home_ref s) = 1).
Proof.
  pose proof pack_home_ref_ok as Hrt.
  split_and!; [exact Hrt| |].
  - intros s Hs. set (raw := SmallInt.value s mod 2 ^ 62).
    assert (Hraw : inU 62 raw) by (apply Z.mod_pos_bound; lia).
    assert (Hu : unpack_home_ref s =
              MkHomeRef (fget 54 8 raw) (fget 22 32 raw) (fget 0 22 raw)).
    { unfold unpack_home_ref. rewrite (unpack_fields raw) by (done || by apply smi_inS).
      by apply unpack_eq. }
    rewrite Hu. split; [unfold home_ok; cbn; auto with winvm|].
    unfold pack_home_ref. rewrite raw_of_fields by done.
    destruct (sign_extend_62 raw Hraw) as [Hv Hm].
    enough (Z.shiftr (i64 (u64 (Z.shiftl raw 2))) 2 = SmallInt.value s) as ->
      by (by apply SmallInt.try_new_value).
    apply SmallInt.value_in_range in Hs as [Hs _].
    change SMI_MIN with (- 2 ^ 61) in *. change SMI_MAX with (2 ^ 61 - 1) in *.
    subst raw. set (v := Z.shiftr _ 2) in *.
    pose proof (Z.div_mod v (2 ^ 62) ltac:(discriminate)).
    pose proof (Z.div_mod (SmallInt.value s) (2 ^ 62) ltac:(discriminate)). lia.
  - intros s Es. destruct (Hrt (MkHomeRef 1 0 0)) as (s' & Es' & _ & Hu).
    { split_and!; vm_compute; split; congruence. }
    unfold home_dead_sentinel in Es. rewrite Es in Es'. injection Es' as <-. by rewrite Hu.
Qed.
End HomeRef.

(** ** Method flags (bytecode/method.rs): argc:4, ntemps:8, four flag bits,
    nctx:8, in one small integer *)
Module MethodFlags.
(** The flags field of a method holds a small integer; any other word is a
    panic ([None]). *)
Definition flags_value (w : Z) : option Z := SmallInt.value <$> SmallInt.try_from w.
Definition set_flags_value (v : Z) : option Z := SmallInt.new v.

Definition argc (w : Z) : option Z :=
  v ← flags_value w;
  Some (Z.shiftr (Z.land v METHOD_FLAGS_ARGC_MASK) METHOD_FLAGS_ARGC_SHIFT).
Definition ntemps (w : Z) : option Z :=
  v ← flags_value w;
  Some (Z.shiftr (Z.land v METHOD_FLAGS_NTEMPS_MASK) METHOD_FLAGS_NTEMPS_SHIFT).
Definition has_ctx (w : Z) : option bool :=
  v ← flags_value w; Some (negb (Z.land v METHOD_FLAGS_HAS_CTX_MASK =? 0)).
Definition is_block (w : Z) : option bool :=
  v ← flags_value w; Some (negb (Z.land v METHOD_FLAGS_IS_BLOCK_MASK =? 0)).
Definition prim_fails (w : Z) : option bool :=
  v ← flags_value w; Some (negb (Z.land v METHOD_FLAGS_PRIM_FAILS_MASK =? 0)).
Definition captures_ctx (w : Z) : option bool :=
  v ← flags_value w; Some (negb (Z.land v METHOD_FLAGS_CAPTURES_CTX_MASK =? 0)).
Definition nctx (w : Z) : option Z :=
  v ← flags_value w;
  Some (Z.shiftr (Z.land v METHOD_FLAGS_NCTX_MASK) METHOD_FLAGS_NCTX_SHIFT).

Definition set_flags (argc ntemps : Z) (has_ctx is_block prim_fails captures_ctx : bool)
    (nctx : Z) : option Z :=
  if negb ((argc <? Z.shiftl 1 METHOD_FLAGS_ARGC_BITS) && (ntemps <? Z.shiftl 1 METHOD_FLAGS_NTEMPS_BITS) &&
           (nctx <? Z.shiftl 1 METHOD_FLAGS_NCTX_BITS)) then None else
  let v := i64 (Z.shiftl argc METHOD_FLAGS_ARGC_SHIFT) in
  let v := Z.lor v (i64 (Z.shiftl ntemps METHOD_FLAGS_NTEMPS_SHIFT)) in
  let v := if has_ctx then Z.lor v METHOD_FLAGS_HAS_CTX_MASK else v in
  let v := if is_block then Z.lor v METHOD_FLAGS_IS_BLOCK_MASK else v in
  let v := if prim_fails then Z.lor v METHOD_FLAGS_PRIM_FAILS_MASK else v in
  let v := if captures_ctx then Z.lor v METHOD_FLAGS_CAPTURES_CTX_MASK else v in
  let v := Z.lor v (i64 (Z.shiftl nctx METHOD_FLAGS_NCTX_SHIFT)) in
  set_flags_value v.

(** The word [set_flags] builds, as an or of shifted fields. *)
Definition flag_bits (a t : Z) (hc ib pf cc : bool) (n : Z) : Z :=
  Z.lor (Z.lor (Z.lor (Z.lor (Z.lor (Z.lor (Z.shiftl a 0) (Z.shiftl t 4))
    (Z.shiftl (Z.b2z hc) 12)) (Z.shiftl (Z.b2z ib) 13)) (Z.shiftl (Z.b2z pf) 14))
    (Z.shiftl (Z.b2z cc) 15)) (Z.shiftl n 16).

Lemma wrapS_shiftl b s v : 0 <= s -> 0 <= b -> s + b <= 63 -> inU b v ->
  i64 (Z.shiftl v s) = Z.shiftl v s.
Proof.
  intros Hs Hb Hn Hv. apply wrapS_id; [lia|].
  pose proof (inU_shiftl 63 b s v Hs Hb Hn Hv) as H. unfold inU in H. unfold inS.
  change (64 - 1) with 63. lia.
Qed.

Lemma set_flags_bits a t hc ib pf cc n :
  inU 4 a -> inU 8 t -> inU 8 n ->
  set_flags a t hc ib pf cc n = SmallInt.new (flag_bits a t hc ib pf cc n).
Proof.
  intros Ha Ht Hn. unfold set_flags, set_flags_value, flag_bits.
  change (Z.shiftl 1 METHOD_FLAGS_ARGC_BITS) with (2 ^ 4). change (Z.shiftl 1 METHOD_FLAGS_NTEMPS_BITS) with (2 ^ 8). change (Z.shiftl 1 METHOD_FLAGS_NCTX_BITS) with (2 ^ 8).
  destruct Ha as [Ha0 Ha%Z.ltb_lt], Ht as [Ht0 Ht%Z.ltb_lt], Hn as [Hn0 Hn%Z.ltb_lt]. rewrite Ha, Ht, Hn. cbn [andb negb].
  apply Z.ltb_lt in Ha, Ht, Hn. assert (inU 4 a) as Ia by (split; done). assert (inU 8 t) as It by (split; done). assert (inU 8 n) as In by (split; done).
  f_equal.
  unfold METHOD_FLAGS_HAS_CTX_MASK, METHOD_FLAGS_IS_BLOCK_MASK,
    METHOD_FLAGS_PRIM_FAILS_MASK, METHOD_FLAGS_CAPTURES_CTX_MASK.
  rewrite !if_lor_shiftl.
  rewrite (wrapS_shiftl 4 METHOD_FLAGS_ARGC_SHIFT), (wrapS_shiftl 8 METHOD_FLAGS_NTEMPS_SHIFT),
    (wrapS_shiftl 8 METHOD_FLAGS_NCTX_SHIFT) by (done || discriminate).
  reflexivity.
Qed.

Lemma flag_bits_in a t hc ib pf cc n :
  inU 4 a -> inU 8 t -> inU 8 n -> inU 24 (flag_bits a t hc ib pf cc n).
Proof.
  intros Ha Ht Hn. unfold flag_bits.
  repeat (apply inU_lor; [lia| |]);
    first [ by apply (inU_shiftl 24 4) | by apply (inU_shiftl 24 8)
          | apply (inU_shiftl 24 1); auto with winvm ].
Qed.

(** Computes one field of [flag_bits]. *)
Ltac flag_field :=
  unfold flag_bits; rewrite !fget_lor by lia;
  repeat first
    [ rewrite fget_shiftl_same by auto with winvm
    | rewrite (fget_shiftl_other _ _ _ 4) by auto with winvm
    | rewrite (fget_shiftl_other _ _ _ 8) by auto with winvm
    | rewrite (fget_shiftl_other _ _ _ 1) by auto with winvm ];
  rewrite ?Z.lor_0_l, ?Z.lor_0_r; try reflexivity.

(** A method's flag word records exactly the shape it was built with:
    for every arity, temporary count and context size the bytecode format
    admits, [set_flags] stores a small integer and each accessor reads its
    own argument back. *)
Theorem method_flags_roundtrip a t hc ib pf cc n
    (Ha : 0 <= a <= METHOD_ARGC_MAX) (Ht : 0 <= t <= METHOD_NTEMPS_MAX) (Hn : 0 <= n <= 255) :
  exists w, set_flags a t hc ib pf cc n = Some w /\ SmallInt.smi_ok w /\
    argc w = Some a /\ ntemps w = Some t /\ has_ctx w = Some hc /\ is_block w = Some ib /\
    prim_fails w = Some pf /\ captures_ctx w = Some cc /\ nctx w = Some n.
Proof.
  assert (inU 4 a) by (unfold inU; change METHOD_ARGC_MAX with 15 in *; lia).
  assert (inU 8 t) by (unfold inU; change METHOD_NTEMPS_MAX with 255 in *; lia).
  assert (inU 8 n) by (unfold inU; lia).
  rewrite set_flags_bits by done.
  assert (Hb : inU 24 (flag_bits a t hc ib pf cc n)) by by apply flag_bits_in.
  set (v := flag_bits a t hc ib pf cc n) in *.
  destruct (SmallInt.try_new_ok v) as (w & Ew & Hw & Hv).
  { change SMI_MIN with (- 2 ^ 61). change SMI_MAX with (2 ^ 61 - 1). unfold inU in Hb. lia. }
  exists w. split; [exact Ew|]. split; [done|].
  unfold argc, ntemps, has_ctx, is_block, prim_fails, captures_ctx, nctx, flags_value,
    SmallInt.try_from. destruct Hw as [_ ->]. cbn [fmap option_fmap option_map mbind option_bind].
  rewrite Hv. unfold METHOD_FLAGS_HAS_CTX_MASK, METHOD_FLAGS_IS_BLOCK_MASK,
    METHOD_FLAGS_PRIM_FAILS_MASK, METHOD_FLAGS_CAPTURES_CTX_MASK.
  rewrite !flag_get, !testbit_fget by discriminate.
  change (Z.shiftr (Z.land v METHOD_FLAGS_ARGC_MASK) METHOD_FLAGS_ARGC_SHIFT) with (fget 0 4 v).
  change (Z.shiftr (Z.land v METHOD_FLAGS_NTEMPS_MASK) METHOD_FLAGS_NTEMPS_SHIFT)
    with (fget 4 8 v).
  change (Z.shiftr (Z.land v METHOD_FLAGS_NCTX_MASK) METHOD_FLAGS_NCTX_SHIFT) with (fget 16 8 v).
  change METHOD_FLAGS_HAS_CTX_SHIFT with 12. change METHOD_FLAGS_IS_BLOCK_SHIFT with 13.
  change METHOD_FLAGS_PRIM_FAILS_SHIFT with 14. change METHOD_FLAGS_CAPTURES_CTX_SHIFT with 15.
  subst v. split_and!; f_equal; flag_field; by apply Mark.b2z_eqb1.
Qed.

Lemma method_flags_roundtrip_witness :
  exists w, set_flags 15 255 true false true false 200 = Some w /\ nctx w = Some 200.
Proof.
  destruct (method_flags_roundtrip 15 255 true false true false 200)
    as (w & Hs & _ & _ & _ & _ & _ & _ & _ & Hn);
    [vm_compute; split; congruence .. |].
  exists w. split; [exact Hs | exact Hn].
Defined.
End MethodFlags.

(** ** Method counters (bytecode/method.rs, runtime/osr.rs): the invocation
    counter in bits 0-15, the loop counter in bits 16-31, the breakpoint flag
    at bit 32 and the compile-disabled flag at bit 33 *)
Module Counters.
Definition counters (w : Z) : option Z := SmallInt.value <$> SmallInt.try_from w.
Definition set_counters (v : Z) : option Z := SmallInt.new v.

Definition compile_disabled (w : Z) : option bool :=
  c ← counters w; Some (negb (Z.land c COUNTERS_COMPILE_DISABLED_BIT =? 0)).
Definition set_compile_disabled (w : Z) : option Z := set_counters COUNTERS_COMPILE_DISABLED_BIT.
Definition clear_compile_disabled (w : Z) : option Z :=
  c ← counters w; set_counters (Z.land c (Z.lnot COUNTERS_COMPILE_DISABLED_BIT)).
Definition has_bp (w : Z) : option bool :=
  c ← counters w; Some (negb (Z.land c COUNTERS_HAS_BP_BIT =? 0)).
Definition set_has_bp (w : Z) : option Z :=
  c ← counters w; set_counters (Z.lor c COUNTERS_HAS_BP_BIT).
Definition clear_has_bp (w : Z) : option Z :=
  c ← counters w; set_counters (Z.land c (Z.lnot COUNTERS_HAS_BP_BIT)).

(** [i64::clamp]. *)
Definition clamp (n lo hi : Z) : Z := if n <? lo then lo else if hi <? n then hi else n.

(** Answers the new word and whether the counter was raised. *)
Definition saturate_invocation (w n : Z) : option (Z * bool) :=
  c ← counters w;
  let cur := Z.land c COUNTERS_INVOCATION_MASK in
  let want := clamp n 0 COUNTERS_INVOCATION_MAX in
  if want <=? cur then Some (w, false)
  else
    w' ← set_counters (Z.lor (Z.land c (Z.lnot COUNTERS_INVOCATION_MASK)) want);
    Some (w', true).

(** Answers the new word and whether the loop limit is reached. *)
Definition bump_loop_counter (w : Z) : option (Z * bool) :=
  c ← counters w;
  let cur := Z.shiftr (Z.land c COUNTERS_LOOP_MASK) COUNTERS_LOOP_SHIFT in
  let bumped := Z.min (cur + 1) 0xFFFF in
  w' ← set_counters (Z.lor (Z.land c (Z.lnot COUNTERS_LOOP_MASK))
                            (i64 (Z.shiftl bumped COUNTERS_LOOP_SHIFT)));
  Some (w', LOOP_COUNTER_LIMIT <=? bumped).

Definition reset_loop_counter (w : Z) : option Z :=
  c ← counters w; set_counters (Z.land c (Z.lnot COUNTERS_LOOP_MASK)).

(** The abstract counter state of a method. *)
Record state := MkState {
  st_invocations : Z; st_loop : Z; st_bp : bool; st_disabled : bool }.

Definition state_of (c : Z) : state :=
  MkState (fget 0 16 c) (fget 16 16 c) (fget 32 1 c =? 1) (fget 33 1 c =? 1).

(** A counters word in use: a small integer of 34 bits. *)
Definition represents (w : Z) (st : state) : Prop :=
  SmallInt.smi_ok w /\ inU 34 (SmallInt.value w) /\ state_of (SmallInt.value w) = st.

(** The operations on abstract states. *)
Inductive op := Bump | Reset | Saturate (n : Z) | Disable | Enable | SetBp | ClearBp.

#[export] Instance op_eq_dec : EqDecision op.
Proof. solve_decision. Defined.

Definition exec (o : op) (w : Z) : option Z :=
  match o with
  | Bump => fst <$> bump_loop_counter w
  | Reset => reset_loop_counter w
  | Saturate n => fst <$> saturate_invocation w n
  | Disable => set_compile_disabled w
  | Enable => clear_compile_disabled w
  | SetBp => set_has_bp w
  | ClearBp => clear_has_bp w
  end.

Definition spec (o : op) (st : state) : state :=
  let '(MkState i l b d) := st in
  match o with
  | Bump => MkState i (Z.min (l + 1) 0xFFFF) b d
  | Reset => MkState i 0 b d
  | Saturate n => MkState (Z.max i (Z.min (Z.max n 0) 0xFFFF)) l b d
  | Disable => MkState 0 0 false true
  | Enable => MkState i l b false
  | SetBp => MkState i l true d
  | ClearBp => MkState i l false d
  end.

Lemma counters_of w : SmallInt.smi_ok w -> counters w = Some (SmallInt.value w).
Proof. intros [_ H]. unfold counters, SmallInt.try_from. by rewrite H. Qed.

Lemma set_counters_ok c : inU 34 c ->
  exists w, set_counters c = Some w /\ represents w (state_of c).
Proof.
  intros Hc. destruct (SmallInt.try_new_ok c) as (w & Ew & Hw & Hv).
  { unfold inU in Hc. change SMI_MIN with (- 2 ^ 61). change SMI_MAX with (2 ^ 61 - 1). lia. }
  exists w. split; [exact Ew|]. unfold represents. by rewrite Hv.
Qed.

Lemma clamp_eq n : clamp n 0 COUNTERS_INVOCATION_MAX = Z.min (Z.max n 0) 0xFFFF.
Proof.
  unfold clamp. change COUNTERS_INVOCATION_MAX with 0xFFFF.
  destruct (Z.ltb_spec n 0), (Z.ltb_spec 0xFFFF n); lia.
Qed.

Lemma bump_in c : inU 16 (Z.min (fget 16 16 c + 1) 0xFFFF).
Proof. pose proof (fget_in 16 16 ltac:(lia) ltac:(lia) c). unfold inU in *. lia. Qed.

(** Writing one field of a counters word. *)
Lemma write_field s b c v : inU 34 c -> 0 <= s -> 0 <= b -> s + b <= 34 -> inU b v ->
  exists w, set_counters (fset s b c v) = Some w /\ represents w (state_of (fset s b c v)).
Proof. intros Hc Hs Hb Hn Hv. apply set_counters_ok. by apply fset_in. Qed.

(** Each operation on a counters value is one field write. *)
Lemma exec_field o w : SmallInt.smi_ok w -> o <> Disable ->
  let c := SmallInt.value w in
  exec o w =
    match o with
    | Bump => set_counters (fset 16 16 c (Z.min (fget 16 16 c + 1) 0xFFFF))
    | Reset => set_counters (fset 16 16 c 0)
    | Saturate n =>
        if clamp n 0 COUNTERS_INVOCATION_MAX <=? fget 0 16 c then Some w
        else set_counters (fset 0 16 c (clamp n 0 COUNTERS_INVOCATION_MAX))
    | Enable => set_counters (fset 33 1 c 0)
    | SetBp => set_counters (fset 32 1 c 1)
    | ClearBp => set_counters (fset 32 1 c 0)
    | Disable => None
    end.
Proof.
  intros Hw Hne c. destruct o; cbn [exec]; try done.
  - unfold bump_loop_counter. rewrite counters_of by done.
    cbn [mbind option_bind]. fold c.
    change (Z.shiftr (Z.land c COUNTERS_LOOP_MASK) COUNTERS_LOOP_SHIFT) with (fget 16 16 c).
    rewrite (MethodFlags.wrapS_shiftl 16) by (discriminate || apply bump_in).
    change (Z.lor _ _) with (fset 16 16 c (Z.min (fget 16 16 c + 1) 0xFFFF)).
    by destruct (set_counters _).
  - unfold reset_loop_counter. rewrite counters_of by done. cbn [mbind option_bind]. fold c.
    unfold fset. by rewrite Z.shiftl_0_l, Z.lor_0_r.
  - unfold saturate_invocation. rewrite counters_of by done. cbn [mbind option_bind]. fold c.
    replace (Z.land c COUNTERS_INVOCATION_MASK) with (fget 0 16 c)
      by (unfold fget; by rewrite Z.shiftr_0_r).
    destruct (_ <=? _); [done|]. unfold fset. rewrite Z.shiftl_0_r.
    change (fmask 0 16) with COUNTERS_INVOCATION_MASK. by destruct (set_counters _).
  - unfold clear_compile_disabled. rewrite counters_of by done. cbn [mbind option_bind].
    by rewrite <- flag_clear.
  - unfold set_has_bp. rewrite counters_of by done. cbn [mbind option_bind].
    by rewrite <- flag_set.
  - unfold clear_has_bp. rewrite counters_of by done. cbn [mbind option_bind].
    by rewrite <- flag_clear.
Qed.

(** Discharges one operation: writes field [s, s+b) and reads the others. *)
Ltac field_write s b :=
  match goal with
  | |- context [set_counters (fset s b ?c ?v)] =>
      let w' := fresh "w'" in let E := fresh "E" in let HR := fresh "HR" in
      destruct (write_field s b c v) as (w' & E & HR); [try lia; auto ..|];
      exists w'; split; [exact E|]; revert HR; unfold state_of;
      rewrite ?fget_fset by field_side; rewrite ?fget_fset_other by field_side; done
  end.

(** The counters word refines the abstract counter state: the loop
    counter saturates at 65535, saturation only ever raises the invocation
    counter, and no operation on one counter or flag disturbs another, except
    that disabling compilation rewrites the whole word.  In particular a loop
    backedge never clears the compile-disabled bit. *)
Theorem counters_refine o w st (Hw : represents w st) :
  exists w', exec o w = Some w' /\ represents w' (spec o st).
Proof.
  destruct Hw as (Hs & Hc & <-). set (c := SmallInt.value w) in *.
  destruct (decide (o = Disable)) as [->|Hne].
  { destruct (set_counters_ok COUNTERS_COMPILE_DISABLED_BIT) as (w' & E & H);
      [vm_compute; split; congruence|]. by exists w'. }
  rewrite exec_field by done. fold c.
  pose proof (fget_in 16 16 ltac:(lia) ltac:(lia) c) as Hl.
  pose proof (fget_in 0 16 ltac:(lia) ltac:(lia) c) as Hi.
  assert (inU 1 0 /\ inU 1 1 /\ inU 16 0) as (? & ? & ?) by (unfold inU; lia).
  destruct o as [| |n| | | |]; try done.
  - pose proof (bump_in c). field_write 16 16.
  - field_write 16 16.
  - rewrite clamp_eq. destruct (Z.leb_spec (Z.min (Z.max n 0) 0xFFFF) (fget 0 16 c)).
    + exists w. split; [done|]. split; [done|]. split; [done|]. unfold state_of. fold c.
      cbn [spec]. by rewrite Z.max_l by lia.
    + assert (inU 16 (Z.min (Z.max n 0) 65535)) by (unfold inU; lia).
      unfold state_of. cbn [spec]. rewrite (Z.max_r (fget 0 16 c)) by lia. field_write 0 16.
  - field_write 33 1.
  - field_write 32 1.
  - field_write 32 1.
Qed.

(** A disabled method at the loop limit: one more backedge keeps the bit. *)
Lemma counters_refine_witness :
  exists w', exec Bump (4 * (2 ^ 33 + 9999 * 65536)) = Some w' /\
    represents w' (MkState 0 10000 false true).
Proof.
  apply (counters_refine Bump _ (MkState 0 9999 false true)).
  split; [split; [vm_compute; split; congruence | reflexivity]|].
  split; [vm_compute; split; congruence | reflexivity].
Defined.
End Counters.
