(* ===== verification/Bytecode.v ===== *)
(** The bytecode instruction set ([src/src/bytecode/opcode.rs]): opcode
    values, the decoded form of an instruction and [decode_at].

    A method's bytecode is a list of byte values; reading past its end is the
    bounds assertion of [MethodOop::bytecode_byte] and, like the undefined
    opcode panic, is [None]. *)
From S2P Require Import Prelude Oops.

Module Opcode.
Definition OP_PUSH_SELF : Z := 0x00.
Definition OP_PUSH_NIL : Z := 0x01.
Definition OP_PUSH_TRUE : Z := 0x02.
Definition OP_PUSH_FALSE : Z := 0x03.
Definition OP_PUSH_SMI_I8 : Z := 0x04.
Definition OP_PUSH_LITERAL : Z := 0x05.
Definition OP_PUSH_TEMP : Z := 0x06.
Definition OP_STORE_TEMP : Z := 0x07.
Definition OP_STORE_TEMP_POP : Z := 0x08.
Definition OP_PUSH_INSTVAR : Z := 0x09.
Definition OP_STORE_INSTVAR_POP : Z := 0x0A.
Definition OP_PUSH_GLOBAL : Z := 0x0B.
Definition OP_STORE_GLOBAL_POP : Z := 0x0C.
Definition OP_POP : Z := 0x0D.
Definition OP_DUP : Z := 0x0E.
Definition OP_PUSH_CTX_TEMP : Z := 0x0F.
Definition OP_STORE_CTX_TEMP_POP : Z := 0x10.
Definition OP_PUSH_CLOSURE : Z := 0x11.
Definition OP_PUSH_LITERAL_W : Z := 0x12.
Definition OP_SEND : Z := 0x20.
Definition OP_SEND_SUPER : Z := 0x21.
Definition OP_SEND_W : Z := 0x22.
Definition OP_SEND_SUPER_W : Z := 0x23.
Definition OP_JUMP_FWD : Z := 0x30.
Definition OP_JUMP_BACK : Z := 0x31.
Definition OP_BR_TRUE_FWD : Z := 0x32.
Definition OP_BR_FALSE_FWD : Z := 0x33.
Definition OP_RETURN_TOS : Z := 0x40.
Definition OP_RETURN_SELF : Z := 0x41.
Definition OP_BLOCK_RETURN_TOS : Z := 0x42.
Definition OP_NLR_TOS : Z := 0x43.

Inductive Instr :=
  | PushSelf | PushNil | PushTrue | PushFalse
  | PushSmi (v : Z)
  | PushLiteral (i : Z)
  | PushTemp (t : Z)
  | StoreTemp (t : Z)
  | StoreTempPop (t : Z)
  | PushInstvar (i : Z)
  | StoreInstvarPop (i : Z)
  | PushGlobal (i : Z)
  | StoreGlobalPop (i : Z)
  | Pop | Dup
  | PushCtxTemp (depth idx : Z)
  | StoreCtxTempPop (depth idx : Z)
  | PushClosure (lit ncopied : Z)
  | Send (ic : Z) (super_ : bool)
  | JumpFwd (d : Z) | JumpBack (d : Z) | BrTrueFwd (d : Z) | BrFalseFwd (d : Z)
  | ReturnTos | ReturnSelf | BlockReturnTos | NlrTos.

#[export] Instance Instr_eq_dec : EqDecision Instr.
Proof. solve_decision. Defined.

Definition bytecode_byte (m : list Z) (bci : Z) : option Z := zlookup m bci.

Definition read_u16 (m : list Z) (bci : Z) : option Z :=
  lo ← bytecode_byte m bci;
  hi ← bytecode_byte m (bci + 1);
  Some (Z.lor lo (Z.shiftl hi 8)).

(** One operand byte, and the instruction's successor. *)
Definition op1 (m : list Z) (bci : Z) (k : Z -> Instr) : option (Instr * Z) :=
  b ← bytecode_byte m (bci + 1); Some (k b, bci + 2).
Definition op2 (m : list Z) (bci : Z) (k : Z -> Z -> Instr) : option (Instr * Z) :=
  a ← bytecode_byte m (bci + 1); b ← bytecode_byte m (bci + 2); Some (k a b, bci + 3).
Definition op16 (m : list Z) (bci : Z) (k : Z -> Instr) : option (Instr * Z) :=
  v ← read_u16 m (bci + 1); Some (k v, bci + 3).

Definition decode_at (m : list Z) (bci : Z) : option (Instr * Z) :=
  op ← bytecode_byte m bci;
  if op =? OP_PUSH_SELF then Some (PushSelf, bci + 1)
  else if op =? OP_PUSH_NIL then Some (PushNil, bci + 1)
  else if op =? OP_PUSH_TRUE then Some (PushTrue, bci + 1)
  else if op =? OP_PUSH_FALSE then Some (PushFalse, bci + 1)
  else if op =? OP_PUSH_SMI_I8 then op1 m bci (fun b => PushSmi (i8 b))
  else if op =? OP_PUSH_LITERAL then op1 m bci PushLiteral
  else if op =? OP_PUSH_TEMP then op1 m bci PushTemp
  else if op =? OP_STORE_TEMP then op1 m bci StoreTemp
  else if op =? OP_STORE_TEMP_POP then op1 m bci StoreTempPop
  else if op =? OP_PUSH_INSTVAR then op1 m bci PushInstvar
  else if op =? OP_STORE_INSTVAR_POP then op1 m bci StoreInstvarPop
  else if op =? OP_PUSH_GLOBAL then op1 m bci PushGlobal
  else if op =? OP_STORE_GLOBAL_POP then op1 m bci StoreGlobalPop
  else if op =? OP_POP then Some (Pop, bci + 1)
  else if op =? OP_DUP then Some (Dup, bci + 1)
  else if op =? OP_PUSH_CTX_TEMP then op2 m bci PushCtxTemp
  else if op =? OP_STORE_CTX_TEMP_POP then op2 m bci StoreCtxTempPop
  else if op =? OP_PUSH_CLOSURE then op2 m bci PushClosure
  else if op =? OP_PUSH_LITERAL_W then op16 m bci PushLiteral
  else if op =? OP_SEND then op1 m bci (fun ic => Send ic false)
  else if op =? OP_SEND_SUPER then op1 m bci (fun ic => Send ic true)
  else if op =? OP_SEND_W then op16 m bci (fun ic => Send ic false)
  else if op =? OP_SEND_SUPER_W then op16 m bci (fun ic => Send ic true)
  else if op =? OP_JUMP_FWD then op16 m bci JumpFwd
  else if op =? OP_JUMP_BACK then op16 m bci JumpBack
  else if op =? OP_BR_TRUE_FWD then op16 m bci BrTrueFwd
  else if op =? OP_BR_FALSE_FWD then op16 m bci BrFalseFwd
  else if op =? OP_RETURN_TOS then Some (ReturnTos, bci + 1)
  else if op =? OP_RETURN_SELF then Some (ReturnSelf, bci + 1)
  else if op =? OP_BLOCK_RETURN_TOS then Some (BlockReturnTos, bci + 1)
  else if op =? OP_NLR_TOS then Some (NlrTos, bci + 1)
  else None.
End Opcode.
Export Opcode.

(** ** The assembler's view of an instruction

    [encode] is the byte sequence the builder emits for an instruction: it
    picks the narrow form whenever the index fits a byte. *)
Module Encoding.
Definition le16 (v : Z) : list Z := [Z.land v 0xFF; Z.shiftr v 8].

Definition encode (i : Instr) : list Z :=
  match i with
  | PushSelf => [OP_PUSH_SELF]
  | PushNil => [OP_PUSH_NIL]
  | PushTrue => [OP_PUSH_TRUE]
  | PushFalse => [OP_PUSH_FALSE]
  | PushSmi v => [OP_PUSH_SMI_I8; u8 v]
  | PushLiteral i => if i <=? 255 then [OP_PUSH_LITERAL; i] else OP_PUSH_LITERAL_W :: le16 i
  | PushTemp t => [OP_PUSH_TEMP; t]
  | StoreTemp t => [OP_STORE_TEMP; t]
  | StoreTempPop t => [OP_STORE_TEMP_POP; t]
  | PushInstvar i => [OP_PUSH_INSTVAR; i]
  | StoreInstvarPop i => [OP_STORE_INSTVAR_POP; i]
  | PushGlobal i => [OP_PUSH_GLOBAL; i]
  | StoreGlobalPop i => [OP_STORE_GLOBAL_POP; i]
  | Pop => [OP_POP]
  | Dup => [OP_DUP]
  | PushCtxTemp d x => [OP_PUSH_CTX_TEMP; d; x]
  | StoreCtxTempPop d x => [OP_STORE_CTX_TEMP_POP; d; x]
  | PushClosure l n => [OP_PUSH_CLOSURE; l; n]
  | Send ic false => if ic <=? 255 then [OP_SEND; ic] else OP_SEND_W :: le16 ic
  | Send ic true => if ic <=? 255 then [OP_SEND_SUPER; ic] else OP_SEND_SUPER_W :: le16 ic
  | JumpFwd d => OP_JUMP_FWD :: le16 d
  | JumpBack d => OP_JUMP_BACK :: le16 d
  | BrTrueFwd d => OP_BR_TRUE_FWD :: le16 d
  | BrFalseFwd d => OP_BR_FALSE_FWD :: le16 d
  | ReturnTos => [OP_RETURN_TOS]
  | ReturnSelf => [OP_RETURN_SELF]
  | BlockReturnTos => [OP_BLOCK_RETURN_TOS]
  | NlrTos => [OP_NLR_TOS]
  end.

(** Operand widths: [i8], [u8] and [u16]. *)
Definition instr_ok (i : Instr) : Prop :=
  match i with
  | PushSmi v => inS 8 v
  | PushLiteral i => inU 16 i
  | PushTemp t | StoreTemp t | StoreTempPop t => inU 8 t
  | PushInstvar i | StoreInstvarPop i | PushGlobal i | StoreGlobalPop i => inU 8 i
  | PushCtxTemp d x | StoreCtxTempPop d x => inU 8 d /\ inU 8 x
  | PushClosure l n => inU 8 l /\ inU 8 n
  | Send ic _ => inU 16 ic
  | JumpFwd d | JumpBack d | BrTrueFwd d | BrFalseFwd d => inU 16 d
  | _ => True
  end.

#[export] Instance instr_ok_dec i : Decision (instr_ok i).
Proof. destruct i; cbn [instr_ok]; apply _. Defined.

Definition is_return (i : Instr) : bool :=
  match i with ReturnTos | ReturnSelf | BlockReturnTos | NlrTos => true | _ => false end.

(** Where control can go from [i] at a position whose successor is [next]. *)
Definition jump_target (i : Instr) (next : Z) : option Z :=
  match i with
  | JumpFwd d | BrTrueFwd d | BrFalseFwd d => Some (next + d)
  | JumpBack d => Some (next - d)
  | _ => None
  end.

Lemma le16_value v : inU 16 v -> Z.lor (Z.land v 0xFF) (Z.shiftl (Z.shiftr v 8) 8) = v.
Proof.
  intros Hv. change 0xFF with (Z.ones 8). apply Z.bits_inj'. intros i Hi. testbits.
  destruct (Z.ltb_spec i 8).
  - rewrite (Z.testbit_neg_r _ (i - 8)) by lia. bit_cases.
  - testbits. replace (i - 8 + 8) with i by lia. bit_cases.
Qed.

Lemma le16_bytes v : inU 16 v -> Forall (inU 8) (le16 v).
Proof.
  intros Hv. unfold le16. change 0xFF with (Z.ones 8). rewrite Z.land_ones by lia.
  rewrite Z.shiftr_div_pow2 by lia.
  constructor; [apply Z.mod_pos_bound; lia|constructor; [|constructor]].
  unfold inU in *. split; [apply Z.div_pos; lia|apply Z.div_lt_upper_bound; lia].
Qed.

Lemma bytecode_byte_0 pre op post : bytecode_byte (pre ++ op :: post) (zlen pre) = Some op.
Proof. apply zlookup_mid. Qed.

Lemma bytecode_byte_1 pre op b post :
  bytecode_byte (pre ++ op :: b :: post) (zlen pre + 1) = Some b.
Proof. unfold bytecode_byte. by rewrite zlookup_mid_off by lia. Qed.

Lemma bytecode_byte_2 pre op b c post :
  bytecode_byte (pre ++ op :: b :: c :: post) (zlen pre + 2) = Some c.
Proof. unfold bytecode_byte. by rewrite zlookup_mid_off by lia. Qed.

Lemma read_u16_1 pre op v post :
  inU 16 v -> read_u16 (pre ++ op :: le16 v ++ post) (zlen pre + 1) = Some v.
Proof.
  intros Hv. unfold read_u16, le16. cbn [app]. rewrite bytecode_byte_1.
  replace (zlen pre + 1 + 1) with (zlen pre + 2) by lia.
  rewrite bytecode_byte_2. cbn [mbind option_bind]. by rewrite le16_value.
Qed.

(** Decoding in the middle of a stream sees exactly the instruction there. *)
Lemma decode_encode_mid pre i post : instr_ok i ->
  decode_at (pre ++ encode i ++ post) (zlen pre) = Some (i, zlen pre + zlen (encode i)).
Proof.
  intros Hi.
  assert (Hop : forall op rest, bytecode_byte (pre ++ (op :: rest) ++ post) (zlen pre) = Some op)
    by (intros; apply bytecode_byte_0).
  assert (H1 : forall op b, bytecode_byte (pre ++ [op; b] ++ post) (zlen pre + 1) = Some b)
    by (intros; apply bytecode_byte_1).
  assert (H2 : forall op b c, bytecode_byte (pre ++ [op; b; c] ++ post) (zlen pre + 1) = Some b /\
                 bytecode_byte (pre ++ [op; b; c] ++ post) (zlen pre + 2) = Some c)
    by (intros; split; [apply bytecode_byte_1|apply bytecode_byte_2]).
  assert (H16 : forall op v, inU 16 v ->
                  read_u16 (pre ++ (op :: le16 v) ++ post) (zlen pre + 1) = Some v)
    by (intros; by apply read_u16_1).
  unfold decode_at, op1, op2, op16.
  destruct i as [| | | |v|l|t|t|t|k|k|k|k| | |d x|d x|l n|ic []|d|d|d|d| | | |];
    cbn [encode instr_ok] in *; repeat case_match;
    rewrite Hop; cbn -[i8 bytecode_byte read_u16 app zlen le16]; try reflexivity.
  all: try (rewrite H1; cbn -[i8 zlen]; rewrite ?wrapS_wrapU, ?wrapS_id by (done || lia); reflexivity).
  all: try (rewrite H16 by done; reflexivity).
  all: rewrite (proj1 (H2 _ _ _)), (proj2 (H2 _ _ _)); reflexivity.
Qed.

Lemma decode_encode_at code pre i post :
  code = pre ++ encode i ++ post -> instr_ok i ->
  decode_at code (zlen pre) = Some (i, zlen pre + zlen (encode i)).
Proof. intros -> Hi. by apply decode_encode_mid. Qed.

Lemma encode_len i : 1 <= zlen (encode i) <= 3.
Proof. destruct i; cbn; repeat case_match; unfold le16, zlen; cbn; lia. Qed.

(** The addresses and instructions of a stream, decoded from [bci] on. *)
Fixpoint decode_from (fuel : nat) (m : list Z) (bci : Z) : option (list (Z * Instr)) :=
  match fuel with
  | O => None
  | S fuel =>
      if bci <? zlen m then
        '(i, next) ← decode_at m bci;
        rest ← decode_from fuel m next;
        Some ((bci, i) :: rest)
      else Some []
  end.

Definition decode_all (m : list Z) : option (list (Z * Instr)) :=
  decode_from (S (length m)) m 0.

Fixpoint with_addr (a : Z) (is_ : list Instr) : list (Z * Instr) :=
  match is_ with
  | [] => []
  | i :: is_ => (a, i) :: with_addr (a + zlen (encode i)) is_
  end.

Lemma decode_from_encode is_ : forall fuel pre,
  Forall instr_ok is_ -> (length is_ < fuel)%nat ->
  decode_from fuel (pre ++ concat (encode <$> is_)) (zlen pre) = Some (with_addr (zlen pre) is_).
Proof.
  induction is_ as [|i is_ IH]; intros [|fuel] pre Hok Hf; cbn in Hf; try lia; cbn.
  - rewrite app_nil_r. by rewrite Z.ltb_irrefl.
  - inversion_clear Hok. destruct (Z.ltb_spec (zlen pre)
      (zlen (pre ++ encode i ++ concat (encode <$> is_)))) as [_|Hle].
    2:{ rewrite !zlen_app in Hle. pose proof (encode_len i).
        pose proof (zlen_nonneg (concat (encode <$> is_))). lia. }
    rewrite decode_encode_mid by done. cbn.
    rewrite app_assoc, <- zlen_app, IH by (done || lia). done.
Qed.

Lemma encode_fuel is_ : (length is_ <= length (concat (encode <$> is_)))%nat.
Proof.
  induction is_ as [|i is_ IH]; cbn; [lia|]. rewrite length_app.
  pose proof (encode_len i) as H. unfold zlen in H. lia.
Qed.

(** Assembling and disassembling are inverse: the bytes of any sequence
    of well-formed instructions decode, from the first byte on, to that same
    sequence at consecutive addresses, with no byte left over. *)
Theorem decode_all_encode is_ (Hok : Forall instr_ok is_) :
  decode_all (concat (encode <$> is_)) = Some (with_addr 0 is_).
Proof.
  unfold decode_all. apply (decode_from_encode is_ _ []); [done|].
  pose proof (encode_fuel is_). lia.
Qed.

Lemma decode_all_encode_witness :
  let is_ := [PushLiteral 300; Send 7 true; JumpBack 5; PushSmi (-3); ReturnTos] in
  decode_all (concat (encode <$> is_)) = Some (with_addr 0 is_).
Proof.
  intros is_. apply (decode_all_encode is_). apply (bool_decide_unpack _). vm_compute. exact I.
Defined.
End Encoding.
