(* ===== verification/Builder.v ===== *)
(** The bytecode assembler ([src/src/bytecode/builder.rs]).

    The builder's literals and send selectors live in handles, so a garbage
    collection during the session rewrites them in place: an oop is a word,
    and a collection is a relocation [f : Z -> Z] applied to every handle
    ([OMove]).  The keys of [literal_index] are raw words that no collection
    touches, exactly as in the source.  A failed assertion or an index out of
    bounds is [None]. *)
From S2P Require Import Prelude Oops Packed Bytecode.
From stdpp Require Import gmap.
Import Encoding.
#[local] Open Scope Z_scope.

Module BytecodeBuilder.
Inductive label_state := Bound (bci : Z) | Unbound (sites : list Z).

Record builder := MkBuilder {
  code : list Z;
  literals : list Z;
  literal_index : gmap Z Z;
  n_ics : Z;
  ic_sites : list (Z * Z);
  labels : list label_state;
  line_map : list (Z * Z) }.

Definition new : builder := MkBuilder [] [] ∅ 0 [] [] [].

Definition set_code (c : list Z) (b : builder) : builder :=
  MkBuilder c (literals b) (literal_index b) (n_ics b) (ic_sites b) (labels b) (line_map b).
Definition set_labels (l : list label_state) (b : builder) : builder :=
  MkBuilder (code b) (literals b) (literal_index b) (n_ics b) (ic_sites b) l (line_map b).

Definition here (b : builder) : Z := zlen (code b).

Definition note_line (line : Z) (b : builder) : builder :=
  if line =? 0 then b
  else if match list.last (line_map b) with Some (_, l) => l =? line | None => false end then b
  else MkBuilder (code b) (literals b) (literal_index b) (n_ics b) (ic_sites b) (labels b)
         (line_map b ++ [(u16 (here b), line)]).

Definition emit_u8 (x : Z) (b : builder) : builder := set_code (code b ++ [x]) b.
Definition emit_u16 (v : Z) (b : builder) : builder :=
  emit_u8 (u8 (Z.shiftr v 8)) (emit_u8 (u8 (Z.land v 0xFF)) b).

Definition push_self (b : builder) : builder := emit_u8 OP_PUSH_SELF b.
Definition push_nil (b : builder) : builder := emit_u8 OP_PUSH_NIL b.
Definition push_true (b : builder) : builder := emit_u8 OP_PUSH_TRUE b.
Definition push_false (b : builder) : builder := emit_u8 OP_PUSH_FALSE b.
Definition push_smi_i8 (v : Z) (b : builder) : builder := emit_u8 (u8 v) (emit_u8 OP_PUSH_SMI_I8 b).
Definition push_temp (t : Z) (b : builder) : builder := emit_u8 t (emit_u8 OP_PUSH_TEMP b).
Definition store_temp (t : Z) (b : builder) : builder := emit_u8 t (emit_u8 OP_STORE_TEMP b).
Definition store_temp_pop (t : Z) (b : builder) : builder :=
  emit_u8 t (emit_u8 OP_STORE_TEMP_POP b).
Definition push_instvar (i : Z) (b : builder) : builder := emit_u8 i (emit_u8 OP_PUSH_INSTVAR b).
Definition store_instvar_pop (i : Z) (b : builder) : builder :=
  emit_u8 i (emit_u8 OP_STORE_INSTVAR_POP b).
Definition push_ctx_temp (depth idx : Z) (b : builder) : builder :=
  emit_u8 idx (emit_u8 depth (emit_u8 OP_PUSH_CTX_TEMP b)).
Definition store_ctx_temp_pop (depth idx : Z) (b : builder) : builder :=
  emit_u8 idx (emit_u8 depth (emit_u8 OP_STORE_CTX_TEMP_POP b)).
Definition pop (b : builder) : builder := emit_u8 OP_POP b.
Definition dup (b : builder) : builder := emit_u8 OP_DUP b.
Definition ret_tos (b : builder) : builder := emit_u8 OP_RETURN_TOS b.
Definition ret_self (b : builder) : builder := emit_u8 OP_RETURN_SELF b.
Definition block_return_tos (b : builder) : builder := emit_u8 OP_BLOCK_RETURN_TOS b.
Definition nlr_tos (b : builder) : builder := emit_u8 OP_NLR_TOS b.

(** *** Literals *)
Definition intern_fresh (o : Z) (b : builder) : Z * builder :=
  let idx := zlen (literals b) in
  (idx, MkBuilder (code b) (literals b ++ [o]) (<[o := idx]> (literal_index b)) (n_ics b)
          (ic_sites b) (labels b) (line_map b)).

Definition intern_literal (o : Z) (b : builder) : option (Z * builder) :=
  match literal_index b !! o with
  | Some idx =>
      l ← zlookup (literals b) idx;
      if l =? o then Some (idx, b) else Some (intern_fresh o b)
  | None => Some (intern_fresh o b)
  end.

Definition emit_literal_ref (idx : Z) (b : builder) : builder :=
  if idx <=? 255 then emit_u8 (u8 idx) (emit_u8 OP_PUSH_LITERAL b)
  else emit_u16 (u16 idx) (emit_u8 OP_PUSH_LITERAL_W b).

Definition push_literal (o : Z) (b : builder) : option builder :=
  '(idx, b) ← intern_literal o b; Some (emit_literal_ref idx b).

Definition push_global (assoc : Z) (b : builder) : option builder :=
  '(idx, b) ← intern_literal assoc b; Some (emit_u8 (u8 idx) (emit_u8 OP_PUSH_GLOBAL b)).
Definition store_global_pop (assoc : Z) (b : builder) : option builder :=
  '(idx, b) ← intern_literal assoc b; Some (emit_u8 (u8 idx) (emit_u8 OP_STORE_GLOBAL_POP b)).

Definition intern_block_literal (blk : Z) (b : builder) : option (Z * builder) :=
  intern_literal blk b.
Definition push_closure (lit n_value_captures : Z) (b : builder) : option builder :=
  if 255 <? lit then None
  else Some (emit_u8 n_value_captures (emit_u8 (u8 lit) (emit_u8 OP_PUSH_CLOSURE b))).

(** *** Sends *)
Definition add_send (selector argc : Z) (b : builder) : option (Z * builder) :=
  let idx := n_ics b in
  if 65535 <? idx then None
  else Some (u16 idx, MkBuilder (code b) (literals b) (literal_index b) (n_ics b + 1)
                        (ic_sites b ++ [(selector, argc)]) (labels b) (line_map b)).

Definition emit_send (op_narrow op_wide selector argc : Z) (b : builder) : option builder :=
  '(ic_idx, b) ← add_send selector argc b;
  Some (if ic_idx <=? 255 then emit_u8 (u8 ic_idx) (emit_u8 op_narrow b)
        else emit_u16 ic_idx (emit_u8 op_wide b)).

Definition send (selector argc : Z) (b : builder) : option builder :=
  emit_send OP_SEND OP_SEND_W selector argc b.
Definition send_super (selector argc : Z) (b : builder) : option builder :=
  emit_send OP_SEND_SUPER OP_SEND_SUPER_W selector argc b.

(** *** Control flow *)
Definition new_label (b : builder) : nat * builder :=
  (length (labels b), set_labels (labels b ++ [Unbound []]) b).

(** [code[site]], [code[site + 1]] := the distance, little-endian. *)
Definition patch16 (site distance : Z) (c : list Z) : option (list Z) :=
  if (site <? 0) || (zlen c <=? site + 1) then None
  else Some (zinsert (zinsert c site (u8 (Z.land distance 0xFF))) (site + 1)
               (u8 (Z.shiftr distance 8))).

Fixpoint patch_sites (sites : list Z) (bci : Z) (c : list Z) : option (list Z) :=
  match sites with
  | [] => Some c
  | site :: sites =>
      let next_bci := site + 2 in
      if bci <? next_bci then None
      else
        let distance := bci - next_bci in
        if 65535 <? distance then None
        else c ← patch16 site distance c; patch_sites sites bci c
  end.

Definition bind (l : nat) (b : builder) : option builder :=
  let bci := zlen (code b) in
  match labels b !! l with
  | None | Some (Bound _) => None
  | Some (Unbound sites) =>
      c ← patch_sites sites bci (code b);
      Some (set_code c (set_labels (<[l := Bound bci]> (labels b)) b))
  end.

Definition emit_fwd_jump (op : Z) (l : nat) (b : builder) : option builder :=
  let b := emit_u8 op b in
  let operand_pos := zlen (code b) in
  let b := emit_u16 0xFFFF b in
  match labels b !! l with
  | None => None
  | Some (Unbound sites) =>
      Some (set_labels (<[l := Unbound (sites ++ [operand_pos])]> (labels b)) b)
  | Some (Bound target) =>
      let next_bci := operand_pos + 2 in
      if target <? next_bci then None
      else
        let distance := target - next_bci in
        if 65535 <? distance then None
        else c ← patch16 operand_pos distance (code b); Some (set_code c b)
  end.

Definition jump_fwd (l : nat) (b : builder) : option builder := emit_fwd_jump OP_JUMP_FWD l b.
Definition br_true_fwd (l : nat) (b : builder) : option builder :=
  emit_fwd_jump OP_BR_TRUE_FWD l b.
Definition br_false_fwd (l : nat) (b : builder) : option builder :=
  emit_fwd_jump OP_BR_FALSE_FWD l b.

Definition jump_back (l : nat) (b : builder) : option builder :=
  match labels b !! l with
  | None | Some (Unbound _) => None
  | Some (Bound target) =>
      let opcode_pos := zlen (code b) in
      let next_bci := opcode_pos + 3 in
      if next_bci <? target then None
      else
        let distance := next_bci - target in
        if 65535 <? distance then None
        else Some (emit_u16 (u16 distance) (emit_u8 OP_JUMP_BACK b))
  end.

(** *** Finishing *)
Record method := MkMethod {
  m_code : list Z;
  m_selector : Z;
  m_holder : Z;
  m_flags : Z;
  m_primitive : Z;
  m_counters : Z;
  m_literals : list Z;
  m_ics : list Z }.

Definition debug_assert_bci_sentinel_headroom (bytecode_len : Z) : bool :=
  bytecode_len <? BCI_SENTINEL_BASE.

Definition is_unbound (l : label_state) : bool :=
  match l with Unbound _ => true | Bound _ => false end.

(** The decode walk: the last instruction of the stream, [None] if some
    instruction does not decode; the fuel bounds the number of steps. *)
Fixpoint last_instr_from (fuel : nat) (m : list Z) (bci : Z) (last_ : option Instr) :
    option (option Instr) :=
  match fuel with
  | O => None
  | S fuel =>
      if bci <? zlen m then
        '(i, next) ← decode_at m bci; last_instr_from fuel m next (Some i)
      else Some last_
  end.
Definition last_instr (m : list Z) : option (option Instr) :=
  last_instr_from (S (length m)) m 0 None.

(** The four words of one send site, as [Array at_put] writes them. *)
Definition ic_entry (nil : Z) (site : Z * Z) : option (list Z) :=
  let '(selector, argc) := site in
  meta ← SmallInt.new (Z.shiftl argc IC_META_ARGC_SHIFT);
  Some [selector; meta; nil; nil].

(** [relocate] is what the garbage collections of [finish]'s three
    allocations do, together, to the oops the builder holds. *)
Definition finish (relocate : Z -> Z) (nil selector argc ntemps : Z) (b : builder) :
    option method :=
  if METHOD_ARGC_MAX <? argc then None
  else if METHOD_NTEMPS_MAX <? ntemps then None
  else if negb (debug_assert_bci_sentinel_headroom (zlen (code b))) then None
  else if existsb is_unbound (labels b) then None
  else if zlen (code b) =? 0 then None
  else
    last_ ← last_instr (code b);
    match last_ with
    | Some (ReturnTos | ReturnSelf | BlockReturnTos | NlrTos) =>
        ics ← mapM (ic_entry nil) (prod_map relocate id <$> ic_sites b);
        flags ← MethodFlags.set_flags argc ntemps false false false false 0;
        Some (MkMethod (code b) (relocate selector) nil flags 0 0
                (relocate <$> literals b) (concat ics))
    | _ => None
    end.

Definition set_method_flags (m : method) (flags : Z) : method :=
  MkMethod (m_code m) (m_selector m) (m_holder m) flags (m_primitive m) (m_counters m)
    (m_literals m) (m_ics m).

(** [body] emits the block's code into a fresh builder. *)
Definition build_standalone_block (relocate : Z -> Z) (nil sel argc ntemps : Z) (has_ctx : bool)
    (nctx : Z) (captures_ctx : bool) (body : builder -> option builder) : option method :=
  inner ← body new;
  blk ← finish relocate nil sel argc ntemps inner;
  flags ← MethodFlags.set_flags argc ntemps has_ctx true false captures_ctx nctx;
  Some (set_method_flags blk flags).

(** *** A build session *)
Inductive op :=
  | OPlain (i : Instr)
  | OLiteral (o : Z)
  | OGlobal (assoc : Z)
  | OStoreGlobal (assoc : Z)
  | OClosure (blk n_value_captures : Z)
  | OSend (selector argc : Z)
  | OSendSuper (selector argc : Z)
  | ONewLabel
  | OBind (l : nat)
  | OJumpFwd (l : nat)
  | OBrTrue (l : nat)
  | OBrFalse (l : nat)
  | OJumpBack (l : nat)
  | ONote (line : Z)
  | OMove (f : Z -> Z).

(** The emitters that take no oop and no label. *)
Definition plain (i : Instr) (b : builder) : option builder :=
  match i with
  | PushSelf => Some (push_self b)
  | PushNil => Some (push_nil b)
  | PushTrue => Some (push_true b)
  | PushFalse => Some (push_false b)
  | PushSmi v => Some (push_smi_i8 v b)
  | PushTemp t => Some (push_temp t b)
  | StoreTemp t => Some (store_temp t b)
  | StoreTempPop t => Some (store_temp_pop t b)
  | PushInstvar i => Some (push_instvar i b)
  | StoreInstvarPop i => Some (store_instvar_pop i b)
  | PushCtxTemp d x => Some (push_ctx_temp d x b)
  | StoreCtxTempPop d x => Some (store_ctx_temp_pop d x b)
  | Pop => Some (pop b)
  | Dup => Some (dup b)
  | ReturnTos => Some (ret_tos b)
  | ReturnSelf => Some (ret_self b)
  | BlockReturnTos => Some (block_return_tos b)
  | NlrTos => Some (nlr_tos b)
  | _ => None
  end.

Definition move (f : Z -> Z) (b : builder) : builder :=
  MkBuilder (code b) (f <$> literals b) (literal_index b) (n_ics b)
    (prod_map f id <$> ic_sites b) (labels b) (line_map b).

Definition exec (o : op) (b : builder) : option builder :=
  match o with
  | OPlain i => plain i b
  | OLiteral o => push_literal o b
  | OGlobal o => push_global o b
  | OStoreGlobal o => store_global_pop o b
  | OClosure blk n => '(idx, b) ← intern_block_literal blk b; push_closure idx n b
  | OSend s a => send s a b
  | OSendSuper s a => send_super s a b
  | ONewLabel => Some (snd (new_label b))
  | OBind l => bind l b
  | OJumpFwd l => jump_fwd l b
  | OBrTrue l => br_true_fwd l b
  | OBrFalse l => br_false_fwd l b
  | OJumpBack l => jump_back l b
  | ONote line => Some (note_line line b)
  | OMove f => Some (move f b)
  end.

Fixpoint run (ops : list op) (b : builder) : option builder :=
  match ops with [] => Some b | o :: ops => b ← exec o b; run ops b end.

(** The operand widths a session relies on: the literal frame stays within
    the operand of the instruction that names a literal. *)
Definition op_fits (o : op) (b : builder) : bool :=
  match o with
  | OPlain i => bool_decide (instr_ok i)
  | OLiteral _ => zlen (literals b) <=? 65535
  | OGlobal _ | OStoreGlobal _ => zlen (literals b) <=? 255
  | OClosure _ n => bool_decide (inU 8 n)
  | OSend _ a | OSendSuper _ a => bool_decide (inU 8 a)
  | _ => true
  end.

Fixpoint run_fits (ops : list op) (b : builder) : bool :=
  match ops with
  | [] => true
  | o :: ops => op_fits o b && match exec o b with Some b => run_fits ops b | None => true end
  end.

(** *** The abstract assembler

    A symbolic program: operands are oops and labels, a label is bound to the
    index of an instruction, and a collection relocates the oops. *)
Inductive lit_use := ULiteral | UGlobal | UStoreGlobal | UClosure (n : Z).
Inductive jump_kind := JFwd | JTrue | JFalse | JBack.

Inductive sym :=
  | SInstr (i : Instr)
  | SLit (u : lit_use) (o : Z)
  | SSend (super_ : bool) (selector argc : Z)
  | SJump (k : jump_kind) (l : nat).

Record program := MkProgram { prog : list sym; binds : list (option nat) }.

Definition sym_move (f : Z -> Z) (s : sym) : sym :=
  match s with
  | SLit u o => SLit u (f o)
  | SSend su s a => SSend su (f s) a
  | _ => s
  end.

Definition snoc (s : sym) (p : program) : option program :=
  Some (MkProgram (prog p ++ [s]) (binds p)).

Definition spec_jump (k : jump_kind) (l : nat) (p : program) : option program :=
  match binds p !! l, k with
  | Some (Some _), JBack => snoc (SJump k l) p
  | Some None, (JFwd | JTrue | JFalse) => snoc (SJump k l) p
  | _, _ => None
  end.

Definition spec (o : op) (p : program) : option program :=
  match o with
  | OPlain i => snoc (SInstr i) p
  | OLiteral o => snoc (SLit ULiteral o) p
  | OGlobal o => snoc (SLit UGlobal o) p
  | OStoreGlobal o => snoc (SLit UStoreGlobal o) p
  | OClosure o n => snoc (SLit (UClosure n) o) p
  | OSend s a => snoc (SSend false s a) p
  | OSendSuper s a => snoc (SSend true s a) p
  | ONewLabel => Some (MkProgram (prog p) (binds p ++ [None]))
  | OBind l =>
      match binds p !! l with
      | Some None => Some (MkProgram (prog p) (<[l := Some (length (prog p))]> (binds p)))
      | _ => None
      end
  | OJumpFwd l => spec_jump JFwd l p
  | OBrTrue l => spec_jump JTrue l p
  | OBrFalse l => spec_jump JFalse l p
  | OJumpBack l => spec_jump JBack l p
  | ONote _ => Some p
  | OMove f => Some (MkProgram (sym_move f <$> prog p) (binds p))
  end.

Fixpoint spec_run (ops : list op) (p : program) : option program :=
  match ops with [] => Some p | o :: ops => p ← spec o p; spec_run ops p end.

Definition use_instr (u : lit_use) (idx : Z) : Instr :=
  match u with
  | ULiteral => PushLiteral idx
  | UGlobal => PushGlobal idx
  | UStoreGlobal => StoreGlobalPop idx
  | UClosure n => PushClosure idx n
  end.

Definition jump_instr (k : jump_kind) (d : Z) : Instr :=
  match k with
  | JFwd => JumpFwd d | JTrue => BrTrueFwd d | JFalse => BrFalseFwd d | JBack => JumpBack d
  end.

(** The address of instruction [n]. *)
Definition addr (is_ : list Instr) (n : nat) : Z := zlen (concat (encode <$> take n is_)).

(** Instruction [n] of the method means the symbolic instruction [s]: its
    literal operand names the slot that holds the oop, its send operand a
    cache site with the selector and argument count and an empty guard, its
    jump distance the address of the instruction the label is bound to. *)
Definition denotes (nil : Z) (m : method) (p : program) (is_ : list Instr) (n : nat) (s : sym)
    (i : Instr) : Prop :=
  match s with
  | SInstr i' => i = i'
  | SLit u o => exists idx, i = use_instr u idx /\ zlookup (m_literals m) idx = Some o
  | SSend su sel argc => exists ic meta,
      i = Send ic su /\ SmallInt.new argc = Some meta /\
      take 4 (drop (Z.to_nat (IC_STRIDE * ic)) (m_ics m)) = [sel; meta; nil; nil]
  | SJump k l => exists d t,
      i = jump_instr k d /\ binds p !! l = Some (Some t) /\
      jump_target i (addr is_ (S n)) = Some (addr is_ t)
  end.

(** *** Refinement

    Ghost view of the emitted code: an instruction, or a jump to a label. *)
Inductive chunk := CI (i : Instr) | CJ (k : jump_kind) (l : nat).

Definition csize (c : chunk) : Z := match c with CI i => zlen (encode i) | CJ _ _ => 3 end.

Definition distance (k : jump_kind) (a t : Z) : Z :=
  match k with JBack => a + 3 - t | _ => t - (a + 3) end.

(** The instruction a chunk stands for at address [a]; an unbound forward
    jump holds the placeholder distance. *)
Definition resolve (L : list label_state) (a : Z) (c : chunk) : option Instr :=
  match c with
  | CI i => guard (instr_ok i);; Some i
  | CJ k l =>
      match L !! l, k with
      | Some (Bound t), _ =>
          guard (inU 16 (distance k a t));; Some (jump_instr k (distance k a t))
      | Some (Unbound _), (JFwd | JTrue | JFalse) => Some (jump_instr k 0xFFFF)
      | _, _ => None
      end
  end.

Fixpoint resolve_all (L : list label_state) (a : Z) (cs : list chunk) : option (list Instr) :=
  match cs with
  | [] => Some []
  | c :: cs => i ← resolve L a c; is_ ← resolve_all L (a + csize c) cs; Some (i :: is_)
  end.

(** The operand positions of the jumps to [l]. *)
Fixpoint sites (l : nat) (a : Z) (cs : list chunk) : list Z :=
  match cs with
  | [] => []
  | c :: cs =>
      (match c with CJ _ l' => if decide (l = l') then [a + 1] else [] | CI _ => [] end) ++
      sites l (a + csize c) cs
  end.

Fixpoint csizes (cs : list chunk) : Z := match cs with [] => 0 | c :: cs => csize c + csizes cs end.

Definition link (lits : list Z) (ics : list (Z * Z)) (s : sym) (c : chunk) : Prop :=
  match s with
  | SInstr i => c = CI i /\ (forall n d, jump_target i n <> Some d)
  | SLit u o => exists idx, c = CI (use_instr u idx) /\ zlookup lits idx = Some o
  | SSend su sel argc => exists ic, c = CI (Send ic su) /\ zlookup ics ic = Some (sel, argc)
  | SJump k l => c = CJ k l
  end.

Record refines (b : builder) (p : program) (cs : list chunk) (is_ : list Instr) : Prop := {
  r_resolve : resolve_all (labels b) 0 cs = Some is_;
  r_code : code b = concat (encode <$> is_);
  r_link : Forall2 (link (literals b) (ic_sites b)) (prog p) cs;
  r_ics : n_ics b = zlen (ic_sites b);
  r_args : Forall (fun s => inU 8 s.2) (ic_sites b);
  r_labels : length (labels b) = length (binds p);
  r_bound : forall l t, labels b !! l = Some (Bound t) ->
              exists n, binds p !! l = Some (Some n) /\ t = csizes (take n cs) /\
                        (n <= length cs)%nat;
  r_unbound : forall l ss, labels b !! l = Some (Unbound ss) ->
                binds p !! l = Some None /\ ss = sites l 0 cs }.

Lemma le16_wrap v : inU 16 v -> le16 v = [u8 (Z.land v 0xFF); u8 (Z.shiftr v 8)].
Proof.
  intros Hv. pose proof (le16_bytes v Hv) as HF. unfold le16 in *.
  rewrite !Forall_cons in HF. destruct HF as (H1 & H2 & _).
  by rewrite !wrapU_id by done.
Qed.

Lemma jump_encode k d : inU 16 d ->
  exists op, encode (jump_instr k d) = op :: le16 d /\ encode (jump_instr k 0xFFFF) = op :: le16 0xFFFF.
Proof. destruct k; eexists; done. Qed.

Lemma jump_instr_len k d : zlen (encode (jump_instr k d)) = 3.
Proof. by destruct k. Qed.

Lemma jump_instr_ok k d : inU 16 d -> instr_ok (jump_instr k d).
Proof. by destruct k. Qed.

Lemma resolve_size L a c i : resolve L a c = Some i -> zlen (encode i) = csize c /\ instr_ok i.
Proof.
  unfold resolve, csize. intros H. repeat case_match; simplify_option_eq; try done;
    (split; [apply jump_instr_len|apply jump_instr_ok; done]).
Qed.

Lemma resolve_all_app L cs cs' : forall a,
  resolve_all L a (cs ++ cs') =
  is_ ← resolve_all L a cs; is' ← resolve_all L (a + csizes cs) cs'; Some (is_ ++ is').
Proof.
  induction cs as [|c cs IH]; intros a; cbn.
  - rewrite Z.add_0_r. by destruct (resolve_all L a cs').
  - destruct (resolve L a c); cbn; [|done]. rewrite IH, Z.add_assoc.
    destruct (resolve_all L (a + csize c) cs); cbn; [|done].
    by destruct (resolve_all L (a + csize c + csizes cs) cs').
Qed.

Lemma resolve_all_len L cs : forall a is_, resolve_all L a cs = Some is_ ->
  zlen (concat (encode <$> is_)) = csizes cs /\ length is_ = length cs /\ Forall instr_ok is_.
Proof.
  induction cs as [|c cs IH]; intros a is_ H; cbn in *.
  - by inversion_clear H.
  - destruct (resolve L a c) as [i|] eqn:Hc; [|done]. cbn in H.
    destruct (resolve_all L (a + csize c) cs) as [is'|] eqn:Hr; [|done].
    inversion_clear H. cbn. destruct (IH _ _ Hr) as (H1 & H2 & H3).
    destruct (resolve_size _ _ _ _ Hc). rewrite zlen_app.
    split_and!; [lia|lia|by constructor].
Qed.

Lemma resolve_all_take L cs a is_ n : resolve_all L a cs = Some is_ ->
  resolve_all L a (take n cs) = Some (take n is_).
Proof.
  revert a is_ n. induction cs as [|c cs IH]; intros a is_ [|n] H; cbn in *;
    try by inversion_clear H.
  destruct (resolve L a c) as [i|]; [|done]. cbn in *.
  destruct (resolve_all L (a + csize c) cs) as [is'|] eqn:Hr; [|done].
  inversion_clear H. by rewrite (IH _ _ n Hr).
Qed.

Lemma addr_size L cs is_ n : resolve_all L 0 cs = Some is_ -> addr is_ n = csizes (take n cs).
Proof. intros H. by destruct (resolve_all_len _ _ _ _ (resolve_all_take _ _ _ _ n H)). Qed.

Lemma sites_app l cs cs' a : sites l a (cs ++ cs') = sites l a cs ++ sites l (a + csizes cs) cs'.
Proof.
  revert a. induction cs as [|c cs IH]; intros a; cbn; [by rewrite Z.add_0_r|].
  rewrite IH, <- (assoc_L (++)). do 3 f_equal. lia.
Qed.

Lemma patch16_mid pre op x y post d : inU 16 d ->
  patch16 (zlen pre + 1) d (pre ++ op :: x :: y :: post) = Some (pre ++ op :: le16 d ++ post).
Proof.
  intros Hd. unfold patch16.
  pose proof (zlen_nonneg pre). pose proof (zlen_nonneg post).
  rewrite zlen_app, !zlen_cons.
  destruct (Z.ltb_spec (zlen pre + 1) 0); [lia|].
  destruct (Z.leb_spec (zlen pre + (1 + (1 + (1 + zlen post)))) (zlen pre + 1 + 1)); [lia|]. cbn [orb].
  rewrite (zinsert_app_r pre) by lia. replace (zlen pre + 1 - zlen pre) with 1 by lia.
  rewrite zinsert_app_r by lia. replace (zlen pre + 1 + 1 - zlen pre) with 2 by lia.
  by rewrite le16_wrap.
Qed.

Lemma resolve_insert_ne L l st a c :
  (forall k, c <> CJ k l) -> resolve (<[l := st]> L) a c = resolve L a c.
Proof.
  intros Hc. destruct c as [i|k l']; cbn; [done|].
  rewrite list_lookup_insert_ne; [done|]. intros ->. by destruct (Hc k).
Qed.

Lemma patch_jump L l ss bci k pre i post ss' c :
  L !! l = Some (Unbound ss) -> resolve L (zlen pre) (CJ k l) = Some i ->
  patch_sites ((zlen pre + 1) :: ss') bci (pre ++ encode i ++ post) = Some c ->
  let i' := jump_instr k (bci - (zlen pre + 3)) in
  resolve (<[l := Bound bci]> L) (zlen pre) (CJ k l) = Some i' /\
  patch_sites ss' bci (pre ++ encode i' ++ post) = Some c.
Proof.
  intros Hl Hc Hp i'. cbn [resolve] in *. rewrite Hl in Hc. cbn [patch_sites] in Hp.
  destruct (Z.ltb_spec bci (zlen pre + 1 + 2)) as [|H1]; [done|].
  destruct (Z.ltb_spec 65535 (bci - (zlen pre + 1 + 2))) as [|H2]; [done|].
  set (d := bci - (zlen pre + 1 + 2)) in *.
  assert (Hd : inU 16 d) by (unfold inU; lia).
  assert (Hi : i' = jump_instr k d) by (unfold i', d; f_equal; lia). rewrite Hi. clear i' Hi.
  rewrite list_lookup_insert_eq by by apply lookup_lt_Some in Hl.
  assert (i = jump_instr k 0xFFFF /\ distance k (zlen pre) bci = d) as (-> & ->)
    by (destruct k; try discriminate; injection Hc as <-; split; try done; unfold distance, d; lia).
  rewrite option_guard_True by done. split; [done|].
  destruct (jump_encode k d Hd) as (op & -> & Ho2). rewrite Ho2 in Hp.
  cbn [app le16] in Hp. by rewrite patch16_mid in Hp.
Qed.

(** Patching the recorded sites re-resolves the code with the label bound. *)
Lemma patch_all L l ss bci cs : L !! l = Some (Unbound ss) -> forall pre post is_ c,
  resolve_all L (zlen pre) cs = Some is_ ->
  patch_sites (sites l (zlen pre) cs) bci (pre ++ concat (encode <$> is_) ++ post) = Some c ->
  exists is', resolve_all (<[l := Bound bci]> L) (zlen pre) cs = Some is' /\
              c = pre ++ concat (encode <$> is') ++ post.
Proof.
  intros Hl. induction cs as [|ch cs IH]; intros pre post is_ c Hr Hp.
  { cbn in *. injection Hr as <-. injection Hp as <-. by exists []. }
  cbn [resolve_all] in Hr. destruct (resolve L (zlen pre) ch) as [i|] eqn:Hc; [|done]. cbn in Hr.
  destruct (resolve_all L (zlen pre + csize ch) cs) as [is1|] eqn:H1; [|done].
  injection Hr as <-. destruct (resolve_size _ _ _ _ Hc) as [Hsz Hok]. cbn [resolve_all].
  assert (exists i', resolve (<[l:=Bound bci]> L) (zlen pre) ch = Some i' /\
            zlen (encode i') = csize ch /\
            patch_sites (sites l (zlen pre + csize ch) cs) bci
              (pre ++ encode i' ++ concat (encode <$> is1) ++ post) = Some c)
    as (i' & Hi' & Hsz' & Hp').
  { cbn [sites fmap list_fmap concat] in Hp. rewrite <- (assoc_L (++)) in Hp.
    destruct ch as [i0|k l0]; [|destruct (decide (l = l0)) as [->|Hne]].
    - exists i. by split_and!.
    - eapply patch_jump in Hp as [Hres Hp]; [|done..]. eexists. split_and!; [done| |done].
      apply jump_instr_len.
    - exists i. split_and!; [|done|done]. rewrite resolve_insert_ne; [done|]. congruence. }
  rewrite Hi'. cbn [mbind option_bind].
  rewrite <- Hsz', <- zlen_app in H1, Hp' |- *. rewrite (assoc_L (++)) in Hp'.
  destruct (IH _ _ _ _ H1 Hp') as (is2 & -> & ->).
  exists (i' :: is2). split; [done|]. cbn [fmap list_fmap concat]. by rewrite <- !(assoc_L (++)).
Qed.

Lemma emit_u8_code x b : emit_u8 x b = set_code (code b ++ [x]) b.
Proof. done. Qed.

Lemma set_code_set_code c c' b : set_code c (set_code c' b) = set_code c b.
Proof. done. Qed.

Lemma emit_u16_code v b : inU 16 v -> emit_u16 v b = set_code (code b ++ le16 v) b.
Proof.
  intros Hv. unfold emit_u16. rewrite !emit_u8_code, set_code_set_code, le16_wrap by done. cbn.
  by rewrite <- (assoc_L (++)).
Qed.

Lemma plain_code i b b' : plain i b = Some b' ->
  b' = set_code (code b ++ encode i) b /\ forall n d, jump_target i n <> Some d.
Proof.
  destruct i; cbn; intros H; try discriminate; injection H as <-; (split; [|done]); try done;
    unfold push_smi_i8, push_temp, store_temp, store_temp_pop, push_instvar, store_instvar_pop,
      push_ctx_temp, store_ctx_temp_pop; rewrite !emit_u8_code, !set_code_set_code; cbn;
    by rewrite <- ?(assoc_L (++)).
Qed.

Lemma emit_literal_ref_code idx b : inU 16 idx ->
  emit_literal_ref idx b = set_code (code b ++ encode (PushLiteral idx)) b.
Proof.
  intros Hi. unfold emit_literal_ref, encode. destruct (Z.leb_spec idx 255).
  - rewrite !emit_u8_code, set_code_set_code, wrapU_id by (unfold inU in *; lia). cbn.
    by rewrite <- (assoc_L (++)).
  - rewrite (wrapU_id 16) by done.
    rewrite emit_u16_code, emit_u8_code, set_code_set_code by done. cbn.
    by rewrite <- (assoc_L (++)).
Qed.

(** Interning answers a slot that holds the oop, whatever stale words the
    index maps. *)
Lemma intern_spec o b idx b' : intern_literal o b = Some (idx, b') ->
  zlookup (literals b') idx = Some o /\ 0 <= idx <= zlen (literals b) /\
  literals b `prefix_of` literals b' /\ code b' = code b /\ n_ics b' = n_ics b /\
  ic_sites b' = ic_sites b /\ labels b' = labels b.
Proof.
  assert (Hfresh : Some (intern_fresh o b) = Some (idx, b') ->
    zlookup (literals b') idx = Some o /\ 0 <= idx <= zlen (literals b) /\
    literals b `prefix_of` literals b' /\ code b' = code b /\ n_ics b' = n_ics b /\
    ic_sites b' = ic_sites b /\ labels b' = labels b).
  { intros [= <- <-]. cbn. pose proof (zlen_nonneg (literals b)).
    split_and!; try done; [apply zlookup_mid|by apply prefix_app_r]. }
  unfold intern_literal. intros H. destruct (literal_index b !! o) as [i|]; [|auto].
  destruct (zlookup (literals b) i) as [w|] eqn:Hw; [|done]. cbn in H.
  destruct (Z.eqb_spec w o) as [->|]; [|auto].
  injection H as <- <-. apply zlookup_lt in Hw as ?. split_and!; try done; try lia; reflexivity.
Qed.

Lemma zlookup_prefix {A} (l k : list A) i x :
  l `prefix_of` k -> zlookup l i = Some x -> zlookup k i = Some x.
Proof. intros [m ->] H. rewrite zlookup_app_l; [done|]. apply zlookup_lt in H. lia. Qed.

Lemma link_prefix lits lits' ics ics' s c :
  lits `prefix_of` lits' -> ics `prefix_of` ics' -> link lits ics s c -> link lits' ics' s c.
Proof.
  intros H1 H2. destruct s; cbn; [done| | |done]; intros (x & -> & Hx); exists x; (split; [done|]);
    eauto using zlookup_prefix.
Qed.

(** Emitting one instruction appends one symbolic instruction. *)
Lemma refines_emit b b' p cs is_ s c i : refines b p cs is_ ->
  code b' = code b ++ encode i ->
  resolve_all (labels b') 0 cs = Some is_ ->
  resolve (labels b') (csizes cs) c = Some i ->
  link (literals b') (ic_sites b') s c ->
  literals b `prefix_of` literals b' -> ic_sites b `prefix_of` ic_sites b' ->
  n_ics b' = zlen (ic_sites b') -> Forall (fun s => inU 8 s.2) (ic_sites b') ->
  length (labels b') = length (labels b) ->
  (forall l t, labels b' !! l = Some (Bound t) -> labels b !! l = Some (Bound t)) ->
  (forall l ss, labels b' !! l = Some (Unbound ss) -> exists ss0,
     labels b !! l = Some (Unbound ss0) /\ ss = ss0 ++ sites l (csizes cs) [c]) ->
  refines b' (MkProgram (prog p ++ [s]) (binds p)) (cs ++ [c]) (is_ ++ [i]).
Proof.
  intros [] Hcode Hall Hres Hlink Hl Hi Hn Ha Hlen Hb Hu. split; cbn [prog binds]; try done.
  - rewrite resolve_all_app, Hall. cbn [mbind option_bind resolve_all]. rewrite Z.add_0_l, Hres. done.
  - rewrite Hcode, r_code0, fmap_app, concat_app. cbn. by rewrite app_nil_r.
  - apply Forall2_app; [|by repeat constructor].
    eapply Forall2_impl; [done|]. intros. by eapply link_prefix.
  - by rewrite Hlen.
  - intros l t Ht. destruct (r_bound0 l t (Hb l t Ht)) as (n & Hn1 & -> & Hn2).
    exists n. rewrite take_app_le by done. rewrite length_app. split_and!; [done..|lia].
  - intros l ss Hs. destruct (Hu l ss Hs) as (ss0 & Hs0 & ->).
    destruct (r_unbound0 l ss0 Hs0) as [? ->]. split; [done|]. by rewrite sites_app, Z.add_0_l.
Qed.

Lemma refines_emit_CI b b' p cs is_ s i : refines b p cs is_ -> instr_ok i ->
  code b' = code b ++ encode i -> link (literals b') (ic_sites b') s (CI i) ->
  literals b `prefix_of` literals b' -> ic_sites b `prefix_of` ic_sites b' ->
  n_ics b' = zlen (ic_sites b') -> Forall (fun s => inU 8 s.2) (ic_sites b') ->
  labels b' = labels b ->
  refines b' (MkProgram (prog p ++ [s]) (binds p)) (cs ++ [CI i]) (is_ ++ [i]).
Proof.
  intros HR Hok Hc Hl Hp1 Hp2 Hn Ha HL. eapply refines_emit; try done; rewrite HL; try done.
  - apply HR.
  - cbn. by rewrite option_guard_True.
  - intros l ss Hs. exists ss. by rewrite app_nil_r.
Qed.

Lemma refines_frame b b' p cs is_ : refines b p cs is_ ->
  code b' = code b -> literals b' = literals b -> ic_sites b' = ic_sites b ->
  n_ics b' = n_ics b -> labels b' = labels b -> refines b' p cs is_.
Proof. intros [] H1 H2 H3 H4 H5. by split; rewrite ?H1, ?H2, ?H3, ?H4, ?H5. Qed.

Lemma plain_refines i b b' p cs is_ : refines b p cs is_ -> plain i b = Some b' -> instr_ok i ->
  refines b' (MkProgram (prog p ++ [SInstr i]) (binds p)) (cs ++ [CI i]) (is_ ++ [i]).
Proof.
  intros HR [-> Hj]%plain_code Hok. eapply refines_emit_CI; try done; apply HR.
Qed.

(** The four emitters that name a literal. *)
Lemma lit_refines u o b b1 b' idx p cs is_ : refines b p cs is_ ->
  intern_literal o b = Some (idx, b1) -> instr_ok (use_instr u idx) ->
  b' = set_code (code b1 ++ encode (use_instr u idx)) b1 ->
  refines b' (MkProgram (prog p ++ [SLit u o]) (binds p)) (cs ++ [CI (use_instr u idx)])
    (is_ ++ [use_instr u idx]).
Proof.
  intros HR Hi Hok ->. destruct (intern_spec _ _ _ _ Hi) as (Hz & _ & Hp & Hc & Hn & Hs & Hl).
  apply (refines_emit_CI b _ p); cbn [code literals ic_sites n_ics labels set_code];
    rewrite ?Hc, ?Hn, ?Hs; try done; try apply HR. by exists idx.
Qed.

Lemma send_refines (su : bool) nar wid sel argc b b' p cs is_ : refines b p cs is_ -> inU 8 argc ->
  (forall ic, encode (Send ic su) = if ic <=? 255 then [nar; ic] else wid :: le16 ic) ->
  emit_send nar wid sel argc b = Some b' -> exists ic,
  refines b' (MkProgram (prog p ++ [SSend su sel argc]) (binds p)) (cs ++ [CI (Send ic su)])
    (is_ ++ [Send ic su]).
Proof.
  intros HR Ha He. unfold emit_send, add_send. pose proof (r_ics _ _ _ _ HR) as Hn.
  destruct (Z.ltb_spec 65535 (n_ics b)); [done|]. cbn [mbind option_bind].
  pose proof (zlen_nonneg (ic_sites b)). assert (Hu : inU 16 (n_ics b)) by (unfold inU; lia).
  rewrite (wrapU_id 16) by done. intros H'. exists (n_ics b).
  assert (b' = MkBuilder (code b ++ encode (Send (n_ics b) su)) (literals b) (literal_index b)
                 (n_ics b + 1) (ic_sites b ++ [(sel, argc)]) (labels b) (line_map b)) as ->.
  { rewrite He. destruct (Z.leb_spec (n_ics b) 255); injection H' as <-.
    - unfold emit_u8. cbn. rewrite wrapU_id by (unfold inU; lia). by rewrite <- (assoc_L (++)).
    - rewrite emit_u16_code by done. unfold emit_u8, set_code. cbn. by rewrite <- (assoc_L (++)). }
  apply (refines_emit_CI b _ p); cbn [code literals ic_sites n_ics labels]; try done.
  - exists (n_ics b). split; [done|]. rewrite Hn. apply zlookup_mid.
  - by apply prefix_app_r.
  - by rewrite zlen_app, Hn.
  - apply Forall_app. split; [apply HR|by apply Forall_singleton].
Qed.

Lemma resolve_sites L l ss ss' a c :
  L !! l = Some (Unbound ss) -> resolve (<[l := Unbound ss']> L) a c = resolve L a c.
Proof.
  intros Hl. destruct c as [i|k l']; cbn; [done|]. destruct (decide (l = l')) as [<-|].
  - rewrite list_lookup_insert_eq, Hl; [done|]. by apply lookup_lt_Some in Hl.
  - by rewrite list_lookup_insert_ne.
Qed.

Lemma resolve_all_sites L l ss ss' cs : L !! l = Some (Unbound ss) -> forall a,
  resolve_all (<[l := Unbound ss']> L) a cs = resolve_all L a cs.
Proof.
  intros Hl. induction cs as [|c cs IH]; intros a; cbn; [done|].
  by rewrite (resolve_sites L l ss) by done; rewrite IH.
Qed.

Lemma code_len b p cs is_ : refines b p cs is_ -> zlen (code b) = csizes cs.
Proof. intros []. rewrite r_code0. by destruct (resolve_all_len _ _ _ _ r_resolve0). Qed.

Lemma csizes_nonneg cs : 0 <= csizes cs.
Proof.
  induction cs as [|[i|k l] cs IH]; cbn; [lia| |lia]. pose proof (zlen_nonneg (encode i)). lia.
Qed.

Lemma csizes_app cs cs' : csizes (cs ++ cs') = csizes cs + csizes cs'.
Proof. induction cs; cbn; lia. Qed.

Lemma csizes_take cs n : csizes (take n cs) <= csizes cs.
Proof.
  rewrite <- (take_drop n cs) at 2. rewrite csizes_app. pose proof (csizes_nonneg (drop n cs)). lia.
Qed.

(** The three forward jumps record their operand as a site of the label. *)
Lemma fwd_refines k l op b b' p cs is_ : refines b p cs is_ -> k <> JBack ->
  (forall d, encode (jump_instr k d) = op :: le16 d) -> emit_fwd_jump op l b = Some b' ->
  spec_jump k l p = Some (MkProgram (prog p ++ [SJump k l]) (binds p)) /\
  refines b' (MkProgram (prog p ++ [SJump k l]) (binds p)) (cs ++ [CJ k l])
    (is_ ++ [jump_instr k 0xFFFF]).
Proof.
  intros HR Hk He Hb. unfold emit_fwd_jump in Hb. rewrite emit_u16_code in Hb by done.
  cbn [labels set_code emit_u8] in Hb. destruct (labels b !! l) as [[t|ss]|] eqn:Hl; [|..|done].
  - exfalso. destruct (r_bound _ _ _ _ HR l t Hl) as (n & _ & -> & Hn).
    pose proof (csizes_take cs n). rewrite <- (code_len _ _ _ _ HR) in H.
    destruct (Z.ltb_spec (csizes (take n cs)) (zlen (code (emit_u8 op b)) + 2)) as [|Hlt]; [done|].
    cbn in Hlt. rewrite zlen_app in Hlt. unfold zlen in *. cbn in Hlt. lia.
  - injection Hb as <-. destruct (r_unbound _ _ _ _ HR l ss Hl) as [Hsp Hss].
    apply lookup_lt_Some in Hl as Hlen. split.
    { unfold spec_jump. rewrite Hsp. by destruct k. }
    apply (refines_emit b _ p);
      cbn [code literals ic_sites n_ics labels set_labels set_code emit_u8]; try done; try apply HR.
    + by rewrite He, <- (assoc_L (++)).
    + rewrite (resolve_all_sites _ _ ss) by done. apply HR.
    + cbn [resolve]. rewrite list_lookup_insert_eq by done. by destruct k.
    + by rewrite length_insert.
    + intros l' t. destruct (decide (l = l')) as [<-|]; [|by rewrite list_lookup_insert_ne].
      by rewrite list_lookup_insert_eq.
    + intros l' ss'. destruct (decide (l = l')) as [<-|].
      * rewrite list_lookup_insert_eq by done. intros [= <-]. exists ss. split; [done|].
        rewrite <- (code_len _ _ _ _ HR). cbn [sites]. rewrite decide_True by done.
        by rewrite zlen_app.
      * rewrite list_lookup_insert_ne by done. intros Hl'. exists ss'. split; [done|].
        cbn. by rewrite decide_False, app_nil_r.
Qed.

Lemma back_refines l b b' p cs is_ : refines b p cs is_ -> jump_back l b = Some b' -> exists i,
  spec_jump JBack l p = Some (MkProgram (prog p ++ [SJump JBack l]) (binds p)) /\
  refines b' (MkProgram (prog p ++ [SJump JBack l]) (binds p)) (cs ++ [CJ JBack l]) (is_ ++ [i]).
Proof.
  intros HR Hb. unfold jump_back in Hb. destruct (labels b !! l) as [[t|ss]|] eqn:Hl; try done.
  destruct (Z.ltb_spec (zlen (code b) + 3) t) as [|H1]; [done|].
  destruct (Z.ltb_spec 65535 (zlen (code b) + 3 - t)) as [|H2]; [done|]. injection Hb as <-.
  set (d := zlen (code b) + 3 - t) in *. assert (Hd : inU 16 d) by (unfold inU; lia).
  exists (JumpBack d). destruct (r_bound _ _ _ _ HR l t Hl) as (n & Hn & _).
  split; [unfold spec_jump; by rewrite Hn|].
  rewrite (wrapU_id 16), emit_u16_code by done.
  apply (refines_emit b _ p); cbn [code literals ic_sites n_ics labels set_code emit_u8];
    try done; try apply HR.
  - cbn. by rewrite <- (assoc_L (++)).
  - cbn [resolve]. rewrite Hl. unfold distance. rewrite <- (code_len _ _ _ _ HR).
    by rewrite option_guard_True.
  - intros l' ss Hl'. exists ss. split; [done|]. cbn. rewrite decide_False; [by rewrite app_nil_r|].
    congruence.
Qed.

Lemma bind_refines l b b' p cs is_ : refines b p cs is_ -> bind l b = Some b' -> exists p' is',
  spec (OBind l) p = Some p' /\ refines b' p' cs is'.
Proof.
  intros HR Hb. unfold bind in Hb. destruct (labels b !! l) as [[t|ss]|] eqn:Hl; try done.
  destruct (r_unbound _ _ _ _ HR l ss Hl) as [Hsp ->].
  destruct (patch_sites _ _ _) as [c|] eqn:Hc; [|done]. cbn in Hb. injection Hb as <-.
  pose proof (patch_all (labels b) l _ (zlen (code b)) cs Hl [] []) as Hpa. cbn [app] in Hpa.
  rewrite (r_code _ _ _ _ HR) in Hc at 2.
  destruct (Hpa _ c (r_resolve _ _ _ _ HR)) as (is' & Hr' & Hcode); [by rewrite app_nil_r|].
  rewrite app_nil_r in Hcode. cbn [spec]. rewrite Hsp. eexists _, is'. split; [done|].
  apply lookup_lt_Some in Hl as Hlen. pose proof (code_len _ _ _ _ HR) as Hclen.
  pose proof (Forall2_length _ _ _ (r_link _ _ _ _ HR)) as Hpl.
  split; cbn [code literals ic_sites n_ics labels set_code set_labels prog binds]; try apply HR; try done.
  - rewrite !length_insert. apply HR.
  - intros l' t. destruct (decide (l = l')) as [<-|].
    + rewrite !list_lookup_insert_eq; [|by rewrite <- (r_labels _ _ _ _ HR)|done]. intros [= <-].
      exists (length (prog p)). rewrite Hpl, take_ge by done. done.
    + rewrite !list_lookup_insert_ne by done. apply HR.
  - intros l' ss. destruct (decide (l = l')) as [<-|].
    + by rewrite list_lookup_insert_eq.
    + rewrite !list_lookup_insert_ne by done. apply HR.
Qed.

Lemma zlookup_fmap {A B} (f : A -> B) l i : zlookup (f <$> l) i = f <$> zlookup l i.
Proof. unfold zlookup. destruct (_ <? _); [done|]. apply list_lookup_fmap. Qed.

Lemma move_refines f b p cs is_ : refines b p cs is_ ->
  refines (move f b) (MkProgram (sym_move f <$> prog p) (binds p)) cs is_.
Proof.
  intros []. split; cbn; try done.
  - apply Forall2_fmap_l. eapply Forall2_impl; [done|]. intros s c Hl.
    destruct s; cbn in *; try done; destruct Hl as (x & -> & Hx); exists x;
      by rewrite zlookup_fmap, Hx.
  - by rewrite r_ics0; unfold zlen; rewrite length_fmap.
  - apply Forall_fmap. eapply Forall_impl; [done|]. by intros [].
Qed.

Lemma resolve_new_label L st a c : is_Some (resolve L a c) -> resolve (L ++ [st]) a c = resolve L a c.
Proof.
  destruct c as [i|k l]; cbn; [done|]. intros [i Hi].
  destruct (L !! l) as [x|] eqn:Hx; [|by destruct k]. by erewrite lookup_app_l_Some.
Qed.

Lemma resolve_all_new_label L st cs : forall a is_, resolve_all L a cs = Some is_ ->
  resolve_all (L ++ [st]) a cs = Some is_.
Proof.
  induction cs as [|c cs IH]; intros a is_ H; cbn in *; [done|].
  destruct (resolve L a c) as [i|] eqn:Hc; [|done]. rewrite resolve_new_label, Hc by done.
  cbn in *. destruct (resolve_all L (a + csize c) cs) as [is1|] eqn:H1; [|done].
  by rewrite (IH _ _ H1).
Qed.

Lemma sites_fresh L l cs : forall a is_, resolve_all L a cs = Some is_ -> (length L <= l)%nat ->
  sites l a cs = [].
Proof.
  induction cs as [|c cs IH]; intros a is_ H Hl; cbn in *; [done|].
  destruct (resolve L a c) as [i|] eqn:Hc; [|done]. cbn in *.
  destruct (resolve_all L (a + csize c) cs) as [is1|] eqn:H1; [|done].
  rewrite (IH _ _ H1 Hl), app_nil_r. destruct c as [|k l']; [done|]. cbn in Hc.
  destruct (L !! l') as [x|] eqn:Hx; [|by destruct k].
  rewrite decide_False; [done|]. apply lookup_lt_Some in Hx. lia.
Qed.

Lemma new_label_refines b p cs is_ : refines b p cs is_ ->
  refines (snd (new_label b)) (MkProgram (prog p) (binds p ++ [None])) cs is_.
Proof.
  intros []. split; cbn; try done.
  - by apply resolve_all_new_label.
  - rewrite !length_app. cbn. lia.
  - intros l t [H|[_ H]]%lookup_snoc_inv; [|done].
    destruct (r_bound0 l t H) as (n & Hn & ?). exists n. split; [|done].
    by apply lookup_app_l_Some.
  - intros l ss [H|[-> H]]%lookup_snoc_inv.
    + destruct (r_unbound0 l ss H) as [Hn ?]. split; [|done]. by apply lookup_app_l_Some.
    + injection H as ->. rewrite r_labels0. split.
      * by rewrite lookup_app_r, Nat.sub_diag by lia.
      * symmetry. eapply sites_fresh; [done|lia].
Qed.

Lemma step_refines o b b' p cs is_ : refines b p cs is_ -> exec o b = Some b' ->
  op_fits o b = true -> exists p' cs' is', spec o p = Some p' /\ refines b' p' cs' is'.
Proof.
  intros HR He Hf. destruct o as [i|o|o|o|blk n|s a|s a| |l|l|l|l|l|line|f];
    cbn [exec op_fits spec] in *.
  - apply bool_decide_eq_true in Hf. do 3 eexists. split; [done|by eapply plain_refines].
  - unfold push_literal in He. destruct (intern_literal o b) as [[idx b1]|] eqn:Hi; [|done].
    injection He as <-. destruct (intern_spec _ _ _ _ Hi) as (_ & Hr & _).
    assert (inU 16 idx) by (unfold inU; lia).
    do 3 eexists. split; [done|]. eapply (lit_refines ULiteral); try done.
    by apply emit_literal_ref_code.
  - unfold push_global in He. destruct (intern_literal o b) as [[idx b1]|] eqn:Hi; [|done].
    injection He as <-. destruct (intern_spec _ _ _ _ Hi) as (_ & Hr & _).
    assert (inU 8 idx) by (unfold inU; lia). rewrite wrapU_id by done.
    do 3 eexists. split; [done|]. eapply (lit_refines UGlobal); try done.
    unfold emit_u8. cbn. by rewrite <- (assoc_L (++)).
  - unfold store_global_pop in He. destruct (intern_literal o b) as [[idx b1]|] eqn:Hi; [|done].
    injection He as <-. destruct (intern_spec _ _ _ _ Hi) as (_ & Hr & _).
    assert (inU 8 idx) by (unfold inU; lia). rewrite wrapU_id by done.
    do 3 eexists. split; [done|]. eapply (lit_refines UStoreGlobal); try done.
    unfold emit_u8. cbn. by rewrite <- (assoc_L (++)).
  - unfold intern_block_literal in He. destruct (intern_literal blk b) as [[idx b1]|] eqn:Hi; [|done].
    cbn [mbind option_bind] in He. unfold push_closure in He.
    destruct (Z.ltb_spec 255 idx); [done|]. injection He as <-.
    destruct (intern_spec _ _ _ _ Hi) as (_ & Hr & _). apply bool_decide_eq_true in Hf.
    assert (inU 8 idx) by (unfold inU; lia). rewrite wrapU_id by done.
    do 3 eexists. split; [done|]. eapply (lit_refines (UClosure n)); try done.
    unfold emit_u8. cbn. by rewrite <- !(assoc_L (++)).
  - apply bool_decide_eq_true in Hf. unfold send in He.
    eapply send_refines in He as [ic HR']; [do 3 eexists; by split|done|done|by intros].
  - apply bool_decide_eq_true in Hf. unfold send_super in He.
    eapply send_refines in He as [ic HR']; [do 3 eexists; by split|done|done|by intros].
  - injection He as <-. do 3 eexists. split; [done|]. apply new_label_refines; done.
  - destruct (bind_refines _ _ _ _ _ _ HR He) as (p' & is' & H1 & H2). do 3 eexists. by split.
  - eapply (fwd_refines JFwd) in He as [H1 H2]; [do 3 eexists; by split|done..].
  - eapply (fwd_refines JTrue) in He as [H1 H2]; [do 3 eexists; by split|done..].
  - eapply (fwd_refines JFalse) in He as [H1 H2]; [do 3 eexists; by split|done..].
  - eapply back_refines in He as (i & H1 & H2); [do 3 eexists; by split|done].
  - injection He as <-. do 3 eexists. split; [done|]. eapply refines_frame; [done|..];
      unfold note_line; by repeat case_match.
  - injection He as <-. do 3 eexists. split; [done|by apply move_refines].
Qed.

Lemma run_refines ops : forall b b' p cs is_, refines b p cs is_ -> run ops b = Some b' ->
  run_fits ops b = true -> exists p' cs' is', spec_run ops p = Some p' /\ refines b' p' cs' is'.
Proof.
  induction ops as [|o ops IH]; intros b b' p cs is_ HR Hr Hf; cbn in *.
  - injection Hr as <-. by eauto.
  - destruct (exec o b) as [b1|] eqn:He; [|done]. cbn in Hr.
    apply andb_true_iff in Hf as [Hf1 Hf2].
    destruct (step_refines _ _ _ _ _ _ HR He Hf1) as (p1 & cs1 & is1 & -> & HR1).
    cbn. eauto.
Qed.

Lemma refines_new : refines new (MkProgram [] []) [] [].
Proof. by split. Qed.

Lemma last_instr_encode is_ : forall fuel pre last_,
  Forall instr_ok is_ -> (length is_ < fuel)%nat ->
  last_instr_from fuel (pre ++ concat (encode <$> is_)) (zlen pre) last_ =
  Some (match list.last is_ with Some i => Some i | None => last_ end).
Proof.
  induction is_ as [|i is_ IH]; intros [|fuel] pre last_ Hok Hf; cbn in Hf; try lia; cbn.
  - rewrite app_nil_r. by rewrite Z.ltb_irrefl.
  - inversion_clear Hok. destruct (Z.ltb_spec (zlen pre)
      (zlen (pre ++ encode i ++ concat (encode <$> is_)))) as [_|Hle].
    2:{ rewrite !zlen_app in Hle. pose proof (encode_len i).
        pose proof (zlen_nonneg (concat (encode <$> is_))). lia. }
    rewrite decode_encode_mid by done. cbn.
    rewrite (assoc_L (++) pre), <- zlen_app. rewrite IH by (done || lia).
    destruct is_ as [|j is_]; [done|]. change (list.last (i :: j :: is_)) with (list.last (j :: is_)).
    destruct (list.last (j :: is_)) eqn:E; [done|]. by apply last_None in E.
Qed.

(** The cache table has four words per send site, in order. *)
Lemma ic_entries_lookup nil l ics n sel argc :
  mapM (ic_entry nil) l = Some ics -> l !! n = Some (sel, argc) ->
  exists meta, SmallInt.new argc = Some meta /\
    take 4 (drop (4 * n) (concat ics)) = [sel; meta; nil; nil].
Proof.
  revert ics n. induction l as [|[s a] l IH]; intros ics n Hm Hn; [done|].
  cbn [mapM] in Hm. change (ic_entry nil (s, a)) with
    (meta ← SmallInt.new (Z.shiftl a IC_META_ARGC_SHIFT); Some [s; meta; nil; nil]) in Hm.
  change IC_META_ARGC_SHIFT with 0 in Hm. rewrite Z.shiftl_0_r in Hm.
  destruct (SmallInt.new a) as [meta|] eqn:Ha; [|done]. cbn [mbind option_bind] in Hm.
  destruct (mapM (ic_entry nil) l) as [ics'|] eqn:Hl; [|done]. injection Hm as <-.
  destruct n as [|n].
  - injection Hn as -> ->. by exists meta.
  - destruct (IH _ n eq_refl Hn) as (m & Hm' & He). exists m. split; [done|].
    replace (4 * S n)%nat with (4 + 4 * n)%nat by lia. exact He.
Qed.

Lemma resolve_lookup L n cs : forall a is_ c, resolve_all L a cs = Some is_ -> cs !! n = Some c ->
  exists i, is_ !! n = Some i /\ resolve L (a + csizes (take n cs)) c = Some i.
Proof.
  revert n. induction cs as [|c0 cs IH]; intros n a is_ c H Hn; [done|]. cbn in H.
  destruct (resolve L a c0) as [i|] eqn:Hc; [|done]. cbn in H.
  destruct (resolve_all L (a + csize c0) cs) as [is1|] eqn:H1; [|done]. injection H as <-.
  destruct n as [|n].
  - injection Hn as <-. exists i. cbn. by rewrite Z.add_0_r.
  - destruct (IH n _ _ _ H1 Hn) as (i' & ? & ?). exists i'. cbn. by rewrite Z.add_assoc.
Qed.

(** Every symbolic instruction is denoted by the instruction emitted for it. *)
Lemma refines_denotes nil m b p cs is_ ics n s : refines b p cs is_ ->
  existsb is_unbound (labels b) = false -> mapM (ic_entry nil) (ic_sites b) = Some ics ->
  m_literals m = literals b -> m_ics m = concat ics -> prog p !! n = Some s ->
  exists i, is_ !! n = Some i /\ denotes nil m p is_ n s i.
Proof.
  intros HR Hub Hics Hl Hi Hs.
  destruct (Forall2_lookup_l _ _ _ _ _ (r_link _ _ _ _ HR) Hs) as (c & Hc & Hlink).
  destruct (resolve_lookup _ _ _ _ _ _ (r_resolve _ _ _ _ HR) Hc) as (i & Hin & Hres).
  exists i. split; [done|].
  destruct s as [i0|u o|su sel argc|k l]; cbn [link denotes] in *.
  - destruct Hlink as [-> _]. cbn in Hres. by case_guard; simplify_eq/=.
  - destruct Hlink as (idx & -> & Hz). exists idx. rewrite Hl. split; [|done].
    cbn in Hres. by case_guard; simplify_eq/=.
  - destruct Hlink as (ic & -> & Hz). apply zlookup_lt in Hz as Hr.
    unfold zlookup in Hz. destruct (Z.ltb_spec ic 0); [lia|].
    destruct (ic_entries_lookup _ _ _ _ _ _ Hics Hz) as (meta & Hm & Ht). exists ic, meta.
    split_and!; [cbn in Hres; by case_guard; simplify_eq/=|done|].
    rewrite Hi, <- Ht. unfold IC_STRIDE. do 2 f_equal. lia.
  - subst c. cbn [resolve] in Hres. destruct (labels b !! l) as [[t|ss]|] eqn:Hlab; [|exfalso|by destruct k].
    2:{ apply not_true_iff_false in Hub. apply Hub, existsb_exists. exists (Unbound ss).
        split; [|done]. apply list_elem_of_In. by apply list_elem_of_lookup_2 in Hlab. }
    destruct (r_bound _ _ _ _ HR l t Hlab) as (tn & Hb & -> & Htn).
    assert (Some (jump_instr k (distance k (0 + csizes (take n cs)) (csizes (take tn cs)))) = Some i) as [= <-]
      by (destruct k; case_guard; simplify_eq/=; done).
    eexists _, tn. split_and!; [done|done|].
    rewrite !(addr_size _ _ _ _ (r_resolve _ _ _ _ HR)).
    erewrite take_S_r by done. rewrite csizes_app. cbn [csizes csize].
    destruct k; cbn [jump_target jump_instr distance]; f_equal; lia.
Qed.

Lemma last_instr_all is_ : Forall instr_ok is_ ->
  last_instr (concat (encode <$> is_)) = Some (list.last is_).
Proof.
  intros Hok. unfold last_instr. pose proof (encode_fuel is_).
  assert (Hl : (length is_ < S (length (concat (encode <$> is_))))%nat) by lia.
  pose proof (last_instr_encode is_ _ [] None Hok Hl) as Hlast.
  change (zlen []) with 0 in Hlast. cbn [app] in Hlast. rewrite Hlast. by destruct (list.last is_).
Qed.

Lemma spec_run_app ops ops' p :
  spec_run (ops ++ ops') p = p' ← spec_run ops p; spec_run ops' p'.
Proof.
  revert p. induction ops as [|o ops IH]; intros p; cbn [spec_run app]; [done|].
  destruct (spec o p); [apply IH|done].
Qed.

(** What a successful [finish] has checked. *)
Lemma finish_checks relocate nil selector argc ntemps b m :
  finish relocate nil selector argc ntemps b = Some m ->
  existsb is_unbound (labels b) = false /\
  (exists i, last_instr (code b) = Some (Some i) /\ is_return i = true) /\
  (exists ics, mapM (ic_entry nil) (prod_map relocate id <$> ic_sites b) = Some ics /\
               m_ics m = concat ics) /\
  m_code m = code b /\ m_literals m = relocate <$> literals b.
Proof.
  unfold finish. intros H. repeat (case_match; [done|]).
  destruct (last_instr (code b)) as [[i|]|] eqn:Hl; cbn [mbind option_bind] in H; try done.
  destruct (existsb is_unbound (labels b)); [done|].
  destruct (mapM (ic_entry nil) _) as [ics|]; [|by destruct i].
  destruct (MethodFlags.set_flags argc ntemps false false false false 0) as [w|]; [|by destruct i].
  split; [done|]. split.
  - exists i. split; [done|]. by destruct i.
  - destruct i; try discriminate; cbn in H; injection H as <-; split; eauto.
Qed.

(** What a successful session and [finish] have built, from the code they
    emitted on. *)
Lemma build_spec ops relocate nil selector argc ntemps b m :
  run ops new = Some b -> run_fits ops new = true -> finish relocate nil selector argc ntemps b = Some m ->
  exists p is_,
    spec_run (ops ++ [OMove relocate]) (MkProgram [] []) = Some p /\
    m_code m = concat (encode <$> is_) /\ Forall instr_ok is_ /\
    length is_ = length (prog p) /\
    (forall n s, prog p !! n = Some s -> exists i, is_ !! n = Some i /\ denotes nil m p is_ n s i) /\
    (exists i, list.last is_ = Some i /\ is_return i = true).
Proof.
  intros Hrun Hfit Hfin. destruct (run_refines _ _ _ _ _ _ refines_new Hrun Hfit) as (p & cs & is_ & Hp & HR).
  apply (move_refines relocate) in HR as HR'.
  destruct (finish_checks _ _ _ _ _ _ _ Hfin) as (Hub & (i & Hlast & Hret) & (ics & Hics & Hm) & Hc & Hl).
  destruct (resolve_all_len _ _ _ _ (r_resolve _ _ _ _ HR)) as (_ & Hlen & Hok).
  exists (MkProgram (sym_move relocate <$> prog p) (binds p)), is_. split_and!.
  - by rewrite spec_run_app, Hp.
  - rewrite Hc. apply (r_code _ _ _ _ HR).
  - done.
  - cbn. rewrite length_fmap, Hlen. symmetry. apply (Forall2_length _ _ _ (r_link _ _ _ _ HR)).
  - intros n s Hs. by eapply refines_denotes.
  - exists i. split; [|done]. rewrite (r_code _ _ _ _ HR), last_instr_all in Hlast by done. congruence.
Qed.

(** C19. The assembler is correct: whenever a build session and its [finish]
    succeed, the method's bytes decode to exactly one instruction per emitter
    call, in order; every literal operand names a slot holding that oop as
    the collections of the session and of [finish] have moved it, every send
    operand a cache site with its selector and argument count and an empty
    guard, every jump the address of the instruction its label was bound at,
    however early or late; and the code ends in a return. *)
Theorem build_correct ops relocate nil selector argc ntemps b m
    (Hrun : run ops new = Some b) (Hfit : run_fits ops new = true)
    (Hfin : finish relocate nil selector argc ntemps b = Some m) :
  exists p is_,
    spec_run (ops ++ [OMove relocate]) (MkProgram [] []) = Some p /\
    decode_all (m_code m) = Some (with_addr 0 is_) /\
    length is_ = length (prog p) /\
    (forall n s, prog p !! n = Some s -> exists i, is_ !! n = Some i /\ denotes nil m p is_ n s i) /\
    (exists i, list.last is_ = Some i /\ is_return i = true).
Proof.
  destruct (build_spec _ _ _ _ _ _ _ _ Hrun Hfit Hfin) as (p & is_ & Hp & Hc & Hok & H). exists p, is_. split; [done|]. split; [|done].
  rewrite Hc. unfold decode_all. apply (decode_from_encode is_ _ []); [done|]. pose proof (encode_fuel is_). lia.
Qed.

(** A loop with a conditional exit whose second literal is interned after a
    collection has moved the first one to another address and recycled its
    old address: [16] is first one object, then another. *)
Definition demo : list op :=
  [ONewLabel; ONewLabel; ONote 3; OLiteral 16; OBind 0; OPlain (PushTemp 1); OBrFalse 1;
   OMove (fun o => o + 64); OLiteral 16; OSend 100 2; OGlobal 80; OPlain Pop; OJumpBack 0;
   OBind 1; OPlain ReturnSelf].

Lemma build_correct_witness : exists b m,
  run demo new = Some b /\ finish (fun o => o + 8) 7 100 2 3 b = Some m /\
  m_literals m = [88; 24; 88] /\
  exists p is_,
    spec_run (demo ++ [OMove (fun o => o + 8)]) (MkProgram [] []) = Some p /\
    decode_all (m_code m) = Some (with_addr 0 is_) /\
    length is_ = length (prog p) /\
    (forall n s, prog p !! n = Some s -> exists i, is_ !! n = Some i /\ denotes 7 m p is_ n s i) /\
    (exists i, list.last is_ = Some i /\ is_return i = true).
Proof.
  eexists _, _. split; [vm_compute; reflexivity|]. split; [vm_compute; reflexivity|].
  split; [reflexivity|].
  eapply (build_correct demo (fun o => o + 8) 7 100 2 3);
    [vm_compute; reflexivity|vm_compute; reflexivity|vm_compute; reflexivity].
Defined.

(** A global access names its association's literal slot exactly when the
    slot's index fits the one-byte operand: past the 256th literal [push_global]
    and [store_global_pop] are emitted without complaint and name another
    slot. *)
Theorem global_operand_width assoc b b1 idx
    (Hi : intern_literal assoc b = Some (idx, b1)) :
  exists b2 b3, push_global assoc b = Some b2 /\ store_global_pop assoc b = Some b3 /\
    decode_at (code b2) (here b) = Some (PushGlobal (idx mod 256), here b2) /\
    decode_at (code b3) (here b) = Some (StoreGlobalPop (idx mod 256), here b3) /\
    zlookup (literals b2) idx = Some assoc /\ zlookup (literals b3) idx = Some assoc /\
    (idx mod 256 = idx <-> idx <= 255).
Proof.
  destruct (intern_spec _ _ _ _ Hi) as (Hz & Hr & _ & Hc & _).
  unfold push_global, store_global_pop. rewrite Hi. cbn [mbind option_bind].
  assert (Hw : inU 8 (idx mod 256)) by (apply Z.mod_pos_bound; lia).
  do 2 eexists. split; [done|]. split; [done|]. unfold here. cbn [code literals emit_u8 set_code].
  rewrite Hc, <- !(assoc_L (++)). cbn [app].
  rewrite !(zlen_app (code b)).
  pose proof (decode_encode_mid (code b) (PushGlobal (idx mod 256)) [] Hw) as H1.
  pose proof (decode_encode_mid (code b) (StoreGlobalPop (idx mod 256)) [] Hw) as H2.
  rewrite app_nil_r in H1, H2. split_and!; [exact H1|exact H2|exact Hz|exact Hz|].
  unfold inU in Hw. split; intros H; [lia|]. apply Z.mod_small. lia.
Qed.

Lemma global_operand_width_witness :
  let b := MkBuilder [] (replicate 300 0) ∅ 0 [] [] [] in
  intern_literal 8888 b = Some (300, snd (intern_fresh 8888 b)) /\ exists b2,
  push_global 8888 b = Some b2 /\ decode_at (code b2) (here b) = Some (PushGlobal 44, here b2).
Proof.
  intros b. split; [reflexivity|].
  destruct (global_operand_width 8888 b (snd (intern_fresh 8888 b)) 300 eq_refl)
    as (b2 & b3 & H1 & _ & H2 & _).
  exists b2. split; [exact H1|exact H2].
Defined.
End BytecodeBuilder.
