(* ===== verification/OldSpace.v ===== *)
(** The generations and the tables of the old one: heap geometry
    ([src/src/memory/layout.rs]), bump-allocated spaces ([spaces.rs]), the card
    table ([cards.rs]), the object-start offset table ([offsets.rs]) and the
    tenuring age table ([scavenge.rs]).

    Addresses and sizes are [usize] values as [Z]; a checked subtraction that
    would underflow, a table index out of range and a failed assertion are
    [None].  The operating system's commit of a page range has no counterpart
    here: a table's bytes exist from its construction on. *)
From S2P Require Import Prelude Oops.

Definition CARD_SHIFT : Z := 9.
Definition CARD_SIZE : Z := Z.shiftl 1 CARD_SHIFT.
Definition CARD_DIRTY : Z := 0.
Definition CARD_CLEAN : Z := 1.

(** ** Heap geometry (memory/layout.rs) *)
Module Geometry.
Definition SURVIVOR_SIZE : Z := Z.shiftl 512 10.
Definition DEFAULT_EDEN_SIZE : Z := Z.shiftl 32 20.

Definition default_eden_for (total_len : Z) : Z := Z.min DEFAULT_EDEN_SIZE (total_len / 4).

Record SpaceBounds := MkBounds { b_start : Z; b_end : Z }.

Definition contains (b : SpaceBounds) (addr : Z) : bool :=
  (b_start b <=? addr) && (addr <? b_end b).
Definition len (b : SpaceBounds) : Z := b_end b - b_start b.

Record HeapLayout := MkLayout {
  eden : SpaceBounds; from : SpaceBounds; to : SpaceBounds; old : SpaceBounds; old_start : Z }.

Definition new (base total_len eden_size : Z) : option HeapLayout :=
  let eden := MkBounds base (base + eden_size) in
  let from := MkBounds (b_end eden) (b_end eden + SURVIVOR_SIZE) in
  let to := MkBounds (b_end from) (b_end from + SURVIVOR_SIZE) in
  let old_start := b_end to in
  let reservation_end := base + total_len in
  if reservation_end <? old_start then None
  else Some (MkLayout eden from to (MkBounds old_start reservation_end) old_start).

Definition is_old (l : HeapLayout) (oop_or_addr : Z) : bool := old_start l <=? oop_or_addr.
Definition is_new (l : HeapLayout) (oop_or_addr : Z) : bool := oop_or_addr <? old_start l.

(** The spaces tile the reservation: every address of it lies in exactly
    one of eden, from, to and old, and the one-compare generation test,
    applied to the address or to the tagged oop of an aligned object there,
    says exactly whether that space is old. *)
Theorem heap_layout_tiles base total_len eden_size l a
    (Hl : new base total_len eden_size = Some l) (He : 0 <= eden_size)
    (Hb : base mod 8 = 0) (He8 : eden_size mod 8 = 0)
    (Ha : base <= a < base + total_len) :
  length (filter (fun b => contains b a = true) [eden l; from l; to l; old l]) = 1%nat /\
  is_old l a = contains (old l) a /\ is_new l a = negb (contains (old l) a) /\
  (a mod 8 = 0 -> is_old l (a + MEM_TAG) = is_old l a /\ is_new l (a + MEM_TAG) = is_new l a).
Proof.
  unfold new in Hl. cbn [b_end] in Hl.
  destruct (Z.ltb_spec (base + total_len) (base + eden_size + SURVIVOR_SIZE + SURVIVOR_SIZE));
    [done|]. injection Hl as <-.
  unfold is_old, is_new, contains, SURVIVOR_SIZE, MEM_TAG in *.
  cbn [eden from to old old_start b_start b_end]. change (Z.shiftl 512 10) with 524288 in *.
  split_and!.
  - cbn [filter list_filter b_start b_end]. repeat (case_decide as Hd || cmp_cases); cbn; try done; try lia;
      repeat match goal with H : _ && _ = true |- _ => apply andb_true_iff in H as [?%Z.leb_le ?%Z.ltb_lt]
      | H : _ && _ <> true |- _ => rewrite andb_true_iff, Z.leb_le, Z.ltb_lt in H end; lia.
  - by cmp_cases.
  - by cmp_cases.
  - intros Ha8. split; cmp_cases; try done; Z.div_mod_to_equations; lia.
Qed.
Lemma heap_layout_tiles_witness : exists l,
  new 4096 (Z.shiftl 64 20) (default_eden_for (Z.shiftl 64 20)) = Some l /\
  length (filter (fun b => contains b 8192 = true) [eden l; from l; to l; old l]) = 1%nat.
Proof.
  eexists. split; [reflexivity|].
  eapply (heap_layout_tiles 4096 (Z.shiftl 64 20) (default_eden_for (Z.shiftl 64 20)));
    first [reflexivity | vm_compute; split; [discriminate|reflexivity] | vm_compute; discriminate].
Defined.
End Geometry.
Import Geometry.

(** ** Bump-allocated young spaces (memory/spaces.rs) *)
Module Spaces.
Record Eden := MkSpace { s_start : Z; s_top : Z; s_end : Z }.

Definition eden_new (start size : Z) : Eden := MkSpace start start (start + size).
Definition survivor_new (b : SpaceBounds) : Eden := MkSpace (b_start b) (b_start b) (b_end b).
Definition remaining (e : Eden) : Z := s_end e - s_top e.
Definition reset (e : Eden) : Eden := MkSpace (s_start e) (s_start e) (s_end e).
End Spaces.

(** ** The card table (memory/cards.rs) *)
Module Cards.
(** [base] is the address of the table's own bytes, [entries] those bytes. *)
Record CardTable := MkCards { base : Z; old_start : Z; n_cards : Z; entries : list Z }.

Definition div_ceil (a b : Z) : Z := (a + b - 1) / b.

Definition cards_for (b : SpaceBounds) : Z := Z.max 1 (div_ceil (len b) CARD_SIZE).

Definition new (backing : Z) (old_reserved : SpaceBounds) : CardTable :=
  let n := cards_for old_reserved in
  MkCards backing (b_start old_reserved) n (replicate (Z.to_nat n) CARD_CLEAN).

Definition card_index (t : CardTable) (slot_addr : Z) : option Z :=
  if slot_addr <? old_start t then None
  else Some (Z.shiftr (slot_addr - old_start t) CARD_SHIFT).

Definition card_base (t : CardTable) (i : Z) : Z := old_start t + Z.shiftl i CARD_SHIFT.

Definition base_biased (t : CardTable) : Z := u64 (base t - Z.shiftr (old_start t) CARD_SHIFT).

Definition store (t : CardTable) (i v : Z) : option CardTable :=
  e ← zset (entries t) i v; Some (MkCards (base t) (old_start t) (n_cards t) e).

Definition dirty_for_slot (t : CardTable) (slot_addr : Z) : option CardTable :=
  i ← card_index t slot_addr; store t i CARD_DIRTY.

Definition record_multistores (t : CardTable) (start end_ : Z) : option CardTable :=
  if end_ <=? start then Some t
  else
    first ← card_index t start;
    last_ ← card_index t (end_ - 1);
    e ← zset_all (fun _ => CARD_DIRTY) (zrange first (last_ + 1)) (entries t);
    Some (MkCards (base t) (old_start t) (n_cards t) e).

Definition is_dirty (t : CardTable) (i : Z) : option bool :=
  e ← zlookup (entries t) i; Some (e =? CARD_DIRTY).

Definition set_clean (t : CardTable) (i : Z) : option CardTable := store t i CARD_CLEAN.

(** A table for a range: [n_cards] entries that cover it. *)
Definition well_formed (t : CardTable) (b : SpaceBounds) : Prop :=
  old_start t = b_start b /\ n_cards t = cards_for b /\ zlen (entries t) = n_cards t.

Lemma card_index_eq t a : old_start t <= a -> card_index t a = Some ((a - old_start t) / 512).
Proof.
  intros. unfold card_index. destruct (Z.ltb_spec a (old_start t)); [lia|].
  by rewrite Z.shiftr_div_pow2.
Qed.

Lemma card_base_eq t i : card_base t i = old_start t + 512 * i.
Proof. unfold card_base. rewrite Z.shiftl_mul_pow2 by done. change (2 ^ CARD_SHIFT) with 512. lia. Qed.

Lemma cards_for_covers b a : b_start b <= a < b_end b -> (a - b_start b) / 512 < cards_for b.
Proof.
  intros Ha. unfold cards_for, div_ceil, len. change CARD_SIZE with 512. Z.div_mod_to_equations; lia.
Qed.

Lemma new_well_formed backing b : well_formed (new backing b) b.
Proof.
  split_and!; [done..|]. cbn. unfold zlen. rewrite length_replicate. unfold cards_for. lia.
Qed.

(** The single-slot store is the range of one byte. *)
Lemma dirty_for_slot_eq t start : dirty_for_slot t start = record_multistores t start (start + 1).
Proof.
  unfold dirty_for_slot, record_multistores, store. destruct (Z.leb_spec (start + 1) start); [lia|].
  replace (start + 1 - 1) with start by lia. destruct (card_index t start) as [i|]; [|done].
  cbn [mbind option_bind]. rewrite zrange_snoc, zrange_nil by lia. cbn.
  by destruct (zset (entries t) i CARD_DIRTY).
Qed.

Lemma record_multistores_ok t b start end_ : well_formed t b -> b_start b <= start -> start < end_ <= b_end b ->
  exists t', record_multistores t start end_ = Some t' /\ well_formed t' b /\
    forall i, 0 <= i < n_cards t ->
      is_dirty t' i =
      (if decide (card_base t i < end_ /\ start < card_base t i + CARD_SIZE) then Some true
       else is_dirty t i).
Proof.
  intros (Ho & Hn & Hl) Hs He. change CARD_SIZE with 512.
  pose proof (cards_for_covers b start ltac:(lia)) as Hc1.
  pose proof (cards_for_covers b (end_ - 1) ltac:(lia)) as Hc2.
  assert (Hlo : 0 <= (start - b_start b) / 512) by (apply Z.div_pos; lia).
  unfold record_multistores. destruct (Z.leb_spec end_ start); [lia|].
  rewrite !card_index_eq by lia. cbn [mbind option_bind].
  destruct (zset_all_ok (fun _ => CARD_DIRTY)
    (zrange ((start - old_start t) / 512) ((end_ - 1 - old_start t) / 512 + 1)) (entries t))
    as (e & -> & Hlen & Hlk).
  { intros i Hi%elem_of_zrange. rewrite Hl, Hn, Ho in *. lia. }
  eexists. split; [done|]. split; [by split_and!; cbn; [..|lia]|].
  intros i Hi. unfold is_dirty. cbn [entries]. rewrite Hlk, card_base_eq.
  destruct (decide (i ∈ _)) as [Hin|Hin]; rewrite elem_of_zrange in Hin; rewrite Ho in *.
  - rewrite decide_True; [done|]. Z.div_mod_to_equations; lia.
  - rewrite decide_False; [done|]. Z.div_mod_to_equations; lia.
Qed.

(** The write barrier's bulk store is exact: after
    [record_multistores start end] a card is dirty if it was, or if it overlaps
    the stored range, and no other card changes; the call succeeds for every
    range of the old generation.  The single-slot store is the special case
    of its slot, and the biased base compiled code adds the shifted slot
    address to reaches the same table byte. *)
Theorem card_barrier_exact t b start end_
    (Ht : well_formed t b) (Hs : b_start b <= start) (He : start < end_ <= b_end b) :
  (exists t', record_multistores t start end_ = Some t' /\ well_formed t' b /\
     forall i, 0 <= i < n_cards t ->
       is_dirty t' i =
       (if decide (card_base t i < end_ /\ start < card_base t i + CARD_SIZE) then Some true
        else is_dirty t i)) /\
  dirty_for_slot t start = record_multistores t start (start + 1) /\
  (old_start t mod CARD_SIZE = 0 -> inU 64 (base t + n_cards t) -> 0 <= base t ->
   exists i, card_index t start = Some i /\ 0 <= i < n_cards t /\
     u64 (base_biased t + Z.shiftr start CARD_SHIFT) = base t + i).
Proof.
  destruct Ht as (Ho & Hn & Hl). pose proof (cards_for_covers b start ltac:(lia)) as Hc1.
  change CARD_SIZE with 512.
  assert (Hlo : 0 <= (start - b_start b) / 512) by (apply Z.div_pos; lia). split_and!.
  - apply record_multistores_ok; [by split_and!|done|done].
  - apply dirty_for_slot_eq.
  - intros Ha Hb0 Hb1. exists ((start - old_start t) / 512). rewrite card_index_eq by lia.
    split; [done|]. rewrite Hn, Ho in *. split; [lia|].
    unfold base_biased. rewrite Ho, !Z.shiftr_div_pow2 by done. change (2 ^ CARD_SHIFT) with 512.
    unfold wrapU. rewrite Zplus_mod_idemp_l. unfold inU in Hb0.
    rewrite <- (Z.mod_small (base t + (start - b_start b) / 512) (2 ^ 64)) by lia. f_equal.
    Z.div_mod_to_equations; lia.
Qed.

Lemma card_barrier_exact_witness :
  let b := MkBounds 8192 16384 in let t := new 100000 b in
  exists t', record_multistores t 9000 10300 = Some t' /\
    is_dirty t' 1 = Some true /\ is_dirty t' 5 = Some false /\
    forall i, 0 <= i < n_cards t ->
       is_dirty t' i =
       (if decide (card_base t i < 10300 /\ 9000 < card_base t i + CARD_SIZE) then Some true
        else is_dirty t i).
Proof.
  intros b t. destruct (card_barrier_exact t b 9000 10300) as [(t' & H1 & _ & H2) _];
    [apply new_well_formed|discriminate|split; [reflexivity|discriminate]|].
  exists t'. split; [exact H1|]. split; [rewrite H2; [reflexivity|]|split; [rewrite H2; [reflexivity|]|exact H2]];
    vm_compute; split; congruence.
Defined.
End Cards.

(** ** The object-start offset table (memory/offsets.rs) *)
Module Offsets.
Definition MAX_DIRECT : Z := 64.
Definition MAX_CHAIN_SKIP : Z := 191.

Record OffsetTable := MkOffsets { old_start : Z; n_cards : Z; entries : list Z }.

Definition new (old_reserved : SpaceBounds) : OffsetTable :=
  let n := Cards.cards_for old_reserved in
  MkOffsets (b_start old_reserved) n (replicate (Z.to_nat n) 0).

Definition with_entries (t : OffsetTable) (e : list Z) : OffsetTable :=
  MkOffsets (old_start t) (n_cards t) e.

Definition set_entry (t : OffsetTable) (i v : Z) : option OffsetTable :=
  with_entries t <$> zset (entries t) i v.
Definition get_entry (t : OffsetTable) (i : Z) : option Z := zlookup (entries t) i.

Definition card_index (t : OffsetTable) (addr : Z) : option Z :=
  if addr <? old_start t then None else Some (Z.shiftr (addr - old_start t) CARD_SHIFT).
Definition card_base (t : OffsetTable) (i : Z) : Z := old_start t + Z.shiftl i CARD_SHIFT.

Definition clear_through (t : OffsetTable) (old_top_before : Z) : option OffsetTable :=
  if old_top_before <=? old_start t then Some t
  else
    last_ ← card_index t (old_top_before - 1);
    with_entries t <$> zset_all (fun _ => 0) (zrange 0 (last_ + 1)) (entries t).

(** The byte [record_object] writes at card [i] of an object whose header is
    at [addr], in card [c0]. *)
Definition entry_value (t : OffsetTable) (addr c0 i : Z) : Z :=
  let distance_words := (card_base t i - addr) / WORD_SIZE in
  if distance_words <=? MAX_DIRECT then u8 distance_words
  else
    let skip := Z.min (i - (c0 + 1)) MAX_CHAIN_SKIP in
    u8 (MAX_DIRECT + u8 skip).

Definition record_object (t : OffsetTable) (addr size_bytes : Z) : option OffsetTable :=
  if negb (addr mod WORD_SIZE =? 0) || (size_bytes <=? 0) then None
  else
    c0 ← card_index t addr;
    c_last ← card_index t (addr + size_bytes - 1);
    t ← (if addr =? card_base t c0 then set_entry t c0 0 else Some t);
    with_entries t <$> zset_all (entry_value t addr c0) (zrange (c0 + 1) (c_last + 1)) (entries t).

(** The fuel bounds the number of chained entries followed. *)
Fixpoint resolve_from (fuel : nat) (t : OffsetTable) (i : Z) : option Z :=
  match fuel with
  | O => None
  | S fuel =>
      e ← get_entry t i;
      if e <=? MAX_DIRECT then Some (card_base t i - e * WORD_SIZE)
      else
        let skip := e - MAX_DIRECT in
        if i <? skip then None else resolve_from fuel t (i - skip)
  end.

Definition resolve (t : OffsetTable) (i : Z) : option Z := resolve_from (S (Z.to_nat i)) t i.

(** A table for a range: [n_cards] entries that cover it. *)
Definition well_formed (t : OffsetTable) (b : SpaceBounds) : Prop :=
  old_start t = b_start b /\ n_cards t = Cards.cards_for b /\ zlen (entries t) = n_cards t.

(** The entries of an object: every card whose base lies inside it. *)
Definition recorded (t : OffsetTable) (addr size : Z) : Prop :=
  forall i, 0 <= i -> addr <= card_base t i < addr + size ->
    get_entry t i = Some (entry_value t addr ((addr - old_start t) / 512) i).

Lemma offset_index_eq t a : old_start t <= a -> card_index t a = Some ((a - old_start t) / 512).
Proof.
  intros. unfold card_index. destruct (Z.ltb_spec a (old_start t)); [lia|].
  by rewrite Z.shiftr_div_pow2.
Qed.

Lemma offset_base_eq t i : card_base t i = old_start t + 512 * i.
Proof. unfold card_base. rewrite Z.shiftl_mul_pow2 by done. change (2 ^ CARD_SHIFT) with 512. lia. Qed.

Lemma offsets_well_formed b : well_formed (new b) b.
Proof.
  split_and!; [done..|]. cbn. unfold zlen. rewrite length_replicate. unfold Cards.cards_for. lia.
Qed.

(** What an entry says: the header is [entry] words back, or another card of
    the same object is some cards back. *)
Lemma entry_value_cases t addr i : addr mod 8 = 0 -> old_start t mod 8 = 0 ->
  old_start t <= addr -> addr <= card_base t i ->
  let e := entry_value t addr ((addr - old_start t) / 512) i in
  0 <= e <= MAX_DIRECT /\ card_base t i - e * WORD_SIZE = addr \/
  MAX_DIRECT < e <= 255 /\ e - MAX_DIRECT <= i /\ addr <= card_base t (i - (e - MAX_DIRECT)).
Proof.
  intros Ha Ho Hlo Hb e. unfold e, entry_value. rewrite offset_base_eq in *. change WORD_SIZE with 8.
  unfold MAX_DIRECT, MAX_CHAIN_SKIP.
  set (c0 := (addr - old_start t) / 512).
  assert (Hc0 : 512 * c0 <= addr - old_start t < 512 * c0 + 512) by (unfold c0; Z.div_mod_to_equations; lia).
  destruct (Z.leb_spec ((old_start t + 512 * i - addr) / 8) 64) as [Hd|Hd].
  - left. rewrite wrapU_id by (unfold inU; Z.div_mod_to_equations; lia). Z.div_mod_to_equations; lia.
  - right.
    assert (H1 : 0 < Z.min (i - (c0 + 1)) 191 <= 191).
    { split; [|lia]. apply Z.min_glb_lt; [|lia]. clearbody c0. Z.div_mod_to_equations; lia. }
    rewrite (wrapU_id 8 (Z.min _ _)) by (unfold inU; lia). rewrite wrapU_id by (unfold inU; lia).
    rewrite offset_base_eq. lia.
Qed.

(** The chain of an object's entries ends at its header, within the fuel. *)
Lemma resolve_recorded t addr size : addr mod 8 = 0 -> old_start t mod 8 = 0 -> old_start t <= addr ->
  recorded t addr size -> forall fuel i, 0 <= i -> (Z.to_nat i < fuel)%nat ->
  addr <= card_base t i < addr + size -> resolve_from fuel t i = Some addr.
Proof.
  intros Ha Ho Hlo Hr fuel. induction fuel as [|fuel IH]; intros i Hi Hf Hb; [lia|]. cbn.
  rewrite (Hr i Hi Hb). cbn [mbind option_bind].
  destruct (entry_value_cases t addr i Ha Ho Hlo ltac:(lia)) as [[He Hh]|(He & Hs & Hbk)];
    set (e := entry_value _ _ _ _) in *.
  - destruct (Z.leb_spec e MAX_DIRECT); [|lia]. by rewrite Hh.
  - destruct (Z.leb_spec e MAX_DIRECT); [lia|]. destruct (Z.ltb_spec i (e - MAX_DIRECT)); [lia|].
    rewrite offset_base_eq in *. apply IH; rewrite ?offset_base_eq; lia.
Qed.

(** Recording an object writes its entries and no other object's. *)
Lemma record_object_ok t b addr size : well_formed t b -> addr mod 8 = 0 ->
  b_start b <= addr -> 0 < size -> addr + size <= b_end b ->
  exists t', record_object t addr size = Some t' /\ well_formed t' b /\ recorded t' addr size /\
    forall x s, x + s <= addr -> recorded t x s -> recorded t' x s.
Proof.
  intros (Ho & Hn & Hl) Ha Hlo Hs Hhi.
  pose proof (Cards.cards_for_covers b addr ltac:(lia)) as Hc1.
  pose proof (Cards.cards_for_covers b (addr + size - 1) ltac:(lia)) as Hc2.
  assert (H0 : 0 <= (addr - b_start b) / 512) by (apply Z.div_pos; lia).
  unfold record_object. change WORD_SIZE with 8. rewrite Ha, Z.eqb_refl.
  destruct (Z.leb_spec size 0); [lia|]. cbn [negb orb]. rewrite !offset_index_eq by lia.
  cbn [mbind option_bind]. rewrite Ho. set (c0 := (addr - b_start b) / 512) in *.
  set (c1 := (addr + size - 1 - b_start b) / 512) in *.
  assert (exists t1, (if addr =? card_base t c0 then set_entry t c0 0 else Some t) = Some t1 /\
    old_start t1 = old_start t /\ n_cards t1 = n_cards t /\ zlen (entries t1) = zlen (entries t) /\
    forall j, get_entry t1 j =
      if decide (j = c0 /\ addr = card_base t c0) then Some 0 else get_entry t j)
    as (t1 & -> & Ho1 & Hn1 & Hl1 & Hg1).
  { destruct (Z.eqb_spec addr (card_base t c0)) as [He|He].
    - unfold set_entry. rewrite zset_ok by lia. eexists. split; [done|]. cbn.
      rewrite zlen_insert. split_and!; [done..|]. intros j. unfold get_entry. cbn.
      destruct (decide (j = c0 /\ _)) as [[-> _]|Hne]; [by apply zlookup_zinsert; lia|].
      apply zlookup_zinsert_ne; [|lia]. intros ->. by destruct Hne.
    - exists t. split_and!; [done..|]. intros j. rewrite decide_False; [done|]. by intros [_ ?]. }
  cbn [mbind option_bind].
  destruct (zset_all_ok (entry_value t1 addr c0) (zrange (c0 + 1) (c1 + 1)) (entries t1))
    as (e & -> & Hle & Hg).
  { intros i Hi%elem_of_zrange. lia. }
  eexists. split; [done|]. cbn.
  assert (Hg' : forall j, get_entry (with_entries t1 e) j =
    if decide (c0 + 1 <= j < c1 + 1) then Some (entry_value t addr c0 j)
    else if decide (j = c0 /\ addr = card_base t c0) then Some 0 else get_entry t j).
  { intros j. unfold get_entry at 1. cbn. rewrite Hg. rewrite <- Hg1.
    destruct (decide (j ∈ _)) as [Hin|Hin]; rewrite elem_of_zrange in Hin;
      [rewrite decide_True by done|by rewrite decide_False].
    unfold entry_value. by rewrite !offset_base_eq, Ho1. }
  assert (Hcb : forall j, card_base (with_entries t1 e) j = card_base t j)
    by (intros; rewrite !offset_base_eq; cbn; lia).
  assert (Hev : forall x y j, entry_value (with_entries t1 e) x y j = entry_value t x y j)
    by (intros; unfold entry_value; by rewrite Hcb).
  assert (Hst : old_start (with_entries t1 e) = b_start b) by (cbn; lia).
  assert (Hr0 : 512 * c0 <= addr - b_start b < 512 * c0 + 512)
    by (unfold c0; Z.div_mod_to_equations; lia).
  assert (Hr1 : 512 * c1 <= addr + size - 1 - b_start b < 512 * c1 + 512)
    by (unfold c1; Z.div_mod_to_equations; lia).
  split_and!; [cbn; unfold well_formed; cbn; lia| |].
  - intros i Hi Hb. rewrite Hg', Hst, Hev, Hcb, offset_base_eq in *. fold c0. clearbody c0 c1.
    destruct (decide (c0 + 1 <= i < c1 + 1)); [done|].
    rewrite decide_True by lia. unfold entry_value. rewrite offset_base_eq.
    assert (i = c0) as -> by lia.
    replace (old_start t + 512 * c0 - addr) with 0 by lia. done.
  - intros x s Hx Hr i Hi Hb. rewrite Hg', Hst, Hev, Hcb, offset_base_eq in *. clearbody c0 c1.
    rewrite !decide_False by (rewrite ?offset_base_eq; lia).
    rewrite <- Ho. apply Hr; [done|]. rewrite offset_base_eq. lia.
Qed.
End Offsets.
Export Offsets(OffsetTable).

(** ** The old generation (memory/spaces.rs) and the dirty-card walk *)
Module OldGen.
Record OldGen := MkOld { bounds : SpaceBounds; committed_end : Z; top : Z }.

Definition new (b : SpaceBounds) (committed_end : Z) : option OldGen :=
  if b_end b <? committed_end then None else Some (MkOld b committed_end (b_start b)).

Definition remaining (g : OldGen) : Z := committed_end g - top g.
Definition free_bytes (g : OldGen) : Z := committed_end g - top g.

Definition USIZE_MAX : Z := Z.ones 64.
Definition saturating_add (a b : Z) : Z := Z.min (a + b) USIZE_MAX.

(** The bytes newly committed, and the generation. *)
Definition grow (g : OldGen) (segment : Z) : Z * OldGen :=
  let new_end := Z.min (saturating_add (committed_end g) (Z.max segment 1)) (b_end (bounds g)) in
  let grown := new_end - committed_end g in
  if grown =? 0 then (0, g) else (grown, MkOld (bounds g) new_end (top g)).

(** [(size_bytes + 7) & !7]. *)
Definition align8 (size_bytes : Z) : option Z :=
  if decide (inU 64 (size_bytes + 7)) then Some (Z.land (size_bytes + 7) (not64 7)) else None.

Definition checked_add (a b : Z) : option Z := if decide (inU 64 (a + b)) then Some (a + b) else None.

Section allocate.
(** [M] is the state of the memory [fill] initialises. *)
Context {M : Type}.

Record result := MkResult {
  r_addr : option Z; r_old : OldGen; r_offsets : OffsetTable; r_mem : M }.

Definition allocate (g : OldGen) (offsets : OffsetTable) (mem : M) (size_bytes : Z)
    (fill : Z -> M -> M) : option result :=
  size_bytes ← align8 size_bytes;
  match checked_add (top g) size_bytes with
  | None => Some (MkResult None g offsets mem)
  | Some new_top =>
      if committed_end g <? new_top then Some (MkResult None g offsets mem)
      else
        let addr := top g in
        let mem := fill addr mem in
        offsets ← Offsets.record_object offsets addr size_bytes;
        Some (MkResult (Some addr) (MkOld (bounds g) (committed_end g) new_top) offsets mem)
  end.
End allocate.

(** The inner loop of [dirty_card_scan]: the headers visited from [addr] on,
    where [size_of] reads an object's size from its header; the fuel bounds
    the number of objects. *)
Fixpoint card_walk (fuel : nat) (size_of : Z -> Z) (card_base card_end old_top_before addr : Z) :
    option (list Z) :=
  match fuel with
  | O => None
  | S fuel =>
      if (addr <? card_end) && (addr <? old_top_before) then
        let obj_end := addr + size_of addr in
        rest ← card_walk fuel size_of card_base card_end old_top_before obj_end;
        Some (if card_base <? obj_end then addr :: rest else rest)
      else Some []
  end.

(** The objects whose slots the scan of card [i] looks at; an object has at
    least a header, so 64 objects start in a card and one reaches into it. *)
Definition scan_card (cards : Cards.CardTable) (t : OffsetTable) (size_of : Z -> Z)
    (old_top_before i : Z) : option (list Z) :=
  let card_base := Cards.card_base cards i in
  if old_top_before <=? card_base then Some []
  else
    dirty ← Cards.is_dirty cards i;
    if negb dirty then Some []
    else
      addr ← Offsets.resolve t i;
      card_walk 66 size_of card_base (card_base + CARD_SIZE) old_top_before addr.

(** *** A history of the generation *)
Inductive op := Alloc (size_bytes : Z) | Grow (segment : Z).

Definition op_ok (o : op) : Prop :=
  match o with Alloc n => 0 < n /\ inU 64 (n + 7) | Grow n => inU 64 n end.

Record state := MkState { gen : OldGen; offsets : OffsetTable; objects : list (Z * Z) }.

(** Executes one operation, recording the object it places. *)
Definition exec (o : op) (st : state) : option state :=
  match o with
  | Grow segment => Some (MkState (snd (grow (gen st) segment)) (offsets st) (objects st))
  | Alloc n =>
      r ← allocate (gen st) (offsets st) (objects st) n
            (fun addr objs => objs ++ [(addr, match align8 n with Some s => s | None => 0 end)]);
      Some (MkState (r_old r) (r_offsets r) (r_mem r))
  end.

Fixpoint run (ops : list op) (st : state) : option state :=
  match ops with [] => Some st | o :: ops => st ← exec o st; run ops st end.

(** Objects laid end to end from [a] to [b]. *)
Fixpoint tiled (a : Z) (objs : list (Z * Z)) (b : Z) : Prop :=
  match objs with
  | [] => a = b
  | (x, s) :: objs => x = a /\ 0 < s /\ s mod 8 = 0 /\ tiled (a + s) objs b
  end.

Record inv (b : SpaceBounds) (st : state) : Prop := {
  i_bounds : bounds (gen st) = b;
  i_tiled : tiled (b_start b) (objects st) (top (gen st));
  i_top : top (gen st) <= committed_end (gen st) <= b_end b;
  i_table : Offsets.well_formed (offsets st) b;
  i_recorded : forall x s, (x, s) ∈ objects st -> Offsets.recorded (offsets st) x s }.

Lemma align8_eq n : 0 <= n -> inU 64 (n + 7) -> align8 n = Some (8 * ((n + 7) / 8)).
Proof.
  intros Hn Hu. unfold align8. rewrite decide_True by done. f_equal.
  rewrite land_not64 by done. rewrite <- Z.ldiff_land. change (Z.ldiff (n + 7) 7) with (Z.ldiff (n + 7) (Z.ones 3)).
  rewrite Z.ldiff_ones_r, Z.shiftl_mul_pow2, Z.shiftr_div_pow2 by done. change (2 ^ 3) with 8. lia.
Qed.

Lemma tiled_app a objs b s : tiled a objs b -> 0 < s -> s mod 8 = 0 ->
  tiled a (objs ++ [(b, s)]) (b + s).
Proof.
  revert a. induction objs as [|[x s'] objs IH]; intros a; cbn.
  - by intros ->.
  - intros (-> & ? & ? & ?) ? ?. split_and!; auto.
Qed.

Lemma tiled_bounds a objs b : tiled a objs b -> a <= b /\ b mod 8 = a mod 8 /\
  forall x s, (x, s) ∈ objs -> a <= x /\ x + s <= b /\ x mod 8 = a mod 8 /\ 0 < s.
Proof.
  revert a. induction objs as [|[x s] objs IH]; intros a; cbn.
  - intros ->. split_and!; [lia|done|]. by intros ? ? ?%elem_of_nil.
  - intros (-> & Hs & H8 & Ht). destruct (IH _ Ht) as (H1 & H2 & H3).
    assert ((a + s) mod 8 = a mod 8) as H4 by (Z.div_mod_to_equations; lia).
    split_and!; [lia|congruence|]. intros y s' [[= -> ->]|Hin]%elem_of_cons; [lia|].
    destruct (H3 _ _ Hin) as (? & ? & ? & ?). split_and!; [lia|lia|congruence|lia].
Qed.

(** The object over an address of a tiled range. *)
Lemma tiled_find a objs b p : tiled a objs b -> a <= p < b ->
  exists l x s r, objs = l ++ (x, s) :: r /\ x <= p < x + s /\ tiled a l x /\ tiled (x + s) r b.
Proof.
  revert a. induction objs as [|[x s] objs IH]; intros a; cbn; [lia|].
  intros (-> & Hs & H8 & Ht) Hp. destruct (decide (p < a + s)) as [Hlt|Hge].
  - exists [], a, s, objs. cbn. split_and!; (done || lia).
  - destruct (IH _ Ht) as (l & x & s' & r & -> & Hx & H1 & H2); [lia|].
    exists ((a, s) :: l), x, s', r. cbn. split_and!; (done || lia).
Qed.

Lemma inv_new b c g : new b c = Some g -> b_start b <= c ->
  inv b (MkState g (Offsets.new b) []).
Proof.
  unfold new. destruct (Z.ltb_spec (b_end b) c); [done|]. intros [= <-] Hc.
  split; cbn; try done; [apply Offsets.offsets_well_formed|]. by intros x s Hin%elem_of_nil.
Qed.

Lemma exec_inv b o st : 0 <= b_start b -> b_start b mod 8 = 0 -> b_end b < 2 ^ 64 ->
  inv b st -> op_ok o -> exists st', exec o st = Some st' /\ inv b st'.
Proof.
  intros H0 H8 Hmax HI Ho. pose proof HI as [Hb Ht Htop Hw Hr].
  destruct (tiled_bounds _ _ _ Ht) as (Hlo & Hmod & Hobj).
  destruct o as [n|n]; cbn [exec op_ok] in *.
  - destruct Ho as [Hn Hu]. unfold allocate. rewrite align8_eq by (done || lia). cbn [mbind option_bind].
    set (s := 8 * ((n + 7) / 8)). assert (Hs : 0 < s /\ s mod 8 = 0 /\ 0 <= s)
      by (unfold s; Z.div_mod_to_equations; lia). clearbody s.
    unfold checked_add. case_decide as Hc; cbn; [|eexists; split; [done|by split]].
    destruct (Z.ltb_spec (committed_end (gen st)) (top (gen st) + s));
      [eexists; split; [done|by split]|].
    destruct (Offsets.record_object_ok (offsets st) b (top (gen st)) s) as (t' & -> & Hw' & Hr' & Hf);
      try done; try lia.
    eexists. split; [done|]. split; cbn; try done; [apply tiled_app; tauto|lia|].
    intros x s' [Hin|Hin]%elem_of_app.
    + apply Hf; [|by apply Hr]. by apply Hobj in Hin as (_ & ? & _).
    + by apply list_elem_of_singleton in Hin as [= -> ->].
  - eexists. split; [done|]. unfold grow.
    destruct (Z.eqb_spec (Z.min (saturating_add (committed_end (gen st)) (Z.max n 1))
      (b_end (bounds (gen st))) - committed_end (gen st)) 0); [by split|].
    split; cbn; try done. rewrite Hb. unfold saturating_add, USIZE_MAX in *. change (Z.ones 64) with (2 ^ 64 - 1) in *.
    lia.
Qed.

Lemma run_inv b ops : 0 <= b_start b -> b_start b mod 8 = 0 -> b_end b < 2 ^ 64 ->
  Forall op_ok ops -> forall st, inv b st -> exists st', run ops st = Some st' /\ inv b st'.
Proof.
  intros H0 H8 Hmax HF. induction HF as [|o ops Ho HF IH]; intros st HI; cbn; [by eauto|].
  destruct (exec_inv b o st H0 H8 Hmax HI Ho) as (st1 & -> & HI1). cbn. by apply IH.
Qed.

Lemma inv_resolve b st i x s : 0 <= i -> b_start b mod 8 = 0 -> inv b st -> (x, s) ∈ objects st ->
  x <= Offsets.card_base (offsets st) i < x + s -> Offsets.resolve (offsets st) i = Some x.
Proof.
  intros Hi H8 [Hb Ht Htop (Ho & Hw) Hr] Hin Hx.
  destruct (tiled_bounds _ _ _ Ht) as (_ & _ & Hobj). destruct (Hobj _ _ Hin) as (Hlo & _ & Hmod & _).
  unfold Offsets.resolve. apply (Offsets.resolve_recorded _ x s); [congruence|congruence|lia|by apply Hr|done|lia|done].
Qed.

(** C33. The offset table always finds the header: whatever the history of
    allocations and growth of the old generation, no operation fails, the
    objects tile the space from its start to its top, the top never passes the
    committed end nor that the reservation, and for every card whose base lies
    below the top [resolve] terminates with the header of the one object that
    covers the card's base. *)
Theorem offset_table_correct b c g ops
    (Hnew : new b c = Some g) (Hc : 0 <= b_start b <= c) (H8 : b_start b mod 8 = 0)
    (Hmax : b_end b < 2 ^ 64) (Hops : Forall op_ok ops) :
  exists st, run ops (MkState g (Offsets.new b) []) = Some st /\
    tiled (b_start b) (objects st) (top (gen st)) /\
    top (gen st) <= committed_end (gen st) <= b_end b /\
    forall i, 0 <= i -> Offsets.card_base (offsets st) i < top (gen st) ->
      exists x s, (x, s) ∈ objects st /\ x <= Offsets.card_base (offsets st) i < x + s /\
        Offsets.resolve (offsets st) i = Some x.
Proof.
  destruct (run_inv b ops ltac:(lia) H8 Hmax Hops _ (inv_new b c g Hnew ltac:(lia)))
    as (st & Hrun & HI).
  exists st. split; [done|]. pose proof HI as [_ Ht Htop (Ho & _) _]. split_and!; try done; try lia.
  intros i Hi Hlt.
  destruct (tiled_find _ _ _ (Offsets.card_base (offsets st) i) Ht) as (l & x & s & r & Hobjs & Hx & _).
  { rewrite Offsets.offset_base_eq in *. lia. }
  assert (Hin : (x, s) ∈ objects st) by (rewrite Hobjs; apply elem_of_app; right; left).
  exists x, s. split_and!; try done; try lia. by eapply inv_resolve.
Qed.

Definition demo_bounds : SpaceBounds := MkBounds 65536 (65536 + Z.shiftl 1 20).

(** A 600-byte object, a 300-kilobyte one (its entries chain), growth and two
    more objects. *)
Definition demo_ops : list op :=
  [Alloc 600; Alloc 300000; Grow 65536; Alloc 17; Alloc 2000000; Alloc 4096].

Lemma offset_table_correct_witness : exists g,
  new demo_bounds (65536 + 400000) = Some g /\
  exists st, run demo_ops (MkState g (Offsets.new demo_bounds) []) = Some st /\
    tiled (b_start demo_bounds) (objects st) (top (gen st)) /\
    top (gen st) <= committed_end (gen st) <= b_end demo_bounds /\
    forall i, 0 <= i -> Offsets.card_base (offsets st) i < top (gen st) ->
      exists x s, (x, s) ∈ objects st /\ x <= Offsets.card_base (offsets st) i < x + s /\
        Offsets.resolve (offsets st) i = Some x.
Proof.
  eexists. split; [reflexivity|].
  apply (offset_table_correct demo_bounds (65536 + 400000)); [reflexivity|split; discriminate|
    reflexivity|reflexivity|].
  repeat constructor; discriminate.
Defined.

Lemma filter_none {A} (P : A -> Prop) `{!forall x, Decision (P x)} l :
  (forall x, x ∈ l -> ~ P x) -> filter P l = [].
Proof.
  induction l as [|x l IH]; intros Hn; [done|]. rewrite filter_cons_False by (apply Hn; left).
  apply IH. intros y Hy. apply Hn. by right.
Qed.

Lemma card_walk_tiled size_of base end_ top_ r : forall fuel a,
  tiled a r top_ -> (forall x s, (x, s) ∈ r -> size_of x = s) -> base < a ->
  (0 < fuel)%nat -> end_ - a <= 8 * (Z.of_nat fuel - 1) ->
  card_walk fuel size_of base end_ top_ a =
    Some (fst <$> filter (fun o => o.1 < end_ /\ base < o.1 + o.2) r).
Proof.
  induction r as [|[x s] r IH]; intros [|fuel] a Ht Hsz Hb Hf Hfu; [lia| |lia|]; cbn [tiled] in Ht.
  - subst a. cbn. destruct (Z.ltb_spec top_ top_); [lia|]. by rewrite andb_false_r.
  - destruct Ht as (-> & Hs & H8 & Ht). destruct (tiled_bounds _ _ _ Ht) as (Hle & _ & Hr).
    cbn [card_walk]. destruct (Z.ltb_spec a end_); cbn [andb].
    + destruct (Z.ltb_spec a top_); [|lia]. rewrite (Hsz a s) by left.
      assert (8 <= s) by (Z.div_mod_to_equations; lia).
      rewrite IH; [|done|by intros; apply Hsz; right|lia|lia|lia]. cbn [mbind option_bind].
      destruct (Z.ltb_spec base (a + s)); [|lia]. by rewrite filter_cons_True by (cbn; lia).
    + rewrite filter_cons_False by (cbn; lia).
      enough (filter (fun o => o.1 < end_ /\ base < o.1 + o.2) r = []) as -> by done.
      apply filter_none. intros [y s'] Hin. apply Hr in Hin. cbn. lia.
Qed.

(** The dirty-card walk misses nothing and visits nothing else: from the
    header the offset table resolves, the scan of a card stops after
    looking at exactly the objects that reach into the card, in address
    order; a clean card is skipped. *)
Theorem dirty_card_walk_exact b c g ops st cards size_of i dirty
    (Hnew : new b c = Some g) (Hc : 0 <= b_start b <= c) (H8 : b_start b mod 8 = 0)
    (Hmax : b_end b < 2 ^ 64) (Hops : Forall op_ok ops)
    (Hrun : run ops (MkState g (Offsets.new b) []) = Some st)
    (Hcards : Cards.well_formed cards b) (Hd : Cards.is_dirty cards i = Some dirty)
    (Hsz : forall x s, (x, s) ∈ objects st -> size_of x = s) (Hi : 0 <= i) :
  let base := Cards.card_base cards i in
  scan_card cards (offsets st) size_of (top (gen st)) i =
    Some (if dirty
          then fst <$> filter (fun o => o.1 < base + CARD_SIZE /\ base < o.1 + o.2) (objects st)
          else []).
Proof.
  intros base.
  destruct (run_inv b ops ltac:(lia) H8 Hmax Hops _ (inv_new b c g Hnew ltac:(lia)))
    as (st' & Hrun' & HI).
  rewrite Hrun in Hrun'. injection Hrun' as <-. pose proof HI as [_ Ht _ (Ho & _) _].
  assert (Hbase : b_start b <= base)
    by (unfold base; rewrite Cards.card_base_eq; destruct Hcards as [-> _]; lia).
  assert (Hcb : Offsets.card_base (offsets st) i = base)
    by (unfold base; rewrite Offsets.offset_base_eq, Cards.card_base_eq; destruct Hcards as [-> _]; lia).
  unfold scan_card. fold base. destruct (Z.leb_spec (top (gen st)) base) as [Hge|Hlt];
    [|rewrite Hd; cbn [mbind option_bind]; destruct dirty; [cbn [negb]|done]].
  - destruct dirty; [|done]. destruct (tiled_bounds _ _ _ Ht) as (_ & _ & Hobj).
    enough (filter (fun o => o.1 < base + CARD_SIZE /\ base < o.1 + o.2) (objects st) = []) as -> by done.
    apply filter_none. intros [y s'] Hin. apply Hobj in Hin. cbn. lia.
  - destruct (tiled_find _ _ _ base Ht ltac:(lia)) as (l & x & s & r & Hobjs & Hx & Hl & Hr).
    assert (Hin : (x, s) ∈ objects st) by (rewrite Hobjs; apply elem_of_app; right; left).
    rewrite (inv_resolve b st i x s) by (done || by rewrite Hcb). cbn [mbind option_bind].
    destruct (tiled_bounds _ _ _ Hl) as (_ & _ & Hlb).
    pose proof (tiled_bounds _ _ _ Hr) as (Hle & _ & _).
    change CARD_SIZE with 512.
    assert (card_walk 66 size_of base (base + 512) (top (gen st)) x =
            Some (fst <$> filter (fun o => o.1 < base + 512 /\ base < o.1 + o.2) ((x, s) :: r))) as ->.
    { change 66%nat with (S 65). generalize (eq_refl 65%nat). generalize 65%nat at 1 3 as n65.
      intros n65 Hn65. cbn [card_walk]. destruct (Z.ltb_spec x (base + 512)); [|lia].
      destruct (Z.ltb_spec x (top (gen st))); [|lia]. cbn [andb]. rewrite (Hsz x s) by done.
      rewrite (card_walk_tiled _ _ _ _ r); [|done| |lia|lia|lia].
      - cbn [mbind option_bind]. destruct (Z.ltb_spec base (x + s)); [|lia].
        by rewrite filter_cons_True by (cbn; lia).
      - intros y s' Hy. apply Hsz. rewrite Hobjs. apply elem_of_app. right. by right. }
    f_equal. rewrite Hobjs, list.filter_app.
    enough (filter (fun o => o.1 < base + 512 /\ base < o.1 + o.2) l = []) as -> by done.
    apply filter_none. intros [y s'] Hy. apply Hlb in Hy. cbn. lia.
Qed.

Lemma dirty_card_walk_exact_witness : exists g st cards,
  new demo_bounds (65536 + 400000) = Some g /\
  run demo_ops (MkState g (Offsets.new demo_bounds) []) = Some st /\
  Cards.dirty_for_slot (Cards.new 4096 demo_bounds) 66100 = Some cards /\
  let size_of x := match list_find (fun o => o.1 = x) (objects st) with
                   | Some (_, (_, s)) => s | None => 0 end in
  scan_card cards (offsets st) size_of (top (gen st)) 1 = Some [65536; 66136].
Proof.
  eexists _, _, _. split; [reflexivity|]. split; [vm_compute; reflexivity|].
  split; [vm_compute; reflexivity|]. cbv zeta.
  match goal with |- scan_card ?c (offsets ?st) ?f _ _ = _ =>
    assert (Hsz : forall x s, (x, s) ∈ objects st -> f x = s)
      by (intros x s; cbn; rewrite !elem_of_cons, elem_of_nil;
          intros [[= -> ->]|[[= -> ->]|[[= -> ->]|[[= -> ->]|[]]]]]; reflexivity);
    etransitivity;
      [refine (dirty_card_walk_exact demo_bounds (65536 + 400000) _ demo_ops st c f 1 true _ _ _ _ _ _ _ _ Hsz _)|]
  end;
  [reflexivity|split; discriminate|reflexivity|reflexivity|repeat constructor; discriminate|
   vm_compute; reflexivity|split; [reflexivity|split; vm_compute; reflexivity]|vm_compute; reflexivity|
   discriminate|vm_compute; reflexivity].
Defined.
End OldGen.

(** ** Tenuring (memory/scavenge.rs) *)
Module AgeTable.
(** [bytes_at_age], 128 entries. *)
Definition age_table := list Z.
Definition new : age_table := replicate 128 0.
Definition clear (_ : age_table) : age_table := replicate 128 0.

Definition record (t : age_table) (age bytes : Z) : option age_table :=
  v ← zlookup t age; zset t age (v + bytes).

(** [for age in age..128]; the loop's remaining length is its fuel. *)
Fixpoint threshold_from (n : nat) (t : age_table) (half cumulative age : Z) : option Z :=
  match n with
  | O => Some 127
  | S n =>
      v ← zlookup t age;
      let cumulative := cumulative + v in
      if half <? cumulative then Some age else threshold_from n t half cumulative (age + 1)
  end.

Definition compute_threshold (t : age_table) (survivor_capacity : Z) : option Z :=
  threshold_from 128 t (survivor_capacity / 2) 0 0.

(** Bytes of the records of age at most [a]. *)
Fixpoint bytes_upto (records : list (Z * Z)) (a : Z) : Z :=
  match records with
  | [] => 0
  | (age, bytes) :: records => (if age <=? a then bytes else 0) + bytes_upto records a
  end.

Fixpoint record_all (records : list (Z * Z)) (t : age_table) : option age_table :=
  match records with [] => Some t | (a, n) :: rs => t ← record t a n; record_all rs t end.

Definition sum_upto (t : age_table) (a : Z) : Z := foldr Z.add 0 (take (Z.to_nat (a + 1)) t).

Lemma sum_upto_step t a v : zlookup t a = Some v -> sum_upto t a = sum_upto t (a - 1) + v.
Proof.
  intros Hv. apply zlookup_lt in Hv as Ha. unfold zlookup in Hv.
  destruct (Z.ltb_spec a 0); [lia|]. unfold sum_upto.
  replace (Z.to_nat (a + 1)) with (S (Z.to_nat a)) by lia.
  replace (a - 1 + 1) with a by lia. erewrite take_S_r by done.
  generalize (take (Z.to_nat a) t). intros l. induction l as [|x l IH]; cbn; lia.
Qed.

Lemma threshold_from_spec n : forall t half age, Z.of_nat n = zlen t - age -> 0 <= age ->
  exists a, threshold_from n t half (sum_upto t (age - 1)) age = Some a /\
    (age <= a < zlen t /\ half < sum_upto t a /\ (forall a', age <= a' < a -> sum_upto t a' <= half) \/
     a = 127 /\ forall a', age <= a' < zlen t -> sum_upto t a' <= half).
Proof.
  induction n as [|n IH]; intros t half age Hn Ha; cbn [threshold_from].
  - exists 127. split; [done|]. right. split; [done|]. lia.
  - destruct (zlookup_is_Some t age) as [v Hv]; [lia|]. rewrite Hv. cbn [mbind option_bind].
    rewrite <- (sum_upto_step _ _ _ Hv). destruct (Z.ltb_spec half (sum_upto t age)) as [Hlt|Hle].
    + exists age. split; [done|]. left. split_and!; try lia.
    + destruct (IH t half (age + 1)) as (a & Ha' & Hspec); [lia|lia|].
      replace (age + 1 - 1) with age in Ha' by lia. exists a. split; [done|].
      destruct Hspec as [(H1 & H2 & H3)|(H1 & H2)]; [left|right]; split_and!; try done; try lia;
        intros a' Hr; (destruct (decide (a' = age)) as [->|]; [done|]); [apply H3|apply H2]; lia.
Qed.

Lemma record_ok t age bytes : 0 <= age < zlen t -> exists t', record t age bytes = Some t' /\
  zlen t' = zlen t /\
  forall a, 0 <= a -> sum_upto t' a = sum_upto t a + (if age <=? a then bytes else 0).
Proof.
  intros Ha. destruct (zlookup_is_Some t age Ha) as [v Hv]. unfold record. rewrite Hv. cbn.
  rewrite zset_ok by done. eexists. split; [done|]. rewrite zlen_insert. split; [done|].
  intros a Hp. unfold zinsert, sum_upto. destruct (Z.ltb_spec age 0); [lia|].
  unfold zlookup in Hv. destruct (Z.ltb_spec age 0); [lia|].
  destruct (Z.leb_spec age a) as [Hle|Hgt].
  - rewrite take_insert_lt by lia.
    assert (Hs : forall (l : list Z) i x y, l !! i = Some x ->
              foldr Z.add 0 (<[i := y]> l) = foldr Z.add 0 l - x + y).
    { clear. induction l as [|z l IH]; intros [|i] x y H; cbn; try done.
      - injection H as ->. lia.
      - rewrite (IH i x) by done. lia. }
    rewrite (Hs _ _ v); [lia|]. rewrite lookup_take_lt by lia. done.
  - rewrite take_insert_ge by lia. lia.
Qed.

(** The tenuring threshold is the smallest age whose survivors, together
    with the younger ones, overflow half of a survivor space, and never (127)
    when all of them fit; it is computed from exactly the recorded bytes. *)
Theorem threshold_correct records capacity (Hrec : Forall (fun r => 0 <= r.1 < 128) records) :
  exists t a, record_all records new = Some t /\ compute_threshold t capacity = Some a /\
    (0 <= a < 128 /\ capacity / 2 < bytes_upto records a /\
       (forall a', 0 <= a' < a -> bytes_upto records a' <= capacity / 2) \/
     a = 127 /\ forall a', 0 <= a' < 128 -> bytes_upto records a' <= capacity / 2).
Proof.
  assert (Hall : forall t0, zlen t0 = 128 -> exists t, record_all records t0 = Some t /\ zlen t = 128 /\
    forall a, 0 <= a -> sum_upto t a = sum_upto t0 a + bytes_upto records a).
  { induction Hrec as [|[age n] records Hr Hrec IH]; intros t0 H0; cbn.
    - exists t0. split_and!; [done..|]. intros. lia.
    - destruct (record_ok t0 age n) as (t1 & -> & Hl1 & Hs1); [cbn in Hr; lia|]. cbn.
      destruct (IH t1) as (t & -> & Hl & Hs); [lia|]. exists t. split_and!; [done..|].
      intros a Ha. rewrite Hs, Hs1 by done. destruct (age <=? a); lia. }
  destruct (Hall new eq_refl) as (t & Ht & Hl & Hs).
  assert (Hs' : forall a, 0 <= a -> sum_upto t a = bytes_upto records a).
  { intros a Ha. rewrite Hs by done. assert (sum_upto new a = 0) as ->; [|lia].
    unfold sum_upto, new. rewrite take_replicate. generalize (Z.to_nat (a + 1) `min` 128)%nat.
    intros n. induction n; cbn; [done|]. lia. }
  destruct (threshold_from_spec 128 t (capacity / 2) 0) as (a & Ha & Hspec); [by rewrite Hl|done|].
  exists t, a. split; [done|]. split; [exact Ha|]. rewrite Hl in Hspec.
  destruct Hspec as [(H1 & H2 & H3)|(H1 & H2)]; [left|right]; split_and!; try done; try lia.
  - by rewrite <- Hs' by lia.
  - intros a' Hr. rewrite <- Hs' by lia. by apply H3.
  - intros a' Hr. rewrite <- Hs' by lia. by apply H2.
Qed.

Lemma threshold_correct_witness : exists t a,
  record_all [(0, 100); (2, 500); (1, 300); (2, 7)] new = Some t /\ compute_threshold t 1000 = Some a /\
    (0 <= a < 128 /\ 1000 / 2 < bytes_upto [(0, 100); (2, 500); (1, 300); (2, 7)] a /\
       (forall a', 0 <= a' < a -> bytes_upto [(0, 100); (2, 500); (1, 300); (2, 7)] a' <= 1000 / 2) \/
     a = 127 /\ forall a', 0 <= a' < 128 -> bytes_upto [(0, 100); (2, 500); (1, 300); (2, 7)] a' <= 1000 / 2).
Proof.
  apply (threshold_correct [(0, 100); (2, 500); (1, 300); (2, 7)] 1000).
  repeat constructor; discriminate.
Defined.
End AgeTable.
