(* ===== verification/Codec.v ===== *)
(** LEB128 and the byte codecs of the deoptimization metadata
    ([src/src/compiler/scopes.rs]).

    A writer appends to a byte list; a reader takes a byte list and a position
    and answers a value and the position after it, or [None] where the source
    panics (a read past the end, a bad tag, an overlong encoding).  What a
    writer promises its reader is the class [Codec]; a codec is built from the
    codecs of its parts. *)
From S2P Require Import Prelude.

(** [write out a] appends bytes from which [read], in any context, gets [a]
    back and stops right behind them. *)
Class Codec {A} (write : list Z -> A -> list Z) (read : list Z -> Z -> option (A * Z))
    (ok : A -> Prop) : Prop :=
  codec : forall a, ok a -> exists bs,
    (forall out, write out a = out ++ bs) /\ 0 < zlen bs /\
    forall pre post, read (pre ++ bs ++ post) (zlen pre) = Some (a, zlen pre + zlen bs).

(** ** LEB128 (compiler/scopes.rs) *)
Module Leb.
(** A 64-bit value has at most ten groups of seven bits. *)
Definition GROUPS : nat := 10.

Fixpoint write_uleb_from (fuel : nat) (out : list Z) (v : Z) : list Z :=
  match fuel with
  | O => out
  | S fuel =>
      let byte := u8 (Z.land v 0x7f) in
      let v := Z.shiftr v 7 in
      if v =? 0 then out ++ [byte]
      else write_uleb_from fuel (out ++ [Z.lor byte 0x80]) v
  end.
Definition write_uleb (out : list Z) (v : Z) : list Z := write_uleb_from GROUPS out v.

Fixpoint read_uleb_from (fuel : nat) (buf : list Z) (pos result shift : Z) : option (Z * Z) :=
  match fuel with
  | O => None
  | S fuel =>
      byte ← zlookup buf pos;
      let pos := pos + 1 in
      let result := Z.lor result (u64 (Z.shiftl (Z.land byte 0x7f) shift)) in
      if Z.land byte 0x80 =? 0 then Some (result, pos)
      else
        let shift := shift + 7 in
        if 64 <=? shift then None else read_uleb_from fuel buf pos result shift
  end.
Definition read_uleb (buf : list Z) (pos : Z) : option (Z * Z) := read_uleb_from GROUPS buf pos 0 0.

Fixpoint write_sleb_from (fuel : nat) (out : list Z) (v : Z) : list Z :=
  match fuel with
  | O => out
  | S fuel =>
      let byte := u8 (Z.land v 0x7f) in
      let v := Z.shiftr v 7 in
      let sign_bit_set := negb (Z.land byte 0x40 =? 0) in
      if ((v =? 0) && negb sign_bit_set) || ((v =? -1) && sign_bit_set) then out ++ [byte]
      else write_sleb_from fuel (out ++ [Z.lor byte 0x80]) v
  end.
Definition write_sleb (out : list Z) (v : Z) : list Z := write_sleb_from GROUPS out v.

Fixpoint read_sleb_from (fuel : nat) (buf : list Z) (pos result shift : Z) : option (Z * Z) :=
  match fuel with
  | O => None
  | S fuel =>
      byte ← zlookup buf pos;
      let pos := pos + 1 in
      let result := Z.lor result (i64 (Z.shiftl (Z.land byte 0x7f) shift)) in
      let shift := shift + 7 in
      if Z.land byte 0x80 =? 0 then
        Some (if (shift <? 64) && negb (Z.land byte 0x40 =? 0)
              then Z.lor result (Z.shiftl (-1) shift) else result, pos)
      else if 64 <=? shift then None else read_sleb_from fuel buf pos result shift
  end.
Definition read_sleb (buf : list Z) (pos : Z) : option (Z * Z) := read_sleb_from GROUPS buf pos 0 0.

(** *** The groups of a value *)
Lemma land_7f v : Z.land v 0x7f = v mod 128.
Proof. change 0x7f with (Z.ones 7). by rewrite Z.land_ones. Qed.

Lemma land_7f_u8 v : u8 (Z.land v 0x7f) = Z.land v 0x7f.
Proof. rewrite land_7f. apply wrapU_id. unfold inU. pose proof (Z.mod_pos_bound v 128). lia. Qed.

(** The continuation bit of an emitted byte, and its payload. *)
Lemma land_80_low v : Z.land (Z.land v 0x7f) 0x80 = 0.
Proof. by rewrite <- Z.land_assoc, Z.land_0_r. Qed.

Lemma land_80_high v : Z.land (Z.lor (Z.land v 0x7f) 0x80) 0x80 = 0x80.
Proof. by rewrite Z.land_lor_distr_l, land_80_low. Qed.

Lemma land_7f_high v : Z.land (Z.lor (Z.land v 0x7f) 0x80) 0x7f = Z.land v 0x7f.
Proof. rewrite Z.land_lor_distr_l, <- Z.land_assoc, Z.land_diag. by rewrite Z.lor_0_r. Qed.

Lemma land_7f_low v : Z.land (Z.land v 0x7f) 0x7f = Z.land v 0x7f.
Proof. by rewrite <- Z.land_assoc, Z.land_diag. Qed.

Lemma group_split v s : 0 <= s ->
  Z.lor (Z.shiftl (Z.land v 0x7f) s) (Z.shiftl (Z.shiftr v 7) (s + 7)) = Z.shiftl v s.
Proof.
  intros Hs. change 0x7f with (Z.ones 7). apply Z.bits_inj'. intros i Hi. testbits.
  destruct (Z.ltb_spec (i - s) 0) as [H|H].
  - rewrite !(Z.testbit_neg_r _ (i - s)), !(Z.testbit_neg_r _ (i - (s + 7))) by lia. btauto.
  - testbits. destruct (Z.ltb_spec (i - s) 7).
    + rewrite (Z.testbit_neg_r _ (i - (s + 7))) by lia. bit_cases.
    + testbits. replace (i - (s + 7) + 7) with (i - s) by lia. bit_cases.
Qed.

Lemma shiftl_lt v s n : 0 <= s -> 0 <= v < 2 ^ (n - s) -> s <= n -> 0 <= Z.shiftl v s < 2 ^ n.
Proof.
  intros Hs Hv Hn. rewrite Z.shiftl_mul_pow2 by done.
  replace (2 ^ n) with (2 ^ (n - s) * 2 ^ s) by (rewrite <- Z.pow_add_r by lia; f_equal; lia).
  assert (0 < 2 ^ s) by (apply Z.pow_pos_nonneg; lia). nia.
Qed.

Lemma pow_split n : 7 <= n -> 2 ^ n = 128 * 2 ^ (n - 7).
Proof. intros. change 128 with (2 ^ 7). rewrite <- Z.pow_add_r by lia. f_equal. lia. Qed.

Lemma pow_le7 n : n <= 7 -> 2 ^ n <= 128.
Proof. intros. change 128 with (2 ^ 7). apply Z.pow_le_mono_r; lia. Qed.

(** Writing from group position [s] on, and reading it back onto the groups
    already read. *)
Lemma uleb_groups fuel : forall v s, s = 7 * (10 - Z.of_nat fuel) -> 0 <= s < 64 ->
  0 <= v < 2 ^ (64 - s) -> exists bs,
  (forall out, write_uleb_from fuel out v = out ++ bs) /\ 0 < zlen bs /\
  forall pre post res, read_uleb_from fuel (pre ++ bs ++ post) (zlen pre) res s =
    Some (Z.lor res (Z.shiftl v s), zlen pre + zlen bs).
Proof.
  induction fuel as [|fuel IH]; intros v s Hs Hr Hv; [lia|].
  cbn [write_uleb_from read_uleb_from]. rewrite land_7f_u8.
  assert (Hwrap : u64 (Z.shiftl (Z.land v 0x7f) s) = Z.shiftl (Z.land v 0x7f) s).
  { apply wrapU_id. apply shiftl_lt; [lia| |lia]. rewrite land_7f.
    pose proof (Z.mod_pos_bound v 128). pose proof (Z.mod_le v 128). lia. }
  destruct (Z.eqb_spec (Z.shiftr v 7) 0) as [Hz|Hz].
  - exists [Z.land v 0x7f]. split_and!; [done..|]. intros pre post res.
    cbn [app]. rewrite zlookup_mid. cbn [mbind option_bind].
    rewrite land_7f_low, Hwrap, land_80_low. cbn. do 2 f_equal.
    pose proof (group_split v s) as Hg. rewrite Hz, Z.shiftl_0_l, Z.lor_0_r in Hg. by rewrite Hg by lia.
  - rewrite Z.shiftr_div_pow2 in Hz |- * by done. change (2 ^ 7) with 128 in *.
    assert (Hbig : 128 <= v) by (Z.div_mod_to_equations; lia).
    assert (s + 7 < 64).
    { destruct (decide (64 - s <= 7)) as [H7|]; [|lia]. apply pow_le7 in H7. lia. }
    destruct (IH (v / 128) (s + 7)) as (bs & Hw & Hl & Hrd); [lia|lia| |].
    { replace (64 - (s + 7)) with (64 - s - 7) by lia. rewrite (pow_split (64 - s)) in Hv by lia.
      split; [apply Z.div_pos; lia|apply Z.div_lt_upper_bound; lia]. }
    exists (Z.lor (Z.land v 0x7f) 0x80 :: bs). split_and!.
    + intros out. by rewrite Hw, <- app_assoc.
    + rewrite zlen_cons. lia.
    + intros pre post res. cbn [app]. rewrite zlookup_mid. cbn [mbind option_bind].
      rewrite land_7f_high, Hwrap, land_80_high.
      destruct (Z.leb_spec 64 (s + 7)); [lia|]. change (0x80 =? 0) with false. cbv iota.
      specialize (Hrd (pre ++ [Z.lor (Z.land v 0x7f) 0x80]) post
        (Z.lor res (Z.shiftl (Z.land v 0x7f) s))).
      rewrite zlen_app, <- app_assoc in Hrd. change (zlen [Z.lor (Z.land v 0x7f) 0x80]) with 1 in Hrd.
      cbn [app] in Hrd. rewrite Hrd, zlen_cons. do 2 f_equal; [|lia].
      rewrite <- Z.lor_assoc. f_equal.
      change (v / 128) with (v / 2 ^ 7). rewrite <- Z.shiftr_div_pow2 by done. apply group_split. lia.
Qed.

Lemma sign_bit v : negb (Z.land (Z.land v 0x7f) 0x40 =? 0) = Z.testbit v 6.
Proof.
  change 0x40 with (Z.shiftl 1 6). rewrite flag_get by done. rewrite Z.land_spec.
  change (Z.testbit 0x7f 6) with true. btauto.
Qed.

(** The writer stops at the group that still shows the sign. *)
Lemma last_group v :
  ((Z.shiftr v 7 =? 0) && negb (Z.testbit v 6)) || ((Z.shiftr v 7 =? -1) && Z.testbit v 6) =
  (-64 <=? v) && (v <? 64).
Proof.
  rewrite Z.testbit_odd, !Z.shiftr_div_pow2 by done. change (2 ^ 7) with 128. change (2 ^ 6) with 64.
  pose proof (Zmod_odd (v / 64)) as Ho.
  destruct (Z.odd (v / 64)), (Z.eqb_spec (v / 128) 0), (Z.eqb_spec (v / 128) (-1)),
    (Z.leb_spec (-64) v), (Z.ltb_spec v 64); cbn; try done; exfalso; Z.div_mod_to_equations; lia.
Qed.

Lemma small_sign v : -64 <= v < 64 ->
  Z.testbit v 6 = (v <? 0) /\ Z.shiftr v 7 = if v <? 0 then -1 else 0.
Proof.
  intros Hv. rewrite Z.testbit_odd, !Z.shiftr_div_pow2 by done. change (2 ^ 7) with 128.
  change (2 ^ 6) with 64. pose proof (Zmod_odd (v / 64)) as Ho.
  destruct (Z.ltb_spec v 0), (Z.odd (v / 64)); split; try done; try (exfalso; Z.div_mod_to_equations; lia);
    Z.div_mod_to_equations; lia.
Qed.

(** A group below the last one does not reach the sign bit of the word. *)
Lemma group_i64 v s : 0 <= s <= 56 -> i64 (Z.shiftl (Z.land v 0x7f) s) = Z.shiftl (Z.land v 0x7f) s.
Proof.
  intros Hs. apply wrapS_id; [lia|]. unfold inS. change (64 - 1) with 63.
  enough (0 <= Z.shiftl (Z.land v 0x7f) s < 2 ^ 63) by lia.
  apply shiftl_lt; [lia| |lia]. rewrite land_7f. pose proof (Z.mod_pos_bound v 128).
  assert (2 ^ 7 <= 2 ^ (63 - s)) by (apply Z.pow_le_mono_r; lia). change (2 ^ 7) with 128 in *. lia.
Qed.

(** What the reader makes of the last group of a value. *)
Lemma sleb_last v s res : -64 <= v < 64 -> inS (64 - s) v -> 0 <= s <= 56 \/ s = 63 ->
  (if (s + 7 <? 64) && negb (Z.land (Z.land v 0x7f) 0x40 =? 0)
   then Z.lor (Z.lor res (i64 (Z.shiftl (Z.land v 0x7f) s))) (Z.shiftl (-1) (s + 7))
   else Z.lor res (i64 (Z.shiftl (Z.land v 0x7f) s))) = Z.lor res (Z.shiftl v s).
Proof.
  intros Hv Hin Hs. rewrite sign_bit. destruct (small_sign v Hv) as [-> Hsh]. destruct Hs as [Hs| ->].
  - destruct (Z.ltb_spec (s + 7) 64); [|lia]. cbn [andb]. rewrite group_i64 by done.
    rewrite <- (group_split v s) by lia. rewrite Hsh. destruct (v <? 0).
    + by rewrite Z.lor_assoc.
    + by rewrite Z.shiftl_0_l, Z.lor_0_r.
  - cbn [Z.ltb andb]. change (63 + 7 <? 64) with false. cbn [andb]. f_equal.
    unfold inS in Hin. cbn in Hin. assert (v = 0 \/ v = -1) as [->| ->] by lia; reflexivity.
Qed.

Lemma sleb_groups fuel : forall v s, s = 7 * (10 - Z.of_nat fuel) -> 0 <= s < 64 ->
  inS (64 - s) v -> exists bs,
  (forall out, write_sleb_from fuel out v = out ++ bs) /\ 0 < zlen bs /\
  forall pre post res, read_sleb_from fuel (pre ++ bs ++ post) (zlen pre) res s =
    Some (Z.lor res (Z.shiftl v s), zlen pre + zlen bs).
Proof.
  induction fuel as [|fuel IH]; intros v s Hs Hr Hv; [lia|].
  cbn [write_sleb_from read_sleb_from]. rewrite land_7f_u8, sign_bit, last_group.
  destruct ((-64 <=? v) && (v <? 64)) eqn:Hlast.
  - apply andb_true_iff in Hlast as [?%Z.leb_le ?%Z.ltb_lt].
    exists [Z.land v 0x7f]. split_and!; [done..|]. intros pre post res.
    cbn [app]. rewrite zlookup_mid. cbn [mbind option_bind].
    rewrite land_7f_low, land_80_low. change (0 =? 0) with true. cbv iota.
    rewrite sleb_last by (done || lia). done.
  - assert (Hbig : v < -64 \/ 64 <= v).
    { apply andb_false_iff in Hlast as [?%Z.leb_gt|?%Z.ltb_ge]; lia. }
    assert (s <= 56).
    { unfold inS in Hv. destruct (decide (64 - s - 1 <= 6)) as [H6|]; [|lia].
      assert (2 ^ (64 - s - 1) <= 2 ^ 6) by (apply Z.pow_le_mono_r; lia). change (2 ^ 6) with 64 in *. lia. }
    destruct (IH (Z.shiftr v 7) (s + 7)) as (bs & Hw & Hl & Hrd); [lia|lia| |].
    { unfold inS in *. rewrite (pow_split (64 - s - 1)) in Hv by lia.
      replace (64 - (s + 7) - 1) with (64 - s - 1 - 7) by lia.
      rewrite Z.shiftr_div_pow2 by done. change (2 ^ 7) with 128.
      split; [apply Z.div_le_lower_bound; lia|apply Z.div_lt_upper_bound; lia]. }
    exists (Z.lor (Z.land v 0x7f) 0x80 :: bs). split_and!.
    + intros out. by rewrite Hw, <- app_assoc.
    + rewrite zlen_cons. lia.
    + intros pre post res. cbn [app]. rewrite zlookup_mid. cbn [mbind option_bind].
      rewrite land_7f_high, group_i64, land_80_high by lia.
      change (0x80 =? 0) with false. cbv iota. destruct (Z.leb_spec 64 (s + 7)); [lia|].
      specialize (Hrd (pre ++ [Z.lor (Z.land v 0x7f) 0x80]) post
        (Z.lor res (Z.shiftl (Z.land v 0x7f) s))).
      rewrite zlen_app, <- app_assoc in Hrd. change (zlen [Z.lor (Z.land v 0x7f) 0x80]) with 1 in Hrd.
      cbn [app] in Hrd. rewrite Hrd, zlen_cons. do 2 f_equal; [|lia].
      rewrite <- Z.lor_assoc. f_equal. apply group_split. lia.
Qed.

#[export] Instance uleb_codec : Codec write_uleb read_uleb (inU 64).
Proof.
  intros v Hv. destruct (uleb_groups GROUPS v 0) as (bs & Hw & Hl & Hr); [done|done|exact Hv|].
  exists bs. split_and!; [done..|]. intros pre post. unfold read_uleb. rewrite Hr.
  by rewrite Z.lor_0_l, Z.shiftl_0_r.
Qed.

#[export] Instance sleb_codec : Codec write_sleb read_sleb (inS 64).
Proof.
  intros v Hv. destruct (sleb_groups GROUPS v 0) as (bs & Hw & Hl & Hr); [done|done|exact Hv|].
  exists bs. split_and!; [done..|]. intros pre post. unfold read_sleb. rewrite Hr.
  by rewrite Z.lor_0_l, Z.shiftl_0_r.
Qed.

(** LEB128 round trip: every 64-bit value, unsigned or signed, is written
    as one to ten bytes that read back as the value, in any context, with the
    position right behind them. *)
Theorem leb_roundtrip u s (Hu : inU 64 u) (Hs : inS 64 s) :
  (exists bs, 1 <= zlen bs <= 10 /\ (forall out, write_uleb out u = out ++ bs) /\
     forall pre post, read_uleb (pre ++ bs ++ post) (zlen pre) = Some (u, zlen pre + zlen bs)) /\
  (exists bs, 1 <= zlen bs <= 10 /\ (forall out, write_sleb out s = out ++ bs) /\
     forall pre post, read_sleb (pre ++ bs ++ post) (zlen pre) = Some (s, zlen pre + zlen bs)).
Proof.
  assert (Hlen : forall fuel out v, zlen (write_uleb_from fuel out v) <= zlen out + Z.of_nat fuel /\
            zlen (write_sleb_from fuel out v) <= zlen out + Z.of_nat fuel).
  { induction fuel as [|fuel IH]; intros out v; cbn [write_uleb_from write_sleb_from]; [lia|].
    assert (H1 : forall b, zlen (out ++ [b]) = zlen out + 1) by (intros b; by rewrite zlen_app).
    split; (case_match; [rewrite H1; lia|]);
      destruct (IH (out ++ [Z.lor (u8 (Z.land v 0x7f)) 0x80]) (Z.shiftr v 7)) as [H2 H3];
      rewrite H1 in H2, H3; lia. }
  split.
  - destruct (codec u Hu) as (bs & Hw & Hl & Hr). exists bs. split_and!; try done; [lia|].
    destruct (Hlen GROUPS [] u) as [H _]. fold (write_uleb [] u) in H. rewrite Hw in H. exact H.
  - destruct (codec s Hs) as (bs & Hw & Hl & Hr). exists bs. split_and!; try done; [lia|].
    destruct (Hlen GROUPS [] s) as [_ H]. fold (write_sleb [] s) in H. rewrite Hw in H. exact H.
Qed.

Lemma leb_roundtrip_witness : let u := Z.ones 64 in let s := - 2 ^ 63 in
  write_uleb [] 300 = [0xAC; 0x02] /\ write_sleb [] (-16) = [0x70] /\
  exists bs, 1 <= zlen bs <= 10 /\ (forall out, write_sleb out s = out ++ bs) /\
    forall pre post, read_sleb (pre ++ bs ++ post) (zlen pre) = Some (s, zlen pre + zlen bs).
Proof.
  intros u s. split; [reflexivity|]. split; [reflexivity|].
  apply (leb_roundtrip u s); split; first [discriminate | reflexivity].
Defined.
End Leb.
Export Leb.

(** ** Counted sequences

    A count followed by that many items, written by a loop and read by one.
    An item is at least one byte, so reading more items than the buffer has
    bytes panics: that is the fuel. *)
Section seq.
Context {A : Type} (write : list Z -> A -> list Z) (read : list Z -> Z -> option (A * Z)).

Definition write_seq (out : list Z) (vs : list A) : list Z := foldl write out vs.

Fixpoint read_seq (fuel : nat) (n : Z) (buf : list Z) (pos : Z) : option (list A * Z) :=
  if n <=? 0 then Some ([], pos)
  else
    match fuel with
    | O => None
    | S fuel =>
        '(v, pos) ← read buf pos;
        '(vs, pos) ← read_seq fuel (n - 1) buf pos;
        Some (v :: vs, pos)
    end.

Context (ok : A -> Prop) `{!Codec write read ok}.

Lemma seq_codec vs : Forall ok vs -> exists bs,
  (forall out, write_seq out vs = out ++ bs) /\ zlen vs <= zlen bs /\
  forall fuel pre post, zlen vs <= Z.of_nat fuel ->
    read_seq fuel (zlen vs) (pre ++ bs ++ post) (zlen pre) = Some (vs, zlen pre + zlen bs).
Proof.
  induction 1 as [|v vs Hv HF (bs & Hw & Hl & Hr)].
  - exists []. split_and!; [intros; by rewrite app_nil_r|done|].
    intros fuel pre post _. destruct fuel; cbn; by rewrite Z.add_0_r.
  - destruct (codec v Hv) as (b & Hwv & Hlv & Hrv). exists (b ++ bs). rewrite zlen_app, zlen_cons.
    split_and!; [|lia|].
    + intros out. unfold write_seq in *. cbn [foldl]. by rewrite Hwv, Hw, app_assoc.
    + intros fuel pre post Hf. pose proof (zlen_nonneg vs). destruct fuel as [|fuel]; [lia|].
      cbn [read_seq]. destruct (Z.leb_spec (1 + zlen vs) 0); [lia|].
      rewrite <- app_assoc, Hrv. cbn [mbind option_bind].
      replace (1 + zlen vs - 1) with (zlen vs) by lia.
      rewrite (app_assoc pre b), <- zlen_app. rewrite Hr by lia. cbn. by rewrite zlen_app, Z.add_assoc.
Qed.

Lemma counted_codec vs : Forall ok vs -> inU 64 (zlen vs) -> exists bs,
  (forall out, write_seq (write_uleb out (zlen vs)) vs = out ++ bs) /\ 0 < zlen bs /\
  forall pre post, ('(n, pos) ← read_uleb (pre ++ bs ++ post) (zlen pre);
      read_seq (length (pre ++ bs ++ post)) n (pre ++ bs ++ post) pos) = Some (vs, zlen pre + zlen bs).
Proof.
  intros HF Hn. destruct (codec (zlen vs) Hn) as (b & Hwb & Hlb & Hrb).
  destruct (seq_codec vs HF) as (bs & Hw & Hl & Hr).
  exists (b ++ bs). rewrite zlen_app. split_and!; [|pose proof (zlen_nonneg bs); lia|].
  - intros out. by rewrite Hwb, Hw, app_assoc.
  - intros pre post. rewrite <- app_assoc, Hrb. cbn [mbind option_bind].
    rewrite (app_assoc pre b), <- zlen_app. rewrite Hr; [by rewrite zlen_app, Z.add_assoc|].
    pose proof (zlen_nonneg post). pose proof (zlen_nonneg pre).
    assert (zlen bs <= zlen ((pre ++ b) ++ bs ++ post)) by (rewrite !zlen_app; lia).
    unfold zlen in *. lia.
Qed.
End seq.

(** [r] reads [a] from [bs], in any context. *)
Definition reads {A} (r : list Z -> Z -> option (A * Z)) (bs : list Z) (a : A) : Prop :=
  forall pre post, r (pre ++ bs ++ post) (zlen pre) = Some (a, zlen pre + zlen bs).

Lemma reads_bind {A B} (r : list Z -> Z -> option (A * Z)) (k : A -> list Z -> Z -> option (B * Z))
    b1 b2 a b :
  reads r b1 a -> reads (k a) b2 b ->
  reads (fun buf pos => '(x, pos) ← r buf pos; k x buf pos) (b1 ++ b2) b.
Proof.
  intros H1 H2 pre post. rewrite <- (assoc_L (++)), H1. cbn [mbind option_bind].
  rewrite (assoc_L (++)), <- zlen_app, H2, !zlen_app. by rewrite Z.add_assoc.
Qed.

Lemma reads_ret {A} (a : A) : reads (fun _ pos => Some (a, pos)) [] a.
Proof. intros pre post. cbn. by rewrite Z.add_0_r. Qed.
