(* ===== verification/Scopes.v ===== *)
(** Deoptimization metadata: where values live ([ValueLoc]), scope and
    safepoint records, the recorder that packs them into a blob and the
    decoder that walks an inlined frame's scope chain
    ([src/src/compiler/scopes.rs]); the oop maps the collector reads
    ([src/src/compiler/oopmap.rs], [src/src/codecache/nmethod.rs]). *)
From S2P Require Import Prelude Codec.

(** ** Value locations and their codec *)
Module Loc.
Inductive ValueLoc :=
  | ConstPool (ix : Z)
  | ConstSmi (v : Z)
  | FrameSlot (off : Z)
  | NilLoc
  | ElidedClosure (ix : Z)
  | DoubleSlot (off : Z).

#[export] Instance ValueLoc_eq_dec : EqDecision ValueLoc.
Proof. solve_decision. Defined.

(** Field widths: [u32], [i64] and [i32]. *)
Definition loc_ok (l : ValueLoc) : Prop :=
  match l with
  | ConstPool ix | ElidedClosure ix => inU 32 ix
  | ConstSmi v => inS 64 v
  | FrameSlot off | DoubleSlot off => inS 32 off
  | NilLoc => True
  end.

#[export] Instance loc_ok_dec l : Decision (loc_ok l).
Proof. destruct l; cbn [loc_ok]; apply _. Defined.

Definition write (out : list Z) (l : ValueLoc) : list Z :=
  match l with
  | ConstPool ix => write_uleb (out ++ [0]) ix
  | ConstSmi v => write_sleb (out ++ [1]) v
  | FrameSlot off => write_sleb (out ++ [2]) off
  | NilLoc => out ++ [3]
  | ElidedClosure ix => write_uleb (out ++ [4]) ix
  | DoubleSlot off => write_sleb (out ++ [5]) off
  end.

Definition read (buf : list Z) (pos : Z) : option (ValueLoc * Z) :=
  tag ← zlookup buf pos;
  let pos := pos + 1 in
  if tag =? 0 then '(v, pos) ← read_uleb buf pos; Some (ConstPool (u32 v), pos)
  else if tag =? 1 then '(v, pos) ← read_sleb buf pos; Some (ConstSmi v, pos)
  else if tag =? 2 then '(v, pos) ← read_sleb buf pos; Some (FrameSlot (i32 v), pos)
  else if tag =? 3 then Some (NilLoc, pos)
  else if tag =? 4 then '(v, pos) ← read_uleb buf pos; Some (ElidedClosure (u32 v), pos)
  else if tag =? 5 then '(v, pos) ← read_sleb buf pos; Some (DoubleSlot (i32 v), pos)
  else None.

(** [for v in vs { v.write(out) }] after the count. *)
Definition write_list (out : list Z) (vs : list ValueLoc) : list Z :=
  write_seq write (write_uleb out (zlen vs)) vs.

(** [(0..n).map(|_| ValueLoc::read(..)).collect()]. *)
Definition read_list (buf : list Z) (pos : Z) : option (list ValueLoc * Z) :=
  '(n, pos) ← read_uleb buf pos; read_seq read (length buf) n buf pos.

Lemma read_tag (tag : Z) pre bs post :
  zlookup (pre ++ (tag :: bs) ++ post) (zlen pre) = Some tag.
Proof. apply zlookup_mid. Qed.

(** Reading behind a tag byte. *)
Lemma read_behind {A} (r : list Z -> Z -> option (A * Z)) tag bs a :
  (forall pre post, r (pre ++ bs ++ post) (zlen pre) = Some (a, zlen pre + zlen bs)) ->
  forall pre post, r (pre ++ (tag :: bs) ++ post) (zlen pre + 1) =
    Some (a, zlen pre + zlen (tag :: bs)).
Proof.
  intros Hr pre post. specialize (Hr (pre ++ [tag]) post).
  rewrite zlen_app, <- app_assoc in Hr. change (zlen [tag]) with 1 in Hr. cbn [app] in *.
  rewrite Hr, zlen_cons. do 2 f_equal. lia.
Qed.

Lemma inU_32_64 v : inU 32 v -> inU 64 v.
Proof. apply inU_mono. lia. Qed.
Lemma inS_32_64 v : inS 32 v -> inS 64 v.
Proof. unfold inS. cbn. lia. Qed.

(** A location with a payload is its tag followed by the payload's bytes. *)
Lemma tagged_codec {B} (w : list Z -> B -> list Z) (r : list Z -> Z -> option (B * Z)) ok
    `{!Codec w r ok} tag (v : B) (l : ValueLoc) :
  ok v -> (forall out, write out l = w (out ++ [tag]) v) ->
  (forall buf pos p, zlookup buf pos = Some tag -> r buf (pos + 1) = Some (v, p) ->
     read buf pos = Some (l, p)) ->
  exists bs, (forall out, write out l = out ++ bs) /\ 0 < zlen bs /\
    forall pre post, read (pre ++ bs ++ post) (zlen pre) = Some (l, zlen pre + zlen bs).
Proof.
  intros Hok Hwl Hrl. destruct (codec v Hok) as (bs & Hw & Hz & Hr).
  exists (tag :: bs). split_and!.
  - intros out. by rewrite Hwl, Hw, <- app_assoc.
  - rewrite zlen_cons. lia.
  - intros pre post. apply Hrl; [apply read_tag|]. by apply read_behind.
Qed.

#[export] Instance loc_codec : Codec write read loc_ok.
Proof.
  intros l Hl. destruct l as [v|v|v| |v|v]; cbn [loc_ok] in Hl;
    try (pose proof (inU_32_64 v Hl)); try (pose proof (inS_32_64 v Hl)).
  4: { exists [3]. split_and!; [done..|]. intros pre post. unfold read. by rewrite read_tag. }
  all: first [ eapply (tagged_codec write_uleb read_uleb (inU 64)); [|cbn [write]; intros; reflexivity|]; [done|]
             | eapply (tagged_codec write_sleb read_sleb (inS 64)); [|cbn [write]; intros; reflexivity|]; [done|] ].
  all: intros buf pos p Ht Hr; unfold read; rewrite Ht; cbn [mbind option_bind];
    rewrite Hr; cbn [mbind option_bind]; rewrite ?wrapU_id, ?wrapS_id by (done || lia); reflexivity.
Qed.

Definition locs_ok (vs : list ValueLoc) : Prop := Forall loc_ok vs /\ inU 64 (zlen vs).

#[export] Instance locs_codec : Codec write_list read_list locs_ok.
Proof.
  intros vs [HF Hn]. destruct (counted_codec write read loc_ok vs HF Hn) as (bs & Hw & Hl & Hr).
  by exists bs.
Qed.

(** The context of a scope. *)
Inductive CtxLoc := CtxNone | Materialized (l : ValueLoc) | Elided (temps : list ValueLoc).

Definition ctx_kind (c : CtxLoc) : Z :=
  match c with CtxNone => 0 | Materialized _ => 1 | Elided _ => 2 end.

Definition write_ctx (out : list Z) (c : CtxLoc) : list Z :=
  match c with
  | CtxNone => out
  | Materialized l => write out l
  | Elided temps => write_list out temps
  end.

Definition read_ctx (kind : Z) (buf : list Z) (pos : Z) : option (CtxLoc * Z) :=
  if kind =? 0 then Some (CtxNone, pos)
  else if kind =? 1 then '(l, pos) ← read buf pos; Some (Materialized l, pos)
  else if kind =? 2 then '(ts, pos) ← read_list buf pos; Some (Elided ts, pos)
  else None.

Definition ctx_ok (c : CtxLoc) : Prop :=
  match c with CtxNone => True | Materialized l => loc_ok l | Elided ts => locs_ok ts end.

#[export] Instance locs_ok_dec vs : Decision (locs_ok vs).
Proof. unfold locs_ok. apply _. Defined.
#[export] Instance ctx_ok_dec c : Decision (ctx_ok c).
Proof. destruct c; cbn [ctx_ok]; apply _. Defined.

Lemma ctx_codec c : ctx_ok c -> exists bs,
  (forall out, write_ctx out c = out ++ bs) /\
  forall pre post, read_ctx (ctx_kind c) (pre ++ bs ++ post) (zlen pre) = Some (c, zlen pre + zlen bs).
Proof.
  destruct c as [|l|ts]; cbn [ctx_ok]; intros Hc.
  - exists []. split; intros; cbn; by rewrite ?app_nil_r, ?Z.add_0_r.
  - destruct (codec l Hc) as (bs & Hw & _ & Hr). exists bs. split; [done|].
    intros. unfold read_ctx. cbn -[read]. by rewrite Hr.
  - destruct (codec ts Hc) as (bs & Hw & _ & Hr). exists bs. split; [done|].
    intros. unfold read_ctx. cbn -[read_list]. by rewrite Hr.
Qed.
End Loc.
Export Loc.

(** ** Records, the recorder and the decoder *)
Module Deopt.
Record SenderLink := MkLink { l_sender : Z; l_bci : Z; l_pending : list ValueLoc }.

Record ScopeDescData := MkScope {
  method_pool_ix : Z;
  is_block : bool;
  sender : option SenderLink;
  receiver : ValueLoc;
  slots : list ValueLoc;
  ctx : CtxLoc }.

Inductive SafepointKind := Call | LoopPoll | Alloc | UncommonTrap.

Definition to_bits (k : SafepointKind) : Z :=
  match k with Call => 0 | LoopPoll => 1 | Alloc => 2 | UncommonTrap => 3 end.
Definition from_bits (b : Z) : option SafepointKind :=
  if b =? 0 then Some Call else if b =? 1 then Some LoopPoll
  else if b =? 2 then Some Alloc else if b =? 3 then Some UncommonTrap else None.

Record SafepointState := MkSite {
  scope : Z; bci : Z; kind : SafepointKind; reexecute : bool; stack : list ValueLoc }.

Record PcDesc := MkPc { code_off : Z; site_off : Z }.

(** *** Writing *)
Definition write_scope_record (out : list Z) (s : ScopeDescData) (scope_offs : list Z) :
    option (list Z) :=
  let has_sender := match sender s with Some _ => true | None => false end in
  let flags := Z.lor (Z.lor (Z.b2z has_sender) (Z.shiftl (Z.b2z (is_block s)) 1))
                 (Z.shiftl (ctx_kind (ctx s)) 2) in
  let out := write_uleb (out ++ [flags]) (method_pool_ix s) in
  out ← match sender s with
        | Some link =>
            off ← zlookup scope_offs (l_sender link);
            Some (write_list (write_uleb (write_uleb out off) (l_bci link)) (l_pending link))
        | None => Some out
        end;
  Some (write_ctx (write_list (write out (receiver s)) (slots s)) (ctx s)).

Definition write_safepoint_record (out : list Z) (st : SafepointState) (scope_offs : list Z) :
    option (list Z) :=
  off ← zlookup scope_offs (scope st);
  let out := write_uleb (write_uleb out off) (bci st) in
  let flags := Z.lor (Z.b2z (reexecute st)) (Z.shiftl (to_bits (kind st)) 1) in
  Some (write_list (out ++ [flags]) (stack st)).

(** *** The recorder *)
Record recorder := MkRecorder { scopes : list ScopeDescData; sites : list (Z * SafepointState) }.
Definition new : recorder := MkRecorder [] [].

Definition begin_scope (data : ScopeDescData) (r : recorder) : option (Z * recorder) :=
  if match sender data with Some link => zlen (scopes r) <=? l_sender link | None => false end
  then None
  else Some (u32 (zlen (scopes r)), MkRecorder (scopes r ++ [data]) (sites r)).

Definition is_call (k : SafepointKind) : bool := match k with Call => true | _ => false end.

Definition record_site (off : Z) (st : SafepointState) (r : recorder) : option recorder :=
  if zlen (scopes r) <=? scope st then None
  else if is_call (kind st) && reexecute st then None
  else Some (MkRecorder (scopes r) (sites r ++ [(off, st)])).

Fixpoint pack_scopes (ss : list ScopeDescData) (blob offs : list Z) : option (list Z * list Z) :=
  match ss with
  | [] => Some (blob, offs)
  | s :: ss =>
      let offs := offs ++ [u32 (zlen blob)] in
      blob ← write_scope_record blob s offs;
      pack_scopes ss blob offs
  end.

Fixpoint pack_sites (ss : list (Z * SafepointState)) (blob offs : list Z) (pcs : list PcDesc) :
    option (list Z * list PcDesc) :=
  match ss with
  | [] => Some (blob, pcs)
  | (off, st) :: ss =>
      let site_off := u32 (zlen blob) in
      blob ← write_safepoint_record blob st offs;
      pack_sites ss blob offs (pcs ++ [MkPc off site_off])
  end.

(** [sort_by_key]: a stable sort, here by insertion. *)
Fixpoint insert_by_key (d : PcDesc) (ds : list PcDesc) : list PcDesc :=
  match ds with
  | [] => [d]
  | e :: ds => if code_off d <=? code_off e then d :: e :: ds else e :: insert_by_key d ds
  end.
Definition sort_by_key (ds : list PcDesc) : list PcDesc := foldr insert_by_key [] ds.

Definition pack (r : recorder) : option (list Z * list PcDesc) :=
  '(blob, offs) ← pack_scopes (scopes r) [] [];
  '(blob, pcs) ← pack_sites (sites r) blob offs [];
  Some (blob, sort_by_key pcs).

(** *** Decoding *)
Record DecodedScope := MkDScope {
  d_method_pool_ix : Z;
  d_is_block : bool;
  d_sender : option (Z * Z * list ValueLoc);
  d_receiver : ValueLoc;
  d_slots : list ValueLoc;
  d_ctx : CtxLoc }.

Record DecodedSite := MkDSite {
  d_scope_off : Z; d_bci : Z; d_kind : SafepointKind; d_reexecute : bool; d_stack : list ValueLoc }.

Definition read_u8 (buf : list Z) (pos : Z) : option (Z * Z) :=
  b ← zlookup buf pos; Some (b, pos + 1).

Definition read_sender (has_sender : bool) (buf : list Z) (pos : Z) :
    option (option (Z * Z * list ValueLoc) * Z) :=
  if has_sender then
    '(off, pos) ← read_uleb buf pos;
    '(b, pos) ← read_uleb buf pos;
    '(pending, pos) ← read_list buf pos;
    Some (Some (u32 off, u16 b, pending), pos)
  else Some (None, pos).

Definition decode_scope_at (blob : list Z) (pos : Z) : option (DecodedScope * Z) :=
  '(flags, pos) ← read_u8 blob pos;
  '(ix, pos) ← read_uleb blob pos;
  '(snd_, pos) ← read_sender (negb (Z.land flags 1 =? 0)) blob pos;
  '(rcv, pos) ← read blob pos;
  '(sl, pos) ← read_list blob pos;
  '(c, pos) ← read_ctx (Z.land (Z.shiftr flags 2) 3) blob pos;
  Some (MkDScope (u32 ix) (negb (Z.land flags 2 =? 0)) snd_ rcv sl c, pos).
Definition decode_scope (blob : list Z) (off : Z) : option DecodedScope :=
  fst <$> decode_scope_at blob off.

Definition decode_site_at (blob : list Z) (pos : Z) : option (DecodedSite * Z) :=
  '(off, pos) ← read_uleb blob pos;
  '(b, pos) ← read_uleb blob pos;
  '(flags, pos) ← read_u8 blob pos;
  k ← from_bits (Z.land (Z.shiftr flags 1) 7);
  '(st, pos) ← read_list blob pos;
  Some (MkDSite (u32 off) (u16 b) k (negb (Z.land flags 1 =? 0)) st, pos).
Definition decode_site (blob : list Z) (site_off : Z) : option DecodedSite :=
  fst <$> decode_site_at blob site_off.

(** [binary_search_by_key]: the index of an element with the key. *)
Fixpoint bsearch (fuel : nat) (ds : list PcDesc) (key base size : Z) : option Z :=
  match fuel with
  | O => None
  | S fuel =>
      if size <=? 1 then Some base
      else
        let half := size / 2 in
        let mid := base + half in
        d ← zlookup ds mid;
        bsearch fuel ds key (if key <? code_off d then base else mid) (size - half)
  end.

Definition find (ds : list PcDesc) (key : Z) : option PcDesc :=
  i ← bsearch (length ds) ds key 0 (zlen ds);
  d ← zlookup ds i;
  if code_off d =? key then Some d else None.

Record DeoptState := MkDeopt { blob : list Z; site : DecodedSite }.

Definition at_parts (blob : list Z) (pcs : list PcDesc) (off : Z) : option DeoptState :=
  pc ← find pcs off;
  s ← decode_site blob (site_off pc);
  Some (MkDeopt blob s).

Definition innermost (d : DeoptState) : option DecodedScope :=
  decode_scope (blob d) (d_scope_off (site d)).

(** The iterator's walk, innermost to outermost. *)
Fixpoint scope_chain (fuel : nat) (blob : list Z) (next_off : option Z) :
    option (list DecodedScope) :=
  match next_off with
  | None => Some []
  | Some off =>
      match fuel with
      | O => None
      | S fuel =>
          d ← decode_scope blob off;
          ds ← scope_chain fuel blob ((fun s => s.1.1) <$> d_sender d);
          Some (d :: ds)
      end
  end.
Definition iter_scopes (fuel : nat) (d : DeoptState) : option (list DecodedScope) :=
  scope_chain fuel (blob d) (Some (d_scope_off (site d))).

(** *** Round trip of one record *)
Definition link_ok (l : SenderLink) : Prop := 0 <= l_sender l /\ inU 16 (l_bci l) /\ locs_ok (l_pending l).
Definition scope_ok (s : ScopeDescData) : Prop :=
  inU 32 (method_pool_ix s) /\ match sender s with Some l => link_ok l | None => True end /\
  loc_ok (receiver s) /\ locs_ok (slots s) /\ ctx_ok (ctx s).
Definition site_ok (st : SafepointState) : Prop :=
  0 <= scope st /\ inU 16 (bci st) /\ locs_ok (stack st).

Lemma reads_u8 b : reads read_u8 [b] b.
Proof. intros pre post. unfold read_u8. cbn [app]. by rewrite zlookup_mid. Qed.

Lemma scope_flags (a b : bool) c :
  let flags := Z.lor (Z.lor (Z.b2z a) (Z.shiftl (Z.b2z b) 1)) (Z.shiftl (ctx_kind c) 2) in
  negb (Z.land flags 1 =? 0) = a /\ negb (Z.land flags 2 =? 0) = b /\
  Z.land (Z.shiftr flags 2) 3 = ctx_kind c.
Proof. by destruct a, b, c. Qed.

Lemma site_flags (a : bool) k :
  let flags := Z.lor (Z.b2z a) (Z.shiftl (to_bits k) 1) in
  negb (Z.land flags 1 =? 0) = a /\ from_bits (Z.land (Z.shiftr flags 1) 7) = Some k.
Proof. by destruct a, k. Qed.

(** The record the decoder answers for a recorded scope. *)
Definition decoded_of (offs : list Z) (s : ScopeDescData) : option DecodedScope :=
  snd_ ← match sender s with
         | Some l => off ← zlookup offs (l_sender l); Some (Some (off, l_bci l, l_pending l))
         | None => Some None
         end;
  Some (MkDScope (method_pool_ix s) (is_block s) snd_ (receiver s) (slots s) (ctx s)).

Lemma sender_codec sn offs snd_ :
  match sn with Some l => link_ok l | None => True end -> Forall (inU 32) offs ->
  match sn with
  | Some l => off ← zlookup offs (l_sender l); Some (Some (off, l_bci l, l_pending l))
  | None => Some None
  end = Some snd_ ->
  exists bs, (forall out, match sn with
     | Some link =>
         off ← zlookup offs (l_sender link);
         Some (write_list (write_uleb (write_uleb out off) (l_bci link)) (l_pending link))
     | None => Some out
     end = Some (out ++ bs)) /\
   reads (read_sender (match sn with Some _ => true | None => false end)) bs snd_.
Proof.
  destruct sn as [l|]; cbn [link_ok]; intros Hl Ho Hs.
  - destruct Hl as (_ & Hb & Hp). destruct (zlookup offs (l_sender l)) as [off|] eqn:Hz; [|done].
    injection Hs as <-. assert (H32 : inU 32 off).
    { unfold zlookup in Hz. destruct (_ <? _); [done|]. by eapply Forall_lookup_1 in Hz. }
    destruct (codec off (inU_32_64 off H32)) as (b1 & Hw1 & _ & Hr1).
    destruct (codec (l_bci l) (inU_16_64 _ Hb)) as (b2 & Hw2 & _ & Hr2).
    destruct (codec (l_pending l) Hp) as (b3 & Hw3 & _ & Hr3).
    exists (b1 ++ b2 ++ b3 ++ []). split.
    + intros out. cbn [mbind option_bind]. rewrite Hw1, Hw2, Hw3. by rewrite app_nil_r, <- !(assoc_L (++)).
    + assert (reads (fun buf pos => '(o, pos) ← read_uleb buf pos; '(b, pos) ← read_uleb buf pos;
          '(pending, pos) ← read_list buf pos; Some (Some (u32 o, u16 b, pending), pos))
          (b1 ++ b2 ++ b3 ++ []) (Some (u32 off, u16 (l_bci l), l_pending l))) as H.
      { eapply (reads_bind read_uleb); [exact Hr1|]. eapply (reads_bind read_uleb); [exact Hr2|].
        eapply (reads_bind read_list); [exact Hr3|]. apply reads_ret. }
      rewrite !wrapU_id in H by done. exact H.
  - injection Hs as <-. exists []. split; [intros; by rewrite app_nil_r|apply reads_ret].
Qed.

Lemma scope_codec s offs d : scope_ok s -> Forall (inU 32) offs -> decoded_of offs s = Some d ->
  exists bs, 0 < zlen bs /\ (forall out, write_scope_record out s offs = Some (out ++ bs)) /\
    reads decode_scope_at bs d.
Proof.
  intros (Hix & Hsn & Hrc & Hsl & Hc) Ho Hd. unfold decoded_of in Hd.
  destruct (match sender s with Some l => _ | None => _ end) as [snd_|] eqn:Hs; [|done].
  injection Hd as <-.
  destruct (sender_codec _ _ _ Hsn Ho Hs) as (b2 & Hw2 & Hr2).
  destruct (codec _ (inU_32_64 _ Hix)) as (b1 & Hw1 & _ & Hr1).
  destruct (codec _ Hrc) as (b3 & Hw3 & _ & Hr3). destruct (codec _ Hsl) as (b4 & Hw4 & _ & Hr4).
  destruct (ctx_codec _ Hc) as (b5 & Hw5 & Hr5).
  set (hs := match sender s with Some _ => true | None => false end) in *.
  destruct (scope_flags hs (is_block s) (ctx s)) as (Hf1 & Hf2 & Hf3).
  set (flags := Z.lor _ _) in *.
  exists ([flags] ++ b1 ++ b2 ++ b3 ++ b4 ++ b5 ++ []). split_and!.
  - cbn. unfold zlen. cbn [length]. lia.
  - intros out. unfold write_scope_record. fold hs flags. cbv zeta.
    rewrite Hw1, Hw2. cbn [mbind option_bind]. rewrite Hw3, Hw4, Hw5. f_equal.
    by rewrite app_nil_r, <- !(assoc_L (++)).
  - rewrite <- (wrapU_id 32 (method_pool_ix s)) by done. rewrite <- Hf2.
    eapply (reads_bind read_u8); [apply reads_u8|]. eapply (reads_bind read_uleb); [exact Hr1|].
    eapply (reads_bind (read_sender _)); [rewrite Hf1; exact Hr2|].
    eapply (reads_bind read); [exact Hr3|]. eapply (reads_bind read_list); [exact Hr4|].
    eapply (reads_bind (read_ctx _)); [rewrite Hf3; exact Hr5|]. apply reads_ret.
Qed.

Definition decoded_site (off : Z) (st : SafepointState) : DecodedSite :=
  MkDSite off (bci st) (kind st) (reexecute st) (stack st).

Lemma site_codec st offs off : site_ok st -> inU 32 off -> zlookup offs (scope st) = Some off ->
  exists bs, 0 < zlen bs /\ (forall out, write_safepoint_record out st offs = Some (out ++ bs)) /\
    reads decode_site_at bs (decoded_site off st).
Proof.
  intros (_ & Hb & Hs) Ho Hz.
  destruct (codec off (inU_32_64 off Ho)) as (b1 & Hw1 & Hl1 & Hr1).
  destruct (codec (bci st) (inU_16_64 _ Hb)) as (b2 & Hw2 & _ & Hr2).
  destruct (codec (stack st) Hs) as (b3 & Hw3 & _ & Hr3).
  destruct (site_flags (reexecute st) (kind st)) as [Hf1 Hf2]. set (flags := Z.lor _ _) in *.
  exists (b1 ++ b2 ++ [flags] ++ b3 ++ []). split_and!.
  - rewrite zlen_app. pose proof (zlen_nonneg (b2 ++ [flags] ++ b3 ++ [])). lia.
  - intros out. unfold write_safepoint_record. rewrite Hz. fold flags. cbn [mbind option_bind].
    rewrite Hw1, Hw2, Hw3. f_equal. by rewrite app_nil_r, <- !(assoc_L (++)).
  - unfold decoded_site. rewrite <- (wrapU_id 32 off) by done.
    rewrite <- (wrapU_id 16 (bci st)) by done. rewrite <- Hf1.
    eapply (reads_bind read_uleb); [exact Hr1|]. eapply (reads_bind read_uleb); [exact Hr2|].
    eapply (reads_bind read_u8); [apply reads_u8|]. rewrite Hf2. cbn [mbind option_bind].
    eapply (reads_bind read_list); [exact Hr3|]. apply reads_ret.
Qed.

(** *** The packed blob *)
Definition placed {A} (r : list Z -> Z -> option (A * Z)) (blob : list Z) (off : Z) (a : A) : Prop :=
  exists pre bs post, blob = pre ++ bs ++ post /\ zlen pre = off /\ reads r bs a.

Lemma placed_read {A} (r : list Z -> Z -> option (A * Z)) blob off a :
  placed r blob off a -> fst <$> r blob off = Some a.
Proof. intros (pre & bs & post & -> & <- & Hr). by rewrite Hr. Qed.

Lemma placed_app {A} (r : list Z -> Z -> option (A * Z)) blob off a x :
  placed r blob off a -> placed r (blob ++ x) off a.
Proof.
  intros (pre & bs & post & -> & <- & Hr). exists pre, bs, (post ++ x).
  by rewrite <- !(assoc_L (++)).
Qed.

Lemma placed_prefix {A} (r : list Z -> Z -> option (A * Z)) blob blob' off a :
  blob `prefix_of` blob' -> placed r blob off a -> placed r blob' off a.
Proof. intros [x ->]. apply placed_app. Qed.

Lemma placed_end {A} (r : list Z -> Z -> option (A * Z)) blob bs a :
  zlen (blob ++ bs) <= 2 ^ 32 -> 0 < zlen bs -> reads r bs a ->
  placed r (blob ++ bs) (u32 (zlen blob)) a.
Proof.
  intros Hl Hb Hr. rewrite zlen_app in Hl. exists blob, bs, []. split_and!; [by rewrite app_nil_r| |done].
  rewrite wrapU_id; [done|]. pose proof (zlen_nonneg blob). unfold inU. lia.
Qed.

Lemma zlookup_app_Some {A} (l k : list A) i x : zlookup l i = Some x -> zlookup (l ++ k) i = Some x.
Proof. intros H. rewrite zlookup_app_l; [done|]. apply zlookup_lt in H. lia. Qed.

Lemma decoded_of_app offs x s d : decoded_of offs s = Some d -> decoded_of (offs ++ x) s = Some d.
Proof.
  unfold decoded_of. destruct (sender s) as [l|]; [|done].
  destruct (zlookup offs (l_sender l)) as [o|] eqn:Hz; [|done]. by rewrite (zlookup_app_Some _ _ _ _ Hz).
Qed.

Definition sender_below (n : Z) (s : ScopeDescData) : Prop :=
  match sender s with Some l => l_sender l < n | None => True end.

(** Scopes [ss], to be packed from id [n] on, name only earlier senders. *)
Fixpoint senders_below (n : Z) (ss : list ScopeDescData) : Prop :=
  match ss with [] => True | s :: ss => sender_below n s /\ senders_below (n + 1) ss end.

(** The scopes [ss] are in [blob], at the offsets [offs]. *)
Record packed (ss : list ScopeDescData) (blob offs : list Z) : Prop := {
  p_len : zlen offs = zlen ss;
  p_offs : Forall (inU 32) offs;
  p_decoded : forall i s, zlookup ss i = Some s -> exists d, decoded_of offs s = Some d;
  p_placed : zlen blob <= 2 ^ 32 -> forall i s d, zlookup ss i = Some s -> decoded_of offs s = Some d ->
    exists off, zlookup offs i = Some off /\ placed decode_scope_at blob off d }.

Lemma decoded_of_total offs s n : sender_below n s -> scope_ok s -> n <= zlen offs ->
  exists d, decoded_of offs s = Some d.
Proof.
  intros Hb (_ & Hl & _) Hn. unfold decoded_of, sender_below in *. revert Hb Hl.
  destruct (sender s) as [l|]; [|by eexists]. intros Hb [Hl _]. destruct (zlookup_is_Some offs (l_sender l)) as [o Ho]; [lia|].
  rewrite Ho. by eexists.
Qed.

Lemma zlookup_snoc_inv {A} (l : list A) x i y : zlookup (l ++ [x]) i = Some y ->
  zlookup l i = Some y \/ i = zlen l /\ y = x.
Proof.
  intros H. apply zlookup_lt in H as Hi. destruct (decide (i < zlen l)) as [Hlt|Hge].
  - left. by rewrite zlookup_app_l in H.
  - right. rewrite zlen_app in Hi. change (zlen [x]) with 1 in Hi. assert (i = zlen l) as -> by lia. split; [done|].
    rewrite zlookup_mid in H. congruence.
Qed.

Lemma pack_scope_step done_ s blob offs : packed done_ blob offs -> scope_ok s ->
  sender_below (zlen done_) s -> exists blob',
    write_scope_record blob s (offs ++ [u32 (zlen blob)]) = Some blob' /\
    blob `prefix_of` blob' /\ packed (done_ ++ [s]) blob' (offs ++ [u32 (zlen blob)]).
Proof.
  intros [Hl Ho Hd Hp] Hs Hb. set (offs' := offs ++ [u32 (zlen blob)]).
  assert (Ho' : Forall (inU 32) offs')
    by (apply Forall_app; split; [done|by apply Forall_singleton, wrapU_in]).
  destruct (decoded_of_total offs s (zlen done_) Hb Hs) as [d Hds]; [lia|].
  pose proof (decoded_of_app _ [u32 (zlen blob)] _ _ Hds) as Hd'. fold offs' in Hd'.
  destruct (scope_codec s offs' d Hs Ho' Hd') as (bs & Hbs & Hw & Hr).
  exists (blob ++ bs). split_and!; [apply Hw|by apply prefix_app_r|].
  split; [unfold offs'; rewrite !zlen_app, Hl; done|done| |].
  - intros i s' [Hi|[-> ->]]%zlookup_snoc_inv; [|by exists d].
    destruct (Hd _ _ Hi) as [d' ?]. exists d'. by apply decoded_of_app.
  - intros Hsmall i s' d' [Hi|[-> ->]]%zlookup_snoc_inv Hdd.
    + destruct (Hd _ _ Hi) as [d0 Hd0]. apply (decoded_of_app _ [u32 (zlen blob)]) in Hd0 as Hd0'.
      unfold offs' in Hdd. rewrite Hd0' in Hdd. injection Hdd as <-.
      destruct (Hp) with i s' d0 as (off & Hoff & Hpl); [|done..|].
      { rewrite zlen_app in Hsmall. lia. }
      exists off. split; [by apply zlookup_app_Some|by apply placed_app].
    + rewrite Hd' in Hdd. injection Hdd as <-. exists (u32 (zlen blob)).
      rewrite <- Hl. split; [apply zlookup_mid|by apply placed_end].
Qed.

Lemma pack_scopes_ok ss : forall done_ blob offs, packed done_ blob offs -> Forall scope_ok ss ->
  senders_below (zlen done_) ss -> exists blob' offs', pack_scopes ss blob offs = Some (blob', offs') /\
    blob `prefix_of` blob' /\ packed (done_ ++ ss) blob' offs'.
Proof.
  induction ss as [|s ss IH]; intros done_ blob offs Hp Hs Hb; cbn in *.
  - exists blob, offs. rewrite app_nil_r. by split_and!.
  - inversion_clear Hs as [|? ? Hs1 Hs2]. destruct Hb as [Hb1 Hb2].
    destruct (pack_scope_step _ _ _ _ Hp Hs1 Hb1) as (blob1 & -> & Hpre & Hp1).
    cbn [mbind option_bind]. destruct (IH _ _ _ Hp1 Hs2) as (blob' & offs' & -> & Hpre' & Hp').
    { rewrite zlen_app. exact Hb2. }
    exists blob', offs'. rewrite <- (assoc_L (++)) in Hp'. cbn in Hp'.
    split_and!; [done|by etrans|done].
Qed.

(** Each recorded site has a descriptor whose offset holds its record. *)
Definition site_packed (blob offs : list Z) (pcs : list PcDesc) (site : Z * SafepointState) : Prop :=
  exists so o, MkPc site.1 so ∈ pcs /\ zlookup offs (scope site.2) = Some o /\
    placed decode_site_at blob so (decoded_site o site.2).

Lemma pack_sites_ok ss offs : Forall (inU 32) offs -> forall blob pcs,
  Forall (fun s => site_ok s.2 /\ scope s.2 < zlen offs) ss ->
  exists blob' pcs', pack_sites ss blob offs pcs = Some (blob', pcs') /\ blob `prefix_of` blob' /\
    code_off <$> pcs' = (code_off <$> pcs) ++ (fst <$> ss) /\ pcs `prefix_of` pcs' /\
    (zlen blob' <= 2 ^ 32 -> Forall (site_packed blob' offs pcs') ss).
Proof.
  intros Ho. induction ss as [|[off st] ss IH]; intros blob pcs Hs; cbn [pack_sites].
  - exists blob, pcs. split_and!; [done..|by rewrite app_nil_r|done|done].
  - inversion_clear Hs as [|? ? [Hs1 Hsc] Hs2]. cbn in Hs1, Hsc.
    destruct (zlookup_is_Some offs (scope st)) as [o Hz]; [destruct Hs1; lia|].
    assert (H32 : inU 32 o).
    { pose proof Hz as Hz'. unfold zlookup in Hz'. destruct (_ <? _); [done|].
      by eapply Forall_lookup_1 in Hz'. }
    destruct (site_codec st offs o Hs1 H32 Hz) as (bs & Hb & Hw & Hr).
    rewrite Hw. cbn [mbind option_bind].
    destruct (IH (blob ++ bs) (pcs ++ [MkPc off (u32 (zlen blob))]) Hs2)
      as (blob' & pcs' & -> & Hpre & Hk & Hpp & Hall).
    exists blob', pcs'. split_and!; [done| | | |].
    + etrans; [|done]. by apply prefix_app_r.
    + rewrite Hk, fmap_app, <- (assoc_L (++)). done.
    + etrans; [|done]. by apply prefix_app_r.
    + intros Hl. constructor; [|by apply Hall].
      exists (u32 (zlen blob)), o. split_and!; [|done|].
      * destruct Hpp as [y ->]. rewrite <- (assoc_L (++)). apply elem_of_app. right. left.
      * eapply placed_prefix; [done|]. apply placed_end; [|done|done].
        destruct Hpre as [y ->]. rewrite !zlen_app in *. pose proof (zlen_nonneg y). lia.
Qed.

(** *** The sorted descriptors *)
Fixpoint below_all (k : Z) (ds : list PcDesc) : Prop :=
  match ds with [] => True | d :: ds => k <= code_off d /\ below_all k ds end.
Fixpoint sorted (ds : list PcDesc) : Prop :=
  match ds with [] => True | d :: ds => below_all (code_off d) ds /\ sorted ds end.

Lemma below_all_elem k ds : below_all k ds <-> forall d, d ∈ ds -> k <= code_off d.
Proof.
  induction ds as [|e ds IH]; cbn.
  - split; [by intros _ d ?%elem_of_nil|done].
  - rewrite IH. split.
    + intros [H1 H2] d [->|Hd]%elem_of_cons; auto.
    + intros H. split; [apply H; left|]. intros d Hd. apply H. by right.
Qed.

Lemma insert_perm d ds : insert_by_key d ds ≡ₚ d :: ds.
Proof.
  induction ds as [|e ds IH]; cbn; [done|]. case_match; [done|]. rewrite IH. apply perm_swap.
Qed.

Lemma insert_sorted d ds : sorted ds -> sorted (insert_by_key d ds).
Proof.
  induction ds as [|e ds IH]; cbn; [done|]. intros [Hb Hs].
  destruct (Z.leb_spec (code_off d) (code_off e)) as [Hle|Hgt]; cbn.
  - split_and!; try done. rewrite below_all_elem in *. intros x Hx. specialize (Hb x Hx). lia.
  - split; [|by apply IH]. rewrite below_all_elem in *. intros x Hx. rewrite insert_perm in Hx.
    apply elem_of_cons in Hx as [->|Hx]; [lia|by apply Hb].
Qed.

Lemma sort_perm ds : sort_by_key ds ≡ₚ ds.
Proof. induction ds as [|d ds IH]; cbn; [done|]. unfold sort_by_key in IH. by rewrite insert_perm, IH. Qed.

Lemma sort_sorted ds : sorted (sort_by_key ds).
Proof. induction ds as [|d ds IH]; cbn; [done|]. by apply insert_sorted. Qed.

Lemma sorted_lookup ds i j d e : sorted ds -> (i <= j)%nat -> ds !! i = Some d -> ds !! j = Some e ->
  code_off d <= code_off e.
Proof.
  revert i j. induction ds as [|x ds IH]; intros i j Hso Hij Hi Hj; [done|].
  destruct Hso as [Hb Hs].
  destruct i as [|i], j as [|j]; cbn in *; simplify_eq; [lia| |lia|].
  - rewrite below_all_elem in Hb. apply Hb. by apply list_elem_of_lookup_2 in Hj.
  - eapply IH; [done| |done|done]. lia.
Qed.

Lemma bsearch_find ds key i d : sorted ds -> NoDup (code_off <$> ds) ->
  zlookup ds i = Some d -> code_off d = key -> forall fuel base size,
  (Z.to_nat size <= fuel)%nat -> 0 <= base -> base <= i < base + size -> base + size <= zlen ds ->
  bsearch fuel ds key base size = Some i.
Proof.
  intros Hs Hnd Hi Hk fuel. induction fuel as [|fuel IH]; intros base size Hf Hb Hr Hl; [lia|].
  cbn [bsearch]. destruct (Z.leb_spec size 1) as [H1|H1]; [f_equal; lia|].
  assert (Hh : 1 <= size / 2 < size) by (Z.div_mod_to_equations; lia).
  assert (Hh2 : size / 2 <= size - size / 2) by (Z.div_mod_to_equations; lia).
  destruct (zlookup_is_Some ds (base + size / 2)) as [m Hm]; [lia|]. rewrite Hm. cbn [mbind option_bind].
  unfold zlookup in Hi, Hm. destruct (Z.ltb_spec i 0); [done|].
  destruct (Z.ltb_spec (base + size / 2) 0); [done|].
  destruct (Z.ltb_spec key (code_off m)) as [Hlt|Hge].
  - assert (i < base + size / 2).
    { destruct (decide (i < base + size / 2)); [done|]. exfalso.
      pose proof (sorted_lookup ds (Z.to_nat (base + size / 2)) (Z.to_nat i) m d Hs ltac:(lia) Hm Hi). lia. }
    apply IH; lia.
  - assert (base + size / 2 <= i).
    { destruct (decide (base + size / 2 <= i)); [done|]. exfalso.
      pose proof (sorted_lookup ds (Z.to_nat i) (Z.to_nat (base + size / 2)) d m Hs ltac:(lia) Hi Hm).
      assert (Heq : code_off d = code_off m) by lia.
      assert (Z.to_nat i = Z.to_nat (base + size / 2)); [|lia].
      eapply NoDup_lookup; [exact Hnd|..]; rewrite list_lookup_fmap; [by rewrite Hi|].
      rewrite Hm. cbn. by rewrite Heq. }
    apply IH; lia.
Qed.

Lemma find_sorted pcs d : NoDup (code_off <$> pcs) -> d ∈ pcs ->
  find (sort_by_key pcs) (code_off d) = Some d.
Proof.
  intros Hnd Hin. rewrite <- (sort_perm pcs) in Hin, Hnd.
  apply list_elem_of_lookup_1 in Hin as [n Hn]. unfold find.
  assert (Hz : zlookup (sort_by_key pcs) (Z.of_nat n) = Some d).
  { unfold zlookup. destruct (Z.ltb_spec (Z.of_nat n) 0); [lia|]. by rewrite Nat2Z.id. }
  apply zlookup_lt in Hz as Hlt.
  rewrite (bsearch_find _ (code_off d) (Z.of_nat n) d);
    try done; try apply sort_sorted; try (unfold zlen in *; lia).
  cbn [mbind option_bind]. rewrite Hz. cbn. by rewrite Z.eqb_refl.
Qed.

(** *** A compilation's metadata, end to end *)
Inductive op := BeginScope (s : ScopeDescData) | RecordSite (off : Z) (st : SafepointState).

Definition op_ok (o : op) : Prop :=
  match o with BeginScope s => scope_ok s | RecordSite _ st => site_ok st end.

#[export] Instance op_ok_dec o : Decision (op_ok o).
Proof.
  destruct o as [s|off st]; cbn [op_ok]; [|unfold site_ok; apply _].
  assert (Decision (match sender s with Some l => link_ok l | None => True end))
    by (destruct (sender s); unfold link_ok; apply _).
  unfold scope_ok. apply _.
Defined.

Definition exec (o : op) (r : recorder) : option recorder :=
  match o with
  | BeginScope s => snd <$> begin_scope s r
  | RecordSite off st => record_site off st r
  end.
Fixpoint run (ops : list op) (r : recorder) : option recorder :=
  match ops with [] => Some r | o :: ops => r ← exec o r; run ops r end.

(** The inlining chain of a scope, innermost first; a sender has a smaller
    id, so the id bounds the length. *)
Fixpoint chain (fuel : nat) (ss : list ScopeDescData) (id : Z) : option (list ScopeDescData) :=
  match fuel with
  | O => None
  | S fuel =>
      s ← zlookup ss id;
      match sender s with
      | None => Some [s]
      | Some l => rest ← chain fuel ss (l_sender l); Some (s :: rest)
      end
  end.

(** A decoded scope is the recorded one, up to the sender's representation. *)
Definition same_scope (s : ScopeDescData) (d : DecodedScope) : Prop :=
  d_method_pool_ix d = method_pool_ix s /\ d_is_block d = is_block s /\
  d_receiver d = receiver s /\ d_slots d = slots s /\ d_ctx d = ctx s /\
  match sender s, d_sender d with
  | Some l, Some (_, b, pending) => b = l_bci l /\ pending = l_pending l
  | None, None => True
  | _, _ => False
  end.

Record recorded (r : recorder) : Prop := {
  c_scopes : Forall scope_ok (scopes r);
  c_senders : senders_below 0 (scopes r);
  c_sites : Forall (fun s => site_ok s.2 /\ scope s.2 < zlen (scopes r)) (sites r) }.

Lemma senders_below_app n ss s : senders_below n ss -> sender_below (n + zlen ss) s ->
  senders_below n (ss ++ [s]).
Proof.
  revert n. induction ss as [|x ss IH]; intros n; cbn.
  - by rewrite Z.add_0_r.
  - intros [H1 H2] Hs. split; [done|]. apply IH; [done|]. rewrite zlen_cons in Hs.
    by replace (n + 1 + zlen ss) with (n + (1 + zlen ss)) by lia.
Qed.

Lemma run_recorded ops : Forall op_ok ops -> forall r r', recorded r -> run ops r = Some r' -> recorded r'.
Proof.
  induction 1 as [|o ops Ho HF IH]; intros r r' [H1 H2 H3] Hr; cbn in Hr; [by simplify_eq|].
  destruct (exec o r) as [r1|] eqn:He; [|done]. apply (IH r1); [|done]. clear IH Hr.
  destruct o as [s|off st]; cbn in He, Ho.
  - unfold begin_scope in He.
    assert (Hsb : sender_below (zlen (scopes r)) s).
    { unfold sender_below. destruct (sender s) as [l|]; [|done].
      destruct (Z.leb_spec (zlen (scopes r)) (l_sender l)); [done|lia]. }
    destruct (match sender s with Some _ => _ | None => _ end); [done|]. injection He as <-.
    split; cbn.
    + apply Forall_app. split; [done|by apply Forall_singleton].
    + by apply senders_below_app.
    + eapply Forall_impl; [done|]. intros [o st] [? ?]. rewrite zlen_app. split; [done|].
      cbn in *. unfold zlen in *. cbn. lia.
  - unfold record_site in He. destruct (Z.leb_spec (zlen (scopes r)) (scope st)); [done|].
    destruct (is_call _ && _); [done|]. injection He as <-. split; cbn; [done..|].
    apply Forall_app. split; [done|]. by apply Forall_singleton.
Qed.

Lemma senders_lookup ss : forall n i s, senders_below n ss -> zlookup ss i = Some s -> sender_below (n + i) s.
Proof.
  induction ss as [|x ss IH]; intros n i s Hb Hi; [apply zlookup_lt in Hi; cbn in Hi; unfold zlen in Hi; cbn in Hi; lia|].
  destruct Hb as [Hx Hb]. apply zlookup_lt in Hi as Hr. destruct (decide (i = 0)) as [->|].
  - injection Hi as <-. by rewrite Z.add_0_r.
  - replace (n + i) with (n + 1 + (i - 1)) by lia. apply (IH _ (i - 1)); [done|].
    change (x :: ss) with ([x] ++ ss) in Hi. rewrite zlookup_app_r in Hi; [done|unfold zlen; cbn; lia].
Qed.

(** Walking the blob from a scope's offset yields its chain. *)
Lemma chain_decoded ss blob offs : packed ss blob offs -> Forall scope_ok ss -> senders_below 0 ss ->
  zlen blob <= 2 ^ 32 -> forall fuel id off, 0 <= id -> (Z.to_nat id < fuel)%nat ->
  zlookup offs id = Some off -> exists cs ds, chain fuel ss id = Some cs /\
    scope_chain fuel blob (Some off) = Some ds /\ Forall2 same_scope cs ds.
Proof.
  intros HP Hok Hsb Hsm fuel. induction fuel as [|fuel IH]; intros id off H0 Hf Hoff; [lia|].
  apply zlookup_lt in Hoff as Hlt. rewrite (p_len _ _ _ HP) in Hlt.
  destruct (zlookup_is_Some ss id Hlt) as [s Hs]. destruct (p_decoded _ _ _ HP id s Hs) as [d Hd].
  destruct (p_placed _ _ _ HP Hsm id s d Hs Hd) as (off' & Hoff' & Hpl).
  rewrite Hoff in Hoff'. injection Hoff' as <-. apply placed_read in Hpl.
  cbn [chain scope_chain]. rewrite Hs. unfold decode_scope. rewrite Hpl. cbn [mbind option_bind].
  pose proof (senders_lookup ss 0 id s Hsb Hs) as Hb. unfold sender_below in Hb. unfold decoded_of in Hd.
  destruct (sender s) as [l|] eqn:Hsn.
  - destruct (zlookup offs (l_sender l)) as [o|] eqn:Ho; [|done]. injection Hd as <-. cbn [d_sender fmap option_fmap option_map fst].
    apply zlookup_lt in Ho as Hlo.
    destruct (IH (l_sender l) o) as (cs & ds & -> & -> & HF); [lia|lia|done|].
    eexists _, _. split; [done|]. split; [done|]. constructor; [|done].
    unfold same_scope. rewrite Hsn. by split_and!.
  - injection Hd as <-. cbn [d_sender fmap option_fmap option_map].
    exists [s], [MkDScope (method_pool_ix s) (is_block s) None (receiver s) (slots s) (ctx s)].
    split; [done|]. split; [by destruct fuel|].
    constructor; [|constructor]. unfold same_scope. rewrite Hsn. by split_and!.
Qed.

(** C17. Deoptimization metadata survives packing: whatever a compilation
    records, packing succeeds, and if the blob fits 32-bit offsets and the
    sites' code offsets are distinct, looking any recorded offset up finds
    exactly the recorded bci, kind, re-execute flag and operand stack, and the
    scope iterator terminates having yielded the whole inlining chain,
    innermost first, each scope with the recorded method, receiver, slots,
    context, sender bci and pending stack. *)
Theorem deopt_metadata_roundtrip ops r off st
    (Hops : Forall op_ok ops) (Hrun : run ops new = Some r)
    (Hnd : NoDup (fst <$> sites r)) (Hin : (off, st) ∈ sites r) :
  exists bl pcs, pack r = Some (bl, pcs) /\
    (zlen bl <= 2 ^ 32 -> exists d, at_parts bl pcs off = Some d /\
       d_bci (site d) = bci st /\ d_kind (site d) = kind st /\
       d_reexecute (site d) = reexecute st /\ d_stack (site d) = stack st /\
       let fuel := S (length (scopes r)) in
       exists cs ds, chain fuel (scopes r) (scope st) = Some cs /\
         iter_scopes fuel d = Some ds /\ Forall2 same_scope cs ds).
Proof.
  assert (Hrec : recorded r) by (apply (run_recorded ops Hops new); [by split; cbn|done]).
  destruct Hrec as [H1 H2 H3].
  assert (H0 : packed [] [] []).
  { split; [done|done| |]; intros; match goal with H : zlookup [] _ = _ |- _ =>
      apply zlookup_lt in H; change (zlen []) with 0 in H; lia end. }
  destruct (pack_scopes_ok (scopes r) [] [] [] H0 H1 H2) as (b1 & offs & Hp1 & _ & HP). cbn in HP.
  destruct (pack_sites_ok (sites r) offs (p_offs _ _ _ HP) b1 []) as (bl & pcs & Hp2 & Hpre & Hk & _ & Hall).
  { eapply Forall_impl; [exact H3|]. intros s [? ?]. by rewrite (p_len _ _ _ HP). }
  exists bl, (sort_by_key pcs). unfold pack. rewrite Hp1. cbn [mbind option_bind]. rewrite Hp2.
  split; [done|]. intros Hsm. specialize (Hall Hsm). rewrite Forall_forall in Hall.
  destruct (Hall _ Hin) as (so & o & Hpc & Ho & Hpl). cbn [fst snd] in *.
  pose proof (find_sorted pcs (MkPc off so) ltac:(by rewrite Hk) Hpc) as Hf. cbn [code_off] in Hf.
  unfold at_parts. rewrite Hf.
  cbn [mbind option_bind site_off]. apply placed_read in Hpl. unfold decode_site. rewrite Hpl.
  cbn [mbind option_bind]. eexists. split; [done|]. split_and!; [done..|]. cbv zeta.
  assert (HP' : packed (scopes r) bl offs).
  { destruct HP as [P1 P2 P3 P4]. split; [done..|]. intros _ i s d Hi Hd.
    destruct (P4) with i s d as (o' & ? & ?); [|done..|exists o'; split; [done|by eapply placed_prefix]].
    destruct Hpre as [x ->]. rewrite zlen_app in Hsm. pose proof (zlen_nonneg x). lia. }
  apply zlookup_lt in Ho as Hlo. rewrite (p_len _ _ _ HP) in Hlo.
  eapply chain_decoded; [exact HP'|done|done|done|lia|unfold zlen in Hlo; lia|exact Ho].
Qed.

(** A method with a block inlined two levels deep, and two safepoints. *)
Definition demo : list op :=
  [BeginScope (MkScope 3 false None (FrameSlot (-8)) [FrameSlot (-16); NilLoc] (Materialized (FrameSlot (-24))));
   BeginScope (MkScope 4 false (Some (MkLink 0 17 [ConstSmi 7])) (ConstPool 300) [] CtxNone);
   BeginScope (MkScope 5 true (Some (MkLink 1 2 [])) (FrameSlot (-8)) [ElidedClosure 9] (Elided [ConstSmi (-5)]));
   RecordSite 400 (MkSite 2 11 UncommonTrap true [ConstSmi (-1); DoubleSlot (-40)]);
   RecordSite 128 (MkSite 0 3 Call false [])].

Lemma deopt_metadata_roundtrip_witness : exists r bl pcs,
  run demo new = Some r /\ pack r = Some (bl, pcs) /\
  exists d, at_parts bl pcs 400 = Some d /\ d_stack (site d) = [ConstSmi (-1); DoubleSlot (-40)].
Proof.
  eexists _, _, _. split; [vm_compute; reflexivity|]. split; [vm_compute; reflexivity|].
  match goal with |- exists d, at_parts ?bl ?pcs _ = _ /\ _ =>
    destruct (deopt_metadata_roundtrip demo (MkRecorder (scopes (default new (run demo new))) (sites (default new (run demo new))))
      400 (MkSite 2 11 UncommonTrap true [ConstSmi (-1); DoubleSlot (-40)]))
      as (bl' & pcs' & Hp & Hd);
      [apply (bool_decide_unpack (Forall op_ok demo)); vm_compute; exact I|vm_compute; reflexivity|
       apply (bool_decide_unpack (NoDup [400; 128])); vm_compute; exact I|vm_compute; left|]
  end.
  vm_compute in Hp. injection Hp as <- <-.
  destruct Hd as (d & H1 & _ & _ & _ & H2 & _); [vm_compute; discriminate|].
  exists d. split; [exact H1|exact H2].
Defined.
End Deopt.

(** ** The on-stack-replacement map *)
Module Osr.
Inductive OsrSource := Receiver | Slot (i : Z) | StackSlot (i : Z) | Context_.
Record OsrSlot := MkSlot { src : OsrSource; dst_frame_off : Z }.
Record OsrMap := MkMap { osr_bci : Z; entry_off : Z; frame_words : Z; slots : list OsrSlot }.

Definition TAG_RECEIVER : Z := 0.
Definition TAG_SLOT : Z := 1.
Definition TAG_STACK : Z := 2.
Definition TAG_CONTEXT : Z := 3.

Definition write_slot (out : list Z) (s : OsrSlot) : list Z :=
  let out := match src s with
             | Receiver => write_uleb out TAG_RECEIVER
             | Slot i => write_uleb (write_uleb out TAG_SLOT) i
             | StackSlot i => write_uleb (write_uleb out TAG_STACK) i
             | Context_ => write_uleb out TAG_CONTEXT
             end in
  write_uleb out (- dst_frame_off s).

Definition pack (m : OsrMap) : option (list Z) :=
  let out := write_uleb (write_uleb (write_uleb [] (osr_bci m)) (entry_off m)) (frame_words m) in
  let out := write_uleb out (zlen (slots m)) in
  if existsb (fun s => 0 <=? dst_frame_off s) (slots m) then None
  else Some (write_seq write_slot out (slots m)).

Definition read_src (buf : list Z) (pos : Z) : option (OsrSource * Z) :=
  '(tag, pos) ← read_uleb buf pos;
  if tag =? TAG_RECEIVER then Some (Receiver, pos)
  else if tag =? TAG_SLOT then '(i, pos) ← read_uleb buf pos; Some (Slot (u16 i), pos)
  else if tag =? TAG_STACK then '(i, pos) ← read_uleb buf pos; Some (StackSlot (u16 i), pos)
  else if tag =? TAG_CONTEXT then Some (Context_, pos)
  else None.

Definition read_slot (buf : list Z) (pos : Z) : option (OsrSlot * Z) :=
  '(s, pos) ← read_src buf pos;
  '(d, pos) ← read_uleb buf pos;
  Some (MkSlot s (- i32 d), pos).

Definition unpack (buf : list Z) : option OsrMap :=
  '(b, pos) ← read_uleb buf 0;
  '(e, pos) ← read_uleb buf pos;
  '(f, pos) ← read_uleb buf pos;
  '(n, pos) ← read_uleb buf pos;
  '(ss, _) ← read_seq read_slot (length buf) n buf pos;
  Some (MkMap (u16 b) (u32 e) (u32 f) ss).

Definition src_ok (s : OsrSource) : Prop :=
  match s with Slot i | StackSlot i => inU 16 i | _ => True end.
Definition slot_ok (s : OsrSlot) : Prop := src_ok (src s) /\ - 2 ^ 31 < dst_frame_off s < 0.

#[export] Instance slot_ok_dec s : Decision (slot_ok s).
Proof. unfold slot_ok. destruct s as [[] ]; cbn [src src_ok]; apply _. Defined.

(** A tag followed by an index. *)
Lemma tag_index t i : inU 64 t -> inU 16 i -> exists bs,
  (forall out, write_uleb (write_uleb out t) i = out ++ bs) /\
  reads (fun buf pos => '(x, pos) ← read_uleb buf pos; '(j, pos) ← read_uleb buf pos;
           Some ((x, j), pos)) bs (t, i).
Proof.
  intros Ht Hi. destruct (codec t Ht) as (b1 & Hw1 & _ & Hr1).
  destruct (codec i (inU_16_64 i Hi)) as (b2 & Hw2 & _ & Hr2).
  exists (b1 ++ b2 ++ []). split.
  - intros out. by rewrite Hw1, Hw2, app_nil_r, (assoc_L (++)).
  - eapply (reads_bind read_uleb); [exact Hr1|]. eapply (reads_bind read_uleb); [exact Hr2|].
    apply reads_ret.
Qed.

#[export] Instance slot_codec : Codec write_slot read_slot slot_ok.
Proof.
  intros [s d] [Hs Hd]. cbn [src dst_frame_off] in *.
  assert (Hsrc : exists bs, (forall out, match s with
             | Receiver => write_uleb out TAG_RECEIVER
             | Slot i => write_uleb (write_uleb out TAG_SLOT) i
             | StackSlot i => write_uleb (write_uleb out TAG_STACK) i
             | Context_ => write_uleb out TAG_CONTEXT
             end = out ++ bs) /\ reads read_src bs s).
  { destruct s as [|i|i|]; cbn [src_ok] in Hs.
    - destruct (codec (write := write_uleb) TAG_RECEIVER) as (b & Hw & _ & Hr); [done|].
      exists b. split; [exact Hw|]. intros pre post. unfold read_src. by rewrite Hr.
    - destruct (tag_index TAG_SLOT i) as (b & Hw & Hr); [done|done|]. exists b. split; [exact Hw|].
      intros pre post. specialize (Hr pre post). cbv beta in Hr. unfold read_src. revert Hr.
      destruct (read_uleb _ (zlen pre)) as [[t p]|]; [|done]. cbn [mbind option_bind].
      destruct (read_uleb _ p) as [[j q]|] eqn:E; [|done]. cbn [mbind option_bind].
      intros Hr. injection Hr as -> -> ->. change (TAG_SLOT =? TAG_RECEIVER) with false.
      change (TAG_SLOT =? TAG_SLOT) with true. cbv iota. cbn [mbind option_bind].
      by rewrite wrapU_id by done.
    - destruct (tag_index TAG_STACK i) as (b & Hw & Hr); [done|done|]. exists b. split; [exact Hw|].
      intros pre post. specialize (Hr pre post). cbv beta in Hr. unfold read_src. revert Hr.
      destruct (read_uleb _ (zlen pre)) as [[t p]|]; [|done]. cbn [mbind option_bind].
      destruct (read_uleb _ p) as [[j q]|] eqn:E; [|done]. cbn [mbind option_bind].
      intros Hr. injection Hr as -> -> ->. change (TAG_STACK =? TAG_RECEIVER) with false.
      change (TAG_STACK =? TAG_SLOT) with false. change (TAG_STACK =? TAG_STACK) with true.
      cbv iota. cbn [mbind option_bind]. by rewrite wrapU_id by done.
    - destruct (codec (write := write_uleb) TAG_CONTEXT) as (b & Hw & _ & Hr); [done|].
      exists b. split; [exact Hw|]. intros pre post. unfold read_src. by rewrite Hr. }
  destruct Hsrc as (b1 & Hw1 & Hr1).
  destruct (codec (write := write_uleb) (- d)) as (b2 & Hw2 & Hl2 & Hr2); [unfold inU; lia|].
  exists (b1 ++ b2 ++ []). split_and!.
  - intros out. unfold write_slot. cbn [src dst_frame_off]. by rewrite Hw1, Hw2, app_nil_r, (assoc_L (++)).
  - rewrite app_nil_r, zlen_app. pose proof (zlen_nonneg b1). lia.
  - assert (Hd' : d = - i32 (- d)).
    { rewrite wrapS_id; [lia|lia|]. unfold inS. change (32 - 1) with 31. lia. }
    replace (MkSlot s d) with (MkSlot s (- i32 (- d))) by (by rewrite <- Hd').
    change (reads read_slot (b1 ++ b2 ++ []) (MkSlot s (- i32 (- d)))).
    eapply (reads_bind read_src); [exact Hr1|].
    eapply (reads_bind read_uleb); [exact Hr2|]. apply reads_ret.
Qed.

(** The OSR map survives packing: a map whose fields are in range packs,
    and the blob unpacks to the same map, sources and frame offsets in buffer
    order. *)
Theorem osr_map_roundtrip m (Hb : inU 16 (osr_bci m)) (He : inU 32 (entry_off m))
    (Hf : inU 32 (frame_words m)) (Hs : Forall slot_ok (slots m)) (Hn : inU 64 (zlen (slots m))) :
  exists blob, pack m = Some blob /\ unpack blob = Some m.
Proof.
  destruct (codec _ (inU_16_64 _ Hb)) as (b1 & Hw1 & _ & Hr1).
  destruct (codec _ (inU_32_64 _ He)) as (b2 & Hw2 & _ & Hr2).
  destruct (codec _ (inU_32_64 _ Hf)) as (b3 & Hw3 & _ & Hr3).
  destruct (counted_codec write_slot read_slot slot_ok _ Hs Hn) as (b4 & Hw4 & _ & Hr4).
  unfold pack. destruct (existsb _ _) eqn:Hex.
  { apply existsb_exists in Hex as (s & Hin & H0%Z.leb_le). apply list_elem_of_In in Hin.
    rewrite Forall_forall in Hs. destruct (Hs _ Hin). lia. }
  eexists. split; [done|]. rewrite Hw4, Hw3, Hw2, Hw1. cbn [app]. rewrite <- !(assoc_L (++)).
  unfold unpack. pose proof (Hr1 [] (b2 ++ b3 ++ b4)) as E1. cbn [app] in E1.
  change (zlen []) with 0 in E1. rewrite E1. cbn [mbind option_bind].
  specialize (Hr2 b1 (b3 ++ b4)). rewrite Z.add_0_l, Hr2. cbn [mbind option_bind].
  specialize (Hr3 (b1 ++ b2) b4). rewrite zlen_app, <- (assoc_L (++)) in Hr3. rewrite Hr3.
  cbn [mbind option_bind].
  specialize (Hr4 (b1 ++ b2 ++ b3) []). rewrite app_nil_r, !zlen_app, <- !(assoc_L (++)) in Hr4.
  rewrite <- Z.add_assoc.
  revert Hr4.
  destruct (read_uleb (b1 ++ b2 ++ b3 ++ b4) (zlen b1 + (zlen b2 + zlen b3))) as [[n p]|]; [|done].
  cbn [mbind option_bind]. intros Hr4. rewrite Hr4. cbn [mbind option_bind].
  rewrite !wrapU_id by done. by destruct m.
Qed.

Lemma osr_map_roundtrip_witness :
  let m := MkMap 40 1024 12 [MkSlot Receiver (-8); MkSlot (Slot 300) (-16); MkSlot Context_ (-8000);
             MkSlot (StackSlot 1) (-24)] in
  exists blob, pack m = Some blob /\ unpack blob = Some m.
Proof.
  intros m. apply (osr_map_roundtrip m);
    try (split; [discriminate|reflexivity]).
  apply (bool_decide_unpack (Forall slot_ok (slots m))). vm_compute. exact I.
Defined.
End Osr.
