(* ===== verification/OopMaps.v ===== *)
(** What the collector and the deoptimizer know about a compiled frame: the
    bit set of live oop slots ([src/src/codecache/nmethod.rs]), its
    construction from live intervals and its interning
    ([src/src/compiler/oopmap.rs]), and the location of a virtual register at
    a safepoint ([resolve_frame_loc] in [src/src/compiler/scopes.rs]). *)
From S2P Require Import Prelude Codec Scopes.

(** ** The bit set (codecache/nmethod.rs) *)
Module OopMap.
(** [bits], 64 slots to a word. *)
Definition oop_map := list Z.
Definition empty : oop_map := [].

(** [resize]. *)
Definition resize (m : oop_map) (n : Z) : oop_map := m ++ replicate (Z.to_nat (n - zlen m)) 0.

Definition set (slot : Z) (m : oop_map) : oop_map :=
  let word := slot / 64 in
  let m := if zlen m <=? word then resize m (word + 1) else m in
  zinsert m word (Z.lor (default 0 (zlookup m word)) (u64 (Z.shiftl 1 (slot mod 64)))).

Definition is_oop (m : oop_map) (slot : Z) : bool :=
  match zlookup m (slot / 64) with
  | Some w => negb (Z.land (Z.shiftr w (slot mod 64)) 1 =? 0)
  | None => false
  end.

(** The set bits of word [w], the words from index [n] on. *)
Fixpoint iter_words (n : Z) (m : oop_map) : list Z :=
  match m with
  | [] => []
  | word :: m =>
      ((fun b => u16 (n * 64) + b) <$>
         filter (fun b => negb (Z.land (Z.shiftr word b) 1 =? 0)) (zrange 0 64)) ++
      iter_words (n + 1) m
  end.
Definition iter_slots (m : oop_map) : list Z := iter_words 0 m.

Lemma bit_testbit w b : 0 <= b -> negb (Z.land (Z.shiftr w b) 1 =? 0) = Z.testbit w b.
Proof.
  intros Hb. change 1 with (Z.shiftl 1 0) at 1. rewrite flag_get by done.
  rewrite Z.shiftr_spec by done. done.
Qed.

Lemma u64_bit b : 0 <= b < 64 -> u64 (Z.shiftl 1 b) = Z.shiftl 1 b.
Proof.
  intros Hb. apply (wrapU_shiftl 64 1); try lia. unfold inU. lia.
Qed.

Lemma testbit_one_shift b i : 0 <= b -> 0 <= i -> Z.testbit (Z.shiftl 1 b) i = (i =? b).
Proof.
  intros Hb Hi. rewrite Z.shiftl_spec by done. destruct (Z.eqb_spec i b) as [->|Hne].
  - by rewrite Z.sub_diag.
  - destruct (Z.ltb_spec i b); [by rewrite Z.testbit_neg_r by lia|].
    apply (testbit_high 1); [unfold inU; lia|lia].
Qed.

Lemma zlookup_resize m n i : zlen m <= n -> 0 <= i < n ->
  default 0 (zlookup (resize m n) i) = default 0 (zlookup m i) /\ zlen (resize m n) = n.
Proof.
  intros Hn Hi. unfold resize. pose proof (zlen_nonneg m) as H0.
  assert (Hl : zlen (replicate (Z.to_nat (n - zlen m)) 0) = n - zlen m)
    by (unfold zlen at 1; rewrite length_replicate; lia).
  split; [|rewrite zlen_app; lia].
  destruct (decide (i < zlen m)) as [Hlt|Hge]; [by rewrite zlookup_app_l|].
  rewrite zlookup_app_r by lia. unfold zlookup at 2. destruct (Z.ltb_spec i 0); [lia|].
  rewrite (lookup_ge_None_2 m) by (unfold zlen in *; lia). cbn.
  unfold zlookup. destruct (Z.ltb_spec (i - zlen m) 0); [done|].
  rewrite lookup_replicate_2 by lia. done.
Qed.

Lemma is_oop_bit m s : 0 <= s -> is_oop m s = Z.testbit (default 0 (zlookup m (s / 64))) (s mod 64).
Proof.
  intros Hs. unfold is_oop. pose proof (Z.mod_pos_bound s 64).
  destruct (zlookup m (s / 64)) as [w|]; cbn [default from_option id]; [apply bit_testbit; lia|].
  by rewrite Z.bits_0.
Qed.

(** Setting a slot sets that slot's bit and no other. *)
Lemma is_oop_set m s s' : 0 <= s -> 0 <= s' -> is_oop (set s m) s' = (s' =? s) || is_oop m s'.
Proof.
  intros Hs Hs'. rewrite !is_oop_bit by done. unfold set.
  pose proof (Z.mod_pos_bound s 64). pose proof (Z.mod_pos_bound s' 64).
  assert (0 <= s / 64 /\ 0 <= s' / 64) by (split; apply Z.div_pos; lia).
  set (m' := if zlen m <=? s / 64 then resize m (s / 64 + 1) else m).
  assert (Hm' : s / 64 < zlen m' /\ forall i, default 0 (zlookup m' i) = default 0 (zlookup m i)).
  { unfold m'. destruct (Z.leb_spec (zlen m) (s / 64)) as [Hle|Hgt]; [|done].
    destruct (zlookup_resize m (s / 64 + 1) (s / 64)) as [_ Hl]; [lia|lia|]. split; [lia|].
    intros i. destruct (decide (0 <= i < s / 64 + 1)); [by apply zlookup_resize; lia|].
    unfold zlookup. destruct (Z.ltb_spec i 0); [done|].
    rewrite !lookup_ge_None_2; [done|unfold zlen in *; lia|unfold zlen in *; lia]. }
  destruct Hm' as [Hlen Hlk]. rewrite Hlk, u64_bit by lia.
  destruct (decide (s / 64 = s' / 64)) as [Heq|Hne].
  - rewrite <- Heq, zlookup_zinsert by lia. cbn [default from_option id].
    rewrite Z.lor_spec, testbit_one_shift by lia.
    rewrite orb_comm. f_equal. destruct (Z.eqb_spec (s' mod 64) (s mod 64)), (Z.eqb_spec s' s); try done;
      exfalso; Z.div_mod_to_equations; lia.
  - rewrite zlookup_zinsert_ne by lia. rewrite Hlk.
    destruct (Z.eqb_spec s' s) as [->|]; [done|done].
Qed.

Lemma is_oop_empty s : is_oop empty s = false.
Proof. unfold is_oop, zlookup. by destruct (_ <? _). Qed.

Lemma elem_of_iter_words m : forall n s, 0 <= n -> n + zlen m <= 1024 ->
  s ∈ iter_words n m <-> 64 * n <= s /\ is_oop m (s - 64 * n) = true.
Proof.
  induction m as [|w m IH]; intros n s Hn Hl; cbn [iter_words].
  - rewrite is_oop_empty. split; [by intros ?%elem_of_nil|by intros [_ ?]].
  - rewrite zlen_cons in Hl. pose proof (zlen_nonneg m).
    rewrite elem_of_app, list_elem_of_fmap, IH by lia. rewrite wrapU_id by (unfold inU; lia).
    split.
    + intros [(b & -> & [Hb Hin]%list_elem_of_filter)|[Hle Ho]].
      * apply elem_of_zrange in Hin. split; [lia|]. rewrite is_oop_bit by lia.
        replace (n * 64 + b - 64 * n) with b by lia. rewrite Z.div_small, Z.mod_small by lia.
        apply Is_true_true in Hb. by rewrite bit_testbit in Hb by lia.
      * split; [lia|]. rewrite is_oop_bit in * by lia.
        replace (s - 64 * n) with (s - 64 * (n + 1) + 1 * 64) by lia.
        rewrite Z.div_add, Z.mod_add by lia. change (w :: m) with ([w] ++ m).
        rewrite zlookup_app_r; [|unfold zlen; cbn; pose proof (Z.div_pos (s - 64 * (n + 1)) 64); lia].
        change (zlen [w]) with 1. by rewrite Z.add_simpl_r.
    + intros [Hle Ho]. destruct (decide (s < 64 * (n + 1))) as [Hlt|Hge].
      * left. exists (s - 64 * n). split; [lia|]. apply list_elem_of_filter.
        rewrite elem_of_zrange. split; [|lia]. apply Is_true_true. rewrite bit_testbit by lia.
        rewrite is_oop_bit in Ho by lia. by rewrite Z.div_small, Z.mod_small in Ho by lia.
      * right. split; [lia|]. rewrite is_oop_bit in * by lia.
        replace (s - 64 * n) with (s - 64 * (n + 1) + 1 * 64) in Ho by lia.
        rewrite Z.div_add, Z.mod_add in Ho by lia. change (w :: m) with ([w] ++ m) in Ho.
        rewrite zlookup_app_r in Ho; [|unfold zlen; cbn; pose proof (Z.div_pos (s - 64 * (n + 1)) 64); lia].
        change (zlen [w]) with 1 in Ho. by rewrite Z.add_simpl_r in Ho.
Qed.
End OopMap.

(** ** Maps from live intervals (compiler/oopmap.rs) *)
Module Maps.
Inductive Assignment := Reg (r : Z) | Spill (slot : Z).

Record LiveInterval := MkInterval {
  vreg : Z; start : Z; end_ : Z; iv_is_oop : bool; is_fp : bool;
  crosses_safepoint : bool; crosses_call : bool;
  assignment : option Assignment; resident_reg : option Z }.
(** An interval of which only what these passes read matters. *)
Definition interval_at (v s e : Z) (oop fp : bool) (a : option Assignment) : LiveInterval :=
  MkInterval v s e oop fp false false a None.

Definition fact_at (extra : list (Z * Z)) (v pos : Z) : bool :=
  existsb (fun f => (f.1 =? v) && (f.2 =? pos)) extra.

(** [debug_assert!(slot < frame_slots)] is the [None]. *)
Fixpoint build_from (ivs : list LiveInterval) (frame_slots position : Z) (extra : list (Z * Z))
    (map : OopMap.oop_map) : option OopMap.oop_map :=
  match ivs with
  | [] => Some map
  | iv :: ivs =>
      if negb (iv_is_oop iv) then build_from ivs frame_slots position extra map
      else
        match assignment iv with
        | Some (Spill slot) =>
            let live := ((start iv <? position) && (position <? end_ iv)) ||
                        fact_at extra (vreg iv) position in
            if live then
              if slot <? frame_slots
              then build_from ivs frame_slots position extra (OopMap.set slot map)
              else None
            else build_from ivs frame_slots position extra map
        | _ => build_from ivs frame_slots position extra map
        end
  end.
Definition build_for_position (ivs : list LiveInterval) (frame_slots position : Z)
    (extra : list (Z * Z)) : option OopMap.oop_map :=
  build_from ivs frame_slots position extra OopMap.empty.

#[export] Instance oop_map_eq_dec : EqDecision OopMap.oop_map.
Proof. unfold OopMap.oop_map. apply _. Defined.

Definition intern (maps : list OopMap.oop_map) (map : OopMap.oop_map) : Z * list OopMap.oop_map :=
  match list_find (fun m => m = map) maps with
  | Some (i, _) => (u16 (Z.of_nat i), maps)
  | None => (u16 (zlen (maps ++ [map]) - 1), maps ++ [map])
  end.

(** [verify] of one method's maps: [true] iff no assertion fails. *)
Definition verify (frame_slots : Z) (slot_is_oop : list bool) (maps : list OopMap.oop_map) : bool :=
  forallb (fun m => forallb (fun slot =>
    (slot <? frame_slots) && default false (zlookup slot_is_oop slot)) (OopMap.iter_slots m)) maps.

Fixpoint resolve_frame_loc (v pos : Z) (ivs : list LiveInterval) (extra : list (Z * Z)) : ValueLoc :=
  match ivs with
  | [] => NilLoc
  | iv :: ivs =>
      if (vreg iv =? v) && (((start iv <=? pos) && (pos <? end_ iv)) || fact_at extra v pos) then
        match assignment iv with
        | Some (Spill slot) =>
            let off := -8 * (slot + 1) in
            if is_fp iv then DoubleSlot off else FrameSlot off
        | _ => resolve_frame_loc v pos ivs extra
        end
      else resolve_frame_loc v pos ivs extra
  end.

(** The slots regalloc marked as oop slots, for the verifier. *)
Definition traced (ivs : list LiveInterval) (position : Z) (extra : list (Z * Z)) (slot : Z) : Prop :=
  exists iv, iv ∈ ivs /\ iv_is_oop iv = true /\ assignment iv = Some (Spill slot) /\
    (start iv < position < end_ iv \/ fact_at extra (vreg iv) position = true).

Definition slots_ok (frame_slots : Z) (iv : LiveInterval) : Prop :=
  match assignment iv with Some (Spill s) => 0 <= s < frame_slots | _ => True end.

Lemma live_iff iv position extra :
  ((start iv <? position) && (position <? end_ iv)) || fact_at extra (vreg iv) position = true <->
  start iv < position < end_ iv \/ fact_at extra (vreg iv) position = true.
Proof. rewrite orb_true_iff, andb_true_iff, !Z.ltb_lt. tauto. Qed.

Lemma build_from_spec ivs frame_slots position extra : Forall (slots_ok frame_slots) ivs ->
  forall map, exists map', build_from ivs frame_slots position extra map = Some map' /\
  forall s, 0 <= s -> OopMap.is_oop map' s = true <-> OopMap.is_oop map s = true \/ traced ivs position extra s.
Proof.
  induction 1 as [|iv ivs Hiv HF IH]; intros map; cbn [build_from].
  - exists map. split; [done|]. intros s Hs. unfold traced. split; [by left|].
    intros [?|(iv & Hin%elem_of_nil & _)]; done.
  - assert (Hskip : (forall s, ~ (iv_is_oop iv = true /\ assignment iv = Some (Spill s) /\
        (start iv < position < end_ iv \/ fact_at extra (vreg iv) position = true))) ->
      exists map', build_from ivs frame_slots position extra map = Some map' /\
      forall s, 0 <= s -> OopMap.is_oop map' s = true <->
        OopMap.is_oop map s = true \/ traced (iv :: ivs) position extra s).
    { intros Hno. destruct (IH map) as (map' & H1 & H2). exists map'. split; [done|]. intros s Hs.
      rewrite H2 by done. split; (intros [?|(iv' & Hin & Ht)]; [by left|right]).
      - exists iv'. split; [by right|done].
      - apply elem_of_cons in Hin as [->|Hin]; [by destruct (Hno s)|]. by exists iv'. }
    destruct (iv_is_oop iv) eqn:Ho; cbn [negb]; [|apply Hskip; by intros s (? & _)].
    unfold slots_ok in Hiv. destruct (assignment iv) as [[r|slot]|] eqn:Ha;
      [apply Hskip; by intros s (_ & ? & _)| |apply Hskip; by intros s (_ & ? & _)].
    destruct (_ || fact_at _ _ _) eqn:Hlive.
    + apply live_iff in Hlive. destruct (Z.ltb_spec slot frame_slots); [|lia].
      destruct (IH (OopMap.set slot map)) as (map' & H1 & H2). exists map'. split; [done|].
      intros s Hs. rewrite H2, OopMap.is_oop_set, orb_true_iff, Z.eqb_eq by (done || lia).
      split.
      * intros [[->|?]|(iv' & Hin & Ht)]; [right; exists iv|by left|right; exists iv'].
        -- split; [left|done].
        -- split; [by right|done].
      * intros [?|(iv' & Hin & Ho' & Ha' & Ht)]; [by left; right|].
        apply elem_of_cons in Hin as [->|Hin]; [left; left; congruence|right; by exists iv'].
    + apply Hskip. intros s (_ & _ & Ht). apply live_iff in Ht. congruence.
Qed.

(** C29. The oop map of a safepoint is exact: it is built whenever every spill
    slot lies in the frame, it marks exactly the slots of the oop intervals
    live strictly across the position or named there by a deopt fact, and the
    collector's iteration yields exactly the marked slots. *)
Theorem oop_map_exact ivs frame_slots position extra
    (Hslots : Forall (slots_ok frame_slots) ivs) :
  exists map, build_for_position ivs frame_slots position extra = Some map /\
    (forall s, 0 <= s -> OopMap.is_oop map s = true <-> traced ivs position extra s) /\
    (zlen map <= 1024 -> forall s, s ∈ OopMap.iter_slots map <-> 0 <= s /\ traced ivs position extra s).
Proof.
  destruct (build_from_spec ivs frame_slots position extra Hslots OopMap.empty) as (map & H1 & H2).
  assert (H3 : forall s, 0 <= s -> OopMap.is_oop map s = true <-> traced ivs position extra s).
  { intros s Hs. rewrite H2, OopMap.is_oop_empty by done. split; [by intros [?|?]|by right]. }
  exists map. split_and!; [done|done|]. intros Hl s. unfold OopMap.iter_slots.
  rewrite OopMap.elem_of_iter_words by lia. rewrite Z.mul_0_r, Z.sub_0_r.
  split; intros [? ?]; (split; [done|]); by apply H3.
Qed.

Definition demo_ivs : list LiveInterval :=
  [interval_at 1 0 20 true false (Some (Spill 0)); interval_at 2 8 30 true false (Some (Spill 70));
   interval_at 3 2 12 false true (Some (Spill 2)); interval_at 4 0 8 true false (Some (Reg 3))].

Lemma oop_map_exact_witness : exists map,
  build_for_position demo_ivs 71 8 [(2, 8)] = Some map /\ OopMap.iter_slots map = [0; 70] /\
  (forall s, 0 <= s -> OopMap.is_oop map s = true <-> traced demo_ivs 8 [(2, 8)] s).
Proof.
  destruct (oop_map_exact demo_ivs 71 8 [(2, 8)]) as (map & H1 & H2 & _).
  - repeat constructor; discriminate.
  - exists map. split; [exact H1|]. split; [|exact H2]. vm_compute in H1. injection H1 as <-. reflexivity.
Defined.

Lemma resolve_frame_sound v pos ivs extra off :
  resolve_frame_loc v pos ivs extra = FrameSlot off -> exists iv slot,
  iv ∈ ivs /\ vreg iv = v /\ is_fp iv = false /\ assignment iv = Some (Spill slot) /\
  off = -8 * (slot + 1) /\ (start iv <= pos < end_ iv \/ fact_at extra v pos = true).
Proof.
  induction ivs as [|iv ivs IH]; cbn [resolve_frame_loc]; [done|]. intros H.
  assert (Hlift : resolve_frame_loc v pos ivs extra = FrameSlot off -> exists iv0 slot,
    iv0 ∈ iv :: ivs /\ vreg iv0 = v /\ is_fp iv0 = false /\ assignment iv0 = Some (Spill slot) /\
    off = -8 * (slot + 1) /\ (start iv0 <= pos < end_ iv0 \/ fact_at extra v pos = true)).
  { intros H'. destruct (IH H') as (i & s & Hin & Hr). exists i, s. split; [by right|done]. }
  destruct (_ && _) eqn:E; [|auto]. destruct (assignment iv) as [[r|slot]|] eqn:Ha; [auto| |auto].
  destruct (is_fp iv) eqn:Hfp; [done|]. injection H as <-.
  rewrite andb_true_iff, orb_true_iff, andb_true_iff, Z.eqb_eq, Z.leb_le, Z.ltb_lt in E.
  exists iv, slot. split_and!; [left|tauto..].
Qed.

(** What the deoptimizer reads as an oop the collector keeps current: a
    virtual register that deopt metadata places in a frame slot at a
    safepoint lies in a slot of the safepoint's oop map, provided the
    register's intervals hold oops unless they are unboxed floats and none of
    them starts at the safepoint itself. *)
Theorem deopt_slots_traced v pos ivs extra frame_slots off
    (Hslots : Forall (slots_ok frame_slots) ivs)
    (Hoop : forall iv, iv ∈ ivs -> vreg iv = v -> is_fp iv = false -> iv_is_oop iv = true)
    (Hstart : forall iv, iv ∈ ivs -> vreg iv = v -> start iv <> pos)
    (Hloc : resolve_frame_loc v pos ivs extra = FrameSlot off) :
  exists map slot, build_for_position ivs frame_slots pos extra = Some map /\
    off = -8 * (slot + 1) /\ 0 <= slot < frame_slots /\ OopMap.is_oop map slot = true.
Proof.
  destruct (build_from_spec ivs frame_slots pos extra Hslots OopMap.empty) as (map & H1 & H2).
  destruct (resolve_frame_sound _ _ _ _ _ Hloc) as (iv & slot & Hin & Hv & Hfp & Ha & Hoff & Hlive).
  rewrite Forall_forall in Hslots. specialize (Hslots _ Hin). unfold slots_ok in Hslots. rewrite Ha in Hslots.
  exists map, slot. split_and!; [done|done|lia|lia|]. apply H2; [lia|]. right.
  exists iv. split_and!; [done|by apply Hoop|done|]. rewrite Hv.
  destruct Hlive as [Hl|]; [left|by right]. specialize (Hstart _ Hin Hv). lia.
Qed.

Lemma deopt_slots_traced_witness :
  resolve_frame_loc 1 8 demo_ivs [] = FrameSlot (-8) /\ exists map slot,
    build_for_position demo_ivs 71 8 [] = Some map /\
    -8 = -8 * (slot + 1) /\ 0 <= slot < 71 /\ OopMap.is_oop map slot = true.
Proof.
  split; [reflexivity|]. apply (deopt_slots_traced 1 8 demo_ivs [] 71 (-8)).
  - repeat constructor; discriminate.
  - intros iv Hin Hv Hf. repeat (apply elem_of_cons in Hin as [->|Hin]; [first [reflexivity|discriminate]|]).
    by apply elem_of_nil in Hin.
  - intros iv Hin Hv. repeat (apply elem_of_cons in Hin as [->|Hin]; [first [discriminate|discriminate Hv]|]).
    by apply elem_of_nil in Hin.
  - reflexivity.
Defined.

(** Interning never changes what a safepoint's index means: the answered
    index names the map, the existing entries keep their indices, and a map
    already present adds no entry. *)
Theorem intern_correct maps map i maps'
    (Hsize : zlen maps < 65536) (Hi : intern maps map = (i, maps')) :
  zlookup maps' i = Some map /\ maps `prefix_of` maps' /\
  (map ∈ maps -> maps' = maps) /\ (NoDup maps -> NoDup maps').
Proof.
  unfold intern in Hi. destruct (list_find _ maps) as [[n m]|] eqn:Hf; injection Hi as <- <-.
  - apply list_find_Some in Hf as (Hn & -> & _). apply lookup_lt_Some in Hn as Hlt.
    rewrite wrapU_id by (unfold inU, zlen in *; lia). split_and!; try done.
    unfold zlookup. destruct (Z.ltb_spec (Z.of_nat n) 0); [lia|]. by rewrite Nat2Z.id.
  - apply list_find_None in Hf. rewrite Forall_forall in Hf.
    pose proof (zlen_nonneg maps). rewrite zlen_app. change (zlen [map]) with 1.
    rewrite wrapU_id by (unfold inU; lia). rewrite Z.add_simpl_r. split_and!.
    + apply zlookup_mid.
    + by apply prefix_app_r.
    + intros Hin. by destruct (Hf _ Hin).
    + intros Hnd. apply NoDup_app. split_and!; [done| |apply NoDup_singleton].
      intros x Hx ->%list_elem_of_singleton. by destruct (Hf _ Hx).
Qed.

Lemma intern_correct_witness : let maps := [[]; [5]] in
  intern maps [9; 1] = (2, [[]; [5]; [9; 1]]) /\
  zlookup [[]; [5]; [9; 1]] 2 = Some [9; 1].
Proof.
  intros maps. split; [reflexivity|]. by apply (intern_correct maps [9; 1] 2 [[]; [5]; [9; 1]]).
Defined.
End Maps.
