(* ===== verification/Lexer.v ===== *)
(** The lexer of the Smalltalk front end ([src/src/frontend/lexer.rs]).

    A character is its Unicode scalar value; the input is the list of the
    characters still to be read, with the byte position, line and byte column
    the source keeps beside it.  Line and column are [u32] and wrap as in a
    build without overflow checks; a build with them panics where the model
    wraps, and [fits] says when neither can happen.  The standard library's parser for [f64] is
    the argument [parse_f64] (decimal text to a value of an abstract type), its
    negation [neg_f64].  A lexer error carries the source's span and
    end-of-input flag; its message text is a constructor per error site. *)
From Stdlib Require Import String Ascii.
From S2P Require Import Prelude.
#[local] Open Scope Z_scope.
#[local] Open Scope list_scope.

(** ** Characters *)
Module Char.
Definition of_ascii (a : ascii) : Z := Z.of_N (N_of_ascii a).
Definition chars (s : string) : list Z := of_ascii <$> list_ascii_of_string s.
Definition ch (a : ascii) : Z := of_ascii a.

Definition in_range (lo hi c : Z) : bool := (lo <=? c) && (c <=? hi).
Definition is_ascii_digit (c : Z) : bool := in_range 48 57 c.
Definition is_ascii_uppercase (c : Z) : bool := in_range 65 90 c.
Definition is_ascii_lowercase (c : Z) : bool := in_range 97 122 c.
Definition is_ascii_alphabetic (c : Z) : bool := is_ascii_uppercase c || is_ascii_lowercase c.
Definition is_ascii_alphanumeric (c : Z) : bool := is_ascii_alphabetic c || is_ascii_digit c.

(** Unicode's White_Space property. *)
Definition is_whitespace (c : Z) : bool :=
  in_range 9 13 c || (c =? 32) || (c =? 0x85) || (c =? 0xA0) || (c =? 0x1680) ||
  in_range 0x2000 0x200A c || (c =? 0x2028) || (c =? 0x2029) || (c =? 0x202F) ||
  (c =? 0x205F) || (c =? 0x3000).

Definition len_utf8 (c : Z) : Z :=
  if c <? 0x80 then 1 else if c <? 0x800 then 2 else if c <? 0x10000 then 3 else 4.

Definition to_ascii_lowercase (c : Z) : Z := if is_ascii_uppercase c then c + 32 else c.

(** [char::to_digit(36)]. *)
Definition to_digit36 (c : Z) : option Z :=
  if is_ascii_digit c then Some (c - 48)
  else if is_ascii_lowercase c then Some (c - 97 + 10)
  else if is_ascii_uppercase c then Some (c - 65 + 10)
  else None.

(** [str::parse::<u32>] on decimal digits. *)
Definition decimal (digits : list Z) : Z := foldl (fun n c => 10 * n + (c - 48)) 0 digits.
Definition parse_u32 (digits : list Z) : option Z :=
  match digits with
  | [] => None
  | _ => if decimal digits <? 2 ^ 32 then Some (decimal digits) else None
  end.

Definition BINARY_CHARS : list Z := chars "+-*/\~<>=&|@%,?!".
Definition is_binary_char (c : Z) : bool := bool_decide (c ∈ BINARY_CHARS).
End Char.
Export Char.

(** Both fields are [u32]. *)
Record Span := MkSpan { line : Z; col : Z }.

(** ** Tokens and errors; [F] is the type of [f64] *)
Inductive Tok {F : Type} :=
  | Ident (s : list Z)
  | Keyword (s : list Z)
  | BinarySel (s : list Z)
  | IntLit (negative : bool) (radix : Z) (digits : list Z)
  | ScaledLit (negative : bool) (int_digits frac_digits : list Z) (scale : Z)
  | FloatLit (v : F)
  | CharLit (c : Z)
  | StrLit (s : list Z)
  | SymLit (s : list Z)
  | LitArrayOpen | ByteArrayOpen
  | LParen | RParen | LBracket | RBracket | LBrace | RBrace
  | VBar | Semi | Period | Caret | Assign | Colon | Eof.
Arguments Tok F : clear implicits.

#[export] Instance Tok_eq_dec {F} `{!EqDecision F} : EqDecision (Tok F).
Proof. solve_decision. Defined.

Inductive lex_msg :=
  | MUnterminatedComment
  | MScaleTooLarge
  | MRadixRange (radix : Z)
  | MRadixNoDigits
  | MRadixDigit (c radix : Z)
  | MMalformedFloat (text : list Z)
  | MExponentTooLarge
  | MExponentLimit
  | MCharAtEof
  | MUnterminatedString
  | MInvalidHash
  | MUnexpectedChar (c : Z).

Record LexError := MkLexError { e_span : Span; e_msg : lex_msg; e_eof : bool }.

Module Lexer.
Record lexer := MkLexer {
  rest : list Z;
  pos : Z;
  l_line : Z;
  l_col : Z;
  prev_ends_expr : bool;
  pragma_mode : bool;
  in_literal_seq : bool }.

Definition new (input : list Z) : lexer := MkLexer input 0 1 1 false false false.

Definition set_pragma_mode (v : bool) (l : lexer) : lexer :=
  MkLexer (rest l) (pos l) (l_line l) (l_col l) (prev_ends_expr l) v (in_literal_seq l).
Definition set_in_literal_seq (v : bool) (l : lexer) : lexer :=
  MkLexer (rest l) (pos l) (l_line l) (l_col l) (prev_ends_expr l) (pragma_mode l) v.
Definition set_prev_ends_expr (v : bool) (l : lexer) : lexer :=
  MkLexer (rest l) (pos l) (l_line l) (l_col l) v (pragma_mode l) (in_literal_seq l).

Definition peek_char (l : lexer) : option Z := head (rest l).
Definition peek_char_at (l : lexer) (n : nat) : option Z := rest l !! n.
Definition here (l : lexer) : Span := MkSpan (l_line l) (l_col l).

Definition NEWLINE : Z := 10.

(** [bump], without the answered character. *)
Definition bump (l : lexer) : lexer :=
  match rest l with
  | [] => l
  | c :: cs =>
      if c =? NEWLINE
      then MkLexer cs (pos l + len_utf8 c) (u32 (l_line l + 1)) 1
             (prev_ends_expr l) (pragma_mode l) (in_literal_seq l)
      else MkLexer cs (pos l + len_utf8 c) (l_line l) (u32 (l_col l + len_utf8 c))
             (prev_ends_expr l) (pragma_mode l) (in_literal_seq l)
  end.

Definition err (span : Span) (msg : lex_msg) : LexError := MkLexError span msg false.
Definition err_eof (span : Span) (msg : lex_msg) : LexError := MkLexError span msg true.

(** Results: [inl] is [Err], [inr] is [Ok] with the lexer's new state. *)
Definition res (A : Type) : Type := LexError + A * lexer.
Definition ret {A} (a : A) (l : lexer) : res A := inr (a, l).
Definition bind {A B} (m : res A) (k : A -> lexer -> res B) : res B :=
  match m with inl e => inl e | inr (a, l) => k a l end.
Notation "'let?' ( x , l ) := m 'in' k" := (bind m (fun x l => k))
  (at level 10, x name, l name, m at level 100, k at level 200).

Definition DQUOTE : Z := 34.
Definition QUOTE : Z := ch "'".

(** The two loops of [skip_trivia], over the characters still to be read:
    [comment] is the start of the comment the loop is inside of. *)
Fixpoint skip_from (comment : option Span) (cs : list Z) (l : lexer) : res unit :=
  match comment, cs with
  | None, [] => ret tt l
  | Some start, [] => inl (err_eof start MUnterminatedComment)
  | None, c :: cs =>
      if is_whitespace c then skip_from None cs (bump l)
      else if c =? DQUOTE then skip_from (Some (here l)) cs (bump l)
      else ret tt l
  | Some start, c :: cs =>
      if c =? DQUOTE then
        match cs with
        | c2 :: cs2 =>
            if c2 =? DQUOTE then skip_from (Some start) cs2 (bump (bump l))
            else skip_from None cs (bump l)
        | [] => skip_from None cs (bump l)
        end
      else skip_from (Some start) cs (bump l)
  end.
Definition skip_trivia (l : lexer) : res unit := skip_from None (rest l) l.

Fixpoint consume_from (pred : Z -> bool) (cs : list Z) (l : lexer) : list Z * lexer :=
  match cs with
  | c :: cs =>
      if pred c then let '(s, l) := consume_from pred cs (bump l) in (c :: s, l) else ([], l)
  | [] => ([], l)
  end.
Definition consume_while (pred : Z -> bool) (l : lexer) : list Z * lexer :=
  consume_from pred (rest l) l.

Definition is_ident_start (c : Z) : bool := is_ascii_alphabetic c || (c =? ch "_").
Definition is_ident_cont (c : Z) : bool := is_ascii_alphanumeric c || (c =? ch "_").

Definition peeks (l : lexer) (c : Z) : bool := bool_decide (peek_char l = Some c).
Definition peeks_at (l : lexer) (n : nat) (p : Z -> bool) : bool :=
  match peek_char_at l n with Some c => p c | None => false end.

(** *** The magnitude of an integer literal

    The digits are accumulated into little-endian bytes; a digit character
    outside [0-9A-Za-z] panics. *)
Fixpoint mul_add (radix carry : Z) (mag : list Z) : list Z * Z :=
  match mag with
  | [] => ([], carry)
  | byte :: mag =>
      let v := u32 (byte * radix + carry) in
      let '(mag, carry) := mul_add radix (Z.shiftr v 8) mag in (Z.land v 0xFF :: mag, carry)
  end.

(** The [while carry > 0] loop: a [u32] has four bytes. *)
Fixpoint carry_bytes (fuel : nat) (carry : Z) : list Z :=
  match fuel with
  | O => []
  | S fuel => if carry >? 0 then Z.land carry 0xFF :: carry_bytes fuel (Z.shiftr carry 8) else []
  end.

Fixpoint int_lit_from (radix : Z) (digits : list Z) (mag : list Z) : option (list Z) :=
  match digits with
  | [] => Some mag
  | c :: digits =>
      match to_digit36 c with
      | Some d =>
          let '(mag, carry) := mul_add radix d mag in
          int_lit_from radix digits (mag ++ carry_bytes 4 carry)
      | None => None
      end
  end.
Definition int_lit_magnitude (radix : Z) (digits : list Z) : option (list Z) :=
  int_lit_from radix digits [].

(** The value of little-endian bytes and of a run of digits. *)
Definition le_value (mag : list Z) : Z := foldr (fun b n => b + 256 * n) 0 mag.
Definition digits_value (radix : Z) (digits : list Z) : Z :=
  foldl (fun n c => radix * n + default 0 (to_digit36 c)) 0 digits.
Definition is_digit_of (radix c : Z) : Prop := exists d, to_digit36 c = Some d /\ 0 <= d < radix.
Definition canonical (mag : list Z) : Prop := list.last mag <> Some 0.

Lemma le_value_app m1 m2 : le_value (m1 ++ m2) = le_value m1 + 256 ^ zlen m1 * le_value m2.
Proof.
  unfold le_value. induction m1 as [|b m1 IH]; cbn [app foldr]; [change (zlen []) with 0; lia|].
  rewrite IH. replace (zlen (b :: m1)) with (zlen m1 + 1) by (unfold zlen; cbn [length]; lia).
  rewrite Z.pow_add_r by (unfold zlen; lia). lia.
Qed.

Lemma le_value_nonneg m : Forall (inU 8) m -> 0 <= le_value m.
Proof. unfold inU. induction 1 as [|b m Hb _ IH]; cbn; [done|]. unfold le_value in IH. lia. Qed.

Lemma low_byte v : 0 <= v -> v = Z.land v 0xFF + 256 * Z.shiftr v 8.
Proof.
  intros Hv. change 0xFF with (Z.ones 8). rewrite Z.land_ones, Z.shiftr_div_pow2 by lia.
  change (2 ^ 8) with 256. pose proof (Z.div_mod v 256). lia.
Qed.

Lemma land_byte v : inU 8 (Z.land v 0xFF).
Proof.
  unfold inU. change 0xFF with (Z.ones 8). rewrite Z.land_ones by lia. apply Z.mod_pos_bound. lia.
Qed.

Lemma mul_add_spec radix mag (Hr : 2 <= radix <= 36) (Hm : Forall (inU 8) mag) : forall carry,
  0 <= carry < radix ->
  let '(mag', carry') := mul_add radix carry mag in
  le_value mag' + 256 ^ zlen mag * carry' = radix * le_value mag + carry /\
  zlen mag' = zlen mag /\ Forall (inU 8) mag' /\ 0 <= carry' < radix.
Proof.
  induction Hm as [|b mag Hb Hm IH]; intros carry Hc; cbn [mul_add].
  - change (zlen []) with 0. cbn. split_and!; try done; lia.
  - unfold inU in Hb. change (2 ^ 8) with 256 in Hb.
    assert (Hv : 0 <= b * radix + carry < 256 * radix) by nia.
    rewrite wrapU_id by (unfold inU; change (2 ^ 32) with 4294967296; lia).
    set (v := b * radix + carry) in *. pose proof (low_byte v) as Hl.
    specialize (IH (Z.shiftr v 8)). destruct (mul_add radix (Z.shiftr v 8) mag) as [mag' carry'].
    pose proof (land_byte v) as Hlb. unfold inU in Hlb. change (2 ^ 8) with 256 in Hlb.
    destruct IH as (H1 & H2 & H3 & H4); [lia|].
    replace (zlen (b :: mag)) with (zlen mag + 1) by (unfold zlen; cbn [length]; lia).
    split_and!; [|unfold zlen in *; cbn [length]; lia|by constructor|lia|lia].
    cbn [le_value foldr] in *. fold (le_value mag) (le_value mag').
    rewrite Z.pow_add_r by (unfold zlen; lia). lia.
Qed.

Lemma carry_bytes_spec carry : 0 <= carry < 256 ->
  le_value (carry_bytes 4 carry) = carry /\ Forall (inU 8) (carry_bytes 4 carry) /\
  (0 < carry -> list.last (carry_bytes 4 carry) <> Some 0) /\ (carry = 0 -> carry_bytes 4 carry = []).
Proof.
  intros Hc. pose proof (low_byte carry) as Hl. pose proof (land_byte carry) as Hb.
  assert (Z.shiftr carry 8 = 0) as Hs.
  { rewrite Z.shiftr_div_pow2 by lia. apply Z.div_small. change (2 ^ 8) with 256. lia. }
  cbn [carry_bytes]. rewrite Hs, !Z.gtb_ltb in *. destruct (0 <? carry) eqn:E; cbn; split_and!; try done; try lia.
  - by apply Forall_singleton.
  - intros _ [= Hz]. lia.
Qed.

(** Multiplying a canonical magnitude keeps it canonical: its top byte and the
    carry out are not both zero. *)
Lemma mul_add_canonical radix mag (Hr : 2 <= radix <= 36) (Hm : Forall (inU 8) mag) : forall carry,
  0 <= carry < radix -> canonical mag -> mag <> [] ->
  let '(mag', carry') := mul_add radix carry mag in carry' = 0 -> canonical mag'.
Proof.
  induction Hm as [|b mag Hb Hm IH]; intros carry Hc Hcan Hne; [done|]. cbn [mul_add].
  unfold inU in Hb. change (2 ^ 8) with 256 in Hb.
  assert (Hv : 0 <= b * radix + carry < 256 * radix) by nia.
  rewrite wrapU_id by (unfold inU; change (2 ^ 32) with 4294967296; lia).
  set (v := b * radix + carry) in *. pose proof (low_byte v) as Hl.
  pose proof (land_byte v) as Hlb. unfold inU in Hlb. change (2 ^ 8) with 256 in Hlb.
  destruct mag as [|b2 mag].
  - cbn [mul_add]. unfold canonical in *. cbn in *. intros Hz [= Hz2].
    assert (b <> 0) by congruence. nia.
  - assert (Hc2 : 0 <= Z.shiftr v 8 < radix) by lia.
    specialize (IH (Z.shiftr v 8) Hc2). destruct (mul_add radix (Z.shiftr v 8) (b2 :: mag)) as [mag' carry'] eqn:E.
    intros Hz. unfold canonical in *. specialize (IH Hcan ltac:(done) Hz).
    pose proof (mul_add_spec radix (b2 :: mag) Hr Hm _ Hc2) as H. rewrite E in H. destruct H as (_ & H & _).
    destruct mag' as [|b' mag']; [by unfold zlen in H|]. done.
Qed.

Lemma int_lit_from_spec radix digits (Hr : 2 <= radix <= 36) : forall mag,
  Forall (is_digit_of radix) digits -> Forall (inU 8) mag -> canonical mag ->
  exists mag', int_lit_from radix digits mag = Some mag' /\ Forall (inU 8) mag' /\ canonical mag' /\
    le_value mag' = foldl (fun n c => radix * n + default 0 (to_digit36 c)) (le_value mag) digits.
Proof.
  induction digits as [|c digits IH]; intros mag Hd Hm Hcan; [by exists mag|].
  inversion Hd as [|? ? (d & Hc & Hdr) Hd']; subst. cbn [int_lit_from foldl]. rewrite Hc.
  change (default 0 (Some d)) with d.
  pose proof (mul_add_spec radix mag Hr Hm d Hdr) as Hs. pose proof (mul_add_canonical radix mag Hr Hm d Hdr Hcan) as Hk.
  destruct (mul_add radix d mag) as [mag1 carry] eqn:E. destruct Hs as (H1 & H2 & H3 & H4).
  destruct (carry_bytes_spec carry) as (C1 & C2 & C3 & C4); [lia|].
  destruct (IH (mag1 ++ carry_bytes 4 carry)) as (mag' & -> & K1 & K2 & K3); [done|by apply Forall_app| |].
  - destruct (Z.eq_dec carry 0) as [->|Hnz].
    + rewrite C4, app_nil_r by done. destruct mag as [|b mag]; [|by apply Hk].
      by cbn in E; simplify_eq.
    + unfold canonical. rewrite last_app. specialize (C3 ltac:(lia)).
      destruct (carry_bytes 4 carry) as [|x xs] eqn:Ec; [|].
      * cbn in C1. lia.
      * destruct (list.last (x :: xs)) eqn:El; [done|]. by apply last_None in El.
  - exists mag'. split_and!; try done. rewrite K3, le_value_app, C1, H2. f_equal. lia.
Qed.

Lemma int_lit_magnitude_value radix digits : 2 <= radix <= 36 -> Forall (is_digit_of radix) digits ->
  exists mag, int_lit_magnitude radix digits = Some mag /\ Forall (inU 8) mag /\ canonical mag /\
    le_value mag = digits_value radix digits.
Proof. intros Hr Hd. by apply int_lit_from_spec. Qed.

Section tokens.
Context {F : Type} (parse_f64 : list Z -> option F) (neg_f64 : F -> F).

Definition tok_ends_expr (t : Tok F) : bool :=
  match t with
  | Ident _ | IntLit _ _ _ | ScaledLit _ _ _ _ | FloatLit _ | CharLit _ | StrLit _ | SymLit _
  | RParen | RBracket | RBrace => true
  | _ => false
  end.

Definition lex_ident_or_keyword (l : lexer) : Tok F * lexer :=
  let '(ident, l) := consume_while is_ident_cont l in
  if peeks l (ch ":") && negb (peeks_at l 1 (Z.eqb (ch "=")))
  then (Keyword (ident ++ [ch ":"]), bump l)
  else (Ident ident, l).

Definition consume_radix_digit_run (l : lexer) : list Z * lexer :=
  consume_while (fun c => is_ascii_digit c || is_ascii_uppercase c) l.

Definition try_consume_exponent (l : lexer) : option (Z * bool * list Z) * lexer :=
  match peek_char l with
  | Some c =>
      let marker := to_ascii_lowercase c in
      if (marker =? ch "e") || (marker =? ch "d") then
        let neg := peeks_at l 1 (Z.eqb (ch "-")) in
        let first_digit_offset := if neg then 2%nat else 1%nat in
        if peeks_at l first_digit_offset is_ascii_digit then
          let l := bump l in
          let l := if neg then bump l else l in
          let '(digits, l) := consume_while is_ascii_digit l in
          (Some (marker, neg, digits), l)
        else (None, l)
      else (None, l)
  | None => (None, l)
  end.

Definition try_consume_scale (default : Z) (start : Span) (l : lexer) : res (option Z) :=
  if negb (peeks l (ch "s")) then ret None l
  else
    match peek_char_at l 1 with
    | Some c =>
        if is_ascii_digit c then
          let l := bump l in
          let '(digits, l) := consume_while is_ascii_digit l in
          match parse_u32 digits with
          | None => inl (err start MScaleTooLarge)
          | Some scale =>
              if 65535 <? scale then inl (err start MScaleTooLarge) else ret (Some scale) l
          end
        else if is_ident_cont c || (c =? ch ":") then ret None l
        else ret (Some default) (bump l)
    | None => ret (Some default) (bump l)
    end.

(** Every character of a radix run is a digit or a capital, so [to_digit36]
    answers ([expect] in the source). *)
Fixpoint check_radix_digits (start : Span) (radix : Z) (ds : list Z) : option LexError :=
  match ds with
  | [] => None
  | c :: ds =>
      match to_digit36 c with
      | Some d =>
          if radix <=? d then Some (err start (MRadixDigit c radix))
          else check_radix_digits start radix ds
      | None => Some (err start (MRadixDigit c radix))
      end
  end.

Definition exponent_text (neg : bool) (digits : list Z) : list Z :=
  [ch "e"] ++ (if neg then [ch "-"] else []) ++ digits.

Definition float_token (negative : bool) (start : Span) (text : list Z) (l : lexer) : res (Tok F) :=
  match parse_f64 text with
  | None => inl (err start (MMalformedFloat text))
  | Some v => ret (FloatLit (if negative then neg_f64 v else v)) l
  end.

Definition lex_radix (negative : bool) (start : Span) (lead : list Z) (l : lexer) : res (Tok F) :=
  let radix_val := match parse_u32 lead with Some v => v | None => 0 end in
  if negb ((2 <=? radix_val) && (radix_val <=? 36)) then inl (err start (MRadixRange radix_val))
  else
    let l := bump l in
    let '(rdigits, l) := consume_radix_digit_run l in
    match rdigits with
    | [] => inl (err start MRadixNoDigits)
    | _ =>
        match check_radix_digits start radix_val rdigits with
        | Some e => inl e
        | None => ret (IntLit negative (u8 radix_val) rdigits) l
        end
    end.

Definition lex_fraction (negative : bool) (start : Span) (lead : list Z) (l : lexer) : res (Tok F) :=
  let l := bump l in
  let '(frac, l) := consume_while is_ascii_digit l in
  let? (scale, l) := try_consume_scale (Z.min (zlen frac) 65535) start l in
  match scale with
  | Some scale => ret (ScaledLit negative lead frac scale) l
  | None =>
      let text := lead ++ [ch "."] ++ frac in
      let '(e, l) := try_consume_exponent l in
      let text := match e with
                  | Some (_, neg, digits) => text ++ exponent_text neg digits
                  | None => text
                  end in
      float_token negative start text l
  end.

Definition lex_integer (negative : bool) (start : Span) (lead : list Z) (l : lexer) : res (Tok F) :=
  let? (scale, l) := try_consume_scale 0 start l in
  match scale with
  | Some scale => ret (ScaledLit negative lead [] scale) l
  | None =>
      let '(e, l) := try_consume_exponent l in
      match e with
      | Some (marker, neg, exp_digits) =>
          if (marker =? ch "e") && negb neg then
            match parse_u32 exp_digits with
            | None => inl (err start MExponentTooLarge)
            | Some exp =>
                if 10000 <? exp then inl (err start MExponentLimit)
                else ret (IntLit negative 10 (lead ++ replicate (Z.to_nat exp) (ch "0"))) l
            end
          else float_token negative start (lead ++ exponent_text neg exp_digits) l
      | None => ret (IntLit negative 10 lead) l
      end
  end.

Definition lex_number (negative : bool) (start : Span) (l : lexer) : res (Tok F) :=
  let '(lead, l) := consume_while is_ascii_digit l in
  if peeks l (ch "r") then lex_radix negative start lead l
  else if peeks l (ch ".") && peeks_at l 1 is_ascii_digit then lex_fraction negative start lead l
  else lex_integer negative start lead l.

Definition lex_char_literal (start : Span) (l : lexer) : res (Tok F) :=
  let l := bump l in
  match peek_char l with
  | Some c => ret (CharLit c) (bump l)
  | None => inl (err_eof start MCharAtEof)
  end.

(** The characters up to the closing quote, a doubled quote being one. *)
Fixpoint quoted_from (start : Span) (cs : list Z) (l : lexer) : res (list Z) :=
  match cs with
  | [] => inl (err_eof start MUnterminatedString)
  | c :: cs =>
      if c =? QUOTE then
        match cs with
        | c2 :: cs2 =>
            if c2 =? QUOTE then
              let? (s, l) := quoted_from start cs2 (bump (bump l)) in ret (QUOTE :: s) l
            else ret [] (bump l)
        | [] => ret [] (bump l)
        end
      else let? (s, l) := quoted_from start cs (bump l) in ret (c :: s) l
  end.

Definition lex_quoted_text (start : Span) (l : lexer) : res (list Z) :=
  let l := bump l in quoted_from start (rest l) l.

Definition lex_string_literal (start : Span) (l : lexer) : res (Tok F) :=
  let? (s, l) := lex_quoted_text start l in ret (StrLit s) l.

Definition lex_binary_sel (first : Z) (l : lexer) : list Z * lexer :=
  let l := bump l in
  let allow_merge := negb (pragma_mode l && (first =? ch ">")) in
  match peek_char l with
  | Some c2 =>
      let mergeable := is_binary_char c2 && negb (c2 =? ch "|") in
      let steals_negative_literal := (c2 =? ch "-") && peeks_at l 1 is_ascii_digit in
      if allow_merge && mergeable && negb steals_negative_literal
      then ([first; c2], bump l) else ([first], l)
  | None => ([first], l)
  end.

(** The parts of [#ident:ident:], in the order they are read. *)
Fixpoint symbol_from (fuel : nat) (text : list Z) (l : lexer) : list Z * lexer :=
  match fuel with
  | O => (text, l)
  | S fuel =>
      let '(part, l) := consume_while is_ident_cont l in
      let text := text ++ part in
      if peeks l (ch ":") then
        let l := bump l in
        let text := text ++ [ch ":"] in
        if peeks_at l 0 is_ident_start then symbol_from fuel text l else (text, l)
      else (text, l)
  end.

Definition lex_hash (start : Span) (l : lexer) : res (Tok F) :=
  let l := bump l in
  match peek_char l with
  | Some c =>
      if c =? ch "(" then ret LitArrayOpen (bump l)
      else if c =? ch "[" then ret ByteArrayOpen (bump l)
      else if c =? QUOTE then let? (s, l) := lex_quoted_text start l in ret (SymLit s) l
      else if is_ident_start c then
        let '(text, l) := symbol_from (S (length (rest l))) [] l in ret (SymLit text) l
      else if c =? ch "|" then ret (SymLit [ch "|"]) (bump l)
      else if is_binary_char c then let '(s, l) := lex_binary_sel c l in ret (SymLit s) l
      else inl (err start MInvalidHash)
  | None => inl (err start MInvalidHash)
  end.

(** The one-character tokens of [next_token]'s dispatch. *)
Definition punctuation (c : Z) : option (Tok F) :=
  if c =? ch "|" then Some VBar
  else if c =? ch "(" then Some LParen
  else if c =? ch ")" then Some RParen
  else if c =? ch "[" then Some LBracket
  else if c =? ch "]" then Some RBracket
  else if c =? ch "{" then Some LBrace
  else if c =? ch "}" then Some RBrace
  else if c =? ch ";" then Some Semi
  else if c =? ch "." then Some Period
  else if c =? ch "^" then Some Caret
  else None.

(** The dispatch on the first character [c] of a token. *)
Definition lex_token (c : Z) (start : Span) (l : lexer) : res (Tok F) :=
  if is_ident_start c then let '(t, l) := lex_ident_or_keyword l in ret t l
  else if is_ascii_digit c then lex_number false start l
  else if c =? ch "-" then
    let next_is_digit := peeks_at l 1 is_ascii_digit in
    let starts_negative := next_is_digit && (in_literal_seq l || negb (prev_ends_expr l)) in
    if starts_negative then lex_number true start (bump l)
    else let '(s, l) := lex_binary_sel (ch "-") l in ret (BinarySel s) l
  else if c =? ch "$" then lex_char_literal start l
  else if c =? QUOTE then lex_string_literal start l
  else if c =? ch "#" then lex_hash start l
  else
    match punctuation c with
    | Some t => ret t (bump l)
    | None =>
        if c =? ch ":" then
          let l := bump l in
          if peeks l (ch "=") then ret Assign (bump l) else ret Colon l
        else if is_binary_char c then let '(s, l) := lex_binary_sel c l in ret (BinarySel s) l
        else inl (err start (MUnexpectedChar c))
    end.

Definition next_token (l : lexer) : res (Tok F * Span) :=
  let? (_, l) := skip_trivia l in
  let start := here l in
  match peek_char l with
  | None => ret (Eof, start) l
  | Some c =>
      let? (tok, l) := lex_token c start l in
      ret (tok, start) (set_prev_ends_expr (tok_ends_expr tok) l)
  end.

(** *** Positions

    What reading the characters [cs] does to byte position, line and
    column. *)
Definition place : Type := Z * Z * Z.
Definition place_of (l : lexer) : place := (pos l, l_line l, l_col l).

Definition step_place (p : place) (c : Z) : place :=
  let '(b, ln, cl) := p in
  if c =? NEWLINE then (b + len_utf8 c, u32 (ln + 1), 1)
  else (b + len_utf8 c, ln, u32 (cl + len_utf8 c)).
Definition advance (cs : list Z) (p : place) : place := foldl step_place p cs.

(** The same without a width: the true position, line and byte column. *)
Definition exact_step (p : place) (c : Z) : place :=
  let '(b, ln, cl) := p in
  if c =? NEWLINE then (b + len_utf8 c, ln + 1, 1) else (b + len_utf8 c, ln, cl + len_utf8 c).
Definition exact (cs : list Z) (p : place) : place := foldl exact_step p cs.

Fixpoint bytes (cs : list Z) : Z :=
  match cs with [] => 0 | c :: cs => len_utf8 c + bytes cs end.

(** The text left is short enough for line and column to stay in a [u32]. *)
Definition place_fits (p : place) (cs : list Z) : Prop :=
  let '(_, ln, cl) := p in
  0 <= ln /\ 0 <= cl /\ ln + bytes cs < 2 ^ 32 /\ cl + bytes cs < 2 ^ 32.
Definition fits (l : lexer) : Prop := place_fits (place_of l) (rest l).

Lemma len_utf8_pos c : 1 <= len_utf8 c.
Proof. unfold len_utf8. repeat case_match; lia. Qed.

Lemma bytes_nonneg cs : 0 <= bytes cs.
Proof. induction cs as [|c cs IH]; cbn [bytes]; [done|]. pose proof (len_utf8_pos c). lia. Qed.

Lemma step_place_fits p c cs : place_fits p (c :: cs) ->
  step_place p c = exact_step p c /\ place_fits (exact_step p c) cs.
Proof.
  destruct p as [[b ln] cl]. cbn [place_fits bytes]. intros (H1 & H2 & H3 & H4).
  pose proof (len_utf8_pos c). pose proof (bytes_nonneg cs). cbn [step_place exact_step].
  destruct (c =? NEWLINE); cbn [place_fits];
    (rewrite wrapU_id by (unfold inU; lia); split; [done|lia]).
Qed.

Lemma advance_exact cs : forall p r, place_fits p (cs ++ r) ->
  advance cs p = exact cs p /\ place_fits (exact cs p) r.
Proof.
  induction cs as [|c cs IH]; intros p r H; [done|].
  apply step_place_fits in H as [E H]. cbn. rewrite E. by apply IH.
Qed.

Lemma new_fits input : 1 + bytes input < 2 ^ 32 -> fits (new input).
Proof. unfold fits. cbn. lia. Qed.

(** [l'] is [l] after reading exactly [cs]; the modes are untouched. *)
Definition moved (l : lexer) (cs : list Z) (l' : lexer) : Prop :=
  rest l = cs ++ rest l' /\ place_of l' = advance cs (place_of l) /\
  prev_ends_expr l' = prev_ends_expr l /\ pragma_mode l' = pragma_mode l /\
  in_literal_seq l' = in_literal_seq l.

Lemma moved_nil l : moved l [] l.
Proof. done. Qed.

Lemma moved_trans l cs l' cs' l'' : moved l cs l' -> moved l' cs' l'' -> moved l (cs ++ cs') l''.
Proof.
  intros (H1 & H2 & H3 & H4 & H5) (H1' & H2' & H3' & H4' & H5'). split_and!; try congruence.
  - by rewrite H1, H1', (assoc_L (++)).
  - unfold advance in *. by rewrite foldl_app, <- H2.
Qed.

Lemma moved_bump l c cs : rest l = c :: cs -> moved l [c] (bump l).
Proof.
  intros H. unfold moved, bump, place_of, advance. rewrite H. cbn [foldl step_place].
  by destruct (c =? NEWLINE).
Qed.

Lemma bump_rest l c cs : rest l = c :: cs -> rest (bump l) = cs.
Proof. intros H. unfold bump. rewrite H. by destruct (c =? NEWLINE). Qed.

Lemma peek_Some l c : peek_char l = Some c -> exists cs, rest l = c :: cs.
Proof. unfold peek_char. destruct (rest l) as [|x cs]; [done|]. intros [= ->]. by exists cs. Qed.

(** Reading some characters; at least one of them when [strict]. *)
Definition reads_some (strict : bool) (l l' : lexer) : Prop :=
  exists cs, moved l cs l' /\ (strict = true -> cs <> []).

Lemma reads_refl l : reads_some false l l.
Proof. exists []. by split. Qed.

Lemma reads_trans s s' l l' l'' : reads_some s l l' -> reads_some s' l' l'' ->
  reads_some (s || s') l l''.
Proof.
  intros (cs & Hm & Hs) (cs' & Hm' & Hs'). exists (cs ++ cs'). split; [by eapply moved_trans|].
  intros H E. apply app_eq_nil in E as [-> ->].
  apply orb_true_iff in H as [H|H]; [by apply Hs|by apply Hs'].
Qed.

Lemma reads_weaken l l' : reads_some true l l' -> reads_some false l l'.
Proof. intros (cs & ? & _). by exists cs. Qed.

Lemma reads_bump l c : peek_char l = Some c -> reads_some true l (bump l).
Proof. intros [cs H]%peek_Some. exists [c]. split; [by eapply moved_bump|done]. Qed.

Lemma reads_bump_any l : reads_some false l (bump l).
Proof.
  destruct (rest l) as [|c cs] eqn:E.
  - assert (bump l = l) as ->; [|apply reads_refl]. unfold bump. by rewrite E.
  - exists [c]. split; [by eapply moved_bump|done].
Qed.

Lemma consume_from_spec pred cs : forall l, rest l = cs ->
  let '(s, l') := consume_from pred cs l in
  moved l s l' /\ Forall (fun c => pred c = true) s /\
  match rest l' with c :: _ => pred c = false | [] => True end.
Proof.
  induction cs as [|c cs IH]; intros l H; cbn [consume_from].
  - rewrite H. by split_and!.
  - destruct (pred c) eqn:Hc.
    + specialize (IH (bump l) (bump_rest _ _ _ H)). destruct (consume_from pred cs (bump l)) as [s l'].
      destruct IH as (H1 & H2 & H3). split_and!; [|by constructor|done].
      change (c :: s) with ([c] ++ s). eapply moved_trans; [by eapply moved_bump|done].
    + rewrite H. by split_and!.
Qed.

Lemma consume_while_spec pred l : let '(s, l') := consume_while pred l in
  moved l s l' /\ Forall (fun c => pred c = true) s /\
  match rest l' with c :: _ => pred c = false | [] => True end.
Proof. by apply consume_from_spec. Qed.

(** Results that are errors, or read on from [l]. *)
Definition goes {A} (strict : bool) (l : lexer) (r : res A) : Prop :=
  match r with inl _ => True | inr (_, l') => reads_some strict l l' end.

Lemma goes_ret {A} strict l (a : A) l' : reads_some strict l l' -> goes strict l (ret a l').
Proof. done. Qed.

Lemma goes_bind {A B} s s' l (m : res A) (k : A -> lexer -> res B) : goes s l m ->
  (forall a l', reads_some s l l' -> goes s' l' (k a l')) -> goes (s || s') l (bind m k).
Proof.
  intros Hm Hk. destruct m as [e|[a l']]; [done|]. cbn in *. specialize (Hk a l' Hm).
  destruct (k a l') as [e|[b l'']]; [done|]. cbn in *. by eapply reads_trans.
Qed.

Lemma goes_trans {A} s s' l l' (r : res A) : reads_some s l l' -> goes s' l' r -> goes (s || s') l r.
Proof. intros Hr Hg. destruct r as [e|[a l'']]; [done|]. cbn in *. by eapply reads_trans. Qed.

Lemma goes_weaken {A} l (r : res A) : goes true l r -> goes false l r.
Proof. destruct r as [e|[a l']]; [done|]. apply reads_weaken. Qed.

Lemma consume_reads pred l s l' : consume_while pred l = (s, l') -> reads_some false l l'.
Proof. intros E. pose proof (consume_while_spec pred l) as H. rewrite E in H. exists s. by destruct H. Qed.

Lemma consume_reads_strict pred l c s l' : peek_char l = Some c -> pred c = true ->
  consume_while pred l = (s, l') -> reads_some true l l'.
Proof.
  intros [cs Hr]%peek_Some Hc E. pose proof (consume_while_spec pred l) as H. rewrite E in H.
  destruct H as (Hm & _ & Hn). exists s. split; [done|]. intros _ ->.
  destruct Hm as (H & _). cbn in H. rewrite <- H, Hr in Hn. congruence.
Qed.

Lemma skip_from_goes cs : forall comment l, rest l = cs -> goes false l (skip_from comment cs l) /\
  match skip_from comment cs l with inl e => e_eof e = true | inr _ => True end.
Proof.
  induction cs as [cs IH] using (induction_ltof1 _ (@length Z)). unfold ltof in IH.
  intros comment l H. destruct cs as [|c cs].
  { destruct comment; cbn; (split; [|done]); try done. apply reads_refl. }
  assert (Hb : reads_some false l (bump l)) by apply reads_bump_any.
  pose proof (bump_rest _ _ _ H) as Hr.
  assert (Hone : forall cm, goes false l (skip_from cm cs (bump l)) /\
            match skip_from cm cs (bump l) with inl e => e_eof e = true | inr _ => True end).
  { intros cm. destruct (IH cs) with cm (bump l) as [H1 H2]; [cbn; lia|done|]. split; [|done].
    by eapply (goes_trans false false). }
  destruct comment as [start|]; cbn [skip_from].
  - destruct (c =? DQUOTE); [|apply Hone]. destruct cs as [|c2 cs2]; [apply Hone|].
    destruct (c2 =? DQUOTE); [|apply Hone].
    destruct (IH cs2) with (Some start) (bump (bump l)) as [H1 H2];
      [cbn; lia|by apply (bump_rest _ c2)|]. split; [|done].
    eapply (goes_trans false false); [exact Hb|]. eapply (goes_trans false false); [apply reads_bump_any|done].
  - destruct (is_whitespace c); [apply Hone|]. destruct (c =? DQUOTE); [apply Hone|].
    split; [apply reads_refl|done].
Qed.

Lemma skip_trivia_goes l : goes false l (skip_trivia l).
Proof. by apply skip_from_goes. Qed.

Lemma ident_goes l c : peek_char l = Some c -> is_ident_start c = true ->
  goes true l (let '(t, l) := lex_ident_or_keyword l in ret t l).
Proof.
  intros Hp Hc. unfold lex_ident_or_keyword. destruct (consume_while is_ident_cont l) as [s l'] eqn:E.
  assert (Hs : reads_some true l l').
  { eapply consume_reads_strict; [done| |done]. unfold is_ident_start, is_ident_cont, is_ascii_alphanumeric in *.
    destruct (is_ascii_alphabetic c), (is_ascii_digit c); cbn in *; done. }
  destruct (_ && _); cbn; [|done]. eapply (reads_trans true false); [done|]. apply reads_bump_any.
Qed.

Lemma scale_goes d start l : goes false l (try_consume_scale d start l).
Proof.
  unfold try_consume_scale. destruct (negb _); [apply reads_refl|].
  destruct (peek_char_at l 1) as [c|]; [|apply reads_bump_any].
  destruct (is_ascii_digit c).
  - destruct (consume_while is_ascii_digit (bump l)) as [s l'] eqn:E.
    assert (Hr : reads_some false l l').
    { eapply (reads_trans false false); [apply reads_bump_any|by eapply consume_reads]. }
    destruct (parse_u32 s); [|done]. by destruct (65535 <? z).
  - destruct (_ || _); [apply reads_refl|apply reads_bump_any].
Qed.

Lemma exponent_reads l e l' : try_consume_exponent l = (e, l') -> reads_some false l l'.
Proof.
  unfold try_consume_exponent. destruct (peek_char l) as [c|]; [|intros [= <- <-]; apply reads_refl].
  destruct (_ || _); [|intros [= <- <-]; apply reads_refl].
  destruct (peeks_at l _ is_ascii_digit); [|intros [= <- <-]; apply reads_refl].
  cbv zeta. set (l1 := if peeks_at l 1 _ then _ else _).
  assert (Hl : reads_some false l l1).
  { unfold l1. destruct (peeks_at l 1 _); [eapply (reads_trans false false)|]; apply reads_bump_any. }
  destruct (consume_while is_ascii_digit l1) as [ds l2] eqn:E. intros [= <- <-].
  apply consume_reads in E. by eapply (reads_trans false false).
Qed.

Lemma float_goes negative start text l l' : reads_some false l l' ->
  goes false l (float_token negative start text l').
Proof. intros H. unfold float_token. by destruct (parse_f64 text). Qed.

Lemma number_goes negative start l c : peek_char l = Some c -> is_ascii_digit c = true ->
  goes true l (lex_number negative start l).
Proof.
  intros Hp Hc. unfold lex_number. destruct (consume_while is_ascii_digit l) as [lead l1] eqn:E.
  eapply (goes_trans true false); [by eapply consume_reads_strict|]. clear E Hp.
  destruct (peeks l1 (ch "r")); [|destruct (_ && _)].
  - unfold lex_radix. destruct (negb _); [done|].
    destruct (consume_radix_digit_run (bump l1)) as [rd l2] eqn:E. apply consume_reads in E.
    destruct rd as [|d rd]; [done|]. destruct (check_radix_digits _ _ _); [done|].
    eapply (reads_trans false false); [apply reads_bump_any|done].
  - unfold lex_fraction. destruct (consume_while is_ascii_digit (bump l1)) as [frac l2] eqn:E.
    apply consume_reads in E. eapply (goes_trans false false); [apply reads_bump_any|].
    eapply (goes_trans false false); [exact E|].
    eapply (goes_bind false false); [apply scale_goes|]. intros [sc|] l3 _; [apply reads_refl|].
    destruct (try_consume_exponent l3) as [e l4] eqn:E2. apply exponent_reads in E2.
    by destruct e as [[[? ?] ?]|]; apply float_goes.
  - unfold lex_integer. eapply (goes_bind false false); [apply scale_goes|].
    intros [sc|] l3 _; [apply reads_refl|].
    destruct (try_consume_exponent l3) as [e l4] eqn:E2. apply exponent_reads in E2.
    destruct e as [[[mk ng] ds]|]; [|done]. destruct (_ && _); [|by apply float_goes].
    destruct (parse_u32 ds); [|done]. by destruct (10000 <? z).
Qed.

Lemma quoted_from_goes start cs : forall l, rest l = cs -> goes false l (quoted_from start cs l).
Proof.
  induction cs as [cs IH] using (induction_ltof1 _ (@length Z)). unfold ltof in IH.
  intros l H. destruct cs as [|c cs]; [done|]. cbn [quoted_from].
  pose proof (bump_rest _ _ _ H) as Hr. destruct (c =? QUOTE).
  - destruct cs as [|c2 cs2]; [apply reads_bump_any|].
    destruct (c2 =? QUOTE); [|apply reads_bump_any].
    eapply (goes_trans false false); [apply reads_bump_any|].
    eapply (goes_trans false false); [apply reads_bump_any|].
    eapply (goes_bind false false); [apply IH; [cbn; lia|by apply (bump_rest _ c2)]|].
    intros. apply reads_refl.
  - eapply (goes_trans false false); [apply reads_bump_any|].
    eapply (goes_bind false false); [apply IH; [cbn; lia|done]|]. intros. apply reads_refl.
Qed.

Lemma quoted_goes start l c : peek_char l = Some c -> goes true l (lex_quoted_text start l).
Proof.
  intros Hp. unfold lex_quoted_text. eapply (goes_trans true false); [by eapply reads_bump|].
  by apply quoted_from_goes.
Qed.

Lemma binary_goes {A} first l c (f : list Z -> A) : peek_char l = Some c ->
  goes true l (let '(s, l) := lex_binary_sel first l in ret (f s) l).
Proof.
  intros Hp. unfold lex_binary_sel.
  assert (Hb : reads_some true l (bump l)) by (by eapply reads_bump).
  destruct (peek_char (bump l)) as [c2|]; [|done]. destruct (_ && _); [|done].
  cbn. eapply (reads_trans true false); [done|]. apply reads_bump_any.
Qed.

Lemma symbol_from_reads fuel : forall text l s l', symbol_from fuel text l = (s, l') -> reads_some false l l'.
Proof.
  induction fuel as [|fuel IH]; intros text l s l' H; cbn in H; [simplify_eq; apply reads_refl|].
  destruct (consume_while is_ident_cont l) as [part l1] eqn:E. apply consume_reads in E.
  eapply (reads_trans false false); [exact E|].
  destruct (peeks l1 (ch ":")); [|simplify_eq; apply reads_refl].
  eapply (reads_trans false false); [apply reads_bump_any|].
  destruct (peeks_at _ 0 _); [by eapply IH|simplify_eq; apply reads_refl].
Qed.

Lemma hash_goes start l c : peek_char l = Some c -> goes true l (lex_hash start l).
Proof.
  intros Hp. unfold lex_hash. eapply (goes_trans true false); [by eapply reads_bump|].
  destruct (peek_char (bump l)) as [c2|] eqn:E2; [|done].
  destruct (c2 =? ch "("); [apply reads_bump_any|]. destruct (c2 =? ch "["); [apply reads_bump_any|].
  destruct (c2 =? QUOTE).
  { apply goes_weaken. eapply (goes_bind true false); [by eapply quoted_goes|]. intros. apply reads_refl. }
  destruct (is_ident_start c2).
  { destruct (symbol_from _ _ _) as [t l'] eqn:E. by apply symbol_from_reads in E. }
  destruct (c2 =? ch "|"); [apply reads_bump_any|].
  destruct (is_binary_char c2); [|done]. apply goes_weaken. by eapply binary_goes.
Qed.

Lemma lex_token_goes start l c : peek_char l = Some c -> goes true l (lex_token c start l).
Proof.
  intros Hp. unfold lex_token. assert (Hb : reads_some true l (bump l)) by (by eapply reads_bump).
  destruct (is_ident_start c) eqn:H1; [by eapply ident_goes|].
  destruct (is_ascii_digit c) eqn:H2; [by eapply number_goes|].
  destruct (c =? ch "-").
  { destruct (_ && _) eqn:H3; [|by eapply binary_goes]. apply andb_true_iff in H3 as [H3 _].
    unfold peeks_at, peek_char_at in H3. pose proof Hp as [cs Hr]%peek_Some. rewrite Hr in H3. cbn in H3.
    destruct cs as [|d cs]; [done|]. eapply (goes_trans true true); [exact Hb|].
    eapply number_goes; [|exact H3]. unfold peek_char. by rewrite (bump_rest _ _ _ Hr). }
  destruct (c =? ch "$").
  { unfold lex_char_literal. eapply (goes_trans true false); [exact Hb|].
    destruct (peek_char (bump l)); [apply reads_bump_any|done]. }
  destruct (c =? QUOTE).
  { unfold lex_string_literal. eapply (goes_bind true false); [by eapply quoted_goes|]. intros. apply reads_refl. }
  destruct (c =? ch "#"); [by eapply hash_goes|].
  destruct (punctuation c); [done|]. destruct (c =? ch ":").
  { eapply (goes_trans true false); [exact Hb|]. destruct (peeks _ _); [apply reads_bump_any|apply reads_refl]. }
  destruct (is_binary_char c); [by eapply binary_goes|done].
Qed.

(** No token read from a character is the end-of-input token. *)
Definition not_eof (r : res (Tok F)) : Prop :=
  match r with inr (Eof, _) => False | _ => True end.

Lemma number_not_eof negative start l : not_eof (lex_number negative start l).
Proof.
  unfold lex_number. destruct (consume_while is_ascii_digit l) as [lead l1].
  assert (Hf : forall text l', not_eof (float_token negative start text l')).
  { intros text l'. unfold float_token. by destruct (parse_f64 text). }
  destruct (peeks l1 _); [|destruct (_ && _)].
  - unfold lex_radix. destruct (negb _); [done|]. destruct (consume_radix_digit_run _) as [[|d ds] l2]; [done|].
    by destruct (check_radix_digits _ _ _).
  - unfold lex_fraction. destruct (consume_while _ _) as [frac l2].
    destruct (try_consume_scale _ _ _) as [|[[sc|] l3]]; [done..|]. cbn [bind].
    destruct (try_consume_exponent l3) as [[[[? ?] ?]|] l4]; apply Hf.
  - unfold lex_integer. destruct (try_consume_scale _ _ _) as [|[[sc|] l3]]; [done..|]. cbn [bind].
    destruct (try_consume_exponent l3) as [[[[mk ng] ds]|] l4]; [|done].
    destruct (_ && _); [|apply Hf]. destruct (parse_u32 ds); [|done]. by destruct (10000 <? z).
Qed.

Lemma binary_not_eof first l : not_eof (let '(s, l) := lex_binary_sel first l in ret (BinarySel s) l).
Proof. by destruct (lex_binary_sel first l). Qed.

Lemma lex_token_not_eof c start l : not_eof (lex_token c start l).
Proof.
  unfold lex_token. destruct (is_ident_start c).
  { unfold lex_ident_or_keyword. destruct (consume_while _ l). by destruct (_ && _). }
  destruct (is_ascii_digit c); [apply number_not_eof|].
  destruct (c =? ch "-"); [destruct (_ && _); [apply number_not_eof|apply binary_not_eof]|].
  destruct (c =? ch "$"); [unfold lex_char_literal; by destruct (peek_char (bump l))|].
  destruct (c =? QUOTE); [unfold lex_string_literal; by destruct (lex_quoted_text start l) as [|[? ?]]|].
  destruct (c =? ch "#").
  { unfold lex_hash. destruct (peek_char (bump l)) as [c2|]; [|done].
    destruct (c2 =? _); [done|]. destruct (c2 =? _); [done|].
    destruct (c2 =? _); [by destruct (lex_quoted_text start (bump l)) as [|[? ?]]|].
    destruct (is_ident_start c2); [by destruct (symbol_from _ _ _)|]. destruct (c2 =? _); [done|].
    destruct (is_binary_char c2); [|done]. by destruct (lex_binary_sel _ _). }
  destruct (punctuation c) as [t|] eqn:E.
  { unfold punctuation in E. by repeat (destruct (c =? _); [injection E as <-|]). }
  destruct (c =? ch ":"); [by destruct (peeks _ _)|].
  destruct (is_binary_char c); [apply binary_not_eof|done].
Qed.

(** What the fields of a token are made of. *)
Definition tok_wf (t : Tok F) : Prop :=
  match t with
  | IntLit _ radix digits => 2 <= radix <= 36 /\ digits <> [] /\ Forall (is_digit_of radix) digits
  | ScaledLit _ int_digits frac_digits scale =>
      int_digits <> [] /\ Forall (is_digit_of 10) int_digits /\ Forall (is_digit_of 10) frac_digits /\
      0 <= scale <= 65535
  | Ident s => s <> [] /\ Forall (fun c => is_ident_cont c = true) s
  | Keyword s => exists name, s = name ++ [ch ":"] /\ name <> [] /\ Forall (fun c => is_ident_cont c = true) name
  | BinarySel s => s <> [] /\ Forall (fun c => is_binary_char c = true) s
  | _ => True
  end.
Definition res_wf (r : res (Tok F)) : Prop := match r with inr (t, _) => tok_wf t | inl _ => True end.

Lemma ascii_digit_10 c : is_ascii_digit c = true -> is_digit_of 10 c.
Proof.
  intros H. exists (c - 48). unfold to_digit36. rewrite H. unfold is_ascii_digit, in_range in H. split; [done|lia].
Qed.

Lemma check_radix_digits_ok start radix ds : check_radix_digits start radix ds = None ->
  Forall (fun c => is_ascii_digit c || is_ascii_uppercase c = true) ds -> Forall (is_digit_of radix) ds.
Proof.
  intros Hc. induction 1 as [|c ds Hd _ IH]; [by constructor|]. cbn in Hc.
  destruct (to_digit36 c) as [d|] eqn:E; [|done]. destruct (radix <=? d) eqn:L; [done|].
  constructor; [|by apply IH]. exists d. split; [done|].
  unfold to_digit36, is_ascii_digit, is_ascii_lowercase, is_ascii_uppercase, in_range in *.
  repeat case_match; simplify_eq; lia.
Qed.

Lemma lead_digits l c lead l' : peek_char l = Some c -> is_ascii_digit c = true ->
  consume_while is_ascii_digit l = (lead, l') -> lead <> [] /\ Forall (is_digit_of 10) lead.
Proof.
  intros Hp Hc E. pose proof (consume_while_spec is_ascii_digit l) as H. rewrite E in H.
  destruct H as (Hm & Hf & Hn). split.
  - intros ->. destruct Hm as (Hr & _). apply peek_Some in Hp as [cs Hp]. cbn in Hr.
    rewrite <- Hr, Hp in Hn. congruence.
  - eapply Forall_impl; [exact Hf|]. apply ascii_digit_10.
Qed.

Lemma digits_10 s : Forall (fun c => is_ascii_digit c = true) s -> Forall (is_digit_of 10) s.
Proof. intros Hf. eapply Forall_impl; [exact Hf|]. apply ascii_digit_10. Qed.

Lemma decimal_nonneg s : Forall (fun c => is_ascii_digit c = true) s -> 0 <= decimal s.
Proof.
  intros Hf. unfold decimal.
  assert (forall n, 0 <= n -> 0 <= foldl (fun n c => 10 * n + (c - 48)) n s) as Hgen; [|by apply Hgen].
  induction Hf as [|c s Hc _ IH]; intros n Hn; [done|]. cbn. apply IH.
  unfold is_ascii_digit, in_range in Hc. lia.
Qed.

Lemma scale_wf d start l sc l' : 0 <= d <= 65535 -> try_consume_scale d start l = inr (Some sc, l') ->
  0 <= sc <= 65535.
Proof.
  intros Hd. unfold try_consume_scale. destruct (negb _); [done|].
  destruct (peek_char_at l 1) as [c|]; [|by intros [= <- _]].
  destruct (is_ascii_digit c); [|destruct (_ || _); [done|by intros [= <- _]]].
  pose proof (consume_while_spec is_ascii_digit (bump l)) as Hs.
  destruct (consume_while is_ascii_digit (bump l)) as [ds l2]. destruct Hs as (_ & Hf & _).
  unfold parse_u32. destruct ds as [|d0 ds]; [done|]. destruct (decimal (d0 :: ds) <? 2 ^ 32); [|done].
  destruct (65535 <? _) eqn:E; [done|]. intros [= <- _]. pose proof (decimal_nonneg _ Hf). lia.
Qed.

Lemma float_wf negative start text l : res_wf (float_token negative start text l).
Proof. unfold float_token. by destruct (parse_f64 text). Qed.

Lemma integer_wf negative start lead l : lead <> [] -> Forall (is_digit_of 10) lead ->
  res_wf (lex_integer negative start lead l).
Proof.
  intros Hne Hl. unfold lex_integer.
  destruct (try_consume_scale 0 start l) as [|[[sc|] l3]] eqn:Es; [done| |].
  { cbn. split_and!; try done; eapply (scale_wf 0) in Es; lia. }
  cbn [bind]. destruct (try_consume_exponent l3) as [[[[mk ng] ds]|] l4].
  - destruct (_ && _); [|apply float_wf]. destruct (parse_u32 ds); [|done].
    destruct (10000 <? z); [done|]. cbn [res_wf ret tok_wf]. split_and!; [lia|lia| |].
    + by destruct lead.
    + apply Forall_app. split; [done|]. apply Forall_replicate. exists 0. by split.
  - cbn [res_wf ret tok_wf]. by split_and!.
Qed.

Lemma radix_wf negative start lead l : res_wf (lex_radix negative start lead l).
Proof.
  unfold lex_radix. cbv zeta. set (radix := match parse_u32 lead with Some v => v | None => 0 end).
  destruct (_ && _) eqn:Hr; cbn [negb]; [|done]. apply andb_true_iff in Hr as [Hr1 Hr2].
  pose proof (consume_while_spec (fun c => is_ascii_digit c || is_ascii_uppercase c) (bump l)) as Hs.
  unfold consume_radix_digit_run. destruct (consume_while _ (bump l)) as [ds l2].
  destruct Hs as (_ & Hf & _). destruct ds as [|d ds]; [done|].
  destruct (check_radix_digits start radix (d :: ds)) eqn:E; [done|]. cbn [res_wf ret tok_wf].
  rewrite wrapU_id by (unfold inU; lia). split_and!; [lia|lia|done|by eapply check_radix_digits_ok].
Qed.

Lemma fraction_wf negative start lead l : lead <> [] -> Forall (is_digit_of 10) lead ->
  res_wf (lex_fraction negative start lead l).
Proof.
  intros Hne Hl. unfold lex_fraction. pose proof (consume_while_spec is_ascii_digit (bump l)) as Hs.
  destruct (consume_while is_ascii_digit (bump l)) as [frac l2]. destruct Hs as (_ & Hf & _).
  destruct (try_consume_scale _ start l2) as [|[[sc|] l3]] eqn:Es; [done| |].
  { cbn. split_and!; try done; [by apply digits_10| |]; eapply scale_wf in Es; unfold zlen in *; lia. }
  cbn [bind]. destruct (try_consume_exponent l3) as [[[[? ?] ?]|] l4]; apply float_wf.
Qed.

Lemma number_wf negative start l c : peek_char l = Some c -> is_ascii_digit c = true ->
  res_wf (lex_number negative start l).
Proof.
  intros Hp Hc. unfold lex_number. destruct (consume_while is_ascii_digit l) as [lead l1] eqn:E.
  destruct (lead_digits _ _ _ _ Hp Hc E) as [Hne Hl].
  destruct (peeks l1 _); [apply radix_wf|]. destruct (_ && _); [by apply fraction_wf|by apply integer_wf].
Qed.

Lemma ident_wf l c : peek_char l = Some c -> is_ident_start c = true ->
  res_wf (let '(t, l) := lex_ident_or_keyword l in ret t l).
Proof.
  intros Hp Hc. unfold lex_ident_or_keyword. pose proof (consume_while_spec is_ident_cont l) as Hs.
  destruct (consume_while is_ident_cont l) as [s l'] eqn:E. destruct Hs as (Hm & Hf & Hn).
  assert (Hne : s <> []).
  { intros ->. destruct Hm as (Hr & _). apply peek_Some in Hp as [cs Hp]. cbn in Hr. rewrite <- Hr, Hp in Hn.
    unfold is_ident_start, is_ident_cont, is_ascii_alphanumeric in *.
    by destruct (is_ascii_alphabetic c), (is_ascii_digit c), (c =? ch "_"). }
  destruct (_ && _); cbn; [by exists s|done].
Qed.

Lemma binary_wf first l : is_binary_char first = true ->
  res_wf (let '(s, l) := lex_binary_sel first l in ret (BinarySel s) l).
Proof.
  intros Hf. unfold lex_binary_sel.
  assert (H1 : [first] <> [] /\ Forall (fun c => is_binary_char c = true) [first]) by (split; [done|constructor; [exact Hf|constructor]]).
  destruct (peek_char (bump l)) as [c2|]; [|done]. destruct (_ && _) eqn:E; [|done]. cbn. split; [done|].
  apply Forall_cons. split; [done|]. constructor; [|constructor].
  rewrite !andb_true_iff in E. by destruct E as [[_ [Hb _]] _].
Qed.

Lemma lex_token_wf c start l : peek_char l = Some c -> res_wf (lex_token c start l).
Proof.
  intros Hp. unfold lex_token. destruct (is_ident_start c) eqn:Hi; [by eapply ident_wf|].
  destruct (is_ascii_digit c) eqn:Hd; [by eapply number_wf|].
  destruct (c =? ch "-").
  { destruct (_ && _) eqn:H3; [|by apply binary_wf]. apply andb_true_iff in H3 as [H3 _].
    unfold peeks_at, peek_char_at in H3. pose proof Hp as [cs Hr]%peek_Some. rewrite Hr in H3. cbn in H3.
    destruct cs as [|d cs]; [done|]. eapply number_wf; [|exact H3].
    unfold peek_char. by rewrite (bump_rest _ _ _ Hr). }
  destruct (c =? ch "$"); [unfold lex_char_literal; by destruct (peek_char (bump l))|].
  destruct (c =? QUOTE); [unfold lex_string_literal; by destruct (lex_quoted_text start l) as [|[? ?]]|].
  destruct (c =? ch "#").
  { unfold lex_hash. destruct (peek_char (bump l)) as [c2|]; [|done].
    destruct (c2 =? _); [done|]. destruct (c2 =? _); [done|].
    destruct (c2 =? _); [by destruct (lex_quoted_text start (bump l)) as [|[? ?]]|].
    destruct (is_ident_start c2); [by destruct (symbol_from _ _ _)|]. destruct (c2 =? _); [done|].
    destruct (is_binary_char c2); [|done]. by destruct (lex_binary_sel _ _). }
  destruct (punctuation c) as [t|] eqn:E.
  { unfold punctuation in E. by repeat (destruct (c =? _); [injection E as <-|]). }
  destruct (c =? ch ":"); [by destruct (peeks _ _)|].
  destruct (is_binary_char c) eqn:Hb; [by apply binary_wf|done].
Qed.

(** A step of the lexer: what the token is made of, and how much it leaves. *)
Lemma next_token_wf l : match next_token l with
  | inl _ => True
  | inr ((t, _), l') => tok_wf t /\ in_literal_seq l' = in_literal_seq l /\
      (length (rest l') + (match t with Eof => 0 | _ => 1 end) <= length (rest l))%nat
  end.
Proof.
  unfold next_token. pose proof (skip_trivia_goes l) as Hs. destruct (skip_trivia l) as [e|[[] l1]]; [done|].
  cbn [bind]. destruct Hs as (trivia & (M1 & M2 & M3 & M4 & M5) & _). apply (f_equal length) in M1.
  rewrite length_app in M1. destruct (peek_char l1) as [c|] eqn:Hp.
  - pose proof (lex_token_goes (here l1) l1 c Hp) as Hg. pose proof (lex_token_wf c (here l1) l1 Hp) as Hw.
    destruct (lex_token c (here l1) l1) as [e|[t l2]]; [done|]. cbn [bind ret].
    destruct Hg as (text & (N1 & N2 & N3 & N4 & N5) & Hne). apply (f_equal length) in N1. rewrite length_app in N1.
    assert (length text <> 0%nat) by (destruct text; [by destruct Hne|done]).
    split_and!; [done|cbn; congruence|]. cbn. destruct t; lia.
  - cbn [ret]. split_and!; [done|done|lia].
Qed.

(** Every integer token the lexer answers denotes a number: its radix is
    in 2..36, it has at least one digit, and the magnitude routine run on it
    never hits its digit panic and yields exactly the value the digits spell
    in that radix, as little-endian bytes without a zero byte on top -- for
    any number of digits, and although every step is computed in [u32]. *)
Theorem lexed_integer_magnitude l negative radix digits span l'
    (Hn : next_token l = inr ((IntLit negative radix digits, span), l')) :
  2 <= radix <= 36 /\ digits <> [] /\
  exists mag, int_lit_magnitude radix digits = Some mag /\
    Forall (inU 8) mag /\ canonical mag /\ le_value mag = digits_value radix digits.
Proof.
  unfold next_token in Hn. destruct (skip_trivia l) as [e|[[] l1]]; [done|]. cbn [bind] in Hn.
  destruct (peek_char l1) as [c|] eqn:Hp; [|done].
  pose proof (lex_token_wf c (here l1) l1 Hp) as Hw.
  destruct (lex_token c (here l1) l1) as [e|[t l2]]; [done|]. cbn [bind ret] in Hn.
  injection Hn as -> <- <-. destruct Hw as (Hr & Hne & Hf). split_and!; [lia|lia|done|].
  by apply int_lit_magnitude_value.
Qed.

(** C34. Every token the lexer answers is accounted for in the input: it is
    preceded by some trivia and made of the characters that follow, in order
    and without gaps; the modes are unchanged.  Only the end-of-input token is
    empty, and it is answered only when nothing is left: so lexing always
    terminates.  Line and column are [u32]: as long as neither can pass 2^32
    in the text that is left ([fits], true at the start of any input under
    4 GiB by [new_fits]), the token's span is the exact line and byte column
    after the trivia, the new position, line and column are exactly those
    after the token, and the lexer still fits; beyond, both are the [u32]
    sums, wrapped at each character. *)
Theorem token_spans_exact l tok span l' (Hn : next_token l = inr ((tok, span), l')) :
  exists trivia text, rest l = trivia ++ text ++ rest l' /\
    (let '(_, ln, cl) := advance trivia (place_of l) in span = MkSpan ln cl) /\
    place_of l' = advance (trivia ++ text) (place_of l) /\
    (fits l -> (let '(_, ln, cl) := exact trivia (place_of l) in span = MkSpan ln cl) /\
       place_of l' = exact (trivia ++ text) (place_of l) /\ fits l') /\
    pragma_mode l' = pragma_mode l /\ in_literal_seq l' = in_literal_seq l /\
    (text = [] -> tok = Eof /\ rest l' = []) /\ (tok = Eof -> text = []).
Proof.
  cut (exists trivia text, rest l = trivia ++ text ++ rest l' /\
    (let '(_, ln, cl) := advance trivia (place_of l) in span = MkSpan ln cl) /\
    place_of l' = advance (trivia ++ text) (place_of l) /\
    pragma_mode l' = pragma_mode l /\ in_literal_seq l' = in_literal_seq l /\
    (text = [] -> tok = Eof /\ rest l' = []) /\ (tok = Eof -> text = [])).
  { intros (trivia & text & H1 & H2 & H3 & H). exists trivia, text. split_and!; try apply H; try done.
    unfold fits. intros Hf. rewrite H1 in Hf.
    destruct (advance_exact trivia _ _ Hf) as [E1 _]. rewrite (assoc_L (++)) in Hf.
    destruct (advance_exact (trivia ++ text) _ _ Hf) as [E2 F2]. by rewrite H3, E2, <- E1. }
  unfold next_token in Hn. pose proof (skip_trivia_goes l) as Hs.
  destruct (skip_trivia l) as [e|[[] l1]]; [done|]. cbn [bind] in Hn.
  destruct Hs as (trivia & (M1 & M2 & M3 & M4 & M5) & _).
  destruct (peek_char l1) as [c|] eqn:Hp.
  - pose proof (lex_token_goes (here l1) l1 c Hp) as Hg.
    destruct (lex_token c (here l1) l1) as [e|[t l2]] eqn:Ht; [done|]. cbn [bind ret] in Hn.
    injection Hn as -> <- <-. destruct Hg as (text & (N1 & N2 & N3 & N4 & N5) & Hne).
    exists trivia, text. cbn [set_prev_ends_expr rest pragma_mode in_literal_seq].
    split_and!; try congruence.
    + unfold here. rewrite <- M2. done.
    + unfold place_of in *. cbn. rewrite N2. unfold advance. by rewrite foldl_app, M2.
    + intros ->. by destruct Hne.
    + intros ->. pose proof (lex_token_not_eof c (here l1) l1) as Hne'. by rewrite Ht in Hne'.
  - injection Hn as <- <- <-. exists trivia, []. split_and!; try done.
    + unfold here. rewrite <- M2. done.
    + by rewrite app_nil_r.
    + intros _. split; [done|]. unfold peek_char in Hp. by destruct (rest l1).
Qed.
End tokens.

(** A concrete instance: floats as their text. *)
Definition text_float : list Z -> option (list Z) := Some.
Definition text_neg : list Z -> list Z := cons (ch "-").

Lemma token_spans_exact_witness :
  exists l', next_token text_float text_neg (new (chars "  x := 3"))
      = inr ((Ident (chars "x"), MkSpan 1 3), l') /\
    exists trivia text, chars "  x := 3" = trivia ++ text ++ rest l' /\
      (let '(_, ln, cl) := exact trivia (0, 1, 1) in MkSpan 1 3 = MkSpan ln cl) /\ fits l'.
Proof.
  set (r := next_token text_float text_neg (new (chars "  x := 3"))). vm_compute in r. subst r.
  eexists. split; [reflexivity|].
  destruct (token_spans_exact text_float text_neg (new (chars "  x := 3")) (Ident (chars "x")) (MkSpan 1 3)
    (MkLexer (chars " := 3") 3 1 4 true false false)) as (trivia & text & H1 & _ & _ & H2 & _);
    [vm_compute; reflexivity|].
  destruct H2 as (H2 & _ & H3); [apply new_fits; vm_compute; reflexivity|].
  exists trivia, text. split; [exact H1|]. split; [exact H2|exact H3].
Defined.

Lemma lexed_integer_magnitude_witness :
  exists mag, int_lit_magnitude 16 (chars "FF01") = Some mag /\ le_value mag = 65281.
Proof.
  destruct (lexed_integer_magnitude text_float text_neg (new (chars "16rFF01")) false 16 (chars "FF01")
    (MkSpan 1 1) (MkLexer [] 7 1 8 true false false)) as (_ & _ & mag & H1 & _ & _ & H2);
    [vm_compute; reflexivity|].
  exists mag. split; [exact H1|]. rewrite H2. vm_compute. reflexivity.
Defined.
End Lexer.
