(* ===== verification/Ast.v ===== *)
(** The syntax trees of the Smalltalk front end ([src/src/frontend/ast.rs])
    and the shape the parser promises to its clients: what may stand in
    expression position, in statement position and inside a cascade.

    A name or text is its list of characters, as in the lexer; [F] is the
    type of [f64]. *)
From Stdlib Require Import String Ascii.
From S2P Require Import Prelude Oops Lexer.
#[local] Set Warnings "-register-all".
#[local] Open Scope Z_scope.
#[local] Open Scope list_scope.

Module Ast.
Section ast.
Context {F : Type}.

Inductive Literal : Type :=
  | LInt (v : Z)
  | LBigInt (negative : bool) (digits : list Z)
  | LFloat (v : F)
  | LChar (c : Z)
  | LStr (s : list Z)
  | LSymbol (s : list Z)
  | LArray (elems : list Literal)
  | LByteArray (bytes : list Z)
  | LNil | LTrue | LFalse.

Inductive Expr : Type :=
  | SelfRef (span : Span)
  | Var (name : list Z) (span : Span)
  | Lit (value : Literal) (span : Span)
  | EAssign (name : list Z) (value : Expr) (span : Span)
  | Send (receiver : Expr) (selector : list Z) (args : list Expr) (is_super : bool) (span : Span)
  | Cascade (receiver : Expr) (segments : list Expr) (span : Span)
  | CascadeRcvr (span : Span)
  | DynArray (elems : list Expr) (span : Span)
  | Block (b : BlockNode)
  | Return (value : Expr) (span : Span)
with BlockNode : Type :=
  | MkBlock (params temps : list (list Z)) (body : list Expr) (span : Span) (scope_id : Z).

Definition span_of (e : Expr) : Span :=
  match e with
  | SelfRef s | Var _ s | Lit _ s | EAssign _ _ s | Send _ _ _ _ s | Cascade _ _ s
  | CascadeRcvr s | DynArray _ s | Return _ s => s
  | Block (MkBlock _ _ _ s _) => s
  end.

Inductive FfiPragma : Type :=
  | Function (name ret : list Z) (args : list (list Z))
  | Selector (selector class : list Z) (class_side : bool) (ret : list Z) (args : list (list Z)).

Record MethodNode := MkMethod {
  pattern_selector : list Z;
  m_params : list (list Z);
  primitive : option Z;
  ffi : option FfiPragma;
  m_temps : list (list Z);
  m_body : list Expr;
  class_side : bool;
  m_span : Span }.

Inductive Indexable := Oops | Bytes.

Record ClassDefNode := MkClassDef {
  superclass : list Z;
  c_name : list Z;
  indexable : option Indexable;
  inst_vars : list (list Z);
  class_vars : list (list Z);
  methods : list MethodNode;
  c_span : Span }.

Inductive TopItem :=
  | ClassDef (c : ClassDefNode)
  | DoIt (e : Expr).

(** *** The shape of a parsed tree *)

Definition RESERVED : list (list Z) :=
  [chars "self"; chars "super"; chars "nil"; chars "true"; chars "false"].
Definition is_reserved (name : list Z) : bool := bool_decide (name ∈ RESERVED).

(** The value of a literal integer, when it is one. *)
Definition int_value (l : Literal) : option Z :=
  match l with
  | LInt v => Some v
  | LBigInt negative digits => Some (if negative then - Lexer.le_value digits else Lexer.le_value digits)
  | _ => None
  end.

(** An integer literal is a [SmallInteger] exactly when it fits one; byte
    arrays hold bytes. *)
Fixpoint literal_ok (l : Literal) : bool :=
  match l with
  | LInt v => (SMI_MIN <=? v) && (v <=? SMI_MAX)
  | LBigInt negative digits =>
      forallb (fun b => (0 <=? b) && (b <? 256)) digits && negb (bool_decide (list.last digits = Some 0)) &&
      negb (let v := if negative then - Lexer.le_value digits else Lexer.le_value digits in
            (SMI_MIN <=? v) && (v <=? SMI_MAX))
  | LArray elems => forallb literal_ok elems
  | LByteArray bytes => forallb (fun b => (0 <=? b) && (b <? 256)) bytes
  | _ => true
  end.

Definition is_self (e : Expr) : bool := match e with SelfRef _ => true | _ => false end.
Definition is_cascade_rcvr (e : Expr) : bool := match e with CascadeRcvr _ => true | _ => false end.

Definition COLON : Z := ch ":".
(** The number of arguments a selector takes: a keyword selector has a colon
    per argument, a selector without colons is unary or, not made of letters,
    binary. *)
Definition num_colons (sel : list Z) : nat := length (filter (fun c => c = COLON) sel).
Definition is_binary_sel (sel : list Z) : bool :=
  match sel with [] => false | _ => forallb is_binary_char sel end.
Definition arity_ok (sel : list Z) {A} (args : list A) : bool :=
  if is_binary_sel sel then Nat.eqb (length args) 1 else Nat.eqb (length args) (num_colons sel).

(** [expr_ok e]: [e] may stand in expression position: no return and no
    cascade marker in it, no reserved word as a variable, [super] only as the
    receiver of a send, as many arguments as the selector takes, and a
    cascade of at least two messages.  [seg_ok sup e]: a cascade segment, a
    chain of sends that starts at the marker; only its first send may be a
    [super] send, when the cascade's receiver is [self] ([sup]). *)
Fixpoint expr_ok (e : Expr) : bool :=
  match e with
  | SelfRef _ => true
  | Var name _ => negb (is_reserved name)
  | Lit value _ => literal_ok value
  | EAssign name value _ => negb (is_reserved name) && expr_ok value
  | Send receiver selector args is_super _ =>
      expr_ok receiver && forallb expr_ok args && arity_ok selector args &&
      (negb is_super || is_self receiver)
  | Cascade receiver segments _ =>
      expr_ok receiver && Nat.leb 2 (length segments) && forallb (seg_ok (is_self receiver)) segments
  | CascadeRcvr _ => false
  | DynArray elems _ => forallb expr_ok elems
  | Block b => block_ok b
  | Return _ _ => false
  end
with seg_ok (sup : bool) (e : Expr) : bool :=
  match e with
  | Send receiver selector args is_super _ =>
      (is_cascade_rcvr receiver && (negb is_super || sup) ||
       seg_ok sup receiver && negb is_super) &&
      forallb expr_ok args && arity_ok selector args
  | _ => false
  end
with block_ok (b : BlockNode) : bool :=
  match b with
  | MkBlock params temps body _ _ =>
      forallb (fun n => negb (is_reserved n)) params &&
      forallb (fun n => negb (is_reserved n)) temps &&
      forallb (fun e => match e with Return v _ => expr_ok v | _ => expr_ok e end) body
  end.

(** A statement is an expression or a return. *)
Definition stmt_ok (e : Expr) : bool :=
  match e with Return v _ => expr_ok v | _ => expr_ok e end.
Definition names_ok (ns : list (list Z)) : bool := forallb (fun n => negb (is_reserved n)) ns.

Definition method_ok (m : MethodNode) : bool :=
  names_ok (m_params m) && names_ok (m_temps m) && forallb stmt_ok (m_body m) &&
  arity_ok (pattern_selector m) (m_params m) &&
  match primitive m with Some p => (1 <=? p) && (p <=? 65535) | None => true end &&
  (* never both pragmas *)
  match primitive m, ffi m with Some _, Some _ => false | _, _ => true end.

Definition class_ok (c : ClassDefNode) : bool :=
  names_ok (inst_vars c) && forallb method_ok (methods c).

Definition item_ok (i : TopItem) : bool :=
  match i with ClassDef c => class_ok c | DoIt e => stmt_ok e end.
End ast.
Arguments Literal F : clear implicits.
Arguments Expr F : clear implicits.
Arguments BlockNode F : clear implicits.
Arguments MethodNode F : clear implicits.
Arguments ClassDefNode F : clear implicits.
Arguments TopItem F : clear implicits.
End Ast.
