(* ===== verification/Parser.v ===== *)
(** The recursive-descent parser of the Smalltalk front end
    ([src/src/frontend/parser.rs]) over an interface for its lexer.

    A parsing function is a computation in a state monad over the parser's
    fields; [Fails] is [Err], [Panics] an arithmetic underflow or an [expect]
    on something absent.  Rust's loops are the combinator [loop], whose fuel
    is computed from what is left of the input; the grammar's recursion goes
    through the computation passed for [parse_expression] (and, in literals,
    [parse_array_elem]), which is tied with fuel from the same measure.
    [parse_file_total] shows that neither fuel ever runs out. *)
From Stdlib Require Import String Ascii.
From S2P Require Import Prelude Oops Lexer Ast.
Export Ast.
#[local] Open Scope Z_scope.
#[local] Open Scope list_scope.

(** What the parser calls of its lexer; [remaining] bounds the tokens left. *)
Class TokenSource (F S : Type) := {
  next_token : S -> LexError + (Tok F * Span) * S;
  set_in_literal_seq : bool -> S -> S;
  set_pragma_mode : bool -> S -> S;
  remaining : S -> nat }.
#[global] Hint Mode TokenSource - ! : typeclass_instances.

Module Parser.
Inductive msg := PMsg (text : list Z) | LMsg (m : lex_msg).
Record CompileError := MkCompileError { path : option (list Z); ce_span : Span; ce_msg : msg; ce_eof : bool }.

Definition from_lex_error (e : LexError) : CompileError :=
  MkCompileError None (e_span e) (LMsg (e_msg e)) (e_eof e).

(** [intlit_to_literal], [None] where [int_lit_magnitude] panics. *)
Fixpoint or_bytes (i : Z) (mag : list Z) (v : Z) : Z :=
  match mag with
  | [] => v
  | b :: mag => or_bytes (i + 1) mag (Z.lor v (u64 (Z.shiftl b (8 * i))))
  end.

Definition intlit_to_literal {F} (negative : bool) (radix : Z) (digits : list Z) : option (Literal F) :=
  match Lexer.int_lit_magnitude radix digits with
  | None => None
  | Some mag =>
      let v := or_bytes 0 mag 0 in
      let fits := if negative then v <=? u64 (Z.abs SMI_MIN) else v <=? u64 SMI_MAX in
      if (zlen mag <=? 8) && fits then Some (LInt (if negative then - i64 v else i64 v))
      else Some (LBigInt negative mag)
  end.

Section parser.
Context {F S : Type} `{TokenSource F S}.

Record parser := MkParser {
  lx : S;
  cur : Tok F * Span;
  peeked : option (Tok F * Span);
  literal_seq_depth : Z }.

Inductive outcome (A : Type) :=
  | Done (a : A) (p : parser)
  | Fails (e : CompileError)
  | OutOfFuel
  | Panics.
#[global] Arguments Done {A} a p.
#[global] Arguments Fails {A} e.
#[global] Arguments OutOfFuel {A}.
#[global] Arguments Panics {A}.

Definition P (A : Type) : Type := parser -> outcome A.

#[export] Instance P_ret : MRet P := fun A a p => Done a p.
#[export] Instance P_bind : MBind P := fun A B k m p =>
  match m p with Done a p => k a p | Fails e => Fails e | OutOfFuel => OutOfFuel | Panics => Panics end.

Definition is_eof (t : Tok F) : bool := match t with Eof => true | _ => false end.
Definition weight (t : Tok F * Span) : nat := if is_eof t.1 then 0 else 1.
Definition measure (p : parser) : nat :=
  remaining (lx p) + weight (cur p) + match peeked p with Some t => weight t | None => 0 end.

(** [loop body a]: runs [body], again on the [inl] it answers, until an [inr]. *)
Fixpoint loop_fuel {A B} (fuel : nat) (body : A -> P (A + B)) (a : A) : P B :=
  match fuel with
  | O => fun _ => OutOfFuel
  | Datatypes.S fuel =>
      r ← body a;
      match r with inl a => loop_fuel fuel body a | inr b => mret b end
  end.
Definition loop {A B} (body : A -> P (A + B)) (a : A) : P B :=
  fun p => loop_fuel (Datatypes.S (measure p)) body a p.
Definition continue {A B} (a : A) : P (A + B) := mret (inl a).
Definition break {A B} (b : B) : P (A + B) := mret (inr b).

(** *** Tokens *)
Definition new (input : S) : outcome unit :=
  match next_token input with
  | inl e => Fails (from_lex_error e)
  | inr (t, lx) => Done tt (MkParser lx t None 0)
  end.

Definition bump : P unit := fun p =>
  match peeked p with
  | Some t => Done tt (MkParser (lx p) t None (literal_seq_depth p))
  | None =>
      match next_token (lx p) with
      | inl e => Fails (from_lex_error e)
      | inr (t, lx) => Done tt (MkParser lx t None (literal_seq_depth p))
      end
  end.

Definition peek2 : P (Tok F) := fun p =>
  match peeked p with
  | Some t => Done t.1 p
  | None =>
      match next_token (lx p) with
      | inl e => Fails (from_lex_error e)
      | inr (t, lx) => Done t.1 (MkParser lx (cur p) (Some t) (literal_seq_depth p))
      end
  end.

Definition cur_tok : P (Tok F) := fun p => Done (cur p).1 p.
Definition cur_span : P Span := fun p => Done (cur p).2 p.
Definition error {A} (span : Span) (m : list Z) : P A := fun p =>
  Fails (MkCompileError None span (PMsg m) (is_eof (cur p).1)).
Definition error_here {A} (m : list Z) : P A := span ← cur_span; error span m.
Definition or_panic {A} (o : option A) : P A := fun p =>
  match o with Some a => Done a p | None => Panics end.

Definition discriminant (t : Tok F) : nat :=
  match t with
  | Ident _ => 0 | Keyword _ => 1 | BinarySel _ => 2 | IntLit _ _ _ => 3 | ScaledLit _ _ _ _ => 4
  | FloatLit _ => 5 | CharLit _ => 6 | StrLit _ => 7 | SymLit _ => 8 | LitArrayOpen => 9
  | ByteArrayOpen => 10 | LParen => 11 | RParen => 12 | LBracket => 13 | RBracket => 14
  | LBrace => 15 | RBrace => 16 | VBar => 17 | Semi => 18 | Period => 19 | Caret => 20
  | Assign => 21 | Colon => 22 | Eof => 23
  end.
Definition same_kind (t want : Tok F) : bool := Nat.eqb (discriminant t) (discriminant want).
(** [matches!(self.cur.0, want)], for a [want] without fields. *)
Definition cur_is (want : Tok F) : P bool := t ← cur_tok; mret (same_kind t want).
Definition is_sel (s : list Z) (t : Tok F) : bool :=
  match t with BinarySel s' => bool_decide (s' = s) | _ => false end.
Definition cur_is_sel (s : list Z) : P bool := t ← cur_tok; mret (is_sel s t).

Definition check_not_reserved (span : Span) (name : list Z) : P unit :=
  if is_reserved name then error span (chars "'" ++ name ++ chars "' is a reserved word") else mret tt.

Definition expect (want : Tok F) (m : list Z) : P unit :=
  b ← cur_is want; if b : bool then bump else error_here m.

Definition expect_ident (m : list Z) : P (list Z) :=
  t ← cur_tok; match t with Ident n => bump;; mret n | _ => error_here m end.

Definition expect_keyword (kw : list Z) : P unit :=
  t ← cur_tok;
  match t with
  | Keyword k => if bool_decide (k = kw) then bump
                 else error_here (chars "expected '" ++ kw ++ chars "'")
  | _ => error_here (chars "expected '" ++ kw ++ chars "'")
  end.

Definition on_lexer (f : S -> S) : P unit := fun p =>
  Done tt (MkParser (f (lx p)) (cur p) (peeked p) (literal_seq_depth p)).

Definition enter_literal_seq : P unit := fun p =>
  let d := literal_seq_depth p + 1 in
  Done tt (MkParser (if d =? 1 then set_in_literal_seq true (lx p) else lx p) (cur p) (peeked p) d).

Definition exit_literal_seq : P unit := fun p =>
  let d := literal_seq_depth p - 1 in
  if d <? 0 then Panics
  else Done tt (MkParser (if d =? 0 then set_in_literal_seq false (lx p) else lx p) (cur p) (peeked p) d).
(** *** Literals *)
Definition str_len (s : list Z) : Z := foldr (fun c n => len_utf8 c + n) 0 s.

(** Adjacent keywords glue into one symbol: [st] is the text so far and the
    column the next keyword must start at. *)
Definition glue_keywords : P (list Z) :=
  loop (fun '(sel, expect_col) =>
    t ← cur_tok; span ← cur_span;
    match t with
    | Keyword k =>
        if match expect_col with Some c => negb (col span =? c) | None => false end
        then break sel
        else bump;; continue (sel ++ k, Some (col span + str_len k))
    | _ => break sel
    end) ([], None).

Definition close_paren (m : list Z) : P unit :=
  b ← cur_is RParen; if negb b then error_here m else bump.

(** [elem] stands for [parse_array_elem]. *)
Section literals.
Context (elem : P (Literal F)).

Definition parse_array_elems : P (list (Literal F)) :=
  loop (fun out =>
    b ← cur_is RParen;
    if b : bool then break out else e ← elem; continue (out ++ [e])) [].

Definition array_literal : P (Literal F) :=
  enter_literal_seq;; bump;;
  elems ← parse_array_elems;
  b ← cur_is RParen;
  if negb b then error_here (chars "expected ')' to close array literal")
  else exit_literal_seq;; bump;; mret (LArray elems).
End literals.

Definition parse_byte_array_literal : P (Literal F) :=
  enter_literal_seq;; bump;;
  bytes ← loop (fun bytes =>
    b ← cur_is RBracket;
    if b : bool then break bytes else
    tok ← cur_tok; span ← cur_span;
    match tok with
    | IntLit negative radix digits =>
        bump;;
        mag ← or_panic (Lexer.int_lit_magnitude radix digits);
        if negative || (1 <? zlen mag) then error span (chars "byte array element out of range 0..255")
        else continue (bytes ++ [default 0 (head mag)])
    | _ => error span (chars "byte array elements must be integers")
    end) [];
  b ← cur_is RBracket;
  if negb b then error_here (chars "expected ']' to close byte array")
  else exit_literal_seq;; bump;; mret (LByteArray bytes).

Definition parse_array_elem_with (elem : P (Literal F)) : P (Literal F) :=
  tok ← cur_tok; span ← cur_span;
  match tok with
  | IntLit negative radix digits =>
      bump;; or_panic (intlit_to_literal negative radix digits)
  | FloatLit v => bump;; mret (LFloat v)
  | CharLit c => bump;; mret (LChar c)
  | StrLit s => bump;; mret (LStr s)
  | SymLit s => bump;; mret (LSymbol s)
  | Ident name =>
      bump;;
      mret (if bool_decide (name = chars "nil") then LNil
            else if bool_decide (name = chars "true") then LTrue
            else if bool_decide (name = chars "false") then LFalse
            else LSymbol name)
  | Keyword _ => sel ← glue_keywords; mret (LSymbol sel)
  | BinarySel s => bump;; mret (LSymbol s)
  | VBar => bump;; mret (LSymbol (chars "|"))
  | LParen =>
      bump;;
      elems ← parse_array_elems elem;
      close_paren (chars "expected ')'");;
      mret (LArray elems)
  | LitArrayOpen => array_literal elem
  | ByteArrayOpen => parse_byte_array_literal
  | ScaledLit _ _ _ _ => error span (chars "scaled-decimal literals are not supported inside literal arrays (a ScaledDecimal is built at runtime " ++ [0x2014] ++ chars " use a brace array instead)")
  | _ => error span (chars "invalid literal array element")
  end.

Fixpoint parse_array_elem_fuel (fuel : nat) : P (Literal F) :=
  match fuel with
  | O => fun _ => OutOfFuel
  | Datatypes.S fuel => parse_array_elem_with (parse_array_elem_fuel fuel)
  end.
Definition parse_array_elem : P (Literal F) := fun p => parse_array_elem_fuel (Datatypes.S (measure p)) p.

Definition parse_array_literal : P (Literal F) := array_literal parse_array_elem.

(** *** Expressions

    [expression] stands for [parse_expression], one level down. *)
Definition scaled_decimal (span : Span) (negative : bool) (int_digits frac_digits : list Z) (scale : Z) :
    option (Expr F) :=
  numerator ← intlit_to_literal negative 10 (int_digits ++ frac_digits);
  denominator ← intlit_to_literal false 10 (chars "1" ++ replicate (length frac_digits) (ch "0"));
  Some (Send (Var (chars "ScaledDecimal") span) (chars "numerator:denominator:scale:")
          [Lit numerator span; Lit denominator span; Lit (LInt scale) span] false span).

Definition parse_optional_temps : P (list (list Z)) :=
  b ← cur_is VBar;
  if negb b then mret [] else
  bump;;
  temps ← loop (fun temps =>
    t ← cur_tok;
    match t with
    | Ident n => span ← cur_span; check_not_reserved span n;; bump;; continue (temps ++ [n])
    | _ => break temps
    end) [];
  expect VBar (chars "expected closing '|' after temporaries");;
  mret temps.

Definition parse_unary_chain (e : Expr F) (is_super : bool) : P (Expr F * bool) :=
  loop (fun '(e, is_super) =>
    t ← cur_tok;
    match t with
    | Ident name =>
        span ← cur_span; bump;;
        continue (Send e name [] is_super span, false)
    | _ => break (e, is_super)
    end) (e, is_super).

Section expressions.
Context (expression : P (Expr F)).

Definition parse_dyn_array : P (Expr F) :=
  span ← cur_span;
  bump;;
  b ← cur_is RBrace;
  elems ← (if b : bool then mret [] else
    loop (fun elems =>
      e ← expression;
      let elems := elems ++ [e] in
      b ← cur_is Period;
      if b : bool then
        bump;;
        b ← cur_is RBrace;
        if b : bool then break elems else continue elems
      else break elems) []);
  expect RBrace (chars "expected '}' to close brace array");;
  mret (DynArray elems span).

Definition parse_statement : P (Expr F) :=
  b ← cur_is Caret;
  if b : bool then
    span ← cur_span; bump;;
    value ← expression;
    mret (Return value span)
  else expression.

Definition at_statements_end : P bool :=
  t ← cur_tok; mret (same_kind t RBracket || same_kind t Eof).

Definition parse_statements : P (list (Expr F)) :=
  b ← at_statements_end;
  if b : bool then mret [] else
  loop (fun stmts =>
    s ← parse_statement;
    let stmts := stmts ++ [s] in
    b ← cur_is Period;
    if b : bool then
      bump;;
      b ← at_statements_end;
      if b : bool then break stmts else continue stmts
    else break stmts) [].

Definition parse_block : P (BlockNode F) :=
  span ← cur_span;
  bump;;
  b ← cur_is Colon;
  params ← (if negb b then mret [] else
    params ← loop (fun params =>
      b ← cur_is Colon;
      if negb b then break params else
      bump;;
      pspan ← cur_span;
      name ← expect_ident (chars "expected a parameter name after ':'");
      check_not_reserved pspan name;;
      continue (params ++ [name])) [];
    expect VBar (chars "expected '|' after block parameters");;
    mret params);
  temps ← parse_optional_temps;
  body ← parse_statements;
  expect RBracket (chars "expected ']' to close block");;
  mret (MkBlock params temps body span 0).

(** A primary, and whether it was the word [super]. *)
Definition parse_primary : P (Expr F * bool) :=
  tok ← cur_tok; span ← cur_span;
  match tok with
  | Ident name =>
      bump;;
      mret (if bool_decide (name = chars "self") then (SelfRef span, false)
            else if bool_decide (name = chars "super") then (SelfRef span, true)
            else if bool_decide (name = chars "nil") then (Lit LNil span, false)
            else if bool_decide (name = chars "true") then (Lit LTrue span, false)
            else if bool_decide (name = chars "false") then (Lit LFalse span, false)
            else (Var name span, false))
  | LParen => bump;; e ← expression; close_paren (chars "expected ')'");; mret (e, false)
  | LBracket => b ← parse_block; mret (Block b, false)
  | IntLit negative radix digits =>
      bump;; value ← or_panic (intlit_to_literal negative radix digits); mret (Lit value span, false)
  | FloatLit v => bump;; mret (Lit (LFloat v) span, false)
  | ScaledLit negative int_digits frac_digits scale =>
      bump;;
      e ← or_panic (scaled_decimal span negative int_digits frac_digits scale); mret (e, false)
  | CharLit c => bump;; mret (Lit (LChar c) span, false)
  | StrLit s => bump;; mret (Lit (LStr s) span, false)
  | SymLit s => bump;; mret (Lit (LSymbol s) span, false)
  | LitArrayOpen => lit ← parse_array_literal; mret (Lit lit span, false)
  | ByteArrayOpen => lit ← parse_byte_array_literal; mret (Lit lit span, false)
  | LBrace => e ← parse_dyn_array; mret (e, false)
  | _ => error span (chars "expected an expression")
  end.

(** The chains answer the [is_super] flag their caller passed by reference. *)
Definition binary_of (t : Tok F) : option (list Z) :=
  match t with BinarySel s => Some s | VBar => Some (chars "|") | _ => None end.

Definition parse_binary_chain (base : Expr F) (is_super : bool) : P (Expr F * bool) :=
  st ← parse_unary_chain base is_super;
  loop (fun '(e, is_super) =>
    t ← cur_tok;
    match binary_of t with
    | None => break (e, is_super)
    | Some sel =>
        span ← cur_span; bump;;
        '(rhs_primary, rhs_is_super) ← parse_primary;
        '(rhs, _) ← parse_unary_chain rhs_primary rhs_is_super;
        continue (Send e sel [rhs] is_super span, false)
    end) st.

Definition parse_keyword_chain (base : Expr F) (is_super : bool) : P (Expr F * bool) :=
  '(e, is_super) ← parse_binary_chain base is_super;
  t ← cur_tok;
  match t with
  | Keyword _ =>
      span ← cur_span;
      '(sel, args) ← loop (fun '(sel, args) =>
        t ← cur_tok;
        match t with
        | Keyword k =>
            bump;;
            '(arg_primary, arg_is_super) ← parse_primary;
            '(arg, _) ← parse_binary_chain arg_primary arg_is_super;
            continue (sel ++ k, args ++ [arg])
        | _ => break (sel, args)
        end) ([], []);
      mret (Send e sel args is_super span, false)
  | _ => mret (e, is_super)
  end.

Definition parse_keyword_expr : P (Expr F) :=
  start ← cur_span;
  '(base, is_super) ← parse_primary;
  '(e, is_super) ← parse_keyword_chain base is_super;
  if is_super : bool then error start (chars "'super' must be the receiver of a message send")
  else mret e.

Definition parse_cascade : P (Expr F) :=
  cascade_span ← cur_span;
  first ← parse_keyword_expr;
  b ← cur_is Semi;
  if negb b then mret first else
  match first with
  | Send receiver selector args is_super send_span =>
      let rcvr_span := span_of receiver in
      segments ← loop (fun segments =>
        b ← cur_is Semi;
        if negb b then break segments else
        bump;;
        seg_start ← cur_span;
        '(seg, _) ← parse_keyword_chain (CascadeRcvr rcvr_span) is_super;
        if is_cascade_rcvr seg then error seg_start (chars "cascade segment has no message")
        else continue (segments ++ [seg])) [Send (CascadeRcvr rcvr_span) selector args is_super send_span];
      mret (Cascade receiver segments cascade_span)
  | other => error (span_of other) (chars "cascade requires a message send")
  end.

Definition parse_expression_with : P (Expr F) :=
  t ← cur_tok;
  match t with
  | Ident name =>
      t2 ← peek2;
      if same_kind t2 Assign then
        span ← cur_span;
        check_not_reserved span name;;
        bump;; bump;;
        value ← expression;
        mret (EAssign name value span)
      else parse_cascade
  | _ => parse_cascade
  end.
End expressions.

Fixpoint parse_expression_fuel (fuel : nat) : P (Expr F) :=
  match fuel with
  | O => fun _ => OutOfFuel
  | Datatypes.S fuel => parse_expression_with (parse_expression_fuel fuel)
  end.
Definition parse_expression : P (Expr F) := fun p => parse_expression_fuel (Datatypes.S (measure p)) p.

(** *** Pragmas *)
Definition skip_pragma_body (depth : Z) : P unit :=
  loop (fun depth =>
    t ← cur_tok;
    if is_sel (chars "<") t then bump;; continue (depth + 1)
    else if is_sel (chars ">") t then
      let depth := depth - 1 in
      if depth <? 0 then or_panic None else
      (if depth =? 0 then on_lexer (set_pragma_mode false) else mret tt);;
      bump;;
      if depth =? 0 then break tt else continue depth
    else if is_eof t then error_here (chars "unterminated pragma")
    else bump;; continue depth) depth.

Definition expect_ffi_sym (ctx : list Z) : P (list Z) :=
  t ← cur_tok;
  match t with
  | SymLit s => bump;; mret s
  | _ => error_here (chars "expected a symbol literal (#foo) after '" ++ ctx ++ chars "'")
  end.

Definition expect_ffi_bool (ctx : list Z) : P bool :=
  t ← cur_tok;
  let fails := error_here (chars "expected 'true' or 'false' after '" ++ ctx ++ chars "'") in
  match t with
  | Ident s =>
      if bool_decide (s = chars "true") then bump;; mret true
      else if bool_decide (s = chars "false") then bump;; mret false
      else fails
  | _ => fails
  end.

(** The symbols of a literal array, [None] when an element is not one. *)
Definition symbol_of (l : Literal F) : option (list Z) :=
  match l with LSymbol s => Some s | _ => None end.

Definition expect_ffi_sym_array (ctx : list Z) : P (list (list Z)) :=
  b ← cur_is LitArrayOpen;
  if negb b then error_here (chars "expected '#(' after '" ++ ctx ++ chars "'") else
  span ← cur_span;
  l ← parse_array_literal;
  match l with
  | LArray elems =>
      match mapM symbol_of elems with
      | Some ss => mret ss
      | None => error span (chars "'" ++ ctx ++ chars "' array elements must be bare shape symbols (g, f, h4, " ++ [0x2026] ++ chars ")")
      end
  | _ => or_panic None
  end.

(** The [Option] variables of [parse_ffi_pragma_body]. *)
Record ffi_parts := MkFfiParts {
  function : option (list Z);
  f_selector : option (list Z);
  class : option (list Z);
  f_class_side : option bool;
  f_ret : option (list Z);
  f_args : option (list (list Z)) }.
Definition no_parts : ffi_parts := MkFfiParts None None None None None None.

Definition dup_check {A} (start : Span) (slot : option A) (name : list Z) : P unit :=
  match slot with
  | Some _ => error start (chars "duplicate '" ++ name ++ chars "' in FFI pragma")
  | None => mret tt
  end.

Definition ffi_part (start : Span) (k : list Z) (f : ffi_parts) : P ffi_parts :=
  if bool_decide (k = chars "function:") then
    dup_check start (function f) k;; s ← expect_ffi_sym k;
    mret (MkFfiParts (Some s) (f_selector f) (class f) (f_class_side f) (f_ret f) (f_args f))
  else if bool_decide (k = chars "selector:") then
    dup_check start (f_selector f) k;; s ← expect_ffi_sym k;
    mret (MkFfiParts (function f) (Some s) (class f) (f_class_side f) (f_ret f) (f_args f))
  else if bool_decide (k = chars "class:") then
    dup_check start (class f) k;; s ← expect_ffi_sym k;
    mret (MkFfiParts (function f) (f_selector f) (Some s) (f_class_side f) (f_ret f) (f_args f))
  else if bool_decide (k = chars "classSide:") then
    dup_check start (f_class_side f) k;; b ← expect_ffi_bool k;
    mret (MkFfiParts (function f) (f_selector f) (class f) (Some b) (f_ret f) (f_args f))
  else if bool_decide (k = chars "ret:") then
    dup_check start (f_ret f) k;; s ← expect_ffi_sym k;
    mret (MkFfiParts (function f) (f_selector f) (class f) (f_class_side f) (Some s) (f_args f))
  else if bool_decide (k = chars "args:") then
    dup_check start (f_args f) k;; a ← expect_ffi_sym_array k;
    mret (MkFfiParts (function f) (f_selector f) (class f) (f_class_side f) (f_ret f) (Some a))
  else error start (chars "unknown keyword '" ++ k ++ chars "' in <primitive: FFI " ++ [0x2026] ++ chars ">").

Definition parse_ffi_pragma_body (start : Span) : P FfiPragma :=
  f ← loop (fun f =>
    b ← cur_is_sel (chars ">");
    if b : bool then break f else
    t ← cur_tok;
    match t with
    | Keyword k => bump;; f ← ffi_part start k f; continue f
    | _ => error_here (chars "expected a keyword part (function:/selector:/class:/classSide:/ret:/args:) in <primitive: FFI " ++ [0x2026] ++ chars ">")
    end) no_parts;
  on_lexer (set_pragma_mode false);;
  bump;;
  match f_ret f with
  | None => error start (chars "FFI pragma missing 'ret:'")
  | Some ret =>
      let args := default [] (f_args f) in
      match function f, f_selector f with
      | Some name, None => mret (Function name ret args)
      | None, Some selector =>
          match class f with
          | None => error start (chars "FFI 'selector:' pragma missing 'class:'")
          | Some class => mret (Selector selector class (default false (f_class_side f)) ret args)
          end
      | Some _, Some _ => error start (chars "FFI pragma must not specify both 'function:' (Tier 1) and 'selector:' (Tier 2)")
      | None, None => error start (chars "FFI pragma needs 'function:' (Tier 1, POSIX) or 'selector:' (Tier 2, Cocoa)")
      end
  end.

(** The [<primitive: N>] form, at the token after the keyword. *)
Definition parse_primitive_number (start : Span) : P (option Z * option FfiPragma) :=
  t ← cur_tok;
  match t with
  | IntLit negative radix digits =>
      bump;;
      b ← cur_is_sel (chars ">");
      if negb b then error start (chars "expected '>' to close <primitive: N>") else
      on_lexer (set_pragma_mode false);;
      bump;;
      if negative : bool then error start (chars "primitive id must not be negative") else
      mag ← or_panic (Lexer.int_lit_magnitude radix digits);
      let v := or_bytes 0 (take 8 mag) 0 in
      if (8 <? zlen mag) || (v =? 0) || (65535 <? v)
      then error start (chars "primitive id out of range 1..=65535")
      else mret (Some (u16 v), None)
  | _ => error start (chars "expected an integer after <primitive:")
  end.

Definition parse_method_pragma : P (option Z * option FfiPragma) :=
  start ← cur_span;
  on_lexer (set_pragma_mode true);;
  bump;;
  t ← cur_tok;
  match t with
  | Keyword k =>
      if bool_decide (k = chars "primitive:") then
        bump;;
        t ← cur_tok;
        if match t with Ident id => bool_decide (id = chars "FFI") | _ => false end then
          bump;; ffi ← parse_ffi_pragma_body start; mret (None, Some ffi)
        else parse_primitive_number start
      else skip_pragma_body 1;; mret (None, None)
  | _ => skip_pragma_body 1;; mret (None, None)
  end.

Inductive ClassPragma :=
  | PIndexable (i : Indexable)
  | PClassVars (names : list (list Z))
  | PIgnored.

Definition parse_indexable (start : Span) : P ClassPragma :=
  t ← cur_tok;
  match t with
  | Ident kind =>
      bump;;
      b ← cur_is_sel (chars ">");
      if b : bool then
        on_lexer (set_pragma_mode false);; bump;;
        if bool_decide (kind = chars "oops") then mret (PIndexable Oops)
        else if bool_decide (kind = chars "bytes") then mret (PIndexable Bytes)
        else error start (chars "<indexable:> argument must be 'oops' or 'bytes', got '" ++ kind ++ chars "'")
      else error start (chars "malformed <indexable:> pragma")
  | _ => error start (chars "malformed <indexable:> pragma")
  end.

Definition parse_class_vars (start : Span) : P ClassPragma :=
  names ← loop (fun names =>
    t ← cur_tok;
    match t with Ident n => bump;; continue (names ++ [n]) | _ => break names end) [];
  b ← cur_is_sel (chars ">");
  if b : bool then on_lexer (set_pragma_mode false);; bump;; mret (PClassVars names)
  else error start (chars "malformed <classVars:> pragma").

Definition parse_class_pragma : P ClassPragma :=
  start ← cur_span;
  on_lexer (set_pragma_mode true);;
  bump;;
  t ← cur_tok;
  let ignored := (skip_pragma_body 1;; mret PIgnored) in
  match t with
  | Keyword k =>
      if bool_decide (k = chars "indexable:") then bump;; parse_indexable start
      else if bool_decide (k = chars "classVars:") then bump;; parse_class_vars start
      else ignored
  | _ => ignored
  end.

(** *** Methods *)
Definition parse_parameter (m : list Z) : P (list Z) :=
  pspan ← cur_span; p ← expect_ident m; check_not_reserved pspan p;; mret p.

Definition parse_pattern : P (list Z * list (list Z)) :=
  t ← cur_tok;
  match t with
  | Ident name => bump;; mret (name, [])
  | BinarySel sel =>
      bump;; p ← parse_parameter (chars "expected a parameter name after binary selector"); mret (sel, [p])
  | VBar => bump;; p ← parse_parameter (chars "expected a parameter name after '|'"); mret (chars "|", [p])
  | Keyword _ =>
      loop (fun '(sel, params) =>
        t ← cur_tok;
        match t with
        | Keyword k =>
            bump;; p ← parse_parameter (chars "expected a parameter name after keyword");
            continue (sel ++ k, params ++ [p])
        | _ => break (sel, params)
        end) ([], [])
  | _ => error_here (chars "invalid method pattern")
  end.

Definition method_body : Type := option Z * option FfiPragma * list (list Z) * list (Expr F).

Definition parse_method_body : P method_body :=
  '(primitive, ffi) ← loop (fun '(primitive, ffi) =>
    b ← cur_is_sel (chars "<");
    if negb b then break (primitive, ffi) else
    prim_span ← cur_span;
    '(id, pragma_ffi) ← parse_method_pragma;
    if bool_decide (is_Some id) || bool_decide (is_Some pragma_ffi) then
      if bool_decide (is_Some primitive) || bool_decide (is_Some ffi)
      then error prim_span (chars "duplicate primitive pragma")
      else continue (id, pragma_ffi)
    else continue (primitive, ffi)) (None, None);
  temps ← parse_optional_temps;
  body ← parse_statements parse_expression;
  mret (primitive, ffi, temps, body).

Definition parse_method (class_side : bool) : P (MethodNode F) :=
  span ← cur_span;
  '(pattern_selector, params) ← parse_pattern;
  expect LBracket (chars "expected '[' to start method body");;
  '(primitive, ffi, temps, body) ← parse_method_body;
  expect RBracket (chars "expected ']' to close method body");;
  mret (MkMethod pattern_selector params primitive ffi temps body class_side span).

(** *** Class definitions *)

(** [indexable], [inst_vars], [class_vars] and [methods] of the loop. *)
Record class_parts := MkClassParts {
  p_indexable : option Indexable;
  p_inst_vars : list (list Z);
  p_class_vars : list (list Z);
  p_methods : list (MethodNode F) }.

Definition add_method (c : class_parts) (m : MethodNode F) : class_parts :=
  MkClassParts (p_indexable c) (p_inst_vars c) (p_class_vars c) (p_methods c ++ [m]).
Definition add_inst_vars (c : class_parts) (ns : list (list Z)) : class_parts :=
  MkClassParts (p_indexable c) (p_inst_vars c ++ ns) (p_class_vars c) (p_methods c).
Definition add_pragma (c : class_parts) (g : ClassPragma) : class_parts :=
  match g with
  | PIndexable i => MkClassParts (Some i) (p_inst_vars c) (p_class_vars c) (p_methods c)
  | PClassVars ns => MkClassParts (p_indexable c) (p_inst_vars c) (p_class_vars c ++ ns) (p_methods c)
  | PIgnored => c
  end.

Definition is_ident (t : Tok F) : bool := match t with Ident _ => true | _ => false end.

(** After a [<]: a pragma, unless an identifier follows (a binary method). *)
Definition class_item_lt (c : class_parts) : P class_parts :=
  t2 ← peek2;
  if is_ident t2 then m ← parse_method false; mret (add_method c m)
  else g ← parse_class_pragma; mret (add_pragma c g).

(** A [|]: a binary method named [|], or instance variables. *)
Definition vbar_method (c : class_parts) : P class_parts :=
  mspan ← cur_span;
  param ← expect_ident (chars "expected a parameter name");
  check_not_reserved mspan param;;
  expect LBracket (chars "expected '['");;
  '(primitive, ffi, temps, body) ← parse_method_body;
  expect RBracket (chars "expected ']'");;
  mret (add_method c (MkMethod (chars "|") [param] primitive ffi temps body false mspan)).

Definition vbar_inst_vars (c : class_parts) : P class_parts :=
  names ← loop (fun names =>
    t ← cur_tok;
    match t with
    | Ident n => span ← cur_span; check_not_reserved span n;; bump;; continue (names ++ [n])
    | _ => break names
    end) [];
  expect VBar (chars "expected closing '|' after instance variables");;
  mret (add_inst_vars c names).

Definition class_item_vbar (c : class_parts) : P class_parts :=
  bump;;
  t ← cur_tok;
  is_binary_method ← (if is_ident t then t2 ← peek2; mret (same_kind t2 LBracket) else mret false);
  if is_binary_method : bool then vbar_method c else vbar_inst_vars c.

(** An identifier: a class-side method [Name class >> pattern], or a unary method. *)
Definition class_item_ident (name ident_name : list Z) (c : class_parts) : P class_parts :=
  t2 ← peek2;
  if match t2 with Ident n => bool_decide (n = chars "class") | _ => false end then
    mspan ← cur_span;
    bump;; bump;;
    if negb (bool_decide (ident_name = name)) then
      error mspan (chars "'" ++ ident_name ++ chars " class' does not match the class being defined ('" ++ name ++ chars "')")
    else
      b ← cur_is_sel (chars ">>");
      if negb b then error_here (chars "expected '>>' after 'class'") else
      bump;;
      m ← parse_method true; mret (add_method c m)
  else m ← parse_method false; mret (add_method c m).

Definition parse_class_def : P (ClassDefNode F) :=
  span ← cur_span;
  superclass ← expect_ident (chars "expected superclass name");
  expect_keyword (chars "subclass:");;
  name ← expect_ident (chars "expected new class name");
  expect LBracket (chars "expected '[' to start class body");;
  c ← loop (fun c =>
    t ← cur_tok;
    match t with
    | RBracket => break c
    | Eof => error_here (chars "unexpected end of input in class body")
    | VBar => c ← class_item_vbar c; continue c
    | Ident ident_name => c ← class_item_ident name ident_name c; continue c
    | BinarySel s =>
        if bool_decide (s = chars "<") then c ← class_item_lt c; continue c
        else m ← parse_method false; continue (add_method c m)
    | Keyword _ => m ← parse_method false; continue (add_method c m)
    | _ => error_here (chars "expected a class item")
    end) (MkClassParts None [] [] []);
  bump;;
  mret (MkClassDef superclass name (p_indexable c) (p_inst_vars c) (p_class_vars c) (p_methods c) span).

(** *** Entry points *)
Definition at_class_def : P bool :=
  t ← cur_tok;
  if is_ident t then
    t2 ← peek2; mret (match t2 with Keyword k => bool_decide (k = chars "subclass:") | _ => false end)
  else mret false.

Definition parse_items : P (list (TopItem F)) :=
  loop (fun items =>
    b ← cur_is Eof;
    if b : bool then break items else
    is_class_def ← at_class_def;
    if is_class_def : bool then c ← parse_class_def; continue (items ++ [ClassDef c])
    else
      stmt ← parse_statement parse_expression;
      expect Period (chars "expected '.' after top-level statement");;
      continue (items ++ [DoIt stmt])) [].

Definition parse_one : P (option (TopItem F)) :=
  b ← cur_is Eof;
  if b : bool then mret None else
  is_class_def ← at_class_def;
  if is_class_def : bool then c ← parse_class_def; mret (Some (ClassDef c))
  else
    stmt ← parse_statement parse_expression;
    b ← cur_is Eof;
    (if negb b then expect Period (chars "expected '.' after statement") else mret tt);;
    mret (Some (DoIt stmt)).

Definition run {A} (m : P A) (input : S) : outcome A :=
  match new input with
  | Done _ p => m p
  | Fails e => Fails e
  | OutOfFuel => OutOfFuel
  | Panics => Panics
  end.
Definition parse_file (input : S) : outcome (list (TopItem F)) := run parse_items input.
Definition parse_one_top_item (input : S) : outcome (option (TopItem F)) := run parse_one input.

End parser.

(** The parser over the lexer: the two entry points of the source. *)
Definition lexer_source {F} (parse_f64 : list Z -> option F) (neg_f64 : F -> F) : TokenSource F Lexer.lexer := {|
  next_token := Lexer.next_token parse_f64 neg_f64;
  set_in_literal_seq := Lexer.set_in_literal_seq;
  set_pragma_mode := Lexer.set_pragma_mode;
  remaining l := length (Lexer.rest l) |}.

Section entry.
Context {F : Type} (parse_f64 : list Z -> option F) (neg_f64 : F -> F).
Let source : TokenSource F Lexer.lexer := lexer_source parse_f64 neg_f64.

Definition parse_file_text (input : list Z) : outcome (list (TopItem F)) :=
  @parse_file F Lexer.lexer source (Lexer.new input).
Definition parse_one_top_item_text (input : list Z) : outcome (option (TopItem F)) :=
  @parse_one_top_item F Lexer.lexer source (Lexer.new input).
End entry.

(** ** What the parser guarantees

    A well-formed token; the interface's laws. *)
Definition tok_ok {F} (t : Tok F) : Prop :=
  match t with
  | IntLit _ radix digits => 2 <= radix <= 36 /\ Forall (Lexer.is_digit_of radix) digits
  | ScaledLit _ int_digits frac_digits scale =>
      Forall (Lexer.is_digit_of 10) (int_digits ++ frac_digits) /\ 0 <= scale <= 65535
  | Ident s => num_colons s = 0%nat /\ is_binary_sel s = false
  | Keyword s => num_colons s = 1%nat
  | BinarySel s => is_binary_sel s = true
  | _ => True
  end.

Definition tok_is_eof {F} (t : Tok F) : bool := match t with Eof => true | _ => false end.

Class TokenSourceOk (F S : Type) `{TokenSource F S} := {
  literal_mode : S -> bool;
  next_token_ok (s : S) : match next_token s with
    | inl _ => True
    | inr (t, s') => tok_ok t.1 /\ literal_mode s' = literal_mode s /\
        (remaining s' + (if tok_is_eof t.1 then 0 else 1) <= remaining s)%nat
    end;
  set_literal_ok (b : bool) (s : S) : literal_mode (set_in_literal_seq b s) = b;
  set_literal_remaining (b : bool) (s : S) : remaining (set_in_literal_seq b s) = remaining s;
  set_pragma_ok (b : bool) (s : S) : literal_mode (set_pragma_mode b s) = literal_mode s;
  set_pragma_remaining (b : bool) (s : S) : remaining (set_pragma_mode b s) = remaining s }.

(** *** Integer literals *)
Lemma or_bytes_value mag : Forall (inU 8) mag -> forall i v, 0 <= i -> i + zlen mag <= 8 -> inU (8 * i) v ->
  or_bytes i mag v = v + 2 ^ (8 * i) * Lexer.le_value mag.
Proof.
  induction 1 as [|b mag Hb Hm IH]; intros i v Hi Hl Hv; cbn [or_bytes].
  - cbn. lia.
  - replace (zlen (b :: mag)) with (zlen mag + 1) in Hl by (unfold zlen; cbn [length]; lia).
    assert (0 <= zlen mag) by (unfold zlen; lia).
    assert (Hs : Z.shiftl b (8 * i) = 2 ^ (8 * i) * b) by (rewrite Z.shiftl_mul_pow2 by lia; lia).
    assert (Hp : 2 ^ (8 * i + 8) = 2 ^ (8 * i) * 256) by (rewrite Z.pow_add_r by lia; reflexivity).
    assert (0 < 2 ^ (8 * i)) by (apply Z.pow_pos_nonneg; lia).
    unfold inU in Hb, Hv. change (2 ^ 8) with 256 in Hb.
    rewrite wrapU_id.
    2: { unfold inU. rewrite Hs. split; [nia|]. apply Z.lt_le_trans with (2 ^ (8 * i + 8)); [nia|].
         apply Z.pow_le_mono_r; lia. }
    assert (Hor : Z.lor v (Z.shiftl b (8 * i)) = v + 2 ^ (8 * i) * b).
    { rewrite <- Hs. pose proof (Z.add_lor_land v (Z.shiftl b (8 * i))) as Hsum.
      assert (Z.land v (Z.shiftl b (8 * i)) = 0) as Hz; [|lia].
      apply Z.bits_inj'. intros k Hk. rewrite Z.land_spec, Z.bits_0. destruct (Z.lt_ge_cases k (8 * i)).
      - rewrite (Z.shiftl_spec_low b) by lia. apply andb_false_r.
      - rewrite <- (Z.mod_small v (2 ^ (8 * i))), Z.mod_pow2_bits_high by lia. done. }
    rewrite Hor, IH; [|lia|lia|].
    + replace (8 * (i + 1)) with (8 * i + 8) by lia. rewrite Hp. cbn [Lexer.le_value foldr].
      fold (Lexer.le_value mag). lia.
    + unfold inU. replace (8 * (i + 1)) with (8 * i + 8) by lia. rewrite Hp. nia.
Qed.

Lemma or_bytes_le_value mag : Forall (inU 8) mag -> zlen mag <= 8 -> or_bytes 0 mag 0 = Lexer.le_value mag.
Proof. intros Hm Hl. rewrite or_bytes_value; [|done|lia|lia|unfold inU; cbn; lia]. cbn. lia. Qed.

Lemma le_value_lower mag : Forall (inU 8) mag -> Lexer.canonical mag -> mag <> [] ->
  256 ^ (zlen mag - 1) <= Lexer.le_value mag.
Proof.
  intros Hm Hc Hne. destruct mag as [|b mag _] using rev_ind; [done|].
  unfold Lexer.canonical in Hc. rewrite last_snoc in Hc.
  apply Forall_app in Hm as [Hm [Hb _]%Forall_cons]. unfold inU in Hb.
  rewrite Lexer.le_value_app. pose proof (Lexer.le_value_nonneg mag Hm).
  replace (zlen (mag ++ [b]) - 1) with (zlen mag) by (unfold zlen; rewrite length_app; cbn; lia).
  assert (0 < 256 ^ zlen mag) by (apply Z.pow_pos_nonneg; unfold zlen; lia).
  assert (b <> 0) by congruence. change (Lexer.le_value [b]) with (b + 256 * 0).
  assert (1 <= b) by lia. set (w := 256 ^ zlen mag) in *. nia.
Qed.

Lemma smi_range (v : Z) : (SMI_MIN <=? v) && (v <=? SMI_MAX) = true <-> - 2 ^ 61 <= v <= 2 ^ 61 - 1.
Proof.
  change SMI_MIN with (- 2 ^ 61). change SMI_MAX with (2 ^ 61 - 1). by rewrite andb_true_iff, !Z.leb_le.
Qed.

Lemma bigint_ok {F} (negative : bool) (mag : list Z) : Forall (inU 8) mag -> Lexer.canonical mag ->
  (let v := if negative then - Lexer.le_value mag else Lexer.le_value mag in ~ (- 2 ^ 61 <= v <= 2 ^ 61 - 1)) ->
  literal_ok (@LBigInt F negative mag) = true.
Proof.
  intros Hb Hc Hv. cbn [literal_ok]. rewrite !andb_true_iff, !negb_true_iff. split_and!.
  - apply forallb_forall. intros b Hin. rewrite Forall_forall in Hb.
    apply list_elem_of_In, Hb in Hin. unfold inU in Hin. lia.
  - by apply bool_decide_eq_false.
  - apply not_true_is_false. by rewrite smi_range.
Qed.

Lemma intlit_to_literal_ok {F} negative radix digits : 2 <= radix <= 36 ->
  Forall (Lexer.is_digit_of radix) digits ->
  exists l : Literal F, intlit_to_literal negative radix digits = Some l /\ literal_ok l = true /\
    int_value l = Some ((if negative then -1 else 1) * Lexer.digits_value radix digits).
Proof.
  intros Hr Hd. destruct (Lexer.int_lit_magnitude_value radix digits Hr Hd) as (mag & Hmag & Hb & Hcan & Hval).
  unfold intlit_to_literal. rewrite Hmag. set (n := Lexer.digits_value radix digits) in *.
  assert (0 <= n) by (rewrite <- Hval; by apply Lexer.le_value_nonneg).
  change (u64 (Z.abs SMI_MIN)) with (2 ^ 61). change (u64 SMI_MAX) with (2 ^ 61 - 1).
  assert (Hbig : zlen mag <= 8 \/ 2 ^ 64 <= n).
  { destruct (Z.le_gt_cases (zlen mag) 8); [by left|]. right. rewrite <- Hval.
    etransitivity; [|apply le_value_lower; [done|done|by intros ->]].
    change (2 ^ 64) with (256 ^ 8). apply Z.pow_le_mono_r; lia. }
  assert (Hv : int_value (@LBigInt F negative mag) = Some ((if negative then -1 else 1) * n)).
  { cbn [int_value]. rewrite Hval. destruct negative; f_equal; lia. }
  destruct (zlen mag <=? 8) eqn:Hl; cbn [andb].
  - rewrite or_bytes_le_value, Hval by (done || lia).
    destruct negative; destruct (n <=? _) eqn:Hf; eexists; (split; [reflexivity|]).
    all: try (rewrite wrapS_id by (unfold inS; change (64 - 1) with 63; lia)).
    all: split; [|exact Hv || (cbn [int_value]; f_equal; lia)].
    all: first [apply bigint_ok; [done..|] | apply smi_range]; rewrite ?Hval; lia.
  - eexists. split; [reflexivity|]. split; [|exact Hv].
    apply bigint_ok; [done..|]. rewrite Hval. destruct negative; lia.
Qed.

(** *** Reasoning about parsing computations *)
Section wp.
Context {F S : Type} `{TokenSourceOk F S}.
#[local] Abbreviation M := (@P F S).
#[local] Abbreviation pstate := (@parser F S).

Definition wp {A} (m : M A) (p : pstate) (Q : A -> pstate -> Prop) : Prop :=
  match m p with Done a p' => Q a p' | Fails _ => True | OutOfFuel | Panics => False end.

(** The tokens held are well formed, and the lexer is in literal mode exactly
    inside a literal. *)
Definition good (p : pstate) : Prop :=
  tok_ok (cur p).1 /\ match peeked p with Some t => tok_ok t.1 | None => True end /\
  0 <= literal_seq_depth p /\ literal_mode (lx p) = (0 <? literal_seq_depth p).

(** [p'] comes after [p], at least [k] tokens on, at the same literal depth. *)
Definition after (k : nat) (p p' : pstate) : Prop :=
  good p' /\ literal_seq_depth p' = literal_seq_depth p /\ (measure p' + k <= measure p)%nat.

Lemma after_refl p : good p -> after 0 p p.
Proof. unfold after. intros Hg. split_and!; [done|done|lia]. Qed.

Lemma after_trans k1 k2 p1 p2 p3 : after k1 p1 p2 -> after k2 p2 p3 -> after (k1 + k2) p1 p3.
Proof. intros (A1 & A2 & A3) (B1 & B2 & B3). split_and!; [done|congruence|lia]. Qed.

Lemma after_good k p p' : after k p p' -> good p'.
Proof. by intros (Hg & _). Qed.

Lemma after_measure k p p' : after k p p' -> (measure p' + k <= measure p)%nat.
Proof. by intros (_ & _ & Hm). Qed.

Lemma pm_mono {A} (m : M A) p (Q R : A -> pstate -> Prop) :
  wp m p Q -> (forall a p', Q a p' -> R a p') -> wp m p R.
Proof. unfold wp. destruct (m p); auto. Qed.

Lemma pm_bind {A B} (m : M A) (k : A -> M B) p Q :
  wp m p (fun a p' => wp (k a) p' Q) -> wp (m ≫= k) p Q.
Proof. unfold wp, mbind, P_bind. by destruct (m p). Qed.

Lemma pm_ret {A} (a : A) p Q : Q a p -> wp (mret a : M A) p Q.
Proof. done. Qed.

Lemma wp_cur_tok {B} (k : Tok F -> M B) p Q : wp (k (cur p).1) p Q -> wp (cur_tok ≫= k) p Q.
Proof. done. Qed.
Lemma wp_cur_span {B} (k : Span -> M B) p Q : wp (k (cur p).2) p Q -> wp (cur_span ≫= k) p Q.
Proof. done. Qed.
Lemma wp_cur_is {B} want (k : bool -> M B) p Q :
  wp (k (same_kind (cur p).1 want)) p Q -> wp (cur_is want ≫= k) p Q.
Proof. done. Qed.
Lemma wp_cur_is_sel {B} s (k : bool -> M B) p Q :
  wp (k (is_sel s (cur p).1)) p Q -> wp (cur_is_sel s ≫= k) p Q.
Proof. done. Qed.
Lemma wp_error {A} span m p (Q : A -> pstate -> Prop) : wp (error span m) p Q.
Proof. done. Qed.
Lemma wp_error_here {A} m p (Q : A -> pstate -> Prop) : wp (error_here m) p Q.
Proof. done. Qed.
Lemma wp_ret_bind {A B} (a : A) (k : A -> M B) p Q : wp (k a) p Q -> wp (mret a ≫= k) p Q.
Proof. done. Qed.

Lemma wp_or_panic {A} (o : option A) a p (Q : A -> pstate -> Prop) : o = Some a -> Q a p -> wp (or_panic o) p Q.
Proof. by intros ->. Qed.

Lemma weight_le t : (weight (F:=F) t <= 1)%nat.
Proof. unfold weight. destruct (is_eof t.1); lia. Qed.

Lemma wp_bump_weight p : good p -> wp bump p (fun _ p' => after (weight (cur p)) p p').
Proof.
  intros (G1 & G2 & G3 & G4). unfold wp, bump, after, good, measure. destruct (peeked p) as [t|] eqn:E; cbn.
  - split_and!; try done. lia.
  - pose proof (next_token_ok (lx p)) as Hn. destruct (next_token (lx p)) as [e|[t lx']]; [done|].
    destruct Hn as (N1 & N2 & N3). cbn. split_and!; try done; [congruence|].
    unfold weight at 1. change (is_eof t.1) with (tok_is_eof t.1). destruct (tok_is_eof t.1); lia.
Qed.

Lemma wp_bump p (Q : unit -> pstate -> Prop) : good p -> is_eof (cur p).1 = false ->
  (forall p', after 1 p p' -> Q tt p') -> wp bump p Q.
Proof.
  intros Hg He HQ. eapply pm_mono; [by apply wp_bump_weight|]. intros [] p' Ha. apply HQ.
  unfold weight in Ha. by rewrite He in Ha.
Qed.

Lemma wp_bump_any p (Q : unit -> pstate -> Prop) : good p ->
  (forall p', after 0 p p' -> Q tt p') -> wp bump p Q.
Proof.
  intros Hg HQ. eapply pm_mono; [by apply wp_bump_weight|]. intros [] p' (A1 & A2 & A3). apply HQ.
  split_and!; [done|done|lia].
Qed.

Lemma wp_peek2 p (Q : Tok F -> pstate -> Prop) : good p ->
  (forall t p', after 0 p p' -> cur p' = cur p -> Q t p') -> wp peek2 p Q.
Proof.
  intros (G1 & G2 & G3 & G4) HQ. unfold wp, peek2. destruct (peeked p) as [t|] eqn:E.
  - apply HQ; [|done]. split_and!; [|done|lia]. split_and!; try done. by rewrite E.
  - pose proof (next_token_ok (lx p)) as Hn. destruct (next_token (lx p)) as [e|[t lx']]; [done|].
    destruct Hn as (N1 & N2 & N3). apply HQ; [|done]. unfold after, good, measure. rewrite E. cbn.
    split_and!; try done; [congruence|].
    unfold weight at 2. change (is_eof t.1) with (tok_is_eof t.1). destruct (tok_is_eof t.1); lia.
Qed.

Lemma same_kind_eof t (want : Tok F) : same_kind t want = true -> is_eof want = false -> is_eof t = false.
Proof. by destruct t, want. Qed.

Lemma is_sel_eof s (t : Tok F) : is_sel s t = true -> is_eof t = false.
Proof. by destruct t. Qed.

Lemma wp_expect want m p (Q : unit -> pstate -> Prop) : good p -> is_eof want = false ->
  (forall p', after 1 p p' -> Q tt p') -> wp (expect want m) p Q.
Proof.
  intros Hg He HQ. unfold expect. apply wp_cur_is. destruct (same_kind _ _) eqn:E; [|done].
  apply wp_bump; [done|by eapply same_kind_eof|done].
Qed.

Lemma wp_close_paren m p (Q : unit -> pstate -> Prop) : good p ->
  (forall p', after 1 p p' -> Q tt p') -> wp (close_paren m) p Q.
Proof.
  intros Hg HQ. unfold close_paren. apply wp_cur_is. destruct (same_kind _ _) eqn:E; [|done].
  apply wp_bump; [done|by eapply same_kind_eof|done].
Qed.

Lemma wp_expect_ident m p (Q : list Z -> pstate -> Prop) : good p ->
  (forall n p', after 1 p p' -> Q n p') -> wp (expect_ident m) p Q.
Proof.
  intros Hg HQ. unfold expect_ident. apply wp_cur_tok. destruct (cur p).1 eqn:E; try done.
  apply pm_bind, wp_bump; [done|by rewrite E|]. intros p' Ha. by apply pm_ret, HQ.
Qed.

Lemma wp_expect_keyword kw p (Q : unit -> pstate -> Prop) : good p ->
  (forall p', after 1 p p' -> Q tt p') -> wp (expect_keyword kw) p Q.
Proof.
  intros Hg HQ. unfold expect_keyword. apply wp_cur_tok. destruct (cur p).1 eqn:E; try done.
  destruct (bool_decide _); [|done]. apply wp_bump; [done|by rewrite E|done].
Qed.

Lemma wp_check_not_reserved span name p (Q : unit -> pstate -> Prop) :
  (is_reserved name = false -> Q tt p) -> wp (check_not_reserved span name) p Q.
Proof. unfold check_not_reserved. destruct (is_reserved name); [done|]. intros HQ. by apply HQ. Qed.

(** The loop rule: an invariant that each further round re-establishes with
    less of the input left. *)
Lemma wp_loop {A B} (I : A -> pstate -> Prop) (body : A -> M (A + B)) a p Q : I a p ->
  (forall a p, I a p -> wp (body a) p (fun r p' =>
     match r with inl a' => I a' p' /\ (measure p' < measure p)%nat | inr b => Q b p' end)) ->
  wp (loop body a) p Q.
Proof.
  intros Ha Hbody. unfold loop.
  assert (forall n a p, I a p -> (measure p < n)%nat -> wp (loop_fuel n body a) p Q) as Hgen; [|by apply Hgen; [|lia]].
  clear a p Ha. induction n as [|n IH]; intros a p Ha Hn; [lia|]. cbn [loop_fuel].
  apply pm_bind. eapply pm_mono; [by apply Hbody|]. intros [a'|b] p'; cbn.
  - intros [Ha' Hm]. apply IH; [done|lia].
  - intros HQ. by apply pm_ret.
Qed.

(** Fuel computed from the state. *)
Lemma wp_measured {A} (f : nat -> M A) p Q :
  wp (f (Datatypes.S (measure p))) p Q -> wp (fun p => f (Datatypes.S (measure p)) p) p Q.
Proof. done. Qed.

(** Changing the lexer's pragma mode moves nothing. *)
Lemma wp_pragma b p (Q : unit -> pstate -> Prop) : good p ->
  (forall p', after 0 p p' -> cur p' = cur p -> Q tt p') -> wp (on_lexer (set_pragma_mode b)) p Q.
Proof.
  intros (G1 & G2 & G3 & G4) HQ. apply HQ; [|done]. unfold after, good, measure. cbn.
  rewrite set_pragma_ok, set_pragma_remaining. split_and!; try done; lia.
Qed.
End wp.

(** Closes [after k p p'] from the chain of such facts in the context. *)
Ltac solve_after :=
  repeat match goal with H : after _ _ _ |- _ => destruct H as (?&?&?) end;
  split_and!; [assumption|congruence|lia].
Ltac good := solve [eauto using after_good].
(** One step of the monad. *)
Ltac wstep :=
  cbv beta zeta; unfold continue, break;
  lazymatch goal with
  | |- wp (error _ _) _ _ => apply wp_error
  | |- wp (error_here _) _ _ => apply wp_error_here
  | |- wp (cur_tok ≫= _) _ _ => apply wp_cur_tok
  | |- wp (cur_span ≫= _) _ _ => apply wp_cur_span
  | |- wp (cur_is _ ≫= _) _ _ => apply wp_cur_is
  | |- wp (cur_is_sel _ ≫= _) _ _ => apply wp_cur_is_sel
  | |- wp (mret _ ≫= _) _ _ => apply wp_ret_bind
  | |- wp (mret _) _ _ => apply pm_ret
  | |- wp (_ ≫= _) _ _ => apply pm_bind
  end; cbv beta zeta.
Ltac measures :=
  repeat match goal with H : after _ _ _ |- _ => apply after_measure in H end; lia.

Section literal_wp.
Context {F S : Type} `{TokenSourceOk F S}.
#[local] Abbreviation M := (@P F S).
#[local] Abbreviation pstate := (@parser F S).

Lemma wp_enter (p : pstate) (Q : unit -> pstate -> Prop) : good p ->
  (forall p', good p' -> literal_seq_depth p' = literal_seq_depth p + 1 -> measure p' = measure p ->
     cur p' = cur p -> Q tt p') -> wp enter_literal_seq p Q.
Proof.
  intros (G1 & G2 & G3 & G4) HQ. apply HQ; [|done| |done]; unfold good, measure; cbn.
  - split_and!; try done; [lia|]. rewrite (proj2 (Z.ltb_lt _ _)) by lia.
    destruct (_ =? 1) eqn:E; [by rewrite set_literal_ok|]. rewrite G4. lia.
  - destruct (_ =? 1); [by rewrite set_literal_remaining|done].
Qed.

Lemma wp_exit (p : pstate) (Q : unit -> pstate -> Prop) : good p -> 1 <= literal_seq_depth p ->
  (forall p', good p' -> literal_seq_depth p' = literal_seq_depth p - 1 -> measure p' = measure p ->
     cur p' = cur p -> Q tt p') -> wp exit_literal_seq p Q.
Proof.
  intros (G1 & G2 & G3 & G4) Hd HQ. unfold wp, exit_literal_seq. cbv zeta.
  rewrite (proj2 (Z.ltb_ge _ _)) by lia. apply HQ; [|done| |done]; unfold good, measure; cbn.
  - split_and!; try done; [lia|]. destruct (_ =? 0) eqn:E; [rewrite set_literal_ok|rewrite G4]; lia.
  - destruct (_ =? 0); [by rewrite set_literal_remaining|done].
Qed.

Lemma wp_glue_keywords (p : pstate) k (Q : list Z -> pstate -> Prop) : good p -> (cur p).1 = Keyword k ->
  (forall s p', after 1 p p' -> Q s p') -> wp glue_keywords p Q.
Proof.
  intros Hg Hk HQ. unfold glue_keywords.
  eapply (wp_loop (fun '(_, ec) p' => (ec = None /\ p' = p) \/ after 1 p p')); [by left|].
  intros [sel ec] p1 HI. wstep. wstep.
  destruct (cur p1).1 eqn:Hc; try (destruct HI as [[-> ->]|Ha]; [congruence|by wstep; apply HQ]).
  assert (Hg1 : good p1) by (destruct HI as [[-> ->]|]; [done|good]).
  destruct (match ec with Some c => _ | None => _ end) eqn:Hec.
  - destruct HI as [[-> ->]|Ha]; [done|]. wstep. by apply HQ.
  - wstep. apply wp_bump; [done|by rewrite Hc|]. intros p2 Ha2. wstep.
    split; [|measures]. right. destruct HI as [[-> ->]|Ha]; [done|solve_after].
Qed.

Definition literals (n : nat) (elem : M (Literal F)) : Prop := forall p, good p -> (measure p < n)%nat ->
  wp elem p (fun l p' => after 1 p p' /\ literal_ok l = true).

Lemma wp_array_elems n elem (p : pstate) (Q : list (Literal F) -> pstate -> Prop) :
  literals n elem -> good p -> (measure p < n)%nat ->
  (forall ls p', after 0 p p' -> forallb literal_ok ls = true -> Q ls p') ->
  wp (parse_array_elems elem) p Q.
Proof.
  intros He Hg Hn HQ. unfold parse_array_elems.
  eapply (wp_loop (fun ls p' => after 0 p p' /\ forallb literal_ok ls = true)); [by split; [apply after_refl|]|].
  intros ls p1 [Ha Hls]. wstep. destruct (same_kind _ _); [by wstep; apply HQ|].
  wstep. eapply pm_mono; [apply He; [good|measures]|]. intros l p2 [Ha2 Hl]. wstep.
  split; [split; [solve_after|]|measures]. rewrite forallb_app, Hls. cbn. by rewrite Hl.
Qed.

Lemma wp_array_literal n elem (p : pstate) (Q : Literal F -> pstate -> Prop) :
  literals n elem -> good p -> (measure p <= n)%nat -> is_eof (cur p).1 = false ->
  (forall l p', after 1 p p' -> literal_ok l = true -> Q l p') -> wp (array_literal elem) p Q.
Proof.
  intros He Hg Hn Hc HQ. unfold array_literal.
  wstep. apply wp_enter; [done|]. intros p1 G1 D1 M1 C1. wstep. apply wp_bump; [done|by rewrite C1|].
  intros p2 A2. wstep. eapply wp_array_elems; [done|good|measures|]. intros ls p3 A3 Hls.
  wstep. destruct (same_kind _ _) eqn:Hk; cbn [negb]; [|wstep].
  wstep. apply wp_exit; [good| |].
  { destruct A2 as (_ & D2 & _), A3 as (_ & D3 & _), Hg as (_ & _ & D & _). lia. }
  intros p4 G4 D4 M4 C4. wstep. apply wp_bump; [done|rewrite C4; by eapply same_kind_eof|].
  intros p5 A5. wstep. apply HQ; [|done].
  destruct A2 as (_ & D2 & ?), A3 as (_ & D3 & ?), A5 as (G5 & D5 & ?). split_and!; [done|lia|lia].
Qed.

Lemma wp_byte_array_literal (p : pstate) (Q : Literal F -> pstate -> Prop) :
  good p -> is_eof (cur p).1 = false ->
  (forall l p', after 1 p p' -> literal_ok l = true -> Q l p') -> wp parse_byte_array_literal p Q.
Proof.
  intros Hg Hc HQ. unfold parse_byte_array_literal.
  wstep. apply wp_enter; [done|]. intros p1 G1 D1 M1 C1. wstep. apply wp_bump; [done|by rewrite C1|].
  intros p2 A2. wstep. pose (is_byte := fun b : Z => (0 <=? b) && (b <? 256)).
  eapply (wp_loop (fun bytes p' => after 0 p2 p' /\ forallb is_byte bytes = true)).
  { split; [apply after_refl; good|done]. }
  intros bytes p3 [A3 Hb]. wstep. destruct (same_kind _ _) eqn:Hk.
  - wstep. wstep. rewrite Hk. cbn [negb]. wstep. apply wp_exit; [good| |].
    { destruct A2 as (_ & D2 & _), A3 as (_ & D3 & _), Hg as (_ & _ & D & _). lia. }
    intros p4 G4 D4 M4 C4. wstep. apply wp_bump; [done|rewrite C4; by eapply same_kind_eof|].
    intros p5 A5. wstep. apply HQ; [|done].
    destruct A2 as (_ & D2 & ?), A3 as (_ & D3 & ?), A5 as (G5 & D5 & ?). split_and!; [done|lia|lia].
  - wstep. wstep. pose proof (after_good _ _ _ A3) as (T3 & _). destruct (cur p3).1 eqn:E; try wstep.
    apply wp_bump; [good|by rewrite E|]. intros p4 A4. destruct T3 as [Hr Hd].
    destruct (Lexer.int_lit_magnitude_value _ _ Hr Hd) as (mag & Hmag & Hu & _).
    wstep. eapply wp_or_panic; [exact Hmag|]. destruct (_ || _); wstep.
    split; [split; [solve_after|]|measures]. rewrite forallb_app, Hb. cbn. rewrite andb_true_r.
    destruct Hu as [|b mag Hu _]; [done|]. unfold inU in Hu. unfold is_byte. cbn. lia.
Qed.
End literal_wp.

(** *** Selectors and their arguments *)
Lemma num_colons_app s t : num_colons (s ++ t) = (num_colons s + num_colons t)%nat.
Proof. unfold num_colons. by rewrite list.filter_app, length_app. Qed.

Lemma colon_not_binary s : (0 < num_colons s)%nat -> is_binary_sel s = false.
Proof.
  intros Hs. unfold is_binary_sel. destruct s as [|c0 s]; [done|]. apply not_true_is_false. rewrite forallb_forall.
  intros Hf. unfold num_colons in Hs. destruct (filter (fun c => c = COLON) (c0 :: s)) as [|c l] eqn:E; [cbn in Hs; lia|].
  assert (Hin : c ∈ filter (fun c => c = COLON) (c0 :: s)) by (rewrite E; apply list_elem_of_here).
  apply list_elem_of_filter in Hin as [-> Hin]. apply list_elem_of_In, Hf in Hin. by vm_compute in Hin.
Qed.

Lemma arity_unary {F A} s : tok_ok (@Ident F s) -> arity_ok s (@nil A) = true.
Proof. intros [Hn Hb]. unfold arity_ok. rewrite Hb. cbn. by rewrite Hn. Qed.

Lemma arity_binary {F A} (t : Tok F) s (a : A) : tok_ok t -> binary_of t = Some s -> arity_ok s [a] = true.
Proof.
  intros Ht Hb. destruct t; simplify_eq/=; unfold arity_ok; [by rewrite Ht|reflexivity].
Qed.

Lemma arity_keyword {A} s (args : list A) : num_colons s = length args -> args <> [] -> arity_ok s args = true.
Proof.
  intros Hn Ha. unfold arity_ok. rewrite colon_not_binary, Hn; [apply Nat.eqb_refl|].
  destruct args; [done|]. cbn in Hn. lia.
Qed.

(** *** Chains of sends

    What a chain may have as its receiver so far, with its [is_super] flag:
    an expression, or a cascade segment of the receiver [r]. *)
Definition chain_expr {F} (e : Expr F) (is_super : bool) : Prop :=
  expr_ok e = true /\ (is_super = true -> is_self e = true).
Definition chain_segment {F} (r : Expr F) (e : Expr F) (is_super : bool) : Prop :=
  (is_cascade_rcvr e = true /\ (is_super = true -> is_self r = true)) \/
  (seg_ok (is_self r) e = true /\ is_super = false).

Definition send_closed {F} (G : Expr F -> bool -> Prop) : Prop := forall e is_super sel args span,
  G e is_super -> forallb expr_ok args = true -> arity_ok sel args = true ->
  G (Send e sel args is_super span) false.

Lemma chain_expr_closed {F} : send_closed (@chain_expr F).
Proof.
  intros e s sel args span [He Hs] Ha Hn. split; [|done]. cbn. rewrite He, Ha, Hn.
  by destruct s; [rewrite Hs|].
Qed.

Lemma chain_segment_closed {F} (r : Expr F) : send_closed (chain_segment r).
Proof.
  intros e s sel args span He Ha Hn. right. split; [|done]. cbn. rewrite Ha, Hn, !andb_true_r.
  destruct He as [[Hc Hs]|[Hc ->]].
  - rewrite Hc. by destruct s; [rewrite Hs|].
  - rewrite Hc. by rewrite orb_true_r.
Qed.

Section expression_wp.
Context {F S : Type} `{TokenSourceOk F S}.
#[local] Abbreviation M := (@P F S).
#[local] Abbreviation pstate := (@parser F S).

Lemma wp_array_elem n : literals (F:=F) (S:=S) n (parse_array_elem_fuel n).
Proof.
  induction n as [|n IH]; intros p Hg Hn; [lia|]. cbn [parse_array_elem_fuel]. unfold parse_array_elem_with.
  wstep. wstep. pose proof Hg as (Ht & _).
  assert (Hbump : is_eof (cur p).1 = false -> forall A (k : M A) Q, (forall p', after 1 p p' -> wp k p' Q) -> wp (bump;; k) p Q).
  { intros He A k Q HQ. wstep. by apply wp_bump. }
  destruct (cur p).1 eqn:E; cbn [tok_ok] in Ht; try (wstep; done).
  - apply Hbump; [done|]. intros p' Ha. wstep. split; [done|]. by repeat destruct (bool_decide _).
  - wstep. eapply wp_glue_keywords; [done..|]. intros s' p' Ha. by wstep.
  - apply Hbump; [done|]. intros p' Ha. by wstep.
  - apply Hbump; [done|]. intros p' Ha. destruct Ht as [Hr Hd].
    destruct (intlit_to_literal_ok (F:=F) negative _ _ Hr Hd) as (l & Hl & Hok & _).
    by eapply wp_or_panic.
  - apply Hbump; [done|]. intros p' Ha. by wstep.
  - apply Hbump; [done|]. intros p' Ha. by wstep.
  - apply Hbump; [done|]. intros p' Ha. by wstep.
  - apply Hbump; [done|]. intros p' Ha. by wstep.
  - eapply wp_array_literal; [exact IH|done|lia|by rewrite E|done].
  - apply wp_byte_array_literal; [done|by rewrite E|done].
  - apply Hbump; [done|]. intros p' Ha. wstep. eapply wp_array_elems; [exact IH|good|measures|].
    intros ls p2 A2 Hls. wstep. apply wp_close_paren; [good|]. intros p3 A3. wstep. split; [solve_after|done].
  - apply Hbump; [done|]. intros p' Ha. by wstep.
Qed.

Lemma wp_parse_array_literal (p : pstate) (Q : Literal F -> pstate -> Prop) :
  good p -> is_eof (cur p).1 = false ->
  (forall l p', after 1 p p' -> literal_ok l = true -> Q l p') -> wp parse_array_literal p Q.
Proof.
  intros Hg He HQ. unfold parse_array_literal. eapply (wp_array_literal (Datatypes.S (measure p))); [|done|lia|done|done].
  intros p1 Hg1 Hn. apply wp_measured, wp_array_elem; [done|lia].
Qed.

(** Names read in a loop, each checked or read by a rule of the caller. *)
Lemma names_snoc ns n : names_ok ns = true -> is_reserved n = false -> names_ok (ns ++ [n]) = true.
Proof. unfold names_ok. intros Hs Hn. rewrite forallb_app, Hs. cbn. by rewrite Hn. Qed.

Lemma wp_temps_loop (p : pstate) (Q : list (list Z) -> pstate -> Prop) : good p ->
  (forall ns p', after 0 p p' -> names_ok ns = true -> Q ns p') ->
  wp (loop (fun temps =>
    t ← cur_tok;
    match t with
    | Ident n => span ← cur_span; check_not_reserved span n;; bump;; continue (temps ++ [n])
    | _ => break temps
    end) []) p Q.
Proof.
  intros Hg HQ. eapply (wp_loop (fun ns p' => after 0 p p' /\ names_ok ns = true)); [by split; [apply after_refl|]|].
  intros ns p1 [Ha Hns]. wstep. destruct (cur p1).1 eqn:E; try (by wstep; apply HQ).
  wstep. wstep. apply wp_check_not_reserved. intros Hr. wstep. apply wp_bump; [good|by rewrite E|].
  intros p2 A2. wstep. split; [split; [solve_after|by apply names_snoc]|measures].
Qed.

Lemma wp_optional_temps (p : pstate) (Q : list (list Z) -> pstate -> Prop) : good p ->
  (forall ns p', after 0 p p' -> names_ok ns = true -> Q ns p') -> wp parse_optional_temps p Q.
Proof.
  intros Hg HQ. unfold parse_optional_temps. wstep. destruct (same_kind _ _) eqn:E; cbn [negb].
  - wstep. apply wp_bump; [done|by eapply same_kind_eof|]. intros p1 A1. wstep.
    apply wp_temps_loop; [good|]. intros ns p2 A2 Hns. wstep. apply wp_expect; [good|done|].
    intros p3 A3. wstep. apply HQ; [solve_after|done].
  - wstep. apply HQ; [by apply after_refl|done].
Qed.

Lemma wp_unary_chain G e s (p : pstate) (Q : Expr F * bool -> pstate -> Prop) : send_closed G -> good p -> G e s ->
  (forall e' s' p', after 0 p p' -> G e' s' -> Q (e', s') p') -> wp (parse_unary_chain e s) p Q.
Proof.
  intros HG Hg He HQ. unfold parse_unary_chain.
  eapply (wp_loop (fun '(e, s) p' => after 0 p p' /\ G e s)); [by split; [apply after_refl|]|].
  intros [e1 s1] p1 [A1 G1]. wstep. pose proof (after_good _ _ _ A1) as (Ht & _).
  destruct (cur p1).1 eqn:E; try (by wstep; apply HQ).
  wstep. wstep. apply wp_bump; [good|by rewrite E|]. intros p2 A2. wstep.
  split; [split; [solve_after|]|measures]. apply HG; [done|done|by eapply arity_unary].
Qed.
End expression_wp.

Lemma scaled_decimal_ok {F} span negative int_digits frac_digits scale :
  Forall (Lexer.is_digit_of 10) (int_digits ++ frac_digits) -> 0 <= scale <= 65535 ->
  exists e : Expr F, scaled_decimal span negative int_digits frac_digits scale = Some e /\ chain_expr e false.
Proof.
  intros Hd Hs. unfold scaled_decimal.
  destruct (intlit_to_literal_ok (F:=F) negative 10 _ ltac:(lia) Hd) as (num & -> & Hn & _).
  destruct (intlit_to_literal_ok (F:=F) false 10 (chars "1" ++ replicate (length frac_digits) (ch "0")) ltac:(lia))
    as (den & -> & Hden & _).
  { apply Forall_app. split; [|apply Forall_replicate]; [apply Forall_cons; split; [|done]|]; [exists 1|exists 0]; by split. }
  eexists. split; [reflexivity|]. split; [|done]. cbn [expr_ok forallb]. rewrite Hn, Hden.
  assert (literal_ok (@LInt F scale) = true) as -> by (apply smi_range; lia). reflexivity.
Qed.

Section expression_body.
Context {F S : Type} `{TokenSourceOk F S}.
#[local] Abbreviation M := (@P F S).
#[local] Abbreviation pstate := (@parser F S).

Definition expressions (n : nat) (expression : M (Expr F)) : Prop := forall p, good p -> (measure p < n)%nat ->
  wp expression p (fun e p' => after 1 p p' /\ expr_ok e = true).

Context (n : nat) (expression : M (Expr F)) (Hexpr : expressions n expression).

Lemma wp_expression (p : pstate) (Q : Expr F -> pstate -> Prop) : good p -> (measure p < n)%nat ->
  (forall e p', after 1 p p' -> expr_ok e = true -> Q e p') -> wp expression p Q.
Proof. intros Hg Hn HQ. eapply pm_mono; [by apply Hexpr|]. intros e p' [??]. by apply HQ. Qed.

Lemma exprs_snoc es (e : Expr F) : forallb expr_ok es = true -> expr_ok e = true -> forallb expr_ok (es ++ [e]) = true.
Proof. intros Hs He. rewrite forallb_app, Hs. cbn. by rewrite He. Qed.
Lemma stmts_snoc es (e : Expr F) : forallb stmt_ok es = true -> stmt_ok e = true -> forallb stmt_ok (es ++ [e]) = true.
Proof. intros Hs He. rewrite forallb_app, Hs. cbn. by rewrite He. Qed.
Lemma stmt_expr_ok (e : Expr F) : expr_ok e = true -> stmt_ok e = true.
Proof. by destruct e. Qed.

Lemma wp_dyn_array (p : pstate) (Q : Expr F -> pstate -> Prop) : good p -> (measure p <= n)%nat ->
  is_eof (cur p).1 = false -> (forall e p', after 1 p p' -> expr_ok e = true -> Q e p') ->
  wp (parse_dyn_array expression) p Q.
Proof.
  intros Hg Hn Hc HQ. unfold parse_dyn_array. wstep. wstep. apply wp_bump; [done..|]. intros p1 A1.
  wstep. wstep.
  assert (Hend : forall es p2, after 0 p1 p2 -> forallb expr_ok es = true -> wp (expect RBrace (chars "expected '}' to close brace array");; mret (DynArray es (cur p).2)) p2 Q).
  { intros es p2 A2 Hes. wstep. apply wp_expect; [good|done|]. intros p3 A3. wstep. apply HQ; [solve_after|done]. }
  destruct (same_kind _ _); [wstep; apply Hend; [apply after_refl; good|done]|].
  eapply (wp_loop (fun es p' => after 0 p1 p' /\ forallb expr_ok es = true)).
  { split; [apply after_refl; good|done]. }
  intros es p2 [A2 Hes]. wstep. apply wp_expression; [good|measures|]. intros e p3 A3 He.
  pose proof (exprs_snoc _ _ Hes He) as Hes'.
  wstep. destruct (same_kind _ _) eqn:E; [|wstep; apply Hend; [solve_after|done]].
  wstep. apply wp_bump; [good|by eapply same_kind_eof|]. intros p4 A4. wstep. destruct (same_kind (cur p4).1 _); wstep.
  - apply Hend; [solve_after|done].
  - split; [split; [solve_after|done]|measures].
Qed.

Lemma wp_statement (p : pstate) (Q : Expr F -> pstate -> Prop) : good p -> (measure p < n)%nat ->
  (forall e p', after 1 p p' -> stmt_ok e = true -> Q e p') -> wp (parse_statement expression) p Q.
Proof.
  intros Hg Hn HQ. unfold parse_statement. wstep. destruct (same_kind _ _) eqn:E.
  - wstep. wstep. apply wp_bump; [done|by eapply same_kind_eof|]. intros p1 A1. wstep.
    apply wp_expression; [good|measures|]. intros e p2 A2 He. wstep. apply HQ; [solve_after|done].
  - apply wp_expression; [done..|]. intros e p' A He. by apply HQ, stmt_expr_ok.
Qed.

Lemma wp_statements (p : pstate) (Q : list (Expr F) -> pstate -> Prop) : good p -> (measure p < n)%nat ->
  (forall es p', after 0 p p' -> forallb stmt_ok es = true -> Q es p') -> wp (parse_statements expression) p Q.
Proof.
  intros Hg Hn HQ. unfold parse_statements, at_statements_end. wstep. wstep. wstep.
  destruct (_ || _); [wstep; apply HQ; [by apply after_refl|done]|].
  eapply (wp_loop (fun es p' => after 0 p p' /\ forallb stmt_ok es = true)).
  { split; [by apply after_refl|done]. }
  intros es p2 [A2 Hes]. wstep. apply wp_statement; [good|measures|]. intros e p3 A3 He.
  pose proof (stmts_snoc _ _ Hes He) as Hes'.
  wstep. destruct (same_kind _ _) eqn:E; [|wstep; apply HQ; [solve_after|done]].
  wstep. apply wp_bump; [good|by eapply same_kind_eof|]. intros p4 A4. wstep. wstep. wstep. destruct (_ || _); wstep.
  - apply HQ; [solve_after|done].
  - split; [split; [solve_after|done]|measures].
Qed.

Lemma wp_block (p : pstate) (Q : BlockNode F -> pstate -> Prop) : good p -> (measure p <= n)%nat ->
  is_eof (cur p).1 = false -> (forall b p', after 1 p p' -> block_ok b = true -> Q b p') ->
  wp (parse_block expression) p Q.
Proof.
  intros Hg Hn Hc HQ. unfold parse_block. wstep. wstep. apply wp_bump; [done..|]. intros p1 A1.
  wstep. wstep.
  assert (Hend : forall params p2, after 0 p1 p2 -> names_ok params = true -> wp (
    temps ← parse_optional_temps;
    body ← parse_statements expression;
    expect RBracket (chars "expected ']' to close block");;
    mret (MkBlock params temps body (cur p).2 0)) p2 Q).
  { intros params p2 A2 Hps. wstep. apply wp_optional_temps; [good|]. intros temps p3 A3 Hts.
    wstep. apply wp_statements; [good|measures|]. intros body p4 A4 Hb.
    wstep. apply wp_expect; [good|done|]. intros p5 A5. wstep. apply HQ; [solve_after|].
    cbn [block_ok]. unfold names_ok in *. rewrite Hps, Hts. exact Hb. }
  destruct (same_kind _ _) eqn:E; cbn [negb]; [|wstep; apply Hend; [apply after_refl; good|done]].
  wstep. eapply (wp_loop (fun ns p' => after 0 p1 p' /\ names_ok ns = true)).
  { split; [apply after_refl; good|done]. }
  intros ns p2 [A2 Hns]. wstep. destruct (same_kind (cur p2).1 _) eqn:E2; cbn [negb].
  - wstep. apply wp_bump; [good|by eapply same_kind_eof|]. intros p3 A3. wstep. wstep.
    apply wp_expect_ident; [good|]. intros name p4 A4. wstep. apply wp_check_not_reserved. intros Hr. wstep.
    split; [split; [solve_after|by apply names_snoc]|measures].
  - wstep. wstep. apply wp_expect; [good|done|]. intros p3 A3. wstep. apply Hend; [solve_after|done].
Qed.

Lemma wp_primary (p : pstate) (Q : Expr F * bool -> pstate -> Prop) : good p -> (measure p <= n)%nat ->
  (forall e s p', after 1 p p' -> chain_expr e s -> Q (e, s) p') -> wp (parse_primary expression) p Q.
Proof.
  intros Hg Hn HQ. unfold parse_primary. wstep. wstep. pose proof Hg as (Ht & _).
  assert (Hbump : is_eof (cur p).1 = false -> forall A (k : M A) Q, (forall p', after 1 p p' -> wp k p' Q) -> wp (bump;; k) p Q).
  { intros He A k Q' HQ'. wstep. by apply wp_bump. }
  destruct (cur p).1 eqn:E; cbn [tok_ok] in Ht; try (wstep; done).
  - apply Hbump; [done|]. intros p' Ha. wstep.
    repeat (case_bool_decide; [by apply HQ|]). apply HQ; [done|]. split; [|done]. cbn. unfold is_reserved.
    apply negb_true_iff, bool_decide_eq_false. unfold RESERVED. rewrite !elem_of_cons, elem_of_nil. intuition.
  - apply Hbump; [done|]. intros p' Ha. destruct Ht as [Hr Hd].
    destruct (intlit_to_literal_ok (F:=F) negative _ _ Hr Hd) as (l & Hl & Hok & _).
    wstep. eapply wp_or_panic; [done|]. wstep. by apply HQ.
  - apply Hbump; [done|]. intros p' Ha. destruct Ht as [Hd Hs].
    destruct (scaled_decimal_ok (F:=F) (cur p).2 negative _ _ _ Hd Hs) as (e & He & Hok).
    wstep. eapply wp_or_panic; [done|]. wstep. by apply HQ.
  - apply Hbump; [done|]. intros p' Ha. wstep. by apply HQ.
  - apply Hbump; [done|]. intros p' Ha. wstep. by apply HQ.
  - apply Hbump; [done|]. intros p' Ha. wstep. by apply HQ.
  - apply Hbump; [done|]. intros p' Ha. wstep. by apply HQ.
  - wstep. apply wp_parse_array_literal; [done|by rewrite E|]. intros l p' A Hl. wstep. by apply HQ.
  - wstep. apply wp_byte_array_literal; [done|by rewrite E|]. intros l p' A Hl. wstep. by apply HQ.
  - apply Hbump; [done|]. intros p' Ha. wstep. apply wp_expression; [good|measures|]. intros e p2 A2 He.
    wstep. apply wp_close_paren; [good|]. intros p3 A3. wstep. apply HQ; [solve_after|done].
  - wstep. apply wp_block; [done|done|by rewrite E|]. intros b p' A Hb. wstep. by apply HQ.
  - wstep. apply wp_dyn_array; [done|done|by rewrite E|]. intros e p' A He. wstep. by apply HQ.
Qed.

Lemma wp_binary_chain G e s (p : pstate) (Q : Expr F * bool -> pstate -> Prop) : send_closed G -> good p ->
  (measure p <= n)%nat -> G e s ->
  (forall e' s' p', after 0 p p' -> G e' s' -> Q (e', s') p') -> wp (parse_binary_chain expression e s) p Q.
Proof.
  intros HG Hg Hn He HQ. unfold parse_binary_chain. wstep. eapply wp_unary_chain; [done..|].
  intros e0 s0 p0 A0 G0.
  eapply (wp_loop (fun '(e, s) p' => after 0 p p' /\ G e s)); [done|].
  intros [e1 s1] p1 [A1 G1]. wstep. pose proof (after_good _ _ _ A1) as (Ht & _).
  destruct (binary_of (cur p1).1) as [sel|] eqn:E; [|by wstep; apply HQ].
  wstep. wstep. apply wp_bump; [good|by destruct (cur p1).1|]. intros p2 A2.
  wstep. apply wp_primary; [good|measures|]. intros rp rs p3 A3 [Hr Hrs].
  wstep. eapply wp_unary_chain; [apply chain_expr_closed|good|by split|]. intros rhs rs' p4 A4 [Hrhs _].
  wstep. split; [split; [solve_after|]|measures]. apply HG; [done|cbn; by rewrite Hrhs|by eapply arity_binary].
Qed.

Lemma wp_keyword_chain G e s (p : pstate) (Q : Expr F * bool -> pstate -> Prop) : send_closed G -> good p ->
  (measure p <= n)%nat -> G e s ->
  (forall e' s' p', after 0 p p' -> G e' s' -> Q (e', s') p') -> wp (parse_keyword_chain expression e s) p Q.
Proof.
  intros HG Hg Hn He HQ. unfold parse_keyword_chain. wstep. eapply wp_binary_chain; [done..|].
  intros e0 s0 p0 A0 G0. wstep. destruct (cur p0).1 as [|k| | | | | | | | | | | | | | | | | | | | | |] eqn:E;
    try (by wstep; apply HQ).
  wstep. wstep.
  eapply (wp_loop (fun '(sel, args) p' => after 0 p0 p' /\ num_colons sel = length args /\
    forallb expr_ok args = true /\ (args = [] -> p' = p0))).
  { split_and!; [apply after_refl; good|done..]. }
  intros [sel args] p1 (A1 & Hn1 & Ha1 & Hnil). wstep. pose proof (after_good _ _ _ A1) as (Ht & _).
  assert (Hdone : args <> [] -> wp (mret (Send e0 sel args s0 (cur p0).2, false) : M _) p1 Q).
  { intros Hargs. wstep. apply HQ; [solve_after|]. apply HG; [done|done|by apply arity_keyword]. }
  destruct (cur p1).1 eqn:E1; try (wstep; apply Hdone; intros ->; rewrite Hnil in E1 by done; congruence).
  wstep. apply wp_bump; [good|by rewrite E1|]. intros p2 A2. wstep. apply wp_primary; [good|measures|].
  intros ap asup p3 A3 Hap. wstep. eapply wp_binary_chain; [apply chain_expr_closed|good|measures|done|].
  intros arg asup' p4 A4 [Harg _]. wstep. split; [|measures]. split_and!.
  - solve_after.
  - rewrite num_colons_app, Hn1, length_app. cbn in Ht. rewrite Ht. done.
  - by apply exprs_snoc.
  - intros Hx. by apply app_eq_nil in Hx as [_ ?].
Qed.

Lemma wp_keyword_expr (p : pstate) (Q : Expr F -> pstate -> Prop) : good p -> (measure p <= n)%nat ->
  (forall e p', after 1 p p' -> expr_ok e = true -> Q e p') -> wp (parse_keyword_expr expression) p Q.
Proof.
  intros Hg Hn HQ. unfold parse_keyword_expr. wstep. wstep. apply wp_primary; [done..|].
  intros e s p1 A1 He. wstep. eapply wp_keyword_chain; [apply chain_expr_closed|good|measures|done|].
  intros e' s' p2 A2 [He' _]. destruct s'; wstep. apply HQ; [solve_after|done].
Qed.

Lemma wp_cascade (p : pstate) (Q : Expr F -> pstate -> Prop) : good p -> (measure p <= n)%nat ->
  (forall e p', after 1 p p' -> expr_ok e = true -> Q e p') -> wp (parse_cascade expression) p Q.
Proof.
  intros Hg Hn HQ. unfold parse_cascade. wstep. wstep. apply wp_keyword_expr; [done..|]. intros e p1 A1 He.
  wstep. destruct (same_kind _ _) eqn:Hsemi; cbn [negb]; [|wstep; by apply HQ].
  destruct e as [| | | |r sel args sup ssp| | | | |]; try wstep.
  cbn [expr_ok] in He. rewrite !andb_true_iff in He. destruct He as [[[Hr Ha] Har] Hsup].
  assert (Hsup' : sup = true -> is_self r = true) by (intros ->; done).
  eapply (wp_loop (fun segs p' => after 0 p1 p' /\ forallb (seg_ok (is_self r)) segs = true /\
    (1 <= length segs)%nat /\ (length segs = 1%nat -> p' = p1))).
  { split_and!; [apply after_refl; good| |cbn; lia|done]. cbn. rewrite Ha, Har, !andb_true_r, orb_false_r.
    destruct sup; [by rewrite Hsup'|done]. }
  intros segs p2 (A2 & Hs & Hl & Hone). wstep. destruct (same_kind (cur p2).1 _) eqn:E2; cbn [negb].
  - wstep. apply wp_bump; [good|by eapply same_kind_eof|]. intros p3 A3. wstep. wstep.
    eapply (wp_keyword_chain (chain_segment r)); [apply chain_segment_closed|good|measures|left; by split|].
    intros seg ss p4 A4 Hseg. destruct (is_cascade_rcvr seg) eqn:Ec; wstep.
    split; [|measures]. split_and!; [solve_after| |rewrite length_app; cbn; lia|rewrite length_app; cbn; lia].
    rewrite forallb_app, Hs. cbn. destruct Hseg as [[Hc _]|[Hc _]]; [congruence|by rewrite Hc].
  - wstep. wstep. apply HQ; [solve_after|]. cbn. rewrite Hr, Hs.
    destruct (decide (length segs = 1%nat)) as [Hx|]; [rewrite Hone in E2 by done; congruence|].
    destruct segs as [|? [|? segs]]; [cbn in *; lia..|done].
Qed.

Lemma wp_expression_with (p : pstate) (Q : Expr F -> pstate -> Prop) : good p -> (measure p <= n)%nat ->
  (forall e p', after 1 p p' -> expr_ok e = true -> Q e p') -> wp (parse_expression_with expression) p Q.
Proof.
  intros Hg Hn HQ. unfold parse_expression_with. wstep.
  destruct (cur p).1 as [name| | | | | | | | | | | | | | | | | | | | | | |] eqn:E; try (by apply wp_cascade).
  wstep. apply wp_peek2; [done|]. intros t p1 A1 C1. destruct (same_kind t Assign).
  - wstep. wstep. apply wp_check_not_reserved. intros Hres. wstep. apply wp_bump; [good|by rewrite C1, E|].
    intros p2 A2. wstep. apply wp_bump_any; [good|]. intros p3 A3. wstep.
    apply wp_expression; [good|measures|]. intros e p4 A4 He. wstep. apply HQ; [solve_after|].
    cbn. by rewrite Hres, He.
  - apply wp_cascade; [good|measures|]. intros e p2 A2 He. apply HQ; [solve_after|done].
Qed.
End expression_body.

Section file_wp.
Context {F S : Type} `{TokenSourceOk F S}.
#[local] Abbreviation M := (@P F S).
#[local] Abbreviation pstate := (@parser F S).

Lemma expression_fuel_ok n : expressions (F:=F) (S:=S) n (parse_expression_fuel n).
Proof.
  induction n as [|n IH]; intros p Hg Hn; [lia|]. cbn [parse_expression_fuel].
  eapply wp_expression_with; [exact IH|done|lia|]. by intros.
Qed.

Lemma expression_ok n : expressions (F:=F) (S:=S) n parse_expression.
Proof. intros p Hg _. apply wp_measured, expression_fuel_ok; [done|lia]. Qed.

Lemma wp_parse_statement (p : pstate) (Q : Expr F -> pstate -> Prop) : good p ->
  (forall e p', after 1 p p' -> stmt_ok e = true -> Q e p') -> wp (parse_statement parse_expression) p Q.
Proof. intros Hg. apply (wp_statement (Datatypes.S (measure p))); [apply expression_ok|done|lia]. Qed.

Lemma wp_parse_statements (p : pstate) (Q : list (Expr F) -> pstate -> Prop) : good p ->
  (forall es p', after 0 p p' -> forallb stmt_ok es = true -> Q es p') -> wp (parse_statements parse_expression) p Q.
Proof. intros Hg. apply (wp_statements (Datatypes.S (measure p))); [apply expression_ok|done|lia]. Qed.

(** *** Pragmas *)
Lemma wp_skip_pragma (p : pstate) d (Q : unit -> pstate -> Prop) : good p -> 1 <= d ->
  (forall p', after 1 p p' -> Q tt p') -> wp (skip_pragma_body d) p Q.
Proof.
  intros Hg Hd HQ. unfold skip_pragma_body.
  eapply (wp_loop (fun d p' => after 0 p p' /\ 1 <= d)); [by split; [apply after_refl|]|].
  clear d Hd. intros d p1 [A1 Hd]. wstep. destruct (is_sel _ _) eqn:E1.
  { wstep. apply wp_bump; [good|by eapply is_sel_eof|]. intros p2 A2. wstep.
    split; [split; [solve_after|lia]|measures]. }
  destruct (is_sel (chars ">") _) eqn:E2.
  - cbv zeta. rewrite (proj2 (Z.ltb_ge _ _)) by lia. wstep.
    assert (Hrest : forall p2, after 0 p1 p2 -> cur p2 = cur p1 ->
      wp (bump;; if d - 1 =? 0 then break tt else continue (d - 1)) p2 (fun r p' =>
        match r with inl a' => (after 0 p p' /\ 1 <= a') /\ (measure p' < measure p1)%nat | inr b => Q b p' end)).
    { intros p2 A2 C2. wstep. apply wp_bump; [good|rewrite C2; by eapply is_sel_eof|]. intros p3 A3.
      destruct (d - 1 =? 0) eqn:Ed; wstep; [apply HQ; solve_after|]. split; [split; [solve_after|lia]|measures]. }
    destruct (d - 1 =? 0) eqn:Ed; [apply wp_pragma; [good|done]|].
    wstep. apply Hrest; [apply after_refl; good|done].
  - destruct (is_eof (cur p1).1) eqn:E3; wstep. apply wp_bump; [good|done|]. intros p2 A2. wstep.
    split; [split; [solve_after|lia]|measures].
Qed.

Lemma wp_ffi_sym ctx (p : pstate) (Q : list Z -> pstate -> Prop) : good p ->
  (forall s p', after 0 p p' -> Q s p') -> wp (expect_ffi_sym ctx) p Q.
Proof.
  intros Hg HQ. unfold expect_ffi_sym. wstep. destruct (cur p).1 eqn:E; try wstep.
  apply wp_bump_any; [done|]. intros p1 A1. wstep. by apply HQ.
Qed.

Lemma wp_ffi_bool ctx (p : pstate) (Q : bool -> pstate -> Prop) : good p ->
  (forall s p', after 0 p p' -> Q s p') -> wp (expect_ffi_bool ctx) p Q.
Proof.
  intros Hg HQ. unfold expect_ffi_bool. wstep. destruct (cur p).1 eqn:E; try wstep.
  repeat case_bool_decide; wstep; (apply wp_bump_any; [done|]; intros p1 A1; wstep; by apply HQ).
Qed.

Lemma wp_ffi_sym_array ctx (p : pstate) (Q : list (list Z) -> pstate -> Prop) : good p ->
  (forall s p', after 0 p p' -> Q s p') -> wp (expect_ffi_sym_array ctx) p Q.
Proof.
  intros Hg HQ. unfold expect_ffi_sym_array. wstep. destruct (same_kind _ _) eqn:E; cbn [negb]; [|wstep].
  wstep. wstep. unfold parse_array_literal, array_literal.
  wstep. apply wp_enter; [done|]. intros p1 G1 D1 M1 C1. wstep.
  apply wp_bump; [done|rewrite C1; by eapply same_kind_eof|]. intros p2 A2. wstep.
  eapply (wp_array_elems (Datatypes.S (measure p2))); [|good|lia|].
  { intros p3 Hg3 Hn3. apply wp_measured, wp_array_elem; [done|lia]. }
  intros ls p3 A3 Hls. wstep. destruct (same_kind (cur p3).1 _) eqn:Hk; cbn [negb]; [|wstep].
  wstep. apply wp_exit; [good| |].
  { destruct A2 as (_ & D2 & _), A3 as (_ & D3 & _), Hg as (_ & _ & D & _). lia. }
  intros p4 G4 D4 M4 C4. wstep. apply wp_bump; [done|rewrite C4; by eapply same_kind_eof|].
  intros p5 A5. wstep. destruct (mapM symbol_of ls); wstep. apply HQ.
  destruct A2 as (_ & D2 & ?), A3 as (_ & D3 & ?), A5 as (G5 & D5 & ?). split_and!; [done|lia|lia].
Qed.

Lemma wp_dup_check {A} start (slot : option A) name (p : pstate) (Q : unit -> pstate -> Prop) :
  Q tt p -> wp (dup_check start slot name) p Q.
Proof. by destruct slot. Qed.

Lemma wp_ffi_part start k f (p : pstate) (Q : ffi_parts -> pstate -> Prop) : good p ->
  (forall f p', after 0 p p' -> Q f p') -> wp (ffi_part start k f) p Q.
Proof.
  intros Hg HQ. unfold ffi_part. repeat case_bool_decide; try wstep; apply wp_dup_check; wstep;
    first [apply wp_ffi_sym|apply wp_ffi_bool|apply wp_ffi_sym_array]; try done;
    intros x p' A; wstep; by apply HQ.
Qed.

Lemma wp_ffi_body start (p : pstate) (Q : FfiPragma -> pstate -> Prop) : good p ->
  (forall f p', after 0 p p' -> Q f p') -> wp (parse_ffi_pragma_body start) p Q.
Proof.
  intros Hg HQ. unfold parse_ffi_pragma_body. wstep.
  eapply (wp_loop (fun _ p' => after 0 p p')); [by apply after_refl|].
  intros f p1 A1. wstep. destruct (is_sel _ _) eqn:E.
  - wstep. wstep. apply wp_pragma; [good|]. intros p2 A2 C2. wstep. apply wp_bump_any; [good|]. intros p3 A3.
    destruct (f_ret f); [|wstep]. cbv zeta. destruct (function f), (f_selector f); try wstep.
    + apply HQ. solve_after.
    + destruct (class f); wstep. apply HQ. solve_after.
  - wstep. destruct (cur p1).1 eqn:E1; try wstep. apply wp_bump; [good|by rewrite E1|]. intros p2 A2.
    wstep. apply wp_ffi_part; [good|]. intros f' p3 A3. wstep. split; [solve_after|measures].
Qed.

Definition id_ok (id : option Z) : Prop := match id with Some v => 1 <= v <= 65535 | None => True end.
Definition pragma_ok (id : option Z) (ffi : option FfiPragma) : Prop := id_ok id /\ (id = None \/ ffi = None).

Lemma wp_primitive_number start (p : pstate) (Q : option Z * option FfiPragma -> pstate -> Prop) : good p ->
  (forall id ffi p', after 0 p p' -> pragma_ok id ffi -> Q (id, ffi) p') -> wp (parse_primitive_number start) p Q.
Proof.
  intros Hg HQ. unfold parse_primitive_number. wstep. pose proof Hg as (Ht & _). destruct (cur p).1 eqn:E; try wstep.
  apply wp_bump_any; [done|]. intros p1 A1. wstep. destruct (is_sel _ _); cbn [negb]; [|wstep].
  wstep. apply wp_pragma; [good|]. intros p2 A2 C2. wstep. apply wp_bump_any; [good|]. intros p3 A3.
  destruct negative; wstep. destruct Ht as [Hr Hd].
  destruct (Lexer.int_lit_magnitude_value _ _ Hr Hd) as (mag & Hmag & Hu & _).
  eapply wp_or_panic; [done|]. destruct (_ || _) eqn:Hb; wstep.
  rewrite !orb_false_iff, !Z.ltb_ge, Z.eqb_neq in Hb.
  apply HQ; [solve_after|]. split; [|by right]. cbn.
  assert (Ht8 : Forall (inU 8) (take 8 mag)) by (by apply Forall_take).
  rewrite or_bytes_le_value in * by (done || (unfold zlen; rewrite length_take; lia)).
  pose proof (Lexer.le_value_nonneg _ Ht8).
  rewrite wrapU_id by (unfold inU; lia). lia.
Qed.

Lemma wp_method_pragma (p : pstate) (Q : option Z * option FfiPragma -> pstate -> Prop) : good p ->
  is_eof (cur p).1 = false ->
  (forall id ffi p', after 1 p p' -> pragma_ok id ffi -> Q (id, ffi) p') -> wp parse_method_pragma p Q.
Proof.
  intros Hg Hc HQ. unfold parse_method_pragma. wstep. wstep. apply wp_pragma; [done|]. intros p1 A1 C1.
  wstep. apply wp_bump; [good|by rewrite C1|]. intros p2 A2. wstep.
  assert (Hskip : wp (skip_pragma_body 1;; mret (None, None) : M _) p2 Q).
  { wstep. apply wp_skip_pragma; [good|lia|]. intros p3 A3. wstep. apply HQ; [solve_after|by split; [|left]]. }
  destruct (cur p2).1 eqn:E; try exact Hskip. case_bool_decide; [|exact Hskip].
  wstep. apply wp_bump_any; [good|]. intros p3 A3. wstep. destruct (match (cur p3).1 with Ident _ => _ | _ => _ end).
  - wstep. apply wp_bump_any; [good|]. intros p4 A4. wstep. apply wp_ffi_body; [good|]. intros f p5 A5.
    wstep. apply HQ; [solve_after|by split; [|left]].
  - apply wp_primitive_number; [good|]. intros id ffi p4 A4 Hok. apply HQ; [solve_after|done].
Qed.

Lemma wp_class_pragma (p : pstate) (Q : ClassPragma -> pstate -> Prop) : good p -> is_eof (cur p).1 = false ->
  (forall c p', after 1 p p' -> Q c p') -> wp parse_class_pragma p Q.
Proof.
  intros Hg Hc HQ. unfold parse_class_pragma. wstep. wstep. apply wp_pragma; [done|]. intros p1 A1 C1.
  wstep. apply wp_bump; [good|by rewrite C1|]. intros p2 A2. wstep.
  assert (Hskip : wp (skip_pragma_body 1;; mret PIgnored : M _) p2 Q).
  { wstep. apply wp_skip_pragma; [good|lia|]. intros p3 A3. wstep. apply HQ. solve_after. }
  destruct (cur p2).1 eqn:E; try exact Hskip. case_bool_decide; [|case_bool_decide; [|exact Hskip]].
  - wstep. apply wp_bump_any; [good|]. intros p3 A3. unfold parse_indexable. wstep.
    destruct (cur p3).1; try wstep. apply wp_bump_any; [good|]. intros p4 A4. wstep. destruct (is_sel _ _); wstep.
    apply wp_pragma; [good|]. intros p5 A5 _. wstep. apply wp_bump_any; [good|]. intros p6 A6.
    repeat case_bool_decide; wstep; apply HQ; solve_after.
  - wstep. apply wp_bump_any; [good|]. intros p3 A3. unfold parse_class_vars. wstep.
    eapply (wp_loop (fun _ p' => after 0 p3 p')); [apply after_refl; good|].
    intros ns p4 A4. wstep. destruct (cur p4).1 eqn:E4; try (wstep; wstep; destruct (is_sel _ _); wstep;
      apply wp_pragma; [good|]; intros p5 A5 _; wstep; apply wp_bump_any; [good|]; intros p6 A6;
      wstep; apply HQ; solve_after).
    wstep. apply wp_bump; [good|by rewrite E4|]. intros p5 A5. wstep. split; [solve_after|measures].
Qed.

(** *** Methods and classes *)
Lemma wp_parameter m (p : pstate) (Q : list Z -> pstate -> Prop) : good p ->
  (forall n p', after 1 p p' -> is_reserved n = false -> Q n p') -> wp (parse_parameter m) p Q.
Proof.
  intros Hg HQ. unfold parse_parameter. wstep. wstep. apply wp_expect_ident; [done|]. intros n p1 A1.
  wstep. apply wp_check_not_reserved. intros Hr. wstep. by apply HQ.
Qed.

Lemma names_one n : is_reserved n = false -> names_ok [n] = true.
Proof. unfold names_ok. cbn. by intros ->. Qed.

Lemma wp_pattern (p : pstate) (Q : list Z * list (list Z) -> pstate -> Prop) : good p ->
  (forall sel ps p', after 1 p p' -> names_ok ps = true -> arity_ok sel ps = true -> Q (sel, ps) p') ->
  wp parse_pattern p Q.
Proof.
  intros Hg HQ. unfold parse_pattern. wstep. pose proof Hg as (Ht & _).
  destruct (cur p).1 eqn:E; try wstep.
  - apply wp_bump; [done|by rewrite E|]. intros p1 A1. wstep. apply HQ; [done|done|by eapply arity_unary].
  - eapply (wp_loop (fun '(sel, ps) p' => after 0 p p' /\ num_colons sel = length ps /\ names_ok ps = true /\
      (ps = [] -> p' = p) /\ (ps <> [] -> after 1 p p'))).
    { split_and!; [by apply after_refl|done..]. }
    intros [sel ps] p1 (A1 & Hn & Hps & Hnil & Hcons). wstep. pose proof (after_good _ _ _ A1) as (Ht1 & _).
    assert (Hdone : ps <> [] -> Q (sel, ps) p1).
    { intros Hne. apply HQ; [by apply Hcons|done|by apply arity_keyword]. }
    destruct (cur p1).1 eqn:E1; try (wstep; apply Hdone; intros ->; rewrite Hnil in E1 by done; congruence).
    wstep. apply wp_bump; [good|by rewrite E1|]. intros p2 A2. wstep. apply wp_parameter; [good|].
    intros n p3 A3 Hr. wstep. split; [|measures]. assert (after 1 p p3) by solve_after.
    split_and!; [solve_after| |by apply names_snoc|by intros [_ ?]%app_eq_nil|done].
    rewrite num_colons_app, Hn, length_app. cbn in Ht1. by rewrite Ht1.
  - apply wp_bump; [done|by rewrite E|]. intros p1 A1. wstep. apply wp_parameter; [good|]. intros n p2 A2 Hr.
    wstep. apply HQ; [solve_after|by apply names_one|by eapply (arity_binary (BinarySel s))].
  - apply wp_bump; [done|by rewrite E|]. intros p1 A1. wstep. apply wp_parameter; [good|]. intros n p2 A2 Hr.
    wstep. apply HQ; [solve_after|by apply names_one|done].
Qed.

Lemma wp_method_body (p : pstate) (Q : method_body -> pstate -> Prop) : good p ->
  (forall id ffi ts body p', after 0 p p' -> pragma_ok id ffi -> names_ok ts = true ->
     forallb stmt_ok body = true -> Q (id, ffi, ts, body) p') -> wp parse_method_body p Q.
Proof.
  intros Hg HQ. unfold parse_method_body. wstep.
  eapply (wp_loop (fun '(id, ffi) p' => after 0 p p' /\ pragma_ok id ffi)).
  { split; [by apply after_refl|by split; [|left]]. }
  intros [id ffi] p1 [A1 Hok]. wstep. destruct (is_sel _ _) eqn:E; cbn [negb].
  - wstep. wstep. apply wp_method_pragma; [good|by eapply is_sel_eof|]. intros id' ffi' p2 A2 Hok'.
    destruct (_ || _); [destruct (_ || _)|]; wstep; (split; [split; [solve_after|done]|measures]).
  - wstep. wstep. apply wp_optional_temps; [good|]. intros ts p2 A2 Hts. wstep.
    apply wp_parse_statements; [good|]. intros es p3 A3 Hes. wstep. apply HQ; [solve_after|done..].
Qed.

Lemma method_ok_intro sel ps id ffi ts body side span : names_ok ps = true -> arity_ok sel ps = true ->
  pragma_ok id ffi -> names_ok ts = true -> forallb stmt_ok body = true ->
  method_ok (@MkMethod F sel ps id ffi ts body side span) = true.
Proof.
  intros Hps Har [Hid Hor] Hts Hb. unfold method_ok. cbn [m_params m_temps m_body pattern_selector primitive Ast.ffi].
  rewrite Hps, Har, Hts, Hb. cbn [andb].
  destruct id as [v|], ffi as [f|]; try done; [by destruct Hor|]. cbn in Hid.
  rewrite andb_true_r. apply andb_true_iff. lia.
Qed.

Lemma wp_method side (p : pstate) (Q : MethodNode F -> pstate -> Prop) : good p ->
  (forall m p', after 1 p p' -> method_ok m = true -> Q m p') -> wp (parse_method side) p Q.
Proof.
  intros Hg HQ. unfold parse_method. wstep. wstep. apply wp_pattern; [done|]. intros sel ps p1 A1 Hps Har.
  wstep. apply wp_expect; [good|done|]. intros p2 A2. wstep. apply wp_method_body; [good|].
  intros id ffi ts body p3 A3 Hok Hts Hb. wstep. apply wp_expect; [good|done|]. intros p4 A4. wstep.
  apply HQ; [solve_after|by apply method_ok_intro].
Qed.

Definition parts_ok (c : class_parts (F:=F)) : bool := names_ok (p_inst_vars c) && forallb method_ok (p_methods c).

Lemma add_method_ok c m : parts_ok c = true -> method_ok m = true -> parts_ok (add_method c m) = true.
Proof.
  unfold parts_ok, add_method. cbn [p_inst_vars p_methods]. rewrite !andb_true_iff, forallb_app.
  intros [H1 H2] Hm. rewrite H1, H2. cbn. by rewrite Hm.
Qed.

Lemma wp_item_lt c (p : pstate) (Q : class_parts -> pstate -> Prop) : good p -> is_eof (cur p).1 = false ->
  parts_ok c = true -> (forall c p', after 1 p p' -> parts_ok c = true -> Q c p') -> wp (class_item_lt c) p Q.
Proof.
  intros Hg He Hc HQ. unfold class_item_lt. wstep. apply wp_peek2; [done|]. intros t p1 A1 C1.
  destruct (is_ident t); wstep.
  - apply wp_method; [good|]. intros m p2 A2 Hm. wstep. apply HQ; [solve_after|by apply add_method_ok].
  - apply wp_class_pragma; [good|by rewrite C1|]. intros g p2 A2. wstep. apply HQ; [solve_after|by destruct g].
Qed.

Lemma wp_vbar_method c (p : pstate) (Q : class_parts -> pstate -> Prop) : good p -> parts_ok c = true ->
  (forall c p', after 1 p p' -> parts_ok c = true -> Q c p') -> wp (vbar_method c) p Q.
Proof.
  intros Hg Hc HQ. unfold vbar_method.
  wstep. wstep. apply wp_expect_ident; [good|]. intros n p3 A3. wstep. apply wp_check_not_reserved. intros Hr.
  wstep. apply wp_expect; [good|done|]. intros p4 A4. wstep. apply wp_method_body; [good|].
  intros id ffi ts body p5 A5 Hok Hts Hb. wstep. apply wp_expect; [good|done|]. intros p6 A6. wstep.
  apply HQ; [solve_after|]. apply add_method_ok; [done|]. apply method_ok_intro; [by apply names_one|done..].
Qed.

Lemma wp_vbar_inst_vars c (p : pstate) (Q : class_parts -> pstate -> Prop) : good p -> parts_ok c = true ->
  (forall c p', after 1 p p' -> parts_ok c = true -> Q c p') -> wp (vbar_inst_vars c) p Q.
Proof.
  intros Hg Hc HQ. unfold vbar_inst_vars.
  wstep. apply wp_temps_loop; [good|]. intros ns p3 A3 Hns. wstep. apply wp_expect; [good|done|]. intros p4 A4.
  wstep. apply HQ; [solve_after|]. revert Hc. unfold parts_ok, names_ok, add_inst_vars. cbn.
  rewrite !andb_true_iff, forallb_app. intros [H1 H2]. unfold names_ok in Hns. by rewrite H1, H2, Hns.
Qed.

Lemma wp_item_vbar c (p : pstate) (Q : class_parts -> pstate -> Prop) : good p -> is_eof (cur p).1 = false ->
  parts_ok c = true -> (forall c p', after 1 p p' -> parts_ok c = true -> Q c p') -> wp (class_item_vbar c) p Q.
Proof.
  intros Hg He Hc HQ. unfold class_item_vbar. wstep. apply wp_bump; [done..|]. intros p1 A1. wstep. wstep.
  assert (Hk : forall b p2, after 0 p1 p2 -> wp (if b : bool then vbar_method c else vbar_inst_vars c) p2 Q).
  { intros b p2 A2. destruct b; [apply wp_vbar_method|apply wp_vbar_inst_vars]; try good; try done;
      intros c' p3 A3 Hc'; (apply HQ; [solve_after|done]). }
  destruct (is_ident _).
  - wstep. apply wp_peek2; [good|]. intros t p2 A2 C2. wstep. by apply Hk.
  - wstep. apply (Hk false), after_refl. good.
Qed.

Lemma wp_item_ident name n c (p : pstate) (Q : class_parts -> pstate -> Prop) : good p ->
  parts_ok c = true -> (forall c p', after 1 p p' -> parts_ok c = true -> Q c p') ->
  wp (class_item_ident name n c) p Q.
Proof.
  intros Hg Hc HQ. unfold class_item_ident. wstep. apply wp_peek2; [done|]. intros t p1 A1 C1.
  destruct (match t with Ident _ => _ | _ => _ end).
  - wstep. wstep. apply wp_bump_any; [good|]. intros p2 A2. wstep. apply wp_bump_any; [good|]. intros p3 A3.
    destruct (negb _); wstep. destruct (is_sel _ _); cbn [negb]; wstep. apply wp_bump_any; [good|]. intros p4 A4.
    wstep. apply wp_method; [good|]. intros m p5 A5 Hm. wstep. apply HQ; [solve_after|by apply add_method_ok].
  - wstep. apply wp_method; [good|]. intros m p5 A5 Hm. wstep. apply HQ; [solve_after|by apply add_method_ok].
Qed.

Lemma wp_class_def (p : pstate) (Q : ClassDefNode F -> pstate -> Prop) : good p ->
  (forall c p', after 1 p p' -> class_ok c = true -> Q c p') -> wp parse_class_def p Q.
Proof.
  intros Hg HQ. unfold parse_class_def. wstep. wstep. apply wp_expect_ident; [done|]. intros sup p1 A1.
  wstep. apply wp_expect_keyword; [good|]. intros p2 A2. wstep. apply wp_expect_ident; [good|]. intros name p3 A3.
  wstep. apply wp_expect; [good|done|]. intros p4 A4. wstep.
  eapply (wp_loop (fun c p' => after 0 p4 p' /\ parts_ok c = true)).
  { split; [apply after_refl; good|done]. }
  intros c p5 [A5 Hc]. wstep.
  assert (Hnext : forall c' p6, after 1 p5 p6 -> parts_ok c' = true ->
    (after 0 p4 p6 /\ parts_ok c' = true) /\ (measure p6 < measure p5)%nat).
  { intros c' p6 A6 Hc'. split; [split; [solve_after|done]|measures]. }
  assert (Hm : wp (m ← parse_method false; continue (add_method c m) : M _) p5
    (fun r p' => match r with inl a' => (after 0 p4 p' /\ parts_ok a' = true) /\ (measure p' < measure p5)%nat
       | inr b => wp (bump;; mret (MkClassDef sup name (p_indexable b) (p_inst_vars b) (p_class_vars b) (p_methods b) (cur p).2)) p' Q end)).
  { wstep. apply wp_method; [good|]. intros m p6 A6 Hmk. wstep. apply Hnext; [done|by apply add_method_ok]. }
  destruct (cur p5).1 eqn:E; try exact Hm; try wstep.
  - apply wp_item_ident; [good|done|]. intros c' p6 A6 Hc'. wstep. by apply Hnext.
  - case_bool_decide; [|exact Hm]. wstep. apply wp_item_lt; [good|by rewrite E|done|]. intros c' p6 A6 Hc'. wstep. by apply Hnext.
  - wstep. apply wp_bump; [good|by rewrite E|]. intros p6 A6. wstep. apply HQ; [solve_after|exact Hc].
  - apply wp_item_vbar; [good|by rewrite E|done|]. intros c' p6 A6 Hc'. wstep. by apply Hnext.
Qed.

Lemma wp_at_class_def (p : pstate) (Q : bool -> pstate -> Prop) : good p ->
  (forall b p', after 0 p p' -> Q b p') -> wp at_class_def p Q.
Proof.
  intros Hg HQ. unfold at_class_def. wstep. destruct (is_ident _); wstep.
  - apply wp_peek2; [done|]. intros t p1 A1 C1. wstep. by apply HQ.
  - by apply HQ, after_refl.
Qed.

Lemma wp_items (p : pstate) : good p -> wp parse_items p (fun items _ => forallb item_ok items = true).
Proof.
  intros Hg. unfold parse_items.
  eapply (wp_loop (fun items p' => after 0 p p' /\ forallb item_ok items = true)); [by split; [apply after_refl|]|].
  intros items p1 [A1 Hi]. wstep. destruct (same_kind _ _); [by wstep|].
  assert (Hsnoc : forall i, item_ok i = true -> forallb item_ok (items ++ [i]) = true).
  { intros i Hok. rewrite forallb_app, Hi. cbn. by rewrite Hok. }
  wstep. apply wp_at_class_def; [good|]. intros b p2 A2. destruct b; wstep.
  - apply wp_class_def; [good|]. intros c p3 A3 Hc. wstep. split; [split; [solve_after|by apply Hsnoc]|measures].
  - apply wp_parse_statement; [good|]. intros e p3 A3 He. wstep. apply wp_expect; [good|done|]. intros p4 A4.
    wstep. split; [split; [solve_after|by apply Hsnoc]|measures].
Qed.

Lemma wp_one (p : pstate) : good p ->
  wp parse_one p (fun i _ => match i with Some i => item_ok i = true | None => True end).
Proof.
  intros Hg. unfold parse_one. wstep. destruct (same_kind _ _); [by wstep|].
  wstep. apply wp_at_class_def; [good|]. intros b p2 A2. destruct b; wstep.
  - apply wp_class_def; [good|]. intros c p3 A3 Hc. by wstep.
  - apply wp_parse_statement; [good|]. intros e p3 A3 He. wstep. wstep. destruct (same_kind _ _); cbn [negb].
    + by wstep.
    + apply wp_expect; [good|done|]. intros p4 A4. by wstep.
Qed.

(** A run starts with no literal open. *)
Lemma run_wp {A} (m : M A) (input : S) (R : A -> Prop) : literal_mode input = false ->
  (forall p, good p -> wp m p (fun a _ => R a)) ->
  match run m input with Done a _ => R a | Fails _ => True | OutOfFuel | Panics => False end.
Proof.
  intros Hi Hm. unfold run, new. pose proof (next_token_ok input) as Hn.
  destruct (next_token input) as [e|[t s]]; [done|]. destruct Hn as (N1 & N2 & N3).
  apply (Hm (MkParser s t None 0)). split_and!; cbn; try done. congruence.
Qed.
End file_wp.

(** *** The lexer honours the interface *)
Lemma ident_not_binary c : Lexer.is_ident_cont c = true -> is_binary_char c = false /\ c <> COLON.
Proof.
  intros Hc. split.
  - apply bool_decide_eq_false. intros Hin. revert Hc. apply not_true_iff_false.
    unfold BINARY_CHARS in Hin. cbn in Hin. rewrite !elem_of_cons, elem_of_nil in Hin.
    by repeat destruct Hin as [->|Hin].
  - by intros ->.
Qed.

Lemma num_colons_ident s : Forall (fun c => Lexer.is_ident_cont c = true) s -> num_colons s = 0%nat.
Proof.
  unfold num_colons. induction 1 as [|c s Hc _ IH]; [done|]. rewrite filter_cons.
  destruct (decide (c = COLON)) as [->|]; [by apply ident_not_binary in Hc as []|done].
Qed.

Lemma tok_wf_ok {F} (t : Tok F) : Lexer.tok_wf t -> tok_ok t.
Proof.
  destruct t; cbn; try done.
  - intros [Hne Hf]. split; [by apply num_colons_ident|]. destruct Hf as [|c s Hc _]; [done|]. cbn.
    apply ident_not_binary in Hc as [-> _]. done.
  - intros (name & -> & _ & Hf). rewrite num_colons_app, num_colons_ident by done. reflexivity.
  - intros [Hne Hf]. unfold is_binary_sel. destruct s as [|c s]; [done|]. apply forallb_forall.
    intros x Hx. rewrite Forall_forall in Hf. by apply Hf, list_elem_of_In.
  - intros (Hr & _ & Hf). done.
  - intros (_ & Hi & Hfr & Hs). split; [by apply Forall_app|done].
Qed.

#[program] Definition lexer_source_ok {F} (parse_f64 : list Z -> option F) (neg_f64 : F -> F) :
    @TokenSourceOk F Lexer.lexer (lexer_source parse_f64 neg_f64) := {|
  literal_mode := Lexer.in_literal_seq |}.
Next Obligation.
  intros F parse_f64 neg_f64 s. cbn [next_token lexer_source].
  pose proof (Lexer.next_token_wf parse_f64 neg_f64 s) as Hn.
  destruct (Lexer.next_token parse_f64 neg_f64 s) as [e|[[t sp] s']]; [done|]. destruct Hn as (Hw & Hl & Hm).
  split_and!; [by apply tok_wf_ok|done|]. cbn. by destruct t.
Qed.
Next Obligation. done. Qed.
Next Obligation. done. Qed.
Next Obligation. done. Qed.
Next Obligation. done. Qed.

(** A concrete text: a class with an instance variable, a pragma and a
    cascade, and a do-it with a literal array and a large integer. *)
Definition sample : list Z := chars "Object subclass: A [ |a| <classVars: B> m: x [ <primitive: 7> ^ x foo; + 1 ] ]
 A new m: #(1 b: 16rFFFFFFFFFFFFFFFF).".

(** C31. Parsing a file always ends, and without a panic: for every text, and
    whatever floats are, the parser answers the items or an error -- neither
    the fuel of its loops nor that of its recursion runs out, no counter
    underflows and no digit conversion fails.  The items it answers have the
    shape code generation relies on: returns only as statements, the cascade
    marker only at the root of a segment, at least two messages in a cascade,
    [super] sends only to the receiver itself, no reserved word as a variable,
    parameter or temporary, as many arguments as each selector takes, a
    [SmallInteger] literal exactly when the value fits one and a canonical
    large integer otherwise, bytes in byte arrays, primitive numbers in
    1..65535 and at most one primitive pragma per method. *)
Theorem parse_file_total {F} (parse_f64 : list Z -> option F) (neg_f64 : F -> F) (input : list Z) :
  match parse_file_text parse_f64 neg_f64 input with
  | Done items _ => forallb item_ok items = true
  | Fails _ => True
  | OutOfFuel | Panics => False
  end.
Proof.
  unfold parse_file_text, parse_file.
  apply (@run_wp F Lexer.lexer _ (lexer_source_ok parse_f64 neg_f64)); [done|]. apply wp_items.
Qed.

(** The same for one top-level item, the REPL's entry point. *)
Theorem parse_one_top_item_total {F} (parse_f64 : list Z -> option F) (neg_f64 : F -> F) (input : list Z) :
  match parse_one_top_item_text parse_f64 neg_f64 input with
  | Done (Some item) _ => item_ok item = true
  | Done None _ => True
  | Fails _ => True
  | OutOfFuel | Panics => False
  end.
Proof.
  unfold parse_one_top_item_text, parse_one_top_item.
  pose proof (@run_wp F Lexer.lexer _ (lexer_source_ok parse_f64 neg_f64) _ parse_one (Lexer.new input)
    (fun i => match i with Some i => item_ok i = true | None => True end) eq_refl wp_one) as Hr.
  by destruct (run parse_one (Lexer.new input)) as [[i|] p| | |].
Qed.

(** C35. Integer literals keep their value: the digits of any lexed integer
    become the literal denoting exactly that integer, a [SmallInteger] when
    (and only when) it lies in the 62-bit range and otherwise a large integer
    with a canonical magnitude; the panic in the conversion is unreachable. *)
Theorem intlit_to_literal_exact {F} negative radix digits (Hr : 2 <= radix <= 36)
    (Hd : Forall (Lexer.is_digit_of radix) digits) :
  exists l : Literal F, intlit_to_literal negative radix digits = Some l /\ literal_ok l = true /\
    int_value l = Some ((if negative then -1 else 1) * Lexer.digits_value radix digits).
Proof. by apply intlit_to_literal_ok. Qed.

Lemma intlit_to_literal_exact_witness : exists l : Literal (list Z),
  intlit_to_literal true 16 (chars "FFFFFFFFFFFFFFFFFF") = Some l /\
  int_value l = Some (-1 * Lexer.digits_value 16 (chars "FFFFFFFFFFFFFFFFFF")).
Proof.
  destruct (intlit_to_literal_exact (F:=list Z) true 16 (chars "FFFFFFFFFFFFFFFFFF")) as (l & H1 & _ & H2).
  - lia.
  - repeat (apply Forall_cons; split; [exists 15; split; [reflexivity|lia]|]). constructor.
  - exists l. split; [exact H1|exact H2].
Defined.

Example parse_sample : match parse_file_text Lexer.text_float Lexer.text_neg sample with
  | Done items _ => length items = 2%nat | _ => False end.
Proof. vm_compute. reflexivity. Qed.

(** [super] without a message is refused as a statement or the value of an
    assignment, but accepted as an argument. *)
Example super_argument_accepted :
  match parse_file_text Lexer.text_float Lexer.text_neg (chars "x foo: super.") with
  | Done [DoIt (Send (Var _ _) _ [SelfRef _] false _)] _ => True | _ => False end /\
  match parse_file_text Lexer.text_float Lexer.text_neg (chars "x := super.") with Fails _ => True | _ => False end.
Proof. vm_compute. done. Qed.

(** Keywords on different lines glue into one symbol when their columns fit. *)
Example keywords_glue_across_lines :
  match parse_file_text Lexer.text_float Lexer.text_neg (chars "#(at:
     put:) size.") with
  | Done [DoIt (Send (Lit (LArray [LSymbol s]) _) _ _ _ _)] _ => s = chars "at:put:" | _ => False end.
Proof. vm_compute. reflexivity. Qed.
End Parser.
