(* ===== verification/Capture.v ===== *)
(** Scopes and captured variables ([src/src/frontend/capture.rs]): the analysis
    that gives every variable of a method and its blocks a place in a frame or
    in a context, before code is generated.

    Scopes are numbered in the order the walk meets their blocks; their numbers
    are the indices of a vector, and are not bounded here. *)
From Stdlib Require Import String Ascii.
From S2P Require Import Prelude Oops Lexer Ast.
#[local] Set Warnings "-register-all".
#[local] Open Scope string_scope.
#[local] Open Scope Z_scope.
#[local] Open Scope list_scope.

Module Capture.
Import Ast.

(** ** Inlined control flow *)
Inductive BlockPos := Receiver | Arg (i : nat).
#[export] Instance BlockPos_eq_dec : EqDecision BlockPos.
Proof. solve_decision. Defined.

Section positions.
Context {F : Type}.
Definition block_argc (e : Expr F) : option nat := match e with Block (MkBlock params _ _ _ _) => Some (length params) | _ => None end.
Definition argc_in (ns : list nat) (e : Expr F) : bool := match block_argc e with Some k => bool_decide (k ∈ ns) | None => false end.
Definition sel_in (sels : list String.string) (selector : list Z) : bool := existsb (fun s => bool_decide (selector = chars s)) sels.

(** The arms of the match, by the number of arguments; [captured] says that the
    loop variable of [to:do:] is used in a block of the body. *)
Definition inline_positions (captured : bool) (selector : list Z) (receiver : Expr F) (args : list (Expr F)) : option (list BlockPos) :=
  match args with
  | [] => if sel_in ["repeat"] selector && argc_in [0] receiver then Some [Receiver] else None
  | [a] =>
      if sel_in ["ifTrue:"; "ifFalse:"; "and:"; "or:"] selector && argc_in [0] a then Some [Arg 0]
      else if sel_in ["whileTrue:"; "whileFalse:"] selector && argc_in [0] receiver && argc_in [0] a then Some [Receiver; Arg 0]
      else if sel_in ["timesRepeat:"] selector && argc_in [0] a then Some [Arg 0]
      else if sel_in ["ifNil:"] selector && argc_in [0] a then Some [Arg 0]
      else if sel_in ["ifNotNil:"] selector && argc_in [0; 1] a then Some [Arg 0]
      else None
  | [a; b] =>
      if sel_in ["ifTrue:ifFalse:"; "ifFalse:ifTrue:"] selector && argc_in [0] a && argc_in [0] b then Some [Arg 0; Arg 1]
      else if sel_in ["ifNil:ifNotNil:"] selector && argc_in [0] a && argc_in [0; 1] b then Some [Arg 0; Arg 1]
      else if sel_in ["ifNotNil:ifNil:"] selector && argc_in [0; 1] a && argc_in [0] b then Some [Arg 0; Arg 1]
      else if sel_in ["to:do:"] selector && argc_in [1] b then if captured then None else Some [Arg 1]
      else None
  | _ => None
  end%nat.

(** [scan e loop_var nested]: [loop_var] is mentioned in a block of [e] that
    keeps a scope of its own, or in [e] itself when it is in such a block. *)
Definition at_pos (p : BlockPos) (dissolving : option (list BlockPos)) : bool :=
  match dissolving with Some ps => bool_decide (p ∈ ps) | None => false end.
Fixpoint scan (e : Expr F) (loop_var : list Z) (nested : bool) : bool :=
  match e with
  | Var name _ => nested && bool_decide (name = loop_var)
  | EAssign name value _ => nested && bool_decide (name = loop_var) || scan value loop_var nested
  | Send receiver selector args _ _ =>
      let captured := match args with
                      | [_; Block (MkBlock [v] _ body _ _)] => existsb (fun s => scan s v false) body
                      | _ => false
                      end in
      let dissolving := inline_positions captured selector receiver args in
      match receiver with
      | Block (MkBlock _ _ body _ _) => existsb (fun s => scan s loop_var (nested || negb (at_pos Receiver dissolving))) body
      | r => scan r loop_var nested
      end ||
      (fix scan_args (i : nat) (l : list (Expr F)) : bool :=
         match l with
         | [] => false
         | a :: l =>
             match a with
             | Block (MkBlock _ _ body _ _) => existsb (fun s => scan s loop_var (nested || negb (at_pos (Arg i) dissolving))) body
             | a => scan a loop_var nested
             end || scan_args (S i) l
         end) 0%nat args
  | Cascade receiver segments _ => scan receiver loop_var nested || existsb (fun s => scan s loop_var nested) segments
  | Return value _ => scan value loop_var nested
  | DynArray elems _ => existsb (fun s => scan s loop_var nested) elems
  | Block (MkBlock _ _ body _ _) => existsb (fun s => scan s loop_var true) body
  | SelfRef _ | CascadeRcvr _ | Lit _ _ => false
  end.
Definition to_do_needs_real_send (loop_var : list Z) (body : list (Expr F)) : bool := existsb (fun s => scan s loop_var false) body.

Definition inline_block_positions (selector : list Z) (receiver : Expr F) (args : list (Expr F)) : option (list BlockPos) :=
  let captured := match args with
                  | [_; Block (MkBlock [v] _ body _ _)] => to_do_needs_real_send v body
                  | _ => false
                  end in
  inline_positions captured selector receiver args.
End positions.

(** ** Scopes *)
Record VarSlot := MkVarSlot { captured : bool; frame_slot : option nat; ctx_slot : option nat }.
Record ScopeInfo := MkScopeInfo {
  parent : option nat; is_method : bool; argc : nat; vars : list (list Z * VarSlot);
  nctx : nat; frame_temp_count : nat; has_ctx : bool; captures_ctx : bool }.
Definition find (s : ScopeInfo) (name : list Z) : option VarSlot := p ← list_find (fun v => v.1 = name) (vars s); Some p.2.2.

Inductive Resolved := Local (frame_slot : nat) | Captured (depth ctx_slot : Z).
Abbreviation CaptureInfo := (list ScopeInfo).

(** Chains of parents have fewer scopes than there are. *)
Fixpoint depth_steps (n : nat) (scopes : CaptureInfo) (sid to : nat) : option nat :=
  match n with
  | O => None
  | S n =>
      if decide (sid = to) then Some 0%nat
      else s ← scopes !! sid; p ← parent s; d ← depth_steps n scopes p to; Some ((if has_ctx s then 1 else 0) + d)%nat
  end.
Definition depth_to (scopes : CaptureInfo) (from to : nat) : option Z := d ← depth_steps (S (length scopes)) scopes from to; Some (u8 (Z.of_nat d)).
Fixpoint resolve_from (n : nat) (scopes : CaptureInfo) (referencing_scope sid : nat) (name : list Z) : option (option Resolved) :=
  match n with
  | O => None
  | S n =>
      s ← scopes !! sid;
      match find s name with
      | Some slot =>
          if captured slot then d ← depth_to scopes referencing_scope sid; c ← ctx_slot slot; Some (Some (Captured d (u8 (Z.of_nat c))))
          else f ← frame_slot slot; Some (Some (Local f))
      | None => match parent s with Some p => resolve_from n scopes referencing_scope p name | None => Some None end
      end
  end.
Definition resolve (scopes : CaptureInfo) (referencing_scope : nat) (name : list Z) : option (option Resolved) :=
  resolve_from (S (length scopes)) scopes referencing_scope referencing_scope name.

(** ** The walk *)
Record ScopeBuilder := MkBuilder { b_parent : option nat; b_is_method : bool; b_argc : nat; names : list (list Z); b_captured : list bool }.
(** What the walk collects: the scopes so far, the number of the next one, and
    the references seen, with the scope each was seen in. *)
Record walk := MkWalk { builders : list ScopeBuilder; next_id : nat; refs : list (nat * list Z) }.
Definition add_ref (scope_id : nat) (name : list Z) (w : walk) : walk := MkWalk (builders w) (next_id w) (refs w ++ [(scope_id, name)]).
Definition with_builders (bs : list ScopeBuilder) (w : walk) : walk := MkWalk bs (next_id w) (refs w).
Definition new_scope_names (params temps : list (list Z)) : list (list Z) := params ++ temps.
Definition extend_scope (ns : list (list Z)) (b : ScopeBuilder) : ScopeBuilder :=
  MkBuilder (b_parent b) (b_is_method b) (b_argc b) (names b ++ ns) (b_captured b ++ replicate (length ns) false).
Definition new_builder (parent : option nat) (is_method : bool) (params temps : list (list Z)) : ScopeBuilder :=
  MkBuilder parent is_method (length params) (new_scope_names params temps) (replicate (length params + length temps) false).

Section walking.
Context {F : Type}.
Definition walk_block_body (walk_expr : Expr F -> nat -> walk -> option (Expr F * walk)) : list (Expr F) -> nat -> walk -> option (list (Expr F) * walk) :=
  fix go body scope_id w :=
    match body with
    | [] => Some ([], w)
    | e :: body => '(e, w) ← walk_expr e scope_id w; '(body, w) ← go body scope_id w; Some (e :: body, w)
    end.
Definition dissolve_block_into (walk_expr : Expr F -> nat -> walk -> option (Expr F * walk)) (b : BlockNode F) (scope_id : nat) (w : walk) : option (BlockNode F * walk) :=
  match b with
  | MkBlock params temps body span sid =>
      sb ← builders w !! scope_id;
      let w := with_builders (<[scope_id := extend_scope (new_scope_names params temps) sb]> (builders w)) w in
      '(body, w) ← walk_block_body walk_expr body scope_id w; Some (MkBlock params temps body span sid, w)
  end.

Fixpoint walk_expr (e : Expr F) (scope_id : nat) (w : walk) : option (Expr F * walk) :=
  match e with
  | SelfRef _ | CascadeRcvr _ | Lit _ _ => Some (e, w)
  | Var name _ => Some (e, add_ref scope_id name w)
  | EAssign name value span => '(value, w) ← walk_expr value scope_id (add_ref scope_id name w); Some (EAssign name value span, w)
  | Send receiver selector args is_super span =>
      let positions := if is_super then None else inline_block_positions selector receiver args in
      '(receiver, w) ← (match at_pos Receiver positions, receiver with
                        | true, Block b => '(b, w) ← dissolve_block_into walk_expr b scope_id w; Some (Block b, w)
                        | true, r => Some (r, w)
                        | false, r => walk_expr r scope_id w
                        end);
      '(args, w) ← (fix walk_args (i : nat) (l : list (Expr F)) (w : walk) : option (list (Expr F) * walk) :=
         match l with
         | [] => Some ([], w)
         | a :: l =>
             '(a, w) ← (match at_pos (Arg i) positions, a with
                        | true, Block b => '(b, w) ← dissolve_block_into walk_expr b scope_id w; Some (Block b, w)
                        | true, a => Some (a, w)
                        | false, a => walk_expr a scope_id w
                        end);
             '(l, w) ← walk_args (S i) l w; Some (a :: l, w)
         end) 0%nat args w;
      Some (Send receiver selector args is_super span, w)
  | Cascade receiver segments span =>
      '(receiver, w) ← walk_expr receiver scope_id w; '(segments, w) ← walk_block_body walk_expr segments scope_id w; Some (Cascade receiver segments span, w)
  | DynArray elems span => '(elems, w) ← walk_block_body walk_expr elems scope_id w; Some (DynArray elems span, w)
  | Return value span => '(value, w) ← walk_expr value scope_id w; Some (Return value span, w)
  | Block (MkBlock params temps body span _) =>
      let this_id := next_id w in
      let w := MkWalk (builders w ++ [new_builder (Some scope_id) false params temps]) (S this_id) (refs w) in
      '(body, w) ← walk_block_body walk_expr body this_id w; Some (Block (MkBlock params temps body span (Z.of_nat this_id)), w)
  end.
End walking.

(** ** Marking *)
Fixpoint find_defining_scope (n : nat) (bs : list ScopeBuilder) (sid : nat) (name : list Z) : option (option nat) :=
  match n with
  | O => None
  | S n =>
      b ← bs !! sid;
      if bool_decide (name ∈ names b) then Some (Some sid)
      else match b_parent b with Some p => find_defining_scope n bs p name | None => Some None end
  end.
(** The scopes from [sid] to [def_scope], which is not among them. *)
Fixpoint relays (n : nat) (bs : list ScopeBuilder) (sid def_scope : nat) : option (list nat) :=
  match n with
  | O => None
  | S n => if decide (sid = def_scope) then Some [] else b ← bs !! sid; p ← b_parent b; l ← relays n bs p def_scope; Some (sid :: l)
  end.
Record marks := MkMarks { to_mark : list (nat * nat); needs_chain : list bool }.
Definition set_all (ids : list nat) (l : list bool) : list bool := foldr (fun i l => <[i := true]> l) l ids.
Definition mark_ref (bs : list ScopeBuilder) (m : marks) (ref : nat * list Z) : option marks :=
  found ← find_defining_scope (S (length bs)) bs ref.1 ref.2;
  match found with
  | None => Some m
  | Some def_scope =>
      if decide (def_scope = ref.1) then Some m
      else
        b ← bs !! def_scope; idx ← fst <$> list_find (fun n => n = ref.2) (names b);
        chain ← relays (S (length bs)) bs ref.1 def_scope;
        Some (MkMarks ((def_scope, idx) :: to_mark m) (set_all chain (needs_chain m)))
  end.
Fixpoint mark_refs (bs : list ScopeBuilder) (l : list (nat * list Z)) (m : marks) : option marks :=
  match l with [] => Some m | r :: l => m ← mark_ref bs m r; mark_refs bs l m end.
Definition set_captured (bs : list ScopeBuilder) (mark : nat * nat) : option (list ScopeBuilder) :=
  b ← bs !! mark.1;
  if decide (mark.2 < length (b_captured b))%nat then
    Some (<[mark.1 := MkBuilder (b_parent b) (b_is_method b) (b_argc b) (names b) (<[mark.2 := true]> (b_captured b))]> bs)
  else None.
Fixpoint set_captures (bs : list ScopeBuilder) (l : list (nat * nat)) : option (list ScopeBuilder) :=
  match l with [] => Some bs | k :: l => bs ← set_captured bs k; set_captures bs l end.

(** ** Places *)
(** The slots, and the first one that is free. *)
Fixpoint ctx_slots (next_ctx : nat) (l : list bool) : list (option nat) * nat :=
  match l with
  | [] => ([], next_ctx)
  | c :: l => let r := ctx_slots (if c then S next_ctx else next_ctx) l in ((if c then Some next_ctx else None) :: r.1, r.2)
  end.
Fixpoint frame_slots (argc i next_frame_temp : nat) (l : list bool) : list (option nat) * nat :=
  match l with
  | [] => ([], next_frame_temp)
  | c :: l =>
      if decide (i < argc)%nat then let r := frame_slots argc (S i) next_frame_temp l in (Some i :: r.1, r.2)
      else if negb c then let r := frame_slots argc (S i) (S next_frame_temp) l in (Some next_frame_temp :: r.1, r.2)
      else let r := frame_slots argc (S i) next_frame_temp l in (None :: r.1, r.2)
  end.
Definition finalize_scope (b : ScopeBuilder) (captures_ctx : bool) : ScopeInfo :=
  let cs := ctx_slots 0 (b_captured b) in
  let fs := frame_slots (b_argc b) 0 (b_argc b) (b_captured b) in
  let vars := zip_with (fun name p => (name, MkVarSlot p.1 p.2.2 p.2.1)) (names b) (zip (b_captured b) (zip cs.1 fs.1)) in
  MkScopeInfo (b_parent b) (b_is_method b) (b_argc b) vars cs.2 (fs.2 - b_argc b) (bool_decide (0 < cs.2)%nat) captures_ctx.

Definition analyze {F} (m : MethodNode F) : option (MethodNode F * CaptureInfo) :=
  let w := MkWalk [new_builder None true (m_params m) (m_temps m)] 1 [] in
  '(body, w) ← walk_block_body walk_expr (m_body m) 0 w;
  let bs := builders w in
  marks ← mark_refs bs (refs w) (MkMarks [] (replicate (length bs) false));
  bs ← set_captures bs (to_mark marks);
  Some (Ast.MkMethod (pattern_selector m) (m_params m) (primitive m) (ffi m) (m_temps m) body (class_side m) (m_span m),
        imap (fun i b => finalize_scope b (negb (b_is_method b) && default false (needs_chain marks !! i))) bs).
End Capture.
