(* ===== verification/CaptureCorrect.v ===== *)
(** The analysis places every variable where code can find it: what [resolve]
    answers for a reference is the frame slot or the context slot of the
    variable's innermost declaration. *)
From S2P Require Import Prelude Oops Lexer Ast Capture.
#[local] Open Scope Z_scope.
#[local] Open Scope list_scope.

Module CaptureCorrect.
Import Ast Capture.

(** ** Blocks as the source nests them *)
(** A block around a place in the source, or the method: the scope that has its
    variables, where they start among the scope's, and their names. *)
Record level := MkLevel { l_scope : nat; l_start : nat; l_names : list (list Z) }.
(** What [name] means there, the innermost block first: the scope of the
    variable and its position. *)
Fixpoint meaning (env : list level) (name : list Z) : option (nat * nat) :=
  match env with
  | [] => None
  | l :: env => match list_find (fun n => n = name) (l_names l) with Some (i, _) => Some (l_scope l, l_start l + i)%nat | None => meaning env name end
  end.

(** ** Trees up to the numbers of their scopes *)
Section trees.
Context {F : Type}.

Lemma Expr_induction (P : Expr F -> Prop) :
  (forall s, P (SelfRef s)) -> (forall n s, P (Var n s)) -> (forall v s, P (Lit v s)) -> (forall n v s, P v -> P (EAssign n v s)) ->
  (forall r sel args su s, P r -> Forall P args -> P (Send r sel args su s)) ->
  (forall r segs s, P r -> Forall P segs -> P (Cascade r segs s)) -> (forall s, P (CascadeRcvr s)) -> (forall es s, Forall P es -> P (DynArray es s)) ->
  (forall ps ts body s sid, Forall P body -> P (Block (MkBlock ps ts body s sid))) -> (forall v s, P v -> P (Return v s)) -> forall e, P e.
Proof.
  intros H1 H2 H3 H4 H5 H6 H7 H8 H9 H10. fix IH 1.
  assert (forall l : list (Expr F), Forall P l) as Hl by (fix IHl 1; intros [|e l]; constructor; [apply IH|apply IHl]).
  intros [s|n s|v s|n v s|r sel args su s|r segs s|s|es s|[ps ts body s sid]|v s];
    [apply H1|apply H2|apply H3|apply H4, IH|apply H5; [apply IH|apply Hl]|apply H6; [apply IH|apply Hl]|apply H7|apply H8, Hl|apply H9, Hl|apply H10, IH].
Qed.

Fixpoint unnumbered (e : Expr F) : Expr F :=
  match e with
  | EAssign n v s => EAssign n (unnumbered v) s
  | Send r sel args su s => Send (unnumbered r) sel (map unnumbered args) su s
  | Cascade r segs s => Cascade (unnumbered r) (map unnumbered segs) s
  | DynArray es s => DynArray (map unnumbered es) s
  | Block (MkBlock ps ts body s _) => Block (MkBlock ps ts (map unnumbered body) s 0)
  | Return v s => Return (unnumbered v) s
  | e => e
  end.
Lemma block_argc_unnumbered e : block_argc (unnumbered e) = block_argc e.
Proof. by destruct e as [| | | | | | | |[]|]. Qed.
Lemma argc_in_unnumbered ns e : argc_in ns (unnumbered e) = argc_in ns e.
Proof. unfold argc_in. by rewrite block_argc_unnumbered. Qed.
Lemma inline_positions_unnumbered c sel r args : inline_positions c sel (unnumbered r) (map unnumbered args) = inline_positions c sel r args.
Proof. destruct args as [|a [|b [|]]]; cbn [map inline_positions]; by rewrite ?argc_in_unnumbered. Qed.
Lemma existsb_map {A B} (f : B -> bool) (g : A -> B) l : existsb f (map g l) = existsb (fun x => f (g x)) l.
Proof. induction l as [|x l IH]; cbn; [done|]. by rewrite IH. Qed.
Lemma existsb_ext {A} (f g : A -> bool) l : Forall (fun x => f x = g x) l -> existsb f l = existsb g l.
Proof. induction 1 as [|x l Hx _ IH]; cbn; [done|]. by rewrite Hx, IH. Qed.

Definition scan_same (e : Expr F) : Prop := forall v b, scan (unnumbered e) v b = scan e v b.
Definition body_of (e : Expr F) : list (Expr F) := match e with Block (MkBlock _ _ body _ _) => body | _ => [] end.
Definition same_everywhere (e : Expr F) : Prop := scan_same e /\ Forall scan_same (body_of e).
Lemma existsb_same v (g : bool) l : Forall scan_same l -> existsb (fun s => scan s v g) (map unnumbered l) = existsb (fun s => scan s v g) l.
Proof. intros Hl. rewrite existsb_map. apply existsb_ext. eapply Forall_impl; [exact Hl|]. intros e He. apply He. Qed.
Lemma captured_same (args : list (Expr F)) : Forall same_everywhere args ->
  match map unnumbered args with [_; Block (MkBlock [v] _ body _ _)] => existsb (fun s => scan s v false) body | _ => false end =
  match args with [_; Block (MkBlock [v] _ body _ _)] => existsb (fun s => scan s v false) body | _ => false end.
Proof.
  intros Ha. destruct args as [|a [|b [|]]]; try done. all: cbn [map].
  - destruct b as [| | | | | | | |[ps ts body s sid]|]; try done. cbn. destruct ps as [|v [|]]; try done.
    apply Forall_cons in Ha as [_ [[_ Hb] _]%Forall_cons]. by apply existsb_same.
  - by destruct (unnumbered b) as [| | | | | | | |[[|? [|]]]|], b as [| | | | | | | |[[|? [|]]]|].
Qed.
Lemma scan_unnumbered e : same_everywhere e.
Proof.
  induction e as [s|n s|v s|n v s IH|r sel args su s IHr IHa|r segs s IHr IHs|s|es s IH|ps ts body s sid IH|v s IH] using Expr_induction;
    (split; [|try constructor]); try (intros x b; cbn; done).
  - intros x b. cbn. by rewrite (proj1 IH).
  - intros x b. cbn [unnumbered scan]. rewrite (captured_same _ IHa), inline_positions_unnumbered.
    match goal with |- context [inline_positions ?c ?s ?r ?a] => generalize (inline_positions c s r a) end. intros d. f_equal.
    + destruct IHr as [IHr IHb]. destruct r as [| | | | | | | |[]|]; try apply (IHr x b). cbn. by apply existsb_same.
    + generalize 0%nat. induction IHa as [|a l Ha _ IH]; intros i; [done|]. cbn [map]. rewrite IH. f_equal.
      destruct Ha as [Ha Hb]. destruct a as [| | | | | | | |[]|]; try apply (Ha x b). cbn. by apply existsb_same.
  - intros x b. cbn. rewrite (proj1 IHr). f_equal. apply existsb_same. eapply Forall_impl; [exact IHs|]. by intros e [].
  - intros x b. cbn. apply existsb_same. eapply Forall_impl; [exact IH|]. by intros e [].
  - intros x b. cbn. apply existsb_same. eapply Forall_impl; [exact IH|]. by intros e [].
  - cbn. eapply Forall_impl; [exact IH|]. by intros e [].
  - intros x b. cbn. apply (proj1 IH).
Qed.
Lemma positions_unnumbered sel r args : inline_block_positions sel (unnumbered r) (map unnumbered args) = inline_block_positions sel r args.
Proof.
  unfold inline_block_positions, to_do_needs_real_send. rewrite captured_same, inline_positions_unnumbered; [done|].
  apply Forall_forall. intros e _. apply scan_unnumbered.
Qed.

(** ** What a tree refers to *)
(** Every reference of [e], seen in the scope it belongs to, is in [P], and so
    is the number of every block with a scope of its own in [B]. *)
Definition All {A} (P : A -> Prop) (l : list A) : Prop := fold_right (fun x Q => P x /\ Q) True l.
Lemma All_Forall {A} (P : A -> Prop) l : All P l <-> Forall P l.
Proof. induction l as [|x l IH]; cbn; [by split; [constructor|]|]. by rewrite Forall_cons, IH. Qed.
Definition operand (placed : nat -> Expr F -> Prop) (sc : nat) (dissolved : bool) (e : Expr F) : Prop :=
  match dissolved, e with
  | true, Block (MkBlock _ _ body _ _) => All (placed sc) body
  | true, _ => True
  | false, e => placed sc e
  end.
Definition operands (placed : nat -> Expr F -> Prop) (sc : nat) (positions : option (list BlockPos)) : nat -> list (Expr F) -> Prop :=
  fix go i l := match l with [] => True | a :: l => operand placed sc (at_pos (Arg i) positions) a /\ go (S i) l end.

Section placed.
Context (P : nat -> list Z -> Prop) (B : nat -> list (list Z) -> list (list Z) -> nat -> Prop).
Fixpoint placed (sc : nat) (e : Expr F) : Prop :=
  match e with
  | SelfRef _ | CascadeRcvr _ | Lit _ _ => True
  | Var n _ => P sc n
  | EAssign n v _ => P sc n /\ placed sc v
  | Send r sel args su _ =>
      let positions := if su then None else inline_block_positions sel r args in
      operand placed sc (at_pos Receiver positions) r /\ operands placed sc positions 0 args
  | Cascade r segs _ => placed sc r /\ All (placed sc) segs
  | DynArray es _ => All (placed sc) es
  | Return v _ => placed sc v
  | Block (MkBlock ps ts body _ sid) => B sc ps ts (Z.to_nat sid) /\ All (placed (Z.to_nat sid)) body
  end.
End placed.

(** The same, with the blocks around each reference: [D] is what is known of
    the variables of a dissolved block. *)
Definition lexical_operand (lexical : list level -> nat -> Expr F -> Prop) (D : level -> Prop) (env : list level) (sc : nat) (dissolved : bool) (e : Expr F) : Prop :=
  match dissolved, e with
  | true, Block (MkBlock ps ts body _ _) => exists start, D (MkLevel sc start (ps ++ ts)) /\ All (lexical (MkLevel sc start (ps ++ ts) :: env) sc) body
  | true, _ => True
  | false, e => lexical env sc e
  end.
Definition lexical_operands (lexical : list level -> nat -> Expr F -> Prop) (D : level -> Prop) (env : list level) (sc : nat) (positions : option (list BlockPos)) : nat -> list (Expr F) -> Prop :=
  fix go i l := match l with [] => True | a :: l => lexical_operand lexical D env sc (at_pos (Arg i) positions) a /\ go (S i) l end.
Section lexical.
Context (P : list level -> nat -> list Z -> Prop) (B : nat -> list (list Z) -> list (list Z) -> nat -> Prop) (D : level -> Prop).
Fixpoint lexical (env : list level) (sc : nat) (e : Expr F) : Prop :=
  match e with
  | SelfRef _ | CascadeRcvr _ | Lit _ _ => True
  | Var n _ => P env sc n
  | EAssign n v _ => P env sc n /\ lexical env sc v
  | Send r sel args su _ =>
      let positions := if su then None else inline_block_positions sel r args in
      lexical_operand lexical D env sc (at_pos Receiver positions) r /\ lexical_operands lexical D env sc positions 0 args
  | Cascade r segs _ => lexical env sc r /\ All (lexical env sc) segs
  | DynArray es _ => All (lexical env sc) es
  | Return v _ => lexical env sc v
  | Block (MkBlock ps ts body _ sid) => B sc ps ts (Z.to_nat sid) /\ All (lexical (MkLevel (Z.to_nat sid) 0 (ps ++ ts) :: env) (Z.to_nat sid)) body
  end.
End lexical.

(** More may be said of each part, given what [I] says of the blocks around it. *)
Section mono.
Context (P P' : list level -> nat -> list Z -> Prop) (B B' : nat -> list (list Z) -> list (list Z) -> nat -> Prop) (D D' : level -> Prop) (I : list level -> nat -> Prop).
Context (HP : forall env sc n, I env sc -> P env sc n -> P' env sc n) (HB : forall sc ps ts sid, B sc ps ts sid -> B' sc ps ts sid) (HD : forall l, D l -> D' l).
Context (HId : forall env sc start ns, I env sc -> D (MkLevel sc start ns) -> I (MkLevel sc start ns :: env) sc).
Context (HIb : forall env sc ps ts sid, I env sc -> B sc ps ts sid -> I (MkLevel sid 0 (ps ++ ts) :: env) sid).
Definition more_lexical (e : Expr F) : Prop := forall env sc, I env sc -> lexical P B D env sc e -> lexical P' B' D' env sc e.
Lemma All_mono env sc l : I env sc -> Forall more_lexical l -> All (lexical P B D env sc) l -> All (lexical P' B' D' env sc) l.
Proof. rewrite !All_Forall. intros Hi Hl Hp. induction Hl as [|e l He _ IH]; inversion Hp; constructor; auto. Qed.
Lemma operand_mono env sc d e : I env sc -> more_lexical e /\ Forall more_lexical (body_of e) -> lexical_operand (lexical P B D) D env sc d e -> lexical_operand (lexical P' B' D') D' env sc d e.
Proof using HD HId.
  intros Hi [He Hb]. destruct d; [|by apply He]. destruct e as [| | | | | | | |[ps ts body s sid]|]; try done. intros (start & Hd & Hl). exists start. split; [by apply HD|].
  apply All_mono; [by apply HId|done..].
Qed.
Lemma operands_mono env sc ps l : I env sc -> Forall (fun e => more_lexical e /\ Forall more_lexical (body_of e)) l -> forall i,
  lexical_operands (lexical P B D) D env sc ps i l -> lexical_operands (lexical P' B' D') D' env sc ps i l.
Proof using HD HId. intros Hi. induction 1 as [|e l He _ IH]; intros i; [done|]. cbn. intros [H1 H2]. split; [by apply operand_mono|by apply IH]. Qed.
Lemma lexical_mono e : more_lexical e /\ Forall more_lexical (body_of e).
Proof using All.
  induction e as [s|n s|v s|n v s IH|r sel args su s IHr IHa|r segs s IHr IHs|s|es s IH|ps ts body s sid IH|v s IH] using Expr_induction;
    (split; [intros env sc Hi|try constructor]); cbn [lexical]; try done.
  - by apply HP.
  - intros [H1 H2]. split; [by apply HP|by apply IH].
  - intros [H1 H2]. split; [by apply operand_mono|by apply operands_mono].
  - intros [H1 H2]. split; [by apply IHr|]. apply All_mono; [done| |done]. by eapply Forall_impl; [exact IHs|intros ? []].
  - apply All_mono; [done|]. by eapply Forall_impl; [exact IH|intros ? []].
  - intros [H1 H2]. split; [by apply HB|]. apply All_mono; [by eapply HIb| |done]. by eapply Forall_impl; [exact IH|intros ? []].
  - by eapply Forall_impl; [exact IH|intros ? []].
  - by apply IH.
Qed.
End mono.

(** The blocks around forgotten. *)
Section forget.
Context (P : list level -> nat -> list Z -> Prop) (P' : nat -> list Z -> Prop) (B B' : nat -> list (list Z) -> list (list Z) -> nat -> Prop) (D : level -> Prop).
Context (HP : forall env sc n, P env sc n -> P' sc n) (HB : forall sc ps ts sid, B sc ps ts sid -> B' sc ps ts sid).
Definition forgets (e : Expr F) : Prop := forall env sc, lexical P B D env sc e -> placed P' B' sc e.
Lemma All_forget env sc l : Forall forgets l -> All (lexical P B D env sc) l -> All (placed P' B' sc) l.
Proof. rewrite !All_Forall. intros Hl Hp. induction Hl as [|e l He _ IH]; inversion Hp; constructor; eauto. Qed.
Lemma operand_forget env sc d e : forgets e /\ Forall forgets (body_of e) -> lexical_operand (lexical P B D) D env sc d e -> operand (placed P' B') sc d e.
Proof.
  intros [He Hb]. destruct d; [|apply He]. destruct e as [| | | | | | | |[ps ts body s sid]|]; try done. intros (start & _ & Hl). by eapply All_forget.
Qed.
Lemma operands_forget env sc ps l : Forall (fun e => forgets e /\ Forall forgets (body_of e)) l -> forall i,
  lexical_operands (lexical P B D) D env sc ps i l -> operands (placed P' B') sc ps i l.
Proof. induction 1 as [|e l He _ IH]; intros i; [done|]. cbn. intros [H1 H2]. split; [by eapply operand_forget|by apply IH]. Qed.
Lemma lexical_placed e : forgets e /\ Forall forgets (body_of e).
Proof using HP HB.
  induction e as [s|n s|v s|n v s IH|r sel args su s IHr IHa|r segs s IHr IHs|s|es s IH|ps ts body s sid IH|v s IH] using Expr_induction;
    (split; [intros env sc|try constructor]); cbn [lexical placed]; try done.
  - apply HP.
  - intros [H1 H2]. split; [by eapply HP|by eapply IH].
  - intros [H1 H2]. split; [by eapply operand_forget|by eapply operands_forget].
  - intros [H1 H2]. split; [by eapply IHr|]. eapply All_forget; [|done]. by eapply Forall_impl; [exact IHs|intros ? []].
  - apply (All_forget env). by eapply Forall_impl; [exact IH|intros ? []].
  - intros [H1 H2]. split; [by apply HB|]. eapply All_forget; [|done]. by eapply Forall_impl; [exact IH|intros ? []].
  - by eapply Forall_impl; [exact IH|intros ? []].
  - apply IH.
Qed.
End forget.

(** ** The walk *)
Definition tree_ok (i : nat) (b : ScopeBuilder) : Prop :=
  match b_parent b with Some p => (p < i)%nat /\ b_is_method b = false | None => i = 0%nat /\ b_is_method b = true end /\
  b_captured b = replicate (length (names b)) false /\ (b_argc b <= length (names b))%nat.
Record walk_ok (w : walk) : Prop := {
  wo_next : next_id w = length (builders w);
  wo_tree : forall i b, builders w !! i = Some b -> tree_ok i b;
  wo_refs : Forall (fun r => r.1 < length (builders w))%nat (refs w) }.
Definition same_scope (b b' : ScopeBuilder) : Prop :=
  b_parent b' = b_parent b /\ b_is_method b' = b_is_method b /\ b_argc b' = b_argc b /\ names b `prefix_of` names b'.
Definition extends (w w' : walk) : Prop :=
  refs w `prefix_of` refs w' /\ forall i b, builders w !! i = Some b -> exists b', builders w' !! i = Some b' /\ same_scope b b'.
#[export] Instance extends_pre : PreOrder extends.
Proof.
  split.
  - intros w. split; [done|]. intros i b Hb. by exists b.
  - intros w1 w2 w3 [Hr Hb] [Hr' Hb']. split; [by etransitivity|]. intros i b Hi. destruct (Hb _ _ Hi) as (b' & Hi' & A1 & A2 & A3 & A4).
    destruct (Hb' _ _ Hi') as (b'' & Hi'' & B1 & B2 & B3 & B4). exists b''. split; [done|]. split_and!; try congruence. by etransitivity.
Qed.
Lemma extends_length w w' : extends w w' -> (length (builders w) <= length (builders w'))%nat.
Proof.
  intros [_ Hb]. destruct (length (builders w)) as [|n] eqn:E; [lia|]. destruct (lookup_lt_is_Some_2 (builders w) n) as [b Hn]; [lia|].
  destruct (Hb _ _ Hn) as (b' & Hn' & _). apply lookup_lt_Some in Hn'. lia.
Qed.
Definition in_refs (w : walk) (env : list level) (sc : nat) (n : list Z) : Prop := (sc, n) ∈ refs w.
Definition hosted (w : walk) (l : level) : Prop := exists b, builders w !! l_scope l = Some b /\
  forall i n, l_names l !! i = Some n -> names b !! (l_start l + i)%nat = Some n.
Lemma hosted_extends w w' l : extends w w' -> hosted w l -> hosted w' l.
Proof.
  intros [_ Hb] (b & Hl & Hn). destruct (Hb _ _ Hl) as (b' & Hl' & _ & _ & _ & [more E]). exists b'. split; [done|]. intros i n Hi. rewrite E. by apply lookup_app_l_Some, Hn.
Qed.
Definition block_scope (w : walk) (sc : nat) (ps ts : list (list Z)) (sid : nat) : Prop := exists b,
  builders w !! sid = Some b /\ b_parent b = Some sc /\ b_argc b = length ps /\ (ps ++ ts) `prefix_of` names b.

(** What a walk of [e] does to the collection, and what its tree is. *)
Definition walked {A C} (un : A -> C) (pl : walk -> A -> Prop) (e : A) (r : option (A * walk)) (w : walk) : Prop := exists e' w',
  r = Some (e', w') /\ walk_ok w' /\ extends w w' /\ un e' = un e /\ forall wf, extends w' wf -> pl wf e'.
#[local] Abbreviation lex wf := (lexical (in_refs wf) (block_scope wf) (hosted wf)).
Definition walks (e : Expr F) : Prop := forall env sc w, walk_ok w -> (sc < length (builders w))%nat ->
  walked unnumbered (fun wf => lex wf env sc) e (walk_expr e sc w) w.

Lemma in_scope w w' (sc : nat) : extends w w' -> (sc < length (builders w))%nat -> (sc < length (builders w'))%nat.
Proof. intros He%extends_length. lia. Qed.
Lemma add_ref_ok w sc n : walk_ok w -> (sc < length (builders w))%nat -> walk_ok (add_ref sc n w) /\ extends w (add_ref sc n w).
Proof.
  intros [H1 H2 H3] Hs. split; [split|].
  - done.
  - done.
  - cbn. apply Forall_app. split; [done|]. by constructor.
  - split; [by eexists|]. intros i b Hb. by exists b.
Qed.
Lemma add_ref_in w sc n wf : extends (add_ref sc n w) wf -> forall env, in_refs wf env sc n.
Proof. intros [[l E] _] env. unfold in_refs. rewrite E. cbn. apply elem_of_app. left. apply elem_of_app. right. constructor. Qed.
Lemma walk_body_ok body : Forall walks body -> forall env sc w, walk_ok w -> (sc < length (builders w))%nat ->
  walked (map unnumbered) (fun wf => All (lex wf env sc)) body (walk_block_body walk_expr body sc w) w.
Proof.
  induction 1 as [|e body He _ IH]; intros env sc w Hw Hs; cbn [walk_block_body]; [by exists [], w|].
  destruct (He env sc w Hw Hs) as (e' & w1 & -> & Hw1 & Hx1 & Hu1 & Hp1). cbn [mbind option_bind].
  destruct (IH env sc w1 Hw1 (in_scope _ _ _ Hx1 Hs)) as (l' & w2 & -> & Hw2 & Hx2 & Hu2 & Hp2). cbn [mbind option_bind].
  exists (e' :: l'), w2. split; [done|]. split; [done|]. split; [by etransitivity|]. split; [cbn; by rewrite Hu1, Hu2|].
  intros wf Hf. split; [apply Hp1; by etransitivity|by apply Hp2].
Qed.

Lemma extend_scope_ok w sc ns sb : walk_ok w -> builders w !! sc = Some sb ->
  let w' := with_builders (<[sc := extend_scope ns sb]> (builders w)) w in walk_ok w' /\ extends w w'.
Proof.
  intros [H1 H2 H3] Hs. pose proof (lookup_lt_Some _ _ _ Hs) as Hl. destruct (H2 _ _ Hs) as (Hp & Hc & Ha). split; [split|split].
  - cbn. by rewrite length_insert.
  - cbn. intros i b Hi. destruct (decide (i = sc)) as [->|Hne]; [|rewrite list_lookup_insert_ne in Hi by done; by apply H2].
    rewrite list_lookup_insert_eq in Hi by done. injection Hi as <-. split; [exact Hp|]. cbn. rewrite Hc, length_app, replicate_add. split; [done|lia].
  - cbn. by rewrite length_insert.
  - done.
  - cbn. intros i b Hi. destruct (decide (i = sc)) as [->|Hne]; [|exists b; by rewrite list_lookup_insert_ne].
    rewrite list_lookup_insert_eq by done. eexists. split; [done|]. rewrite Hs in Hi. injection Hi as <-. split_and!; try done. by eexists.
Qed.
Lemma dissolve_ok ps ts body s sid : Forall walks body -> forall env sc w, walk_ok w -> (sc < length (builders w))%nat ->
  walked (fun b => unnumbered (Block b)) (fun wf b => lexical_operand (lex wf) (hosted wf) env sc true (Block b)) (MkBlock ps ts body s sid)
    (dissolve_block_into walk_expr (MkBlock ps ts body s sid) sc w) w.
Proof.
  intros Hb env sc w Hw Hs. destruct (lookup_lt_is_Some_2 _ _ Hs) as [sb Hsb]. cbn [dissolve_block_into]. rewrite Hsb. cbn [mbind option_bind].
  destruct (extend_scope_ok w sc (new_scope_names ps ts) sb Hw Hsb) as [Hw' Hx].
  assert (hosted (with_builders (<[sc := extend_scope (new_scope_names ps ts) sb]> (builders w)) w) (MkLevel sc (length (names sb)) (ps ++ ts))) as Hho.
  { cbn. eexists. split; [by apply list_lookup_insert_eq|]. intros i n Hi. cbn. rewrite lookup_app_r by lia. by replace (length (names sb) + i - length (names sb))%nat with i by lia. }
  destruct (walk_body_ok body Hb (MkLevel sc (length (names sb)) (ps ++ ts) :: env) sc _ Hw' (in_scope _ _ _ Hx Hs)) as (body' & w2 & -> & Hw2 & Hx2 & Hu & Hp). cbn [mbind option_bind].
  eexists _, w2. split; [done|]. split; [done|]. split; [by etransitivity|]. split; [cbn; by rewrite Hu|].
  intros wf Hf. exists (length (names sb)). split; [|by apply Hp]. eapply hosted_extends; [|exact Hho]. by etransitivity.
Qed.
Definition walk_operand (dissolved : bool) (e : Expr F) (sc : nat) (w : walk) : option (Expr F * walk) :=
  match dissolved, e with
  | true, Block b => '(b, w) ← dissolve_block_into walk_expr b sc w; Some (Block b, w)
  | true, e => Some (e, w)
  | false, e => walk_expr e sc w
  end.
Lemma operand_ok d e : walks e /\ Forall walks (body_of e) -> forall env sc w, walk_ok w -> (sc < length (builders w))%nat ->
  walked unnumbered (fun wf => lexical_operand (lex wf) (hosted wf) env sc d) e (walk_operand d e sc w) w.
Proof.
  intros [He Hb] env sc w Hw Hs. destruct d; [|by apply He].
  destruct e as [| | | | | | | |[ps ts body s sid]|]; try (by eexists _, w). cbn [walk_operand].
  destruct (dissolve_ok ps ts body s sid Hb env sc w Hw Hs) as ([ps' ts' body' s' sid'] & w' & -> & Hw' & Hx & Hu & Hp).
  eexists _, w'. split; [done|]. by split_and!.
Qed.
Definition walk_args (positions : option (list BlockPos)) (sc : nat) : nat -> list (Expr F) -> walk -> option (list (Expr F) * walk) :=
  fix go i l w :=
    match l with
    | [] => Some ([], w)
    | a :: l => '(a, w) ← walk_operand (at_pos (Arg i) positions) a sc w; '(l, w) ← go (S i) l w; Some (a :: l, w)
    end.
Lemma args_ok positions env sc l : Forall (fun e => walks e /\ Forall walks (body_of e)) l -> forall i w, walk_ok w -> (sc < length (builders w))%nat ->
  walked (map unnumbered) (fun wf => lexical_operands (lex wf) (hosted wf) env sc positions i) l (walk_args positions sc i l w) w.
Proof.
  induction 1 as [|e l He _ IH]; intros i w Hw Hs; [by exists [], w|]. cbn [walk_args].
  destruct (operand_ok (at_pos (Arg i) positions) e He env sc w Hw Hs) as (e' & w1 & -> & Hw1 & Hx1 & Hu1 & Hp1). cbn [mbind option_bind].
  destruct (IH (S i) w1 Hw1 (in_scope _ _ _ Hx1 Hs)) as (l' & w2 & -> & Hw2 & Hx2 & Hu2 & Hp2). cbn [mbind option_bind].
  exists (e' :: l'), w2. split; [done|]. split; [done|]. split; [by etransitivity|]. split; [cbn; by rewrite Hu1, Hu2|].
  intros wf Hf. split; [apply Hp1; by etransitivity|by apply Hp2].
Qed.
Lemma new_block_ok w sc ps ts : walk_ok w -> (sc < length (builders w))%nat ->
  let w' := MkWalk (builders w ++ [new_builder (Some sc) false ps ts]) (S (next_id w)) (refs w) in walk_ok w' /\ extends w w'.
Proof.
  intros [H1 H2 H3] Hs. split; [split|split].
  - cbn. rewrite length_app, H1. cbn. lia.
  - cbn. intros i b Hi. apply lookup_snoc_Some in Hi as [[? Hi]|[-> <-]]; [by apply H2|]. split; [by split|]. cbn.
    unfold new_scope_names. rewrite !length_app. split; [done|lia].
  - cbn. eapply Forall_impl; [exact H3|]. intros r Hr. cbn beta in *. rewrite length_app. lia.
  - done.
  - cbn. intros i b Hi. exists b. split; [|by split_and!]. by apply lookup_app_l_Some.
Qed.

Lemma walk_expr_ok e : walks e /\ Forall walks (body_of e).
Proof.
  induction e as [s|n s|v s|n v s IH|r sel args su s IHr IHa|r segs s IHr IHs|s|es s IH|ps ts body s sid IH|v s IH] using Expr_induction;
    (split; [intros env sc w Hw Hs|try constructor]).
  - by eexists _, w.
  - destruct (add_ref_ok w sc n Hw Hs) as [Hw' Hx]. eexists _, (add_ref sc n w). split; [done|]. split; [done|]. split; [done|]. split; [done|].
    intros wf Hf. by apply (add_ref_in w).
  - by eexists _, w.
  - destruct (add_ref_ok w sc n Hw Hs) as [Hw' Hx]. cbn [walk_expr].
    destruct (proj1 IH env sc _ Hw' (in_scope _ _ _ Hx Hs)) as (v' & w2 & -> & Hw2 & Hx2 & Hu & Hp). cbn [mbind option_bind].
    eexists _, w2. split; [done|]. split; [done|]. split; [by etransitivity|]. split; [cbn; by rewrite Hu|].
    intros wf Hf. split; [|by apply Hp]. apply (add_ref_in w). by etransitivity.
  - cbn [walk_expr]. set (positions := if su then None else inline_block_positions sel r args).
    change (walked unnumbered (fun wf => lex wf env sc) (Send r sel args su s)
      ('(r, w) ← walk_operand (at_pos Receiver positions) r sc w; '(args, w) ← walk_args positions sc 0 args w; Some (Send r sel args su s, w)) w).
    destruct (operand_ok (at_pos Receiver positions) r IHr env sc w Hw Hs) as (r' & w1 & -> & Hw1 & Hx1 & Hu1 & Hp1). cbn [mbind option_bind].
    destruct (args_ok positions env sc args IHa 0%nat w1 Hw1 (in_scope _ _ _ Hx1 Hs)) as (l' & w2 & -> & Hw2 & Hx2 & Hu2 & Hp2). cbn [mbind option_bind].
    eexists _, w2. split; [done|]. split; [done|]. split; [by etransitivity|]. split; [cbn; by rewrite Hu1, Hu2|].
    intros wf Hf. cbn [lexical].
    assert ((if su then None else inline_block_positions sel r' l') = positions) as ->.
    { unfold positions. destruct su; [done|]. by rewrite <- positions_unnumbered, Hu1, Hu2, positions_unnumbered. }
    split; [apply Hp1; by etransitivity|by apply Hp2].
  - cbn [walk_expr]. destruct (proj1 IHr env sc w Hw Hs) as (r' & w1 & -> & Hw1 & Hx1 & Hu1 & Hp1). cbn [mbind option_bind].
    destruct (walk_body_ok segs ltac:(by eapply Forall_impl; [exact IHs|intros ? []]) env sc w1 Hw1 (in_scope _ _ _ Hx1 Hs)) as (l' & w2 & -> & Hw2 & Hx2 & Hu2 & Hp2).
    eexists _, w2. split; [done|]. split; [done|]. split; [by etransitivity|]. split; [cbn; by rewrite Hu1, Hu2|].
    intros wf Hf. split; [apply Hp1; by etransitivity|by apply Hp2].
  - by eexists _, w.
  - cbn [walk_expr]. destruct (walk_body_ok es ltac:(by eapply Forall_impl; [exact IH|intros ? []]) env sc w Hw Hs) as (l' & w2 & -> & Hw2 & Hx2 & Hu2 & Hp2).
    eexists _, w2. split; [done|]. split; [done|]. split; [done|]. split; [cbn; by rewrite Hu2|exact Hp2].
  - cbn [walk_expr]. destruct (new_block_ok w sc ps ts Hw Hs) as [Hw' Hx].
    destruct (walk_body_ok body ltac:(by eapply Forall_impl; [exact IH|intros ? []]) (MkLevel (next_id w) 0 (ps ++ ts) :: env) (next_id w) _ Hw') as (l' & w2 & -> & Hw2 & Hx2 & Hu2 & Hp2).
    { cbn. rewrite length_app, (wo_next _ Hw). cbn. lia. }
    eexists _, w2. split; [done|]. split; [done|]. split; [by etransitivity|]. split; [cbn; by rewrite Hu2|].
    intros wf Hf. cbn [lexical]. rewrite Nat2Z.id. split; [|by apply Hp2].
    destruct Hx2 as [_ Hb2], Hf as [_ Hbf]. destruct (Hb2 (next_id w) (new_builder (Some sc) false ps ts)) as (b2 & E2 & A1 & A2 & A3 & A4).
    { cbn. rewrite (wo_next _ Hw). by apply list_lookup_middle. }
    destruct (Hbf _ _ E2) as (b3 & E3 & B1 & B2 & B3 & B4). exists b3. split; [done|]. split; [by rewrite B1, A1|]. split; [by rewrite B3, A3|].
    etransitivity; [exact A4|exact B4].
  - by eapply Forall_impl; [exact IH|intros ? []].
  - cbn [walk_expr]. destruct (proj1 IH env sc w Hw Hs) as (v' & w2 & -> & Hw2 & Hx2 & Hu & Hp).
    eexists _, w2. split; [done|]. split; [done|]. split; [done|]. split; [cbn; by rewrite Hu|exact Hp].
Qed.
End trees.

(** ** Marking *)
Definition tree (bs : list ScopeBuilder) : Prop := forall i b, bs !! i = Some b ->
  match b_parent b with Some p => (p < i)%nat | None => i = 0%nat end /\ length (b_captured b) = length (names b).
(** The innermost declaration of [name] around [sid] is in [d]. *)
Inductive declared (bs : list ScopeBuilder) (name : list Z) : nat -> nat -> Prop :=
  | declared_here sid b : bs !! sid = Some b -> name ∈ names b -> declared bs name sid sid
  | declared_outside sid b p d : bs !! sid = Some b -> name ∉ names b -> b_parent b = Some p -> declared bs name p d -> declared bs name sid d.
Inductive undeclared (bs : list ScopeBuilder) (name : list Z) : nat -> Prop :=
  | undeclared_root sid b : bs !! sid = Some b -> name ∉ names b -> b_parent b = None -> undeclared bs name sid
  | undeclared_outside sid b p : bs !! sid = Some b -> name ∉ names b -> b_parent b = Some p -> undeclared bs name p -> undeclared bs name sid.
(** The scopes on the way out to [d]. *)
Inductive path (bs : list ScopeBuilder) (d : nat) : nat -> list nat -> Prop :=
  | path_end : path bs d d []
  | path_step sid b p l : sid <> d -> bs !! sid = Some b -> b_parent b = Some p -> path bs d p l -> path bs d sid (sid :: l).

Section marking.
Context (bs : list ScopeBuilder) (Hbs : tree bs).
Lemma tree_parent i b p : bs !! i = Some b -> b_parent b = Some p -> (p < i)%nat /\ (p < length bs)%nat.
Proof using Hbs. intros Hi Hp. destruct (Hbs _ _ Hi) as [Ht _]. rewrite Hp in Ht. apply lookup_lt_Some in Hi. lia. Qed.
Lemma find_defining_ok n : forall sid name, (sid < length bs)%nat -> (sid < n)%nat -> exists r,
  find_defining_scope n bs sid name = Some r /\ match r with Some d => declared bs name sid d | None => undeclared bs name sid end.
Proof using Hbs.
  induction n as [|n IH]; intros sid name Hs Hn; [lia|]. destruct (lookup_lt_is_Some_2 _ _ Hs) as [b Hb]. cbn [find_defining_scope]. rewrite Hb. cbn [mbind option_bind].
  case_bool_decide as Hin; [by exists (Some sid); split; [|by econstructor]|]. destruct (b_parent b) as [p|] eqn:Ep.
  - destruct (tree_parent _ _ _ Hb Ep). destruct (IH p name) as (r & -> & Hr); [lia..|]. exists r. split; [done|]. destruct r; by econstructor.
  - exists None. split; [done|]. by econstructor.
Qed.
Lemma declared_le name sid d : declared bs name sid d -> (d <= sid)%nat /\ exists b, bs !! d = Some b /\ name ∈ names b.
Proof using Hbs.
  induction 1 as [sid b Hb Hin|sid b p d Hb Hni Hp _ [IH Hx]]; [split; [done|by exists b]|]. destruct (tree_parent _ _ _ Hb Hp). split; [lia|done].
Qed.
Lemma declared_path name sid d : declared bs name sid d -> exists l, path bs d sid l.
Proof using Hbs.
  induction 1 as [sid b Hb Hin|sid b p d Hb Hni Hp Hd [l IH]]; [eexists; constructor|]. exists (sid :: l). econstructor; try done.
  apply declared_le in Hd as [? _]. destruct (tree_parent _ _ _ Hb Hp). lia.
Qed.
Lemma relays_ok d sid l : path bs d sid l -> forall n, (sid < n)%nat -> relays n bs sid d = Some l.
Proof using Hbs.
  induction 1 as [|sid b p l Hne Hb Hp Hpath IH]; intros n Hn; (destruct n as [|n]; [lia|]); cbn [relays].
  - by rewrite decide_True.
  - rewrite decide_False by done. rewrite Hb. cbn [mbind option_bind]. rewrite Hp. cbn [mbind option_bind]. destruct (tree_parent _ _ _ Hb Hp). by rewrite IH by lia.
Qed.
Lemma path_lt d sid l i : path bs d sid l -> i ∈ l -> (i < length bs)%nat.
Proof. induction 1 as [|sid b p l Hne Hb Hp Hpath IH]; [by intros ?%not_elem_of_nil|]. intros [->|?]%elem_of_cons; [by eapply lookup_lt_Some|auto]. Qed.
Lemma path_fun d sid l : path bs d sid l -> forall l', path bs d sid l' -> l' = l.
Proof. induction 1 as [|sid b p l Hne Hb Hp _ IH]; intros l' Hl; inversion Hl; simplify_eq; try done; f_equal; by apply IH. Qed.

Lemma set_all_lookup l : forall bits i, (set_all l bits) !! i = if decide (i ∈ l) then (fun _ => true) <$> bits !! i else bits !! i.
Proof.
  induction l as [|x l IH]; intros bits i; [by rewrite decide_False by apply not_elem_of_nil|]. change (set_all (x :: l) bits) with (<[x := true]> (set_all l bits)).
  destruct (decide (i = x)) as [->|Hne].
  - rewrite decide_True by constructor. destruct (decide (x < length (set_all l bits))%nat) as [Hl|Hl].
    + rewrite list_lookup_insert_eq by done. apply lookup_lt_is_Some_2 in Hl as [v Hv]. rewrite IH in Hv.
      destruct (bits !! x) eqn:E; [done|]. by destruct (decide (x ∈ l)).
    + rewrite list_insert_ge by lia. apply Nat.nlt_ge, lookup_ge_None in Hl. rewrite Hl. rewrite IH in Hl. destruct (bits !! x) eqn:E; [|done]. by destruct (decide (x ∈ l)).
  - rewrite list_lookup_insert_ne by done. rewrite IH. destruct (decide (i ∈ l)) as [Hi|Hi]; [by rewrite decide_True by (by right)|].
    rewrite decide_False; [done|]. by intros [->|?]%elem_of_cons.
Qed.
Lemma set_all_length l bits : length (set_all l bits) = length bits.
Proof. induction l as [|x l IH]; cbn; [done|]. by rewrite length_insert. Qed.

Definition mark_valid (k : nat * nat) : Prop := exists b, bs !! k.1 = Some b /\ (k.2 < length (names b))%nat.
Record marks_ok (m : marks) : Prop := { mo_len : length (needs_chain m) = length bs; mo_valid : Forall mark_valid (to_mark m) }.
Definition more_marks (m m' : marks) : Prop :=
  (forall k, k ∈ to_mark m -> k ∈ to_mark m') /\ (forall i, needs_chain m !! i = Some true -> needs_chain m' !! i = Some true).
#[local] Instance more_marks_pre : PreOrder more_marks.
Proof. split; [by intros m; split|]. intros m1 m2 m3 [A B] [A' B']. split; auto. Qed.
(** A reference whose variable belongs to another scope is marked. *)
Definition marked (m : marks) (sid : nat) (name : list Z) : Prop := forall d l, declared bs name sid d -> d <> sid -> path bs d sid l ->
  exists b idx, bs !! d = Some b /\ list_find (fun n => n = name) (names b) = Some (idx, name) /\ (d, idx) ∈ to_mark m /\
    forall i, i ∈ l -> needs_chain m !! i = Some true.
Lemma marked_more m m' sid name : more_marks m m' -> marked m sid name -> marked m' sid name.
Proof.
  intros [Hk Hn] Hm d l Hd Hne Hp. destruct (Hm d l Hd Hne Hp) as (b & idx & Hb & Hf & Hin & Hc). exists b, idx. split_and!; auto.
Qed.
Lemma declared_fun name sid d : declared bs name sid d -> forall d', declared bs name sid d' -> d' = d.
Proof. induction 1 as [sid b Hb Hin|sid b p d Hb Hni Hp _ IH]; intros d' Hd; inversion Hd; simplify_eq; try done; auto. Qed.
Lemma undeclared_declared name sid : undeclared bs name sid -> forall d, ~ declared bs name sid d.
Proof. induction 1 as [|sid b p Hb Hn Hp _ IH]; intros d Hd; inversion Hd; simplify_eq; try done. by eapply IH. Qed.
Lemma mark_ref_ok m sid name : marks_ok m -> (sid < length bs)%nat -> exists m', mark_ref bs m (sid, name) = Some m' /\ marks_ok m' /\ more_marks m m' /\ marked m' sid name.
Proof using Hbs.
  intros [Hl Hv] Hs. unfold mark_ref. cbn [fst snd]. destruct (find_defining_ok (S (length bs)) sid name Hs ltac:(lia)) as (r & -> & Hr). cbn [mbind option_bind].
  destruct r as [d|].
  2: { exists m. split; [done|]. split; [done|]. split; [done|]. intros d l Hd. by apply undeclared_declared with (d := d) in Hr. }
  destruct (decide (d = sid)) as [->|Hne].
  { exists m. split; [done|]. split; [done|]. split; [done|]. intros d l Hd Hne. by rewrite (declared_fun _ _ _ Hr _ Hd) in Hne. }
  destruct (declared_le _ _ _ Hr) as (_ & b & Hb & Hin). rewrite Hb. cbn [mbind option_bind].
  destruct (list_find_elem_of (fun n => n = name) (names b) name Hin eq_refl) as [[idx n] Hf].
  pose proof Hf as Hf'. apply list_find_Some in Hf' as (Hidx & -> & _).
  destruct (declared_path _ _ _ Hr) as [l Hp]. cbn [fst snd]. rewrite Hf. cbn [fmap option_fmap option_map fst mbind option_bind]. rewrite (relays_ok _ _ _ Hp) by lia. cbn [mbind option_bind].
  eexists. split; [done|]. split; [split|split; [split|]].
  - cbn. by rewrite set_all_length.
  - cbn. constructor; [|done]. exists b. split; [done|]. by eapply lookup_lt_Some.
  - cbn. intros k Hk. by right.
  - cbn. intros i Hi. rewrite set_all_lookup. destruct (decide (i ∈ l)); [by rewrite Hi|done].
  - intros d' l' Hd Hne' Hp'. rewrite (declared_fun _ _ _ Hr _ Hd) in *. rewrite (path_fun _ _ _ Hp _ Hp') in *. exists b, idx. split; [done|]. split; [done|]. split; [left|].
    intros i Hi. cbn. rewrite set_all_lookup, decide_True by done. destruct (lookup_lt_is_Some_2 (needs_chain m) i) as [v ->]; [|done]. rewrite Hl. exact (path_lt _ _ _ _ Hp Hi).
Qed.
Lemma mark_refs_ok rs : forall m, marks_ok m -> Forall (fun r => r.1 < length bs)%nat rs -> exists m', mark_refs bs rs m = Some m' /\ marks_ok m' /\ more_marks m m' /\
  Forall (fun r => marked m' r.1 r.2) rs.
Proof using Hbs.
  induction rs as [|[sid name] rs IH]; intros m Hm Hr; [by exists m|]. apply Forall_cons in Hr as [Hs Hr]. cbn [mark_refs].
  destruct (mark_ref_ok m sid name Hm Hs) as (m1 & -> & Hm1 & Hx1 & Hk1). cbn [mbind option_bind].
  destruct (IH m1 Hm1 Hr) as (m2 & -> & Hm2 & Hx2 & Hk2). exists m2. split; [done|]. split; [done|]. split; [by etransitivity|].
  constructor; [by eapply marked_more|done].
Qed.
End marking.

(** The scopes with more of their variables captured. *)
Definition recaptured (bs bs' : list ScopeBuilder) : Prop := length bs' = length bs /\ forall i b, bs !! i = Some b -> exists c,
  bs' !! i = Some (MkBuilder (b_parent b) (b_is_method b) (b_argc b) (names b) c) /\ length c = length (b_captured b) /\
  forall j, b_captured b !! j = Some true -> c !! j = Some true.
Lemma recaptured_trans bs1 bs2 bs3 : recaptured bs1 bs2 -> recaptured bs2 bs3 -> recaptured bs1 bs3.
Proof.
  intros [Hl H] [Hl' H']. split; [congruence|]. intros i b Hb. destruct (H _ _ Hb) as (c & Hc & Hcl & Hm). destruct (H' _ _ Hc) as (c' & Hc' & Hcl' & Hm').
  cbn in *. exists c'. split; [done|]. split; [congruence|auto].
Qed.
Lemma recaptured_refl bs : recaptured bs bs.
Proof. split; [done|]. intros i b Hb. exists (b_captured b). by destruct b. Qed.
Lemma set_captured_ok bs k : tree bs -> mark_valid bs k -> exists bs', set_captured bs k = Some bs' /\ recaptured bs bs' /\
  exists b, bs' !! k.1 = Some b /\ b_captured b !! k.2 = Some true.
Proof.
  intros Ht (b & Hb & Hk). unfold set_captured. rewrite Hb. cbn [mbind option_bind]. destruct (Ht _ _ Hb) as [_ Hc]. rewrite decide_True by lia.
  pose proof (lookup_lt_Some _ _ _ Hb) as Hl. eexists. split; [done|]. split; [split|].
  - by rewrite length_insert.
  - intros i b' Hb'. destruct (decide (i = k.1)) as [->|Hne].
    + rewrite Hb in Hb'. injection Hb' as <-. rewrite list_lookup_insert_eq by done. eexists. split; [done|]. rewrite length_insert. split; [done|].
      intros j Hj. destruct (decide (j = k.2)) as [->|]; [rewrite list_lookup_insert_eq by lia; done|by rewrite list_lookup_insert_ne].
    + rewrite list_lookup_insert_ne by done. exists (b_captured b'). by destruct b'.
  - rewrite list_lookup_insert_eq by done. eexists. split; [done|]. cbn. by rewrite list_lookup_insert_eq by lia.
Qed.
Lemma recaptured_tree bs bs' : recaptured bs bs' -> tree bs -> tree bs'.
Proof.
  intros [Hl H] Ht i b' Hb'. destruct (lookup_lt_is_Some_2 bs i) as [b Hb]; [rewrite <- Hl; by eapply lookup_lt_Some|].
  destruct (H _ _ Hb) as (c & Hc & Hcl & _). rewrite Hb' in Hc. injection Hc as ->. cbn. destruct (Ht _ _ Hb) as [H1 H2]. split; [done|congruence].
Qed.
Lemma mark_valid_recaptured bs bs' k : recaptured bs bs' -> mark_valid bs k -> mark_valid bs' k.
Proof. intros [_ H] (b & Hb & Hk). destruct (H _ _ Hb) as (c & Hc & _). by eexists. Qed.
Lemma set_captures_ok l : forall bs, tree bs -> Forall (mark_valid bs) l -> exists bs', set_captures bs l = Some bs' /\ recaptured bs bs' /\
  forall k, k ∈ l -> exists b, bs' !! k.1 = Some b /\ b_captured b !! k.2 = Some true.
Proof.
  induction l as [|k l IH]; intros bs Ht Hv.
  - exists bs. split; [done|]. split; [apply recaptured_refl|]. by intros k ?%not_elem_of_nil.
  - apply Forall_cons in Hv as [Hk Hv]. cbn [set_captures]. destruct (set_captured_ok bs k Ht Hk) as (bs1 & -> & Hr1 & b1 & Hb1 & Hc1). cbn [mbind option_bind].
    destruct (IH bs1) as (bs2 & -> & Hr2 & Hc2); [by eapply recaptured_tree|by eapply Forall_impl; [exact Hv|intros; by eapply mark_valid_recaptured]|].
    exists bs2. split; [done|]. split; [by eapply recaptured_trans|]. intros k' [->|Hin]%elem_of_cons; [|by apply Hc2].
    destruct Hr2 as [_ Hr2]. destruct (Hr2 _ _ Hb1) as (c & Hc & _ & Hm). eexists. split; [done|]. by apply Hm.
Qed.

(** ** Places *)
Lemma ctx_slots_len n l : length (ctx_slots n l).1 = length l /\ (n <= (ctx_slots n l).2)%nat.
Proof. revert n. induction l as [|c l IH]; intros n; [done|]. cbn. destruct (IH (if c then S n else n)). destruct c; lia. Qed.
Lemma ctx_slots_lookup l : forall n i o, (ctx_slots n l).1 !! i = Some o -> exists c, l !! i = Some c /\
  match o with Some k => c = true /\ (n <= k < (ctx_slots n l).2)%nat | None => c = false end.
Proof.
  induction l as [|c l IH]; intros n i o; [done|]. destruct i as [|i]; cbn.
  - intros [= <-]. exists c. split; [done|]. destruct c; [|done]. split; [done|]. destruct (ctx_slots_len (S n) l). lia.
  - intros Hi. destruct (IH _ _ _ Hi) as (c' & Hc & Ho). exists c'. split; [done|]. destruct o; [|done]. destruct Ho. split; [done|]. destruct c; lia.
Qed.
Lemma ctx_slots_inj l : forall n i j k, (ctx_slots n l).1 !! i = Some (Some k) -> (ctx_slots n l).1 !! j = Some (Some k) -> i = j.
Proof.
  induction l as [|c l IH]; intros n i j k; [done|].
  assert (forall m x, (ctx_slots (if c then S n else n) l).1 !! m = Some (Some x) -> c = true -> x <> n) as Hne.
  { intros m x Hx ->. destruct (ctx_slots_lookup _ _ _ _ Hx) as (_ & _ & _ & ?). lia. }
  destruct i as [|i], j as [|j]; cbn; intros Hi Hj; [done| | |f_equal; by eapply IH].
  - destruct c; [|done]. injection Hi as <-. by destruct (Hne _ _ Hj eq_refl).
  - destruct c; [|done]. injection Hj as <-. by destruct (Hne _ _ Hi eq_refl).
Qed.
Lemma frame_slots_len argc l : forall i n, length (frame_slots argc i n l).1 = length l /\ (n <= (frame_slots argc i n l).2)%nat.
Proof.
  induction l as [|c l IH]; intros i n; [done|]. cbn [frame_slots]. destruct (decide _); [|destruct (negb c)]; cbn.
  1, 3: destruct (IH (S i) n); lia. destruct (IH (S i) (S n)). lia.
Qed.
Lemma frame_slots_lookup argc l : forall i n j o, (argc <= n)%nat -> (frame_slots argc i n l).1 !! j = Some o -> exists c, l !! j = Some c /\
  if decide (i + j < argc)%nat then o = Some (i + j)%nat
  else match o with Some k => c = false /\ (n <= k < (frame_slots argc i n l).2)%nat | None => c = true end.
Proof.
  induction l as [|c l IH]; intros i n j o Hn; [done|]. cbn [frame_slots]. destruct j as [|j].
  - destruct (decide (i < argc)%nat) as [Hlt|Hge]; [|destruct c]; cbn; intros [= <-]; eexists; (split; [done|]); rewrite Nat.add_0_r.
    + by rewrite decide_True.
    + by rewrite decide_False.
    + rewrite decide_False by done. destruct (frame_slots_len argc l (S i) (S n)). split; [done|lia].
  - destruct (decide (i < argc)%nat) as [Hlt|Hge]; [|destruct c]; cbn; intros Hj; (edestruct IH as (c' & Hc & Ho); [|exact Hj|]; [lia|]); exists c';
      (split; [done|]); replace (i + S j)%nat with (S i + j)%nat by lia; (destruct (decide _); [done|]); destruct o; try done; destruct Ho; split; try done; lia.
Qed.
Lemma frame_slots_inj argc l : forall i n a b k, (argc <= n)%nat -> (frame_slots argc i n l).1 !! a = Some (Some k) -> (frame_slots argc i n l).1 !! b = Some (Some k) -> a = b.
Proof.
  induction l as [|c l IH]; intros i n a b k Hn; [done|].
  assert (forall m a x, (argc <= m)%nat -> (frame_slots argc (S i) m l).1 !! a = Some (Some x) -> x <> i \/ (argc <= i)%nat) as H1.
  { intros m a' x Hm Hx. destruct (frame_slots_lookup _ _ _ _ _ _ Hm Hx) as (c' & _ & Ho). destruct (decide _); [injection Ho as ->; lia|]. destruct Ho. lia. }
  assert (forall a x, (argc <= i)%nat -> (frame_slots argc (S i) (S n) l).1 !! a = Some (Some x) -> x <> n) as H2.
  { intros a' x Hi Hx. destruct (frame_slots_lookup argc l (S i) (S n) a' (Some x) ltac:(lia) Hx) as (c' & _ & Ho). rewrite decide_False in Ho by lia. lia. }
  cbn [frame_slots]. destruct (decide (i < argc)%nat); [|destruct c]; cbn [negb fst]; (destruct a as [|a], b as [|b]); cbn; intros Ha Hb; try done;
    try (f_equal; eapply IH; [|exact Ha|exact Hb]; lia).
  - injection Ha as <-. destruct (H1 n _ _ Hn Hb); lia.
  - injection Hb as <-. destruct (H1 n _ _ Hn Ha); lia.
  - injection Ha as <-. by destruct (H2 _ _ ltac:(lia) Hb).
  - injection Hb as <-. by destruct (H2 _ _ ltac:(lia) Ha).
Qed.

(** A scope's variables have places of their own; a parameter keeps its place
    in the frame, captured or not. *)
Definition var_placed (s : ScopeInfo) (i : nat) (v : VarSlot) : Prop :=
  (if captured v then exists k, ctx_slot v = Some k /\ (k < nctx s)%nat
   else ctx_slot v = None /\ exists f, frame_slot v = Some f /\ (f < argc s + frame_temp_count s)%nat) /\
  ((i < argc s)%nat -> frame_slot v = Some i).
Record scope_ok (s : ScopeInfo) : Prop := {
  so_placed : forall i n v, vars s !! i = Some (n, v) -> var_placed s i v;
  so_frame : forall i j n v n' v' f, vars s !! i = Some (n, v) -> vars s !! j = Some (n', v') -> frame_slot v = Some f -> frame_slot v' = Some f -> i = j;
  so_ctx : forall i j n v n' v' k, vars s !! i = Some (n, v) -> vars s !! j = Some (n', v') -> ctx_slot v = Some k -> ctx_slot v' = Some k -> i = j;
  so_has : has_ctx s = bool_decide (0 < nctx s)%nat }.

Section finalize.
Context (b : ScopeBuilder) (cc : bool) (Hlen : length (b_captured b) = length (names b)).
Abbreviation cs := (ctx_slots 0 (b_captured b)).
Abbreviation fs := (frame_slots (b_argc b) 0 (b_argc b) (b_captured b)).
Lemma finalize_vars i n v : vars (finalize_scope b cc) !! i = Some (n, v) <->
  exists c f k, names b !! i = Some n /\ b_captured b !! i = Some c /\ cs.1 !! i = Some k /\ fs.1 !! i = Some f /\ v = MkVarSlot c f k.
Proof.
  cbn [finalize_scope vars]. rewrite lookup_zip_with_Some. split.
  - intros (n' & p & [= -> ->] & Hn & Hp). rewrite lookup_zip_with_Some in Hp. destruct Hp as (c & q & -> & Hc & Hq).
    rewrite lookup_zip_with_Some in Hq. destruct Hq as (k & f & -> & Hk & Hf). by exists c, f, k.
  - intros (c & f & k & Hn & Hc & Hk & Hf & ->). exists n, (c, (k, f)). split; [done|]. split; [done|].
    rewrite lookup_zip_with_Some. exists c, (k, f). split; [done|]. split; [done|]. rewrite lookup_zip_with_Some. by exists k, f.
Qed.
Lemma finalize_var i n : names b !! i = Some n -> exists v, vars (finalize_scope b cc) !! i = Some (n, v) /\ b_captured b !! i = Some (captured v).
Proof using Hlen.
  intros Hn. pose proof (lookup_lt_Some _ _ _ Hn) as Hl. destruct (ctx_slots_len 0 (b_captured b)) as [Hlc _].
  destruct (frame_slots_len (b_argc b) (b_captured b) 0 (b_argc b)) as [Hlf _].
  destruct (lookup_lt_is_Some_2 (b_captured b) i) as [c Hc]; [lia|]. destruct (lookup_lt_is_Some_2 cs.1 i) as [k Hk]; [lia|].
  destruct (lookup_lt_is_Some_2 fs.1 i) as [f Hf]; [lia|]. exists (MkVarSlot c f k). split; [|done]. apply finalize_vars. by exists c, f, k.
Qed.
Lemma finalize_ok : scope_ok (finalize_scope b cc).
Proof using Hlen.
  destruct (frame_slots_len (b_argc b) (b_captured b) 0 (b_argc b)) as [_ Hlf]. split.
  - intros i n v (c & f & k & Hn & Hc & Hk & Hf & ->)%finalize_vars. destruct (ctx_slots_lookup _ _ _ _ Hk) as (c' & Hc' & Ho).
    destruct (frame_slots_lookup _ _ _ _ _ _ (Nat.le_refl _) Hf) as (c'' & Hc'' & Ho'). assert (c' = c) as -> by congruence. assert (c'' = c) as -> by congruence.
    unfold var_placed. cbn [captured ctx_slot frame_slot finalize_scope nctx argc frame_temp_count Nat.add] in *. split.
    + destruct c; [destruct k as [k|]; [|done]; destruct Ho; exists k; split; [done|lia]|].
      destruct k as [k|]; [by destruct Ho|]. split; [done|]. destruct (decide _) as [Hlt|Hge] in Ho'; [exists i; split; [done|lia]|].
      destruct f as [f|]; [|done]. exists f. split; [done|]. lia.
    + intros Hlt. by rewrite decide_True in Ho' by done.
  - intros i j n v n' v' f (c & fi & ki & _ & _ & _ & Hi & ->)%finalize_vars (c' & fj & kj & _ & _ & _ & Hj & ->)%finalize_vars. cbn. intros -> ->. eapply frame_slots_inj; [apply Nat.le_refl|exact Hi|exact Hj].
  - intros i j n v n' v' k (c & fi & ki & _ & _ & Hi & _ & ->)%finalize_vars (c' & fj & kj & _ & _ & Hj & _ & ->)%finalize_vars. cbn. intros -> ->. by eapply ctx_slots_inj.
  - done.
Qed.
Lemma finalize_find name : find (finalize_scope b cc) name = None <-> name ∉ names b.
Proof using Hlen.
  unfold find. split.
  - intros Hf Hin. apply list_elem_of_lookup in Hin as [i Hi]. destruct (finalize_var _ _ Hi) as (v & Hv & _).
    destruct (list_find_elem_of (fun v => v.1 = name) (vars (finalize_scope b cc)) (name, v)) as [[j q] E]; [by eapply list_elem_of_lookup_2|done|]. by rewrite E in Hf.
  - intros Hni. destruct (list_find _ _) as [[j [n v]]|] eqn:E; [|done]. apply list_find_Some in E as (E & <- & _). cbn in Hni.
    apply finalize_vars in E as (c & f & k & Hn & _). destruct Hni. by eapply list_elem_of_lookup_2.
Qed.
(** The variable a name stands for is the first one that has it. *)
Lemma finalize_found name v : find (finalize_scope b cc) name = Some v -> exists idx,
  list_find (fun n => n = name) (names b) = Some (idx, name) /\ vars (finalize_scope b cc) !! idx = Some (name, v) /\ b_captured b !! idx = Some (captured v).
Proof using Hlen.
  unfold find. destruct (list_find _ _) as [[j [n v']]|] eqn:E; [|done]. cbn. intros [= ->]. apply list_find_Some in E as (E & <- & Hb). cbn in *.
  pose proof E as (c & f & k & Hn & Hc & _ & _ & ->)%finalize_vars. exists j. split; [|done]. apply list_find_Some. split; [done|]. split; [done|].
  intros i n' Hi Hlt Heq. destruct (finalize_var _ _ Hi) as (v & Hv & _). by eapply (Hb i (n', v)).
Qed.
End finalize.

(** ** Resolving *)
(** The variable that [name] stands for in scope [sid], and the scope that
    declares it. *)
Inductive declares (scopes : CaptureInfo) (name : list Z) : nat -> nat -> VarSlot -> Prop :=
  | declares_here sid s v : scopes !! sid = Some s -> find s name = Some v -> declares scopes name sid sid v
  | declares_outside sid s p d v : scopes !! sid = Some s -> find s name = None -> parent s = Some p -> declares scopes name p d v -> declares scopes name sid d v.
(** The contexts from scope [sid] out to scope [d] are linked, [k] links in all. *)
Inductive chain (scopes : CaptureInfo) (d : nat) : nat -> nat -> Prop :=
  | chain_end : chain scopes d d 0
  | chain_link sid s p k : sid <> d -> scopes !! sid = Some s -> parent s = Some p -> captures_ctx s = true -> chain scopes d p k ->
      chain scopes d sid ((if has_ctx s then 1 else 0) + k).

(** What [resolve] answers. *)
Definition place_ok (scopes : CaptureInfo) (sid : nat) (name : list Z) (r : option Resolved) : Prop :=
  match r with
  | None => forall d v, ~ declares scopes name sid d v
  | Some (Local f) => exists s v, scopes !! sid = Some s /\ find s name = Some v /\ captured v = false /\ frame_slot v = Some f /\ (f < argc s + frame_temp_count s)%nat
  | Some (Captured depth slot) => exists d s v k j, declares scopes name sid d v /\ scopes !! d = Some s /\ captured v = true /\ ctx_slot v = Some j /\ (j < nctx s)%nat /\
      chain scopes d sid k /\ depth = u8 (Z.of_nat k) /\ slot = u8 (Z.of_nat j)
  end.

(** ** What the source means *)
Inductive encloses (scopes : CaptureInfo) : nat -> nat -> Prop :=
  | encloses_here sid : encloses scopes sid sid
  | encloses_outside sid s p x : scopes !! sid = Some s -> parent s = Some p -> encloses scopes p x -> encloses scopes sid x.
(** The variables of the block are where [l] says. *)
Definition leads (scopes : CaptureInfo) (l : level) : Prop := exists s, scopes !! l_scope l = Some s /\
  forall i n, l_names l !! i = Some n -> exists v, vars s !! (l_start l + i)%nat = Some (n, v).
Definition around (scopes : CaptureInfo) (env : list level) (sid : nat) : Prop := Forall (fun l => leads scopes l /\ encloses scopes sid (l_scope l)) env.
(** No dissolved block has let [name] into a scope where the source means
    another variable, or none: the only variable of that name, from the scope
    of the reference out to that of the one meant, is the one meant. *)
Definition unleaked (scopes : CaptureInfo) (env : list level) (sid : nat) (name : list Z) : Prop := forall x s idx v,
  encloses scopes sid x -> match meaning env name with Some (d, _) => (d <= x)%nat | None => True end ->
  scopes !! x = Some s -> vars s !! idx = Some (name, v) -> meaning env name = Some (x, idx).
(** [r] is the place of the variable that the source means. *)
Definition stands_for (scopes : CaptureInfo) (env : list level) (sid : nat) (name : list Z) (r : option Resolved) : Prop :=
  match meaning env name with
  | None => r = None
  | Some (d, idx) => exists s v, scopes !! d = Some s /\ vars s !! idx = Some (name, v) /\
      match r with
      | Some (Local f) => d = sid /\ captured v = false /\ frame_slot v = Some f /\ (f < argc s + frame_temp_count s)%nat
      | Some (Captured depth slot) => exists k j, captured v = true /\ ctx_slot v = Some j /\ (j < nctx s)%nat /\ chain scopes d sid k /\
          depth = u8 (Z.of_nat k) /\ slot = u8 (Z.of_nat j)
      | None => False
      end
  end.

Section resolve.
Context (scopes : CaptureInfo) (Htree : forall i s p, scopes !! i = Some s -> parent s = Some p -> (p < i)%nat).
Context (Hok : forall i s, scopes !! i = Some s -> scope_ok s).
Lemma chain_depth d sid k : chain scopes d sid k -> forall n, (sid < n)%nat -> depth_steps n scopes sid d = Some k.
Proof using Htree.
  induction 1 as [|sid s p k Hne Hs Hp Hc _ IH]; intros n Hn; (destruct n as [|n]; [lia|]); cbn [depth_steps]; [by rewrite decide_True|].
  rewrite decide_False by done. rewrite Hs. cbn [mbind option_bind]. rewrite Hp. cbn [mbind option_bind]. pose proof (Htree _ _ _ Hs Hp). by rewrite IH by lia.
Qed.
Lemma find_placed s name v : scope_ok s -> find s name = Some v -> exists i, vars s !! i = Some (name, v) /\ var_placed s i v.
Proof.
  intros Hs. unfold find. destruct (list_find _ _) as [[j [n v']]|] eqn:E; [|done]. cbn. intros [= ->]. apply list_find_Some in E as (E & <- & _).
  exists j. split; [exact E|]. by eapply so_placed.
Qed.
Lemma resolve_placed sid name : (sid < length scopes)%nat -> (forall d v, declares scopes name sid d v -> d <> sid -> captured v = true /\ exists k, chain scopes d sid k) ->
  (forall i s p, scopes !! i = Some s -> parent s = Some p -> (p < length scopes)%nat) -> exists r, resolve scopes sid name = Some r /\ place_ok scopes sid name r.
Proof using Htree Hok.
  intros Hsid Hcap Hpar. unfold resolve.
  assert (forall n x, (x < length scopes)%nat -> (x < n)%nat -> (forall d v, declares scopes name x d v -> declares scopes name sid d v) ->
    (forall d v, declares scopes name sid d v -> declares scopes name x d v) -> (x = sid \/ forall d v, declares scopes name x d v -> d <> sid) ->
    exists r, resolve_from n scopes sid x name = Some r /\ place_ok scopes sid name r) as Hx.
  { induction n as [|n IH]; intros x Hl Hn Hin Hout Hor; [lia|]. cbn [resolve_from]. destruct (lookup_lt_is_Some_2 _ _ Hl) as [s Hs]. rewrite Hs. cbn [mbind option_bind].
    destruct (find s name) as [v|] eqn:Ef.
    - pose proof (declares_here _ _ _ _ _ Hs Ef) as Hd. destruct (find_placed _ _ _ (Hok _ _ Hs) Ef) as (i & _ & Hv & _). destruct (captured v) eqn:Ec.
      + destruct Hv as (j & Hj & Hjn). assert (exists k, chain scopes x sid k) as [k Hk].
        { destruct (decide (x = sid)) as [->|Hne]; [eexists; constructor|]. by destruct (Hcap x v (Hin _ _ Hd) Hne). }
        unfold depth_to. rewrite (chain_depth _ _ _ Hk) by lia. cbn [mbind option_bind]. rewrite Hj. eexists. split; [done|]. exists x, s, v, k, j. split_and!; auto.
      + destruct Hv as (_ & f & Hf & Hfn). assert (x = sid) as ->.
        { destruct (decide (x = sid)) as [|Hne]; [done|]. destruct (Hcap x v (Hin _ _ Hd) Hne) as [Hc _]. congruence. }
        rewrite Hf. eexists. split; [done|]. by exists s, v.
    - destruct (parent s) as [p|] eqn:Ep.
      + pose proof (Htree _ _ _ Hs Ep). apply IH; [by eapply Hpar|lia|intros d v Hd; apply Hin; by econstructor| |].
        * intros d v Hd. apply Hout in Hd. inversion Hd; simplify_eq; done.
        * right. intros d v Hd ->. assert (forall y d v, declares scopes name y d v -> (d <= y)%nat) as Hle.
          { clear -Htree. induction 1 as [|y s p d v Hs _ Hp _ IH]; [done|]. pose proof (Htree _ _ _ Hs Hp). lia. }
          pose proof (Hle _ _ _ Hd). destruct Hor as [->|Hor]; [lia|]. eapply Hor; [|done]. by econstructor.
      + exists None. split; [done|]. intros d v Hd. apply Hout in Hd. inversion Hd; simplify_eq; done. }
  apply Hx; try done; [lia|by left].
Qed.

Lemma encloses_le sid x : encloses scopes sid x -> (x <= sid)%nat.
Proof using Htree. induction 1 as [|sid s p x Hs Hp _ IH]; [done|]. pose proof (Htree _ _ _ Hs Hp). lia. Qed.
Lemma find_first s name v : find s name = Some v -> exists idx, vars s !! idx = Some (name, v).
Proof. unfold find. destruct (list_find _ _) as [[j [n v']]|] eqn:E; [|done]. cbn. intros [= ->]. apply list_find_Some in E as (E & <- & _). by exists j. Qed.
Lemma find_None s name idx v : vars s !! idx = Some (name, v) -> is_Some (find s name).
Proof.
  intros Hi. unfold find. destruct (list_find_elem_of (fun v => v.1 = name) (vars s) (name, v)) as [[j q] ->]; [by eapply list_elem_of_lookup_2|done|]. by eexists.
Qed.
Lemma declares_encloses name sid d v : declares scopes name sid d v -> encloses scopes sid d /\ exists s, scopes !! d = Some s /\ find s name = Some v.
Proof. induction 1 as [sid s v Hs Hf|sid s p d v Hs Hf Hp _ [IH H]]; (split; [|by eauto]); [constructor|by econstructor]. Qed.
Lemma occurs_declared name sid x s idx v : encloses scopes sid x -> scopes !! x = Some s -> vars s !! idx = Some (name, v) -> exists d v', declares scopes name sid d v' /\ (x <= d)%nat.
Proof using Htree.
  induction 1 as [sid|sid s' p x Hs Hp He IH]; intros Hx Hv.
  - destruct (find_None _ _ _ _ Hv) as [v' Hf]. exists sid, v'. split; [by econstructor|done].
  - destruct (find s' name) as [v'|] eqn:Ef.
    + exists sid, v'. split; [by econstructor|]. apply encloses_le in He. pose proof (Htree _ _ _ Hs Hp). lia.
    + destruct (IH Hx Hv) as (d & v' & Hd & Hle). exists d, v'. split; [by eapply declares_outside|done].
Qed.
Lemma declares_fun name sid d v : declares scopes name sid d v -> forall d' v', declares scopes name sid d' v' -> d' = d /\ v' = v.
Proof. induction 1 as [sid s v Hs Hf|sid s p d v Hs Hf Hp _ IH]; intros d' v' Hd; inversion Hd; simplify_eq; try done. by apply IH. Qed.
Lemma meaning_leads env sid name d idx : around scopes env sid -> meaning env name = Some (d, idx) ->
  encloses scopes sid d /\ exists s v, scopes !! d = Some s /\ vars s !! idx = Some (name, v).
Proof.
  induction 1 as [|l env [(s & Hs & Hn) He] _ IH]; [done|]. cbn [meaning]. destruct (list_find _ _) as [[i n]|] eqn:E; [|exact IH].
  intros [= <- <-]. apply list_find_Some in E as (E & -> & _). split; [done|]. destruct (Hn _ _ E) as [v Hv]. by exists s, v.
Qed.
Lemma declares_meant env sid name d v : around scopes env sid -> unleaked scopes env sid name -> declares scopes name sid d v ->
  exists idx s, meaning env name = Some (d, idx) /\ scopes !! d = Some s /\ vars s !! idx = Some (name, v).
Proof using Htree.
  intros Ha Hu Hd. destruct (declares_encloses _ _ _ _ Hd) as (He & s & Hs & Hf). destruct (find_first _ _ _ Hf) as [idx Hi]. exists idx, s. split; [|done].
  apply (Hu d s idx v He); [|done..]. destruct (meaning env name) as [[d0 i0]|] eqn:Em; [|done].
  destruct (meaning_leads _ _ _ _ _ Ha Em) as (He0 & s0 & v0 & Hs0 & Hv0). destruct (occurs_declared _ _ _ _ _ _ He0 Hs0 Hv0) as (d' & v' & Hd' & Hle).
  by destruct (declares_fun _ _ _ _ Hd _ _ Hd') as [-> _].
Qed.
Lemma place_stands env sid name r : around scopes env sid -> place_ok scopes sid name r -> unleaked scopes env sid name -> stands_for scopes env sid name r.
Proof using Htree.
  intros Ha Hr Hu. unfold stands_for. destruct r as [[f|depth slot]|]; cbn [place_ok] in Hr.
  - destruct Hr as (s & v & Hs & Hf & Hc & Hfs & Hlt). destruct (declares_meant _ _ _ _ _ Ha Hu (declares_here _ _ _ _ _ Hs Hf)) as (idx & s' & -> & Hs' & Hv). rewrite Hs in Hs'. injection Hs' as <-.
    exists s, v. by split_and!.
  - destruct Hr as (d & s & v & k & j & Hd & Hs & Hc & Hj & Hlt & Hch & -> & ->). destruct (declares_meant _ _ _ _ _ Ha Hu Hd) as (idx & s' & -> & Hs' & Hv). rewrite Hs in Hs'. injection Hs' as <-.
    exists s, v. split; [done|]. split; [done|]. exists k, j. by split_and!.
  - destruct (meaning env name) as [[d idx]|] eqn:Em; [|done]. destruct (meaning_leads _ _ _ _ _ Ha Em) as (He & s & v & Hs & Hv).
    destruct (occurs_declared _ _ _ _ _ _ He Hs Hv) as (d' & v' & Hd & _). by destruct (Hr d' v').
Qed.
End resolve.

(** ** The analysis *)
Section analysis.
Context (bs bs' : list ScopeBuilder) (nc : list bool).
Context (Ht : tree bs) (Hm : forall i b, bs !! i = Some b -> b_parent b <> None -> b_is_method b = false) (Hr : recaptured bs bs').
Definition scopes_of : CaptureInfo := imap (fun i b => finalize_scope b (negb (b_is_method b) && default false (nc !! i))) bs'.
Lemma scope_of i s : scopes_of !! i = Some s -> exists b c, bs !! i = Some b /\ length c = length (names b) /\
  s = finalize_scope (MkBuilder (b_parent b) (b_is_method b) (b_argc b) (names b) c) (negb (b_is_method b) && default false (nc !! i)) /\
  bs' !! i = Some (MkBuilder (b_parent b) (b_is_method b) (b_argc b) (names b) c).
Proof using Ht Hr.
  unfold scopes_of. rewrite list_lookup_imap. destruct (bs' !! i) as [b'|] eqn:Eb; [|done]. cbn. intros [= <-].
  destruct Hr as [Hl H]. destruct (lookup_lt_is_Some_2 bs i) as [b Hb]; [rewrite <- Hl; by eapply lookup_lt_Some|].
  destruct (H _ _ Hb) as (c & Hc & Hcl & _). rewrite Eb in Hc. injection Hc as ->. exists b, c. split_and!; try done. rewrite Hcl. by destruct (Ht _ _ Hb).
Qed.
Lemma of_scope i b : bs !! i = Some b -> exists s, scopes_of !! i = Some s /\ parent s = b_parent b /\ argc s = b_argc b /\
  captures_ctx s = negb (b_is_method b) && default false (nc !! i).
Proof using Hr.
  intros Hb. destruct Hr as [_ H]. destruct (H _ _ Hb) as (c & Hc & _). eexists. unfold scopes_of. rewrite list_lookup_imap, Hc. by split.
Qed.
Lemma declares_declared name sid d v : declares scopes_of name sid d v -> declared bs name sid d.
Proof using Ht Hr.
  induction 1 as [sid s v Hs Hf|sid s p d v Hs Hf Hp _ IH]; destruct (scope_of _ _ Hs) as (b & c & Hb & Hl & -> & _).
  - econstructor; [done|]. destruct (finalize_found (MkBuilder _ _ _ _ c) _ Hl _ _ Hf) as (idx & Hx & _). apply list_find_Some in Hx as (Hx & _). by eapply list_elem_of_lookup_2.
  - eapply declared_outside; [done| |exact Hp|done]. by apply (finalize_find (MkBuilder _ _ _ _ c) _ Hl) in Hf.
Qed.
Lemma declares_at name sid d v : declares scopes_of name sid d v -> exists s, scopes_of !! d = Some s /\ find s name = Some v.
Proof. induction 1; eauto. Qed.
Lemma path_chain d sid l : path bs d sid l -> (forall i, i ∈ l -> nc !! i = Some true) -> exists k, chain scopes_of d sid k.
Proof using Ht Hm Hr.
  induction 1 as [|sid b p l Hne Hb Hp _ IH]; intros Hc; [eexists; constructor|]. destruct IH as [k Hk]; [intros i Hi; apply Hc; by right|].
  destruct (of_scope _ _ Hb) as (s & Hs & Hps & _ & Hcs). eexists. eapply chain_link; [done|exact Hs|by rewrite Hps| |exact Hk].
  rewrite Hcs, (Hm _ _ Hb) by by rewrite Hp. rewrite Hc by left. done.
Qed.
Lemma marked_captured m sid name d v : marked bs m sid name -> needs_chain m = nc -> (forall k, k ∈ to_mark m -> exists b, bs' !! k.1 = Some b /\ b_captured b !! k.2 = Some true) ->
  declares scopes_of name sid d v -> d <> sid -> captured v = true /\ exists k, chain scopes_of d sid k.
Proof using Ht Hm Hr.
  intros Hmk Hnc Hcap Hd Hne. pose proof (declares_declared _ _ _ _ Hd) as Hd'. destruct (declared_path _ Ht _ _ _ Hd') as [l Hl].
  destruct (Hmk d l Hd' Hne Hl) as (b & idx & Hb & Hf & Hin & Hc). rewrite Hnc in Hc. split; [|by eapply path_chain].
  destruct (declares_at _ _ _ _ Hd) as (s & Hs & Hfs). destruct (scope_of _ _ Hs) as (b0 & c & Hb0 & Hlen & -> & Hb').
  destruct (finalize_found (MkBuilder _ _ _ _ c) _ Hlen _ _ Hfs) as (idx' & Hx & _ & Hcv). rewrite Hb in Hb0. injection Hb0 as <-. cbn [names] in Hx. rewrite Hf in Hx. injection Hx as <-.
  destruct (Hcap _ Hin) as (b1 & Hb1 & Hc1). cbn [fst snd] in *. rewrite Hb' in Hb1. injection Hb1 as <-. congruence.
Qed.
End analysis.

(** What is known of a reference, and of a block with a scope of its own. *)
Definition resolves_meant (scopes : CaptureInfo) (env : list level) (sid : nat) (name : list Z) : Prop := exists r,
  resolve scopes sid name = Some r /\ place_ok scopes sid name r /\ (unleaked scopes env sid name -> stands_for scopes env sid name r).
Definition has_scope (scopes : CaptureInfo) (sc : nat) (ps ts : list (list Z)) (sid : nat) : Prop := exists s,
  scopes !! sid = Some s /\ parent s = Some sc /\ argc s = length ps /\ leads scopes (MkLevel sid 0 (ps ++ ts)).

Lemma leads_hosted w bs' nc l : tree (builders w) -> recaptured (builders w) bs' -> hosted w l -> leads (scopes_of bs' nc) l.
Proof.
  intros Ht Hr (b & Hb & Hn). destruct (of_scope _ _ nc Hr _ _ Hb) as (s & Hs & _). destruct (scope_of _ _ nc Ht Hr _ _ Hs) as (b1 & c & Hb1 & Hl & -> & _).
  rewrite Hb in Hb1. injection Hb1 as <-. eexists. split; [exact Hs|]. intros i n Hi. destruct (finalize_var (MkBuilder (b_parent b) (b_is_method b) (b_argc b) (names b) c) (negb (b_is_method b) && default false (nc !! l_scope l)) Hl _ _ (Hn _ _ Hi)) as (v & Hv & _).
  by exists v.
Qed.

(** What the analysis does, the shape of its tree included. *)
Lemma analyze_lexical {F} (m : MethodNode F) : exists body scopes,
  analyze m = Some (Ast.MkMethod (pattern_selector m) (m_params m) (primitive m) (ffi m) (m_temps m) body (class_side m) (m_span m), scopes) /\
  map unnumbered body = map unnumbered (m_body m) /\ Forall scope_ok scopes /\
  let top := MkLevel 0 0 (m_params m ++ m_temps m) in leads scopes top /\
  All (lexical (resolves_meant scopes) (has_scope scopes) (leads scopes) [top] 0) body /\
  exists s, scopes !! 0%nat = Some s /\ argc s = length (m_params m).
Proof.
  set (w0 := MkWalk [new_builder None true (m_params m) (m_temps m)] 1 []). set (top := MkLevel 0 0 (m_params m ++ m_temps m)).
  assert (walk_ok w0) as Hw0.
  { split; [done| |constructor]. intros [|[]] b Hb; try done. injection Hb as <-. split; [done|]. cbn. unfold new_scope_names. rewrite length_app. split; [done|lia]. }
  destruct (walk_body_ok (m_body m) ltac:(apply Forall_forall; intros e _; apply walk_expr_ok) [top] 0%nat w0 Hw0 ltac:(cbn; lia)) as (body & w & Ew & Hw & Hx & Hu & Hp).
  specialize (Hp w (reflexivity w)). unfold analyze. fold w0. rewrite Ew. cbn [mbind option_bind].
  assert (tree (builders w)) as Ht.
  { intros i b Hb. destruct (wo_tree _ Hw _ _ Hb) as (Hpar & Hc & _). rewrite Hc, length_replicate. split; [|done]. destruct (b_parent b); by destruct Hpar. }
  assert (forall i b, builders w !! i = Some b -> b_parent b <> None -> b_is_method b = false) as Hmeth.
  { intros i b Hb Hpn. destruct (wo_tree _ Hw _ _ Hb) as (Hpar & _). destruct (b_parent b); [by destruct Hpar|done]. }
  destruct (mark_refs_ok _ Ht (refs w) (MkMarks [] (replicate (length (builders w)) false))) as (mk & -> & Hmk & _ & Hrefs);
    [split; [cbn; by rewrite length_replicate|constructor]|exact (wo_refs _ Hw)|]. cbn [mbind option_bind].
  destruct (set_captures_ok (to_mark mk) (builders w) Ht (mo_valid _ _ Hmk)) as (bs' & -> & Hr & Hcap). cbn [mbind option_bind].
  eexists _, _. split; [done|]. fold (scopes_of bs' (needs_chain mk)). set (scopes := scopes_of bs' (needs_chain mk)).
  assert (forall i s, scopes !! i = Some s -> scope_ok s) as Hok.
  { intros i s Hs. destruct (scope_of _ _ _ Ht Hr _ _ Hs) as (b & c & _ & Hl & -> & _). by apply finalize_ok. }
  assert (forall i s p, scopes !! i = Some s -> parent s = Some p -> (p < i)%nat) as Htree.
  { intros i s p Hs Hpar. destruct (scope_of _ _ _ Ht Hr _ _ Hs) as (b & c & Hb & _ & -> & _). by destruct (tree_parent _ Ht _ _ _ Hb Hpar). }
  assert (length scopes = length (builders w)) as Hlen by (unfold scopes, scopes_of; rewrite length_imap; apply Hr).
  assert (forall l, hosted w l -> leads scopes l) as Hleads by (intros l; by apply leads_hosted).
  assert (leads scopes top) as Htop.
  { apply Hleads. eapply hosted_extends; [exact Hx|]. cbn. eexists. split; [done|]. by intros i n Hi. }
  split; [done|]. split; [by apply Forall_lookup|]. split; [exact Htop|]. split; [|].
  2: { destruct (proj2 Hx 0%nat _ eq_refl) as (b0 & Hb0 & _ & _ & Hargc0 & _). destruct (of_scope _ _ (needs_chain mk) Hr _ _ Hb0) as (s & Hs & _ & A & _). exists s. split; [exact Hs|]. by rewrite A. }
  assert (forall sc ps ts sid, block_scope w sc ps ts sid -> has_scope scopes sc ps ts sid) as Hbs.
  { intros sc ps ts sid (b & Hb & Hpar & Hargc & [more Hn]). destruct (of_scope _ _ (needs_chain mk) Hr _ _ Hb) as (s & Hs & A1 & A2 & _).
    exists s. split; [exact Hs|]. split; [by rewrite A1|]. split; [by rewrite A2|]. apply Hleads. exists b. split; [done|]. intros i n Hi. rewrite Hn. by apply lookup_app_l_Some. }
  revert Hp. apply (All_mono _ _ _ _ _ _ (around scopes)); [by repeat constructor|]. apply Forall_forall. intros e _. apply lexical_mono; try done.
  - intros env sid name Ha Hin. rewrite Forall_forall in Hrefs. pose proof (Hrefs _ Hin) as Hmarked. cbn [fst snd] in Hmarked.
    destruct (resolve_placed scopes Htree Hok sid name) as (r & Er & Hpl).
    + rewrite Hlen. pose proof (wo_refs _ Hw) as Hl. rewrite Forall_forall in Hl. exact (Hl _ Hin).
    + intros d v Hd Hne. by eapply (marked_captured (builders w) bs' (needs_chain mk) Ht Hmeth Hr mk).
    + intros i s p Hs Hpar. pose proof (Htree _ _ _ Hs Hpar). apply lookup_lt_Some in Hs. lia.
    + exists r. split; [done|]. split; [done|]. by apply place_stands.
  - intros env sc start ns Ha Hho. constructor; [|done]. split; [by apply Hleads|constructor].
  - intros env sc ps ts sid Ha Hb. destruct (Hbs _ _ _ _ Hb) as (s & Hs & Hpar & _ & Hl). constructor; [split; [done|constructor]|].
    eapply Forall_impl; [exact Ha|]. intros l [Hl' He]. split; [done|]. by eapply encloses_outside.
Qed.
Lemma analyze_spec {F} (m : MethodNode F) : exists body scopes,
  analyze m = Some (Ast.MkMethod (pattern_selector m) (m_params m) (primitive m) (ffi m) (m_temps m) body (class_side m) (m_span m), scopes) /\
  map unnumbered body = map unnumbered (m_body m) /\ Forall scope_ok scopes /\
  All (placed (fun sid name => exists r, resolve scopes sid name = Some r /\ place_ok scopes sid name r)
         (fun sc ps ts sid => exists s, scopes !! sid = Some s /\ parent s = Some sc /\ argc s = length ps) 0) body /\
  exists s, scopes !! 0%nat = Some s /\ argc s = length (m_params m).
Proof.
  destruct (analyze_lexical m) as (body & scopes & H1 & H2 & H3 & _ & H4 & H5). exists body, scopes. split; [done|]. split; [done|]. split; [done|]. split; [|done].
  revert H4. eapply All_forget. apply Forall_forall. intros e _. apply lexical_placed.
  - intros env sc n (r & Er & Hr & _). by exists r.
  - intros sc ps ts sid (s & ? & ? & ? & _). by exists s.
Qed.

(** C18. The capture analysis gives every variable its place.  It always
    answers, whatever the method; it changes of the tree only the numbers of its
    scopes; in each scope the variables have frame slots of their own and
    context slots of their own, parameters keep their argument's place, and all
    lie within the sizes the scope asks for.  The variables of every block, those
    of a block that a control-flow message dissolves included, are variables of
    its scope, in the order they are declared.  For every reference, wherever it
    stands, [resolve] answers; and it answers the place of the variable the
    source means, that of the innermost block around the reference that declares
    the name: a slot of the scope's own frame, or a slot of the context of the
    scope that declares it, with the number of links from the frame's context
    to that one, all of which the scopes between keep; or nothing where no block
    declares the name.  The one condition is that no dissolved block has let the
    name into a scope around the reference where it means something else; what
    [resolve] answers then is the first variable of that name in the scope. *)
Theorem analyze_places {F} (m : MethodNode F) : exists m' scopes, analyze m = Some (m', scopes) /\
  map unnumbered (m_body m') = map unnumbered (m_body m) /\ Forall scope_ok scopes /\
  let top := MkLevel 0 0 (m_params m ++ m_temps m) in leads scopes top /\
  All (lexical (resolves_meant scopes) (has_scope scopes) (leads scopes) [top] 0) (m_body m').
Proof.
  destruct (analyze_lexical m) as (body & scopes & H1 & H2 & H3 & H4 & H5 & _). eexists _, scopes. split; [exact H1|]. cbn [m_body]. by split_and!.
Qed.
End CaptureCorrect.
