(* ===== verification/Heap.v ===== *)
(** Heap objects ([src/src/oops/heap.rs], [src/src/oops/klass.rs],
    [src/src/oops/wrappers.rs]): headers, klass-directed sizes, and the words
    of an object that hold oops.

    Memory maps the addresses of 8-byte words to 64-bit words; an address it
    does not map is one the program must not read, and reading it is [None]
    like every other panic.  A [MemOop] is represented by its untagged
    address. *)
From S2P Require Import Prelude Oops.
From stdpp Require Import gmap.
#[local] Open Scope Z_scope.

Module Heap.
Abbreviation memory := (gmap Z Z).

Definition KLASS_FORMAT_INDEX : Z := 0.
Definition KLASS_NON_INDEXABLE_SIZE_INDEX : Z := 1.
Definition FORMAT_KIND_MASK : Z := 0xFF.

(** ** Headers and words *)
Definition mem_oop (o : Z) : option Z := if Oop.is_mem o then Some (Oop.mem_addr o) else None.
Definition oop_of (addr : Z) : Z := addr + MEM_TAG.

Definition mark_word_raw (m : memory) (a : Z) : option Z := m !! (a + MARK_OFFSET).
Definition mark (m : memory) (a : Z) : option Z := w ← mark_word_raw m a; Mark.from_word w.
Definition set_mark (m : memory) (a mk : Z) : memory := <[a + MARK_OFFSET := mk]> m.
Definition is_forwarded (m : memory) (a : Z) : option bool := Mark.word_is_forwarded <$> mark_word_raw m a.
Definition forwardee (m : memory) (a : Z) : option Z := Mark.forwardee <$> mark_word_raw m a.
Definition install_forwarding (m : memory) (a target : Z) : memory := <[a + MARK_OFFSET := target]> m.
Definition klass_oop (m : memory) (a : Z) : option Z := w ← m !! (a + KLASS_OFFSET); Oop.from_raw w.
Definition set_klass_raw (m : memory) (a o : Z) : memory := <[a + KLASS_OFFSET := o]> m.

Definition body_addr (a i : Z) : Z := a + (BODY_OFFSET + WORD_SIZE * i).
Definition raw_body_word (m : memory) (a i : Z) : option Z := m !! body_addr a i.
Definition set_raw_body_word (m : memory) (a i w : Z) : memory := <[body_addr a i := w]> m.

(** ** Formats and klasses *)
Inductive Format := Slots | IndexableOops | IndexableBytes | Method | Klass | Double | Closure | Context | Process.
#[export] Instance format_eq_dec : EqDecision Format.
Proof. solve_decision. Defined.

Definition from_smi_value_checked (v : Z) : option Format :=
  match Z.land v FORMAT_KIND_MASK with
  | 0 => Some Slots | 1 => Some IndexableOops | 2 => Some IndexableBytes | 3 => Some Method | 4 => Some Klass
  | 5 => Some Double | 6 => Some Closure | 7 => Some Context | 8 => Some Process | _ => None
  end.

Definition smi_field (w : Z) : option Z := o ← Oop.from_raw w; s ← SmallInt.try_from o; Some (SmallInt.value s).

(** [Oop::from_raw_unchecked]: the tag is not asserted. *)
Definition format_of_klass_field (m : memory) (k_field : Z) : option Format :=
  k ← mem_oop k_field;
  raw ← raw_body_word m k KLASS_FORMAT_INDEX;
  s ← SmallInt.try_from raw;
  from_smi_value_checked (SmallInt.value s).
(** [KlassOop::try_from], with its expectation. *)
Definition klass_of_oop (m : memory) (o : Z) : option Z :=
  k ← mem_oop o;
  kf ← klass_oop m k;
  f ← format_of_klass_field m kf;
  if decide (f = Klass) then Some k else None.

Definition format (m : memory) (k : Z) : option Format :=
  raw ← raw_body_word m k KLASS_FORMAT_INDEX; v ← smi_field raw; from_smi_value_checked v.
Definition non_indexable_size (m : memory) (k : Z) : option Z :=
  raw ← raw_body_word m k KLASS_NON_INDEXABLE_SIZE_INDEX; v ← smi_field raw; Some (u64 v).
(** [obj.klass()]. *)
Definition klass (m : memory) (a : Z) : option Z := o ← klass_oop m a; klass_of_oop m o.

(** [nis - HEADER_WORDS], on an unsigned type. *)
Definition named_words (nis : Z) : option Z := if nis <? HEADER_WORDS then None else Some (nis - HEADER_WORDS).
Definition raw_size_slot (m : memory) (a nis : Z) : option Z :=
  idx ← named_words nis; raw ← raw_body_word m a idx; v ← smi_field raw; Some (u64 v).

(** Whether a format has a size slot, and whether its tail holds oops. *)
Definition indexable (f : Format) : bool :=
  match f with IndexableOops | Closure | Context | IndexableBytes | Method => true | _ => false end.
Definition oop_tail (f : Format) : bool := match f with IndexableOops | Closure | Context => true | _ => false end.

(** [size_words_for_klass]; [instance_size_words] is it at the object's own
    klass. *)
Definition size_words_for_klass (m : memory) (a k : Z) : option Z :=
  nis ← non_indexable_size m k;
  f ← format m k;
  match f with
  | Slots | Klass | Double | Process => Some nis
  | IndexableOops | Closure | Context => n ← raw_size_slot m a nis; Some (nis + 1 + n)
  | IndexableBytes | Method => nbytes ← raw_size_slot m a nis; Some (nis + 1 + (nbytes + 7) / 8)
  end.
Definition instance_size_words (m : memory) (a : Z) : option Z := k ← klass m a; size_words_for_klass m a k.

(** ** Shapes *)
(** What the klass and the size slot say of an object: its format, its
    non-indexable size and, where it has one, its size slot. *)
Record shape := MkShape { s_format : Format; s_nis : Z; s_len : Z }.

Definition size_words (s : shape) : Z :=
  match s_format s with
  | Slots | Klass | Double | Process => s_nis s
  | IndexableOops | Closure | Context => s_nis s + 1 + s_len s
  | IndexableBytes | Method => s_nis s + 1 + (s_len s + 7) / 8
  end.

(** The words of the body that hold oops, by body index, in the order the
    visitors take them. *)
Definition named_slots (s : shape) : list Z :=
  match s_format s with Double | Process => [] | _ => zrange 0 (s_nis s - HEADER_WORDS) end.
Definition tail_slots (s : shape) : list Z :=
  if oop_tail (s_format s) then map (fun i => s_nis s - HEADER_WORDS + 1 + i) (zrange 0 (s_len s)) else [].
Definition body_slots (s : shape) : list Z := named_slots s ++ tail_slots s.

(** The shape read from memory at object [a] with klass [k]. *)
Definition shape_with (m : memory) (a k : Z) : option shape :=
  nis ← non_indexable_size m k;
  f ← format m k;
  if decide (2 <= nis) then
    if indexable f then n ← raw_size_slot m a nis; Some (MkShape f nis n) else Some (MkShape f nis 0)
  else None.

Lemma size_of_shape m a k s : shape_with m a k = Some s -> size_words_for_klass m a k = Some (size_words s).
Proof.
  unfold shape_with, size_words_for_klass. destruct (non_indexable_size m k) as [nis|]; [|done]. cbn [mbind option_bind].
  destruct (format m k) as [f|]; [|done]. cbn [mbind option_bind]. case_decide; [|done].
  destruct f; cbn [indexable]; try (intros [= <-]; done); destruct (raw_size_slot m a nis); try done; cbn; by intros [= <-].
Qed.

Lemma u64_nonneg v : 0 <= u64 v.
Proof. apply wrapU_in. lia. Qed.

Lemma shape_bounds m a k s : shape_with m a k = Some s -> 2 <= s_nis s /\ 0 <= s_len s.
Proof.
  unfold shape_with. destruct (non_indexable_size m k) as [nis|]; [|done]. cbn [mbind option_bind].
  destruct (format m k) as [f|]; [|done]. cbn [mbind option_bind]. case_decide; [|done].
  destruct (indexable f); [|intros [= <-]; cbn; lia]. unfold raw_size_slot. destruct (named_words nis); [|done]. cbn [mbind option_bind].
  destruct (raw_body_word m a _); [|done]. cbn [mbind option_bind]. destruct (smi_field _); [|done]. cbn [mbind option_bind].
  intros [= <-]. cbn. split; [done|apply u64_nonneg].
Qed.

(** The oop words lie inside the body, in increasing order, the size slot is
    not one of them. *)
Lemma elem_of_body_slots s i : 2 <= s_nis s -> 0 <= s_len s -> i ∈ body_slots s ->
  0 <= i < size_words s - 2 /\ (indexable (s_format s) = true -> i <> s_nis s - 2).
Proof.
  intros Hn Hl. unfold body_slots, named_slots, tail_slots, size_words, HEADER_WORDS. rewrite elem_of_app.
  assert (0 <= (s_len s + 7) / 8) by (apply Z.div_pos; lia).
  intros [Hi|Hi].
  - destruct (s_format s); try (by apply elem_of_nil in Hi); apply elem_of_zrange in Hi; lia.
  - destruct (s_format s); cbn [oop_tail indexable] in *; try (by apply elem_of_nil in Hi);
      apply list_elem_of_fmap in Hi as (j & -> & Hj); apply elem_of_zrange in Hj; lia.
Qed.

(** A strictly increasing list of indices. *)
Fixpoint increasing (lo : Z) (l : list Z) : Prop :=
  match l with [] => True | i :: l => lo <= i /\ increasing (i + 1) l end.

Lemma increasing_app lo l k mid : increasing lo l -> (forall i, i ∈ l -> i < mid) -> increasing mid k -> lo <= mid -> increasing lo (l ++ k).
Proof.
  revert lo. induction l as [|i l IH]; intros lo; cbn.
  - intros _ _ Hk Hle. destruct k; [done|]. cbn in *. lia || (destruct Hk; split; [lia|done]).
  - intros [Hi Hl] Hm Hk Hle. split; [done|]. apply IH; [done|intros j Hj; apply Hm; by right|done|]. specialize (Hm i ltac:(left)). lia.
Qed.
Lemma increasing_zrange lo hi : increasing lo (zrange lo hi).
Proof.
  remember (Z.to_nat (hi - lo)) as n. revert lo Heqn. induction n as [|n IH]; intros lo Hn.
  - rewrite zrange_nil by lia. done.
  - rewrite zrange_cons by lia. cbn. split; [lia|]. apply IH. lia.
Qed.
Lemma increasing_map lo l c : increasing lo l -> increasing (lo + c) (map (fun i => c + i) l).
Proof. revert lo. induction l as [|i l IH]; intros lo; cbn; [done|]. intros [? Hl]. split; [lia|]. replace (c + i + 1) with (i + 1 + c) by lia. by apply IH. Qed.
Lemma increasing_weaken lo lo' l : lo' <= lo -> increasing lo l -> increasing lo' l.
Proof. destruct l; cbn; [done|]. intros ? []. split; [lia|done]. Qed.
Lemma increasing_lower lo l i : increasing lo l -> i ∈ l -> lo <= i.
Proof.
  revert lo. induction l as [|j l IH]; intros lo; cbn; [by intros _ ?%elem_of_nil|]. intros [Hj Hl] [->|Hi]%elem_of_cons; [done|].
  specialize (IH _ Hl Hi). lia.
Qed.

Lemma body_slots_increasing s : 2 <= s_nis s -> increasing 0 (body_slots s).
Proof.
  intros Hn. unfold body_slots. apply (increasing_app _ _ _ (s_nis s - 1)); [| | |lia].
  - unfold named_slots. destruct (s_format s); try done; apply increasing_zrange.
  - unfold named_slots, HEADER_WORDS. intros i Hi. destruct (s_format s); try (by apply elem_of_nil in Hi); apply elem_of_zrange in Hi; lia.
  - unfold tail_slots, HEADER_WORDS. destruct (oop_tail _); [|done].
    replace (s_nis s - 1) with (0 + (s_nis s - 2 + 1)) by lia. apply increasing_map, increasing_zrange.
Qed.
End Heap.
