(* ===== verification/World.v ===== *)
(** The objects the front end works on: the symbol table
    ([src/src/memory/symbols.rs], [intern] of [src/src/memory/universe.rs]) and
    the global namespace ([src/src/runtime/globals.rs]).

    An object is an index into a list that only grows, and its oop the tagged
    word of an address of its own: [MutatorCorrect] is what allows to leave the
    collectors out.  A new object is written before anything else happens, so
    allocating and filling it is one step.  [None] is a panic, a failed
    assertion, or an object of another kind than the code takes for granted.

    Interning is the one allocation here that does not go through the
    collectors: [alloc_words_raw] takes the words from the eden as it is, and
    ends the process where they do not fit.  How much the collectors leave free
    is not determined here; it is a part of the state, [eden_free], the words
    that are free when so many objects have been made. *)
From S2P Require Import Prelude Oops Packed Bytecode Builder Heap.
From stdpp Require Import gmap.
#[local] Open Scope Z_scope.

Module World.
(** A klass: its own klass, and the words that the parts modelled read. *)
Record klass := MkKlass {
  k_meta : Z; k_format : Heap.Format; k_non_indexable_size : Z;
  k_superclass : Z; k_name : Z; k_inst_var_names : Z; k_class_vars : Z }.
(** An object, by the format of its klass: named variables, then bytes or
    elements; of a method, what the assembler answers; of a closure, a context,
    a process or a vector of unboxed numbers, the klass. *)
Inductive object :=
  | OBytes (klass mark : Z) (named bytes : list Z)
  | ODouble (bits : Z)
  | OSlots (klass : Z) (fields : list Z)
  | OOops (klass : Z) (named elems : list Z)
  | OKlass (k : klass)
  | OMethod (m : BytecodeBuilder.method)
  | OOther (klass : Z).

Record SymbolTable := MkTable { buckets : list (option Z); count : Z }.
Record Universe := MkUniverse {
  nil_obj : Z; true_obj : Z; false_obj : Z;
  array_klass : Z; bytearray_klass : Z; string_klass : Z; symbol_klass : Z; character_klass : Z;
  large_pos_int_klass : Z; large_neg_int_klass : Z; association_klass : Z; system_dictionary_klass : Z;
  double_klass : Z; float_array_klass : Z; method_klass : Z; alien_klass : Z; objcref_klass : Z }.
Record vmstate := MkVm { objects : list object; universe : Universe; symbols : SymbolTable; smalltalk : Z; eden_free : nat -> Z }.

Definition oop_at (n : nat) : Z := 8 * Z.of_nat n + MEM_TAG.
Definition index_of (o : Z) : option nat := let n := Z.to_nat (o / 8) in if o =? oop_at n then Some n else None.
Definition object_at (vm : vmstate) (o : Z) : option object := n ← index_of o; objects vm !! n.
Definition with_objects (vm : vmstate) (os : list object) : vmstate := MkVm os (universe vm) (symbols vm) (smalltalk vm) (eden_free vm).
Definition with_symbols (vm : vmstate) (t : SymbolTable) : vmstate := MkVm (objects vm) (universe vm) t (smalltalk vm) (eden_free vm).
Definition alloc (obj : object) (vm : vmstate) : Z * vmstate := (oop_at (length (objects vm)), with_objects vm (objects vm ++ [obj])).
Definition set_object (o : Z) (obj : object) (vm : vmstate) : option vmstate := n ← index_of o; Some (with_objects vm (<[n := obj]> (objects vm))).

(** The casts. *)
Definition as_array (vm : vmstate) (o : Z) : option (list Z) := match object_at vm o with Some (OOops _ _ es) => Some es | _ => None end.
Definition as_klass (vm : vmstate) (o : Z) : option klass := match object_at vm o with Some (OKlass k) => Some k | _ => None end.
Definition body_oop (vm : vmstate) (o i : Z) : option Z := match object_at vm o with Some (OSlots _ fs) | Some (OOops _ fs _) | Some (OBytes _ _ fs _) => zlookup fs i | _ => None end.

(** What the raw allocations answer: the object, or the process's exit. *)
Inductive raw (A : Type) := Fits (x : A) | Exits (code : Z).
#[global] Arguments Fits {_} _.
#[global] Arguments Exits {_} _.
(** The words of an object of bytes of a well-known klass. *)
Definition bytes_words (n : Z) : Z := HEADER_WORDS + 1 + (n + 7) / 8.
Definition try_bump_eden (words : Z) (vm : vmstate) : bool := words <=? eden_free vm (length (objects vm)).
Definition alloc_words_raw (words : Z) (obj : object) (vm : vmstate) : raw (Z * vmstate) :=
  if try_bump_eden words vm then Fits (alloc obj vm) else Exits 70.
Definition alloc_indexable_bytes_raw (klass mark : Z) (bytes : list Z) (vm : vmstate) : raw (Z * vmstate) :=
  alloc_words_raw (bytes_words (zlen bytes)) (OBytes klass mark [] bytes) vm.

(** Of the well-known klasses, whose instances have no named variables. *)
Definition alloc_indexable_bytes (klass : Z) (bytes : list Z) (vm : vmstate) : Z * vmstate := alloc (OBytes klass MARK_PRISTINE [] bytes) vm.
Definition alloc_double (bits : Z) (vm : vmstate) : Z * vmstate := alloc (ODouble bits) vm.
Definition alloc_slots (klass : Z) (fields : list Z) (vm : vmstate) : Z * vmstate := alloc (OSlots klass fields) vm.
Definition alloc_indexable_oops (klass n : Z) (vm : vmstate) : Z * vmstate :=
  alloc (OOops klass [] (replicate (Z.to_nat n) (nil_obj (universe vm)))) vm.
Definition at_put (o i v : Z) (vm : vmstate) : option vmstate :=
  match object_at vm o with
  | Some (OOops k fs es) => es ← zset es i v; set_object o (OOops k fs es) vm
  | _ => None
  end.
Definition set_body_oop (o i v : Z) (vm : vmstate) : option vmstate :=
  match object_at vm o with
  | Some (OSlots k fs) => fs ← zset fs i v; set_object o (OSlots k fs) vm
  | Some (OOops k fs es) => fs ← zset fs i v; set_object o (OOops k fs es) vm
  | Some (OBytes k mark fs bs) => fs ← zset fs i v; set_object o (OBytes k mark fs bs) vm
  | _ => None
  end.
Definition klass_of (vm : vmstate) (o : Z) : option Z :=
  obj ← object_at vm o;
  Some match obj with
       | OBytes k _ _ _ | OSlots k _ | OOops k _ _ | OOther k => k
       | ODouble _ => double_klass (universe vm)
       | OKlass k => k_meta k
       | OMethod _ => method_klass (universe vm)
       end.

(** ** Symbols *)
Definition content_hash (bytes : list Z) : Z :=
  foldl (fun h b => u64 (Z.lxor h b * 0x100000001B3)) 0xcbf29ce484222325 bytes.
Definition with_capacity (cap_pow2 : Z) : SymbolTable := MkTable (replicate (Z.to_nat cap_pow2) None) 0.

Definition symbol_bytes (vm : vmstate) (o : Z) : option (list Z) :=
  match object_at vm o with
  | Some (OBytes k _ _ bs) => if k =? symbol_klass (universe vm) then Some bs else None
  | _ => None
  end.

Section table.
Context (bytes_of : Z -> option (list Z)).
(** The loops over the buckets, which see each bucket once at most. *)
Fixpoint probe_from (fuel : nat) (bs : list (option Z)) (bytes : list Z) (mask idx : Z) : option (option Z) :=
  match fuel with
  | O => None
  | S fuel =>
      slot ← zlookup bs idx;
      match slot with
      | Some existing => e ← bytes_of existing; if bool_decide (e = bytes) then Some (Some existing) else probe_from fuel bs bytes mask (Z.land (idx + 1) mask)
      | None => Some None
      end
  end.
Definition probe (t : SymbolTable) (hash : Z) (bytes : list Z) : option (option Z) :=
  let mask := zlen (buckets t) - 1 in probe_from (length (buckets t)) (buckets t) bytes mask (Z.land hash mask).
Fixpoint free_from (fuel : nat) (bs : list (option Z)) (mask idx : Z) : option Z :=
  match fuel with
  | O => None
  | S fuel =>
      slot ← zlookup bs idx;
      match slot with Some _ => free_from fuel bs mask (Z.land (idx + 1) mask) | None => Some idx end
  end.
Definition insert (t : SymbolTable) (hash sym : Z) : option SymbolTable :=
  let mask := zlen (buckets t) - 1 in
  idx ← free_from (length (buckets t)) (buckets t) mask (Z.land hash mask);
  bs ← zset (buckets t) idx (Some sym); Some (MkTable bs (count t + 1)).
Fixpoint insert_all (l : list Z) (t : SymbolTable) : option SymbolTable :=
  match l with
  | [] => Some t
  | sym :: l => bytes ← bytes_of sym; t ← insert t (content_hash bytes) sym; insert_all l t
  end.
Definition rehash (t : SymbolTable) : option SymbolTable :=
  let new_cap := zlen (buckets t) * 2 in insert_all (omap id (buckets t)) (with_capacity new_cap).
End table.

Definition saturating_mul (a b : Z) : Z := Z.min (a * b) (2 ^ 64 - 1).
Definition intern (bytes : list Z) (vm : vmstate) : option (raw (Z * vmstate)) :=
  let hash := content_hash bytes in
  found ← probe (symbol_bytes vm) (symbols vm) hash bytes;
  match found with
  | Some sym => Some (Fits (sym, vm))
  | None =>
      match alloc_indexable_bytes_raw (symbol_klass (universe vm)) (Mark.with_hash MARK_PRISTINE (Z.lor (u32 hash) 1)) bytes vm with
      | Exits code => Some (Exits code)
      | Fits (sym, vm) =>
          t ← insert (symbols vm) hash sym;
          t ← (if saturating_mul (zlen (buckets t)) 3 <=? saturating_mul (count t) 4 then rehash (symbol_bytes vm) t else Some t);
          Some (Fits (sym, with_symbols vm t))
      end
  end.

(** ** Globals *)
Definition INITIAL_CAPACITY : Z := 16.
Definition tally_of (es : list Z) : option Z := w ← zlookup es 0; s ← SmallInt.try_from w; Some (u64 (SmallInt.value s)).
(** The [n] associations from element [i] on. *)
Fixpoint lookup_in (n : nat) (vm : vmstate) (es : list Z) (i name : Z) : option (option Z) :=
  match n with
  | O => Some None
  | S n => assoc ← zlookup es i; k ← body_oop vm assoc 0; if k =? name then Some (Some assoc) else lookup_in n vm es (i + 1) name
  end.
(** The associations: the elements after the tally, as many as it says. *)
Definition assocs_of (es : list Z) : option (list Z) :=
  tally ← tally_of es; if zlen es <? 1 + tally then None else Some (take (Z.to_nat tally) (drop 1 es)).
Definition global_lookup (vm : vmstate) (name : Z) : option (option Z) :=
  match as_array vm (smalltalk vm) with
  | None => Some None
  | Some es => tally ← tally_of es; lookup_in (Z.to_nat tally) vm es 1 name
  end.

Definition with_smalltalk (vm : vmstate) (o : Z) : vmstate := MkVm (objects vm) (universe vm) (symbols vm) o (eden_free vm).
Definition put_smi (o i n : Z) (vm : vmstate) : option vmstate := w ← SmallInt.new n; at_put o i w vm.
Fixpoint at_put_all (o i : Z) (vs : list Z) (vm : vmstate) : option vmstate :=
  match vs with [] => Some vm | v :: vs => vm ← at_put o i v vm; at_put_all o (i + 1) vs vm end.
Definition ensure_capacity (vm : vmstate) : option vmstate :=
  match as_array vm (smalltalk vm) with
  | None =>
      let '(arr, vm) := alloc_indexable_oops (system_dictionary_klass (universe vm)) (1 + INITIAL_CAPACITY) vm in
      vm ← put_smi arr 0 0 vm; Some (with_smalltalk vm arr)
  | Some es =>
      tally ← tally_of es;
      let cap := zlen es - 1 in
      if cap <? 0 then None
      else if tally <? cap then Some vm
      else
        let '(grown, vm) := alloc_indexable_oops (system_dictionary_klass (universe vm)) (1 + cap * 2) vm in
        vm ← put_smi grown 0 (i64 tally) vm;
        l ← assocs_of es; vm ← at_put_all grown 1 l vm;
        Some (with_smalltalk vm grown)
  end.
Definition global_declare (name : Z) (vm : vmstate) : option (Z * vmstate) :=
  found ← global_lookup vm name;
  match found with
  | Some assoc => Some (assoc, vm)
  | None =>
      vm ← ensure_capacity vm;
      let '(assoc, vm) := alloc_slots (association_klass (universe vm)) [name; nil_obj (universe vm)] vm in
      es ← as_array vm (smalltalk vm);
      tally ← tally_of es;
      vm ← at_put (smalltalk vm) (1 + tally) assoc vm;
      vm ← put_smi (smalltalk vm) 0 (i64 (tally + 1)) vm;
      Some (assoc, vm)
  end.
End World.
