(* ===== verification/WorldCorrect.v ===== *)
(** Interning and the global namespace are finite maps: [intern_refines] and
    [globals_refine]. *)
From S2P Require Import Prelude Oops World.
From stdpp Require Import gmap.
#[local] Open Scope Z_scope.

Module WorldCorrect.
Import World.

Abbreviation filled := (omap (M:=list) (@id (option Z))).
Definition pos (bs : list (option Z)) (h t : Z) : Z := (h + t) mod zlen bs.
Definition occupied (bs : list (option Z)) (i : Z) : Prop := exists o, zlookup bs i = Some (Some o).

(** ** The table *)
Section table.
Context (bytes_of : Z -> option (list Z)).
(** The buckets hold the symbols of [M], each where a probe for it finds it. *)
Record table_ok (bs : list (option Z)) (M : gmap (list Z) Z) : Prop := {
  t_size : exists k, 1 <= k /\ zlen bs = 2 ^ k;
  t_nodup : NoDup (filled bs);
  t_in : forall i o, zlookup bs i = Some (Some o) -> exists b, bytes_of o = Some b /\ M !! b = Some o;
  t_reach : forall b o, M !! b = Some o -> bytes_of o = Some b /\ exists t, 0 <= t < zlen bs /\
    zlookup bs (pos bs (content_hash b) t) = Some (Some o) /\ forall t', 0 <= t' < t -> occupied bs (pos bs (content_hash b) t');
  t_count : zlen (filled bs) = Z.of_nat (size M) }.

Lemma content_hash_nonneg b : 0 <= content_hash b.
Proof.
  unfold content_hash. assert (forall h, 0 <= h -> 0 <= foldl (fun h b => u64 (Z.lxor h b * 0x100000001B3)) h b) as H; [|by apply H].
  induction b as [|x b IH]; intros h Hh; [done|]. cbn [foldl]. apply IH. apply wrapU_in. lia.
Qed.
Section sized.
Context (bs : list (option Z)) (Hsize : exists k, 1 <= k /\ zlen bs = 2 ^ k).
Lemma size_ge : 2 <= zlen bs.
Proof using Hsize. destruct Hsize as (k & Hk & ->). change 2 with (2 ^ 1) at 1. apply Z.pow_le_mono_r; lia. Qed.
Lemma masked x : 0 <= x -> Z.land x (zlen bs - 1) = x mod zlen bs.
Proof using Hsize. destruct Hsize as (k & Hk & ->). intros Hx. replace (2 ^ k - 1) with (Z.ones k) by (rewrite Z.ones_equiv; lia). apply Z.land_ones. lia. Qed.
Lemma pos_first b : Z.land (content_hash b) (zlen bs - 1) = pos bs (content_hash b) 0.
Proof using Hsize. rewrite masked by apply content_hash_nonneg. unfold pos. by rewrite Z.add_0_r. Qed.
Lemma pos_in h t : 0 <= pos bs h t < zlen bs.
Proof using Hsize. apply Z.mod_pos_bound. pose proof size_ge. lia. Qed.
Lemma pos_succ h t : Z.land (pos bs h t + 1) (zlen bs - 1) = pos bs h (t + 1).
Proof using Hsize. pose proof (pos_in h t). pose proof size_ge. rewrite masked by lia. unfold pos. rewrite Zplus_mod_idemp_l. f_equal. lia. Qed.
Lemma pos_onto h i : 0 <= i < zlen bs -> exists t, 0 <= t < zlen bs /\ pos bs h t = i.
Proof using Hsize.
  intros Hi. pose proof size_ge. exists ((i - h) mod zlen bs). split; [apply Z.mod_pos_bound; lia|]. unfold pos. rewrite Zplus_mod_idemp_r.
  replace (h + (i - h)) with i by lia. by apply Z.mod_small.
Qed.
End sized.

Lemma omap_full (l : list (option Z)) : (forall i, 0 <= i < zlen l -> occupied l i) -> zlen (filled l) = zlen l.
Proof.
  induction l as [|x l IH]; intros H; [done|]. destruct (H 0) as [o Ho]; [rewrite zlen_cons; pose proof (zlen_nonneg l); lia|].
  cbn in Ho. injection Ho as ->. cbn [omap list_omap id]. rewrite !zlen_cons, IH; [done|]. intros i Hi. destruct (H (1 + i)) as [o' Ho]; [rewrite zlen_cons; lia|].
  exists o'. unfold zlookup in *. destruct (Z.ltb_spec (1 + i) 0); [lia|]. destruct (Z.ltb_spec i 0); [lia|]. by replace (Z.to_nat (1 + i)) with (S (Z.to_nat i)) in Ho by lia.
Qed.
Lemma free_slot bs : zlen (filled bs) < zlen bs -> exists i, 0 <= i < zlen bs /\ zlookup bs i = Some None.
Proof.
  intros Hl. destruct (decide (None ∈ bs)) as [Hi|Hno].
  - apply list_elem_of_lookup in Hi as [i Hi]. exists (Z.of_nat i). assert (zlookup bs (Z.of_nat i) = Some None) as Hz; [|split; [by eapply zlookup_lt|done]].
    unfold zlookup. destruct (Z.ltb_spec (Z.of_nat i) 0); [lia|]. by rewrite Nat2Z.id.
  - assert (zlen (filled bs) = zlen bs); [|lia]. apply omap_full. intros i Hi. destruct (zlookup_is_Some bs i Hi) as [[o|] Ho]; [by exists o|].
    destruct Hno. unfold zlookup in Ho. destruct (i <? 0); [done|]. by eapply list_elem_of_lookup_2.
Qed.
(** A probe that has met only other symbols in its first [t] slots. *)
Lemma symbol_probe_from_ok bs M b : table_ok bs M -> zlen (filled bs) < zlen bs -> forall fuel t, 0 <= t <= zlen bs -> Z.of_nat fuel = zlen bs - t ->
  (forall t', 0 <= t' < t -> exists o e, zlookup bs (pos bs (content_hash b) t') = Some (Some o) /\ bytes_of o = Some e /\ e <> b) ->
  probe_from bytes_of fuel bs b (zlen bs - 1) (pos bs (content_hash b) t) = Some (M !! b).
Proof.
  intros Hok Hfree. destruct (free_slot _ Hfree) as (i & Hi & Hn). destruct (pos_onto _ (t_size _ _ Hok) (content_hash b) i Hi) as (t0 & Ht0 & <-).
  induction fuel as [|fuel IH]; intros t Ht Hf Hpre.
  { exfalso. destruct (Hpre t0) as (o & e & Ho & _); [lia|]. congruence. }
  cbn [probe_from]. destruct (zlookup_is_Some bs _ (pos_in _ (t_size _ _ Hok) (content_hash b) t)) as [[o|] Ho]; rewrite Ho; cbn [mbind option_bind].
  - destruct (t_in _ _ Hok _ _ Ho) as (e & He & HM). rewrite He. cbn [mbind option_bind]. destruct (bool_decide_reflect (e = b)) as [->|Hne]; [by rewrite HM|].
    rewrite pos_succ by apply Hok. apply IH; [lia|lia|]. intros t' Ht'. destruct (decide (t' = t)) as [->|]; [by exists o, e|]. apply Hpre. lia.
  - destruct (M !! b) as [o|] eqn:HM; [|done]. exfalso. destruct (t_reach _ _ Hok _ _ HM) as (Hb & t1 & Ht1 & Ho1 & Hocc).
    destruct (Z.lt_trichotomy t1 t) as [Hlt|[->|Hgt]].
    + destruct (Hpre t1) as (o2 & e & Ho2 & He & Hne); [lia|]. congruence.
    + congruence.
    + destruct (Hocc t) as [o2 Ho2]; [lia|]. congruence.
Qed.
Lemma symbol_probe_ok t M b : table_ok (buckets t) M -> zlen (filled (buckets t)) < zlen (buckets t) -> probe bytes_of t (content_hash b) b = Some (M !! b).
Proof.
  intros Hok Hfree. unfold probe. rewrite pos_first by apply Hok. eapply symbol_probe_from_ok; try done; [|unfold zlen; lia|intros; lia]. pose proof (zlen_nonneg (buckets t)). lia.
Qed.
Lemma free_from_ok bs h : (exists k, 1 <= k /\ zlen bs = 2 ^ k) -> zlen (filled bs) < zlen bs -> forall fuel t, 0 <= t <= zlen bs -> Z.of_nat fuel = zlen bs - t ->
  (forall t', 0 <= t' < t -> occupied bs (pos bs h t')) -> exists t1, t <= t1 < zlen bs /\ free_from fuel bs (zlen bs - 1) (pos bs h t) = Some (pos bs h t1) /\
  zlookup bs (pos bs h t1) = Some None /\ forall t', 0 <= t' < t1 -> occupied bs (pos bs h t').
Proof.
  intros Hs Hfree. destruct (free_slot _ Hfree) as (i & Hi & Hn). destruct (pos_onto _ Hs h i Hi) as (t0 & Ht0 & <-).
  induction fuel as [|fuel IH]; intros t Ht Hf Hpre.
  { exfalso. destruct (Hpre t0) as (o & Ho); [lia|]. congruence. }
  cbn [free_from]. destruct (zlookup_is_Some bs _ (pos_in _ Hs h t)) as [[o|] Ho]; rewrite Ho; cbn [mbind option_bind].
  - rewrite pos_succ by done. destruct (decide (t + 1 <= zlen bs)) as [Hle|]; [|lia]. destruct (IH (t + 1)) as (t1 & Ht1 & H); [lia|lia| |exists t1; split; [lia|done]].
    intros t' Ht'. destruct (decide (t' = t)) as [->|]; [by exists o|]. apply Hpre. lia.
  - exists t. split_and!; try done; lia.
Qed.
Lemma omap_insert_free (l : list (option Z)) i o : zlookup l i = Some None -> filled (zinsert l i (Some o)) ≡ₚ o :: filled l.
Proof.
  unfold zlookup, zinsert. destruct (Z.ltb_spec i 0); [done|]. generalize (Z.to_nat i). clear. intros n Hn. revert n Hn.
  induction l as [|x l IH]; intros [|n] Hn; try done; cbn in Hn |- *.
  - by injection Hn as ->.
  - destruct x as [y|]; cbn; rewrite IH by done; [|done]. apply Permutation_swap.
Qed.
Lemma other_slot {A} (l : list A) i x y j : zlookup l i = Some y -> i <> j -> zlookup (zinsert l i x) j = zlookup l j.
Proof. intros Hi Hne. apply zlookup_zinsert_ne; [done|]. by apply zlookup_lt in Hi as []. Qed.
#[local] Instance zlen_perm {A} : Proper (Permutation ==> eq) (@zlen A).
Proof. intros l l' H. unfold zlen. by rewrite H. Qed.
Lemma occupied_insert bs i o j : occupied bs j -> zlookup bs i = Some None -> occupied (zinsert bs i (Some o)) j.
Proof. intros [x Hx] Hn. exists x. erewrite other_slot; [done..|]. intros ->. congruence. Qed.
Lemma symbol_insert_ok t M b o : table_ok (buckets t) M -> zlen (filled (buckets t)) < zlen (buckets t) -> M !! b = None -> bytes_of o = Some b ->
  exists t', insert t (content_hash b) o = Some t' /\ table_ok (buckets t') (<[b := o]> M) /\ zlen (buckets t') = zlen (buckets t) /\ count t' = count t + 1.
Proof.
  intros Hok Hfree HM Hb. unfold insert. rewrite pos_first by apply Hok. pose proof (zlen_nonneg (buckets t)).
  destruct (free_from_ok (buckets t) (content_hash b) (t_size _ _ Hok) Hfree (length (buckets t)) 0) as (t1 & Ht1 & -> & Hn & Hocc); [lia|unfold zlen; lia|intros; lia|].
  cbn [mbind option_bind]. set (i := pos (buckets t) (content_hash b) t1) in *. pose proof (pos_in _ (t_size _ _ Hok) (content_hash b) t1) as Hi. fold i in Hi.
  rewrite zset_ok by done. cbn [mbind option_bind]. eexists. split; [done|]. cbn [buckets count]. rewrite zlen_insert. split; [|done].
  assert (o ∉ filled (buckets t)) as Hno.
  { intros (x & Hx & Hxo)%list_elem_of_omap. cbn in Hxo. subst x. apply list_elem_of_lookup in Hx as [j Hj].
    destruct (t_in _ _ Hok (Z.of_nat j) o) as (b' & Hb' & HM'); [unfold zlookup; destruct (Z.ltb_spec (Z.of_nat j) 0); [lia|]; by rewrite Nat2Z.id|]. congruence. }
  split.
  - rewrite zlen_insert. apply Hok.
  - rewrite (omap_insert_free _ _ _ Hn). constructor; [done|apply Hok].
  - intros j o' Hj. destruct (decide (j = i)) as [->|Hne].
    + rewrite zlookup_zinsert in Hj by done. injection Hj as <-. exists b. by rewrite lookup_insert_eq.
    + rewrite (other_slot _ _ _ _ _ Hn) in Hj by done. destruct (t_in _ _ Hok _ _ Hj) as (b' & Hb' & HM'). exists b'. rewrite lookup_insert_ne; [done|]. congruence.
  - intros b' o'. unfold pos. rewrite zlen_insert. fold (pos (buckets t) (content_hash b')). destruct (decide (b' = b)) as [->|Hne].
    + rewrite lookup_insert_eq. intros [= <-]. split; [done|]. exists t1. split; [lia|]. split; [by apply zlookup_zinsert|]. intros t' Ht'. apply occupied_insert; [by apply Hocc|done].
    + rewrite lookup_insert_ne by done. intros HM'. destruct (t_reach _ _ Hok _ _ HM') as (Hb' & t2 & Ht2 & Ho2 & Hocc2). split; [done|]. exists t2. split; [done|]. split.
      * rewrite (other_slot _ _ _ _ _ Hn); [done|]. unfold pos in Ho2. intros He. unfold pos in Hn, i. congruence.
      * intros t' Ht'. apply occupied_insert; [by apply Hocc2|done].
  - rewrite (omap_insert_free _ _ _ Hn), zlen_cons, (t_count _ _ Hok), map_size_insert_None by done. lia.
Qed.
Lemma empty_ok n : (exists k, 1 <= k /\ n = 2 ^ k) -> table_ok (buckets (with_capacity n)) ∅.
Proof.
  intros (k & Hk & ->). cbn [buckets with_capacity]. pose proof (Z.pow_pos_nonneg 2 k ltac:(lia) ltac:(lia)).
  assert (forall m, filled (replicate m (@None Z)) = []) as Hno by (intros m; by induction m). assert (zlen (replicate (Z.to_nat (2 ^ k)) (@None Z)) = 2 ^ k) as Hl by (unfold zlen; rewrite length_replicate; lia). split.
  - exists k. split; [done|exact Hl].
  - rewrite Hno. constructor.
  - intros i o Hi. unfold zlookup in Hi. destruct (i <? 0); [done|]. by apply lookup_replicate in Hi as [? _].
  - intros b o Hb. by rewrite lookup_empty in Hb.
  - by rewrite Hno.
Qed.
(** Inserting symbols of distinct contents one after the other. *)
Lemma insert_all_ok l : forall t M, table_ok (buckets t) M -> NoDup l -> (forall o, o ∈ l -> exists b, bytes_of o = Some b /\ M !! b = None) ->
  (forall o o' b, o ∈ l -> o' ∈ l -> bytes_of o = Some b -> bytes_of o' = Some b -> o = o') -> zlen (filled (buckets t)) + zlen l < zlen (buckets t) ->
  exists t' M', insert_all bytes_of l t = Some t' /\ table_ok (buckets t') M' /\ zlen (buckets t') = zlen (buckets t) /\ count t' = count t + zlen l /\
  (forall b o, M' !! b = Some o <-> M !! b = Some o \/ o ∈ l /\ bytes_of o = Some b).
Proof.
  induction l as [|o l IH]; intros t M Hok Hnd Hnew Hinj Hroom.
  { exists t, M. cbn [insert_all]. split_and!; try done. + change (zlen (@nil Z)) with 0. lia. + intros b o. split; [by left|]. intros [?|[[]%not_elem_of_nil _]]. done. }
  cbn [insert_all]. rewrite zlen_cons in Hroom |- *. pose proof (zlen_nonneg l). apply NoDup_cons in Hnd as [Hni Hnd]. destruct (Hnew o ltac:(constructor)) as (b & Hb & HM).
  rewrite Hb. cbn [mbind option_bind]. destruct (symbol_insert_ok t M b o Hok ltac:(lia) HM Hb) as (t1 & -> & Hok1 & Hl1 & Hc1). cbn [mbind option_bind].
  destruct (IH t1 (<[b := o]> M) Hok1 Hnd) as (t2 & M2 & -> & Hok2 & Hl2 & Hc2 & HM2).
  - intros o' Ho'. destruct (Hnew o' ltac:(by right)) as (b' & Hb' & HM'). exists b'. split; [done|]. rewrite lookup_insert_ne; [done|]. intros ->.
    destruct Hni. by rewrite (Hinj o o' b' (list_elem_of_here _ _) (list_elem_of_further _ _ _ Ho') Hb Hb').
  - intros o1 o2 b' H1 H2. apply Hinj; by right.
  - rewrite Hl1, (t_count _ _ Hok1), map_size_insert_None by done. rewrite (t_count _ _ Hok) in Hroom. lia.
  - exists t2, M2. split_and!; try done; [lia|lia|]. intros b' o'. rewrite HM2. split.
    + intros [[[-> ->]|[_ ?]]%lookup_insert_Some|[? ?]]; [right; split; [constructor|done]|by left|right; split; [by right|done]].
    + intros [Hm|[[->|Ho']%elem_of_cons Hb']].
      * left. rewrite lookup_insert_ne; [done|]. intros ->. congruence.
      * left. apply lookup_insert_Some. left. split; congruence.
      * by right.
Qed.
Lemma elem_bucket bs o : o ∈ filled bs <-> exists i, zlookup bs i = Some (Some o).
Proof.
  rewrite list_elem_of_omap. split.
  - intros (x & Hx & Ho). cbn in Ho. subst x. apply list_elem_of_lookup in Hx as [i Hi]. exists (Z.of_nat i). unfold zlookup. destruct (Z.ltb_spec (Z.of_nat i) 0); [lia|]. by rewrite Nat2Z.id.
  - intros (i & Hi). exists (Some o). split; [|done]. unfold zlookup in Hi. destruct (i <? 0); [done|]. by eapply list_elem_of_lookup_2.
Qed.
Lemma symbol_rehash_ok t M : table_ok (buckets t) M -> count t = Z.of_nat (size M) -> 2 * zlen (filled (buckets t)) <= 2 * zlen (buckets t) ->
  exists t', rehash bytes_of t = Some t' /\ table_ok (buckets t') M /\ zlen (buckets t') = zlen (buckets t) * 2 /\ count t' = Z.of_nat (size M).
Proof.
  intros Hok Hcount Hle. unfold rehash. pose proof (size_ge _ (t_size _ _ Hok)). destruct (t_size _ _ Hok) as (k & Hk & Hsz).
  assert (exists k', 1 <= k' /\ zlen (buckets t) * 2 = 2 ^ k') as Hsz'. { exists (k + 1). split; [lia|]. rewrite Hsz, Z.pow_add_r by lia. lia. }
  pose proof (empty_ok _ Hsz') as He. assert (zlen (buckets (with_capacity (zlen (buckets t) * 2))) = zlen (buckets t) * 2) as Hlen.
  { cbn. unfold zlen at 1. rewrite length_replicate. lia. }
  assert (forall o, o ∈ filled (buckets t) -> exists b, bytes_of o = Some b /\ M !! b = Some o) as Hin by (intros o [i Hi]%elem_bucket; by eapply t_in).
  destruct (insert_all_ok (filled (buckets t)) _ _ He (t_nodup _ _ Hok)) as (t' & M' & -> & Hok' & Hl' & Hc' & HM').
  - intros o (b & Hb & _)%Hin. by exists b.
  - intros o o' b (e & He1 & HM1)%Hin (e' & He2 & HM2)%Hin Hb Hb'. congruence.
  - rewrite Hlen, (t_count _ _ He), map_size_empty. lia.
  - exists t'. split; [done|]. assert (M' = M) as ->.
    { apply map_eq. intros b. apply option_eq. intros o. rewrite HM', lookup_empty. split.
      - intros [|[(e & Hb & HM)%Hin Hb']]; [done|]. congruence.
      - intros HM. right. destruct (t_reach _ _ Hok _ _ HM) as (Hb & p & _ & Hp & _). split; [|done]. apply elem_bucket. by eexists. }
    split; [done|]. rewrite Hl', Hlen. split; [done|]. rewrite Hc'. cbn [count with_capacity]. rewrite (t_count _ _ Hok). lia.
Qed.
End table.
Lemma table_mono f g bs M : table_ok f bs M -> (forall o b, f o = Some b -> g o = Some b) -> table_ok g bs M.
Proof.
  intros [] Hfg. split; try done.
  - intros i o Hi. destruct (t_in0 _ _ Hi) as (b & Hb & HM). exists b. auto.
  - intros b o HM. destruct (t_reach0 _ _ HM) as (Hb & H). auto.
Qed.

(** ** Objects *)
Lemma index_oop n : index_of (oop_at n) = Some n.
Proof.
  unfold index_of. assert (Z.to_nat (oop_at n / 8) = n) as ->; [|by rewrite Z.eqb_refl].
  unfold oop_at, MEM_TAG. replace (8 * Z.of_nat n + 1) with (1 + Z.of_nat n * 8) by lia. rewrite Z.div_add by lia. change (1 / 8) with 0. lia.
Qed.
Lemma index_oop_inv o n : index_of o = Some n -> o = oop_at n.
Proof. unfold index_of. destruct (Z.eqb_spec o (oop_at (Z.to_nat (o / 8)))); [|done]. by intros [= <-]. Qed.
Lemma object_oop vm n : object_at vm (oop_at n) = objects vm !! n.
Proof. unfold object_at. by rewrite index_oop. Qed.
Lemma object_oop_inv vm o obj : object_at vm o = Some obj -> exists n, o = oop_at n /\ objects vm !! n = Some obj.
Proof. unfold object_at. intros (n & Hn%index_oop_inv & Ho)%bind_Some. by exists n. Qed.
(** What a step that allocates, and rewrites the elements of [o], leaves alone. *)
Record keeps (o : Z) (vm vm' : vmstate) : Prop := {
  k_universe : universe vm' = universe vm;
  k_symbols : symbols vm' = symbols vm;
  k_objects : forall x obj, object_at vm x = Some obj -> x <> o -> object_at vm' x = Some obj }.
#[export] Instance keeps_trans o : Transitive (keeps o).
Proof. intros v1 v2 v3 [] []. split; [congruence|congruence|auto]. Qed.
Lemma alloc_objects obj vm : objects (alloc obj vm).2 = objects vm ++ [obj].
Proof. done. Qed.
Lemma alloc_ok obj vm : let '(o, vm') := alloc obj vm in
  o = oop_at (length (objects vm)) /\ object_at vm o = None /\ object_at vm' o = Some obj /\ symbols vm' = symbols vm /\ smalltalk vm' = smalltalk vm /\ universe vm' = universe vm /\
  forall x y, object_at vm x = Some y -> object_at vm' x = Some y.
Proof.
  cbn [alloc]. rewrite !object_oop. cbn [objects with_objects]. split; [done|]. rewrite lookup_ge_None_2, list_lookup_middle by done. split_and!; try done.
  intros x y (n & -> & Hn)%object_oop_inv. rewrite object_oop. cbn [objects with_objects]. by apply lookup_app_l_Some.
Qed.
Lemma at_put_ok vm o k fs es i v : object_at vm o = Some (OOops k fs es) -> 0 <= i < zlen es ->
  exists vm', at_put o i v vm = Some vm' /\ object_at vm' o = Some (OOops k fs (zinsert es i v)) /\ keeps o vm vm' /\ smalltalk vm' = smalltalk vm.
Proof.
  intros Ho Hi. unfold at_put. rewrite Ho, zset_ok by done. cbn [mbind option_bind]. destruct (object_oop_inv _ _ _ Ho) as (n & -> & Hn).
  unfold set_object. rewrite index_oop. cbn [mbind option_bind]. eexists. split; [done|]. rewrite object_oop. cbn [objects with_objects smalltalk].
  split; [by apply list_lookup_insert_eq; eapply lookup_lt_Some|]. split; [|done]. split; [done|done|]. intros x obj (m & -> & Hm)%object_oop_inv Hne.
  rewrite object_oop. cbn [objects with_objects]. rewrite list_lookup_insert_ne; [done|]. congruence.
Qed.
Lemma at_put_all_ok o k fs post vs : forall vm pre mid, object_at vm o = Some (OOops k fs (pre ++ mid ++ post)) -> length mid = length vs ->
  exists vm', at_put_all o (zlen pre) vs vm = Some vm' /\ object_at vm' o = Some (OOops k fs (pre ++ vs ++ post)) /\ keeps o vm vm' /\ smalltalk vm' = smalltalk vm.
Proof.
  induction vs as [|v vs IH]; intros vm pre [|x mid] Ho Hl; try done; cbn [at_put_all].
  - exists vm. split_and!; try done.
  - destruct (at_put_ok vm o k fs _ (zlen pre) v Ho) as (vm1 & -> & Ho1 & Hk1 & Hs1).
    { rewrite !zlen_app, zlen_cons. pose proof (zlen_nonneg pre). pose proof (zlen_nonneg mid). pose proof (zlen_nonneg post). lia. }
    cbn [mbind option_bind]. rewrite zinsert_app_r, Z.sub_diag in Ho1 by lia. change (zinsert ((x :: mid) ++ post) 0 v) with (v :: (mid ++ post)) in Ho1.
    destruct (IH vm1 (pre ++ [v]) mid) as (vm2 & E & Ho2 & Hk2 & Hs2); [by rewrite <- (assoc_L (++))|cbn in Hl; lia|]. rewrite zlen_snoc in E. rewrite E.
    exists vm2. rewrite <- (assoc_L (++)) in Ho2. split_and!; try done; [by etransitivity|congruence].
Qed.

(** ** Interning *)
Definition symbol_mark (b : list Z) : Z := Mark.with_hash MARK_PRISTINE (Z.lor (u32 (content_hash b)) 1).
(** Every content of [M] has its symbol, with the hash its contents give. *)
Record symbols_ok (vm : vmstate) (M : gmap (list Z) Z) : Prop := {
  so_table : table_ok (symbol_bytes vm) (buckets (symbols vm)) M;
  so_count : count (symbols vm) = Z.of_nat (size M);
  so_load : 4 * Z.of_nat (size M) < 3 * zlen (buckets (symbols vm));
  so_symbol : forall b o, M !! b = Some o -> object_at vm o = Some (OBytes (symbol_klass (universe vm)) (symbol_mark b) [] b) }.
Lemma symbol_bytes_mono vm vm' : universe vm' = universe vm -> (forall x k mk fs b, object_at vm x = Some (OBytes k mk fs b) -> object_at vm' x = Some (OBytes k mk fs b)) ->
  forall o b, symbol_bytes vm o = Some b -> symbol_bytes vm' o = Some b.
Proof. intros Hu Hk o b. unfold symbol_bytes. rewrite Hu. destruct (object_at vm o) as [[]|] eqn:E; try done. by rewrite (Hk _ _ _ _ _ E). Qed.
Lemma symbols_keep vm vm' M : symbols_ok vm M -> universe vm' = universe vm -> symbols vm' = symbols vm ->
  (forall x k mk fs b, object_at vm x = Some (OBytes k mk fs b) -> object_at vm' x = Some (OBytes k mk fs b)) -> symbols_ok vm' M.
Proof.
  intros [] Hu Hs Hk. split; rewrite ?Hs, ?Hu; try done; [|intros b o Ho; by apply Hk, so_symbol0]. eapply table_mono; [done|]. by eapply symbol_bytes_mono.
Qed.
Lemma symbol_hash b : Mark.hash (symbol_mark b) = Z.lor (u32 (content_hash b)) 1.
Proof.
  assert (inU 32 (Z.lor (u32 (content_hash b)) 1)) as H by (apply inU_lor; [lia|by apply wrapU_in|unfold inU; lia]).
  unfold symbol_mark. rewrite Mark.with_hash_fset by done.
  rewrite Mark.hash_fget by by apply fset_in. by apply fget_fset.
Qed.

(** A world's table of symbols is one map. *)
Lemma symbols_fun vm M M' b : symbols_ok vm M -> symbols_ok vm M' -> zlen (buckets (symbols vm)) < 2 ^ 60 -> M !! b = M' !! b.
Proof.
  intros H H' Hroom. assert (forall M, symbols_ok vm M -> probe (symbol_bytes vm) (symbols vm) (content_hash b) b = Some (M !! b)) as Hp.
  { intros M1 Hok. pose proof (so_table _ _ Hok) as Ht. pose proof (so_load _ _ Hok). pose proof (size_ge _ (t_size _ _ _ Ht)). pose proof (t_count _ _ _ Ht). apply symbol_probe_ok; [done|lia]. }
  pose proof (Hp M H). pose proof (Hp M' H'). congruence.
Qed.
(** New contents fit into the eden. *)
Definition has_room (vm : vmstate) (bytes : list Z) : Prop := bytes_words (zlen bytes) <= eden_free vm (length (objects vm)).
#[export] Instance has_room_dec vm bytes : Decision (has_room vm bytes).
Proof. unfold has_room. apply _. Defined.
Lemma intern_exits vm M bytes : symbols_ok vm M -> zlen (buckets (symbols vm)) < 2 ^ 60 -> M !! bytes = None -> ~ has_room vm bytes -> intern bytes vm = Some (Exits 70).
Proof.
  intros Hok Hroom HM Hno. pose proof (so_table _ _ Hok) as Ht. pose proof (so_load _ _ Hok). pose proof (size_ge _ (t_size _ _ _ Ht)). pose proof (t_count _ _ _ Ht).
  unfold intern. rewrite (symbol_probe_ok _ _ _ _ Ht) by lia. cbn [mbind option_bind]. rewrite HM. unfold alloc_indexable_bytes_raw, alloc_words_raw, try_bump_eden.
  by destruct (Z.leb_spec (bytes_words (zlen bytes)) (eden_free vm (length (objects vm)))).
Qed.
Lemma intern_ok vm M bytes : symbols_ok vm M -> zlen (buckets (symbols vm)) < 2 ^ 60 -> M !! bytes <> None \/ has_room vm bytes -> exists o vm', intern bytes vm = Some (Fits (o, vm')) /\ eden_free vm' = eden_free vm /\
  symbols_ok vm' (<[bytes := o]> M) /\ (forall o', M !! bytes = Some o' -> o = o' /\ vm' = vm) /\ (M !! bytes = None -> object_at vm o = None) /\
  object_at vm' o = Some (OBytes (symbol_klass (universe vm)) (symbol_mark bytes) [] bytes) /\
  universe vm' = universe vm /\ smalltalk vm' = smalltalk vm /\ (forall x obj, object_at vm x = Some obj -> object_at vm' x = Some obj) /\
  (zlen (buckets (symbols vm')) = zlen (buckets (symbols vm)) \/ 3 * zlen (buckets (symbols vm')) <= 8 * (Z.of_nat (size M) + 1)) /\
  (objects vm' = objects vm \/ objects vm' = objects vm ++ [OBytes (symbol_klass (universe vm)) (symbol_mark bytes) [] bytes]).
Proof.
  intros Hok Hroom Hfit.
  pose proof (so_table _ _ Hok) as Ht. pose proof (so_load _ _ Hok). pose proof (size_ge _ (t_size _ _ _ Ht)). pose proof (t_count _ _ _ Ht).
  unfold intern. rewrite (symbol_probe_ok _ _ _ _ Ht) by lia. cbn [mbind option_bind]. destruct (M !! bytes) as [o|] eqn:HM.
  { exists o, vm. rewrite insert_id by done. pose proof (so_symbol _ _ Hok _ _ HM). split_and!; try done; [by intros ? [= ->]|by left..]. }
  destruct Hfit as [|Hfit]; [done|]. unfold alloc_indexable_bytes_raw, alloc_words_raw, try_bump_eden. rewrite (proj2 (Z.leb_le _ _) Hfit).
  assert (eden_free (alloc (OBytes (symbol_klass (universe vm)) (symbol_mark bytes) [] bytes) vm).2 = eden_free vm) as Hed by done.
  pose proof (alloc_objects (OBytes (symbol_klass (universe vm)) (symbol_mark bytes) [] bytes) vm) as Hobjs. pose proof (alloc_ok (OBytes (symbol_klass (universe vm)) (symbol_mark bytes) [] bytes) vm) as Ha. fold (symbol_mark bytes). destruct (alloc _ vm) as [o vm1].
  destruct Ha as (_ & Hnew & Ho & Hs & Hst & Hu & Hkeep). rewrite Hs. assert (symbol_bytes vm1 o = Some bytes) as Hb. { unfold symbol_bytes. by rewrite Ho, Hu, Z.eqb_refl. }
  assert (table_ok (symbol_bytes vm1) (buckets (symbols vm)) M) as Ht1 by (eapply table_mono; [done|]; by eapply symbol_bytes_mono; eauto).
  destruct (symbol_insert_ok _ (symbols vm) M bytes o Ht1 ltac:(lia) HM Hb) as (t2 & -> & Ht2 & Hl2 & Hc2). cbn [mbind option_bind].
  assert (count t2 = Z.of_nat (size (<[bytes := o]> M))) as Hc. { rewrite map_size_insert_None by done. rewrite Hc2, (so_count _ _ Hok). lia. }
  assert (Z.of_nat (size (<[bytes := o]> M)) = Z.of_nat (size M) + 1) as Hsz by (rewrite map_size_insert_None by done; lia).
  assert (forall t, table_ok (symbol_bytes vm1) (buckets t) (<[bytes := o]> M) -> count t = Z.of_nat (size (<[bytes := o]> M)) -> 4 * (Z.of_nat (size M) + 1) < 3 * zlen (buckets t) ->
    symbols_ok (with_symbols vm1 t) (<[bytes := o]> M)) as Hdone.
  { intros t Htt Hct Hlt. split; cbn [with_symbols symbols universe]; [exact Htt|done|lia|]. intros b o' [[<- <-]|[Hne HM']]%lookup_insert_Some.
    - by rewrite Hu. - rewrite Hu. by apply Hkeep, (so_symbol _ _ Hok). }
  unfold saturating_mul. destruct (Z.leb_spec (Z.min (zlen (buckets t2) * 3) (2 ^ 64 - 1)) (Z.min (count t2 * 4) (2 ^ 64 - 1))) as [Hle|Hgt].
  - destruct (symbol_rehash_ok _ t2 _ Ht2 Hc) as (t3 & -> & Ht3 & Hl3 & Hc3); [rewrite (t_count _ _ _ Ht2); lia|]. cbn [mbind option_bind].
    exists o, (with_symbols vm1 t3). split_and!; try done; [by apply Hdone; [..|lia]|right; cbn [symbols with_symbols]; lia|by right].
  - cbn [mbind option_bind]. exists o, (with_symbols vm1 t2). split_and!; try done; [apply Hdone; [done..|lia]|by left|by right].
Qed.

(** C20. Interning is a finite map from contents to symbols.  It never panics;
    only new contents that the eden has no room for as it is end the process,
    with code 70, without a collection being tried.  Otherwise equal contents give the same symbol, whether the table grew meanwhile or
    not; new contents give a new object with those bytes and an identity hash
    that is not 0; every symbol there was stays, at its place in the map. *)
Theorem intern_refines vm M bytes
    (Hok : symbols_ok vm M) (Hroom : zlen (buckets (symbols vm)) < 2 ^ 60) :
  if decide (M !! bytes = None /\ ~ has_room vm bytes) then intern bytes vm = Some (Exits 70)
  else exists o vm', intern bytes vm = Some (Fits (o, vm')) /\
  symbols_ok vm' (<[bytes := o]> M) /\ (forall o', M !! bytes = Some o' -> o = o' /\ vm' = vm) /\ (M !! bytes = None -> object_at vm o = None) /\
  object_at vm' o = Some (OBytes (symbol_klass (universe vm)) (symbol_mark bytes) [] bytes) /\ Mark.hash (symbol_mark bytes) <> 0 /\
  universe vm' = universe vm /\ smalltalk vm' = smalltalk vm /\ (forall x obj, object_at vm x = Some obj -> object_at vm' x = Some obj).
Proof.
  assert (Mark.hash (symbol_mark bytes) <> 0) as Hh. { rewrite symbol_hash. intros E. apply (f_equal (fun z => Z.testbit z 0)) in E. by rewrite Z.lor_spec, orb_true_r in E. }
  destruct (decide _) as [[HM Hno]|Hno]; [by eapply intern_exits|].
  destruct (intern_ok vm M bytes Hok Hroom) as (o & vm' & E & _ & H); [destruct (decide (M !! bytes = None)), (decide (has_room vm bytes)); tauto|].
  exists o, vm'. tauto.
Qed.

(** The table of a program that has not begun. *)
Definition bare (cap : Z) : vmstate := MkVm [OSlots 0 []] (MkUniverse (oop_at 0) (oop_at 0) (oop_at 0) 1 2 3 4 5 6 7 8 9 10 11 12 13 14) (with_capacity cap) (oop_at 0) (fun n => 5 - Z.of_nat n).
Lemma bare_symbols k : 1 <= k -> symbols_ok (bare (2 ^ k)) ∅.
Proof.
  intros Hk. split; try done.
  - apply empty_ok. by exists k.
  - cbn [bare symbols buckets with_capacity]. rewrite map_size_empty. unfold zlen. rewrite length_replicate. pose proof (Z.pow_pos_nonneg 2 k). lia.
Qed.
Lemma intern_refines_witness : symbols_ok (bare 2) ∅ /\ exists o vm', intern [102; 111; 111] (bare 2) = Some (Fits (o, vm')) /\ symbols_ok vm' {[ [102; 111; 111] := o ]}.
Proof.
  split; [exact (bare_symbols 1 ltac:(lia))|].
  pose proof (intern_refines (bare 2) ∅ [102; 111; 111] (bare_symbols 1 ltac:(lia)) ltac:(reflexivity)) as H.
  destruct (decide _) as [[_ Hno]|_]; [destruct Hno; by vm_compute|]. destruct H as (o & vm' & E & Hok & _). exists o, vm'. split; [exact E|exact Hok].
Defined.

(** ** Globals *)
Lemma zlen_fmap {A B} (f : A -> B) l : zlen (f <$> l) = zlen l.
Proof. unfold zlen. by rewrite length_fmap. Qed.
(** The namespace is an array of a tally, that many associations, of distinct
    names, and room for more. *)
Definition assoc_ok (vm : vmstate) (name assoc : Z) : Prop := exists value, object_at vm assoc = Some (OSlots (association_klass (universe vm)) [name; value]).
Record array_ok (vm : vmstate) (l : list (Z * Z)) (es : list Z) : Prop := {
  ga_words : exists tally rest, es = tally :: l.*2 ++ rest /\ SmallInt.new (zlen l) = Some tally;
  ga_names : NoDup l.*1;
  ga_assocs : Forall (fun p => assoc_ok vm p.1 p.2) l;
  ga_size : 2 <= zlen es < 2 ^ 60 }.
Definition globals_ok (vm : vmstate) (G : gmap Z Z) : Prop :=
  match as_array vm (smalltalk vm) with
  | None => G = ∅
  | Some es => exists l, array_ok vm l es /\ G = list_to_map l
  end.

Lemma globals_tally_ok n w : SmallInt.new n = Some w -> 0 <= n -> SmallInt.try_from w = Some w /\ u64 (SmallInt.value w) = n.
Proof.
  intros Hn H0. assert (SMI_MIN <= n <= SMI_MAX) as Hr. { destruct (decide (SMI_MIN <= n <= SMI_MAX)); [done|]. unfold SmallInt.new in Hn. by rewrite SmallInt.try_new_none in Hn. }
  destruct (SmallInt.try_new_smi_ok _ _ Hn) as [[Hw Hm] Hv]. unfold SmallInt.try_from. rewrite Hm. split; [done|]. rewrite Hv. apply wrapU_id. unfold inU. change SMI_MAX with (2 ^ 61 - 1) in Hr. lia.
Qed.
Lemma tally_of_ok tally n l : SmallInt.new n = Some tally -> 0 <= n -> tally_of (tally :: l) = Some n.
Proof. intros Hn H0. unfold tally_of. destruct (globals_tally_ok _ _ Hn H0) as [Ht Hv]. change (zlookup (tally :: l) 0) with (Some tally). cbn [mbind option_bind]. rewrite Ht. cbn [mbind option_bind]. by rewrite Hv. Qed.
Lemma lookup_in_ok vm name rest l : forall pre, Forall (fun p => assoc_ok vm p.1 p.2) l ->
  lookup_in (length l) vm (pre ++ l.*2 ++ rest) (zlen pre) name = Some ((list_to_map l : gmap Z Z) !! name).
Proof.
  induction l as [|[n a] l IH]; intros pre Hl; [done|]. apply Forall_cons in Hl as [(v & Ha) Hl]. cbn [length lookup_in fmap list_fmap app fst snd list_to_map foldr uncurry] in *.
  rewrite zlookup_mid. cbn [mbind option_bind]. unfold body_oop. rewrite Ha. change (zlookup [n; v] 0) with (Some n). cbn [mbind option_bind]. destruct (Z.eqb_spec n name) as [->|Hne].
  - by rewrite lookup_insert_eq.
  - rewrite lookup_insert_ne by done. rewrite <- (IH (pre ++ [a]) Hl), zlen_snoc. by rewrite <- (assoc_L (++)).
Qed.
Lemma global_lookup_ok vm G name : globals_ok vm G -> global_lookup vm name = Some (G !! name).
Proof.
  unfold globals_ok, global_lookup. destruct (as_array vm (smalltalk vm)) as [es|]; [|by intros ->]. intros (l & [(tally & rest & -> & Ht) _ Ha _] & ->).
  rewrite (tally_of_ok _ _ _ Ht (zlen_nonneg l)). cbn [mbind option_bind]. unfold zlen at 1. rewrite Nat2Z.id. by apply (lookup_in_ok vm name rest l [tally]).
Qed.
(** A namespace is kept by what leaves its array alone. *)
Lemma array_kept vm vm' l es : array_ok vm l es -> universe vm' = universe vm -> (forall x n v, object_at vm x = Some (OSlots (association_klass (universe vm)) [n; v]) -> object_at vm' x = object_at vm x) -> array_ok vm' l es.
Proof.
  intros [] Hu Hk. split; try done. eapply Forall_impl; [done|]. intros [n a] (v & Hv). exists v. cbn in *. by rewrite Hu, (Hk _ _ _ Hv).
Qed.
Lemma as_array_at vm o es : as_array vm o = Some es -> exists k fs, object_at vm o = Some (OOops k fs es).
Proof. unfold as_array. destruct (object_at vm o) as [[]|]; try done. intros [= ->]. eauto. Qed.
Lemma as_array_of vm o k fs es : object_at vm o = Some (OOops k fs es) -> as_array vm o = Some es.
Proof. unfold as_array. by intros ->. Qed.
Lemma put_smi_ok vm o k fs es i n : object_at vm o = Some (OOops k fs es) -> 0 <= i < zlen es -> 0 <= n < 2 ^ 61 ->
  exists w vm', SmallInt.new n = Some w /\ put_smi o i n vm = Some vm' /\ object_at vm' o = Some (OOops k fs (zinsert es i w)) /\ keeps o vm vm' /\ smalltalk vm' = smalltalk vm.
Proof.
  intros Ho Hi Hn. unfold put_smi. destruct (SmallInt.try_new_ok n) as (w & Hw & _). { change SMI_MIN with (- 2 ^ 61). change SMI_MAX with (2 ^ 61 - 1). lia. }
  exists w. unfold SmallInt.new at 2. rewrite Hw. cbn [mbind option_bind]. destruct (at_put_ok vm o k fs es i w Ho Hi) as (vm' & E & H). by exists vm'.
Qed.
(** A namespace with a free place, and nothing else changed. *)
Lemma ensure_capacity_ok vm G : globals_ok vm G -> Z.of_nat (size G) < 2 ^ 58 -> exists vm1 k fs l es, ensure_capacity vm = Some vm1 /\
  object_at vm1 (smalltalk vm1) = Some (OOops k fs es) /\ array_ok vm1 l es /\ G = list_to_map l /\ 1 + zlen l < zlen es /\
  universe vm1 = universe vm /\ symbols vm1 = symbols vm /\ (forall x obj, object_at vm x = Some obj -> object_at vm1 x = Some obj) /\
  (smalltalk vm1 = smalltalk vm \/ object_at vm (smalltalk vm1) = None).
Proof.
  unfold globals_ok, ensure_capacity. destruct (as_array vm (smalltalk vm)) as [es|] eqn:E.
  - intros (l & Hes & ->) Hsz. pose proof Hes as [(tally & rest & Eq & Ht) Hnd _ [Hge Hlt]]. apply as_array_at in E as (k & fs & E).
    assert (Z.of_nat (size (list_to_map l : gmap Z Z)) = zlen l) as Hsize. { unfold zlen. f_equal. rewrite <- (length_map_to_list), map_to_list_to_map by done. done. }
    rewrite Hsize in Hsz. pose proof (zlen_nonneg l). pose proof (zlen_nonneg rest).
    assert (tally_of es = Some (zlen l)) as Htal by (rewrite Eq; by apply tally_of_ok).
    assert (zlen es = 1 + zlen l + zlen rest) as Hlen. { by rewrite Eq, zlen_cons, zlen_app, zlen_fmap, Z.add_assoc. }
    rewrite Htal. cbn [mbind option_bind]. destruct (Z.ltb_spec (zlen es - 1) 0); [lia|]. destruct (Z.ltb_spec (zlen l) (zlen es - 1)).
    { exists vm, k, fs, l, es. split_and!; try done; [lia|by left]. }
    unfold alloc_indexable_oops. set (new := OOops _ _ _). pose proof (alloc_ok new vm) as Ha. destruct (alloc new vm) as [o vm1]. destruct Ha as (_ & Hno & Ho & Hs1 & Hst1 & Hu1 & Hk1).
    set (body := replicate _ _) in new. assert (zlen body = 1 + (zlen es - 1) * 2) as Hb by (unfold body, zlen; rewrite length_replicate; unfold zlen in *; lia).
    assert (i64 (zlen l) = zlen l) as Hi64 by (apply wrapS_id; unfold inS; lia). rewrite Hi64.
    destruct (put_smi_ok vm1 o _ _ body 0 (zlen l) Ho ltac:(lia) ltac:(lia)) as (w & vm2 & Hw & -> & Ho2 & [Hu2 Hs2 Hk2] & Hst2). cbn [mbind option_bind].
    assert (assocs_of es = Some l.*2) as ->.
    { unfold assocs_of. rewrite Htal. cbn [mbind option_bind]. destruct (Z.ltb_spec (zlen es) (1 + zlen l)); [lia|]. rewrite Eq. cbn [drop]. f_equal. unfold zlen. rewrite Nat2Z.id. apply take_app_length'. by rewrite length_fmap. }
    cbn [mbind option_bind]. assert (exists mid post, zinsert body 0 w = [w] ++ mid ++ post /\ length mid = length l.*2 /\ zlen post = zlen l + (2 - 2)) as (mid & post & Hmid & Hml & Hpl).
    { destruct body as [|x body]; [change (zlen (@nil Z)) with 0 in Hb; lia|]. change (zinsert (x :: body) 0 w) with (w :: body). exists (take (length l) body), (drop (length l) body). rewrite zlen_cons in Hb. unfold zlen in *.
      rewrite take_drop, length_fmap, length_take, length_drop. split; [done|]. lia. }
    rewrite Hmid in Ho2. change 1 with (zlen [w]) at 1. destruct (at_put_all_ok o _ _ post l.*2 vm2 [w] mid Ho2 Hml) as (vm3 & -> & Ho3 & [Hu3 Hs3 Hk3] & Hst3). cbn [mbind option_bind].
    assert (forall x obj, object_at vm x = Some obj -> object_at vm3 x = Some obj) as Hkeep.
    { intros x obj Hx. assert (x <> o) by (intros ->; congruence). apply Hk3; [apply Hk2; [by apply Hk1|done]|done]. }
    eexists _, _, _, l, _. split; [done|]. cbn [smalltalk with_smalltalk]. split; [exact Ho3|]. split.
    { apply (array_kept vm); cbn [universe with_smalltalk]; [|congruence|]. - split; try apply Hes; [by exists w, post|]. change (app [w] (l.*2 ++ post)) with (w :: l.*2 ++ post). rewrite zlen_cons, zlen_app, zlen_fmap. lia.
      - intros x n v Hx. rewrite Hx. by apply Hkeep. }
    split; [done|]. split. { change ([w] ++ l.*2 ++ post) with (w :: l.*2 ++ post). rewrite zlen_cons, zlen_app, zlen_fmap. lia. }
    cbn [universe symbols smalltalk with_smalltalk]. split_and!; [congruence..|done|by right].
  - intros -> _. unfold alloc_indexable_oops. set (new := OOops _ _ _). pose proof (alloc_ok new vm) as Ha. destruct (alloc new vm) as [o vm1]. destruct Ha as (_ & Hno & Ho & Hs1 & Hst1 & Hu1 & Hk1).
    destruct (put_smi_ok vm1 o _ _ _ 0 0 Ho ltac:(done) ltac:(lia)) as (w & vm2 & Hw & -> & Ho2 & [Hu2 Hs2 Hk2] & Hst2). cbn [mbind option_bind].
    eexists _, _, _, [], _. split; [done|]. cbn [smalltalk with_smalltalk]. split; [exact Ho2|]. split; [|split; [done|]; split; [done|]; cbn [universe symbols smalltalk with_smalltalk]; split_and!; [congruence..| |by right]].
    + split; [eexists w, _; by split|constructor|constructor|by vm_compute].
    + intros x obj Hx. apply Hk2; [by apply Hk1|]. intros ->. congruence.
Qed.

(** C21. The global namespace is a finite map from names to associations, and
    never fails: looking a name up answers its association if it has one;
    declaring a name that has one changes nothing; declaring another gives it
    a new association, of value nil, and leaves those of all others, with
    their values, as they were, whether the array had to grow or not. *)
Theorem globals_refine vm G name
    (Hok : globals_ok vm G) (Hroom : Z.of_nat (size G) < 2 ^ 58) : global_lookup vm name = Some (G !! name) /\ exists assoc vm', global_declare name vm = Some (assoc, vm') /\
  globals_ok vm' (<[name := assoc]> G) /\ (forall a, G !! name = Some a -> assoc = a /\ vm' = vm) /\
  (G !! name = None -> object_at vm assoc = None /\ object_at vm' assoc = Some (OSlots (association_klass (universe vm)) [name; nil_obj (universe vm)])) /\
  universe vm' = universe vm /\ symbols vm' = symbols vm /\ (forall x obj, object_at vm x = Some obj -> x <> smalltalk vm -> object_at vm' x = Some obj).
Proof.
  pose proof (global_lookup_ok _ _ name Hok) as Hl. split; [exact Hl|]. unfold global_declare. rewrite Hl. cbn [mbind option_bind]. destruct (G !! name) as [a|] eqn:Hn.
  { exists a, vm. rewrite insert_id by done. split_and!; try done. by intros ? [= ->]. }
  destruct (ensure_capacity_ok _ _ Hok Hroom) as (vm1 & k & fs & l & es & -> & Hes & Har & -> & Hfree & Hu1 & Hs1 & Hk1 & Hor). cbn [mbind option_bind].
  unfold alloc_slots. set (new := OSlots _ _). pose proof (alloc_ok new vm1) as Ha. destruct (alloc new vm1) as [o vm2]. destruct Ha as (_ & Hno & Ho & Hs2 & Hst2 & Hu2 & Hk2).
  rewrite (as_array_of vm2 _ k fs es) by (rewrite Hst2; by apply Hk2). cbn [mbind option_bind]. destruct Har as [(tally & rest & -> & Ht) Hnd Hassoc [Hge Hlt]].
  pose proof (zlen_nonneg l). rewrite (tally_of_ok _ _ _ Ht) by done. cbn [mbind option_bind]. assert (object_at vm2 (smalltalk vm2) = Some (OOops k fs (tally :: l.*2 ++ rest))) as Hes2 by (rewrite Hst2; by apply Hk2).
  destruct (at_put_ok vm2 _ k fs _ (1 + zlen l) o Hes2 ltac:(lia)) as (vm3 & -> & Ho3 & [Hu3 Hs3 Hk3] & Hst3). cbn [mbind option_bind].
  assert (i64 (zlen l + 1) = zlen l + 1) as -> by (apply wrapS_id; unfold inS; lia).
  destruct (put_smi_ok vm3 (smalltalk vm3) k fs (zinsert (tally :: l.*2 ++ rest) (1 + zlen l) o) 0 (zlen l + 1)) as (w & vm4 & Hw & -> & Ho4 & [Hu4 Hs4 Hk4] & Hst4); [by rewrite Hst3|rewrite zlen_insert; lia|lia|]. cbn [mbind option_bind].
  assert (forall x obj, object_at vm2 x = Some obj -> x <> smalltalk vm2 -> object_at vm4 x = Some obj) as Hkeep. { intros x obj Hx Hne. apply Hk4; [by apply Hk3|congruence]. }
  assert (o <> smalltalk vm2) as Hne by (intros ->; congruence).
  exists o, vm4. split; [done|]. split; [|split; [done|]; split; [|split_and!; try congruence]].
  - unfold globals_ok. rewrite Hst4, <- Hst3 in *. rewrite (as_array_of _ _ _ _ _ Ho4). exists (l ++ [(name, o)]). split.
    + destruct rest as [|x rest]. { rewrite zlen_cons, app_nil_r, zlen_fmap in Hfree. lia. }
      assert (zinsert (zinsert (tally :: l.*2 ++ x :: rest) (1 + zlen l) o) 0 w = w :: (l ++ [(name, o)]).*2 ++ rest) as E.
      { change (tally :: l.*2 ++ x :: rest) with ([tally] ++ l.*2 ++ x :: rest). rewrite zinsert_app_r by (change (zlen [tally]) with 1; lia). change (zlen [tally]) with 1. replace (1 + zlen l - 1) with (zlen l.*2) by (rewrite zlen_fmap; lia).
        rewrite (zinsert_app_r l.*2) by lia. rewrite Z.sub_diag. change (zinsert (x :: rest) 0 o) with (o :: rest). rewrite fmap_app, <- (assoc_L (++)). done. }
      rewrite E. split.
      * exists w, rest. split; [done|]. by rewrite zlen_snoc.
      * rewrite fmap_app. apply NoDup_app. split; [done|]. split; [|apply NoDup_singleton]. intros n Hin Heq%list_elem_of_singleton. cbn in Heq. subst n. by apply not_elem_of_list_to_map_2 in Hn.
      * apply Forall_app. split; [|apply Forall_singleton; eexists; cbn; apply Hkeep; [|done]; rewrite Hu4, Hu3, Hu2; exact Ho]. eapply Forall_impl; [done|]. intros [n a] (v & Hv). exists v. cbn in *.
        rewrite Hu4, Hu3, Hu2. apply Hkeep; [by apply Hk2|]. intros ->. congruence.
      * rewrite <- E, !zlen_insert. lia.
    + symmetry. rewrite list_to_map_snoc; [done|]. by apply not_elem_of_list_to_map_2 in Hn.
  - intros _. assert (object_at vm o = None) as Hfresh. { destruct (object_at vm o) eqn:E; [|done]. apply Hk1 in E. congruence. } split; [done|].
    rewrite <- Hu1. by apply Hkeep.
  - intros x obj Hx Hxs. apply Hkeep; [by apply Hk2, Hk1|]. intros ->. rewrite Hst2 in *. destruct Hor; congruence.
Qed.

Lemma globals_refine_witness : globals_ok (bare 2) ∅ /\ global_lookup (bare 2) 24 = Some None /\ exists assoc vm', global_declare 24 (bare 2) = Some (assoc, vm') /\ globals_ok vm' {[ 24 := assoc ]}.
Proof.
  assert (globals_ok (bare 2) ∅) as Hok by reflexivity. split; [exact Hok|].
  destruct (globals_refine (bare 2) ∅ 24 Hok ltac:(reflexivity)) as (Hl & assoc & vm' & E & Hok' & _). split; [exact Hl|]. exists assoc, vm'. split; [exact E|exact Hok'].
Defined.
End WorldCorrect.
