(* ===== verification/WorldOk.v ===== *)
(** Well-formed worlds: every object has the shape its klass says, every field
    holds an integer or an object, and the well-known klasses are what the
    program takes them for.  What allocating, filling and interning keep of
    that, and of the objects that were there. *)
From S2P Require Import Prelude Oops Heap World WorldCorrect.
From stdpp Require Import gmap.
#[local] Open Scope Z_scope.

Module WorldOk.
Import World WorldCorrect.

(** ** Well-formed worlds *)
Definition valid (v : vmstate) (o : Z) : Prop := SmallInt.smi_ok o \/ is_Some (object_at v o).
Definition klass_is (v : vmstate) (k : Z) (f : Heap.Format) (n : Z) : Prop :=
  exists kl, object_at v k = Some (OKlass kl) /\ k_format kl = f /\ k_non_indexable_size kl = HEADER_WORDS + n.
Definition shape_ok (v : vmstate) (obj : object) : Prop :=
  match obj with
  | OBytes k _ fs bs => klass_is v k Heap.IndexableBytes (zlen fs) /\ Forall (valid v) fs /\ zlen bs < 2 ^ 60
  | OSlots k fs => klass_is v k Heap.Slots (zlen fs) /\ Forall (valid v) fs
  | OOops k fs es => klass_is v k Heap.IndexableOops (zlen fs) /\ Forall (valid v) fs /\ Forall (valid v) es /\ zlen es < 2 ^ 60
  | ODouble _ | OMethod _ => True
  | OKlass kl => HEADER_WORDS <= k_non_indexable_size kl < 2 ^ 60 /\ exists n, klass_is v (k_meta kl) Heap.Klass n
  | OOther k => exists f n, klass_is v k f n /\ (f = Heap.Closure \/ f = Heap.Context \/ f = Heap.Process \/ f = Heap.Double /\ k <> double_klass (universe v))
  end.
Definition known_bytes (u : Universe) : list Z :=
  [symbol_klass u; string_klass u; bytearray_klass u; float_array_klass u; large_pos_int_klass u; large_neg_int_klass u].
Record world_ok (v : vmstate) : Prop := {
  w_objects : forall o obj, object_at v o = Some obj -> shape_ok v obj;
  w_nil : is_Some (object_at v (nil_obj (universe v)));
  w_false : is_Some (object_at v (false_obj (universe v)));
  w_true : is_Some (object_at v (true_obj (universe v)));
  w_smalltalk : is_Some (object_at v (smalltalk v));
  w_bytes : Forall (fun k => klass_is v k Heap.IndexableBytes 0) (known_bytes (universe v));
  w_array : klass_is v (array_klass (universe v)) Heap.IndexableOops 0;
  w_character : klass_is v (character_klass (universe v)) Heap.Slots 1;
  w_double : exists n, klass_is v (double_klass (universe v)) Heap.Double n;
  w_method : exists n, klass_is v (method_klass (universe v)) Heap.Method n }.

Lemma klass_is_fun v k f f' n n' : klass_is v k f n -> klass_is v k f' n' -> f = f' /\ n = n'.
Proof. intros (kl & Hk & <- & Hn) (kl' & Hk' & <- & Hn'). rewrite Hk in Hk'. injection Hk' as <-. split; [done|lia]. Qed.
Lemma klass_is_as v k f n : klass_is v k f n -> exists kl, as_klass v k = Some kl /\ k_format kl = f /\ k_non_indexable_size kl = HEADER_WORDS + n.
Proof. intros (kl & Hk & H). exists kl. unfold as_klass. by rewrite Hk. Qed.
Lemma as_klass_is v k kl : as_klass v k = Some kl -> object_at v k = Some (OKlass kl).
Proof. unfold as_klass. destruct (object_at v k) as [[]|]; try done. by intros [= ->]. Qed.
Lemma known_bytes_is v k : world_ok v -> k ∈ known_bytes (universe v) -> klass_is v k Heap.IndexableBytes 0.
Proof. intros Hw Hk. pose proof (w_bytes _ Hw) as H. rewrite Forall_forall in H. by apply H. Qed.
Lemma klass_of_ok v o obj : world_ok v -> object_at v o = Some obj -> exists k kl, klass_of v o = Some k /\ as_klass v k = Some kl.
Proof.
  intros Hw Ho. pose proof (w_objects _ Hw _ _ Ho) as Hs. unfold klass_of. rewrite Ho. cbn [mbind option_bind].
  assert (forall k f n, klass_is v k f n -> exists k' kl, Some k = Some k' /\ as_klass v k' = Some kl) as H. { intros k f n (kl & E & _)%klass_is_as. by exists k, kl. }
  destruct obj as [k mk fs bs|b|k fs|k fs es|kl|m|k]; cbn in Hs.
  - destruct Hs as [? _]. eauto.
  - destruct (w_double _ Hw). eauto.
  - destruct Hs as [? _]. eauto.
  - destruct Hs as [? _]. eauto.
  - destruct Hs as (_ & n & ?). eauto.
  - destruct (w_method _ Hw). eauto.
  - destruct Hs as (f & n & ? & _). eauto.
Qed.
Lemma mem_not_smi o : Oop.is_mem o = true -> Oop.is_smi o = false.
Proof. unfold Oop.is_mem, Oop.is_smi. rewrite Z.eqb_eq. by intros ->. Qed.
Lemma object_mem v o obj : object_at v o = Some obj -> Oop.is_mem o = true /\ Oop.is_smi o = false.
Proof.
  intros (n & -> & _)%object_oop_inv. assert (Oop.is_mem (oop_at n) = true) as H; [|split; [done|by apply mem_not_smi]].
  unfold Oop.is_mem. rewrite SmallInt.tag_mod. unfold oop_at. apply Z.eqb_eq. change MEM_TAG with 1. replace (8 * Z.of_nat n + 1) with (1 + (2 * Z.of_nat n) * 4) by lia. by rewrite Z.mod_add.
Qed.
Lemma valid_mem v o : valid v o -> SmallInt.try_from o = None -> is_Some (object_at v o).
Proof. unfold SmallInt.try_from. intros [[_ ->]|H]; done. Qed.

(** ** What stays *)
(** All objects stay, and all but [h] as they are. *)
Record grows (h : option Z) (v v' : vmstate) : Prop := {
  g_universe : universe v' = universe v;
  g_smalltalk : smalltalk v' = smalltalk v;
  g_eden : eden_free v' = eden_free v;
  g_keep : forall x obj, object_at v x = Some obj -> Some x <> h -> object_at v' x = Some obj;
  g_klass : forall x kl, object_at v x = Some (OKlass kl) -> object_at v' x = Some (OKlass kl);
  g_some : forall x, is_Some (object_at v x) -> is_Some (object_at v' x) }.
Abbreviation extends := (grows None).
#[export] Instance grows_refl h : Reflexive (grows h).
Proof. by split. Qed.
#[export] Instance grows_trans h : Transitive (grows h).
Proof. intros v1 v2 v3 [] []. split; try congruence; auto. Qed.
Lemma extends_grows h v v' : extends v v' -> grows h v v'.
Proof. intros []. split; auto. Qed.
Lemma grows_extends h v v' : object_at v h = None -> grows (Some h) v v' -> extends v v'.
Proof. intros Hn []. split; auto. intros x obj Hx _. apply g_keep0; [done|]. intros [= ->]. congruence. Qed.
Section mono.
Context (h : option Z) (v v' : vmstate) (Hg : grows h v v').
Lemma klass_is_mono k f n : klass_is v k f n -> klass_is v' k f n.
Proof using Hg. intros (kl & Hk & H). exists kl. split; [|done]. by apply (g_klass _ _ _ Hg). Qed.
Lemma valid_mono o : valid v o -> valid v' o.
Proof using Hg. intros [H|H]; [by left|]. right. by apply (g_some _ _ _ Hg). Qed.
Lemma valids_mono l : Forall (valid v) l -> Forall (valid v') l.
Proof using Hg. intros H. eapply Forall_impl; [exact H|]. apply valid_mono. Qed.
Lemma shape_mono obj : shape_ok v obj -> shape_ok v' obj.
Proof using Hg.
  destruct obj as [k mk fs bs|b|k fs|k fs es|kl|m|k]; cbn; try done.
  - intros (? & ? & ?). split_and!; [by apply klass_is_mono|by apply valids_mono|done].
  - intros (? & ?). split; [by apply klass_is_mono|by apply valids_mono].
  - intros (? & ? & ? & ?). split_and!; [by apply klass_is_mono|by apply valids_mono|by apply valids_mono|done].
  - intros (Hn & n & Hk). split; [done|]. exists n. by apply klass_is_mono.
  - intros (f & n & Hk & ?). exists f, n. rewrite (g_universe _ _ _ Hg). split; [|done]. by apply klass_is_mono.
Qed.
Lemma world_grows : world_ok v -> (forall x obj, object_at v' x = Some obj -> object_at v x = Some obj \/ shape_ok v' obj) -> world_ok v'.
Proof using Hg.
  intros Hw Hnew. pose proof (g_universe _ _ _ Hg) as Hu. pose proof (g_some _ _ _ Hg) as Hs.
  split; rewrite ?Hu, ?(g_smalltalk _ _ _ Hg); try (apply Hs, Hw); try (apply klass_is_mono, Hw).
  - intros o obj [Ho|Ho]%Hnew; [|done]. by apply shape_mono, (w_objects _ Hw o).
  - eapply Forall_impl; [apply (w_bytes _ Hw)|]. cbn. intros k. apply klass_is_mono.
  - destruct (w_double _ Hw) as [n ?]. exists n. by apply klass_is_mono.
  - destruct (w_method _ Hw) as [n ?]. exists n. by apply klass_is_mono.
Qed.
End mono.
Lemma globals_kept v v' G : extends v v' -> is_Some (object_at v (smalltalk v)) -> globals_ok v G -> globals_ok v' G.
Proof.
  intros Hg [obj Ho]. unfold globals_ok, as_array. rewrite (g_smalltalk _ _ _ Hg), Ho, (g_keep _ _ _ Hg _ _ Ho) by done.
  destruct obj; try done. intros (l & Ha & ->). exists l. split; [|done]. apply (array_kept v); [done|apply Hg|]. intros x n w Hx. rewrite Hx. by apply Hg.
Qed.

(** ** Steps *)
Definition not_klass (obj : object) : Prop := forall kl, obj <> OKlass kl.
(** A world of the same objects and one more. *)
Lemma added v v' obj : objects v' = objects v ++ [obj] -> universe v' = universe v -> smalltalk v' = smalltalk v -> eden_free v' = eden_free v -> not_klass obj ->
  extends v v' /\ (world_ok v -> shape_ok v obj -> world_ok v').
Proof.
  intros Ho Hu Hs He Hk. assert (extends v v') as Hg.
  { split; try done.
    - intros x y (n & -> & Hn)%object_oop_inv _. rewrite object_oop, Ho. by apply lookup_app_l_Some.
    - intros x y (n & -> & Hn)%object_oop_inv. rewrite object_oop, Ho. by apply lookup_app_l_Some.
    - intros x [y (n & -> & Hn)%object_oop_inv]. rewrite object_oop, Ho. exists y. by apply lookup_app_l_Some. }
  split; [done|]. intros Hw Hsh. apply (world_grows None v); [done..|].
  - intros x y (n & -> & Hn)%object_oop_inv. rewrite Ho in Hn. apply lookup_snoc_inv in Hn as [Hn|[-> ->]]; [left; by rewrite object_oop|right]. by apply (shape_mono None v).
Qed.
Lemma alloc_world v obj : world_ok v -> shape_ok v obj -> not_klass obj -> let '(o, v') := alloc obj v in
  object_at v o = None /\ object_at v' o = Some obj /\ extends v v' /\ world_ok v' /\ symbols v' = symbols v.
Proof.
  intros Hw Hs Hk. pose proof (alloc_ok obj v) as Ha. pose proof (alloc_objects obj v) as Hob. assert (eden_free (alloc obj v).2 = eden_free v) as Hed by done. destruct (alloc obj v) as [o v']. destruct Ha as (_ & Hn & Ho & Hsy & Hst & Hu & _).
  destruct (added v v' obj) as [Hg Hw']; try done. split_and!; auto.
Qed.
Lemma set_world v h obj obj' : world_ok v -> object_at v h = Some obj -> not_klass obj -> not_klass obj' -> shape_ok v obj' ->
  exists v', set_object h obj' v = Some v' /\ object_at v' h = Some obj' /\ grows (Some h) v v' /\ world_ok v' /\ symbols v' = symbols v.
Proof.
  intros Hw Ho Hk Hk' Hs. destruct (object_oop_inv _ _ _ Ho) as (n & -> & Hn). unfold set_object. rewrite index_oop. cbn [mbind option_bind]. eexists. split; [done|].
  set (v' := with_objects v _). assert (object_at v' (oop_at n) = Some obj') as Ho'. { rewrite object_oop. cbn. apply list_lookup_insert_eq. by eapply lookup_lt_Some. }
  assert (forall x, x <> oop_at n -> object_at v' x = object_at v x) as Hother.
  { intros x Hx. unfold object_at. destruct (index_of x) as [m|] eqn:E; [|done]. cbn. apply list_lookup_insert_ne. intros ->. apply Hx. by apply index_oop_inv. }
  assert (grows (Some (oop_at n)) v v') as Hg.
  { split; try done.
    - intros x y Hx Hne. rewrite Hother; [done|]. congruence.
    - intros x kl Hx. rewrite Hother; [done|]. intros ->. rewrite Ho in Hx. injection Hx as ->. by destruct (Hk kl).
    - intros x Hx. destruct (decide (x = oop_at n)) as [->|]; [by rewrite Ho'|]. by rewrite Hother. }
  split_and!; try done. apply (world_grows (Some (oop_at n)) v); [done..|].
  - intros x y Hx. destruct (decide (x = oop_at n)) as [->|]; [|left; by rewrite <- Hother]. right. rewrite Ho' in Hx. injection Hx as <-. by eapply shape_mono.
Qed.
Lemma symbol_mark_new b : symbol_mark b <> MARK_PRISTINE.
Proof.
  intros E. pose proof (symbol_hash b) as H. rewrite E in H. apply (f_equal (fun z => Z.testbit z 0)) in H. by rewrite Z.lor_spec, orb_true_r in H.
Qed.
(** Writing to an object that is no symbol. *)
Lemma symbols_set v v' h M : symbols_ok v M -> grows (Some h) v v' -> symbols v' = symbols v ->
  (forall k mk fs bs, object_at v h = Some (OBytes k mk fs bs) -> mk = MARK_PRISTINE) -> symbols_ok v' M.
Proof.
  intros [Ht Hc Hl Hs] Hg Hsy Hh. assert (forall b o, M !! b = Some o -> object_at v' o = Some (OBytes (symbol_klass (universe v)) (symbol_mark b) [] b)) as Hs'.
  { intros b o Hb. apply (g_keep _ _ _ Hg); [by apply Hs|]. intros [= ->]. apply Hs, Hh in Hb. by apply symbol_mark_new in Hb. }
  assert (forall b o, M !! b = Some o -> symbol_bytes v' o = Some b) as Hb'. { intros b o Hb. unfold symbol_bytes. by rewrite (Hs' _ _ Hb), (g_universe _ _ _ Hg), Z.eqb_refl. }
  split; rewrite ?Hsy; try done; [|by rewrite (g_universe _ _ _ Hg)]. split; try apply Ht.
  - intros i o Hi. destruct (t_in _ _ _ Ht _ _ Hi) as (b & _ & Hb). exists b. auto.
  - intros b o Hb. destruct (t_reach _ _ _ Ht _ _ Hb) as (_ & H). auto.
Qed.
Lemma symbols_extend v v' M : symbols_ok v M -> extends v v' -> symbols v' = symbols v -> symbols_ok v' M.
Proof. intros Hs Hg Hsy. apply (symbols_keep v); [done|apply Hg|done|]. intros x k mk fs b Hx. by apply Hg. Qed.
Lemma intern_world v M bytes : world_ok v -> symbols_ok v M -> zlen (buckets (symbols v)) < 2 ^ 60 -> zlen bytes < 2 ^ 60 -> M !! bytes <> None \/ has_room v bytes ->
  exists o v', intern bytes v = Some (Fits (o, v')) /\ symbols_ok v' (<[bytes := o]> M) /\ (M !! bytes = None -> object_at v o = None) /\
  (forall o', M !! bytes = Some o' -> o = o' /\ v' = v) /\ object_at v' o = Some (OBytes (symbol_klass (universe v)) (symbol_mark bytes) [] bytes) /\
  extends v v' /\ world_ok v' /\ (zlen (buckets (symbols v')) = zlen (buckets (symbols v)) \/ 3 * zlen (buckets (symbols v')) <= 8 * (Z.of_nat (size M) + 1)).
Proof.
  intros Hw Hs Hr Hb Hf. destruct (intern_ok v M bytes Hs Hr Hf) as (o & v' & E & Hed & Hs' & Hhit & Hnew & Ho & Hu & Hst & Hkeep & Hbu & Hob). exists o, v'.
  assert (extends v v' /\ world_ok v') as [Hg Hw'].
  { destruct Hob as [Hob|Hob].
    - assert (forall x, object_at v' x = object_at v x) as Hsame by (intros; unfold object_at; by rewrite Hob).
      assert (extends v v') as Hg by (split; try done; intros *; by rewrite Hsame). split; [done|]. apply (world_grows None v); try done; intros *; rewrite Hsame; auto.
    - edestruct (added v v') as [Hg Hw']; [exact Hob|done..|]. split; [done|]. apply Hw'; [done|]. cbn. split_and!; [|constructor|done]. apply known_bytes_is; [done|]. by left. }
  by split_and!.
Qed.
End WorldOk.
