(* ===== verification/SampleWorld.v ===== *)
(** A check that a world is well formed, and a small world that passes it: the
    well-known klasses, a class [Point] that the globals name, and a graph of
    objects with sharing and a cycle. *)
From S2P Require Import Prelude Oops Heap World WorldCorrect WorldOk.
From stdpp Require Import gmap.
#[local] Open Scope Z_scope.

Module SampleWorld.
Import World WorldCorrect WorldOk.
#[local] Existing Instance Heap.format_eq_dec.

(** ** The check *)
Definition klass_isb (v : vmstate) (k : Z) (f : Heap.Format) (n : Z) : bool :=
  match object_at v k with Some (OKlass kl) => bool_decide (k_format kl = f) && (k_non_indexable_size kl =? HEADER_WORDS + n) | _ => false end.
(** Of a format, whatever its size. *)
Definition format_isb (v : vmstate) (k : Z) (fs : list Heap.Format) : bool :=
  match object_at v k with Some (OKlass kl) => bool_decide (k_format kl ∈ fs) | _ => false end.
Definition is_object (v : vmstate) (o : Z) : bool := match object_at v o with Some _ => true | None => false end.
Definition validb (v : vmstate) (o : Z) : bool := (bool_decide (inU 64 o) && Oop.is_smi o) || is_object v o.
Definition shape_okb (v : vmstate) (obj : object) : bool :=
  match obj with
  | OBytes k _ fs bs => klass_isb v k Heap.IndexableBytes (zlen fs) && forallb (validb v) fs && (zlen bs <? 2 ^ 60)
  | OSlots k fs => klass_isb v k Heap.Slots (zlen fs) && forallb (validb v) fs
  | OOops k fs es => klass_isb v k Heap.IndexableOops (zlen fs) && forallb (validb v) fs && forallb (validb v) es && (zlen es <? 2 ^ 60)
  | ODouble _ | OMethod _ => true
  | OKlass kl => (HEADER_WORDS <=? k_non_indexable_size kl) && (k_non_indexable_size kl <? 2 ^ 60) && format_isb v (k_meta kl) [Heap.Klass]
  | OOther k => format_isb v k [Heap.Closure; Heap.Context; Heap.Process] || format_isb v k [Heap.Double] && negb (k =? double_klass (universe v))
  end.
Definition world_okb (v : vmstate) : bool :=
  let u := universe v in
  forallb (shape_okb v) (objects v) && forallb (is_object v) [nil_obj u; false_obj u; true_obj u; smalltalk v] &&
  forallb (fun k => klass_isb v k Heap.IndexableBytes 0) (known_bytes u) && klass_isb v (array_klass u) Heap.IndexableOops 0 && klass_isb v (character_klass u) Heap.Slots 1 &&
  format_isb v (double_klass u) [Heap.Double] && format_isb v (method_klass u) [Heap.Method].

Lemma klass_isb_ok v k f n : klass_isb v k f n = true -> klass_is v k f n.
Proof.
  unfold klass_isb, klass_is. destruct (object_at v k) as [[]|]; try done. intros [H1%bool_decide_eq_true H2%Z.eqb_eq]%andb_true_iff. eauto.
Qed.
Lemma format_isb_ok v k fs : format_isb v k fs = true -> exists f n, klass_is v k f n /\ f ∈ fs.
Proof.
  unfold format_isb, klass_is. destruct (object_at v k) as [[| | | |kl| |]|]; try done. intros H%bool_decide_eq_true. exists (k_format kl), (k_non_indexable_size kl - HEADER_WORDS). split; [|done]. exists kl. split_and!; [done..|lia].
Qed.
Lemma is_object_ok v o : is_object v o = true -> is_Some (object_at v o).
Proof. unfold is_object. destruct (object_at v o); [by eexists|done]. Qed.
Lemma validb_ok v o : validb v o = true -> valid v o.
Proof. unfold validb. intros [[H%bool_decide_eq_true ?]%andb_true_iff|H%is_object_ok]%orb_true_iff; [by left|by right]. Qed.
Lemma validsb_ok v l : forallb (validb v) l = true -> Forall (valid v) l.
Proof. rewrite forallb_forall, Forall_forall. intros H x Hx%list_elem_of_In. by apply validb_ok, H. Qed.
Lemma shape_okb_ok v obj : shape_okb v obj = true -> shape_ok v obj.
Proof.
  destruct obj as [k mk fs bs|b|k fs|k fs es|kl|m|k]; cbn; try done; rewrite ?andb_true_iff.
  - intros [[?%klass_isb_ok ?%validsb_ok] ?%Z.ltb_lt]. done.
  - intros [?%klass_isb_ok ?%validsb_ok]. done.
  - intros [[[?%klass_isb_ok ?%validsb_ok] ?%validsb_ok] ?%Z.ltb_lt]. done.
  - intros [[?%Z.leb_le ?%Z.ltb_lt] (f & n & Hk & ->%list_elem_of_singleton)%format_isb_ok]. split; [done|by exists n].
  - intros [(f & n & Hk & Hin)%format_isb_ok|[(f & n & Hk & Hin)%format_isb_ok Hne%negb_true_iff%Z.eqb_neq]%andb_true_iff]%orb_true_iff; exists f, n; (split; [done|]).
    + by repeat (apply elem_of_cons in Hin as [->|Hin]; [auto|]); apply not_elem_of_nil in Hin.
    + apply list_elem_of_singleton in Hin as ->. auto 6.
Qed.
Lemma world_okb_ok v : world_okb v = true -> world_ok v.
Proof.
  unfold world_okb. cbv zeta. rewrite !andb_true_iff, !forallb_forall. intros [[[[[[Hs Ho] Hb] Ha%klass_isb_ok] Hc%klass_isb_ok] (f & n & Hd & ->%list_elem_of_singleton)%format_isb_ok] (f' & n' & Hm & ->%list_elem_of_singleton)%format_isb_ok].
  split; try (by apply is_object_ok, Ho; cbn; auto 6); try done.
  - intros o obj (i & -> & Hi)%object_oop_inv. apply shape_okb_ok, Hs. apply list_elem_of_In. by eapply list_elem_of_lookup_2.
  - apply Forall_forall. intros k Hk%list_elem_of_In. by apply klass_isb_ok, Hb.
  - by exists n. - by exists n'.
Qed.

(** ** The world *)
Definition at_ (n : nat) : Z := oop_at n.
Definition klass_ (f : Heap.Format) (nslots name : Z) : object := OKlass (MkKlass (at_ 3) f (HEADER_WORDS + nslots) (at_ 0) name (at_ 0) (at_ 0)).
Definition point : list Z := [0x50; 0x6f; 0x69; 0x6e; 0x74].
Definition base : list object :=
  [OSlots (at_ 4) []; OSlots (at_ 4) []; OSlots (at_ 4) []; klass_ Heap.Klass 8 (at_ 0); klass_ Heap.Slots 0 (at_ 0);
   klass_ Heap.IndexableBytes 0 (at_ 0); klass_ Heap.IndexableBytes 0 (at_ 0); klass_ Heap.IndexableBytes 0 (at_ 0); klass_ Heap.IndexableBytes 0 (at_ 0); klass_ Heap.IndexableBytes 0 (at_ 0); klass_ Heap.IndexableBytes 0 (at_ 0);
   klass_ Heap.IndexableOops 0 (at_ 0); klass_ Heap.Slots 1 (at_ 0); klass_ Heap.Double 1 (at_ 0); klass_ Heap.Method 7 (at_ 0); klass_ Heap.Slots 2 (at_ 0); klass_ Heap.IndexableOops 0 (at_ 0);
   klass_ Heap.IndexableBytes 2 (at_ 0); klass_ Heap.IndexableBytes 0 (at_ 0); OBytes (at_ 5) (symbol_mark point) [] point; klass_ Heap.Slots 2 (at_ 19);
   OSlots (at_ 15) [at_ 19; at_ 20]; OOops (at_ 16) [] (4 :: at_ 21 :: replicate 15 (at_ 0)); klass_ Heap.Double 2 (at_ 0)].
(** A point that holds an array and itself, the array the point twice and one
    thing of every kind; and apart from them a vector of two doubles. *)
Definition graph : list object :=
  [OSlots (at_ 20) [at_ 25; at_ 24]; OOops (at_ 11) [] [at_ 24; at_ 24; 4 * 7; at_ 26; at_ 27; at_ 28; at_ 19; at_ 0; at_ 1]; ODouble 0x400921FB54442D18; OSlots (at_ 12) [4 * 65]; OBytes (at_ 6) MARK_PRISTINE [] [104; 105]; OOther (at_ 23)].
Definition the_universe : Universe :=
  MkUniverse (at_ 0) (at_ 1) (at_ 2) (at_ 11) (at_ 7) (at_ 6) (at_ 5) (at_ 12) (at_ 9) (at_ 10) (at_ 15) (at_ 16) (at_ 13) (at_ 8) (at_ 14) (at_ 17) (at_ 18).
Definition the_symbols : SymbolTable := default (with_capacity 16) (insert (with_capacity 16) (content_hash point) (at_ 19)).
(** The eden has 1000 words free whenever a symbol is made. *)
Definition eden (n : nat) : Z := 1000.
Definition receiver : vmstate := MkVm base the_universe the_symbols (at_ 22) eden.
Definition sender : vmstate := MkVm (base ++ graph) the_universe the_symbols (at_ 22) eden.
Definition the_names : gmap (list Z) Z := {[point := at_ 19]}.
Definition the_globals : gmap Z Z := {[at_ 19 := at_ 21]}.

Lemma receiver_ok : world_ok receiver.
Proof. apply world_okb_ok. by vm_compute. Qed.
Lemma sender_ok : world_ok sender.
Proof. apply world_okb_ok. by vm_compute. Qed.
Lemma receiver_symbols : symbols_ok receiver the_names.
Proof.
  assert (exists k, 1 <= k /\ 16 = 2 ^ k) as Hk by (by exists 4).
  destruct (symbol_insert_ok (symbol_bytes receiver) (with_capacity 16) ∅ point (at_ 19)) as (t & E & Ht & Hl & Hc); [by apply empty_ok|by vm_compute|done|by vm_compute|].
  assert (t = the_symbols) as ->. { unfold the_symbols. by rewrite E. } rewrite insert_empty in Ht. split; [exact Ht|by vm_compute|by vm_compute|].
  unfold the_names. intros b o [<- <-]%lookup_singleton_Some. by vm_compute.
Qed.
Lemma receiver_globals : globals_ok receiver the_globals.
Proof.
  exists [(at_ 19, at_ 21)]. split; [|by vm_compute]. split; [by exists 4, (replicate 15 (at_ 0))|by apply NoDup_singleton|apply Forall_singleton; by exists (at_ 20)|by vm_compute].
Qed.
End SampleWorld.
