(* ===== verification/Pickle.v ===== *)
(** The object pickle ([src/src/runtime/mop.rs]): one object graph as bytes,
    and back in another virtual machine.

    [depth_left] counts the nesting that is left of [MAX_DEPTH]; the code
    counts up and compares.  A cursor is the bytes it has not read.  A handle
    is the oop, since objects do not move here.  [Panic] is a panic, [Exit] the
    end of the process.  An error keeps the state it leaves, as the code leaves
    what it has interned and allocated.  [at_put] and [set_body_oop] fill new
    objects without a write barrier in the code; where a collection has tenured
    the object in the meantime that is a bug of the code, which [World], having
    no collectors, does not show. *)
From Stdlib Require Import String.
From S2P Require Import Prelude Oops Packed Bytecode Builder Heap World.
From stdpp Require Import gmap.
#[local] Set Warnings "-register-all".
#[local] Open Scope string_scope.
#[local] Open Scope Z_scope.
#[local] Open Scope list_scope.

Module Pickle.
Import World.

(** ** Results *)
Inductive outcome (S E A : Type) := Ok (x : A) (s : S) | Err (e : E) (s : S) | Panic | Exit (code : Z).
#[global] Arguments Ok {_ _ _} _ _.
#[global] Arguments Err {_ _ _} _ _.
#[global] Arguments Panic {_ _ _}.
#[global] Arguments Exit {_ _ _} _.
Definition M (S E A : Type) : Type := S -> outcome S E A.

Section monad.
Context {S E : Type}.
Definition ret {A} (x : A) : M S E A := fun s => Ok x s.
Definition fail {A} (e : E) : M S E A := fun s => Err e s.
Definition panic {A} : M S E A := fun _ => Panic.
Definition bind {A B} (c : M S E A) (k : A -> M S E B) : M S E B :=
  fun s => match c s with Ok x s => k x s | Err e s => Err e s | Panic => Panic | Exit code => Exit code end.
(** An expectation. *)
Definition lift {A} (x : option A) : M S E A := fun s => match x with Some x => Ok x s | None => Panic end.
(** [for i in i..i + n]. *)
Fixpoint for_range (n : nat) (i : Z) (f : Z -> M S E ()) : M S E () :=
  match n with O => ret () | Datatypes.S n => bind (f i) (fun _ => for_range n (i + 1) f) end.
End monad.

Declare Scope pickle_scope.
Notation "'let!' x := c 'in' k" := (bind c (fun x => k)) (at level 10, x pattern, k at level 200) : pickle_scope.
Notation "c ;; k" := (bind c (fun _ => k)) (at level 100, right associativity) : pickle_scope.
#[local] Open Scope pickle_scope.

(** ** Format *)
Definition MAGIC : list Z := [0x4D; 0x4F; 0x50; 1].
Definition MAX_BYTES : Z := Z.shiftl 64 20.
Definition MAX_OBJECTS : Z := 1000000.
Definition MAX_DEPTH : Z := 1000.
Definition TAG_NIL : Z := 0.
Definition TAG_FALSE : Z := 1.
Definition TAG_TRUE : Z := 2.
Definition TAG_SMI : Z := 3.
Definition TAG_DOUBLE : Z := 4.
Definition TAG_CHAR : Z := 5.
Definition TAG_SYMBOL : Z := 6.
Definition TAG_STRING : Z := 7.
Definition TAG_BYTE_ARRAY : Z := 8.
Definition TAG_FLOAT_ARRAY : Z := 9.
Definition TAG_ARRAY : Z := 10.
Definition TAG_OBJECT : Z := 11.
Definition TAG_BACKREF : Z := 12.
Definition TAG_LARGE_INT : Z := 13.
Definition SUBKIND_SLOTS : Z := 0.
Definition SUBKIND_OOPS : Z := 1.
Definition SUBKIND_BYTES : Z := 2.

Inductive PickleErr := Unpicklable (what : string) | TooDeep | TooBig | TooManyObjects.
(** The names of classes in errors are their bytes; the code shows them as text. *)
Inductive UnpickleErr :=
  | BadMagic | BadTag (tag : Z) | Truncated | Malformed (what : string) | UnknownClass (name : list Z) | NotAClass (name : list Z)
  | ShapeMismatch (name : list Z) | UTooDeep | UTooManyObjects | BadBackRef.

(** ** Integers *)
(** A 64-bit value has at most ten groups of seven bits. *)
Fixpoint write_varint_from (groups : nat) (v : Z) : list Z :=
  match groups with
  | O => []
  | S groups => let byte := u8 (Z.land v 0x7f) in let v := Z.shiftr v 7 in if v =? 0 then [byte] else Z.lor byte 0x80 :: write_varint_from groups v
  end.
Definition varint_of (v : Z) : list Z := write_varint_from 10 v.
Definition zigzag (v : Z) : Z := u64 (Z.lxor (i64 (Z.shiftl v 1)) (Z.shiftr v 63)).
Definition unzigzag (u : Z) : Z := Z.lxor (i64 (Z.shiftr u 1)) (- i64 (Z.land u 1)).
Definition to_le_bytes (bits : Z) : list Z := (fun i => u8 (Z.shiftr bits (8 * i))) <$> seqZ 0 8.
Definition from_le_bytes (bytes : list Z) : Z := foldr (fun b acc => Z.lor b (Z.shiftl acc 8)) 0 bytes.

(** ** Pickling *)
Record pst := MkPst { out : list Z; seen : gmap Z Z }.
Definition P := M pst PickleErr.
Definition emit (bytes : list Z) : P () := fun s => Ok () (MkPst (out s ++ bytes) (seen s)).
Definition write_varint (v : Z) : P () := emit (varint_of v).
Definition get_out : P (list Z) := fun s => Ok (out s) s.
Definition get_seen : P (gmap Z Z) := fun s => Ok (seen s) s.
Definition see (o : Z) : P () := fun s => Ok () (MkPst (out s) (<[o := u32 (Z.of_nat (size (seen s)))]> (seen s))).

Section pickle.
Context (vm : vmstate) (max_bytes max_objects : Z).
Definition read_bytes_out (o : Z) : option (list Z) := match object_at vm o with Some (OBytes _ _ _ bs) => Some bs | _ => None end.
Definition double_bits (o : Z) : option Z := match object_at vm o with Some (ODouble b) => Some b | _ => None end.

Definition pk_bytes (tag : list Z) (o : Z) : P () :=
  let! bytes := lift (read_bytes_out o) in emit tag ;; write_varint (zlen bytes) ;; emit bytes.
Definition pk_floats (o : Z) : P () :=
  let! bytes := lift (read_bytes_out o) in
  if negb (zlen bytes mod 8 =? 0) then fail (Unpicklable "ragged FloatArray")
  else emit [TAG_FLOAT_ARRAY] ;; write_varint (zlen bytes / 8) ;; emit bytes.
Definition subkind_of (f : Heap.Format) : P Z :=
  match f with
  | Heap.Slots => ret SUBKIND_SLOTS
  | Heap.IndexableOops => ret SUBKIND_OOPS
  | Heap.IndexableBytes => ret SUBKIND_BYTES
  | Heap.Method => fail (Unpicklable "CompiledMethod")
  | Heap.Klass => fail (Unpicklable "a class")
  | Heap.Closure => fail (Unpicklable "BlockClosure")
  | Heap.Context => fail (Unpicklable "Context")
  | Heap.Process => fail (Unpicklable "Process")
  | Heap.Double => panic
  end.
Definition check_bytes : P () := let! out := get_out in if max_bytes <? zlen out then fail TooBig else ret ().

Section body.
Context (pk : Z -> P ()).
Definition pk_elems (es : list Z) : P () := for_range (length es) 0 (fun i => let! x := lift (zlookup es i) in pk x).
Definition pk_array (o : Z) : P () :=
  let! es := lift (as_array vm o) in emit [TAG_ARRAY] ;; write_varint (zlen es) ;; pk_elems es.
(** An ordinary object of a class with a name. *)
Definition pk_object (o k : Z) (kl : klass) : P () :=
  if k =? alien_klass (universe vm) then fail (Unpicklable "Alien (raw pointer)") else
  if k =? objcref_klass (universe vm) then fail (Unpicklable "ObjcRef (a retained Cocoa reference)") else
  let! subkind := subkind_of (k_format kl) in
  match read_bytes_out (k_name kl) with
  | None => fail (Unpicklable "instance of an anonymous class")
  | Some name_bytes =>
      let nslots := k_non_indexable_size kl - HEADER_WORDS in
      if nslots <? 0 then panic else
      emit [TAG_OBJECT] ;; write_varint (zlen name_bytes) ;; emit name_bytes ;; write_varint nslots ;; emit [subkind] ;;
      (if subkind =? SUBKIND_SLOTS then ret ()
       else if subkind =? SUBKIND_OOPS then let! es := lift (as_array vm o) in write_varint (zlen es)
       else let! b := lift (read_bytes_out o) in write_varint (zlen b)) ;;
      for_range (Z.to_nat nslots) 0 (fun i => let! x := lift (body_oop vm o i) in pk x) ;;
      (if subkind =? SUBKIND_OOPS then let! es := lift (as_array vm o) in pk_elems es
       else if subkind =? SUBKIND_BYTES then let! b := lift (read_bytes_out o) in emit b
       else ret ()) ;;
      check_bytes
  end.
(** An object with an identity, seen for the first time. *)
Definition pk_heap (o k : Z) (kl : klass) : P () :=
  let u := universe vm in
  if k =? symbol_klass u then pk_bytes [TAG_SYMBOL] o
  else if k =? string_klass u then pk_bytes [TAG_STRING] o
  else if k =? bytearray_klass u then pk_bytes [TAG_BYTE_ARRAY] o
  else if k =? float_array_klass u then pk_floats o
  else if (k =? large_pos_int_klass u) || (k =? large_neg_int_klass u) then
    pk_bytes [TAG_LARGE_INT; if k =? large_neg_int_klass u then 1 else 0] o
  else if k =? array_klass u then pk_array o
  else pk_object o k kl.
End body.

Fixpoint pk (depth_left : nat) (o : Z) : P () :=
  match depth_left with
  | O => fail TooDeep
  | S depth_left =>
      check_bytes ;;
      let u := universe vm in
      if o =? nil_obj u then emit [TAG_NIL]
      else if o =? false_obj u then emit [TAG_FALSE]
      else if o =? true_obj u then emit [TAG_TRUE]
      else
        match SmallInt.try_from o with
        | Some smi => emit [TAG_SMI] ;; write_varint (zigzag (SmallInt.value smi))
        | None =>
            if negb (Oop.is_mem o) then fail (Unpicklable "not a pickleable oop kind") else
            let! k := lift (klass_of vm o) in
            let! kl := lift (as_klass vm k) in
            if k =? double_klass u then let! bits := lift (double_bits o) in emit [TAG_DOUBLE] ;; emit (to_le_bytes bits)
            else if k =? character_klass u then
              let! w := lift (body_oop vm o 0) in
              match SmallInt.try_from w with
              | None => fail (Unpicklable "Character with a non-smi code")
              | Some code => emit [TAG_CHAR] ;; write_varint (u64 (SmallInt.value code))
              end
            else
              let! seen := get_seen in
              match seen !! o with
              | Some idx => emit [TAG_BACKREF] ;; write_varint idx
              | None =>
                  if max_objects <=? Z.of_nat (size seen) then fail TooManyObjects
                  else see o ;; pk_heap (pk depth_left) o k kl
              end
        end
  end.
End pickle.

Definition pickle_with_limits (vm : vmstate) (root max_bytes max_objects : Z) : outcome () PickleErr (list Z) :=
  match pk vm max_bytes max_objects (Z.to_nat MAX_DEPTH) root (MkPst MAGIC ∅) with Ok _ s => Ok (out s) () | Err e _ => Err e () | Panic => Panic | Exit code => Exit code end.
Definition pickle (vm : vmstate) (root : Z) : outcome () PickleErr (list Z) := pickle_with_limits vm root MAX_BYTES MAX_OBJECTS.

(** ** Unpickling *)
Record ust := MkUst { cur : list Z; uvm : vmstate; table : list Z }.
Definition U := M ust UnpickleErr.
Definition get_vm : U vmstate := fun s => Ok (uvm s) s.
Definition get_table : U (list Z) := fun s => Ok (table s) s.
Definition remaining : U Z := fun s => Ok (zlen (cur s)) s.
Definition push_handle (o : Z) : U () := fun s => Ok () (MkUst (cur s) (uvm s) (table s ++ [o])).
(** A step of the virtual machine. *)
Definition run {A} (f : vmstate -> A * vmstate) : U A := fun s => let '(x, vm) := f (uvm s) in Ok x (MkUst (cur s) vm (table s)).
Definition try_run {A} (f : vmstate -> option (A * vmstate)) : U A :=
  fun s => match f (uvm s) with Some (x, vm) => Ok x (MkUst (cur s) vm (table s)) | None => Panic end.
(** A raw allocation. *)
Definition run_raw {A} (f : vmstate -> option (raw (A * vmstate))) : U A :=
  fun s => match f (uvm s) with Some (Fits (x, vm)) => Ok x (MkUst (cur s) vm (table s)) | Some (Exits code) => Exit code | None => Panic end.
Definition update (f : vmstate -> option vmstate) : U () := try_run (fun vm => vm ← f vm; Some ((), vm)).

Definition cur_u8 : U Z := fun s => match cur s with b :: bs => Ok b (MkUst bs (uvm s) (table s)) | [] => Err Truncated s end.
Definition exact (n : Z) : U (list Z) :=
  fun s => if zlen (cur s) <? n then Err Truncated s else Ok (take (Z.to_nat n) (cur s)) (MkUst (drop (Z.to_nat n) (cur s)) (uvm s) (table s)).
Fixpoint varint_from (n : nat) (shift v : Z) : U Z :=
  match n with
  | O => fail (Malformed "varint too long")
  | S n =>
      let! byte := cur_u8 in
      let v := Z.lor v (u64 (Z.shiftl (Z.land byte 0x7f) (7 * shift))) in
      if Z.land byte 0x80 =? 0 then ret v else varint_from n (shift + 1) v
  end.
Definition varint : U Z := varint_from 10 0 0.
Definition len_capped (min_bytes_per : Z) : U Z :=
  let! n := varint in
  let! remaining := remaining in
  let need := n * Z.max min_bytes_per 1 in
  if (2 ^ 64 <=? need) || (remaining <? need) then fail Truncated else ret n.

Definition up_smi : U Z :=
  let! u := varint in
  let v := unzigzag u in
  if negb ((SMI_MIN <=? v) && (v <=? SMI_MAX)) then fail (Malformed "SmallInteger out of range") else lift (SmallInt.new v).
Definition up_double : U Z := let! raw := exact 8 in run (alloc_double (from_le_bytes raw)).
(** [alloc_slots] fills a new object with nil. *)
Definition nil_slots (k : Z) (vm : vmstate) : option (Z * vmstate) :=
  kl ← as_klass vm k; Some (alloc_slots k (replicate (Z.to_nat (k_non_indexable_size kl - HEADER_WORDS)) (nil_obj (universe vm))) vm).
Definition up_char : U Z :=
  let! code := varint in
  if SMI_MAX <? code then fail (Malformed "Character code out of range") else
  let! vm := get_vm in
  let! obj := try_run (nil_slots (character_klass (universe vm))) in
  let! w := lift (SmallInt.new code) in
  update (set_body_oop obj 0 w) ;; ret obj.
Definition up_symbol : U Z :=
  let! n := len_capped 1 in let! bytes := exact n in let! sym := run_raw (intern bytes) in push_handle sym ;; ret sym.
Definition up_bytes (klass_of : Universe -> Z) : U Z :=
  let! n := len_capped 1 in
  let! bytes := exact n in
  let! vm := get_vm in
  let! b := run (alloc_indexable_bytes (klass_of (universe vm)) bytes) in push_handle b ;; ret b.
Definition up_floats : U Z :=
  let! lanes := len_capped 8 in
  let! bytes := exact (lanes * 8) in
  let! vm := get_vm in
  let! b := run (alloc_indexable_bytes (float_array_klass (universe vm)) bytes) in push_handle b ;; ret b.
Definition up_large : U Z :=
  let! neg := cur_u8 in
  if 1 <? neg then fail (Malformed "LargeInteger sign byte") else
  up_bytes (if neg =? 1 then large_neg_int_klass else large_pos_int_klass).
Definition up_backref : U Z :=
  let! idx := varint in
  let! table := get_table in
  match zlookup table idx with Some h => ret h | None => fail BadBackRef end.
(** Every byte of a new object of bytes. *)
Definition put_bytes (o : Z) (bytes : list Z) (vm : vmstate) : option vmstate :=
  match object_at vm o with
  | Some (OBytes k mark fs bs) => if zlen bs <? zlen bytes then None else set_object o (OBytes k mark fs (bytes ++ drop (length bytes) bs)) vm
  | _ => None
  end.
Definition format_ok (subkind : Z) (f : Heap.Format) : bool :=
  match f with
  | Heap.Slots => subkind =? SUBKIND_SLOTS
  | Heap.IndexableOops => subkind =? SUBKIND_OOPS
  | Heap.IndexableBytes => subkind =? SUBKIND_BYTES
  | _ => false
  end.
(** The class a name has in this world, with its shape checked. *)
Definition resolve_class (name : list Z) (nslots subkind : Z) : U Z :=
  let! sym := run_raw (intern name) in
  let! vm := get_vm in
  let! found := lift (global_lookup vm sym) in
  match found with
  | None => fail (UnknownClass name)
  | Some assoc =>
      if negb (Oop.is_mem assoc) then fail (NotAClass name) else
      let! k := lift (body_oop vm assoc 1) in
      match as_klass vm k with
      | None => fail (NotAClass name)
      | Some kls =>
          let size := k_non_indexable_size kls - HEADER_WORDS in
          if size <? 0 then panic
          else if negb (size =? nslots) then fail (ShapeMismatch name)
          else if negb (format_ok subkind (k_format kls)) then fail (ShapeMismatch name)
          else ret k
      end
  end.
(** A new object of that class: nil in every variable and element; zero in the variables of an object of bytes, and its bytes. *)
Definition alloc_spine (k nslots subkind idx_n : Z) (vm : vmstate) : Z * vmstate :=
  let nil := nil_obj (universe vm) in
  let slots x := replicate (Z.to_nat nslots) x in
  if subkind =? SUBKIND_SLOTS then alloc_slots k (slots nil) vm
  else if subkind =? SUBKIND_OOPS then alloc (OOops k (slots nil) (replicate (Z.to_nat idx_n) nil)) vm
  else alloc (OBytes k MARK_PRISTINE (slots 0) (replicate (Z.to_nat idx_n) 0)) vm.

Section body.
Context (up : U Z).
Definition up_array : U Z :=
  let! n := len_capped 1 in
  let! vm := get_vm in
  let! h := run (alloc_indexable_oops (array_klass (universe vm)) n) in
  push_handle h ;;
  for_range (Z.to_nat n) 0 (fun i => let! child := up in update (at_put h i child)) ;;
  ret h.
(** The object first, so that what it holds can refer to it. *)
Definition up_new_object (k nslots subkind idx_n : Z) : U Z :=
  let! h := run (alloc_spine k nslots subkind idx_n) in
  push_handle h ;;
  for_range (Z.to_nat nslots) 0 (fun i => let! child := up in update (set_body_oop h i child)) ;;
  (if subkind =? SUBKIND_OOPS then for_range (Z.to_nat idx_n) 0 (fun i => let! child := up in update (at_put h i child))
   else if subkind =? SUBKIND_BYTES then let! bytes := exact idx_n in update (put_bytes h bytes)
   else ret ()) ;;
  ret h.
Definition up_object : U Z :=
  let! name_len := len_capped 1 in
  let! name := exact name_len in
  let! nslots := varint in
  let! subkind := cur_u8 in
  let! idx_n := (if subkind =? SUBKIND_SLOTS then ret 0
                 else if (subkind =? SUBKIND_OOPS) || (subkind =? SUBKIND_BYTES) then len_capped 1
                 else fail (Malformed "bad object subkind")) in
  let! k := resolve_class name nslots subkind in
  let! avail := remaining in
  if (2 ^ 64 <=? nslots + idx_n) || (avail + idx_n <? nslots + idx_n) then fail Truncated else
  up_new_object k nslots subkind idx_n.
End body.

Fixpoint up (depth_left : nat) : U Z :=
  match depth_left with
  | O => fail UTooDeep
  | S depth_left =>
      let! table := get_table in
      if MAX_OBJECTS <=? zlen table then fail UTooManyObjects else
      let! tag := cur_u8 in
      let! vm := get_vm in
      if tag =? TAG_NIL then ret (nil_obj (universe vm))
      else if tag =? TAG_FALSE then ret (false_obj (universe vm))
      else if tag =? TAG_TRUE then ret (true_obj (universe vm))
      else if tag =? TAG_SMI then up_smi
      else if tag =? TAG_DOUBLE then up_double
      else if tag =? TAG_CHAR then up_char
      else if tag =? TAG_SYMBOL then up_symbol
      else if tag =? TAG_STRING then up_bytes string_klass
      else if tag =? TAG_BYTE_ARRAY then up_bytes bytearray_klass
      else if tag =? TAG_FLOAT_ARRAY then up_floats
      else if tag =? TAG_LARGE_INT then up_large
      else if tag =? TAG_ARRAY then up_array (up depth_left)
      else if tag =? TAG_BACKREF then up_backref
      else if tag =? TAG_OBJECT then up_object (up depth_left)
      else fail (BadTag tag)
  end.

Definition unpickle (bytes : list Z) (vm : vmstate) : outcome vmstate UnpickleErr Z :=
  if (zlen bytes <? zlen MAGIC) || negb (bool_decide (take (length MAGIC) bytes = MAGIC)) then Err BadMagic vm
  else
    match up (Z.to_nat MAX_DEPTH) (MkUst (drop (length MAGIC) bytes) vm []) with
    | Ok o s => Ok o (uvm s) | Err e s => Err e (uvm s) | Panic => Panic | Exit code => Exit code
    end.

(** ** The messages the registry of workers makes *)
Definition chars_of (s : string) : list Z := (fun c => Z.of_N (Ascii.N_of_ascii c)) <$> list_ascii_of_string s.
Definition encode_worker_died (id : Z) : list Z :=
  let name := chars_of "workerDied" in
  MAGIC ++ [TAG_ARRAY] ++ varint_of 2 ++ [TAG_SYMBOL] ++ varint_of (zlen name) ++ name ++ [TAG_SMI] ++ varint_of (zigzag id).
Definition encode_worker_transcript (id : Z) (text : list Z) : list Z :=
  let name := chars_of "workerTranscript" in
  MAGIC ++ [TAG_ARRAY] ++ varint_of 3 ++ [TAG_SYMBOL] ++ varint_of (zlen name) ++ name ++ [TAG_SMI] ++ varint_of (zigzag id) ++
  [TAG_STRING] ++ varint_of (zlen text) ++ text.
End Pickle.
