(* ===== verification/PickleSafe.v ===== *)
(** Unpickling is safe: whatever the bytes, it answers an object or an error,
    leaves every object that was there as it was, and a well-formed world; or
    the process exits because a symbol of the bytes does not fit into the eden. *)
From S2P Require Import Prelude Oops Heap World WorldCorrect WorldOk SampleWorld Pickle.
From stdpp Require Import gmap.
#[local] Open Scope Z_scope.
#[local] Open Scope pickle_scope.

Module PickleSafe.
Import World WorldCorrect WorldOk Pickle.

Section input.
(** The length of the input. *)
Context (input : Z).
(** ** A logic for the reader *)
(** A computation that may end the process does so at a state on its way,
    because the eden has no room for a symbol that is not longer than the input. *)
Definition exits (R : ust -> ust -> Prop) (u : ust) (code : Z) : Prop :=
  code = 70 /\ exists u' bytes, R u u' /\ zlen bytes <= input /\ ~ has_room (uvm u') bytes.
Definition spec {A} (R : ust -> ust -> Prop) (c : U A) (u : ust) (Q : A -> ust -> Prop) : Prop :=
  match c u with Ok x u' => R u u' /\ Q x u' | Err _ u' => R u u' | Panic => False | Exit code => exits R u code end.
Lemma exits_later (R : ust -> ust -> Prop) `{!Transitive R} u u' code : R u u' -> exits R u' code -> exits R u code.
Proof using Type. intros Hu (-> & u2 & bytes & H & Hb). split; [done|]. exists u2, bytes. split; [by etransitivity|done]. Qed.
Lemma spec_bind {A B} R `{!Transitive R} (c : U A) (k : A -> U B) u Q :
  spec R c u (fun x u' => spec R (k x) u' Q) -> spec R (bind c k) u Q.
Proof.
  unfold spec, bind. destruct (c u) as [x u'|e u'| |code]; [|done..]. intros [H1 H2]. destruct (k x u') as [y u''|e u''| |code]; [|by etransitivity|done|by eapply exits_later].
  destruct H2 as [H2 ?]. split; [by etransitivity|done].
Qed.
Lemma spec_bind_ok {A B} R `{!Transitive R} (c : U A) (k : A -> U B) u x u' Q : c u = Ok x u' -> R u u' -> spec R (k x) u' Q -> spec R (bind c k) u Q.
Proof. intros E H1 H2. apply spec_bind; [done|]. unfold spec at 1. by rewrite E. Qed.
Lemma spec_mono {A} R (c : U A) u Q Q' : spec R c u Q -> (forall x u', R u u' -> Q x u' -> Q' x u') -> spec R c u Q'.
Proof. unfold spec. destruct (c u) as [x u'|e u'| |code]; [intros [? ?]; split; auto|done..]. Qed.
Lemma spec_ret {A} (R : ust -> ust -> Prop) (x : A) u (Q : A -> ust -> Prop) : R u u -> Q x u -> spec R (ret x) u Q.
Proof. done. Qed.
Lemma spec_fail {A} (R : ust -> ust -> Prop) e u (Q : A -> ust -> Prop) : R u u -> spec R (fail e) u Q.
Proof. done. Qed.
(** A computation that succeeds. *)
Definition did {A} (R : ust -> ust -> Prop) (c : U A) (u : ust) (Q : A -> ust -> Prop) : Prop := exists x u', c u = Ok x u' /\ R u u' /\ Q x u'.
Lemma did_spec {A} R (c : U A) u Q : did R c u Q -> spec R c u Q.
Proof. intros (x & u' & E & H). unfold spec. by rewrite E. Qed.
Lemma spec_range R `{!Transitive R} (I : ust -> Prop) (f : Z -> U ()) (Hrefl : forall u, I u -> R u u) n : forall i u,
  (forall j u, i <= j < i + Z.of_nat n -> I u -> spec R (f j) u (fun _ => I)) -> I u -> spec R (for_range n i f) u (fun _ => I).
Proof.
  induction n as [|n IH]; intros i u Hf Hi; cbn [for_range]; [apply spec_ret; [by apply Hrefl|done]|].
  apply spec_bind; [done|]. eapply spec_mono; [apply Hf; [lia|done]|]. cbv beta. intros _ u' _ Hu'. apply IH; [|done]. intros j w Hj. apply Hf. lia.
Qed.

(** ** Reading *)
Definition reads (u u' : ust) : Prop := uvm u' = uvm u /\ table u' = table u /\ zlen (cur u') <= zlen (cur u).
#[local] Instance reads_trans : Transitive reads.
Proof. intros u1 u2 u3 (? & ? & ?) (? & ? & ?). split_and!; [congruence..|lia]. Qed.
#[local] Instance reads_refl : Reflexive reads.
Proof. by intros u. Qed.
Lemma read_u8 u : spec reads cur_u8 u (fun _ u' => zlen (cur u') + 1 = zlen (cur u)).
Proof. unfold spec, cur_u8. destruct (cur u) as [|b bs] eqn:E; [done|]. unfold reads. cbn. rewrite E, zlen_cons. split_and!; try done; lia. Qed.
Lemma read_varint u : spec reads varint u (fun v _ => 0 <= v).
Proof.
  unfold varint. assert (forall n s v u, 0 <= v -> spec reads (varint_from n s v) u (fun v _ => 0 <= v)) as H; [|by apply H]. clear u.
  induction n as [|n IH]; intros s v u Hv; cbn [varint_from]; [done|]. apply spec_bind; [apply _|]. eapply spec_mono; [apply read_u8|]. cbv beta. intros b u' _ _.
  assert (0 <= Z.lor v (u64 (Z.shiftl (Z.land b 127) (7 * s)))) by (apply Z.lor_nonneg; split; [done|]; apply (wrapU_in 64); lia). destruct (_ =? 0); [done|by apply IH].
Qed.
Lemma read_exact n u : 0 <= n -> spec reads (exact n) u (fun bs u' => zlen bs = n).
Proof.
  intros Hn. unfold spec, exact, reads. destruct (Z.ltb_spec (zlen (cur u)) n); [done|]. cbn. unfold zlen in *. rewrite length_take, length_drop. split_and!; try done; lia.
Qed.
Lemma read_len k u : spec reads (len_capped k) u (fun n u' => 0 <= n /\ n * Z.max k 1 <= zlen (cur u')).
Proof.
  unfold len_capped. apply spec_bind; [apply _|]. eapply spec_mono; [apply read_varint|]. cbv beta. intros n u' _ Hn. apply spec_bind; [apply _|]. split; [done|].
  destruct (_ || (_ <? _)) eqn:E; [done|]. apply orb_false_iff in E as [_ E%Z.ltb_ge]. done.
Qed.

(** ** The invariant *)
Section base.
Context (v0 : vmstate) (M0 : gmap (list Z) Z) (G : gmap Z Z).
(** The worlds on the way from [v0], with room in the table of symbols for the
    bytes that are left and [c] more, which are no more than the input had. *)
Record inv (c : Z) (u : ust) : Prop := {
  i_world : world_ok (uvm u);
  i_base : extends v0 (uvm u);
  i_input : zlen (cur u) + c <= input;
  i_table : Forall (fun o => is_Some (object_at (uvm u) o)) (table u);
  i_names : exists M, M0 ⊆ M /\ symbols_ok (uvm u) M /\ zlen (buckets (symbols (uvm u))) < 2 ^ 60 /\ 8 * (Z.of_nat (size M) + zlen (cur u) + c) < 3 * 2 ^ 60 /\
    Forall (fun o => object_at v0 o = None \/ exists b, M !! b = Some o) (table u) /\
    forall i j o, i <> j -> table u !! i = Some o -> table u !! j = Some o -> exists b, M !! b = Some o }.
Lemma inv_reads c u u' : inv c u -> uvm u' = uvm u -> table u' = table u -> forall c', c' + zlen (cur u') <= c + zlen (cur u) -> inv c' u'.
Proof.
  intros [Hw Hb Hn Ht (M & HM & Hs & Hz & Hr & Hd)] Hv Htb c' Hc. split; rewrite ?Hv, ?Htb; try done; [lia|]. exists M. split_and!; try done; try lia; apply Hd.
Qed.
Lemma inv_weaken c u : inv c u -> 0 <= c -> inv 0 u.
Proof. intros H Hc. apply (inv_reads c u u H); [done..|lia]. Qed.
Lemma inv_cur c u : inv c u -> 0 <= c -> zlen (cur u) < 2 ^ 60.
Proof. intros [_ _ _ _ (M & _ & _ & _ & H & _)] Hc. lia. Qed.
(** The symbols stay, and there may be more. *)
Definition names (v v' : vmstate) : Prop := forall M, symbols_ok v M -> exists M', M ⊆ M' /\ symbols_ok v' M'.
Definition step (h : option Z) (u u' : ust) : Prop :=
  grows h (uvm u) (uvm u') /\ inv 0 u' /\ zlen (cur u') <= zlen (cur u) /\ table u `prefix_of` table u' /\ names (uvm u) (uvm u').
#[export] Instance step_trans h : Transitive (step h).
Proof.
  intros u1 u2 u3 (? & ? & ? & ? & N) (? & ? & ? & ? & N'). split_and!; [by etransitivity|done|lia|by etransitivity|].
  intros M HM. destruct (N M HM) as (M1 & ? & HM1). destruct (N' M1 HM1) as (M2 & ? & ?). exists M2. split; [by etransitivity|done].
Qed.
Lemma names_same v v' : (forall M, symbols_ok v M -> symbols_ok v' M) -> names v v'.
Proof. intros H M HM. exists M. auto. Qed.
Lemma step_refl h u : inv 0 u -> step h u u.
Proof. intros H. split_and!; try done. by apply names_same. Qed.
Lemma step_weaken h u u' : step None u u' -> step h u u'.
Proof. intros (? & ?). split; [by apply extends_grows|done]. Qed.
Lemma spec_weaken {A} h (c : U A) u Q : spec (step None) c u Q -> spec (step h) c u Q.
Proof.
  unfold spec. destruct (c u) as [x u'|e u'| |code]; [intros [? ?]; split; [by apply step_weaken|done]|by apply step_weaken|done|].
  intros (-> & u' & bytes & H & Hb). split; [done|]. exists u', bytes. split; [by apply step_weaken|done].
Qed.
(** A change of a new object is none of an old one. *)
Lemma spec_forget {A} h (c : U A) u Q : object_at (uvm u) h = None -> spec (step (Some h)) c u Q -> spec (step None) c u Q.
Proof.
  intros Hn. unfold spec. assert (forall u', step (Some h) u u' -> step None u u') as H. { intros u' (? & ?). split; [by eapply grows_extends|done]. }
  destruct (c u) as [x u'|e u'| |code]; [intros [? ?]; split; auto|apply H|done|].
  intros (-> & u' & bytes & Hu & Hb). split; [done|]. exists u', bytes. split; [by apply H|done].
Qed.
Lemma spec_reads {A} h c (k : U A) u Q : inv c u -> 0 <= c -> spec reads k u Q ->
  spec (step h) k u (fun x u' => Q x u' /\ inv c u' /\ uvm u' = uvm u /\ table u' = table u).
Proof.
  intros Hi Hc. unfold spec. assert (forall u', reads u u' -> step h u u' /\ inv c u') as H.
  { intros u' (Hv & Ht & Hl). split; [|by apply (inv_reads c u); [..|lia]]. split_and!; [by rewrite Hv|by apply (inv_reads c u); [..|lia]|done|by rewrite Ht|]. apply names_same. by rewrite Hv. }
  destruct (k u) as [x u'|e u'| |code]; [|apply H|done|intros (-> & u' & bytes & Hr & Hb); split; [done|]; exists u', bytes; by split; [apply H|]]. intros [Hr Hq]. destruct (H u' Hr) as [? ?]. destruct Hr as (? & ? & ?). split_and!; done.
Qed.
(** The tag pays for a symbol. *)
Lemma spec_tag h u : inv 0 u -> spec (step h) cur_u8 u (fun _ u' => inv 1 u' /\ uvm u' = uvm u /\ table u' = table u).
Proof.
  intros Hi. eapply spec_mono; [apply (spec_reads h 0); [done..|apply read_u8]|]. cbv beta. intros b u' _ (Hl & _ & Hv & Ht). split_and!; [|done..].
  apply (inv_reads 0 u); [done..|lia].
Qed.

(** ** Steps of the machine *)
Definition allocs (k : U Z) (obj : object) (u : ust) : Prop := k u = let '(o, v) := alloc obj (uvm u) in Ok o (MkUst (cur u) v (table u)).
Lemma alloc_did c u k obj : inv c u -> 0 <= c -> allocs k obj u -> shape_ok (uvm u) obj -> not_klass obj ->
  did (step None) k u (fun o u' => o = oop_at (length (objects (uvm u))) /\ object_at (uvm u) o = None /\ object_at (uvm u') o = Some obj /\ inv c u' /\ cur u' = cur u /\ table u' = table u).
Proof.
  intros Hi Hc Hf Hs Hk. unfold did. rewrite Hf. assert ((alloc obj (uvm u)).1 = oop_at (length (objects (uvm u)))) as Hnext by done. pose proof (alloc_world (uvm u) obj (i_world _ _ Hi) Hs Hk) as H. destruct (alloc obj (uvm u)) as [o v']. destruct H as (Hn & Ho & Hg & Hw & Hsy).
  assert (forall c', c' <= c -> inv c' (MkUst (cur u) v' (table u))) as Hi'.
  { intros c' Hc'. destruct Hi as [_ Hb Hin Ht (M & HM & Hsm & Hz & Hr & Hd)]. split; cbn; [done|by etransitivity|lia|eapply Forall_impl; [exact Ht|]; intros; by apply Hg|].
    exists M. rewrite Hsy. split_and!; try done; [by eapply symbols_extend|lia|apply Hd..]. }
  exists o, (MkUst (cur u) v' (table u)). split; [done|]. split; [|split_and!; try done; by apply Hi'].
  split_and!; [done|by apply Hi'|done|done|]. apply names_same. intros M HM. by eapply symbols_extend.
Qed.
Lemma spec_alloc c u k obj : inv c u -> 0 <= c -> allocs k obj u -> shape_ok (uvm u) obj -> not_klass obj ->
  spec (step None) k u (fun o u' => o = oop_at (length (objects (uvm u))) /\ object_at (uvm u) o = None /\ object_at (uvm u') o = Some obj /\ inv c u' /\ cur u' = cur u /\ table u' = table u).
Proof. intros. by apply did_spec, alloc_did. Qed.
Lemma fresh_base c u h : inv c u -> object_at (uvm u) h = None -> object_at v0 h = None /\ h ∉ table u.
Proof.
  intros Hi Hn. split.
  - destruct (object_at v0 h) eqn:E; [|done]. apply (g_keep _ _ _ (i_base _ _ Hi)) in E; [|done]. congruence.
  - intros Hin. pose proof (i_table _ _ Hi) as Ht. rewrite Forall_forall in Ht. apply Ht in Hin as [y Hy]. congruence.
Qed.
Lemma push_did h c u o : inv c u -> 0 <= c -> is_Some (object_at (uvm u) o) -> object_at v0 o = None -> o ∉ table u ->
  did (step h) (push_handle o) u (fun _ u' => inv c u' /\ uvm u' = uvm u /\ cur u' = cur u /\ table u' = table u ++ [o]).
Proof.
  intros Hi Hc Ho Hn Hni. unfold did, push_handle. assert (forall c', c' <= c -> inv c' (MkUst (cur u) (uvm u) (table u ++ [o]))) as Hi'.
  { intros c' Hc'. destruct Hi as [Hw Hb Hin Ht (M & HM & Hsm & Hz & Hr & Hf & Hd)]. split; cbn; [done..|lia|by apply Forall_app_2; [|apply Forall_singleton]|].
    exists M. split_and!; try done; [lia|by apply Forall_app_2; [|apply Forall_singleton; left]|]. intros i j x Hij [Hx|[-> ->]]%lookup_snoc_inv [Hx'|[-> Hx']]%lookup_snoc_inv; try done.
    - by apply (Hd i j). - subst x. destruct Hni. by eapply list_elem_of_lookup_2. - destruct Hni. by eapply list_elem_of_lookup_2. }
  eexists _, _. split; [done|]. split; [split_and!; [done|by apply Hi'|done|cbn; by apply prefix_app_r|by apply names_same]|]. split_and!; [by apply Hi'|done..].
Qed.
Lemma spec_push h c u o : inv c u -> 0 <= c -> is_Some (object_at (uvm u) o) -> object_at v0 o = None -> o ∉ table u ->
  spec (step h) (push_handle o) u (fun _ u' => inv c u' /\ uvm u' = uvm u /\ cur u' = cur u /\ table u' = table u ++ [o]).
Proof. intros. by apply did_spec, push_did. Qed.
(** A new object and its handle. *)
Lemma spec_new c u k obj : inv c u -> 0 <= c -> allocs k obj u -> shape_ok (uvm u) obj -> not_klass obj ->
  spec (step None) (let! o := k in push_handle o ;; ret o) u (fun o u' => object_at (uvm u) o = None /\ object_at (uvm u') o = Some obj).
Proof.
  intros Hi Hc Hf Hs Hk. apply spec_bind; [apply _|]. eapply spec_mono; [by eapply spec_alloc|]. cbv beta. intros o u1 (Hg & _) (_ & Hn & Ho & Hi1 & Hc1 & Ht1).
  destruct (fresh_base c u o Hi Hn) as [H0 Hni]. apply spec_bind; [apply _|]. eapply spec_mono; [apply (spec_push None c); [done..|by rewrite Ho|done|by rewrite Ht1]|]. cbv beta. intros _ u2 _ (Hi2 & Hv2 & _ & _).
  apply spec_ret; [by apply step_refl, (inv_weaken c)|]. by rewrite Hv2.
Qed.
Lemma intern_did u bytes : inv 1 u -> zlen bytes < 2 ^ 60 -> (exists M, symbols_ok (uvm u) M /\ M !! bytes <> None) \/ has_room (uvm u) bytes ->
  exists sym u', run_raw (intern bytes) u = Ok sym u' /\ step None u u' /\ cur u' = cur u /\ table u' = table u /\
  object_at (uvm u') sym = Some (OBytes (symbol_klass (universe (uvm u))) (symbol_mark bytes) [] bytes) /\ (forall o, M0 !! bytes = Some o -> sym = o) /\
  (exists M, M !! bytes = Some sym /\ symbols_ok (uvm u') M) /\ inv 0 (MkUst (cur u') (uvm u') (table u' ++ [sym])).
Proof.
  intros [Hw Hb Hin Ht (M & HM & Hsm & Hz & Hr & Hf & Hd)] Hl Hfit. pose proof (zlen_nonneg (cur u)).
  assert (forall M, symbols_ok (uvm u) M -> M !! bytes <> None \/ has_room (uvm u) bytes) as Hfits.
  { intros M1 HM1. destruct Hfit as [(M2 & HM2 & Hx)|]; [|by right]. left. by rewrite (symbols_fun _ _ _ bytes HM1 HM2 Hz). }
  destruct (intern_world (uvm u) M bytes Hw Hsm Hz Hl (Hfits M Hsm)) as (sym & v' & E & Hs' & Hnew & Hhit & Ho & Hg & Hw' & Hbu).
  unfold run_raw. rewrite E. exists sym, (MkUst (cur u) v' (table u)). split; [done|]. cbn.
  assert (forall M : gmap (list Z) Z, (forall o, M !! bytes = Some o -> sym = o /\ v' = uvm u) -> M ⊆ <[bytes := sym]> M) as Hins.
  { intros M1 H1. destruct (M1 !! bytes) as [s|] eqn:HMb; [|by apply insert_subseteq]. destruct (H1 s eq_refl) as [-> _]. by rewrite insert_id. }
  pose proof (Hins M Hhit) as Hsub. assert (names (uvm u) v') as Hnm.
  { intros M1 HM1. destruct (intern_world (uvm u) M1 bytes Hw HM1 Hz Hl (Hfits M1 HM1)) as (sym1 & v1 & E1 & Hs1 & _ & Hh1 & _). rewrite E in E1. injection E1 as <- <-. exists (<[bytes := sym]> M1). split; [by apply Hins|done]. }
  assert (Z.of_nat (size (<[bytes := sym]> M)) <= Z.of_nat (size M) + 1) as Hsz. { rewrite map_size_insert. destruct (M !! bytes); unfold id; lia. }
  assert (forall t, Forall (fun o => is_Some (object_at v' o)) t -> Forall (fun o => object_at v0 o = None \/ exists b, <[bytes := sym]> M !! b = Some o) t ->
    (forall i j o, i <> j -> t !! i = Some o -> t !! j = Some o -> exists b, <[bytes := sym]> M !! b = Some o) -> inv 0 (MkUst (cur u) v' t)) as Hinv.
  { intros t H1 H2 H3. split; cbn; [done|by etransitivity|lia|done|]. exists (<[bytes := sym]> M). split_and!; try done; [by etransitivity|lia|lia]. }
  assert (Forall (fun o => is_Some (object_at v' o)) (table u)) as Ht' by (eapply Forall_impl; [exact Ht|]; intros; by apply Hg).
  assert (forall o, (exists b, M !! b = Some o) -> exists b, <[bytes := sym]> M !! b = Some o) as Hup. { intros o [b Hob]. exists b. by eapply lookup_weaken. }
  assert (Forall (fun o => object_at v0 o = None \/ exists b, <[bytes := sym]> M !! b = Some o) (table u)) as Hf' by (eapply Forall_impl; [exact Hf|]; intros o [?|?]; [by left|right; by apply Hup]).
  assert (exists b, <[bytes := sym]> M !! b = Some sym) as Hsym by (exists bytes; by rewrite lookup_insert_eq).
  split_and!; try done.
  - split_and!; try done. apply Hinv; [done..|]. intros i j o Hij Hi Hj. eapply Hup, Hd; eauto.
  - intros o Ho'. by apply (Hhit o), (lookup_weaken _ _ _ _ Ho' HM).
  - exists (<[bytes := sym]> M). by rewrite lookup_insert_eq.
  - apply Hinv; [by apply Forall_app_2; [|apply Forall_singleton; rewrite Ho]|by apply Forall_app_2; [|apply Forall_singleton; right]|].
    intros i j o Hij [Hi|[-> ->]]%lookup_snoc_inv Hj; [|done]. apply lookup_snoc_inv in Hj as [Hj|[-> ->]]; [|done]. eapply Hup, Hd; eauto.
Qed.
Lemma spec_intern u bytes : inv 1 u -> zlen bytes < 2 ^ 60 -> zlen bytes <= input -> spec (step None) (run_raw (intern bytes)) u (fun sym u' => cur u' = cur u /\ table u' = table u /\
  object_at (uvm u') sym = Some (OBytes (symbol_klass (universe (uvm u))) (symbol_mark bytes) [] bytes) /\ inv 0 (MkUst (cur u') (uvm u') (table u' ++ [sym]))).
Proof.
  intros Hi Hl Hb. pose proof Hi as [_ _ _ _ (M & _ & Hsm & Hz & _)]. destruct (decide (M !! bytes = None /\ ~ has_room (uvm u) bytes)) as [[HM Hno]|Hno].
  - unfold spec, run_raw. rewrite (intern_exits _ _ _ Hsm Hz HM Hno). split; [done|]. exists u, bytes. split_and!; [|done..]. apply step_refl, (inv_weaken 1); [done|lia].
  - destruct (intern_did u bytes Hi Hl) as (sym & u' & E & Hst & Hc & Ht & Ho & _ & _ & Hi'); [destruct (decide (M !! bytes = None)), (decide (has_room (uvm u) bytes)); [tauto..|left; by exists M|left; by exists M]|].
    unfold spec. rewrite E. by split_and!.
Qed.
Lemma set_did h u (f : vmstate -> option vmstate) obj obj' : inv 0 u -> object_at v0 h = None -> object_at (uvm u) h = Some obj -> not_klass obj -> not_klass obj' ->
  (forall k mk fs bs, obj = OBytes k mk fs bs -> mk = MARK_PRISTINE) -> shape_ok (uvm u) obj' -> f (uvm u) = set_object h obj' (uvm u) ->
  did (step (Some h)) (update f) u (fun _ u' => object_at (uvm u') h = Some obj' /\ table u' = table u /\ cur u' = cur u).
Proof.
  intros Hi Hn Ho Hk Hk' Hp Hs Hf. destruct (set_world _ _ _ _ (i_world _ _ Hi) Ho Hk Hk' Hs) as (v' & E & Ho' & Hg & Hw & Hsy).
  unfold did, update, try_run. rewrite Hf, E. eexists _, _. split; [done|]. split; [|done]. cbn.
  assert (names (uvm u) v') as Hnames. { apply names_same. intros M HM. eapply symbols_set; [done..|]. intros k mk fs bs Hx. rewrite Ho in Hx. injection Hx as ->. by eapply Hp. }
  split_and!; try done. destruct Hi as [_ Hb Hin Ht (M & HM & Hsm & Hz & Hr & Hd)]. split; cbn; [done| |done| |].
  - apply (grows_extends h); [done|]. etransitivity; [by apply extends_grows|done].
  - eapply Forall_impl; [exact Ht|]. intros. by apply Hg.
  - exists M. rewrite Hsy. split_and!; try done; [|apply Hd..]. eapply symbols_set; [done..|]. intros k mk fs bs Hx. rewrite Ho in Hx. injection Hx as ->. by eapply Hp.
Qed.

(** ** Filling a new object *)
(** An object under construction: of a subkind, with so many named variables,
    and so many elements or bytes. *)
Definition has_dims (subkind nf ne : Z) (obj : object) : Prop :=
  match obj with
  | OSlots _ fs => subkind = SUBKIND_SLOTS /\ zlen fs = nf
  | OOops _ fs es => subkind = SUBKIND_OOPS /\ zlen fs = nf /\ zlen es = ne
  | OBytes _ mk fs bs => subkind = SUBKIND_BYTES /\ mk = MARK_PRISTINE /\ zlen fs = nf /\ zlen bs = ne
  | _ => False
  end.
Definition building (h subkind nf ne : Z) (u : ust) : Prop := exists obj, object_at (uvm u) h = Some obj /\ has_dims subkind nf ne obj.
Lemma dims_not_klass sk nf ne obj : has_dims sk nf ne obj -> not_klass obj.
Proof. destruct obj; cbn; try done; by intros _ kl. Qed.
Lemma Forall_zinsert {A} (P : A -> Prop) l i x : Forall P l -> P x -> Forall P (zinsert l i x).
Proof. unfold zinsert. destruct (i <? 0); [done|]. by apply Forall_insert. Qed.
Section fill.
Context (h sk nf ne : Z) (Hn : object_at v0 h = None).
Lemma building_step u u' : building h sk nf ne u -> step None u u' -> building h sk nf ne u'.
Proof using Type. intros (obj & Ho & Hd) (Hg & _). exists obj. split; [|done]. by apply Hg. Qed.
Lemma spec_put u f obj obj' : inv 0 u -> object_at (uvm u) h = Some obj -> has_dims sk nf ne obj -> has_dims sk nf ne obj' -> (shape_ok (uvm u) obj -> shape_ok (uvm u) obj') ->
  f (uvm u) = set_object h obj' (uvm u) -> spec (step (Some h)) (update f) u (fun _ => building h sk nf ne).
Proof using Hn.
  intros Hi Ho Hd Hd' Hs Hf. eapply spec_mono; [eapply did_spec, (set_did h u f obj obj'); try done; try (by eapply dims_not_klass)|].
  - intros k mk fs bs ->. apply Hd. - by apply Hs, (w_objects _ (i_world _ _ Hi) h). - cbv beta. intros _ u' _ (Ho' & _). by exists obj'.
Qed.
Lemma spec_field u i x : inv 0 u -> building h sk nf ne u -> 0 <= i < nf -> valid (uvm u) x -> spec (step (Some h)) (update (set_body_oop h i x)) u (fun _ => building h sk nf ne).
Proof using Hn.
  intros Hi (obj & Ho & Hd) Hr Hx. assert (forall l, Forall (valid (uvm u)) l -> Forall (valid (uvm u)) (zinsert l i x)) as Hins by (intros; by apply Forall_zinsert).
  destruct obj as [k mk fs bs|b|k fs|k fs es|kl|m|k]; try done; cbn in Hd.
  - eapply (spec_put u _ _ (OBytes k mk (zinsert fs i x) bs) Hi Ho Hd). + cbn. by rewrite zlen_insert. + cbn. rewrite zlen_insert. intros H. decompose [and] H. auto. + unfold set_body_oop. rewrite Ho, zset_ok; [done|lia].
  - eapply (spec_put u _ _ (OSlots k (zinsert fs i x)) Hi Ho Hd). + cbn. by rewrite zlen_insert. + cbn. rewrite zlen_insert. intros H. decompose [and] H. auto. + unfold set_body_oop. rewrite Ho, zset_ok; [done|lia].
  - eapply (spec_put u _ _ (OOops k (zinsert fs i x) es) Hi Ho Hd). + cbn. by rewrite zlen_insert. + cbn. rewrite zlen_insert. intros H. decompose [and] H. auto. + unfold set_body_oop. rewrite Ho, zset_ok; [done|lia].
Qed.
Lemma spec_elem u i x : inv 0 u -> sk = SUBKIND_OOPS -> building h sk nf ne u -> 0 <= i < ne -> valid (uvm u) x -> spec (step (Some h)) (update (at_put h i x)) u (fun _ => building h sk nf ne).
Proof using Hn.
  intros Hi Hsk (obj & Ho & Hd) Hr Hx. destruct obj as [k mk fs bs|b|k fs|k fs es|kl|m|k]; try done; cbn in Hd; try (destruct Hd as [Hd _]; subst sk; done).
  eapply (spec_put u _ _ (OOops k fs (zinsert es i x)) Hi Ho Hd). + cbn. by rewrite zlen_insert. + cbn. rewrite zlen_insert. intros (? & ? & ? & ?). split_and!; try done. by apply Forall_zinsert. + unfold at_put. rewrite Ho, zset_ok; [done|lia].
Qed.
Lemma spec_bytes u bytes : inv 0 u -> sk = SUBKIND_BYTES -> building h sk nf ne u -> zlen bytes = ne -> spec (step (Some h)) (update (put_bytes h bytes)) u (fun _ => building h sk nf ne).
Proof using Hn.
  intros Hi Hsk (obj & Ho & Hd) Hl. destruct obj as [k mk fs bs|b|k fs|k fs es|kl|m|k]; try done; cbn in Hd; try (destruct Hd as [Hd _]; subst sk; done).
  assert (bytes ++ drop (length bytes) bs = bytes) as E. { rewrite drop_ge; [by rewrite app_nil_r|]. unfold zlen in *. lia. }
  eapply (spec_put u _ _ (OBytes k mk fs bytes) Hi Ho Hd). + cbn. rewrite Hl. tauto. + cbn. intros (? & ? & ?). destruct Hd as (_ & _ & _ & Hd). split_and!; try done. by rewrite Hl, <- Hd.
  + unfold put_bytes. rewrite Ho, E. destruct (Z.ltb_spec (zlen bs) (zlen bytes)); [lia|done].
Qed.
(** The loops that fill it. *)
Lemma spec_fill (up : U Z) (put : Z -> Z -> vmstate -> option vmstate) n (Hup : forall u, inv 0 u -> spec (step None) up u (fun x u' => valid (uvm u') x))
    (Hput : forall u i x, inv 0 u -> building h sk nf ne u -> 0 <= i < Z.of_nat n -> valid (uvm u) x -> spec (step (Some h)) (update (put i x)) u (fun _ => building h sk nf ne)) u :
  inv 0 u -> building h sk nf ne u -> spec (step (Some h)) (for_range n 0 (fun i => let! child := up in update (put i child))) u (fun _ u' => inv 0 u' /\ building h sk nf ne u').
Proof using Type.
  intros Hi Hb. apply (spec_range (step (Some h)) (fun u => inv 0 u /\ building h sk nf ne u)); [|clear u Hi Hb|done]; [intros w [? _]; by apply step_refl|].
  intros j u Hj [Hi Hb]. apply spec_bind; [apply _|]. eapply spec_mono with (Q := fun x u' => inv 0 u' /\ building h sk nf ne u' /\ valid (uvm u') x).
  - apply spec_weaken. eapply spec_mono; [by apply Hup|]. cbv beta. intros x u' Hst Hx. split_and!; [apply Hst|by eapply building_step|done].
  - cbv beta. intros x u' _ (Hi' & Hb' & Hx). eapply spec_mono; [apply Hput; [done..|lia|done]|]. cbv beta. intros _ u2 (_ & Hi2 & _) Hb2. done.
Qed.
End fill.
(** A new object that is filled before it is answered. *)
Lemma spec_construct {A} sk nf ne u c obj (k : Z -> U A) Q : inv 0 u -> allocs c obj u -> shape_ok (uvm u) obj -> has_dims sk nf ne obj ->
  (forall h u', object_at v0 h = None -> h ∉ table u' -> inv 0 u' -> building h sk nf ne u' -> spec (step (Some h)) (k h) u' Q) -> spec (step None) (bind c k) u Q.
Proof.
  intros Hi Hf Hs Hd Hk. set (h := oop_at (length (objects (uvm u)))). assert (object_at (uvm u) h = None) as Hn by (unfold h; rewrite object_oop; by apply lookup_ge_None_2).
  destruct (fresh_base 0 u h Hi Hn) as [H0 Hni]. apply (spec_forget h); [done|]. apply spec_bind; [apply _|].
  eapply spec_mono; [apply spec_weaken; eapply (spec_alloc 0); [done..|by eapply dims_not_klass]|]. cbv beta. intros o u1 _ (-> & _ & Ho & Hi1 & _ & Ht1).
  apply Hk; [done|by rewrite Ht1|done|]. by exists obj.
Qed.

(** ** The parts of the decoder *)
Context (Hw0 : world_ok v0) (HG : globals_ok v0 G).
Abbreviation answers c u := (spec (step None) c u (fun x u' => valid (uvm u') x)).
Lemma global_found v sym : extends v0 v -> global_lookup v sym = Some (G !! sym) /\
  forall assoc, G !! sym = Some assoc -> exists value, object_at v assoc = Some (OSlots (association_klass (universe v0)) [sym; value]).
Proof using Hw0 HG.
  intros Hg. split; [by apply global_lookup_ok, (globals_kept v0); [|apply Hw0|]|]. intros assoc Ha. revert HG. unfold globals_ok. destruct (as_array v0 _) as [es|]; [|intros ->; by rewrite lookup_empty in Ha].
  intros (l & Hl & ->). apply elem_of_list_to_map_2 in Ha. pose proof (ga_assocs _ _ _ Hl) as H. rewrite Forall_forall in H. destruct (H _ Ha) as (value & Hv). cbn in Hv. exists value. by apply Hg.
Qed.
Lemma spec_lift {A} (R : ust -> ust -> Prop) (o : option A) x u (Q : A -> ust -> Prop) : o = Some x -> R u u -> Q x u -> spec R (lift o) u Q.
Proof using Hw0 HG. intros ->. by apply spec_ret. Qed.
(** [vm.universe.…]. *)
Lemma spec_get_vm {A} R (k : vmstate -> U A) u Q : spec R (k (uvm u)) u Q -> spec R (let! vm := get_vm in k vm) u Q.
Proof using Hw0 HG. done. Qed.
Lemma spec_get_table {A} R (k : list Z -> U A) u Q : spec R (k (table u)) u Q -> spec R (let! t := get_table in k t) u Q.
Proof using Hw0 HG. done. Qed.
Ltac read lemma := apply spec_bind; [apply _|]; eapply spec_mono; [eapply spec_reads; [eassumption|lia|apply lemma]|cbv beta; intros ? ? _ (? & ? & ? & ?)].
(** What is read is shorter than the input. *)
Ltac small := match goal with Hi : inv ?c ?u, Hl : _ /\ _ <= zlen (cur ?u) |- _ => let H := fresh in assert (zlen (cur u) < 2 ^ 60) as H by (apply (inv_cur c u Hi); lia); lia end.
Lemma smi_valid v n w : SmallInt.new n = Some w -> valid v w.
Proof using Hw0 HG. intros [H _]%SmallInt.try_new_smi_ok. by left. Qed.
Lemma new_smi n : SMI_MIN <= n <= SMI_MAX -> exists w, SmallInt.new n = Some w.
Proof using Hw0 HG. intros H. destruct (SmallInt.try_new_ok n H) as (w & Hw & _). by exists w. Qed.
Lemma answers_smi u : inv 0 u -> answers up_smi u.
Proof using Hw0 HG.
  intros Hi. unfold up_smi. read read_varint. destruct (negb _) eqn:E; [by apply spec_fail, step_refl|]. apply negb_false_iff, andb_true_iff in E as [E1%Z.leb_le E2%Z.leb_le].
  edestruct new_smi as [w Hw]; [split; eassumption|]. rewrite Hw. eapply spec_lift; [done|by apply step_refl|]. by eapply smi_valid.
Qed.
Lemma answers_double u : inv 0 u -> answers up_double u.
Proof using Hw0 HG.
  intros Hi. unfold up_double. apply spec_bind; [apply _|]. eapply spec_mono; [eapply spec_reads; [eassumption|lia|apply read_exact; lia]|]. cbv beta. intros raw u1 _ (_ & Hi1 & _).
  eapply spec_mono; [by eapply spec_alloc|]. cbv beta. intros o u2 _ (_ & _ & Ho & _). right. by rewrite Ho.
Qed.
(** A new object of bytes of a well-known klass, and its handle. *)
Lemma answers_new_bytes c u k bytes : inv c u -> 0 <= c -> k ∈ known_bytes (universe (uvm u)) -> zlen bytes < 2 ^ 60 ->
  answers (let! b := run (alloc_indexable_bytes k bytes) in push_handle b ;; ret b) u.
Proof using Hw0 HG.
  intros Hi Hc Hk Hl. eapply spec_mono; [eapply spec_new; [exact Hi|done|done| |done]|].
  - cbn. split_and!; [by apply known_bytes_is; [apply Hi|]|constructor|done].
  - cbv beta. intros o u' _ (_ & Ho). right. by rewrite Ho.
Qed.
Lemma answers_bytes u (kf : Universe -> Z) : inv 0 u -> (forall u, kf u ∈ known_bytes u) -> answers (up_bytes kf) u.
Proof using Hw0 HG.
  intros Hi Hk. unfold up_bytes. read read_len. apply spec_bind; [apply _|]. eapply spec_mono; [eapply spec_reads; [eassumption|lia|apply read_exact; lia]|]. cbv beta. intros bytes u2 _ (Hl & Hi2 & _).
  apply spec_get_vm. eapply answers_new_bytes; [done..|apply Hk|]. small.
Qed.
Lemma answers_floats u : inv 0 u -> answers up_floats u.
Proof using Hw0 HG.
  intros Hi. unfold up_floats. read read_len. apply spec_bind; [apply _|]. eapply spec_mono; [eapply spec_reads; [eassumption|lia|apply read_exact; lia]|]. cbv beta. intros bytes u2 _ (Hl & Hi2 & _).
  apply spec_get_vm. eapply answers_new_bytes; [done..|set_solver|]. small.
Qed.
Lemma answers_large u : inv 0 u -> answers up_large u.
Proof using Hw0 HG.
  intros Hi. unfold up_large. read read_u8. destruct (1 <? _); [by apply spec_fail, step_refl|]. apply answers_bytes; [done|]. intros w. destruct (_ =? 1); set_solver.
Qed.
Lemma answers_symbol u : inv 1 u -> answers up_symbol u.
Proof using Hw0 HG.
  intros Hi. unfold up_symbol. read read_len. apply spec_bind; [apply _|]. eapply spec_mono; [eapply spec_reads; [eassumption|lia|apply read_exact; lia]|]. cbv beta. intros bytes u2 _ (Hl & Hi2 & _).
  apply spec_bind; [apply _|]. eapply spec_mono; [apply spec_intern; [done|small|]|].
  { match goal with H : inv 1 u', H' : 0 <= x /\ _ |- _ => pose proof (i_input _ _ H); lia end. }
  cbv beta. intros sym u3 _ (Hc & Ht & Ho & Hi3). unfold spec, bind. cbn. split; [|right; by rewrite Ho]. split_and!; [done|done|done|cbn; by apply prefix_app_r|by apply names_same].
Qed.
Lemma answers_backref u : inv 0 u -> answers up_backref u.
Proof using Hw0 HG.
  intros Hi. unfold up_backref. read read_varint. apply spec_get_table. destruct (zlookup _ _) as [h|] eqn:E; [|by apply spec_fail, step_refl]. apply spec_ret; [by apply step_refl|]. right.
  match goal with H : inv 0 _ |- _ => pose proof (i_table _ _ H) as Ht end. rewrite Forall_forall in Ht. apply Ht. unfold zlookup in E. destruct (_ <? 0); [done|]. by eapply list_elem_of_lookup_2.
Qed.
Lemma answers_char u : inv 0 u -> answers up_char u.
Proof using Hw0 HG.
  intros Hi. unfold up_char. read read_varint. destruct (Z.ltb_spec SMI_MAX x) as [|Hle]; [by apply spec_fail, step_refl|]. apply spec_get_vm. rename u' into u1.
  match goal with H : inv 0 u1 |- _ => rename H into Hi1 end. pose proof (w_character _ (i_world _ _ Hi1)) as Hk. destruct (klass_is_as _ _ _ _ Hk) as (kl & Hkl & Hf & Hn).
  eapply (spec_construct SUBKIND_SLOTS 1 0 u1 _ (OSlots (character_klass (universe (uvm u1))) [nil_obj (universe (uvm u1))])); [done| | |done|].
  - unfold allocs, try_run, nil_slots. rewrite Hkl. cbn [mbind option_bind]. by rewrite Hn.
  - cbn. split; [done|]. apply Forall_singleton. right. apply Hi1.
  - intros h u2 H0 _ Hi2 Hb2. destruct (new_smi x) as [w Hw]. { change SMI_MIN with (- 2 ^ 61). lia. }
    apply spec_bind; [apply _|]. eapply spec_lift; [exact Hw|by apply step_refl|]. apply spec_bind; [apply _|]. eapply spec_mono; [eapply spec_field; [done..|by eapply smi_valid]|]. cbv beta.
    intros _ u3 (_ & Hi3 & _) (obj & Ho & _). apply spec_ret; [by apply step_refl|]. right. by rewrite Ho.
Qed.

Lemma valid_replicate v n x : valid v x -> Forall (valid v) (replicate n x).
Proof using Hw0 HG. intros H. by apply Forall_replicate. Qed.
(** The name of a class, and the class. *)
Lemma spec_resolve u name nslots subkind : inv 1 u -> zlen name < 2 ^ 60 -> zlen name <= input ->
  spec (step None) (resolve_class name nslots subkind) u (fun k u' => inv 0 u' /\ exists f, klass_is (uvm u') k f nslots /\ format_ok subkind f = true).
Proof using Hw0 HG.
  intros Hi Hl Hin. unfold resolve_class. apply spec_bind; [apply _|]. eapply spec_mono; [by apply spec_intern|]. cbv beta. intros sym u1 (_ & Hi1 & _) _.
  destruct (global_found _ sym (i_base _ _ Hi1)) as [Hgl Hg]. apply spec_get_vm. apply spec_bind; [apply _|]. eapply spec_lift; [exact Hgl|by apply step_refl|]. destruct (G !! sym) as [assoc|]; [|by apply spec_fail, step_refl].
  destruct (Hg assoc eq_refl) as (value & Ha). rewrite (proj1 (object_mem _ _ _ Ha)). cbn [negb]. apply spec_bind; [apply _|]. eapply (spec_lift _ _ value); [unfold body_oop; by rewrite Ha|by apply step_refl|].
  destruct (as_klass _ value) as [kl|] eqn:Ek; [|by apply spec_fail, step_refl]. apply as_klass_is in Ek. pose proof (w_objects _ (i_world _ _ Hi1) _ _ Ek) as [Hn _].
  destruct (Z.ltb_spec (k_non_indexable_size kl - HEADER_WORDS) 0); [lia|]. destruct (Z.eqb_spec (k_non_indexable_size kl - HEADER_WORDS) nslots) as [En|]; [|by apply spec_fail, step_refl]. cbn [negb].
  destruct (format_ok _ _) eqn:Ef; [|by apply spec_fail, step_refl]. apply spec_ret; [by apply step_refl|]. split; [done|]. exists (k_format kl). split; [|done]. exists kl. split_and!; [done..|lia].
Qed.
Section up.
Context (up : U Z) (Hup : forall u, inv 0 u -> answers up u).
Lemma answers_array u : inv 0 u -> answers (up_array up) u.
Proof using Hw0 HG Hup.
  intros Hi. unfold up_array. read read_len. apply spec_get_vm. rename x into n, u' into u1. match goal with H : inv 0 u1 |- _ => rename H into Hi1 end.
  eapply (spec_construct SUBKIND_OOPS 0 n u1 _ (OOops (array_klass (universe (uvm u1))) [] (replicate (Z.to_nat n) (nil_obj (universe (uvm u1)))))); [done|done| | |].
  - cbn. split_and!; [apply (i_world _ _ Hi1)|constructor|apply valid_replicate; right; apply Hi1|]. rewrite zlen_replicate, Z2Nat.id by lia. small.
  - cbn. split_and!; [done..|]. rewrite zlen_replicate. lia.
  - intros h u2 H0 Hni Hi2 Hb2. apply spec_bind; [apply _|]. eapply spec_mono; [apply (spec_push (Some h) 0); [done..| |done|done]|].
    { destruct Hb2 as (obj & Ho & _). by rewrite Ho. }
    cbv beta. intros _ u3 _ (Hi3 & Hv3 & _). apply spec_bind; [apply _|]. eapply spec_mono; [apply (spec_fill h SUBKIND_OOPS 0 n); [done| |done|]|].
    + intros w i x Hw Hb Hr Hx. eapply spec_elem; [done..|lia|done].
    + destruct Hb2 as (obj & Ho & Hd). exists obj. by rewrite Hv3.
    + cbv beta. intros _ u4 _ (Hi4 & obj & Ho & _). apply spec_ret; [by apply step_refl|]. right. by rewrite Ho.
Qed.
(** The new object of a class that has been found. *)
Definition spine (k nslots subkind idx_n : Z) (v : vmstate) : object :=
  let slots x := replicate (Z.to_nat nslots) x in
  if subkind =? SUBKIND_SLOTS then OSlots k (slots (nil_obj (universe v)))
  else if subkind =? SUBKIND_OOPS then OOops k (slots (nil_obj (universe v))) (replicate (Z.to_nat idx_n) (nil_obj (universe v)))
  else OBytes k MARK_PRISTINE (slots 0) (replicate (Z.to_nat idx_n) 0).
Lemma spine_ok v k nslots subkind idx_n f : world_ok v -> klass_is v k f nslots -> format_ok subkind f = true -> 0 <= nslots -> 0 <= idx_n < 2 ^ 60 ->
  shape_ok v (spine k nslots subkind idx_n v) /\ has_dims subkind nslots idx_n (spine k nslots subkind idx_n v).
Proof using Hw0 HG.
  intros Hw Hk Hf Hn Hi. assert (valid v (nil_obj (universe v))) as Hnil by (right; apply Hw). assert (valid v 0) as H0 by by left.
  destruct f; try done; apply Z.eqb_eq in Hf; subst subkind; cbn; rewrite !zlen_replicate, ?Z2Nat.id by lia; split_and!; try done; try lia; by apply valid_replicate.
Qed.
Lemma answers_object u : inv 1 u -> answers (up_object up) u.
Proof using Hw0 HG Hup.
  intros Hi. unfold up_object, up_new_object. read read_len. apply spec_bind; [apply _|]. eapply spec_mono; [eapply spec_reads; [eassumption|lia|apply read_exact; lia]|]. cbv beta. intros name u2 _ (Hl & Hi2 & _).
  assert (zlen name < 2 ^ 60) as Hname by small. assert (zlen name <= input) as Hnin. { match goal with H : inv 1 u', H' : 0 <= x /\ _ |- _ => pose proof (i_input _ _ H); lia end. } read read_varint. rename x0 into nslots, u'0 into u3. read read_u8. rename x0 into subkind, u'0 into u4.
  apply spec_bind; [apply _|]. eapply spec_mono with (Q := fun n w => 0 <= n < 2 ^ 60 /\ inv 1 w).
  { destruct (subkind =? SUBKIND_SLOTS); [by apply spec_ret; [by apply step_refl, (inv_weaken 1)|]|]. destruct (_ || _); [|by apply spec_fail, step_refl, (inv_weaken 1)].
    eapply spec_mono; [eapply spec_reads; [eassumption|lia|apply read_len]|]. cbv beta. intros n w _ (? & Hw & _). split; [small|done]. }
  cbv beta. intros idx_n u5 _ (Hidx & Hi5). apply spec_bind; [apply _|]. eapply spec_mono; [by apply spec_resolve|]. cbv beta. intros k u6 _ (Hi6 & f & Hk & Hf).
  apply spec_bind; [apply _|]. unfold spec at 1, remaining. split; [by apply step_refl|]. destruct (_ || (_ <? _)); [by apply spec_fail, step_refl|].
  destruct (spine_ok _ k nslots subkind idx_n f (i_world _ _ Hi6) Hk Hf) as [Hs Hd]; [done..|]. assert (allocs (run (alloc_spine k nslots subkind idx_n)) (spine k nslots subkind idx_n (uvm u6)) u6) as Hal.
  { unfold allocs, run, alloc_spine, spine. destruct (_ =? _); [done|]. by destruct (_ =? _). }
  eapply spec_construct; [done..|]. intros h u7 Hbase Hni Hi7 Hb7. apply spec_bind; [apply _|]. eapply spec_mono; [apply (spec_push (Some h) 0); [done..| |done|done]|]. { destruct Hb7 as (obj & Ho & _). by rewrite Ho. }
  cbv beta. intros _ u8 _ (Hi8 & Hv8 & _). assert (building h subkind nslots idx_n u8) as Hb8. { destruct Hb7 as (obj & Ho & Hdo). exists obj. by rewrite Hv8. }
  apply spec_bind; [apply _|]. eapply spec_mono; [apply (spec_fill h subkind nslots idx_n up (set_body_oop h) (Z.to_nat nslots)); [done| |done|done]|]. { intros w i x' Hw Hb Hr Hx. eapply spec_field; [done..|lia|done]. }
  cbv beta. intros _ u9 _ (Hi9 & Hb9). apply spec_bind; [apply _|]. eapply spec_mono with (Q := fun _ w => inv 0 w /\ building h subkind nslots idx_n w).
  - destruct (Z.eqb_spec subkind SUBKIND_OOPS) as [->|].
    { eapply (spec_fill h SUBKIND_OOPS nslots idx_n up (at_put h)); [done| |done|done]. intros w i x' Hw Hb Hr Hx. eapply spec_elem; [done..|lia|done]. }
    destruct (Z.eqb_spec subkind SUBKIND_BYTES) as [->|]; [|by apply spec_ret; [by apply step_refl|]].
    apply spec_bind; [apply _|]. eapply spec_mono with (Q := fun bs w => zlen bs = idx_n /\ inv 0 w /\ building h SUBKIND_BYTES nslots idx_n w).
    + eapply spec_mono; [eapply spec_reads; [exact Hi9|lia|apply read_exact; lia]|]. cbv beta. intros bs w _ (? & Hw & Hv & _). split_and!; [done..|]. destruct Hb9 as (obj & Ho & Hdo). exists obj. by rewrite Hv.
    + cbv beta. intros bs w _ (Hbs & Hw & Hb). eapply spec_mono; [by eapply spec_bytes|]. cbv beta. intros _ w' (_ & Hw' & _) Hb'. done.
  - cbv beta. intros _ w _ (Hw & obj & Ho & _). apply spec_ret; [by apply step_refl|]. right. by rewrite Ho.
Qed.
End up.
Lemma answers_up d : forall u, inv 0 u -> answers (up d) u.
Proof using Hw0 HG.
  induction d as [|d IH]; intros u Hi; cbn [up]; [by apply spec_fail, step_refl|]. apply spec_get_table. destruct (_ <=? _); [by apply spec_fail, step_refl|].
  apply spec_bind; [apply _|]. eapply spec_mono; [by apply spec_tag|]. cbv beta. intros tag u1 _ (Hi1 & _). apply spec_get_vm. pose proof (inv_weaken 1 _ Hi1 ltac:(lia)) as Hi0. pose proof (i_world _ _ Hi1) as Hw.
  repeat match goal with |- spec _ (if ?b then _ else _) _ _ => destruct b end.
  1-3: by apply spec_ret; [by apply step_refl|]; right; apply Hw.
  - by apply answers_smi. - by apply answers_double. - by apply answers_char. - by apply answers_symbol.
  - apply answers_bytes; [done|]. intros w. set_solver. - apply answers_bytes; [done|]. intros w. set_solver.
  - by apply answers_floats. - by apply answers_large. - by apply answers_array. - by apply answers_backref. - by apply answers_object. - by apply spec_fail, step_refl.
Qed.
End base.
End input.

(** An array that holds itself. *)
Definition self_array : list Z := MAGIC ++ [TAG_ARRAY; 1; TAG_BACKREF; 0].
End PickleSafe.
