(* ===== verification/PickleCorrect.v ===== *)
(** A pickle unpickles to a copy of the graph: [pickle_roundtrip]. *)
From Stdlib Require Import String.
From S2P Require Import Prelude Oops Codec Heap World WorldCorrect WorldOk SampleWorld Pickle PickleSafe.
From stdpp Require Import gmap.
#[local] Set Warnings "-register-all".
#[local] Open Scope string_scope.
#[local] Open Scope Z_scope.
#[local] Open Scope list_scope.
#[local] Open Scope pickle_scope.

Module PickleCorrect.
Import World WorldCorrect WorldOk Pickle PickleSafe.

(** ** Integers *)
Definition with_cur (u : ust) (b : list Z) : ust := MkUst b (uvm u) (table u).
Lemma bind_eq {S E A B} (c : M S E A) (k : A -> M S E B) s x s' : c s = Ok x s' -> bind c k s = k x s'.
Proof. unfold bind. by intros ->. Qed.
Lemma u8_eq u b rest : cur u = b :: rest -> cur_u8 u = Ok b (with_cur u rest).
Proof. unfold cur_u8. by intros ->. Qed.
Lemma varint_groups n : forall v s res u rest, 0 <= s -> s = 10 - Z.of_nat n -> 0 <= v < 2 ^ (64 - 7 * s) -> cur u = write_varint_from n v ++ rest ->
  varint_from n s res u = Ok (Z.lor res (Z.shiftl v (7 * s))) (with_cur u rest).
Proof.
  induction n as [|n IH]; intros v s res u rest Hs0 Hs Hv Hc. { assert (64 - 7 * s = -6) as E by lia. rewrite E in Hv. cbn in Hv. lia. }
  cbn [varint_from write_varint_from] in *. rewrite Leb.land_7f_u8 in Hc.
  assert (forall x, 0 <= Z.land x 127 < 128) as Hlow by (intros; rewrite Leb.land_7f; apply Z.mod_pos_bound; lia).
  assert (u64 (Z.shiftl (Z.land v 127) (7 * s)) = Z.shiftl (Z.land v 127) (7 * s)) as Hwrap.
  { apply wrapU_id. apply Leb.shiftl_lt; [lia| |lia]. rewrite Leb.land_7f. pose proof (Z.mod_pos_bound v 128). pose proof (Z.mod_le v 128). lia. }
  destruct (Z.eqb_spec (Z.shiftr v 7) 0) as [Hz|Hz].
  - cbn [app] in Hc. rewrite (bind_eq _ _ _ _ _ (u8_eq _ _ _ Hc)), Leb.land_7f_low, Hwrap, Leb.land_80_low. cbn. do 2 f_equal.
    pose proof (Leb.group_split v (7 * s) ltac:(lia)) as Hg. by rewrite Hz, Z.shiftl_0_l, Z.lor_0_r in Hg.
  - cbn [app] in Hc. rewrite Z.shiftr_div_pow2 in Hz, Hc by done. change (2 ^ 7) with 128 in *.
    rewrite (bind_eq _ _ _ _ _ (u8_eq _ _ _ Hc)), Leb.land_7f_high, Hwrap, Leb.land_80_high. change (128 =? 0) with false. cbv iota.
    assert (128 <= v) by (Z.div_mod_to_equations; lia).
    assert (7 * s + 7 < 64). { destruct (decide (64 - 7 * s <= 7)) as [H7|]; [|lia]. apply Leb.pow_le7 in H7. lia. }
    rewrite (IH (v / 128) (s + 1) _ _ rest); [|lia|lia| |done].
    + f_equal. rewrite <- Z.lor_assoc. f_equal. change (v / 128) with (v / 2 ^ 7). rewrite <- Z.shiftr_div_pow2 by done. replace (7 * (s + 1)) with (7 * s + 7) by lia. apply Leb.group_split. lia.
    + replace (64 - 7 * (s + 1)) with (64 - 7 * s - 7) by lia. rewrite (Leb.pow_split (64 - 7 * s)) in Hv by lia. split; [apply Z.div_pos; lia|apply Z.div_lt_upper_bound; lia].
Qed.
Lemma varint_eq v u rest : 0 <= v < 2 ^ 64 -> cur u = varint_of v ++ rest -> varint u = Ok v (with_cur u rest).
Proof.
  intros Hv Hc. unfold varint. rewrite (varint_groups 10 v 0 0 u rest); [|lia|done|done|done]. change (7 * 0) with 0. by rewrite Z.shiftl_0_r, Z.lor_0_l.
Qed.
Lemma varint_length v : 1 <= zlen (varint_of v).
Proof. unfold varint_of. cbn [write_varint_from]. destruct (_ =? 0); rewrite zlen_cons; match goal with |- context [zlen ?l] => pose proof (zlen_nonneg l) end; lia. Qed.
Lemma exact_eq bs u rest : cur u = bs ++ rest -> exact (zlen bs) u = Ok bs (with_cur u rest).
Proof.
  intros Hc. unfold exact. rewrite Hc, zlen_app. pose proof (zlen_nonneg rest). destruct (Z.ltb_spec (zlen bs + zlen rest) (zlen bs)); [lia|].
  unfold zlen. rewrite Nat2Z.id, take_app_length, drop_app_length. done.
Qed.
Lemma len_eq k n u rest : 0 <= n < 2 ^ 60 -> 0 <= k <= 8 -> n * Z.max k 1 <= zlen rest -> cur u = varint_of n ++ rest -> len_capped k u = Ok n (with_cur u rest).
Proof.
  intros Hn Hk Hl Hc. unfold len_capped. rewrite (bind_eq _ _ _ _ _ (varint_eq n u rest ltac:(lia) Hc)). unfold bind at 1, remaining. cbn [with_cur cur].
  destruct (Z.leb_spec (2 ^ 64) (n * Z.max k 1)); [nia|]. destruct (Z.ltb_spec (zlen rest) (n * Z.max k 1)); [lia|]. done.
Qed.
Lemma zigzag_eq v : inS 64 v -> 0 <= zigzag v < 2 ^ 64 /\ unzigzag (zigzag v) = v.
Proof.
  intros Hv. unfold inS in Hv. assert (zigzag v = if v <? 0 then -2 * v - 1 else 2 * v) as ->.
  { unfold zigzag. rewrite Z.shiftr_div_pow2, Z.shiftl_mul_pow2 by lia. destruct (Z.ltb_spec v 0).
    - replace (v / 2 ^ 63) with (-1) by (Z.div_mod_to_equations; lia). rewrite Z.lxor_m1_r. unfold Z.lnot. unfold wrapU, wrapS. Z.div_mod_to_equations. lia.
    - rewrite Z.div_small, Z.lxor_0_r by lia. rewrite <- (wrapU_id 64 (2 * v)) by (unfold inU; lia). unfold wrapU, wrapS. Z.div_mod_to_equations. lia. }
  destruct (Z.ltb_spec v 0); (split; [lia|]); unfold unzigzag; rewrite Z.shiftr_div_pow2 by lia; change (2 ^ 1) with 2.
  - replace ((-2 * v - 1) / 2) with (- v - 1) by (Z.div_mod_to_equations; lia). rewrite (wrapS_id 64 (- v - 1)) by (unfold inS; lia || lia).
    assert (Z.land (-2 * v - 1) 1 = 1) as ->. { change 1 with (Z.ones 1) at 2. rewrite Z.land_ones by lia. change (2 ^ 1) with 2. Z.div_mod_to_equations. lia. }
    change (- i64 1) with (-1). rewrite Z.lxor_m1_r. unfold Z.lnot. lia.
  - replace (2 * v / 2) with v by (Z.div_mod_to_equations; lia). rewrite (wrapS_id 64 v) by (unfold inS; lia || lia).
    assert (Z.land (2 * v) 1 = 0) as ->. { change 1 with (Z.ones 1). rewrite Z.land_ones by lia. change (2 ^ 1) with 2. Z.div_mod_to_equations. lia. }
    change (- i64 0) with 0. by rewrite Z.lxor_0_r.
Qed.
Lemma byte_split x k : 0 <= k -> Z.lor (u8 x) (Z.shiftl (Z.shiftr x 8 mod 2 ^ k) 8) = x mod 2 ^ (k + 8).
Proof.
  intros Hk. unfold wrapU. apply Z.bits_inj'. intros i Hi. rewrite Z.lor_spec, !Z.testbit_mod_pow2, Z.shiftl_spec by lia. destruct (Z.ltb_spec i 8).
  - rewrite (Z.testbit_neg_r _ (i - 8)) by lia. destruct (Z.ltb_spec i (k + 8)); [btauto|lia].
  - rewrite Z.testbit_mod_pow2, Z.shiftr_spec by lia. replace (i - 8 + 8) with i by lia. destruct (Z.ltb_spec (i - 8) k), (Z.ltb_spec i (k + 8)); try lia; btauto.
Qed.
Lemma le_bytes_eq b : inU 64 b -> from_le_bytes (to_le_bytes b) = b /\ zlen (to_le_bytes b) = 8.
Proof.
  intros Hb. split; [|done]. assert (forall n i, 0 <= i -> from_le_bytes ((fun i => u8 (Z.shiftr b (8 * i))) <$> seqZ i (Z.of_nat n)) = Z.shiftr b (8 * i) mod 2 ^ (8 * Z.of_nat n)) as H.
  - induction n as [|n IH]; intros i Hi; [by rewrite Z.mod_1_r|]. rewrite seqZ_cons by lia. rewrite fmap_cons. replace (Z.pred (Z.of_nat (S n))) with (Z.of_nat n) by lia.
    match goal with |- from_le_bytes (?x :: ?l) = _ => change (from_le_bytes (x :: l)) with (Z.lor x (Z.shiftl (from_le_bytes l) 8)) end. rewrite IH by lia. replace (8 * Z.succ i) with (8 * i + 8) by lia. rewrite <- Z.shiftr_shiftr, byte_split by lia. f_equal. f_equal. lia.
  - etransitivity; [exact (H 8%nat 0 ltac:(lia))|]. rewrite Z.shiftr_0_r. by apply Z.mod_small.
Qed.

(** ** Vectors *)
(** What an object holds, and what it reaches through that. *)
Definition words_of (obj : object) : list Z := match obj with OBytes _ _ fs _ | OSlots _ fs => fs | OOops _ fs es => fs ++ es | _ => [] end.
Definition refers (v : vmstate) (o x : Z) : Prop := exists obj, object_at v o = Some obj /\ x ∈ words_of obj.
(** An instance of [Float64x2], [Float32x4] or [Int32x4]: its class has the
    format of [Double] and is another. *)
Definition vector (v : vmstate) (o : Z) : Prop := exists k kl, klass_of v o = Some k /\ as_klass v k = Some kl /\ k_format kl = Heap.Double /\
  k <> double_klass (universe v) /\ k <> alien_klass (universe v) /\ k <> objcref_klass (universe v).

(** ** Copies *)
Definition well_known : list (Universe -> Z) := [symbol_klass; string_klass; bytearray_klass; float_array_klass; large_pos_int_klass; large_neg_int_klass; array_klass].
(** Membership in a list that is written out. *)
Ltac member := unfold well_known, known_bytes; repeat first [apply list_elem_of_here | apply list_elem_of_further].
Definition interned (v : vmstate) (bytes : list Z) (o : Z) : Prop := exists M, symbols_ok v M /\ M !! bytes = Some o.
Section copies.
(** The sending world, and the receiving one before. *)
Context (v1 v0 : vmstate).
Definition class_named (name : list Z) (k : Z) : Prop :=
  exists sym assoc, object_at v0 sym = Some (OBytes (symbol_klass (universe v0)) (symbol_mark name) [] name) /\ global_lookup v0 sym = Some (Some assoc) /\ body_oop v0 assoc 1 = Some k.
Inductive same_klass : Z -> Z -> Prop :=
  | same_known f : f ∈ well_known -> same_klass (f (universe v1)) (f (universe v0))
  | same_named k kl name k' : as_klass v1 k = Some kl -> read_bytes_out v1 (k_name kl) = Some name -> class_named name k' -> same_klass k k'.

Section relation.
(** The objects with an identity met so far, here and there, in order; [v] is
    the receiving world, in which the objects [X] are unfinished. *)
Context (X t1 t2 : list Z) (v : vmstate).
Inductive copied : Z -> Z -> Prop :=
  | copied_nil : copied (nil_obj (universe v1)) (nil_obj (universe v0))
  | copied_false : copied (false_obj (universe v1)) (false_obj (universe v0))
  | copied_true : copied (true_obj (universe v1)) (true_obj (universe v0))
  | copied_smi w : SmallInt.smi_ok w -> copied w w
  | copied_double o o' bits : object_at v1 o = Some (ODouble bits) -> object_at v o' = Some (ODouble bits) -> o' ∉ X -> copied o o'
  | copied_char o o' code : object_at v1 o = Some (OSlots (character_klass (universe v1)) [code]) -> object_at v o' = Some (OSlots (character_klass (universe v0)) [code]) -> o' ∉ X -> copied o o'
  | copied_ref i o o' : t1 !! i = Some o -> t2 !! i = Some o' -> copied o o'.
Definition contents (obj obj' : object) : Prop :=
  match obj, obj' with
  | OBytes k _ fs bs, OBytes k' _ fs' bs' => same_klass k k' /\ Forall2 copied fs fs' /\ bs = bs'
  | OSlots k fs, OSlots k' fs' => same_klass k k' /\ Forall2 copied fs fs'
  | OOops k fs es, OOops k' fs' es' => same_klass k k' /\ Forall2 copied fs fs' /\ Forall2 copied es es'
  | _, _ => False
  end.
Definition entry (o o' : Z) : Prop := (o' ∉ X) /\ exists obj obj', object_at v1 o = Some obj /\ object_at v o' = Some obj' /\ contents obj obj' /\
  forall k mk fs bs, obj = OBytes k mk fs bs -> k = symbol_klass (universe v1) -> interned v bs o'.
Definition complete (from : nat) : Prop := forall i o o', (from <= i)%nat -> t1 !! i = Some o -> t2 !! i = Some o' -> entry o o'.
End relation.

(** A later world, in which at most an unfinished object has changed. *)
Definition later (X : list Z) (v v' : vmstate) : Prop := names v v' /\ exists h, grows h v v' /\ forall x, h = Some x -> x ∈ X.
Section mono.
Context (X t1 t2 t1' t2' : list Z) (v v' : vmstate) (Ht1 : t1 `prefix_of` t1') (Ht2 : t2 `prefix_of` t2') (Hl : later X v v').
Lemma kept_mono o obj : object_at v o = Some obj -> o ∉ X -> object_at v' o = Some obj.
Proof using Hl. destruct Hl as (_ & h & Hg & Hh). intros Ho Hx. apply (g_keep _ _ _ Hg); [done|]. intros <-. by apply Hx, Hh. Qed.
Lemma copied_mono o o' : copied X t1 t2 v o o' -> copied X t1' t2' v' o o'.
Proof using Ht1 Ht2 Hl.
  destruct 1; try (by constructor); try (econstructor; first [done|by apply kept_mono]; fail). by apply (copied_ref _ _ _ _ i); eapply prefix_lookup_Some.
Qed.
Lemma copieds_mono l l' : Forall2 (copied X t1 t2 v) l l' -> Forall2 (copied X t1' t2' v') l l'.
Proof using Ht1 Ht2 Hl. intros H. eapply Forall2_impl; [exact H|]. apply copied_mono. Qed.
Lemma entry_mono o o' : entry X t1 t2 v o o' -> entry X t1' t2' v' o o'.
Proof using Ht1 Ht2 Hl.
  intros (Hx & obj & obj' & Ho & Ho' & Hc & Hi). split; [done|]. exists obj, obj'. split_and!; [done|by apply kept_mono| |].
  - destruct obj, obj'; try done; cbn in *; decompose [and] Hc; split_and!; by try apply copieds_mono.
  - intros k mk fs bs E Ek. destruct (Hi _ _ _ _ E Ek) as (M & HM & Hb). destruct Hl as [Hn _]. destruct (Hn M HM) as (M' & Hsub & HM'). exists M'. split; [done|]. by eapply lookup_weaken.
Qed.
Lemma complete_mono from : length t1 = length t2 -> complete X t1 t2 v from -> complete X t1' t2' v' (length t1) -> complete X t1' t2' v' from.
Proof using Ht1 Ht2 Hl.
  intros Hlen H H' i o o' Hi Ho Ho'. destruct (decide (length t1 <= i)%nat) as [|Hlt]; [by eapply H'|]. apply entry_mono. apply (H i); [done|..].
  - destruct Ht1 as [k ->]. by rewrite lookup_app_l in Ho by lia. - destruct Ht2 as [k ->]. by rewrite lookup_app_l in Ho' by lia.
Qed.
End mono.
Section weaken.
Context (X X' t1 t2 : list Z) (v : vmstate) (HX : X ⊆ X').
Lemma copied_weaken o o' : copied X' t1 t2 v o o' -> copied X t1 t2 v o o'.
Proof using HX. destruct 1; econstructor; first [done|set_solver]. Qed.
Lemma copieds_weaken l l' : Forall2 (copied X' t1 t2 v) l l' -> Forall2 (copied X t1 t2 v) l l'.
Proof using HX. intros H. eapply Forall2_impl; [exact H|]. apply copied_weaken. Qed.
Lemma complete_weaken from : complete X' t1 t2 v from -> complete X t1 t2 v from.
Proof using HX.
  intros H i o o' Hi Ho Ho'. destruct (H i o o' Hi Ho Ho') as (Hx & obj & obj' & E & E' & Hc & Hin). split; [set_solver|]. exists obj, obj'. split_and!; try done.
  destruct obj, obj'; try done; cbn in *; decompose [and] Hc; split_and!; by try apply copieds_weaken.
Qed.
End weaken.
End copies.

(** ** The encoder and the decoder together *)
(** The words of boxed values: the bits of a double, and the codes of characters. *)
Definition values_ok (v : vmstate) : Prop :=
  (forall o bits, object_at v o = Some (ODouble bits) -> inU 64 bits) /\
  (forall o code, object_at v o = Some (OSlots (character_klass (universe v)) [code]) -> SmallInt.smi_ok code -> 0 <= SmallInt.value code).
(** The receiving world has a class of every name, of the same shape. *)
Definition knows (v1 v0 : vmstate) (M0 : gmap (list Z) Z) : Prop := forall k kl name, as_klass v1 k = Some kl ->
  k_format kl = Heap.Slots \/ k_format kl = Heap.IndexableOops \/ k_format kl = Heap.IndexableBytes -> read_bytes_out v1 (k_name kl) = Some name ->
  exists sym assoc k' kl', M0 !! name = Some sym /\ global_lookup v0 sym = Some (Some assoc) /\ body_oop v0 assoc 1 = Some k' /\
    as_klass v0 k' = Some kl' /\ k_format kl' = k_format kl /\ k_non_indexable_size kl' = k_non_indexable_size kl.

Definition roomy (v : vmstate) (n : Z) : Prop := forall i, bytes_words n <= eden_free v i.

Section roundtrip.
Context (v1 v0 : vmstate) (M0 : gmap (list Z) Z) (G : gmap Z Z) (max_bytes max_objects input : Z).
Context (W1 : world_ok v1) (V1 : values_ok v1) (W0 : world_ok v0) (S0 : symbols_ok v0 M0) (G0 : globals_ok v0 G) (K : knows v1 v0 M0) (Hmax : max_objects < MAX_OBJECTS).
(** Whenever a symbol is made, the eden has room for one as long as the input. *)
Context (E0 : roomy v0 input).
Abbreviation inv := (inv input v0 M0).
Abbreviation step := (step input v0 M0).
Abbreviation copied := (copied v1 v0).
Abbreviation complete := (complete v1 v0).
Abbreviation entry := (entry v1 v0).

(** *** The encoder's side *)
Lemma bind_inv {S E A B} (c : M S E A) (k : A -> M S E B) s y s' : bind c k s = Ok y s' -> exists x s1, c s = Ok x s1 /\ k x s1 = Ok y s'.
Proof using Type. unfold bind. destruct (c s) as [x s1|e s1| |code] eqn:Ec; try done. intros H. by exists x, s1. Qed.
Lemma lift_inv {S E A} (o : option A) (s : S) x s' : lift (E := E) o s = Ok x s' -> o = Some x /\ s' = s.
Proof using Type. unfold lift. destruct o; [|done]. by intros [= -> ->]. Qed.
Record seen_ok (m : gmap Z Z) (t : list Z) : Prop := {
  sn_lookup : forall o i, m !! o = Some i <-> exists n, i = Z.of_nat n /\ t !! n = Some o;
  sn_nodup : NoDup t;
  sn_size : size m = length t;
  sn_max : zlen t <= Z.max 0 max_objects }.
Lemma see_ok m t o : seen_ok m t -> m !! o = None -> Z.of_nat (size m) < max_objects -> seen_ok (<[o := u32 (Z.of_nat (size m))]> m) (t ++ [o]).
Proof using Hmax.
  intros [Hl Hn Hs Hm] Ho Hlt. assert (u32 (Z.of_nat (size m)) = Z.of_nat (length t)) as ->. { rewrite Hs in *. apply wrapU_id. unfold inU. change MAX_OBJECTS with 1000000 in Hmax. lia. }
  assert (o ∉ t) as Hni. { intros [n Hn']%list_elem_of_lookup. assert (m !! o = Some (Z.of_nat n)) as E by (apply Hl; by exists n). congruence. }
  split.
  - intros x i. rewrite lookup_insert_Some, Hl. split.
    + intros [[<- <-]|[Hne (n & -> & Hx)]]; [exists (length t); by rewrite list_lookup_middle|]. exists n. split; [done|]. by apply lookup_app_l_Some.
    + intros (n & -> & Hx). apply lookup_snoc_inv in Hx as [Hx|[-> ->]]; [|by left]. right. split; [|by exists n]. intros ->. apply Hni. by eapply list_elem_of_lookup_2.
  - apply NoDup_app. split_and!; [done| |apply NoDup_singleton]. intros x Hx ->%list_elem_of_singleton. done.
  - rewrite map_size_insert_None, Hs, length_app by done. cbn. lia.
  - rewrite zlen_snoc. unfold zlen. rewrite <- Hs. lia.
Qed.

(** *** The decoder's side *)
Lemma up_step d u o u' : inv 0 u -> up d u = Ok o u' -> step None u u' /\ valid (uvm u') o.
Proof using W0 G0. intros Hi E. pose proof (answers_up input v0 M0 G W0 G0 d u Hi) as H. unfold spec in H. by rewrite E in H. Qed.
Lemma later_step X u u' : step None u u' -> later X (uvm u) (uvm u').
Proof using Type. intros (Hg & _ & _ & _ & Hn). split; [done|]. by exists None. Qed.
Lemma inv_universe c u : inv c u -> universe (uvm u) = universe v0.
Proof using Type. intros Hi. apply (i_base _ _ _ _ _ Hi). Qed.
Lemma inv_cur_to c u rest : inv c u -> zlen rest <= zlen (cur u) -> inv c (with_cur u rest).
Proof using Type. intros Hi Hl. apply (inv_reads _ _ _ c u); [done..|]. cbn. lia. Qed.
Lemma new_eq u k obj : inv 0 u -> allocs k obj u -> shape_ok (uvm u) obj -> not_klass obj ->
  exists o' u', (let! b := k in push_handle b ;; ret b) u = Ok o' u' /\ object_at (uvm u) o' = None /\ object_at (uvm u') o' = Some obj /\ table u' = table u ++ [o'] /\ cur u' = cur u.
Proof using Type.
  intros Hi Ha Hs Hk. destruct (alloc_did input v0 M0 0 u k obj Hi ltac:(lia) Ha Hs Hk) as (o & u1 & E & _ & _ & Hn & Ho & Hi1 & Hc & Ht).
  destruct (fresh_base _ _ _ _ _ _ Hi Hn) as [H0 Hni]. rewrite (bind_eq _ _ _ _ _ E). destruct (push_did input v0 M0 None 0 u1 o Hi1 ltac:(lia)) as ([] & u2 & E2 & _ & _ & Hv2 & Hc2 & Ht2); [by rewrite Ho|done|by rewrite Ht|].
  rewrite (bind_eq _ _ _ _ _ E2). exists o, u2. split_and!; [done|done|by rewrite Hv2|by rewrite Ht2, Ht|by rewrite Hc2, Hc].
Qed.
Lemma intern_eq u bytes : inv 1 u -> zlen bytes < 2 ^ 60 -> zlen bytes <= input ->
  exists sym u', run_raw (intern bytes) u = Ok sym u' /\ step None u u' /\ cur u' = cur u /\ table u' = table u /\
  object_at (uvm u') sym = Some (OBytes (symbol_klass (universe (uvm u))) (symbol_mark bytes) [] bytes) /\ (forall o, M0 !! bytes = Some o -> sym = o) /\
  (exists M, M !! bytes = Some sym /\ symbols_ok (uvm u') M) /\ inv 0 (MkUst (cur u') (uvm u') (table u' ++ [sym])).
Proof using E0.
  intros Hi Hl Hb. apply intern_did; [done..|]. right. unfold has_room. rewrite (g_eden _ _ _ (i_base _ _ _ _ _ Hi)).
  etransitivity; [|apply E0]. unfold bytes_words. apply Z.add_le_mono_l, Z.div_le_mono; lia.
Qed.
(** The unfinished objects around. *)
Definition around (X : list Z) (u : ust) : Prop := Forall (fun x => exists sk nf ne, building x sk nf ne u) X.
Lemma around_new X u o : around X u -> object_at (uvm u) o = None -> o ∉ X.
Proof using Type. intros HX Hn Hin. unfold around in HX. rewrite Forall_forall in HX. destruct (HX o Hin) as (sk & nf & ne & obj & Ho & _). congruence. Qed.
Lemma around_step X u u' : around X u -> step None u u' -> around X u'.
Proof using Type. intros HX Hst. eapply Forall_impl; [exact HX|]. cbn. intros x (sk & nf & ne & Hb). exists sk, nf, ne. by eapply building_step. Qed.
Lemma around_symbol X u o k b fs bs : around X u -> object_at (uvm u) o = Some (OBytes k (symbol_mark b) fs bs) -> o ∉ X.
Proof using Type.
  intros HX Ho Hin. unfold around in HX. rewrite Forall_forall in HX. destruct (HX o Hin) as (sk & nf & ne & obj & Ho' & Hd). rewrite Ho in Ho'. injection Ho' as <-. destruct Hd as (_ & E & _). by apply symbol_mark_new in E.
Qed.
Lemma complete_none X t1 t2 v : complete X t1 t2 v (length t1).
Proof using Type. intros i o o' Hi Ho. apply lookup_lt_Some in Ho. lia. Qed.
Lemma complete_one X t1 t2 v o o' : length t1 = length t2 -> entry X (t1 ++ [o]) (t2 ++ [o']) v o o' -> complete X (t1 ++ [o]) (t2 ++ [o']) v (length t1).
Proof using Type.
  intros Hl He i x x' Hi [Hx|[-> ->]]%lookup_snoc_inv Hx'; [apply lookup_lt_Some in Hx; lia|]. apply lookup_snoc_inv in Hx' as [Hx'|[_ ->]]; [apply lookup_lt_Some in Hx'; lia|done].
Qed.

(** What the encoder makes of an object, the decoder makes a copy of. *)
Definition decodes (d : U Z) (o : Z) (t1 new bs : list Z) : Prop := forall u rest, inv 0 u -> cur u = bs ++ rest -> length (table u) = length t1 ->
  exists o' u', d u = Ok o' u' /\ step None u u' /\ cur u' = rest /\ length (table u') = length (t1 ++ new) /\
  forall X, around X u -> copied X (t1 ++ new) (table u') (uvm u') o o' /\ complete X (t1 ++ new) (table u') (uvm u') (length t1).
Definition codes (pk : Z -> P ()) (d : U Z) : Prop := forall o st st' t1, valid v1 o -> pk o st = Ok () st' -> seen_ok (seen st) t1 ->
  exists bs new, out st' = out st ++ bs /\ 1 <= zlen bs /\ seen_ok (seen st') (t1 ++ new) /\ decodes d o t1 new bs.

(** *** Below the tag *)
Definition yields (body : U Z) (o : Z) (t1 new bs : list Z) : Prop := forall u rest, inv 1 u -> cur u = bs ++ rest -> length (table u) = length t1 ->
  exists o' u', body u = Ok o' u' /\ cur u' = rest /\ length (table u') = length (t1 ++ new) /\
  (step None u u' -> forall X, around X u -> copied X (t1 ++ new) (table u') (uvm u') o o' /\ complete X (t1 ++ new) (table u') (uvm u') (length t1)).
Lemma yields_decodes d tag body o t1 new bs : zlen t1 < MAX_OBJECTS ->
  (forall u rest, cur u = tag :: rest -> zlen (table u) < MAX_OBJECTS -> up (S d) u = body (with_cur u rest)) -> yields body o t1 new bs -> decodes (up (S d)) o t1 new (tag :: bs).
Proof using W0 G0.
  intros Hlt Htag Hy u rest Hi Hc Ht. assert (inv 1 (with_cur u (bs ++ rest))) as Hi1. { apply (inv_reads _ _ _ 0 u); [done..|]. rewrite Hc. cbn [cur with_cur app]. rewrite zlen_cons. lia. }
  destruct (Hy _ rest Hi1 eq_refl Ht) as (o' & u' & E & Hc' & Ht' & Hx). assert (up (S d) u = Ok o' u') as Eu. { rewrite (Htag u (bs ++ rest)); [done..|]. unfold zlen in *. by rewrite Ht. }
  destruct (up_step _ _ _ _ Hi Eu) as [Hst _]. exists o', u'. split_and!; try done. intros X HX. apply Hx; [|done]. destruct Hst as (? & ? & _ & ? & ?). split_and!; try done.
  rewrite Hc'. cbn [cur with_cur]. rewrite zlen_app. pose proof (zlen_nonneg bs). lia.
Qed.
Lemma up_head tag u rest (k : Z -> vmstate -> U Z) : cur u = tag :: rest -> zlen (table u) < MAX_OBJECTS ->
  (let! t := get_table in if MAX_OBJECTS <=? zlen t then fail UTooManyObjects else let! tag := cur_u8 in let! vm := get_vm in k tag vm) u = k tag (uvm u) (with_cur u rest).
Proof using Type.
  intros Hc Ht. unfold bind at 1, get_table. destruct (Z.leb_spec MAX_OBJECTS (zlen (table u))); [lia|]. rewrite (bind_eq _ _ _ _ _ (u8_eq _ _ _ Hc)). done.
Qed.
Ltac dispatch := intros; cbn [up]; erewrite up_head by eassumption; reflexivity.

(** A word that stands for itself, and boxed values. *)
Lemma yields_ret (f : Universe -> Z) o t1 : (forall X t2 v, copied X t1 t2 v o (f (universe v0))) ->
  yields (let! vm := get_vm in ret (f (universe vm))) o t1 [] [].
Proof using Type.
  intros H u rest Hi Hc Ht. exists (f (universe v0)), u. split. { unfold bind, get_vm, ret. by rewrite (inv_universe _ _ Hi). } rewrite app_nil_r. split_and!; [by rewrite Hc|done|].
  intros _ X _. split; [apply H|apply complete_none].
Qed.
Lemma yields_smi o t1 : SmallInt.smi_ok o -> yields up_smi o t1 [] (varint_of (zigzag (SmallInt.value o))).
Proof using Type.
  intros Hs u rest Hi Hc Ht. destruct (SmallInt.value_in_range o Hs) as [Hr _]. destruct (zigzag_eq _ (SmallInt.range_inS _ Hr)) as [Hz Hu]. exists o, (with_cur u rest). split.
  { unfold up_smi. rewrite (bind_eq _ _ _ _ _ (varint_eq _ _ _ Hz Hc)), Hu. rewrite (proj2 (Z.leb_le _ _) (proj1 Hr)), (proj2 (Z.leb_le _ _) (proj2 Hr)). cbn [andb negb].
    unfold lift, SmallInt.new. by rewrite SmallInt.try_new_value. }
  rewrite app_nil_r. split_and!; [done|done|]. intros _ X _. split; [by apply copied_smi|apply complete_none].
Qed.
Lemma yields_double o bits t1 : object_at v1 o = Some (ODouble bits) -> yields up_double o t1 [] (to_le_bytes bits).
Proof using V1.
  intros Ho u rest Hi Hc Ht. destruct (le_bytes_eq bits (proj1 V1 _ _ Ho)) as [Hb Hl]. pose proof (exact_eq _ _ _ Hc) as E. rewrite Hl in E.
  assert (inv 0 (with_cur u rest)) as Hi0 by (apply (inv_reads _ _ _ 1 u); [done..|]; rewrite Hc, zlen_app; cbn [cur with_cur]; lia).
  destruct (alloc_did input v0 M0 0 _ (run (alloc_double bits)) (ODouble bits) Hi0 ltac:(lia)) as (o' & u' & Ea & _ & _ & Hn & Ho' & _ & Hc' & Ht'); [done..|].
  exists o', u'. split. { unfold up_double. rewrite (bind_eq _ _ _ _ _ E). by rewrite Hb. } rewrite app_nil_r. split_and!; [done|by rewrite Ht'|]. intros _ X HX. split; [|apply complete_none].
  eapply copied_double; [done..|]. by eapply around_new.
Qed.

Lemma inv_rest u bs rest : inv 1 u -> cur u = bs ++ rest -> inv 1 (with_cur u rest).
Proof using Type. intros Hi Hc. apply (inv_cur_to 1 u); [done|]. rewrite Hc, zlen_app. pose proof (zlen_nonneg bs). lia. Qed.
Lemma inv_rest0 u bs rest : inv 1 u -> cur u = bs ++ rest -> inv 0 (with_cur u rest).
Proof using Type. intros Hi Hc. apply (inv_weaken _ _ _ 1); [by eapply inv_rest|lia]. Qed.
Lemma yields_char o code t1 : object_at v1 o = Some (OSlots (character_klass (universe v1)) [code]) -> SmallInt.smi_ok code -> yields up_char o t1 [] (varint_of (u64 (SmallInt.value code))).
Proof using V1.
  intros Ho Hs u rest Hi Hc Ht. pose proof (proj2 V1 _ _ Ho Hs) as H0. destruct (SmallInt.value_in_range code Hs) as [Hr _]. change SMI_MAX with (2 ^ 61 - 1) in Hr. change SMI_MIN with (- 2 ^ 61) in Hr.
  rewrite wrapU_id in Hc by (unfold inU; lia). assert (0 <= SmallInt.value code < 2 ^ 64) as Hv by lia. pose proof (inv_rest0 _ _ _ Hi Hc) as Hi1. set (u1 := with_cur u rest) in *. set (k := character_klass (universe (uvm u1))).
  pose proof (w_character _ (i_world _ _ _ _ _ Hi1)) as Hk. fold k in Hk. destruct (klass_is_as _ _ _ _ Hk) as (kl & Hkl & _ & Hn).
  assert (valid (uvm u1) (nil_obj (universe (uvm u1)))) as Hnil by (right; apply Hi1).
  destruct (alloc_did input v0 M0 0 u1 (try_run (nil_slots k)) (OSlots k [nil_obj (universe (uvm u1))]) Hi1 ltac:(lia)) as (o' & u2 & Ea & Hst & _ & Hnew & Ho' & Hi2 & Hc2 & Ht2).
  { unfold allocs, try_run, nil_slots. rewrite Hkl. cbn [mbind option_bind]. by rewrite Hn. }
  { cbn. split; [done|]. by apply Forall_singleton. } { done. }
  destruct (fresh_base _ _ _ _ _ _ Hi1 Hnew) as [Hb _]. destruct Hst as (Hg & _).
  destruct (set_did input v0 M0 o' u2 (set_body_oop o' 0 code) _ (OSlots k [code]) Hi2 Hb Ho') as (? & u3 & Es & _ & Ho3 & Ht3 & Hc3); [done..| |unfold set_body_oop; by rewrite Ho'|].
  { cbn. split; [by eapply klass_is_mono|]. apply Forall_singleton. by left. }
  exists o', u3. split.
  - unfold up_char. rewrite (bind_eq _ _ _ _ _ (varint_eq _ _ _ Hv Hc)). destruct (Z.ltb_spec SMI_MAX (SmallInt.value code)) as [Hlt|_]; [change SMI_MAX with (2 ^ 61 - 1) in Hlt; lia|].
    unfold bind at 1, get_vm. fold u1 k. rewrite (bind_eq _ _ _ _ _ Ea). unfold bind at 1, lift, SmallInt.new. rewrite SmallInt.try_new_value by done. by rewrite (bind_eq _ _ _ _ _ Es).
  - rewrite app_nil_r. split_and!; [by rewrite Hc3, Hc2|by rewrite Ht3, Ht2|]. intros _ X HX. split; [|apply complete_none]. eapply copied_char; [done| |by eapply around_new]. rewrite Ho3. unfold k. by rewrite (inv_universe _ _ Hi1).
Qed.
Lemma yields_backref o t1 i : t1 !! i = Some o -> Z.of_nat i < 2 ^ 64 -> yields up_backref o t1 [] (varint_of (Z.of_nat i)).
Proof using Type.
  intros Ho Hi0 u rest Hi Hc Ht. destruct (lookup_lt_is_Some_2 (table u) i) as [o' Ho']. { rewrite Ht. by eapply lookup_lt_Some. }
  exists o', (with_cur u rest). split.
  { unfold up_backref. rewrite (bind_eq _ _ _ _ _ (varint_eq (Z.of_nat i) u rest ltac:(lia) Hc)). unfold bind, get_table, zlookup. destruct (Z.ltb_spec (Z.of_nat i) 0); [lia|]. rewrite Nat2Z.id. cbn [table with_cur]. by rewrite Ho'. }
  rewrite app_nil_r. split_and!; [done|done|]. intros _ X _. split; [by eapply copied_ref|apply complete_none].
Qed.
(** An object of bytes of a well-known klass. *)
Lemma bytes_of_known f o k mk fs bs : f ∈ well_known -> k = f (universe v1) -> object_at v1 o = Some (OBytes k mk fs bs) -> fs = [] /\ zlen bs < 2 ^ 60.
Proof using W1.
  intros Hf -> Ho. pose proof (w_objects _ W1 _ _ Ho) as (Hk & _ & Hl). split; [|done]. assert (exists f', klass_is v1 (f (universe v1)) f' 0) as (f' & H0).
  { pose proof (w_bytes _ W1) as Hb. rewrite Forall_forall in Hb. unfold well_known in Hf. assert (f (universe v1) = array_klass (universe v1) \/ f (universe v1) ∈ known_bytes (universe v1)) as [->|H]; [|eexists; apply W1|]. { repeat (apply elem_of_cons in Hf as [->|Hf]; [first [by left|right; member]|]). by apply not_elem_of_nil in Hf. } exists Heap.IndexableBytes. by apply Hb. }
  destruct (klass_is_fun _ _ _ _ _ _ Hk H0) as [_ E]. unfold zlen in E. destruct fs; [done|]. cbn in E. lia.
Qed.
Lemma entry_bytes X t1 t2 v f o o' mk bs : f ∈ well_known -> object_at v1 o = Some (OBytes (f (universe v1)) mk [] bs) -> object_at v o' = Some (OBytes (f (universe v0)) MARK_PRISTINE [] bs) ->
  f (universe v1) <> symbol_klass (universe v1) -> o' ∉ X -> entry X t1 t2 v o o'.
Proof using Type.
  intros Hf Ho Ho' Hne Hx. split; [done|]. eexists _, _. split_and!; [exact Ho|exact Ho'| |].
  - cbn. split_and!; [by apply same_known|constructor|done]. - by intros k mk' fs bs' [= <- <- <- <-] E.
Qed.
(** The object that [body] makes for [o] is its copy. *)
Lemma yields_entry (body : U Z) o t1 bs : (forall u rest, inv 1 u -> cur u = bs ++ rest -> length (table u) = length t1 ->
    exists o' u', body u = Ok o' u' /\ cur u' = rest /\ table u' = table u ++ [o'] /\ (step None u u' -> forall X, around X u -> entry X (t1 ++ [o]) (table u') (uvm u') o o')) ->
  yields body o t1 [o] bs.
Proof using Type.
  intros H u rest Hi Hc Ht. destruct (H u rest Hi Hc Ht) as (o' & u' & E & Hc' & Ht' & Hx). exists o', u'. split_and!; [done|done|rewrite Ht', !length_app; cbn; lia|].
  intros Hst X HX. split; [apply (copied_ref _ _ _ _ _ _ (length t1)); [by apply list_lookup_middle|]; rewrite Ht', <- Ht; by apply list_lookup_middle|].
  specialize (Hx Hst X HX). rewrite Ht' in *. by apply complete_one.
Qed.
Lemma new_bytes_eq u bytes f : inv 0 u -> f (universe v0) ∈ known_bytes (universe v0) -> zlen bytes < 2 ^ 60 ->
  exists o' u', (let! vm := get_vm in let! b := run (alloc_indexable_bytes (f (universe vm)) bytes) in push_handle b ;; ret b) u = Ok o' u' /\
    object_at (uvm u) o' = None /\ object_at (uvm u') o' = Some (OBytes (f (universe v0)) MARK_PRISTINE [] bytes) /\ table u' = table u ++ [o'] /\ cur u' = cur u.
Proof using Type.
  intros Hi Hf Hl. unfold bind at 1, get_vm. rewrite (inv_universe _ _ Hi). apply new_eq; [done..| |done]. cbn. split_and!; [|constructor|done].
  apply known_bytes_is; [apply Hi|]. by rewrite (inv_universe _ _ Hi).
Qed.
Lemma yields_bytes f o mk bs t1 : f ∈ well_known -> f (universe v0) ∈ known_bytes (universe v0) -> object_at v1 o = Some (OBytes (f (universe v1)) mk [] bs) -> zlen bs < 2 ^ 60 ->
  f (universe v1) <> symbol_klass (universe v1) -> yields (up_bytes f) o t1 [o] (varint_of (zlen bs) ++ bs).
Proof using Type.
  intros Hf Hk Ho Hl Hne. apply yields_entry. intros u rest Hi Hc Ht. rewrite <- (assoc_L (++)) in Hc. pose proof (zlen_nonneg bs). pose proof (zlen_nonneg rest).
  assert (len_capped 1 u = Ok (zlen bs) (with_cur u (bs ++ rest))) as E1 by (apply len_eq; [lia|lia|rewrite zlen_app; lia|done]).
  pose proof (exact_eq bs (with_cur u (bs ++ rest)) rest eq_refl) as E2. assert (inv 0 (with_cur u rest)) as Hi1 by (eapply (inv_rest0 u (varint_of (zlen bs) ++ bs)); [done|by rewrite <- (assoc_L (++))]).
  destruct (new_bytes_eq _ bs f Hi1 Hk Hl) as (o' & u' & E3 & Hn & Ho' & Ht' & Hc'). exists o', u'. split_and!; [|done|done|].
  - unfold up_bytes. rewrite (bind_eq _ _ _ _ _ E1), (bind_eq _ _ _ _ _ E2). exact E3.
  - intros _ X HX. eapply entry_bytes; [done..|]. by eapply around_new.
Qed.
Lemma yields_floats o mk bs t1 : object_at v1 o = Some (OBytes (float_array_klass (universe v1)) mk [] bs) -> zlen bs < 2 ^ 60 -> zlen bs mod 8 = 0 ->
  float_array_klass (universe v1) <> symbol_klass (universe v1) -> yields up_floats o t1 [o] (varint_of (zlen bs / 8) ++ bs).
Proof using All.
  intros Ho Hl Hm Hne. apply yields_entry. intros u rest Hi Hc Ht. rewrite <- (assoc_L (++)) in Hc. pose proof (zlen_nonneg bs). pose proof (zlen_nonneg rest).
  assert (zlen bs / 8 * 8 = zlen bs) as H8 by (Z.div_mod_to_equations; lia).
  assert (len_capped 8 u = Ok (zlen bs / 8) (with_cur u (bs ++ rest))) as E1. { apply len_eq; [Z.div_mod_to_equations; lia|lia|rewrite zlen_app; change (8 `max` 1) with 8; lia|done]. }
  pose proof (exact_eq bs (with_cur u (bs ++ rest)) rest eq_refl) as E2. assert (inv 0 (with_cur u rest)) as Hi1 by (eapply (inv_rest0 u (varint_of (zlen bs / 8) ++ bs)); [done|by rewrite <- (assoc_L (++))]).
  destruct (new_bytes_eq _ bs float_array_klass Hi1 ltac:(member) Hl) as (o' & u' & E3 & Hn & Ho' & Ht' & Hc'). exists o', u'. split_and!; [|done|done|].
  - unfold up_floats. rewrite (bind_eq _ _ _ _ _ E1), H8, (bind_eq _ _ _ _ _ E2). exact E3.
  - intros _ X HX. eapply (entry_bytes _ _ _ _ float_array_klass); [unfold well_known; set_solver|done..|]. by eapply around_new.
Qed.
Lemma yields_large (negative : bool) o mk bs t1 : let f := if negative then large_neg_int_klass else large_pos_int_klass in
  object_at v1 o = Some (OBytes (f (universe v1)) mk [] bs) -> zlen bs < 2 ^ 60 -> f (universe v1) <> symbol_klass (universe v1) ->
  yields up_large o t1 [o] ((if negative then 1 else 0) :: varint_of (zlen bs) ++ bs).
Proof using All.
  intros f Ho Hl Hne u rest Hi Hc Ht. pose proof (u8_eq _ _ _ Hc) as E.
  assert (inv 1 (with_cur u ((varint_of (zlen bs) ++ bs) ++ rest))) as Hi1. { apply (inv_cur_to 1 u); [done|]. rewrite Hc. cbn [app]. rewrite zlen_cons. lia. }
  assert (f ∈ well_known /\ f (universe v0) ∈ known_bytes (universe v0)) as [Hf Hf']. { unfold f, well_known, known_bytes. destruct negative; split; member. }
  destruct (yields_bytes f o mk bs t1 Hf Hf' Ho Hl Hne _ rest Hi1 eq_refl Ht) as (o' & u' & E' & Hc' & Ht' & Hx). exists o', u'. split_and!; [|done|done|].
  - unfold up_large. rewrite (bind_eq _ _ _ _ _ E). unfold f in E'. by destruct negative.
  - intros (Hg & Hi' & _ & Hp & Hn). apply Hx. split_and!; try done. rewrite Hc'. cbn [cur with_cur]. rewrite zlen_app. pose proof (zlen_nonneg (varint_of (zlen bs) ++ bs)). lia.
Qed.
Lemma yields_symbol o mk bs t1 : object_at v1 o = Some (OBytes (symbol_klass (universe v1)) mk [] bs) -> zlen bs < 2 ^ 60 -> yields up_symbol o t1 [o] (varint_of (zlen bs) ++ bs).
Proof using All.
  intros Ho Hl. apply yields_entry. intros u rest Hi Hc Ht. rewrite <- (assoc_L (++)) in Hc. pose proof (zlen_nonneg bs). pose proof (zlen_nonneg rest).
  assert (len_capped 1 u = Ok (zlen bs) (with_cur u (bs ++ rest))) as E1 by (apply len_eq; [lia|lia|rewrite zlen_app; lia|done]).
  pose proof (exact_eq bs (with_cur u (bs ++ rest)) rest eq_refl) as E2. assert (inv 1 (with_cur u rest)) as Hi1 by (eapply (inv_rest u (varint_of (zlen bs) ++ bs)); [done|by rewrite <- (assoc_L (++))]).
  assert (zlen bs <= input) as Hbi. { pose proof (i_input _ _ _ _ _ Hi) as Hin. rewrite Hc, !zlen_app in Hin. pose proof (varint_length (zlen bs)). lia. }
  destruct (intern_eq _ bs Hi1 Hl Hbi) as (sym & u1 & E3 & Hst & Hc1 & Ht1 & Hsym & _ & (M & HM & HsM) & _). exists sym, (MkUst (cur u1) (uvm u1) (table u1 ++ [sym])). cbn [cur uvm table]. split_and!; [|done|by rewrite Ht1|].
  - unfold up_symbol. by rewrite (bind_eq _ _ _ _ _ E1), (bind_eq _ _ _ _ _ E2), (bind_eq _ _ _ _ _ E3).
  - intros Hst' X HX. cbn [uvm with_cur] in Hsym. rewrite (inv_universe _ _ Hi) in Hsym. split; [eapply around_symbol; [by eapply around_step|exact Hsym]|].
    eexists _, _. split_and!; [exact Ho|exact Hsym| |].
    + cbn. split_and!; [apply (same_known _ _ symbol_klass); member|constructor|done].
    + intros k mk' fs bs' [= <- <- <- <-] _. by exists M.
Qed.

(** *** Variables and elements, one after the other *)
(** [put] writes the [n] places of [h], whose object is [build] of what they hold. *)
Record filler (h : Z) (build : list Z -> object) (put : Z -> Z -> vmstate -> option vmstate) (n : Z) : Prop := {
  fl_dims : forall l, zlen l = n -> exists sk nf ne, has_dims sk nf ne (build l);
  fl_shape : forall v l i x, shape_ok v (build l) -> valid v x -> shape_ok v (build (zinsert l i x));
  fl_put : forall v l i x, object_at v h = Some (build l) -> 0 <= i < zlen l -> put i x v = set_object h (build (zinsert l i x)) v }.
Lemma filler_put h build put n u l i x : filler h build put n -> object_at v0 h = None -> inv 0 u -> object_at (uvm u) h = Some (build l) -> zlen l = n -> 0 <= i < n -> valid (uvm u) x ->
  exists u', update (put i x) u = Ok () u' /\ step (Some h) u u' /\ object_at (uvm u') h = Some (build (zinsert l i x)) /\ table u' = table u /\ cur u' = cur u.
Proof using All.
  intros [Hd Hs Hp] H0 Hi Ho Hl Hr Hx. destruct (Hd l Hl) as (sk & nf & ne & Hd1). destruct (Hd (zinsert l i x) ltac:(by rewrite zlen_insert)) as (sk' & nf' & ne' & Hd2).
  destruct (set_did input v0 M0 h u (put i x) _ (build (zinsert l i x)) Hi H0 Ho) as ([] & u' & E & Hst & H); [by eapply dims_not_klass|by eapply dims_not_klass| | |apply Hp; [done|lia]|by exists u'].
  - intros k mk fs bs E. rewrite E in Hd1. apply Hd1. - apply Hs; [|done]. by apply (w_objects _ (i_world _ _ _ _ _ Hi) h).
Qed.
Definition fills (d : U Z) (es : list Z) (i : Z) (t1 new bs : list Z) : Prop := forall h build put n u rest pre todo, filler h build put n -> object_at v0 h = None ->
  inv 0 u -> cur u = bs ++ rest -> length (table u) = length t1 -> object_at (uvm u) h = Some (build (pre ++ todo)) -> zlen pre = i -> length todo = length es -> zlen (pre ++ todo) = n ->
  exists u' es', for_range (length es) i (fun i => let! child := d in update (put i child)) u = Ok () u' /\ step (Some h) u u' /\ cur u' = rest /\
    length (table u') = length (t1 ++ new) /\ object_at (uvm u') h = Some (build (pre ++ es')) /\ length es' = length es /\
    forall X, h ∈ X -> around X u -> Forall2 (copied X (t1 ++ new) (table u') (uvm u')) es es' /\ complete X (t1 ++ new) (table u') (uvm u') (length t1).
Lemma later_put X h u u' : h ∈ X -> step (Some h) u u' -> later X (uvm u) (uvm u').
Proof using All. intros Hh (Hg & _ & _ & _ & Hn). split; [done|]. exists (Some h). split; [done|]. by intros x [= <-]. Qed.
Lemma around_put X h u u' sk nf ne obj : around X u -> grows (Some h) (uvm u) (uvm u') -> object_at (uvm u') h = Some obj -> has_dims sk nf ne obj -> around X u'.
Proof using All.
  intros HX Hg Ho Hd. eapply Forall_impl; [exact HX|]. cbn. intros x (sk' & nf' & ne' & obj' & Hx & Hd'). destruct (decide (x = h)) as [->|]; [by exists sk, nf, ne, obj|].
  exists sk', nf', ne', obj'. split; [|done]. apply (g_keep _ _ _ Hg); [done|congruence].
Qed.
Lemma loop_codes (pk : Z -> P ()) (d : U Z) (get : Z -> option Z) (Hc : codes pk d) es : forall i st st' t1, Forall (valid v1) es -> (forall j x, es !! j = Some x -> get (i + Z.of_nat j) = Some x) ->
  for_range (length es) i (fun i => let! x := lift (get i) in pk x) st = Ok () st' -> seen_ok (seen st) t1 ->
  exists bs new, out st' = out st ++ bs /\ zlen es <= zlen bs /\ seen_ok (seen st') (t1 ++ new) /\ fills d es i t1 new bs.
Proof using All.
  induction es as [|x es IH]; intros i st st' t1 Hv Hget E Hs.
  { cbn in E. injection E as <-. exists [], []. rewrite !app_nil_r. split_and!; try done. intros h build put n u rest pre todo Hf H0 Hi Hcu Ht Ho Hp Hl Hn. destruct todo; [|done].
    exists u, []. rewrite !app_nil_r in *. split_and!; try done; [by apply step_refl|]. intros X _ _. split; [constructor|apply complete_none]. }
  apply Forall_cons in Hv as [Hx Hv]. cbn [length for_range] in E. apply bind_inv in E as ([] & st1 & E1 & E2). apply bind_inv in E1 as (x' & st0 & [Eg ->]%lift_inv & E1).
  pose proof (Hget 0%nat x eq_refl) as Hg0. rewrite Z.add_0_r, Eg in Hg0. injection Hg0 as ->.
  destruct (Hc x st st1 t1 Hx E1 Hs) as (b1 & n1 & Ho1 & Hb1 & Hs1 & Hd1).
  destruct (IH (i + 1) st1 st' (t1 ++ n1) Hv) as (b2 & n2 & Ho2 & Hb2 & Hs2 & Hd2); [|done..|].
  { intros j y Hj. replace (i + 1 + Z.of_nat j) with (i + Z.of_nat (S j)) by lia. by apply Hget. }
  rewrite <- (assoc_L (++)) in Hs2. exists (b1 ++ b2), (n1 ++ n2). split_and!; [by rewrite Ho2, Ho1, (assoc_L (++))|rewrite zlen_cons, zlen_app; lia|done|].
  intros h build put n u rest pre todo Hf H0 Hi Hcu Ht Ho Hp Hl Hn. destruct todo as [|y todo]; [done|]. rewrite <- (assoc_L (++)) in Hcu.
  destruct (Hd1 u (b2 ++ rest) Hi Hcu Ht) as (x2 & u1 & E3 & Hst1 & Hcu1 & Ht1 & Hx1). pose proof Hst1 as (Hg1 & Hi1 & _).
  assert (object_at (uvm u1) h = Some (build (pre ++ y :: todo))) as Ho3 by by apply Hg1. assert (zlen (pre ++ y :: todo) = zlen pre + 1 + zlen todo) as Hlen by (rewrite zlen_app, zlen_cons; lia).
  pose proof (zlen_nonneg pre). pose proof (zlen_nonneg todo). assert (valid (uvm u1) x2) as Hvx.
  { destruct (Hx1 [] ltac:(constructor)) as [Hcp _]. clear -Hcp Hi1. pose proof (i_world _ _ _ _ _ Hi1) as Hw. pose proof (inv_universe 0 u1 Hi1) as Hun. destruct Hcp; [right; rewrite <- Hun; apply Hw..|by left|right; by eexists|right; by eexists|].
    right. pose proof (i_table _ _ _ _ _ Hi1) as Htb. rewrite Forall_forall in Htb. apply Htb. by eapply list_elem_of_lookup_2. }
  destruct (filler_put h build put n u1 _ i x2 Hf H0 Hi1 Ho3 Hn ltac:(lia) Hvx) as (u2 & E4 & Hst2 & Ho4 & Ht2 & Hcu2). pose proof Hst2 as (Hg2 & Hi2 & _).
  assert (zinsert (pre ++ y :: todo) i x2 = (pre ++ [x2]) ++ todo) as Hins. { rewrite zinsert_app_r, <- Hp, Z.sub_diag by lia. by rewrite <- (assoc_L (++)). } rewrite Hins in Ho4.
  destruct (Hd2 h build put n u2 rest (pre ++ [x2]) todo Hf H0 Hi2) as (u3 & es' & E5 & Hst3 & Hcu3 & Ht3 & Ho5 & Hle & Hx3); [by rewrite Hcu2|by rewrite Ht2, Ht1|done|by rewrite zlen_snoc, Hp|by injection Hl|rewrite zlen_app, zlen_snoc; lia|].
  rewrite <- !(assoc_L (++)) in *. exists u3, (x2 :: es'). split_and!; try done.
  - cbn [length for_range]. erewrite bind_eq; [exact E5|]. by rewrite (bind_eq _ _ _ _ _ E3).
  - etransitivity; [by apply step_weaken|]. by etransitivity.
  - cbn. congruence.
  - intros X Hh HX. destruct (Hx1 X HX) as [Hcp Hcm]. pose proof (around_step _ _ _ HX Hst1) as HX1. assert (around X u2) as HX2.
    { destruct (fl_dims _ _ _ _ Hf (pre ++ x2 :: todo)) as (sk & nf & ne & Hdm); [rewrite zlen_app, zlen_cons; lia|]. by eapply around_put. }
    destruct (Hx3 X Hh HX2) as [Hcps Hcm3]. assert (step (Some h) u1 u3) as Hst13 by by etransitivity. pose proof (later_put X h u1 u3 Hh Hst13) as Hlat. assert (table u1 `prefix_of` table u3) as Hpre by apply Hst13.
    assert ((t1 ++ n1) `prefix_of` (t1 ++ n1 ++ n2)) as Hpre1 by (rewrite (assoc_L (++)); by apply prefix_app_r). split.
    + constructor; [by eapply copied_mono|done].
    + by eapply (complete_mono _ _ X (t1 ++ n1) (table u1)).
Qed.

Lemma filler_elems h k fs n : filler h (fun l => OOops k fs l) (at_put h) n.
Proof using All.
  split; cbn beta.
  - intros l Hl. by exists SUBKIND_OOPS, (zlen fs), n.
  - intros v l i x (? & ? & ? & ?) Hx. cbn. rewrite zlen_insert. split_and!; try done. by apply Forall_zinsert.
  - intros v l i x Ho Hi. unfold at_put. by rewrite Ho, zset_ok.
Qed.
Lemma filler_slots h k n : filler h (fun l => OSlots k l) (set_body_oop h) n.
Proof using All.
  split; cbn beta.
  - intros l Hl. by exists SUBKIND_SLOTS, n, 0.
  - intros v l i x (? & ?) Hx. cbn. rewrite zlen_insert. split_and!; try done. by apply Forall_zinsert.
  - intros v l i x Ho Hi. unfold set_body_oop. by rewrite Ho, zset_ok.
Qed.
Lemma filler_oops h k es n : filler h (fun l => OOops k l es) (set_body_oop h) n.
Proof using All.
  split; cbn beta.
  - intros l Hl. by exists SUBKIND_OOPS, n, (zlen es).
  - intros v l i x (? & ? & ? & ?) Hx. cbn. rewrite zlen_insert. split_and!; try done. by apply Forall_zinsert.
  - intros v l i x Ho Hi. unfold set_body_oop. by rewrite Ho, zset_ok.
Qed.
Lemma filler_bytes h k bs n : filler h (fun l => OBytes k MARK_PRISTINE l bs) (set_body_oop h) n.
Proof using All.
  split; cbn beta.
  - intros l Hl. by exists SUBKIND_BYTES, n, (zlen bs).
  - intros v l i x (? & ? & ?) Hx. cbn. rewrite zlen_insert. split_and!; try done. by apply Forall_zinsert.
  - intros v l i x Ho Hi. unfold set_body_oop. by rewrite Ho, zset_ok.
Qed.
(** A new container and its handle. *)
Lemma spine_eq u c obj sk nf ne : inv 0 u -> allocs c obj u -> shape_ok (uvm u) obj -> has_dims sk nf ne obj ->
  exists h u', (forall A (k : Z -> U A), (let! h := c in push_handle h ;; k h) u = k h u') /\ object_at (uvm u) h = None /\ object_at v0 h = None /\ object_at (uvm u') h = Some obj /\
    inv 0 u' /\ step None u u' /\ table u' = table u ++ [h] /\ cur u' = cur u.
Proof using All.
  intros Hi Ha Hs Hd. destruct (alloc_did input v0 M0 0 u c obj Hi ltac:(lia) Ha Hs ltac:(by eapply dims_not_klass)) as (h & u1 & E & Hst & _ & Hn & Ho & Hi1 & Hc & Ht).
  destruct (fresh_base _ _ _ _ _ _ Hi Hn) as [H0 Hni]. destruct (push_did input v0 M0 None 0 u1 h Hi1 ltac:(lia)) as ([] & u2 & E2 & Hst2 & Hi2 & Hv2 & Hc2 & Ht2); [by rewrite Ho|done|by rewrite Ht|].
  exists h, u2. split_and!; try done; [|by rewrite Hv2|by etransitivity|by rewrite Ht2, Ht|by rewrite Hc2, Hc]. intros A k. by rewrite (bind_eq _ _ _ _ _ E), (bind_eq _ _ _ _ _ E2).
Qed.
Lemma complete_cons X t1 t2 v n o o' : t1 !! n = Some o -> t2 !! n = Some o' -> entry X t1 t2 v o o' -> complete X t1 t2 v (S n) -> complete X t1 t2 v n.
Proof using Type.
  intros Ho Ho' He Hc i x x' Hi Hx Hx'. destruct (decide (i = n)) as [->|]; [|apply (Hc i); [lia|done..]]. rewrite Ho in Hx. rewrite Ho' in Hx'. by injection Hx as <-; injection Hx' as <-.
Qed.
(** The copy of a container: [u0] when it is allocated, [u'] when it is full. *)
Lemma container_copied X t1 new o h u0 u1 u' obj obj' : length (table u0) = length t1 -> object_at (uvm u0) h = None -> table u1 = table u0 ++ [h] -> table u1 `prefix_of` table u' ->
  around X u0 -> object_at v1 o = Some obj -> object_at (uvm u') h = Some obj' -> contents v1 v0 (h :: X) (t1 ++ o :: new) (table u') (uvm u') obj obj' ->
  (forall k mk fs bs, obj = OBytes k mk fs bs -> k <> symbol_klass (universe v1)) -> complete (h :: X) (t1 ++ o :: new) (table u') (uvm u') (S (length t1)) ->
  copied X (t1 ++ o :: new) (table u') (uvm u') o h /\ complete X (t1 ++ o :: new) (table u') (uvm u') (length t1).
Proof using Type.
  intros Hl Hn Ht1 Hp HX Ho Ho' Hc Hns Hcm. assert ((t1 ++ o :: new) !! length t1 = Some o) as E1 by by apply list_lookup_middle.
  assert (table u' !! length t1 = Some h) as E2. { destruct Hp as [k ->]. rewrite Ht1, <- Hl, <- (assoc_L (++)). by apply list_lookup_middle. }
  split; [by eapply copied_ref|]. assert (X ⊆ h :: X) as Hsub by (intros x Hx; by right). eapply complete_cons; [done..| |by eapply complete_weaken].
  split; [by eapply around_new|]. exists obj, obj'. split_and!; try done.
  - destruct obj, obj'; try done; cbn in *; decompose [and] Hc; split_and!; by try eapply copieds_weaken.
  - intros k mk fs bs E Ek. by destruct (Hns k mk fs bs E).
Qed.
Lemma around_cons X h u0 u' sk nf ne obj : around X u0 -> step None u0 u' -> object_at (uvm u') h = Some obj -> has_dims sk nf ne obj -> around (h :: X) u'.
Proof using Type. intros HX Hst Ho Hd. apply Forall_cons. split; [by exists sk, nf, ne, obj|by eapply around_step]. Qed.
Lemma yields_array d es fs o t1 new bs : object_at v1 o = Some (OOops (array_klass (universe v1)) fs es) -> fills d es 0 (t1 ++ [o]) new bs -> zlen es <= zlen bs ->
  yields (up_array d) o t1 (o :: new) (varint_of (zlen es) ++ bs).
Proof using All.
  intros Ho Hf Hle u rest Hi Hc Ht. rewrite <- (assoc_L (++)) in Hc. pose proof (w_objects _ W1 _ _ Ho) as (Hk & _ & _ & Hlt). pose proof (zlen_nonneg es). pose proof (zlen_nonneg rest).
  assert (fs = []) as ->. { destruct (klass_is_fun _ _ _ _ _ _ Hk (w_array _ W1)) as [_ E]. unfold zlen in E. destruct fs; [done|]. cbn in E. lia. }
  set (u1 := with_cur u (bs ++ rest)). assert (len_capped 1 u = Ok (zlen es) u1) as E1 by (apply len_eq; [lia|lia|rewrite zlen_app; lia|done]). assert (inv 0 u1) as Hi1 by by eapply inv_rest0.
  set (nil := nil_obj (universe (uvm u1))). set (spine := replicate (length es) nil). set (k := array_klass (universe (uvm u1))).
  destruct (spine_eq u1 (run (alloc_indexable_oops k (zlen es))) (OOops k [] spine) SUBKIND_OOPS 0 (zlen es) Hi1) as (h & u2 & E2 & Hn & Hbase & Ho2 & Hi2 & Hst2 & Ht2 & Hc2).
  { unfold allocs, run, alloc_indexable_oops, spine, zlen. by rewrite Nat2Z.id. }
  { cbn. split_and!; [apply (i_world _ _ _ _ _ Hi1)|constructor|apply Forall_replicate; right; apply Hi1|]. unfold spine. rewrite zlen_replicate. done. }
  { cbn. split_and!; [done..|]. unfold spine. by rewrite zlen_replicate. }
  destruct (Hf h (fun l => OOops k [] l) (at_put h) (zlen es) u2 rest [] spine (filler_elems h k [] _) Hbase Hi2) as (u3 & es' & E3 & Hst3 & Hc3 & Ht3 & Ho3 & Hl3 & Hx); [done|rewrite Ht2, !length_app; by rewrite <- Ht|done|done|unfold spine; by rewrite length_replicate|cbn [app]; unfold spine; by rewrite zlen_replicate|].
  rewrite <- (assoc_L (++)) in *. exists h, u3. split_and!; [|done|done|].
  - unfold up_array. rewrite (bind_eq _ _ _ _ _ E1). unfold bind at 1, get_vm. fold k. rewrite E2. unfold zlen. rewrite Nat2Z.id. by rewrite (bind_eq _ _ _ _ _ E3).
  - intros Hst X HX. assert (around X u1) as HX1 by exact HX. assert (around (h :: X) u2) as HX2. { eapply (around_cons X h u1 u2 SUBKIND_OOPS 0 (zlen es)); [done..|]. cbn. unfold spine. by rewrite zlen_replicate. }
    destruct (Hx (h :: X) (list_elem_of_here _ _) HX2) as [Hcp Hcm]. eapply (container_copied X t1 new o h u1 u2 u3); try done; [by apply Hst3| |].
    + cbn. split_and!; [|constructor|done]. unfold k. rewrite (inv_universe _ _ Hi1). apply (same_known _ _ array_klass). member.
    + by rewrite length_app, Nat.add_1_r in Hcm.
Qed.

(** *** Objects of a class with a name *)
Definition makes (d : U Z) (k nslots sk idx_n : Z) (f : Heap.Format) (o : Z) (t1 new bs : list Z) : Prop := forall u rest, inv 0 u -> cur u = bs ++ rest -> length (table u) = length t1 ->
  klass_is (uvm u) k f nslots -> exists h u', up_new_object d k nslots sk idx_n u = Ok h u' /\ cur u' = rest /\ length (table u') = length (t1 ++ o :: new) /\
  forall X, around X u -> copied X (t1 ++ o :: new) (table u') (uvm u') o h /\ complete X (t1 ++ o :: new) (table u') (uvm u') (length t1).
Lemma nats (l : list Z) : Z.to_nat (zlen l) = length l.
Proof using Type. unfold zlen. by rewrite Nat2Z.id. Qed.
Lemma makes_slots d k k' fs o t1 new bs : object_at v1 o = Some (OSlots k fs) -> same_klass v1 v0 k k' -> fills d fs 0 (t1 ++ [o]) new bs ->
  makes d k' (zlen fs) SUBKIND_SLOTS 0 Heap.Slots o t1 new bs.
Proof using All.
  intros Ho Hk Hf u rest Hi Hc Ht Hkl. set (nil := nil_obj (universe (uvm u))). set (spine := replicate (length fs) nil). assert (zlen spine = zlen fs) as Hsp by (unfold spine; by rewrite zlen_replicate).
  destruct (spine_eq u (run (alloc_spine k' (zlen fs) SUBKIND_SLOTS 0)) (OSlots k' spine) SUBKIND_SLOTS (zlen fs) 0 Hi) as (h & u2 & E2 & Hn & Hbase & Ho2 & Hi2 & Hst2 & Ht2 & Hc2); [unfold allocs, run, alloc_spine; by rewrite nats| |done|].
  { cbn. rewrite Hsp. split; [done|]. apply Forall_replicate. right. apply Hi. }
  destruct (Hf h _ (set_body_oop h) (zlen fs) u2 rest [] spine (filler_slots h k' _) Hbase Hi2) as (u3 & fs' & E3 & Hst3 & Hc3 & Ht3 & Ho3 & Hl3 & Hx); [by rewrite Hc2|rewrite Ht2, !length_app; by rewrite <- Ht|done|done|unfold spine; by rewrite length_replicate|done|].
  rewrite <- (assoc_L (++)) in *. exists h, u3. split_and!; [|done|done|].
  - unfold up_new_object. rewrite E2, nats, (bind_eq _ _ _ _ _ E3). done.
  - intros X HX. assert (around (h :: X) u2) as HX2 by by eapply (around_cons X h u u2 SUBKIND_SLOTS (zlen fs) 0).
    destruct (Hx (h :: X) (list_elem_of_here _ _) HX2) as [Hcp Hcm]. eapply (container_copied X t1 new o h u u2 u3); try done; [apply Hst3|]. by rewrite length_app, Nat.add_1_r in Hcm.
Qed.
Lemma makes_oops d k k' fs es o t1 n1 n2 b1 b2 : object_at v1 o = Some (OOops k fs es) -> same_klass v1 v0 k k' -> fills d fs 0 (t1 ++ [o]) n1 b1 -> fills d es 0 ((t1 ++ [o]) ++ n1) n2 b2 ->
  makes d k' (zlen fs) SUBKIND_OOPS (zlen es) Heap.IndexableOops o t1 (n1 ++ n2) (b1 ++ b2).
Proof using All.
  intros Ho Hk Hf Hg u rest Hi Hc Ht Hkl. pose proof (w_objects _ W1 _ _ Ho) as (_ & _ & _ & Hlt). rewrite <- (assoc_L (++)) in Hc. set (nil := nil_obj (universe (uvm u))).
  set (spine := replicate (length fs) nil). assert (zlen spine = zlen fs) as Hsp by (unfold spine; by rewrite zlen_replicate). set (tail := replicate (length es) nil). assert (zlen tail = zlen es) as Htl by (unfold tail; by rewrite zlen_replicate).
  assert (valid (uvm u) nil) as Hnil by (right; apply Hi).
  destruct (spine_eq u (run (alloc_spine k' (zlen fs) SUBKIND_OOPS (zlen es))) (OOops k' spine tail) SUBKIND_OOPS (zlen fs) (zlen es) Hi) as (h & u2 & E2 & Hn & Hbase & Ho2 & Hi2 & Hst2 & Ht2 & Hc2); [unfold allocs, run, alloc_spine; by rewrite !nats| |done|].
  { cbn. rewrite Hsp, Htl. split_and!; [done|by apply Forall_replicate..|done]. }
  destruct (Hf h _ (set_body_oop h) (zlen fs) u2 (b2 ++ rest) [] spine (filler_oops h k' tail _) Hbase Hi2) as (u3 & fs' & E3 & Hst3 & Hc3 & Ht3 & Ho3 & Hl3 & Hx3); [by rewrite Hc2|rewrite Ht2, !length_app; by rewrite <- Ht|done|done|unfold spine; by rewrite length_replicate|done|].
  pose proof Hst3 as (_ & Hi3 & _). destruct (Hg h _ (at_put h) (zlen es) u3 rest [] tail (filler_elems h k' fs' _) Hbase Hi3) as (u4 & es' & E4 & Hst4 & Hc4 & Ht4 & Ho4 & Hl4 & Hx4); [done|done|done|done|unfold tail; by rewrite length_replicate|done|].
  exists h, u4. split_and!; [|done|by rewrite Ht4, <- !(assoc_L (++))|].
  - unfold up_new_object. rewrite E2, nats, (bind_eq _ _ _ _ _ E3), nats. change (SUBKIND_OOPS =? SUBKIND_OOPS) with true. cbv iota. by rewrite (bind_eq _ _ _ _ _ E4).
  - intros X HX. assert (around (h :: X) u2) as HX2 by by eapply (around_cons X h u u2 SUBKIND_OOPS (zlen fs) (zlen es)). pose proof (list_elem_of_here h X) as Hh.
    destruct (Hx3 (h :: X) Hh HX2) as [Hcp3 Hcm3]. assert (around (h :: X) u3) as HX3. { eapply (around_put (h :: X) h u2 u3 SUBKIND_OOPS (zlen fs) (zlen es)); [done|apply Hst3|exact Ho3|]. cbn. unfold zlen. by rewrite Hl3. }
    destruct (Hx4 (h :: X) Hh HX3) as [Hcp4 Hcm4]. pose proof (later_put (h :: X) h u3 u4 Hh Hst4) as Hlat. assert (table u3 `prefix_of` table u4) as Hpre by apply Hst4.
    assert (((t1 ++ [o]) ++ n1) `prefix_of` (((t1 ++ [o]) ++ n1) ++ n2)) as Hpre1 by by apply prefix_app_r. pose proof (complete_mono _ _ (h :: X) _ _ _ _ _ _ Hpre1 Hpre Hlat _ (eq_sym Ht3) Hcm3 Hcm4) as Hcm.
    pose proof (copieds_mono _ _ (h :: X) _ _ _ _ _ _ Hpre1 Hpre Hlat _ _ Hcp3) as Hcp. assert (((t1 ++ [o]) ++ n1) ++ n2 = t1 ++ o :: n1 ++ n2) as El by by rewrite <- !(assoc_L (++)). rewrite El in *. rewrite length_app, Nat.add_1_r in Hcm.
    eapply (container_copied X t1 (n1 ++ n2) o h u u2 u4); try done. etransitivity; [apply Hst3|done].
Qed.
Lemma makes_bytes d k k' mk fs bs o t1 new b1 : object_at v1 o = Some (OBytes k mk fs bs) -> k <> symbol_klass (universe v1) -> same_klass v1 v0 k k' -> fills d fs 0 (t1 ++ [o]) new b1 ->
  makes d k' (zlen fs) SUBKIND_BYTES (zlen bs) Heap.IndexableBytes o t1 new (b1 ++ bs).
Proof using All.
  intros Ho Hns Hk Hf u rest Hi Hc Ht Hkl. pose proof (w_objects _ W1 _ _ Ho) as (_ & _ & Hlt). rewrite <- (assoc_L (++)) in Hc.
  set (spine := replicate (length fs) 0). assert (zlen spine = zlen fs) as Hsp by (unfold spine; by rewrite zlen_replicate). set (tail := replicate (length bs) 0). assert (zlen tail = zlen bs) as Htl by (unfold tail; by rewrite zlen_replicate).
  destruct (spine_eq u (run (alloc_spine k' (zlen fs) SUBKIND_BYTES (zlen bs))) (OBytes k' MARK_PRISTINE spine tail) SUBKIND_BYTES (zlen fs) (zlen bs) Hi) as (h & u2 & E2 & Hn & Hbase & Ho2 & Hi2 & Hst2 & Ht2 & Hc2); [unfold allocs, run, alloc_spine; by rewrite !nats| |done|].
  { cbn. rewrite Hsp, Htl. split_and!; [done|apply Forall_replicate; by left|done]. }
  destruct (Hf h _ (set_body_oop h) (zlen fs) u2 (bs ++ rest) [] spine (filler_bytes h k' tail _) Hbase Hi2) as (u3 & fs' & E3 & Hst3 & Hc3 & Ht3 & Ho3 & Hl3 & Hx3); [by rewrite Hc2|rewrite Ht2, !length_app; by rewrite <- Ht|done|done|unfold spine; by rewrite length_replicate|done|].
  pose proof Hst3 as (Hg3 & Hi3 & _). pose proof (exact_eq bs u3 rest Hc3) as E4. set (u3' := with_cur u3 rest) in *. cbn [app] in Ho3.
  assert (inv 0 u3') as Hi3'. { apply (inv_cur_to 0 u3); [done|]. rewrite Hc3, zlen_app. pose proof (zlen_nonneg bs). lia. }
  assert (bs ++ drop (length bs) tail = bs) as Ed. { rewrite drop_ge; [by rewrite app_nil_r|]. unfold tail. by rewrite length_replicate. }
  destruct (set_did input v0 M0 h u3' (put_bytes h bs) _ (OBytes k' MARK_PRISTINE fs' bs) Hi3' Hbase Ho3) as ([] & u4 & E5 & Hst4 & Ho4 & Ht4 & Hc4); [done|done|by intros k0 mk0 fs0 bs0 [= <- <- <- <-]| | |].
  { destruct (w_objects _ (i_world _ _ _ _ _ Hi3) _ _ Ho3) as (? & ? & ?). cbn. split_and!; done. } { unfold put_bytes. cbn [uvm with_cur u3']. rewrite Ho3, Ed. destruct (Z.ltb_spec (zlen tail) (zlen bs)); [lia|done]. }
  rewrite <- (assoc_L (++)) in *. exists h, u4. split_and!; [|by rewrite Hc4|by rewrite Ht4|].
  - unfold up_new_object. rewrite E2, nats, (bind_eq _ _ _ _ _ E3). change (SUBKIND_BYTES =? SUBKIND_OOPS) with false. change (SUBKIND_BYTES =? SUBKIND_BYTES) with true. cbv iota. erewrite bind_eq; [done|]. by rewrite (bind_eq _ _ _ _ _ E4).
  - intros X HX. assert (around (h :: X) u2) as HX2 by by eapply (around_cons X h u u2 SUBKIND_BYTES (zlen fs) (zlen bs)). pose proof (list_elem_of_here h X) as Hh.
    destruct (Hx3 (h :: X) Hh HX2) as [Hcp3 Hcm3]. pose proof (later_put (h :: X) h u3' u4 Hh Hst4) as Hlat. assert (table u3 `prefix_of` table u4) as Hpre by by rewrite Ht4.
    pose proof (copieds_mono _ _ (h :: X) _ _ _ _ _ _ (reflexivity _) Hpre Hlat _ _ Hcp3) as Hcp. assert (complete (h :: X) (t1 ++ [o] ++ new) (table u4) (uvm u4) (S (length t1))) as Hcm.
    { intros i x x' Hi' Hx' Hx''. apply (entry_mono _ _ (h :: X) _ _ _ _ _ _ (reflexivity _) Hpre Hlat). rewrite Ht4 in Hx''. apply (Hcm3 i); [rewrite length_app, Nat.add_1_r; lia|done..]. }
    eapply (container_copied X t1 new o h u u2 u4); try done; [etransitivity; [apply Hst3|done]|by intros k0 mk0 fs0 bs0 [= <- <- <- <-]].
Qed.

(** The class of that name, found by the decoder. *)
Lemma resolve_eq u k kl name sk : inv 1 u -> as_klass v1 k = Some kl -> read_bytes_out v1 (k_name kl) = Some name -> zlen name < 2 ^ 60 -> zlen name <= input -> format_ok sk (k_format kl) = true ->
  exists k' u', resolve_class name (k_non_indexable_size kl - HEADER_WORDS) sk u = Ok k' u' /\ step None u u' /\ cur u' = cur u /\ table u' = table u /\
    same_klass v1 v0 k k' /\ klass_is (uvm u') k' (k_format kl) (k_non_indexable_size kl - HEADER_WORDS).
Proof using All.
  intros Hi Hk Hn Hl Hni Hf. destruct (K k kl name Hk) as (sym & assoc & k' & kl' & HM & Hg & Ha & Hk' & Hf' & Hs'); [destruct (k_format kl); try done; auto|done|].
  destruct (intern_eq u name Hi Hl Hni) as (sym' & u1 & E & Hst & Hc & Ht & _ & Hsym & _). rewrite (Hsym _ HM) in *. clear sym' Hsym. pose proof Hst as (_ & Hi1 & _).
  destruct (global_found v0 G W0 G0 _ sym (reflexivity (R := extends) v0)) as [Hg0 Hv0]. rewrite Hg in Hg0. injection Hg0 as HG. destruct (Hv0 assoc (eq_sym HG)) as (value & Hav).
  assert (value = k') as ->. { unfold body_oop in Ha. rewrite Hav in Ha. by injection Ha. } destruct (global_found v0 G W0 G0 _ sym (i_base _ _ _ _ _ Hi1)) as [Hg1 _]. rewrite <- HG in Hg1.
  pose proof (g_keep _ _ _ (i_base _ _ _ _ _ Hi1) _ _ Hav ltac:(done)) as Hav1. pose proof (g_klass _ _ _ (i_base _ _ _ _ _ Hi1) _ _ (as_klass_is _ _ _ Hk')) as Hkl1.
  pose proof (w_objects _ W0 _ _ (as_klass_is _ _ _ Hk')) as [Hsz _]. exists k', u1. split_and!; try done.
  - unfold resolve_class. rewrite (bind_eq _ _ _ _ _ E). unfold bind at 1, get_vm. rewrite Hg1. unfold bind at 1, lift. rewrite (proj1 (object_mem _ _ _ Hav1)). cbn [negb].
    unfold bind at 1, lift, body_oop. rewrite Hav1. change (zlookup [sym; k'] 1) with (Some k'). unfold as_klass. rewrite Hkl1, <- Hs'.
    destruct (Z.ltb_spec (k_non_indexable_size kl' - HEADER_WORDS) 0); [lia|]. rewrite Z.eqb_refl, Hf', Hf. done.
  - apply (same_named _ _ k kl name k'); [done..|]. exists sym, assoc. split_and!; [by apply (so_symbol _ _ S0)|done..].
  - exists kl'. split_and!; [done..|]. rewrite Hs'. lia.
Qed.
Definition idx_part (sk idx_n : Z) : list Z := if sk =? SUBKIND_SLOTS then [] else varint_of idx_n.
Lemma yields_object d k kl name sk idx_n o t1 new body : as_klass v1 k = Some kl -> read_bytes_out v1 (k_name kl) = Some name -> zlen name < 2 ^ 60 -> format_ok sk (k_format kl) = true ->
  let nslots := k_non_indexable_size kl - HEADER_WORDS in 0 <= nslots < 2 ^ 60 -> 0 <= idx_n < 2 ^ 60 -> (sk = SUBKIND_SLOTS -> idx_n = 0) -> nslots <= zlen body -> (sk <> SUBKIND_SLOTS -> idx_n <= zlen body) ->
  (forall k', same_klass v1 v0 k k' -> makes d k' nslots sk idx_n (k_format kl) o t1 new body) ->
  yields (up_object d) o t1 (o :: new) (varint_of (zlen name) ++ name ++ varint_of nslots ++ [sk] ++ idx_part sk idx_n ++ body).
Proof using All.
  intros Hk Hn Hl Hf nslots Hns Hid Hid0 Hlb Hlb2 Hm u rest Hi Hc Ht. rewrite <- !(assoc_L (++)) in Hc. pose proof (zlen_nonneg name). pose proof (zlen_nonneg rest).
  assert (sk = 0 \/ sk = 1 \/ sk = 2) as Hsk. { destruct (k_format kl); cbn in Hf; try done; apply Z.eqb_eq in Hf; subst sk; auto. }
  set (b1 := varint_of nslots ++ [sk] ++ idx_part sk idx_n ++ body ++ rest) in *. assert (len_capped 1 u = Ok (zlen name) (with_cur u (name ++ b1))) as E1. { apply len_eq; [lia|lia| |done]. rewrite zlen_app. pose proof (zlen_nonneg b1). lia. }
  pose proof (exact_eq name (with_cur u (name ++ b1)) b1 eq_refl) as E2. set (u2 := with_cur u b1). change (with_cur (with_cur u (name ++ b1)) b1) with u2 in E2.
  pose proof (varint_eq nslots u2 ([sk] ++ idx_part sk idx_n ++ body ++ rest) ltac:(lia) eq_refl) as E3. set (u3 := with_cur u2 _) in E3. pose proof (u8_eq u3 sk (idx_part sk idx_n ++ body ++ rest) eq_refl) as E4. set (u4 := with_cur u3 _) in E4.
  set (u5 := with_cur u (body ++ rest)).
  assert ((if sk =? SUBKIND_SLOTS then ret 0 else if (sk =? SUBKIND_OOPS) || (sk =? SUBKIND_BYTES) then len_capped 1 else fail (Malformed "bad object subkind")) u4 = Ok idx_n u5) as E5.
  { unfold u4, u5, idx_part. destruct (Z.eqb_spec sk SUBKIND_SLOTS) as [Es|Es]; [by rewrite (Hid0 Es)|]. assert (((sk =? SUBKIND_OOPS) || (sk =? SUBKIND_BYTES)) = true) as ->. { destruct Hsk as [->|[->| ->]]; done. }
    refine (len_eq 1 idx_n (with_cur u3 (varint_of idx_n ++ body ++ rest)) (body ++ rest) Hid ltac:(lia) _ eq_refl). rewrite zlen_app. specialize (Hlb2 Es). lia. }
  assert (inv 1 u5) as Hi5. { apply (inv_cur_to 1 u); [done|]. rewrite Hc. unfold b1. rewrite !zlen_app. pose proof (zlen_nonneg (varint_of (zlen name))). pose proof (zlen_nonneg (varint_of nslots)). pose proof (zlen_nonneg [sk]). pose proof (zlen_nonneg (idx_part sk idx_n)). lia. }
  assert (zlen name <= input) as Hni. { pose proof (i_input _ _ _ _ _ Hi) as Hin. rewrite Hc, !zlen_app in Hin. pose proof (varint_length (zlen name)). pose proof (zlen_nonneg b1). lia. }
  destruct (resolve_eq u5 k kl name sk Hi5 Hk Hn Hl Hni Hf) as (k' & u6 & E6 & Hst6 & Hc6 & Ht6 & Hsame & Hkl). pose proof Hst6 as (_ & Hi6 & _). fold nslots in E6, Hkl.
  destruct (Hm k' Hsame u6 rest Hi6 Hc6 ltac:(by rewrite Ht6) Hkl) as (h & u7 & E7 & Hc7 & Ht7 & Hx). exists h, u7. split_and!; [|done|done|].
  - unfold up_object. rewrite (bind_eq _ _ _ _ _ E1), (bind_eq _ _ _ _ _ E2), (bind_eq _ _ _ _ _ E3), (bind_eq _ _ _ _ _ E4), (bind_eq _ _ _ _ _ E5), (bind_eq _ _ _ _ _ E6).
    unfold bind at 1, remaining. rewrite Hc6. cbn [cur with_cur u5]. rewrite zlen_app. destruct (Z.leb_spec (2 ^ 64) (nslots + idx_n)); [lia|]. destruct (Z.ltb_spec (zlen body + zlen rest + idx_n) (nslots + idx_n)); [lia|]. exact E7.
  - intros _ X HX. apply Hx. by apply (around_step X u5).
Qed.

(** *** The whole encoder *)
Abbreviation pk := (pk v1 max_bytes max_objects).
Lemma emit_inv bs st st' : emit bs st = Ok () st' -> st' = MkPst (out st ++ bs) (seen st).
Proof using Type. by intros [= <-]. Qed.
Lemma check_inv st st' : check_bytes max_bytes st = Ok () st' -> st' = st.
Proof using Type. unfold check_bytes, bind, get_out. destruct (_ <? _); [done|]. by intros [= <-]. Qed.
(** The parts of an [Ok] computation. *)
Ltac parts H :=
  repeat match type of H with
  | bind (emit _) _ _ = Ok _ _ => let E := fresh in apply bind_inv in H as ([] & ? & E & H); apply emit_inv in E; subst
  | bind (write_varint _) _ _ = Ok _ _ => let E := fresh in apply bind_inv in H as ([] & ? & E & H); apply emit_inv in E; subst
  | bind (lift _) _ _ = Ok _ _ => let E := fresh "El" in apply bind_inv in H as (? & ? & [E ->]%lift_inv & H)
  | emit _ _ = Ok _ _ => apply emit_inv in H; subst
  | write_varint _ _ = Ok _ _ => apply emit_inv in H; subst
  end.
(** What a pickled object of a klass looks like. *)
Lemma object_of v o obj k f n : world_ok v -> object_at v o = Some obj -> klass_of v o = Some k -> klass_is v k f n ->
  match f with
  | Heap.Slots => exists fs, obj = OSlots k fs /\ zlen fs = n
  | Heap.IndexableOops => exists fs es, obj = OOops k fs es /\ zlen fs = n
  | Heap.IndexableBytes => exists mk fs bs, obj = OBytes k mk fs bs /\ zlen fs = n
  | Heap.Double => k = double_klass (universe v) -> exists bits, obj = ODouble bits
  | _ => True
  end.
Proof using Type.
  intros Hw Ho Hk Hf. pose proof (w_objects _ Hw _ _ Ho) as Hs. unfold klass_of in Hk. rewrite Ho in Hk. injection Hk as Hk.
  destruct obj as [k' mk fs bs|b|k' fs|k' fs es|kl|m|k']; cbn in Hs, Hk; subst.
  - destruct Hs as [Hs _]. destruct (klass_is_fun _ _ _ _ _ _ Hf Hs) as [-> ->]. by exists mk, fs, bs.
  - destruct (w_double _ Hw) as [n' Hd]. destruct (klass_is_fun _ _ _ _ _ _ Hf Hd) as [-> _]. intros _. by exists b.
  - destruct Hs as [Hs _]. destruct (klass_is_fun _ _ _ _ _ _ Hf Hs) as [-> ->]. by exists fs.
  - destruct Hs as [Hs _]. destruct (klass_is_fun _ _ _ _ _ _ Hf Hs) as [-> ->]. by exists fs, es.
  - destruct Hs as (_ & n' & Hm). by destruct (klass_is_fun _ _ _ _ _ _ Hf Hm) as [-> _].
  - destruct (w_method _ Hw) as [n' Hm]. by destruct (klass_is_fun _ _ _ _ _ _ Hf Hm) as [-> _].
  - destruct Hs as (f' & n' & Hm & Hor). destruct (klass_is_fun _ _ _ _ _ _ Hf Hm) as [-> _]. by destruct Hor as [->|[->|[->|[-> ?]]]].
Qed.
(** The encoder has written [tag], [bs], and the decoder reads them with [body]. *)
Definition coded (d : nat) (o : Z) (st st' : pst) (t1 : list Z) : Prop := exists tag bs new (body : U Z), out st' = out st ++ tag :: bs /\ seen_ok (seen st') (t1 ++ new) /\
  (forall u rest, cur u = tag :: rest -> zlen (table u) < MAX_OBJECTS -> up (S d) u = body (with_cur u rest)) /\ yields body o t1 new bs.
Ltac code tag bs new body := exists tag, bs, new, body; split_and!; [cbn [out seen]; rewrite <- ?(assoc_L (++)); done|cbn [out seen]; rewrite ?app_nil_r; try done|dispatch|].
Lemma coded_leaf d tag kf o mk fs bs st st' t1 : kf ∈ well_known -> kf (universe v0) ∈ known_bytes (universe v0) -> kf (universe v1) <> symbol_klass (universe v1) ->
  (forall u rest, cur u = tag :: rest -> zlen (table u) < MAX_OBJECTS -> up (S d) u = up_bytes kf (with_cur u rest)) ->
  object_at v1 o = Some (OBytes (kf (universe v1)) mk fs bs) -> pk_bytes v1 [tag] o st = Ok () st' -> seen_ok (seen st) (t1 ++ [o]) -> coded d o st st' t1.
Proof using All.
  intros Hf Hf' Hne Hd Ho E Hs. destruct (bytes_of_known kf o _ mk fs bs Hf eq_refl Ho) as [-> Hl]. unfold pk_bytes, read_bytes_out in E. rewrite Ho in E. parts E. injection El as <-.
  exists tag, (varint_of (zlen bs) ++ bs), [o], (up_bytes kf). split_and!; [cbn [out]; by rewrite <- !(assoc_L (++))|done|done|]. by eapply yields_bytes.
Qed.
Lemma known_object o obj kf : object_at v1 o = Some obj -> klass_of v1 o = Some (kf (universe v1)) -> kf (universe v1) ∈ known_bytes (universe v1) ->
  exists mk bs, object_at v1 o = Some (OBytes (kf (universe v1)) mk [] bs) /\ zlen bs < 2 ^ 60.
Proof using W1.
  intros Ho Hk Hin. destruct (object_of v1 o obj _ _ 0 W1 Ho Hk (known_bytes_is _ _ W1 Hin)) as (mk & fs & bs & -> & Hl). assert (fs = []) as -> by (destruct fs; [done|]; rewrite zlen_cons in Hl; pose proof (zlen_nonneg fs); lia).
  exists mk, bs. split; [done|]. by destruct (w_objects _ W1 _ _ Ho) as (_ & _ & ?).
Qed.
Lemma large_coded d o obj (negative : bool) st st' t1 : let f := if negative then large_neg_int_klass else large_pos_int_klass in
  object_at v1 o = Some obj -> klass_of v1 o = Some (f (universe v1)) -> f (universe v1) <> symbol_klass (universe v1) ->
  pk_bytes v1 [TAG_LARGE_INT; if negative then 1 else 0] o st = Ok () st' -> seen_ok (seen st) (t1 ++ [o]) -> coded d o st st' t1.
Proof using All.
  intros f Ho Hk Hne E Hs. destruct (known_object o obj f Ho Hk) as (mk & bs & Hb & Hl); [unfold f; destruct negative; member|]. unfold pk_bytes, read_bytes_out in E. rewrite Hb in E. parts E. injection El as <-.
  code TAG_LARGE_INT ((if negative then 1 else 0) :: varint_of (zlen bs) ++ bs) [o] up_large. by eapply yields_large.
Qed.
Lemma array_coded d o obj st st' t1 : codes (pk d) (up d) -> object_at v1 o = Some obj -> klass_of v1 o = Some (array_klass (universe v1)) ->
  pk_array v1 (pk d) o st = Ok () st' -> seen_ok (seen st) (t1 ++ [o]) -> coded d o st st' t1.
Proof using All.
  intros Hc Ho Hk E Hs. destruct (object_of v1 o obj _ _ 0 W1 Ho Hk (w_array _ W1)) as (fs & es & -> & _). unfold pk_array, as_array in E. rewrite Ho in E. parts E. injection El as <-.
  pose proof (w_objects _ W1 _ _ Ho) as (_ & _ & Hv & _). unfold pk_elems in E. edestruct (fun st => loop_codes (pk d) (up d) (zlookup es) Hc es 0 st st' (t1 ++ [o]) Hv) as (bs & new & Ho' & Hl & Hs' & Hf); [|exact E|exact Hs|].
  { intros j x Hj. unfold zlookup. destruct (Z.ltb_spec (0 + Z.of_nat j) 0); [lia|]. by rewrite Z.add_0_l, Nat2Z.id. }
  rewrite <- (assoc_L (++)) in Hs'. exists TAG_ARRAY, (varint_of (zlen es) ++ bs), (o :: new), (up_array (up d)). split_and!; [rewrite Ho'; cbn [out]; by rewrite <- !(assoc_L (++))|done|dispatch|]. by eapply yields_array.
Qed.
(** The variables of an object. *)
Lemma fields_coded d o fs st st' t : codes (pk d) (up d) -> Forall (valid v1) fs -> (forall i, body_oop v1 o i = zlookup fs i) ->
  for_range (Z.to_nat (zlen fs)) 0 (fun i => let! x := lift (body_oop v1 o i) in pk d x) st = Ok () st' -> seen_ok (seen st) t ->
  exists bs new, out st' = out st ++ bs /\ zlen fs <= zlen bs /\ seen_ok (seen st') (t ++ new) /\ fills (up d) fs 0 t new bs.
Proof using All.
  intros Hc Hv Hb E Hs. rewrite nats in E. eapply (loop_codes (pk d) (up d)); [done..| |exact E|done]. intros j x Hj. rewrite Hb. unfold zlookup. destruct (Z.ltb_spec (0 + Z.of_nat j) 0); [lia|]. by rewrite Z.add_0_l, Nat2Z.id.
Qed.
Lemma object_coded d o obj k kl st st' t1 : codes (pk d) (up d) -> object_at v1 o = Some obj -> klass_of v1 o = Some k -> as_klass v1 k = Some kl -> k <> symbol_klass (universe v1) ->
  pk_object v1 max_bytes (pk d) o k kl st = Ok () st' -> seen_ok (seen st) (t1 ++ [o]) -> coded d o st st' t1.
Proof using All.
  intros Hc Ho Hk Hkl Hns E Hs. unfold pk_object in E. destruct (k =? alien_klass _); [done|]. destruct (k =? objcref_klass _); [done|]. apply bind_inv in E as (sk & st1 & Es & E).
  destruct (read_bytes_out v1 (k_name kl)) as [name|] eqn:En; [|done]. set (nslots := k_non_indexable_size kl - HEADER_WORDS) in *. destruct (Z.ltb_spec nslots 0); [done|]. parts E.
  pose proof (w_objects _ W1 _ _ (as_klass_is _ _ _ Hkl)) as [Hsz _]. assert (0 <= nslots < 2 ^ 60) as Hn by (unfold nslots; change HEADER_WORDS with 2 in *; lia).
  assert (zlen name < 2 ^ 60) as Hname. { unfold read_bytes_out in En. destruct (object_at v1 (k_name kl)) as [[]|] eqn:Eo; try done. injection En as ->. by destruct (w_objects _ W1 _ _ Eo) as (_ & _ & ?). }
  assert (klass_is v1 k (k_format kl) nslots) as His. { exists kl. split_and!; [by apply as_klass_is|done|unfold nslots; lia]. } pose proof (object_of v1 o obj k _ _ W1 Ho Hk His) as Hobj. pose proof (w_objects _ W1 _ _ Ho) as Hshape.
  apply bind_inv in E as ([] & st3 & Ei & E). apply bind_inv in E as ([] & st4 & Ef & E). apply bind_inv in E as ([] & st5 & Et & ->%check_inv).
  match type of Ei with _ ?s = _ => assert (out s = out st1 ++ TAG_OBJECT :: varint_of (zlen name) ++ name ++ varint_of nslots ++ [sk]) as Hout by (cbn [out]; rewrite <- !(assoc_L (++)); done); assert (seen s = seen st1) as Hseen by done; revert Ei Hout Hseen; generalize s; intros st2 Ei Hout Hseen end.
  destruct (k_format kl) eqn:Efm; try done; injection Es as <- <-.
  - destruct Hobj as (fs & -> & Hnf). injection Ei as <-. injection Et as <-. destruct Hshape as (_ & Hv). rewrite <- Hnf in Ef.
    destruct (fields_coded d o fs st2 st4 (t1 ++ [o]) Hc Hv) as (bs & new & Ho' & Hl & Hs' & Hf); [intros i; unfold body_oop; by rewrite Ho|done|by rewrite Hseen|]. rewrite <- (assoc_L (++)) in Hs'.
    eexists TAG_OBJECT, _, (o :: new), (up_object (up d)). split_and!; [|exact Hs'|dispatch|eapply (yields_object _ k kl name SUBKIND_SLOTS 0 _ _ _ bs); try done; [by rewrite Efm|fold nslots; lia|]].
    + rewrite Ho', Hout. repeat (rewrite <- !(assoc_L (++)); cbn [app]). reflexivity.
    + fold nslots. rewrite Efm, <- Hnf. intros k' Hk'. by eapply makes_slots.
  - destruct Hobj as (fs & es & -> & Hnf). destruct Hshape as (_ & Hv & Hve & Hle). unfold as_array in Ei, Et. rewrite Ho in Ei, Et. change (SUBKIND_OOPS =? SUBKIND_SLOTS) with false in Ei. change (SUBKIND_OOPS =? SUBKIND_OOPS) with true in Ei, Et. cbv iota in Ei, Et. parts Ei. injection El as <-. parts Et. injection El as <-. rewrite <- Hnf in Ef.
    edestruct (fun st => fields_coded d o fs st st4 (t1 ++ [o]) Hc Hv) as (b1 & n1 & Ho' & Hl & Hs' & Hf); [intros i; unfold body_oop; by rewrite Ho|exact Ef|cbn [seen]; by rewrite Hseen|].
    destruct (loop_codes (pk d) (up d) (zlookup es) Hc es 0 st4 st5 ((t1 ++ [o]) ++ n1) Hve) as (b2 & n2 & Ho2 & Hl2 & Hs2 & Hf2); [|exact Et|exact Hs'|].
    { intros j x Hj. unfold zlookup. destruct (Z.ltb_spec (0 + Z.of_nat j) 0); [lia|]. by rewrite Z.add_0_l, Nat2Z.id. }
    assert (((t1 ++ [o]) ++ n1) ++ n2 = t1 ++ o :: n1 ++ n2) as El by by rewrite <- !(assoc_L (++)). rewrite El in Hs2.
    eexists TAG_OBJECT, _, (o :: n1 ++ n2), (up_object (up d)). split_and!; [|exact Hs2|dispatch|eapply (yields_object _ k kl name SUBKIND_OOPS (zlen es) _ _ _ (b1 ++ b2)); try done; [by rewrite Efm|pose proof (zlen_nonneg es); lia|fold nslots; rewrite zlen_app; pose proof (zlen_nonneg b2); lia|rewrite zlen_app; pose proof (zlen_nonneg b1); lia|]].
    + rewrite Ho2, Ho'. cbn [out]. rewrite Hout. repeat (rewrite <- !(assoc_L (++)); cbn [app]). reflexivity.
    + fold nslots. rewrite Efm, <- Hnf. intros k' Hk'. by eapply makes_oops.
  - destruct Hobj as (mk & fs & bs & -> & Hnf). destruct Hshape as (_ & Hv & Hlb). unfold read_bytes_out in Ei, Et. rewrite Ho in Ei, Et. change (SUBKIND_BYTES =? SUBKIND_SLOTS) with false in Ei. change (SUBKIND_BYTES =? SUBKIND_OOPS) with false in Ei, Et. change (SUBKIND_BYTES =? SUBKIND_BYTES) with true in Et. cbv iota in Ei, Et. parts Ei. injection El as <-. parts Et. injection El as <-. rewrite <- Hnf in Ef.
    edestruct (fun st => fields_coded d o fs st st4 (t1 ++ [o]) Hc Hv) as (b1 & n1 & Ho' & Hl & Hs' & Hf); [intros i; unfold body_oop; by rewrite Ho|exact Ef|cbn [seen]; by rewrite Hseen|]. rewrite <- (assoc_L (++)) in Hs'.
    eexists TAG_OBJECT, _, (o :: n1), (up_object (up d)). split_and!; [|exact Hs'|dispatch|eapply (yields_object _ k kl name SUBKIND_BYTES (zlen bs) _ _ _ (b1 ++ bs)); try done; [by rewrite Efm|pose proof (zlen_nonneg bs); lia|fold nslots; rewrite zlen_app; pose proof (zlen_nonneg bs); lia|rewrite zlen_app; pose proof (zlen_nonneg b1); lia|]].
    + cbn [out]. rewrite Ho'. cbn [out]. rewrite Hout. repeat (rewrite <- !(assoc_L (++)); cbn [app]). reflexivity.
    + fold nslots. rewrite Efm, <- Hnf. intros k' Hk'. by eapply makes_bytes.
Qed.
Lemma heap_coded d o obj k kl st st' t1 : codes (pk d) (up d) -> object_at v1 o = Some obj -> klass_of v1 o = Some k -> as_klass v1 k = Some kl ->
  pk_heap v1 max_bytes (pk d) o k kl st = Ok () st' -> seen_ok (seen st) (t1 ++ [o]) -> coded d o st st' t1.
Proof using All.
  intros Hc Ho Hk Hkl E Hs. unfold pk_heap in E. cbv zeta in E.
  destruct (Z.eqb_spec k (symbol_klass (universe v1))) as [->|Hns].
  { destruct (known_object o obj symbol_klass Ho Hk) as (mk & bs & Hb & Hl); [member|]. unfold pk_bytes, read_bytes_out in E. rewrite Hb in E. parts E. injection El as <-.
    code TAG_SYMBOL (varint_of (zlen bs) ++ bs) [o] up_symbol. by eapply yields_symbol. }
  destruct (Z.eqb_spec k (string_klass (universe v1))) as [->|_].
  { destruct (known_object o obj string_klass Ho Hk) as (mk & bs & Hb & Hl); [member|]. eapply (coded_leaf d TAG_STRING string_klass); [member|member|done|dispatch|done..]. }
  destruct (Z.eqb_spec k (bytearray_klass (universe v1))) as [->|_].
  { destruct (known_object o obj bytearray_klass Ho Hk) as (mk & bs & Hb & Hl); [member|]. eapply (coded_leaf d TAG_BYTE_ARRAY bytearray_klass); [member|member|done|dispatch|done..]. }
  destruct (Z.eqb_spec k (float_array_klass (universe v1))) as [->|_].
  { destruct (known_object o obj float_array_klass Ho Hk) as (mk & bs & Hb & Hl); [member|]. unfold pk_floats, read_bytes_out in E. rewrite Hb in E. apply bind_inv in E as (b & st0 & [El ->]%lift_inv & E). injection El as <-.
    destruct (Z.eqb_spec (zlen bs mod 8) 0) as [Hm|]; [|done]. cbn [negb] in E. parts E. code TAG_FLOAT_ARRAY (varint_of (zlen bs / 8) ++ bs) [o] up_floats. by eapply yields_floats. }
  destruct (Z.eqb_spec k (large_pos_int_klass (universe v1))) as [->|_].
  { cbn [orb] in E. destruct (Z.eqb_spec (large_pos_int_klass (universe v1)) (large_neg_int_klass (universe v1))) as [En|]; [rewrite En in *; by eapply (large_coded d o obj true)|by eapply (large_coded d o obj false)]. }
  destruct (Z.eqb_spec k (large_neg_int_klass (universe v1))) as [->|_]; cbn [orb] in E; [by eapply (large_coded d o obj true)|].
  destruct (Z.eqb_spec k (array_klass (universe v1))) as [->|_]; [by eapply array_coded|by eapply object_coded].
Qed.
Lemma pk_codes d : codes (pk d) (up d).
Proof using All.
  induction d as [|d IH]; intros o st st' t1 Hv E Hs; [done|]. enough (coded d o st st' t1) as (tag & bs & new & body & Ho & Hs' & Hd & Hy).
  { exists (tag :: bs), new. split_and!; [done|rewrite zlen_cons; pose proof (zlen_nonneg bs); lia|done|]. apply (yields_decodes d tag body); [|done..].
    pose proof (sn_max _ _ Hs). change MAX_OBJECTS with 1000000 in *. lia. }
  cbn [Pickle.pk] in E. apply bind_inv in E as ([] & st0 & ->%check_inv & E).
  destruct (Z.eqb_spec o (nil_obj (universe v1))) as [->|_]. { parts E. code TAG_NIL (@nil Z) (@nil Z) (let! vm := get_vm in ret (nil_obj (universe vm))). apply yields_ret. intros. constructor. }
  destruct (Z.eqb_spec o (false_obj (universe v1))) as [->|_]. { parts E. code TAG_FALSE (@nil Z) (@nil Z) (let! vm := get_vm in ret (false_obj (universe vm))). apply yields_ret. intros. constructor. }
  destruct (Z.eqb_spec o (true_obj (universe v1))) as [->|_]. { parts E. code TAG_TRUE (@nil Z) (@nil Z) (let! vm := get_vm in ret (true_obj (universe vm))). apply yields_ret. intros. constructor. }
  destruct (SmallInt.try_from o) as [smi|] eqn:Es.
  { assert (smi = o /\ Oop.is_smi o = true) as [-> Hsmi]. { unfold SmallInt.try_from in Es. destruct (Oop.is_smi o); [|done]. by injection Es. } parts E. code TAG_SMI (varint_of (zigzag (SmallInt.value o))) (@nil Z) up_smi.
    apply yields_smi. destruct Hv as [Hv|[obj Ho]]; [done|]. destruct (object_mem _ _ _ Ho) as [_ Hno]. congruence. }
  destruct (valid_mem _ _ Hv Es) as [obj Ho]. rewrite (proj1 (object_mem _ _ _ Ho)) in E. cbn [negb] in E. parts E. rename El into Hk, El0 into Hkl, x into k, x0 into kl.
  destruct (Z.eqb_spec k (double_klass (universe v1))) as [->|_].
  { parts E. unfold double_bits in El. rewrite Ho in El. destruct obj; try done. injection El as ->. code TAG_DOUBLE (to_le_bytes x) (@nil Z) up_double. by apply yields_double. }
  destruct (Z.eqb_spec k (character_klass (universe v1))) as [->|_].
  { destruct (object_of v1 o obj _ _ 1 W1 Ho Hk (w_character _ W1)) as (fs & -> & Hl). destruct fs as [|c [|c' fs]]; [done| |rewrite !zlen_cons in Hl; pose proof (zlen_nonneg fs); lia]. parts E. unfold body_oop in El. rewrite Ho in El. injection El as <-.
    pose proof (w_objects _ W1 _ _ Ho) as [_ Hvc]. apply Forall_cons in Hvc as [Hvc _]. destruct (SmallInt.try_from c) as [code|] eqn:Ec; [|done]. assert (code = c /\ Oop.is_smi c = true) as [-> Hsmi]. { unfold SmallInt.try_from in Ec. destruct (Oop.is_smi c); [|done]. by injection Ec. }
    parts E. code TAG_CHAR (varint_of (u64 (SmallInt.value c))) (@nil Z) up_char. apply yields_char; [done|]. destruct Hvc as [Hvc|[y Hy]]; [done|]. destruct (object_mem _ _ _ Hy) as [_ Hno]. congruence. }
  unfold bind at 1, get_seen in E. destruct (seen st !! o) as [idx|] eqn:Eseen.
  { apply (sn_lookup _ _ Hs) in Eseen as (n & -> & Hn). parts E. code TAG_BACKREF (varint_of (Z.of_nat n)) (@nil Z) up_backref. apply yields_backref; [done|]. pose proof (sn_max _ _ Hs) as Hm. apply lookup_lt_Some in Hn. unfold zlen in Hm. change MAX_OBJECTS with 1000000 in *. lia. }
  destruct (Z.leb_spec max_objects (Z.of_nat (size (seen st)))); [done|]. unfold bind at 1, see in E.
  destruct (heap_coded d o obj k kl _ st' t1 IH Ho Hk Hkl E) as (tag & bs & new & body & Hout & H3); [cbn [seen]; by apply see_ok|]. exists tag, bs, new, body. done.
Qed.

(** *** What makes the encoder panic *)
(** It does not panic, unless [P]. *)
Definition safe {S E A} (P : Prop) (x : outcome S E A) : Prop := match x with Panic => P | Exit _ => False | _ => True end.
Lemma safe_mono {S E A} (P P' : Prop) (x : outcome S E A) : (P -> P') -> safe P x -> safe P' x.
Proof using Type. intros H. destruct x; cbn; auto. Qed.
Lemma bind_safe {S E A B} P (c : M S E A) (k : A -> M S E B) s : safe P (c s) -> (forall x s', c s = Ok x s' -> safe P (k x s')) -> safe P (bind c k s).
Proof using Type. unfold bind. intros Hc Hk. destruct (c s) as [x s'|e s'| |code]; [by apply Hk|done..]. Qed.
Lemma range_safe {S E} P (f : Z -> M S E ()) n : forall i s, (forall j s, i <= j < i + Z.of_nat n -> safe P (f j s)) -> safe P (for_range n i f s).
Proof using Type.
  induction n as [|n IH]; intros i s Hf; cbn [for_range]; [done|]. apply bind_safe; [apply Hf; lia|]. intros _ s' _. apply IH. intros j s'' Hj. apply Hf. lia.
Qed.
(** Nothing that [o] reaches is a vector, or one is. *)
Abbreviation reaches_vector o := (exists x, rtc (refers v1) o x /\ vector v1 x).
Lemma pk_safe d : forall o st, valid v1 o -> safe (reaches_vector o) (pk d o st).
Proof using W1.
  induction d as [|d IH]; intros o st Hv; cbn [Pickle.pk]; [done|]. apply bind_safe; [unfold check_bytes, bind, get_out; by destruct (_ <? _)|]. intros _ st1 _.
  destruct (o =? _); [done|]. destruct (o =? _); [done|]. destruct (o =? _); [done|]. destruct (SmallInt.try_from o) as [smi|] eqn:Es; [done|]. destruct (valid_mem _ _ Hv Es) as [obj Ho]. rewrite (proj1 (object_mem _ _ _ Ho)). cbn [negb].
  destruct (klass_of_ok _ _ _ W1 Ho) as (k & kl & Hk & Hkl). unfold bind at 1, lift. rewrite Hk. unfold bind at 1, lift. rewrite Hkl. pose proof (w_objects _ W1 _ _ Ho) as Hs.
  destruct (Z.eqb_spec k (double_klass (universe v1))) as [->|Hnd].
  { destruct (w_double _ W1) as [n Hd]. destruct (object_of v1 o obj _ _ _ W1 Ho Hk Hd eq_refl) as (bits & ->). unfold double_bits. by rewrite Ho. }
  destruct (Z.eqb_spec k (character_klass (universe v1))) as [->|_].
  { destruct (object_of v1 o obj _ _ 1 W1 Ho Hk (w_character _ W1)) as (fs & -> & Hl). destruct fs as [|c fs]; [done|]. unfold body_oop. rewrite Ho. change (zlookup (c :: fs) 0) with (Some c). unfold bind at 1, lift. by destruct (SmallInt.try_from c). }
  assert (forall x st, x ∈ words_of obj -> valid v1 x -> safe (reaches_vector o) (pk d x st)) as Hchild.
  { intros x st0 Hx Hvx. eapply safe_mono; [|by apply IH]. intros (y & Hy & Hv'). exists y. split; [|done]. eapply rtc_l; [|exact Hy]. by exists obj. }
  unfold bind at 1, get_seen. destruct (seen st1 !! o); [done|]. destruct (_ <=? _); [done|]. unfold bind at 1, see. unfold pk_heap. cbv zeta.
  assert (forall kf tag st, k = kf (universe v1) -> kf (universe v1) ∈ known_bytes (universe v1) -> safe (reaches_vector o) (pk_bytes v1 tag o st)) as Hbytes.
  { intros kf tag st0 -> Hin. destruct (known_object o obj kf Ho Hk Hin) as (mk & bs & Hb & _). unfold pk_bytes, read_bytes_out. by rewrite Hb. }
  destruct (Z.eqb_spec k (symbol_klass (universe v1))) as [E|_]; [apply (Hbytes symbol_klass); [done|member]|].
  destruct (Z.eqb_spec k (string_klass (universe v1))) as [E|_]; [apply (Hbytes string_klass); [done|member]|].
  destruct (Z.eqb_spec k (bytearray_klass (universe v1))) as [E|_]; [apply (Hbytes bytearray_klass); [done|member]|].
  destruct (Z.eqb_spec k (float_array_klass (universe v1))) as [->|_].
  { destruct (known_object o obj float_array_klass Ho Hk) as (mk & bs & Hb & _); [member|]. unfold pk_floats, read_bytes_out. rewrite Hb. unfold bind, lift. by destruct (negb _). }
  destruct (Z.eqb_spec k (large_pos_int_klass (universe v1))) as [E|_]; [cbn [orb]; apply (Hbytes large_pos_int_klass); [done|member]|].
  destruct (Z.eqb_spec k (large_neg_int_klass (universe v1))) as [E|_]; cbn [orb]; [apply (Hbytes large_neg_int_klass); [done|member]|].
  assert (forall es st, Forall (valid v1) es -> (forall x, x ∈ es -> x ∈ words_of obj) -> safe (reaches_vector o) (pk_elems (pk d) es st)) as Helems.
  { intros es st0 Hes Hsub. apply range_safe. intros j s Hj. destruct (zlookup_is_Some es j) as [x Hx]; [unfold zlen; lia|]. unfold bind, lift. rewrite Hx.
    assert (x ∈ es) as Hin by (unfold zlookup in Hx; destruct (j <? 0); [done|]; by eapply list_elem_of_lookup_2). rewrite Forall_forall in Hes. apply Hchild; auto. }
  destruct (Z.eqb_spec k (array_klass (universe v1))) as [->|_].
  { destruct (object_of v1 o obj _ _ 0 W1 Ho Hk (w_array _ W1)) as (fs & es & -> & _). unfold pk_array, as_array. rewrite Ho. unfold bind at 1, lift. do 2 (apply bind_safe; [done|]; intros _ ? _). apply Helems; [apply Hs|]. intros x Hx. cbn. apply elem_of_app. by right. }
  unfold pk_object. destruct (Z.eqb_spec k (alien_klass (universe v1))) as [|Hna]; [done|]. destruct (Z.eqb_spec k (objcref_klass (universe v1))) as [|Hno]; [done|]. pose proof (w_objects _ W1 _ _ (as_klass_is _ _ _ Hkl)) as [Hsz _]. set (nslots := k_non_indexable_size kl - HEADER_WORDS).
  assert (klass_is v1 k (k_format kl) nslots) as His. { exists kl. split_and!; [by apply as_klass_is|done|unfold nslots; lia]. } pose proof (object_of v1 o obj k _ _ W1 Ho Hk His) as Hobj.
  apply bind_safe. { destruct (k_format kl) eqn:Ef; try done. cbn. exists o. split; [reflexivity|]. by exists k, kl. } intros sk st2 Esk. destruct (read_bytes_out v1 (k_name kl)) as [name|]; [|done]. destruct (Z.ltb_spec nslots 0); [unfold nslots in *; lia|].
  do 5 (apply bind_safe; [done|]; intros _ ? _).
  assert (exists fs, zlen fs = nslots /\ Forall (valid v1) fs /\ (forall i, body_oop v1 o i = zlookup fs i) /\ (forall x, x ∈ fs -> x ∈ words_of obj) /\
    (sk = SUBKIND_OOPS -> exists es, object_at v1 o = Some (OOops k fs es) /\ Forall (valid v1) es /\ (forall x, x ∈ es -> x ∈ words_of obj)) /\ (sk = SUBKIND_BYTES -> exists mk bs, object_at v1 o = Some (OBytes k mk fs bs)) /\ (sk = 0 \/ sk = 1 \/ sk = 2)) as (fs & Hfs & Hvs & Hb & Hsub & Hoops & Hbs & Hsk).
  { destruct (k_format kl); try done; injection Esk as <- <-.
    - destruct Hobj as (fs & -> & Hl). exists fs. split_and!; [done|apply Hs|by intros i; unfold body_oop; rewrite Ho|done|done|done|by left].
    - destruct Hobj as (fs & es & -> & Hl). exists fs. split_and!; [done|apply Hs|by intros i; unfold body_oop; rewrite Ho|intros x Hx; cbn; apply elem_of_app; by left|intros _; exists es; split_and!; [done|apply Hs|intros x Hx; cbn; apply elem_of_app; by right]|done|by right; left].
    - destruct Hobj as (mk & fs & bs & -> & Hl). exists fs. split_and!; [done|apply Hs|by intros i; unfold body_oop; rewrite Ho|done|done|intros _; by exists mk, bs|by right; right]. }
  apply bind_safe. { destruct Hsk as [->|[->| ->]]; [done| |].
    - destruct (Hoops eq_refl) as (es & Ho' & _ & _). unfold bind, lift, as_array. by rewrite Ho'. - destruct (Hbs eq_refl) as (mk & bs & Ho'). unfold bind, lift, read_bytes_out. by rewrite Ho'. }
  intros _ st3 _. apply bind_safe.
  { apply range_safe. intros j sj Hj. rewrite Z2Nat.id in Hj by lia. destruct (zlookup_is_Some fs j) as [x Hx]; [lia|]. unfold bind, lift. rewrite Hb, Hx.
    assert (x ∈ fs) as Hin by (unfold zlookup in Hx; destruct (j <? 0); [done|]; by eapply list_elem_of_lookup_2). rewrite Forall_forall in Hvs. apply Hchild; auto. }
  intros _ st4 _. apply bind_safe; [|intros _ st5 _; unfold check_bytes, bind, get_out; by destruct (_ <? _)]. destruct Hsk as [->|[->| ->]]; [done| |].
  - destruct (Hoops eq_refl) as (es & Ho' & Hes & Hse). unfold bind, lift, as_array. rewrite Ho'. by apply Helems.
  - destruct (Hbs eq_refl) as (mk & bs & Ho'). unfold bind, lift, read_bytes_out. by rewrite Ho'.
Qed.
(** A vector that is met within the limits. *)
Lemma pk_vector d o st : vector v1 o -> o <> nil_obj (universe v1) -> o <> false_obj (universe v1) -> o <> true_obj (universe v1) ->
  zlen (out st) <= max_bytes -> seen st !! o = None -> Z.of_nat (size (seen st)) < max_objects -> pk (S d) o st = Panic.
Proof using W1.
  intros (k & kl & Hk & Hkl & Hf & Hnd & Hna & Hno) Hn Hfa Htr Hout Hnew Hsz. cbn [Pickle.pk]. unfold bind at 1, check_bytes, bind at 1, get_out.
  destruct (Z.ltb_spec max_bytes (zlen (out st))); [lia|]. unfold ret at 1. rewrite !(proj2 (Z.eqb_neq _ _)) by done.
  assert (is_Some (object_at v1 o)) as [obj Ho] by (unfold klass_of in Hk; destruct (object_at v1 o); [by eexists|done]).
  destruct (object_mem _ _ _ Ho) as [Hm Hs]. unfold SmallInt.try_from. rewrite Hs, Hm. cbn [negb]. unfold bind at 1, lift. rewrite Hk. unfold bind at 1, lift. rewrite Hkl.
  assert (forall k' f n, klass_is v1 k' f n -> f <> Heap.Double -> k <> k') as Hne.
  { intros k' f n (kl' & Hkl' & Hf' & _) Hd ->. apply as_klass_is in Hkl. rewrite Hkl in Hkl'. injection Hkl' as <-. congruence. }
  assert (forall k', k' ∈ known_bytes (universe v1) -> k <> k') as Hnb by (intros k' Hin; eapply Hne; [by apply known_bytes_is|done]).
  rewrite (proj2 (Z.eqb_neq _ _) Hnd), (proj2 (Z.eqb_neq k (character_klass (universe v1)))) by (eapply Hne; [apply (w_character _ W1)|done]).
  unfold bind at 1, get_seen. rewrite Hnew. destruct (Z.leb_spec max_objects (Z.of_nat (size (seen st)))); [lia|]. unfold bind at 1, see, pk_heap. cbv zeta.
  rewrite (proj2 (Z.eqb_neq k (symbol_klass (universe v1)))), (proj2 (Z.eqb_neq k (string_klass (universe v1)))), (proj2 (Z.eqb_neq k (bytearray_klass (universe v1)))),
    (proj2 (Z.eqb_neq k (float_array_klass (universe v1)))), (proj2 (Z.eqb_neq k (large_pos_int_klass (universe v1)))), (proj2 (Z.eqb_neq k (large_neg_int_klass (universe v1)))) by (apply Hnb; member).
  cbn [orb]. rewrite (proj2 (Z.eqb_neq k (array_klass (universe v1)))) by (eapply Hne; [apply (w_array _ W1)|done]).
  unfold pk_object. rewrite (proj2 (Z.eqb_neq _ _) Hna), (proj2 (Z.eqb_neq _ _) Hno). unfold bind at 1. by rewrite Hf.
Qed.
End roundtrip.

(** The objects of the sample, one by one. *)
Ltac cases n H := first [discriminate H | destruct n as [|n]; [try discriminate H | cases n H]].
Ltac each_object H := let n := fresh in apply object_oop_inv in H as (n & -> & H); cases n H.
Lemma sender_values : values_ok SampleWorld.sender.
Proof.
  split.
  - intros o bits H. each_object H. injection H as <-. by vm_compute.
  - intros o code H. each_object H. injection H as <-. by vm_compute.
Qed.
Lemma receiver_knows : knows SampleWorld.sender SampleWorld.receiver SampleWorld.the_names.
Proof.
  intros k kl name H%as_klass_is _ Hn. each_object H; injection H as <-; try (vm_compute in Hn; done). vm_compute in Hn. injection Hn as <-.
  exists (SampleWorld.at_ 19), (SampleWorld.at_ 21), (SampleWorld.at_ 20). eexists. split_and!; try by vm_compute.
Qed.
(** The pickle of the sample's graph. *)
Definition the_pickle : list Z := Eval vm_compute in match pickle_with_limits SampleWorld.sender (SampleWorld.at_ 24) MAX_BYTES (MAX_OBJECTS - 1) with Ok bytes _ => bytes | _ => [] end.
Lemma the_pickle_eq : pickle_with_limits SampleWorld.sender (SampleWorld.at_ 24) MAX_BYTES (MAX_OBJECTS - 1) = Ok the_pickle ().
Proof. vm_compute. reflexivity. Qed.
Lemma the_copy : match unpickle the_pickle SampleWorld.receiver with Ok root v => body_oop v root 1 = Some root | _ => False end.
Proof. vm_compute. reflexivity. Qed.
End PickleCorrect.
