(* ===== verification/WorkerMessages.v ===== *)
(** The messages that the registry of workers builds by hand are the pickles
    of the arrays they stand for: [worker_died_is_pickle] and
    [worker_transcript_is_pickle]. *)
From Stdlib Require Import String.
From S2P Require Import Prelude Oops Heap World WorldCorrect WorldOk Pickle PickleSafe PickleCorrect.
From stdpp Require Import gmap.
#[local] Set Warnings "-register-all".
#[local] Open Scope string_scope.
#[local] Open Scope Z_scope.
#[local] Open Scope list_scope.
#[local] Open Scope pickle_scope.

Module WorkerMessages.
Import World WorldCorrect WorldOk Pickle PickleSafe PickleCorrect.

Section messages.
Context (v : vmstate) (W : world_ok v) (Hdistinct : symbol_klass (universe v) <> string_klass (universe v)).
Abbreviation u := (universe v).
Abbreviation pk := (pk v MAX_BYTES MAX_OBJECTS).
(** An object that is none of nil, false and true. *)
Definition ordinary (o : Z) : Prop := o <> nil_obj u /\ o <> false_obj u /\ o <> true_obj u.
Definition room (st : pst) : Prop := zlen (out st) <= MAX_BYTES /\ Z.of_nat (size (seen st)) < MAX_OBJECTS.
Lemma pk_new d o obj k st : ordinary o -> object_at v o = Some obj -> klass_of v o = Some k -> k <> double_klass u -> k <> character_klass u -> room st -> seen st !! o = None ->
  exists kl, pk (S d) o st = pk_heap v MAX_BYTES (pk d) o k kl (MkPst (out st) (<[o := u32 (Z.of_nat (size (seen st)))]> (seen st))).
Proof.
  intros (Hn & Hf & Ht) Ho Hk Hd Hc [Hr Hsz] Hs. destruct (klass_of_ok _ _ _ W Ho) as (k' & kl & Hk' & Hkl). rewrite Hk in Hk'. injection Hk' as <-. exists kl. cbn [Pickle.pk]. unfold bind at 1, check_bytes, bind at 1, get_out.
  destruct (Z.ltb_spec MAX_BYTES (zlen (out st))); [lia|]. unfold ret at 1. rewrite !(proj2 (Z.eqb_neq _ _)) by done. destruct (object_mem _ _ _ Ho) as [Hm Hi]. unfold SmallInt.try_from. rewrite Hi, Hm. cbn [negb].
  unfold bind at 1, lift. rewrite Hk. unfold bind at 1, lift. rewrite Hkl, !(proj2 (Z.eqb_neq _ _)) by done. unfold bind at 1, get_seen. rewrite Hs. destruct (Z.leb_spec MAX_OBJECTS (Z.of_nat (size (seen st)))); [lia|done].
Qed.
Lemma bytes_not_boxed k : k ∈ known_bytes u -> k <> double_klass u /\ k <> character_klass u.
Proof.
  intros Hk%(known_bytes_is v k W). destruct (w_double _ W) as [n Hd]. split; intros ->; [by destruct (klass_is_fun _ _ _ _ _ _ Hk Hd)|by destruct (klass_is_fun _ _ _ _ _ _ Hk (w_character _ W))].
Qed.
Lemma pk_symbol d s mk bytes st : ordinary s -> object_at v s = Some (OBytes (symbol_klass u) mk [] bytes) -> room st -> seen st !! s = None ->
  exists m, pk (S d) s st = Ok () (MkPst (out st ++ TAG_SYMBOL :: varint_of (zlen bytes) ++ bytes) m) /\ m = <[s := u32 (Z.of_nat (size (seen st)))]> (seen st).
Proof.
  intros Hs Ho Hr Hn. assert (klass_of v s = Some (symbol_klass u)) as Hk by (unfold klass_of; by rewrite Ho). destruct (bytes_not_boxed (symbol_klass u)) as [H1 H2]; [member|].
  destruct (pk_new d s _ _ st Hs Ho Hk H1 H2 Hr Hn) as (kl & ->). unfold pk_heap. rewrite Z.eqb_refl. unfold pk_bytes, read_bytes_out. rewrite Ho. eexists. split; [|done]. unfold bind, lift, emit, write_varint, emit. cbn [out seen]. by rewrite <- !(assoc_L (++)).
Qed.
Lemma pk_string d t mk bytes st : ordinary t -> object_at v t = Some (OBytes (string_klass u) mk [] bytes) -> room st -> seen st !! t = None ->
  exists m, pk (S d) t st = Ok () (MkPst (out st ++ TAG_STRING :: varint_of (zlen bytes) ++ bytes) m).
Proof.
  intros Hs Ho Hr Hn. assert (klass_of v t = Some (string_klass u)) as Hk by (unfold klass_of; by rewrite Ho). destruct (bytes_not_boxed (string_klass u)) as [H1 H2]; [member|].
  destruct (pk_new d t _ _ st Hs Ho Hk H1 H2 Hr Hn) as (kl & ->). unfold pk_heap. rewrite (proj2 (Z.eqb_neq _ _)) by congruence. rewrite Z.eqb_refl. unfold pk_bytes, read_bytes_out. rewrite Ho. eexists. unfold bind, lift, emit, write_varint, emit. cbn [out seen]. by rewrite <- !(assoc_L (++)).
Qed.
Lemma pk_smi d w id st : SmallInt.new id = Some w -> zlen (out st) <= MAX_BYTES -> pk (S d) w st = Ok () (MkPst (out st ++ TAG_SMI :: varint_of (zigzag id)) (seen st)).
Proof.
  intros [[Hw Hi] Hv]%SmallInt.try_new_smi_ok Hr. assert (forall o, is_Some (object_at v o) -> w <> o) as Hne. { intros o [x Hx] ->. destruct (object_mem _ _ _ Hx) as [_ Hno]. congruence. }
  cbn [Pickle.pk]. unfold bind at 1, check_bytes, bind at 1, get_out. destruct (Z.ltb_spec MAX_BYTES (zlen (out st))); [lia|]. unfold ret at 1. rewrite !(proj2 (Z.eqb_neq _ _)) by (apply Hne, W).
  unfold SmallInt.try_from. rewrite Hi. unfold bind, emit, write_varint, emit. cbn [out seen]. rewrite Hv. by rewrite <- (assoc_L (++)).
Qed.
Lemma pk_array_start d o es st : ordinary o -> object_at v o = Some (OOops (array_klass u) [] es) -> room st -> seen st !! o = None ->
  pk (S d) o st = pk_elems (pk d) es (MkPst (out st ++ TAG_ARRAY :: varint_of (zlen es)) (<[o := u32 (Z.of_nat (size (seen st)))]> (seen st))).
Proof.
  intros Hs Ho Hr Hn. assert (klass_of v o = Some (array_klass u)) as Hk by (unfold klass_of; by rewrite Ho). destruct (w_double _ W) as [n Hd].
  assert (forall k f n, klass_is v k f n -> f <> Heap.IndexableOops -> array_klass u <> k) as Hne. { intros k f m Hk' Hf <-. destruct (klass_is_fun _ _ _ _ _ _ Hk' (w_array _ W)). done. }
  assert (forall k, k ∈ known_bytes u -> array_klass u <> k) as Hb. { intros k Hk'. by eapply Hne; [apply known_bytes_is|]. }
  destruct (pk_new d o _ _ st Hs Ho Hk) as (kl & ->); [by eapply Hne|by eapply Hne; [apply W|]|done|done|]. unfold pk_heap. cbv zeta. rewrite !(proj2 (Z.eqb_neq _ _)) by (apply Hb; member). cbn [orb]. rewrite Z.eqb_refl.
  unfold pk_array, as_array. rewrite Ho. unfold bind, lift, emit, write_varint, emit. cbn [out seen]. by rewrite <- (assoc_L (++)).
Qed.
Lemma varint_small x : 1 <= zlen (varint_of x) <= 10.
Proof.
  split; [apply varint_length|]. unfold varint_of. assert (forall n x, zlen (write_varint_from n x) <= Z.of_nat n) as H; [|apply (H 10%nat)]. clear x.
  induction n as [|n IH]; intros x; cbn [write_varint_from]; [done|]. destruct (_ =? 0); rewrite zlen_cons; [change (zlen (@nil Z)) with 0; lia|]. specialize (IH (Z.shiftr x 7)). lia.
Qed.

(** [{#workerDied. id}]. *)
Theorem worker_died_is_pickle o s mk w id (Ho : object_at v o = Some (OOops (array_klass u) [] [s; w])) (Hs : object_at v s = Some (OBytes (symbol_klass u) mk [] (chars_of "workerDied")))
    (Hw : SmallInt.new id = Some w) (Oo : ordinary o) (Os : ordinary s) : pickle v o = Ok (encode_worker_died id) ().
Proof.
  assert (o <> s) as Hne by congruence. unfold pickle, pickle_with_limits. change (Z.to_nat MAX_DEPTH) with (S (S 998)). rewrite (pk_array_start (S 998) o _ (MkPst MAGIC ∅) Oo Ho); [|by split|done].
  unfold pk_elems. cbn [length for_range out seen]. unfold bind at 1, bind at 1, lift. change (zlookup [s; w] 0) with (Some s). cbv iota beta.
  edestruct (fun st => pk_symbol 998 s mk _ st Os Hs) as (m & -> & _); [|cbn [seen]; by rewrite lookup_insert_ne|]. { split; [by vm_compute|]. cbn [seen]. rewrite map_size_insert_None by done. by vm_compute. }
  unfold bind at 1, bind at 1, lift. change (zlookup [s; w] (0 + 1)) with (Some w). cbv iota beta. rewrite (pk_smi 998 w id) by (done || by vm_compute). cbn [out].
  done.
Qed.
(** [{#workerTranscript. id. text}], whatever the length of the text. *)
Theorem worker_transcript_is_pickle o s t mk mk' w id text (Ho : object_at v o = Some (OOops (array_klass u) [] [s; w; t])) (Hs : object_at v s = Some (OBytes (symbol_klass u) mk [] (chars_of "workerTranscript")))
    (Ht : object_at v t = Some (OBytes (string_klass u) mk' [] text)) (Hw : SmallInt.new id = Some w) (Oo : ordinary o) (Os : ordinary s) (Ot : ordinary t) : pickle v o = Ok (encode_worker_transcript id text) ().
Proof.
  assert (o <> s) as Hne by congruence. assert (o <> t) as Hne2 by congruence. assert (s <> t) as Hne3 by congruence. unfold pickle, pickle_with_limits. change (Z.to_nat MAX_DEPTH) with (S (S 998)). rewrite (pk_array_start (S 998) o _ (MkPst MAGIC ∅) Oo Ho); [|by split|done].
  unfold pk_elems. cbn [length for_range out seen]. unfold bind at 1, bind at 1, lift. change (zlookup [s; w; t] 0) with (Some s). cbv iota beta.
  edestruct (fun st => pk_symbol 998 s mk _ st Os Hs) as (m & -> & ->); [|cbn [seen]; by rewrite lookup_insert_ne|]. { split; [by vm_compute|]. cbn [seen]. rewrite map_size_insert_None by done. by vm_compute. }
  unfold bind at 1, bind at 1, lift. change (zlookup [s; w; t] (0 + 1)) with (Some w). cbv iota beta. rewrite (pk_smi 998 w id) by (done || by vm_compute).
  unfold bind at 1, bind at 1, lift. change (zlookup [s; w; t] (0 + 1 + 1)) with (Some t). cbv iota beta. edestruct (fun st => pk_string 998 t mk' text st) as (m & ->); [done|done| |cbn [seen]; by rewrite !lookup_insert_ne|].
  { split; [|cbn [seen]; rewrite !map_size_insert_None; [by vm_compute|done|by rewrite lookup_insert_ne]]. cbn [out]. rewrite !zlen_app, !zlen_cons, !zlen_app. change (zlen MAGIC) with 4. change (zlen (chars_of "workerTranscript")) with 16. change MAX_BYTES with 67108864.
    pose proof (varint_small (zigzag id)). pose proof (varint_small 16). match goal with |- context [zlen (varint_of (?a + ?b))] => pose proof (varint_small (a + b)) end. lia. }
  cbn [out]. unfold ret, encode_worker_transcript. done.
Qed.
End messages.
End WorkerMessages.
