(* ===== verification/Codegen.v ===== *)
(** Code generation ([src/src/frontend/codegen.rs]): from the syntax tree of a
    method to the methods of it and its blocks.

    A unit -- a method, or a block in it -- is emitted into a builder of its
    own.  [st] is what the emitters change: the objects, the unit's builder, its
    cache of literals and the next frame slot that is free for the variables of
    dissolved blocks; a context [Ctx] is what they only read.  The scopes of
    dissolved blocks are pushed and popped in pairs around a body, so a body is
    emitted with them as an argument, the innermost first.  Handles protect
    oops from collections, and are not modelled (see [World]).

    [Panic] is a panic, a failed assertion, an index out of bounds, or the exit
    of the process when the eden has no room for a symbol ([World.raw]).  The
    emitters that call each other recursively take [emit_expr] as a parameter;
    [emit_expr] itself is at the end. *)
From Stdlib Require Import String Ascii.
From S2P Require Import Prelude Oops Packed Bytecode Builder Lexer Ast Capture World.
From stdpp Require Import gmap.
#[local] Set Warnings "-register-all".
#[local] Open Scope string_scope.
#[local] Open Scope Z_scope.
#[local] Open Scope list_scope.

Module Codegen.
Import Ast BytecodeBuilder.

(** ** Outcomes *)
(** An error keeps what its message is formatted from; [path] and [eof] are
    [None] and [false]. *)
Inductive message := TooManyParameters (n : Z) | TooManyTemporaries (n : Z) | TooManyCaptured (n : Z) | Undeclared (name : list Z).
Record CompileError := MkError { ce_span : Span; ce_msg : message }.
Inductive outcome (A : Type) := Ok (a : A) | Err (e : CompileError) | Panic.
Arguments Ok {A}. Arguments Err {A}. Arguments Panic {A}.

Record LitCache := MkCache { doubles : gmap Z Z; strings : gmap (list Z) Z; chars_ : gmap Z Z; bigints : gmap (bool * list Z) Z }.
Definition empty_cache : LitCache := MkCache ∅ ∅ ∅ ∅.
Record st := MkSt { vm : World.vmstate; cache : LitCache; bb : builder; next_hoist_slot : Z }.
Definition M (A : Type) := st -> outcome (A * st).
Definition ret {A} (a : A) : M A := fun s => Ok (a, s).
Definition seq {A B} (c : M A) (k : A -> M B) : M B := fun s => match c s with Ok (a, s) => k a s | Err e => Err e | Panic => Panic end.
Definition panic {A} : M A := fun _ => Panic.
Definition fail {A} (span : Span) (msg : message) : M A := fun _ => Err (MkError span msg).
Declare Scope codegen_scope.
#[local] Open Scope codegen_scope.
Notation "'let!' x := c 'in' k" := (seq c (fun x => k)) (at level 10, x pattern, k at level 200) : codegen_scope.
Notation "c ;; k" := (seq c (fun _ => k)) (at level 100, right associativity) : codegen_scope.

Definition with_vm (s : st) (v : World.vmstate) : st := MkSt v (cache s) (bb s) (next_hoist_slot s).
Definition with_cache (s : st) (c : LitCache) : st := MkSt (vm s) c (bb s) (next_hoist_slot s).
Definition with_bb (s : st) (b : builder) : st := MkSt (vm s) (cache s) b (next_hoist_slot s).
Definition lift {A} (o : option A) : M A := fun s => match o with Some a => Ok (a, s) | None => Panic end.
Definition read {A} (f : st -> A) : M A := fun s => Ok (f s, s).
(** A call of the builder. *)
Definition emit (f : builder -> builder) : M unit := fun s => Ok (tt, with_bb s (f (bb s))).
Definition try_emit (f : builder -> option builder) : M unit := fun s => match f (bb s) with Some b => Ok (tt, with_bb s b) | None => Panic end.
Definition new_label : M nat := fun s => let '(l, b) := BytecodeBuilder.new_label (bb s) in Ok (l, with_bb s b).
(** A call that reads and changes the objects. *)
Definition on_vm {A} (f : World.vmstate -> option (A * World.vmstate)) : M A := fun s => match f (vm s) with Some (a, v) => Ok (a, with_vm s v) | None => Panic end.
Definition on_vm_raw {A} (f : World.vmstate -> option (World.raw (A * World.vmstate))) : M A :=
  on_vm (fun v => r ← f v; match r with World.Fits x => Some x | World.Exits _ => None end).
Definition alloc (f : World.vmstate -> Z * World.vmstate) : M Z := on_vm (fun v => Some (f v)).
Definition update_vm (f : World.vmstate -> option World.vmstate) : M unit := on_vm (fun v => v ← f v; Some (tt, v)).
Definition universe {A} (f : World.Universe -> A) : M A := read (fun s => f (World.universe (vm s))).
Definition update_cache (f : LitCache -> LitCache) : M unit := fun s => Ok (tt, with_cache s (f (cache s))).
Definition fresh_slot : M Z := fun s => Ok (u8 (next_hoist_slot s), MkSt (vm s) (cache s) (bb s) (next_hoist_slot s + 1)).

(** [str::as_bytes], of a list of characters. *)
Definition encode_utf8 (c : Z) : list Z :=
  if c <? 0x80 then [c]
  else if c <? 0x800 then [Z.lor 0xC0 (Z.shiftr c 6); Z.lor 0x80 (Z.land c 0x3F)]
  else if c <? 0x10000 then [Z.lor 0xE0 (Z.shiftr c 12); Z.lor 0x80 (Z.land (Z.shiftr c 6) 0x3F); Z.lor 0x80 (Z.land c 0x3F)]
  else [Z.lor 0xF0 (Z.shiftr c 18); Z.lor 0x80 (Z.land (Z.shiftr c 12) 0x3F); Z.lor 0x80 (Z.land (Z.shiftr c 6) 0x3F); Z.lor 0x80 (Z.land c 0x3F)].
Definition as_bytes (s : list Z) : list Z := flat_map encode_utf8 s.
Definition intern (name : list Z) : M Z := on_vm_raw (World.intern (as_bytes name)).
(** [char::is_uppercase], of the characters of identifiers, which are ASCII. *)
Definition is_uppercase (c : Z) : bool := (ch "A" <=? c) && (c <=? ch "Z").

Definition PRIM_ID_FFI : Z := -1.

(** ** Names *)
Inductive VarRef := Local (slot : Z) | Captured (depth ctx_slot : Z) | InstVar (i : Z) | Global (assoc : Z).

(** The classes from [k] up; [None] is a chain without end. *)
Fixpoint superclasses (fuel : nat) (v : World.vmstate) (k : Z) : option (list (Z * Z)) :=
  match fuel with
  | O => None
  | S fuel =>
      match World.as_klass v k with
      | Some kl => l ← superclasses fuel v (World.k_superclass kl); Some ((World.k_inst_var_names kl, World.k_class_vars kl) :: l)
      | None => Some []
      end
  end.
Definition chain_of (v : World.vmstate) (k : Z) : option (list (Z * Z)) := superclasses (S (length (World.objects v))) v k.
Definition flatten_inst_vars (v : World.vmstate) (klass : Z) : option (list Z) :=
  chain ← chain_of v klass; Some (concat ((fun k => default [] (World.as_array v k.1)) <$> reverse chain)).
(** The association of [name] among the elements of a [class_vars] array. *)
Fixpoint find_assoc (v : World.vmstate) (assocs : list Z) (name : Z) : option (option Z) :=
  match assocs with
  | [] => Some None
  | assoc :: assocs =>
      if Oop.is_mem assoc then k ← World.body_oop v assoc 0; if k =? name then Some (Some assoc) else find_assoc v assocs name
      else find_assoc v assocs name
  end.
Fixpoint find_class_var_in (v : World.vmstate) (chain : list (Z * Z)) (name : Z) : option (option Z) :=
  match chain with
  | [] => Some None
  | k :: chain =>
      r ← find_assoc v (default [] (World.as_array v k.2)) name;
      match r with Some assoc => Some (Some assoc) | None => find_class_var_in v chain name end
  end.
Definition find_class_var (v : World.vmstate) (klass name : Z) : option (option Z) := chain ← chain_of v klass; find_class_var_in v chain name.

Record HoistScope := MkHoist { h_names : gmap (list Z) Z }.
Record Ctx := MkCtx { holder : Z; cx_class_side : bool; top_level : bool; capture : Capture.CaptureInfo; inst_var_names : list Z }.
Fixpoint hoisted (hoist : list HoistScope) (name : list Z) : option Z :=
  match hoist with [] => None | h :: hoist => match h_names h !! name with Some slot => Some slot | None => hoisted hoist name end end.

Section unit.
Context {F : Type} (to_bits : F -> Z) (cx : Ctx).

(** Where a name that is no variable of a scope is found: an instance variable,
    a class variable, a global. *)
Definition resolve_outer (name : list Z) (span : Span) (is_write : bool) : M VarRef :=
  let! sym := intern name in
  match (if cx_class_side cx then None else fst <$> list_find (fun o => o = sym) (inst_var_names cx)) with
  | Some idx => ret (InstVar (u8 (Z.of_nat idx)))
  | None =>
      let! v := read vm in
      let! class_var := lift (find_class_var v (holder cx) sym) in
      match class_var with
      | Some assoc => ret (Global assoc)
      | None =>
          let! g := lift (World.global_lookup v sym) in
          match g with
          | Some assoc => ret (Global assoc)
          | None =>
              if top_level cx && is_write && match name with c :: _ => is_uppercase c | [] => false end
              then let! assoc := on_vm (World.global_declare sym) in ret (Global assoc)
              else fail span (Undeclared name)
          end
      end
  end.
Definition resolve_var (hoist : list HoistScope) (scope_id : nat) (name : list Z) (span : Span) (is_write : bool) : M VarRef :=
  match hoisted hoist name with
  | Some slot => ret (Local slot)
  | None =>
      let! r := lift (Capture.resolve (capture cx) scope_id name) in
      match r with
      | Some (Capture.Local s) => ret (Local (u8 (Z.of_nat s)))
      | Some (Capture.Captured depth ctx_slot) => ret (Captured depth ctx_slot)
      | None => resolve_outer name span is_write
      end
  end.

Definition METHOD_NCTX_MAX : Z := Z.shiftl 1 METHOD_FLAGS_NCTX_BITS - 1.
Definition check_limits (span : Span) (argc ntemps nctx : Z) : option CompileError :=
  if METHOD_ARGC_MAX <? argc then Some (MkError span (TooManyParameters argc))
  else if METHOD_NTEMPS_MAX <? ntemps then Some (MkError span (TooManyTemporaries ntemps))
  else if METHOD_NCTX_MAX <? nctx then Some (MkError span (TooManyCaptured nctx))
  else None.

Definition emit_load (hoist : list HoistScope) (scope_id : nat) (name : list Z) (span : Span) : M unit :=
  let! r := resolve_var hoist scope_id name span false in
  match r with
  | Local s => emit (push_temp s)
  | Captured depth ctx_slot => emit (push_ctx_temp depth ctx_slot)
  | InstVar i => emit (push_instvar i)
  | Global assoc => try_emit (push_global assoc)
  end.
Definition emit_store (hoist : list HoistScope) (scope_id : nat) (name : list Z) (span : Span) : M unit :=
  let! r := resolve_var hoist scope_id name span true in
  match r with
  | Local s => emit (store_temp_pop s)
  | Captured depth ctx_slot => emit (store_ctx_temp_pop depth ctx_slot)
  | InstVar i => emit (store_instvar_pop i)
  | Global assoc => try_emit (store_global_pop assoc)
  end.

(** ** Literals *)
(** The object of a value, a new one unless the unit has it. *)
Definition cached (found : LitCache -> option Z) (make : World.vmstate -> Z * World.vmstate) (insert : Z -> LitCache -> LitCache) : M Z :=
  let! c := read cache in
  match found c with
  | Some o => ret o
  | None => let! o := alloc make in update_cache (insert o) ;; ret o
  end.
Fixpoint build_literal_value (lit : @Literal F) : M Z :=
  match lit with
  | LInt v => lift (SmallInt.new v)
  | LBigInt negative digits =>
      let! klass := universe (if negative then World.large_neg_int_klass else World.large_pos_int_klass) in
      cached (fun c => bigints c !! (negative, digits)) (World.alloc_indexable_bytes klass digits)
        (fun o c => MkCache (doubles c) (strings c) (chars_ c) (<[(negative, digits) := o]> (bigints c)))
  | LFloat v =>
      let bits := to_bits v in
      cached (fun c => doubles c !! bits) (World.alloc_double bits) (fun o c => MkCache (<[bits := o]> (doubles c)) (strings c) (chars_ c) (bigints c))
  | LChar ch =>
      let! klass := universe World.character_klass in
      let! code := lift (SmallInt.new ch) in
      cached (fun c => chars_ c !! ch) (World.alloc_slots klass [code]) (fun o c => MkCache (doubles c) (strings c) (<[ch := o]> (chars_ c)) (bigints c))
  | LStr s =>
      let! klass := universe World.string_klass in
      cached (fun c => strings c !! s) (World.alloc_indexable_bytes klass (as_bytes s)) (fun o c => MkCache (doubles c) (<[s := o]> (strings c)) (chars_ c) (bigints c))
  | LSymbol s => intern s
  | LArray items =>
      let! klass := universe World.array_klass in
      let! arr := alloc (World.alloc_indexable_oops klass (zlen items)) in
      (fix elements (i : Z) (items : list (@Literal F)) : M unit :=
         match items with
         | [] => ret tt
         | it :: items => let! v := build_literal_value it in update_vm (World.at_put arr i v) ;; elements (i + 1) items
         end) 0 items ;;
      ret arr
  | LByteArray bytes => let! klass := universe World.bytearray_klass in alloc (World.alloc_indexable_bytes klass bytes)
  | LNil => universe World.nil_obj
  | LTrue => universe World.true_obj
  | LFalse => universe World.false_obj
  end.
Definition emit_literal (lit : @Literal F) : M unit :=
  match lit with
  | LNil => emit push_nil
  | LTrue => emit push_true
  | LFalse => emit push_false
  | LInt v =>
      if (-128 <=? v) && (v <=? 127) then emit (push_smi_i8 v)
      else let! o := build_literal_value lit in try_emit (push_literal o)
  | _ => let! o := build_literal_value lit in try_emit (push_literal o)
  end.

(** ** Expressions *)
Definition send_sym (selector : list Z) (argc : Z) : M unit := let! sel := intern selector in try_emit (send sel argc).
(** Fresh frame slots for the parameters and temporaries of a dissolved block. *)
Fixpoint fresh_slots (names : list (list Z)) (h : gmap (list Z) Z) : M (gmap (list Z) Z) :=
  match names with [] => ret h | p :: names => let! slot := fresh_slot in fresh_slots names (<[p := slot]> h) end.
Definition push_hoist_scope (hoist : list HoistScope) (params temps : list (list Z)) : M (list HoistScope) :=
  let! names := fresh_slots (params ++ temps) ∅ in ret (MkHoist names :: hoist).
Definition note (stmt : Expr F) : M unit := emit (note_line (line (span_of stmt))).
Inductive BodyKind := Method | DoIt | BlockBody.

Section emitters.
Context (emit_expr : bool -> list HoistScope -> nat -> Expr F -> M unit).
Context (in_block : bool).

Definition emit_return (is_block : bool) : M unit := emit (if is_block then nlr_tos else ret_tos).
Definition emit_statement_discard (hoist : list HoistScope) (scope_id : nat) (stmt : Expr F) (is_block : bool) : M unit :=
  note stmt ;;
  match stmt with
  | Return value _ => emit_expr in_block hoist scope_id value ;; emit_return is_block
  | EAssign name value span => emit_expr in_block hoist scope_id value ;; emit_store hoist scope_id name span
  | other => emit_expr in_block hoist scope_id other ;; emit pop
  end.
Definition emit_statement_value (hoist : list HoistScope) (scope_id : nat) (stmt : Expr F) : M unit :=
  note stmt ;;
  match stmt with
  | EAssign name value span => emit_expr in_block hoist scope_id value ;; emit dup ;; emit_store hoist scope_id name span
  | other => emit_expr in_block hoist scope_id other
  end.
(** A dissolved body; the recursion is on what is left of it. *)
Definition emit_statement_seq (hoist : list HoistScope) (scope_id : nat) : list (Expr F) -> M unit :=
  fix go body :=
    match body with
    | [] => emit push_nil
    | [last] =>
        match last with
        | Return value _ => emit_expr in_block hoist scope_id value ;; emit_return in_block
        | last => emit_statement_value hoist scope_id last
        end
    | stmt :: body => emit_statement_discard hoist scope_id stmt in_block ;; go body
    end.
Definition emit_dissolved_body (hoist : list HoistScope) (scope_id : nat) (blk : BlockNode F) : M unit :=
  match blk with
  | MkBlock params temps body _ _ => let! hoist := push_hoist_scope hoist params temps in emit_statement_seq hoist scope_id body
  end.
Definition emit_ifnotnil_arm (hoist : list HoistScope) (scope_id : nat) (blk : BlockNode F) : M unit :=
  match blk with
  | MkBlock params temps body span sid =>
      match params with
      | [] => emit pop ;; emit_dissolved_body hoist scope_id (MkBlock params temps body span sid)
      | p :: _ =>
          let! hoist := push_hoist_scope hoist params temps in
          let! v_slot := lift (hoisted (take 1 hoist) p) in
          emit (store_temp_pop v_slot) ;; emit_statement_seq hoist scope_id body
      end
  end.

(** The block written at a place that [inline_block_positions] has checked. *)
Definition with_block (e : Expr F) (k : BlockNode F -> M unit) : M unit := match e with Block b => k b | _ => panic end.
Definition arg_block0 (args : list (Expr F)) (k : BlockNode F -> M unit) : M unit := match args with a :: _ => with_block a k | [] => panic end.
Definition arg_block1 (args : list (Expr F)) (k : BlockNode F -> M unit) : M unit := match args with _ :: a :: _ => with_block a k | _ => panic end.
Definition is_sel (selector : list Z) (s : string) : bool := Capture.sel_in [s] selector.

(** [receiver == nil], the receiver kept below. *)
Definition emit_nil_test (hoist : list HoistScope) (scope_id : nat) (receiver : Expr F) : M unit :=
  emit_expr in_block hoist scope_id receiver ;; emit dup ;; emit push_nil ;; send_sym (chars "==") 1.
(** [i_slot <= lim_slot], and [i_slot := i_slot + 1]. *)
Definition emit_loop_test (i_slot lim_slot : Z) : M unit := emit (push_temp i_slot) ;; emit (push_temp lim_slot) ;; send_sym (chars "<=") 1.
Definition emit_loop_step (i_slot : Z) : M unit := emit (push_temp i_slot) ;; emit (push_smi_i8 1) ;; send_sym (chars "+") 1 ;; emit (store_temp_pop i_slot).

Definition emit_inlined (hoist : list HoistScope) (scope_id : nat) (selector : list Z) (receiver : Expr F) (args : list (Expr F)) : M unit :=
  let dissolved := emit_dissolved_body hoist scope_id in
  if Capture.sel_in ["ifTrue:"; "ifFalse:"] selector then
    emit_expr in_block hoist scope_id receiver ;;
    let! l1 := new_label in let! l2 := new_label in
    try_emit ((if is_sel selector "ifTrue:" then br_false_fwd else br_true_fwd) l1) ;;
    arg_block0 args dissolved ;;
    try_emit (jump_fwd l2) ;; try_emit (bind l1) ;; emit push_nil ;; try_emit (bind l2)
  else if Capture.sel_in ["ifTrue:ifFalse:"; "ifFalse:ifTrue:"] selector then
    emit_expr in_block hoist scope_id receiver ;;
    let! l1 := new_label in let! l2 := new_label in
    try_emit (br_false_fwd l1) ;;
    (if is_sel selector "ifTrue:ifFalse:" then arg_block0 args dissolved else arg_block1 args dissolved) ;;
    try_emit (jump_fwd l2) ;; try_emit (bind l1) ;;
    (if is_sel selector "ifTrue:ifFalse:" then arg_block1 args dissolved else arg_block0 args dissolved) ;;
    try_emit (bind l2)
  else if Capture.sel_in ["and:"; "or:"] selector then
    emit_expr in_block hoist scope_id receiver ;;
    let! l1 := new_label in let! l2 := new_label in
    try_emit ((if is_sel selector "and:" then br_false_fwd else br_true_fwd) l1) ;;
    arg_block0 args dissolved ;;
    try_emit (jump_fwd l2) ;; try_emit (bind l1) ;;
    emit (if is_sel selector "and:" then push_false else push_true) ;; try_emit (bind l2)
  else if Capture.sel_in ["whileTrue:"; "whileFalse:"] selector then
    let! l0 := new_label in let! l2 := new_label in
    try_emit (bind l0) ;; with_block receiver dissolved ;;
    try_emit ((if is_sel selector "whileTrue:" then br_false_fwd else br_true_fwd) l2) ;;
    arg_block0 args dissolved ;;
    emit pop ;; try_emit (jump_back l0) ;; try_emit (bind l2) ;; emit push_nil
  else if is_sel selector "timesRepeat:" then
    arg_block0 args (fun blk => match blk with MkBlock _ _ body _ _ =>
      emit_expr in_block hoist scope_id receiver ;; emit dup ;;
      let! lim_slot := fresh_slot in emit (store_temp_pop lim_slot) ;;
      let! i_slot := fresh_slot in emit (push_smi_i8 1) ;; emit (store_temp_pop i_slot) ;;
      let! l0 := new_label in let! l2 := new_label in
      try_emit (bind l0) ;; emit_loop_test i_slot lim_slot ;; try_emit (br_false_fwd l2) ;;
      emit_statement_seq hoist scope_id body ;; emit pop ;;
      emit_loop_step i_slot ;; try_emit (jump_back l0) ;; try_emit (bind l2) end)
  else if is_sel selector "ifNil:" then
    emit_nil_test hoist scope_id receiver ;;
    let! l1 := new_label in let! l2 := new_label in
    try_emit (br_false_fwd l1) ;; emit pop ;; arg_block0 args dissolved ;;
    try_emit (jump_fwd l2) ;; try_emit (bind l1) ;; try_emit (bind l2)
  else if is_sel selector "ifNotNil:" then
    emit_nil_test hoist scope_id receiver ;;
    let! l1 := new_label in let! l2 := new_label in
    try_emit (br_true_fwd l1) ;; arg_block0 args (emit_ifnotnil_arm hoist scope_id) ;;
    try_emit (jump_fwd l2) ;; try_emit (bind l1) ;; try_emit (bind l2)
  else if is_sel selector "ifNil:ifNotNil:" then
    emit_nil_test hoist scope_id receiver ;;
    let! l1 := new_label in let! l2 := new_label in
    try_emit (br_false_fwd l1) ;; emit pop ;; arg_block0 args dissolved ;;
    try_emit (jump_fwd l2) ;; try_emit (bind l1) ;; arg_block1 args (emit_ifnotnil_arm hoist scope_id) ;; try_emit (bind l2)
  else if is_sel selector "ifNotNil:ifNil:" then
    emit_nil_test hoist scope_id receiver ;;
    let! l1 := new_label in let! l2 := new_label in
    try_emit (br_true_fwd l1) ;; arg_block0 args (emit_ifnotnil_arm hoist scope_id) ;;
    try_emit (jump_fwd l2) ;; try_emit (bind l1) ;; emit pop ;; arg_block1 args dissolved ;; try_emit (bind l2)
  else if is_sel selector "repeat" then
    let! l0 := new_label in
    try_emit (bind l0) ;; with_block receiver dissolved ;; emit pop ;; try_emit (jump_back l0) ;; emit push_nil
  else if is_sel selector "to:do:" then
    match args with
    | limit :: Block (MkBlock (loop_var :: _) _ body _ _) :: _ =>
        emit_expr in_block hoist scope_id receiver ;; emit dup ;;
        let! i_slot := fresh_slot in emit (store_temp_pop i_slot) ;;
        emit_expr in_block hoist scope_id limit ;;
        let! lim_slot := fresh_slot in emit (store_temp_pop lim_slot) ;;
        let! l0 := new_label in let! l2 := new_label in
        try_emit (bind l0) ;; emit_loop_test i_slot lim_slot ;; try_emit (br_false_fwd l2) ;;
        emit_statement_seq (MkHoist {[ loop_var := i_slot ]} :: hoist) scope_id body ;; emit pop ;;
        emit_loop_step i_slot ;; try_emit (jump_back l0) ;; try_emit (bind l2)
    | _ => panic
    end
  else panic.

(** The operands of a send, one after the other. *)
Definition emit_args (hoist : list HoistScope) (scope_id : nat) : list (Expr F) -> M unit :=
  fix go args := match args with [] => ret tt | a :: args => emit_expr in_block hoist scope_id a ;; go args end.
Definition emit_send (hoist : list HoistScope) (scope_id : nat) (receiver : Expr F) (selector : list Z) (args : list (Expr F)) (is_super : bool) : M unit :=
  match (if is_super then None else Capture.inline_block_positions selector receiver args) with
  | Some _ => emit_inlined hoist scope_id selector receiver args
  | None =>
      emit_expr in_block hoist scope_id receiver ;;
      emit_args hoist scope_id args ;;
      let! sel := intern selector in
      try_emit ((if is_super then send_super else send) sel (u8 (zlen args)))
  end.
Definition emit_segments (hoist : list HoistScope) (scope_id : nat) : list (Expr F) -> M unit :=
  fix go segments :=
    match segments with
    | [] => ret tt
    | [seg] => emit_expr in_block hoist scope_id seg
    | seg :: segments => emit dup ;; emit_expr in_block hoist scope_id seg ;; emit pop ;; go segments
    end.
Definition emit_elems (hoist : list HoistScope) (scope_id : nat) (at_put : Z) : Z -> list (Expr F) -> M unit :=
  fix go i elems :=
    match elems with
    | [] => ret tt
    | el :: elems =>
        emit dup ;; emit_literal (LInt (i + 1)) ;; emit_expr in_block hoist scope_id el ;; try_emit (send at_put 2) ;; emit pop ;; go (i + 1) elems
    end.
Definition emit_array (hoist : list HoistScope) (scope_id : nat) (elems : list (Expr F)) : M unit :=
  let! array_klass := universe World.array_klass in
  let! new_colon := intern (chars "new:") in
  let! at_put := intern (chars "at:put:") in
  try_emit (push_literal array_klass) ;; emit_literal (LInt (zlen elems)) ;; try_emit (send new_colon 1) ;;
  emit_elems hoist scope_id at_put 0 elems.

(** ** Bodies and blocks *)
Definition emit_discards (hoist : list HoistScope) (scope_id : nat) : list (Expr F) -> M unit :=
  fix go body := match body with [] => ret tt | stmt :: body => emit_statement_discard hoist scope_id stmt false ;; go body end.
Definition emit_values (hoist : list HoistScope) (scope_id : nat) (is_block : bool) : list (Expr F) -> M unit :=
  fix go body :=
    match body with
    | [] => emit (if is_block then fun b => block_return_tos (push_nil b) else ret_self)
    | [last] =>
        match last with
        | Return value _ => emit_expr in_block hoist scope_id value ;; emit_return is_block
        | last => emit_statement_value hoist scope_id last ;; emit (if is_block then block_return_tos else ret_tos)
        end
    | stmt :: body => emit_statement_discard hoist scope_id stmt is_block ;; go body
    end.
Definition emit_body (hoist : list HoistScope) (scope_id : nat) (body : list (Expr F)) (kind : BodyKind) : M unit :=
  match kind with
  | Method => emit_discards hoist scope_id body ;; emit ret_self
  | DoIt => emit_values hoist scope_id false body
  | BlockBody => emit_values hoist scope_id true body
  end.
End emitters.

(** A captured parameter moves to the context. *)
Fixpoint move_params (i : Z) (vars : list (list Z * Capture.VarSlot)) : M unit :=
  match vars with
  | [] => ret tt
  | (_, slot) :: vars =>
      (if Capture.captured slot then
         emit (push_temp (u8 i)) ;; let! c := lift (Capture.ctx_slot slot) in emit (store_ctx_temp_pop 0 (u8 (Z.of_nat c)))
       else ret tt) ;;
      move_params (i + 1) vars
  end.
Definition emit_prologue (info : Capture.ScopeInfo) : M unit :=
  if Capture.has_ctx info then move_params 0 (take (Capture.argc info) (Capture.vars info)) else ret tt.

(** What a finished unit becomes: its method, with the flags of its scope. *)
Definition finish_unit (argc : Z) (info : Capture.ScopeInfo) (is_block prim_fails captures_ctx : bool) (sel : Z) : M method :=
  let! b := read bb in
  let! slots := read next_hoist_slot in
  let! nil_obj := universe World.nil_obj in
  let! built := lift (finish id nil_obj sel argc (slots - argc) b) in
  let! flags := lift (MethodFlags.set_flags argc (slots - argc) (Capture.has_ctx info) is_block prim_fails captures_ctx (Z.of_nat (Capture.nctx info))) in
  ret (set_method_flags built flags).
(** Runs [c] on a new builder and a new cache, and goes on with those there were. *)
Definition in_unit {A} (slots : Z) (c : M A) : M A := fun s =>
  match c (MkSt (vm s) empty_cache new slots) with
  | Ok (a, s') => Ok (a, with_vm s (vm s'))
  | Err e => Err e
  | Panic => Panic
  end.
Definition frame_slots (info : Capture.ScopeInfo) (argc : Z) : Z := Z.of_nat (Capture.frame_temp_count info) + argc.
Definition limits (span : Span) (argc : Z) (info : Capture.ScopeInfo) : M unit :=
  match check_limits span argc (Z.of_nat (Capture.frame_temp_count info)) (Z.of_nat (Capture.nctx info)) with
  | Some e => fun _ => Err e
  | None => ret tt
  end.

Definition emit_block_literal (emit_expr : bool -> list HoistScope -> nat -> Expr F -> M unit) (blk : BlockNode F) : M unit :=
  match blk with
  | MkBlock params _ body span scope_id =>
      let! info := lift ((if scope_id <? 0 then None else capture cx !! Z.to_nat scope_id)) in
      let argc := zlen params in
      limits span argc info ;;
      let! built := in_unit (frame_slots info argc)
        (emit_prologue info ;;
         emit_body emit_expr true [] (Z.to_nat scope_id) body BlockBody ;;
         let! sel := intern (chars "aBlock") in
         let! m := finish_unit argc info true false (Capture.captures_ctx info) sel in
         alloc (World.alloc (World.OMethod m))) in
      let! lit := (fun s => match intern_block_literal built (bb s) with Some (lit, b) => Ok (lit, with_bb s b) | None => Panic end) in
      try_emit (push_closure lit 0)
  end.

Fixpoint emit_expr (in_block : bool) (hoist : list HoistScope) (scope_id : nat) (e : Expr F) : M unit :=
  match e with
  | SelfRef _ => emit push_self
  | CascadeRcvr _ => ret tt
  | Var name span => emit_load hoist scope_id name span
  | Lit value _ => emit_literal value
  | EAssign name value span => emit_expr in_block hoist scope_id value ;; emit dup ;; emit_store hoist scope_id name span
  | Send receiver selector args is_super _ => emit_send emit_expr in_block hoist scope_id receiver selector args is_super
  | Cascade receiver segments _ => emit_expr in_block hoist scope_id receiver ;; emit_segments emit_expr in_block hoist scope_id segments
  | DynArray elems _ => emit_array emit_expr in_block hoist scope_id elems
  | Block blk => emit_block_literal emit_expr blk
  | Return _ _ => panic
  end.
End unit.

(** ** Methods *)
Definition set_primitive (m : method) (id : Z) : option method :=
  p ← SmallInt.new id; Some (MkMethod (m_code m) (m_selector m) (m_holder m) (m_flags m) p (m_counters m) (m_literals m) (m_ics m)).
Definition set_literals (m : method) (lits : list Z) : method :=
  MkMethod (m_code m) (m_selector m) (m_holder m) (m_flags m) (m_primitive m) (m_counters m) lits (m_ics m).

(** The seven words of a foreign method's descriptor, which take the place of
    its literals; the last is for the address of the function. *)
Fixpoint intern_all (names : list (list Z)) : M (list Z) :=
  match names with [] => ret [] | n :: names => let! o := intern n in let! l := intern_all names in ret (o :: l) end.
Definition build_ffi_descriptor (ffi : FfiPragma) : M (list Z) :=
  let '(kind, name, class, class_side, ret_, args) :=
    match ffi with
    | Function name ret_ args => (chars "function", name, None, false, ret_, args)
    | Selector selector class class_side ret_ args => (chars "selector", selector, Some class, class_side, ret_, args)
    end in
  let! kind := intern kind in
  let! name := intern name in
  let! nil_obj := universe World.nil_obj in
  let! class := match class with Some c => intern c | None => ret nil_obj end in
  let! ret_ := intern ret_ in
  let! args := intern_all args in
  let! array_klass := universe World.array_klass in
  let! args := alloc (World.alloc (World.OOops array_klass [] args)) in
  let! class_side := universe (if class_side then World.true_obj else World.false_obj) in
  ret [kind; name; class; class_side; ret_; args; nil_obj].

Definition saturating_sub (a b : Z) : Z := Z.max 0 (a - b).
Definition saturating_add (a b : Z) : Z := Z.min (2 ^ 32 - 1) (a + b).
(** Lines relative to the method's header, from 1. *)
Definition relative_lines (header : Z) (l : list (Z * Z)) : list (Z * Z) :=
  (fun p => (p.1, Z.max (saturating_add (saturating_sub p.2 header) 1) 1)) <$> l.

Section methods.
Context {F : Type} (to_bits : F -> Z).

Definition emit_method (cx : Ctx) (scope0 : Capture.ScopeInfo) (m : MethodNode F) : M (Z * list (Z * Z)) :=
  let argc := zlen (m_params m) in
  limits (m_span m) argc scope0 ;;
  emit_prologue scope0 ;;
  emit_body cx (emit_expr to_bits cx) false [] 0%nat (m_body m) (if top_level cx then DoIt else Method) ;;
  let! lines := read (fun s => line_map (bb s)) in
  let line_map := if top_level cx then [] else relative_lines (line (m_span m)) lines in
  let! sel := intern (pattern_selector m) in
  let prim_fails := bool_decide (is_Some (primitive m)) && negb (bool_decide (m_body m = [])) in
  let! built := finish_unit argc scope0 false prim_fails false sel in
  let! built := match primitive m with Some pid => lift (set_primitive built pid) | None => ret built end in
  let! o := alloc (World.alloc (World.OMethod built)) in
  match ffi m with
  | Some ffi =>
      let! built := lift (set_primitive built PRIM_ID_FFI) in
      let! desc := build_ffi_descriptor ffi in
      update_vm (World.set_object o (World.OMethod (set_literals built desc)))
  | None => ret tt
  end ;;
  ret (o, line_map).

(** The method's oop, and what the debugger is told about its lines. *)
Definition compile_method_inner (v : World.vmstate) (holder : Z) (class_side top_level : bool) (m : MethodNode F) : outcome (Z * list (Z * Z) * World.vmstate) :=
  match Capture.analyze m with
  | None => Panic
  | Some (m, capture) =>
      match (if class_side then Some [] else flatten_inst_vars v holder), capture !! 0%nat with
      | Some inst_var_names, Some scope0 =>
          let cx := MkCtx holder class_side top_level capture inst_var_names in
          match emit_method cx scope0 m (MkSt v empty_cache new (frame_slots scope0 (zlen (m_params m)))) with
          | Ok (r, s) => Ok (r, vm s)
          | Err e => Err e
          | Panic => Panic
          end
      | _, _ => Panic
      end
  end.
Definition compile_method (v : World.vmstate) (holder : Z) (class_side : bool) (m : MethodNode F) := compile_method_inner v holder class_side false m.
Definition compile_doit (v : World.vmstate) (holder : Z) (stmt : Expr F) :=
  compile_method_inner v holder false true (Ast.MkMethod (chars "doIt") [] None None [] [stmt] false (span_of stmt)).
End methods.
End Codegen.
