(* ===== verification/MethodDict.v ===== *)
(** Method dictionaries: the open-addressed tables of
    [src/src/oops/method_dict.rs].

    An object reference is one of the kinds the dispatch code tells apart
    with its [try_from] casts; an object is known by its identity, not by its
    address, so a handle and the reference it protects are the same thing and
    an allocation changes nothing else.  [mark_of] is the mark word of a
    symbol, which carries its identity hash. *)
From S2P Require Import Prelude Oops.
From stdpp Require Import gmap.
#[local] Set Warnings "-register-all".
#[local] Open Scope Z_scope.

Inductive oop :=
  | ONil
  | OSmi (v : Z)
  | OKlass (k : Z)
  | OMethod (m : Z)
  | OSymbol (s : Z)
  | OArray (elems : list oop).

(** The [try_from] casts. *)
Definition as_smi (o : oop) : option Z := match o with OSmi v => Some v | _ => None end.
Definition as_klass (o : oop) : option Z := match o with OKlass k => Some k | _ => None end.
Definition as_method (o : oop) : option Z := match o with OMethod m => Some m | _ => None end.
Definition as_symbol (o : oop) : option Z := match o with OSymbol s => Some s | _ => None end.
Definition as_array (o : oop) : option (list oop) := match o with OArray l => Some l | _ => None end.
(** The identity comparisons the code makes are with [nil], a symbol or a klass. *)
Definition is_nil (o : oop) : bool := match o with ONil => true | _ => false end.
Definition is_symbol (s : Z) (o : oop) : bool := match o with OSymbol s' => s' =? s | _ => false end.
Definition is_klass (k : Z) (o : oop) : bool := match o with OKlass k' => k' =? k | _ => false end.

Module MethodDict.
(** The named field and the indexable tail. *)
Record method_dict := MkDict { tally_field : oop; tail : list oop }.

Section dict.
Context (mark_of : Z -> Z).

Definition tally (d : method_dict) : option Z := n ← as_smi (tally_field d); Some (u64 n).
Definition set_tally (d : method_dict) (n : Z) : method_dict := MkDict (OSmi (i64 n)) (tail d).
Definition capacity (d : method_dict) : Z := zlen (tail d) / 2.
Definition key_at (d : method_dict) (slot : Z) : option oop := zlookup (tail d) (2 * slot).
Definition value_at (d : method_dict) (slot : Z) : option oop := zlookup (tail d) (2 * slot + 1).
Definition set_key_at (d : method_dict) (slot : Z) (k : oop) : option method_dict :=
  t ← zset (tail d) (2 * slot) k; Some (MkDict (tally_field d) t).
Definition set_value_at (d : method_dict) (slot : Z) (v : oop) : option method_dict :=
  t ← zset (tail d) (2 * slot + 1) v; Some (MkDict (tally_field d) t).

Definition hash_of (selector : Z) : Z := Mark.hash (mark_of selector).

(** The loop of [probe_slot]; [None] is an index out of bounds or a loop that
    goes on beyond [fuel] slots, [Some None] an absent selector. *)
Fixpoint probe_from (fuel : nat) (d : method_dict) (selector mask start i : Z) : option (option Z) :=
  match fuel with
  | O => None
  | S fuel =>
      k ← key_at d i;
      if is_nil k then Some None
      else if is_symbol selector k then Some (Some i)
      else
        let i := Z.land (i + 1) mask in
        if i =? start then Some None else probe_from fuel d selector mask start i
  end.

(** A selector without an identity hash fails a debug assertion. *)
Definition probe_slot (d : method_dict) (selector : Z) : option (option Z) :=
  if capacity d =? 0 then Some None
  else if hash_of selector =? 0 then None
  else
    let mask := capacity d - 1 in
    let i := Z.land (hash_of selector) mask in
    probe_from (Z.to_nat (capacity d)) d selector mask i i.

Definition probe (d : method_dict) (selector : Z) : option (option Z) :=
  slot ← probe_slot d selector;
  match slot with
  | None => Some None
  | Some slot => v ← value_at d slot; Some (as_method v)
  end.

(** The pairs in table order; a key or value of the wrong kind panics. *)
Fixpoint pairs_from (d : method_dict) (slots : list Z) : option (list (Z * Z)) :=
  match slots with
  | [] => Some []
  | slot :: slots =>
      k ← key_at d slot;
      if is_nil k then pairs_from d slots
      else
        sel ← as_symbol k; v ← value_at d slot; m ← as_method v;
        rest ← pairs_from d slots; Some ((sel, m) :: rest)
  end.
Definition each_pair (d : method_dict) : option (list (Z * Z)) := pairs_from d (zrange 0 (capacity d)).

(** The loop of [raw_insert_new]: it panics after [capacity + 1] slots. *)
Fixpoint raw_insert_from (fuel : nat) (d : method_dict) (mask i selector method : Z) : option method_dict :=
  match fuel with
  | O => None
  | S fuel =>
      k ← key_at d i;
      if is_nil k then d ← set_key_at d i (OSymbol selector); set_value_at d i (OMethod method)
      else raw_insert_from fuel d mask (Z.land (i + 1) mask) selector method
  end.
Definition raw_insert_new (d : method_dict) (selector method : Z) : option method_dict :=
  let mask := capacity d - 1 in
  raw_insert_from (S (Z.to_nat (capacity d))) d mask (Z.land (hash_of selector) mask) selector method.

Definition is_power_of_two (n : Z) : bool := (0 <? n) && (Z.land n (n - 1) =? 0).
(** Another capacity fails a debug assertion. *)
Definition alloc_method_dict (capacity : Z) : option method_dict :=
  if is_power_of_two capacity then Some (set_tally (MkDict ONil (replicate (Z.to_nat (capacity * 2)) ONil)) 0)
  else None.

(** The rehashing loop of [insert]. *)
Fixpoint rehash (old : method_dict) (slots : list Z) (grown : method_dict) : option method_dict :=
  match slots with
  | [] => Some grown
  | i :: slots =>
      k ← key_at old i;
      if is_nil k then rehash old slots grown
      else
        ks ← as_symbol k; v ← value_at old i; m ← as_method v;
        grown ← raw_insert_new grown ks m; rehash old slots grown
  end.

Definition grow (d : method_dict) (n : Z) : option method_dict :=
  grown ← alloc_method_dict (Z.max (capacity d * 2) 8);
  grown ← rehash d (zrange 0 (capacity d)) grown;
  Some (set_tally grown n).

Definition insert (d : method_dict) (selector method : Z) : option method_dict :=
  slot ← probe_slot d selector;
  match slot with
  | Some slot => set_value_at d slot (OMethod method)
  | None =>
      n ← tally d;
      dict ← (if (capacity d =? 0) || (4 * (n + 1) >? 3 * capacity d) then grow d n else Some d);
      dict ← raw_insert_new dict selector method;
      n ← tally dict;
      Some (set_tally dict (n + 1))
  end.
End dict.

(** ** The table as a list of slots *)
Abbreviation slot := (option (Z * Z)) (only parsing).
Definition enc (o : slot) : list oop :=
  match o with None => [ONil; ONil] | Some (s, m) => [OSymbol s; OMethod m] end.
Fixpoint flat (sl : list slot) : list oop :=
  match sl with [] => [] | o :: sl => enc o ++ flat sl end.
Definition slot_key (o : slot) : oop := match o with None => ONil | Some (s, _) => OSymbol s end.
Definition slot_value (o : slot) : oop := match o with None => ONil | Some (_, m) => OMethod m end.

Lemma length_flat sl : length (flat sl) = (2 * length sl)%nat.
Proof. induction sl as [|o sl IH]; [done|]. cbn [flat]. rewrite length_app, IH. destruct o as [[? ?]|]; cbn; lia. Qed.

Lemma zlen_flat sl : zlen (flat sl) = 2 * zlen sl.
Proof. unfold zlen. rewrite length_flat. lia. Qed.

Lemma lookup_flat sl : forall n, flat sl !! (2 * n)%nat = slot_key <$> sl !! n /\
  flat sl !! (2 * n + 1)%nat = slot_value <$> sl !! n.
Proof.
  induction sl as [|o sl IH]; intros n; [done|]. destruct n as [|n].
  - by destruct o as [[? ?]|].
  - destruct (IH n) as [H1 H2]. replace (2 * S n)%nat with (S (S (2 * n))) by lia.
    cbn [Nat.add]. by destruct o as [[? ?]|].
Qed.

Lemma insert_flat sl s m : forall n, (n < length sl)%nat ->
  <[(2 * n + 1)%nat := OMethod m]> (<[(2 * n)%nat := OSymbol s]> (flat sl)) = flat (<[n := Some (s, m)]> sl).
Proof.
  induction sl as [|o sl IH]; intros n Hn; [cbn in Hn; lia|]. destruct n as [|n].
  - by destruct o as [[? ?]|].
  - cbn in Hn. specialize (IH n ltac:(lia)). replace (2 * S n)%nat with (S (S (2 * n))) by lia.
    change (flat (<[S n := Some (s, m)]> (o :: sl))) with (enc o ++ flat (<[n := Some (s, m)]> sl)).
    rewrite <- IH. by destruct o as [[? ?]|].
Qed.

Section spec.
Context (mark_of : Z -> Z).
#[local] Abbreviation hash_of := (hash_of mark_of).

Definition table (n : oop) (sl : list slot) : method_dict := MkDict n (flat sl).

Lemma capacity_table n sl : capacity (table n sl) = zlen sl.
Proof. unfold capacity, zlen. cbn. rewrite length_flat. rewrite Nat2Z.inj_mul. by rewrite Z.mul_comm, Z.div_mul. Qed.

Lemma key_at_table n sl i : 0 <= i -> key_at (table n sl) i = slot_key <$> zlookup sl i.
Proof.
  intros Hi. unfold key_at, zlookup. destruct (Z.ltb_spec (2 * i) 0); [lia|]. destruct (Z.ltb_spec i 0); [lia|].
  cbn [tail table]. rewrite <- (proj1 (lookup_flat sl (Z.to_nat i))). f_equal. lia.
Qed.

Lemma value_at_table n sl i : 0 <= i -> value_at (table n sl) i = slot_value <$> zlookup sl i.
Proof.
  intros Hi. unfold value_at, zlookup. destruct (Z.ltb_spec (2 * i + 1) 0); [lia|]. destruct (Z.ltb_spec i 0); [lia|].
  cbn [tail table]. rewrite <- (proj2 (lookup_flat sl (Z.to_nat i))). f_equal. lia.
Qed.

Lemma set_entry_table n sl i s m : 0 <= i < zlen sl ->
  (d ← set_key_at (table n sl) i (OSymbol s); set_value_at d i (OMethod m)) =
    Some (table n (zinsert sl i (Some (s, m)))).
Proof.
  intros Hi. pose proof (zlen_flat sl) as Hl.
  unfold set_key_at, set_value_at. cbn [tail table]. rewrite zset_ok by lia. cbn [mbind option_bind tail].
  rewrite zset_ok by (rewrite zlen_insert; lia). cbn [mbind option_bind]. unfold table. do 2 f_equal.
  unfold zinsert. destruct (Z.ltb_spec (2 * i) 0); [lia|]. destruct (Z.ltb_spec (2 * i + 1) 0); [lia|].
  destruct (Z.ltb_spec i 0); [lia|]. rewrite <- insert_flat by (unfold zlen in Hi; lia).
  f_equal; [|f_equal]; lia.
Qed.

Lemma set_value_table n sl i s m0 m : zlookup sl i = Some (Some (s, m0)) ->
  set_value_at (table n sl) i (OMethod m) = Some (table n (zinsert sl i (Some (s, m)))).
Proof.
  intros Hl. pose proof (zlookup_lt _ _ _ Hl) as Hi. rewrite <- set_entry_table by done.
  unfold set_key_at, set_value_at. cbn [tail table tally_field].
  pose proof (zlen_flat sl) as Hlen.
  rewrite (zset_ok _ (2 * i)) by lia. cbn [mbind option_bind tail].
  assert (zinsert (flat sl) (2 * i) (OSymbol s) = flat sl) as ->; [|done].
  pose proof (key_at_table n sl i ltac:(lia)) as Hk. unfold key_at in Hk. cbn [tail table] in Hk.
  rewrite Hl in Hk. cbn in Hk. unfold zinsert, zlookup in *. destruct (Z.ltb_spec (2 * i) 0); [lia|].
  by apply list_insert_id.
Qed.

(** *** The probing invariant

    [pos sl s t] is the slot probed in round [t] for the selector [s]. *)
Definition pos (sl : list slot) (s t : Z) : Z := (hash_of s + t) mod zlen sl.
Definition occupied (sl : list slot) (i : Z) : Prop := exists e, zlookup sl i = Some (Some e).

Record probing (sl : list slot) : Prop := {
  size_pow2 : exists k, 0 <= k /\ zlen sl = 2 ^ k;
  keys_nodup : NoDup (omap id sl).*1;
  reach : forall i s m, zlookup sl i = Some (Some (s, m)) -> exists t, 0 <= t < zlen sl /\ i = pos sl s t /\
    forall t', 0 <= t' < t -> occupied sl (pos sl s t') }.

(** A selector that a probe accepts: [Universe::intern] gives every symbol a
    hash that is not zero. *)
Class hashed (s : Z) : Prop := hash_not_zero : hash_of s <> 0.

Lemma hash_nonneg s : 0 <= hash_of s.
Proof. apply wrapU_in. lia. Qed.

Lemma land_mask sl x : probing sl -> 0 <= x -> Z.land x (zlen sl - 1) = x mod zlen sl.
Proof.
  intros [(k & Hk & ->) _ _] Hx. replace (2 ^ k - 1) with (Z.ones k) by (rewrite Z.ones_equiv; lia).
  by apply Z.land_ones.
Qed.

Lemma probing_pos sl : probing sl -> 0 < zlen sl.
Proof. intros [(k & Hk & ->) _ _]. by apply Z.pow_pos_nonneg. Qed.

Lemma pos_range sl s t : probing sl -> 0 <= pos sl s t < zlen sl.
Proof. intros Hp. apply Z.mod_pos_bound. by apply probing_pos. Qed.

Lemma pos_next sl s t : probing sl -> Z.land (pos sl s t + 1) (zlen sl - 1) = pos sl s (t + 1).
Proof.
  intros Hp. pose proof (pos_range sl s t Hp). pose proof (probing_pos _ Hp).
  rewrite land_mask by (done || lia). unfold pos. rewrite Zplus_mod_idemp_l. f_equal. lia.
Qed.

Lemma pos_start sl s : probing sl -> Z.land (hash_of s) (zlen sl - 1) = pos sl s 0.
Proof. intros Hp. rewrite land_mask by (done || apply hash_nonneg). unfold pos. by rewrite Z.add_0_r. Qed.

Lemma pos_inj sl s t t' : probing sl -> 0 <= t < zlen sl -> 0 <= t' < zlen sl -> pos sl s t = pos sl s t' -> t = t'.
Proof.
  intros Hp Ht Ht' He. unfold pos in He. pose proof (probing_pos _ Hp).
  assert ((t - t') mod zlen sl = 0) as Hz.
  { replace (t - t') with (hash_of s + t - (hash_of s + t')) by lia. rewrite Zminus_mod, He, Z.sub_diag. apply Z.mod_0_l. lia. }
  apply Z.mod_divide in Hz as [q Hq]; [|lia].
  assert (q = 0 \/ 1 <= q \/ q <= -1) as [->|[|]] by lia; nia.
Qed.

Lemma pos_surj sl s i : probing sl -> 0 <= i < zlen sl -> exists t, 0 <= t < zlen sl /\ pos sl s t = i.
Proof.
  intros Hp Hi. pose proof (probing_pos _ Hp). exists ((i - hash_of s) mod zlen sl).
  split; [by apply Z.mod_pos_bound|]. unfold pos. rewrite Zplus_mod_idemp_r.
  replace (hash_of s + (i - hash_of s)) with i by lia. by apply Z.mod_small.
Qed.

Lemma pos_wrap sl s t : probing sl -> 0 <= t < zlen sl -> (pos sl s (t + 1) =? pos sl s 0) = (t + 1 =? zlen sl).
Proof.
  intros Hp Ht. pose proof (probing_pos _ Hp). destruct (Z.eqb_spec (t + 1) (zlen sl)) as [->|Hne].
  - apply Z.eqb_eq. unfold pos. rewrite Z.add_0_r. rewrite <- (Z.mul_1_l (zlen sl)) at 1.
    by apply Z_mod_plus_full.
  - apply Z.eqb_neq. intros He. apply pos_inj in He; lia || done.
Qed.

(** [s] is bound to [m] in the table. *)
Definition bound (sl : list slot) (s m : Z) : Prop := exists i, zlookup sl i = Some (Some (s, m)).
Definition absent (sl : list slot) (s : Z) : Prop := forall m, ~ bound sl s m.

Lemma absent_at sl s t : probing sl -> 0 <= t <= zlen sl ->
  (forall t', 0 <= t' < t -> exists s' m', zlookup sl (pos sl s t') = Some (Some (s', m')) /\ s' <> s) ->
  (t < zlen sl -> zlookup sl (pos sl s t) = Some None) -> absent sl s.
Proof.
  intros Hp Ht Hother Hend m (i & Hi). destruct (reach _ Hp _ _ _ Hi) as (t0 & Ht0 & -> & Hocc).
  destruct (Z.lt_trichotomy t0 t) as [Hlt|[->|Hgt]].
  - destruct (Hother t0) as (s' & m' & He & Hne); [lia|]. congruence.
  - rewrite Hend in Hi by lia. congruence.
  - destruct (Hocc t) as [e He]; [lia|]. rewrite Hend in He by lia. congruence.
Qed.

(** What [probe_slot] answers. *)
Definition probe_result (sl : list slot) (s : Z) (r : option Z) : Prop :=
  match r with
  | Some i => exists m, zlookup sl i = Some (Some (s, m))
  | None => absent sl s
  end.

Lemma probe_from_ok n sl s : probing sl -> forall fuel t, 0 <= t < zlen sl -> Z.of_nat fuel = zlen sl - t ->
  (forall t', 0 <= t' < t -> exists s' m', zlookup sl (pos sl s t') = Some (Some (s', m')) /\ s' <> s) ->
  exists r, probe_from fuel (table n sl) s (zlen sl - 1) (pos sl s 0) (pos sl s t) = Some r /\ probe_result sl s r.
Proof.
  intros Hp. induction fuel as [|fuel IH]; intros t Ht Hf Hother; [lia|]. cbn [probe_from].
  pose proof (pos_range sl s t Hp) as Hr. rewrite key_at_table by lia.
  destruct (zlookup_is_Some sl (pos sl s t)) as [o Ho]; [done|]. rewrite Ho. cbn [fmap option_fmap option_map mbind option_bind].
  destruct o as [[s' m']|]; cbn [slot_key is_nil is_symbol].
  - destruct (Z.eqb_spec s' s) as [->|Hne]; [exists (Some (pos sl s t)); split; [done|by exists m']|].
    rewrite pos_next, pos_wrap by done.
    assert (Hother' : forall t', 0 <= t' < t + 1 -> exists s' m', zlookup sl (pos sl s t') = Some (Some (s', m')) /\ s' <> s).
    { intros t' Ht'. destruct (Z.eq_dec t' t) as [->|]; [by exists s', m'|apply Hother; lia]. }
    destruct (Z.eqb_spec (t + 1) (zlen sl)) as [He|Hn].
    + exists None. split; [done|]. eapply (absent_at sl s (t + 1)); [done|lia|done|lia].
    + apply IH; [lia|lia|done].
  - exists None. split; [done|]. eapply (absent_at sl s t); [done|lia|done|done].
Qed.

Lemma probe_slot_ok n sl s : probing sl -> hashed s ->
  exists r, probe_slot mark_of (table n sl) s = Some r /\ probe_result sl s r.
Proof.
  intros Hp Hs. pose proof (probing_pos _ Hp). unfold probe_slot. rewrite capacity_table.
  destruct (Z.eqb_spec (zlen sl) 0); [lia|]. destruct (Z.eqb_spec (hash_of s) 0); [done|]. cbv zeta. rewrite pos_start by done.
  apply probe_from_ok; [done|lia|lia|lia].
Qed.

(** *** Updating one slot *)
Lemma split_at {A} (l : list A) i x : zlookup l i = Some x -> exists l1 l2, l = l1 ++ x :: l2 /\ zlen l1 = i.
Proof.
  intros Hl. pose proof (zlookup_lt _ _ _ Hl) as Hi. unfold zlookup in Hl. destruct (Z.ltb_spec i 0); [done|].
  apply list_elem_of_split_length in Hl as (l1 & l2 & -> & Hlen). exists l1, l2. split; [done|]. unfold zlen. lia.
Qed.

Lemma zinsert_mid {A} (l1 l2 : list A) x y : zinsert (l1 ++ x :: l2) (zlen l1) y = l1 ++ y :: l2.
Proof. rewrite zinsert_app_r by lia. by rewrite Z.sub_diag. Qed.

Lemma omap_mid (l1 l2 : list slot) o : omap id (l1 ++ o :: l2) ≡ₚ option_list o ++ omap id (l1 ++ l2).
Proof.
  rewrite !omap_app. destruct o as [e|]; cbn; [|done]. by rewrite Permutation_middle.
Qed.

Lemma bound_omap sl s m : bound sl s m <-> (s, m) ∈ omap id sl.
Proof.
  rewrite list_elem_of_omap. split.
  - intros [i Hi]. exists (Some (s, m)). split; [|done]. unfold zlookup in Hi. destruct (i <? 0); [done|].
    by eapply list_elem_of_lookup_2.
  - intros (o & Ho & He). cbn in He. subst o. apply list_elem_of_lookup_1 in Ho as [i Hi]. exists (Z.of_nat i).
    unfold zlookup. destruct (Z.ltb_spec (Z.of_nat i) 0); [lia|]. by rewrite Nat2Z.id.
Qed.

Lemma absent_omap sl s : absent sl s <-> s ∉ (omap id sl).*1.
Proof.
  unfold absent. split.
  - intros Ha ([s' m] & -> & Hin)%list_elem_of_fmap. apply (Ha m). by apply bound_omap.
  - intros Ha m Hb%bound_omap. apply Ha. apply list_elem_of_fmap. by exists (s, m).
Qed.

Lemma insert_empty sl i s m : probing sl -> absent sl s -> zlookup sl i = Some None ->
  (exists t, 0 <= t < zlen sl /\ i = pos sl s t /\ forall t', 0 <= t' < t -> occupied sl (pos sl s t')) ->
  probing (zinsert sl i (Some (s, m))) /\ omap id (zinsert sl i (Some (s, m))) ≡ₚ (s, m) :: omap id sl.
Proof.
  intros Hp Ha Hi Hr. pose proof (zlookup_lt _ _ _ Hi) as Hlt.
  assert (Hperm : omap id (zinsert sl i (Some (s, m))) ≡ₚ (s, m) :: omap id sl).
  { destruct (split_at _ _ _ Hi) as (l1 & l2 & -> & <-). rewrite zinsert_mid, !omap_mid. done. }
  split; [|done]. assert (Hlen : zlen (zinsert sl i (Some (s, m))) = zlen sl) by apply zlen_insert.
  assert (Hocc : forall j, occupied sl j -> occupied (zinsert sl i (Some (s, m))) j).
  { intros j [e He]. destruct (Z.eq_dec i j) as [<-|]; [congruence|]. exists e. by rewrite zlookup_zinsert_ne by lia. }
  split.
  - rewrite Hlen. apply Hp.
  - rewrite Hperm. cbn. constructor; [by apply absent_omap|apply Hp].
  - intros j s' m' Hj. rewrite Hlen. unfold pos. rewrite Hlen. destruct (Z.eq_dec i j) as [<-|Hne].
    + rewrite zlookup_zinsert in Hj by done. injection Hj as <- <-. destruct Hr as (t & Ht & -> & Hr).
      exists t. split_and!; [lia|lia|done|]. intros t' Ht'. by apply Hocc, Hr.
    + rewrite zlookup_zinsert_ne in Hj by lia. destruct (reach _ Hp _ _ _ Hj) as (t & Ht & He & Hr').
      exists t. split_and!; [lia|lia|done|]. intros t' Ht'. by apply Hocc, Hr'.
Qed.

Lemma overwrite sl i s m0 m : probing sl -> zlookup sl i = Some (Some (s, m0)) ->
  probing (zinsert sl i (Some (s, m))) /\
  exists l, omap id sl ≡ₚ (s, m0) :: l /\ omap id (zinsert sl i (Some (s, m))) ≡ₚ (s, m) :: l.
Proof.
  intros Hp Hi. pose proof (zlookup_lt _ _ _ Hi) as Hlt.
  assert (Hperm : exists l, omap id sl ≡ₚ (s, m0) :: l /\ omap id (zinsert sl i (Some (s, m))) ≡ₚ (s, m) :: l).
  { destruct (split_at _ _ _ Hi) as (l1 & l2 & -> & <-). exists (omap id (l1 ++ l2)).
    rewrite zinsert_mid, !omap_mid. done. }
  split; [|done]. destruct Hperm as (l & H1 & H2).
  assert (Hlen : zlen (zinsert sl i (Some (s, m))) = zlen sl) by apply zlen_insert.
  assert (Hocc : forall j, occupied sl j -> occupied (zinsert sl i (Some (s, m))) j).
  { intros j [e He]. destruct (Z.eq_dec i j) as [<-|].
    - exists (s, m). by apply zlookup_zinsert.
    - exists e. by rewrite zlookup_zinsert_ne by lia. }
  split.
  - rewrite Hlen. apply Hp.
  - pose proof (keys_nodup _ Hp) as Hnd. rewrite H1 in Hnd. rewrite H2. exact Hnd.
  - intros j s' m' Hj. rewrite Hlen. unfold pos. rewrite Hlen.
    assert (exists m'', zlookup sl j = Some (Some (s', m''))) as [m'' Hj'].
    { destruct (Z.eq_dec i j) as [<-|]; [rewrite zlookup_zinsert in Hj by done; exists m0; congruence|].
      rewrite zlookup_zinsert_ne in Hj by lia. by exists m'. }
    destruct (reach _ Hp _ _ _ Hj') as (t & Ht & He & Hr).
    exists t. split_and!; [lia|lia|done|]. intros t' Ht'. by apply Hocc, Hr.
Qed.

Lemma full_omap sl : (forall i, 0 <= i < zlen sl -> occupied sl i) -> zlen (omap id sl) = zlen sl.
Proof.
  intros Hocc. induction sl as [|o sl IH]; [done|].
  destruct (Hocc 0) as [e He]; [unfold zlen; cbn; lia|]. unfold zlookup in He. cbn in He. injection He as ->.
  assert (zlen (omap id sl) = zlen sl) as Hs.
  { apply IH. intros i Hi. destruct (Hocc (i + 1)) as [e' He']; [unfold zlen in *; cbn [length]; lia|]. exists e'.
    unfold zlookup in *. destruct (Z.ltb_spec (i + 1) 0); [lia|]. destruct (Z.ltb_spec i 0); [lia|].
    by replace (Z.to_nat (i + 1)) with (S (Z.to_nat i)) in He' by lia. }
  cbn. unfold zlen in *. cbn [length]. lia.
Qed.

Lemma length_omap_id (sl : list slot) : (length (omap id sl) <= length sl)%nat.
Proof. induction sl as [|[e|] sl IH]; cbn; lia. Qed.

(** *** Insertion of an absent selector *)
Lemma raw_insert_from_ok n sl s m : probing sl -> zlen (omap id sl) < zlen sl ->
  forall fuel t, 0 <= t -> t + Z.of_nat fuel = zlen sl + 1 ->
  (forall t', 0 <= t' < t -> occupied sl (pos sl s t')) ->
  exists i, raw_insert_from fuel (table n sl) (zlen sl - 1) (pos sl s t) s m = Some (table n (zinsert sl i (Some (s, m)))) /\
    zlookup sl i = Some None /\
    exists t, 0 <= t < zlen sl /\ i = pos sl s t /\ forall t', 0 <= t' < t -> occupied sl (pos sl s t').
Proof.
  intros Hp Hroom. induction fuel as [|fuel IH]; intros t Ht Hf Hocc.
  - exfalso. rewrite full_omap in Hroom; [lia|]. intros i Hi.
    destruct (pos_surj sl s i Hp Hi) as (t' & Ht' & <-). apply Hocc. lia.
  - cbn [raw_insert_from]. pose proof (pos_range sl s t Hp) as Hr. rewrite key_at_table by lia.
    destruct (zlookup_is_Some sl (pos sl s t)) as [o Ho]; [done|]. rewrite Ho. cbn [fmap option_fmap option_map mbind option_bind].
    destruct o as [[s' m']|]; cbn [slot_key is_nil].
    + rewrite pos_next by done. apply IH; [lia|lia|]. intros t' Ht'.
      destruct (Z.eq_dec t' t) as [->|]; [by exists (s', m')|apply Hocc; lia].
    + exists (pos sl s t). split; [by apply (set_entry_table n sl _ s m)|]. split; [done|].
      assert (t < zlen sl).
      { destruct (Z.lt_ge_cases t (zlen sl)) as [|Hge]; [done|]. exfalso.
        rewrite full_omap in Hroom; [lia|]. intros i Hi.
        destruct (pos_surj sl s i Hp Hi) as (t' & Ht' & <-). apply Hocc. lia. }
      exists t. by split_and!.
Qed.

Lemma raw_insert_new_ok n sl s m : probing sl -> absent sl s -> zlen (omap id sl) < zlen sl ->
  exists sl', raw_insert_new mark_of (table n sl) s m = Some (table n sl') /\ probing sl' /\
    zlen sl' = zlen sl /\ omap id sl' ≡ₚ (s, m) :: omap id sl.
Proof.
  intros Hp Ha Hroom. unfold raw_insert_new. rewrite capacity_table. cbv zeta. rewrite pos_start by done.
  destruct (raw_insert_from_ok n sl s m Hp Hroom (S (Z.to_nat (zlen sl))) 0) as (i & -> & Hi & Hr);
    [lia|pose proof (probing_pos _ Hp); lia|lia|].
  destruct (insert_empty sl i s m Hp Ha Hi Hr) as [H1 H2].
  exists (zinsert sl i (Some (s, m))). by split_and!; [|apply H1..|apply zlen_insert|].
Qed.

(** *** Growing *)
Lemma replicate_probing k : 0 <= k -> probing (replicate (Z.to_nat (2 ^ k)) None).
Proof.
  intros Hk. assert (0 < 2 ^ k) by (by apply Z.pow_pos_nonneg). split.
  - exists k. split; [done|]. unfold zlen. rewrite length_replicate. lia.
  - assert (omap id (replicate (Z.to_nat (2 ^ k)) None) = @nil (Z * Z)) as ->; [|constructor].
    by induction (Z.to_nat (2 ^ k)).
  - intros i s m Hi. unfold zlookup in Hi. destruct (i <? 0); [done|]. by apply lookup_replicate in Hi as [? _].
Qed.

Lemma power_of_two k : 0 <= k -> is_power_of_two (2 ^ k) = true.
Proof.
  intros Hk. pose proof (Z.pow_pos_nonneg 2 k ltac:(lia) Hk). unfold is_power_of_two. apply andb_true_iff. split; [lia|].
  replace (2 ^ k - 1) with (Z.ones k) by (rewrite Z.ones_equiv; lia). rewrite Z.land_ones, Z_mod_same_full by lia. done.
Qed.

Lemma alloc_table k : 0 <= k -> alloc_method_dict (2 ^ k) = Some (table (OSmi 0) (replicate (Z.to_nat (2 ^ k)) None)).
Proof.
  intros Hk. unfold alloc_method_dict. rewrite power_of_two by done. f_equal. unfold set_tally, table. cbn [tail]. f_equal.
  pose proof (Z.pow_pos_nonneg 2 k ltac:(lia) Hk). set (n := 2 ^ k) in *.
  replace (Z.to_nat (n * 2)) with (2 * Z.to_nat n)%nat by lia.
  induction (Z.to_nat n) as [|j IH]; [done|]. cbn [replicate flat enc]. rewrite <- IH.
  by replace (2 * S j)%nat with (S (S (2 * j))) by lia.
Qed.

Lemma rehash_ok n0 sl n : (NoDup (omap id sl).*1) -> forall l1 l2 sl', sl = l1 ++ l2 -> probing sl' ->
  omap id sl' ≡ₚ omap id l1 -> zlen sl < zlen sl' ->
  exists sl'', rehash mark_of (table n0 sl) (zrange (zlen l1) (zlen sl)) (table n sl') = Some (table n sl'') /\
    probing sl'' /\ zlen sl'' = zlen sl' /\ omap id sl'' ≡ₚ omap id sl.
Proof.
  intros Hnd l1 l2. revert l1. induction l2 as [|o l2 IH]; intros l1 sl' Hsl Hp Hperm Hlen.
  - rewrite app_nil_r in Hsl. subst l1. rewrite zrange_nil by lia. by exists sl'.
  - assert (Hz : zlen l1 < zlen sl) by (rewrite Hsl; unfold zlen; rewrite length_app; cbn; lia).
    rewrite zrange_cons by done. rewrite <- (zlen_snoc l1 o).
    cbn [rehash]. assert (Hl : zlookup sl (zlen l1) = Some o) by (rewrite Hsl; apply zlookup_mid).
    rewrite key_at_table, value_at_table, Hl by (unfold zlen; lia). cbn [fmap option_fmap option_map mbind option_bind].
    assert (Hsl' : sl = (l1 ++ [o]) ++ l2) by (by rewrite <- (assoc_L (++))).
    destruct o as [[s m]|]; cbn [slot_key slot_value is_nil as_symbol as_method mbind option_bind].
    + destruct (raw_insert_new_ok n sl' s m Hp) as (sl2 & -> & Hp2 & Hlen2 & Hperm2).
      * apply absent_omap. rewrite Hperm. rewrite Hsl, omap_app, fmap_app in Hnd. cbn in Hnd.
        apply NoDup_app in Hnd as (_ & Hd & _). intros Hin. apply (Hd s Hin). left.
      * apply Permutation_length in Hperm. unfold zlen in *. rewrite Hperm.
        pose proof (length_omap_id l1). lia.
      * cbn [mbind option_bind]. destruct (IH (l1 ++ [Some (s, m)]) sl2) as (sl3 & H1 & H2 & H3 & H4).
        -- done.
        -- done.
        -- rewrite Hperm2, Hperm, omap_app. cbn. by rewrite Permutation_cons_append.
        -- lia.
        -- exists sl3. split_and!; [done|done|lia|done].
    + apply IH; [done|done| |done]. rewrite Hperm, omap_app. cbn. by rewrite app_nil_r.
Qed.

Lemma each_pair_table n sl : each_pair (table n sl) = Some (omap id sl).
Proof.
  unfold each_pair. rewrite capacity_table.
  assert (forall l2 l1, sl = l1 ++ l2 -> pairs_from (table n sl) (zrange (zlen l1) (zlen sl)) = Some (omap id l2)) as Hgen;
    [|by apply (Hgen sl [])].
  induction l2 as [|o l2 IH]; intros l1 Hsl.
  - rewrite app_nil_r in Hsl. subst l1. by rewrite zrange_nil by lia.
  - assert (Hz : zlen l1 < zlen sl) by (rewrite Hsl; unfold zlen; rewrite length_app; cbn; lia).
    rewrite zrange_cons by done. cbn [pairs_from]. specialize (IH (l1 ++ [o])). rewrite zlen_snoc in IH.
    assert (Hl : zlookup sl (zlen l1) = Some o) by (rewrite Hsl; apply zlookup_mid).
    rewrite key_at_table, value_at_table, Hl by (unfold zlen; lia). cbn [fmap option_fmap option_map mbind option_bind].
    destruct o as [[s m]|]; cbn [slot_key slot_value is_nil as_symbol as_method mbind option_bind];
      rewrite IH by (by rewrite <- (assoc_L (++))); done.
Qed.

(** ** The dictionary as a map *)
Definition bindings (sl : list slot) : gmap Z Z := list_to_map (omap id sl).

(** [d] represents [M]: its slots hold exactly [M]'s bindings, in a table that
    is empty or satisfies the probing invariant, at most three quarters full,
    and its tally counts them. *)
Definition represents (d : method_dict) (M : gmap Z Z) : Prop := exists sl,
  d = table (OSmi (zlen (omap id sl))) sl /\ (sl = [] \/ probing sl) /\
  4 * zlen (omap id sl) <= 3 * zlen sl /\ M = bindings sl.

Lemma bindings_lookup sl s m : NoDup (omap id sl).*1 -> bindings sl !! s = Some m <-> bound sl s m.
Proof. intros Hnd. unfold bindings. rewrite bound_omap. by rewrite <- elem_of_list_to_map. Qed.

Lemma bindings_perm sl l : NoDup (omap id sl).*1 -> omap id sl ≡ₚ l -> bindings sl = list_to_map l.
Proof. intros Hnd Hp. by apply list_to_map_proper. Qed.

Lemma bindings_size sl : NoDup (omap id sl).*1 -> Z.of_nat (size (bindings sl)) = zlen (omap id sl).
Proof.
  intros Hnd. unfold bindings, zlen. rewrite <- (length_map_to_list (M:=gmap Z)).
  by rewrite (map_to_list_to_map _ Hnd).
Qed.

Lemma table_nodup sl : sl = [] \/ probing sl -> NoDup (omap id sl).*1.
Proof. intros [->|Hp]; [constructor|apply Hp]. Qed.

Lemma probe_slot_any n sl s : sl = [] \/ probing sl -> hashed s ->
  exists r, probe_slot mark_of (table n sl) s = Some r /\ probe_result sl s r.
Proof.
  intros [->|Hp] Hs; [|by apply probe_slot_ok]. exists None. split; [done|]. intros m [i Hi].
  unfold zlookup in Hi. by destruct (i <? 0).
Qed.

(** A dictionary represents one map. *)
Lemma represents_det d M M' : represents d M -> represents d M' -> M = M'.
Proof.
  intros (sl & -> & _ & _ & ->) (sl' & He & _ & _ & ->).
  pose proof (each_pair_table (OSmi (zlen (omap id sl))) sl) as H1. rewrite He, each_pair_table in H1.
  unfold bindings. congruence.
Qed.

Lemma probe_represents d M s : represents d M -> hashed s -> probe mark_of d s = Some (M !! s).
Proof.
  intros (sl & -> & Hok & _ & ->) Hs. pose proof (table_nodup _ Hok) as Hnd. unfold probe.
  destruct (probe_slot_any (OSmi (zlen (omap id sl))) sl s Hok Hs) as ([i|] & -> & Hr); cbn [mbind option_bind].
  - destruct Hr as [m Hi]. pose proof (zlookup_lt _ _ _ Hi). rewrite value_at_table, Hi by lia. cbn. f_equal.
    symmetry. apply bindings_lookup; [done|by exists i].
  - f_equal. symmetry. apply eq_None_not_Some. intros [m Hm%bindings_lookup]; [|done]. by apply (Hr m).
Qed.

Lemma represents_room d M : represents d M -> Z.of_nat (size M) < 2 ^ 61 -> tally d = Some (Z.of_nat (size M)).
Proof.
  intros (sl & -> & Hok & _ & ->) Hroom. rewrite bindings_size in * by (by apply table_nodup).
  unfold tally. cbn. rewrite wrapU_id; [done|]. unfold inU, zlen in *. lia.
Qed.

(** The table an absent selector goes into, grown when three quarters full. *)
Lemma grow_ok sl n : sl = [] \/ probing sl -> n = zlen (omap id sl) -> n < 2 ^ 61 ->
  4 * n <= 3 * zlen sl ->
  exists sl', grow mark_of (table (OSmi n) sl) n = Some (table (OSmi n) sl') /\ probing sl' /\
    omap id sl' ≡ₚ omap id sl /\ zlen sl' = Z.max (zlen sl * 2) 8.
Proof.
  intros Hok Hn Hroom Hload. unfold grow. cbv zeta. rewrite capacity_table.
  assert (Hpow : exists k, 0 <= k /\ Z.max (zlen sl * 2) 8 = 2 ^ k).
  { destruct Hok as [->|Hp]; [by exists 3|]. destruct (size_pow2 _ Hp) as (k & Hk & ->).
    destruct (Z.max_spec (2 ^ k * 2) 8) as [[_ ->]|[_ ->]]; [by exists 3|]. exists (k + 1).
    rewrite Z.pow_add_r by lia. split; [lia|]. f_equal. }
  destruct Hpow as (k & Hk & Hcap). rewrite Hcap, alloc_table by done. cbn [mbind option_bind].
  destruct (rehash_ok (OSmi n) sl (OSmi 0) (table_nodup _ Hok) [] sl (replicate (Z.to_nat (2 ^ k)) None)) as
    (sl' & Hre & Hp' & Hlen & Hperm); [done|by apply replicate_probing| | |].
  - by induction (Z.to_nat (2 ^ k)).
  - unfold zlen at 2. rewrite length_replicate. rewrite <- Hcap. unfold zlen. lia.
  - change (zlen []) with 0 in Hre. rewrite Hre. cbn [mbind option_bind]. exists sl'. unfold set_tally. cbn [tail].
    rewrite wrapS_id; [|lia|unfold inS; rewrite Hn in *; unfold zlen in *; lia].
    split_and!; [done|done|done|]. rewrite Hlen. unfold zlen. rewrite length_replicate. lia.
Qed.

Lemma insert_represents d M s m : represents d M -> hashed s -> Z.of_nat (size M) + 1 < 2 ^ 61 ->
  exists d', insert mark_of d s m = Some d' /\ represents d' (<[s := m]> M).
Proof.
  intros HR Hs Hroom. pose proof (represents_room _ _ HR ltac:(lia)) as Htally.
  destruct HR as (sl & -> & Hok & Hload & ->). pose proof (table_nodup _ Hok) as Hnd.
  rewrite bindings_size in * by done. set (n := zlen (omap id sl)) in *. unfold insert.
  destruct (probe_slot_any (OSmi n) sl s Hok Hs) as ([i|] & -> & Hr); cbn [mbind option_bind].
  - destruct Hr as [m0 Hi]. rewrite (set_value_table _ _ _ s m0) by done. eexists. split; [done|].
    assert (Hp : probing sl) by (destruct Hok as [->|]; [by unfold zlookup in Hi; destruct (i <? 0)|done]).
    destruct (overwrite sl i s m0 m Hp Hi) as (Hp' & l & H1 & H2).
    assert (Hlen : zlen (omap id (zinsert sl i (Some (s, m)))) = n).
    { unfold n, zlen. by rewrite H1, H2. }
    exists (zinsert sl i (Some (s, m))). rewrite Hlen, zlen_insert. split_and!; [done|by right|done|].
    rewrite (bindings_perm _ _ (keys_nodup _ Hp') H2), (bindings_perm _ _ Hnd H1). cbn.
    by rewrite insert_insert_eq.
  - rewrite Htally. cbn [mbind option_bind]. rewrite capacity_table.
    assert (exists sl', (if (zlen sl =? 0) || (4 * (n + 1) >? 3 * zlen sl) then grow mark_of (table (OSmi n) sl) n
        else Some (table (OSmi n) sl)) = Some (table (OSmi n) sl') /\ probing sl' /\ omap id sl' ≡ₚ omap id sl /\
        4 * (n + 1) <= 3 * zlen sl') as (sl' & -> & Hp' & Hperm & Hload').
    { destruct (_ || _) eqn:Hg.
      - destruct (grow_ok sl n Hok eq_refl ltac:(lia) Hload) as (sl' & -> & H1 & H2 & H3). exists sl'.
        split_and!; try done. rewrite H3. unfold n in *. destruct (Z.eq_dec (zlen sl) 0) as [E|].
        + assert (zlen (omap id sl) = 0) as -> by (unfold zlen in *; pose proof (length_omap_id sl); lia). lia.
        + unfold zlen in *. lia.
      - apply orb_false_iff in Hg as [Hg1 Hg2]. rewrite Z.gtb_ltb in Hg2. exists sl. split_and!; [done| |done|lia].
        destruct Hok as [->|]; [done|done]. }
    cbn [mbind option_bind].
    assert (Ha : absent sl' s) by (rewrite absent_omap, Hperm, <- absent_omap; exact Hr).
    assert (Hlen' : zlen (omap id sl') = n) by (unfold n, zlen; by rewrite Hperm).
    destruct (raw_insert_new_ok (OSmi n) sl' s m Hp' Ha) as (sl2 & -> & Hp2 & Hl2 & Hperm2).
    { rewrite Hlen'. unfold n, zlen in *. lia. }
    cbn [mbind option_bind]. unfold tally. cbn [tally_field table as_smi mbind option_bind].
    assert (0 <= n) by (unfold n, zlen; lia).
    rewrite wrapU_id by (unfold inU; lia). eexists. split; [done|].
    assert (Hcount : zlen (omap id sl2) = n + 1).
    { unfold zlen. rewrite Hperm2. cbn [length]. unfold zlen in Hlen'. lia. }
    exists sl2. rewrite Hcount. unfold set_tally. cbn [tail table]. rewrite wrapS_id; [|lia|unfold inS; lia].
    split_and!; [done|by right|lia|].
    rewrite (bindings_perm _ _ (keys_nodup _ Hp2) Hperm2). cbn. f_equal.
    symmetry. apply bindings_perm; [apply Hp'|exact Hperm].
Qed.

Lemma alloc_represents k : 0 <= k -> exists d, alloc_method_dict (2 ^ k) = Some d /\ represents d ∅.
Proof.
  intros Hk. eexists. split; [by apply alloc_table|]. exists (replicate (Z.to_nat (2 ^ k)) None).
  assert (omap id (replicate (Z.to_nat (2 ^ k)) None) = @nil (Z * Z)) as Hn by (by induction (Z.to_nat (2 ^ k))).
  unfold bindings. rewrite Hn. split_and!; [done| |unfold zlen; cbn; lia|done].
  right. by apply replicate_probing.
Qed.
End spec.

(** C25. A method dictionary is the finite map of its bindings, however the
    hashes of the selectors collide: a probe with a selector that has an
    identity hash ends and answers exactly what the map holds (absent
    selectors included; one whose hash is zero fails the debug assertion
    unless the dictionary has no slots), the enumeration lists each binding
    once, and an insertion -- overwriting, into a free slot, or after growing
    and rehashing -- of such a selector never panics and answers a dictionary of the map updated
    at the selector, with the load factor, the tally and the probing invariant
    kept; a fresh dictionary is the empty map. *)
Theorem method_dict_refines_map (mark_of : Z -> Z) (d : method_dict) (M : gmap Z Z) (s m k : Z)
    (Hd : represents mark_of d M) (Hroom : Z.of_nat (size M) + 1 < 2 ^ 61) (Hk : 0 <= k) :
  (hashed mark_of s -> probe mark_of d s = Some (M !! s)) /\
  (hash_of mark_of s = 0 -> 0 < capacity d -> probe mark_of d s = None /\ insert mark_of d s m = None) /\
  (exists ps, each_pair d = Some ps /\ ps ≡ₚ map_to_list M) /\
  (hashed mark_of s -> exists d', insert mark_of d s m = Some d' /\ represents mark_of d' (<[s := m]> M)) /\
  exists d0, alloc_method_dict (2 ^ k) = Some d0 /\ represents mark_of d0 ∅.
Proof.
  split_and!.
  - intros Hs. by apply probe_represents.
  - intros Hs Hc. unfold probe, insert, probe_slot. destruct (Z.eqb_spec (capacity d) 0); [lia|]. by rewrite Hs.
  - destruct Hd as (sl & -> & Hok & _ & ->). exists (omap id sl). split; [apply each_pair_table|].
    unfold bindings. by rewrite map_to_list_to_map by (by eapply table_nodup).
  - intros Hs. by apply insert_represents.
  - by apply alloc_represents.
Qed.

Lemma method_dict_refines_map_witness : exists d d', alloc_method_dict 8 = Some d /\ insert (fun s => 4096 * s) d 5 77 = Some d' /\
  probe (fun s => 4096 * s) d' 5 = Some (Some 77).
Proof.
  destruct (alloc_represents (fun s => 4096 * s) 3) as (d & Hd & Hr); [lia|].
  destruct (method_dict_refines_map (fun s => 4096 * s) d ∅ 5 77 3 Hr) as (_ & _ & _ & Hi & _).
  - vm_compute. reflexivity.
  - lia.
  - destruct Hi as (d' & H1 & H2); [by vm_compute|]. exists d, d'. split_and!; [exact Hd|exact H1|].
    rewrite (probe_represents _ _ _ 5 H2) by (by vm_compute). f_equal.
Defined.
End MethodDict.
