(* ===== verification/Hierarchy.v ===== *)
(** Classes, methods and the uncached method lookup
    ([src/src/runtime/lookup.rs], [src/src/runtime/deps.rs]).

    Objects are known by identity; the identity of a class, selector or method
    is its raw reference, a nonzero number.  [resolves] is the abstract
    meaning of a lookup, the first binding of the selector along the
    superclass chain; the walk computes it, and needs no more steps than there
    are classes. *)
From S2P Require Import Prelude Oops MethodDict.
From stdpp Require Import gmap.
#[local] Open Scope Z_scope.

Module Hierarchy.
Record klass := MkKlass { methods : option MethodDict.method_dict; superclass : oop }.
Record method := MkMethod {
  holder : oop;
  selector : oop;
  literals : list oop;
  is_block : bool }.

(** The parts of the world that dispatch reads. *)
Record world := MkWorld { klasses : gmap Z klass; code : gmap Z method }.

Section walk.
Context (mark_of : Z -> Z).

(** [klass_of]: [header] reads the klass field of a memory object. *)
Definition klass_of (smi_klass : Z) (header : oop -> option Z) (o : oop) : option Z :=
  match o with OSmi _ => Some smi_klass | _ => header o end.

(** The binding of [sel] in a class's own dictionary. *)
Definition probe_own (K : klass) (sel : Z) : option (option Z) :=
  match methods K with
  | None => Some None
  | Some dict => MethodDict.probe mark_of dict sel
  end.

Fixpoint lookup_from (fuel : nat) (w : world) (k sel : Z) : option (option Z) :=
  match fuel with
  | O => None
  | S fuel =>
      K ← klasses w !! k;
      r ← probe_own K sel;
      match r with
      | Some m => Some (Some m)
      | None =>
          if is_nil (superclass K) then Some None
          else k ← as_klass (superclass K); lookup_from fuel w k sel
      end
  end.
Definition lookup_uncached (w : world) (k sel : Z) : option (option Z) :=
  lookup_from (size (klasses w)) w k sel.

(** [superchain_contains] of [deps.rs]. *)
Fixpoint superchain_from (fuel : nat) (w : world) (cur holder : Z) : option bool :=
  match fuel with
  | O => None
  | S fuel =>
      if cur =? holder then Some true
      else
        K ← klasses w !! cur;
        if is_nil (superclass K) then Some false
        else k ← as_klass (superclass K); superchain_from fuel w k holder
  end.
Definition superchain_contains (w : world) (k holder : Z) : option bool :=
  superchain_from (size (klasses w)) w k holder.

(** ** The superclass chain *)
Inductive chain (w : world) : Z -> list Z -> Prop :=
  | chain_root k K : klasses w !! k = Some K -> superclass K = ONil -> chain w k [k]
  | chain_step k K k' ks : klasses w !! k = Some K -> superclass K = OKlass k' -> chain w k' ks ->
      chain w k (k :: ks).

Lemma chain_det w k ks ks' : chain w k ks -> chain w k ks' -> ks = ks'.
Proof.
  intros Hc. revert ks'. induction Hc as [k K HK Hs|k K k' ks HK Hs _ IH]; intros ks' Hc'.
  - inversion Hc' as [? K' HK' Hs'|? K' ? ? HK' Hs' _]; subst; [done|congruence].
  - inversion Hc' as [? K' HK' Hs'|? K' k2 ks2 HK' Hs' Hc2]; subst; [congruence|].
    f_equal. apply IH. congruence.
Qed.

Lemma chain_suffix w k ks k' : chain w k ks -> k' ∈ ks -> exists ks', chain w k' ks' /\ (length ks' <= length ks)%nat.
Proof.
  intros Hc. revert k'. induction Hc as [k K HK Hs|k K k2 ks HK Hs Hc IH]; intros k' Hin.
  - apply list_elem_of_singleton in Hin as ->. exists [k]. split; [by eapply chain_root|done].
  - apply elem_of_cons in Hin as [->|Hin].
    + exists (k :: ks). split; [by eapply chain_step|done].
    + destruct (IH k' Hin) as (ks' & H1 & H2). exists ks'. split; [done|cbn; lia].
Qed.

Lemma chain_nodup w k ks : chain w k ks -> NoDup ks.
Proof.
  intros Hc. induction Hc as [k K HK Hs|k K k' ks HK Hs Hc IH].
  - apply NoDup_singleton.
  - constructor; [|done]. intros Hin. destruct (chain_suffix _ _ _ _ Hc Hin) as (ks' & Hc' & Hl).
    assert (chain w k (k :: ks)) as Hc2 by (by eapply chain_step).
    pose proof (chain_det _ _ _ _ Hc' Hc2) as ->. cbn in Hl. lia.
Qed.

Lemma chain_dom w k ks : chain w k ks -> forall x, x ∈ ks -> is_Some (klasses w !! x).
Proof.
  induction 1 as [k K HK Hs|k K k' ks HK Hs Hc IH]; intros x Hx.
  - apply list_elem_of_singleton in Hx as ->. by exists K.
  - apply elem_of_cons in Hx as [->|Hx]; [by exists K|by apply IH].
Qed.

Lemma chain_length w k ks : chain w k ks -> (length ks <= size (klasses w))%nat.
Proof.
  intros Hc. pose proof (chain_nodup _ _ _ Hc) as Hnd. pose proof (chain_dom _ _ _ Hc) as Hdom.
  rewrite <- (size_dom (D:=gset Z)). rewrite <- (size_list_to_set (C:=gset Z) ks Hnd).
  apply subseteq_size. intros x Hx%elem_of_list_to_set. apply elem_of_dom. by apply Hdom.
Qed.

Lemma chain_head w k ks : chain w k ks -> exists ks', ks = k :: ks'.
Proof. intros []; by eexists. Qed.

(** A class's own bindings; every class has a chain and a dictionary that
    represents a map. *)
Definition own (w : world) (k : Z) (M : gmap Z Z) : Prop := exists K, klasses w !! k = Some K /\
  match methods K with None => M = ∅ | Some d => MethodDict.represents mark_of d M end.

Record wf (w : world) : Prop := {
  wf_chain : forall k K, klasses w !! k = Some K -> exists ks, chain w k ks;
  wf_dict : forall k K d, klasses w !! k = Some K -> methods K = Some d -> exists M, MethodDict.represents mark_of d M }.

Lemma own_ex w k K : wf w -> klasses w !! k = Some K -> exists M, own w k M.
Proof.
  intros Hw HK. destruct (methods K) as [d|] eqn:Hd.
  - destruct (wf_dict _ Hw _ _ _ HK Hd) as [M HM]. exists M, K. by rewrite Hd.
  - exists ∅, K. by rewrite Hd.
Qed.

Lemma probe_own_ok w k K M sel `{!MethodDict.hashed mark_of sel} : own w k M -> klasses w !! k = Some K -> probe_own K sel = Some (M !! sel).
Proof.
  intros (K' & HK & HM) HK'. assert (K' = K) as -> by congruence. unfold probe_own.
  destruct (methods K); [by apply MethodDict.probe_represents|]. by subst M.
Qed.

(** *** What a lookup means *)
Inductive resolves (w : world) (sel : Z) : list Z -> option Z -> Prop :=
  | resolves_none : resolves w sel [] None
  | resolves_here k ks M m : own w k M -> M !! sel = Some m -> resolves w sel (k :: ks) (Some m)
  | resolves_up k ks M r : own w k M -> M !! sel = None -> resolves w sel ks r -> resolves w sel (k :: ks) r.

(** [dispatches w k sel r]: a send of [sel] to an instance of [k] finds [r]. *)
Definition dispatches (w : world) (k sel : Z) (r : option Z) : Prop :=
  exists ks, chain w k ks /\ resolves w sel ks r.

Lemma lookup_from_ok w sel `{!MethodDict.hashed mark_of sel} : wf w -> forall k ks, chain w k ks -> forall fuel, (length ks <= fuel)%nat ->
  exists r, lookup_from fuel w k sel = Some r /\ resolves w sel ks r.
Proof.
  intros Hw k ks Hc. induction Hc as [k K HK Hs|k K k' ks HK Hs Hc IH]; intros [|fuel] Hf; cbn in Hf; try lia; cbn [lookup_from].
  - destruct (own_ex _ _ _ Hw HK) as [M HM]. rewrite HK. cbn [mbind option_bind].
    rewrite (probe_own_ok _ _ _ _ sel HM HK). cbn [mbind option_bind]. destruct (M !! sel) as [m|] eqn:Hm.
    + exists (Some m). split; [done|]. by eapply resolves_here.
    + rewrite Hs. exists None. split; [done|]. eapply resolves_up; [done..|constructor].
  - destruct (own_ex _ _ _ Hw HK) as [M HM]. rewrite HK. cbn [mbind option_bind].
    rewrite (probe_own_ok _ _ _ _ sel HM HK). cbn [mbind option_bind]. destruct (M !! sel) as [m|] eqn:Hm.
    + exists (Some m). split; [done|]. by eapply resolves_here.
    + rewrite Hs. cbn [is_nil as_klass mbind option_bind]. destruct (IH fuel) as (r & Hr & Hres); [lia|].
      exists r. split; [done|]. by eapply resolves_up.
Qed.

Lemma lookup_uncached_ok w k K sel `{!MethodDict.hashed mark_of sel} : wf w -> klasses w !! k = Some K ->
  exists r, lookup_uncached w k sel = Some r /\ dispatches w k sel r.
Proof.
  intros Hw HK. destruct (wf_chain _ Hw _ _ HK) as [ks Hc].
  destruct (lookup_from_ok w sel Hw k ks Hc (size (klasses w))) as (r & Hr & Hres); [by eapply chain_length|].
  exists r. split; [done|]. by exists ks.
Qed.

Lemma own_det w k M M' : own w k M -> own w k M' -> M = M'.
Proof.
  intros (K & HK & H) (K' & HK' & H'). assert (K' = K) as -> by congruence.
  destruct (methods K); [by eapply MethodDict.represents_det|congruence].
Qed.

Lemma resolves_det w sel ks r r' : resolves w sel ks r -> resolves w sel ks r' -> r = r'.
Proof.
  intros H1. revert r'. induction H1 as [|k ks M m Hown Hm|k ks M r Hown Hm Hres IH]; intros r' H2;
    inversion H2 as [|? ? M' m' Hown' Hm'|? ? M' r2 Hown' Hm' Hres']; subst; try done;
    pose proof (own_det _ _ _ _ Hown Hown') as <-; try congruence. by apply IH.
Qed.

Lemma dispatches_det w k sel r r' : dispatches w k sel r -> dispatches w k sel r' -> r = r'.
Proof.
  intros (ks & Hc & H1) (ks' & Hc' & H2). pose proof (chain_det _ _ _ _ Hc Hc') as <-. by eapply resolves_det.
Qed.

Lemma superchain_ok w : forall k ks, chain w k ks -> forall fuel h, (length ks <= fuel)%nat ->
  superchain_from fuel w k h = Some (bool_decide (h ∈ ks)).
Proof.
  intros k ks Hc. induction Hc as [k K HK Hs|k K k' ks HK Hs Hc IH]; intros [|fuel] h Hf; cbn in Hf; try lia; cbn [superchain_from].
  - destruct (Z.eqb_spec k h) as [->|Hne].
    + rewrite bool_decide_true; [done|by apply list_elem_of_singleton].
    + rewrite HK. cbn [mbind option_bind]. rewrite Hs. cbn [is_nil]. rewrite bool_decide_false; [done|].
      intros Hin%list_elem_of_singleton. congruence.
  - destruct (Z.eqb_spec k h) as [->|Hne].
    + rewrite bool_decide_true; [done|left].
    + rewrite HK. cbn [mbind option_bind]. rewrite Hs. cbn [is_nil as_klass mbind option_bind].
      rewrite IH by lia. f_equal. apply bool_decide_ext. rewrite elem_of_cons. split; [by right|]. by intros [->|].
Qed.

Lemma superchain_contains_ok w k ks h : chain w k ks -> superchain_contains w k h = Some (bool_decide (h ∈ ks)).
Proof. intros Hc. eapply superchain_ok; [done|]. by eapply chain_length. Qed.
(** *** Rebinding one selector

    [w'] is [w] with [sel] bound to [m] in the dictionary of class [h]; class
    structure and everything else that lookups read are the same. *)
Record rebind (w w' : world) (h sel m : Z) : Prop := {
  rebind_chain : forall k ks, chain w k ks <-> chain w' k ks;
  rebind_here : forall M, own w h M -> own w' h (<[sel := m]> M);
  rebind_else : forall k M, k <> h -> own w k M -> own w' k M }.

Lemma resolves_rebind w w' h sel m s ks r : rebind w w' h sel m -> ~ (s = sel /\ h ∈ ks) ->
  resolves w s ks r -> resolves w' s ks r.
Proof.
  intros Hr Hn Hres. induction Hres as [|k ks M x Hown Hm|k ks M r Hown Hm Hres IH]; [constructor| |].
  - destruct (decide (k = h)) as [->|Hne].
    + eapply resolves_here; [by apply (rebind_here _ _ _ _ _ Hr)|]. rewrite lookup_insert_ne; [done|].
      intros <-. apply Hn. split; [done|left].
    + eapply resolves_here; [by apply (rebind_else _ _ _ _ _ Hr)|done].
  - specialize (IH ltac:(intros [-> Hin]; apply Hn; split; [done|by right])).
    destruct (decide (k = h)) as [->|Hne].
    + eapply resolves_up; [by apply (rebind_here _ _ _ _ _ Hr)| |done]. rewrite lookup_insert_ne; [done|].
      intros <-. apply Hn. split; [done|left].
    + eapply resolves_up; [by apply (rebind_else _ _ _ _ _ Hr)|done..].
Qed.

Lemma dispatches_rebind w w' h sel m k ks s r : rebind w w' h sel m -> chain w k ks -> ~ (s = sel /\ h ∈ ks) ->
  dispatches w k s r -> dispatches w' k s r.
Proof.
  intros Hr Hc Hn (ks' & Hc' & Hres). pose proof (chain_det _ _ _ _ Hc Hc') as <-.
  exists ks. split; [by apply (rebind_chain _ _ _ _ _ Hr)|]. by eapply resolves_rebind.
Qed.

(** The class itself now finds the new method. *)
Lemma dispatches_rebound w w' h K sel m : wf w -> klasses w !! h = Some K -> rebind w w' h sel m ->
  dispatches w' h sel (Some m).
Proof.
  intros Hw HK Hr. destruct (wf_chain _ Hw _ _ HK) as [ks Hc]. destruct (own_ex _ _ _ Hw HK) as [M HM].
  destruct (chain_head _ _ _ Hc) as [ks' ->]. exists (h :: ks'). split; [by apply (rebind_chain _ _ _ _ _ Hr)|].
  eapply resolves_here; [by apply (rebind_here _ _ _ _ _ Hr)|]. apply lookup_insert_eq.
Qed.
(** Storing a class's dictionary ([set_methods]). *)
Definition set_methods (w : world) (h : Z) (d : MethodDict.method_dict) : option world :=
  K ← klasses w !! h; Some (MkWorld (<[h := MkKlass (Some d) (superclass K)]> (klasses w)) (code w)).

Lemma chain_ext w w' : (forall k, superclass <$> klasses w !! k = superclass <$> klasses w' !! k) ->
  forall k ks, chain w k ks -> chain w' k ks.
Proof.
  intros He k ks Hc. induction Hc as [k K HK Hs|k K k' ks HK Hs Hc IH]; specialize (He k); rewrite HK in He; cbn in He;
    symmetry in He; apply fmap_Some in He as (K' & HK' & Hs').
  - apply (chain_root _ _ K'); [exact HK'|congruence].
  - apply (chain_step _ _ K' k'); [exact HK'|congruence|exact IH].
Qed.

Lemma set_methods_rebind w h K M d sel m w' : klasses w !! h = Some K -> own w h M ->
  MethodDict.represents mark_of d (<[sel := m]> M) -> set_methods w h d = Some w' -> rebind w w' h sel m.
Proof.
  intros HK Hown Hd Hw'. unfold set_methods in Hw'. rewrite HK in Hw'. cbn [mbind option_bind] in Hw'. injection Hw' as <-.
  set (w' := MkWorld _ _).
  assert (He : forall k, superclass <$> klasses w !! k = superclass <$> klasses w' !! k).
  { intros k. unfold w'. cbn [klasses]. destruct (decide (h = k)) as [<-|].
    - by rewrite lookup_insert_eq, HK.
    - by rewrite lookup_insert_ne. }
  split.
  - intros k ks. split; apply chain_ext; [done|]. intros k'. by rewrite He.
  - intros M' HM'. pose proof (own_det _ _ _ _ Hown HM') as <-. exists (MkKlass (Some d) (superclass K)).
    unfold w'. cbn [klasses]. by rewrite lookup_insert_eq.
  - intros k M' Hne (K' & HK' & HM'). exists K'. unfold w'. cbn [klasses]. by rewrite lookup_insert_ne.
Qed.
End walk.
End Hierarchy.
