(* ===== verification/CodeTable.v ===== *)
(** The table of compiled methods ([src/src/codecache/nmethod.rs]) and the
    invalidation of the ones a method installation makes stale
    ([src/src/runtime/deps.rs], [src/src/codecache/flush.rs]).

    The hash maps are finite maps; [by_addr] is the sorted vector of the
    source, and [partition_point] is its prefix's length.  Of a compiled
    method the fields these operations read are kept.  Redirecting the entry
    points and the in-flight frames of an invalidated method is machine-code
    surgery and not modelled. *)
From Stdlib Require Import Sorted.
From S2P Require Import Prelude Oops MethodDict Hierarchy.
From stdpp Require Import gmap sorting.
#[local] Open Scope Z_scope.

Inductive NmState := Alive | NotEntrant | Zombie.
#[export] Instance NmState_eq_dec : EqDecision NmState.
Proof. solve_decision. Defined.

Module CodeTable.
Record nmethod := MkNmethod {
  id : Z;
  key_klass : Z;
  key_selector : Z;
  base : Z;
  len : Z;
  state : NmState;
  block_method : option Z;
  inline_deps : list (Z * Z);
  osr_bci : option Z;
  osr_cold_sends : Z }.

Definition with_id (nm : nmethod) (i : Z) : nmethod :=
  MkNmethod i (key_klass nm) (key_selector nm) (base nm) (len nm) (state nm) (block_method nm)
    (inline_deps nm) (osr_bci nm) (osr_cold_sends nm).
Definition with_state (nm : nmethod) (s : NmState) : nmethod :=
  MkNmethod (id nm) (key_klass nm) (key_selector nm) (base nm) (len nm) s (block_method nm)
    (inline_deps nm) (osr_bci nm) (osr_cold_sends nm).
Definition key (nm : nmethod) : Z * Z := (key_klass nm, key_selector nm).

Definition is_half_warm_osr (nm : nmethod) : bool :=
  match osr_bci nm with Some _ => 0 <? osr_cold_sends nm | None => false end.

Record code_table := MkTable {
  slots : list (option nmethod);
  by_key : gmap (Z * Z) Z;
  by_block : gmap Z Z;
  osr_table : gmap (Z * Z * Z) Z;
  by_addr : list (Z * Z) }.

Definition new : code_table := MkTable [] ∅ ∅ ∅ [].

Definition get (t : code_table) (i : Z) : option nmethod := mjoin (zlookup (slots t) i).
Definition lookup (t : code_table) (k sel : Z) : option Z := by_key t !! (k, sel).
Definition lookup_osr (t : code_table) (k sel bci : Z) : option Z := osr_table t !! (k, sel, bci).
Definition lookup_block (t : code_table) (b : Z) : option Z :=
  i ← by_block t !! b; nm ← get t i; if decide (state nm = Alive) then Some i else None.

(** [slice::partition_point]. *)
Fixpoint partition_point {A} (p : A -> bool) (l : list A) : nat :=
  match l with [] => O | x :: l => if p x then S (partition_point p l) else O end.

(** The first free slot, or a new one. *)
Fixpoint position_none (l : list (option nmethod)) : nat :=
  match l with [] => O | None :: _ => O | Some _ :: l => S (position_none l) end.
Definition put_slot (l : list (option nmethod)) (i : nat) (nm : nmethod) : list (option nmethod) :=
  if (i <? length l)%nat then <[i := Some nm]> l else l ++ [Some nm].

Definition insert_at {A} (l : list A) (i : nat) (x : A) : list A := take i l ++ x :: drop i l.

Definition install (t : code_table) (nm : nmethod) : code_table * Z :=
  let i := position_none (slots t) in
  let nm := with_id nm (Z.of_nat i) in
  let pos := partition_point (fun '(b, _) => b <? base nm) (by_addr t) in
  (MkTable (put_slot (slots t) i nm)
     match block_method nm with Some _ => by_key t | None => <[key nm := id nm]> (by_key t) end
     match block_method nm with Some b => <[b := id nm]> (by_block t) | None => by_block t end
     (osr_table t)
     (insert_at (by_addr t) pos (base nm, id nm)), id nm).

Definition install_osr (t : code_table) (k sel bci i : Z) : code_table :=
  MkTable (slots t) (by_key t) (by_block t) (<[(k, sel, bci) := i]> (osr_table t)) (by_addr t).

Definition find_by_pc (t : code_table) (pc : Z) : option Z :=
  let idx := partition_point (fun '(b, _) => b <=? pc) (by_addr t) in
  match idx with
  | O => None
  | S idx =>
      '(_, i) ← by_addr t !! idx;
      nm ← get t i;
      if (base nm <=? pc) && (pc <? base nm + len nm) then Some i else None
  end.

(** The conditional removals shared by both retirements: an entry is removed
    only while it still names the retired method. *)
Definition remove_if {K} `{Countable K} (m : gmap K Z) (k : K) (i : Z) : gmap K Z :=
  if decide (m !! k = Some i) then delete k m else m.

Definition retire (t : code_table) (i : Z) (s : NmState) : option code_table :=
  nm ← get t i;
  let nm := with_state nm s in
  Some (MkTable (zinsert (slots t) i (Some nm))
    (remove_if (by_key t) (key nm) i)
    match block_method nm with Some b => remove_if (by_block t) b i | None => by_block t end
    match osr_bci nm with Some bci => remove_if (osr_table t) (key nm, bci) i | None => osr_table t end
    (by_addr t)).

(** [set_not_entrant] also asserts that the method is alive. *)
Definition set_not_entrant (t : code_table) (i : Z) : option code_table :=
  nm ← get t i; if decide (state nm = Alive) then retire t i NotEntrant else None.
Definition mark_zombie (t : code_table) (i : Z) : option code_table := retire t i Zombie.

Fixpoint position_id (l : list (Z * Z)) (i : Z) : option nat :=
  match l with
  | [] => None
  | (_, j) :: l => if j =? i then Some O else S <$> position_id l i
  end.
Definition remove (t : code_table) (i : Z) : option (code_table * nmethod) :=
  nm ← get t i;
  pos ← position_id (by_addr t) i;
  Some (MkTable (zinsert (slots t) i None) (by_key t) (by_block t) (osr_table t)
          (delete pos (by_addr t)), nm).

Definition iter_all (t : code_table) : list nmethod := omap (fun o => o) (slots t).
Definition is_alive (nm : nmethod) : bool := bool_decide (state nm = Alive).
Definition iter_alive (t : code_table) : list nmethod := filter is_alive (iter_all t).
Definition not_entrant_ids (t : code_table) : list Z :=
  id <$> filter (fun nm => bool_decide (state nm = NotEntrant)) (iter_all t).

(** [rehash]: the maps rebuilt from the alive methods, in slot order. *)
Definition rehash_one (t : code_table) (nm : nmethod) : code_table :=
  if negb (is_alive nm) then t
  else match block_method nm with
  | Some b => MkTable (slots t) (by_key t) (<[b := id nm]> (by_block t)) (osr_table t) (by_addr t)
  | None =>
      MkTable (slots t) (<[key nm := id nm]> (by_key t)) (by_block t)
        match osr_bci nm with Some bci => <[(key nm, bci) := id nm]> (osr_table t) | None => osr_table t end
        (by_addr t)
  end.
Definition rehash (t : code_table) : code_table :=
  foldl rehash_one (MkTable (slots t) ∅ ∅ ∅ (by_addr t)) (iter_all t).

(** ** Sorted vectors *)
Definition ascending (l : list (Z * Z)) : Prop := StronglySorted (fun x y => x.1 < y.1) l.

Lemma partition_point_spec (p : Z * Z -> bool) l : ascending l ->
  (forall x y, x.1 < y.1 -> p y = true -> p x = true) ->
  Forall (fun x => p x = true) (take (partition_point p l) l) /\
  Forall (fun x => p x = false) (drop (partition_point p l) l).
Proof.
  intros Hs Hm. induction Hs as [|x l Hs IH Hx]; [done|]. cbn [partition_point].
  destruct (p x) eqn:Hp.
  - destruct IH as [H1 H2]. split; [by constructor|done].
  - split; [constructor|]. constructor; [done|]. eapply Forall_impl; [exact Hx|]. cbn. intros y Hlt.
    destruct (p y) eqn:Hy; [|done]. by rewrite (Hm x y Hlt Hy) in Hp.
Qed.

Lemma ascending_app l1 l2 : ascending (l1 ++ l2) <->
  ascending l1 /\ ascending l2 /\ forall x y, x ∈ l1 -> y ∈ l2 -> x.1 < y.1.
Proof.
  unfold ascending. induction l1 as [|a l1 IH]; cbn.
  - split; [intros H; split_and!; [constructor|done|by intros x y ?%elem_of_nil]|by intros (_ & ? & _)].
  - split.
    + intros H. inversion H as [|? ? Hs Hf]; subst. apply IH in Hs as (H1 & H2 & H3).
      apply Forall_app in Hf as [Hf1 Hf2]. split_and!; [by constructor|done|].
      intros x y [->|Hx]%elem_of_cons Hy; [|by apply H3]. rewrite Forall_forall in Hf2. by apply Hf2.
    + intros (H1 & H2 & H3). inversion H1 as [|? ? Hs Hf]; subst. constructor.
      * apply IH. split_and!; [done|done|]. intros x y Hx Hy. apply H3; [by right|done].
      * apply Forall_app. split; [done|]. apply Forall_forall. intros y Hy. apply H3; [left|done].
Qed.

Lemma insert_at_elem {A} (l : list A) n x y : y ∈ insert_at l n x <-> y = x \/ y ∈ l.
Proof.
  unfold insert_at. rewrite <- (take_drop n l) at 3. rewrite !elem_of_app, elem_of_cons. tauto.
Qed.

Lemma insert_at_ascending l b i : ascending l -> (forall x, x ∈ l -> x.1 <> b) ->
  ascending (insert_at l (partition_point (fun '(b', _) => b' <? b) l) (b, i)).
Proof.
  intros Hs Hb. destruct (partition_point_spec (fun '(b', _) => b' <? b) l Hs) as [H1 H2].
  { intros [x1 x2] [y1 y2]. cbn. lia. }
  unfold insert_at. set (n := partition_point _ l) in *. rewrite <- (take_drop n l) in Hs.
  apply ascending_app in Hs as (S1 & S2 & S3). rewrite Forall_forall in H1, H2.
  apply ascending_app. split_and!; [done| |].
  - constructor; [done|]. apply Forall_forall. intros [y1 y2] Hy. cbn. specialize (H2 _ Hy). cbn in H2.
    assert (y1 <> b); [|lia]. intros ->. apply (Hb (b, y2)); [|done]. rewrite <- (take_drop n l). apply elem_of_app. by right.
  - intros [x1 x2] y Hx [->|Hy]%elem_of_cons; [|by apply S3]. specialize (H1 _ Hx). cbn in *. lia.
Qed.

Lemma delete_ascending l n : ascending l -> ascending (delete n l).
Proof.
  intros Hs. destruct (decide (n < length l)%nat) as [Hn|Hn].
  - rewrite delete_take_drop. rewrite <- (take_drop n l) in Hs. apply ascending_app in Hs as (H1 & H2 & H3).
    apply lookup_lt_is_Some in Hn as [x Hx]. rewrite (drop_S _ _ _ Hx) in *.
    apply ascending_app. inversion H2; subst. split_and!; [done|done|]. intros y z Hy Hz. apply H3; [done|by right].
  - assert (delete n l = l) as ->; [|done].
    clear Hs. revert n Hn. induction l as [|a l IH]; intros [|n] Hn; cbn in *; [done|done|lia|]. f_equal. apply IH. lia.
Qed.

(** ** Slots *)
Lemma get_zinsert t i o j bk bb ot ba : 0 <= i < zlen (slots t) ->
  get (MkTable (zinsert (slots t) i o) bk bb ot ba) j = if decide (i = j) then o else get t j.
Proof.
  intros Hi. unfold get. cbn [slots]. destruct (decide (i = j)) as [<-|Hne].
  - by rewrite zlookup_zinsert by done.
  - by rewrite zlookup_zinsert_ne by (done || lia).
Qed.

Lemma get_range t i nm : get t i = Some nm -> 0 <= i < zlen (slots t).
Proof.
  unfold get. destruct (zlookup (slots t) i) as [o|] eqn:E; [|done]. intros _. by eapply zlookup_lt.
Qed.

Lemma position_none_spec l : match l !! position_none l with Some (Some _) => False | _ => True end.
Proof. induction l as [|[nm|] l IH]; done. Qed.

Lemma get_put t nm j bk bb ot ba : let i := position_none (slots t) in
  get (MkTable (put_slot (slots t) i nm) bk bb ot ba) j = if decide (Z.of_nat i = j) then Some nm else get t j.
Proof.
  cbv zeta. set (i := position_none (slots t)). unfold get, put_slot. cbn [slots]. unfold zlookup.
  destruct (decide (Z.of_nat i = j)) as [<-|Hne].
  - destruct (Z.ltb_spec (Z.of_nat i) 0); [lia|]. rewrite Nat2Z.id. destruct (Nat.ltb_spec i (length (slots t))) as [Hlt|Hge].
    + by rewrite list_lookup_insert_eq.
    + assert (i = length (slots t)) as ->; [|by rewrite list_lookup_middle].
      assert (forall l, position_none l <= length l)%nat as Hle; [|specialize (Hle (slots t)); unfold i in *; lia].
      induction l as [|[?|] l IH]; cbn; lia.
  - destruct (Z.ltb_spec j 0); [done|]. destruct (Nat.ltb_spec i (length (slots t))) as [Hlt|Hge].
    + rewrite list_lookup_insert_ne by lia. done.
    + destruct (decide (Z.to_nat j < length (slots t))%nat).
      * by rewrite lookup_app_l.
      * rewrite (lookup_ge_None_2 (slots t)) by lia. rewrite lookup_ge_None_2; [done|].
        rewrite length_app. cbn. assert (i = length (slots t)); [|lia].
        assert (forall l, position_none l <= length l)%nat as Hle; [|specialize (Hle (slots t)); unfold i in *; lia].
        induction l as [|[?|] l IH]; cbn; lia.
Qed.

Lemma get_position_none t : get t (Z.of_nat (position_none (slots t))) = None.
Proof.
  unfold get, zlookup. destruct (Z.ltb_spec (Z.of_nat (position_none (slots t))) 0); [done|]. rewrite Nat2Z.id.
  pose proof (position_none_spec (slots t)) as Hn. by destruct (slots t !! _) as [[?|]|].
Qed.

(** ** The table's invariant

    Every map names only alive methods that carry its key; the address vector
    lists exactly the occupied slots, in address order, and their code blocks
    are disjoint. *)
Record wf (t : code_table) : Prop := {
  wf_id : forall i nm, get t i = Some nm -> id nm = i /\ 0 < len nm;
  wf_key : forall kk i, by_key t !! kk = Some i ->
    exists nm, get t i = Some nm /\ state nm = Alive /\ block_method nm = None /\ key nm = kk;
  wf_block : forall b i, by_block t !! b = Some i ->
    exists nm, get t i = Some nm /\ state nm = Alive /\ block_method nm = Some b;
  wf_osr : forall kk bci i, osr_table t !! (kk, bci) = Some i ->
    exists nm, get t i = Some nm /\ state nm = Alive /\ key nm = kk /\ osr_bci nm = Some bci;
  wf_addr : forall b i, (b, i) ∈ by_addr t <-> exists nm, get t i = Some nm /\ base nm = b;
  wf_sorted : ascending (by_addr t);
  wf_disjoint : forall i j nm nm', get t i = Some nm -> get t j = Some nm' -> i <> j ->
    base nm + len nm <= base nm' \/ base nm' + len nm' <= base nm }.

Lemma remove_if_Some {K} `{Countable K} (m : gmap K Z) k i x y :
  remove_if m k i !! x = Some y <-> m !! x = Some y /\ ~ (x = k /\ y = i).
Proof.
  unfold remove_if. destruct (decide (m !! k = Some i)) as [Hk|Hk].
  - rewrite lookup_delete_Some. split.
    + intros [Hne Hx]. split; [done|]. intros [-> _]. done.
    + intros [Hx Hne]. split; [|done]. intros ->. apply Hne. split; [done|]. congruence.
  - split; [|by intros []]. intros Hx. split; [done|]. intros [-> ->]. done.
Qed.

Lemma retire_wf t i s nm : wf t -> get t i = Some nm -> s <> Alive ->
  exists t', retire t i s = Some t' /\ wf t' /\ get t' i = Some (with_state nm s) /\
    (forall j, j <> i -> get t' j = get t j) /\
    (forall kk j, by_key t' !! kk = Some j <-> by_key t !! kk = Some j /\ j <> i) /\
    (forall b j, by_block t' !! b = Some j <-> by_block t !! b = Some j /\ j <> i).
Proof.
  intros Hw Hg Hs. unfold retire. rewrite Hg. cbn [mbind option_bind]. eexists. split; [reflexivity|].
  set (t' := MkTable _ _ _ _ _). pose proof (get_range _ _ _ Hg) as Hr.
  assert (Hget : forall j, get t' j = if decide (i = j) then Some (with_state nm s) else get t j).
  { intros j. by apply get_zinsert. }
  assert (Hkey : forall kk j, by_key t' !! kk = Some j <-> by_key t !! kk = Some j /\ j <> i).
  { intros kk j. unfold t'. cbn [by_key]. rewrite remove_if_Some. cbn. split; intros [Hk Hne]; (split; [done|]).
    - intros ->. apply Hne. destruct (wf_key _ Hw _ _ Hk) as (nm' & Hg' & _ & _ & <-). split; [|done]. by assert (nm' = nm) as -> by congruence.
    - by intros [_ ->]. }
  assert (Hblock : forall b j, by_block t' !! b = Some j <-> by_block t !! b = Some j /\ j <> i).
  { intros b j. unfold t'. cbn [by_block with_state block_method]. destruct (block_method nm) as [b0|] eqn:Hb.
    - rewrite remove_if_Some. split; intros [Hk Hne]; (split; [done|]).
      + intros ->. apply Hne. destruct (wf_block _ Hw _ _ Hk) as (nm' & Hg' & _ & Hb'). split; [|done]. congruence.
      + by intros [_ ->].
    - split; [|by intros []]. intros Hk. split; [done|]. intros ->.
      destruct (wf_block _ Hw _ _ Hk) as (nm' & Hg' & _ & Hb'). congruence. }
  split_and!; [split| |intros j Hj; by rewrite Hget, decide_False by congruence|done|done].
  - intros j nm' Hj. rewrite Hget in Hj. destruct (decide (i = j)) as [<-|]; [|by apply (wf_id _ Hw)].
    injection Hj as <-. exact (wf_id _ Hw _ _ Hg).
  - intros kk j [Hk Hne]%Hkey. rewrite Hget, decide_False by congruence. by apply (wf_key _ Hw).
  - intros b j [Hk Hne]%Hblock. rewrite Hget, decide_False by congruence. by apply (wf_block _ Hw).
  - intros kk bci j Ho. rewrite Hget. unfold t' in Ho. cbn [osr_table with_state osr_bci] in Ho.
    assert (osr_table t !! (kk, bci) = Some j /\ j <> i) as [Ho' Hne].
    { destruct (osr_bci nm) as [b0|] eqn:Hb.
      - apply remove_if_Some in Ho as [Ho Hne]. split; [done|]. intros ->.
        destruct (wf_osr _ Hw _ _ _ Ho) as (nm' & Hg' & _ & Hk' & Hb'). apply Hne. split; [|done].
        assert (nm' = nm) as -> by congruence. assert (bci = b0) as -> by congruence. by rewrite <- Hk'.
      - split; [done|]. intros ->. destruct (wf_osr _ Hw _ _ _ Ho) as (nm' & Hg' & _ & _ & Hb'). congruence. }
    rewrite decide_False by congruence. by apply (wf_osr _ Hw).
  - intros b j. unfold t' at 1. cbn [by_addr]. rewrite (wf_addr _ Hw), Hget.
    destruct (decide (i = j)) as [<-|]; [|done]. rewrite Hg. split; intros (nm' & [= <-] & Hb); by eexists.
  - apply (wf_sorted _ Hw).
  - intros j j' n1 n2. rewrite !Hget. intros H1 H2 Hne.
    assert (exists m1, get t j = Some m1 /\ base m1 = base n1 /\ len m1 = len n1) as (m1 & G1 & <- & <-).
    { destruct (decide (i = j)) as [<-|]; [injection H1 as <-; by exists nm|by exists n1]. }
    assert (exists m2, get t j' = Some m2 /\ base m2 = base n2 /\ len m2 = len n2) as (m2 & G2 & <- & <-).
    { destruct (decide (i = j')) as [<-|]; [injection H2 as <-; by exists nm|by exists n2]. }
    by apply (wf_disjoint _ Hw j j').
  - by rewrite Hget, decide_True.
Qed.

Definition disjoint_from (t : code_table) (nm : nmethod) : Prop := forall j nm', get t j = Some nm' ->
  base nm + len nm <= base nm' \/ base nm' + len nm' <= base nm.

Lemma install_wf t nm : wf t -> state nm = Alive -> 0 < len nm -> disjoint_from t nm ->
  let '(t', i) := install t nm in
  wf t' /\ get t i = None /\ get t' i = Some (with_id nm i) /\ (forall j, j <> i -> get t' j = get t j) /\
  (block_method nm = None -> lookup t' (key_klass nm) (key_selector nm) = Some i).
Proof.
  intros Hw Hs Hl Hd. unfold install. set (i := position_none (slots t)). set (nm' := with_id nm (Z.of_nat i)).
  change (id nm') with (Z.of_nat i). set (t' := MkTable _ _ _ _ _).
  assert (Hget : forall j, get t' j = if decide (Z.of_nat i = j) then Some nm' else get t j) by (intros j; apply get_put).
  pose proof (get_position_none t) as Hfree. fold i in Hfree.
  assert (Hne : forall j x, get t j = Some x -> Z.of_nat i <> j) by (intros j x Hj <-; congruence).
  assert (Hold : forall j x, get t j = Some x -> get t' j = Some x).
  { intros j x Hj. rewrite Hget, decide_False by (by eapply Hne). done. }
  assert (Hnew : get t' (Z.of_nat i) = Some nm') by (by rewrite Hget, decide_True).
  split_and!; [split|done|done|by intros j Hj; rewrite Hget, decide_False by congruence|].
  - intros j x Hj. rewrite Hget in Hj. destruct (decide (Z.of_nat i = j)) as [<-|]; [by injection Hj as <-|].
    by apply (wf_id _ Hw).
  - intros kk j Hk. unfold t' in Hk. cbn [by_key] in Hk.
    assert (by_key t !! kk = Some j \/ kk = key nm' /\ j = Z.of_nat i /\ block_method nm = None) as [Hk'|(-> & -> & Hb)].
    { change (block_method nm') with (block_method nm) in Hk. destruct (block_method nm); [by left|].
      apply lookup_insert_Some in Hk as [[<- <-]|[_ Hk]]; [by right|by left]. }
    + destruct (wf_key _ Hw _ _ Hk') as (x & Hx & Hrest). exists x. split; [by apply Hold|done].
    + by exists nm'.
  - intros b j Hk. unfold t' in Hk. cbn [by_block] in Hk.
    assert (by_block t !! b = Some j \/ block_method nm = Some b /\ j = Z.of_nat i) as [Hk'|[Hb ->]].
    { change (block_method nm') with (block_method nm) in Hk. destruct (block_method nm); [|by left].
      apply lookup_insert_Some in Hk as [[<- <-]|[_ Hk]]; [by right|by left]. }
    + destruct (wf_block _ Hw _ _ Hk') as (x & Hx & Hrest). exists x. split; [by apply Hold|done].
    + by exists nm'.
  - intros kk bci j Ho. destruct (wf_osr _ Hw _ _ _ Ho) as (x & Hx & Hrest). exists x. split; [by apply Hold|done].
  - intros b j. unfold t' at 1. cbn [by_addr]. rewrite insert_at_elem, (wf_addr _ Hw), Hget. split.
    + intros [[= -> ->]|(x & Hx & Hb)]; [rewrite decide_True by done; by exists nm'|].
      exists x. rewrite decide_False by (by eapply Hne). done.
    + intros (x & Hx & Hb). destruct (decide (Z.of_nat i = j)) as [<-|]; [injection Hx as <-; left; by rewrite <- Hb|].
      right. by exists x.
  - apply insert_at_ascending; [apply (wf_sorted _ Hw)|]. intros [b j] (x & Hx & Hb)%(wf_addr _ Hw). cbn.
    change (base nm') with (base nm). destruct (Hd _ _ Hx); destruct (wf_id _ Hw _ _ Hx); lia.
  - intros j1 j2 n1 n2. rewrite !Hget. intros H1 H2 H12.
    destruct (decide (Z.of_nat i = j1)) as [<-|], (decide (Z.of_nat i = j2)) as [<-|]; try congruence.
    + injection H1 as <-. destruct (Hd _ _ H2); [by left|by right].
    + injection H2 as <-. destruct (Hd _ _ H1); [by right|by left].
    + by apply (wf_disjoint _ Hw j1 j2).
  - intros Hb. unfold lookup, t'. cbn [by_key]. change (block_method nm') with (block_method nm). rewrite Hb.
    change (key nm') with (key nm). apply lookup_insert_eq.
Qed.

Lemma position_id_spec l i : match position_id l i with
  | Some n => exists b, l !! n = Some (b, i)
  | None => forall b, (b, i) ∉ l
  end.
Proof.
  induction l as [|[b j] l IH]; cbn; [intros b; apply not_elem_of_nil|].
  destruct (Z.eqb_spec j i) as [->|Hne]; [by exists b|]. destruct (position_id l i) as [n|]; cbn; [done|].
  intros b' [[= -> ->]|Hin]%elem_of_cons; [done|]. by apply (IH b').
Qed.

Lemma remove_wf t i nm : wf t -> get t i = Some nm -> state nm <> Alive ->
  exists t', remove t i = Some (t', nm) /\ wf t' /\ forall j, get t' j = if decide (i = j) then None else get t j.
Proof.
  intros Hw Hg Hs. unfold remove. rewrite Hg. cbn [mbind option_bind]. pose proof (position_id_spec (by_addr t) i) as Hp.
  destruct (position_id (by_addr t) i) as [n|]; cycle 1.
  { exfalso. apply (Hp (base nm)). apply (wf_addr _ Hw). by exists nm. }
  cbn [mbind option_bind]. eexists. split; [reflexivity|]. set (t' := MkTable _ _ _ _ _).
  pose proof (get_range _ _ _ Hg) as Hr.
  assert (Hget : forall j, get t' j = if decide (i = j) then None else get t j) by (intros j; by apply get_zinsert).
  assert (Hkeep : forall j x, get t j = Some x -> state x = Alive -> get t' j = Some x).
  { intros j x Hj Ha. rewrite Hget, decide_False; [done|]. intros <-. congruence. }
  split; [split|done].
  - intros j x Hj. rewrite Hget in Hj. destruct (decide (i = j)); [done|]. by apply (wf_id _ Hw).
  - intros kk j Hk. destruct (wf_key _ Hw _ _ Hk) as (x & Hx & Ha & Hrest). exists x. split; [by apply Hkeep|done].
  - intros b j Hk. destruct (wf_block _ Hw _ _ Hk) as (x & Hx & Ha & Hrest). exists x. split; [by apply Hkeep|done].
  - intros kk bci j Ho. destruct (wf_osr _ Hw _ _ _ Ho) as (x & Hx & Ha & Hrest). exists x. split; [by apply Hkeep|done].
  - intros b j. unfold t' at 1. cbn [by_addr]. destruct Hp as [b0 Hn].
    assert (Hb0 : b0 = base nm).
    { assert ((b0, i) ∈ by_addr t) as Hin by (by eapply list_elem_of_lookup_2).
      apply (wf_addr _ Hw) in Hin as (x & Hx & <-). congruence. }
    subst b0. pose proof (wf_sorted _ Hw) as Hsort. rewrite Hget.
    assert ((b, j) ∈ delete n (by_addr t) <-> (b, j) ∈ by_addr t /\ j <> i) as ->.
    { rewrite <- (take_drop_middle _ _ _ Hn) in Hsort. apply ascending_app in Hsort as (_ & S2 & S3).
      inversion S2 as [|? ? _ S4]; subst. rewrite Forall_forall in S4. rewrite delete_take_drop.
      rewrite <- (take_drop_middle _ _ _ Hn) at 3. rewrite !elem_of_app, elem_of_cons. split.
      - intros Hin. split; [tauto|]. intros ->.
        assert ((b, i) ∈ by_addr t) as Hb.
        { rewrite <- (take_drop_middle _ _ _ Hn). rewrite elem_of_app, elem_of_cons. tauto. }
        apply (wf_addr _ Hw) in Hb as (x & Hx & <-). assert (x = nm) as -> by congruence.
        destruct Hin as [Hin|Hin]; [specialize (S3 _ (base nm, i) Hin ltac:(left)); cbn in S3; lia|].
        specialize (S4 _ Hin). cbn in S4. lia.
      - intros [[Hin|[[= -> ->]|Hin]] Hne]; [by left|done|by right]. }
    rewrite (wf_addr _ Hw). split.
    + intros [(x & Hx & Hb) Hne]. rewrite decide_False by congruence. by exists x.
    + intros (x & Hx & Hb). destruct (decide (i = j)); [done|]. split; [by exists x|congruence].
  - apply delete_ascending, (wf_sorted _ Hw).
  - intros j1 j2 n1 n2. rewrite !Hget. destruct (decide (i = j1)), (decide (i = j2)); try done. apply (wf_disjoint _ Hw).
Qed.

(** *** Addresses *)
Lemma prefix_last (p : Z * Z -> bool) l n : partition_point p l = S n -> exists x, l !! n = Some x /\ p x = true.
Proof.
  revert n. induction l as [|x l IH]; intros n Hp; cbn in Hp; [done|]. destruct (p x) eqn:Hx; [|done].
  injection Hp as Hp. destruct n as [|n]; [by exists x|]. destruct (IH n Hp) as (y & Hy & Hpy). by exists y.
Qed.

Lemma find_by_pc_spec t pc i : wf t ->
  find_by_pc t pc = Some i <-> exists nm, get t i = Some nm /\ base nm <= pc < base nm + len nm.
Proof.
  intros Hw. unfold find_by_pc. pose proof (wf_sorted _ Hw) as Hsort.
  destruct (partition_point_spec (fun '(b, _) => b <=? pc) (by_addr t) Hsort) as [H1 H2].
  { intros [x1 x2] [y1 y2]. cbn. lia. }
  destruct (partition_point _ (by_addr t)) as [|n] eqn:Hn.
  - split; [done|]. intros (nm & Hg & Hr). rewrite Forall_forall in H2.
    assert ((base nm, i) ∈ by_addr t) as Hin by (apply (wf_addr _ Hw); by exists nm).
    specialize (H2 _ Hin). cbn in H2. lia.
  - destruct (prefix_last _ _ _ Hn) as ([b j] & Hl & Hb). rewrite Hl. cbn [mbind option_bind].
    assert ((b, j) ∈ by_addr t) as Hin by (by eapply list_elem_of_lookup_2).
    apply (wf_addr _ Hw) in Hin as (nm & Hg & <-). rewrite Hg. cbn [mbind option_bind].
    destruct (_ && _) eqn:Hr.
    + split; [intros [= <-]; exists nm; split; [done|lia]|]. intros (nm' & Hg' & Hr'). f_equal.
      destruct (decide (j = i)) as [|Hne]; [done|]. destruct (wf_disjoint _ Hw _ _ _ _ Hg Hg' Hne); lia.
    + split; [done|]. intros (nm' & Hg' & Hr'). exfalso.
      assert ((base nm', i) ∈ by_addr t) as Hin by (apply (wf_addr _ Hw); by exists nm').
      destruct (decide (j = i)) as [->|Hne]; [assert (nm' = nm) as -> by congruence; lia|].
      pose proof (wf_id _ Hw _ _ Hg) as [_ Hlen].
      rewrite <- (take_drop (S n) (by_addr t)) in Hin. apply elem_of_app in Hin as [Hin|Hin].
      * rewrite (take_S_r _ _ _ Hl) in Hin. apply elem_of_app in Hin as [Hin|Hin%list_elem_of_singleton].
        -- rewrite <- (take_drop_middle _ _ _ Hl) in Hsort. apply ascending_app in Hsort as (_ & _ & S3).
           specialize (S3 _ (base nm, j) Hin ltac:(left)). cbn in S3.
           destruct (wf_disjoint _ Hw _ _ _ _ Hg Hg' Hne); lia.
        -- congruence.
      * rewrite Forall_forall in H2. specialize (H2 _ Hin). cbn in H2. lia.
Qed.

Lemma lookup_alive t k sel i : wf t -> lookup t k sel = Some i ->
  exists nm, get t i = Some nm /\ state nm = Alive /\ key_klass nm = k /\ key_selector nm = sel.
Proof.
  intros Hw Hl. destruct (wf_key _ Hw _ _ Hl) as (nm & Hg & Ha & _ & Hk). exists nm. unfold key in Hk. by simplify_eq.
Qed.

(** *** Rebuilding the maps after a collection *)
Lemma iter_all_get t nm : wf t -> nm ∈ iter_all t <-> get t (id nm) = Some nm.
Proof.
  intros Hw. unfold iter_all. rewrite list_elem_of_omap. split.
  - intros (o & Ho & ->). apply list_elem_of_lookup_1 in Ho as [i Hi].
    assert (get t (Z.of_nat i) = Some nm) as Hg.
    { unfold get, zlookup. destruct (Z.ltb_spec (Z.of_nat i) 0); [lia|]. rewrite Nat2Z.id. by rewrite Hi. }
    by destruct (wf_id _ Hw _ _ Hg) as [-> _].
  - intros Hg. exists (Some nm). split; [|done]. unfold get, zlookup in Hg. destruct (id nm <? 0); [done|].
    destruct (slots t !! _) as [o|] eqn:E; [|done]. cbn in Hg. subst o. by eapply list_elem_of_lookup_2.
Qed.

Lemma rehash_fold t0 l : wf t0 -> (forall nm, nm ∈ l -> get t0 (id nm) = Some nm) ->
  forall t, wf t -> slots t = slots t0 ->
  let t' := foldl rehash_one t l in
  wf t' /\ slots t' = slots t0 /\ (forall kk, is_Some (by_key t !! kk) -> is_Some (by_key t' !! kk)) /\
  (forall nm, nm ∈ l -> state nm = Alive -> block_method nm = None -> is_Some (by_key t' !! key nm)).
Proof.
  intros Hw0. induction l as [|nm l IH]; intros Hl t Hw Hs; cbv zeta; cbn [foldl].
  - split_and!; [done..|]. by intros nm ?%elem_of_nil.
  - assert (Hg : get t (id nm) = Some nm).
    { unfold get. rewrite Hs. apply Hl. left. }
    assert (Hone : wf (rehash_one t nm) /\ slots (rehash_one t nm) = slots t0 /\
      (forall kk, is_Some (by_key t !! kk) -> is_Some (by_key (rehash_one t nm) !! kk)) /\
      (state nm = Alive -> block_method nm = None -> is_Some (by_key (rehash_one t nm) !! key nm))).
    { unfold rehash_one, is_alive. case_bool_decide as Ha; cbn [negb]; [|by split_and!].
      destruct (block_method nm) as [b|] eqn:Hb; cbn [slots by_key]; (split_and!; [|done| |]); try done.
      - destruct Hw. split; try done. intros b' i Hi. cbn [by_block] in Hi.
        apply lookup_insert_Some in Hi as [[<- <-]|[_ Hi]]; [by exists nm|by apply wf_block0].
      - destruct Hw. split; try done.
        + intros kk i Hi. cbn [by_key] in Hi.
          apply lookup_insert_Some in Hi as [[<- <-]|[_ Hi]]; [by exists nm|by apply wf_key0].
        + intros kk bci i Hi. cbn [osr_table] in Hi. destruct (osr_bci nm) as [b0|] eqn:Hb0; [|by apply wf_osr0].
          apply lookup_insert_Some in Hi as [[[= <- <-] <-]|[_ Hi]]; [by exists nm|by apply wf_osr0].
      - intros kk Hk. destruct (decide (key nm = kk)) as [<-|]; [by rewrite lookup_insert_eq|by rewrite lookup_insert_ne].
      - by rewrite lookup_insert_eq. }
    destruct Hone as (O1 & O2 & O3 & O4).
    destruct (IH ltac:(intros x Hx; apply Hl; by right) (rehash_one t nm) O1 O2) as (I1 & I2 & I3 & I4).
    split_and!; [done|done|by intros kk Hk; apply I3, O3|].
    intros x [->|Hx]%elem_of_cons Ha Hb; [by apply I3, O4|by apply I4].
Qed.

Lemma rehash_wf t : wf t -> wf (rehash t) /\ (forall i, get (rehash t) i = get t i) /\
  forall i nm, get t i = Some nm -> state nm = Alive -> block_method nm = None ->
    is_Some (lookup (rehash t) (key_klass nm) (key_selector nm)).
Proof.
  intros Hw. unfold rehash.
  destruct (rehash_fold t (iter_all t) Hw ltac:(intros nm Hnm; by apply iter_all_get) (MkTable (slots t) ∅ ∅ ∅ (by_addr t)))
    as (H1 & H2 & _ & H4).
  - destruct Hw. by split; try done; intros *; cbn; rewrite lookup_empty.
  - done.
  - split_and!; [done|by intros i; unfold get; rewrite H2|]. intros i nm Hg Ha Hb. unfold lookup. apply H4; [|done..].
    apply iter_all_get; [done|]. by destruct (wf_id _ Hw _ _ Hg) as [-> _].
Qed.

(** ** Dependency invalidation *)
Definition dep_affected (w : Hierarchy.world) (holder sel : Z) (d : Z * Z) : option bool :=
  if d.2 =? sel then Hierarchy.superchain_contains w d.1 holder else Some false.
Fixpoint any_affected (w : Hierarchy.world) (holder sel : Z) (ds : list (Z * Z)) : option bool :=
  match ds with
  | [] => Some false
  | d :: ds => b ← dep_affected w holder sel d; if b : bool then Some true else any_affected w holder sel ds
  end.

Fixpoint victims_of (w : Hierarchy.world) (holder sel : Z) (nms : list nmethod) : option (list Z) :=
  match nms with
  | [] => Some []
  | nm :: nms =>
      own_key_affected ← dep_affected w holder sel (key nm);
      inline_dep_affected ← any_affected w holder sel (inline_deps nm);
      rest ← victims_of w holder sel nms;
      Some (if own_key_affected || inline_dep_affected then id nm :: rest else rest)
  end.
Definition affected_by_install (w : Hierarchy.world) (t : code_table) (holder sel : Z) : option (list Z) :=
  victims_of w holder sel (iter_alive t).

(** [make_not_entrant], as far as the table goes. *)
Fixpoint make_not_entrant_all (t : code_table) (ids : list Z) : option code_table :=
  match ids with
  | [] => Some t
  | i :: ids => t ← set_not_entrant t i; make_not_entrant_all t ids
  end.
Definition invalidate_dependents (w : Hierarchy.world) (t : code_table) (holder sel : Z) : option code_table :=
  victims ← affected_by_install w t holder sel; make_not_entrant_all t victims.

(** The lookups a compiled method was compiled under. *)
Definition assumes (nm : nmethod) : list (Z * Z) := key nm :: inline_deps nm.
Definition known_klasses (w : Hierarchy.world) (nm : nmethod) : Prop :=
  forall d, d ∈ assumes nm -> exists ks, Hierarchy.chain w d.1 ks.
(** Some assumption of [nm] walks through [holder] for [sel]. *)
Definition stale (w : Hierarchy.world) (holder sel : Z) (nm : nmethod) : Prop :=
  exists d ks, d ∈ assumes nm /\ d.2 = sel /\ Hierarchy.chain w d.1 ks /\ holder ∈ ks.

Lemma dep_affected_ok w holder sel d ks : Hierarchy.chain w d.1 ks ->
  exists b, dep_affected w holder sel d = Some b /\ (b = true <-> d.2 = sel /\ holder ∈ ks).
Proof.
  intros Hc. unfold dep_affected. destruct (Z.eqb_spec d.2 sel) as [Hs|Hs].
  - rewrite (Hierarchy.superchain_contains_ok _ _ _ holder Hc). eexists. split; [done|]. rewrite bool_decide_eq_true. by split; [|intros []].
  - exists false. split; [done|]. by split; [|intros []].
Qed.

Lemma any_affected_ok w holder sel ds : (forall d, d ∈ ds -> exists ks, Hierarchy.chain w d.1 ks) ->
  exists b, any_affected w holder sel ds = Some b /\
    (b = true <-> exists d ks, d ∈ ds /\ d.2 = sel /\ Hierarchy.chain w d.1 ks /\ holder ∈ ks).
Proof.
  induction ds as [|d ds IH]; intros Hk; cbn [any_affected].
  - exists false. split; [done|]. split; [done|]. by intros (? & ? & ?%elem_of_nil & _).
  - destruct (Hk d) as [ks Hc]; [left|]. destruct (dep_affected_ok w holder sel d ks Hc) as (b & -> & Hb).
    cbn [mbind option_bind]. destruct b.
    + exists true. split; [done|]. split; [|done]. intros _. exists d, ks. destruct Hb as [Hb _].
      destruct (Hb eq_refl). split_and!; [left|done..].
    + destruct IH as (b & -> & Hb'); [by intros x Hx; apply Hk; right|]. exists b. split; [done|]. rewrite Hb'. split.
      * intros (x & ks' & Hx & Hrest). exists x, ks'. split; [by right|done].
      * intros (x & ks' & [->|Hx]%elem_of_cons & Hs & Hc' & Hh); [|by exists x, ks'].
        pose proof (Hierarchy.chain_det _ _ _ _ Hc Hc') as <-. exfalso. destruct Hb as [_ Hb]. by specialize (Hb (conj Hs Hh)).
Qed.

Lemma victims_ok w holder sel nms : (forall nm, nm ∈ nms -> known_klasses w nm) ->
  exists vs, victims_of w holder sel nms = Some (id <$> vs) /\ vs `sublist_of` nms /\
    forall nm, nm ∈ nms -> stale w holder sel nm <-> nm ∈ vs.
Proof.
  induction nms as [|nm nms IH]; intros Hk; [exists []; split_and!; [done..|]; by intros nm ?%elem_of_nil|].
  destruct IH as (v & Hv & Hsub & Hall); [by intros x Hx; apply Hk; right|].
  assert (Hnm : known_klasses w nm) by (apply Hk; left).
  destruct (Hnm (key nm)) as [ks Hc]; [left|].
  destruct (dep_affected_ok w holder sel (key nm) ks Hc) as (b1 & Hb1 & Hd1).
  destruct (any_affected_ok w holder sel (inline_deps nm)) as (b2 & Hb2 & Hd2); [by intros d Hd; apply Hnm; right|].
  assert (Hst : b1 || b2 = true <-> stale w holder sel nm).
  { rewrite orb_true_iff, Hd1, Hd2. unfold stale, assumes. split.
    - intros [[Hs Hh]|(d & ks' & Hd & Hs & Hc' & Hh)]; [exists (key nm), ks; split_and!; [left|done..]|].
      exists d, ks'. split_and!; [by right|done..].
    - intros (d & ks' & [->|Hd]%elem_of_cons & Hs & Hc' & Hh); [|right; by exists d, ks'].
      left. by pose proof (Hierarchy.chain_det _ _ _ _ Hc Hc') as <-. }
  exists (if b1 || b2 then nm :: v else v). cbn [victims_of]. rewrite Hb1, Hb2. cbn [mbind option_bind].
  rewrite Hv. cbn [mbind option_bind]. destruct (b1 || b2) eqn:Hb.
  - split_and!; [done|by constructor|]. intros x Hx. split.
    + intros Hs. apply elem_of_cons in Hx as [->|Hx]; [left|right; by apply Hall].
    + intros [->|Hin]%elem_of_cons; [by apply Hst|]. apply Hall; [|done]. by eapply elem_of_sublist.
  - split_and!; [done|by constructor|]. intros x Hx. split.
    + intros Hs. apply elem_of_cons in Hx as [->|Hx]; [by apply Hst in Hs|by apply Hall].
    + intros Hin. apply Hall; [|done]. by eapply elem_of_sublist.
Qed.

Lemma fmap_sublist {A B} (f : A -> B) l1 l2 : l1 `sublist_of` l2 -> (f <$> l1) `sublist_of` (f <$> l2).
Proof. induction 1; cbn; by constructor. Qed.

Lemma make_not_entrant_all_ok vs : forall t, wf t -> NoDup vs ->
  (forall i, i ∈ vs -> exists nm, get t i = Some nm /\ state nm = Alive) ->
  exists t', make_not_entrant_all t vs = Some t' /\ wf t' /\
    (forall i, i ∉ vs -> get t' i = get t i) /\
    (forall i nm, i ∈ vs -> get t i = Some nm -> get t' i = Some (with_state nm NotEntrant)) /\
    (forall kk i, by_key t' !! kk = Some i <-> by_key t !! kk = Some i /\ i ∉ vs).
Proof.
  induction vs as [|v vs IH]; intros t Hw Hnd Hall; cbn [make_not_entrant_all].
  - exists t. split_and!; [done..|by intros i nm ?%elem_of_nil|]. intros kk i. split; [|by intros []].
    intros Hk. split; [done|apply not_elem_of_nil].
  - inversion Hnd as [|? ? Hv Hnd']; subst. destruct (Hall v) as (nm & Hg & Ha); [left|].
    unfold set_not_entrant. rewrite Hg. cbn [mbind option_bind]. rewrite decide_True by done.
    destruct (retire_wf t v NotEntrant nm Hw Hg ltac:(done)) as (t1 & -> & Hw1 & Hg1 & Hother & Hkey & _).
    cbn [mbind option_bind]. destruct (IH t1 Hw1 Hnd') as (t2 & Ht2 & Hw2 & G1 & G2 & G3).
    { intros i Hi. rewrite Hother by (intros ->; done). apply Hall. by right. }
    exists t2. split_and!; [done|done| | |].
    + intros i Hi. rewrite elem_of_cons in Hi. rewrite G1 by tauto. apply Hother. tauto.
    + intros i x Hi Hx. destruct (decide (i = v)) as [->|Hne].
      * rewrite G1 by done. by simplify_eq.
      * apply elem_of_cons in Hi as [|Hi]; [done|]. apply G2; [done|]. by rewrite Hother.
    + intros kk i. rewrite G3, Hkey, elem_of_cons. tauto.
Qed.

Lemma iter_alive_spec t nm : wf t -> nm ∈ iter_alive t <-> get t (id nm) = Some nm /\ state nm = Alive.
Proof.
  intros Hw. unfold iter_alive. rewrite list_elem_of_filter. rewrite (iter_all_get _ _ Hw). unfold is_alive.
  rewrite bool_decide_spec. tauto.
Qed.

Lemma ids_nodup t : wf t -> NoDup (id <$> iter_all t).
Proof.
  intros Hw. assert (forall l n, (forall i o, l !! i = Some (Some o) -> id o = Z.of_nat (n + i)) ->
    NoDup (id <$> omap (fun o => o) l) /\ forall x, x ∈ omap (fun o => o) l -> Z.of_nat n <= id x) as Hgen.
  { induction l as [|[o|] l IH]; intros n Hl; cbn.
    - split; [constructor|]. by intros x ?%elem_of_nil.
    - pose proof (Hl 0%nat o eq_refl) as H0. destruct (IH (S n)) as [H1 H2].
      { intros i x Hx. specialize (Hl (S i) x Hx). lia. }
      split.
      + constructor; [|done]. intros (x & Hx & Hin)%list_elem_of_fmap. specialize (H2 x Hin). lia.
      + intros x [->|Hx]%elem_of_cons; [lia|]. specialize (H2 x Hx). lia.
    - destruct (IH (S n)) as [H1 H2]; [intros i x Hx; specialize (Hl (S i) x Hx); lia|]. split; [done|].
      intros x Hx. specialize (H2 x Hx). lia. }
  apply (Hgen _ 0%nat). intros i o Hi. cbn. eapply (wf_id _ Hw). unfold get, zlookup.
  destruct (Z.ltb_spec (Z.of_nat i) 0); [lia|]. rewrite Nat2Z.id. by rewrite Hi.
Qed.

Lemma invalidate_ok w t holder sel : wf t -> (forall i nm, get t i = Some nm -> known_klasses w nm) ->
  exists t', invalidate_dependents w t holder sel = Some t' /\ wf t' /\ 
    (forall i nm', get t' i = Some nm' -> exists nm, get t i = Some nm /\ assumes nm' = assumes nm) /\
    forall i nm, get t i = Some nm ->
      (state nm = Alive /\ stale w holder sel nm -> get t' i = Some (with_state nm NotEntrant) /\
         forall kk, by_key t' !! kk <> Some i) /\
      (~ (state nm = Alive /\ stale w holder sel nm) -> get t' i = Some nm).
Proof.
  intros Hw Hk. unfold invalidate_dependents, affected_by_install.
  destruct (victims_ok w holder sel (iter_alive t)) as (vs & -> & Hsub & Hvs).
  { intros nm [Hg _]%(iter_alive_spec _ _ Hw). by eapply Hk. }
  cbn [mbind option_bind].
  assert (Hin : forall nm, nm ∈ vs -> get t (id nm) = Some nm /\ state nm = Alive).
  { intros nm Hnm. apply iter_alive_spec; [done|]. by eapply elem_of_sublist. }
  destruct (make_not_entrant_all_ok (id <$> vs) t Hw) as (t' & -> & Hw' & G1 & G2 & G3).
  - eapply sublist_NoDup; [by eapply ids_nodup|]. apply fmap_sublist. etransitivity; [exact Hsub|].
    apply sublist_filter.
  - intros i (nm & -> & Hnm)%list_elem_of_fmap. exists nm. by apply Hin.
  - exists t'. split_and!; [done|done| |].
    { intros i x Hx. destruct (decide (i ∈ (id <$> vs))) as [Hi|Hi]; [|rewrite G1 in Hx by done; by exists x].
      pose proof Hi as (nm & Hid & Hnm)%list_elem_of_fmap. destruct (Hin nm Hnm) as [Hg _]. rewrite <- Hid in Hg.
      exists nm. split; [done|]. rewrite (G2 i nm Hi Hg) in Hx. by injection Hx as <-. }
    intros i nm Hg. pose proof (wf_id _ Hw _ _ Hg) as [Hid _]. subst i. split.
    + intros [Ha Hs]. assert (id nm ∈ (id <$> vs)) as Hm.
      { apply list_elem_of_fmap. exists nm. split; [done|]. apply Hvs; [|done]. by apply iter_alive_spec. }
      split; [by apply G2|]. intros kk [_ Hn]%G3. done.
    + intros Hn. rewrite G1; [done|]. intros (x & Hx & Hxin)%list_elem_of_fmap. apply Hn.
      destruct (Hin x Hxin) as [Hgx Hax]. assert (x = nm) as -> by congruence. split; [done|].
      apply Hvs; [by apply iter_alive_spec|done].
Qed.

(** *** Reachable tables *)
Lemma new_wf : wf new.
Proof.
  split; try done.
  - intros i nm. unfold get, zlookup. by destruct (i <? 0).
  - intros b i. cbn. rewrite elem_of_nil. split; [done|]. intros (nm & Hg & _). unfold get, zlookup in Hg. by destruct (i <? 0).
  - constructor.
  - intros i j nm nm'. unfold get, zlookup. by destruct (i <? 0).
Qed.

Lemma install_osr_wf t k sel bci i nm : wf t -> get t i = Some nm -> state nm = Alive -> key nm = (k, sel) ->
  osr_bci nm = Some bci -> wf (install_osr t k sel bci i).
Proof.
  intros Hw Hg Ha Hk Hb. destruct Hw. split; try done. intros kk b j Hj. cbn [osr_table install_osr] in Hj.
  apply lookup_insert_Some in Hj as [[[= <- <-] <-]|[_ Hj]]; [by exists nm|by apply wf_osr0].
Qed.

(** What callers do to the table, with what they ensure: a fresh method is
    alive and its code block overlaps no other; an on-stack-replacement entry
    is recorded for its own method; a method is invalidated while alive, made
    a zombie, and removed only as a zombie. *)
Inductive step (t : code_table) : code_table -> Prop :=
  | step_install nm : state nm = Alive -> 0 < len nm -> disjoint_from t nm -> step t (install t nm).1
  | step_osr k sel bci i nm : get t i = Some nm -> state nm = Alive -> key nm = (k, sel) ->
      osr_bci nm = Some bci -> step t (install_osr t k sel bci i)
  | step_not_entrant i t' : set_not_entrant t i = Some t' -> step t t'
  | step_zombie i t' : mark_zombie t i = Some t' -> step t t'
  | step_remove i nm t' : get t i = Some nm -> state nm = Zombie -> remove t i = Some (t', nm) -> step t t'
  | step_rehash : step t (rehash t).
Inductive reachable : code_table -> Prop :=
  | reach_new : reachable new
  | reach_step t t' : reachable t -> step t t' -> reachable t'.

Lemma step_wf t t' : wf t -> step t t' -> wf t'.
Proof.
  intros Hw [nm Ha Hl Hd|k sel bci i nm Hg Ha Hk Hb|i t2 Hs|i t2 Hs|i nm t2 Hg Ha Hr|].
  - pose proof (install_wf t nm Hw Ha Hl Hd) as H. destruct (install t nm) as [t2 i]. by destruct H.
  - by eapply install_osr_wf.
  - unfold set_not_entrant in Hs. destruct (get t i) as [nm|] eqn:Hg; [|done]. cbn [mbind option_bind] in Hs.
    destruct (decide _); [|done]. destruct (retire_wf t i NotEntrant nm Hw Hg ltac:(done)) as (t3 & Ht3 & Hw3 & _). congruence.
  - unfold mark_zombie in Hs. destruct (get t i) as [nm|] eqn:Hg; [|unfold retire in Hs; by rewrite Hg in Hs].
    destruct (retire_wf t i Zombie nm Hw Hg ltac:(done)) as (t3 & Ht3 & Hw3 & _). congruence.
  - destruct (remove_wf t i nm Hw Hg ltac:(congruence)) as (t3 & Ht3 & Hw3 & _). congruence.
  - by apply rehash_wf.
Qed.

Lemma reachable_wf t : reachable t -> wf t.
Proof. induction 1; [apply new_wf|by eapply step_wf]. Qed.

(** C26. The code table stays consistent through any sequence of installs,
    invalidations, zombie markings, removals and rebuilds: a lookup by key
    names an alive method compiled for exactly that class and selector, an
    address is attributed to a method exactly when it lies in that method's
    code block, and every occupied slot knows its own id. *)
Theorem code_table_consistent t (Hr : reachable t) :
  (forall k sel i, lookup t k sel = Some i ->
     exists nm, get t i = Some nm /\ state nm = Alive /\ key_klass nm = k /\ key_selector nm = sel) /\
  (forall b i, lookup_block t b = Some i -> exists nm, get t i = Some nm /\ state nm = Alive /\ block_method nm = Some b) /\
  (forall pc i, find_by_pc t pc = Some i <-> exists nm, get t i = Some nm /\ base nm <= pc < base nm + len nm) /\
  (forall i nm, get t i = Some nm -> id nm = i).
Proof.
  pose proof (reachable_wf t Hr) as Hw. split_and!.
  - intros k sel i. by apply lookup_alive.
  - intros b i Hb. unfold lookup_block in Hb. destruct (by_block t !! b) as [j|] eqn:Hj; [|done].
    destruct (wf_block _ Hw _ _ Hj) as (nm & Hg & Ha & Hbm). cbn [mbind option_bind] in Hb. rewrite Hg in Hb.
    cbn [mbind option_bind] in Hb. rewrite decide_True in Hb by done. simplify_eq. by exists nm.
  - intros pc i. by apply find_by_pc_spec.
  - intros i nm Hg. by apply (wf_id _ Hw).
Qed.

Definition sample_nm (k sel b : Z) : nmethod := MkNmethod 0 k sel b 64 Alive None [] None 0.

Lemma code_table_consistent_witness : let t := (install (install new (sample_nm 8 16 4096)).1 (sample_nm 8 24 8192)).1 in
  lookup t 8 24 = Some 1 /\ exists nm, get t 1 = Some nm /\ state nm = Alive /\ key_klass nm = 8 /\ key_selector nm = 24.
Proof.
  cbv zeta. split; [vm_compute; reflexivity|].
  eapply (proj1 (code_table_consistent (install (install new (sample_nm 8 16 4096)).1 (sample_nm 8 24 8192)).1 _) 8 24 1).
  vm_compute; reflexivity.
  Unshelve. eapply reach_step; [eapply reach_step; [apply reach_new|]|]; apply step_install; try reflexivity.
  - intros j nm Hg. unfold get, zlookup in Hg. cbn in Hg. by destruct (j <? 0).
  - intros j nm Hg. unfold get, zlookup in Hg. destruct (j <? 0); [done|].
    destruct (Z.to_nat j) as [|[|n]]; cbn in Hg; simplify_eq. cbn. lia.
Defined.

(** Retiring a method never orphans its replacement: making a method not
    entrant, or a zombie, removes exactly the map entries that still name it
    -- every entry of every other method stays -- and a rebuild of the maps
    keeps a lookup for every alive method's key. *)
Theorem retirement_keeps_successors t i s nm (Hr : reachable t) (Hg : get t i = Some nm) (Hs : s <> Alive) :
  exists t', retire t i s = Some t' /\ get t' i = Some (with_state nm s) /\
    (forall kk j, by_key t' !! kk = Some j <-> by_key t !! kk = Some j /\ j <> i) /\
    (forall b j, by_block t' !! b = Some j <-> by_block t !! b = Some j /\ j <> i) /\
    forall j nm', get (rehash t') j = Some nm' -> state nm' = Alive -> block_method nm' = None ->
      is_Some (lookup (rehash t') (key_klass nm') (key_selector nm')).
Proof.
  destruct (retire_wf t i s nm (reachable_wf t Hr) Hg Hs) as (t' & H1 & Hw' & H2 & _ & H3 & H4).
  exists t'. split_and!; [done..|]. destruct (rehash_wf t' Hw') as (_ & R2 & R3). intros j nm' Hj. apply (R3 j). by rewrite <- R2.
Qed.

Lemma retirement_keeps_successors_witness :
  let t := (install (install new (sample_nm 8 16 4096)).1 (sample_nm 8 16 8192)).1 in
  exists t', retire t 0 NotEntrant = Some t' /\ lookup t' 8 16 = Some 1.
Proof.
  cbv zeta. set (t := (install (install new (sample_nm 8 16 4096)).1 (sample_nm 8 16 8192)).1).
  assert (Hr : reachable t).
  { eapply reach_step; [eapply reach_step; [apply reach_new|]|]; apply step_install; try reflexivity.
    - intros j nm Hg. unfold get, zlookup in Hg. cbn in Hg. by destruct (j <? 0).
    - intros j nm Hg. unfold get, zlookup in Hg. destruct (j <? 0); [done|].
      destruct (Z.to_nat j) as [|[|n]]; cbn in Hg; simplify_eq. cbn. lia. }
  destruct (retirement_keeps_successors t 0 NotEntrant (sample_nm 8 16 4096) Hr) as (t' & H1 & _ & H2 & _);
    [vm_compute; reflexivity|done|].
  exists t'. split; [exact H1|]. apply H2. split; [vm_compute; reflexivity|lia].
Defined.

(** C27. Installing a method invalidates exactly the compiled code it makes
    stale.  When [sel] is rebound in class [holder], every alive compiled
    method one of whose assumptions -- its own key or an inlined callee's --
    looks [sel] up through [holder] becomes not entrant and is unhooked from
    the lookup map; every other method is untouched.  So each lookup assumed
    by code that is still alive still finds what it found when it was
    compiled. *)
Theorem invalidation_sound mark_of w w' t holder sel m (Hr : reachable t)
    (Hknown : forall i nm, get t i = Some nm -> known_klasses w' nm)
    (Hbind : Hierarchy.rebind mark_of w w' holder sel m) :
  exists t', invalidate_dependents w' t holder sel = Some t' /\ wf t' /\
    (forall i nm, get t i = Some nm -> ~ (state nm = Alive /\ stale w' holder sel nm) -> get t' i = Some nm) /\
    (forall i nm, get t i = Some nm -> state nm = Alive /\ stale w' holder sel nm ->
       get t' i = Some (with_state nm NotEntrant) /\ forall k s, lookup t' k s <> Some i) /\
    (forall i nm d r, get t' i = Some nm -> state nm = Alive -> d ∈ assumes nm -> get t i = Some nm ->
       Hierarchy.dispatches mark_of w d.1 d.2 r -> Hierarchy.dispatches mark_of w' d.1 d.2 r).
Proof.
  destruct (invalidate_ok w' t holder sel (reachable_wf t Hr) Hknown) as (t' & Ht' & Hw' & _ & Hall).
  exists t'. split_and!; [done|done|by intros i nm Hg; apply Hall| |].
  - intros i nm Hg Hst. destruct (proj1 (Hall i nm Hg) Hst) as [H1 H2]. split; [done|]. intros k s. apply H2.
  - intros i nm d r Hg' Ha Hd Hg Hdisp. destruct (Hknown i nm Hg d Hd) as [ks Hc].
    eapply Hierarchy.dispatches_rebind; [done|by apply (Hierarchy.rebind_chain _ _ _ _ _ _ Hbind)| |done].
    intros [Hs Hin]. assert (stale w' holder sel nm) as Hst by (by exists d, ks).
    destruct (proj1 (Hall i nm Hg) (conj Ha Hst)) as [H1 _]. rewrite H1 in Hg'. injection Hg' as Hx.
    rewrite <- Hx in Ha. done.
Qed.

(** Two classes, 8 under 0; the method compiled for class 8 and selector 16
    goes stale when the selector is bound in class 0. *)
Definition sample_world : Hierarchy.world :=
  Hierarchy.MkWorld (<[8 := Hierarchy.MkKlass None (OKlass 0)]> {[0 := Hierarchy.MkKlass None ONil]}) ∅.

Lemma sample_chain : Hierarchy.chain sample_world 8 [8; 0].
Proof.
  eapply Hierarchy.chain_step; [reflexivity|reflexivity|]. by eapply Hierarchy.chain_root.
Qed.

Lemma invalidation_sound_witness : exists w' t',
  invalidate_dependents w' (install new (sample_nm 8 16 4096)).1 0 16 = Some t' /\
  get t' 0 = Some (with_state (sample_nm 8 16 4096) NotEntrant).
Proof.
  destruct (MethodDict.alloc_represents (fun s => 4096 * s) 3) as (fresh & _ & Hfresh); [lia|].
  destruct (MethodDict.insert_represents (fun s => 4096 * s) fresh ∅ 16 77 Hfresh) as (d & Hd & Hrep);
    [by vm_compute|vm_compute; reflexivity|].
  destruct (Hierarchy.set_methods sample_world 0 d) as [w'|] eqn:Hw'; [|done].
  assert (Hbind : Hierarchy.rebind (fun s => 4096 * s) sample_world w' 0 16 77).
  { eapply Hierarchy.set_methods_rebind; [reflexivity| |exact Hrep|exact Hw']. by eexists. }
  assert (Hc : Hierarchy.chain w' 8 [8; 0]) by (apply (Hierarchy.rebind_chain _ _ _ _ _ _ Hbind), sample_chain).
  assert (Hr : reachable (install new (sample_nm 8 16 4096)).1).
  { eapply reach_step; [apply reach_new|]. apply step_install; [reflexivity..|].
    intros j nm Hg. unfold get, zlookup in Hg. cbn in Hg. by destruct (j <? 0). }
  destruct (invalidation_sound (fun s => 4096 * s) sample_world w' (install new (sample_nm 8 16 4096)).1 0 16 77 Hr)
    as (t' & H1 & _ & _ & H2 & _).
  - intros i nm Hg. unfold get, zlookup in Hg. destruct (i <? 0); [done|].
    destruct (Z.to_nat i) as [|n]; cbn in Hg; [|by destruct n]. injection Hg as <-.
    intros d0 Hd0. apply list_elem_of_singleton in Hd0 as ->. by exists [8; 0].
  - exact Hbind.
  - exists w', t'. split; [exact H1|]. apply (H2 0 (sample_nm 8 16 4096)); [vm_compute; reflexivity|].
    split; [reflexivity|]. exists (8, 16), [8; 0]. split_and!; [left|done|done|right; left].
Defined.
End CodeTable.
