(* ===== verification/Lookup.v ===== *)
(** The lookup cache and the installation of methods
    ([src/src/runtime/lookup.rs]).

    The cache is keyed by references; an empty entry has the class reference
    0.  Nothing moves here: the collector's effect on the cache is
    [gc_epilogue], which empties it. *)
From S2P Require Import Prelude Oops MethodDict Hierarchy CodeTable.
From stdpp Require Import gmap relations.
Export Hierarchy.
#[local] Open Scope Z_scope.

Module Lookup.
Definition LOOKUP_CACHE_SIZE : Z := 4096.

Record CacheEntry := MkEntry { ce_klass : Z; ce_selector : Z; ce_method : oop }.
Definition EMPTY : CacheEntry := MkEntry 0 0 (OSmi 0).
Definition is_empty (e : CacheEntry) : bool := ce_klass e =? 0.

Definition cache : Type := list CacheEntry.
Definition new : cache := replicate (Z.to_nat (2 * LOOKUP_CACHE_SIZE)) EMPTY.

Definition hash (klass selector : Z) : Z :=
  Z.land (Z.lxor (Z.shiftr klass 3) (Z.shiftr selector 3)) (LOOKUP_CACHE_SIZE - 1).

Definition hits (e : CacheEntry) (klass selector : Z) : bool :=
  negb (is_empty e) && (ce_klass e =? klass) && (ce_selector e =? selector).

(** The answer, and the cache with a victim hit promoted. *)
Definition probe (c : cache) (klass selector : Z) : option (option Z * cache) :=
  let h := hash klass selector in
  let primary := 2 * h in
  let victim := 2 * h + 1 in
  p ← zlookup c primary;
  if hits p klass selector then Some (as_method (ce_method p), c)
  else
    v ← zlookup c victim;
    if hits v klass selector then
      c ← zset c primary v; c ← zset c victim p; Some (as_method (ce_method v), c)
    else Some (None, c).

Definition insert (c : cache) (klass selector method : Z) : option cache :=
  let h := hash klass selector in
  let primary := 2 * h in
  let victim := 2 * h + 1 in
  p ← zlookup c primary;
  c ← zset c victim p;
  zset c primary (MkEntry klass selector (OMethod method)).

Definition flush (c : cache) : cache := (fun _ => EMPTY) <$> c.

(** The state that dispatch reads and writes. *)
Record vm_state := MkVm {
  the_world : world;
  lookup_cache : cache;
  ic_epoch : Z;
  table : CodeTable.code_table }.

Section vm.
Context (mark_of : Z -> Z).

Definition lookup (vm : vm_state) (k sel : Z) : option (option Z * vm_state) :=
  '(r, c) ← probe (lookup_cache vm) k sel;
  let vm := MkVm (the_world vm) c (ic_epoch vm) (table vm) in
  match r with
  | Some m => Some (Some m, vm)
  | None =>
      hit ← lookup_uncached mark_of (the_world vm) k sel;
      match hit with
      | Some m =>
          c ← insert (lookup_cache vm) k sel m;
          Some (Some m, MkVm (the_world vm) c (ic_epoch vm) (table vm))
      | None => Some (None, vm)
      end
  end.

Definition gc_epilogue (vm : vm_state) : vm_state :=
  MkVm (the_world vm) (flush (lookup_cache vm)) (ic_epoch vm) (table vm).

(** *** Installing a method *)
Definition set_holder (w : world) (m : Z) (h : oop) : option world :=
  M ← code w !! m;
  Some (MkWorld (klasses w) (<[m := MkMethod h (selector M) (literals M) (is_block M)]> (code w))).

(** The blocks nested in [m] get its holder, recursively. *)
Fixpoint patch_block_holders (fuel : nat) (w : world) (klass_oop : oop) (m : Z) : option world :=
  match fuel with
  | O => None
  | S fuel =>
      M ← code w !! m;
      foldl (fun w lit =>
        w ← w;
        match as_method lit with
        | Some b =>
            B ← code w !! b;
            if is_block B then w ← set_holder w b klass_oop; patch_block_holders fuel w klass_oop b
            else Some w
        | None => Some w
        end) (Some w) (literals M)
  end.

Definition IC_META_EPOCH_LIMIT : Z := Z.shiftl 1 Layout.IC_META_EPOCH_BITS.

Definition install_method (vm : vm_state) (klass sel m : Z) : option vm_state :=
  let w := the_world vm in
  K ← klasses w !! klass;
  dict ← match methods K with Some d => Some d | None => MethodDict.alloc_method_dict 8 end;
  dict ← MethodDict.insert mark_of dict sel m;
  w ← set_methods w klass dict;
  w ← set_holder w m (OKlass klass);
  w ← patch_block_holders (S (size (code w))) w (OKlass klass) m;
  let epoch := ic_epoch vm + 1 in
  if epoch <? IC_META_EPOCH_LIMIT then
    t ← CodeTable.invalidate_dependents w (table vm) klass sel;
    Some (MkVm w (flush (lookup_cache vm)) epoch t)
  else None.

(** ** The cache agrees with the dictionaries *)
Definition entry_ok (w : world) (e : CacheEntry) : Prop :=
  is_empty e = true \/ exists m, ce_method e = OMethod m /\ dispatches mark_of w (ce_klass e) (ce_selector e) (Some m).
Definition cache_ok (w : world) (c : cache) : Prop :=
  zlen c = 2 * LOOKUP_CACHE_SIZE /\ forall i e, zlookup c i = Some e -> entry_ok w e.

Lemma hash_range k s : 0 <= hash k s < LOOKUP_CACHE_SIZE.
Proof.
  unfold hash. change (LOOKUP_CACHE_SIZE - 1) with (Z.ones 12). rewrite Z.land_ones by lia.
  change LOOKUP_CACHE_SIZE with (2 ^ 12). by apply Z.mod_pos_bound.
Qed.

Lemma entry_hit w e k s : entry_ok w e -> hits e k s = true ->
  exists m, ce_method e = OMethod m /\ dispatches mark_of w k s (Some m).
Proof.
  intros He Hh. unfold hits in Hh. rewrite !andb_true_iff, negb_true_iff in Hh. destruct Hh as [[H1 H2] H3].
  apply Z.eqb_eq in H2 as <-. apply Z.eqb_eq in H3 as <-. destruct He as [|He]; [congruence|done].
Qed.

Lemma cache_ok_zset w c i e c' : cache_ok w c -> entry_ok w e -> zset c i e = Some c' -> cache_ok w c'.
Proof.
  intros [Hl Hc] He Hs. pose proof (zset_Some _ _ _ _ Hs) as [Hi ->]. split; [by rewrite zlen_insert|].
  intros j x Hj. rewrite (zlookup_zset _ _ _ _ j Hs) in Hj. destruct (decide (i = j)); [congruence|by eapply Hc].
Qed.

Lemma probe_ok w c k s : cache_ok w c -> exists r c', probe c k s = Some (r, c') /\ cache_ok w c' /\
  match r with Some m => dispatches mark_of w k s (Some m) | None => True end.
Proof.
  intros Hc. pose proof Hc as [Hl He]. pose proof (hash_range k s) as Hh. unfold probe. cbv zeta.
  unfold LOOKUP_CACHE_SIZE in *. destruct (zlookup_is_Some c (2 * hash k s)) as [p Hp]; [lia|].
  destruct (zlookup_is_Some c (2 * hash k s + 1)) as [v Hv]; [lia|]. rewrite Hp, Hv. cbn [mbind option_bind].
  destruct (hits p k s) eqn:Hhp.
  - destruct (entry_hit w p k s (He _ _ Hp) Hhp) as (m & Hm & Hd). rewrite Hm. by exists (Some m), c.
  - destruct (hits v k s) eqn:Hhv; [|by exists None, c].
    destruct (entry_hit w v k s (He _ _ Hv) Hhv) as (m & Hm & Hd).
    rewrite zset_ok by lia. cbn [mbind option_bind]. rewrite zset_ok by (rewrite zlen_insert; lia). cbn [mbind option_bind].
    rewrite Hm. eexists (Some m), _. split; [done|]. split; [|done].
    eapply cache_ok_zset; [|by apply (He _ _ Hp)|apply zset_ok; rewrite zlen_insert; lia].
    eapply cache_ok_zset; [done|by apply (He _ _ Hv)|apply zset_ok; lia].
Qed.

Lemma insert_ok w c k s m : cache_ok w c -> dispatches mark_of w k s (Some m) ->
  exists c', insert c k s m = Some c' /\ cache_ok w c'.
Proof.
  intros Hc Hd. pose proof Hc as [Hl He]. pose proof (hash_range k s) as Hh. unfold insert. cbv zeta.
  unfold LOOKUP_CACHE_SIZE in *. destruct (zlookup_is_Some c (2 * hash k s)) as [p Hp]; [lia|]. rewrite Hp. cbn [mbind option_bind].
  rewrite zset_ok by lia. cbn [mbind option_bind]. rewrite zset_ok by (rewrite zlen_insert; lia). eexists. split; [done|].
  eapply (cache_ok_zset _ _ _ (MkEntry k s (OMethod m))); [|right; exists m; split; [reflexivity|exact Hd]|apply zset_ok; rewrite zlen_insert; lia].
  eapply cache_ok_zset; [done|by apply (He _ _ Hp)|apply zset_ok; lia].
Qed.

Lemma flush_ok w c : zlen c = 2 * LOOKUP_CACHE_SIZE -> cache_ok w (flush c).
Proof.
  intros Hl. unfold flush. split; [unfold zlen; rewrite length_fmap; exact Hl|].
  intros i e Hi. unfold zlookup in Hi. destruct (i <? 0); [done|]. apply list_lookup_fmap_Some in Hi as (x & -> & _). by left.
Qed.

(** Everything dispatch maintains: class chains and dictionaries, a cache that
    agrees with them, a code table whose methods assume known classes. *)
Record vm_ok (vm : vm_state) : Prop := {
  vm_wf : wf mark_of (the_world vm);
  vm_cache : cache_ok (the_world vm) (lookup_cache vm);
  vm_table : CodeTable.wf (table vm);
  vm_known : forall i nm, CodeTable.get (table vm) i = Some nm -> CodeTable.known_klasses (the_world vm) nm }.

Lemma lookup_ok vm k K sel `{!MethodDict.hashed mark_of sel} : vm_ok vm -> klasses (the_world vm) !! k = Some K ->
  exists r vm', lookup vm k sel = Some (r, vm') /\ dispatches mark_of (the_world vm) k sel r /\ vm_ok vm' /\
    the_world vm' = the_world vm /\ ic_epoch vm' = ic_epoch vm /\ table vm' = table vm.
Proof.
  intros Hvm HK. destruct (probe_ok _ (lookup_cache vm) k sel (vm_cache _ Hvm)) as (r & c & Hp & Hc & Hr).
  unfold lookup. rewrite Hp. cbn [mbind option_bind the_world lookup_cache ic_epoch table].
  assert (Hok : forall c, cache_ok (the_world vm) c -> vm_ok (MkVm (the_world vm) c (ic_epoch vm) (table vm))).
  { intros c' Hc'. destruct Hvm. by split. }
  destruct r as [m|]; [by exists (Some m), (MkVm (the_world vm) c (ic_epoch vm) (table vm)); auto 10|].
  destruct (lookup_uncached_ok mark_of _ _ _ sel (vm_wf _ Hvm) HK) as (r & -> & Hd). cbn [mbind option_bind].
  destruct r as [m|]; [|by exists None, (MkVm (the_world vm) c (ic_epoch vm) (table vm)); auto 10].
  destruct (insert_ok _ c k sel m Hc Hd) as (c' & -> & Hc'). cbn [mbind option_bind].
  exists (Some m), (MkVm (the_world vm) c' (ic_epoch vm) (table vm)). auto 10.
Qed.
(** *** Block holders *)
Definition nested (w : world) (m b : Z) : Prop := exists M B, code w !! m = Some M /\
  OMethod b ∈ literals M /\ code w !! b = Some B /\ is_block B = true.
Definition closed (w : world) : Prop := forall m M b, code w !! m = Some M -> OMethod b ∈ literals M -> is_Some (code w !! b).
(** Blocks nest to a finite depth. *)
Definition ranked (w : world) (rank : Z -> nat) : Prop := forall m b, nested w m b -> (rank b < rank m)%nat.

(** [w'] is [w] but for the holders of [ms], which are [h]. *)
Record held (w w' : world) (h : oop) (ms : Z -> Prop) : Prop := {
  held_klasses : klasses w' = klasses w;
  held_shape : forall x, (fun M => (selector M, literals M, is_block M)) <$> code w' !! x =
                         (fun M => (selector M, literals M, is_block M)) <$> code w !! x;
  held_in : forall x M, ms x -> code w' !! x = Some M -> holder M = h;
  held_out : forall x, code w' !! x = code w !! x \/ ms x }.

Lemma held_lookup w w' h ms x M : held w w' h ms -> code w !! x = Some M ->
  exists M', code w' !! x = Some M' /\ literals M' = literals M /\ is_block M' = is_block M /\ selector M' = selector M.
Proof.
  intros Hh HM. pose proof (held_shape _ _ _ _ Hh x) as Hs. rewrite HM in Hs. cbn in Hs.
  apply fmap_Some in Hs as (M' & HM' & Heq). exists M'. by simplify_eq.
Qed.

Lemma held_refl w h : held w w h (fun _ => False).
Proof. split; try done. by left. Qed.

Lemma held_sym_shape w w' h ms x M' : held w w' h ms -> code w' !! x = Some M' ->
  exists M, code w !! x = Some M /\ literals M' = literals M /\ is_block M' = is_block M.
Proof.
  intros Hh HM. pose proof (held_shape _ _ _ _ Hh x) as Hs. rewrite HM in Hs. cbn in Hs. symmetry in Hs.
  apply fmap_Some in Hs as (M & HM' & Heq). exists M. by simplify_eq.
Qed.

Lemma held_trans w1 w2 w3 h ms1 ms2 : held w1 w2 h ms1 -> held w2 w3 h ms2 ->
  held w1 w3 h (fun x => ms1 x \/ ms2 x).
Proof.
  intros H1 H2. split.
  - rewrite (held_klasses _ _ _ _ H2). apply H1.
  - intros x. rewrite (held_shape _ _ _ _ H2). apply H1.
  - intros x M [Hx|Hx] HM; [|by eapply (held_in _ _ _ _ H2)].
    destruct (held_out _ _ _ _ H2 x) as [He|Hx2]; [|by eapply (held_in _ _ _ _ H2)].
    rewrite He in HM. by eapply (held_in _ _ _ _ H1).
  - intros x. destruct (held_out _ _ _ _ H2 x) as [->|]; [|by right; right].
    destruct (held_out _ _ _ _ H1 x) as [->|]; [by left|by right; left].
Qed.

Lemma held_ext w w' h ms ms' : held w w' h ms -> (forall x, ms x <-> ms' x) -> held w w' h ms'.
Proof.
  intros Hh He. split; [apply Hh|apply Hh| |].
  - intros x M Hx. apply (held_in _ _ _ _ Hh). by apply He.
  - intros x. destruct (held_out _ _ _ _ Hh x) as [|Hx]; [by left|right; by apply He].
Qed.

Lemma held_set_holder w m M h : code w !! m = Some M ->
  exists w', set_holder w m h = Some w' /\ held w w' h (eq m).
Proof.
  intros HM. unfold set_holder. rewrite HM. eexists. split; [reflexivity|]. split; cbn.
  - done.
  - intros x. destruct (decide (m = x)) as [<-|]; [by rewrite lookup_insert_eq, HM|by rewrite lookup_insert_ne].
  - intros x M' <-. rewrite lookup_insert_eq. by intros [= <-].
  - intros x. destruct (decide (m = x)) as [->|]; [by right|left; by rewrite lookup_insert_ne].
Qed.

Lemma held_nested w w' h ms m b : held w w' h ms -> nested w m b <-> nested w' m b.
Proof.
  intros Hh. split.
  - intros (M & B & HM & Hb & HB & Hbl). destruct (held_lookup _ _ _ _ _ _ Hh HM) as (M' & HM' & Hl & _).
    destruct (held_lookup _ _ _ _ _ _ Hh HB) as (B' & HB' & _ & Hk & _). exists M', B'. by rewrite Hl, Hk.
  - intros (M & B & HM & Hb & HB & Hbl). destruct (held_sym_shape _ _ _ _ _ _ Hh HM) as (M' & HM' & Hl & _).
    destruct (held_sym_shape _ _ _ _ _ _ Hh HB) as (B' & HB' & _ & Hk). exists M', B'. rewrite <- Hl, <- Hk. done.
Qed.

Lemma tc_mono (R R' : Z -> Z -> Prop) : (forall a b, R a b -> R' a b) -> forall a b, tc R a b -> tc R' a b.
Proof. intros HR a b. induction 1; [apply tc_once; auto|eapply tc_l; eauto]. Qed.
Lemma tc_ext (R R' : Z -> Z -> Prop) : (forall a b, R a b <-> R' a b) -> forall a b, tc R a b <-> tc R' a b.
Proof. intros HR a b. split; apply tc_mono; intros x y; by rewrite HR. Qed.

Lemma held_tc w w' h ms m b : held w w' h ms -> tc (nested w) m b <-> tc (nested w') m b.
Proof.
  intros Hh. split; induction 1; [apply tc_once|eapply tc_l; [|done]|apply tc_once|eapply tc_l; [|done]];
    by eapply (held_nested _ _ _ _ _ _ Hh).
Qed.

Lemma held_closed w w' h ms : held w w' h ms -> closed w -> closed w'.
Proof.
  intros Hh Hc m M b HM Hb. destruct (held_sym_shape _ _ _ _ _ _ Hh HM) as (M0 & HM0 & Hl & _).
  destruct (Hc m M0 b HM0) as [B HB]; [by rewrite <- Hl|].
  destruct (held_lookup _ _ _ _ _ _ Hh HB) as (B' & -> & _). by eexists.
Qed.

Lemma held_ranked w w' h ms rank : held w w' h ms -> ranked w rank -> ranked w' rank.
Proof. intros Hh Hr m b Hn. apply Hr. by eapply (held_nested _ _ _ _ _ _ Hh). Qed.

(** The blocks nested, at any depth, in one of the literals [ls]. *)
Definition nested_in (w : world) (ls : list oop) (x : Z) : Prop := exists b B, OMethod b ∈ ls /\
  code w !! b = Some B /\ is_block B = true /\ (x = b \/ tc (nested w) b x).

Lemma nested_in_method w m M x : code w !! m = Some M -> nested_in w (literals M) x <-> tc (nested w) m x.
Proof.
  intros HM. split.
  - intros (b & B & Hb & HB & Hbl & Hx). assert (nested w m b) as Hn by (by exists M, B).
    destruct Hx as [->|Hx]; [by apply tc_once|by eapply tc_l].
  - intros Hx. inversion Hx as [? ? Hn|? b ? Hn Hx']; subst; destruct Hn as (M' & B & HM' & Hb & HB & Hbl);
      assert (M' = M) as -> by congruence; [exists x, B|exists b, B]; split_and!; try done; [by left|by right].
Qed.

Lemma patch_ok rank h : forall fuel w m M, closed w -> ranked w rank -> (rank m < fuel)%nat -> code w !! m = Some M ->
  exists w', patch_block_holders fuel w h m = Some w' /\ held w w' h (tc (nested w) m).
Proof.
  induction fuel as [|fuel IH]; intros w m M Hc Hr Hf HM; [lia|]. cbn [patch_block_holders]. rewrite HM.
  cbn [mbind option_bind].
  assert (Hgen : forall ls, (forall b, OMethod b ∈ ls -> OMethod b ∈ literals M) -> forall w1 ms, held w w1 h ms ->
    exists w2, foldl (fun w lit => w ← w; match as_method lit with
        | Some b => B ← code w !! b; if is_block B then w ← set_holder w b h; patch_block_holders fuel w h b else Some w
        | None => Some w end) (Some w1) ls = Some w2 /\ held w w2 h (fun x => ms x \/ nested_in w ls x)).
  { induction ls as [|lit ls IHl]; intros Hls w1 ms Hh; cbn [foldl].
    - exists w1. split; [done|]. eapply held_ext; [exact Hh|]. intros x. split; [by left|].
      intros [|(b & B & ?%elem_of_nil & _)]; done.
    - cbn [mbind option_bind]. assert (Hrest : forall b, OMethod b ∈ ls -> OMethod b ∈ literals M) by (intros b Hb; apply Hls; by right).
      destruct lit as [| | |b| |]; cbn [as_method]; try (destruct (IHl Hrest w1 ms Hh) as (w2 & H1 & H2); exists w2; split; [done|];
        eapply held_ext; [exact H2|]; intros x; split; (intros [|(b & B & Hb & Hx)]; [by left|right; exists b, B; split; [|done]]);
        [by right|by apply elem_of_cons in Hb as [|]]).
      destruct (Hc m M b HM) as [B HB]; [apply Hls; left|].
      destruct (held_lookup _ _ _ _ _ _ Hh HB) as (B1 & HB1 & _ & Hk & _). rewrite HB1. cbn [mbind option_bind].
      rewrite Hk. destruct (is_block B) eqn:Hbl.
      + destruct (held_set_holder w1 b B1 h HB1) as (w1' & -> & Hh1). cbn [mbind option_bind].
        pose proof (held_trans _ _ _ _ _ _ Hh Hh1) as Hh2.
        destruct (held_lookup _ _ _ _ _ _ Hh2 HB) as (B2 & HB2 & _).
        assert (Hnb : nested w m b) by (exists M, B; split_and!; [done|apply Hls; left|done..]).
        destruct (IH w1' b B2) as (w2 & -> & Hh3); [by eapply held_closed|by eapply held_ranked|specialize (Hr m b Hnb); lia|done|].
        destruct (IHl Hrest w2 _ (held_trans _ _ _ _ _ _ Hh2 Hh3)) as (w3 & H1 & H2). exists w3. split; [done|].
        eapply held_ext; [exact H2|]. intros x. split.
        * intros [[[Hx|<-]|Hx]|(b' & B' & Hb' & Hx)]; [by left|right|right|right].
          -- exists b, B. split_and!; [left|done|done|by left].
          -- exists b, B. split_and!; [left|done|done|right]. by apply (held_tc _ _ _ _ _ _ Hh2).
          -- exists b', B'. split; [by right|done].
        * intros [Hx|(b' & B' & Hb' & HB' & Hbl' & Hx)]; [by left; left; left|].
          apply elem_of_cons in Hb' as [[= ->]|Hb']; [|right; by exists b', B'].
          destruct Hx as [->|Hx]; [by left; left; right|]. left; right. by apply (held_tc _ _ _ _ _ _ Hh2).
      + destruct (IHl Hrest w1 ms Hh) as (w2 & H1 & H2). exists w2. split; [done|]. eapply held_ext; [exact H2|].
        intros x. split.
        * intros [|(b' & B' & Hb' & Hx)]; [by left|right; exists b', B'; split; [by right|done]].
        * intros [|(b' & B' & Hb' & HB' & Hbl' & Hx)]; [by left|]. apply elem_of_cons in Hb' as [[= ->]|Hb']; [congruence|].
          right. by exists b', B'. }
  destruct (Hgen (literals M) ltac:(done) w _ (held_refl w h)) as (w' & H1 & H2). exists w'. split; [exact H1|].
  eapply held_ext; [exact H2|]. intros x. pose proof (nested_in_method w m M x HM) as Hn. cbv beta. tauto.
Qed.

(** *** Installation *)
Lemma held_own w w' h ms k M : held w w' h ms -> own mark_of w k M <-> own mark_of w' k M.
Proof. intros Hh. unfold own. by rewrite (held_klasses _ _ _ _ Hh). Qed.

Lemma held_chain w w' h ms k ks : held w w' h ms -> chain w k ks <-> chain w' k ks.
Proof. intros Hh. split; apply chain_ext; intros x; by rewrite (held_klasses _ _ _ _ Hh). Qed.

Lemma rebind_held w w1 w2 h ms k s m : rebind mark_of w w1 k s m -> held w1 w2 h ms -> rebind mark_of w w2 k s m.
Proof.
  intros [R1 R2 R3] Hh. split.
  - intros x ks. rewrite R1. by eapply held_chain.
  - intros M HM. apply (held_own _ _ _ _ _ _ Hh). by apply R2.
  - intros x M Hx HM. apply (held_own _ _ _ _ _ _ Hh). by apply R3.
Qed.

Lemma rebind_wf w w' h s m K : wf mark_of w -> rebind mark_of w w' h s m -> klasses w !! h = Some K ->
  (forall k, is_Some (klasses w' !! k) -> is_Some (klasses w !! k)) -> wf mark_of w'.
Proof.
  intros Hw Hr HK Hdom. split.
  - intros k K' HK'. destruct (Hdom k) as [K0 HK0]; [by eexists|]. destruct (wf_chain _ _ Hw _ _ HK0) as [ks Hc].
    exists ks. by apply (rebind_chain _ _ _ _ _ _ Hr).
  - intros k K' d HK' Hd. destruct (Hdom k) as [K0 HK0]; [by eexists|]. destruct (own_ex _ _ _ _ Hw HK0) as [M HM].
    assert (exists M', own mark_of w' k M') as [M' (K2 & HK2 & HM')].
    { destruct (decide (k = h)) as [->|]; [eexists; by apply (rebind_here _ _ _ _ _ _ Hr)|eexists; by apply (rebind_else _ _ _ _ _ _ Hr)]. }
    assert (K2 = K') as -> by congruence. rewrite Hd in HM'. by exists M'.
Qed.

(** A new binding and its holders, in the class world. *)
Lemma bind_ok w klass K d sel m M h w1 : wf mark_of w -> klasses w !! klass = Some K ->
  own mark_of w klass M -> MethodDict.represents mark_of d (<[sel := m]> M) -> set_methods w klass d = Some w1 ->
  forall w2 ms, held w1 w2 h ms -> rebind mark_of w w2 klass sel m /\ wf mark_of w2.
Proof.
  intros Hw HK Hown Hd H1 w2 ms Hh.
  assert (Hr : rebind mark_of w w2 klass sel m).
  { eapply rebind_held; [|exact Hh]. by eapply set_methods_rebind. }
  split; [exact Hr|]. eapply rebind_wf; [done..|]. intros k. rewrite (held_klasses _ _ _ _ Hh).
  unfold set_methods in H1. rewrite HK in H1. injection H1 as <-. cbn [klasses].
  destruct (decide (klass = k)) as [<-|]; [by eexists|by rewrite lookup_insert_ne].
Qed.

Lemma patch_method w m M h rank : closed w -> ranked w rank -> (rank m <= size (code w))%nat -> code w !! m = Some M ->
  exists w1 w2, set_holder w m h = Some w1 /\ patch_block_holders (S (size (code w1))) w1 h m = Some w2 /\
    held w w2 h (fun x => x = m \/ tc (nested w) m x).
Proof.
  intros Hc Hr Hsz HM. destruct (held_set_holder w m M h HM) as (w1 & H1 & Hh1).
  destruct (held_lookup _ _ _ _ _ _ Hh1 HM) as (M1 & HM1 & _).
  assert (Hs : size (code w1) = size (code w)).
  { unfold set_holder in H1. rewrite HM in H1. injection H1 as <-. cbn [code]. by rewrite map_size_insert, HM. }
  destruct (patch_ok rank h (S (size (code w1))) w1 m M1) as (w2 & H2 & Hh2);
    [by eapply held_closed|by eapply held_ranked|lia|done|].
  exists w1, w2. split_and!; [done|done|]. eapply held_ext; [by eapply held_trans|]. intros x. cbv beta.
  pose proof (held_tc _ _ _ _ m x Hh1) as Ht. split; (intros [Hx|Hx]; [left; congruence|right; tauto]).
Qed.

(** The dictionary insertion of [install_method]. *)
Lemma install_dict w klass K M sel m `{!MethodDict.hashed mark_of sel} : own mark_of w klass M -> klasses w !! klass = Some K -> Z.of_nat (size M) + 1 < 2 ^ 61 ->
  exists d0 d, match methods K with Some d => Some d | None => MethodDict.alloc_method_dict 8 end = Some d0 /\
    MethodDict.insert mark_of d0 sel m = Some d /\
    MethodDict.represents mark_of d (<[sel := m]> M).
Proof.
  intros (K' & HK & HM) HK' Hsz. assert (K' = K) as -> by congruence.
  assert (exists d0, match methods K with Some d => Some d | None => MethodDict.alloc_method_dict 8 end = Some d0 /\
    MethodDict.represents mark_of d0 M) as (d0 & -> & Hd0).
  { destruct (methods K) as [d|]; [by exists d|]. subst M. by apply (MethodDict.alloc_represents mark_of 3). }
  exists d0. destruct (MethodDict.insert_represents mark_of d0 M sel m Hd0) as (d & H1 & H2); [done|done|]. by exists d.
Qed.

(** The bindings installed in a class. *)
Definition has_room (w : world) (k : Z) : Prop := forall M, own mark_of w k M -> Z.of_nat (size M) + 1 < 2 ^ 61.

(** [vm'] is [vm] with [m] installed under [sel] in [klass]. *)
Record installed (vm vm' : vm_state) (klass sel m : Z) : Prop := {
  inst_epoch : ic_epoch vm' = ic_epoch vm + 1;
  inst_flushed : forall i e, zlookup (lookup_cache vm') i = Some e -> is_empty e = true;
  inst_bind : rebind mark_of (the_world vm) (the_world vm') klass sel m;
  inst_holders : held (MkWorld (klasses (the_world vm')) (code (the_world vm))) (the_world vm') (OKlass klass)
                   (fun x => x = m \/ tc (nested (the_world vm)) m x);
  inst_alive : forall i nm, CodeTable.get (table vm) i = Some nm ->
    CodeTable.state nm = CodeTable.Alive /\ CodeTable.stale (the_world vm') klass sel nm ->
    CodeTable.get (table vm') i = Some (CodeTable.with_state nm CodeTable.NotEntrant) /\
    forall k s, CodeTable.lookup (table vm') k s <> Some i;
  inst_kept : forall i nm, CodeTable.get (table vm) i = Some nm ->
    ~ (CodeTable.state nm = CodeTable.Alive /\ CodeTable.stale (the_world vm') klass sel nm) ->
    CodeTable.get (table vm') i = Some nm }.

Lemma flush_empty c i e : zlookup (flush c) i = Some e -> is_empty e = true.
Proof.
  intros Hi. unfold flush, zlookup in Hi. destruct (i <? 0); [done|].
  by apply list_lookup_fmap_Some in Hi as (x & -> & _).
Qed.

Lemma install_method_ok vm K klass sel m M rank `{!MethodDict.hashed mark_of sel} : vm_ok vm -> klasses (the_world vm) !! klass = Some K ->
  code (the_world vm) !! m = Some M -> closed (the_world vm) -> ranked (the_world vm) rank ->
  (rank m <= size (code (the_world vm)))%nat -> has_room (the_world vm) klass -> ic_epoch vm + 1 < IC_META_EPOCH_LIMIT ->
  exists vm', install_method vm klass sel m = Some vm' /\ vm_ok vm' /\ installed vm vm' klass sel m.
Proof.
  intros [Hw [Hcl Hc] Ht Hkn] HK HM Hclosed Hrank Hsz Hroom Hep. set (w := the_world vm) in *.
  destruct (own_ex mark_of w klass K Hw HK) as [O HO].
  destruct (install_dict w klass K O sel m HO HK (Hroom _ HO)) as (d0 & d & Hd0 & Hins & Hd).
  unfold install_method. cbv zeta. fold w. rewrite HK. cbn [mbind option_bind]. rewrite Hd0. cbn [mbind option_bind]. rewrite Hins. cbn [mbind option_bind].
  destruct (set_methods w klass d) as [w1|] eqn:H1; [|unfold set_methods in H1; by rewrite HK in H1].
  assert (Hcode : code w1 = code w) by (unfold set_methods in H1; rewrite HK in H1; by injection H1 as <-).
  assert (Hnest : forall a b, nested w1 a b <-> nested w a b) by (intros; unfold nested; by rewrite Hcode).
  destruct (patch_method w1 m M (OKlass klass) rank) as (w2 & w3 & H2 & H3 & Hh).
  { intros a A b. rewrite Hcode. apply Hclosed. }
  { intros a b Hn. apply Hrank. by apply Hnest. }
  { by rewrite Hcode. }
  { by rewrite Hcode. }
  cbn [mbind option_bind]. rewrite H2. cbn [mbind option_bind]. rewrite H3. cbn [mbind option_bind].
  destruct (Z.ltb_spec (ic_epoch vm + 1) IC_META_EPOCH_LIMIT) as [_|]; [|lia].
  destruct (bind_ok w klass K d sel m O (OKlass klass) w1 Hw HK HO Hd H1 w3 _ Hh) as [Hbind Hw3].
  assert (Hkn3 : forall i nm, CodeTable.get (table vm) i = Some nm -> CodeTable.known_klasses w3 nm).
  { intros i nm Hg x Hx. destruct (Hkn i nm Hg x Hx) as [ks Hks]. exists ks. by apply (rebind_chain _ _ _ _ _ _ Hbind). }
  destruct (CodeTable.invalidate_ok w3 (table vm) klass sel Ht Hkn3) as (t' & -> & Ht' & Hnone & Hall).
  cbn [mbind option_bind]. eexists. split; [reflexivity|]. split.
  - split; cbn; [done|by apply flush_ok|done|]. intros i nm' Hg'.
    destruct (Hnone i nm' Hg') as (nm & Hg & Ha). unfold CodeTable.known_klasses. rewrite Ha. by apply (Hkn3 i nm Hg).
  - split; cbn; [done|by apply flush_empty|done| | |].
    + fold w. rewrite <- Hcode, (held_klasses _ _ _ _ Hh). destruct w1; cbn.
      eapply held_ext; [exact Hh|]. intros x. cbv beta. by rewrite (tc_ext _ _ Hnest).
    + intros i nm Hg Hs. destruct (proj1 (Hall i nm Hg) Hs) as [B1 B2]. split; [done|]. intros k s. apply B2.
    + intros i nm Hg. apply (Hall i nm Hg).
Qed.

Lemma new_ok w : cache_ok w new.
Proof.
  split; [unfold new, zlen; rewrite length_replicate; unfold LOOKUP_CACHE_SIZE; lia|].
  intros i e Hi. left. unfold zlookup, new in Hi. destruct (i <? 0); [done|].
  by apply lookup_replicate in Hi as [-> _].
Qed.

Lemma fresh_ok w : wf mark_of w -> vm_ok (MkVm w new 0 CodeTable.new).
Proof.
  intros Hw. split; cbn; [done|apply new_ok|apply CodeTable.new_wf|].
  intros i nm Hg. unfold CodeTable.get, zlookup in Hg. cbn in Hg. by destruct (i <? 0).
Qed.

(** The collector moves objects: the epilogue's state is fit for any
    well-formed world with the same compiled assumptions. *)
Lemma gc_epilogue_ok vm w : vm_ok vm -> wf mark_of w ->
  (forall i nm, CodeTable.get (table vm) i = Some nm -> CodeTable.known_klasses w nm) ->
  vm_ok (MkVm w (lookup_cache (gc_epilogue vm)) (ic_epoch vm) (table vm)).
Proof.
  intros [_ [Hl _] Ht _] Hw Hk. split; cbn; [done|by apply flush_ok|done|done].
Qed.
End vm.

(** ** Properties *)

(** C5. The lookup cache is transparent.  In a state whose cache agrees with
    the dictionaries, a lookup of a selector that has its identity hash never
    fails to answer and its answer -- from the
    primary entry, from a promoted victim or from the walk -- is that of the
    uncached walk, which is the first binding along the superclass chain; it
    leaves classes, epoch and code table alone and the cache in agreement.
    The empty cache agrees with any world, and so does the one the collector
    leaves behind, whatever the collector moved. *)
Theorem lookup_transparent mark_of vm k K sel (Hsel : MethodDict.hashed mark_of sel) (Hvm : vm_ok mark_of vm) (HK : klasses (the_world vm) !! k = Some K) :
  (exists r vm', lookup mark_of vm k sel = Some (r, vm') /\
     lookup_uncached mark_of (the_world vm) k sel = Some r /\
     dispatches mark_of (the_world vm) k sel r /\ vm_ok mark_of vm' /\
     the_world vm' = the_world vm /\ ic_epoch vm' = ic_epoch vm /\ table vm' = table vm) /\
  (forall w, wf mark_of w -> vm_ok mark_of (MkVm w new 0 CodeTable.new)) /\
  (forall w, wf mark_of w ->
     (forall i nm, CodeTable.get (table vm) i = Some nm -> CodeTable.known_klasses w nm) ->
     vm_ok mark_of (MkVm w (lookup_cache (gc_epilogue vm)) (ic_epoch vm) (table vm))).
Proof.
  split_and!; [|by apply fresh_ok|by intros w Hw; apply gc_epilogue_ok].
  destruct (lookup_ok mark_of vm k K sel Hvm HK) as (r & vm' & Hl & Hd & Hrest). exists r, vm'. split; [done|].
  destruct (lookup_uncached_ok mark_of _ _ _ sel (vm_wf _ _ Hvm) HK) as (r' & Hr' & Hd').
  by pose proof (dispatches_det _ _ _ _ _ _ Hd Hd') as ->.
Qed.

(** C24. Installing a method rebinds its selector in its class and nothing else.
    When the selector has its identity hash, blocks nest finitely and the epoch has room, the installation never
    fails; every later lookup of the selector in the class finds the method,
    and every lookup that does not go through the class for that selector finds
    what it found before; the method and the blocks nested in it at any depth,
    and no other method, get the class as their holder; the lookup cache is
    empty and the epoch is larger, so no cached answer survives; and a compiled
    method stays alive only if every lookup it assumes is unchanged. *)
Theorem install_method_correct mark_of vm K klass sel m M rank (Hsel : MethodDict.hashed mark_of sel) (Hvm : vm_ok mark_of vm)
    (HK : klasses (the_world vm) !! klass = Some K) (HM : code (the_world vm) !! m = Some M)
    (Hclosed : closed (the_world vm)) (Hrank : ranked (the_world vm) rank)
    (Hsz : (rank m <= size (code (the_world vm)))%nat) (Hroom : has_room mark_of (the_world vm) klass)
    (Hep : ic_epoch vm + 1 < IC_META_EPOCH_LIMIT) :
  exists vm', install_method mark_of vm klass sel m = Some vm' /\ vm_ok mark_of vm' /\
    ic_epoch vm' = ic_epoch vm + 1 /\
    (forall i e, zlookup (lookup_cache vm') i = Some e -> is_empty e = true) /\
    dispatches mark_of (the_world vm') klass sel (Some m) /\
    (forall k ks s r, chain (the_world vm) k ks -> ~ (s = sel /\ klass ∈ ks) ->
       dispatches mark_of (the_world vm) k s r -> dispatches mark_of (the_world vm') k s r) /\
    (forall x X, x = m \/ tc (nested (the_world vm)) m x -> code (the_world vm') !! x = Some X -> holder X = OKlass klass) /\
    (forall x, ~ (x = m \/ tc (nested (the_world vm)) m x) -> code (the_world vm') !! x = code (the_world vm) !! x) /\
    (forall i nm d r, CodeTable.get (table vm') i = Some nm -> CodeTable.state nm = CodeTable.Alive ->
       CodeTable.get (table vm) i = Some nm -> d ∈ CodeTable.assumes nm ->
       dispatches mark_of (the_world vm) d.1 d.2 r -> dispatches mark_of (the_world vm') d.1 d.2 r).
Proof.
  destruct (install_method_ok mark_of vm K klass sel m M rank Hvm HK HM Hclosed Hrank Hsz Hroom Hep)
    as (vm' & H1 & H2 & [He Hf Hb Hh Hst Hkept]).
  exists vm'. split_and!; try done.
  - eapply dispatches_rebound; [exact (vm_wf _ _ Hvm)|exact HK|exact Hb].
  - intros k ks s r Hc Hn Hd. eapply dispatches_rebind; [exact Hb|exact Hc|exact Hn|exact Hd].
  - intros x X Hx HX. by eapply (held_in _ _ _ _ Hh).
  - intros x Hx. by destruct (held_out _ _ _ _ Hh x) as [|].
  - intros i nm d r Hg' Ha Hg Hd Hdisp. destruct (vm_known _ _ Hvm i nm Hg d Hd) as [ks Hc].
    eapply dispatches_rebind; [exact Hb|exact Hc| |exact Hdisp]. intros [Hs Hin].
    destruct (Hst i nm Hg) as [Hne _].
    + split; [done|]. exists d, ks. split_and!; [done|done| |done]. by apply (rebind_chain _ _ _ _ _ _ Hb).
    + rewrite Hne in Hg'. injection Hg' as Hx. rewrite <- Hx in Ha. done.
Qed.

(** Class 16 under class 8; method 100 has the block 104 among its literals. *)
Definition two_classes : world :=
  MkWorld (<[16 := MkKlass None (OKlass 8)]> {[8 := MkKlass None ONil]})
          (<[100 := MkMethod ONil ONil [OSmi 3; OMethod 104] false]> {[104 := MkMethod ONil ONil [] true]}).
Definition sample_vm : vm_state := MkVm two_classes new 0 CodeTable.new.

Lemma two_classes_wf mark_of : wf mark_of two_classes.
Proof.
  assert (H8 : chain two_classes 8 [8]) by (by eapply chain_root).
  split; intros k K; unfold two_classes at 1; cbn [klasses].
  - intros [[<- <-]|[_ [<- <-]%lookup_singleton_Some]]%lookup_insert_Some; [|by eexists].
    exists [16; 8]. by eapply chain_step.
  - intros d [[<- <-]|[_ [<- <-]%lookup_singleton_Some]]%lookup_insert_Some; done.
Qed.

Lemma two_classes_code x X : code two_classes !! x = Some X ->
  x = 100 /\ X = MkMethod ONil ONil [OSmi 3; OMethod 104] false \/ x = 104 /\ X = MkMethod ONil ONil [] true.
Proof.
  unfold two_classes. cbn [code].
  intros [[<- <-]|[_ [<- <-]%lookup_singleton_Some]]%lookup_insert_Some; [by left|by right].
Qed.

Lemma lookup_transparent_witness : exists r vm', lookup (fun s => 4096 * s) sample_vm 16 24 = Some (r, vm') /\
  lookup_uncached (fun s => 4096 * s) two_classes 16 24 = Some r.
Proof.
  destruct (lookup_transparent (fun s => 4096 * s) sample_vm 16 (MkKlass None (OKlass 8)) 24) as ((r & vm' & H1 & H2 & _) & _).
  - by vm_compute.
  - apply fresh_ok, two_classes_wf.
  - reflexivity.
  - exists r, vm'. split; [exact H1|exact H2].
Defined.

Lemma install_method_correct_witness : exists vm', install_method (fun s => 4096 * s) sample_vm 8 24 100 = Some vm' /\
  dispatches (fun s => 4096 * s) (the_world vm') 8 24 (Some 100) /\ ic_epoch vm' = 1.
Proof.
  destruct (install_method_correct (fun s => 4096 * s) sample_vm (MkKlass None ONil) 8 24 100
              (MkMethod ONil ONil [OSmi 3; OMethod 104] false) (fun x => if x =? 100 then 1%nat else 0%nat))
    as (vm' & H1 & _ & H2 & _ & H3 & _).
  - by vm_compute.
  - apply fresh_ok, two_classes_wf.
  - reflexivity.
  - reflexivity.
  - intros a A b [[-> ->]|[-> ->]]%two_classes_code Hb; [|by apply elem_of_nil in Hb].
    apply elem_of_cons in Hb as [|Hb]; [done|]. apply list_elem_of_singleton in Hb as [= ->]. by eexists.
  - intros a b (A & B & HA & Hb & HB & _). apply two_classes_code in HA as [[-> ->]|[-> ->]]; [|by apply elem_of_nil in Hb].
    apply elem_of_cons in Hb as [|Hb]; [done|]. apply list_elem_of_singleton in Hb as [= ->]. cbn. lia.
  - cbn. vm_compute. lia.
  - intros O (K & HK & HO). vm_compute in HK. injection HK as <-. cbv in HO. subst O. vm_compute. reflexivity.
  - vm_compute. reflexivity.
  - exists vm'. split; [exact H1|]. split; [exact H3|exact H2].
Defined.

(** The subclass finds the inherited method, and from the cache on a second
    send. *)
Example installed_is_inherited :
  (vm ← install_method (fun s => 4096 * s) sample_vm 8 24 100;
   '(r1, vm) ← lookup (fun s => 4096 * s) vm 16 24;
   '(r2, _) ← probe (lookup_cache vm) 16 24; Some (r1, r2)) = Some (Some 100, Some 100).
Proof. vm_compute. reflexivity. Qed.
End Lookup.
