(* ===== verification/Ic.v ===== *)
(** The interpreter's inline caches ([src/src/interpreter/ic.rs]) and the
    dispatch of a send through them ([src/src/interpreter/send.rs]).

    A site is four words of its method's inline-cache array; the array is
    passed and returned.  The pairs array of a polymorphic site belongs to that
    site alone, so it stands inside the target word and an update in place
    writes the target word back.  Nothing moves here, so the re-derivations
    after the pairs allocation do not appear. *)
From S2P Require Import Prelude Oops MethodDict Hierarchy CodeTable Lookup.
From stdpp Require Import gmap.
#[local] Open Scope Z_scope.

Module Ic.
Import Layout Lookup.
Abbreviation ics_array := (list oop).

(** ** A site's words *)
Definition base_of (ic_idx : Z) : Z := ic_idx * IC_STRIDE.
Definition selector (ics : ics_array) (base : Z) : option Z := o ← zlookup ics (base + IC_SEL_OFFSET); as_symbol o.
Definition meta (ics : ics_array) (base : Z) : option Z := o ← zlookup ics (base + IC_META_OFFSET); as_smi o.
Definition argc (ics : ics_array) (base : Z) : option Z :=
  v ← meta ics base; Some (Z.shiftr (Z.land v IC_META_ARGC_MASK) IC_META_ARGC_SHIFT mod 2 ^ 8).
Definition epoch (ics : ics_array) (base : Z) : option Z :=
  v ← meta ics base; Some (Z.shiftr (Z.land v IC_META_EPOCH_MASK) IC_META_EPOCH_SHIFT mod 2 ^ 32).
Definition set_meta (ics : ics_array) (base : Z) (ep : Z) : option ics_array :=
  a ← argc ics base;
  zset ics (base + IC_META_OFFSET) (OSmi (Z.lor (Z.shiftl a IC_META_ARGC_SHIFT) (Z.shiftl ep IC_META_EPOCH_SHIFT))).
Definition guard (ics : ics_array) (base : Z) : option oop := zlookup ics (base + IC_GUARD_OFFSET).
Definition target (ics : ics_array) (base : Z) : option oop := zlookup ics (base + IC_TARGET_OFFSET).

Definition set_words (ics : ics_array) (base : Z) (g t : oop) : option ics_array :=
  ics ← zset ics (base + IC_GUARD_OFFSET) g; zset ics (base + IC_TARGET_OFFSET) t.
Definition set_mono (ics : ics_array) (base k m ep : Z) : option ics_array :=
  ics ← set_words ics base (OKlass k) (OMethod m); set_meta ics base ep.
Definition set_mono_compiled (ics : ics_array) (base k i ep : Z) : option ics_array :=
  ics ← set_words ics base (OKlass k) (OSmi i); set_meta ics base ep.
Definition set_poly (ics : ics_array) (base : Z) (pairs : list oop) (ep : Z) : option ics_array :=
  ics ← set_words ics base (OSmi IC_GUARD_POLY) (OArray pairs); set_meta ics base ep.
Definition set_mega (ics : ics_array) (base : Z) : option ics_array := set_words ics base (OSmi IC_GUARD_MEGA) ONil.
Definition set_empty (ics : ics_array) (base : Z) : option ics_array := set_words ics base ONil ONil.

(** ** Polymorphic pairs *)
Inductive IcState := Empty | Mono | Poly (arity : Z) | Mega.

(** The leading pairs whose key is a class. *)
Fixpoint arity_from (fuel : nat) (pairs : list oop) (i : Z) : option Z :=
  match fuel with
  | O => Some 0
  | S fuel =>
      o ← zlookup pairs (2 * i);
      match as_klass o with
      | None => Some 0
      | Some _ => n ← arity_from fuel pairs (i + 1); Some (n + 1)
      end
  end.
Definition poly_arity (pairs : list oop) : option Z := arity_from (Z.to_nat IC_POLY_MAX_PAIRS) pairs 0.

Definition poly_count_at (pairs : list oop) (i : Z) : option Z :=
  o ← zlookup pairs (2 * IC_POLY_MAX_PAIRS + i); Some (default 0 (as_smi o)).
Definition poly_count_bump (pairs : list oop) (i : Z) : option (list oop) :=
  c ← poly_count_at pairs i;
  if c <? 2 ^ 31 - 1 then zset pairs (2 * IC_POLY_MAX_PAIRS + i) (OSmi (c + 1)) else Some pairs.

Definition ic_state (ics : ics_array) (ic_idx : Z) : option IcState :=
  g ← guard ics (base_of ic_idx);
  match as_smi g with
  | Some v =>
      if v =? IC_GUARD_MEGA then Some Mega
      else if v =? IC_GUARD_POLY then
        t ← target ics (base_of ic_idx); pairs ← as_array t; n ← poly_arity pairs; Some (Poly n)
      else None
  | None => match as_klass g with Some _ => Some Mono | None => Some Empty end
  end.

Definition alloc_poly_pairs : list oop := replicate (Z.to_nat IC_POLY_ARRAY_LEN) ONil.

Section transition.
Context (mark_of : Z -> Z).

(** Where a site's lookup starts, and its answer. *)
Definition resolve (vm : vm_state) (caller sel : Z) (is_super : bool) (rcvr_klass : Z) : option (option Z * vm_state) :=
  if is_super then
    M ← code (the_world vm) !! caller;
    h ← as_klass (holder M);
    H ← klasses (the_world vm) !! h;
    match as_klass (superclass H) with
    | None => Some (None, vm)
    | Some super_klass => lookup mark_of vm super_klass sel
    end
  else lookup mark_of vm rcvr_klass sel.

(** The surviving pairs with their counts. *)
Fixpoint kept_from (vm : vm_state) (caller sel : Z) (is_super : bool) (pairs : list oop) (ixs : list Z) :
    option (list (oop * oop * Z) * vm_state) :=
  match ixs with
  | [] => Some ([], vm)
  | i :: ixs =>
      k ← zlookup pairs (2 * i);
      kk ← as_klass k;
      '(r, vm) ← resolve vm caller sel is_super kk;
      c ← poly_count_at pairs i;
      '(kept, vm) ← kept_from vm caller sel is_super pairs ixs;
      Some (match r with Some m => (k, OMethod m, c) :: kept | None => kept end, vm)
  end.

(** Writing the arms [kept] from pair [i] on, and [nil] after them. *)
Fixpoint write_kept (fuel : nat) (pairs : list oop) (kept : list (oop * oop * Z)) (i : Z) : option (list oop) :=
  match fuel with
  | O => Some pairs
  | S fuel =>
      let '(k, m, c, kept) := match kept with
        | (k, m, c) :: kept => (k, m, OSmi c, kept)
        | [] => (ONil, ONil, ONil, [])
        end in
      pairs ← zset pairs (2 * i) k;
      pairs ← zset pairs (2 * i + 1) m;
      pairs ← zset pairs (2 * IC_POLY_MAX_PAIRS + i) c;
      write_kept fuel pairs kept (i + 1)
  end.

Definition reverify_poly (vm : vm_state) (caller sel : Z) (is_super : bool) (pairs : list oop) :
    option (list oop * vm_state) :=
  arity ← poly_arity pairs;
  '(kept, vm) ← kept_from vm caller sel is_super pairs (zrange 0 arity);
  pairs ← write_kept (Z.to_nat IC_POLY_MAX_PAIRS) pairs kept 0;
  Some (pairs, vm).

(** Row 7's search. *)
Fixpoint find_arm (pairs : list oop) (k : Z) (ixs : list Z) : option (option Z) :=
  match ixs with
  | [] => Some None
  | i :: ixs => o ← zlookup pairs (2 * i); if is_klass k o then Some (Some i) else find_arm pairs k ixs
  end.

(** Rows 1 and 2, and the tail of row 8. *)
Definition fill_empty (vm : vm_state) (caller : Z) (ics : ics_array) (base sel : Z) (is_super : bool) (k : Z) :
    option (option Z * vm_state * ics_array) :=
  '(r, vm) ← resolve vm caller sel is_super k;
  match r with
  | Some m => ics ← set_mono ics base k m (ic_epoch vm); Some (Some m, vm, ics)
  | None => Some (None, vm, ics)
  end.

(** Row 4. *)
Definition heal_mono (vm : vm_state) (caller : Z) (ics : ics_array) (base sel : Z) (is_super : bool) (k : Z) :
    option (option Z * vm_state * ics_array) :=
  '(r, vm) ← resolve vm caller sel is_super k;
  match r with
  | Some m => ics ← set_mono ics base k m (ic_epoch vm); Some (Some m, vm, ics)
  | None => ics ← set_empty ics base; Some (None, vm, ics)
  end.

(** Rows 5 and 6: a second class. *)
Definition mono_to_poly (vm : vm_state) (caller : Z) (ics : ics_array) (base sel : Z) (is_super : bool) (k0 k : Z) :
    option (option Z * vm_state * ics_array) :=
  '(r, vm) ← resolve vm caller sel is_super k;
  match r with
  | None => Some (None, vm, ics)
  | Some m =>
      let pairs := alloc_poly_pairs in
      t ← target ics base;
      '(m0, vm) ← match as_method t with
        | Some m0 => Some (m0, vm)
        | None => '(r0, vm) ← resolve vm caller sel is_super k0; m0 ← r0; Some (m0, vm)
        end;
      pairs ← zset pairs 0 (OKlass k0);
      pairs ← zset pairs 1 (OMethod m0);
      pairs ← zset pairs 2 (OKlass k);
      pairs ← zset pairs 3 (OMethod m);
      pairs ← zset pairs (2 * IC_POLY_MAX_PAIRS + 1) (OSmi 1);
      ics ← set_poly ics base pairs (ic_epoch vm);
      Some (Some m, vm, ics)
  end.

(** Rows 7 and 9 to 11, on pairs that are current. *)
Definition poly_dispatch (vm : vm_state) (caller : Z) (ics : ics_array) (base sel : Z) (is_super : bool)
    (pairs : list oop) (k : Z) : option (option Z * vm_state * ics_array) :=
  arity ← poly_arity pairs;
  hit ← find_arm pairs k (zrange 0 arity);
  match hit with
  | Some i =>
      pairs ← poly_count_bump pairs i;
      ics ← zset ics (base + IC_TARGET_OFFSET) (OArray pairs);
      o ← zlookup pairs (2 * i + 1);
      Some (as_method o, vm, ics)
  | None =>
      '(r, vm) ← resolve vm caller sel is_super k;
      match r with
      | Some m =>
          if arity <? IC_POLY_MAX_PAIRS then
            pairs ← zset pairs (2 * arity) (OKlass k);
            pairs ← zset pairs (2 * arity + 1) (OMethod m);
            pairs ← zset pairs (2 * IC_POLY_MAX_PAIRS + arity) (OSmi 1);
            ics ← set_poly ics base pairs (ic_epoch vm);
            Some (Some m, vm, ics)
          else ics ← set_mega ics base; Some (Some m, vm, ics)
      | None => Some (None, vm, ics)
      end
  end.

Definition poly_transition (vm : vm_state) (caller : Z) (ics : ics_array) (base sel : Z) (is_super : bool) (k : Z) :
    option (option Z * vm_state * ics_array) :=
  t ← target ics base;
  pairs ← as_array t;
  ep ← epoch ics base;
  if ep =? ic_epoch vm then poly_dispatch vm caller ics base sel is_super pairs k
  else
    '(pairs, vm) ← reverify_poly vm caller sel is_super pairs;
    arity ← poly_arity pairs;
    if arity =? 0 then ics ← set_empty ics base; fill_empty vm caller ics base sel is_super k
    else ics ← set_poly ics base pairs (ic_epoch vm); poly_dispatch vm caller ics base sel is_super pairs k.

Definition ic_transition (vm : vm_state) (caller : Z) (ics : ics_array) (ic_idx rcvr_klass : Z) (is_super : bool) :
    option (option Z * vm_state * ics_array) :=
  let base := base_of ic_idx in
  sel ← selector ics base;
  g ← guard ics base;
  if is_nil g then fill_empty vm caller ics base sel is_super rcvr_klass
  else match as_klass g with
  | Some k0 =>
      if k0 =? rcvr_klass then heal_mono vm caller ics base sel is_super k0
      else mono_to_poly vm caller ics base sel is_super k0 rcvr_klass
  | None =>
      v ← as_smi g;
      if v =? IC_GUARD_POLY then poly_transition vm caller ics base sel is_super rcvr_klass
      else if v =? IC_GUARD_MEGA then
        '(r, vm) ← resolve vm caller sel is_super rcvr_klass; Some (r, vm, ics)
      else None
  end.

(** ** The dispatch of [send_generic]: what a send enters *)
Inductive callee := Interpreted (m : Z) | Compiled (id : Z) | DoesNotUnderstand.

(** The fast path; [None] inside means it falls through. *)
Definition fast_path (vm : vm_state) (ics : ics_array) (base k : Z) : option (option callee) :=
  g ← guard ics base;
  ep ← epoch ics base;
  if is_klass k g && (ep =? ic_epoch vm) then
    t ← target ics base;
    match as_smi t with
    | Some v =>
        let nm_id := v mod 2 ^ 32 in
        sel ← selector ics base;
        match CodeTable.get (table vm) nm_id with
        | Some nm =>
            if bool_decide (CodeTable.state nm = Alive) && is_klass (CodeTable.key_klass nm) g
               && (CodeTable.key_selector nm =? sel)
            then Some (Some (Compiled nm_id)) else Some None
        | None => Some None
        end
    | None => m ← as_method t; Some (Some (Interpreted m))
    end
  else Some None.

Definition send_dispatch (vm : vm_state) (caller : Z) (ics : ics_array) (n ic_idx k : Z) (is_super : bool) :
    option (callee * vm_state * ics_array) :=
  a ← argc ics (base_of ic_idx);
  if a =? n then
    fast ← fast_path vm ics (base_of ic_idx) k;
    match fast with
    | Some c => Some (c, vm, ics)
    | None =>
        '(r, vm, ics) ← ic_transition vm caller ics ic_idx k is_super;
        Some (match r with Some m => Interpreted m | None => DoesNotUnderstand end, vm, ics)
    end
  else None.

(** ** What an activation does to the site it came through *)
(** The alive nmethod of a class and a selector that [activate_method] enters
    for a method over its threshold, rather than compile one.  A half-warm one
    is compiled again first, which is the compiler's. *)
Definition existing (t : CodeTable.code_table) (k sel : Z) : option Z :=
  i ← CodeTable.lookup t k sel; nm ← CodeTable.get t i;
  if bool_decide (CodeTable.state nm = Alive) && negb (CodeTable.is_half_warm_osr nm) then Some i else None.
(** A site that has seen no other class is given the nmethod. *)
Definition seed_ok (ics : ics_array) (ic_idx k : Z) : option bool :=
  st ← ic_state ics ic_idx;
  match st with
  | Empty => Some true
  | Mono => g ← guard ics (base_of ic_idx); Some (is_klass k g)
  | Poly _ | Mega => Some false
  end.
Definition seed (vm : vm_state) (ics : ics_array) (ic_idx k i : Z) : option ics_array :=
  match seed_ok ics ic_idx k with
  | Some true => set_mono_compiled ics (base_of ic_idx) k i (ic_epoch vm)
  | Some false => Some ics
  | None => None
  end.

(** ** Arms

    A pairs array holds its arms in front; [encode] lays them out. *)
Definition arm : Type := (Z * Z * oop)%type.
Definition arm_klass (a : arm) : Z := a.1.1.
Definition arm_method (a : arm) : Z := a.1.2.
Definition arm_count (a : arm) : oop := a.2.
Definition count_of (a : arm) : Z := default 0 (as_smi (arm_count a)).

Definition encode (arms : list arm) : list oop :=
  let free := (4 - length arms)%nat in
  concat (map (fun a => [OKlass (arm_klass a); OMethod (arm_method a)]) arms) ++ replicate (2 * free) ONil ++
  map arm_count arms ++ replicate free ONil.

Ltac arms4 arms H :=
  destruct arms as [|?a1 [|?a2 [|?a3 [|?a4 [|]]]]]; cbn [length] in H; try lia.

Lemma poly_arity_encode arms : (length arms <= 4)%nat -> poly_arity (encode arms) = Some (zlen arms).
Proof. intros H. arms4 arms H; reflexivity. Qed.

Ltac nth4 i H Hi :=
  destruct i as [|[|[|[|i]]]]; cbn [lookup list_lookup] in Hi; try discriminate; try (destruct i; discriminate).

Lemma encode_lookup arms i a : (length arms <= 4)%nat -> arms !! i = Some a ->
  zlookup (encode arms) (2 * Z.of_nat i) = Some (OKlass (arm_klass a)) /\
  zlookup (encode arms) (2 * Z.of_nat i + 1) = Some (OMethod (arm_method a)) /\
  poly_count_at (encode arms) (Z.of_nat i) = Some (count_of a).
Proof.
  intros H Hi. arms4 arms H; nth4 i H Hi; injection Hi as <-; split_and!; reflexivity.
Qed.

Lemma encode_snoc arms k m : (length arms < 4)%nat ->
  (p ← zset (encode arms) (2 * zlen arms) (OKlass k);
   p ← zset p (2 * zlen arms + 1) (OMethod m);
   zset p (2 * IC_POLY_MAX_PAIRS + zlen arms) (OSmi 1)) = Some (encode (arms ++ [(k, m, OSmi 1)])).
Proof. intros H. arms4 arms H; reflexivity. Qed.

Lemma encode_bump arms i a : (length arms <= 4)%nat -> arms !! i = Some a ->
  exists c, poly_count_bump (encode arms) (Z.of_nat i) =
    Some (encode (<[i := (arm_klass a, arm_method a, c)]> arms)).
Proof.
  intros H Hi. unfold poly_count_bump. destruct (encode_lookup arms i a H Hi) as (_ & _ & ->). cbn [mbind option_bind].
  destruct (count_of a <? 2 ^ 31 - 1).
  - exists (OSmi (count_of a + 1)). arms4 arms H; nth4 i H Hi; injection Hi as <-; reflexivity.
  - exists (arm_count a). destruct a as [[ak am] ac]. 
    f_equal. f_equal. symmetry. by apply list_insert_id.
Qed.

(** A kept arm as the writer sees it. *)
Definition kept_arm (x : Z * Z * Z) : oop * oop * Z := (OKlass x.1.1, OMethod x.1.2, x.2).
Definition arm_of (x : Z * Z * Z) : arm := (x.1.1, x.1.2, OSmi x.2).

Lemma write_kept_encode pairs kept : length pairs = 12%nat -> (length kept <= 4)%nat ->
  write_kept (Z.to_nat IC_POLY_MAX_PAIRS) pairs (map kept_arm kept) 0 = Some (encode (map arm_of kept)).
Proof.
  intros Hp Hk. do 12 (destruct pairs as [|? pairs]; [done|]). destruct pairs; [|done].
  arms4 kept Hk; reflexivity.
Qed.

Lemma encode_length arms : (length arms <= 4)%nat -> length (encode arms) = 12%nat.
Proof. intros H. arms4 arms H; reflexivity. Qed.

Lemma find_arm_from arms k : (length arms <= 4)%nat -> forall l1 l2, arms = l1 ++ l2 ->
  (forall a, a ∈ l1 -> arm_klass a <> k) ->
  exists r, find_arm (encode arms) k (zrange (zlen l1) (zlen arms)) = Some r /\
    match r with
    | Some i => exists n a, i = Z.of_nat n /\ arms !! n = Some a /\ arm_klass a = k
    | None => forall a, a ∈ arms -> arm_klass a <> k
    end.
Proof.
  intros H. intros l1 l2. revert l1. induction l2 as [|a l2 IH]; intros l1 He Hl1.
  - rewrite zrange_nil by (rewrite He, app_nil_r; lia). exists None. split; [done|]. by rewrite He, app_nil_r.
  - assert (Ha : arms !! length l1 = Some a) by (rewrite He; by apply list_lookup_middle).
    rewrite zrange_cons by (rewrite He; unfold zlen; rewrite length_app; cbn; lia). cbn [find_arm].
    destruct (encode_lookup arms _ a H Ha) as (Hz & _). change (Z.of_nat (length l1)) with (zlen l1) in Hz. rewrite Hz. cbn [mbind option_bind is_klass].
    destruct (Z.eqb_spec (arm_klass a) k) as [Hk|Hk].
    + exists (Some (zlen l1)). split; [done|]. by exists (length l1), a.
    + destruct (IH (l1 ++ [a])) as (r & Hr & Hres).
      * by rewrite <- app_assoc.
      * intros x [Hx|Hx%list_elem_of_singleton]%elem_of_app; [by apply Hl1|by subst].
      * exists r. split; [|done]. rewrite <- Hr. by rewrite zlen_snoc.
Qed.

(** ** The words of one site *)
Definition meta_of (a e : Z) : Z := Z.lor (Z.shiftl a IC_META_ARGC_SHIFT) (Z.shiftl e IC_META_EPOCH_SHIFT).

Record words (ics : ics_array) (base sel a e : Z) (g t : oop) : Prop := {
  word_sel : zlookup ics (base + IC_SEL_OFFSET) = Some (OSymbol sel);
  word_meta : zlookup ics (base + IC_META_OFFSET) = Some (OSmi (meta_of a e));
  word_guard : zlookup ics (base + IC_GUARD_OFFSET) = Some g;
  word_target : zlookup ics (base + IC_TARGET_OFFSET) = Some t;
  word_argc : inU 8 a;
  word_epoch : inU 24 e }.

(** No word but the site's three mutable ones differs. *)
Definition only_site (ics ics' : ics_array) (base : Z) : Prop :=
  forall i, ~ (base + IC_META_OFFSET <= i <= base + IC_TARGET_OFFSET) -> zlookup ics' i = zlookup ics i.

Lemma only_site_trans i1 i2 i3 b : only_site i1 i2 b -> only_site i2 i3 b -> only_site i1 i3 b.
Proof. intros H1 H2 i Hi. rewrite H2 by done. by apply H1. Qed.

Lemma meta_argc a e : inU 8 a -> inU 24 e ->
  Z.shiftr (Z.land (meta_of a e) IC_META_ARGC_MASK) IC_META_ARGC_SHIFT mod 2 ^ 8 = a.
Proof.
  intros Ha He. change (Z.shiftr (Z.land (meta_of a e) IC_META_ARGC_MASK) IC_META_ARGC_SHIFT) with (fget 0 8 (meta_of a e)).
  unfold meta_of. rewrite fget_lor by lia. change IC_META_ARGC_SHIFT with 0. change IC_META_EPOCH_SHIFT with 8.
  rewrite fget_shiftl_same, (fget_shiftl_other 0 8 8 24), Z.lor_0_r by (done || lia). by apply Z.mod_small.
Qed.

Lemma meta_epoch a e : inU 8 a -> inU 24 e ->
  Z.shiftr (Z.land (meta_of a e) IC_META_EPOCH_MASK) IC_META_EPOCH_SHIFT mod 2 ^ 32 = e.
Proof.
  intros Ha He. change (Z.shiftr (Z.land (meta_of a e) IC_META_EPOCH_MASK) IC_META_EPOCH_SHIFT) with (fget 8 24 (meta_of a e)).
  unfold meta_of. rewrite fget_lor by lia. change IC_META_ARGC_SHIFT with 0. change IC_META_EPOCH_SHIFT with 8.
  rewrite (fget_shiftl_other 8 24 0 8), fget_shiftl_same, Z.lor_0_l by (done || lia).
  apply Z.mod_small. unfold inU in He. lia.
Qed.

Lemma words_argc ics b s a e g t : words ics b s a e g t -> argc ics b = Some a.
Proof.
  intros []. unfold argc, meta. rewrite word_meta0. cbn [mbind option_bind as_smi]. by rewrite meta_argc.
Qed.
Lemma words_epoch ics b s a e g t : words ics b s a e g t -> epoch ics b = Some e.
Proof.
  intros []. unfold epoch, meta. rewrite word_meta0. cbn [mbind option_bind as_smi]. by rewrite meta_epoch.
Qed.
Lemma words_selector ics b s a e g t : words ics b s a e g t -> selector ics b = Some s.
Proof. intros []. unfold selector. by rewrite word_sel0. Qed.

Lemma words_zset ics b s a e g t i o : words ics b s a e g t -> b + IC_META_OFFSET <= i <= b + IC_TARGET_OFFSET ->
  exists ics', zset ics i o = Some ics' /\ only_site ics ics' b /\
    (forall j, zlookup ics' j = if decide (i = j) then Some o else zlookup ics j).
Proof.
  intros [] Hi. apply zlookup_lt in word_sel0, word_target0.
  unfold IC_SEL_OFFSET, IC_TARGET_OFFSET, IC_META_OFFSET in *.
  assert (zset ics i o = Some (zinsert ics i o)) as Hz by (apply zset_ok; lia).
  exists (zinsert ics i o). split; [done|]. pose proof (fun j => zlookup_zset _ _ _ _ j Hz) as Hj. split; [|done].
  intros j Hne. rewrite Hj. by destruct (decide (i = j)) as [->|].
Qed.

Ltac offsets := unfold IC_SEL_OFFSET, IC_META_OFFSET, IC_GUARD_OFFSET, IC_TARGET_OFFSET in *.

Lemma set_target ics b s a e g t t' : words ics b s a e g t ->
  exists ics', zset ics (b + IC_TARGET_OFFSET) t' = Some ics' /\ words ics' b s a e g t' /\ only_site ics ics' b.
Proof.
  intros H. destruct (words_zset ics b s a e g t (b + IC_TARGET_OFFSET) t' H ltac:(offsets; lia)) as (ics' & H1 & H2 & H3).
  exists ics'. split_and!; [done| |done]. destruct H.
  split; [..|done|done]; rewrite H3; offsets; destruct (decide _); by (lia || done).
Qed.

Lemma set_words_ok ics b s a e g t g' t' : words ics b s a e g t ->
  exists ics', set_words ics b g' t' = Some ics' /\ words ics' b s a e g' t' /\ only_site ics ics' b.
Proof.
  intros H. destruct (words_zset ics b s a e g t (b + IC_GUARD_OFFSET) g' H ltac:(offsets; lia)) as (i1 & H1 & H2 & H3).
  assert (Hw : words i1 b s a e g' t).
  { destruct H. split; [..|done|done]; rewrite H3; offsets; destruct (decide _); by (lia || done). }
  destruct (set_target i1 b s a e g' t t' Hw) as (i2 & H4 & H5 & H6).
  exists i2. unfold set_words. rewrite H1. split_and!; [done|done|by eapply only_site_trans].
Qed.

Lemma set_meta_ok ics b s a e g t e' : words ics b s a e g t -> inU 24 e' ->
  exists ics', set_meta ics b e' = Some ics' /\ words ics' b s a e' g t /\ only_site ics ics' b.
Proof.
  intros H He'. unfold set_meta. rewrite (words_argc _ _ _ _ _ _ _ H). cbn [mbind option_bind]. fold (meta_of a e').
  destruct (words_zset ics b s a e g t (b + IC_META_OFFSET) (OSmi (meta_of a e')) H ltac:(offsets; lia)) as (i1 & H1 & H2 & H3).
  exists i1. split_and!; [done| |done]. destruct H.
  split; [..|done|done]; rewrite H3; offsets; destruct (decide _); by (lia || done).
Qed.

(** The setters that stamp the epoch. *)
Lemma stamp_ok ics b s a e g t g' t' e' : words ics b s a e g t -> inU 24 e' ->
  exists ics', (ics ← set_words ics b g' t'; set_meta ics b e') = Some ics' /\
    words ics' b s a e' g' t' /\ only_site ics ics' b.
Proof.
  intros H He'. destruct (set_words_ok _ _ _ _ _ _ _ g' t' H) as (i1 & -> & H2 & H3). cbn [mbind option_bind].
  destruct (set_meta_ok _ _ _ _ _ _ _ e' H2 He') as (i2 & -> & H4 & H5). exists i2. split_and!; [done|done|by eapply only_site_trans].
Qed.

(** ** What a site promises *)
(** The lookup of a site without caches. *)
Definition site_lookup (w : world) (caller sel : Z) (is_super : bool) (k : Z) : option (option Z) :=
  if is_super then
    M ← code w !! caller;
    h ← as_klass (holder M);
    H ← klasses w !! h;
    match as_klass (superclass H) with
    | None => Some None
    | Some super_klass => lookup_uncached mark_of w super_klass sel
    end
  else lookup_uncached mark_of w k sel.

Definition known (w : world) (k : Z) : Prop := is_Some (klasses w !! k).
(** A method with super sends has been installed. *)
Definition caller_ok (w : world) (caller : Z) (is_super : bool) : Prop := is_super = true ->
  exists M h, code w !! caller = Some M /\ holder M = OKlass h /\ known w h.

(** Lookups move entries of the cache and nothing else. *)
Record after (vm vm' : vm_state) : Prop := {
  after_ok : vm_ok mark_of vm';
  after_world : the_world vm' = the_world vm;
  after_epoch : ic_epoch vm' = ic_epoch vm;
  after_table : table vm' = table vm }.

Lemma vm_after_trans vm1 vm2 vm3 : after vm1 vm2 -> after vm2 vm3 -> after vm1 vm3.
Proof. intros [] []. split; congruence. Qed.
Lemma vm_after_refl vm : vm_ok mark_of vm -> after vm vm.
Proof. by split. Qed.

Lemma lookup_after vm k sel {Hsel : MethodDict.hashed mark_of sel} : vm_ok mark_of vm -> known (the_world vm) k ->
  exists r vm', lookup mark_of vm k sel = Some (r, vm') /\ lookup_uncached mark_of (the_world vm) k sel = Some r /\ after vm vm'.
Proof.
  intros Hvm [K HK]. destruct (lookup_ok mark_of vm k K sel Hvm HK) as (r & vm' & Hl & Hd & H1 & H2 & H3 & H4).
  destruct (lookup_uncached_ok mark_of _ _ _ sel (vm_wf _ _ Hvm) HK) as (r' & Hr' & Hd').
  pose proof (dispatches_det _ _ _ _ _ _ Hd Hd') as <-. by exists r, vm'.
Qed.

Lemma resolve_ok vm caller sel is_super k {Hsel : MethodDict.hashed mark_of sel} : vm_ok mark_of vm -> caller_ok (the_world vm) caller is_super ->
  known (the_world vm) k ->
  exists r vm', resolve vm caller sel is_super k = Some (r, vm') /\
    site_lookup (the_world vm) caller sel is_super k = Some r /\ after vm vm'.
Proof.
  intros Hvm Hc Hk. unfold resolve, site_lookup. destruct is_super; [|by apply lookup_after].
  destruct (Hc eq_refl) as (M & h & -> & Hh & [H HH]). cbn [mbind option_bind]. rewrite Hh. cbn [as_klass mbind option_bind].
  rewrite HH. cbn [mbind option_bind]. destruct (as_klass (superclass H)) as [s|] eqn:Hs; [|by exists None, vm; auto using vm_after_refl].
  apply lookup_after; [done|done|]. destruct (wf_chain _ _ (vm_wf _ _ Hvm) _ _ HH) as [ks Hch].
  inversion Hch as [? K' HK' Hr|? K' s' ks' HK' Hr Hch']; subst; assert (K' = H) as -> by congruence;
    rewrite Hr in Hs; [done|]. injection Hs as <-. destruct (chain_head _ _ _ Hch') as [ks2 ->].
  eapply chain_dom; [exact Hch'|left].
Qed.

(** The arms of a polymorphic site; those of a current site are right. *)
Definition arms_ok (w : world) (caller sel : Z) (is_super : bool) (fresh : Prop) (arms : list arm) : Prop :=
  (0 < length arms <= 4)%nat /\ forall a, a ∈ arms -> known w (arm_klass a) /\
    (fresh -> site_lookup w caller sel is_super (arm_klass a) = Some (Some (arm_method a))).

(** Guard and target; [fresh]: stamped with the current epoch.  Only a site that
    is not a super site has a compiled target here; [super_site_enters_override]
    says what becomes of the other ones. *)
Inductive shape (w : world) (caller sel : Z) (is_super : bool) (fresh : Prop) : oop -> oop -> Prop :=
  | shape_empty : shape w caller sel is_super fresh ONil ONil
  | shape_mono k m : known w k -> (fresh -> site_lookup w caller sel is_super k = Some (Some m)) ->
      shape w caller sel is_super fresh (OKlass k) (OMethod m)
  | shape_compiled k i m : is_super = false -> known w k -> site_lookup w caller sel is_super k = Some (Some m) ->
      shape w caller sel is_super fresh (OKlass k) (OSmi i)
  | shape_poly arms : arms_ok w caller sel is_super fresh arms ->
      shape w caller sel is_super fresh (OSmi IC_GUARD_POLY) (OArray (encode arms))
  | shape_mega : shape w caller sel is_super fresh (OSmi IC_GUARD_MEGA) ONil.

Definition site (vm : vm_state) (caller : Z) (ics : ics_array) (base sel a : Z) (is_super : bool) : Prop :=
  exists e g t, words ics base sel a e g t /\ e <= ic_epoch vm /\
    shape (the_world vm) caller sel is_super (e = ic_epoch vm) g t.

(** A transition's result: the site's lookup, and the site again. *)
Definition outcome (vm : vm_state) (caller : Z) (ics : ics_array) (base sel a : Z) (is_super : bool) (k : Z)
    (o : option (option Z * vm_state * ics_array)) : Prop :=
  exists r vm' ics', o = Some (r, vm', ics') /\ site_lookup (the_world vm) caller sel is_super k = Some r /\
    after vm vm' /\ only_site ics ics' base /\ site vm' caller ics' base sel a is_super.

Lemma stamp_site vm vm' caller ics base sel a e g t is_super g' t' : words ics base sel a e g t -> after vm vm' ->
  inU 24 (ic_epoch vm) -> shape (the_world vm) caller sel is_super True g' t' ->
  exists ics', (ics ← set_words ics base g' t'; set_meta ics base (ic_epoch vm')) = Some ics' /\
    only_site ics ics' base /\ site vm' caller ics' base sel a is_super.
Proof.
  intros Hw Ha He Hs. rewrite (after_epoch _ _ Ha).
  destruct (stamp_ok _ _ _ _ _ _ _ g' t' _ Hw He) as (ics' & H1 & H2 & H3). exists ics'. split_and!; [done|done|].
  exists (ic_epoch vm), g', t'. rewrite (after_epoch _ _ Ha), (after_world _ _ Ha). split_and!; [done|lia|].
  inversion Hs as [|k m ? Hf|k i m ? ? Hf|arms [Hl Hf]|]; subst; [apply shape_empty|apply shape_mono; auto
    |by eapply shape_compiled|apply shape_poly; split; [done|]|apply shape_mega].
  intros x Hx. destruct (Hf x Hx). auto.
Qed.

Lemma keep_site vm vm' caller ics base sel a is_super : after vm vm' -> site vm caller ics base sel a is_super ->
  site vm' caller ics base sel a is_super.
Proof. intros Ha (e & g & t & H). exists e, g, t. by rewrite (after_epoch _ _ Ha), (after_world _ _ Ha). Qed.

Section rows.
Context (vm : vm_state) (caller : Z) (is_super : bool).
Hypotheses (Hvm : vm_ok mark_of vm) (Hcaller : caller_ok (the_world vm) caller is_super) (Hep : inU 24 (ic_epoch vm)).
Context (ics : ics_array) (base sel a e : Z) {Hsel : MethodDict.hashed mark_of sel}.

Lemma fill_empty_ok vm0 t k : words ics base sel a e ONil t -> after vm0 vm -> e <= ic_epoch vm -> t = ONil ->
  known (the_world vm) k -> outcome vm0 caller ics base sel a is_super k (fill_empty vm caller ics base sel is_super k).
Proof.
  intros Hw Ha He -> Hk. unfold fill_empty.
  destruct (resolve_ok vm caller sel is_super k Hvm Hcaller Hk) as (r & vm' & -> & Hr & Ha'). cbn [mbind option_bind].
  destruct r as [m|].
  - destruct (stamp_site vm vm' caller ics base sel a e _ _ is_super (OKlass k) (OMethod m) Hw Ha' Hep) as (i' & H1 & H2 & H3);
      [by apply shape_mono|].
    unfold set_mono. rewrite H1. cbn [mbind option_bind]. exists (Some m), vm', i'. rewrite <- (after_world _ _ Ha).
    split_and!; [done|done|by eapply vm_after_trans|done|done].
  - exists None, vm', ics. rewrite <- (after_world _ _ Ha). split_and!; [done|done|by eapply vm_after_trans|done|].
    eapply keep_site; [exact Ha'|]. exists e, ONil, ONil. split_and!; [done|done|apply shape_empty].
Qed.

Lemma heal_mono_ok g t k : words ics base sel a e g t -> e <= ic_epoch vm -> known (the_world vm) k ->
  outcome vm caller ics base sel a is_super k (heal_mono vm caller ics base sel is_super k).
Proof.
  intros Hw He Hk. unfold heal_mono.
  destruct (resolve_ok vm caller sel is_super k Hvm Hcaller Hk) as (r & vm' & -> & Hr & Ha'). cbn [mbind option_bind].
  destruct r as [m|].
  - destruct (stamp_site vm vm' caller ics base sel a e _ _ is_super (OKlass k) (OMethod m) Hw Ha' Hep) as (i' & H1 & H2 & H3);
      [by apply shape_mono|].
    unfold set_mono. rewrite H1. cbn [mbind option_bind]. exists (Some m), vm', i'. by split_and!.
  - destruct (set_words_ok _ _ _ _ _ _ _ ONil ONil Hw) as (i' & H1 & H2 & H3). unfold set_empty. rewrite H1.
    exists None, vm', i'. split_and!; [done..|]. eapply keep_site; [exact Ha'|]. exists e, ONil, ONil.
    split_and!; [done|done|apply shape_empty].
Qed.

Lemma mono_to_poly_ok g t k0 k : words ics base sel a e g t -> e <= ic_epoch vm ->
  shape (the_world vm) caller sel is_super (e = ic_epoch vm) (OKlass k0) t ->
  (forall m0, t = OMethod m0 -> e = ic_epoch vm) -> g = OKlass k0 -> known (the_world vm) k ->
  outcome vm caller ics base sel a is_super k (mono_to_poly vm caller ics base sel is_super k0 k).
Proof.
  intros Hw He Hs Hfresh -> Hk. unfold mono_to_poly.
  destruct (resolve_ok vm caller sel is_super k Hvm Hcaller Hk) as (r & vm' & -> & Hr & Ha). cbn [mbind option_bind].
  destruct r as [m|].
  2:{ exists None, vm', ics. split_and!; [done..|]. eapply keep_site; [exact Ha|]. by exists e, (OKlass k0), t. }
  unfold target. rewrite (word_target _ _ _ _ _ _ _ Hw). cbn [mbind option_bind].
  assert (exists m0 vm2, match as_method t with Some m0 => Some (m0, vm')
            | None => '(r0, vm) ← resolve vm' caller sel is_super k0; m0 ← r0; Some (m0, vm) end = Some (m0, vm2) /\
            after vm vm2 /\ known (the_world vm) k0 /\
            site_lookup (the_world vm) caller sel is_super k0 = Some (Some m0)) as (m0 & vm2 & -> & Ha2 & Hk0 & Hr0).
  { inversion Hs as [|? m0 Hk0 Hm0|? i m0 Hsup Hk0 Hm0| |]; subst; cbn [as_method].
    - exists m0, vm'. split_and!; [done|done|done|]. apply Hm0. by eapply Hfresh.
    - destruct (resolve_ok vm' caller sel false k0) as (r0 & vm2 & -> & Hr0 & Ha2);
        [apply Ha|by rewrite (after_world _ _ Ha)|by rewrite (after_world _ _ Ha)|].
      rewrite (after_world _ _ Ha), Hm0 in Hr0. injection Hr0 as <-. cbn [mbind option_bind].
      exists m0, vm2. split_and!; [done|by eapply vm_after_trans|done|done]. }
  cbn [mbind option_bind]. set (arms := [(k0, m0, ONil); (k, m, OSmi 1)]).
  destruct (stamp_site vm vm2 caller ics base sel a e _ _ is_super (OSmi IC_GUARD_POLY) (OArray (encode arms)) Hw Ha2 Hep)
    as (i' & H1 & H2 & H3).
  { apply shape_poly. split; [cbn; lia|]. intros x [->|[->|?%elem_of_nil]%elem_of_cons]%elem_of_cons; [by split|by split|done]. }
  exists (Some m), vm2, i'. split_and!; [|done..]. unfold set_poly. change (encode arms) with
    [OKlass k0; OMethod m0; OKlass k; OMethod m; ONil; ONil; ONil; ONil; ONil; OSmi 1; ONil; ONil] in H1.
  etransitivity; [|exact (f_equal (fun o => mbind (M:=option) (fun i => Some (Some m, vm2, i)) o) H1)]. reflexivity.
Qed.

Lemma poly_dispatch_ok vm0 t arms k : after vm0 vm -> t = OArray (encode arms) ->
  words ics base sel a (ic_epoch vm) (OSmi IC_GUARD_POLY) t ->
  arms_ok (the_world vm) caller sel is_super True arms -> known (the_world vm) k ->
  outcome vm0 caller ics base sel a is_super k (poly_dispatch vm caller ics base sel is_super (encode arms) k).
Proof.
  intros Ha -> Hw [Hl Harms] Hk. unfold poly_dispatch. rewrite poly_arity_encode by lia. cbn [mbind option_bind].
  destruct (find_arm_from arms k ltac:(lia) [] arms eq_refl) as (hit & Hhit & Hres); [by intros x ?%elem_of_nil|].
  change (zlen (@nil arm)) with 0 in Hhit. rewrite Hhit. cbn [mbind option_bind]. destruct hit as [i|].
  - destruct Hres as (n & x & -> & Hx & <-). destruct (encode_bump arms n x ltac:(lia) Hx) as (c & ->). cbn [mbind option_bind].
    set (arms' := <[n := _]> arms). destruct (set_target ics base sel a _ _ _ (OArray (encode arms')) Hw) as (i' & -> & Hw' & Ho).
    cbn [mbind option_bind]. pose proof (lookup_lt_Some _ _ _ Hx) as Hn.
    assert (Hl' : (0 < length arms' <= 4)%nat) by (unfold arms'; by rewrite length_insert).
    assert (Hx' : arms' !! n = Some (arm_klass x, arm_method x, c)) by (unfold arms'; by apply list_lookup_insert_eq).
    destruct (encode_lookup arms' n _ ltac:(lia) Hx') as (_ & -> & _). cbn [mbind option_bind as_method].
    destruct (Harms x) as [Hkx Hmx]; [by eapply list_elem_of_lookup_2|].
    exists (Some (arm_method x)), vm, i'. split_and!; [done|rewrite <- (after_world _ _ Ha); by apply Hmx|done|done|].
    eexists (ic_epoch vm), _, _. split_and!; [exact Hw'|lia|]. apply shape_poly. split; [done|].
    intros y [j Hy]%list_elem_of_lookup_1. destruct (decide (j = n)) as [->|Hne].
    + pose proof (eq_trans (eq_sym Hx') Hy) as Heq. injection Heq as <-. split; [done|]. intros _. by apply Hmx.
    + unfold arms' in Hy. rewrite list_lookup_insert_ne in Hy by done.
      destruct (Harms y) as [H1 H2]; [by eapply list_elem_of_lookup_2|]. split; [done|]. intros _. by apply H2.
  - destruct (resolve_ok vm caller sel is_super k Hvm Hcaller Hk) as (r & vm' & -> & Hr & Ha'). cbn [mbind option_bind].
    destruct r as [m|].
    2:{ exists None, vm', ics. rewrite <- (after_world _ _ Ha). split_and!; [done|done|by eapply vm_after_trans|done|].
        eapply keep_site; [exact Ha'|]. eexists (ic_epoch vm), _, _. split_and!; [exact Hw|lia|].
        apply shape_poly. split; [done|]. intros x Hx. destruct (Harms x Hx). auto. }
    unfold IC_POLY_MAX_PAIRS at 1. destruct (Z.ltb_spec (zlen arms) 4) as [Hlt|Hge].
    + destruct (stamp_site vm vm' caller ics base sel a _ _ _ is_super (OSmi IC_GUARD_POLY)
                  (OArray (encode (arms ++ [(k, m, OSmi 1)]))) Hw Ha' Hep) as (i' & H1 & H2 & H3).
      { apply shape_poly. split; [rewrite length_app; unfold zlen in Hlt; cbn; lia|].
        intros x [Hx| ->%list_elem_of_singleton]%elem_of_app; [destruct (Harms x Hx); auto|by split]. }
      exists (Some m), vm', i'. rewrite <- (after_world _ _ Ha). split_and!; [|done|by eapply vm_after_trans|done|done].
      assert (Hfin : (pairs ← zset (encode arms) (2 * zlen arms) (OKlass k); pairs ← zset pairs (2 * zlen arms + 1) (OMethod m);
         zset pairs (2 * IC_POLY_MAX_PAIRS + zlen arms) (OSmi 1)) = Some (encode (arms ++ [(k, m, OSmi 1)]))) by
        (apply encode_snoc; unfold zlen in Hlt; lia).
      unfold set_poly. destruct (zset (encode arms) _ _) as [p1|]; [|done]. cbn [mbind option_bind] in Hfin |- *.
      destruct (zset p1 _ _) as [p2|]; [|done]. cbn [mbind option_bind] in Hfin |- *. rewrite Hfin. cbn [mbind option_bind].
      by rewrite H1.
    + destruct (set_words_ok _ _ _ _ _ _ _ (OSmi IC_GUARD_MEGA) ONil Hw) as (i' & H1 & H2 & H3). unfold set_mega. rewrite H1.
      exists (Some m), vm', i'. rewrite <- (after_world _ _ Ha). split_and!; [done|done|by eapply vm_after_trans|done|].
      eapply keep_site; [exact Ha'|]. eexists (ic_epoch vm), _, _. split_and!; [exact H2|lia|apply shape_mega].
Qed.
End rows.

(** The kept arms are right; nothing else is claimed of a reverified site. *)
Definition kept_ok (w : world) (caller sel : Z) (is_super : bool) (kept : list (Z * Z * Z)) : Prop :=
  forall x, x ∈ kept -> known w x.1.1 /\ site_lookup w caller sel is_super x.1.1 = Some (Some x.1.2).

Lemma kept_from_ok caller sel is_super arms {Hsel : MethodDict.hashed mark_of sel} : (length arms <= 4)%nat -> forall l2 l1 vm, arms = l1 ++ l2 ->
  vm_ok mark_of vm -> caller_ok (the_world vm) caller is_super -> (forall x, x ∈ arms -> known (the_world vm) (arm_klass x)) ->
  exists kept vm', kept_from vm caller sel is_super (encode arms) (zrange (zlen l1) (zlen arms)) = Some (map kept_arm kept, vm') /\
    after vm vm' /\ (length kept <= length l2)%nat /\ kept_ok (the_world vm) caller sel is_super kept.
Proof.
  intros H. induction l2 as [|x l2 IH]; intros l1 vm He Hvm Hc Hk.
  - rewrite zrange_nil by (rewrite He, app_nil_r; lia). exists [], vm.
    split_and!; [done|by apply vm_after_refl|done|by intros y ?%elem_of_nil].
  - assert (Hx : arms !! length l1 = Some x) by (rewrite He; by apply list_lookup_middle).
    rewrite zrange_cons by (rewrite He; unfold zlen; rewrite length_app; cbn; lia). cbn [kept_from].
    destruct (encode_lookup arms _ x H Hx) as (Hz & _ & Hcn). change (Z.of_nat (length l1)) with (zlen l1) in Hz, Hcn.
    rewrite Hz. cbn [mbind option_bind as_klass]. assert (Hkx : known (the_world vm) (arm_klass x)) by (apply Hk; by eapply list_elem_of_lookup_2).
    destruct (resolve_ok vm caller sel is_super (arm_klass x) Hvm Hc Hkx) as (r & vm1 & -> & Hr & Ha). cbn [mbind option_bind].
    rewrite Hcn. cbn [mbind option_bind]. rewrite <- zlen_snoc with (x := x).
    destruct (IH (l1 ++ [x]) vm1) as (kept & vm2 & -> & Ha2 & Hlen & Hok); rewrite ?(after_world _ _ Ha);
      [by rewrite <- app_assoc|apply Ha|done|done|]. cbn [mbind option_bind]. rewrite (after_world _ _ Ha) in Hok.
    destruct r as [m|].
    + exists ((arm_klass x, m, count_of x) :: kept), vm2. split_and!; [done|by eapply vm_after_trans|cbn; lia|].
      intros y [->|Hy]%elem_of_cons; [by split|by apply Hok].
    + exists kept, vm2. split_and!; [done|by eapply vm_after_trans|cbn; lia|done].
Qed.

Lemma reverify_ok vm caller sel is_super arms {Hsel : MethodDict.hashed mark_of sel} : (length arms <= 4)%nat -> vm_ok mark_of vm ->
  caller_ok (the_world vm) caller is_super -> (forall x, x ∈ arms -> known (the_world vm) (arm_klass x)) ->
  exists arms' vm', reverify_poly vm caller sel is_super (encode arms) = Some (encode arms', vm') /\ after vm vm' /\
    (length arms' <= 4)%nat /\ forall x, x ∈ arms' -> known (the_world vm) (arm_klass x) /\
      site_lookup (the_world vm) caller sel is_super (arm_klass x) = Some (Some (arm_method x)).
Proof.
  intros H Hvm Hc Hk. unfold reverify_poly. rewrite poly_arity_encode by done. cbn [mbind option_bind].
  destruct (kept_from_ok caller sel is_super arms H arms [] vm eq_refl Hvm Hc Hk) as (kept & vm' & Hkept & Ha & Hlen & Hok).
  change (zlen (@nil arm)) with 0 in Hkept. rewrite Hkept. cbn [mbind option_bind].
  rewrite write_kept_encode by (by apply encode_length || lia). exists (map arm_of kept), vm'.
  split_and!; [done|done|rewrite length_map; lia|]. intros x (y & -> & Hy)%list_elem_of_fmap. by apply Hok.
Qed.

Section whole.
Context (vm : vm_state) (caller : Z) (is_super : bool).
Hypotheses (Hvm : vm_ok mark_of vm) (Hcaller : caller_ok (the_world vm) caller is_super) (Hep : inU 24 (ic_epoch vm)).

Lemma poly_transition_ok ics base sel a e t arms k {Hsel : MethodDict.hashed mark_of sel} : t = OArray (encode arms) ->
  words ics base sel a e (OSmi IC_GUARD_POLY) t -> e <= ic_epoch vm ->
  arms_ok (the_world vm) caller sel is_super (e = ic_epoch vm) arms -> known (the_world vm) k ->
  outcome vm caller ics base sel a is_super k (poly_transition vm caller ics base sel is_super k).
Proof.
  intros -> Hw He [Hl Harms] Hk. unfold poly_transition, target. rewrite (word_target _ _ _ _ _ _ _ Hw).
  cbn [mbind option_bind as_array]. rewrite (words_epoch _ _ _ _ _ _ _ Hw). cbn [mbind option_bind].
  destruct (Z.eqb_spec e (ic_epoch vm)) as [->|Hne].
  - eapply poly_dispatch_ok; [done|done|done|done|by apply vm_after_refl|reflexivity|exact Hw| |done].
    split; [done|]. intros x Hx. destruct (Harms x Hx). auto.
  - destruct (reverify_ok vm caller sel is_super arms ltac:(lia) Hvm Hcaller) as (arms' & vm' & -> & Ha & Hl' & Hok).
    { intros x Hx. by destruct (Harms x Hx). }
    assert (Hvm' : vm_ok mark_of vm') by apply Ha. assert (Hep' : inU 24 (ic_epoch vm')) by (by rewrite (after_epoch _ _ Ha)).
    assert (Hc' : caller_ok (the_world vm') caller is_super) by (by rewrite (after_world _ _ Ha)).
    assert (Hk' : known (the_world vm') k) by (by rewrite (after_world _ _ Ha)).
    cbn [mbind option_bind]. rewrite poly_arity_encode by done. cbn [mbind option_bind].
    destruct (Z.eqb_spec (zlen arms') 0) as [Hz|Hz].
    + destruct (set_words_ok _ _ _ _ _ _ _ ONil ONil Hw) as (i1 & H1 & H2 & H3). unfold set_empty. rewrite H1. cbn [mbind option_bind].
      destruct (fill_empty_ok vm' caller is_super Hvm' Hc' Hep' i1 base sel a e vm ONil k H2 Ha ltac:(rewrite (after_epoch _ _ Ha); lia) eq_refl Hk')
        as (r & vm2 & i2 & G1 & G2 & G3 & G4 & G5).
      exists r, vm2, i2. split_and!; [done..|by eapply only_site_trans|done].
    + destruct (stamp_ok _ _ _ _ _ _ _ (OSmi IC_GUARD_POLY) (OArray (encode arms')) (ic_epoch vm') Hw Hep') as (i1 & H1 & H2 & H3).
      unfold set_poly. rewrite H1. cbn [mbind option_bind].
      destruct (poly_dispatch_ok vm' caller is_super Hvm' Hc' Hep' i1 base sel a vm _ arms' k Ha eq_refl H2) as (r & vm2 & i2 & G1 & G2 & G3 & G4 & G5).
      { split; [unfold zlen in Hz; lia|]. intros x Hx. rewrite (after_world _ _ Ha). destruct (Hok x Hx). auto. }
      { done. }
      exists r, vm2, i2. split_and!; [done..|by eapply only_site_trans|done].
Qed.

(** The one state the transitions mishandle: a mono site whose interpreted
    target may be out of date meets a second class. *)
Definition no_skew (ics : ics_array) (base k : Z) : Prop := forall k0 m0,
  guard ics base = Some (OKlass k0) -> target ics base = Some (OMethod m0) -> k0 <> k -> epoch ics base = Some (ic_epoch vm).

Lemma ic_transition_ok ics ic_idx sel a k {Hsel : MethodDict.hashed mark_of sel} : site vm caller ics (base_of ic_idx) sel a is_super -> known (the_world vm) k ->
  no_skew ics (base_of ic_idx) k ->
  outcome vm caller ics (base_of ic_idx) sel a is_super k (ic_transition vm caller ics ic_idx k is_super).
Proof.
  intros (e & g & t & Hw & He & Hs) Hk Hns. unfold ic_transition. set (base := base_of ic_idx) in *.
  rewrite (words_selector _ _ _ _ _ _ _ Hw). cbn [mbind option_bind]. unfold guard at 1. rewrite (word_guard _ _ _ _ _ _ _ Hw).
  cbn [mbind option_bind].
  assert (Hmono : forall k0, g = OKlass k0 -> outcome vm caller ics base sel a is_super k
     (if k0 =? k then heal_mono vm caller ics base sel is_super k0 else mono_to_poly vm caller ics base sel is_super k0 k)).
  { intros k0 ->. destruct (Z.eqb_spec k0 k) as [->|Hne]; [by eapply heal_mono_ok|].
    eapply mono_to_poly_ok; try done. intros m0 ->. specialize (Hns k0 m0 (word_guard _ _ _ _ _ _ _ Hw) (word_target _ _ _ _ _ _ _ Hw) Hne).
    rewrite (words_epoch _ _ _ _ _ _ _ Hw) in Hns. congruence. }
  inversion Hs as [|k0 m0 ? ?|k0 i m0 ? ? ?|arms Harms|]; subst; cbn [is_nil as_klass as_smi].
  - by eapply fill_empty_ok.
  - by apply Hmono.
  - by apply Hmono.
  - by eapply poly_transition_ok.
  - change (IC_GUARD_MEGA =? IC_GUARD_POLY) with false. change (IC_GUARD_MEGA =? IC_GUARD_MEGA) with true. cbn [mbind option_bind].
    destruct (resolve_ok vm caller sel is_super k Hvm Hcaller Hk) as (r & vm' & -> & Hr & Ha). cbn [mbind option_bind].
    exists r, vm', ics. split_and!; [done..|]. eapply keep_site; [exact Ha|]. eexists e, _, _. split_and!; [exact Hw|done|apply shape_mega].
Qed.
End whole.

(** *** The fast path *)
Lemma words_det ics b s a e g t s' a' e' g' t' : words ics b s a e g t -> words ics b s' a' e' g' t' ->
  s = s' /\ a = a' /\ e = e' /\ g = g' /\ t = t'.
Proof.
  intros H H'. pose proof (words_argc _ _ _ _ _ _ _ H) as A. rewrite (words_argc _ _ _ _ _ _ _ H') in A.
  pose proof (words_epoch _ _ _ _ _ _ _ H) as E. rewrite (words_epoch _ _ _ _ _ _ _ H') in E. destruct H, H'. naive_solver.
Qed.

Lemma fast_path_ok vm caller ics base sel a is_super k : site vm caller ics base sel a is_super ->
  exists c, fast_path vm ics base k = Some c /\
    match c with
    | Some (Interpreted m) => site_lookup (the_world vm) caller sel is_super k = Some (Some m)
    | Some (Compiled i) => exists nm, CodeTable.get (table vm) i = Some nm /\ CodeTable.state nm = Alive /\
        CodeTable.key nm = (k, sel) /\ is_super = false /\ exists m, site_lookup (the_world vm) caller sel is_super k = Some (Some m)
    | Some DoesNotUnderstand => False
    | None => forall m, guard ics base = Some (OKlass k) -> target ics base = Some (OMethod m) ->
        epoch ics base <> Some (ic_epoch vm)
    end.
Proof.
  intros (e & g & t & Hw & He & Hs). unfold fast_path, guard, target. rewrite (word_guard _ _ _ _ _ _ _ Hw). cbn [mbind option_bind].
  rewrite (words_epoch _ _ _ _ _ _ _ Hw). cbn [mbind option_bind].
  destruct (is_klass k g && (e =? ic_epoch vm)) eqn:Hfast.
  - apply andb_true_iff in Hfast as [Hg Heq]. apply Z.eqb_eq in Heq as ->. rewrite (word_target _ _ _ _ _ _ _ Hw). cbn [mbind option_bind].
    inversion Hs as [|k0 m0 ? Hf|k0 i m0 Hsup ? Hlk|arms Harms|]; subst; cbn in Hg; try done; apply Z.eqb_eq in Hg as ->; cbn [as_smi as_method mbind option_bind].
    + eexists. split; [reflexivity|]. by apply Hf.
    + rewrite (words_selector _ _ _ _ _ _ _ Hw). cbn [mbind option_bind is_klass].
      destruct (CodeTable.get _ _) as [nm|] eqn:Hnm; [|eexists; split; [reflexivity|]; by intros m _ [= ]].
      destruct (bool_decide_reflect (CodeTable.state nm = Alive)) as [Ha|]; [|eexists; split; [reflexivity|]; by intros m _ [= ]].
      destruct (Z.eqb_spec k (CodeTable.key_klass nm)) as [Hk|]; [|eexists; split; [reflexivity|]; by intros m _ [= ]].
      destruct (Z.eqb_spec (CodeTable.key_selector nm) sel) as [Hsl|]; [|eexists; split; [reflexivity|]; by intros m _ [= ]].
      eexists. split; [reflexivity|]. exists nm. split_and!; [done|done| |done|by exists m0]. unfold CodeTable.key. by rewrite <- Hk, Hsl.
  - exists None. split; [done|]. intros m [= ->] _ [= ->]. cbn in Hfast. by rewrite !Z.eqb_refl in Hfast.
Qed.
End transition.

(** ** Properties *)

(** C4. A send through an inline cache enters what the lookup of the site
    finds.  In every state of a site -- empty, mono interpreted or compiled,
    polymorphic at any arity, megamorphic -- and whatever its epoch, the
    dispatch of a send never panics; an interpreted callee is the method the
    site's lookup answers for the receiver's class (for a super site, the
    lookup from the superclass of the caller's holder); a compiled callee is
    alive and is the compiled form of what the site's lookup finds: the site is
    not a super site, the nmethod's key is the receiver's class and the site's
    selector, and looking that key up, which is the site's lookup, finds a
    method; and the message is not understood only when the lookup finds
    nothing.  The site is again in such a state, its selector, argument count
    and all other words of the array are untouched, and only the lookup cache
    of the machine moves.  The exceptions are [no_skew], that a mono site that
    is out of date must not meet a second class, and that no super site has
    been given a compiled target; the code can make both, and two further
    theorems show what comes of them. *)
Theorem send_dispatch_correct mark_of vm caller ics ic_idx sel a is_super k (Hsel : MethodDict.hashed mark_of sel) (Hvm : vm_ok mark_of vm)
    (Hcaller : caller_ok (the_world vm) caller is_super) (Hep : inU 24 (ic_epoch vm))
    (Hsite : site mark_of vm caller ics (base_of ic_idx) sel a is_super) (Hk : known (the_world vm) k)
    (Hns : no_skew vm ics (base_of ic_idx) k) :
  exists c vm' ics', send_dispatch mark_of vm caller ics a ic_idx k is_super = Some (c, vm', ics') /\
    match c with
    | Interpreted m => site_lookup mark_of (the_world vm) caller sel is_super k = Some (Some m)
    | Compiled i => exists nm m, CodeTable.get (table vm) i = Some nm /\ CodeTable.state nm = Alive /\ CodeTable.key nm = (k, sel) /\
        is_super = false /\ lookup_uncached mark_of (the_world vm) k sel = Some (Some m) /\ site_lookup mark_of (the_world vm) caller sel is_super k = Some (Some m)
    | DoesNotUnderstand => site_lookup mark_of (the_world vm) caller sel is_super k = Some None
    end /\
    after mark_of vm vm' /\ site mark_of vm' caller ics' (base_of ic_idx) sel a is_super /\
    only_site ics ics' (base_of ic_idx).
Proof.
  unfold send_dispatch. pose proof Hsite as (e & g & t & Hw & _). rewrite (words_argc _ _ _ _ _ _ _ Hw). cbn [mbind option_bind].
  rewrite Z.eqb_refl. destruct (fast_path_ok mark_of vm caller ics _ sel a is_super k Hsite) as (c & -> & Hc). cbn [mbind option_bind].
  destruct c as [c|].
  - exists c, vm, ics. split_and!; [done| |by apply vm_after_refl|done|done]. destruct c; try done. destruct Hc as (nm & H1 & H2 & H3 & -> & m & Hm). by exists nm, m.
  - destruct (ic_transition_ok mark_of vm caller is_super Hvm Hcaller Hep ics ic_idx sel a k Hsite Hk Hns)
      as (r & vm' & ics' & -> & Hr & Ha & Ho & Hs'). cbn [mbind option_bind].
    exists (match r with Some m => Interpreted m | None => DoesNotUnderstand end), vm', ics'. split_and!; try done. by destruct r.
Qed.

(** At a site that is not a super site the activation's write keeps the site
    right. *)
Lemma seed_keeps_site mark_of vm caller ics ic_idx sel a k i m : inU 24 (ic_epoch vm) -> vm_ok mark_of vm ->
  site mark_of vm caller ics (base_of ic_idx) sel a false -> known (the_world vm) k ->
  site_lookup mark_of (the_world vm) caller sel false k = Some (Some m) ->
  exists ics', seed vm ics ic_idx k i = Some ics' /\ site mark_of vm caller ics' (base_of ic_idx) sel a false.
Proof.
  intros Hep Hvm (e & g & t & Hw & He & Hs) Hk Hm. set (base := base_of ic_idx) in *.
  assert (exists b, seed_ok ics ic_idx k = Some b) as [b Hb].
  { unfold seed_ok, ic_state, guard, target. fold base. rewrite (word_guard _ _ _ _ _ _ _ Hw), (word_target _ _ _ _ _ _ _ Hw).
    inversion Hs as [| | |arms [Hl _] |]; subst; cbn [mbind option_bind as_smi as_klass]; try by eexists.
    change (IC_GUARD_POLY =? IC_GUARD_MEGA) with false. change (IC_GUARD_POLY =? IC_GUARD_POLY) with true.
    cbn [as_array mbind option_bind]. rewrite poly_arity_encode by lia. by eexists. }
  unfold seed. rewrite Hb. destruct b; [|exists ics; split; [done|by exists e, g, t]].
  destruct (stamp_site mark_of vm vm caller ics base sel a e _ _ false (OKlass k) (OSmi i) Hw) as (ics' & H1 & _ & H3);
    [by apply vm_after_refl|done|by eapply shape_compiled|]. by exists ics'.
Qed.

(** C37. The interpreter makes a super send enter the override that it is meant
    to skip.  A super send through an empty site finds the ancestor's method.
    When that method is over its threshold and an alive nmethod has the
    receiver's class and the selector for its key -- the compiled form of what
    the class itself binds, not of what the super send found -- [existing],
    what [activate_method] takes and enters is that nmethod; and [seed], its
    write to the site, puts it into the super site, from where the next send
    to that class enters it at once. *)
Theorem super_site_enters_override mark_of vm caller ics ic_idx sel a e k m id nm (Hsel : MethodDict.hashed mark_of sel) (Hvm : vm_ok mark_of vm)
    (Hcaller : caller_ok (the_world vm) caller true) (Hep : inU 24 (ic_epoch vm)) (He : e <= ic_epoch vm) (Hk : known (the_world vm) k)
    (Hw : words ics (base_of ic_idx) sel a e ONil ONil) (Hm : site_lookup mark_of (the_world vm) caller sel true k = Some (Some m))
    (Hid : CodeTable.lookup (table vm) k sel = Some id) (Hnm : CodeTable.get (table vm) id = Some nm)
    (Hwarm : CodeTable.is_half_warm_osr nm = false) (Hi32 : inU 32 id) :
  CodeTable.state nm = Alive /\ CodeTable.key nm = (k, sel) /\
  exists vm' ics' ics'', send_dispatch mark_of vm caller ics a ic_idx k true = Some (Interpreted m, vm', ics') /\
    the_world vm' = the_world vm /\ existing (table vm') k sel = Some id /\ seed vm' ics' ic_idx k id = Some ics'' /\
    send_dispatch mark_of vm' caller ics'' a ic_idx k true = Some (Compiled id, vm', ics'').
Proof.
  set (base := base_of ic_idx) in *. destruct (CodeTable.wf_key _ (vm_table _ _ Hvm) _ _ Hid) as (nm' & Hnm' & Ha & _ & Hkey). rewrite Hnm in Hnm'. injection Hnm' as <-.
  split; [done|]. split; [done|].
  destruct (resolve_ok mark_of vm caller sel true k Hvm Hcaller Hk) as (r & vm' & Hres & Hr & Haf). assert (r = Some m) as -> by congruence.
  destruct (stamp_ok ics base sel a e _ _ (OKlass k) (OMethod m) (ic_epoch vm) Hw Hep) as (i1 & H1 & Hw1 & _).
  destruct (stamp_ok i1 base sel a (ic_epoch vm) _ _ (OKlass k) (OSmi id) (ic_epoch vm) Hw1 Hep) as (i2 & H2 & Hw2 & _).
  pose proof (after_world _ _ _ Haf) as Hwd. pose proof (after_epoch _ _ _ Haf) as Hei. pose proof (after_table _ _ _ Haf) as Htb.
  exists vm', i1, i2. split_and!; [|done| | |].
  - unfold send_dispatch, fast_path, ic_transition. fold base. unfold guard.
    rewrite (words_argc _ _ _ _ _ _ _ Hw), (words_epoch _ _ _ _ _ _ _ Hw), (words_selector _ _ _ _ _ _ _ Hw), (word_guard _ _ _ _ _ _ _ Hw).
    cbn [mbind option_bind is_klass is_nil andb]. rewrite Z.eqb_refl. unfold fill_empty. rewrite Hres. cbn [mbind option_bind].
    unfold set_mono. by rewrite Hei, H1.
  - unfold existing. rewrite Htb, Hid. cbn [mbind option_bind]. rewrite Hnm. cbn [mbind option_bind].
    by rewrite bool_decide_eq_true_2, Hwarm.
  - unfold seed, seed_ok, ic_state, guard. fold base. rewrite (word_guard _ _ _ _ _ _ _ Hw1). cbn [mbind option_bind as_smi as_klass is_klass].
    rewrite Z.eqb_refl, Hei. exact H2.
  - unfold send_dispatch, fast_path, guard, target. fold base.
    rewrite (words_argc _ _ _ _ _ _ _ Hw2), (words_epoch _ _ _ _ _ _ _ Hw2), (words_selector _ _ _ _ _ _ _ Hw2), (word_guard _ _ _ _ _ _ _ Hw2),
      (word_target _ _ _ _ _ _ _ Hw2).
    cbn [mbind option_bind is_klass as_smi]. rewrite !Z.eqb_refl, Hei, Z.eqb_refl. cbn [andb].
    rewrite (Z.mod_small id) by (unfold inU in Hi32; lia). rewrite Htb, Hnm. injection Hkey as -> ->.
    by rewrite bool_decide_eq_true_2, !Z.eqb_refl.
Qed.

(** C36. Rows 5 and 6 keep the first class's target unchecked.  A mono site
    whose interpreted target is [m0] for class [k0] becomes polymorphic when a
    second class [k] arrives; the new pairs carry [m0] and the current epoch
    even when the site's epoch was old, so the next transition for [k0] answers
    [m0] from the pairs, whatever the dictionaries now bind -- and every later
    one does until a method is installed again. *)
Theorem mono_to_poly_keeps_stale_target mark_of vm caller ics ic_idx sel a e k0 m0 k m
    (Hsel : MethodDict.hashed mark_of sel) (Hvm : vm_ok mark_of vm) (Hep : inU 24 (ic_epoch vm)) (Hk : known (the_world vm) k) (Hne : k0 <> k)
    (Hw : words ics (base_of ic_idx) sel a e (OKlass k0) (OMethod m0))
    (Hm : lookup_uncached mark_of (the_world vm) k sel = Some (Some m)) :
  exists vm' ics', ic_transition mark_of vm caller ics ic_idx k false = Some (Some m, vm', ics') /\
    the_world vm' = the_world vm /\ epoch ics' (base_of ic_idx) = Some (ic_epoch vm') /\
    exists ics'', ic_transition mark_of vm' caller ics' ic_idx k0 false = Some (Some m0, vm', ics'').
Proof.
  set (base := base_of ic_idx) in *. destruct (lookup_after mark_of vm k sel Hvm Hk) as (r & vm' & Hl & Hr & Ha).
  assert (r = Some m) as -> by congruence.
  set (arms := [(k0, m0, ONil); (k, m, OSmi 1)] : list arm).
  destruct (stamp_ok ics base sel a e _ _ (OSmi IC_GUARD_POLY) (OArray (encode arms)) (ic_epoch vm') Hw) as (i1 & H1 & H2 & H3);
    [by rewrite (after_epoch _ _ _ Ha)|].
  exists vm', i1. split_and!; [|by apply Ha|by eapply words_epoch|].
  - unfold ic_transition. fold base. rewrite (words_selector _ _ _ _ _ _ _ Hw). cbn [mbind option_bind]. unfold guard.
    rewrite (word_guard _ _ _ _ _ _ _ Hw). cbn [mbind option_bind is_nil as_klass]. rewrite (proj2 (Z.eqb_neq _ _) Hne).
    unfold mono_to_poly, resolve. rewrite Hl. cbn [mbind option_bind]. unfold target. rewrite (word_target _ _ _ _ _ _ _ Hw).
    unfold set_poly. change (encode arms) with
      [OKlass k0; OMethod m0; OKlass k; OMethod m; ONil; ONil; ONil; ONil; ONil; OSmi 1; ONil; ONil] in H1.
    etransitivity; [|exact (f_equal (fun o => mbind (M:=option) (fun i => Some (Some m, vm', i)) o) H1)]. reflexivity.
  - unfold ic_transition. fold base. rewrite (words_selector _ _ _ _ _ _ _ H2). cbn [mbind option_bind]. unfold guard.
    rewrite (word_guard _ _ _ _ _ _ _ H2). cbn [mbind option_bind is_nil as_klass as_smi]. rewrite Z.eqb_refl.
    unfold poly_transition, target. rewrite (word_target _ _ _ _ _ _ _ H2). cbn [mbind option_bind as_array].
    rewrite (words_epoch _ _ _ _ _ _ _ H2). cbn [mbind option_bind]. rewrite Z.eqb_refl.
    unfold poly_dispatch. rewrite poly_arity_encode by (cbn; lia). cbn [mbind option_bind].
    assert (Hf : find_arm (encode arms) k0 (zrange 0 (zlen arms)) = Some (Some 0)).
    { change (find_arm (encode arms) k0 (zrange 0 (zlen arms))) with (if k0 =? k0 then Some (Some 0) else find_arm (encode arms) k0 [1]).
      by rewrite Z.eqb_refl. }
    rewrite Hf. cbn [mbind option_bind].
    destruct (encode_bump arms 0 (k0, m0, ONil) ltac:(cbn; lia) eq_refl) as (c & Hb). change (Z.of_nat 0) with 0 in Hb. rewrite Hb.
    cbn [mbind option_bind]. destruct (set_target i1 base sel a _ _ _ (OArray (encode (<[0%nat := (k0, m0, c)]> arms))) H2) as (i2 & Hi2 & _).
    cbn [arm_klass arm_method fst snd] in Hi2 |- *. rewrite Hi2. cbn [mbind option_bind]. by exists i2.
Qed.

(** The same on the machine of [Lookup.sample_vm]: class 8 and its subclass
    16; selector 24 is bound in 8 to method 100, a site of 24 has seen class 8;
    then 24 is rebound in 8 to method 104 and bound in 16 to 100, class 16
    comes by, and class 8 gets method 100 although 24 means 104 there. *)
Definition sample_site : ics_array := [OSymbol 24; OSmi (meta_of 0 1); OKlass 8; OMethod 100].
Definition rebound_vm : option vm_state :=
  vm ← install_method (fun s => 4096 * s) sample_vm 8 24 100;
  vm ← install_method (fun s => 4096 * s) vm 8 24 104;
  install_method (fun s => 4096 * s) vm 16 24 100.

Example stale_dispatch :
  (vm ← rebound_vm;
   '(r1, vm, ics) ← ic_transition (fun s => 4096 * s) vm 0 sample_site 0 16 false;
   '(r2, vm, _) ← ic_transition (fun s => 4096 * s) vm 0 ics 0 8 false;
   wanted ← lookup_uncached (fun s => 4096 * s) (the_world vm) 8 24;
   Some (r1, r2, wanted)) = Some (Some 100, Some 100, Some 104).
Proof. vm_compute. reflexivity. Qed.

(** The same classes with their bindings in place, at epoch 7. *)
Definition marks (s : Z) : Z := 4096 * s.
Definition dict_of (m : Z) : MethodDict.method_dict :=
  default (MethodDict.MkDict ONil []) (d ← MethodDict.alloc_method_dict 8; MethodDict.insert marks d 24 m).
Definition bound_world (c : gmap Z method) : world :=
  MkWorld (<[16 := MkKlass (Some (dict_of 100)) (OKlass 8)]> {[8 := MkKlass (Some (dict_of 104)) ONil]}) c.
Definition bound_vm : vm_state := MkVm (bound_world ∅) new 7 CodeTable.new.

Lemma dict_of_represents m : MethodDict.represents marks (dict_of m) (<[24 := m]> ∅).
Proof.
  destruct (MethodDict.alloc_represents marks 3) as (d0 & Hd0 & Hr0); [lia|].
  destruct (MethodDict.insert_represents marks d0 ∅ 24 m Hr0) as (d & Hd & Hr); [by vm_compute|by vm_compute|].
  unfold dict_of. change 8 with (2 ^ 3). rewrite Hd0. cbn [mbind option_bind]. by rewrite Hd.
Qed.

Lemma bound_world_wf c : chain (bound_world c) 16 [16; 8] /\ wf marks (bound_world c).
Proof.
  set (w := bound_world c). assert (H8 : chain w 8 [8]) by (by eapply chain_root).
  assert (H16 : chain w 16 [16; 8]) by (by eapply chain_step). split; [done|].
  split; intros k K; unfold w at 1; cbn [klasses bound_world].
  - intros [[<- <-]|[_ [<- <-]%lookup_singleton_Some]]%lookup_insert_Some; by eexists.
  - intros d [[<- <-]|[_ [<- <-]%lookup_singleton_Some]]%lookup_insert_Some [= <-]; eexists; apply dict_of_represents.
Qed.

Lemma bound_vm_ok : vm_ok marks bound_vm.
Proof.
  split; cbn [the_world lookup_cache table bound_vm];
    [apply bound_world_wf|apply new_ok|apply CodeTable.new_wf|intros i nm Hg; unfold CodeTable.get, zlookup in Hg; cbn in Hg; by destruct (i <? 0)].
Qed.

(** Its class 16 is compiled for 24: nmethod 0; method 100 is in class 16. *)
Definition override_vm : vm_state := MkVm (bound_world {[100 := MkMethod (OKlass 16) (OSymbol 24) [] false]}) new 7
  (CodeTable.install CodeTable.new (CodeTable.sample_nm 16 24 4096)).1.

Lemma override_vm_ok : vm_ok marks override_vm.
Proof.
  split; cbn [the_world lookup_cache table override_vm]; [apply bound_world_wf|apply new_ok| |].
  - apply (CodeTable.install_wf CodeTable.new (CodeTable.sample_nm 16 24 4096)); [apply CodeTable.new_wf|done|done|].
    intros j nm Hg. unfold CodeTable.get, zlookup in Hg. cbn in Hg. by destruct (j <? 0).
  - intros i nm Hg d Hd. unfold CodeTable.get, zlookup in Hg. destruct (i <? 0); [done|].
    destruct (Z.to_nat i) as [|n]; cbn in Hg; [|by destruct n]. injection Hg as <-.
    apply list_elem_of_singleton in Hd as ->. exists [16; 8]. apply bound_world_wf.
Qed.

Definition site_at (e : Z) : ics_array := [OSymbol 24; OSmi (meta_of 0 e); OKlass 8; OMethod 104].
Lemma site_at_words e : inU 24 e -> words (site_at e) (base_of 0) 24 0 e (OKlass 8) (OMethod 104).
Proof. intros H. by split. Qed.

Lemma send_dispatch_correct_witness : exists c vm ics, send_dispatch marks bound_vm 0 (site_at 7) 0 0 16 false = Some (c, vm, ics) /\
  site marks vm 0 ics 0 24 0 false.
Proof.
  destruct (send_dispatch_correct marks bound_vm 0 (site_at 7) 0 24 0 false 16) as (c & vm & ics & H1 & _ & _ & H2 & _).
  - by vm_compute.
  - apply bound_vm_ok.
  - intros H. discriminate H.
  - vm_compute. by split.
  - exists 7, (OKlass 8), (OMethod 104). split; [by apply site_at_words|]. split; [vm_compute; by intros|].
    apply shape_mono; [by eexists|]. intros _. vm_compute. reflexivity.
  - by eexists.
  - intros k0 m0 _ _ _. vm_compute. reflexivity.
  - exists c, vm, ics. split; [exact H1|exact H2].
Defined.

(** A site of epoch 3 with a target that 24 no longer means. *)
Definition stale_site : ics_array := [OSymbol 24; OSmi (meta_of 0 3); OKlass 8; OMethod 90].

Lemma mono_to_poly_keeps_stale_target_witness : exists vm ics ics',
  ic_transition marks bound_vm 0 stale_site 0 16 false = Some (Some 100, vm, ics) /\
  ic_transition marks vm 0 ics 0 8 false = Some (Some 90, vm, ics') /\
  lookup_uncached marks (the_world bound_vm) 8 24 = Some (Some 104).
Proof.
  destruct (mono_to_poly_keeps_stale_target marks bound_vm 0 stale_site 0 24 0 3 8 90 16 100) as (vm & ics & H1 & _ & _ & ics' & H2).
  - by vm_compute.
  - apply bound_vm_ok.
  - vm_compute. by split.
  - by eexists.
  - discriminate.
  - by split.
  - vm_compute. reflexivity.
  - exists vm, ics, ics'. split; [exact H1|]. split; [exact H2|]. vm_compute. reflexivity.
Defined.

(** Method 100 of class 16 sends 24 to super, and finds method 104 of class 8;
    class 16 is compiled for 24, and the site then enters that. *)
Definition super_site : ics_array := [OSymbol 24; OSmi (meta_of 0 0); ONil; ONil].

Lemma super_site_enters_override_witness : exists vm ics ics',
  send_dispatch marks override_vm 100 super_site 0 0 16 true = Some (Interpreted 104, vm, ics) /\
  seed vm ics 0 16 0 = Some ics' /\ send_dispatch marks vm 100 ics' 0 0 16 true = Some (Compiled 0, vm, ics') /\
  lookup_uncached marks (the_world override_vm) 16 24 = Some (Some 100).
Proof.
  destruct (super_site_enters_override marks override_vm 100 super_site 0 24 0 0 16 104 0
              (CodeTable.with_id (CodeTable.sample_nm 16 24 4096) 0)) as (_ & _ & vm & ics & ics' & H1 & _ & _ & H2 & H3).
  - by vm_compute.
  - apply override_vm_ok.
  - intros _. eexists _, 16. split; [reflexivity|]. split; [reflexivity|]. by eexists.
  - vm_compute. by split.
  - vm_compute. by intros.
  - by eexists.
  - by split.
  - vm_compute. reflexivity.
  - vm_compute. reflexivity.
  - vm_compute. reflexivity.
  - reflexivity.
  - vm_compute. by split.
  - exists vm, ics, ics'. split; [exact H1|]. split; [exact H2|]. split; [exact H3|]. vm_compute. reflexivity.
Defined.
End Ic.
