(* ===== verification/Ir.v ===== *)
(** The compiler's intermediate representation ([src/src/compiler/ir.rs]):
    operations, blocks, deoptimization sites and methods, with the registers
    each operation reads and writes.  Virtual registers, blocks and pool
    literals are their indices. *)
From S2P Require Import Prelude Scopes.
From stdpp Require Import gmap.
#[local] Open Scope Z_scope.
#[local] Set Warnings "-register-all".

Module IR.
Inductive SmiOp := SmiAdd | SmiSub | SmiMul | SmiAnd | SmiOr | SmiXor.
Inductive FArithOp := FAdd | FSub | FMul | FDiv.
Inductive VecKind := F64x2 | F32x4 | I32x4.
Inductive CmpOp := Lt | Le | Gt | Ge | Eq | Ne.
Inductive BailoutReason := SmiOpFailed.
Inductive GuardShape := SmiTest | KlassTest.

Record VRegInfo := MkVReg { v_is_oop : bool; v_is_fp : bool }.

Inductive Ir :=
  | ConstSmi (dst value : Z)
  | ConstPool (dst lit : Z)
  | Move (dst src : Z)
  | Param (dst index : Z)
  | LoadKlass (dst obj : Z)
  | LoadField (dst obj byte_off : Z)
  | StoreField (obj byte_off val : Z) (barrier : bool)
  | SmiArith (op : SmiOp) (dst a b fail : Z)
  | ArrayAt (dst arr idx klass fail : Z)
  | ArrayAtPut (dst arr idx val klass fail : Z)
  | SmiCmpBr (op : CmpOp) (a b if_true if_false fail : Z)
  | SmiCmpVal (op : CmpOp) (dst a b fail : Z)
  | RefCmpVal (dst a b : Z) (neq : bool)
  | BoolNot (dst src fail : Z)
  | FUnbox (dst src fail : Z)
  | FBox (dst src : Z)
  | FArith (op : FArithOp) (dst a b : Z)
  | FCmpBr (op : CmpOp) (a b if_true if_false : Z)
  | FCmpVal (op : CmpOp) (dst a b : Z)
  | FConst (dst bits : Z)
  | VecArith (kind : VecKind) (op : FArithOp) (dst a b fail : Z)
  | Jump (target : Z)
  | BoolBr (val if_true if_false not_bool : Z)
  | GuardKlass (obj expect fail : Z) (kind : GuardShape)
  | GuardKlassIn (obj : Z) (expects : list Z) (fail : Z)
  | CallSend (dst site : Z) (args : list Z)
  | CallRuntime (dst : option Z) (stub : Z) (args : list Z)
  | Alloc (dst klass size_words : Z)
  | Poll
  | UncommonTrap (bci : Z)
  | Ret (val : Z)
  | RetSelf
  | NlrReturn (closure value : Z)
  | Bailout (reason : BailoutReason).

(** The callbacks of the source, in order. *)
Definition uses (op : Ir) : list Z :=
  match op with
  | Move _ src => [src]
  | LoadKlass _ obj => [obj]
  | LoadField _ obj _ => [obj]
  | StoreField obj _ val _ => [obj; val]
  | SmiArith _ _ a b _ | SmiCmpBr _ a b _ _ _ | SmiCmpVal _ _ a b _ | RefCmpVal _ a b _ => [a; b]
  | BoolNot _ src _ => [src]
  | FArith _ _ a b | FCmpBr _ a b _ _ | FCmpVal _ _ a b => [a; b]
  | FUnbox _ src _ | FBox _ src => [src]
  | VecArith _ _ _ a b _ => [a; b]
  | ArrayAt _ arr idx _ _ => [arr; idx]
  | ArrayAtPut _ arr idx val _ _ => [arr; idx; val]
  | BoolBr val _ _ _ => [val]
  | GuardKlass obj _ _ _ | GuardKlassIn obj _ _ => [obj]
  | CallSend _ _ args | CallRuntime _ _ args => args
  | Ret val => [val]
  | NlrReturn closure value => [closure; value]
  | RetSelf => [0]
  | ConstSmi _ _ | ConstPool _ _ | FConst _ _ | Param _ _ | Jump _ | Alloc _ _ _ | Poll | UncommonTrap _ | Bailout _ => []
  end.

Definition defs (op : Ir) : list Z :=
  match op with
  | ConstSmi dst _ | ConstPool dst _ | Move dst _ | Param dst _ | LoadKlass dst _ | LoadField dst _ _
  | SmiArith _ dst _ _ _ | ArrayAt dst _ _ _ _ | ArrayAtPut dst _ _ _ _ _ | SmiCmpVal _ dst _ _ _
  | RefCmpVal dst _ _ _ | BoolNot dst _ _ | CallSend dst _ _ | FUnbox dst _ _ | FBox dst _
  | FArith _ dst _ _ | FCmpVal _ dst _ _ | FConst dst _ | VecArith _ _ dst _ _ _ | Alloc dst _ _ => [dst]
  | CallRuntime (Some d) _ _ => [d]
  | StoreField _ _ _ _ | SmiCmpBr _ _ _ _ _ _ | FCmpBr _ _ _ _ _ | Jump _ | BoolBr _ _ _ _ | GuardKlass _ _ _ _
  | GuardKlassIn _ _ _ | CallRuntime None _ _ | Poll | UncommonTrap _ | Ret _ | RetSelf | NlrReturn _ _ | Bailout _ => []
  end.

(** An inlined scope of a deoptimization site; [parent] is the next outer one. *)
Inductive InlineSite := MkInline {
  method_pool_ix : Z;
  receiver : Z;
  slots : list Z;
  sender_bci : Z;
  caller_pending_stack : list Z;
  is_block : bool;
  parent : option InlineSite;
  slot_closures : list (Z * Z) }.

Record DeoptRaw := MkRaw {
  stack : list Z;
  raw_bci : Z;
  kind : Deopt.SafepointKind;
  reexecute : bool;
  stack_closures : list (Z * Z);
  inline : option InlineSite }.

Record IrBlock := MkBlock {
  id : Z;
  bci : Z;
  code : list Ir;
  entry_stack : list Z;
  deopt_sites : list (Z * DeoptRaw) }.

(** What the register allocator reads of a method; its constant pool, call
    sites and compilation statistics it does not look at. *)
Record IrMethod := MkMethod {
  is_osr : bool;
  blocks : list IrBlock;
  vregs : list VRegInfo;
  argc : Z;
  ntemps : Z;
  block_closure_vreg : option Z;
  ctx_vregs : list Z;
  method_ctx_vreg : option (Z * Z) }.
End IR.
