(* ===== verification/Intervals.v ===== *)
(** Block order and live intervals ([src/src/compiler/regalloc.rs],
    [reverse_postorder] and [compute_intervals]).

    Positions number the operations of the method in the order the blocks are
    laid out; they are unbounded here, a method having fewer than 2^32
    operations. *)
From S2P Require Import Prelude Scopes OopMaps Ir.
From stdpp Require Import gmap.
Export Maps.
#[local] Open Scope Z_scope.

Module Intervals.
Import IR.

Definition is_safepoint (op : Ir) : bool :=
  match op with
  | CallSend _ _ _ | CallRuntime _ _ _ | Alloc _ _ _ | FBox _ _ | UncommonTrap _ | Poll => true
  | _ => false
  end.
Definition is_call (op : Ir) : bool :=
  match op with CallSend _ _ _ | CallRuntime _ _ _ => true | _ => false end.

(** ** Successors and block order *)
Definition op_successors (op : Ir) : list Z :=
  match op with
  | Jump target => [target]
  | BoolBr _ if_true if_false not_bool => [if_true; if_false; not_bool]
  | SmiCmpBr _ _ _ if_true if_false fail => [if_true; if_false; fail]
  | FCmpBr _ _ _ if_true if_false => [if_true; if_false]
  | SmiArith _ _ _ _ fail | SmiCmpVal _ _ _ _ fail | ArrayAt _ _ _ _ fail | ArrayAtPut _ _ _ _ _ fail
  | FUnbox _ _ fail | BoolNot _ _ fail | VecArith _ _ _ _ _ fail => [fail]
  | GuardKlass _ _ fail _ | GuardKlassIn _ _ fail => [fail]
  | _ => []
  end.
Definition successors (b : IrBlock) : list Z := concat (map op_successors (code b)).

(** The depth-first walk, depth-bounded by the number of blocks. *)
Fixpoint dfs (fuel : nat) (bs : list IrBlock) (b : Z) (visited : list bool) (postorder : list Z) :
    option (list bool * list Z) :=
  match fuel with
  | O => None
  | S fuel =>
      v ← zlookup visited b;
      if v : bool then Some (visited, postorder)
      else
        visited ← zset visited b true;
        blk ← zlookup bs b;
        '(visited, postorder) ←
          foldl (fun acc s => '(visited, postorder) ← acc; dfs fuel bs s visited postorder)
            (Some (visited, postorder)) (successors blk);
        Some (visited, postorder ++ [u32 b])
  end.

Fixpoint roots (bs : list IrBlock) (todo : list Z) (visited : list bool) (order : list Z) : option (list Z) :=
  match todo with
  | [] => Some order
  | b :: todo =>
      v ← zlookup visited b;
      if v : bool then roots bs todo visited order
      else
        '(visited, postorder) ← dfs (S (length bs)) bs b visited [];
        roots bs todo visited (order ++ rev postorder)
  end.
Definition reverse_postorder (m : IrMethod) : option (list Z) :=
  roots (blocks m) (zrange 0 (zlen (blocks m))) (replicate (length (blocks m)) false) [].

(** ** The numbering walk *)
Record walk := MkWalk {
  pos : Z;
  safepoint_positions : list Z;
  call_positions : list Z;
  min_def : gmap Z Z;
  max_use : gmap Z Z;
  block_start_pos : gmap Z Z;
  block_end_pos : gmap Z Z;
  deopt_live_exact : list (Z * Z);
  deopt_live_widen : list (Z * Z) }.

Definition walk_new : walk := MkWalk 0 [] [] ∅ ∅ ∅ ∅ [] [].

Definition use (w : walk) (v : Z) : walk :=
  MkWalk (pos w) (safepoint_positions w) (call_positions w)
    (match min_def w !! v with Some _ => min_def w | None => <[v := pos w]> (min_def w) end)
    (<[v := match max_use w !! v with Some e => Z.max e (pos w) | None => pos w end]> (max_use w))
    (block_start_pos w) (block_end_pos w) (deopt_live_exact w) (deopt_live_widen w).
Definition def (w : walk) (v : Z) : walk :=
  MkWalk (pos w) (safepoint_positions w) (call_positions w)
    (<[v := match min_def w !! v with Some s => Z.min s (pos w) | None => pos w end]> (min_def w))
    (match max_use w !! v with Some _ => max_use w | None => <[v := pos w]> (max_use w) end)
    (block_start_pos w) (block_end_pos w) (deopt_live_exact w) (deopt_live_widen w).

(** The fact at the site itself and at every safepoint before it. *)
Definition record (w : walk) (v : Z) : walk :=
  MkWalk (pos w) (safepoint_positions w) (call_positions w) (min_def w) (max_use w)
    (block_start_pos w) (block_end_pos w)
    (deopt_live_exact w ++ (v, pos w) :: map (fun sp => (v, sp)) (filter (fun sp => sp < pos w) (safepoint_positions w)))
    (deopt_live_widen w).
Definition record_all (w : walk) (vs : list Z) : walk := foldl record w vs.

Fixpoint inline_levels (s : InlineSite) : list InlineSite :=
  s :: match parent s with Some p => inline_levels p | None => [] end.
Definition level_vregs (s : InlineSite) : list Z := receiver s :: slots s ++ caller_pending_stack s.

Definition is_trap_or_poll (k : Deopt.SafepointKind) : bool :=
  match k with Deopt.UncommonTrap | Deopt.LoopPoll => true | _ => false end.
Definition site_where (b : IrBlock) (idx : Z) (p : DeoptRaw -> bool) : option DeoptRaw :=
  snd <$> (snd <$> list_find (fun '(ci, raw) => Is_true ((ci =? idx) && p raw)) (deopt_sites b)).

Section method.
Context (m : IrMethod).
Definition n_slots : Z := argc m + ntemps m.
Definition root_vregs : list Z := 0 :: zrange 1 (n_slots + 1).

Definition walk_op (b : IrBlock) (w : walk) (idx : Z) (op : Ir) : walk :=
  let w := MkWalk (pos w) (if is_safepoint op then safepoint_positions w ++ [pos w] else safepoint_positions w)
             (if is_call op then call_positions w ++ [pos w] else call_positions w)
             (min_def w) (max_use w) (block_start_pos w) (block_end_pos w) (deopt_live_exact w) (deopt_live_widen w) in
  let w := match site_where b idx (fun raw => is_trap_or_poll (kind raw)) with
           | Some raw => record_all w (root_vregs ++ stack raw)
           | None => w
           end in
  let w := match site_where b idx (fun raw => match inline raw with Some _ => true | None => false end) with
           | Some raw => record_all w (root_vregs ++
               match inline raw with Some s => concat (map level_vregs (inline_levels s)) | None => [] end ++ stack raw)
           | None => w
           end in
  let w := if existsb (fun '(ci, _) => ci =? idx) (deopt_sites b)
           then MkWalk (pos w) (safepoint_positions w) (call_positions w) (min_def w) (max_use w)
                  (block_start_pos w) (block_end_pos w) (deopt_live_exact w)
                  (deopt_live_widen w ++ map (fun cv => (cv, pos w)) (ctx_vregs m))
           else w in
  let w := foldl use w (uses op) in
  let w := foldl def w (defs op) in
  MkWalk (pos w + 1) (safepoint_positions w) (call_positions w) (min_def w) (max_use w)
    (block_start_pos w) (block_end_pos w) (deopt_live_exact w) (deopt_live_widen w).

Fixpoint walk_code (b : IrBlock) (w : walk) (idx : Z) (ops : list Ir) : walk :=
  match ops with [] => w | op :: ops => walk_code b (walk_op b w (u32 idx) op) (idx + 1) ops end.

Definition walk_block (w : walk) (bid : Z) : option walk :=
  b ← zlookup (blocks m) bid;
  let w := MkWalk (pos w) (safepoint_positions w) (call_positions w) (min_def w) (max_use w)
             (<[bid := pos w]> (block_start_pos w)) (block_end_pos w) (deopt_live_exact w) (deopt_live_widen w) in
  let w := walk_code b w 0 (code b) in
  Some (MkWalk (pos w) (safepoint_positions w) (call_positions w) (min_def w) (max_use w)
          (block_start_pos w) (<[bid := Z.max 0 (pos w - 1)]> (block_end_pos w)) (deopt_live_exact w) (deopt_live_widen w)).
Fixpoint walk_blocks (w : walk) (order : list Z) : option walk :=
  match order with [] => Some w | bid :: order => w ← walk_block w bid; walk_blocks w order end.

(** ** Back edges and the widening fixpoint *)
Definition block_ranges (w : walk) (bid : Z) : option (list (Z * Z)) :=
  b ← zlookup (blocks m) bid;
  b_start ← block_start_pos w !! bid;
  loop_end ← block_end_pos w !! bid;
  Some (omap (fun s => a ← block_start_pos w !! s; if a <=? b_start then Some (a, loop_end) else None) (successors b)).
Fixpoint loop_ranges (w : walk) (order : list Z) : option (list (Z * Z)) :=
  match order with
  | [] => Some []
  | bid :: order => rs ← block_ranges w bid; rest ← loop_ranges w order; Some (rs ++ rest)
  end.
End method.

(** The safepoints at which a loop-carried fact is repeated. *)
Definition loop_facts (w : walk) (ranges : list (Z * Z)) : gset (Z * Z) :=
  list_to_set (concat (map (fun '(v, p) =>
    match min_def w !! v with
    | None => []
    | Some s =>
        let e := default 0 (max_use w !! v) in
        if (s <=? p) && (p <=? e) then []
        else concat (map (fun '(ls, le) =>
          if (ls <=? p) && (p <=? le) && ((s <=? le) && (ls <=? e))
          then map (fun sp => (v, sp))
                 (filter (fun sp => Is_true ((ls <=? sp) && (sp <=? le) && negb ((s <? sp) && (sp <? e)))) (safepoint_positions w))
          else []) ranges)
    end) (deopt_live_exact w))).

Abbreviation bounds := (gmap Z Z * gmap Z Z)%type.

(** An interval with an endpoint strictly outside a range it meets. *)
Definition touched (b : bounds) (ls le v : Z) : bool :=
  let s := default (2 ^ 32 - 1) (b.1 !! v) in
  let e := default 0 (b.2 !! v) in
  (s <=? le) && (ls <=? e) && ((s <? ls) || (le <? e)).
Definition widen_vreg (ls le : Z) (bc : bounds * bool) (v : Z) : bounds * bool :=
  let '(b, changed) := bc in
  let s := default ls (b.1 !! v) in
  let e := default le (b.2 !! v) in
  ((<[v := if ls <? s then ls else s]> b.1, <[v := if e <? le then le else e]> b.2),
   changed || (ls <? s) || (e <? le)).
Definition widen_range (bc : bounds * bool) (r : Z * Z) : bounds * bool :=
  foldl (widen_vreg r.1 r.2) bc
    (filter (fun v => Is_true (touched bc.1 r.1 r.2 v)) (elements (dom (bc.1.1) ∪ dom (bc.1.2) : gset Z))).
Definition widen_pass (ranges : list (Z * Z)) (b : bounds) : bounds * bool := foldl widen_range (b, false) ranges.
Fixpoint widen (fuel : nat) (ranges : list (Z * Z)) (b : bounds) : option bounds :=
  match fuel with
  | O => None
  | S fuel => let '(b, changed) := widen_pass ranges b in if changed : bool then widen fuel ranges b else Some b
  end.
Definition widen_fuel (w : walk) : nat := S (2 * size (min_def w) * Z.to_nat (pos w)).

Definition widen_ctx (b : bounds) (f : Z * Z) : bounds :=
  let '(v, sp) := f in
  (match b.1 !! v with Some _ => b.1 | None => <[v := 0]> b.1 end,
   <[v := match b.2 !! v with Some e => if e <=? sp then sp + 1 else e | None => sp + 1 end]> b.2).
Definition or_zero (b : bounds) (v : Z) : bounds :=
  (match b.1 !! v with Some _ => b.1 | None => <[v := 0]> b.1 end,
   match b.2 !! v with Some _ => b.2 | None => <[v := 0]> b.2 end).

Definition interval_of (m : IrMethod) (b : bounds) (referenced : gset Z) (sps calls : list Z) (vid : Z) : option LiveInterval :=
  s ← b.1 !! vid;
  i ← zlookup (vregs m) vid;
  let e := default s (b.2 !! vid) in
  Some (MkInterval vid s e (v_is_oop i) (v_is_fp i)
    (bool_decide (vid ∈ referenced) || existsb (fun sp => (s <=? sp) && (sp <? e)) sps)
    (existsb (fun cp => (s <=? cp) && (cp <? e)) calls) None None).

Record liveness := MkLiveness {
  l_block_order : list Z;
  l_intervals : list LiveInterval;
  l_safepoint_positions : list Z;
  l_block_start_pos : gmap Z Z;
  l_extra_oop_live : list (Z * Z);
  l_call_positions : list Z }.

Definition compute_intervals (m : IrMethod) : option liveness :=
  order ← reverse_postorder m;
  w ← walk_blocks m walk_new order;
  ranges ← loop_ranges m w order;
  let exact := deopt_live_exact w ++ elements (loop_facts w ranges) in
  b ← widen (widen_fuel w) ranges (min_def w, max_use w);
  let b := foldl widen_ctx b (deopt_live_widen w) in
  let referenced : gset Z := list_to_set (exact.*1 ++ (deopt_live_widen w).*1) in
  let b := foldl or_zero b (elements referenced) in
  Some (MkLiveness order
    (omap (interval_of m b referenced (safepoint_positions w) (call_positions w)) (zrange 0 (zlen (vregs m))))
    (safepoint_positions w) (block_start_pos w) exact (call_positions w)).

(** ** The block order *)
Definition unvisited (v : list bool) : nat := length (filter (fun b => b = false) v).
Definition block_ok (m : IrMethod) (b : Z) : Prop := 0 <= b < zlen (blocks m).
Definition targets_ok (m : IrMethod) : Prop := forall b s, b ∈ blocks m -> s ∈ successors b -> block_ok m s.

Lemma unvisited_set v b v' : zlookup v b = Some false -> zset v b true = Some v' -> S (unvisited v') = unvisited v.
Proof.
  intros Hb Hv. apply zset_Some in Hv as [Hr ->]. unfold zlookup in Hb. destruct (Z.ltb_spec b 0); [done|].
  unfold unvisited, zinsert. destruct (Z.ltb_spec b 0); [lia|]. rewrite insert_take_drop by exact (lookup_lt_Some _ _ _ Hb).
  rewrite <- (take_drop_middle v (Z.to_nat b) false Hb) at 3.
  rewrite !filter_app, !length_app, !filter_cons. repeat (destruct (decide _); try done).
Qed.

(** What a walk does: it visits [new], in postorder after what was there. *)
Record visits (v v' : list bool) (new : list Z) : Prop := {
  vis_len : zlen v' = zlen v;
  vis_le : (unvisited v' <= unvisited v)%nat;
  vis_iff : forall i, zlookup v' i = Some true <-> zlookup v i = Some true \/ i ∈ new;
  vis_fresh : forall i, i ∈ new -> zlookup v i = Some false;
  vis_nodup : NoDup new }.

Lemma visits_refl v : visits v v [].
Proof. split; try done; [|by intros i ?%elem_of_nil|constructor]. intros i. rewrite elem_of_nil. tauto. Qed.

Lemma visits_trans v1 v2 v3 n1 n2 : visits v1 v2 n1 -> visits v2 v3 n2 -> visits v1 v3 (n1 ++ n2).
Proof.
  intros [] []. split; [congruence|lia|..].
  - intros i. rewrite vis_iff1, vis_iff0, elem_of_app. tauto.
  - intros i [Hi|Hi]%elem_of_app; [by apply vis_fresh0|]. specialize (vis_fresh1 i Hi).
    destruct (zlookup_is_Some v1 i) as [[] Hx]; [rewrite <- vis_len0; by eapply zlookup_lt|..]; [|done].
    assert (zlookup v2 i = Some true) by (apply vis_iff0; by left). congruence.
  - apply NoDup_app. split_and!; [done| |done]. intros i Hi Hi2. specialize (vis_fresh1 i Hi2).
    assert (zlookup v2 i = Some true) by (apply vis_iff0; by right). congruence.
Qed.

Lemma visits_enter v b v' : zlookup v b = Some false -> zset v b true = Some v' -> visits v v' [b].
Proof.
  intros Hb Hv. pose proof (unvisited_set v b v' Hb Hv). pose proof (fun j => zlookup_zset _ _ _ _ j Hv) as Hl.
  split; [|lia|..].
  - apply zset_Some in Hv as [_ ->]. apply zlen_insert.
  - intros i. rewrite Hl, list_elem_of_singleton. destruct (decide (b = i)) as [->|Hne].
    + split; [by right|done].
    + split; [by left|]. by intros [?| ->].
  - by intros i ->%list_elem_of_singleton.
  - apply NoDup_singleton.
Qed.

Section order.
Context (m : IrMethod) (Htargets : targets_ok m) (Hsize : zlen (blocks m) < 2 ^ 32).

Lemma dfs_ok : forall fuel b v post, block_ok m b -> zlen v = zlen (blocks m) -> (unvisited v < fuel)%nat ->
  exists v' new, dfs fuel (blocks m) b v post = Some (v', post ++ new) /\ visits v v' new /\
    (zlookup v b = Some false -> last new = Some b).
Proof.
  induction fuel as [|fuel IH]; intros b v post Hb Hv Hf; [lia|]. cbn [dfs].
  destruct (zlookup_is_Some v b) as [x Hx]; [unfold block_ok in Hb; lia|]. rewrite Hx. cbn [mbind option_bind].
  destruct x; [exists v, []; rewrite app_nil_r; split_and!; [done|apply visits_refl|congruence]|].
  destruct (zset v b true) as [v1|] eqn:Hset; [|rewrite zset_ok in Hset by (unfold block_ok in Hb; lia); done].
  cbn [mbind option_bind]. pose proof (visits_enter v b v1 Hx Hset) as Hv1. pose proof (unvisited_set v b v1 Hx Hset) as Hu.
  destruct (zlookup_is_Some (blocks m) b Hb) as [blk Hblk]. rewrite Hblk. cbn [mbind option_bind].
  assert (Hfold : forall ss, (forall s, s ∈ ss -> block_ok m s) -> forall v2 new, visits v1 v2 new ->
    exists v3 new', foldl (fun acc s => '(visited, postorder) ← acc; dfs fuel (blocks m) s visited postorder)
      (Some (v2, post ++ new)) ss = Some (v3, post ++ new') /\ visits v1 v3 new').
  { induction ss as [|s ss IHs]; intros Hss v2 new Hv2; cbn [foldl]; [by exists v2, new|]. cbn [mbind option_bind].
    destruct (IH s v2 (post ++ new)) as (v3 & n3 & -> & Hv3 & _).
    - apply Hss. left.
    - rewrite (vis_len _ _ _ Hv2), (vis_len _ _ _ Hv1). done.
    - pose proof (vis_le _ _ _ Hv2). lia.
    - rewrite <- app_assoc. apply IHs; [by intros x Hxs; apply Hss; right|by eapply visits_trans]. }
  destruct (Hfold (successors blk)) with (v2 := v1) (new := @nil Z) as (v3 & new & Hfo & Hv3);
    [intros s Hs; eapply Htargets; [|done]|apply visits_refl|].
  { unfold zlookup in Hblk. destruct (b <? 0); [done|]. by eapply list_elem_of_lookup_2. }
  rewrite app_nil_r in Hfo. rewrite Hfo. cbn [mbind option_bind]. rewrite wrapU_id by (unfold block_ok, inU in *; lia).
  exists v3, (new ++ [b]). rewrite app_assoc. split_and!; [done| |by rewrite last_snoc].
  pose proof (visits_trans _ _ _ _ _ Hv1 Hv3) as Hall. destruct Hall. split; try done.
  - intros i. rewrite vis_iff0, !elem_of_app. tauto.
  - intros i Hi. apply vis_fresh0. rewrite elem_of_app in *. tauto.
  - rewrite Permutation_app_comm. done.
Qed.

Lemma roots_ok : forall todo v order, (forall b, b ∈ todo -> block_ok m b) -> zlen v = zlen (blocks m) ->
  NoDup order -> (forall i, i ∈ order <-> zlookup v i = Some true) ->
  exists order', roots (blocks m) todo v order = Some (order ++ order') /\ NoDup (order ++ order') /\
    (forall i, i ∈ order ++ order' -> block_ok m i) /\ (forall i, i ∈ todo -> i ∈ order ++ order') /\
    (order = [] -> match todo with b :: _ => head order' = Some b | [] => True end).
Proof.
  induction todo as [|b todo IH]; intros v order Htodo Hv Hnd Hiff; cbn [roots].
  - exists []. rewrite app_nil_r. split_and!; [done|done| |by intros i ?%elem_of_nil|done].
    intros i Hi%Hiff. apply zlookup_lt in Hi. unfold block_ok. lia.
  - assert (Hb : block_ok m b) by (apply Htodo; left).
    destruct (zlookup_is_Some v b) as [x Hx]; [unfold block_ok in Hb; lia|]. rewrite Hx. cbn [mbind option_bind]. destruct x.
    + assert (Hbo : b ∈ order) by (by apply Hiff).
      destruct (IH v order) as (order' & H1 & H2 & H3 & H4 & _); [by intros y Hy; apply Htodo; right|done|done|done|].
      exists order'. split_and!; [done|done|done| |by intros ->; apply elem_of_nil in Hbo].
      intros i [->|Hi]%elem_of_cons; [apply elem_of_app; by left|by apply H4].
    + destruct (dfs_ok (S (length (blocks m))) b v [] Hb Hv) as (v' & new & Hdfs & Hvis & Hlast).
      { unfold unvisited. pose proof (length_filter (fun b : bool => b = false) v). unfold zlen in Hv. lia. }
      rewrite Hdfs. cbn [mbind option_bind app]. specialize (Hlast Hx).
      destruct (IH v' (order ++ rev new)) as (order' & H1 & H2 & H3 & H4 & _).
      * by intros y Hy; apply Htodo; right.
      * by rewrite (vis_len _ _ _ Hvis).
      * apply NoDup_app. split_and!; [done| |by rewrite <- Permutation_rev; apply Hvis].
        intros i Hi%Hiff Hin. rewrite <- Permutation_rev in Hin. apply (vis_fresh _ _ _ Hvis) in Hin. congruence.
      * intros i. rewrite (vis_iff _ _ _ Hvis), elem_of_app, <- Permutation_rev, Hiff. done.
      * exists (rev new ++ order'). rewrite app_assoc. split_and!; [done|done|done| |].
        -- intros i [->|Hi]%elem_of_cons; [|by apply H4]. apply elem_of_app. left. apply elem_of_app. right.
           rewrite <- Permutation_rev. apply last_Some in Hlast as [l ->]. apply elem_of_app. right. left.
        -- intros _. apply last_Some in Hlast as [l ->]. by rewrite rev_app_distr.
Qed.

Lemma reverse_postorder_ok : exists order, reverse_postorder m = Some order /\ NoDup order /\
  (forall i, i ∈ order <-> block_ok m i) /\ (blocks m <> [] -> head order = Some 0).
Proof.
  unfold reverse_postorder.
  destruct (roots_ok (zrange 0 (zlen (blocks m))) (replicate (length (blocks m)) false) []) as (order & H1 & H2 & H3 & H4 & H5).
  - intros b Hb%elem_of_zrange. exact Hb.
  - unfold zlen. by rewrite length_replicate.
  - constructor.
  - intros i. rewrite elem_of_nil. split; [done|]. unfold zlookup. destruct (i <? 0); [done|].
    intros [Hr _]%lookup_replicate. done.
  - exists order. cbn [app] in *. split_and!; [done|done| |].
    + intros i. split; [apply H3|]. intros Hi. apply H4. by apply elem_of_zrange.
    + intros Hne. specialize (H5 eq_refl). rewrite zrange_cons in H5; [done|].
      destruct (blocks m); [done|]. unfold zlen. cbn. lia.
Qed.
End order.

(** ** Bounds *)
Definition paired (b : bounds) : Prop := forall v, is_Some (b.1 !! v) <-> is_Some (b.2 !! v).
Definition within (b : bounds) (P : Z) : Prop := forall v, (forall s, b.1 !! v = Some s -> 0 <= s <= P) /\ (forall e, b.2 !! v = Some e -> 0 <= e <= P).
Definition ordered (b : bounds) : Prop := forall v s e, b.1 !! v = Some s -> b.2 !! v = Some e -> s <= e.
(** [b'] has every interval of [b], as it was or wider. *)
Definition wider (b b' : bounds) : Prop := forall v s e, b.1 !! v = Some s -> b.2 !! v = Some e ->
  exists s' e', b'.1 !! v = Some s' /\ b'.2 !! v = Some e' /\ s' <= s /\ e <= e'.

Lemma wider_refl b : wider b b.
Proof. intros v s e Hs He. exists s, e. split_and!; done. Qed.
Lemma wider_trans b1 b2 b3 : wider b1 b2 -> wider b2 b3 -> wider b1 b3.
Proof.
  intros H1 H2 v s e Hs He. destruct (H1 v s e Hs He) as (s1 & e1 & A & B & ? & ?).
  destruct (H2 v s1 e1 A B) as (s2 & e2 & ? & ? & ? & ?). exists s2, e2. split_and!; [done|done|lia|lia].
Qed.
Lemma wider_foldl {A} (f : bounds -> A -> bounds) l : (forall b x, paired b -> paired (f b x) /\ wider b (f b x)) ->
  forall b, paired b -> paired (foldl f b l) /\ wider b (foldl f b l).
Proof.
  intros Hf. induction l as [|x l IH]; intros b Hb; cbn; [split; [done|apply wider_refl]|].
  destruct (Hf b x Hb) as [H1 H2]. destruct (IH _ H1) as [H3 H4]. split; [done|]. by eapply wider_trans.
Qed.

(** *** The widening fixpoint *)
Definition measure (keys : list Z) (P : Z) (b : bounds) : Z :=
  foldr (fun v a => default 0 (b.1 !! v) + (P - default 0 (b.2 !! v)) + a) 0 keys.

Lemma measure_cons k keys P b : measure (k :: keys) P b = default 0 (b.1 !! k) + (P - default 0 (b.2 !! k)) + measure keys P b.
Proof. done. Qed.

Lemma measure_ext keys P b b' : (forall v, v ∈ keys -> b'.1 !! v = b.1 !! v /\ b'.2 !! v = b.2 !! v) ->
  measure keys P b' = measure keys P b.
Proof.
  induction keys as [|k keys IH]; intros H; [done|]. rewrite !measure_cons. destruct (H k) as [-> ->]; [left|].
  rewrite IH; [done|]. intros v Hv. apply H. by right.
Qed.

Lemma measure_insert keys P b v s e s' e' : NoDup keys -> v ∈ keys -> b.1 !! v = Some s -> b.2 !! v = Some e ->
  measure keys P (<[v := s']> b.1, <[v := e']> b.2) = measure keys P b - s + e + s' - e'.
Proof.
  induction keys as [|k keys IH]; intros Hnd Hv Hs He; [by apply elem_of_nil in Hv|]. apply NoDup_cons in Hnd as [Hk Hnd].
  rewrite !measure_cons. cbn [fst snd]. destruct (decide (k = v)) as [->|Hne].
  - rewrite !lookup_insert_eq, Hs, He. cbn [from_option Datatypes.id]. rewrite (measure_ext keys P b); [lia|].
    intros x Hx. cbn [fst snd]. rewrite !lookup_insert_ne by (intros ->; done). done.
  - apply elem_of_cons in Hv as [|Hv]; [done|]. rewrite !lookup_insert_ne by done. rewrite IH by done. lia.
Qed.

Lemma measure_bounds keys P b : within b P -> 0 <= P -> 0 <= measure keys P b <= 2 * Z.of_nat (length keys) * P.
Proof.
  intros Hw HP. induction keys as [|k keys IH]; [cbn; lia|]. rewrite measure_cons. cbn [length].
  destruct (Hw k) as [H1 H2].
  assert (0 <= default 0 (b.1 !! k) <= P) by (destruct (b.1 !! k) as [s|]; cbn; [by apply H1|lia]).
  assert (0 <= default 0 (b.2 !! k) <= P) by (destruct (b.2 !! k) as [e|]; cbn; [by apply H2|lia]). nia.
Qed.

(** One state of the fixpoint: [keys] are the registers with an interval. *)
Record fix_ok (keys : list Z) (P : Z) (b : bounds) : Prop := {
  fix_keys : forall v, v ∈ keys <-> is_Some (b.1 !! v);
  fix_paired : paired b;
  fix_within : within b P }.

(** What a sequence of widenings does. *)
Record widened (keys : list Z) (P : Z) (b b' : bounds) (c c' : bool) : Prop := {
  wid_ok : fix_ok keys P b';
  wid_wider : wider b b';
  wid_measure : measure keys P b' <= measure keys P b;
  wid_changed : c' = true -> c = true \/ measure keys P b' < measure keys P b;
  wid_same : c' = false -> c = false /\ b' = b }.

Lemma widened_refl keys P b c : fix_ok keys P b -> widened keys P b b c c.
Proof. intros Hb. split; [done|apply wider_refl|lia|by left|done]. Qed.
Lemma widened_trans keys P b1 b2 b3 c1 c2 c3 : widened keys P b1 b2 c1 c2 -> widened keys P b2 b3 c2 c3 ->
  widened keys P b1 b3 c1 c3.
Proof.
  intros [A1 A2 A3 A4 A5] [B1 B2 B3 B4 B5]. split; [done|by eapply wider_trans|lia|..].
  - intros Hc. destruct (B4 Hc) as [Hc2|]; [destruct (A4 Hc2); [by left|right; lia]|right; lia].
  - intros Hc. destruct (B5 Hc) as [Hc2 ->]. by apply A5.
Qed.

Section fixpoint.
Context (keys : list Z) (Hnd : NoDup keys) (P : Z).

Lemma widen_vreg_ok ls le b c v : fix_ok keys P b -> v ∈ keys -> 0 <= ls -> le <= P ->
  let r := widen_vreg ls le (b, c) v in
  widened keys P b r.1 c r.2 /\
  (r.2 = false -> exists s e, b.1 !! v = Some s /\ b.2 !! v = Some e /\ s <= ls /\ le <= e).
Proof.
  intros [Hk Hp Hw] Hv Hls Hle. pose proof Hv as Hs0. apply Hk in Hs0 as [s Hs]. destruct (proj1 (Hp v) ltac:(by eexists)) as [e He].
  destruct (Hw v) as [Hws Hwe]. specialize (Hws s Hs). specialize (Hwe e He). unfold widen_vreg. rewrite Hs, He. cbn [from_option Datatypes.id fst snd].
  set (s' := if ls <? s then ls else s). set (e' := if e <? le then le else e).
  assert (Hs' : 0 <= s' <= s) by (unfold s'; destruct (Z.ltb_spec ls s); lia).
  assert (He' : e <= e' <= P) by (unfold e'; destruct (Z.ltb_spec e le); lia).
  pose proof (measure_insert keys P b v s e s' e' Hnd Hv Hs He) as Hm. split; [split|]; cbn [fst snd].
  - split; [|intros x; cbn; destruct (decide (x = v)) as [->|]; [by rewrite !lookup_insert_eq|by rewrite !lookup_insert_ne]|].
    + intros x. cbn. destruct (decide (x = v)) as [->|]; [rewrite lookup_insert_eq; split; [by eexists|done]|by rewrite lookup_insert_ne].
    + intros x. cbn. destruct (decide (x = v)) as [->|]; [rewrite !lookup_insert_eq|rewrite !lookup_insert_ne by done; apply Hw].
      split; [intros y [= <-]; lia|intros y [= <-]; lia].
  - intros x s1 e1 Hx1 Hx2. cbn. destruct (decide (x = v)) as [->|].
    + rewrite !lookup_insert_eq. exists s', e'. split_and!; [done|done|..]; assert (s1 = s) by congruence; assert (e1 = e) by congruence; lia.
    + rewrite !lookup_insert_ne by done. exists s1, e1. split_and!; done.
  - rewrite Hm. lia.
  - rewrite !orb_true_iff, !Z.ltb_lt. intros [[->|Hlt]|Hlt]; [by left|right|right]; rewrite Hm.
    + unfold s'. rewrite (proj2 (Z.ltb_lt _ _)) by done. lia.
    + unfold e'. rewrite (proj2 (Z.ltb_lt e le)) by done. lia.
  - rewrite !orb_false_iff, !Z.ltb_ge. intros [[-> H1] H2]. split; [done|].
    unfold s', e'. rewrite (proj2 (Z.ltb_ge ls s)), (proj2 (Z.ltb_ge e le)) by lia. rewrite !insert_id by done. by destruct b.
  - rewrite !orb_false_iff, !Z.ltb_ge. intros [[_ H1] H2]. by exists s, e.
Qed.

Lemma widen_fold_ok ls le : 0 <= ls -> le <= P -> forall vs b c, fix_ok keys P b -> (forall v, v ∈ vs -> v ∈ keys) ->
  let r := foldl (widen_vreg ls le) (b, c) vs in
  widened keys P b r.1 c r.2 /\
  (r.2 = false -> forall v, v ∈ vs -> exists s e, b.1 !! v = Some s /\ b.2 !! v = Some e /\ s <= ls /\ le <= e).
Proof.
  intros Hls Hle. induction vs as [|v vs IH]; intros b c Hb Hvs; cbn [foldl].
  - split; [by apply widened_refl|]. by intros _ v ?%elem_of_nil.
  - destruct (widen_vreg_ok ls le b c v Hb ltac:(apply Hvs; left) Hls Hle) as [H1 H2].
    destruct (widen_vreg ls le (b, c) v) as [b1 c1] eqn:Hv. cbn [fst snd] in H1, H2.
    destruct (IH b1 c1 (wid_ok _ _ _ _ _ _ H1)) as [H3 H4]; [by intros x Hx; apply Hvs; right|]. cbn zeta in *.
    split; [by eapply widened_trans|]. intros Hr x [->|Hx]%elem_of_cons.
    + apply H2. by apply (wid_same _ _ _ _ _ _ H3).
    + destruct (wid_same _ _ _ _ _ _ H3 Hr) as [Hc _]. destruct (wid_same _ _ _ _ _ _ H1 Hc) as [_ ->]. by apply H4.
Qed.

Lemma widen_range_ok r b c : 0 <= r.1 -> r.2 <= P -> fix_ok keys P b ->
  let x := widen_range (b, c) r in
  widened keys P b x.1 c x.2 /\
  (x.2 = false -> forall v, v ∈ keys -> touched b r.1 r.2 v = true ->
     exists s e, b.1 !! v = Some s /\ b.2 !! v = Some e /\ s <= r.1 /\ r.2 <= e).
Proof.
  intros H1 H2 Hb. unfold widen_range. cbn [fst snd].
  destruct (widen_fold_ok r.1 r.2 H1 H2 (filter (fun v => Is_true (touched b r.1 r.2 v)) (elements (dom b.1 ∪ dom b.2 : gset Z))) b c Hb)
    as [H3 H4].
  { intros v [_ Hv]%list_elem_of_filter. apply elem_of_elements, elem_of_union in Hv. rewrite !elem_of_dom in Hv.
    apply (fix_keys _ _ _ Hb). destruct Hv as [|Hv]; [done|]. by apply (fix_paired _ _ _ Hb). }
  split; [done|]. intros Hc v Hv Ht. apply (H4 Hc). apply list_elem_of_filter. split; [by rewrite Ht|].
  apply elem_of_elements, elem_of_union. left. apply elem_of_dom. by apply (fix_keys _ _ _ Hb).
Qed.

(** No range widens anything any more. *)
Definition closed (ranges : list (Z * Z)) (b : bounds) : Prop := forall r v, r ∈ ranges -> v ∈ keys -> touched b r.1 r.2 v = true ->
  exists s e, b.1 !! v = Some s /\ b.2 !! v = Some e /\ s <= r.1 /\ r.2 <= e.

Lemma widen_pass_ok ranges : (forall r, r ∈ ranges -> 0 <= r.1 /\ r.2 <= P) -> forall b c, fix_ok keys P b ->
  let x := foldl widen_range (b, c) ranges in
  widened keys P b x.1 c x.2 /\ (x.2 = false -> closed ranges b).
Proof.
  induction ranges as [|r ranges IH]; intros Hr b c Hb; cbn [foldl].
  - split; [by apply widened_refl|]. by intros _ r v ?%elem_of_nil.
  - destruct (Hr r) as [R1 R2]; [left|]. destruct (widen_range_ok r b c R1 R2 Hb) as [H1 H2].
    destruct (widen_range (b, c) r) as [b1 c1] eqn:Hv. cbn [fst snd] in H1, H2.
    destruct (IH ltac:(by intros x Hx; apply Hr; right) b1 c1 (wid_ok _ _ _ _ _ _ H1)) as [H3 H4]. cbn zeta in *.
    split; [by eapply widened_trans|]. intros Hx. destruct (wid_same _ _ _ _ _ _ H3 Hx) as [Hc _].
    destruct (wid_same _ _ _ _ _ _ H1 Hc) as [_ ->]. intros y v [->|Hy]%elem_of_cons Hv' Ht; [by apply (H2 Hc)|by eapply (H4 Hx)].
Qed.

Lemma widen_ok ranges : (forall r, r ∈ ranges -> 0 <= r.1 /\ r.2 <= P) -> 0 <= P -> forall fuel b, fix_ok keys P b ->
  measure keys P b < Z.of_nat fuel ->
  exists b', widen fuel ranges b = Some b' /\ fix_ok keys P b' /\ wider b b' /\ closed ranges b'.
Proof.
  intros Hr HP. induction fuel as [|fuel IH]; intros b Hb Hf.
  - pose proof (measure_bounds keys P b (fix_within _ _ _ Hb) HP). lia.
  - cbn [widen]. unfold widen_pass. destruct (widen_pass_ok ranges Hr b false Hb) as [H1 H2].
    destruct (foldl widen_range (b, false) ranges) as [b1 [|]] eqn:Hw; cbn [fst snd] in H1, H2.
    + destruct (wid_changed _ _ _ _ _ _ H1 eq_refl) as [|Hlt]; [done|].
      destruct (IH b1 (wid_ok _ _ _ _ _ _ H1) ltac:(lia)) as (b' & -> & A & B & C). exists b'. split_and!; try done.
      eapply wider_trans; [apply H1|done].
    + destruct (wid_same _ _ _ _ _ _ H1 eq_refl) as [_ ->]. exists b. split_and!; [done|done|apply wider_refl|by apply H2].
Qed.
End fixpoint.

(** ** The walk *)
Section layout.
Context (m : IrMethod).

(** The registers that the deoptimization sites of operation [idx] of [b]
    record. *)
Definition recorded (b : IrBlock) (idx : Z) : list Z :=
  match site_where b idx (fun raw => is_trap_or_poll (kind raw)) with
  | Some raw => root_vregs m ++ stack raw
  | None => []
  end ++
  match site_where b idx (fun raw => match inline raw with Some _ => true | None => false end) with
  | Some raw => root_vregs m ++ match inline raw with Some s => concat (map level_vregs (inline_levels s)) | None => [] end ++ stack raw
  | None => []
  end.

(** The operations in position order, each with what its sites record. *)
Fixpoint number (b : IrBlock) (idx : Z) (ops : list Ir) : list (Ir * list Z) :=
  match ops with [] => [] | op :: ops => (op, recorded b (u32 idx)) :: number b (idx + 1) ops end.
Definition code_at (bid : Z) : list (Ir * list Z) :=
  match zlookup (blocks m) bid with Some b => number b 0 (code b) | None => [] end.
Definition layout (order : list Z) : list (Ir * list Z) := concat (map code_at order).
(** Block [bid] starts at position [p]. *)
Definition placed (order : list Z) (bid p : Z) : Prop :=
  exists pre post, order = pre ++ bid :: post /\ p = zlen (layout pre).

Lemma layout_app o1 o2 : layout (o1 ++ o2) = layout o1 ++ layout o2.
Proof. unfold layout. by rewrite map_app, concat_app. Qed.
Lemma layout_cons bid order : layout (bid :: order) = code_at bid ++ layout order.
Proof. done. Qed.
End layout.

Definition walk_bounds (w : walk) : bounds := (min_def w, max_use w).

Record walk_ok (ctx : list Z) (L : list (Ir * list Z)) (w : walk) : Prop := {
  wk_pos : pos w = zlen L;
  wk_cover : forall p op vs v, zlookup L p = Some (op, vs) -> v ∈ uses op ++ defs op ->
    exists s e, min_def w !! v = Some s /\ max_use w !! v = Some e /\ s <= p /\ (v ∈ uses op -> p <= e);
  wk_paired : paired (walk_bounds w);
  wk_within : within (walk_bounds w) (zlen L);
  wk_ordered : ordered (walk_bounds w);
  wk_safe : forall p, p ∈ safepoint_positions w <-> exists op vs, zlookup L p = Some (op, vs) /\ is_safepoint op = true;
  wk_call : forall p, p ∈ call_positions w <-> exists op vs, zlookup L p = Some (op, vs) /\ is_call op = true;
  wk_facts : forall p op vs v sp, zlookup L p = Some (op, vs) -> v ∈ vs ->
    sp = p \/ (sp ∈ safepoint_positions w /\ sp < p) -> (v, sp) ∈ deopt_live_exact w;
  wk_widen : forall f, f ∈ deopt_live_widen w -> f.1 ∈ ctx /\ 0 <= f.2 }.

(** A step that only grows bounds towards the current position. *)
Record grows (w w' : walk) : Prop := {
  gr_pos : pos w' = pos w;
  gr_safe : safepoint_positions w' = safepoint_positions w;
  gr_call : call_positions w' = call_positions w;
  gr_start : block_start_pos w' = block_start_pos w;
  gr_end : block_end_pos w' = block_end_pos w;
  gr_exact : deopt_live_exact w' = deopt_live_exact w;
  gr_widen : deopt_live_widen w' = deopt_live_widen w;
  gr_wider : wider (walk_bounds w) (walk_bounds w');
  gr_paired : paired (walk_bounds w');
  gr_within : within (walk_bounds w') (pos w);
  gr_ordered : ordered (walk_bounds w') }.

Definition bounded (w : walk) : Prop := paired (walk_bounds w) /\ within (walk_bounds w) (pos w) /\ 0 <= pos w /\ ordered (walk_bounds w).

Lemma grows_refl w : bounded w -> grows w w.
Proof. intros (H1 & H2 & _ & H3). split; try done. apply wider_refl. Qed.
Lemma grows_trans w1 w2 w3 : grows w1 w2 -> grows w2 w3 -> grows w1 w3.
Proof.
  intros [A1 A2 A3 A4 A5 A5' A6 A7 A8 A9 A10] [B1 B2 B3 B4 B5 B5' B6 B7 B8 B9 B10]. split; try congruence.
  - exact (wider_trans _ _ _ A7 B7).
  - exact B8.
  - rewrite A1 in B9. exact B9.
  - exact B10.
Qed.
Lemma grows_bounded w w' : bounded w -> grows w w' -> bounded w'.
Proof. intros (_ & _ & H & _) G. unfold bounded. rewrite (gr_pos _ _ G). by destruct G. Qed.

(** Writing both bounds of one register. *)
Lemma grow_one w w' v s' e' : bounded w ->
  pos w' = pos w /\ safepoint_positions w' = safepoint_positions w /\ call_positions w' = call_positions w /\
  block_start_pos w' = block_start_pos w /\ block_end_pos w' = block_end_pos w /\ deopt_live_exact w' = deopt_live_exact w /\ deopt_live_widen w' = deopt_live_widen w ->
  min_def w' = <[v := s']> (min_def w) -> max_use w' = <[v := e']> (max_use w) ->
  0 <= s' <= pos w -> 0 <= e' <= pos w -> s' <= e' ->
  (forall s, min_def w !! v = Some s -> s' <= s) -> (forall e, max_use w !! v = Some e -> e <= e') ->
  grows w w' /\ min_def w' !! v = Some s' /\ max_use w' !! v = Some e'.
Proof.
  intros (Hp & Hw & H0 & Ho) (F1 & F2 & F3 & F4 & F5 & F6 & F7) Hs He Bs Be Bse Ms Me. split; [split; try done|].
  - intros x s e Hxs Hxe. unfold walk_bounds. cbn in *. rewrite Hs, He. destruct (decide (x = v)) as [->|].
    + rewrite !lookup_insert_eq. exists s', e'. split_and!; [done|done|by apply Ms|by apply Me].
    + rewrite !lookup_insert_ne by done. by exists s, e.
  - intros x. unfold walk_bounds. cbn. rewrite Hs, He. destruct (decide (x = v)) as [->|]; [by rewrite !lookup_insert_eq|].
    rewrite !lookup_insert_ne by done. apply Hp.
  - intros x. unfold walk_bounds. cbn. rewrite Hs, He. destruct (decide (x = v)) as [->|].
    + rewrite !lookup_insert_eq. split; [intros ? [= <-]; lia|intros ? [= <-]; lia].
    + rewrite !lookup_insert_ne by done. apply Hw.
  - intros x s e. unfold walk_bounds. cbn. rewrite Hs, He. destruct (decide (x = v)) as [->|].
    + rewrite !lookup_insert_eq. congruence.
    + rewrite !lookup_insert_ne by done. apply Ho.
  - rewrite Hs, He, !lookup_insert_eq. done.
Qed.

Lemma or_insert (g : gmap Z Z) v x : match g !! v with Some _ => g | None => <[v := x]> g end = <[v := default x (g !! v)]> g.
Proof. destruct (g !! v) eqn:Hv; cbn; [by rewrite insert_id|done]. Qed.

Lemma use_ok w v : bounded w -> grows w (use w v) /\
  exists s e, min_def (use w v) !! v = Some s /\ max_use (use w v) !! v = Some e /\ s <= pos w <= e.
Proof.
  intros Hb. pose proof Hb as (Hp & Hw & H0 & Ho). destruct (Hw v) as [Hs He]. specialize (Ho v). cbn in Hs, He, Ho.
  destruct (grow_one w (use w v) v (default (pos w) (min_def w !! v)) (match max_use w !! v with Some e => Z.max e (pos w) | None => pos w end))
    as (H1 & H2 & H3); [done|by split_and!|apply or_insert|done|..].
  - destruct (min_def w !! v) eqn:Hv; cbn; [by apply Hs|lia].
  - destruct (max_use w !! v) eqn:Hv; [specialize (He _ eq_refl)|]; lia.
  - destruct (min_def w !! v) eqn:Hv1; cbn; [specialize (Hs _ eq_refl)|]; destruct (max_use w !! v) eqn:Hv; lia.
  - intros s Hv. rewrite Hv. cbn. lia.
  - intros e Hv. rewrite Hv. lia.
  - split; [done|]. eexists _, _. split_and!; [exact H2|exact H3|..].
    + destruct (min_def w !! v) eqn:Hv; cbn; [by apply Hs|lia].
    + destruct (max_use w !! v) eqn:Hv; lia.
Qed.

Lemma def_ok w v : bounded w -> grows w (def w v) /\
  exists s e, min_def (def w v) !! v = Some s /\ max_use (def w v) !! v = Some e /\ s <= pos w.
Proof.
  intros Hb. pose proof Hb as (Hp & Hw & H0 & Ho). destruct (Hw v) as [Hs He]. specialize (Ho v). cbn in Hs, He, Ho.
  destruct (grow_one w (def w v) v (match min_def w !! v with Some s => Z.min s (pos w) | None => pos w end) (default (pos w) (max_use w !! v)))
    as (H1 & H2 & H3); [done|by split_and!|done|apply or_insert|..].
  - destruct (min_def w !! v) eqn:Hv; [specialize (Hs _ eq_refl)|]; lia.
  - destruct (max_use w !! v) eqn:Hv; cbn; [by apply He|lia].
  - destruct (min_def w !! v) as [s|] eqn:Hv1, (max_use w !! v) as [e|] eqn:Hv; cbn; [specialize (Ho s e eq_refl eq_refl)|..]; try lia.
    destruct (proj2 (Hp v)) as [s Hs']; [cbn; by rewrite Hv|cbn in Hs'; congruence].
  - intros s Hv. rewrite Hv. lia.
  - intros e Hv. rewrite Hv. cbn. lia.
  - split; [done|]. eexists _, _. split_and!; [exact H2|exact H3|]. destruct (min_def w !! v) eqn:Hv; lia.
Qed.

(** Folding either over the registers of an operation. *)
Lemma fold_grows (f : walk -> Z -> walk) (Q : Z -> Z -> Z -> Prop) :
  (forall p s s' e e', Q p s e -> s' <= s -> e <= e' -> Q p s' e') ->
  (forall w v, bounded w -> grows w (f w v) /\ exists s e, min_def (f w v) !! v = Some s /\ max_use (f w v) !! v = Some e /\ Q (pos w) s e) ->
  forall vs w, bounded w -> grows w (foldl f w vs) /\
    forall v, v ∈ vs -> exists s e, min_def (foldl f w vs) !! v = Some s /\ max_use (foldl f w vs) !! v = Some e /\ Q (pos w) s e.
Proof.
  intros HQ Hf. induction vs as [|v vs IH]; intros w Hb; cbn [foldl].
  - split; [by apply grows_refl|]. by intros v ?%elem_of_nil.
  - destruct (Hf w v Hb) as [G1 (s & e & H1 & H2 & H3)]. destruct (IH (f w v)) as [G2 H4]; [by eapply grows_bounded|].
    split; [by eapply grows_trans|]. rewrite (gr_pos _ _ G1) in H4. intros x [->|Hx]%elem_of_cons; [|by apply H4].
    destruct (gr_wider _ _ G2 v s e H1 H2) as (s' & e' & A & B & ? & ?). exists s', e'. split_and!; [done|done|by eapply HQ].
Qed.

(** The facts of one operation. *)
Lemma record_all_shape vs : forall w, exists exact,
  record_all w vs = MkWalk (pos w) (safepoint_positions w) (call_positions w) (min_def w) (max_use w)
    (block_start_pos w) (block_end_pos w) (deopt_live_exact w ++ exact) (deopt_live_widen w) /\
  (forall v sp, v ∈ vs -> sp = pos w \/ (sp ∈ safepoint_positions w /\ sp < pos w) -> (v, sp) ∈ exact).
Proof.
  induction vs as [|v vs IH]; intros w.
  - exists []. rewrite app_nil_r. split; [by destruct w|]. by intros ? ? ?%elem_of_nil.
  - cbn [record_all foldl]. destruct (IH (record w v)) as (exact & H & Hin). unfold record_all in H. rewrite H. cbn in *.
    rewrite <- app_assoc. eexists. split; [done|]. intros x sp [->|Hx]%elem_of_cons Hsp; apply elem_of_app; [left|right; by apply Hin].
    destruct Hsp as [->|[Hsp Hlt]]; [left|right]. apply list_elem_of_fmap. exists sp. split; [done|]. by apply list_elem_of_filter.
Qed.

(** The positions of the operations that satisfy a predicate. *)
Lemma positions_snoc (f : Ir -> bool) x P (L : list (Ir * list Z)) P' : P' = zlen L ->
  (forall p, p ∈ P <-> exists op vs, zlookup L p = Some (op, vs) /\ f op = true) ->
  forall p, p ∈ (if f x.1 then P ++ [P'] else P) <-> exists op vs, zlookup (L ++ [x]) p = Some (op, vs) /\ f op = true.
Proof.
  intros -> HP p. destruct x as [op vs]. cbn [fst].
  transitivity (p ∈ P \/ (f op = true /\ p = zlen L)).
  { destruct (f op); [rewrite elem_of_app, list_elem_of_singleton; tauto|]. split; [by left|]. by intros [|[? _]]. }
  rewrite HP. split.
  - intros [(o & l & Ho & Hf)|[Hf ->]]; [exists o, l|exists op, vs].
    + split; [|done]. rewrite zlookup_app_l; [done|]. apply zlookup_lt in Ho. lia.
    + by rewrite zlookup_mid.
  - intros (o & l & Ho & Hf). destruct (decide (p < zlen L)) as [Hlt|Hge].
    + left. exists o, l. by rewrite zlookup_app_l in Ho.
    + right. assert (p = zlen L) as -> by (apply zlookup_lt in Ho; rewrite zlen_snoc in Ho; lia).
      rewrite zlookup_mid in Ho. by injection Ho as -> ->.
Qed.

Section walking.
Context (m : IrMethod).

(** An operation: its facts, then its reads, then its writes. *)
Lemma walk_op_shape b w idx op : exists exact widen,
  walk_op m b w idx op =
    (let w' := foldl def (foldl use (MkWalk (pos w) (if is_safepoint op then safepoint_positions w ++ [pos w] else safepoint_positions w)
       (if is_call op then call_positions w ++ [pos w] else call_positions w) (min_def w) (max_use w)
       (block_start_pos w) (block_end_pos w) (deopt_live_exact w ++ exact) (deopt_live_widen w ++ widen)) (uses op)) (defs op) in
     MkWalk (pos w' + 1) (safepoint_positions w') (call_positions w') (min_def w') (max_use w')
       (block_start_pos w') (block_end_pos w') (deopt_live_exact w') (deopt_live_widen w')) /\
  (forall v sp, v ∈ recorded m b idx -> sp = pos w \/ (sp ∈ safepoint_positions w /\ sp < pos w) -> (v, sp) ∈ exact) /\
  (forall f, f ∈ widen -> f.1 ∈ ctx_vregs m /\ f.2 = pos w).
Proof.
  set (w0 := MkWalk (pos w) (if is_safepoint op then safepoint_positions w ++ [pos w] else safepoint_positions w)
    (if is_call op then call_positions w ++ [pos w] else call_positions w) (min_def w) (max_use w)
    (block_start_pos w) (block_end_pos w) (deopt_live_exact w) (deopt_live_widen w)).
  destruct (record_all_shape (recorded m b idx) w0) as (exact & Hrec & Hin).
  exists exact, (if existsb (fun '(ci, _) => ci =? idx) (deopt_sites b) then map (fun cv => (cv, pos w)) (ctx_vregs m) else []).
  split_and!.
  - revert Hrec. unfold walk_op, recorded, record_all. fold w0. rewrite foldl_app.
    destruct (site_where b idx (fun raw => is_trap_or_poll (kind raw))), (site_where b idx (fun raw => match inline raw with Some _ => true | None => false end));
      cbn [foldl]; intros ->; destruct (existsb _ _); cbn -[use def]; rewrite ?app_nil_r; done.
  - intros v sp Hv Hsp. apply Hin; [done|]. cbn. destruct Hsp as [|[Hsp Hlt]]; [by left|right]. split; [|done].
    destruct (is_safepoint op); [apply elem_of_app; by left|done].
  - intros f Hf. destruct (existsb _ _); [|by apply elem_of_nil in Hf]. apply list_elem_of_fmap in Hf as (cv & -> & Hcv). done.
Qed.

Lemma walk_op_ok b w idx op L :
  walk_ok (ctx_vregs m) L w ->
  walk_ok (ctx_vregs m) (L ++ [(op, recorded m b idx)]) (walk_op m b w idx op) /\
  block_start_pos (walk_op m b w idx op) = block_start_pos w /\ block_end_pos (walk_op m b w idx op) = block_end_pos w.
Proof.
  intros [Kpos Kcov Kpair Kwith Kord Ksafe Kcall Kfacts Kwid]. destruct (walk_op_shape b w idx op) as (exact & wid & -> & Hex & Hwid). cbn zeta.
  match goal with |- context [foldl use ?x (uses op)] => set (w1 := x) end.
  pose proof (zlen_nonneg L).
  assert (Hb1 : bounded w1) by (unfold bounded; change (pos w1) with (pos w); rewrite Kpos; split_and!; [exact Kpair|exact Kwith|lia|exact Kord]).
  destruct (fold_grows use (fun p s e => s <= p <= e) ltac:(cbn; intros; lia) use_ok (uses op) w1 Hb1) as [G2 H2].
  set (w2 := foldl use w1 (uses op)) in *. pose proof (grows_bounded _ _ Hb1 G2) as Hb2.
  destruct (fold_grows def (fun p s e => s <= p) ltac:(cbn; intros; lia) def_ok (defs op) w2 Hb2) as [G3 H3].
  set (w3 := foldl def w2 (defs op)) in *. pose proof (grows_trans _ _ _ G2 G3) as G.
  destruct G as [Gpos Gsafe Gcall Gstart Gend Gex Gwid Gwider Gpair Gwith Gord]. cbn in Gpos, Gsafe, Gcall, Gstart, Gend, Gex, Gwid.
  split; [|cbn; by rewrite Gstart, Gend]. split; cbn.
  - rewrite Gpos, Kpos, zlen_snoc. done.
  - intros p op' vs v Hp Hv. destruct (decide (p < zlen L)) as [Hlt|Hge].
    + rewrite zlookup_app_l in Hp by done. destruct (Kcov p op' vs v Hp Hv) as (s & e & A & B & C & D).
      destruct (Gwider v s e A B) as (s' & e' & A' & B' & ? & ?). exists s', e'. split_and!; [done|done|lia|]. intros Hu. specialize (D Hu). lia.
    + assert (p = zlen L) as -> by (apply zlookup_lt in Hp; rewrite zlen_snoc in Hp; lia).
      rewrite zlookup_mid in Hp. injection Hp as <- <-. rewrite <- Kpos. destruct (decide (v ∈ uses op)) as [Hu|Hu].
      * destruct (H2 v Hu) as (s & e & A & B & C). cbn in C. destruct (gr_wider _ _ G3 v s e A B) as (s' & e' & A' & B' & ? & ?).
        exists s', e'. split_and!; [done|done|lia|lia].
      * apply elem_of_app in Hv as [|Hv]; [done|]. destruct (H3 v Hv) as (s & e & A & B & C). rewrite (gr_pos _ _ G2) in C.
        exists s, e. by split_and!.
  - done.
  - rewrite zlen_snoc, <- Kpos. intros v. destruct (Gwith v) as [A B]. cbn in A, B. split; intros x Hx; [specialize (A x Hx)|specialize (B x Hx)]; lia.
  - exact Gord.
  - rewrite Gsafe. apply (positions_snoc is_safepoint (op, recorded m b idx)); [by rewrite Kpos|done].
  - rewrite Gcall. apply (positions_snoc is_call (op, recorded m b idx)); [by rewrite Kpos|done].
  - rewrite Gex, Gsafe. intros p op' vs v sp Hp Hv Hsp. apply elem_of_app. destruct (decide (p < zlen L)) as [Hlt|Hge].
    + left. rewrite zlookup_app_l in Hp by done. eapply Kfacts; [done|done|]. destruct Hsp as [|[Hsp ?]]; [by left|right]. split; [|done].
      destruct (is_safepoint op); [|done]. apply elem_of_app in Hsp as [|Hsp]; [done|]. apply list_elem_of_singleton in Hsp. lia.
    + right. assert (p = zlen L) as -> by (apply zlookup_lt in Hp; rewrite zlen_snoc in Hp; lia).
      rewrite zlookup_mid in Hp. injection Hp as <- <-. apply Hex; [done|]. rewrite Kpos. destruct Hsp as [|[Hsp ?]]; [by left|right]. split; [|done].
      destruct (is_safepoint op); [|done]. apply elem_of_app in Hsp as [|Hsp]; [done|]. apply list_elem_of_singleton in Hsp. lia.
  - rewrite Gwid. intros f [Hf|Hf]%elem_of_app; [by apply Kwid|]. destruct (Hwid f Hf) as [? ->]. split; [done|]. rewrite Kpos. apply zlen_nonneg.
Qed.

Lemma walk_code_ok b : forall ops w idx L, walk_ok (ctx_vregs m) L w ->
  walk_ok (ctx_vregs m) (L ++ number m b idx ops) (walk_code m b w idx ops) /\
  block_start_pos (walk_code m b w idx ops) = block_start_pos w /\ block_end_pos (walk_code m b w idx ops) = block_end_pos w.
Proof.
  induction ops as [|op ops IH]; intros w idx L Hw; cbn [walk_code number]; [by rewrite app_nil_r|].
  destruct (walk_op_ok b w (u32 idx) op L Hw) as (H1 & H2 & H3). destruct (IH _ (idx + 1) _ H1) as (H4 & H5 & H6).
  rewrite <- app_assoc in H4. split_and!; [exact H4|congruence|congruence].
Qed.

(** Where the walk leaves the blocks it has laid out. *)
Definition loop_end_of (bid p : Z) : Z := Z.max 0 (p + zlen (code_at m bid) - 1).
Record laid_out (order : list Z) (w : walk) : Prop := {
  lay_ok : walk_ok (ctx_vregs m) (layout m order) w;
  lay_in : forall b, b ∈ order -> exists p, placed m order b p /\ block_start_pos w !! b = Some p /\ block_end_pos w !! b = Some (loop_end_of b p);
  lay_only : forall b, is_Some (block_start_pos w !! b) -> b ∈ order }.

Lemma placed_snoc order x b p : placed m order b p -> placed m (order ++ [x]) b p.
Proof. intros (pre & post & -> & ->). exists pre, (post ++ [x]). by rewrite <- app_assoc. Qed.

Lemma walk_block_ok order w bid : laid_out order w -> bid ∉ order -> block_ok m bid ->
  exists w', walk_block m w bid = Some w' /\ laid_out (order ++ [bid]) w'.
Proof.
  intros [Hok Hin Honly] Hnew Hb. destruct (zlookup_is_Some _ _ Hb) as [b Hlk].
  unfold walk_block. rewrite Hlk. cbn [mbind option_bind]. cbn zeta.
  match goal with |- context [walk_code m b ?x 0 (code b)] => set (w0 := x) end.
  assert (H0 : walk_ok (ctx_vregs m) (layout m order) w0) by (destruct Hok; by split).
  destruct (walk_code_ok b (code b) w0 0 _ H0) as (H1 & H2 & H3). set (w1 := walk_code m b w0 0 (code b)) in *.
  assert (Hc : code_at m bid = number m b 0 (code b)) by (unfold code_at; by rewrite Hlk).
  eexists. split; [reflexivity|].
  assert (Hl : layout m (order ++ [bid]) = layout m order ++ number m b 0 (code b)).
  { rewrite layout_app, layout_cons, Hc. cbn. by rewrite app_nil_r. }
  split; cbn -[zlen].
  - rewrite Hl. destruct H1. by split.
  - intros x. rewrite H2, H3. cbn. rewrite elem_of_app, list_elem_of_singleton, (wk_pos _ _ _ H1), (wk_pos _ _ _ Hok).
    destruct (decide (x = bid)) as [->|Hne]; intros Hx.
    + exists (zlen (layout m order)). rewrite !lookup_insert_eq. split_and!; [by exists order, []|done|].
      unfold loop_end_of. rewrite Hc, zlen_app. done.
    + rewrite !lookup_insert_ne by done. destruct Hx as [Hx|]; [|done]. destruct (Hin x Hx) as (p & P1 & P2 & P3).
      exists p. split_and!; [by apply placed_snoc|done|done].
  - intros x. rewrite H2. cbn. rewrite elem_of_app, list_elem_of_singleton. destruct (decide (x = bid)) as [->|]; [by right|].
    rewrite lookup_insert_ne by done. left. by apply Honly.
Qed.

Lemma walk_blocks_ok : forall todo order w, laid_out order w -> NoDup (order ++ todo) -> (forall b, b ∈ todo -> block_ok m b) ->
  exists w', walk_blocks m w todo = Some w' /\ laid_out (order ++ todo) w'.
Proof.
  induction todo as [|bid todo IH]; intros order w Hw Hnd Hok; cbn [walk_blocks]; [rewrite app_nil_r; by exists w|].
  destruct (walk_block_ok order w bid Hw) as (w1 & -> & H1).
  - apply NoDup_app in Hnd as (_ & Hd & _). intros Hin. apply (Hd bid Hin). left.
  - apply Hok. left.
  - cbn [mbind option_bind]. destruct (IH (order ++ [bid]) w1 H1) as (w2 & -> & H2).
    + by rewrite <- app_assoc.
    + intros b Hb. apply Hok. by right.
    + exists w2. split; [done|]. by rewrite <- app_assoc in H2.
Qed.

Lemma walk_new_ok : laid_out [] walk_new.
Proof.
  split; [split; cbn; try done|..].
  - intros p op vs v Hp. apply zlookup_lt in Hp. unfold zlen in Hp. cbn in Hp. lia.
  - intros p. rewrite elem_of_nil. split; [done|]. intros (op & vs & Hp & _). apply zlookup_lt in Hp. unfold zlen in Hp. cbn in Hp. lia.
  - intros p. rewrite elem_of_nil. split; [done|]. intros (op & vs & Hp & _). apply zlookup_lt in Hp. unfold zlen in Hp. cbn in Hp. lia.
  - intros p op vs v sp Hp. apply zlookup_lt in Hp. unfold zlen in Hp. cbn in Hp. lia.
  - by intros f ?%elem_of_nil.
  - by intros b ?%elem_of_nil.
  - intros b. cbn. rewrite lookup_empty. by intros [].
Qed.

(** The ranges are those of the back edges. *)
Lemma loop_ranges_ok order w : laid_out order w -> forall todo, (forall b, b ∈ todo -> b ∈ order /\ block_ok m b) ->
  exists ranges, loop_ranges m w todo = Some ranges /\
    (forall r, r ∈ ranges -> 0 <= r.1 /\ 0 <= r.2 <= pos w) /\
    (forall bid b s p q, bid ∈ todo -> zlookup (blocks m) bid = Some b -> s ∈ successors b ->
       block_start_pos w !! bid = Some p -> block_start_pos w !! s = Some q -> q <= p -> (q, loop_end_of bid p) ∈ ranges).
Proof.
  intros Hlay. induction todo as [|bid todo IH]; intros Htodo; cbn [loop_ranges].
  - exists []. split_and!; [done|by intros r ?%elem_of_nil|by intros ????? ?%elem_of_nil].
  - destruct (Htodo bid) as [Hin Hb]; [left|]. destruct (zlookup_is_Some _ _ Hb) as [b Hlk].
    destruct (lay_in _ _ Hlay bid Hin) as (p & Hp & Hs & He).
    unfold block_ranges. rewrite Hlk, Hs, He. cbn [mbind option_bind].
    destruct IH as (rest & -> & Hr & Hc); [intros x Hx; apply Htodo; by right|]. cbn [mbind option_bind].
    eexists. split; [reflexivity|]. split.
    + intros r [Hr'|Hr']%elem_of_app; [|by apply Hr]. apply list_elem_of_omap in Hr' as (s & _ & Hs').
      destruct (block_start_pos w !! s) as [a|] eqn:Ha; [|done]. cbn [mbind option_bind] in Hs'. destruct (a <=? p); [|done]. injection Hs' as <-.
      cbn [fst snd]. destruct (lay_in _ _ Hlay s (lay_only _ _ Hlay s (mk_is_Some _ _ Ha))) as (a' & (pre & post & E & ->) & Ha' & _).
      rewrite Ha in Ha'. injection Ha' as ->. split; [apply zlen_nonneg|]. destruct Hp as (pre' & post' & E' & ->).
      rewrite (wk_pos _ _ _ (lay_ok _ _ Hlay)), E', layout_app, layout_cons, !zlen_app. unfold loop_end_of.
      pose proof (zlen_nonneg (layout m pre')). pose proof (zlen_nonneg (layout m post')). pose proof (zlen_nonneg (code_at m bid)). lia.
    + intros bid' b' s p' q Hbid Hb' Hsucc Hp' Hq Hle. apply elem_of_app. apply elem_of_cons in Hbid as [->|Hbid]; [left|right; by eapply Hc].
      rewrite Hlk in Hb'. injection Hb' as <-. rewrite Hs in Hp'. injection Hp' as <-. apply list_elem_of_omap. exists s. split; [done|].
      rewrite Hq. cbn [mbind option_bind]. by rewrite (proj2 (Z.leb_le _ _)).
Qed.
End walking.

(** ** After the fixpoint *)
Lemma widen_ctx_ok b f : paired b -> paired (widen_ctx b f) /\ wider b (widen_ctx b f).
Proof.
  destruct f as [v sp]. intros Hb. unfold widen_ctx. rewrite or_insert. split.
  - intros x. cbn. destruct (decide (x = v)) as [->|]; [by rewrite !lookup_insert_eq|]. rewrite !lookup_insert_ne by done. apply Hb.
  - intros x s e Hs He. cbn. destruct (decide (x = v)) as [->|]; [|rewrite !lookup_insert_ne by done; exists s, e; by split_and!].
    rewrite !lookup_insert_eq, Hs, He. cbn. eexists _, _. split_and!; [done|done|done|]. destruct (Z.leb_spec e sp); lia.
Qed.
Lemma or_zero_ok b v : paired b -> paired (or_zero b v) /\ wider b (or_zero b v).
Proof.
  intros Hb. unfold or_zero. rewrite !or_insert. split.
  - intros x. cbn. destruct (decide (x = v)) as [->|]; [by rewrite !lookup_insert_eq|]. rewrite !lookup_insert_ne by done. apply Hb.
  - intros x s e Hs He. cbn. destruct (decide (x = v)) as [->|]; [|rewrite !lookup_insert_ne by done; exists s, e; by split_and!].
    rewrite !lookup_insert_eq, Hs, He. cbn. eexists _, _. by split_and!.
Qed.

Lemma widen_ctx_other v l : (forall f, f ∈ l -> f.1 <> v) -> forall b,
  (foldl widen_ctx b l).1 !! v = b.1 !! v /\ (foldl widen_ctx b l).2 !! v = b.2 !! v.
Proof.
  induction l as [|[x sp] l IH]; intros Hl b; [done|]. cbn [foldl]. destruct (IH ltac:(by intros f Hf; apply Hl; right) (widen_ctx b (x, sp))) as [-> ->].
  pose proof (Hl (x, sp) ltac:(left)) as Hx. cbn in Hx. unfold widen_ctx. rewrite or_insert. cbn. by rewrite !lookup_insert_ne.
Qed.

Lemma or_zero_lookup v l : forall b, paired b ->
  let b' := foldl or_zero b l in
  (is_Some (b.1 !! v) -> b'.1 !! v = b.1 !! v /\ b'.2 !! v = b.2 !! v) /\
  (b.1 !! v = None -> b'.1 !! v = None \/ (b'.1 !! v = Some 0 /\ b'.2 !! v = Some 0)) /\
  (v ∈ l -> is_Some (b'.1 !! v)).
Proof.
  induction l as [|x l IH]; intros b Hb; cbn [foldl].
  - split_and!; [done|by left|by intros ?%elem_of_nil].
  - destruct (or_zero_ok b x Hb) as [Hp Hwide]. destruct (IH _ Hp) as (H1 & H2 & H3). cbn zeta in *.
    destruct (decide (x = v)) as [->|Hne].
    + assert (Hv : (or_zero b v).1 !! v = Some (default 0 (b.1 !! v)) /\ (or_zero b v).2 !! v = Some (default 0 (b.2 !! v))).
      { unfold or_zero. rewrite !or_insert. cbn. by rewrite !lookup_insert_eq. }
      destruct Hv as [V1 V2]. destruct (H1 ltac:(by eexists)) as [-> ->]. rewrite V1, V2. split_and!; [|right|by eexists].
      * intros Hs. pose proof (proj1 (Hb v) Hs) as He. destruct Hs as [s ->], He as [e ->]. done.
      * rewrite H. cbn. destruct (b.2 !! v) eqn:E; [|done]. destruct (proj2 (Hb v) ltac:(by eexists)); congruence.
    + assert (Hv : (or_zero b x).1 !! v = b.1 !! v /\ (or_zero b x).2 !! v = b.2 !! v).
      { unfold or_zero. rewrite !or_insert. cbn. by rewrite !lookup_insert_ne. }
      destruct Hv as [V1 V2]. rewrite V1, V2 in *. split_and!; [done|done|]. intros [|]%elem_of_cons; [done|by apply H3].
Qed.

Lemma interval_of_vreg m b r sps calls v iv : interval_of m b r sps calls v = Some iv -> vreg iv = v.
Proof. unfold interval_of. destruct (b.1 !! v); [|done]. destruct (zlookup (vregs m) v); [|done]. by intros [= <-]. Qed.

Lemma omap_vregs (f : Z -> option LiveInterval) l : (forall v iv, f v = Some iv -> vreg iv = v) -> NoDup l -> NoDup (map vreg (omap f l)).
Proof.
  intros Hf. induction 1 as [|x l Hx Hnd IH]; [constructor|]. cbn. destruct (f x) as [iv|] eqn:E; [|done]. cbn. constructor; [|done].
  rewrite (Hf _ _ E). intros Hin. apply list_elem_of_fmap in Hin as (y & -> & Hy). apply list_elem_of_omap in Hy as (z & Hz & Hy).
  apply Hf in Hy. by subst.
Qed.

Lemma NoDup_zrange lo hi : NoDup (zrange lo hi).
Proof. unfold zrange. apply NoDup_fmap_2; [intros x y; lia|apply NoDup_seq]. Qed.

(** What the rest of the compiler relies on. *)
Record live_ok (m : IrMethod) (lv : liveness) : Prop := {
  lo_order : NoDup (l_block_order lv) /\ (forall i, i ∈ l_block_order lv <-> block_ok m i) /\
    (blocks m <> [] -> head (l_block_order lv) = Some 0);
  lo_start : forall bid, bid ∈ l_block_order lv -> exists p, placed m (l_block_order lv) bid p /\ l_block_start_pos lv !! bid = Some p;
  lo_safe : forall p, p ∈ l_safepoint_positions lv <-> exists op vs, zlookup (layout m (l_block_order lv)) p = Some (op, vs) /\ is_safepoint op = true;
  lo_call : forall p, p ∈ l_call_positions lv <-> exists op vs, zlookup (layout m (l_block_order lv)) p = Some (op, vs) /\ is_call op = true;
  lo_unique : NoDup (map vreg (l_intervals lv));
  lo_ordered : forall iv, iv ∈ l_intervals lv -> 0 <= start iv <= end_ iv;
  lo_info : forall iv, iv ∈ l_intervals lv ->
    zlookup (vregs m) (vreg iv) = Some (MkVReg (iv_is_oop iv) (is_fp iv)) /\ assignment iv = None /\ resident_reg iv = None /\
    (forall sp, sp ∈ l_safepoint_positions lv -> start iv <= sp < end_ iv -> crosses_safepoint iv = true) /\
    (crosses_call iv = true <-> exists cp, cp ∈ l_call_positions lv /\ start iv <= cp < end_ iv);
  lo_cover : forall p op vs v, zlookup (layout m (l_block_order lv)) p = Some (op, vs) -> v ∈ uses op ++ defs op -> 0 <= v < zlen (vregs m) ->
    exists iv, iv ∈ l_intervals lv /\ vreg iv = v /\ start iv <= p /\ (v ∈ uses op -> p <= end_ iv);
  lo_deopt : forall p op vs v, zlookup (layout m (l_block_order lv)) p = Some (op, vs) -> v ∈ vs ->
    (forall sp, sp = p \/ (sp ∈ l_safepoint_positions lv /\ sp < p) -> (v, sp) ∈ l_extra_oop_live lv) /\
    (0 <= v < zlen (vregs m) -> exists iv, iv ∈ l_intervals lv /\ vreg iv = v /\ crosses_safepoint iv = true);
  lo_loop : forall bid b s p q iv, bid ∈ l_block_order lv -> zlookup (blocks m) bid = Some b -> s ∈ successors b ->
    l_block_start_pos lv !! bid = Some p -> l_block_start_pos lv !! s = Some q -> q <= p ->
    iv ∈ l_intervals lv -> vreg iv ∉ ctx_vregs m ->
    start iv <= loop_end_of m bid p -> q <= end_ iv -> start iv < q \/ loop_end_of m bid p < end_ iv ->
    start iv <= q /\ loop_end_of m bid p <= end_ iv }.

Lemma fix_start_ok ctx L w : walk_ok ctx L w -> fix_ok (elements (dom (min_def w))) (zlen L) (walk_bounds w).
Proof.
  intros Hw. split; [|apply Hw|apply Hw]. intros v. cbn. by rewrite elem_of_elements, elem_of_dom.
Qed.

(** Intervals that are not reversed stay so. *)
Definition sane (b : bounds) : Prop := forall v s e, b.1 !! v = Some s -> b.2 !! v = Some e -> 0 <= s <= e.

Lemma widen_sane w keys P b : ordered (walk_bounds w) -> paired (walk_bounds w) -> (forall v, v ∈ keys <-> is_Some (min_def w !! v)) ->
  fix_ok keys P b -> wider (walk_bounds w) b -> sane b.
Proof.
  intros Ho Hp Hk Hf Hw v s e Hs He. assert (is_Some (min_def w !! v)) as [s0 Hs0] by (apply Hk, (fix_keys _ _ _ Hf); by eexists).
  destruct (proj1 (Hp v) (mk_is_Some _ _ Hs0)) as [e0 He0]. pose proof (Ho v s0 e0 Hs0 He0).
  destruct (Hw v s0 e0 Hs0 He0) as (s' & e' & A & B & ? & ?). destruct (fix_within _ _ _ Hf v) as [F _]. specialize (F s Hs).
  assert (s' = s) by congruence. assert (e' = e) by congruence. lia.
Qed.

Lemma sane_foldl {A} (f : bounds -> A -> bounds) l : forall b, sane b -> paired b ->
  (forall b x, x ∈ l -> sane b -> paired b -> sane (f b x) /\ paired (f b x)) -> sane (foldl f b l).
Proof.
  induction l as [|x l IH]; intros b Hb Hp Hf; [done|]. cbn. destruct (Hf b x ltac:(left) Hb Hp).
  apply IH; [done|done|]. intros b' y Hy. apply Hf. by right.
Qed.
Lemma widen_ctx_sane b f : 0 <= f.2 -> sane b -> paired b -> sane (widen_ctx b f).
Proof.
  destruct f as [v sp]. cbn. intros Hsp Hb Hp x s e. unfold widen_ctx. rewrite or_insert. cbn.
  destruct (decide (x = v)) as [->|]; [rewrite !lookup_insert_eq|rewrite !lookup_insert_ne by done; apply Hb].
  intros [= <-] [= <-]. pose proof (Hp v) as Hpv. pose proof (Hb v) as Hbv.
  destruct (b.1 !! v) as [s0|], (b.2 !! v) as [e0|]; cbn.
  - specialize (Hbv s0 e0 eq_refl eq_refl). destruct (Z.leb_spec e0 sp); lia.
  - destruct (proj1 Hpv ltac:(by eexists)). done.
  - destruct (proj2 Hpv ltac:(by eexists)). done.
  - lia.
Qed.
Lemma or_zero_sane b v : sane b -> paired b -> sane (or_zero b v).
Proof.
  intros Hb Hp x s e. unfold or_zero. rewrite !or_insert. cbn.
  destruct (decide (x = v)) as [->|]; [rewrite !lookup_insert_eq|rewrite !lookup_insert_ne by done; apply Hb].
  intros [= <-] [= <-]. pose proof (Hp v) as Hpv. pose proof (Hb v) as Hbv.
  destruct (b.1 !! v) as [s0|], (b.2 !! v) as [e0|]; cbn; [by apply Hbv|..|lia].
  - destruct (proj1 Hpv ltac:(by eexists)). done.
  - destruct (proj2 Hpv ltac:(by eexists)). done.
Qed.

(** The bounds after the fixpoint and the two passes that follow it. *)
Lemma final_bounds ctx L w ranges : walk_ok ctx L w -> (forall r, r ∈ ranges -> 0 <= r.1 /\ 0 <= r.2 <= pos w) ->
  forall keys, exists b b1, widen (widen_fuel w) ranges (min_def w, max_use w) = Some b /\
    b1 = foldl or_zero (foldl widen_ctx b (deopt_live_widen w)) keys /\
    wider (walk_bounds w) b1 /\ paired b1 /\ sane b1 /\ (forall v, v ∈ keys -> is_Some (b1.1 !! v)) /\
    (forall r v s e, r ∈ ranges -> v ∉ ctx -> b1.1 !! v = Some s -> b1.2 !! v = Some e ->
       s <= r.2 -> r.1 <= e -> s < r.1 \/ r.2 < e -> s <= r.1 /\ r.2 <= e).
Proof.
  intros Hw Hr keys. pose proof (fix_start_ok _ _ _ Hw) as Hfix. pose proof (zlen_nonneg L) as HP.
  pose proof (measure_bounds (elements (dom (min_def w))) _ _ (fix_within _ _ _ Hfix) HP) as Hm.
  destruct (widen_ok (elements (dom (min_def w))) (NoDup_elements _) (zlen L) ranges) with (fuel := widen_fuel w) (b := walk_bounds w)
    as (b & Hb & Hf & Hwide & Hclosed); [|done|done|..].
  - intros r Hrr. destruct (Hr r Hrr). rewrite <- (wk_pos _ _ _ Hw). lia.
  - unfold widen_fuel. rewrite (wk_pos _ _ _ Hw).
    assert (Hsz : length (elements (dom (min_def w))) = size (min_def w)) by (rewrite <- size_dom; done). rewrite Hsz in Hm. nia.
  - destruct (wider_foldl widen_ctx (deopt_live_widen w) widen_ctx_ok b (fix_paired _ _ _ Hf)) as [P1 W1].
    set (b0 := foldl widen_ctx b (deopt_live_widen w)) in *.
    destruct (wider_foldl or_zero keys or_zero_ok b0 P1) as [P2 W2].
    exists b, (foldl or_zero b0 keys). split_and!; [exact Hb|done|by eapply wider_trans; [exact Hwide|eapply wider_trans]|done|..].
    + apply sane_foldl; [|done|intros; split; [by apply or_zero_sane|by apply or_zero_ok]].
      apply sane_foldl; [|by apply (fix_paired _ _ _ Hf)|intros x f Hff; split; [apply widen_ctx_sane; [by apply (wk_widen _ _ _ Hw)|done|done]|by apply widen_ctx_ok]].
      eapply (widen_sane w (elements (dom (min_def w)))); [apply Hw|apply Hw| |exact Hf|exact Hwide]. intros v. by rewrite elem_of_elements, elem_of_dom.
    + intros v Hv. by apply (or_zero_lookup v keys b0 P1).
    + intros r v s e Hrr Hctx Hs He Hse Hrs Hout. destruct (or_zero_lookup v keys b0 P1) as (K1 & K2 & _). cbn zeta in *.
      destruct (widen_ctx_other v (deopt_live_widen w)) with (b := b) as [C1 C2].
      { intros f Hff <-. apply Hctx. by apply (wk_widen _ _ _ Hw). }
      fold b0 in C1, C2. destruct (b0.1 !! v) as [s0|] eqn:E0.
      * destruct (K1 (mk_is_Some _ _ eq_refl)) as [K1a K1b]. rewrite K1a in Hs. injection Hs as ->. rewrite K1b, C2 in He. symmetry in C1.
        destruct (Hclosed r v Hrr) as (s' & e' & S' & E' & ? & ?).
        -- apply (fix_keys _ _ _ Hf). by eexists.
        -- unfold touched. rewrite C1, He. cbn [from_option Datatypes.id]. rewrite andb_true_iff, orb_true_iff, andb_true_iff, !Z.leb_le, !Z.ltb_lt. tauto.
        -- rewrite C1 in S'. rewrite He in E'. injection S' as ->. injection E' as ->. done.
      * destruct (K2 eq_refl) as [Hn|[Z1 Z2]]; [congruence|]. destruct (Hr r Hrr). rewrite Z1 in Hs. rewrite Z2 in He. injection Hs as <-. injection He as <-. lia.
Qed.

(** [compute_intervals] returns, and what it returns is [live_ok]. *)
Lemma compute_intervals_ok m : targets_ok m -> zlen (blocks m) < 2 ^ 32 ->
  exists lv, compute_intervals m = Some lv /\ live_ok m lv.
Proof.
  intros Ht Hsz. destruct (reverse_postorder_ok m Ht Hsz) as (order & Hord & Hnd & Hiff & Hhead).
  unfold compute_intervals. rewrite Hord. cbn [mbind option_bind].
  destruct (walk_blocks_ok m order [] walk_new (walk_new_ok m)) as (w & Hw & Hlay); [done|intros b; apply Hiff|]. cbn [app] in Hlay.
  rewrite Hw. cbn [mbind option_bind].
  destruct (loop_ranges_ok m order w Hlay order) as (ranges & Hranges & Hr & Hback); [intros b Hb; split; [done|by apply Hiff]|].
  rewrite Hranges. cbn [mbind option_bind]. cbn zeta. pose proof (lay_ok _ _ _ Hlay) as Hok.
  set (exact := deopt_live_exact w ++ elements (loop_facts w ranges)).
  set (referenced := list_to_set (exact.*1 ++ (deopt_live_widen w).*1) : gset Z).
  destruct (final_bounds _ _ w ranges Hok Hr (elements referenced)) as (b & b1 & Hb & Hb1 & Hwide & Hpair & Hsane & Hkeys & Hloop).
  rewrite Hb. cbn [mbind option_bind]. rewrite <- Hb1. eexists. split; [reflexivity|].
  assert (Hiv : forall iv, iv ∈ omap (interval_of m b1 referenced (safepoint_positions w) (call_positions w)) (zrange 0 (zlen (vregs m))) ->
    interval_of m b1 referenced (safepoint_positions w) (call_positions w) (vreg iv) = Some iv).
  { intros iv (v & _ & Hv)%list_elem_of_omap. by rewrite (interval_of_vreg _ _ _ _ _ _ _ Hv). }
  assert (Hbd : forall iv, interval_of m b1 referenced (safepoint_positions w) (call_positions w) (vreg iv) = Some iv ->
    b1.1 !! vreg iv = Some (start iv) /\ b1.2 !! vreg iv = Some (end_ iv)).
  { intros iv H. unfold interval_of in H. destruct (b1.1 !! vreg iv) as [s0|] eqn:Hs; [|done]. destruct (proj1 (Hpair (vreg iv)) ltac:(by eexists)) as [e He].
    destruct (zlookup (vregs m) (vreg iv)); [|done]. rewrite He in *. cbn in H. injection H as H. rewrite <- H. done. }
  assert (Hex : forall v s, 0 <= v < zlen (vregs m) -> b1.1 !! v = Some s -> exists iv,
    iv ∈ omap (interval_of m b1 referenced (safepoint_positions w) (call_positions w)) (zrange 0 (zlen (vregs m))) /\ vreg iv = v /\
    start iv = s /\ Some (end_ iv) = b1.2 !! v /\ (v ∈ referenced -> crosses_safepoint iv = true)).
  { intros v s Hv Hs. destruct (zlookup_is_Some (vregs m) v Hv) as [i Hi]. destruct (proj1 (Hpair v) ltac:(by eexists)) as [e He].
    eexists. split; [apply list_elem_of_omap; exists v; split; [by apply elem_of_zrange|]; unfold interval_of; rewrite Hs, Hi; reflexivity|].
    cbn. rewrite He. split_and!; [done|done|done|]. intros Href. by rewrite bool_decide_true. }
  split; cbn [l_block_order l_intervals l_safepoint_positions l_block_start_pos l_extra_oop_live l_call_positions].
  - done.
  - intros bid Hbid. destruct (lay_in _ _ _ Hlay bid Hbid) as (p & ? & ? & _). by exists p.
  - apply Hok.
  - apply Hok.
  - apply omap_vregs; [apply interval_of_vreg|apply NoDup_zrange].
  - intros iv H%Hiv. destruct (Hbd iv H) as [E1 E2]. by apply (Hsane (vreg iv)).
  - intros iv H%Hiv. unfold interval_of in H. destruct (b1.1 !! vreg iv) as [s|] eqn:Hs; [|done].
    destruct (zlookup (vregs m) (vreg iv)) as [[io ifp]|] eqn:Hv; [|done]. cbn in H. injection H as H.
    rewrite <- H. cbn. split_and!; [try rewrite Hv; done|done|done|..].
    + intros sp Hsp Hrange. apply orb_true_iff. right. apply existsb_exists. exists sp. split; [by apply list_elem_of_In|].
      rewrite andb_true_iff, Z.leb_le, Z.ltb_lt. lia.
    + rewrite existsb_exists. setoid_rewrite <- list_elem_of_In. setoid_rewrite andb_true_iff. setoid_rewrite Z.leb_le. setoid_rewrite Z.ltb_lt. done.
  - intros p op vs v Hp Hv Hr'. destruct (wk_cover _ _ _ Hok p op vs v Hp Hv) as (s & e & A & B & C & D).
    destruct (Hwide v s e A B) as (s' & e' & A' & B' & ? & ?). destruct (Hex v s' Hr' A') as (iv & I1 & I2 & I3 & I4 & _).
    rewrite B' in I4. injection I4 as I4. exists iv. split_and!; [done|done|lia|]. intros Hu. specialize (D Hu). lia.
  - intros p op vs v Hp Hv. split.
    + intros sp Hsp. apply elem_of_app. left. by eapply (wk_facts _ _ _ Hok).
    + intros Hr'. assert (Href : v ∈ referenced).
      { apply elem_of_list_to_set, elem_of_app. left. apply list_elem_of_fmap. exists (v, p). split; [done|]. apply elem_of_app. left.
        eapply (wk_facts _ _ _ Hok); [done|done|by left]. }
      destruct (Hkeys v) as [s Hs]; [by apply elem_of_elements|]. destruct (Hex v s Hr' Hs) as (iv & I1 & I2 & _ & _ & I5). exists iv. auto.
  - intros bid blk s p q iv Hbid Hblk Hsucc Hp Hq Hle H%Hiv Hctx H1 H2 H3.
    destruct (Hbd iv H) as [E1 E2].
    apply (Hloop (q, loop_end_of m bid p) (vreg iv) _ _ (Hback bid blk s p q Hbid Hblk Hsucc Hp Hq Hle) Hctx E1 E2 H1 H2 H3).
Qed.

(** C38. Liveness analysis terminates and is sound: the block order visits every
    block once, the entry first; safepoint and call positions are exactly
    those of the operations laid out in that order; every register an
    operation mentions has one interval, which begins no later than the
    operation and reaches it when it is read; an interval that meets a loop
    from outside covers the whole loop; and every register a deoptimization
    site records is marked as crossing a safepoint and named as live at the
    site and at every safepoint laid out before it. *)
Theorem intervals_live m (Htargets : targets_ok m) (Hsize : zlen (blocks m) < 2 ^ 32) :
  exists lv, compute_intervals m = Some lv /\ live_ok m lv.
Proof. by apply compute_intervals_ok. Qed.

(** A counting loop: the loop variable is register 1, the receiver 0. *)
Definition counting_loop : IrMethod := MkMethod false
  [MkBlock 0 0 [Param 0 0; ConstSmi 1 0; ConstSmi 2 10; Jump 1] [] [];
   MkBlock 1 4 [SmiCmpBr Lt 1 2 2 3 4] [] [];
   MkBlock 2 8 [ConstSmi 3 1; SmiArith SmiAdd 1 1 3 4; Poll; Jump 1] []
     [(2, MkRaw [] 4 Deopt.LoopPoll true [] None)];
   MkBlock 3 12 [Ret 0] [] [];
   MkBlock 4 8 [UncommonTrap 8] [] [(0, MkRaw [1; 2] 8 Deopt.UncommonTrap true [] None)]]
  (replicate 4 (MkVReg true false)) 0 1 None [] None.

Lemma counting_loop_targets : targets_ok counting_loop.
Proof.
  intros b s Hb Hs. apply list_elem_of_In in Hb. cbn in Hb.
  repeat (destruct Hb as [<-|Hb]; [cbn in Hs; repeat (apply elem_of_cons in Hs as [->|Hs]; [done|]); by apply elem_of_nil in Hs|]). done.
Qed.

Lemma intervals_live_witness : exists lv, compute_intervals counting_loop = Some lv /\ live_ok counting_loop lv /\
  l_block_order lv = [0; 1; 3; 2; 4] /\
  (* the loop variable is widened to the end of the loop's last block *)
  (fun iv => (vreg iv, start iv, end_ iv)) <$> l_intervals lv = [(0, 0, 9); (1, 1, 9); (2, 2, 9); (3, 6, 7)].
Proof.
  destruct (intervals_live counting_loop) as (lv & H1 & H2); [exact counting_loop_targets|reflexivity|].
  exists lv. split; [exact H1|]. split; [exact H2|]. vm_compute in H1. injection H1 as <-. split; vm_compute; reflexivity.
Defined.
End Intervals.
