(* ===== verification/Regalloc.v ===== *)
(** Linear-scan register allocation ([src/src/compiler/regalloc.rs]).

    Intervals are indexed by their position in the vector, which never changes.
    A Rust [Vec] used as a stack has its top at the end.  The register files
    of the two targets are values of [target]; the theorems hold of any with
    nonempty pools that list no register twice. *)
From S2P Require Import Prelude Scopes OopMaps Ir.
From stdpp Require Import gmap sorting.
Export Maps.
#[local] Open Scope Z_scope.

Module Regalloc.
Import IR.

(** ** Register files *)
Record target := MkTarget {
  ALLOCATABLE_REGS : list Z;
  FP_ALLOCATABLE_REGS : list Z;
  RESIDENCY_CANDIDATES : list Z;
  resident_base : list Z;
  fp_resident_base : list Z;
  residents_cross_calls : bool }.

Definition aarch64 : target := MkTarget
  [0; 1; 2; 3; 4; 5; 6; 7; 8; 9; 10; 11; 12; 13; 14; 15] [0; 1; 2; 3; 4; 5; 6; 7]
  [6; 7; 8; 9; 10; 11; 12; 13; 14; 15] [21; 22; 23; 24; 25; 26; 27] [8; 9; 10; 11; 12; 13; 14; 15] false.
Definition x86_64 : target := MkTarget
  [1; 2; 3; 6; 7; 8; 9] [0; 1; 2; 6; 7; 8; 9; 10; 11; 12; 13; 14; 15] [12; 13; 14] [] [] true.
Definition MAX_REG_NUM : Z := 16.

Definition pool (T : target) (fp : bool) : list Z := if fp then FP_ALLOCATABLE_REGS T else ALLOCATABLE_REGS T.

Record target_ok (T : target) : Prop := {
  pool_nodup : forall fp, NoDup (pool T fp);
  pool_nonempty : forall fp, pool T fp <> [] }.

(** ** Vectors *)
Definition pop {A} (l : list A) : option (A * list A) :=
  match rev l with [] => None | x :: l => Some (x, rev l) end.

(** A stable sort. *)
Fixpoint insert_by {A} (le : A -> A -> bool) (x : A) (l : list A) : list A :=
  match l with [] => [x] | y :: k => if le x y then x :: l else y :: insert_by le x k end.
Definition sort_by {A} (le : A -> A -> bool) (l : list A) : list A := foldr (insert_by le) [] l.

(** ** Linear scan *)
Definition with_assignment (iv : LiveInterval) (a : Assignment) : LiveInterval :=
  MkInterval (vreg iv) (start iv) (end_ iv) (iv_is_oop iv) (is_fp iv) (crosses_safepoint iv) (crosses_call iv)
    (Some a) (resident_reg iv).

Definition spill (iv : LiveInterval) (slot_is_oop : list bool) : LiveInterval * list bool :=
  (with_assignment iv (Spill (u16 (zlen slot_is_oop))), slot_is_oop ++ [iv_is_oop iv]).

Fixpoint spill_crossing (ivs : list LiveInterval) (slots : list bool) : list LiveInterval * list bool :=
  match ivs with
  | [] => ([], slots)
  | iv :: ivs =>
      let '(iv, slots) := if crosses_safepoint iv then spill iv slots else (iv, slots) in
      let '(ivs, slots) := spill_crossing ivs slots in (iv :: ivs, slots)
  end.

Definition register (iv : LiveInterval) : option Z := match assignment iv with Some (Reg r) => Some r | _ => None end.
Definition unassigned (iv : LiveInterval) : bool := match assignment iv with None => true | _ => false end.

Definition scan_order (ivs : list LiveInterval) : list nat :=
  let st i := default 0 (start <$> ivs !! i) in
  sort_by (fun i j => st i <=? st j)
    (filter (fun i => Is_true (match ivs !! i with Some iv => unassigned iv | None => false end)) (seq 0 (length ivs))).

(** The two register files: active intervals and free registers of each. *)
Record scan := MkScan {
  ivs : list LiveInterval;
  slot_is_oop : list bool;
  gpr : list nat * list Z;
  fpr : list nat * list Z }.
Definition file (st : scan) (fp : bool) : list nat * list Z := if fp then fpr st else gpr st.
Definition set_file (st : scan) (fp : bool) (f : list nat * list Z) : scan :=
  if fp then MkScan (ivs st) (slot_is_oop st) (gpr st) f else MkScan (ivs st) (slot_is_oop st) f (fpr st).

(** [retain]: drops the intervals that end before [s], freeing their registers. *)
Fixpoint expire (l : list LiveInterval) (s : Z) (act : list nat) (free : list Z) : option (list nat * list Z) :=
  match act with
  | [] => Some ([], free)
  | j :: act =>
      iv ← l !! j;
      if end_ iv <? s then expire l s act (match register iv with Some r => free ++ [r] | None => free end)
      else '(act, free) ← expire l s act free; Some (j :: act, free)
  end.

(** [max_by_key]: the last of the active intervals that end last. *)
Fixpoint furthest_from (l : list LiveInterval) (act : list nat) (pos : nat) (best : option (nat * nat * Z)) :
    option (option (nat * nat * Z)) :=
  match act with
  | [] => Some best
  | j :: act =>
      iv ← l !! j;
      furthest_from l act (S pos)
        (match best with
         | Some (p, b, e) => if e <=? end_ iv then Some (pos, j, end_ iv) else best
         | None => Some (pos, j, end_ iv)
         end)
  end.
Definition furthest_active (l : list LiveInterval) (act : list nat) : option (nat * nat) :=
  r ← furthest_from l act 0 None; '(p, j, _) ← r; Some (p, j).

Definition scan_one (st : scan) (i : nat) : option scan :=
  iv ← ivs st !! i;
  let fp := is_fp iv in
  '(act, free) ← expire (ivs st) (start iv) (file st fp).1 (file st fp).2;
  match pop free with
  | Some (r, free) =>
      Some (set_file (MkScan (<[i := with_assignment iv (Reg r)]> (ivs st)) (slot_is_oop st) (gpr st) (fpr st))
              fp (act ++ [i], free))
  | None =>
      '(p, j) ← furthest_active (ivs st) act;
      jv ← ivs st !! j;
      if end_ iv <? end_ jv then
        r ← register jv;
        let '(jv, slots) := spill jv (slot_is_oop st) in
        Some (set_file (MkScan (<[i := with_assignment iv (Reg r)]> (<[j := jv]> (ivs st))) slots (gpr st) (fpr st))
                fp (delete p act ++ [i], free))
      else
        let '(iv, slots) := spill iv (slot_is_oop st) in
        Some (set_file (MkScan (<[i := iv]> (ivs st)) slots (gpr st) (fpr st)) fp (act, free))
  end.

Fixpoint scan_all (st : scan) (order : list nat) : option scan :=
  match order with [] => Some st | i :: order => st ← scan_one st i; scan_all st order end.

(** [verify_spill_all]'s assertion. *)
Definition verify_spill_all (l : list LiveInterval) : bool :=
  forallb (fun iv => negb (crosses_safepoint iv && match assignment iv with Some (Reg _) => true | _ => false end)) l.

Definition allocate (T : target) (l : list LiveInterval) : option (list LiveInterval * Z * list bool) :=
  let '(l, slots) := spill_crossing l [] in
  st ← scan_all (MkScan l slots ([], rev (ALLOCATABLE_REGS T)) ([], rev (FP_ALLOCATABLE_REGS T))) (scan_order l);
  if verify_spill_all (ivs st) then Some (ivs st, u16 (zlen (slot_is_oop st)), slot_is_oop st) else None.

(** ** Correctness of the scan *)
Definition bare (iv : LiveInterval) : LiveInterval :=
  MkInterval (vreg iv) (start iv) (end_ iv) (iv_is_oop iv) (is_fp iv) (crosses_safepoint iv) (crosses_call iv)
    None (resident_reg iv).
Definition spilled (iv : LiveInterval) : option Z := match assignment iv with Some (Spill s) => Some s | _ => None end.
Definition not_spilled (iv : LiveInterval) : bool := match spilled iv with None => true | _ => false end.
Definition unspilled (l : list LiveInterval) : Z := zlen (filter (fun iv => Is_true (not_spilled iv)) l).

(** An active entry: interval [j] of file [fp] holds register [r]. *)
Definition entry (l : list LiveInterval) (todo : list nat) (fp : bool) (j : nat) (r : Z) : Prop :=
  exists iv, l !! j = Some iv /\ is_fp iv = fp /\ register iv = Some r /\ j ∉ todo.
Definition file_ok (T : target) (l : list LiveInterval) (todo : list nat) (fp : bool) (f : list nat * list Z) : Prop :=
  exists rs, Forall2 (entry l todo fp) f.1 rs /\ rs ++ f.2 ≡ₚ pool T fp.

Record scan_ok (T : target) (l0 : list LiveInterval) (todo : list nat) (st : scan) : Prop := {
  so_keeps : map bare (ivs st) = map bare l0;
  so_file : forall fp, file_ok T (ivs st) todo fp (file st fp);
  so_expired : forall i iv r, ivs st !! i = Some iv -> register iv = Some r ->
    i ∈ (file st (is_fp iv)).1 \/ forall k kv, k ∈ todo -> ivs st !! k = Some kv -> end_ iv < start kv;
  so_todo : forall k kv, ivs st !! k = Some kv -> (assignment kv = None <-> k ∈ todo);
  so_disjoint : forall i j iv jv r, i <> j -> ivs st !! i = Some iv -> ivs st !! j = Some jv -> is_fp iv = is_fp jv ->
    register iv = Some r -> register jv = Some r -> end_ iv < start jv \/ end_ jv < start iv;
  so_pool : forall i iv r, ivs st !! i = Some iv -> register iv = Some r -> r ∈ pool T (is_fp iv);
  so_slots : forall i iv s, ivs st !! i = Some iv -> spilled iv = Some s ->
    zlookup (slot_is_oop st) s = Some (iv_is_oop iv);
  so_inj : forall i j iv jv s, ivs st !! i = Some iv -> ivs st !! j = Some jv ->
    spilled iv = Some s -> spilled jv = Some s -> i = j;
  so_safe : forall i iv, ivs st !! i = Some iv -> crosses_safepoint iv = true -> spilled iv <> None;
  so_room : zlen (slot_is_oop st) + unspilled (ivs st) = zlen l0 }.

Lemma pop_Some {A} (l : list A) : match pop l with Some (x, k) => l = k ++ [x] | None => l = [] end.
Proof.
  unfold pop. destruct (rev l) as [|x k] eqn:H; apply (f_equal (@rev A)) in H; rewrite rev_involutive in H; [done|exact H].
Qed.

Lemma file_set st fp f fp' : file (set_file st fp f) fp' = if eqb fp fp' then f else file st fp'.
Proof. by destruct fp, fp'. Qed.
Lemma ivs_set st fp f : ivs (set_file st fp f) = ivs st.
Proof. by destruct fp. Qed.
Lemma slots_set st fp f : slot_is_oop (set_file st fp f) = slot_is_oop st.
Proof. by destruct fp. Qed.

Lemma unspilled_insert l i iv iv' : l !! i = Some iv ->
  unspilled (<[i := iv']> l) = unspilled l - Z.b2z (not_spilled iv) + Z.b2z (not_spilled iv').
Proof.
  intros Hi. unfold unspilled, zlen. rewrite <- (take_drop_middle l i iv Hi) at 2.
  rewrite insert_take_drop by (by eapply lookup_lt_Some). rewrite !filter_app, !length_app, !filter_cons.
  destruct (not_spilled iv), (not_spilled iv'); cbn [Is_true Z.b2z]; repeat (destruct (decide _); cbn [length]; try tauto); lia.
Qed.

Lemma keeps_insert l l0 i iv a : map bare l = map bare l0 -> l !! i = Some iv ->
  map bare (<[i := with_assignment iv a]> l) = map bare l0.
Proof.
  intros Hk Hi. rewrite <- Hk. change (bare <$> <[i := with_assignment iv a]> l = bare <$> l).
  rewrite list_fmap_insert. apply list_insert_id. by rewrite list_lookup_fmap, Hi.
Qed.

Lemma expire_ok l todo fp s : forall act rs free, Forall2 (entry l todo fp) act rs ->
  exists act' free' rs', expire l s act free = Some (act', free') /\ Forall2 (entry l todo fp) act' rs' /\
    rs' ++ free' ≡ₚ rs ++ free /\ (forall j, j ∈ act' -> j ∈ act) /\
    forall j iv, j ∈ act -> l !! j = Some iv -> j ∈ act' \/ end_ iv < s.
Proof.
  induction act as [|j act IH]; intros rs free HF; cbn [expire].
  - exists [], free, rs. split_and!; try done. intros j iv ?%elem_of_nil. done.
  - inversion HF as [|? r ? rs0 (iv & Hj & Hfp & Hr & Ht) HF0]; subst. rewrite Hj. cbn [mbind option_bind]. rewrite Hr.
    destruct (Z.ltb_spec (end_ iv) s) as [Hlt|Hge].
    + destruct (IH rs0 (free ++ [r]) HF0) as (act' & free' & rs' & -> & H1 & H2 & H3 & H4). exists act', free', rs'.
      split_and!; [done|done| |by intros k Hk; right; apply H3|].
      * rewrite H2. solve_Permutation.
      * intros k kv [->|Hk]%elem_of_cons Hkv; [right; congruence|by eapply H4].
    + destruct (IH rs0 free HF0) as (act' & free' & rs' & -> & H1 & H2 & H3 & H4). cbn [mbind option_bind].
      exists (j :: act'), free', (r :: rs'). split_and!; [done| | |..].
      * constructor; [by exists iv|done].
      * cbn. by rewrite H2.
      * intros k [->|Hk]%elem_of_cons; [left|right; by apply H3].
      * intros k kv [->|Hk]%elem_of_cons Hkv; [left; left|]. destruct (H4 k kv Hk Hkv); [left; by right|by right].
Qed.

Lemma furthest_from_ok l act0 : (forall j, j ∈ act0 -> is_Some (l !! j)) -> forall act pre best, act0 = pre ++ act ->
  match best with Some (p, j, _) => act0 !! p = Some j | None => True end ->
  exists r, furthest_from l act (length pre) best = Some r /\
    match r with Some (p, j, _) => act0 !! p = Some j | None => best = None /\ act = [] end.
Proof.
  intros Hin. induction act as [|j act IH]; intros pre best He Hb; cbn [furthest_from].
  - exists best. split; [done|]. destruct best as [[[p k] e]|]; [done|done].
  - destruct (Hin j) as [iv Hiv]; [rewrite He; apply elem_of_app; right; left|]. rewrite Hiv. cbn [mbind option_bind].
    assert (Hj : act0 !! length pre = Some j) by (rewrite He; by apply list_lookup_middle).
    replace (S (length pre)) with (length (pre ++ [j])) by (rewrite length_app; cbn; lia).
    match goal with |- exists r, furthest_from _ _ _ ?b = _ /\ _ => destruct (IH (pre ++ [j]) b) as (r & -> & Hr) end.
    + by rewrite <- app_assoc.
    + destruct best as [[[p k] e]|]; [by destruct (e <=? end_ iv)|done].
    + exists r. split; [done|]. destruct r as [[[p k] e]|]; [done|]. destruct Hr as [Hr _].
      destruct best as [[[p k] e]|]; [by destruct (e <=? end_ iv)|done].
Qed.

Lemma furthest_ok l act : (forall j, j ∈ act -> is_Some (l !! j)) -> act <> [] ->
  exists p j, furthest_active l act = Some (p, j) /\ act !! p = Some j.
Proof.
  intros Hin Hne. unfold furthest_active. destruct (furthest_from_ok l act Hin act [] None eq_refl I) as (r & Hr & Hres).
  change (length []) with 0%nat in Hr. rewrite Hr. cbn [mbind option_bind].
  destruct r as [[[p j] e]|]; [by exists p, j|by destruct Hres].
Qed.

Lemma file_ok_nodup T l todo fp f : target_ok T -> file_ok T l todo fp f ->
  NoDup f.1 /\ (forall j r, r ∈ f.2 -> ~ entry l todo fp j r \/ j ∉ f.1).
Proof.
  intros HT (rs & HF & Hp). assert (Hnd : NoDup (rs ++ f.2)) by (rewrite Hp; by apply (pool_nodup _ HT)).
  apply NoDup_app in Hnd as (Hrs & Hdis & _). split.
  - apply NoDup_alt. intros a b j Ha Hb. destruct (Forall2_lookup_l _ _ _ _ _ HF Ha) as (r & Hra & iv & Hj & _ & Hr & _).
    destruct (Forall2_lookup_l _ _ _ _ _ HF Hb) as (r' & Hrb & iv' & Hj' & _ & Hr' & _).
    assert (r' = r) as -> by congruence. by eapply NoDup_lookup.
  - intros j r Hr. destruct (decide (j ∈ f.1)) as [Hj|]; [left|by right].
    apply list_elem_of_lookup_1 in Hj as [a Ha]. intros (iv & Hiv & _ & Hrr & _).
    destruct (Forall2_lookup_l _ _ _ _ _ HF Ha) as (r' & Hra & iv' & Hj' & _ & Hr' & _).
    assert (r' = r) as -> by congruence. eapply Hdis; [by eapply list_elem_of_lookup_2|done].
Qed.

Lemma entry_frame l l' todo todo' fp j r : entry l todo fp j r -> l' !! j = l !! j -> (forall x, x ∈ todo' -> x ∈ todo) ->
  entry l' todo' fp j r.
Proof. intros (iv & H1 & H2 & H3 & H4) He Ht. exists iv. rewrite He. split_and!; auto. Qed.

(** Dropping expired intervals from a file. *)
Lemma refile_ok T l0 todo st fp act' free' s : scan_ok T l0 todo st -> file_ok T (ivs st) todo fp (act', free') ->
  (forall j iv, j ∈ (file st fp).1 -> ivs st !! j = Some iv -> j ∈ act' \/ end_ iv < s) ->
  (forall k kv, k ∈ todo -> ivs st !! k = Some kv -> s <= start kv) ->
  scan_ok T l0 todo (set_file st fp (act', free')).
Proof.
  intros [] Hf Hact Hs. split; rewrite ?ivs_set, ?slots_set; try done.
  - intros fp'. rewrite file_set. destruct (Bool.eqb_spec fp fp') as [<-|]; [done|apply so_file0].
  - intros i iv r Hi Hr. rewrite file_set. destruct (so_expired0 i iv r Hi Hr) as [Ha|He]; [|by right].
    destruct (Bool.eqb_spec fp (is_fp iv)) as [->|]; [|by left]. cbn [fst].
    destruct (Hact i iv Ha Hi) as [|Hlt]; [by left|right]. intros k kv Hk Hkv. specialize (Hs k kv Hk Hkv). lia.
Qed.

Section step.
Context (T : target) (HT : target_ok T) (l0 : list LiveInterval) (Hroom : zlen l0 < 2 ^ 16).
Context (i : nat) (todo : list nat) (Hnd : NoDup (i :: todo)).

Lemma not_in_todo : i ∉ todo.
Proof. by inversion Hnd. Qed.

(** A free register goes to interval [i]. *)
Lemma assign_ok st iv act free r : scan_ok T l0 (i :: todo) st -> ivs st !! i = Some iv -> crosses_safepoint iv = false ->
  file st (is_fp iv) = (act, free ++ [r]) ->
  (forall k kv, k ∈ todo -> ivs st !! k = Some kv -> start iv <= start kv) ->
  scan_ok T l0 todo (set_file (MkScan (<[i := with_assignment iv (Reg r)]> (ivs st)) (slot_is_oop st) (gpr st) (fpr st))
     (is_fp iv) (act ++ [i], free)).
Proof.
  intros Hok Hi Hsafe Hfile Hord. pose proof not_in_todo as Hit. pose proof Hok as [].
  pose proof (so_file0 (is_fp iv)) as Hf. rewrite Hfile in Hf. destruct (file_ok_nodup T _ _ _ _ HT Hf) as [Hnda Hfree].
  assert (Hun : assignment iv = None) by (apply (so_todo0 _ _ Hi); left).
  assert (Hlen : (i < length (ivs st))%nat) by (by eapply lookup_lt_Some).
  set (l' := <[i := _]> (ivs st)).
  assert (Hother : forall k, k <> i -> l' !! k = ivs st !! k) by (intros; by apply list_lookup_insert_ne).
  assert (Hself : l' !! i = Some (with_assignment iv (Reg r))) by (by apply list_lookup_insert_eq).
  (* the other holders of [r] in this file have expired *)
  assert (Hexp : forall j jv, ivs st !! j = Some jv -> is_fp jv = is_fp iv -> register jv = Some r -> end_ jv < start iv).
  { intros j jv Hj Hc Hr. destruct (so_expired0 j jv r Hj Hr) as [Ha|He]; [|by apply (He i iv); [left|]].
    rewrite Hc, Hfile in Ha. exfalso. destruct (Hfree j r) as [Hn|Hn]; [apply elem_of_app; right; by left| |done].
    apply Hn. exists jv. split_and!; try done. intros Hjt. apply (so_todo0 _ _ Hj) in Hjt. unfold register in Hr. by rewrite Hjt in Hr. }
  split; rewrite ?ivs_set, ?slots_set; cbn [ivs slot_is_oop]; fold l'.
  - by apply keeps_insert.
  - intros fp. rewrite file_set. destruct (Bool.eqb_spec (is_fp iv) fp) as [<-|Hne].
    + destruct Hf as (rs & HF & Hp). exists (rs ++ [r]). cbn [fst snd] in *. split.
      * apply Forall2_app; [|constructor; [|done]].
        -- eapply Forall2_impl; [exact HF|]. intros j x He. pose proof He as (jv & _ & _ & _ & Hjt).
           eapply entry_frame; [exact He|apply Hother; intros ->; apply Hjt; left|by right].
        -- exists (with_assignment iv (Reg r)). by split_and!.
      * rewrite <- Hp. solve_Permutation.
    + destruct (so_file0 fp) as (rs & HF & Hp). exists rs. destruct fp, (is_fp iv); try done; cbn [file] in *; (split; [|done]);
        (eapply Forall2_impl; [exact HF|]); intros j x He; pose proof He as (jv & _ & _ & _ & Hjt);
        (eapply entry_frame; [exact He|apply Hother; intros ->; apply Hjt; left|by right]).
  - intros k kv x Hk Hx. destruct (decide (k = i)) as [->|Hki].
    + rewrite Hself in Hk. injection Hk as <-. left. cbn [is_fp with_assignment]. rewrite file_set, Bool.eqb_reflx. apply elem_of_app. right. left.
    + rewrite Hother in Hk by done. rewrite file_set. destruct (so_expired0 k kv x Hk Hx) as [Ha|He].
      * left. destruct (Bool.eqb_spec (is_fp iv) (is_fp kv)) as [He|]; [|by destruct (is_fp kv)].
        apply elem_of_app. left. by rewrite <- He, Hfile in Ha.
      * right. intros y yv Hy Hyv. apply (He y yv); [by right|]. rewrite <- Hother; [done|]. by intros ->.
  - intros k kv Hk. destruct (decide (k = i)) as [->|Hki].
    + rewrite Hself in Hk. injection Hk as <-. cbn. by split.
    + rewrite Hother in Hk by done. rewrite (so_todo0 k kv Hk), elem_of_cons. tauto.
  - intros a b av bv x Hab Ha Hb Hc Hra Hrb. destruct (decide (a = i)) as [->|Hai], (decide (b = i)) as [->|Hbi]; [done|..].
    + rewrite Hself in Ha. injection Ha as <-. cbn in Hra, Hc |- *. injection Hra as <-. rewrite Hother in Hb by done.
      right. by eapply Hexp.
    + rewrite Hself in Hb. injection Hb as <-. cbn in Hrb, Hc |- *. injection Hrb as <-. rewrite Hother in Ha by done.
      left. by eapply Hexp.
    + rewrite Hother in Ha, Hb by done. by eapply (so_disjoint0 a b).
  - intros k kv x Hk Hx. destruct (decide (k = i)) as [->|Hki].
    + rewrite Hself in Hk. injection Hk as <-. cbn in Hx |- *. injection Hx as <-. destruct Hf as (rs & _ & <-).
      apply elem_of_app. right. apply elem_of_app. right. left.
    + rewrite Hother in Hk by done. by eapply so_pool0.
  - intros k kv x Hk Hx. destruct (decide (k = i)) as [->|Hki]; [rewrite Hself in Hk; by injection Hk as <-|].
    rewrite Hother in Hk by done. by eapply so_slots0.
  - intros a b av bv x Ha Hb Hsa Hsb.
    destruct (decide (a = i)) as [->|Hai]; [rewrite Hself in Ha; by injection Ha as <-|].
    destruct (decide (b = i)) as [->|Hbi]; [rewrite Hself in Hb; by injection Hb as <-|].
    rewrite Hother in Ha, Hb by done. by eapply so_inj0.
  - intros k kv Hk Hx. destruct (decide (k = i)) as [->|Hki]; [rewrite Hself in Hk; injection Hk as <-; cbn in Hx; congruence|].
    rewrite Hother in Hk by done. by eapply so_safe0.
  - unfold l'. rewrite (unspilled_insert _ _ _ _ Hi). unfold not_spilled, spilled. cbn. rewrite Hun. cbn. lia.
Qed.

(** Interval [k] gives up its register, or never had one, for a fresh slot:
    everything that does not concern the files. *)
Lemma spill_parts st todo' k kv st' : scan_ok T l0 todo' st -> ivs st !! k = Some kv -> spilled kv = None ->
  ivs st' = <[k := with_assignment kv (Spill (u16 (zlen (slot_is_oop st))))]> (ivs st) ->
  slot_is_oop st' = slot_is_oop st ++ [iv_is_oop kv] ->
  u16 (zlen (slot_is_oop st)) = zlen (slot_is_oop st) /\ map bare (ivs st') = map bare l0 /\
  (forall x xv s, ivs st' !! x = Some xv -> spilled xv = Some s -> zlookup (slot_is_oop st') s = Some (iv_is_oop xv)) /\
  (forall a b av bv s, ivs st' !! a = Some av -> ivs st' !! b = Some bv -> spilled av = Some s -> spilled bv = Some s -> a = b) /\
  (forall x xv, ivs st' !! x = Some xv -> crosses_safepoint xv = true -> spilled xv <> None) /\
  zlen (slot_is_oop st') + unspilled (ivs st') = zlen l0.
Proof.
  intros [] Hk Hun Hi Hs. set (n := zlen (slot_is_oop st)) in *.
  assert (Hn : n < zlen l0).
  { rewrite <- so_room0. fold n. unfold unspilled, zlen. assert (kv ∈ filter (fun iv => Is_true (not_spilled iv)) (ivs st)) as Hin.
    { apply list_elem_of_filter. split; [unfold not_spilled; by rewrite Hun|by eapply list_elem_of_lookup_2]. }
    destruct (filter _ _); [by apply elem_of_nil in Hin|cbn; lia]. }
  assert (Hu : u16 n = n) by (apply wrapU_id; unfold inU; unfold n, zlen in *; lia). rewrite Hu in Hi.
  assert (Hother : forall x, x <> k -> ivs st' !! x = ivs st !! x) by (intros; rewrite Hi; by apply list_lookup_insert_ne).
  assert (Hself : ivs st' !! k = Some (with_assignment kv (Spill n))) by (rewrite Hi; apply list_lookup_insert_eq; by eapply lookup_lt_Some).
  assert (Hlow : forall x xv s, ivs st !! x = Some xv -> spilled xv = Some s -> 0 <= s < n).
  { intros x xv s Hx Hxs. eapply zlookup_lt. by eapply so_slots0. }
  split_and!; [done|rewrite Hi; by apply keeps_insert|..].
  - intros x xv s Hx Hxs. rewrite Hs. destruct (decide (x = k)) as [->|Hne].
    + rewrite Hself in Hx. injection Hx as <-. cbn in Hxs |- *. injection Hxs as <-. by apply zlookup_mid.
    + rewrite Hother in Hx by done. rewrite zlookup_app_l by (by eapply Hlow). by eapply so_slots0.
  - intros a b av bv s Ha Hb Hsa Hsb. destruct (decide (a = k)) as [->|Hak], (decide (b = k)) as [->|Hbk]; [done|..].
    + rewrite Hself in Ha. injection Ha as <-. cbn in Hsa. injection Hsa as <-. rewrite Hother in Hb by done.
      specialize (Hlow _ _ _ Hb Hsb). lia.
    + rewrite Hself in Hb. injection Hb as <-. cbn in Hsb. injection Hsb as <-. rewrite Hother in Ha by done.
      specialize (Hlow _ _ _ Ha Hsa). lia.
    + rewrite Hother in Ha, Hb by done. by eapply so_inj0.
  - intros x xv Hx Hc. destruct (decide (x = k)) as [->|Hne]; [rewrite Hself in Hx; by injection Hx as <-|].
    rewrite Hother in Hx by done. by eapply so_safe0.
  - rewrite Hi, Hs, (unspilled_insert _ _ _ _ Hk). unfold not_spilled at 1. rewrite Hun. cbn [not_spilled spilled with_assignment assignment Z.b2z].
    rewrite zlen_snoc. fold n. unfold not_spilled, spilled. cbn. lia.
Qed.

(** Interval [i] goes to a slot. *)
Lemma spill_self_ok st iv st' : scan_ok T l0 (i :: todo) st -> ivs st !! i = Some iv ->
  ivs st' = <[i := with_assignment iv (Spill (u16 (zlen (slot_is_oop st))))]> (ivs st) ->
  slot_is_oop st' = slot_is_oop st ++ [iv_is_oop iv] -> (forall fp, file st' fp = file st fp) ->
  scan_ok T l0 todo st'.
Proof.
  intros Hok Hi Hivs Hsl Hfile. pose proof not_in_todo as Hit. pose proof Hok as [].
  assert (Hun : assignment iv = None) by (apply (so_todo0 _ _ Hi); left).
  destruct (spill_parts st (i :: todo) i iv st' Hok Hi ltac:(unfold spilled; by rewrite Hun) Hivs Hsl) as (_ & P1 & P2 & P3 & P4 & P5).
  assert (Hother : forall x, x <> i -> ivs st' !! x = ivs st !! x) by (intros; rewrite Hivs; by apply list_lookup_insert_ne).
  assert (Hself : exists s, ivs st' !! i = Some (with_assignment iv (Spill s)))
    by (eexists; rewrite Hivs; apply list_lookup_insert_eq; by eapply lookup_lt_Some).
  destruct Hself as [n Hself].
  assert (Hreg : forall x xv r, ivs st' !! x = Some xv -> register xv = Some r -> x <> i /\ ivs st !! x = Some xv).
  { intros x xv r Hx Hr. destruct (decide (x = i)) as [->|Hne]; [rewrite Hself in Hx; by injection Hx as <-|].
    by rewrite <- Hother. }
  split; try done.
  - intros fp. rewrite Hfile. destruct (so_file0 fp) as (rs & HF & Hp). exists rs. split; [|done].
    eapply Forall2_impl; [exact HF|]. intros j x He. pose proof He as (jv & _ & _ & _ & Hjt).
    eapply entry_frame; [exact He|apply Hother; intros ->; apply Hjt; left|by right].
  - intros k kv x Hk Hx. destruct (Hreg k kv x Hk Hx) as [Hne Hk']. rewrite Hfile.
    destruct (so_expired0 k kv x Hk' Hx) as [Ha|He]; [by left|right]. intros y yv Hy Hyv.
    apply (He y yv); [by right|]. rewrite <- Hother; [done|]. by intros ->.
  - intros k kv Hk. destruct (decide (k = i)) as [->|Hki].
    + rewrite Hself in Hk. injection Hk as <-. cbn. by split.
    + rewrite Hother in Hk by done. rewrite (so_todo0 k kv Hk), elem_of_cons. tauto.
  - intros a b av bv x Hab Ha Hb Hc Hra Hrb. destruct (Hreg a av x Ha Hra), (Hreg b bv x Hb Hrb). by eapply (so_disjoint0 a b).
  - intros k kv x Hk Hx. destruct (Hreg k kv x Hk Hx). by eapply so_pool0.
Qed.

(** An active interval [j] loses its register to a slot. *)
Lemma evict_ok st todo' fp act p j jv r : scan_ok T l0 todo' st -> file st fp = (act, []) -> act !! p = Some j ->
  ivs st !! j = Some jv -> register jv = Some r ->
  scan_ok T l0 todo' (set_file (MkScan (<[j := with_assignment jv (Spill (u16 (zlen (slot_is_oop st))))]> (ivs st))
     (slot_is_oop st ++ [iv_is_oop jv]) (gpr st) (fpr st)) fp (delete p act, [r])).
Proof.
  intros Hok Hfile Hp Hj Hr. pose proof Hok as []. set (st1 := MkScan _ _ _ _).
  assert (Huns : spilled jv = None) by (unfold register, spilled in *; by destruct (assignment jv) as [[]|]).
  destruct (spill_parts st todo' j jv st1 Hok Hj Huns eq_refl eq_refl) as (_ & P1 & P2 & P3 & P4 & P5).
  pose proof (so_file0 fp) as Hf. rewrite Hfile in Hf. destruct (file_ok_nodup T _ _ _ _ HT Hf) as [Hnda _]. cbn [fst] in Hnda.
  destruct Hf as (rs & HF & Hperm). cbn [fst snd] in HF, Hperm.
  destruct (Forall2_lookup_l _ _ _ _ _ HF Hp) as (r' & Hrp & jv' & Hj' & Hfp & Hr' & Hjt).
  assert (jv' = jv) as -> by congruence. assert (r' = r) as -> by congruence. subst fp.
  assert (Hother : forall x, x <> j -> ivs st1 !! x = ivs st !! x) by (intros; by apply list_lookup_insert_ne).
  assert (Hself : exists s, ivs st1 !! j = Some (with_assignment jv (Spill s)))
    by (eexists; apply list_lookup_insert_eq; by eapply lookup_lt_Some).
  destruct Hself as [n Hself].
  assert (Hreg : forall x xv r, ivs st1 !! x = Some xv -> register xv = Some r -> x <> j /\ ivs st !! x = Some xv).
  { intros x xv y Hx Hy. destruct (decide (x = j)) as [->|Hne]; [rewrite Hself in Hx; by injection Hx as <-|].
    by rewrite <- Hother. }
  assert (Hdel : forall x, x ∈ act -> x <> j -> x ∈ delete p act).
  { intros x Hx Hne. pose proof (delete_Permutation act p j Hp) as Hpm. rewrite Hpm in Hx. apply elem_of_cons in Hx as [|]; done. }
  assert (Hnj : j ∉ delete p act).
  { pose proof (delete_Permutation act p j Hp) as Hpm. rewrite Hpm in Hnda. by inversion Hnda. }
  split; rewrite ?ivs_set, ?slots_set; try done.
  - intros fp. rewrite file_set. destruct (Bool.eqb_spec (is_fp jv) fp) as [<-|Hne].
    + exists (delete p rs). cbn [fst snd]. split.
      * assert (HF' : Forall2 (entry (ivs st) todo' (is_fp jv)) (delete p act) (delete p rs)) by by apply Forall2_delete.
        apply Forall2_same_length_lookup in HF' as [Hl HF']. apply Forall2_same_length_lookup. split; [done|].
        intros y x z Hx Hz. eapply entry_frame; [by eapply HF'|apply Hother; intros ->; apply Hnj; by eapply list_elem_of_lookup_2|done].
      * rewrite app_nil_r in Hperm. rewrite <- Hperm. pose proof (delete_Permutation rs p r Hrp) as Hd.
        etransitivity; [|symmetry; exact Hd]. solve_Permutation.
    + destruct (so_file0 fp) as (rs' & HF' & Hp'). exists rs'. assert (Hff : file st1 fp = file st fp) by (by destruct fp).
      rewrite Hff. split; [|done]. eapply Forall2_impl; [exact HF'|]. intros x y He. pose proof He as (xv & Hx & Hxf & _).
      eapply entry_frame; [exact He|apply Hother; intros ->; congruence|done].
  - intros k kv x Hk Hx. destruct (Hreg k kv x Hk Hx) as [Hne Hk']. rewrite file_set.
    assert (Hff : file st1 (is_fp kv) = file st (is_fp kv)) by (by destruct (is_fp kv)). rewrite Hff.
    destruct (so_expired0 k kv x Hk' Hx) as [Ha|He].
    + left. destruct (Bool.eqb_spec (is_fp jv) (is_fp kv)) as [He|]; [|done]. rewrite <- He, Hfile in Ha. by apply Hdel.
    + right. intros y yv Hy Hyv. apply (He y yv); [done|]. rewrite <- Hother; [done|]. by intros ->.
  - intros k kv Hk. destruct (decide (k = j)) as [->|Hkj].
    + rewrite Hself in Hk. injection Hk as <-. cbn. by split.
    + rewrite Hother in Hk by done. by apply so_todo0.
  - intros a b av bv x Hab Ha Hb Hc Hra Hrb. destruct (Hreg a av x Ha Hra), (Hreg b bv x Hb Hrb). by eapply (so_disjoint0 a b).
  - intros k kv x Hk Hx. destruct (Hreg k kv x Hk Hx). by eapply so_pool0.
Qed.

Lemma scan_one_ok st : scan_ok T l0 (i :: todo) st -> (i < length l0)%nat ->
  (forall iv k kv, ivs st !! i = Some iv -> k ∈ todo -> ivs st !! k = Some kv -> start iv <= start kv) ->
  exists st', scan_one st i = Some st' /\ scan_ok T l0 todo st'.
Proof.
  intros Hok Hlt Hord. pose proof Hok as [].
  assert (is_Some (ivs st !! i)) as [iv Hi].
  { apply lookup_lt_is_Some. apply (f_equal length) in so_keeps0. rewrite !length_map in so_keeps0. lia. }
  assert (Hun : assignment iv = None) by (apply (so_todo0 _ _ Hi); left).
  assert (Hsafe : crosses_safepoint iv = false).
  { destruct (crosses_safepoint iv) eqn:Hc; [|done]. destruct (so_safe0 _ _ Hi Hc). unfold spilled. by rewrite Hun. }
  unfold scan_one. rewrite Hi. cbn [mbind option_bind]. destruct (so_file0 (is_fp iv)) as (rs & HF & Hp).
  destruct (expire_ok (ivs st) (i :: todo) (is_fp iv) (start iv) _ _ (file st (is_fp iv)).2 HF) as (act & free & rs' & -> & H1 & H2 & H3 & H4).
  cbn [mbind option_bind].
  assert (Hok1 : scan_ok T l0 (i :: todo) (set_file st (is_fp iv) (act, free))).
  { eapply (refile_ok _ _ _ _ _ _ _ (start iv)); [done|exists rs'; split; [exact H1|etransitivity; [exact H2|exact Hp]]|done|].
    intros k kv [->|Hk]%elem_of_cons Hkv; [assert (kv = iv) as -> by congruence; lia|by eapply Hord]. }
  set (st1 := set_file st (is_fp iv) (act, free)) in *.
  assert (Hi1 : ivs st1 !! i = Some iv) by (unfold st1; by rewrite ivs_set).
  assert (Hf1 : file st1 (is_fp iv) = (act, free)) by (unfold st1; by rewrite file_set, Bool.eqb_reflx).
  assert (Hord1 : forall k kv, k ∈ todo -> ivs st1 !! k = Some kv -> start iv <= start kv).
  { intros k kv Hk. unfold st1. rewrite ivs_set. by apply Hord. }
  assert (Hset : forall l sl f, set_file (MkScan l sl (gpr st) (fpr st)) (is_fp iv) f = set_file (MkScan l sl (gpr st1) (fpr st1)) (is_fp iv) f)
    by (intros; unfold st1; by destruct (is_fp iv)).
  pose proof (pop_Some free) as Hpop. destruct (pop free) as [[r free']|].
  - subst free. eexists. split; [reflexivity|]. rewrite Hset.
    replace (ivs st) with (ivs st1) by (unfold st1; by rewrite ivs_set).
    replace (slot_is_oop st) with (slot_is_oop st1) by (unfold st1; by rewrite slots_set). by apply assign_ok.
  - subst free. assert (Hne : act <> []).
    { intros ->. inversion H1; subst. cbn in H2. apply (pool_nonempty _ HT (is_fp iv)).
      apply Permutation_nil. etransitivity; [exact H2|exact Hp]. }
    destruct (furthest_ok (ivs st) act) as (p & j & -> & Hpj); [|done|].
    { intros j Hj. apply list_elem_of_lookup_1 in Hj as [a Ha]. destruct (Forall2_lookup_l _ _ _ _ _ H1 Ha) as (x & _ & jv & Hj & _). by exists jv. }
    cbn [mbind option_bind]. destruct (Forall2_lookup_l _ _ _ _ _ H1 Hpj) as (r & Hrp & jv & Hj & Hjf & Hjr & Hjt).
    rewrite Hj. cbn [mbind option_bind]. destruct (end_ iv <? end_ jv).
    + rewrite Hjr. cbn [mbind option_bind spill]. eexists. split; [reflexivity|].
      assert (Hj1 : ivs st1 !! j = Some jv) by (unfold st1; by rewrite ivs_set).
      pose proof (evict_ok st1 (i :: todo) (is_fp iv) act p j jv r Hok1 Hf1 Hpj Hj1 Hjr) as Hok2.
      set (st2 := set_file (MkScan _ _ _ _) _ _) in Hok2.
      assert (Hji : j <> i) by (intros ->; apply Hjt; left).
      assert (Hi2 : ivs st2 !! i = Some iv) by (unfold st2; rewrite ivs_set; cbn [ivs]; by rewrite list_lookup_insert_ne).
      replace (set_file _ _ _) with (set_file (MkScan (<[i := with_assignment iv (Reg r)]> (ivs st2)) (slot_is_oop st2) (gpr st2) (fpr st2))
        (is_fp iv) (delete p act ++ [i], [])).
      { apply (assign_ok st2 iv (delete p act) [] r Hok2 Hi2 Hsafe); [unfold st2; by rewrite file_set, Bool.eqb_reflx|].
        intros k kv Hk. unfold st2. rewrite ivs_set. cbn [ivs]. destruct (decide (k = j)) as [->|Hkj].
        - intros _. exfalso. apply Hjt. by right.
        - rewrite list_lookup_insert_ne by done. by apply Hord1. }
      unfold st2, st1. by destruct (is_fp iv).
    + cbn [spill]. eexists. split; [reflexivity|]. rewrite Hset. apply (spill_self_ok st1 iv); [done|done| | |].
      * unfold st1. by rewrite !ivs_set, slots_set.
      * unfold st1. by rewrite !slots_set.
      * intros fp. rewrite file_set. destruct (Bool.eqb_spec (is_fp iv) fp) as [<-|]; [done|]. by destruct fp.
Qed.
End step.

(** *** The whole scan *)
Lemma scan_all_ok T l0 : target_ok T -> zlen l0 < 2 ^ 16 -> forall order st, scan_ok T l0 order st -> NoDup order ->
  (forall i, i ∈ order -> (i < length l0)%nat) ->
  StronglySorted (fun i j => forall iv jv, l0 !! i = Some iv -> l0 !! j = Some jv -> start iv <= start jv) order ->
  exists st', scan_all st order = Some st' /\ scan_ok T l0 [] st'.
Proof.
  intros HT Hroom. induction order as [|i order IH]; intros st Hok Hnd Hdom Hs; [by exists st|]. cbn [scan_all].
  apply StronglySorted_inv in Hs as [Hs Hi].
  assert (Hst : forall k kv, ivs st !! k = Some kv -> exists kv0, l0 !! k = Some kv0 /\ start kv0 = start kv).
  { intros k kv Hk. pose proof (so_keeps _ _ _ _ Hok) as Hkp. apply (f_equal (fun l => l !! k)) in Hkp.
    change ((bare <$> ivs st) !! k = (bare <$> l0) !! k) in Hkp. rewrite !list_lookup_fmap, Hk in Hkp. cbn in Hkp.
    symmetry in Hkp. apply fmap_Some in Hkp as (kv0 & -> & Heq). exists kv0. split; [done|].
    apply (f_equal start) in Heq. cbn in Heq. congruence. }
  destruct (scan_one_ok T HT l0 Hroom i order Hnd st Hok) as (st1 & -> & Hok1).
  - apply Hdom. left.
  - intros iv k kv Hiv Hk Hkv. destruct (Hst _ _ Hiv) as (a & Ha & <-), (Hst _ _ Hkv) as (b & Hb & <-).
    rewrite Forall_forall in Hi. by apply (Hi k Hk).
  - cbn [mbind option_bind]. apply NoDup_cons in Hnd as [_ Hnd]. apply IH; [done|done|intros k Hk; apply Hdom; by right|done].
Qed.

Lemma insert_by_perm {A} (le : A -> A -> bool) x l : insert_by le x l ≡ₚ x :: l.
Proof. induction l as [|y l IH]; cbn; [done|]. destruct (le x y); [done|]. rewrite IH. solve_Permutation. Qed.
Lemma sort_by_perm {A} (le : A -> A -> bool) l : sort_by le l ≡ₚ l.
Proof. induction l as [|x l IH]; cbn; [done|]. by rewrite insert_by_perm, IH. Qed.

Lemma insert_by_sorted {A} (key : A -> Z) x l : StronglySorted (fun a b => key a <= key b) l ->
  StronglySorted (fun a b => key a <= key b) (insert_by (fun a b => key a <=? key b) x l).
Proof.
  induction 1 as [|y l Hs IH Hy]; cbn; [by repeat constructor|]. destruct (Z.leb_spec (key x) (key y)).
  - constructor; [by constructor|]. constructor; [done|]. eapply Forall_impl; [exact Hy|]. cbn. lia.
  - constructor; [done|]. rewrite Forall_forall. intros z Hz. rewrite insert_by_perm in Hz.
    apply elem_of_cons in Hz as [->|Hz]; [lia|]. rewrite Forall_forall in Hy. by apply Hy.
Qed.
Lemma sort_by_sorted {A} (key : A -> Z) l : StronglySorted (fun a b => key a <= key b) (sort_by (fun a b => key a <=? key b) l).
Proof. induction l as [|x l IH]; cbn; [constructor|]. by apply insert_by_sorted. Qed.

Lemma StronglySorted_impl {A} (R S : A -> A -> Prop) l : (forall a b, R a b -> S a b) -> StronglySorted R l -> StronglySorted S l.
Proof. intros H. induction 1; constructor; [done|]. eapply Forall_impl; [done|]. intros b. apply H. Qed.

Lemma elem_of_scan_order l i : i ∈ scan_order l <-> exists iv, l !! i = Some iv /\ assignment iv = None.
Proof.
  unfold scan_order. rewrite sort_by_perm, list_elem_of_filter, elem_of_seq. split.
  - intros [Hu _]. destruct (l !! i) as [iv|]; [|done]. exists iv. split; [done|]. unfold unassigned in Hu. by destruct (assignment iv).
  - intros (iv & Hi & Ha). rewrite Hi. unfold unassigned. rewrite Ha. split; [done|]. apply lookup_lt_Some in Hi. lia.
Qed.

Lemma spill_crossing_ok : forall l slots, (forall iv, iv ∈ l -> assignment iv = None) -> zlen slots + zlen l < 2 ^ 16 ->
  forall l' slots', spill_crossing l slots = (l', slots') ->
  map bare l' = map bare l /\ zlen slots' + unspilled l' = zlen slots + zlen l /\
  (exists ext, slots' = slots ++ ext) /\
  (forall i iv, l' !! i = Some iv -> register iv = None /\ (crosses_safepoint iv = true -> spilled iv <> None)) /\
  (forall i iv s, l' !! i = Some iv -> spilled iv = Some s -> zlen slots <= s /\ zlookup slots' s = Some (iv_is_oop iv)) /\
  (forall i j iv jv s, l' !! i = Some iv -> l' !! j = Some jv -> spilled iv = Some s -> spilled jv = Some s -> i = j).
Proof.
  induction l as [|iv l IH]; intros slots Hn Hr l' slots'; cbn [spill_crossing].
  - intros [= <- <-]. unfold unspilled. cbn. split_and!; [done|unfold zlen; cbn; lia|exists []; by rewrite app_nil_r|done..].
  - rewrite zlen_cons in Hr. assert (Hiv : assignment iv = None) by (apply Hn; left). pose proof (zlen_nonneg slots) as H0.
    set (head := if crosses_safepoint iv then spill iv slots else (iv, slots)). destruct head as [iv1 slots1] eqn:Hh.
    destruct (spill_crossing l slots1) as [l1 slots2] eqn:Hl. intros [= <- <-].
    assert (Hlen : zlen slots1 = zlen slots + Z.b2z (crosses_safepoint iv)).
    { unfold head, spill in Hh. destruct (crosses_safepoint iv); injection Hh as <- <-; [rewrite zlen_snoc|]; cbn; lia. }
    destruct (IH slots1) with (l' := l1) (slots' := slots2) as (I1 & I2 & (ext & ->) & I4 & I5 & I6);
      [by intros x Hx; apply Hn; right|destruct (crosses_safepoint iv); cbn in Hlen; lia|done|].
    pose proof (zlen_nonneg l) as Hl0. assert (Hu : u16 (zlen slots) = zlen slots) by (apply wrapU_id; unfold inU; lia).
    assert (Hhead : bare iv1 = bare iv /\ register iv1 = None /\ (crosses_safepoint iv1 = true -> spilled iv1 <> None) /\
      spilled iv1 = (if crosses_safepoint iv then Some (zlen slots) else None) /\ iv_is_oop iv1 = iv_is_oop iv /\
      (exists e1, slots1 = slots ++ e1 /\ (crosses_safepoint iv = true -> e1 = [iv_is_oop iv]))).
    { unfold head, spill in Hh. destruct (crosses_safepoint iv) eqn:Hc; injection Hh as <- <-; unfold register, spilled; cbn; rewrite ?Hu, ?Hiv.
      - split_and!; try done. by eexists.
      - split_and!; try done; [congruence|]. exists []. by rewrite app_nil_r. }
    destruct Hhead as (A1 & A2 & A3 & A4 & A5 & e1 & -> & A6). split_and!.
    + cbn. by rewrite A1, I1.
    + unfold unspilled in *. rewrite zlen_cons, filter_cons.
      assert (Hns : not_spilled iv1 = negb (crosses_safepoint iv)) by (unfold not_spilled; rewrite A4; by destruct (crosses_safepoint iv)).
      destruct (decide (Is_true (not_spilled iv1))) as [Hd|Hd]; rewrite Hns in Hd;
        destruct (crosses_safepoint iv); cbn [negb Is_true Z.b2z] in *; rewrite ?zlen_cons; (tauto || lia).
    + exists (e1 ++ ext). by rewrite app_assoc.
    + intros [|i] x; cbn; [by intros [= <-]|apply I4].
    + intros [|i] x s; cbn.
      * intros [= <-]. rewrite A4. destruct (crosses_safepoint iv); [|done]. intros [= <-]. split; [lia|].
        rewrite A5, (A6 eq_refl), <- app_assoc. apply zlookup_mid.
      * intros Hx Hs. destruct (I5 i x s Hx Hs) as [B1 B2]. split; [|done]. destruct (crosses_safepoint iv); cbn in Hlen; lia.
    + intros [|i] [|j] x y s; cbn; intros Hx Hy Hsx Hsy; [done|..].
      * injection Hx as <-. rewrite A4 in Hsx. destruct (crosses_safepoint iv); [|done]. injection Hsx as <-.
        destruct (I5 j y _ Hy Hsy) as [B1 _]. cbn in Hlen. lia.
      * injection Hy as <-. rewrite A4 in Hsy. destruct (crosses_safepoint iv); [|done]. injection Hsy as <-.
        destruct (I5 i x _ Hx Hsx) as [B1 _]. cbn in Hlen. lia.
      * f_equal. by eapply I6.
Qed.

Lemma allocate_ok T l : target_ok T -> zlen l < 2 ^ 16 -> (forall iv, iv ∈ l -> assignment iv = None) ->
  exists st, allocate T l = Some (ivs st, zlen (slot_is_oop st), slot_is_oop st) /\ scan_ok T l [] st.
Proof.
  intros HT Hroom Hnone. unfold allocate. destruct (spill_crossing l []) as [l1 slots] eqn:Hs.
  destruct (spill_crossing_ok l [] Hnone ltac:(change (zlen (@nil bool)) with 0; lia) l1 slots Hs) as (A1 & A2 & _ & A4 & A5 & A6).
  set (st0 := MkScan l1 slots _ _).
  assert (Hst0 : scan_ok T l1 (scan_order l1) st0).
  { split; cbn [ivs slot_is_oop st0]; [done|..].
    - intros fp. exists []. split; [by destruct fp; constructor|]. destruct fp; cbn; symmetry; apply Permutation_rev.
    - intros i iv r Hi Hr. destruct (A4 _ _ Hi) as [Hn _]. congruence.
    - intros k kv Hk. rewrite elem_of_scan_order. split; [by exists kv|]. intros (x & Hx & Ha). congruence.
    - intros i j iv jv r _ Hi _ _ Hr _. destruct (A4 _ _ Hi) as [Hn _]. congruence.
    - intros i iv r Hi Hr. destruct (A4 _ _ Hi) as [Hn _]. congruence.
    - intros i iv s Hi Hsp. by eapply A5.
    - done.
    - intros i iv Hi. apply (A4 i iv Hi).
    - rewrite A2. apply (f_equal length) in A1. rewrite !length_map in A1. unfold zlen. change (length []) with 0%nat. lia. }
  assert (Hl : length l1 = length l) by (apply (f_equal length) in A1; by rewrite !length_map in A1).
  destruct (scan_all_ok T l1 HT ltac:(unfold zlen in *; lia) (scan_order l1) st0 Hst0) as (st & -> & Hst).
  - unfold scan_order. rewrite sort_by_perm. apply NoDup_filter, NoDup_seq.
  - intros i (iv & Hi & _)%elem_of_scan_order. by eapply lookup_lt_Some.
  - unfold scan_order. eapply StronglySorted_impl; [|apply (sort_by_sorted (fun i => default 0 (start <$> l1 !! i)))].
    cbn. intros a b Hab iv jv Ha Hb. by rewrite Ha, Hb in Hab.
  - cbn [mbind option_bind].
    assert (Hst' : scan_ok T l [] st).
    { destruct Hst. split; try done; [by rewrite so_keeps0|]. by rewrite so_room0; unfold zlen; rewrite Hl. }
    exists st. split; [|done]. assert (Hv : verify_spill_all (ivs st) = true).
    { apply forallb_forall. intros iv Hin%list_elem_of_In. apply list_elem_of_lookup_1 in Hin as [i Hi].
      destruct (crosses_safepoint iv) eqn:Hc; [|done]. pose proof (so_safe _ _ _ _ Hst' _ _ Hi Hc) as Hsp.
      unfold spilled in Hsp. by destruct (assignment iv) as [[]|]. }
    rewrite Hv. rewrite wrapU_id; [done|]. pose proof (so_room _ _ _ _ Hst'). unfold inU, unspilled, zlen in *. lia.
Qed.
End Regalloc.
