(* ===== verification/Residents.v ===== *)
(** Resident registers and the whole allocation ([src/src/compiler/regalloc.rs],
    [assign_residents] and [regalloc]). *)
From S2P Require Import Prelude Scopes OopMaps Ir Intervals Regalloc.
From stdpp Require Import gmap sorting.
Export Maps.
#[local] Open Scope Z_scope.

Module Residents.
Import IR.

Definition saturating_add (a b : Z) : Z := Z.min (2 ^ 32 - 1) (a + b).
Definition saturating_sub (a b : Z) : Z := Z.max 0 (a - b).

(** ** Loop weights *)
Fixpoint index_blocks (ix : list Z) (i : Z) (order : list Z) : option (list Z) :=
  match order with
  | [] => Some ix
  | b :: order => ix ← zset ix b i; index_blocks ix (i + 1) order
  end.
Definition linear_index (m : IrMethod) (order : list Z) : option (list Z) :=
  index_blocks (replicate (length (blocks m)) 0) 0 order.

Fixpoint loop_spans (m : IrMethod) (ix : list Z) (i : Z) (order : list Z) : option (list (Z * Z)) :=
  match order with
  | [] => Some []
  | b :: order =>
      blk ← zlookup (blocks m) b;
      js ← mapM (zlookup ix) (Intervals.successors blk);
      rest ← loop_spans m ix (i + 1) order;
      Some (map (fun j => (j, i)) (filter (fun j => Is_true (j <=? i)) js) ++ rest)
  end.
Definition weight_of (ix : list Z) (spans : list (Z * Z)) (b : Z) : option Z :=
  k ← zlookup ix b;
  Some (10 ^ Z.min 3 (zlen (filter (fun ht => Is_true ((ht.1 <=? k) && (k <=? ht.2))) spans))).

(** [reads] and [defs], weighted. *)
Fixpoint tally (counts : list Z) (w : Z) (vs : list Z) : option (list Z) :=
  match vs with
  | [] => Some counts
  | v :: vs => c ← zlookup counts v; counts ← zset counts v (saturating_add c w); tally counts w vs
  end.
Fixpoint tally_ops (rd : list Z * list Z) (w : Z) (ops : list Ir) : option (list Z * list Z) :=
  match ops with
  | [] => Some rd
  | op :: ops => r ← tally rd.1 w (uses op); d ← tally rd.2 w (defs op); tally_ops (r, d) w ops
  end.
Fixpoint tally_blocks (ix : list Z) (spans : list (Z * Z)) (rd : list Z * list Z) (bs : list IrBlock) :
    option (list Z * list Z) :=
  match bs with
  | [] => Some rd
  | blk :: bs => w ← weight_of ix spans (id blk); rd ← tally_ops rd w (code blk); tally_blocks ix spans rd bs
  end.

(** The calls with their weights, in position order. *)
Fixpoint call_weights_in (pos w : Z) (ops : list Ir) : list (Z * Z) :=
  match ops with
  | [] => []
  | op :: ops => (if Intervals.is_call op then [(pos, w)] else []) ++ call_weights_in (pos + 1) w ops
  end.
Fixpoint call_weights (m : IrMethod) (ix : list Z) (spans : list (Z * Z)) (pos : Z) (order : list Z) : option (list (Z * Z)) :=
  match order with
  | [] => Some []
  | b :: order =>
      blk ← zlookup (blocks m) b;
      w ← weight_of ix spans (id blk);
      rest ← call_weights m ix spans (pos + zlen (code blk)) order;
      Some (call_weights_in pos w (code blk) ++ rest)
  end.

Record ledger := MkLedger { reads : list Z; writes : list Z; call_pos_w : list (Z * Z) }.
Definition weigh (m : IrMethod) : option ledger :=
  order ← Intervals.reverse_postorder m;
  ix ← linear_index m order;
  spans ← loop_spans m ix 0 order;
  '(r, d) ← tally_blocks ix spans (replicate (length (vregs m)) 0, replicate (length (vregs m)) 0) (blocks m);
  calls ← call_weights m ix spans 0 order;
  Some (MkLedger r d calls).

(** ** Placing residents *)
Section target.
Context (T : Regalloc.target).

Fixpoint mark_used (reg_used : list bool) (l : list LiveInterval) : option (list bool) :=
  match l with
  | [] => Some reg_used
  | iv :: l =>
      if is_fp iv then mark_used reg_used l
      else match Regalloc.register iv with
           | Some r => reg_used ← zset reg_used r true; mark_used reg_used l
           | None => mark_used reg_used l
           end
  end.
(** The base pool and every candidate the scan left unused. *)
Fixpoint unused (reg_used : list bool) (candidates : list Z) : option (list Z) :=
  match candidates with
  | [] => Some []
  | r :: candidates =>
      u ← zlookup reg_used r;
      rest ← unused reg_used candidates;
      Some (if u : bool then rest else r :: rest)
  end.
Definition resident_pool (l : list LiveInterval) : option (list Z) :=
  reg_used ← mark_used (replicate (Z.to_nat Regalloc.MAX_REG_NUM) false) l;
  extra ← unused reg_used (Regalloc.RESIDENCY_CANDIDATES T);
  Some (Regalloc.resident_base T ++ extra).

Definition length_of (iv : LiveInterval) : Z := u32 (end_ iv - start iv).
Definition call_cost (calls : list (Z * Z)) (iv : LiveInterval) : Z :=
  u32 (foldr (fun c a => c.2 + a) 0 (filter (fun c => Is_true ((start iv <=? c.1) && (c.1 <? end_ iv))) calls)).
Definition admit_resident (lg : ledger) (iv : LiveInterval) : option bool :=
  if negb (crosses_call iv) then Some true
  else if Regalloc.residents_cross_calls T then
    r ← zlookup (reads lg) (vreg iv);
    d ← zlookup (writes lg) (vreg iv);
    Some (saturating_add (saturating_add d (call_cost (call_pos_w lg) iv)) 2 <? r)
  else Some false.

(** The spilled intervals worth a register, each with its priority. *)
Definition candidate (lg : ledger) (iv : LiveInterval) : option bool :=
  match Regalloc.spilled iv with
  | Some _ => a ← admit_resident lg iv; Some (a && (2 <=? length_of iv))
  | None => Some false
  end.
Fixpoint candidates (lg : ledger) (l : list LiveInterval) (i : nat) : option (list (nat * (Z * Z))) :=
  match l with
  | [] => Some []
  | iv :: l =>
      c ← candidate lg iv;
      rest ← candidates lg l (S i);
      if c : bool then
        r ← zlookup (reads lg) (vreg iv);
        d ← zlookup (writes lg) (vreg iv);
        Some ((i, (saturating_sub r d, length_of iv)) :: rest)
      else Some rest
  end.
Definition priority_le (x y : nat * (Z * Z)) : bool :=
  (y.2.1 <? x.2.1) || ((y.2.1 =? x.2.1) && (y.2.2 <=? x.2.2)).

Definition with_resident (iv : LiveInterval) (r : Z) : LiveInterval :=
  MkInterval (vreg iv) (start iv) (end_ iv) (iv_is_oop iv) (is_fp iv) (crosses_safepoint iv) (crosses_call iv)
    (assignment iv) (Some r).

(** The first register of the pool none of whose spans meets [s, e]. *)
Fixpoint first_free (pool : list Z) (taken : list (list (Z * Z))) (s e : Z) : option (Z * list (list (Z * Z))) :=
  match pool, taken with
  | r :: pool, t :: taken =>
      if forallb (fun x => (e <=? x.1) || (x.2 <=? s)) t then Some (r, (t ++ [(s, e)]) :: taken)
      else '(r, taken) ← first_free pool taken s e; Some (r, t :: taken)
  | _, _ => None
  end.

Record placing := MkPlacing { pl_ivs : list LiveInterval; taken : list (list (Z * Z)); fp_taken : list (list (Z * Z)) }.
Definition place (pool : list Z) (st : placing) (i : nat) : option placing :=
  iv ← pl_ivs st !! i;
  Some (if is_fp iv then
    match first_free (Regalloc.fp_resident_base T) (fp_taken st) (start iv) (end_ iv) with
    | Some (r, t) => MkPlacing (<[i := with_resident iv r]> (pl_ivs st)) (taken st) t
    | None => st
    end
  else
    match first_free pool (taken st) (start iv) (end_ iv) with
    | Some (r, t) => MkPlacing (<[i := with_resident iv r]> (pl_ivs st)) t (fp_taken st)
    | None => st
    end).
Fixpoint place_all (pool : list Z) (st : placing) (order : list nat) : option placing :=
  match order with [] => Some st | i :: order => st ← place pool st i; place_all pool st order end.

Definition assign_residents (l : list LiveInterval) (m : IrMethod) : option (list LiveInterval) :=
  lg ← weigh m;
  pool ← resident_pool l;
  cs ← candidates lg l 0;
  st ← place_all pool (MkPlacing l (replicate (length pool) []) (replicate (length (Regalloc.fp_resident_base T)) []))
         (map fst (Regalloc.sort_by priority_le cs));
  Some (pl_ivs st).

(** ** The whole allocation *)
Record RegallocResult := MkResult {
  block_order : list Z;
  intervals : list LiveInterval;
  frame_slots : Z;
  slot_is_oop : list bool;
  safepoint_positions : list Z;
  block_start_pos : gmap Z Z;
  extra_oop_live : list (Z * Z);
  deopt_nil_init_slots : list Z }.

(** The interval of [v] is made to reach past every position. *)
Definition max_end (l : list LiveInterval) : Z := foldr (fun iv a => Z.max (end_ iv) a) 0 l.
Definition pinned (iv : LiveInterval) (e : Z) : LiveInterval :=
  MkInterval (vreg iv) (start iv) e (iv_is_oop iv) (is_fp iv) true (crosses_call iv) (assignment iv) (resident_reg iv).
Fixpoint pin_first (v e : Z) (l : list LiveInterval) : list LiveInterval :=
  match l with
  | [] => []
  | iv :: l => if vreg iv =? v then pinned iv e :: l else iv :: pin_first v e l
  end.
Definition pin (v : option Z) (l : list LiveInterval) : list LiveInterval :=
  match v with Some cv => pin_first cv (max_end l + 2) l | None => l end.

(** The leading operations of the entry block that always run. *)
Fixpoint leading_defs (ops : list Ir) : list Z :=
  match ops with
  | (Param _ _ | ConstPool _ _ | ConstSmi _ _ | Move _ _) as op :: ops => defs op ++ leading_defs ops
  | _ => []
  end.
Definition entry_early_defs (m : IrMethod) (order : list Z) : option (list Z) :=
  if is_osr m then Some []
  else b ← head order; entry ← zlookup (blocks m) b; Some (leading_defs (code entry)).
(** The registers defined more than once. *)
Fixpoint multi_def_from (seen multi : gset Z) (vs : list Z) : gset Z :=
  match vs with
  | [] => multi
  | v :: vs => if decide (v ∈ seen) then multi_def_from seen ({[v]} ∪ multi) vs else multi_def_from ({[v]} ∪ seen) multi vs
  end.
Definition multi_def (m : IrMethod) : gset Z :=
  multi_def_from ∅ ∅ (concat (map (fun b => concat (map defs (code b))) (blocks m))).

Fixpoint dedup (l : list Z) : list Z :=
  match l with
  | x :: ((y :: _) as k) => if x =? y then dedup k else x :: dedup k
  | _ => l
  end.
Definition needs_nil (m : IrMethod) (early : list Z) (extra : list (Z * Z)) (sps : list Z) (iv : LiveInterval) : bool :=
  (bool_decide (vreg iv ∈ extra.*1) ||
   (iv_is_oop iv && bool_decide (vreg iv ∈ multi_def m) && existsb (fun sp => (start iv <? sp) && (sp <? end_ iv)) sps)) &&
  negb (bool_decide (vreg iv ∈ early)).
Definition nil_slots (m : IrMethod) (early : list Z) (extra : list (Z * Z)) (sps : list Z) (l : list LiveInterval) : list Z :=
  dedup (Regalloc.sort_by Z.leb (omap Regalloc.spilled (filter (fun iv => Is_true (needs_nil m early extra sps iv)) l))).

Definition regalloc (m : IrMethod) : option RegallocResult :=
  lv ← Intervals.compute_intervals m;
  let l := pin (fst <$> method_ctx_vreg m) (pin (block_closure_vreg m) (Intervals.l_intervals lv)) in
  '(l, frame_slots, slot_is_oop) ← Regalloc.allocate T l;
  l ← assign_residents l m;
  early ← entry_early_defs m (Intervals.l_block_order lv);
  Some (MkResult (Intervals.l_block_order lv) l frame_slots slot_is_oop (Intervals.l_safepoint_positions lv)
    (Intervals.l_block_start_pos lv) (Intervals.l_extra_oop_live lv)
    (nil_slots m early (Intervals.l_extra_oop_live lv) (Intervals.l_safepoint_positions lv) l)).
End target.

(** ** The weights are computed *)
Record well_formed (m : IrMethod) : Prop := {
  wf_targets : Intervals.targets_ok m;
  wf_size : zlen (blocks m) < 2 ^ 32;
  wf_ids : forall i blk, zlookup (blocks m) i = Some blk -> id blk = i;
  wf_vregs : forall blk op v, blk ∈ blocks m -> op ∈ code blk -> v ∈ uses op ++ defs op -> 0 <= v < zlen (vregs m) }.

Lemma zlookup_elem {A} (l : list A) i x : zlookup l i = Some x -> x ∈ l.
Proof. unfold zlookup. destruct (i <? 0); [done|]. apply list_elem_of_lookup_2. Qed.

Lemma index_blocks_ok order : forall ix i, (forall b, b ∈ order -> 0 <= b < zlen ix) ->
  exists ix', index_blocks ix i order = Some ix' /\ zlen ix' = zlen ix.
Proof.
  induction order as [|b order IH]; intros ix i Hb; cbn [index_blocks]; [by exists ix|].
  rewrite zset_ok by (apply Hb; left). cbn [mbind option_bind].
  destruct (IH (zinsert ix b i) (i + 1)) as (ix' & -> & Hl); [intros x Hx; rewrite zlen_insert; apply Hb; by right|].
  exists ix'. split; [done|]. by rewrite Hl, zlen_insert.
Qed.

Lemma mapM_zlookup {A} (l : list A) js : (forall j, j ∈ js -> 0 <= j < zlen l) -> exists xs, mapM (zlookup l) js = Some xs.
Proof.
  induction js as [|j js IH]; intros Hj; [by exists []|]. cbn. destruct (zlookup_is_Some l j) as [x ->]; [apply Hj; left|].
  destruct IH as [xs ->]; [intros; apply Hj; by right|]. cbn. by eexists.
Qed.

Lemma loop_spans_ok m ix : Intervals.targets_ok m -> zlen ix = zlen (blocks m) -> forall order i,
  (forall b, b ∈ order -> Intervals.block_ok m b) -> exists spans, loop_spans m ix i order = Some spans.
Proof.
  intros Ht Hix. induction order as [|b order IH]; intros i Hb; cbn [loop_spans]; [by exists []|].
  destruct (zlookup_is_Some (blocks m) b) as [blk Hblk]; [apply Hb; left|]. rewrite Hblk. cbn [mbind option_bind].
  destruct (mapM_zlookup ix (Intervals.successors blk)) as [js ->].
  { intros j Hj. rewrite Hix. eapply Ht; [by eapply zlookup_elem|done]. }
  cbn [mbind option_bind]. destruct (IH (i + 1)) as [spans ->]; [intros; apply Hb; by right|]. by eexists.
Qed.

Lemma weight_ok ix spans b : 0 <= b < zlen ix -> is_Some (weight_of ix spans b).
Proof. intros Hb. unfold weight_of. destruct (zlookup_is_Some ix b Hb) as [k ->]. by eexists. Qed.

Lemma tally_ok w vs : forall counts, (forall v, v ∈ vs -> 0 <= v < zlen counts) ->
  exists c', tally counts w vs = Some c' /\ zlen c' = zlen counts.
Proof.
  induction vs as [|v vs IH]; intros counts Hv; cbn [tally]; [by exists counts|].
  destruct (zlookup_is_Some counts v) as [c ->]; [apply Hv; left|]. cbn [mbind option_bind].
  rewrite zset_ok by (apply Hv; left). cbn [mbind option_bind].
  destruct (IH (zinsert counts v (saturating_add c w))) as (c' & -> & Hl); [intros x Hx; rewrite zlen_insert; apply Hv; by right|].
  exists c'. by rewrite Hl, zlen_insert.
Qed.
Lemma tally_ops_ok n w ops : (forall op v, op ∈ ops -> v ∈ uses op ++ defs op -> 0 <= v < n) -> forall rd, zlen rd.1 = n -> zlen rd.2 = n ->
  exists rd', tally_ops rd w ops = Some rd' /\ zlen rd'.1 = n /\ zlen rd'.2 = n.
Proof.
  induction ops as [|op ops IH]; intros Hv rd H1 H2; cbn [tally_ops]; [by exists rd|].
  destruct (tally_ok w (uses op) rd.1) as (r & -> & Hr); [intros v Hin; rewrite H1; eapply Hv; [left|apply elem_of_app; by left]|].
  cbn [mbind option_bind].
  destruct (tally_ok w (defs op) rd.2) as (d & -> & Hd); [intros v Hin; rewrite H2; eapply Hv; [left|apply elem_of_app; by right]|].
  cbn [mbind option_bind]. apply IH; [intros; eapply Hv; [by right|done]|cbn; congruence|cbn; congruence].
Qed.
Lemma tally_blocks_ok n ix spans bs : (forall blk, blk ∈ bs -> 0 <= id blk < zlen ix) ->
  (forall blk op v, blk ∈ bs -> op ∈ code blk -> v ∈ uses op ++ defs op -> 0 <= v < n) -> forall rd, zlen rd.1 = n -> zlen rd.2 = n ->
  exists rd', tally_blocks ix spans rd bs = Some rd' /\ zlen rd'.1 = n /\ zlen rd'.2 = n.
Proof.
  induction bs as [|blk bs IH]; intros Hid Hv rd H1 H2; cbn [tally_blocks]; [by exists rd|].
  destruct (weight_ok ix spans (id blk)) as [w ->]; [apply Hid; left|]. cbn [mbind option_bind].
  destruct (tally_ops_ok n w (code blk)) with (rd := rd) as (rd' & -> & Hr & Hd); [intros; eapply Hv; [left|done|done]|done|done|].
  cbn [mbind option_bind]. apply IH; [intros; apply Hid; by right|intros; eapply Hv; [by right|done|done]|done|done].
Qed.
Lemma call_weights_ok m ix spans : well_formed m -> zlen ix = zlen (blocks m) -> forall order pos,
  (forall b, b ∈ order -> Intervals.block_ok m b) -> is_Some (call_weights m ix spans pos order).
Proof.
  intros Hwf Hix. induction order as [|b order IH]; intros pos Hb; cbn [call_weights]; [by eexists|].
  destruct (zlookup_is_Some (blocks m) b) as [blk Hblk]; [apply Hb; left|]. rewrite Hblk. cbn [mbind option_bind].
  destruct (weight_ok ix spans (id blk)) as [w ->].
  { rewrite (wf_ids _ Hwf b blk Hblk), Hix. apply Hb. left. }
  cbn [mbind option_bind]. destruct (IH (pos + zlen (code blk))) as [rest ->]; [intros; apply Hb; by right|]. by eexists.
Qed.

Lemma weigh_ok m : well_formed m -> exists lg, weigh m = Some lg /\ zlen (reads lg) = zlen (vregs m) /\ zlen (writes lg) = zlen (vregs m).
Proof.
  intros Hwf. pose proof Hwf as []. unfold weigh. destruct (Intervals.reverse_postorder_ok m wf_targets0 wf_size0) as (order & -> & _ & Hiff & _).
  cbn [mbind option_bind]. assert (Hb : forall b, b ∈ order -> Intervals.block_ok m b) by (intros b; apply Hiff).
  unfold linear_index. destruct (index_blocks_ok order (replicate (length (blocks m)) 0) 0) as (ix & -> & Hix);
    [intros b Hin; rewrite zlen_replicate; by apply Hb|].
  rewrite zlen_replicate in Hix. change (Z.of_nat (length (blocks m))) with (zlen (blocks m)) in Hix. cbn [mbind option_bind].
  destruct (loop_spans_ok m ix wf_targets0 Hix order 0 Hb) as [spans ->]. cbn [mbind option_bind].
  destruct (tally_blocks_ok (zlen (vregs m)) ix spans (blocks m)) with (rd := (replicate (length (vregs m)) 0, replicate (length (vregs m)) 0))
    as ([r d] & -> & Hr & Hd); [|done|cbn [fst snd]; by rewrite zlen_replicate..|].
  { intros blk Hin. rewrite Hix. apply list_elem_of_lookup_1 in Hin as [k Hk]. pose proof (lookup_lt_Some _ _ _ Hk).
    rewrite (wf_ids0 (Z.of_nat k) blk); [unfold zlen; lia|]. unfold zlookup. destruct (Z.ltb_spec (Z.of_nat k) 0); [lia|]. by rewrite Nat2Z.id. }
  cbn [mbind option_bind]. destruct (call_weights_ok m ix spans Hwf Hix order 0 Hb) as [calls ->]. cbn. by exists (MkLedger r d calls).
Qed.

(** ** Placement *)
(** Registers that residency may hand out. *)
Definition resident_candidate (T : Regalloc.target) (fp : bool) (r : Z) : Prop :=
  if fp then r ∈ Regalloc.fp_resident_base T else r ∈ Regalloc.resident_base T \/ r ∈ Regalloc.RESIDENCY_CANDIDATES T.
Record residency_ok (T : Regalloc.target) : Prop := {
  rs_base : NoDup (Regalloc.resident_base T ++ Regalloc.RESIDENCY_CANDIDATES T);
  rs_fp : NoDup (Regalloc.fp_resident_base T);
  rs_range : forall r, r ∈ Regalloc.RESIDENCY_CANDIDATES T \/ r ∈ Regalloc.ALLOCATABLE_REGS T -> 0 <= r < Regalloc.MAX_REG_NUM;
  rs_apart : forall r, (r ∈ Regalloc.resident_base T -> r ∉ Regalloc.ALLOCATABLE_REGS T) /\
    (r ∈ Regalloc.fp_resident_base T -> r ∉ Regalloc.FP_ALLOCATABLE_REGS T) }.

Lemma mark_used_ok l : forall used, (forall iv r, iv ∈ l -> is_fp iv = false -> Regalloc.register iv = Some r -> 0 <= r < zlen used) ->
  exists used', mark_used used l = Some used' /\ zlen used' = zlen used /\
    forall r, zlookup used' r = Some false -> zlookup used r = Some false /\
      forall iv, iv ∈ l -> is_fp iv = false -> Regalloc.register iv <> Some r.
Proof.
  induction l as [|iv l IH]; intros used Hr; cbn [mark_used].
  - exists used. split_and!; [done|done|]. intros r H. split; [done|]. by intros iv ?%elem_of_nil.
  - assert (Htl : forall u : list bool, zlen u = zlen used -> forall iv r, iv ∈ l -> is_fp iv = false -> Regalloc.register iv = Some r -> 0 <= r < zlen u)
      by (intros u -> i r Hi; apply Hr; by right).
    destruct (is_fp iv) eqn:Hfp; [|destruct (Regalloc.register iv) as [x|] eqn:Hx].
    1,3: destruct (IH used (Htl used eq_refl)) as (u' & H1 & H2 & H3); exists u'; split_and!; [done|done|];
      intros r H; destruct (H3 r H) as [H4 H5]; (split; [done|]); intros i [->|Hi]%elem_of_cons Hf; [congruence|by apply H5].
    rewrite zset_ok by (eapply Hr; [left|done|done]). cbn [mbind option_bind].
    destruct (IH (zinsert used x true) (Htl _ (zlen_insert _ _ _))) as (u' & H1 & H2 & H3). exists u'.
    split_and!; [done|by rewrite H2, zlen_insert|]. intros r H. destruct (H3 r H) as [H4 H5].
    assert (Hxr : 0 <= x < zlen used) by (eapply Hr; [left|done|done]).
    destruct (decide (r = x)) as [->|Hne]; [by rewrite zlookup_zinsert in H4|]. rewrite zlookup_zinsert_ne in H4 by (done || lia).
    split; [done|]. intros i [->|Hi]%elem_of_cons Hf; [congruence|by apply H5].
Qed.

Lemma unused_ok used cs : (forall r, r ∈ cs -> 0 <= r < zlen used) -> NoDup cs ->
  exists k, unused used cs = Some k /\ NoDup k /\ forall r, r ∈ k <-> r ∈ cs /\ zlookup used r = Some false.
Proof.
  induction cs as [|c cs IH]; intros Hr Hnd; cbn [unused].
  - exists []. split_and!; [done|constructor|]. intros r. split; [by intros ?%elem_of_nil|by intros [?%elem_of_nil _]].
  - apply NoDup_cons in Hnd as [Hc Hnd]. destruct (zlookup_is_Some used c) as [u Hu]; [apply Hr; left|]. rewrite Hu. cbn [mbind option_bind].
    destruct IH as (k & -> & Hk & Hiff); [intros; apply Hr; by right|done|]. cbn [mbind option_bind]. eexists. split; [reflexivity|]. destruct u.
    + split; [done|]. intros r. rewrite Hiff, elem_of_cons. split; [intros [? ?]; by split; [right|]|]. intros [[->|] ?]; [congruence|done].
    + split; [constructor; [rewrite Hiff; tauto|done]|]. intros r. rewrite !elem_of_cons, Hiff. split.
      * intros [->|[]]; [by split; [left|]|by split; [right|]].
      * intros [[->|] ?]; [by left|by right].
Qed.

Lemma first_free_ok pool : forall taken s e r t', first_free pool taken s e = Some (r, t') ->
  exists k t, pool !! k = Some r /\ taken !! k = Some t /\ t' = <[k := t ++ [(s, e)]]> taken /\
    forall x, x ∈ t -> e <= x.1 \/ x.2 <= s.
Proof.
  induction pool as [|r0 pool IH]; intros [|t taken] s e r t'; cbn [first_free]; try done.
  destruct (forallb _ t) eqn:Hf.
  - intros [= <- <-]. exists O, t. split_and!; [done..|]. intros x Hx. rewrite forallb_forall in Hf.
    apply list_elem_of_In, Hf in Hx. rewrite orb_true_iff, !Z.leb_le in Hx. exact Hx.
  - destruct (first_free pool taken s e) as [[r1 t1]|] eqn:E; [|done]. cbn. intros [= <- <-].
    destruct (IH _ _ _ _ _ E) as (k & t2 & H1 & H2 & -> & H3). exists (S k), t2. by split_and!.
Qed.

Section placing.
Context (T : Regalloc.target) (p : list Z) (Hp : NoDup p) (Hfp : NoDup (Regalloc.fp_resident_base T)) (l0 : list LiveInterval).

Definition pool_of (fp : bool) : list Z := if fp then Regalloc.fp_resident_base T else p.
Definition taken_of (st : placing) (fp : bool) : list (list (Z * Z)) := if fp then fp_taken st else taken st.
Definition bare_resident (iv : LiveInterval) : LiveInterval :=
  MkInterval (vreg iv) (start iv) (end_ iv) (iv_is_oop iv) (is_fp iv) (crosses_safepoint iv) (crosses_call iv) (assignment iv) None.

Record placed_ok (todo : list nat) (st : placing) : Prop := {
  po_keeps : map bare_resident (pl_ivs st) = map bare_resident l0;
  po_in : forall i iv r, pl_ivs st !! i = Some iv -> resident_reg iv = Some r -> (i ∉ todo) /\
    exists k t, pool_of (is_fp iv) !! k = Some r /\ taken_of st (is_fp iv) !! k = Some t /\ (start iv, end_ iv) ∈ t;
  po_apart : forall i j iv jv r, i <> j -> pl_ivs st !! i = Some iv -> pl_ivs st !! j = Some jv -> is_fp iv = is_fp jv ->
    resident_reg iv = Some r -> resident_reg jv = Some r -> end_ iv <= start jv \/ end_ jv <= start iv }.

Lemma pool_of_nodup fp : NoDup (pool_of fp).
Proof. by destruct fp. Qed.

(** Giving interval [i] the register [r], the [k]-th of its pool. *)
Lemma place_resident todo st st' i iv k r t : placed_ok (i :: todo) st -> i ∉ todo -> pl_ivs st !! i = Some iv ->
  pool_of (is_fp iv) !! k = Some r -> taken_of st (is_fp iv) !! k = Some t -> (forall x, x ∈ t -> end_ iv <= x.1 \/ x.2 <= start iv) ->
  pl_ivs st' = <[i := with_resident iv r]> (pl_ivs st) ->
  taken_of st' (is_fp iv) = <[k := t ++ [(start iv, end_ iv)]]> (taken_of st (is_fp iv)) ->
  taken_of st' (negb (is_fp iv)) = taken_of st (negb (is_fp iv)) -> placed_ok todo st'.
Proof.
  intros [Hk Hin Hap] Hi Hiv Hr Ht Hdis Hivs Htk Hother.
  assert (Hlt : (i < length (pl_ivs st))%nat) by (by eapply lookup_lt_Some).
  assert (Htl : (k < length (taken_of st (is_fp iv)))%nat) by (by eapply lookup_lt_Some).
  (* spans recorded before are still recorded *)
  assert (Hmono : forall fp a u x, taken_of st fp !! a = Some u -> x ∈ u -> exists u', taken_of st' fp !! a = Some u' /\ x ∈ u').
  { intros fp a u x Ha Hx. destruct (decide (fp = is_fp iv)) as [->|Hne].
    - rewrite Htk. destruct (decide (a = k)) as [->|]; [|rewrite list_lookup_insert_ne by done; by exists u].
      rewrite list_lookup_insert_eq by done. eexists. split; [done|]. apply elem_of_app. left. congruence.
    - assert (fp = negb (is_fp iv)) as -> by (by destruct fp, (is_fp iv)). rewrite Hother. by exists u. }
  assert (Hclash : forall j jv, j <> i -> pl_ivs st !! j = Some jv -> is_fp jv = is_fp iv -> resident_reg jv = Some r ->
    end_ iv <= start jv \/ end_ jv <= start iv).
  { intros j jv _ Hj Hc Hrj. destruct (Hin j jv r Hj Hrj) as (_ & a & u & A & B & C). rewrite Hc in A, B.
    assert (a = k) as -> by (by eapply (NoDup_lookup _ _ _ _ (pool_of_nodup (is_fp iv)))).
    assert (u = t) as -> by congruence. by apply (Hdis _ C). }
  split.
  - rewrite Hivs, <- Hk. change (bare_resident <$> <[i := with_resident iv r]> (pl_ivs st) = bare_resident <$> pl_ivs st).
    rewrite list_fmap_insert. apply list_insert_id. by rewrite list_lookup_fmap, Hiv.
  - intros j jv x Hj Hx. rewrite Hivs in Hj. destruct (decide (j = i)) as [->|Hne].
    + rewrite list_lookup_insert_eq in Hj by done. injection Hj as <-. cbn in Hx |- *. injection Hx as <-. split; [done|].
      exists k, (t ++ [(start iv, end_ iv)]). split_and!; [done|rewrite Htk; by rewrite list_lookup_insert_eq|apply elem_of_app; right; left].
    + rewrite list_lookup_insert_ne in Hj by done. destruct (Hin j jv x Hj Hx) as (Hnj & a & u & A & B & C).
      split; [intros Hjt; apply Hnj; by right|]. destruct (Hmono _ _ _ _ B C) as (u' & B' & C'). by exists a, u'.
  - intros a b av bv x Hab Ha Hb Hc Hra Hrb. rewrite Hivs in Ha, Hb. destruct (decide (a = i)) as [->|Hai], (decide (b = i)) as [->|Hbi]; [done|..].
    + rewrite list_lookup_insert_eq in Ha by done. injection Ha as <-. rewrite list_lookup_insert_ne in Hb by done.
      cbn in Hra, Hc |- *. injection Hra as <-. by eapply Hclash.
    + rewrite list_lookup_insert_eq in Hb by done. injection Hb as <-. rewrite list_lookup_insert_ne in Ha by done.
      cbn in Hrb, Hc |- *. injection Hrb as <-. destruct (Hclash a av); [done|done|done|done|by right|by left].
    + rewrite list_lookup_insert_ne in Ha, Hb by done. by eapply (Hap a b).
Qed.

Lemma placed_skip todo i st : placed_ok (i :: todo) st -> placed_ok todo st.
Proof.
  intros [Hk Hin Hap]. split; [done| |done]. intros j jv r Hj Hr. destruct (Hin j jv r Hj Hr) as [Hn ?]. split; [|done].
  intros Hjt. apply Hn. by right.
Qed.

Lemma place_all_ok : forall order st, placed_ok order st -> NoDup order -> (forall i, i ∈ order -> (i < length l0)%nat) ->
  exists st', place_all T p st order = Some st' /\ placed_ok [] st' /\
    forall i iv r, pl_ivs st' !! i = Some iv -> resident_reg iv = Some r -> i ∈ order \/ exists jv, pl_ivs st !! i = Some jv /\ resident_reg jv = Some r.
Proof.
  induction order as [|i order IH]; intros st Hst Hnd Hlt; cbn [place_all].
  { exists st. split_and!; [done|done|]. intros i iv r Hi Hr. right. by exists iv. }
  apply NoDup_cons in Hnd as [Hi Hnd]. unfold place.
  destruct (lookup_lt_is_Some_2 (pl_ivs st) i) as [iv Hiv].
  { pose proof (f_equal length (po_keeps _ _ Hst)) as Hl. rewrite !length_map in Hl. rewrite Hl. apply Hlt. left. }
  rewrite Hiv. cbn [mbind option_bind].
  match goal with |- exists _, place_all _ _ ?x _ = _ /\ _ => set (st1 := x) end.
  assert (Hst1 : placed_ok order st1 /\ forall j, j <> i -> pl_ivs st1 !! j = pl_ivs st !! j).
  { unfold st1. destruct (is_fp iv) eqn:Hc; destruct (first_free _ _ _ _) as [[r t']|] eqn:Hff; try (split; [by eapply placed_skip|done]).
    all: destruct (first_free_ok _ _ _ _ _ _ Hff) as (k & t & H1 & H2 & -> & H3); split; [|intros j Hj; by apply list_lookup_insert_ne].
    all: eapply (place_resident order st _ i iv k r t); rewrite ?Hc; done. }
  destruct Hst1 as [Hst1 Hsame]. destruct (IH st1 Hst1 Hnd) as (st' & H1 & H2 & H3); [intros; apply Hlt; by right|].
  exists st'. split_and!; [done|done|]. intros j jv r Hj Hr. destruct (decide (j = i)) as [->|Hne]; [left; left|].
  destruct (H3 j jv r Hj Hr) as [|(kv & Hk & Hrk)]; [left; by right|right]. rewrite Hsame in Hk by done. by exists kv.
Qed.
End placing.

Lemma candidates_ok T lg l : (forall iv, iv ∈ l -> 0 <= vreg iv < zlen (reads lg)) -> zlen (writes lg) = zlen (reads lg) -> forall i,
  exists cs, candidates T lg l i = Some cs /\ NoDup (map fst cs) /\
    forall x, x ∈ map fst cs -> exists k iv, x = (i + k)%nat /\ l !! k = Some iv /\ Regalloc.spilled iv <> None /\
      2 <= length_of iv /\ (crosses_call iv = true -> Regalloc.residents_cross_calls T = true).
Proof.
  intros Hv Hlen. revert Hv. induction l as [|iv l IH]; intros Hv i; cbn [candidates].
  { exists []. split_and!; [done|constructor|by intros x ?%elem_of_nil]. }
  destruct (zlookup_is_Some (reads lg) (vreg iv)) as [r Hr]; [apply Hv; left|].
  destruct (zlookup_is_Some (writes lg) (vreg iv)) as [d Hd]; [rewrite Hlen; apply Hv; left|].
  assert (Hc : exists c, candidate T lg iv = Some c /\ (c = true -> Regalloc.spilled iv <> None /\ 2 <= length_of iv /\
    (crosses_call iv = true -> Regalloc.residents_cross_calls T = true))).
  { unfold candidate. destruct (Regalloc.spilled iv); [|by exists false]. unfold admit_resident.
    destruct (crosses_call iv), (Regalloc.residents_cross_calls T); cbn [negb]; rewrite ?Hr, ?Hd; cbn [mbind option_bind]; eexists;
      (split; [reflexivity|]); rewrite andb_true_iff, Z.leb_le; by intros []. }
  destruct Hc as (c & -> & Hc). cbn [mbind option_bind].
  destruct (IH ltac:(intros; apply Hv; by right) (S i)) as (cs & -> & Hnd & Hin). cbn [mbind option_bind].
  assert (Htl : forall x, x ∈ map fst cs -> exists k jv, x = (i + k)%nat /\ (iv :: l) !! k = Some jv /\ (0 < k)%nat /\ Regalloc.spilled jv <> None /\
      2 <= length_of jv /\ (crosses_call jv = true -> Regalloc.residents_cross_calls T = true)).
  { intros x Hx. destruct (Hin x Hx) as (k & jv & -> & Hk & ?). exists (S k), jv. split_and!; [lia|done|lia|tauto..]. }
  destruct c.
  - rewrite Hr, Hd. cbn [mbind option_bind]. eexists. split; [reflexivity|]. cbn [map fst]. split.
    + constructor; [|done]. intros Hx. destruct (Htl i Hx) as (k & jv & ? & _ & ? & _). lia.
    + intros x [->|Hx]%elem_of_cons; [exists O, iv; rewrite Nat.add_0_r; split; [done|split; [done|by apply Hc]]|].
      destruct (Htl x Hx) as (k & jv & ? & ? & _ & ?). by exists k, jv.
  - exists cs. split_and!; [done|done|]. intros x Hx. destruct (Htl x Hx) as (k & jv & ? & ? & _ & ?). by exists k, jv.
Qed.

(** What residency promises of the intervals [l'] it makes of [l]. *)
Record residents_ok (T : Regalloc.target) (l l' : list LiveInterval) : Prop := {
  re_keeps : map bare_resident l' = map bare_resident l;
  re_spilled : forall iv r, iv ∈ l' -> resident_reg iv = Some r ->
    Regalloc.spilled iv <> None /\ 2 <= length_of iv /\ resident_candidate T (is_fp iv) r /\
    (crosses_call iv = true -> Regalloc.residents_cross_calls T = true) /\
    (forall jv, jv ∈ l' -> is_fp jv = is_fp iv -> Regalloc.register jv <> Some r);
  re_apart : forall i j iv jv r, i <> j -> l' !! i = Some iv -> l' !! j = Some jv -> is_fp iv = is_fp jv ->
    resident_reg iv = Some r -> resident_reg jv = Some r -> end_ iv <= start jv \/ end_ jv <= start iv }.

Lemma bare_resident_lookup l l' : map bare_resident l' = map bare_resident l -> forall i iv, l' !! i = Some iv ->
  exists jv, l !! i = Some jv /\ bare_resident jv = bare_resident iv.
Proof.
  intros He i iv Hi. apply (f_equal (fun k => k !! i)) in He. change ((bare_resident <$> l') !! i = (bare_resident <$> l) !! i) in He.
  rewrite !list_lookup_fmap, Hi in He. cbn in He. symmetry in He. apply fmap_Some in He as (jv & ? & ?). by exists jv.
Qed.

(** Whatever the strip keeps is the same. *)
Lemma bare_resident_eq jv iv : bare_resident jv = bare_resident iv ->
  vreg jv = vreg iv /\ start jv = start iv /\ end_ jv = end_ iv /\ is_fp jv = is_fp iv /\ iv_is_oop jv = iv_is_oop iv /\
  crosses_call jv = crosses_call iv /\ crosses_safepoint jv = crosses_safepoint iv /\ assignment jv = assignment iv.
Proof. destruct jv, iv. cbn. intros [= -> -> -> -> -> -> -> ->]. done. Qed.

Lemma resident_pool_ok T l : residency_ok T -> (forall iv r, iv ∈ l -> Regalloc.register iv = Some r -> r ∈ Regalloc.pool T (is_fp iv)) ->
  exists p, resident_pool T l = Some p /\ NoDup p /\
    forall r, r ∈ p -> resident_candidate T false r /\ forall iv, iv ∈ l -> is_fp iv = false -> Regalloc.register iv <> Some r.
Proof.
  intros [Hb _ Hrange Hapart] Hl. unfold resident_pool.
  destruct (mark_used_ok l (replicate (Z.to_nat Regalloc.MAX_REG_NUM) false)) as (used & -> & Hlen & Hused).
  { intros iv r Hin Hf Hr. rewrite zlen_replicate, Z2Nat.id by done. apply Hrange. right. specialize (Hl iv r Hin Hr). by rewrite Hf in Hl. }
  cbn [mbind option_bind]. apply NoDup_app in Hb as (Hb & Hdis & Hc).
  destruct (unused_ok used (Regalloc.RESIDENCY_CANDIDATES T)) as (k & -> & Hk & Hiff); [|done|].
  { intros r Hr. rewrite Hlen, zlen_replicate, Z2Nat.id by done. apply Hrange. by left. }
  cbn [mbind option_bind]. eexists. split; [reflexivity|]. split.
  - apply NoDup_app. split_and!; [done| |done]. intros r Hr [Hr' _]%Hiff. by eapply Hdis.
  - intros r [Hr|[Hr Hu]%Hiff]%elem_of_app.
    + split; [by left|]. intros iv Hin Hf Hreg. specialize (Hl iv r Hin Hreg). rewrite Hf in Hl. by destruct (Hapart r) as [Ha _]; apply Ha.
    + split; [by right|]. by apply (Hused r Hu).
Qed.

Lemma assign_residents_ok T m l : residency_ok T -> well_formed m ->
  (forall iv, iv ∈ l -> 0 <= vreg iv < zlen (vregs m) /\ resident_reg iv = None) ->
  (forall iv r, iv ∈ l -> Regalloc.register iv = Some r -> r ∈ Regalloc.pool T (is_fp iv)) ->
  exists l', assign_residents T l m = Some l' /\ residents_ok T l l'.
Proof.
  intros HT Hwf Hv Hreg. unfold assign_residents. destruct (weigh_ok m Hwf) as (lg & -> & Hr & Hd). cbn [mbind option_bind].
  destruct (resident_pool_ok T l HT Hreg) as (p & -> & Hp & Hpool). cbn [mbind option_bind].
  destruct (candidates_ok T lg l) with (i := O) as (cs & -> & Hnd & Hcs); [intros iv Hin; rewrite Hr; by apply Hv|congruence|]. cbn [mbind option_bind].
  set (order := map fst (Regalloc.sort_by priority_le cs)).
  assert (Hperm : order ≡ₚ map fst cs) by (unfold order; apply (fmap_Permutation fst); apply Regalloc.sort_by_perm).
  assert (Hnone : forall i iv r, l !! i = Some iv -> resident_reg iv <> Some r).
  { intros i iv r Hi Hres. destruct (Hv iv) as [_ Hn]; [by eapply list_elem_of_lookup_2|congruence]. }
  match goal with |- context [place_all T p ?x order] => set (st0 := x) end.
  destruct (place_all_ok T p Hp (rs_fp _ HT) l order st0) as (st & -> & [Hk Hin Hap] & Hfrom).
  { split; [done| |]; intros; exfalso; by eapply Hnone. }
  { by rewrite Hperm. }
  { intros i Hi. rewrite Hperm in Hi. destruct (Hcs i Hi) as (k & iv & -> & Hlk & _). by eapply lookup_lt_Some. }
  cbn [mbind option_bind]. eexists. split; [reflexivity|]. split; [done| |done].
  intros iv r Hiv Hres. apply list_elem_of_lookup_1 in Hiv as [i Hi]. destruct (bare_resident_lookup _ _ Hk i iv Hi) as (jv & Hj & He).
  apply bare_resident_eq in He as (E1 & E2 & E3 & E4 & E5 & E6 & E7 & E8).
  destruct (Hfrom i iv r Hi Hres) as [Hio|(jv' & Hj' & Hres')]; [|exfalso; by eapply Hnone].
  rewrite Hperm in Hio. destruct (Hcs i Hio) as (k & kv & -> & Hkv & C1 & C2 & C3). cbn in Hj. assert (kv = jv) as -> by congruence.
  destruct (Hin _ iv r Hi Hres) as (_ & a & t & Ha & _ & _). apply list_elem_of_lookup_2 in Ha.
  split_and!; [unfold Regalloc.spilled in *; by rewrite <- E8|unfold length_of in *; by rewrite <- E2, <- E3| |intros; apply C3; congruence|].
  - unfold resident_candidate. destruct (is_fp iv); [done|]. by apply Hpool.
  - intros xv Hx Hf Hrx. apply list_elem_of_lookup_1 in Hx as [b Hb]. destruct (bare_resident_lookup _ _ Hk b xv Hb) as (yv & Hy & Hye).
    apply bare_resident_eq in Hye as (F1 & F2 & F3 & F4 & F5 & F6 & F7 & F8).
    assert (Hry : Regalloc.register yv = Some r) by (unfold Regalloc.register in *; by rewrite F8).
    apply list_elem_of_lookup_2 in Hy. destruct (is_fp iv) eqn:Hc.
    + specialize (Hreg yv r Hy Hry). rewrite F4, Hf in Hreg. cbn in Ha. by apply (rs_apart _ HT r) in Ha.
    + apply (Hpool r Ha) in Hry; [done|done|congruence].
Qed.

(** ** Pinning *)
Definition grown (iv iv' : LiveInterval) : Prop :=
  vreg iv' = vreg iv /\ start iv' = start iv /\ iv_is_oop iv' = iv_is_oop iv /\ is_fp iv' = is_fp iv /\
  crosses_call iv' = crosses_call iv /\ assignment iv' = assignment iv /\ resident_reg iv' = resident_reg iv /\
  end_ iv <= end_ iv' /\ (crosses_safepoint iv = true -> crosses_safepoint iv' = true).
Lemma grown_refl iv : grown iv iv.
Proof. by split_and!. Qed.
Lemma grown_trans a b c : grown a b -> grown b c -> grown a c.
Proof. intros (A1 & A2 & A3 & A4 & A5 & A6 & A7 & A8 & A9) (B1 & B2 & B3 & B4 & B5 & B6 & B7 & B8 & B9). split_and!; try congruence; [lia|auto]. Qed.
Lemma Forall2_grown_trans l1 l2 : Forall2 grown l1 l2 -> forall l3, Forall2 grown l2 l3 -> Forall2 grown l1 l3.
Proof.
  induction 1 as [|a b l1 l2 Hab _ IH]; intros l3 H3; inversion H3; subst; constructor; [by eapply grown_trans|by apply IH].
Qed.
Lemma Forall2_grown_refl l : Forall2 grown l l.
Proof. induction l; constructor; [apply grown_refl|done]. Qed.

Lemma max_end_ge l iv : iv ∈ l -> end_ iv <= max_end l.
Proof.
  unfold max_end. induction l as [|a l IH]; [by intros ?%elem_of_nil|]. cbn [foldr].
  intros [->|H]%elem_of_cons; [lia|]. specialize (IH H). lia.
Qed.
Lemma pin_first_grown v e l : (forall iv, iv ∈ l -> end_ iv <= e) -> Forall2 grown l (pin_first v e l).
Proof.
  induction l as [|iv l IH]; intros He; [constructor|]. cbn [pin_first]. destruct (vreg iv =? v).
  - constructor; [|apply Forall2_grown_refl]. split_and!; try done. cbn. apply He. left.
  - constructor; [apply grown_refl|]. apply IH. intros x Hx. apply He. by right.
Qed.
Lemma pin_grown v l : Forall2 grown l (pin v l).
Proof.
  destruct v as [v|]; [|apply Forall2_grown_refl]. cbn. apply pin_first_grown. intros iv Hiv. pose proof (max_end_ge l iv Hiv). lia.
Qed.
(** The pinned register is live past everything else. *)
Lemma pin_first_hit v e l : NoDup (map vreg l) -> forall iv, iv ∈ pin_first v e l -> vreg iv = v -> crosses_safepoint iv = true /\ end_ iv = e.
Proof.
  induction l as [|a l IH]; intros Hnd iv; cbn [pin_first]; [by intros ?%elem_of_nil|].
  cbn [map] in Hnd. apply NoDup_cons in Hnd as [Ha Hnd]. destruct (Z.eqb_spec (vreg a) v) as [Hv|Hv].
  - intros [->|Hin]%elem_of_cons Hiv; [done|]. exfalso. apply Ha. rewrite Hv, <- Hiv. by apply (list_elem_of_fmap_2 vreg).
  - intros [->|Hin]%elem_of_cons Hiv; [done|by apply IH].
Qed.

Lemma grown_lookup l l' : Forall2 grown l l' -> forall iv', iv' ∈ l' -> exists iv, iv ∈ l /\ grown iv iv'.
Proof.
  induction 1 as [|a b l l' Hab _ IH]; intros iv'; [by intros ?%elem_of_nil|].
  intros [->|H]%elem_of_cons; [exists a; split; [left|done]|]. destruct (IH _ H) as (iv & ? & ?). exists iv. split; [by right|done].
Qed.

(** ** The whole allocation *)
Definition scan_input (m : IrMethod) (l : list LiveInterval) : list LiveInterval := pin (fst <$> method_ctx_vreg m) (pin (block_closure_vreg m) l).

Lemma zlen_omap_le {A B} (f : A -> option B) l : zlen (omap f l) <= zlen l.
Proof. unfold zlen. induction l as [|x l IH]; cbn; [lia|]. destruct (f x); cbn; lia. Qed.

Lemma intervals_bound m lv : Intervals.compute_intervals m = Some lv -> zlen (Intervals.l_intervals lv) <= zlen (vregs m).
Proof.
  unfold Intervals.compute_intervals. destruct (Intervals.reverse_postorder m) as [order|]; [|done]. cbn [mbind option_bind].
  destruct (Intervals.walk_blocks _ _ _) as [w|]; [|done]. cbn [mbind option_bind].
  destruct (Intervals.loop_ranges _ _ _) as [rs|]; [|done]. cbn [mbind option_bind]. cbn zeta.
  destruct (Intervals.widen _ _ _) as [b|]; [|done]. cbn [mbind option_bind]. intros [= <-]. cbn [Intervals.l_intervals].
  etransitivity; [apply zlen_omap_le|]. unfold zlen, zrange. rewrite length_fmap, length_seq. lia.
Qed.

Lemma bare_lookup l l' : map Regalloc.bare l' = map Regalloc.bare l -> forall i iv, l' !! i = Some iv ->
  exists jv, l !! i = Some jv /\ Regalloc.bare jv = Regalloc.bare iv.
Proof.
  intros He i iv Hi. apply (f_equal (fun k => k !! i)) in He. change ((Regalloc.bare <$> l') !! i = (Regalloc.bare <$> l) !! i) in He.
  rewrite !list_lookup_fmap, Hi in He. cbn in He. symmetry in He. apply fmap_Some in He as (jv & ? & ?). by exists jv.
Qed.

(** An interval without the allocator's decisions. *)
Definition core (iv : LiveInterval) : LiveInterval := bare_resident (Regalloc.bare iv).

(** What the emitter, the collector and the deoptimizer rely on. *)
Record allocation_ok (T : Regalloc.target) (m : IrMethod) (lv : Intervals.liveness) (R : RegallocResult) : Prop := {
  ra_frame : block_order R = Intervals.l_block_order lv /\ safepoint_positions R = Intervals.l_safepoint_positions lv /\
    block_start_pos R = Intervals.l_block_start_pos lv /\ extra_oop_live R = Intervals.l_extra_oop_live lv /\
    frame_slots R = zlen (slot_is_oop R);
  ra_room : frame_slots R <= zlen (vregs m);
  ra_keeps : map core (intervals R) = map core (scan_input m (Intervals.l_intervals lv));
  ra_assigned : forall iv, iv ∈ intervals R ->
    (exists r, Regalloc.register iv = Some r /\ r ∈ Regalloc.pool T (is_fp iv) /\ crosses_safepoint iv = false) \/
    (exists s, Regalloc.spilled iv = Some s /\ zlookup (slot_is_oop R) s = Some (iv_is_oop iv));
  ra_registers : forall i j iv jv r, i <> j -> intervals R !! i = Some iv -> intervals R !! j = Some jv -> is_fp iv = is_fp jv ->
    Regalloc.register iv = Some r -> Regalloc.register jv = Some r -> end_ iv < start jv \/ end_ jv < start iv;
  ra_slots : forall i j iv jv s, intervals R !! i = Some iv -> intervals R !! j = Some jv ->
    Regalloc.spilled iv = Some s -> Regalloc.spilled jv = Some s -> i = j;
  ra_residents : exists l, residents_ok T l (intervals R);
  ra_nil : forall s, s ∈ deopt_nil_init_slots R <-> exists iv early, iv ∈ intervals R /\ Regalloc.spilled iv = Some s /\
    entry_early_defs m (block_order R) = Some early /\ needs_nil m early (extra_oop_live R) (safepoint_positions R) iv = true }.

Lemma dedup_cons x y k : dedup (x :: y :: k) = if x =? y then dedup (y :: k) else x :: dedup (y :: k).
Proof. done. Qed.
Lemma elem_of_dedup l s : s ∈ dedup l <-> s ∈ l.
Proof.
  induction l as [|x [|y k] IH]; [done|done|]. rewrite dedup_cons. destruct (Z.eqb_spec x y) as [->|].
  - rewrite IH, !elem_of_cons. tauto.
  - rewrite elem_of_cons, IH, (elem_of_cons (y :: k)). done.
Qed.
Lemma elem_of_nil_slots m early extra sps l s : s ∈ nil_slots m early extra sps l <->
  exists iv, iv ∈ l /\ Regalloc.spilled iv = Some s /\ needs_nil m early extra sps iv = true.
Proof.
  unfold nil_slots. rewrite elem_of_dedup, Regalloc.sort_by_perm, list_elem_of_omap. split.
  - intros (iv & [H1 H2]%list_elem_of_filter & H3). exists iv. by rewrite Is_true_true in H1.
  - intros (iv & H1 & H2 & H3). exists iv. split; [|done]. apply list_elem_of_filter. by rewrite Is_true_true.
Qed.

Lemma entry_early_ok m lv : Intervals.live_ok m lv -> blocks m <> [] -> exists early, entry_early_defs m (Intervals.l_block_order lv) = Some early.
Proof.
  intros Hok Hne. unfold entry_early_defs. destruct (is_osr m); [by eexists|]. destruct (Intervals.lo_order _ _ Hok) as (_ & _ & Hh).
  rewrite (Hh Hne). cbn [mbind option_bind]. destruct (zlookup_is_Some (blocks m) 0) as [e ->]; [|by eexists].
  destruct (blocks m) as [|b0 bs]; [done|]. rewrite zlen_cons. pose proof (zlen_nonneg bs). lia.
Qed.

Lemma regalloc_ok T m : Regalloc.target_ok T -> residency_ok T -> well_formed m -> zlen (vregs m) < 2 ^ 16 -> blocks m <> [] ->
  exists lv R, Intervals.compute_intervals m = Some lv /\ regalloc T m = Some R /\ Intervals.live_ok m lv /\ allocation_ok T m lv R.
Proof.
  intros HT HR Hwf Hn Hne. destruct (Intervals.compute_intervals_ok m (wf_targets _ Hwf) (wf_size _ Hwf)) as (lv & Hlv & Hok).
  unfold regalloc. rewrite Hlv. cbn [mbind option_bind]. fold (scan_input m (Intervals.l_intervals lv)).
  set (l := scan_input m (Intervals.l_intervals lv)).
  assert (Hg : Forall2 grown (Intervals.l_intervals lv) l) by (eapply Forall2_grown_trans; apply pin_grown).
  assert (Hl : forall iv, iv ∈ l -> assignment iv = None /\ resident_reg iv = None /\ 0 <= vreg iv < zlen (vregs m)).
  { intros iv Hin. destruct (grown_lookup _ _ Hg iv Hin) as (iv0 & H0 & (G1 & _ & _ & _ & _ & G6 & G7 & _)).
    destruct (Intervals.lo_info _ _ Hok iv0 H0) as (I1 & I2 & I3 & _). rewrite G1, G6, G7. apply zlookup_lt in I1. done. }
  destruct (Regalloc.allocate_ok T l HT) as (st & -> & Hst).
  { apply Forall2_length in Hg. pose proof (intervals_bound _ _ Hlv). unfold zlen in *. lia. }
  { intros iv Hin. by apply Hl. }
  cbn [mbind option_bind]. pose proof Hst as [].
  assert (Hroom : zlen (Regalloc.slot_is_oop st) <= zlen (vregs m)).
  { apply Forall2_length in Hg. pose proof (intervals_bound _ _ Hlv). unfold Regalloc.unspilled, zlen in *. lia. }
  assert (Hbare : forall iv, iv ∈ Regalloc.ivs st -> 0 <= vreg iv < zlen (vregs m) /\ resident_reg iv = None).
  { intros iv Hin. apply list_elem_of_lookup_1 in Hin as [i Hi]. destruct (bare_lookup _ _ so_keeps i iv Hi) as (jv & Hj & He).
    apply list_elem_of_lookup_2 in Hj. destruct (Hl _ Hj) as (_ & Hr' & Hr).
    pose proof (f_equal vreg He) as E1. pose proof (f_equal resident_reg He) as E2. cbn in E1, E2. rewrite <- E1, <- E2. done. }
  destruct (assign_residents_ok T m (Regalloc.ivs st) HR Hwf) as (l' & -> & Hres).
  { intros iv Hin. by apply Hbare. }
  { intros iv r Hin Hr. apply list_elem_of_lookup_1 in Hin as [i Hi]. by eapply so_pool. }
  cbn [mbind option_bind].
  destruct (entry_early_ok m lv Hok Hne) as [early He]. rewrite He. cbn [mbind option_bind]. eexists lv, _. split_and!; [done|reflexivity|done|].
  destruct Hres as [Rk Rs Ra].
  assert (Hlk : forall i iv, l' !! i = Some iv -> exists jv, Regalloc.ivs st !! i = Some jv /\ is_fp jv = is_fp iv /\
    start jv = start iv /\ end_ jv = end_ iv /\ iv_is_oop jv = iv_is_oop iv /\ crosses_safepoint jv = crosses_safepoint iv /\
    Regalloc.register jv = Regalloc.register iv /\ Regalloc.spilled jv = Regalloc.spilled iv).
  { intros i iv Hi. destruct (bare_resident_lookup _ _ Rk i iv Hi) as (jv & Hj & E). apply bare_resident_eq in E as (E1 & E2 & E3 & E4 & E5 & E6 & E7 & E8).
    exists jv. unfold Regalloc.register, Regalloc.spilled. rewrite E8. by split_and!. }
  split; cbn [block_order intervals frame_slots slot_is_oop safepoint_positions block_start_pos extra_oop_live deopt_nil_init_slots].
  - done.
  - done.
  - assert (Hcore : map core l' = map Regalloc.bare (map bare_resident l')) by (rewrite map_map; apply map_ext; by intros []).
    rewrite Hcore, Rk, map_map. rewrite (map_ext _ (fun iv => bare_resident (Regalloc.bare iv))) by (by intros []).
    rewrite <- (map_map Regalloc.bare bare_resident), so_keeps, map_map. done.
  - intros iv Hin. apply list_elem_of_lookup_1 in Hin as [i Hi]. destruct (Hlk i iv Hi) as (jv & Hj & F1 & _ & _ & F4 & F5 & F6 & F7).
    destruct (assignment jv) as [[r|s]|] eqn:Ha.
    + left. exists r. assert (Hr : Regalloc.register jv = Some r) by (unfold Regalloc.register; by rewrite Ha).
      split_and!; [congruence|rewrite <- F1; by eapply so_pool|]. rewrite <- F5. destruct (crosses_safepoint jv) eqn:Hc; [|done].
      destruct (so_safe _ _ Hj Hc). unfold Regalloc.spilled. by rewrite Ha.
    + right. exists s. assert (Hs : Regalloc.spilled jv = Some s) by (unfold Regalloc.spilled; by rewrite Ha).
      split; [congruence|]. rewrite <- F4. by eapply so_slots.
    + apply (so_todo _ _ Hj) in Ha. by apply elem_of_nil in Ha.
  - intros i j iv jv r Hij Hi Hj Hc Hri Hrj. destruct (Hlk i iv Hi) as (a & Ha & A1 & A2 & A3 & _ & _ & A6 & _), (Hlk j jv Hj) as (b & Hb & B1 & B2 & B3 & _ & _ & B6 & _).
    rewrite <- A2, <- A3, <- B2, <- B3. apply (so_disjoint i j a b r); congruence.
  - intros i j iv jv s Hi Hj Hsi Hsj. destruct (Hlk i iv Hi) as (a & Ha & _ & _ & _ & _ & _ & _ & A7), (Hlk j jv Hj) as (b & Hb & _ & _ & _ & _ & _ & _ & B7).
    apply (so_inj i j a b s); congruence.
  - by exists (Regalloc.ivs st).
  - intros s. rewrite elem_of_nil_slots. split.
    + intros (iv & H1 & H2 & H3). by exists iv, early.
    + intros (iv & early' & H1 & H2 & H3 & H4). exists iv. rewrite H3 in He. injection He as ->. done.
Qed.
End Residents.
