(* ===== verification/Allocation.v ===== *)
(** What the register allocator guarantees of a method, on its own and together
    with the oop maps built from its result ([src/src/compiler/regalloc.rs],
    [src/src/compiler/oopmap.rs]), and a method it allocates wrongly. *)
From S2P Require Import Prelude Scopes OopMaps Ir Intervals Regalloc Residents.
From stdpp Require Import gmap.
#[local] Open Scope Z_scope.

Module Allocation.
Import IR Residents.

(** ** Well-formedness, decided *)
Fixpoint ids_from (i : Z) (bs : list IrBlock) : bool :=
  match bs with [] => true | b :: bs => (id b =? i) && ids_from (i + 1) bs end.
Definition in_range (n v : Z) : bool := (0 <=? v) && (v <? n).
Definition well_formedb (m : IrMethod) : bool :=
  forallb (fun b => forallb (in_range (zlen (blocks m))) (Intervals.successors b) &&
    forallb (fun op => forallb (in_range (zlen (vregs m))) (uses op ++ defs op)) (code b)) (blocks m) &&
  (zlen (blocks m) <? 2 ^ 32) && ids_from 0 (blocks m).

Lemma ids_from_ok bs : forall i k blk, ids_from i bs = true -> bs !! k = Some blk -> id blk = i + Z.of_nat k.
Proof.
  induction bs as [|b bs IH]; intros i k blk; [done|]. cbn [ids_from]. rewrite andb_true_iff, Z.eqb_eq. intros [Hb Hbs].
  destruct k as [|k]; cbn; [intros [= <-]; lia|]. intros Hk. rewrite (IH (i + 1) k blk Hbs Hk). lia.
Qed.
Lemma in_range_ok n l v : forallb (in_range n) l = true -> v ∈ l -> 0 <= v < n.
Proof. intros H Hv. rewrite forallb_forall in H. apply list_elem_of_In, H in Hv. unfold in_range in Hv. lia. Qed.
Lemma well_formedb_ok m : well_formedb m = true -> well_formed m.
Proof.
  unfold well_formedb. rewrite !andb_true_iff, Z.ltb_lt. intros [[Hall Hsz] Hids]. rewrite forallb_forall in Hall. split.
  - intros b s Hb Hs. apply list_elem_of_In, Hall in Hb. rewrite andb_true_iff in Hb. by eapply in_range_ok; [apply Hb|].
  - done.
  - intros i blk Hi. pose proof (zlookup_lt _ _ _ Hi). unfold zlookup in Hi. destruct (i <? 0); [done|]. rewrite (ids_from_ok _ _ _ _ Hids Hi). lia.
  - intros blk op v Hb Hop Hv. apply list_elem_of_In, Hall in Hb. rewrite andb_true_iff in Hb. destruct Hb as [_ Hb].
    rewrite forallb_forall in Hb. apply list_elem_of_In, Hb in Hop. by eapply in_range_ok.
Qed.

(** ** The targets *)
#[local] Ltac nodup := apply (bool_decide_unpack _); vm_compute; exact I.

Lemma aarch64_ok : Regalloc.target_ok Regalloc.aarch64.
Proof. split; intros []; cbn; try done; nodup. Qed.
Lemma x86_64_ok : Regalloc.target_ok Regalloc.x86_64.
Proof. split; intros []; cbn; try done; nodup. Qed.

(** Membership in a literal list, decided. *)
Lemma forall_elem (f : Z -> bool) (l : list Z) r : r ∈ l -> forallb f l = true -> f r = true.
Proof. intros Hr H. rewrite forallb_forall in H. by apply H, list_elem_of_In. Qed.
Lemma x86_64_residency : residency_ok Regalloc.x86_64.
Proof.
  split; cbn; [nodup|nodup| |].
  - intros r Hr. assert (H : r ∈ [12; 13; 14] ++ [1; 2; 3; 6; 7; 8; 9]) by (by apply elem_of_app).
    apply (forall_elem (fun r => (0 <=? r) && (r <? 16))) in H; [|reflexivity]. unfold Regalloc.MAX_REG_NUM. lia.
  - intros r. split; by intros ?%elem_of_nil.
Qed.
Lemma aarch64_residency : residency_ok Regalloc.aarch64.
Proof.
  split; cbn; [nodup|nodup| |].
  - intros r Hr. assert (H : r ∈ [6; 7; 8; 9; 10; 11; 12; 13; 14; 15] ++ [0; 1; 2; 3; 4; 5; 6; 7; 8; 9; 10; 11; 12; 13; 14; 15]) by (by apply elem_of_app).
    apply (forall_elem (fun r => (0 <=? r) && (r <? 16))) in H; [|reflexivity]. unfold Regalloc.MAX_REG_NUM. lia.
  - intros r. split.
    + intros H Hr. apply (forall_elem (fun r => 21 <=? r)) in H; [|reflexivity]. apply (forall_elem (fun r => r <=? 15)) in Hr; [|reflexivity]. lia.
    + intros H Hr. apply (forall_elem (fun r => 8 <=? r)) in H; [|reflexivity]. apply (forall_elem (fun r => r <=? 7)) in Hr; [|reflexivity]. lia.
Qed.

(** ** Oop maps of an allocated method *)
Lemma zlen_set s m : 0 <= s -> zlen (OopMap.set s m) <= Z.max (zlen m) (s / 64 + 1).
Proof.
  intros Hs. unfold OopMap.set. rewrite zlen_insert. assert (0 <= s / 64) by (apply Z.div_pos; lia).
  destruct (Z.leb_spec (zlen m) (s / 64)); [|lia].
  destruct (OopMap.zlookup_resize m (s / 64 + 1) (s / 64)) as [_ ->]; lia.
Qed.
Lemma zlen_build ivs n pos extra : Forall (Maps.slots_ok n) ivs -> forall map map', Maps.build_from ivs n pos extra map = Some map' ->
  zlen map' <= Z.max (zlen map) (n / 64 + 1).
Proof.
  induction 1 as [|iv ivs Hiv _ IH]; intros map map'; cbn [Maps.build_from]; [intros [= ->]; lia|].
  destruct (negb (iv_is_oop iv)); [apply IH|]. unfold Maps.slots_ok in Hiv. destruct (assignment iv) as [[r|s]|]; [apply IH| |apply IH].
  destruct (_ || _); [|apply IH]. destruct (Z.ltb_spec s n); [|done]. intros H1%IH. pose proof (zlen_set s map ltac:(lia)).
  pose proof (Z.div_le_mono s n 64 ltac:(lia) ltac:(lia)). lia.
Qed.

Section allocated.
Context (T : Regalloc.target) (m : IrMethod) (lv : Intervals.liveness) (R : RegallocResult).
Context (Hok : allocation_ok T m lv R).

Lemma allocated_slots : Forall (Maps.slots_ok (frame_slots R)) (intervals R).
Proof.
  rewrite Forall_forall. intros iv Hin. unfold Maps.slots_ok. destruct (assignment iv) as [[r|s]|] eqn:Ha; [done| |done].
  destruct (ra_assigned _ _ _ _ Hok iv Hin) as [(r & Hr & _)|(s' & Hs & Hl)]; [unfold Regalloc.register in Hr; by rewrite Ha in Hr|].
  unfold Regalloc.spilled in Hs. rewrite Ha in Hs. injection Hs as ->. apply zlookup_lt in Hl.
  destruct (ra_frame _ _ _ _ Hok) as (_ & _ & _ & _ & ->). done.
Qed.

(** The map of a position is built and passes the verifier. *)
Lemma allocated_map pos : zlen (slot_is_oop R) < 2 ^ 16 -> exists map,
  Maps.build_for_position (intervals R) (frame_slots R) pos (extra_oop_live R) = Some map /\
  (forall s, 0 <= s -> OopMap.is_oop map s = true <-> Maps.traced (intervals R) pos (extra_oop_live R) s) /\
  Maps.verify (frame_slots R) (slot_is_oop R) [map] = true.
Proof.
  intros Hlt. destruct (Maps.build_from_spec _ _ pos (extra_oop_live R) allocated_slots OopMap.empty) as (map & H1 & H2).
  assert (H3 : forall s, 0 <= s -> OopMap.is_oop map s = true <-> Maps.traced (intervals R) pos (extra_oop_live R) s).
  { intros s Hs. rewrite H2, OopMap.is_oop_empty by done. split; [by intros [?|?]|by right]. }
  exists map. split_and!; [done|done|]. unfold Maps.verify. cbn [forallb]. rewrite andb_true_r. apply forallb_forall.
  intros s Hs%list_elem_of_In. destruct (ra_frame _ _ _ _ Hok) as (_ & _ & _ & _ & Hfr).
  pose proof (zlen_build _ _ _ _ allocated_slots _ _ H1) as Hl. rewrite Hfr in Hl. change (zlen OopMap.empty) with 0 in Hl.
  pose proof (zlen_nonneg (slot_is_oop R)).
  unfold OopMap.iter_slots in Hs. rewrite OopMap.elem_of_iter_words in Hs by (Z.div_mod_to_equations; lia). rewrite Z.mul_0_r, Z.sub_0_r in Hs.
  destruct Hs as [Hs0 Ho]. apply H3 in Ho as (iv & Hin & Hoop & Ha & _); [|done].
  destruct (ra_assigned _ _ _ _ Hok iv Hin) as [(r & Hr & _)|(s' & Hsp & Hlk)]; [unfold Regalloc.register in Hr; by rewrite Ha in Hr|].
  unfold Regalloc.spilled in Hsp. rewrite Ha in Hsp. injection Hsp as <-. rewrite Hlk, Hoop. cbn. apply zlookup_lt in Hlk.
  rewrite andb_true_r. apply Z.ltb_lt. lia.
Qed.
End allocated.

(** A pinned or safepoint-crossing interval ends up in a slot. *)
Lemma spilled_of T m lv R : allocation_ok T m lv R -> forall iv0, iv0 ∈ Intervals.l_intervals lv -> crosses_safepoint iv0 = true ->
  exists iv slot, iv ∈ intervals R /\ vreg iv = vreg iv0 /\ iv_is_oop iv = iv_is_oop iv0 /\ Regalloc.spilled iv = Some slot.
Proof.
  intros Hok iv0 Hin Hc. assert (Hg : Forall2 grown (Intervals.l_intervals lv) (scan_input m (Intervals.l_intervals lv))).
  { eapply Forall2_grown_trans; apply pin_grown. }
  apply list_elem_of_lookup_1 in Hin as [i Hi]. destruct (Forall2_lookup_l _ _ _ _ _ Hg Hi) as (iv1 & H1 & (G1 & _ & G3 & _ & _ & _ & _ & _ & G9)).
  pose proof (ra_keeps _ _ _ _ Hok) as Hk. apply (f_equal (fun k => k !! i)) in Hk.
  change ((core <$> intervals R) !! i = (core <$> scan_input m (Intervals.l_intervals lv)) !! i) in Hk.
  rewrite !list_lookup_fmap, H1 in Hk. cbn in Hk. apply fmap_Some in Hk as (iv & Hiv & Heq). apply list_elem_of_lookup_2 in Hiv.
  pose proof (f_equal vreg Heq) as E1. pose proof (f_equal iv_is_oop Heq) as E2. pose proof (f_equal crosses_safepoint Heq) as E3.
  cbn in E1, E2, E3. rewrite (G9 Hc) in E3. exists iv.
  destruct (ra_assigned _ _ _ _ Hok iv Hiv) as [(r & _ & _ & Hno)|(s & Hs & _)]; [congruence|]. exists s. split_and!; [done|congruence|congruence|done].
Qed.

Lemma fact_at_elem extra v p : (v, p) ∈ extra -> Maps.fact_at extra v p = true.
Proof.
  intros H. unfold Maps.fact_at. apply existsb_exists. exists (v, p). split; [by apply list_elem_of_In|]. cbn. by rewrite !Z.eqb_refl.
Qed.

(** C6. Register allocation always returns, and what it returns is safe: every
    interval gets a register of its own class's pool or a stack slot that
    records whether it holds an oop; an interval that crosses a safepoint is
    never in a register; two intervals of one class in one register are
    disjoint and no two intervals share a slot; a resident register is given
    only to spilled intervals of length two or more, never one that an
    allocated interval holds, to disjoint intervals only, and, where calls
    clobber residents, to none that crosses a call; the slots nil-filled in the
    prologue are exactly those the emitter needs. *)
Theorem regalloc_correct T m (HT : Regalloc.target_ok T) (HR : residency_ok T) (Hwf : well_formed m)
    (Hn : zlen (vregs m) < 2 ^ 16) (Hne : blocks m <> []) :
  exists lv R, Intervals.compute_intervals m = Some lv /\ regalloc T m = Some R /\ allocation_ok T m lv R.
Proof.
  destruct (regalloc_ok T m HT HR Hwf Hn Hne) as (lv & R & H1 & H2 & _ & H3). by exists lv, R.
Qed.

(** C28. What deoptimization may read the collector keeps current: at every
    safepoint up to and including a trap or inlined-body site, the oop map is
    built and passes the verifier, and each oop register the site records lies
    in a slot of that map which the prologue nil-fills unless the leading
    operations of the entry block write the register. *)
Theorem deopt_values_traced T m (HT : Regalloc.target_ok T) (HR : residency_ok T) (Hwf : well_formed m)
    (Hn : zlen (vregs m) < 2 ^ 16) (Hne : blocks m <> []) :
  exists R, regalloc T m = Some R /\ forall p op vs v sp,
    zlookup (Intervals.layout m (block_order R)) p = Some (op, vs) -> v ∈ vs ->
    sp = p \/ (sp ∈ safepoint_positions R /\ sp < p) -> zlookup (vregs m) v = Some (MkVReg true false) ->
    exists map slot early,
      Maps.build_for_position (intervals R) (frame_slots R) sp (extra_oop_live R) = Some map /\
      Maps.verify (frame_slots R) (slot_is_oop R) [map] = true /\
      (exists iv, iv ∈ intervals R /\ vreg iv = v /\ Regalloc.spilled iv = Some slot) /\ OopMap.is_oop map slot = true /\
      entry_early_defs m (block_order R) = Some early /\ (slot ∈ deopt_nil_init_slots R \/ v ∈ early).
Proof.
  destruct (regalloc_ok T m HT HR Hwf Hn Hne) as (lv & R & _ & HRr & Hlive & Hok). exists R. split; [done|].
  intros p op vs v sp Hp Hv Hsp Hoop. pose proof (ra_frame _ _ _ _ Hok) as (Ho & Hs & _ & He & Hf).
  rewrite Ho in Hp. rewrite Hs in Hsp. destruct (Intervals.lo_deopt _ _ Hlive p op vs v Hp Hv) as [Hfact Hiv].
  specialize (Hfact sp Hsp). rewrite <- He in Hfact. destruct Hiv as (iv0 & Hin0 & Hv0 & Hc0); [by eapply zlookup_lt|].
  destruct (spilled_of T m lv R Hok iv0 Hin0 Hc0) as (iv & slot & Hin & Hvr & Ho1 & Hsl).
  pose proof (ra_room _ _ _ _ Hok) as Hroom.
  destruct (allocated_map T m lv R Hok sp) as (map & H1 & H2 & H3); [lia|].
  destruct (entry_early_ok m lv Hlive Hne) as [early Hearly].
  exists map, slot, early. rewrite Hv0 in Hvr. destruct (Intervals.lo_info _ _ Hlive iv0 Hin0) as (Hinfo & _).
  rewrite Hv0, Hoop in Hinfo. injection Hinfo as Hio _.
  split_and!; [done|done|by exists iv| |by rewrite Ho|].
  - apply H2. { destruct (ra_assigned _ _ _ _ Hok iv Hin) as [(r & Hr & _)|(s & Hss & Hl)].
      - unfold Regalloc.register, Regalloc.spilled in *. by destruct (assignment iv) as [[]|].
      - assert (s = slot) as -> by congruence. apply zlookup_lt in Hl. lia. }
    exists iv. split_and!; [done|congruence| |right; rewrite Hvr; by apply fact_at_elem].
    unfold Regalloc.spilled in Hsl. destruct (assignment iv) as [[]|]; [done| |done]. by injection Hsl as ->.
  - destruct (decide (v ∈ early)) as [|Hne']; [by right|left]. apply (ra_nil _ _ _ _ Hok). exists iv, early. split_and!; [done|done|by rewrite Ho|].
    unfold needs_nil. rewrite Hvr. rewrite (bool_decide_true (v ∈ _)), (bool_decide_false (v ∈ early)); [done|done|].
    apply list_elem_of_fmap. by exists (v, sp).
Qed.

Lemma deopt_values_traced_witness : exists R, regalloc Regalloc.x86_64 Intervals.counting_loop = Some R /\
  zlookup (Intervals.layout Intervals.counting_loop (block_order R)) 10 = Some (UncommonTrap 8, [0; 1; 1; 2]) /\
  exists map slot, Maps.build_for_position (intervals R) (frame_slots R) 10 (extra_oop_live R) = Some map /\ OopMap.is_oop map slot = true.
Proof.
  destruct (deopt_values_traced Regalloc.x86_64 Intervals.counting_loop) as (R & H1 & H2);
    [exact x86_64_ok|exact x86_64_residency|apply well_formedb_ok; reflexivity|reflexivity|discriminate|].
  exists R. split; [exact H1|]. assert (Hl : zlookup (Intervals.layout Intervals.counting_loop (block_order R)) 10 = Some (UncommonTrap 8, [0; 1; 1; 2])).
  { vm_compute in H1. injection H1 as <-. vm_compute. reflexivity. }
  split; [exact Hl|]. destruct (H2 10 _ _ 2 10 Hl) as (map & slot & _ & M1 & _ & _ & M2 & _); [right; right; right; left|by left|reflexivity|].
  exists map, slot. split; [exact M1|exact M2].
Defined.

Lemma regalloc_correct_witness : exists lv R, Intervals.compute_intervals Intervals.counting_loop = Some lv /\
  regalloc Regalloc.x86_64 Intervals.counting_loop = Some R /\ allocation_ok Regalloc.x86_64 Intervals.counting_loop lv R /\
  (frame_slots R, deopt_nil_init_slots R) = (3, []) /\
  resident_reg <$> intervals R = [Some 12; Some 13; Some 14; None].
Proof.
  destruct (regalloc_correct Regalloc.x86_64 Intervals.counting_loop) as (lv & R & H1 & H2 & H3);
    [exact x86_64_ok|exact x86_64_residency|apply well_formedb_ok; reflexivity|reflexivity|discriminate|].
  exists lv, R. split; [exact H1|]. split; [exact H2|]. split; [exact H3|]. vm_compute in H2. injection H2 as <-. split; vm_compute; reflexivity.
Defined.

(** ** A definition after the last use *)
(** [t := iv1. iv2 := t. ^self foo: iv5 bar: iv6 baz: (t := iv4)]: register 2
    is [t], written once more after it is last read. *)
Definition late_store : IrMethod := MkMethod false
  [MkBlock 0 0 [Param 0 0; LoadField 1 0 8; Move 2 1; Move 3 2; StoreField 0 16 3 true; LoadField 4 0 24; LoadField 5 0 32;
                LoadField 6 0 40; Move 2 6; CallSend 7 0 [0; 4; 5; 6]; Ret 7] [] []]
  (replicate 8 (MkVReg true false)) 0 1 None [] None.

(** C39. A register written after its last use is not covered: liveness extends
    an interval to its uses only, so in this method the allocator gives the
    temporary's register to an argument, and the store to the temporary just
    before the send overwrites that argument. *)
Theorem late_def_clobbers : well_formed late_store /\ exists R p op v w iv jv r,
  regalloc Regalloc.x86_64 late_store = Some R /\
  zlookup (Intervals.layout late_store (block_order R)) p = Some (op, []) /\ v ∈ defs op /\
  iv ∈ intervals R /\ vreg iv = v /\ Regalloc.register iv = Some r /\
  jv ∈ intervals R /\ vreg jv = w /\ Regalloc.register jv = Some r /\ v <> w /\ is_fp iv = is_fp jv /\
  start jv < p < end_ jv /\
  exists call, zlookup (Intervals.layout late_store (block_order R)) (p + 1) = Some (call, []) /\ w ∈ uses call.
Proof.
  split; [apply well_formedb_ok; reflexivity|].
  destruct (regalloc Regalloc.x86_64 late_store) as [R|] eqn:HR; [|vm_compute in HR; discriminate].
  vm_compute in HR. injection HR as <-.
  eexists _, 8, _, 2, 5, _, _, 3. split; [reflexivity|]. split; [vm_compute; reflexivity|]. split; [left|].
  split; [right; right; left|]. split; [reflexivity|]. split; [reflexivity|]. split; [do 5 right; left|].
  split; [reflexivity|]. split; [reflexivity|]. split; [discriminate|]. split; [reflexivity|]. split; [split; reflexivity|].
  eexists. split; [vm_compute; reflexivity|]. right; right; left.
Qed.
End Allocation.
