(* ===== verification/Scavenge.v ===== *)
(** The scavenger ([src/src/memory/scavenge.rs]): copying or promoting one
    object, scanning objects and dirty cards, and the Cheney loop.

    The root slots are a list of words, in the order the enumerations of
    [src/src/memory/roots.rs] visit them: [roots] for [for_each_root] and
    [code_roots] for [each_code_root].  The state holds what a scavenge reads
    and changes; the flush of the lookup cache, the statistics that only
    report, tracing, verification and the debug-only poisoning are left out. *)
From S2P Require Import Prelude Oops OldSpace Heap.
From stdpp Require Import gmap.
#[local] Open Scope Z_scope.

Module Scavenge.
Import Heap.

Inductive GcPhase := Mutator | ScavengeCopy | ScavengePromote.

Record gcstate := MkGC {
  mem : memory;
  layout : Geometry.HeapLayout;
  eden : Spaces.Eden;
  from : Spaces.Eden;
  to : Spaces.Eden;
  old : OldGen.OldGen;
  offsets : Offsets.OffsetTable;
  cards : Cards.CardTable;
  age_table : AgeTable.age_table;
  tenuring_threshold : Z;
  promotion_guarantee_met : bool;
  pending_stall : option (Z * GcPhase);
  bytes_promoted : Z;
  bytes_copied : Z }.

Definition with_mem (st : gcstate) (m : memory) : gcstate :=
  MkGC m (layout st) (eden st) (from st) (to st) (old st) (offsets st) (cards st) (age_table st) (tenuring_threshold st)
    (promotion_guarantee_met st) (pending_stall st) (bytes_promoted st) (bytes_copied st).
Definition with_to_top (st : gcstate) (t : Z) : gcstate :=
  MkGC (mem st) (layout st) (eden st) (from st) (Spaces.MkSpace (Spaces.s_start (to st)) t (Spaces.s_end (to st))) (old st)
    (offsets st) (cards st) (age_table st) (tenuring_threshold st) (promotion_guarantee_met st) (pending_stall st)
    (bytes_promoted st) (bytes_copied st).
Definition with_old (st : gcstate) (g : OldGen.OldGen) (t : Offsets.OffsetTable) : gcstate :=
  MkGC (mem st) (layout st) (eden st) (from st) (to st) g t (cards st) (age_table st) (tenuring_threshold st)
    (promotion_guarantee_met st) (pending_stall st) (bytes_promoted st) (bytes_copied st).
Definition with_cards (st : gcstate) (c : Cards.CardTable) : gcstate :=
  MkGC (mem st) (layout st) (eden st) (from st) (to st) (old st) (offsets st) c (age_table st) (tenuring_threshold st)
    (promotion_guarantee_met st) (pending_stall st) (bytes_promoted st) (bytes_copied st).
Definition with_stall (st : gcstate) (s : option (Z * GcPhase)) : gcstate :=
  MkGC (mem st) (layout st) (eden st) (from st) (to st) (old st) (offsets st) (cards st) (age_table st) (tenuring_threshold st)
    (promotion_guarantee_met st) s (bytes_promoted st) (bytes_copied st).
Definition with_stats (st : gcstate) (t : AgeTable.age_table) (promoted copied : Z) : gcstate :=
  MkGC (mem st) (layout st) (eden st) (from st) (to st) (old st) (offsets st) (cards st) t (tenuring_threshold st)
    (promotion_guarantee_met st) (pending_stall st) promoted copied.

(** ** Copying one object *)
Definition effective_klass (m : memory) (candidate : Z) : option Z :=
  a ← mem_oop candidate;
  f ← is_forwarded m a;
  target ← (if f : bool then forwardee m a else Some candidate);
  klass_of_oop m target.
Definition object_size_for_copy (m : memory) (a : Z) : option Z :=
  o ← klass_oop m a; k ← effective_klass m o; size_words_for_klass m a k.

(** [debug_assert!] is the [None]; only the first stall is kept. *)
Definition record_stall (st : gcstate) (requested : Z) (phase : GcPhase) (oop : Z) : option (gcstate * Z) :=
  if match phase with ScavengePromote => promotion_guarantee_met st | _ => false end then None
  else Some (match pending_stall st with Some _ => st | None => with_stall st (Some (requested, phase)) end, oop).

Definition saturating_add8 (a b : Z) : Z := Z.min 255 (a + b).

(** [copy_nonoverlapping] of [n] words. *)
Fixpoint copy_words (n : nat) (m : memory) (src dst : Z) : option memory :=
  match n with
  | O => Some m
  | S n => w ← m !! src; copy_words n (<[dst := w]> m) (src + 8) (dst + 8)
  end.

(** Where the copy goes: the address, and whether it is promoted. *)
Definition allocate_old (st : gcstate) (size_bytes : Z) : option (gcstate * option Z) :=
  r ← OldGen.allocate (old st) (offsets st) tt size_bytes (fun _ m => m);
  Some (with_old st (OldGen.r_old r) (OldGen.r_offsets r), OldGen.r_addr r).
Definition destination (st : gcstate) (age_promote : bool) (size_bytes : Z) : option (gcstate * option Z * bool) :=
  if age_promote then '(st, a) ← allocate_old st size_bytes; Some (st, a, true)
  else
    let new_top := Spaces.s_top (to st) + size_bytes in
    if Spaces.s_end (to st) <? new_top then '(st, a) ← allocate_old st size_bytes; Some (st, a, true)
    else Some (with_to_top st new_top, Some (Spaces.s_top (to st)), false).

(** What is recorded of the copy at [dest]. *)
Definition account (st : gcstate) (dest size_bytes age : Z) (promoted : bool) : option gcstate :=
  if promoted then
    cs ← Cards.record_multistores (cards st) dest (dest + size_bytes);
    let st := with_cards st cs in
    Some (with_stats st (age_table st) (bytes_promoted st + size_bytes) (bytes_copied st))
  else
    let new_age := Z.min (saturating_add8 age 1) MARK_AGE_MAX in
    mk ← mark (mem st) dest;
    let st := with_mem st (set_mark (mem st) dest (Mark.with_age mk new_age)) in
    t ← AgeTable.record (age_table st) new_age size_bytes;
    Some (with_stats st t (bytes_promoted st) (bytes_copied st + size_bytes)).

Definition copy_object (st : gcstate) (oop : Z) (a : Z) : option (gcstate * Z) :=
  size_words ← object_size_for_copy (mem st) a;
  let size_bytes := size_words * 8 in
  mk ← mark (mem st) a;
  let age := Mark.age mk in
  let age_promote := tenuring_threshold st <=? saturating_add8 age 1 in
  '(st, dest, promoted) ← destination st age_promote size_bytes;
  match dest with
  | None => record_stall st size_bytes ScavengePromote oop
  | Some dest =>
      m ← copy_words (Z.to_nat size_words) (mem st) a dest;
      st ← account (with_mem st m) dest size_bytes age promoted;
      Some (with_mem st (install_forwarding (mem st) a (oop_of dest)), oop_of dest)
  end.

(** The panic on a to-space address is the [None]. *)
Definition scavenge_oop (st : gcstate) (oop : Z) : option (gcstate * Z) :=
  if negb (Oop.is_mem oop) then Some (st, oop)
  else
    let addr := Oop.mem_addr oop in
    if Geometry.is_old (layout st) addr then Some (st, oop)
    else if (Spaces.s_start (to st) <=? addr) && (addr <? Spaces.s_top (to st)) then None
    else
      f ← is_forwarded (mem st) addr;
      if f : bool then fw ← forwardee (mem st) addr; Some (st, fw)
      else copy_object st oop addr.

(** ** Scanning *)
(** One slot: read, scavenged, written back.  [Oop::from_raw] asserts the tag. *)
Definition update_slot (st : gcstate) (slot : Z) : option (gcstate * Z) :=
  w ← mem st !! slot;
  o ← Oop.from_raw w;
  '(st, v) ← scavenge_oop st o;
  Some (with_mem st (<[slot := v]> (mem st)), v).
Fixpoint update_slots (st : gcstate) (slots : list Z) : option gcstate :=
  match slots with [] => Some st | s :: slots => '(st, _) ← update_slot st s; update_slots st slots end.

(** [for_each_oop_field] with [scavenge_oop]. *)
Definition for_each_oop_field (st : gcstate) (a k : Z) : option gcstate :=
  nis ← non_indexable_size (mem st) k;
  named ← named_words nis;
  f ← format (mem st) k;
  match f with
  | Slots | Klass | IndexableBytes | Method => update_slots st (map (body_addr a) (zrange 0 named))
  | Double | Process => Some st
  | IndexableOops | Closure | Context =>
      st ← update_slots st (map (body_addr a) (zrange 0 named));
      len ← raw_size_slot (mem st) a nis;
      update_slots st (map (fun i => body_addr a (named + 1 + i)) (zrange 0 len))
  end.
Definition scan_body (st : gcstate) (a : Z) : option gcstate := k ← klass (mem st) a; for_each_oop_field st a k.

(** [touch]: a slot outside the window is left alone; answers whether the
    slot still holds a new-generation oop. *)
Definition touch (ws we : Z) (acc : gcstate * bool) (slot : Z) : option (gcstate * bool) :=
  let '(st, still) := acc in
  if (slot <? ws) || (we <=? slot) then Some acc
  else
    '(st, nv) ← update_slot st slot;
    Some (st, still || (Oop.is_mem nv && Geometry.is_new (layout st) (Oop.mem_addr nv))).
Fixpoint touch_all (ws we : Z) (acc : gcstate * bool) (slots : list Z) : option (gcstate * bool) :=
  match slots with [] => Some acc | s :: slots => acc ← touch ws we acc s; touch_all ws we acc slots end.

(** [saturating_sub] then [div_ceil] by the word size. *)
Definition tail_index (w tail_base : Z) : Z := (Z.max 0 (w - tail_base) + 7) / 8.
Definition scan_slots_in_window (st : gcstate) (a k ws we : Z) : option (gcstate * bool) :=
  nis ← non_indexable_size (mem st) k;
  named ← named_words nis;
  acc ← touch ws we (st, false) (a + KLASS_OFFSET);
  f ← format (mem acc.1) k;
  match f with
  | Slots | Klass | IndexableBytes | Method => touch_all ws we acc (map (body_addr a) (zrange 0 named))
  | Double | Process => Some acc
  | IndexableOops | Closure | Context =>
      '(st, still) ← touch_all ws we acc (map (body_addr a) (zrange 0 named));
      k' ← klass (mem st) a;
      nis' ← non_indexable_size (mem st) k';
      len ← raw_size_slot (mem st) a nis';
      if 0 <? len then
        tail0 ← named_words nis';
        let tail_base := body_addr a (tail0 + 1) in
        touch_all ws we (st, still)
          (map (fun i => body_addr a (tail0 + 1 + i)) (zrange (tail_index ws tail_base) (Z.min (tail_index we tail_base) len)))
      else Some (st, still)
  end.

(** The objects from [addr] on that reach the card; an object has at least a
    header, so 64 objects start in a card and one reaches into it. *)
Fixpoint card_objects (fuel : nat) (card_base card_end old_top_before : Z) (acc : gcstate * bool) (addr : Z) :
    option (gcstate * bool) :=
  match fuel with
  | O => None
  | S fuel =>
      if (addr <? card_end) && (addr <? old_top_before) then
        let '(st, still) := acc in
        k ← klass (mem st) addr;
        size_words ← size_words_for_klass (mem st) addr k;
        let obj_end := addr + size_words * 8 in
        acc ← (if card_base <? obj_end then
                 '(st, b) ← scan_slots_in_window st addr k card_base card_end; Some (st, still || b)
               else Some (st, still));
        card_objects fuel card_base card_end old_top_before acc obj_end
      else Some acc
  end.
Definition scan_card (old_top_before : Z) (st : gcstate) (i : Z) : option gcstate :=
  let card_base := Cards.card_base (cards st) i in
  dirty ← Cards.is_dirty (cards st) i;
  if negb dirty then Some st
  else
    let card_end := card_base + CARD_SIZE in
    addr ← Offsets.resolve (offsets st) i;
    '(st, still) ← card_objects 66 card_base card_end old_top_before (st, false) addr;
    if negb still && (card_end <=? old_top_before) then cs ← Cards.set_clean (cards st) i; Some (with_cards st cs)
    else Some st.
(** The loop leaves at the first card past the old top. *)
Fixpoint scan_cards (old_top_before : Z) (st : gcstate) (is_ : list Z) : option gcstate :=
  match is_ with
  | [] => Some st
  | i :: is_ =>
      if old_top_before <=? Cards.card_base (cards st) i then Some st
      else st ← scan_card old_top_before st i; scan_cards old_top_before st is_
  end.
Definition dirty_card_scan (st : gcstate) (old_top_before : Z) : option gcstate :=
  scan_cards old_top_before st (zrange 0 (Cards.n_cards (cards st))).

(** ** The cycle *)
Fixpoint scavenge_roots (st : gcstate) (roots : list Z) : option (gcstate * list Z) :=
  match roots with
  | [] => Some (st, [])
  | r :: roots =>
      '(st, r) ← scavenge_oop st r; '(st, roots) ← scavenge_roots st roots; Some (st, r :: roots)
  end.

(** One object of the Cheney loop, klass first; answers its size in bytes. *)
Definition scan_object (st : gcstate) (a : Z) : option (gcstate * Z) :=
  '(st, nk) ← update_slot st (a + KLASS_OFFSET);
  st ← scan_body st a;
  match pending_stall st with
  | Some _ => Some (st, 0)
  | None => k ← klass_of_oop (mem st) nk; n ← size_words_for_klass (mem st) a k; Some (st, n * 8)
  end.
(** [inr] is the loop's [Ok], [inl] the stall it returns early. *)
Fixpoint cheney (fuel : nat) (st : gcstate) (to_scan old_scan : Z) : option (gcstate + gcstate) :=
  match fuel with
  | O => None
  | S fuel =>
      if to_scan <? Spaces.s_top (to st) then
        '(st, n) ← scan_object st to_scan;
        match pending_stall st with Some _ => Some (inl st) | None => cheney fuel st (to_scan + n) old_scan end
      else if old_scan <? OldGen.top (old st) then
        '(st, n) ← scan_object st old_scan;
        match pending_stall st with Some _ => Some (inl st) | None => cheney fuel st to_scan (old_scan + n) end
      else Some (inr st)
  end.
(** Every object scanned takes at least two words of the room there is. *)
Definition cheney_fuel (st : gcstate) (old_scan : Z) : nat :=
  S (Z.to_nat ((Spaces.s_end (to st) - Spaces.s_start (to st) + (OldGen.committed_end (old st) - old_scan)) / 8)).

(** The swap, the reset of the vacated spaces and the next threshold. *)
Definition finish (st : gcstate) : option gcstate :=
  let eden' := Spaces.reset (eden st) in
  let from' := to st in
  let to' := Spaces.reset (from st) in
  thr ← AgeTable.compute_threshold (age_table st) (Spaces.s_end from' - Spaces.s_start from');
  Some (MkGC (mem st) (layout st) eden' from' to' (old st) (offsets st) (cards st) (age_table st) thr
          (promotion_guarantee_met st) (pending_stall st) (bytes_promoted st) (bytes_copied st)).

Inductive outcome := Stalled (e : Z * GcPhase) (st : gcstate) | Scavenged (st : gcstate) (roots code_roots : list Z).
(** [pending_stall.take()]. *)
Definition take_stall (st : gcstate) : option outcome := e ← pending_stall st; Some (Stalled e (with_stall st None)).

(** The cycle, once the assertion of [gc_enabled] has held. *)
Definition scavenge (st : gcstate) (roots code_roots : list Z) : option outcome :=
  let old_top_before := OldGen.top (old st) in
  let st := with_stats st (AgeTable.clear (age_table st)) (bytes_promoted st) (bytes_copied st) in
  let st := with_to_top st (Spaces.s_start (to st)) in
  '(st, roots) ← scavenge_roots st roots;
  st ← dirty_card_scan st old_top_before;
  '(st, code_roots) ← scavenge_roots st code_roots;
  match pending_stall st with
  | Some _ => take_stall st
  | None =>
      r ← cheney (cheney_fuel st old_top_before) st (Spaces.s_start (to st)) old_top_before;
      match r with
      | inl st => take_stall st
      | inr st => st ← finish st; Some (Scavenged st roots code_roots)
      end
  end.
(** The function of the source: it panics until genesis has finished. *)
Definition checked_scavenge (gc_enabled : bool) (st : gcstate) (roots code_roots : list Z) : option outcome :=
  if gc_enabled then scavenge st roots code_roots else None.
End Scavenge.
