(* ===== verification/ScavengeInv.v ===== *)
(** The invariant of a scavenge ([src/src/memory/scavenge.rs]): what memory
    holds while objects are being copied, relative to what it held before. *)
From S2P Require Import Prelude Oops OldSpace Heap Scavenge.
From stdpp Require Import gmap.
#[local] Open Scope Z_scope.

Module ScavengeInv.
Import Heap Scavenge.

(** ** Tilings *)
Lemma tiled_fun a l : forall b b', OldGen.tiled a l b -> OldGen.tiled a l b' -> b = b'.
Proof. revert a. induction l as [|[x s] l IH]; intros a b b'; cbn; [congruence|]. intros (_ & _ & _ & H1) (_ & _ & _ & H2). by eapply IH. Qed.
Lemma tiled_split a l k c : OldGen.tiled a (l ++ k) c -> exists b, OldGen.tiled a l b /\ OldGen.tiled b k c.
Proof.
  revert a. induction l as [|[x s] l IH]; intros a; cbn; [by exists a|]. intros (-> & Hs & H8 & H).
  destruct (IH _ H) as (b & H1 & H2). exists b. by split_and!.
Qed.
Lemma tiled_apart a l c i j x s y t : OldGen.tiled a l c -> l !! i = Some (x, s) -> l !! j = Some (y, t) -> i <> j ->
  x + s <= y \/ y + t <= x.
Proof.
  revert a i j. induction l as [|[z u] l IH]; intros a i j; [done|]. cbn [OldGen.tiled]. intros (-> & Hu & H8 & H) Hi Hj Hne.
  destruct (OldGen.tiled_bounds _ _ _ H) as (_ & _ & Hb).
  destruct i as [|i], j as [|j]; cbn in Hi, Hj; [done|..].
  - injection Hi as <- <-. apply list_elem_of_lookup_2, Hb in Hj as (? & _). lia.
  - injection Hj as <- <-. apply list_elem_of_lookup_2, Hb in Hi as (? & _). lia.
  - eapply (IH _ i j); [done|done|done|congruence].
Qed.

(** ** The heap before *)
(** Body index -1 is the klass word, -2 the mark. *)
Definition oop_slots (s : shape) : list Z := -1 :: body_slots s.

Section heap.
Context (M0 : memory) (objs : gmap Z shape) (olds : list Z) (b : Geometry.SpaceBounds) (lay : Geometry.HeapLayout) (ts te : Z).
Context (st0 : gcstate).

Definition bytes (a : Z) : Z := match objs !! a with Some s => 8 * size_words s | None => 0 end.
Definition place (e : Z * Z) : Z * Z := (e.2, bytes e.1).
Definition OS : Z := Geometry.b_start b.
Definition is_young (a : Z) : Prop := is_Some (objs !! a) /\ a < OS.

(** A word an oop slot may hold. *)
Definition valid (w : Z) : Prop :=
  Oop.from_raw w = Some w /\
  (Oop.is_mem w = true -> is_Some (objs !! Oop.mem_addr w)).

Record heap_wf : Prop := {
  wf_layout : Geometry.old_start lay = OS /\ 0 <= OS /\ OS mod 8 = 0 /\ Geometry.b_end b < 2 ^ 64 /\ ts mod 8 = 0;
  wf_to : 0 <= ts <= te /\ te <= OS;
  wf_olds : forall a, a ∈ olds <-> is_Some (objs !! a) /\ OS <= a;
  wf_words : forall a s i, objs !! a = Some s -> -2 <= i < size_words s - 2 -> is_Some (M0 !! body_addr a i);
  wf_mark : forall a s, objs !! a = Some s -> exists mk, M0 !! a = Some mk /\ Mark.from_word mk = Some mk;
  wf_klass : forall a s, objs !! a = Some s -> exists k ks, M0 !! body_addr a (-1) = Some (oop_of k) /\
    Oop.is_mem (oop_of k) = true /\ objs !! k = Some ks /\ 4 <= size_words ks /\
    shape_with M0 a k = Some s /\ klass_of_oop M0 (oop_of k) = Some k;
  wf_slots : forall a s i w, objs !! a = Some s -> i ∈ body_slots s -> M0 !! body_addr a i = Some w -> valid w;
  wf_young : forall a s, objs !! a = Some s -> a < OS -> a mod 8 = 0 /\ 0 <= a /\ a + bytes a <= OS /\ (a + bytes a <= ts \/ te <= a);
  wf_apart : forall a a', is_young a -> is_young a' -> a <> a' -> a + bytes a <= a' \/ a' + bytes a' <= a;
  wf_small : forall a s, objs !! a = Some s -> bytes a + 7 < 2 ^ 64 }.

Context (Hwf : heap_wf).
Context (reach : Z -> Prop).
(** A young object the word names is one that must survive. *)
Definition live (w : Z) : Prop := Oop.is_mem w = true -> is_young (Oop.mem_addr w) -> reach (Oop.mem_addr w).
Context (Hreach : forall a s i w, objs !! a = Some s -> reach a \/ OS <= a -> i ∈ oop_slots s ->
  M0 !! body_addr a i = Some w -> live w).

Lemma obj_shape a s : objs !! a = Some s -> 2 <= s_nis s /\ 0 <= s_len s /\ 2 <= size_words s /\ bytes a = 8 * size_words s.
Proof.
  intros Ha. destruct (wf_klass Hwf a s Ha) as (k & ks & _ & _ & _ & _ & Hs & _). apply shape_bounds in Hs as [H1 H2].
  unfold bytes. rewrite Ha. split_and!; [done|done| |done]. unfold size_words.
  assert (0 <= (s_len s + 7) / 8) by (apply Z.div_pos; lia). destruct (s_format s); lia.
Qed.
Lemma bytes_pos a : is_Some (objs !! a) -> 16 <= bytes a /\ bytes a mod 8 = 0.
Proof.
  intros [s Ha]. destruct (obj_shape a s Ha) as (_ & _ & H & ->). split; [lia|]. rewrite Z.mul_comm. apply Z.mod_mul. lia.
Qed.

Lemma oop_slots_range a s i : objs !! a = Some s -> i ∈ oop_slots s -> -1 <= i < size_words s - 2.
Proof.
  intros Ha. destruct (obj_shape a s Ha) as (H1 & H2 & H3 & _). intros [->|Hi]%elem_of_cons; [lia|].
  apply elem_of_body_slots in Hi; [lia|done|done].
Qed.
Lemma slot_valid a s i w : objs !! a = Some s -> i ∈ oop_slots s -> M0 !! body_addr a i = Some w -> valid w.
Proof.
  intros Ha [->|Hi]%elem_of_cons Hw; [|by eapply (wf_slots Hwf)].
  destruct (wf_klass Hwf a s Ha) as (k & ks & Hk & Hm & Hks & _). rewrite Hw in Hk. injection Hk as ->.
  split.
  - unfold Oop.from_raw, Oop.is_mem, Oop.tag in *. apply Z.eqb_eq in Hm. rewrite Hm. done.
  - intros _. unfold oop_of, Oop.mem_addr. rewrite Z.add_simpl_r. by eexists.
Qed.

(** ** Copies *)
Record ghost := MkGhost { phi : gmap Z Z; tl : list (Z * Z); ol : list (Z * Z) }.
Definition old_homes (g : ghost) : list (Z * Z) := map (fun x => (x, x)) olds ++ ol g.
(** Where each object that has a final place is. *)
Definition home (g : ghost) (e : Z * Z) : Prop := e ∈ tl g \/ e ∈ old_homes g.

Definition reloc (f : gmap Z Z) (w : Z) : Z :=
  if Oop.is_mem w then match f !! Oop.mem_addr w with Some p => oop_of p | None => w end else w.
Definition settled (f : gmap Z Z) (w : Z) : Prop := Oop.is_mem w = true -> is_young (Oop.mem_addr w) -> is_Some (f !! Oop.mem_addr w).
(** What a processed slot holds; after a stall it may be the old word. *)
Definition done_word (f : gmap Z Z) (stalled : bool) (w0 w : Z) : Prop :=
  (w = reloc f w0 /\ settled f w0) \/ (stalled = true /\ w = w0).

Lemma reloc_mono f f' w : f ⊆ f' -> settled f w -> (forall a p, f' !! a = Some p -> is_young a) -> reloc f' w = reloc f w /\ settled f' w.
Proof.
  intros Hf Hs Hy. unfold reloc, settled in *. destruct (Oop.is_mem w); [|done].
  destruct (f !! Oop.mem_addr w) as [p|] eqn:E.
  - rewrite (lookup_weaken _ _ _ _ E Hf). split; [done|]. intros _ _. by exists p.
  - destruct (f' !! Oop.mem_addr w) as [p|] eqn:E'; [|split; [done|]].
    + destruct (Hs eq_refl (Hy _ _ E')). congruence.
    + intros _ Hyw. destruct (Hs eq_refl Hyw). congruence.
Qed.

Definition stalled (st : gcstate) : bool := match pending_stall st with Some _ => true | None => false end.

(** Bytes of young objects not yet copied. *)
Definition left (f : gmap Z Z) : Z :=
  foldr (fun a n => (if decide (a < OS /\ f !! a = None) then bytes a else 0) + n) 0 (map_to_list objs).*1.

Definition card_of (s : Z) : Z := (s - OS) / 512.
Definition new_word (w : Z) : Prop := Oop.is_mem w = true /\ Oop.mem_addr w < OS.

(** The mark of a survivor. *)
Definition older (mk : Z) : Z := Mark.with_age mk (Z.min (saturating_add8 (Mark.age mk) 1) MARK_AGE_MAX).

Record inv (g : ghost) (D : gset Z) (st : gcstate) : Prop := {
  i_static : layout st = lay /\ Spaces.s_start (to st) = ts /\ Spaces.s_end (to st) = te /\ Spaces.s_top (to st) <= te /\
    eden st = eden st0 /\ from st = from st0 /\ promotion_guarantee_met st = promotion_guarantee_met st0 /\ zlen (age_table st) = 128;
  i_phi : forall a p, phi g !! a = Some p <-> (a, p) ∈ tl g ++ ol g;
  i_young : forall a p, (a, p) ∈ tl g ++ ol g -> is_young a /\ reach a;
  i_to : OldGen.tiled ts (map place (tl g)) (Spaces.s_top (to st));
  i_old : OldGen.inv b (OldGen.MkState (old st) (offsets st) (map place (old_homes g)));
  i_from : forall a s i, objs !! a = Some s -> a < OS -> -1 <= i < size_words s - 2 -> mem st !! body_addr a i = M0 !! body_addr a i;
  i_mark_from : forall a s, objs !! a = Some s -> a < OS ->
    mem st !! a = match phi g !! a with Some p => Some (oop_of p) | None => M0 !! a end;
  i_home : forall a p s i, home g (a, p) -> objs !! a = Some s -> -1 <= i < size_words s - 2 ->
    exists w0 w, M0 !! body_addr a i = Some w0 /\ mem st !! body_addr p i = Some w /\
      if decide (body_addr p i ∈ D) then done_word (phi g) (stalled st) w0 w else w = w0;
  i_mark_home : forall a p, home g (a, p) -> exists mk, M0 !! a = Some mk /\ mem st !! p = Some (if decide (p < OS) then older mk else mk);
  i_done : forall x, x ∈ D -> exists a p s i, home g (a, p) /\ objs !! a = Some s /\ i ∈ oop_slots s /\ x = body_addr p i;
  i_cards : Cards.well_formed (cards st) b /\
    forall a p i, (a, p) ∈ ol g -> 0 <= i < Cards.n_cards (cards st) -> Cards.card_base (cards st) i < p + bytes a -> p < Cards.card_base (cards st) i + 512 ->
      Cards.is_dirty (cards st) i = Some true;
  i_rs : forall a s i w, a ∈ olds -> objs !! a = Some s -> i ∈ oop_slots s -> mem st !! body_addr a i = Some w -> new_word w ->
    Cards.is_dirty (cards st) (card_of (body_addr a i)) = Some true;
  i_room : promotion_guarantee_met st0 = true -> left (phi g) <= OldGen.committed_end (old st) - OldGen.top (old st) /\ pending_stall st = None }.

(** What later steps keep; [L] are the slots they may write. *)
Record ext (L : gset Z) (g : ghost) (st : gcstate) (g' : ghost) (st' : gcstate) : Prop := {
  e_phi : phi g ⊆ phi g';
  e_tl : tl g `prefix_of` tl g';
  e_ol : ol g `prefix_of` ol g';
  e_stall : stalled st = true -> stalled st' = true;
  e_committed : OldGen.committed_end (old st') = OldGen.committed_end (old st);
  e_frame : forall a p s i, home g (a, p) -> objs !! a = Some s -> -1 <= i < size_words s - 2 -> body_addr p i ∉ L ->
    mem st' !! body_addr p i = mem st !! body_addr p i }.

Lemma ext_refl g st : ext ∅ g st g st.
Proof. by split. Qed.
Lemma home_mono L g st g' st' e : ext L g st g' st' -> home g e -> home g' e.
Proof.
  intros [_ [k1 H1] [k2 H2] _ _ _]. unfold home, old_homes. rewrite H1, H2, !elem_of_app. tauto.
Qed.
Lemma ext_trans L1 L2 g1 s1 g2 s2 g3 s3 : ext L1 g1 s1 g2 s2 -> ext L2 g2 s2 g3 s3 -> ext (L1 ∪ L2) g1 s1 g3 s3.
Proof.
  intros H1 H2. pose proof H1 as [A1 A2 A3 A4 A5 A6]. pose proof H2 as [B1 B2 B3 B4 B5 B6]. split.
  - by etransitivity.
  - by etransitivity.
  - by etransitivity.
  - auto.
  - congruence.
  - intros a p s i Hh Hs Hr Hn. rewrite not_elem_of_union in Hn. destruct Hn.
    rewrite (B6 a p s i); [by apply (A6 a p s i)|by eapply home_mono|done|done|done].
Qed.

(** ** Separation *)
Lemma body_addr_eq a i : body_addr a i = a + 16 + 8 * i.
Proof. unfold body_addr, BODY_OFFSET, WORD_SIZE. lia. Qed.

Lemma home_obj g D st a p : inv g D st -> home g (a, p) -> is_Some (objs !! a).
Proof.
  intros Hi [Hin|Hin].
  - destruct (i_young _ _ _ Hi a p) as [[H _] _]; [apply elem_of_app; by left|done].
  - apply elem_of_app in Hin as [Hin|Hin].
    + apply list_elem_of_fmap in Hin as (x & [= -> ->] & Hx). by apply (wf_olds Hwf).
    + destruct (i_young _ _ _ Hi a p) as [[H _] _]; [apply elem_of_app; by right|done].
Qed.
Lemma home_tl g D st a p : inv g D st -> (a, p) ∈ tl g -> ts <= p /\ p + bytes a <= Spaces.s_top (to st) /\ p mod 8 = 0 /\ 16 <= bytes a.
Proof.
  intros Hi Hin. pose proof (OldGen.tiled_bounds _ _ _ (i_to _ _ _ Hi)) as (_ & _ & Hb).
  destruct (Hb p (bytes a)) as (H1 & H2 & H3 & _); [apply list_elem_of_fmap; by exists (a, p)|].
  destruct (bytes_pos a) as [H4 _]; [eapply home_obj; [done|by left]|]. destruct (wf_layout Hwf) as (_ & _ & _ & _ & H8).
  split_and!; [done|done|congruence|done].
Qed.
Lemma home_old g D st a p : inv g D st -> (a, p) ∈ old_homes g -> OS <= p /\ p + bytes a <= OldGen.top (old st) /\ p mod 8 = 0 /\ 16 <= bytes a.
Proof.
  intros Hi Hin. pose proof (OldGen.tiled_bounds _ _ _ (OldGen.i_tiled _ _ (i_old _ _ _ Hi))) as (_ & _ & Hb).
  destruct (Hb p (bytes a)) as (H1 & H2 & H3 & _); [apply list_elem_of_fmap; by exists (a, p)|].
  destruct (bytes_pos a) as [H4 _]; [eapply home_obj; [done|by right]|]. destruct (wf_layout Hwf) as (_ & _ & H8 & _).
  split_and!; [done|done|unfold OS in *; congruence|done].
Qed.
Lemma tiled_homes_apart lo l hi e e' : OldGen.tiled lo (map place l) hi -> e ∈ l -> e' ∈ l -> e <> e' ->
  e.2 + bytes e.1 <= e'.2 \/ e'.2 + bytes e'.1 <= e.2.
Proof.
  intros Ht He He' Hne. apply list_elem_of_lookup_1 in He as [i Hi]. apply list_elem_of_lookup_1 in He' as [j Hj].
  assert (Hpi : (place <$> l) !! i = Some (place e)) by (rewrite list_lookup_fmap, Hi; done).
  assert (Hpj : (place <$> l) !! j = Some (place e')) by (rewrite list_lookup_fmap, Hj; done).
  eapply (tiled_apart lo _ hi i j); [exact Ht|exact Hpi|exact Hpj|]. intros ->. congruence.
Qed.
Lemma homes_apart g D st a p a' p' : inv g D st -> home g (a, p) -> home g (a', p') -> (a, p) <> (a', p') ->
  p + bytes a <= p' \/ p' + bytes a' <= p.
Proof.
  intros Hi H H' Hne. pose proof (i_static _ _ _ Hi) as (_ & _ & _ & Htop & _). pose proof (wf_to Hwf).
  destruct H as [H|H], H' as [H'|H'].
  - apply (tiled_homes_apart _ _ _ (a, p) (a', p') (i_to _ _ _ Hi)); done.
  - pose proof (home_tl _ _ _ _ _ Hi H). pose proof (home_old _ _ _ _ _ Hi H'). lia.
  - pose proof (home_old _ _ _ _ _ Hi H). pose proof (home_tl _ _ _ _ _ Hi H'). lia.
  - apply (tiled_homes_apart _ _ _ (a, p) (a', p') (OldGen.i_tiled _ _ (i_old _ _ _ Hi))); done.
Qed.
Lemma young_home_apart g D st a a' p' : inv g D st -> is_young a -> home g (a', p') -> a + bytes a <= p' \/ p' + bytes a' <= a.
Proof.
  intros Hi [[s Hs] Hlt] H. destruct (wf_young Hwf a s Hs Hlt) as (_ & _ & H1 & H2). pose proof (i_static _ _ _ Hi) as (_ & _ & _ & Htop & _).
  destruct H as [H|H]; [pose proof (home_tl _ _ _ _ _ Hi H)|pose proof (home_old _ _ _ _ _ Hi H)]; lia.
Qed.

(** ** Reading an object through a stale or a new pointer *)
Definition loc (g : ghost) (a p : Z) : Prop := (p = a /\ is_Some (objs !! a)) \/ phi g !! a = Some p.

Lemma loc_home g D st a p : inv g D st -> loc g a p -> (p = a /\ is_young a) \/ home g (a, p).
Proof.
  intros Hi [[-> Ha]|Hp].
  - destruct (decide (a < OS)) as [Hlt|Hge]; [left; by split_and!|right; right]. apply elem_of_app. left. apply list_elem_of_fmap. exists a.
    split; [done|]. apply (wf_olds Hwf). split; [done|lia].
  - right. apply (i_phi _ _ _ Hi) in Hp. unfold home, old_homes. rewrite !elem_of_app in *. tauto.
Qed.

Definition sees (g : ghost) (w0 w : Z) : Prop := w = w0 \/ w = reloc (phi g) w0.
Lemma loc_word g D st a p s i : inv g D st -> loc g a p -> objs !! a = Some s -> -1 <= i < size_words s - 2 ->
  exists w0 w, M0 !! body_addr a i = Some w0 /\ mem st !! body_addr p i = Some w /\ sees g w0 w.
Proof.
  intros Hi Hl Hs Hr. destruct (loc_home _ _ _ _ _ Hi Hl) as [[-> Hy]|Hh].
  - destruct (wf_words Hwf a s i Hs ltac:(lia)) as [w Hw]. exists w, w. rewrite (i_from _ _ _ Hi a s i) by (done || apply Hy). split_and!; [done|done|by left].
  - destruct (i_home _ _ _ Hi a p s i Hh Hs Hr) as (w0 & w & H1 & H2 & H3). exists w0, w. split_and!; [done|done|].
    case_decide; [|by left]. destruct H3 as [[-> _]|[_ ->]]; [by right|by left].
Qed.
Lemma sees_smi g w0 w : Oop.is_mem w0 = false -> sees g w0 w -> w = w0.
Proof. intros Hm [->| ->]; [done|]. unfold reloc. by rewrite Hm. Qed.
Lemma loc_smi g D st a p s i w0 : inv g D st -> loc g a p -> objs !! a = Some s -> -1 <= i < size_words s - 2 ->
  M0 !! body_addr a i = Some w0 -> Oop.is_mem w0 = false -> mem st !! body_addr p i = Some w0.
Proof.
  intros Hi Hl Hs Hr Hw Hm. destruct (loc_word _ _ _ _ _ _ _ Hi Hl Hs Hr) as (w0' & w & H1 & H2 & H3).
  rewrite Hw in H1. injection H1 as <-. by rewrite (sees_smi _ _ _ Hm H3) in H2.
Qed.

Lemma smi_field_not_mem w v : smi_field w = Some v -> Oop.is_mem w = false.
Proof.
  unfold smi_field, SmallInt.try_from, Oop.is_smi, Oop.is_mem. destruct (Oop.from_raw w) as [o|] eqn:E; [|done]. cbn [mbind option_bind].
  assert (o = w) as -> by (unfold Oop.from_raw in E; repeat (case_match; [done|]); by injection E).
  destruct (Z.eqb_spec (Oop.tag w) INT_TAG) as [->|]; [done|done].
Qed.
Lemma try_from_not_mem w v : SmallInt.try_from w = Some v -> Oop.is_mem w = false.
Proof. unfold SmallInt.try_from, Oop.is_smi, Oop.is_mem. by destruct (Z.eqb_spec (Oop.tag w) INT_TAG) as [->|]. Qed.

(** The klass of an object, wherever both are read from. *)
Definition klass_at (a k : Z) (ks : shape) : Prop :=
  M0 !! body_addr a (-1) = Some (oop_of k) /\ objs !! k = Some ks /\ 4 <= size_words ks.

Lemma loc_shape g D st a p s k ks kp : inv g D st -> objs !! a = Some s -> loc g a p -> objs !! k = Some ks -> 4 <= size_words ks ->
  shape_with M0 a k = Some s -> loc g k kp -> shape_with (mem st) p kp = Some s.
Proof.
  intros Hi Hs Hl Hks H4 Hsh Hlk. destruct (obj_shape a s Hs) as (B1 & B2 & B3 & _). revert Hsh.
  unfold shape_with, non_indexable_size, format, raw_body_word, KLASS_FORMAT_INDEX, KLASS_NON_INDEXABLE_SIZE_INDEX.
  destruct (M0 !! body_addr k 1) as [nw|] eqn:Hn; [|done]. cbn [mbind option_bind].
  destruct (smi_field nw) as [nv|] eqn:Hnv; [|done]. cbn [mbind option_bind].
  destruct (M0 !! body_addr k 0) as [fw|] eqn:Hf; [|done]. cbn [mbind option_bind].
  destruct (smi_field fw) as [fv|] eqn:Hfv; [|done]. cbn [mbind option_bind].
  rewrite (loc_smi _ _ _ _ _ _ 1 _ Hi Hlk Hks ltac:(lia) Hn (smi_field_not_mem _ _ Hnv)).
  rewrite (loc_smi _ _ _ _ _ _ 0 _ Hi Hlk Hks ltac:(lia) Hf (smi_field_not_mem _ _ Hfv)).
  cbn [mbind option_bind]. rewrite Hnv, Hfv. cbn [mbind option_bind].
  destruct (from_smi_value_checked fv) as [f|]; [|done]. cbn [mbind option_bind]. case_decide as H2; [|done].
  destruct (indexable f) eqn:Hix; [|done]. unfold raw_size_slot, named_words. destruct (Z.ltb_spec (u64 nv) HEADER_WORDS); [done|]. cbn [mbind option_bind].
  unfold raw_body_word, HEADER_WORDS. destruct (M0 !! body_addr a (u64 nv - 2)) as [lw|] eqn:Hlw; [|done]. cbn [mbind option_bind].
  destruct (smi_field lw) as [lv|] eqn:Hlv; [|done]. cbn [mbind option_bind]. intros [= Hsh].
  assert (Hr : -1 <= u64 nv - 2 < size_words s - 2).
  { pose proof (u64_nonneg lv). rewrite <- Hsh. unfold size_words. cbn [s_format s_nis s_len].
    assert (0 <= (u64 lv + 7) / 8) by (apply Z.div_pos; lia). destruct f; try done; lia. }
  rewrite (loc_smi _ _ _ _ _ _ _ _ Hi Hl Hs Hr Hlw (smi_field_not_mem _ _ Hlv)). cbn [mbind option_bind]. rewrite Hlv. cbn [mbind option_bind]. by rewrite Hsh.
Qed.

Lemma aligned_mem x : x mod 8 = 0 -> Oop.is_mem (oop_of x) = true /\ Oop.from_raw (oop_of x) = Some (oop_of x) /\
  Mark.word_is_forwarded (oop_of x) = true /\ Oop.mem_addr (oop_of x) = x.
Proof.
  intros Hx. assert (Ht : Z.land (oop_of x) TAG_MASK = 1).
  { change (Z.land (oop_of x) TAG_MASK) with (Oop.tag (oop_of x)). rewrite SmallInt.tag_mod. unfold oop_of, MEM_TAG. Z.div_mod_to_equations; lia. }
  unfold Oop.is_mem, Oop.tag, Oop.from_raw, Mark.word_is_forwarded. rewrite Ht. split_and!; try done. unfold oop_of, Oop.mem_addr. lia.
Qed.
Lemma mem_oop_of x : Oop.is_mem (oop_of x) = true -> mem_oop (oop_of x) = Some x /\ Oop.from_raw (oop_of x) = Some (oop_of x).
Proof.
  intros Hm. unfold mem_oop. rewrite Hm. split; [unfold oop_of, Oop.mem_addr; f_equal; lia|].
  unfold Oop.is_mem, Oop.tag in Hm. apply Z.eqb_eq in Hm. unfold Oop.from_raw. by rewrite Hm.
Qed.
Lemma mark_not_forwarded w : Mark.from_word w = Some w -> Mark.word_is_forwarded w = false.
Proof.
  unfold Mark.from_word, Mark.word_is_forwarded. destruct (Z.eqb_spec (Z.land w TAG_MASK) MARK_TAG) as [->|]; [done|done].
Qed.

(** Copies are aligned, so their oops are memory oops. *)
Lemma phi_aligned g D st a p : inv g D st -> phi g !! a = Some p -> p mod 8 = 0.
Proof.
  intros Hi Hp. apply (i_phi _ _ _ Hi) in Hp. apply elem_of_app in Hp as [Hp|Hp].
  - by eapply home_tl.
  - eapply home_old; [done|]. unfold old_homes. apply elem_of_app. by right.
Qed.
Lemma loc_mem g D st a p : inv g D st -> Oop.is_mem (oop_of a) = true -> loc g a p -> Oop.is_mem (oop_of p) = true.
Proof. intros Hi Ha [[-> _]|Hp]; [done|]. apply aligned_mem. by eapply phi_aligned. Qed.

Lemma sees_loc g k w : Oop.is_mem (oop_of k) = true -> is_Some (objs !! k) -> sees g (oop_of k) w -> exists kp, w = oop_of kp /\ loc g k kp.
Proof.
  intros Hm Hk [->| ->]; [exists k; split; [done|by left]|]. unfold reloc. rewrite Hm.
  replace (Oop.mem_addr (oop_of k)) with k by (unfold oop_of, Oop.mem_addr; lia).
  destruct (phi g !! k) as [p|] eqn:E; [exists p; split; [done|by right]|exists k; split; [done|by left]].
Qed.

(** The klass word of an object, wherever it is read. *)
Lemma loc_klass_oop g D st a p s : inv g D st -> objs !! a = Some s -> loc g a p -> exists k ks kp,
  klass_oop (mem st) p = Some (oop_of kp) /\ Oop.is_mem (oop_of kp) = true /\ loc g k kp /\ objs !! k = Some ks /\ 4 <= size_words ks /\
  shape_with M0 a k = Some s /\ klass_of_oop M0 (oop_of k) = Some k /\ M0 !! body_addr a (-1) = Some (oop_of k).
Proof.
  intros Hi Hs Hl. destruct (wf_klass Hwf a s Hs) as (k & ks & Hk & Hm & Hks & H4 & Hsh & Hko). destruct (obj_shape a s Hs) as (_ & _ & H2 & _).
  destruct (loc_word _ _ _ _ _ _ (-1) Hi Hl Hs ltac:(lia)) as (w0 & w & A & B & C). rewrite Hk in A. injection A as <-.
  destruct (sees_loc g k w Hm ltac:(by eexists) C) as (kp & -> & Hkp). exists k, ks, kp. split_and!; try done; [|by eapply loc_mem].
  unfold klass_oop. change (p + KLASS_OFFSET) with (body_addr p (-1)). rewrite B. cbn [mbind option_bind]. by apply mem_oop_of, (loc_mem g D st k kp).
Qed.

Lemma klass_of_loc g D st k ks kp : inv g D st -> objs !! k = Some ks -> klass_of_oop M0 (oop_of k) = Some k -> loc g k kp ->
  klass_of_oop (mem st) (oop_of kp) = Some kp.
Proof.
  intros Hi Hks Hko Hl. assert (Hm : Oop.is_mem (oop_of k) = true).
  { unfold klass_of_oop, mem_oop in Hko. by destruct (Oop.is_mem (oop_of k)). }
  destruct (loc_klass_oop _ _ _ _ _ _ Hi Hks Hl) as (kk & kks & kkp & Hkk & Hkm & Hkl & Hkks & H4 & _ & _ & Hraw).
  unfold klass_of_oop in *. destruct (mem_oop_of kp) as [-> _]; [exact (loc_mem _ _ _ _ _ Hi Hm Hl)|]. cbn [mbind option_bind]. rewrite Hkk. cbn [mbind option_bind].
  destruct (mem_oop_of k Hm) as [Hmk _]. rewrite Hmk in Hko. cbn [mbind option_bind] in Hko. unfold klass_oop at 1 in Hko.
  change (k + KLASS_OFFSET) with (body_addr k (-1)) in Hko. rewrite Hraw in Hko. cbn [mbind option_bind] in Hko.
  destruct (wf_klass Hwf k ks Hks) as (kk' & _ & Hraw' & Hm' & _). rewrite Hraw in Hraw'. injection Hraw' as Hraw'. rewrite <- Hraw' in Hm'.
  destruct (mem_oop_of kk Hm') as [Hmo Hfr]. rewrite Hfr in Hko. cbn [mbind option_bind] in Hko.
  unfold format_of_klass_field in *. rewrite Hmo in Hko. destruct (mem_oop_of kkp Hkm) as [-> _]. cbn [mbind option_bind] in Hko |- *.
  unfold raw_body_word, KLASS_FORMAT_INDEX in *. destruct (M0 !! body_addr kk 0) as [fw|] eqn:Hfw; [|done]. cbn [mbind option_bind] in Hko.
  destruct (SmallInt.try_from fw) as [fs|] eqn:Hfs; [|done]. cbn [mbind option_bind] in Hko.
  rewrite (loc_smi _ _ _ _ _ _ 0 _ Hi Hkl Hkks ltac:(lia) Hfw (try_from_not_mem _ _ Hfs)). cbn [mbind option_bind]. rewrite Hfs. cbn [mbind option_bind].
  destruct (from_smi_value_checked (SmallInt.value fs)) as [f|]; [|done]. cbn [mbind option_bind] in Hko |- *.
  case_decide; [done|done].
Qed.

(** [obj.klass()] and what it says of the object. *)
Lemma loc_klass g D st a p s : inv g D st -> objs !! a = Some s -> loc g a p -> exists kp,
  klass_oop (mem st) p = Some (oop_of kp) /\ klass_of_oop (mem st) (oop_of kp) = Some kp /\ klass (mem st) p = Some kp /\
  shape_with (mem st) p kp = Some s /\ Oop.is_mem (oop_of kp) = true.
Proof.
  intros Hi Hs Hl. destruct (loc_klass_oop _ _ _ _ _ _ Hi Hs Hl) as (k & ks & kp & H1 & H2 & H3 & H4 & H5 & H6 & H7 & _).
  exists kp. pose proof (klass_of_loc _ _ _ _ _ _ Hi H4 H7 H3) as Hk. split_and!; [done|done| |by eapply loc_shape|done].
  unfold klass. rewrite H1. cbn [mbind option_bind]. done.
Qed.

(** [effective_klass] of an object not yet copied. *)
Lemma copy_size g D st a s : inv g D st -> objs !! a = Some s -> a < OS -> object_size_for_copy (mem st) a = Some (size_words s).
Proof.
  intros Hi Hs Hlt. destruct (wf_klass Hwf a s Hs) as (k & ks & Hk & Hm & Hks & H4 & Hsh & Hko). destruct (obj_shape a s Hs) as (_ & _ & H2 & _).
  destruct (mem_oop_of k Hm) as [Hmo Hfr].
  unfold object_size_for_copy, klass_oop. change (a + KLASS_OFFSET) with (body_addr a (-1)). rewrite (i_from _ _ _ Hi a s (-1)) by (done || lia).
  rewrite Hk. cbn [mbind option_bind]. rewrite Hfr. cbn [mbind option_bind].
  assert (Heff : exists kp, effective_klass (mem st) (oop_of k) = Some kp /\ loc g k kp).
  { unfold effective_klass. rewrite Hmo. cbn [mbind option_bind]. unfold is_forwarded, forwardee, mark_word_raw.
    change MARK_OFFSET with 0. rewrite Z.add_0_r. destruct (decide (k < OS)) as [Hky|Hko'].
    - rewrite (i_mark_from _ _ _ Hi k ks Hks Hky). destruct (phi g !! k) as [kp|] eqn:Hp; cbn [fmap option_fmap option_map mbind option_bind].
      + destruct (aligned_mem kp (phi_aligned _ _ _ _ _ Hi Hp)) as (_ & _ & -> & _). cbn [mbind option_bind]. exists kp.
        split; [|by right]. eapply klass_of_loc; [done|done|done|by right].
      + destruct (wf_mark Hwf k ks Hks) as (mk & -> & Hmk). cbn [fmap option_fmap option_map mbind option_bind]. rewrite (mark_not_forwarded _ Hmk). cbn [mbind option_bind].
        exists k. split; [|left; by split; [|eexists]]. eapply klass_of_loc; [done|done|done|left; by split; [|eexists]].
    - assert (Hh : home g (k, k)).
      { right. apply elem_of_app. left. apply list_elem_of_fmap. exists k. split; [done|]. apply (wf_olds Hwf). split; [by eexists|lia]. }
      destruct (i_mark_home _ _ _ Hi k k Hh) as (mk & Hmk & ->). rewrite decide_False by done. cbn [fmap option_fmap option_map mbind option_bind].
      destruct (wf_mark Hwf k ks Hks) as (mk' & Hmk' & Hf). rewrite Hmk in Hmk'. injection Hmk' as <-. rewrite (mark_not_forwarded _ Hf). cbn [mbind option_bind].
      exists k. split; [|left; by split; [|eexists]]. eapply klass_of_loc; [done|done|done|left; by split; [|eexists]]. }
  destruct Heff as (kp & -> & Hl). cbn [mbind option_bind]. apply size_of_shape.
  eapply loc_shape; [done|done|left; by split; [|eexists]|done|done|done|done].
Qed.

(** ** Copying *)
Lemma copy_words_ok n : forall m src dst, (forall i, 0 <= i < Z.of_nat n -> is_Some (m !! (src + 8 * i))) ->
  src + 8 * Z.of_nat n <= dst \/ dst + 8 * Z.of_nat n <= src ->
  exists m', copy_words n m src dst = Some m' /\
    (forall i, 0 <= i < Z.of_nat n -> m' !! (dst + 8 * i) = m !! (src + 8 * i)) /\
    (forall x, x < dst \/ dst + 8 * Z.of_nat n <= x -> m' !! x = m !! x).
Proof.
  induction n as [|n IH]; intros m src dst Hsrc Hd; cbn [copy_words].
  - exists m. split_and!; [done|lia|done].
  - destruct (Hsrc 0 ltac:(lia)) as [w Hw]. rewrite Z.add_0_r in Hw. rewrite Hw. cbn [mbind option_bind].
    destruct (IH (<[dst:=w]> m) (src + 8) (dst + 8)) as (m' & -> & H1 & H2).
    { intros i Hi. rewrite lookup_insert_ne by lia. replace (src + 8 + 8 * i) with (src + 8 * (i + 1)) by lia. apply Hsrc. lia. }
    { lia. }
    exists m'. split_and!; [done|..].
    + intros i Hi. destruct (decide (i = 0)) as [->|Hne].
      * replace (dst + 8 * 0) with dst by lia. replace (src + 8 * 0) with src by lia.
        rewrite H2 by lia. by rewrite lookup_insert_eq, Hw.
      * replace (dst + 8 * i) with (dst + 8 + 8 * (i - 1)) by lia. rewrite H1 by lia.
        rewrite lookup_insert_ne by lia. f_equal. lia.
    + intros x Hx. rewrite H2 by lia. by rewrite lookup_insert_ne by lia.
Qed.

Lemma left_insert f a p : is_young a -> f !! a = None -> left f = left (<[a := p]> f) + bytes a /\ 0 <= left (<[a := p]> f).
Proof.
  intros [Ha Hlt] Hf. unfold left. assert (Hin : a ∈ (map_to_list objs).*1).
  { destruct Ha as [s Hs]. apply list_elem_of_fmap. exists (a, s). split; [done|by apply elem_of_map_to_list]. }
  assert (Hnn : forall x, x ∈ (map_to_list objs).*1 -> 0 <= bytes x).
  { intros x ([y s] & -> & Hy)%list_elem_of_fmap. apply elem_of_map_to_list in Hy. cbn. pose proof (bytes_pos y (mk_is_Some _ _ Hy)). lia. }
  pose proof (NoDup_fst_map_to_list objs) as Hnd. revert Hin Hnn Hnd. generalize ((map_to_list objs).*1). intros l.
  assert (Hout : forall l, (forall x, x ∈ l -> 0 <= bytes x) -> a ∉ l ->
    foldr (fun a n => (if decide (a < OS /\ f !! a = None) then bytes a else 0) + n) 0 l =
    foldr (fun a0 n => (if decide (a0 < OS /\ <[a := p]> f !! a0 = None) then bytes a0 else 0) + n) 0 l /\
    0 <= foldr (fun a0 n => (if decide (a0 < OS /\ <[a := p]> f !! a0 = None) then bytes a0 else 0) + n) 0 l).
  { clear l. induction l as [|x l IH]; intros Hnn Hna; cbn [foldr]; [done|]. apply not_elem_of_cons in Hna as [Hne Hna].
    destruct IH as [-> Hpos]; [intros; apply Hnn; by right|done|]. rewrite lookup_insert_ne by done. split; [done|].
    pose proof (Hnn x ltac:(left)). case_decide; lia. }
  induction l as [|x l IH]; intros Hin Hnn Hnd; [by apply elem_of_nil in Hin|]. apply NoDup_cons in Hnd as [Hx Hnd]. cbn [foldr].
  destruct (decide (x = a)) as [->|Hne].
  - destruct (Hout l) as [-> Hpos]; [intros; apply Hnn; by right|done|]. rewrite lookup_insert_eq, decide_True by done.
    rewrite decide_False by (by intros [_ ?]). lia.
  - apply elem_of_cons in Hin as [|Hin]; [done|]. destruct (IH Hin ltac:(intros; apply Hnn; by right) Hnd) as [-> Hpos].
    rewrite lookup_insert_ne by done. pose proof (Hnn x ltac:(left)). case_decide; lia.
Qed.

(** *** The new invariant *)
Section install.
Context (g : ghost) (D : gset Z) (st st' : gcstate) (a : Z) (s : shape) (dest : Z) (promoted : bool) (mk mk' : Z).
Context (Hi : inv g D st) (Hs : objs !! a = Some s) (Hlt : a < OS) (Hphi : phi g !! a = None) (Hra : reach a).
Context (Hmk : M0 !! a = Some mk).
Definition copied : ghost :=
  MkGhost (<[a := dest]> (phi g)) (if promoted then tl g else tl g ++ [(a, dest)]) (if promoted then ol g ++ [(a, dest)] else ol g).
Context (Hfwd : mem st' !! a = Some (oop_of dest)).
Context (Hbody : forall i, -1 <= i < size_words s - 2 -> mem st' !! body_addr dest i = M0 !! body_addr a i).
Context (Hmark : mem st' !! dest = Some mk' /\
  mk' = if promoted then mk else older mk).
Context (Hrest : forall x, x <> a -> x < dest \/ dest + bytes a <= x -> mem st' !! x = mem st !! x).
Context (Hstatic : layout st' = lay /\ Spaces.s_start (to st') = ts /\ Spaces.s_end (to st') = te /\ Spaces.s_top (to st') <= te /\
    eden st' = eden st0 /\ from st' = from st0 /\ promotion_guarantee_met st' = promotion_guarantee_met st0 /\ zlen (age_table st') = 128).
Context (Hstall : pending_stall st' = pending_stall st).
Context (Hto : if promoted then to st' = to st
  else dest = Spaces.s_top (to st) /\ Spaces.s_top (to st') = dest + bytes a).
Context (Hold : if promoted then dest = OldGen.top (old st) /\
    OldGen.inv b (OldGen.MkState (old st') (offsets st') (map place (old_homes g) ++ [(dest, bytes a)])) /\
    OldGen.top (old st') = dest + bytes a
  else old st' = old st /\ offsets st' = offsets st).
Context (Hcommit : OldGen.committed_end (old st') = OldGen.committed_end (old st)).
Context (Hcards : if promoted then Cards.well_formed (cards st') b /\ Cards.n_cards (cards st') = Cards.n_cards (cards st) /\
    (forall i, Cards.card_base (cards st') i = Cards.card_base (cards st) i) /\
    (forall i, 0 <= i < Cards.n_cards (cards st) -> Cards.card_base (cards st) i < dest + bytes a -> dest < Cards.card_base (cards st) i + 512 ->
       Cards.is_dirty (cards st') i = Some true) /\
    (forall i, Cards.is_dirty (cards st) i = Some true -> Cards.is_dirty (cards st') i = Some true)
  else cards st' = cards st).

Lemma copied_home e : home copied e <-> home g e \/ e = (a, dest).
Proof.
  unfold home, old_homes, copied. cbn [tl ol]. destruct promoted; rewrite !elem_of_app, ?list_elem_of_singleton; tauto.
Qed.
Lemma copied_all e : e ∈ tl copied ++ ol copied <-> e ∈ tl g ++ ol g \/ e = (a, dest).
Proof. unfold copied. cbn [tl ol]. destruct promoted; rewrite !elem_of_app, ?list_elem_of_singleton; tauto. Qed.

Lemma dest_fresh : (forall a' p', home g (a', p') -> p' + bytes a' <= dest \/ dest + bytes a <= p') /\
  (forall a', is_young a' -> a' + bytes a' <= dest \/ dest + bytes a <= a').
Proof.
  pose proof (i_static _ _ _ Hi) as (_ & _ & _ & Htop & _). pose proof (wf_to Hwf).
  assert (Hd : if promoted then dest = OldGen.top (old st) /\ OS <= dest else ts <= dest /\ dest + bytes a <= te /\ dest = Spaces.s_top (to st)).
  { destruct promoted.
    - destruct Hold as (-> & _). split; [done|]. pose proof (OldGen.tiled_bounds _ _ _ (OldGen.i_tiled _ _ (i_old _ _ _ Hi))) as (? & _). done.
    - destruct Hto as [-> Ht]. destruct Hstatic as (_ & _ & _ & ? & _). pose proof (OldGen.tiled_bounds _ _ _ (i_to _ _ _ Hi)) as (? & _). split_and!; [done|lia|done]. }
  split.
  - intros a' p' [Hh|Hh]; [pose proof (home_tl _ _ _ _ _ Hi Hh)|pose proof (home_old _ _ _ _ _ Hi Hh)]; destruct promoted; lia.
  - intros a' [[s' Hs'] Hlt']. destruct (wf_young Hwf a' s' Hs' Hlt') as (_ & _ & H1 & H2). destruct promoted; lia.
Qed.

Lemma phi_sub : phi g ⊆ phi copied.
Proof. by apply insert_subseteq. Qed.
Lemma copied_young : forall a' p, (a', p) ∈ tl copied ++ ol copied -> is_young a' /\ reach a'.
Proof.
  intros a' p [Hin|[= -> ->]]%copied_all; [by eapply (i_young _ _ _ Hi)|]. split; [|done]. by split; [eexists|].
Qed.
Lemma copied_phi : forall a' p, phi copied !! a' = Some p <-> (a', p) ∈ tl copied ++ ol copied.
Proof.
  intros a' p. rewrite copied_all. cbn [copied phi]. destruct (decide (a' = a)) as [->|Hne].
  - rewrite lookup_insert_eq. split; [intros [= <-]; by right|]. intros [Hin|[= ->]]; [|done].
    apply (i_phi _ _ _ Hi) in Hin. congruence.
  - rewrite lookup_insert_ne by done. rewrite (i_phi _ _ _ Hi). split; [by left|]. by intros [|[= -> _]].
Qed.

(** A word of an object already in place is not touched. *)
Lemma home_word a' p' s' i : home g (a', p') -> objs !! a' = Some s' -> -2 <= i < size_words s' - 2 ->
  mem st' !! body_addr p' i = mem st !! body_addr p' i.
Proof.
  intros Hh Hs' Hr. destruct (obj_shape a' s' Hs') as (_ & _ & Hz' & Hb'). destruct (obj_shape a s Hs) as (_ & _ & Hz & Hb).
  rewrite Hrest; [done|..]; rewrite body_addr_eq.
  - pose proof (young_home_apart _ _ _ a _ _ Hi ltac:(by split; [eexists|]) Hh). lia.
  - destruct (proj1 dest_fresh _ _ Hh); lia.
Qed.
Lemma young_word a' s' i : objs !! a' = Some s' -> a' < OS -> -2 <= i < size_words s' - 2 -> body_addr a' i <> a ->
  mem st' !! body_addr a' i = mem st !! body_addr a' i.
Proof.
  intros Hs' Hlt' Hr Hne. destruct (obj_shape a' s' Hs') as (_ & _ & Hz' & Hb'). apply Hrest; [done|]. rewrite body_addr_eq.
  destruct (proj2 dest_fresh a' ltac:(by split; [eexists|])); lia.
Qed.

Lemma copied_done_word w0 w : done_word (phi g) (stalled st) w0 w -> done_word (phi copied) (stalled st') w0 w.
Proof.
  intros [[-> Hset]|[Hst ->]]; [left|right].
  - destruct (reloc_mono (phi g) (phi copied) w0 phi_sub Hset) as [-> ?]; [|done].
    intros x p Hx. apply copied_phi in Hx. by apply copied_young in Hx as [Hy _].
  - split; [|done]. unfold stalled in *. by rewrite Hstall.
Qed.

Lemma install_inv : inv copied D st' /\ ext ∅ g st copied st'.
Proof.
  destruct (obj_shape a s Hs) as (_ & _ & Hz & Hb). destruct Hmark as [Hdm Hmk'].
  assert (Hya : is_young a) by (by split; [eexists|]).
  assert (Haligned : bytes a mod 8 = 0) by (apply bytes_pos; by eexists).
  assert (Hdesta : dest <> a) by (destruct (proj2 dest_fresh a Hya); lia).
  split; [split|split].
  - done.
  - exact copied_phi.
  - exact copied_young.
  - unfold copied. cbn [tl]. pose proof (i_to _ _ _ Hi) as Ht. destruct promoted; [by rewrite Hto|].
    destruct Hto as [-> ->]. rewrite map_app. apply OldGen.tiled_app; [done|lia|done].
  - unfold old_homes, copied. cbn [ol]. destruct promoted.
    + destruct Hold as (-> & Ho & _). unfold old_homes in Ho. rewrite !map_app, <- !app_assoc in *. exact Ho.
    + destruct Hold as [-> ->]. apply Hi.
  - intros a' s' i Hs' Hlt' Hr. rewrite (young_word a' s' i); [by apply (i_from _ _ _ Hi a' s')|done|done|lia|].
    destruct (obj_shape a' s' Hs') as (_ & _ & Hz' & Hb'). rewrite body_addr_eq. destruct (decide (a' = a)) as [->|Hne]; [lia|].
    destruct (wf_apart Hwf a' a ltac:(by split; [eexists|]) Hya Hne); lia.
  - intros a' s' Hs' Hlt'. cbn [copied phi]. destruct (decide (a' = a)) as [->|Hne]; [by rewrite lookup_insert_eq|].
    rewrite lookup_insert_ne by done. rewrite <- (i_mark_from _ _ _ Hi a' s' Hs' Hlt'). destruct (obj_shape a' s' Hs') as (_ & _ & Hz' & _).
    pose proof (young_word a' s' (-2) Hs' Hlt' ltac:(lia)) as Hw. rewrite body_addr_eq in Hw. replace (a' + 16 + 8 * -2) with a' in Hw by lia. by apply Hw.
  - intros a' p' s' i Hh Hs' Hr. apply copied_home in Hh as [Hh|[= -> ->]].
    + destruct (i_home _ _ _ Hi a' p' s' i Hh Hs' Hr) as (w0 & w & H1 & H2 & H3). exists w0, w. split_and!; [done|rewrite (home_word a' p' s' i Hh Hs' ltac:(lia)); done|].
      case_decide; [by apply copied_done_word|done].
    + assert (s' = s) as -> by congruence. destruct (wf_words Hwf a s i Hs ltac:(lia)) as [w Hw]. exists w, w.
      split_and!; [done|by rewrite Hbody|]. rewrite decide_False; [done|]. intros Hin.
      destruct (i_done _ _ _ Hi _ Hin) as (a' & p' & t & j & Hh & Ht & Hj & He). pose proof (oop_slots_range a' t j Ht Hj).
      destruct (obj_shape a' t Ht) as (_ & _ & Hz' & Hb'). rewrite !body_addr_eq in He. destruct (proj1 dest_fresh _ _ Hh); lia.
  - intros a' p' Hh. apply copied_home in Hh as [Hh|[= -> ->]].
    + destruct (i_mark_home _ _ _ Hi a' p' Hh) as (k1 & H1 & H2). exists k1.
      destruct (home_obj _ _ _ _ _ Hi Hh) as [s' Hs']. destruct (obj_shape a' s' Hs') as (_ & _ & Hz' & _).
      pose proof (home_word a' p' s' (-2) Hh Hs' ltac:(lia)) as Hw. rewrite body_addr_eq in Hw. replace (p' + 16 + 8 * -2) with p' in Hw by lia.
      split; [done|congruence].
    + exists mk. split; [done|]. rewrite Hdm, Hmk'. pose proof (i_static _ _ _ Hi) as (_ & _ & _ & Htop & _). pose proof (wf_to Hwf). destruct promoted.
      * destruct Hold as (-> & _). pose proof (OldGen.tiled_bounds _ _ _ (OldGen.i_tiled _ _ (i_old _ _ _ Hi))) as (? & _). cbn in *. rewrite decide_False by (unfold OS; lia). done.
      * destruct Hto as [-> Ht]. destruct Hstatic as (_ & _ & _ & ? & _). by rewrite decide_True by lia.
  - intros x Hx. destruct (i_done _ _ _ Hi x Hx) as (a' & p' & s' & i & Hh & ?). exists a', p', s', i. split; [|done]. apply copied_home. by left.
  - destruct (i_cards _ _ _ Hi) as [Hcw Hcd]. unfold copied. cbn [ol]. destruct promoted.
    + destruct Hcards as (C1 & C2 & C3 & C4 & C5). split; [done|]. rewrite C2. intros a' p' i Hin Hir. rewrite C3.
      apply elem_of_app in Hin as [Hin|[= -> ->]%list_elem_of_singleton]; [intros; apply C5; by eapply Hcd|by apply C4].
    + rewrite Hcards. by split.
  - intros a' s' i w Hin Hs' Hj Hw Hnew. assert (Hh : home g (a', a')).
    { right. apply elem_of_app. left. apply list_elem_of_fmap. by exists a'. }
    rewrite (home_word a' a' s' i Hh Hs') in Hw by (pose proof (oop_slots_range a' s' i Hs' Hj); lia).
    pose proof (i_rs _ _ _ Hi a' s' i w Hin Hs' Hj Hw Hnew) as Hd. destruct promoted; [by apply Hcards|by rewrite Hcards].
  - intros Hpg. destruct (i_room _ _ _ Hi Hpg) as [H1 H2]. rewrite Hstall. split; [|done]. cbn [copied phi].
    destruct (left_insert (phi g) a dest Hya Hphi) as [Hl _]. rewrite Hcommit. destruct promoted.
    + destruct Hold as (Hd & _ & ->). lia.
    + destruct Hold as [-> _]. pose proof (bytes_pos a ltac:(by eexists)). lia.
  - exact phi_sub.
  - unfold copied. cbn [tl]. destruct promoted; [done|by apply prefix_app_r].
  - unfold copied. cbn [ol]. destruct promoted; [by apply prefix_app_r|done].
  - unfold stalled. by rewrite Hstall.
  - done.
  - intros a' p' s' i Hh Hs' Hr _. apply (home_word a' p' s' i Hh Hs'). lia.
Qed.
End install.

(** Room in the old generation, or none. *)
Lemma allocate_old_ok st l n : OldGen.inv b (OldGen.MkState (old st) (offsets st) l) -> 0 < n -> n mod 8 = 0 -> n + 7 < 2 ^ 64 ->
  exists r, allocate_old st n = Some r /\
  match r with
  | (st', Some a) => exists gen t, st' = with_old st gen t /\ a = OldGen.top (old st) /\ OldGen.top gen = a + n /\
      OldGen.committed_end gen = OldGen.committed_end (old st) /\ OldGen.inv b (OldGen.MkState gen t (l ++ [(a, n)]))
  | (st', None) => st' = st /\ OldGen.committed_end (old st) < OldGen.top (old st) + n
  end.
Proof.
  intros Hi Hn H8 Hsz. destruct (wf_layout Hwf) as (_ & H0 & H8' & Hmax & _). pose proof Hi as [Hb Ht Htop Hw Hr]. cbn in Hb, Ht, Htop, Hw, Hr.
  destruct (OldGen.tiled_bounds _ _ _ Ht) as (Hlo & Hmod & Hobj).
  unfold allocate_old, OldGen.allocate. rewrite OldGen.align8_eq by (unfold inU; lia). cbn [mbind option_bind].
  replace (8 * ((n + 7) / 8)) with n by (Z.div_mod_to_equations; lia).
  unfold OldGen.checked_add. case_decide as Hc; cbn [mbind option_bind].
  2: { eexists. split; [reflexivity|]. cbn. split; [by destruct st|]. unfold inU in Hc. unfold OS in *. lia. }
  destruct (Z.ltb_spec (OldGen.committed_end (old st)) (OldGen.top (old st) + n)) as [Hfull|Hroom]; cbn [mbind option_bind].
  { eexists. split; [reflexivity|]. cbn. split; [by destruct st|done]. }
  destruct (Offsets.record_object_ok (offsets st) b (OldGen.top (old st)) n) as (t' & -> & Hw' & Hr' & Hf);
    try done; try (unfold OS in *; lia).
  cbn [mbind option_bind]. eexists. split; [reflexivity|]. cbn. eexists _, t'. split_and!; try done.
  split; cbn; try done; [by apply OldGen.tiled_app|lia|].
  intros x u [Hin|Hin]%elem_of_app; [apply Hf; [|by apply Hr]; by apply Hobj in Hin as (_ & ? & _)|].
  by apply list_elem_of_singleton in Hin as [= -> ->].
Qed.

Lemma stall_inv g D st n ph : inv g D st -> promotion_guarantee_met st0 = false -> inv g D (with_stall st (Some (n, ph))) /\ ext ∅ g st g (with_stall st (Some (n, ph))).
Proof.
  intros [] Hpg. split.
  - split; cbn; try done; [|by rewrite Hpg].
    intros a p s i Hh Hs Hr. destruct (i_home0 a p s i Hh Hs Hr) as (w0 & w & H1 & H2 & H3). exists w0, w. split_and!; [done|done|].
    case_decide; [|done]. destruct H3 as [|[_ ->]]; [by left|right; split; [done|done]].
  - split; cbn; try done.
Qed.

(** What scavenging a word does. *)
Definition scavenged (g : ghost) (D : gset Z) (st : gcstate) (w : Z) (r : option (gcstate * Z)) : Prop :=
  exists g' st' w', r = Some (st', w') /\ inv g' D st' /\ ext ∅ g st g' st' /\ done_word (phi g') (stalled st') w w'.

Lemma record_stall_ok g D st a n w : inv g D st -> is_young a -> phi g !! a = None -> 
  OldGen.committed_end (old st) < OldGen.top (old st) + bytes a -> scavenged g D st w (record_stall st n ScavengePromote w).
Proof.
  intros Hi Hy Hphi Hfull. pose proof (i_static _ _ _ Hi) as (_ & _ & _ & _ & _ & _ & Hpg & _). unfold record_stall. rewrite Hpg.
  destruct (promotion_guarantee_met st0) eqn:Hg.
  - destruct (i_room _ _ _ Hi Hg) as [Hl _]. destruct (left_insert (phi g) a 0 Hy Hphi). lia.
  - destruct (pending_stall st) as [x|] eqn:Hs.
    + exists g, st, w. split_and!; [done|done|apply ext_refl|right; by unfold stalled; rewrite Hs].
    + destruct (stall_inv g D st n ScavengePromote Hi Hg) as [H1 H2]. eexists g, _, w. split_and!; [reflexivity|done|done|by right].
Qed.

Lemma install_forwarding_eq m a w : install_forwarding m a w = <[a := w]> m.
Proof. unfold install_forwarding. change MARK_OFFSET with 0. by rewrite Z.add_0_r. Qed.

(** The memory facts both kinds of copy share. *)
Lemma copy_body g D st a s dest : inv g D st -> objs !! a = Some s -> a < OS -> phi g !! a = None ->
  a + bytes a <= dest \/ dest + bytes a <= a -> exists m mk,
  copy_words (Z.to_nat (size_words s)) (mem st) a dest = Some m /\ M0 !! a = Some mk /\ mark (mem st) a = Some mk /\ Mark.from_word mk = Some mk /\
  m !! dest = Some mk /\ (forall i, -1 <= i < size_words s - 2 -> m !! body_addr dest i = M0 !! body_addr a i) /\
  (forall x, x < dest \/ dest + bytes a <= x -> m !! x = mem st !! x).
Proof.
  intros Hi Hs Hlt Hphi Hd. destruct (obj_shape a s Hs) as (_ & _ & Hz & Hb).
  destruct (wf_mark Hwf a s Hs) as (mk & Hmk & Hf). pose proof (i_mark_from _ _ _ Hi a s Hs Hlt) as Hm. rewrite Hphi, Hmk in Hm.
  destruct (copy_words_ok (Z.to_nat (size_words s)) (mem st) a dest) as (m & H1 & H2 & H3); rewrite ?Z2Nat.id by lia.
  { intros i Hr. destruct (decide (i = 0)) as [->|Hne]; [replace (a + 8 * 0) with a by lia; by rewrite Hm; eexists|].
    replace (a + 8 * i) with (body_addr a (i - 2)) by (rewrite body_addr_eq; lia). rewrite (i_from _ _ _ Hi a s) by (done || lia).
    apply (wf_words Hwf a s); [done|lia]. }
  { lia. }
  exists m, mk. rewrite Z2Nat.id in H2, H3 by lia. split_and!; try done.
  - unfold mark, mark_word_raw. change MARK_OFFSET with 0. rewrite Z.add_0_r, Hm. done.
  - specialize (H2 0 ltac:(lia)). replace (dest + 8 * 0) with dest in H2 by lia. replace (a + 8 * 0) with a in H2 by lia. congruence.
  - intros i Hr. specialize (H2 (i + 2) ltac:(lia)). replace (dest + 8 * (i + 2)) with (body_addr dest i) in H2 by (rewrite body_addr_eq; lia).
    replace (a + 8 * (i + 2)) with (body_addr a i) in H2 by (rewrite body_addr_eq; lia). rewrite H2. by apply (i_from _ _ _ Hi a s).
  - intros x Hx. apply H3. lia.
Qed.

Lemma promote_ok g D st a s mk gen t w st1 : inv g D st -> objs !! a = Some s -> a < OS -> phi g !! a = None -> reach a -> w = oop_of a ->
  let dest := OldGen.top (old st) in
  st1 = with_old st gen t -> OldGen.top gen = dest + bytes a -> OldGen.committed_end gen = OldGen.committed_end (old st) ->
  OldGen.inv b (OldGen.MkState gen t (map place (old_homes g) ++ [(dest, bytes a)])) -> mark (mem st) a = Some mk ->
  scavenged g D st w (m ← copy_words (Z.to_nat (size_words s)) (mem st1) a dest;
      st ← account (with_mem st1 m) dest (size_words s * 8) (Mark.age mk) true;
      Some (with_mem st (install_forwarding (mem st) a (oop_of dest)), oop_of dest)).
Proof.
  intros Hi Hs Hlt Hphi Hra -> dest -> Htop Hcm Hinv Hmk. destruct (obj_shape a s Hs) as (_ & _ & Hz & Hb).
  pose proof (wf_young Hwf a s Hs Hlt) as (_ & _ & Hay & _).
  pose proof (OldGen.tiled_bounds _ _ _ (OldGen.i_tiled _ _ (i_old _ _ _ Hi))) as (Hdl & _ & _). cbn in Hdl. fold dest in Hdl. fold OS in Hdl.
  destruct (copy_body g D st a s dest Hi Hs Hlt Hphi ltac:(lia)) as (m & mk' & Hm & Hmk0 & Hmk' & Hf & M1 & M2 & M3).
  rewrite Hmk in Hmk'. injection Hmk' as <-. cbn [mem with_old]. rewrite Hm. cbn [mbind option_bind].
  unfold account. cbn [cards with_mem with_old]. destruct (i_cards _ _ _ Hi) as [Hcw Hcd]. replace (size_words s * 8) with (bytes a) by lia.
  pose proof (OldGen.i_top _ _ Hinv) as Htb. cbn in Htb.
  destruct (Cards.record_multistores_ok (cards st) b dest (dest + bytes a) Hcw Hdl ltac:(lia)) as (cs & -> & Hcw' & Hcd').
  cbn [mbind option_bind]. assert (Hncs : Cards.n_cards cs = Cards.n_cards (cards st) /\ Cards.old_start cs = Cards.old_start (cards st)).
  { destruct Hcw as (-> & -> & _), Hcw' as (-> & -> & _). done. }
  assert (Hdirty : forall i, Cards.is_dirty (cards st) i = Some true -> Cards.is_dirty cs i = Some true).
  { intros i Hd. rewrite Hcd'; [by case_decide|]. unfold Cards.is_dirty in Hd. destruct (zlookup (Cards.entries (cards st)) i) eqn:E; [|done].
    apply zlookup_lt in E. destruct Hcw as (_ & _ & Hl). lia. }
  match goal with |- scavenged _ _ _ _ (Some (?x, _)) => set (st' := x) end.
  pose proof (i_static _ _ _ Hi) as Hst.
  destruct (install_inv g D st st' a s dest true mk mk Hi Hs Hlt Hphi Hra) as [H1 H2]; try done.
  - change (mem st' !! a) with (install_forwarding m a (oop_of dest) !! a). by rewrite install_forwarding_eq, lookup_insert_eq.
  - intros i Hr. change (mem st' !! body_addr dest i) with (install_forwarding m a (oop_of dest) !! body_addr dest i). rewrite install_forwarding_eq, lookup_insert_ne by (rewrite body_addr_eq; lia). by apply M2.
  - split; [|done]. change (mem st' !! dest) with (install_forwarding m a (oop_of dest) !! dest). by rewrite install_forwarding_eq, lookup_insert_ne by (lia).
  - intros x Hx Hr. change (mem st' !! x) with (install_forwarding m a (oop_of dest) !! x). rewrite install_forwarding_eq, lookup_insert_ne by (lia). by apply M3.
  - split_and!; [exact Hcw'|apply Hncs| | |exact Hdirty].
    + intros i. unfold Cards.card_base. cbn [st' cards with_mem with_stats with_cards]. by rewrite (proj2 Hncs).
    + intros i Hr H1 H2. change (Cards.is_dirty cs i = Some true). rewrite Hcd' by done. rewrite decide_True; [done|]. split; [done|]. change CARD_SIZE with 512. done.
  - eexists _, st', (oop_of dest). split_and!; [reflexivity|exact H1|exact H2|]. left.
    unfold reloc, settled. assert (Ham : a mod 8 = 0) by (by eapply (wf_young Hwf)). destruct (aligned_mem a Ham) as (-> & _ & _ & ->). cbn [phi copied].
    rewrite lookup_insert_eq. split; [done|by eexists].
Qed.

Lemma survive_ok g D st a s mk : inv g D st -> objs !! a = Some s -> a < OS -> phi g !! a = None -> reach a ->
  let dest := Spaces.s_top (to st) in let w := oop_of a in
  dest + bytes a <= te -> mark (mem st) a = Some mk ->
  scavenged g D st w (m ← copy_words (Z.to_nat (size_words s)) (mem st) a dest;
      st ← account (with_mem (with_to_top st (dest + bytes a)) m) dest (size_words s * 8) (Mark.age mk) false;
      Some (with_mem st (install_forwarding (mem st) a (oop_of dest)), oop_of dest)).
Proof.
  intros Hi Hs Hlt Hphi Hra dest w Hfit Hmk. destruct (obj_shape a s Hs) as (_ & _ & Hz & Hb).
  pose proof (wf_young Hwf a s Hs Hlt) as (_ & _ & Hay & Hdis). pose proof (wf_to Hwf).
  pose proof (OldGen.tiled_bounds _ _ _ (i_to _ _ _ Hi)) as (Hdl & _ & _). fold dest in Hdl.
  destruct (copy_body g D st a s dest Hi Hs Hlt Hphi ltac:(lia)) as (m & mk' & Hm & Hmk0 & Hmk' & Hf & M1 & M2 & M3).
  rewrite Hmk in Hmk'. injection Hmk' as <-. rewrite Hm. cbn [mbind option_bind]. unfold account. cbn [mem with_mem with_to_top].
  unfold mark, mark_word_raw. change MARK_OFFSET with 0. rewrite Z.add_0_r, M1. cbn [mbind option_bind]. rewrite Hf. cbn [mbind option_bind].
  pose proof (i_static _ _ _ Hi) as (S1 & S2 & S3 & S4 & S5 & S6 & S7 & S8).
  set (age := Z.min (saturating_add8 (Mark.age mk) 1) MARK_AGE_MAX). cbn [age_table with_mem with_to_top].
  assert (Hage : 0 <= age < 128).
  { unfold age, saturating_add8, MARK_AGE_MAX. pose proof (wrapU_in 8 (Z.shiftr (Z.land mk MARK_AGE_MASK) MARK_AGE_SHIFT) ltac:(lia)) as Hu.
    unfold Mark.age. unfold inU in Hu. lia. }
  destruct (AgeTable.record_ok (age_table st) age (size_words s * 8) ltac:(lia)) as (t & -> & Hlt' & _).
  cbn [mbind option_bind]. match goal with |- scavenged _ _ _ _ (Some (?x, _)) => set (st' := x) end.
  set (m2 := <[a := oop_of dest]> (set_mark m dest (Mark.with_age mk age))).
  assert (Hm2 : mem st' = m2) by (unfold st'; cbn [mem with_mem]; by rewrite install_forwarding_eq).
  assert (Hm3 : forall x, x <> a -> x <> dest -> m2 !! x = m !! x).
  { intros x H1 H2. unfold m2, set_mark. change MARK_OFFSET with 0. rewrite Z.add_0_r. by rewrite !lookup_insert_ne. }
  destruct (install_inv g D st st' a s dest false mk (Mark.with_age mk age) Hi Hs Hlt Hphi Hra) as [H1 H2]; rewrite ?Hm2; try done.
  - apply lookup_insert_eq.
  - intros i Hr. rewrite ?Hm2, Hm3 by (rewrite body_addr_eq; lia). by apply M2.
  - split; [|done]. unfold m2, set_mark. change MARK_OFFSET with 0. rewrite Z.add_0_r, lookup_insert_ne by lia. apply lookup_insert_eq.
  - intros x Hx Hr. rewrite ?Hm2, Hm3 by lia. by apply M3.
  - cbn. split_and!; try done. by rewrite Hlt'.
  - eexists _, st', (oop_of dest). split_and!; [reflexivity|exact H1|exact H2|]. left.
    unfold reloc, settled, w. assert (Ham : a mod 8 = 0) by (by eapply (wf_young Hwf)). destruct (aligned_mem a Ham) as (-> & _ & _ & ->). cbn [phi copied].
    rewrite lookup_insert_eq. split; [done|by eexists].
Qed.
Lemma mem_word w : Oop.is_mem w = true -> w = oop_of (Oop.mem_addr w).
Proof. unfold oop_of, Oop.mem_addr. lia. Qed.

Lemma copy_object_ok g D st a : inv g D st -> is_young a -> phi g !! a = None -> reach a ->
  scavenged g D st (oop_of a) (copy_object st (oop_of a) a).
Proof.
  intros Hi [[s Hs] Hlt] Hphi Hra. unfold copy_object. rewrite (copy_size _ _ _ _ _ Hi Hs Hlt). cbn [mbind option_bind].
  destruct (obj_shape a s Hs) as (_ & _ & Hz & Hb). destruct (wf_mark Hwf a s Hs) as (mk & Hmk0 & Hf).
  assert (Hmk : mark (mem st) a = Some mk).
  { unfold mark, mark_word_raw. change MARK_OFFSET with 0. rewrite Z.add_0_r, (i_mark_from _ _ _ Hi a s Hs Hlt), Hphi, Hmk0. done. }
  rewrite Hmk. cbn [mbind option_bind]. replace (size_words s * 8) with (bytes a) by lia.
  destruct (bytes_pos a ltac:(by eexists)) as [H16 H8].
  destruct (allocate_old_ok st _ (bytes a) (i_old _ _ _ Hi)) as ([st1 r] & Hal & Hr); [lia|done|by eapply (wf_small Hwf)|].
  set (full := Spaces.s_end (to st) <? Spaces.s_top (to st) + bytes a).
  set (age_promote := tenuring_threshold st <=? saturating_add8 (Mark.age mk) 1).
  assert (Hdest : destination st age_promote (bytes a) =
    if age_promote || full then Some (st1, r, true)
    else Some (with_to_top st (Spaces.s_top (to st) + bytes a), Some (Spaces.s_top (to st)), false)).
  { unfold destination. destruct age_promote; cbn [orb]; [by rewrite Hal|]. cbv zeta. fold full. destruct full; [by rewrite Hal|done]. }
  rewrite Hdest. destruct (age_promote || full) eqn:Hp; cbn [mbind option_bind].
  - destruct r as [d|].
    + destruct Hr as (gen & t & Hst1 & -> & H1 & H2 & H3). replace (bytes a) with (size_words s * 8) by lia.
      eapply promote_ok; done.
    + destruct Hr as [-> Hfull]. by eapply record_stall_ok.
  - apply orb_false_iff in Hp as [_ Hf2]. unfold full in Hf2. apply Z.ltb_ge in Hf2.
    pose proof (i_static _ _ _ Hi) as (_ & _ & He & _). rewrite He in Hf2.
    replace (size_words s * 8) with (bytes a) by lia. pose proof (survive_ok g D st a s mk Hi Hs Hlt Hphi Hra Hf2 Hmk) as H.
    replace (size_words s * 8) with (bytes a) in H by lia. exact H.
Qed.

Lemma scavenge_oop_ok g D st w : inv g D st -> valid w -> live w -> scavenged g D st w (scavenge_oop st w).
Proof.
  intros Hi [Hraw Hv] Hl. unfold scavenge_oop. destruct (Oop.is_mem w) eqn:Hm; cbn [negb].
  2: { exists g, st, w. split_and!; [done|done|apply ext_refl|left]. unfold reloc, settled. rewrite Hm. done. }
  pose proof (i_static _ _ _ Hi) as (Hlay & Hts & _ & Htop & _). unfold Geometry.is_old. rewrite Hlay.
  destruct (wf_layout Hwf) as (-> & _ & _ & _ & _). specialize (Hv eq_refl). specialize (Hl Hm).
  set (a := Oop.mem_addr w) in *.
  destruct (Z.leb_spec OS a) as [Hge|Hlt].
  { exists g, st, w. split_and!; [done|done|apply ext_refl|left]. unfold reloc, settled. rewrite Hm. fold a.
    assert (Hny : ~ is_young a) by (intros [_ ?]; lia). split; [|done]. destruct (phi g !! a) as [p|] eqn:E; [|done].
    apply (i_phi _ _ _ Hi) in E. destruct (i_young _ _ _ Hi _ _ E) as [? _]. done. }
  assert (Hy : is_young a) by done. pose proof Hy as [[s Hs] _].
  destruct (wf_young Hwf a s Hs Hlt) as (Ha8 & Ha0 & Hab & Hdis). destruct (bytes_pos a ltac:(by eexists)) as [H16 _].
  rewrite Hts. destruct ((ts <=? a) && (a <? Spaces.s_top (to st))) eqn:Hin.
  { apply andb_true_iff in Hin as [?%Z.leb_le ?%Z.ltb_lt]. lia. }
  unfold is_forwarded, forwardee, mark_word_raw. change MARK_OFFSET with 0. rewrite Z.add_0_r, (i_mark_from _ _ _ Hi a s Hs Hlt).
  destruct (phi g !! a) as [p|] eqn:Hp.
  - cbn [fmap option_fmap option_map mbind option_bind]. destruct (aligned_mem p (phi_aligned _ _ _ _ _ Hi Hp)) as (_ & _ & -> & _). cbn [mbind option_bind].
    exists g, st, (oop_of p). split_and!; [done|done|apply ext_refl|left]. unfold reloc, settled. rewrite Hm. fold a. rewrite Hp.
    split; [done|by eexists].
  - destruct (wf_mark Hwf a s Hs) as (mk & -> & Hmk). cbn [fmap option_fmap option_map mbind option_bind].
    rewrite (mark_not_forwarded _ Hmk). cbn [mbind option_bind]. rewrite (mem_word w Hm). fold a. by apply copy_object_ok; [..|apply Hl].
Qed.
(** ** Slots *)
Definition slot_of (g : ghost) (x a p : Z) (s : shape) (i : Z) : Prop :=
  home g (a, p) /\ objs !! a = Some s /\ i ∈ oop_slots s /\ x = body_addr p i.
Definition oop_slot (g : ghost) (x : Z) : Prop := exists a p s i, slot_of g x a p s i.

Lemma slot_inj g D st a p s i a' p' s' i' : inv g D st -> home g (a, p) -> objs !! a = Some s -> -2 <= i < size_words s - 2 ->
  home g (a', p') -> objs !! a' = Some s' -> -2 <= i' < size_words s' - 2 -> body_addr p i = body_addr p' i' -> (a, p) = (a', p') /\ i = i'.
Proof.
  intros Hi Hh Hs Hr Hh' Hs' Hr' He. rewrite !body_addr_eq in He. destruct (obj_shape a s Hs) as (_ & _ & _ & Hb), (obj_shape a' s' Hs') as (_ & _ & _ & Hb').
  destruct (decide ((a, p) = (a', p'))) as [E|Hne]; [split; [done|injection E as -> ->; lia]|].
  destruct (homes_apart _ _ _ _ _ _ _ Hi Hh Hh' Hne); lia.
Qed.

(** What a slot not yet processed holds. *)
Lemma slot_word g D st x a p s i : inv g D st -> slot_of g x a p s i -> x ∉ D ->
  exists w, M0 !! body_addr a i = Some w /\ mem st !! x = Some w /\ valid w /\ live w.
Proof.
  intros Hi (Hh & Hs & Hin & ->) Hx. pose proof (oop_slots_range a s i Hs Hin) as Hr.
  destruct (i_home _ _ _ Hi a p s i Hh Hs Hr) as (w0 & w & H1 & H2 & H3). rewrite decide_False in H3 by done. subst w.
  exists w0. split_and!; [done|done|by eapply slot_valid|]. eapply (Hreach a s i); [done| |done|done].
  destruct Hh as [Hh|Hh].
  - left. eapply (i_young _ _ _ Hi), elem_of_app. by left.
  - apply elem_of_app in Hh as [Hh|Hh].
    + apply list_elem_of_fmap in Hh as (y & [= -> ->] & Hy). right. by apply (wf_olds Hwf).
    + left. eapply (i_young _ _ _ Hi), elem_of_app. by right.
Qed.

Section write.
Context (g : ghost) (D : gset Z) (st : gcstate) (x a p : Z) (s : shape) (i w0 v : Z).
Context (Hi : inv g D st) (Hslot : slot_of g x a p s i) (Hx : x ∉ D).
Context (Hw0 : M0 !! body_addr a i = Some w0) (Hst : mem st !! x = Some w0) (Hv : done_word (phi g) (stalled st) w0 v).
#[local] Abbreviation st' := (with_mem st (<[x := v]> (mem st))).

Lemma write_other y : y <> x -> mem st' !! y = mem st !! y.
Proof. intros Hy. cbn [mem with_mem]. by rewrite lookup_insert_ne. Qed.

(** A word that names a new object was a word that named one. *)
Lemma write_new : new_word v -> new_word w0.
Proof.
  destruct Hv as [[Hv' _]|[_ Hv']]; rewrite Hv'; [|tauto]. unfold new_word, reloc. destruct (Oop.is_mem w0) eqn:Hm; [|rewrite Hm; by intros []].
  destruct (phi g !! Oop.mem_addr w0) as [q|] eqn:E; [|by intros [_ ?]]. intros _. split; [done|].
  apply (i_phi _ _ _ Hi) in E. by destruct (i_young _ _ _ Hi _ _ E) as [[_ ?] _].
Qed.

Lemma write_inv : inv g ({[x]} ∪ D) st' /\ ext {[x]} g st g st'.
Proof.
  destruct Hslot as (Hh & Hs & Hin & Hxe). pose proof (oop_slots_range a s i Hs Hin) as Hr. destruct (obj_shape a s Hs) as (_ & _ & Hz & Hb).
  assert (Hyoung : forall a' s' j, objs !! a' = Some s' -> a' < OS -> -2 <= j < size_words s' - 2 -> body_addr a' j <> x).
  { intros a' s' j Hs' Hlt Hj He. destruct (obj_shape a' s' Hs') as (_ & _ & _ & Hb').
    pose proof (young_home_apart _ _ _ a' _ _ Hi ltac:(by split; [eexists|]) Hh). rewrite Hxe, !body_addr_eq in He. lia. }
  assert (Hhome : forall a' p' s' j, home g (a', p') -> objs !! a' = Some s' -> -2 <= j < size_words s' - 2 -> body_addr p' j = x -> (a', p') = (a, p) /\ j = i).
  { intros a' p' s' j Hh' Hs' Hj He. rewrite Hxe in He. by eapply slot_inj; [..|exact He]; try done; lia. }
  assert (Hobj : forall a' p', home g (a', p') -> is_Some (objs !! a')) by (intros; by eapply home_obj).
  split; [destruct Hi as [I1 I2 I3 I4 I5 I6 I7 I8 I9 I10 I11 I12 I13]; split|].
  - done.
  - done.
  - done.
  - done.
  - done.
  - intros a' s' j Hs' Hlt Hj. rewrite write_other by (eapply Hyoung; [done|done|lia]). by apply (I6 a' s').
  - intros a' s' Hs' Hlt. destruct (obj_shape a' s' Hs') as (_ & _ & ? & _). pose proof (Hyoung a' s' (-2) Hs' Hlt ltac:(lia)) as Hne.
    rewrite body_addr_eq in Hne. rewrite write_other by lia. by apply (I7 a' s').
  - intros a' p' s' j Hh' Hs' Hj. destruct (decide (body_addr p' j = x)) as [He|Hne].
    + destruct (Hhome a' p' s' j Hh' Hs' ltac:(lia) He) as [[= -> ->] ->]. exists w0, v. split_and!; [done|rewrite He; apply lookup_insert_eq|].
      by rewrite decide_True by (apply elem_of_union; left; by apply elem_of_singleton).
    + destruct (I8 a' p' s' j Hh' Hs' Hj) as (w1 & w2 & H1 & H2 & H3). exists w1, w2. split_and!; [done|by rewrite write_other|].
      assert (Hiff : body_addr p' j ∈ {[x]} ∪ D <-> body_addr p' j ∈ D) by (rewrite elem_of_union, elem_of_singleton; tauto).
      destruct (decide (body_addr p' j ∈ D)); [rewrite decide_True by tauto; done|rewrite decide_False by tauto; done].
  - intros a' p' Hh'. destruct (I9 a' p' Hh') as (k1 & H1 & H2). exists k1. split; [done|].
    destruct (Hobj a' p' Hh') as [s' Hs']. destruct (obj_shape a' s' Hs') as (_ & _ & ? & _). rewrite write_other; [done|]. intros He.
    destruct (Hhome a' p' s' (-2) Hh' Hs' ltac:(lia)) as [_ Hc]; [rewrite body_addr_eq; lia|lia].
  - intros y [->%elem_of_singleton|Hy]%elem_of_union; [by exists a, p, s, i|by apply I10].
  - done.
  - intros a' s' j w Ha' Hs' Hj Hw Hnew. pose proof (oop_slots_range a' s' j Hs' Hj).
    destruct (decide (body_addr a' j = x)) as [He|Hne].
    + cbn [cards with_mem]. cbn [mem with_mem] in Hw. rewrite He, lookup_insert_eq in Hw. injection Hw as <-.
      apply (I12 a' s' j w0); try done; [by rewrite He|]. by apply write_new.
    + rewrite write_other in Hw by done. by eapply (I12 a' s' j).
  - done.
  - split; try done. intros a' p' s' j Hh' Hs' Hj Hn. apply write_other. intros He. by apply Hn, elem_of_singleton.
Qed.
End write.

Lemma update_slot_ok g D st x : inv g D st -> oop_slot g x -> x ∉ D -> exists g' st' v,
  update_slot st x = Some (st', v) /\ inv g' ({[x]} ∪ D) st' /\ ext {[x]} g st g' st' /\ mem st' !! x = Some v.
Proof.
  intros Hi (a & p & s & i & Hslot) Hx. destruct (slot_word _ _ _ _ _ _ _ _ Hi Hslot Hx) as (w & Hw0 & Hw & Hv & Hl).
  unfold update_slot. rewrite Hw. cbn [mbind option_bind]. destruct Hv as [Hraw Hv0]. rewrite Hraw. cbn [mbind option_bind].
  destruct (scavenge_oop_ok g D st w Hi ltac:(by split) Hl) as (g' & st' & v & -> & Hi' & He & Hd). cbn [mbind option_bind].
  pose proof Hslot as (Hh & Hs & Hin & Hxe). pose proof (oop_slots_range a s i Hs Hin).
  assert (Hslot' : slot_of g' x a p s i) by (split_and!; try done; by eapply home_mono).
  assert (Hw' : mem st' !! x = Some w).
  { rewrite Hxe. rewrite (e_frame _ _ _ _ _ He a p s i) by (done || set_solver). by rewrite <- Hxe. }
  destruct (write_inv g' D st' x a p s i w v Hi' Hslot' Hw0 Hw' Hd) as [H1 H2].
  eexists g', _, v. split_and!; [reflexivity|done| |apply lookup_insert_eq].
  pose proof (ext_trans _ _ _ _ _ _ _ _ He H2) as Ht. by rewrite (left_id_L ∅ (∪)) in Ht.
Qed.

Lemma oop_slot_mono L g st g' st' x : ext L g st g' st' -> oop_slot g x -> oop_slot g' x.
Proof. intros He (a & p & s & i & Hh & H). exists a, p, s, i. split; [by eapply home_mono|done]. Qed.

Lemma update_slots_ok L : forall g D st, inv g D st -> NoDup L -> (forall x, x ∈ L -> oop_slot g x /\ x ∉ D) -> exists g' st',
  update_slots st L = Some st' /\ inv g' (list_to_set L ∪ D) st' /\ ext (list_to_set L) g st g' st'.
Proof.
  induction L as [|x L IH]; intros g D st Hi Hnd HL; cbn [update_slots list_to_set].
  - exists g, st. rewrite (left_id_L ∅ (∪)). split_and!; [done|done|apply ext_refl].
  - apply NoDup_cons in Hnd as [Hx Hnd]. destruct (HL x ltac:(left)) as [Hs HxD].
    destruct (update_slot_ok g D st x Hi Hs HxD) as (g1 & st1 & v & -> & Hi1 & He1 & _). cbn [mbind option_bind].
    destruct (IH g1 ({[x]} ∪ D) st1 Hi1 Hnd) as (g2 & st2 & -> & Hi2 & He2).
    { intros y Hy. destruct (HL y ltac:(by right)) as [Hys HyD]. split; [by eapply oop_slot_mono|]. intros [->%elem_of_singleton|?]%elem_of_union; [by apply Hx|done]. }
    exists g2, st2. split_and!; [done| |by eapply ext_trans].
    by rewrite (comm_L (∪) {[x]}), <- (assoc_L (∪)).
Qed.
(** ** Scanning an object *)
Definition is_klass (g : ghost) (a : Z) (s : shape) (kp : Z) : Prop := exists k ks, loc g k kp /\ objs !! k = Some ks /\ 4 <= size_words ks /\
  shape_with M0 a k = Some s /\ klass_of_oop M0 (oop_of k) = Some k.

Lemma loc_mono L g st g' st' a p : ext L g st g' st' -> loc g a p -> loc g' a p.
Proof. intros He [H|H]; [by left|right]. eapply lookup_weaken; [done|apply (e_phi _ _ _ _ _ He)]. Qed.
Lemma is_klass_mono L g st g' st' a s kp : ext L g st g' st' -> is_klass g a s kp -> is_klass g' a s kp.
Proof. intros He (k & ks & H & ?). exists k, ks. split; [by eapply loc_mono|done]. Qed.
Lemma home_loc g D st a p : inv g D st -> home g (a, p) -> loc g a p.
Proof.
  intros Hi Hh. pose proof (home_obj _ _ _ _ _ Hi Hh) as Ho. unfold home, old_homes in Hh. rewrite elem_of_app in Hh.
  destruct Hh as [Hh|[Hh|Hh]].
  - right. apply (i_phi _ _ _ Hi), elem_of_app. by left.
  - apply list_elem_of_fmap in Hh as (y & [= -> ->] & _). by left.
  - right. apply (i_phi _ _ _ Hi), elem_of_app. by right.
Qed.
Lemma klass_exists g D st a p s : inv g D st -> objs !! a = Some s -> loc g a p -> exists kp,
  klass_oop (mem st) p = Some (oop_of kp) /\ klass (mem st) p = Some kp /\ is_klass g a s kp.
Proof.
  intros Hi Hs Hl. destruct (loc_klass_oop _ _ _ _ _ _ Hi Hs Hl) as (k & ks & kp & H1 & H2 & H3 & H4 & H5 & H6 & H7 & _).
  exists kp. split_and!; [done| |by exists k, ks]. unfold klass. rewrite H1. cbn [mbind option_bind].
  by apply (klass_of_loc _ _ _ _ _ _ Hi H4 H7 H3).
Qed.
Lemma is_klass_shape g D st a p s kp : inv g D st -> objs !! a = Some s -> loc g a p -> is_klass g a s kp ->
  shape_with (mem st) p kp = Some s /\ klass_of_oop (mem st) (oop_of kp) = Some kp.
Proof.
  intros Hi Hs Hl (k & ks & H3 & H4 & H5 & H6 & H7). split; [by eapply loc_shape|]. by apply (klass_of_loc _ _ _ _ _ _ Hi H4 H7 H3).
Qed.
Lemma shape_fields m p k s : shape_with m p k = Some s -> 2 <= s_nis s /\ non_indexable_size m k = Some (s_nis s) /\
  named_words (s_nis s) = Some (s_nis s - 2) /\ format m k = Some (s_format s) /\
  (indexable (s_format s) = true -> raw_size_slot m p (s_nis s) = Some (s_len s)).
Proof.
  unfold shape_with. destruct (non_indexable_size m k) as [n|]; [|done]. cbn [mbind option_bind].
  destruct (format m k) as [f|]; [|done]. cbn [mbind option_bind]. case_decide as H2; [|done].
  assert (Hn : named_words n = Some (n - 2)) by (unfold named_words, HEADER_WORDS; destruct (Z.ltb_spec n 2); [lia|done]).
  destruct (indexable f) eqn:Hf; [|intros [= <-]; cbn; by rewrite Hf].
  destruct (raw_size_slot m p n) eqn:Hr; [|done]. cbn [mbind option_bind]. intros [= <-]. done.
Qed.

Definition slots_at (p : Z) (is_ : list Z) : list Z := map (body_addr p) is_.
Lemma elem_of_slots_at p is_ x : x ∈ slots_at p is_ <-> exists i, x = body_addr p i /\ i ∈ is_.
Proof. unfold slots_at. apply list_elem_of_fmap. Qed.
Lemma increasing_NoDup l : forall lo, increasing lo l -> NoDup l.
Proof.
  induction l as [|i l IH]; intros lo; [intros; constructor|]. intros [H1 H2]. constructor; [|by eapply IH].
  intros Hin. pose proof (increasing_lower _ _ _ H2 Hin). lia.
Qed.
Lemma slots_at_NoDup p is_ : NoDup is_ -> NoDup (slots_at p is_).
Proof. intros H. unfold slots_at. apply NoDup_fmap_2; [|done]. intros i j He. rewrite !body_addr_eq in He. lia. Qed.
Lemma slots_at_app p l k : slots_at p (l ++ k) = slots_at p l ++ slots_at p k.
Proof. apply map_app. Qed.
Lemma oop_slots_NoDup a s : objs !! a = Some s -> NoDup (oop_slots s).
Proof.
  intros Ha. destruct (obj_shape a s Ha) as (H1 & _). apply (increasing_NoDup _ (-1)). unfold oop_slots. cbn. split; [lia|].
  by apply body_slots_increasing.
Qed.

Lemma update_slots_at g D st a p s is_ : inv g D st -> home g (a, p) -> objs !! a = Some s -> NoDup is_ -> (forall i, i ∈ is_ -> i ∈ oop_slots s) ->
  (forall i, i ∈ is_ -> body_addr p i ∉ D) -> exists g' st', update_slots st (slots_at p is_) = Some st' /\
  inv g' (list_to_set (slots_at p is_) ∪ D) st' /\ ext (list_to_set (slots_at p is_)) g st g' st'.
Proof.
  intros Hi Hh Hs Hnd Hin HD. apply update_slots_ok; [done|by apply slots_at_NoDup|]. intros x (i & -> & Hx)%elem_of_slots_at.
  split; [|by apply HD]. exists a, p, s, i. split_and!; try done. by apply Hin.
Qed.

Lemma for_each_oop_field_eq st p kp s : shape_with (mem st) p kp = Some s ->
  for_each_oop_field st p kp = st ← update_slots st (slots_at p (named_slots s));
    if oop_tail (s_format s) then
      len ← raw_size_slot (mem st) p (s_nis s); update_slots st (map (fun i => body_addr p (s_nis s - 2 + 1 + i)) (zrange 0 len))
    else Some st.
Proof.
  intros Hsh. destruct (shape_fields _ _ _ _ Hsh) as (_ & Hn & Hw & Hf & _). unfold for_each_oop_field.
  rewrite Hn. cbn [mbind option_bind]. rewrite Hw. cbn [mbind option_bind]. rewrite Hf. cbn [mbind option_bind].
  unfold named_slots, slots_at, HEADER_WORDS. destruct (s_format s); cbn [oop_tail]; try done; by destruct (update_slots _ _).
Qed.

Lemma for_each_oop_field_ok g D st a p s kp : inv g D st -> home g (a, p) -> objs !! a = Some s -> is_klass g a s kp ->
  (forall i, i ∈ body_slots s -> body_addr p i ∉ D) -> exists g' st', for_each_oop_field st p kp = Some st' /\
  inv g' (list_to_set (slots_at p (body_slots s)) ∪ D) st' /\ ext (list_to_set (slots_at p (body_slots s))) g st g' st'.
Proof.
  intros Hi Hh Hs Hk HD. pose proof (home_loc _ _ _ _ _ Hi Hh) as Hl. destruct (is_klass_shape _ _ _ _ _ _ _ Hi Hs Hl Hk) as [Hsh _].
  rewrite (for_each_oop_field_eq _ _ _ _ Hsh). pose proof (oop_slots_NoDup a s Hs) as Hnd. apply NoDup_cons in Hnd as [_ Hnd].
  unfold body_slots in Hnd. apply NoDup_app in Hnd as (Hnd1 & Hdis & Hnd2).
  assert (Hsub : forall i, i ∈ body_slots s -> i ∈ oop_slots s) by (intros; by right).
  destruct (update_slots_at g D st a p s (named_slots s) Hi Hh Hs Hnd1) as (g1 & st1 & -> & Hi1 & He1);
    [intros i ?; apply Hsub, elem_of_app; by left|intros i ?; apply HD, elem_of_app; by left|]. cbn [mbind option_bind].
  unfold body_slots. rewrite slots_at_app, list_to_set_app_L. destruct (oop_tail (s_format s)) eqn:Ht.
  - assert (Hh1 : home g1 (a, p)) by (by eapply home_mono).
    destruct (is_klass_shape g1 _ st1 a p s kp Hi1 Hs (home_loc _ _ _ _ _ Hi1 Hh1)) as [Hsh1 _]; [by eapply is_klass_mono|].
    destruct (shape_fields _ _ _ _ Hsh1) as (_ & _ & _ & _ & Hlen1). rewrite Hlen1 by (by destruct (s_format s)). cbn [mbind option_bind].
    destruct (update_slots_at g1 _ st1 a p s (tail_slots s) Hi1 Hh1 Hs Hnd2) as (g2 & st2 & Hu2 & Hi2 & He2).
    + intros i ?. apply Hsub, elem_of_app. by right.
    + intros i Hin [Hx|Hx]%elem_of_union; [|by eapply HD, Hx; apply elem_of_app; right].
      apply elem_of_list_to_set, elem_of_slots_at in Hx as (j & He & Hj). rewrite !body_addr_eq in He.
      assert (i = j) as -> by lia. by apply (Hdis j).
    + exists g2, st2. split_and!; [|by rewrite (comm_L (∪) (list_to_set (slots_at p (named_slots s)))), <- (assoc_L (∪))|by eapply ext_trans].
      unfold tail_slots, slots_at in Hu2. rewrite Ht, map_map in Hu2. exact Hu2.
  - unfold tail_slots. rewrite Ht. cbn [slots_at map list_to_set]. rewrite (right_id_L ∅ (∪)). by exists g1, st1.
Qed.
Definition slots_of (p : Z) (s : shape) : gset Z := list_to_set (slots_at p (oop_slots s)).
Lemma elem_of_slots_of p s x : x ∈ slots_of p s <-> exists i, x = body_addr p i /\ i ∈ oop_slots s.
Proof. unfold slots_of. by rewrite elem_of_list_to_set, elem_of_slots_at. Qed.

Lemma scan_object_ok g D st a p s : inv g D st -> home g (a, p) -> objs !! a = Some s -> (forall i, i ∈ oop_slots s -> body_addr p i ∉ D) ->
  exists g' st' n, scan_object st p = Some (st', n) /\ inv g' (slots_of p s ∪ D) st' /\ ext (slots_of p s) g st g' st' /\
    (stalled st' = false -> n = bytes a).
Proof.
  intros Hi Hh Hs HD. unfold scan_object. change (p + KLASS_OFFSET) with (body_addr p (-1)).
  destruct (update_slot_ok g D st (body_addr p (-1)) Hi) as (g1 & st1 & nk & -> & Hi1 & He1 & Hnk).
  { exists a, p, s, (-1). split_and!; try done. left. }
  { apply HD. left. }
  cbn [mbind option_bind]. assert (Hh1 : home g1 (a, p)) by (by eapply home_mono).
  destruct (klass_exists g1 _ st1 a p s Hi1 Hs (home_loc _ _ _ _ _ Hi1 Hh1)) as (kp & Hkw & Hkl & Hik).
  unfold scan_body. rewrite Hkl. cbn [mbind option_bind].
  destruct (for_each_oop_field_ok g1 _ st1 a p s kp Hi1 Hh1 Hs Hik) as (g2 & st2 & -> & Hi2 & He2).
  { intros i Hin [Hx%elem_of_singleton|Hx]%elem_of_union; [|by eapply HD, Hx; right]. rewrite !body_addr_eq in Hx.
    destruct (obj_shape a s Hs) as (? & ? & _). apply elem_of_body_slots in Hin as [? _]; [lia|done|done]. }
  cbn [mbind option_bind].
  assert (Hi2' : inv g2 (slots_of p s ∪ D) st2).
  { unfold slots_of, oop_slots. cbn [slots_at map list_to_set]. rewrite (comm_L (∪) {[_]}), <- (assoc_L (∪)). exact Hi2. }
  assert (He : ext (slots_of p s) g st g2 st2) by (eapply (ext_trans {[_]}); done).
  destruct (pending_stall st2) eqn:Hst.
  - eexists g2, st2, 0. split_and!; [reflexivity|done|done|]. unfold stalled. by rewrite Hst.
  - assert (Hh2 : home g2 (a, p)) by (by eapply home_mono).
    destruct (is_klass_shape g2 _ st2 a p s kp Hi2 Hs (home_loc _ _ _ _ _ Hi2 Hh2)) as [Hsh Hko]; [exact (is_klass_mono _ _ _ _ _ _ _ _ He2 Hik)|].
    unfold klass_oop in Hkw. change (p + KLASS_OFFSET) with (body_addr p (-1)) in Hkw. rewrite Hnk in Hkw. cbn [mbind option_bind] in Hkw.
    assert (nk = oop_of kp) as -> by (unfold Oop.from_raw in Hkw; repeat (case_match; [done|]); by injection Hkw).
    rewrite Hko. cbn [mbind option_bind]. rewrite (size_of_shape _ _ _ _ Hsh). cbn [mbind option_bind].
    destruct (obj_shape a s Hs) as (_ & _ & _ & Hb). eexists g2, st2, _. split_and!; [reflexivity|done|done|lia].
Qed.

(** ** The Cheney loop *)
Definition scanned (D : gset Z) (l : list (Z * Z)) : Prop := forall a p s, (a, p) ∈ l -> objs !! a = Some s -> slots_of p s ⊆ D.
Definition unscanned (D : gset Z) (l : list (Z * Z)) : Prop := forall a p s, (a, p) ∈ l -> objs !! a = Some s -> forall i, i ∈ oop_slots s -> body_addr p i ∉ D.

(** An object copied since is none of those there were. *)
Lemma tiled_suffix_fresh lo l k hi e e' : OldGen.tiled lo (map place (l ++ k)) hi -> (forall e, e ∈ l ++ k -> 0 < bytes e.1) -> e ∈ l -> e' ∈ k -> e <> e'.
Proof.
  rewrite map_app. intros (m & H1 & H2)%tiled_split Hpos Hl Hk ->.
  pose proof (OldGen.tiled_bounds _ _ _ H1) as (_ & _ & B1). pose proof (OldGen.tiled_bounds _ _ _ H2) as (_ & _ & B2).
  destruct (B1 (e'.2) (bytes e'.1)) as (_ & ? & _); [apply list_elem_of_fmap; by exists e'|].
  destruct (B2 (e'.2) (bytes e'.1)) as (? & _ & _); [apply list_elem_of_fmap; by exists e'|].
  specialize (Hpos e' ltac:(apply elem_of_app; by left)). lia.
Qed.

Definition new_home (g g' : ghost) (e : Z * Z) : Prop :=
  (exists k, tl g' = tl g ++ k /\ e ∈ k) \/ (exists k, ol g' = ol g ++ k /\ e ∈ k).
Lemma homes_pos g D st e : inv g D st -> home g e -> 0 < bytes e.1.
Proof. destruct e as [a p]. intros Hi Hh. pose proof (bytes_pos a (home_obj _ _ _ _ _ Hi Hh)). cbn. lia. Qed.
Lemma tl_old_cross g D st e : inv g D st -> e ∈ tl g -> e ∈ old_homes g -> False.
Proof.
  destruct e as [a p]. intros Hi H1 H2. pose proof (home_tl _ _ _ _ _ Hi H1). pose proof (home_old _ _ _ _ _ Hi H2). pose proof (wf_to Hwf).
  pose proof (i_static _ _ _ Hi) as (_ & _ & _ & ? & _). lia.
Qed.
Lemma homes_distinct_tl g D st l e0 k e : inv g D st -> tl g = l ++ e0 :: k -> e ∈ k ++ ol g -> e <> e0.
Proof.
  intros Hi Hg [He|He]%elem_of_app.
  - assert (Hg' : tl g = (l ++ [e0]) ++ k) by (by rewrite <- app_assoc).
    pose proof (i_to _ _ _ Hi) as Ht. rewrite Hg' in Ht. apply not_eq_sym, (tiled_suffix_fresh ts (l ++ [e0]) k _ e0 e Ht); [|apply elem_of_app; right; left|done].
    intros e' Hin. eapply homes_pos; [done|]. left. by rewrite Hg'.
  - intros ->. eapply (tl_old_cross g D st e0); [done|rewrite Hg; apply elem_of_app; right; left|apply elem_of_app; by right].
Qed.
Lemma homes_distinct_ol g D st l e0 k e : inv g D st -> ol g = l ++ e0 :: k -> e ∈ tl g ++ k -> e <> e0.
Proof.
  intros Hi Hg [He|He]%elem_of_app.
  - intros ->. eapply (tl_old_cross g D st e0); [done|done|]. unfold old_homes. rewrite Hg, !elem_of_app. right. right. left.
  - assert (Hg' : old_homes g = (map (fun x => (x, x)) olds ++ l ++ [e0]) ++ k) by (unfold old_homes; by rewrite Hg, <- !app_assoc).
    pose proof (OldGen.i_tiled _ _ (i_old _ _ _ Hi)) as Ht. cbn in Ht. rewrite Hg' in Ht.
    apply not_eq_sym, (tiled_suffix_fresh _ _ k _ e0 e Ht); [|rewrite !elem_of_app; right; right; left|done].
    intros e' Hin. eapply homes_pos; [done|]. right. by rewrite Hg'.
Qed.

Lemma new_home_fresh L g D st g' D' st' e e' : inv g D st -> inv g' D' st' -> ext L g st g' st' -> home g e ->
  new_home g g' e' -> e <> e'.
Proof.
  intros Hi Hi' He Hh Hn ->. pose proof (home_mono _ _ _ _ _ _ He Hh) as Hh'.
  destruct e' as [a p]. destruct Hn as [(k & Hk & Hin)|(k & Hk & Hin)], Hh as [Hh|Hh].
  - eapply (tiled_suffix_fresh ts (tl g) k _ (a, p) (a, p)); [rewrite <- Hk; apply (i_to _ _ _ Hi')| |done|done|done].
    intros e He'. eapply homes_pos; [exact Hi'|]. left. by rewrite Hk.
  - eapply (tl_old_cross g' D' st' (a, p)); [done|rewrite Hk; apply elem_of_app; by right|]. destruct (e_ol _ _ _ _ _ He) as [k' Hk']. unfold old_homes in *.
    rewrite Hk'. rewrite !elem_of_app in *. tauto.
  - eapply (tl_old_cross g' D' st' (a, p)); [done| |unfold old_homes; rewrite Hk, !elem_of_app; tauto]. destruct (e_tl _ _ _ _ _ He) as [k' ->]. apply elem_of_app. by left.
  - eapply (tiled_suffix_fresh _ (old_homes g) k _ (a, p) (a, p)); [| |done|done|done].
    + unfold old_homes. rewrite <- app_assoc, <- Hk. apply (OldGen.i_tiled _ _ (i_old _ _ _ Hi')).
    + intros e He'. eapply homes_pos; [exact Hi'|]. right. unfold old_homes in *. rewrite Hk. by rewrite app_assoc.
Qed.

(** After a scan of [p], the objects not yet scanned still are not. *)
Lemma unscanned_step L g D st g' D' st' a p s e : inv g D st -> inv g' D' st' -> ext L g st g' st' -> D' = slots_of p s ∪ D ->
  home g (a, p) -> objs !! a = Some s -> home g' e -> (home g e /\ e <> (a, p) /\ unscanned D [e]) \/ new_home g g' e -> unscanned D' [e].
Proof.
  intros Hi Hi' He -> Hh Hs Hhome Hl a' p' s' [= <-]%list_elem_of_singleton Hs' i Hir Hx. pose proof (oop_slots_range a' s' i Hs' Hir) as Hr.
  assert (Hfresh : forall a2 p2 s2 j, home g (a2, p2) -> objs !! a2 = Some s2 -> j ∈ oop_slots s2 -> body_addr p' i = body_addr p2 j -> (a2, p2) = (a', p')).
  { intros a2 p2 s2 j Hh2 Hs2 Hj Heq. pose proof (oop_slots_range a2 s2 j Hs2 Hj) as Hr2.
    destruct (slot_inj g' _ st' a2 p2 s2 j a' p' s' i Hi') as [H _]; try done; try lia; by eapply home_mono. }
  apply elem_of_union in Hx as [Hx|Hx].
  - apply elem_of_slots_of in Hx as (j & Heq & Hj). pose proof (Hfresh a p s j Hh Hs Hj Heq) as E.
    destruct Hl as [(_ & Hne & _)|Hnew]; [by rewrite E in Hne|]. by eapply (new_home_fresh _ _ _ _ _ _ _ (a, p) (a', p') Hi Hi' He Hh).
  - destruct Hl as [(_ & _ & Hu)|Hnew]; [by eapply (Hu a' p' s'); [left| |exact Hir|]|].
    destruct (i_done _ _ _ Hi _ Hx) as (a2 & p2 & s2 & j & Hh2 & Hs2 & Hj & Heq).
    pose proof (Hfresh a2 p2 s2 j Hh2 Hs2 Hj Heq) as E. by eapply (new_home_fresh _ _ _ _ _ _ _ (a2, p2) (a', p') Hi Hi' He Hh2).
Qed.
Record loop (g : ghost) (D : gset Z) (st : gcstate) (tl1 tl2 ol1 ol2 : list (Z * Z)) (to_scan old_scan : Z) : Prop := {
  l_inv : inv g D st;
  l_stall : stalled st = false;
  l_tl : tl g = tl1 ++ tl2;
  l_ol : ol g = ol1 ++ ol2;
  l_to : OldGen.tiled ts (map place tl1) to_scan;
  l_old : OldGen.tiled OS (map place (map (fun x => (x, x)) olds ++ ol1)) old_scan;
  l_scanned : scanned D (tl1 ++ ol1);
  l_unscanned : unscanned D (tl2 ++ ol2) }.

(** One object of either region. *)
Lemma loop_scan g D st tl1 tl2 ol1 ol2 to_scan old_scan a p : loop g D st tl1 tl2 ol1 ol2 to_scan old_scan ->
  (a, p) ∈ tl2 ++ ol2 -> exists g' D' st' n, scan_object st p = Some (st', n) /\ inv g' D' st' /\ (exists L, ext L g st g' st') /\ D ⊆ D' /\
    (stalled st' = false -> n = bytes a) /\ (forall s, objs !! a = Some s -> slots_of p s ⊆ D') /\
    exists k1 k2, tl g' = tl g ++ k1 /\ ol g' = ol g ++ k2 /\
      (forall e, e ∈ tl2 ++ ol2 ++ k1 ++ k2 -> e <> (a, p) -> unscanned D' [e]).
Proof.
  intros [Hi Hst Htl Hol _ _ _ Hun] Hin.
  assert (Hhome : forall e, e ∈ tl2 ++ ol2 -> home g e).
  { intros e. unfold home, old_homes. rewrite Htl, Hol, !elem_of_app. tauto. }
  destruct (home_obj _ _ _ _ _ Hi (Hhome _ Hin)) as [s Hs].
  destruct (scan_object_ok g D st a p s Hi (Hhome _ Hin) Hs) as (g' & st' & n & Hscan & Hi' & He & Hn); [by apply (Hun a p s Hin Hs)|].
  destruct (e_tl _ _ _ _ _ He) as [k1 Hk1]. destruct (e_ol _ _ _ _ _ He) as [k2 Hk2].
  exists g', (slots_of p s ∪ D), st', n. split_and!; [done|done|by eexists|by apply union_subseteq_r|done| |].
  { intros s' Hs'. rewrite Hs in Hs'. injection Hs' as <-. apply union_subseteq_l. }
  exists k1, k2. split_and!; [done|done|]. intros e Hine Hne. eapply (unscanned_step _ g D st g' _ st' a p s e Hi Hi' He eq_refl (Hhome _ Hin) Hs).
  - rewrite !elem_of_app in Hine. destruct Hine as [H|[H|[H|H]]].
    + eapply home_mono; [exact He|]. apply Hhome, elem_of_app. by left.
    + eapply home_mono; [exact He|]. apply Hhome, elem_of_app. by right.
    + left. rewrite Hk1. apply elem_of_app. by right.
    + right. unfold old_homes. rewrite Hk2, !elem_of_app. tauto.
  - rewrite app_assoc, elem_of_app in Hine. destruct Hine as [H|H].
    + left. split_and!; [by apply Hhome|done|]. intros a' p' s' [= <-]%list_elem_of_singleton. by apply Hun.
    + right. apply elem_of_app in H as [H|H]; [left; by exists k1|right; by exists k2].
Qed.

Lemma tiled_head lo l k hi m : OldGen.tiled lo (map place (l ++ k)) hi -> OldGen.tiled lo (map place l) m ->
  match k with [] => m = hi | e :: k => e.2 = m /\ m < hi /\ OldGen.tiled lo (map place (l ++ [e])) (m + bytes e.1) end.
Proof.
  rewrite map_app. intros (m' & H1 & H2)%tiled_split H. rewrite (tiled_fun _ _ _ _ H H1). destruct k as [|e k]; [exact H2|].
  cbn in H2. destruct H2 as (<- & Hp & H8 & H2). pose proof (OldGen.tiled_bounds _ _ _ H2) as (? & _). split_and!; [done|lia|].
  rewrite map_app. by apply OldGen.tiled_app.
Qed.

Lemma scanned_snoc D D' l k a p : D ⊆ D' -> scanned D (l ++ k) -> (forall s, objs !! a = Some s -> slots_of p s ⊆ D') ->
  scanned D' ((l ++ [(a, p)]) ++ k) /\ scanned D' (l ++ k ++ [(a, p)]).
Proof.
  intros HD Hsc Hs. split; intros a' p' s' Hin Hs'.
  - rewrite !elem_of_app, list_elem_of_singleton in Hin. destruct Hin as [[Hin|[= -> ->]]|Hin]; [|by apply Hs|];
      (etransitivity; [|exact HD]; eapply Hsc; [|done]; apply elem_of_app; tauto).
  - rewrite !elem_of_app, list_elem_of_singleton in Hin. destruct Hin as [Hin|[Hin|[= -> ->]]]; [| |by apply Hs];
      (etransitivity; [|exact HD]; eapply Hsc; [|done]; apply elem_of_app; tauto).
Qed.

(** The state after one turn of the loop. *)
Definition turn (g : ghost) (D : gset Z) (st : gcstate) (a p : Z) (next : ghost -> gset Z -> gcstate -> Prop) : Prop :=
  exists g' D' st' n, scan_object st p = Some (st', n) /\ inv g' D' st' /\ (exists L, ext L g st g' st') /\ D ⊆ D' /\ 16 <= bytes a /\
    (stalled st' = false -> n = bytes a /\ next g' D' st').

Lemma loop_to g D st tl1 tl2 ol1 ol2 to_scan old_scan a p : loop g D st tl1 ((a, p) :: tl2) ol1 ol2 to_scan old_scan ->
  p = to_scan /\ turn g D st a p (fun g' D' st' => exists tl2' ol2', loop g' D' st' (tl1 ++ [(a, p)]) tl2' ol1 ol2' (to_scan + bytes a) old_scan).
Proof.
  intros Hl. pose proof Hl as [Hi Hst Htl Hol Hto Hold Hsc Hun]. pose proof (i_to _ _ _ Hi) as Ht. rewrite Htl in Ht.
  destruct (tiled_head _ _ _ _ _ Ht Hto) as (Hp & _ & Hto'). split; [done|].
  destruct (loop_scan _ _ _ _ _ _ _ _ _ a p Hl ltac:(left)) as (g' & D' & st' & n & H & Hi' & He & HD & Hn & Hs' & k1 & k2 & Hk1 & Hk2 & Hu).
  exists g', D', st', n. split_and!; try done.
  { apply (bytes_pos a), (home_obj g D st a p Hi). left. rewrite Htl. apply elem_of_app. right. left. }
  intros Hns. split; [by apply Hn|]. exists (tl2 ++ k1), (ol2 ++ k2). assert (Htl' : tl g' = tl1 ++ (a, p) :: tl2 ++ k1) by (by rewrite Hk1, Htl, <- app_assoc).
  assert (Hol' : ol g' = ol1 ++ ol2 ++ k2) by (by rewrite Hk2, Hol, app_assoc).
  split; try done.
  - by rewrite Htl', <- app_assoc.
  - by eapply scanned_snoc.
  - intros a' p' s' Hin Hs''. eapply (Hu (a', p')); [|eapply (homes_distinct_tl g' D' st' tl1 _ (tl2 ++ k1)); [done|done|]|left|done].
    + rewrite !elem_of_app, ?elem_of_cons in *. tauto.
    + rewrite Hol', !elem_of_app in *. tauto.
Qed.

Lemma loop_old g D st tl1 tl2 ol1 ol2 to_scan old_scan a p : loop g D st tl1 tl2 ol1 ((a, p) :: ol2) to_scan old_scan ->
  p = old_scan /\ turn g D st a p (fun g' D' st' => exists tl2' ol2', loop g' D' st' tl1 tl2' (ol1 ++ [(a, p)]) ol2' to_scan (old_scan + bytes a)).
Proof.
  intros Hl. pose proof Hl as [Hi Hst Htl Hol Hto Hold Hsc Hun].
  pose proof (OldGen.i_tiled _ _ (i_old _ _ _ Hi)) as Ht. cbn in Ht. unfold old_homes in Ht. rewrite Hol, app_assoc in Ht.
  destruct (tiled_head _ _ _ _ _ Ht Hold) as (Hp & _ & Hold'). split; [done|].
  destruct (loop_scan _ _ _ _ _ _ _ _ _ a p Hl ltac:(apply elem_of_app; right; left)) as (g' & D' & st' & n & H & Hi' & He & HD & Hn & Hs' & k1 & k2 & Hk1 & Hk2 & Hu).
  exists g', D', st', n. split_and!; try done.
  { apply (bytes_pos a), (home_obj g D st a p Hi). right. unfold old_homes. rewrite Hol, !elem_of_app. right. right. left. }
  intros Hns. split; [by apply Hn|]. exists (tl2 ++ k1), (ol2 ++ k2). assert (Htl' : tl g' = tl1 ++ tl2 ++ k1) by (by rewrite Hk1, Htl, <- app_assoc).
  assert (Hol' : ol g' = ol1 ++ (a, p) :: ol2 ++ k2) by (by rewrite Hk2, Hol, <- app_assoc).
  split; try done.
  - by rewrite Hol', <- app_assoc.
  - by rewrite app_assoc.
  - by eapply scanned_snoc.
  - intros a' p' s' Hin Hs''. eapply (Hu (a', p')); [|eapply (homes_distinct_ol g' D' st' ol1 _ (ol2 ++ k2)); [done|done|]|left|done].
    + rewrite !elem_of_app, ?elem_of_cons in *. tauto.
    + rewrite Htl', !elem_of_app in *. tauto.
Qed.

(** What the loop does from a state of it. *)
Definition drained (g : ghost) (D : gset Z) (st : gcstate) (r : option (gcstate + gcstate)) : Prop := exists g' D' r',
  r = Some r' /\ (exists L, ext L g st g' (match r' with inl st' | inr st' => st' end)) /\ D ⊆ D' /\
  match r' with
  | inl st' => inv g' D' st' /\ stalled st' = true
  | inr st' => inv g' D' st' /\ stalled st' = false /\ scanned D' (tl g' ++ ol g')
  end.

Lemma drained_turn g D st a p next (f : Z -> gcstate -> option (gcstate + gcstate)) : turn g D st a p next ->
  (forall g' D' st', next g' D' st' -> OldGen.committed_end (old st') = OldGen.committed_end (old st) -> drained g' D' st' (f (bytes a) st')) ->
  drained g D st ('(st, n) ← scan_object st p; match pending_stall st with Some _ => Some (inl st) | None => f n st end).
Proof.
  intros (g' & D' & st' & n & -> & Hi' & [L He] & HD & _ & Hn) Hf. cbn [mbind option_bind].
  destruct (pending_stall st') as [x|] eqn:Hps.
  - exists g', D', (inl st'). split_and!; [done|by exists L|done|done|]. unfold stalled. by rewrite Hps.
  - destruct Hn as [-> Hnext]; [unfold stalled; by rewrite Hps|].
    destruct (Hf g' D' st' Hnext (e_committed _ _ _ _ _ He)) as (g2 & D2 & r & -> & [L2 He2] & HD2 & Hr).
    exists g2, D2, r. split_and!; [done|exists (L ∪ L2); by eapply ext_trans|by etransitivity|done].
Qed.

Lemma cheney_ok fuel : forall g D st tl1 tl2 ol1 ol2 to_scan old_scan, loop g D st tl1 tl2 ol1 ol2 to_scan old_scan ->
  te - to_scan + (OldGen.committed_end (old st) - old_scan) < 16 * Z.of_nat fuel -> drained g D st (cheney fuel st to_scan old_scan).
Proof.
  induction fuel as [|fuel IH]; intros g D st tl1 tl2 ol1 ol2 to_scan old_scan Hl Hf; pose proof Hl as [Hi Hst Htl Hol Hto Hold Hsc Hun];
    pose proof (i_static _ _ _ Hi) as (_ & _ & _ & Htop & _); pose proof (OldGen.i_top _ _ (i_old _ _ _ Hi)) as Htp; cbn in Htp;
    pose proof (i_to _ _ _ Hi) as Ht; rewrite Htl in Ht; pose proof (tiled_head _ _ _ _ _ Ht Hto) as Hhd;
    pose proof (OldGen.i_tiled _ _ (i_old _ _ _ Hi)) as Ho; cbn in Ho; unfold old_homes in Ho; rewrite Hol, app_assoc in Ho;
    pose proof (tiled_head _ _ _ _ _ Ho Hold) as Hhd'.
  - exfalso. destruct tl2, ol2; lia.
  - cbn [cheney]. destruct (Z.ltb_spec to_scan (Spaces.s_top (to st))) as [Hlt|Hge]; [|destruct (Z.ltb_spec old_scan (OldGen.top (old st))) as [Hlt'|Hge']].
    + destruct tl2 as [|[a p] tl2]; [lia|]. destruct (loop_to _ _ _ _ _ _ _ _ _ a p Hl) as [-> Htn]. pose proof Htn as (_ & _ & _ & _ & _ & _ & _ & _ & H16 & _).
      eapply (drained_turn g D st a to_scan _ (fun n st => cheney fuel st (to_scan + n) old_scan) Htn).
      intros g' D' st' (tl2' & ol2' & Hl') Hc. eapply IH; [exact Hl'|]. rewrite Hc. lia.
    + destruct ol2 as [|[a p] ol2]; [lia|]. destruct (loop_old _ _ _ _ _ _ _ _ _ a p Hl) as [-> Htn]. pose proof Htn as (_ & _ & _ & _ & _ & _ & _ & _ & H16 & _).
      eapply (drained_turn g D st a old_scan _ (fun n st => cheney fuel st to_scan (old_scan + n)) Htn).
      intros g' D' st' (tl2' & ol2' & Hl') Hc. eapply IH; [exact Hl'|]. rewrite Hc. lia.
    + destruct tl2 as [|e tl2]; [|lia]. destruct ol2 as [|e ol2]; [|lia].
      exists g, D, (inr st). split_and!; [done|exists ∅; apply ext_refl|done|done|done|]. by rewrite Htl, Hol, !app_nil_r.
Qed.
(** ** Dirty cards *)
Lemma done_word_mono L g st g' D' st' w0 w : ext L g st g' st' -> inv g' D' st' ->
  done_word (phi g) (stalled st) w0 w -> done_word (phi g') (stalled st') w0 w.
Proof.
  intros He Hi' [[-> Hset]|[Hst ->]]; [left|right; split; [by apply (e_stall _ _ _ _ _ He)|done]].
  destruct (reloc_mono (phi g) (phi g') w0 (e_phi _ _ _ _ _ He) Hset) as [-> ?]; [|done].
  intros x q Hx. apply (i_phi _ _ _ Hi') in Hx. by destruct (i_young _ _ _ Hi' _ _ Hx).
Qed.
Lemma ext_weaken L L' g st g' st' : L ⊆ L' -> ext L g st g' st' -> ext L' g st g' st'.
Proof. intros HL [A1 A2 A3 A4 A5 A6]. split; try done. intros a p s i Hh Hs Hr Hn. apply (A6 a p s i); try done. intros Hx. by apply Hn, HL. Qed.

(** Whether the touched slots [W] are known to hold no new oop. *)
Definition clean (st : gcstate) (W : gset Z) (still : bool) : Prop :=
  still = false -> forall x w, x ∈ W -> mem st !! x = Some w -> ~ new_word w.

Lemma clean_frame L g D W st g' st' still : inv g (W ∪ D) st -> ext L g st g' st' -> L ## W -> clean st W still -> clean st' W still.
Proof.
  intros Hi He HL Hc Hst x w Hx Hw. apply (Hc Hst x w Hx). rewrite <- Hw. symmetry.
  destruct (i_done _ _ _ Hi x) as (a & p & s & i & Hh & Hs & Hin & ->); [apply elem_of_union; by left|].
  apply (e_frame _ _ _ _ _ He a p s i); [done|done|by eapply oop_slots_range|]. intros HxL. exact (HL _ HxL Hx).
Qed.

Definition win (ws we : Z) (L : list Z) : gset Z := list_to_set (filter (fun x => ws <= x < we) L).
Lemma elem_of_win ws we L x : x ∈ win ws we L <-> ws <= x < we /\ x ∈ L.
Proof. unfold win. by rewrite elem_of_list_to_set, list_elem_of_filter. Qed.
Lemma win_app ws we L K : win ws we (L ++ K) = win ws we L ∪ win ws we K.
Proof. apply set_eq. intros x. rewrite elem_of_union, !elem_of_win, elem_of_app. tauto. Qed.

Definition swept (g : ghost) (D W : gset Z) (st : gcstate) (still : bool) : Prop := inv g (W ∪ D) st /\ clean st W still.

Lemma touch_ok g D W st still ws we x : swept g D W st still -> oop_slot g x -> (ws <= x < we -> x ∉ W ∪ D) -> exists g' st' still',
  touch ws we (st, still) x = Some (st', still') /\ swept g' D (win ws we [x] ∪ W) st' still' /\ ext (win ws we [x]) g st g' st'.
Proof.
  intros [Hi Hc] Hs Hx. unfold touch.
  destruct ((x <? ws) || (we <=? x)) eqn:Hout.
  - assert (Hw : win ws we [x] = ∅).
    { apply set_eq. intros y. rewrite elem_of_win, list_elem_of_singleton, elem_of_empty. split; [|done]. intros [Hr ->].
      apply orb_true_iff in Hout as [?%Z.ltb_lt|?%Z.leb_le]; lia. }
    rewrite Hw, (left_id_L ∅ (∪)). exists g, st, still. split_and!; [done|done|apply ext_refl].
  - apply orb_false_iff in Hout as [?%Z.ltb_ge ?%Z.leb_gt].
    assert (Hw : win ws we [x] = {[x]}).
    { apply set_eq. intros y. rewrite elem_of_win, list_elem_of_singleton, elem_of_singleton. split; [by intros [_ ->]|intros ->; split; [lia|done]]. }
    rewrite Hw. destruct (update_slot_ok g _ st x Hi Hs) as (g' & st' & v & -> & Hi' & He & Hv); [apply Hx; lia|].
    cbn [mbind option_bind]. eexists g', st', _. split_and!; [reflexivity|split|done].
    + by rewrite <- (assoc_L (∪)).
    + intros [Hst Hnew]%orb_false_iff y w [->%elem_of_singleton|Hy]%elem_of_union Hyw.
      * rewrite Hv in Hyw. injection Hyw as <-. intros [Hm Hlt]. rewrite Hm in Hnew. unfold Geometry.is_new in Hnew. cbn [andb] in Hnew.
        apply Z.ltb_ge in Hnew. pose proof (i_static _ _ _ Hi') as (Hlay & _). destruct (wf_layout Hwf) as (Hos & _). rewrite Hlay, Hos in Hnew. lia.
      * refine (clean_frame {[x]} g D W st g' st' still Hi He _ Hc Hst y w Hy Hyw).
        intros z ->%elem_of_singleton Hz. apply Hx; [lia|]. apply elem_of_union. by left.
Qed.

Lemma touch_all_ok ws we L : forall g D W st still, swept g D W st still -> NoDup L ->
  (forall x, x ∈ L -> oop_slot g x /\ (ws <= x < we -> x ∉ W ∪ D)) -> exists g' st' still',
  touch_all ws we (st, still) L = Some (st', still') /\ swept g' D (win ws we L ∪ W) st' still' /\ ext (win ws we L) g st g' st'.
Proof.
  induction L as [|x L IH]; intros g D W st still Hsw Hnd HL; cbn [touch_all].
  - exists g, st, still. replace (win ws we []) with (∅ : gset Z) by done. rewrite (left_id_L ∅ (∪)). split_and!; [done|done|apply ext_refl].
  - apply NoDup_cons in Hnd as [Hx Hnd]. destruct (HL x ltac:(left)) as [Hs HxD].
    destruct (touch_ok g D W st still ws we x Hsw Hs HxD) as (g1 & st1 & still1 & -> & Hsw1 & He1). cbn [mbind option_bind].
    destruct (IH g1 D (win ws we [x] ∪ W) st1 still1 Hsw1 Hnd) as (g2 & st2 & still2 & -> & Hsw2 & He2).
    { intros y Hy. destruct (HL y ltac:(by right)) as [Hys HyD]. split; [by eapply oop_slot_mono|]. intros Hr.
      rewrite <- (assoc_L (∪)). intros [Hyx|Hin]%elem_of_union; [|by apply HyD]. apply elem_of_win in Hyx as [_ ->%list_elem_of_singleton]. done. }
    exists g2, st2, still2. change (x :: L) with ([x] ++ L). rewrite win_app. split_and!; [done| |by eapply ext_trans].
    by rewrite (comm_L (∪) (win ws we [x])), <- (assoc_L (∪)).
Qed.
Lemma scan_slots_eq st p kp s ws we st1 still1 : shape_with (mem st) p kp = Some s ->
  touch ws we (st, false) (body_addr p (-1)) = Some (st1, still1) -> shape_with (mem st1) p kp = Some s ->
  scan_slots_in_window st p kp ws we = acc ← touch_all ws we (st1, still1) (slots_at p (named_slots s));
    if oop_tail (s_format s) then
      let '(st, still) := acc in
      k' ← klass (mem st) p;
      nis' ← non_indexable_size (mem st) k';
      len ← raw_size_slot (mem st) p nis';
      if 0 <? len then
        tail0 ← named_words nis';
        let tail_base := body_addr p (tail0 + 1) in
        touch_all ws we (st, still)
          (map (fun i => body_addr p (tail0 + 1 + i)) (zrange (tail_index ws tail_base) (Z.min (tail_index we tail_base) len)))
      else Some (st, still)
    else Some acc.
Proof.
  intros Hsh Ht Hsh1. destruct (shape_fields _ _ _ _ Hsh) as (_ & Hn & Hw & _ & _). destruct (shape_fields _ _ _ _ Hsh1) as (_ & _ & _ & Hf & _).
  unfold scan_slots_in_window. rewrite Hn. cbn [mbind option_bind]. rewrite Hw. cbn [mbind option_bind].
  change (p + KLASS_OFFSET) with (body_addr p (-1)). rewrite Ht. cbn [mbind option_bind fst]. rewrite Hf. cbn [mbind option_bind].
  unfold named_slots, slots_at, HEADER_WORDS. destruct (s_format s); cbn [oop_tail]; try done; by destruct (touch_all _ _ _ _).
Qed.

(** The tail indices the scan visits are those of the window. *)
Lemma tail_index_spec w p t j : 0 <= j -> tail_index w (body_addr p t) <= j <-> w <= body_addr p (t + j).
Proof. intros Hj. unfold tail_index. rewrite !body_addr_eq. Z.div_mod_to_equations. lia. Qed.

Lemma tail_window ws we p t len : 
  win ws we (map (fun i => body_addr p (t + i)) (zrange (tail_index ws (body_addr p t)) (Z.min (tail_index we (body_addr p t)) len))) =
  win ws we (slots_at p (map (fun i => t + i) (zrange 0 len))) /\
  (forall x, x ∈ map (fun i => body_addr p (t + i)) (zrange (tail_index ws (body_addr p t)) (Z.min (tail_index we (body_addr p t)) len)) ->
     x ∈ slots_at p (map (fun i => t + i) (zrange 0 len))).
Proof.
  assert (H0 : 0 <= tail_index ws (body_addr p t)) by (unfold tail_index; apply Z.div_pos; lia).
  unfold slots_at. rewrite map_map. assert (Hsub : forall x, x ∈ map (fun i => body_addr p (t + i)) (zrange (tail_index ws (body_addr p t)) (Z.min (tail_index we (body_addr p t)) len)) ->
     x ∈ map (fun i => body_addr p (t + i)) (zrange 0 len)).
  { intros x (j & -> & Hj)%list_elem_of_fmap. apply elem_of_zrange in Hj. apply list_elem_of_fmap. exists j. split; [done|]. apply elem_of_zrange. lia. }
  split; [|done]. apply set_eq. intros x. rewrite !elem_of_win. split; intros [Hr Hx]; (split; [done|]); [by apply Hsub|].
  apply list_elem_of_fmap in Hx as (j & -> & Hj). apply elem_of_zrange in Hj. apply list_elem_of_fmap. exists j. split; [done|].
  apply elem_of_zrange. pose proof (tail_index_spec ws p t j ltac:(lia)). pose proof (tail_index_spec we p t j ltac:(lia)). lia.
Qed.

Lemma scan_slots_ok g D st a p s kp ws we : inv g D st -> home g (a, p) -> objs !! a = Some s -> is_klass g a s kp ->
  (forall i, i ∈ oop_slots s -> ws <= body_addr p i < we -> body_addr p i ∉ D) -> exists g' st' still,
  scan_slots_in_window st p kp ws we = Some (st', still) /\ swept g' D (win ws we (slots_at p (oop_slots s))) st' still /\
  ext (win ws we (slots_at p (oop_slots s))) g st g' st'.
Proof.
  intros Hi Hh Hs Hk HD. pose proof (oop_slots_NoDup a s Hs) as Hnd. apply NoDup_cons in Hnd as [Hk1 Hnd].
  unfold body_slots in Hnd. apply NoDup_app in Hnd as (Hnd1 & Hdis & Hnd2).
  assert (Hsw : swept g D ∅ st false) by (split; [by rewrite (left_id_L ∅ (∪))|]; intros _ x w Hx; by apply elem_of_empty in Hx).
  assert (Hslot : forall i, i ∈ oop_slots s -> oop_slot g (body_addr p i)) by (intros i ?; by exists a, p, s, i).
  assert (Hinj : forall i j, body_addr p i = body_addr p j -> i = j) by (intros i j; rewrite !body_addr_eq; lia).
  destruct (touch_ok g D ∅ st false ws we (body_addr p (-1)) Hsw) as (g1 & st1 & still1 & Ht & Hsw1 & He1);
    [apply Hslot; left|rewrite (left_id_L ∅ (∪)); intros; apply HD; [left|done]|].
  rewrite (right_id_L ∅ (∪)) in Hsw1. assert (Hh1 : home g1 (a, p)) by (by eapply home_mono).
  destruct (is_klass_shape g D st a p s kp Hi Hs (home_loc _ _ _ _ _ Hi Hh) Hk) as [Hsh _].
  destruct (is_klass_shape g1 _ st1 a p s kp (proj1 Hsw1) Hs (home_loc _ _ _ _ _ (proj1 Hsw1) Hh1)) as [Hsh1 _]; [by eapply is_klass_mono|].
  rewrite (scan_slots_eq _ _ _ _ _ _ _ _ Hsh Ht Hsh1).
  destruct (touch_all_ok ws we (slots_at p (named_slots s)) g1 D _ st1 still1 Hsw1) as (g2 & st2 & still2 & -> & Hsw2 & He2); [by apply slots_at_NoDup| |].
  { intros x (i & -> & Hin)%elem_of_slots_at. assert (Hin' : i ∈ oop_slots s) by (right; apply elem_of_app; by left).
    split; [eapply oop_slot_mono; [exact He1|by apply Hslot]|]. intros Hr [Hx|Hx]%elem_of_union; [|by eapply HD].
    apply elem_of_win in Hx as [_ ->%list_elem_of_singleton%Hinj]. apply Hk1, elem_of_app. by left. }
  cbn [mbind option_bind]. pose proof (ext_trans _ _ _ _ _ _ _ _ He1 He2) as He12.
  unfold oop_slots. change (-1 :: body_slots s) with ([-1] ++ (named_slots s ++ tail_slots s)). rewrite !slots_at_app, !win_app.
  change (slots_at p [-1]) with [body_addr p (-1)]. rewrite (comm_L (∪) (win ws we (slots_at p (named_slots s)))) in Hsw2.
  destruct (oop_tail (s_format s)) eqn:Htail.
  2: { unfold tail_slots. rewrite Htail. change (win ws we (slots_at p [])) with (∅ : gset Z). rewrite (right_id_L ∅ (∪)). by exists g2, st2, still2. }
  assert (Hh2 : home g2 (a, p)) by (by eapply home_mono). pose proof (home_loc _ _ _ _ _ (proj1 Hsw2) Hh2) as Hl2.
  destruct (klass_exists g2 _ st2 a p s (proj1 Hsw2) Hs Hl2) as (kp2 & _ & -> & Hik2). cbn [mbind option_bind].
  destruct (is_klass_shape g2 _ st2 a p s kp2 (proj1 Hsw2) Hs Hl2 Hik2) as [Hsh2 _].
  destruct (shape_fields _ _ _ _ Hsh2) as (_ & Hnis & Hnw & _ & Hlen). rewrite Hnis. cbn [mbind option_bind]. rewrite Hlen by (by destruct (s_format s)). cbn [mbind option_bind].
  rewrite Hnw. cbn [mbind option_bind]. destruct (Z.ltb_spec 0 (s_len s)) as [Hpos|Hnp].
  - destruct (tail_window ws we p (s_nis s - 2 + 1) (s_len s)) as [Hwe Hsub].
    assert (Hts : tail_slots s = map (fun i => s_nis s - 2 + 1 + i) (zrange 0 (s_len s))) by (unfold tail_slots; by rewrite Htail). rewrite <- Hts in Hwe, Hsub.
    destruct (touch_all_ok ws we (map (fun i => body_addr p (s_nis s - 2 + 1 + i)) (zrange (tail_index ws (body_addr p (s_nis s - 2 + 1)))
      (Z.min (tail_index we (body_addr p (s_nis s - 2 + 1))) (s_len s)))) g2 D _ st2 still2 Hsw2) as (g3 & st3 & still3 & -> & Hsw3 & He3).
    + apply NoDup_fmap_2; [intros i j Hij%Hinj; lia|]. eapply increasing_NoDup, increasing_zrange.
    + intros x Hx%Hsub. apply elem_of_slots_at in Hx as (i & -> & Hin). assert (Hin' : i ∈ oop_slots s) by (right; apply elem_of_app; by right).
      split; [eapply oop_slot_mono; [exact He12|by apply Hslot]|]. intros Hr [[Hx|Hx]%elem_of_union|Hx]%elem_of_union; [| |by eapply HD].
      * apply elem_of_win in Hx as [_ ->%list_elem_of_singleton%Hinj]. apply Hk1, elem_of_app. by right.
      * apply elem_of_win in Hx as [_ (j & ->%Hinj & Hj)%elem_of_slots_at]. by apply (Hdis j).
    + rewrite Hwe in *. exists g3, st3, still3. split_and!; [done| |].
      * by rewrite (assoc_L (∪)), (comm_L (∪) _ (win ws we (slots_at p (tail_slots s)))).
      * rewrite (assoc_L (∪)). by eapply ext_trans.
  - unfold tail_slots. rewrite Htail, (zrange_nil 0 (s_len s)) by lia. change (win ws we (slots_at p (map _ []))) with (∅ : gset Z). rewrite (right_id_L ∅ (∪)).
    by exists g2, st2, still2.
Qed.
Definition same (l : list Z) : list (Z * Z) := map (fun x => (x, x)) l.
(** The slots of [l] that lie in a window. *)
Definition window_of (ws we : Z) (l : list Z) (W : gset Z) : Prop := forall x,
  x ∈ W <-> ws <= x < we /\ exists a s i, a ∈ l /\ objs !! a = Some s /\ i ∈ oop_slots s /\ x = body_addr a i.

Lemma window_of_cons ws we a s l W : objs !! a = Some s -> window_of ws we l W -> window_of ws we (a :: l) (W ∪ win ws we (slots_at a (oop_slots s))).
Proof.
  intros Hs HW x. rewrite elem_of_union, (HW x), elem_of_win, elem_of_slots_at. split.
  - intros [(Hr & a' & s' & i & Ha & ?)|(Hr & i & -> & Hi)]; (split; [done|]); [exists a', s', i; split; [by right|done]|].
    exists a, s, i. split_and!; [left|done|done|done].
  - intros (Hr & a' & s' & i & [->|Ha]%elem_of_cons & Hs' & Hi & ->); [right|left]; (split; [done|]).
    + rewrite Hs in Hs'. injection Hs' as <-. by exists i.
    + by exists a', s', i.
Qed.

Lemma old_home g a : a ∈ olds -> home g (a, a).
Proof. intros Ha. right. apply elem_of_app. left. apply list_elem_of_fmap. by exists a. Qed.

Lemma swept_more g D W st still g' W1 st' b1 : swept g D W st still -> swept g' (W ∪ D) W1 st' b1 -> ext W1 g st g' st' -> W1 ## W ->
  swept g' D (W1 ∪ W) st' (still || b1).
Proof.
  intros [Hi Hc] [Hi1 Hc1] He Hd. split; [by rewrite <- (assoc_L (∪))|]. intros [Hs Hb]%orb_false_iff x w [Hx|Hx]%elem_of_union Hw; [by eapply Hc1|].
  exact (clean_frame W1 g D W st g' st' still Hi He Hd Hc Hs x w Hx Hw).
Qed.

Lemma card_objects_ok top0 base end_ fuel : forall rest g D W st still addr, swept g D W st still ->
  OldGen.tiled addr (map place (same rest)) top0 -> (forall a, a ∈ rest -> a ∈ olds) ->
  (forall a s i, a ∈ rest -> objs !! a = Some s -> i ∈ oop_slots s -> base <= body_addr a i < end_ -> body_addr a i ∉ W ∪ D) ->
  match rest with [] => True | a :: _ => base < a + bytes a end ->
  (base < addr /\ end_ - addr <= 16 * (Z.of_nat fuel - 1)) \/ (2 <= Z.of_nat fuel /\ end_ - base <= 16 * (Z.of_nat fuel - 2)) -> 0 < Z.of_nat fuel -> exists g' W2 st' still',
  card_objects fuel base end_ top0 (st, still) addr = Some (st', still') /\ swept g' D (W2 ∪ W) st' still' /\ ext W2 g st g' st' /\
  window_of base end_ rest W2.
Proof.
  induction fuel as [|fuel IH]; intros rest g D W st still addr Hsw Ht Hold Hnew Hfirst Hf Hpos; [lia|]. cbn [card_objects].
  destruct (OldGen.tiled_bounds _ _ _ Ht) as (Hle & _ & Hb).
  destruct ((addr <? end_) && (addr <? top0)) eqn:Hgo.
  - apply andb_true_iff in Hgo as [He1%Z.ltb_lt He2%Z.ltb_lt]. destruct rest as [|a rest]; [cbn in Ht; lia|].
    cbn [same map OldGen.tiled place fst snd] in Ht. destruct Ht as (E & Hb0 & Hb8 & Ht). subst addr.
    assert (Ha : a ∈ olds) by (apply Hold; left). destruct (proj1 (wf_olds Hwf a) Ha) as [[s Hs] Hge].
    pose proof (old_home g a Ha) as Hh. pose proof (home_loc _ _ _ _ _ (proj1 Hsw) Hh) as Hl. destruct (bytes_pos a ltac:(by eexists)) as [H16 _].
    destruct (klass_exists g _ st a a s (proj1 Hsw) Hs Hl) as (kp & _ & -> & Hik). cbn [mbind option_bind].
    destruct (is_klass_shape g _ st a a s kp (proj1 Hsw) Hs Hl Hik) as [Hsh _]. rewrite (size_of_shape _ _ _ _ Hsh). cbn [mbind option_bind].
    destruct (obj_shape a s Hs) as (_ & _ & _ & Hbs). replace (size_words s * 8) with (bytes a) by lia. cbn in Hfirst.
    destruct (Z.ltb_spec base (a + bytes a)) as [_|]; [|lia].
    destruct (scan_slots_ok g (W ∪ D) st a a s kp base end_ (proj1 Hsw) Hh Hs Hik) as (g1 & st1 & b1 & -> & Hsw1 & Hext1).
    { intros i Hi Hr. apply (Hnew a s i); [left|done|done|done]. }
    cbn [mbind option_bind]. assert (Hdis : win base end_ (slots_at a (oop_slots s)) ## W).
    { intros x Hx1 Hx. apply elem_of_win in Hx1 as (Hr & i & -> & Hi)%(fun H => conj (proj1 H) (proj1 (elem_of_slots_at _ _ _) (proj2 H))).
      apply (Hnew a s i); [left|done|done|done|]. apply elem_of_union. by left. }
    pose proof (swept_more _ _ _ _ _ _ _ _ _ Hsw Hsw1 Hext1 Hdis) as Hsw'. destruct (OldGen.tiled_bounds _ _ _ Ht) as (_ & _ & Hb').
    destruct (IH rest g1 D _ st1 (still || b1) (a + bytes a) Hsw' Ht) as (g2 & W2 & st2 & still2 & -> & Hsw2 & Hext2 & HW2).
    + intros x Hx. apply Hold. by right.
    + intros a' s' i Hin Hs' Hi Hr. rewrite <- (assoc_L (∪)). intros [Hx|Hx]%elem_of_union; [|by apply (Hnew a' s' i); [right|..]].
      apply elem_of_win in Hx as [_ (j & He & Hj)%elem_of_slots_at]. destruct (Hb' a' (bytes a')) as (? & _).
      { apply list_elem_of_fmap. exists (a', a'). split; [done|]. apply list_elem_of_fmap. by exists a'. }
      pose proof (oop_slots_range a' s' i Hs' Hi). pose proof (oop_slots_range a s j Hs Hj). rewrite !body_addr_eq in He. lia.
    + destruct rest as [|a' rest]; [done|]. cbn [same map OldGen.tiled place fst snd] in Ht. lia.
    + lia.
    + lia.
    + eexists g2, (W2 ∪ win base end_ (slots_at a (oop_slots s))), st2, still2. split_and!; [done| |rewrite (comm_L (∪)); by eapply ext_trans|by apply window_of_cons].
      by rewrite <- (assoc_L (∪)).
  - exists g, ∅, st, still. rewrite (left_id_L ∅ (∪)). split_and!; [done|done|apply ext_refl|]. intros x. split; [by intros ?%elem_of_empty|].
    intros (Hr & a & s & i & Ha & Hs & Hi & ->). exfalso. pose proof (oop_slots_range a s i Hs Hi). destruct (obj_shape a s Hs) as (_ & _ & _ & Hbs).
    destruct (Hb a (bytes a)) as (? & ? & _). { apply list_elem_of_fmap. exists (a, a). split; [done|]. apply list_elem_of_fmap. by exists a. }
    rewrite body_addr_eq in Hr. apply andb_false_iff in Hgo as [?%Z.ltb_ge|?%Z.ltb_ge]; lia.
Qed.
Lemma set_clean_ok cs n : Cards.well_formed cs b -> 0 <= n < Cards.n_cards cs -> exists cs', Cards.set_clean cs n = Some cs' /\
  Cards.well_formed cs' b /\ (forall j, j <> n -> Cards.is_dirty cs' j = Cards.is_dirty cs j) /\ Cards.n_cards cs' = Cards.n_cards cs /\
  (forall j, Cards.card_base cs' j = Cards.card_base cs j).
Proof.
  intros (H1 & H2 & H3) Hn. unfold Cards.set_clean, Cards.store. rewrite zset_ok by lia. cbn [mbind option_bind]. eexists. split; [reflexivity|].
  split_and!; try done; [unfold Cards.well_formed; cbn [Cards.entries Cards.n_cards Cards.old_start]; by rewrite zlen_insert|]. intros j Hj. unfold Cards.is_dirty. cbn [Cards.entries]. by rewrite zlookup_zinsert_ne by (done || lia).
Qed.

Section cards.
Context (top0 : Z) (Htop0 : OldGen.tiled OS (map place (same olds)) top0).

Lemma old_top g D st : inv g D st -> forall a p, (a, p) ∈ ol g -> top0 <= p.
Proof.
  intros Hi a p Hin. pose proof (OldGen.i_tiled _ _ (i_old _ _ _ Hi)) as Ht. cbn in Ht. unfold old_homes in Ht. rewrite map_app in Ht.
  apply tiled_split in Ht as (m & H1 & H2). rewrite (tiled_fun _ _ _ _ H1 Htop0) in H2.
  apply OldGen.tiled_bounds in H2 as (_ & _ & Hb). eapply (Hb p (bytes a)), list_elem_of_fmap. by exists (a, p).
Qed.
Lemma old_below a s i : a ∈ olds -> objs !! a = Some s -> i ∈ oop_slots s -> OS <= body_addr a i < top0.
Proof.
  intros Ha Hs Hi. pose proof (oop_slots_range a s i Hs Hi). destruct (obj_shape a s Hs) as (_ & _ & _ & Hb).
  destruct (OldGen.tiled_bounds _ _ _ Htop0) as (_ & _ & Hbd). destruct (Hbd a (bytes a)) as (? & ? & _).
  { apply list_elem_of_fmap. exists (a, a). split; [done|]. apply list_elem_of_fmap. by exists a. }
  rewrite body_addr_eq. lia.
Qed.

(** Cleaning a card none of whose old slots holds a new oop. *)
Lemma clean_inv g D st cs n : inv g D st -> Cards.set_clean (cards st) n = Some cs -> 0 <= n < Cards.n_cards (cards st) -> OS + 512 * n + 512 <= top0 ->
  (forall a s i w, a ∈ olds -> objs !! a = Some s -> i ∈ oop_slots s -> card_of (body_addr a i) = n -> mem st !! body_addr a i = Some w -> ~ new_word w) ->
  inv g D (with_cards st cs) /\ ext ∅ g st g (with_cards st cs).
Proof.
  intros Hi Hcs Hn Hend Hno. destruct (i_cards _ _ _ Hi) as [Hw Hd]. destruct (set_clean_ok _ _ Hw Hn) as (cs' & E & Hw' & Hj & Hnc & Hbase).
  rewrite Hcs in E. injection E as <-. pose proof (old_top _ _ _ Hi) as Hot. destruct Hi as [I1 I2 I3 I4 I5 I6 I7 I8 I9 I10 I11 I12 I13]. split.
  - split; try done.
    + split; [done|]. cbn [cards with_cards]. rewrite Hnc. intros a p i Hin Hr. rewrite Hbase. intros Hb1 Hb2. specialize (Hot a p Hin).
      rewrite Hj; [by eapply Hd|]. intros ->. rewrite Cards.card_base_eq in Hb2. destruct Hw as [Hos _]. unfold OS in *. lia.
    + cbn [cards with_cards mem]. intros a s i w Ha Hs Hin Hmw Hnew. destruct (decide (card_of (body_addr a i) = n)) as [Hc|Hc].
      * by destruct (Hno a s i w Ha Hs Hin Hc Hmw).
      * rewrite Hj by done. by eapply I12.
  - by split.
Qed.

(** Cards below [n] have been scanned. *)
Record pre (g : ghost) (D : gset Z) (st : gcstate) (n : Z) : Prop := {
  p_inv : inv g D st;
  p_only : forall x, x ∈ D -> exists a s i, a ∈ olds /\ objs !! a = Some s /\ i ∈ oop_slots s /\ x = body_addr a i /\ card_of x < n;
  p_all : forall a s i w, a ∈ olds -> objs !! a = Some s -> i ∈ oop_slots s -> card_of (body_addr a i) < n -> M0 !! body_addr a i = Some w -> new_word w ->
    body_addr a i ∈ D }.

Lemma pre_old_word g D st n a s i w : pre g D st n -> a ∈ olds -> objs !! a = Some s -> i ∈ oop_slots s -> n <= card_of (body_addr a i) ->
  M0 !! body_addr a i = Some w -> mem st !! body_addr a i = Some w.
Proof.
  intros [Hi Ho _] Ha Hs Hin Hc Hw. pose proof (oop_slots_range a s i Hs Hin) as Hr.
  destruct (i_home _ _ _ Hi a a s i (old_home g a Ha) Hs Hr) as (w0 & w1 & H1 & H2 & H3). rewrite Hw in H1. injection H1 as <-.
  rewrite decide_False in H3; [congruence|]. intros Hx. destruct (Ho _ Hx) as (_ & _ & _ & _ & _ & _ & _ & Hlt). lia.
Qed.
Lemma pre_weaken g D st n : pre g D st n -> Cards.is_dirty (cards st) n <> Some true -> pre g D st (n + 1).
Proof.
  intros Hp Hnd. pose proof Hp as [Hi Ho Ha]. split; [done| |].
  - intros x Hx. destruct (Ho x Hx) as (a & s & i & ? & ? & ? & ? & ?). exists a, s, i. split_and!; try done. lia.
  - intros a s i w Hin Hs Hi' Hc Hw Hnew. destruct (decide (card_of (body_addr a i) = n)) as [<-|Hne]; [|eapply Ha; [..|exact Hw|done]; try done; lia].
    destruct Hnd. eapply (i_rs _ _ _ Hi a s i w); try done. by eapply pre_old_word.
Qed.

(** The objects that reach a card. *)
Lemma card_split g D st n : inv g D st -> 0 <= n -> OS + 512 * n < top0 -> exists l x rest, olds = l ++ x :: rest /\
  x <= OS + 512 * n < x + bytes x /\ OldGen.tiled x (map place (same (x :: rest))) top0 /\ Offsets.resolve (offsets st) n = Some x /\
  forall a, a ∈ l -> a + bytes a <= x.
Proof.
  intros Hi Hn Hlt. destruct (OldGen.tiled_find _ _ _ (OS + 512 * n) Htop0 ltac:(lia)) as (l & x & sz & r & Heq & Hx & H1 & H2).
  unfold same in Heq. rewrite map_map in Heq. apply map_eq_app in Heq as (l1 & l2 & Ho & Hl & Hr). apply map_eq_cons in Hr as (y & rest & -> & [= -> <-] & Hr).
  exists l1, x, rest. assert (Htl : OldGen.tiled x (map place (same (x :: rest))) top0).
  { unfold same. cbn [map OldGen.tiled place fst snd]. rewrite map_map. destruct (bytes_pos x) as [? ?].
    - apply (wf_olds Hwf). rewrite Ho. apply elem_of_app. right. left.
    - split_and!; try done; [lia|]. change (map (fun y => place (y, y)) rest) with (map (fun x => place (x, x)) rest). by rewrite Hr. }
  split_and!; try done; try lia.
  - pose proof (OldGen.i_table _ _ (i_old _ _ _ Hi)) as (Hos & _). cbn in Hos.
    apply (OldGen.inv_resolve b _ n x (bytes x) Hn ltac:(apply (wf_layout Hwf)) (i_old _ _ _ Hi)); cbn.
    + apply list_elem_of_fmap. exists (x, x). split; [done|]. apply elem_of_app. left. apply list_elem_of_fmap. exists x. split; [done|].
      rewrite Ho. apply elem_of_app. right. left.
    + rewrite Offsets.offset_base_eq, Hos. exact Hx.
  - intros a Ha. destruct (OldGen.tiled_bounds _ _ _ H1) as (_ & _ & Hb). apply (Hb a (bytes a)). rewrite <- Hl.
    apply list_elem_of_fmap. by exists a.
Qed.

Lemma card_of_iff x n : OS <= x -> card_of x = n <-> OS + 512 * n <= x < OS + 512 * n + 512.
Proof. intros Hx. unfold card_of. Z.div_mod_to_equations. lia. Qed.

Lemma scan_card_ok g D st n : pre g D st n -> 0 <= n < Cards.n_cards (cards st) -> OS + 512 * n < top0 -> exists g' D' st',
  scan_card top0 st n = Some st' /\ pre g' D' st' (n + 1) /\ (exists L, ext L g st g' st').
Proof.
  intros Hp Hn Hlt. pose proof Hp as [Hi Ho Ha]. unfold scan_card. destruct (i_cards _ _ _ Hi) as [(Hos & Hnc & Hlen) _].
  unfold Cards.is_dirty. destruct (zlookup_is_Some (Cards.entries (cards st)) n ltac:(lia)) as [e He]. rewrite He. cbn [mbind option_bind].
  destruct (Z.eqb_spec e CARD_DIRTY) as [->|Hne]; cbn [negb].
  2: { exists g, D, st. split_and!; [done| |exists ∅; apply ext_refl]. apply pre_weaken; [done|]. unfold Cards.is_dirty. rewrite He. cbn.
       intros [= ?%Z.eqb_eq]. done. }
  assert (Hbase : Cards.card_base (cards st) n = OS + 512 * n) by (by rewrite Cards.card_base_eq, Hos). rewrite Hbase. change CARD_SIZE with 512.
  destruct (card_split g D st n Hi ltac:(lia) Hlt) as (l & x & rest & Hol & Hx & Htl & -> & Hl). cbn [mbind option_bind].
  assert (Hsw : swept g D ∅ st false) by (split; [by rewrite (left_id_L ∅ (∪))|]; intros _ y w Hy; by apply elem_of_empty in Hy).
  destruct (card_objects_ok top0 (OS + 512 * n) (OS + 512 * n + 512) 66 (x :: rest) g D ∅ st false x Hsw Htl) as (g1 & W & st1 & still & -> & [Hi1 Hc1] & He1 & HW).
  - intros a Hin. rewrite Hol. apply elem_of_app. by right.
  - intros a s i Hin Hs Hin' Hr. rewrite (left_id_L ∅ (∪)). intros Hx'. destruct (Ho _ Hx') as (_ & _ & _ & _ & _ & _ & _ & Hc).
    pose proof (proj2 (card_of_iff (body_addr a i) n ltac:(lia)) Hr). lia.
  - lia.
  - right. lia.
  - lia.
  - rewrite (right_id_L ∅ (∪)) in *. cbn [mbind option_bind].
    assert (Hcover : forall a s i, a ∈ olds -> objs !! a = Some s -> i ∈ oop_slots s -> card_of (body_addr a i) = n -> body_addr a i ∈ W).
    { intros a s i Hin Hs Hin' Hc. pose proof (old_below a s i Hin Hs Hin'). pose proof (proj1 (card_of_iff (body_addr a i) n ltac:(lia)) Hc) as Hr.
      apply HW. split; [done|]. exists a, s, i. split_and!; try done. rewrite Hol in Hin. apply elem_of_app in Hin as [Hin|Hin]; [|done].
      specialize (Hl a Hin). pose proof (oop_slots_range a s i Hs Hin'). destruct (obj_shape a s Hs) as (_ & _ & _ & Hb). rewrite body_addr_eq in Hr. lia. }
    assert (Hp1 : pre g1 (W ∪ D) st1 (n + 1)).
    { split; [done| |].
      - intros y [Hy|Hy]%elem_of_union.
        + apply HW in Hy as (Hr & a & s & i & Hin & Hs & Hin' & ->). exists a, s, i. split_and!; try done; [rewrite Hol; apply elem_of_app; by right|].
          pose proof (proj2 (card_of_iff (body_addr a i) n ltac:(lia)) Hr). lia.
        + destruct (Ho y Hy) as (a & s & i & ? & ? & ? & ? & ?). exists a, s, i. split_and!; try done. lia.
      - intros a s i w Hin Hs Hin' Hc Hw Hnew. apply elem_of_union. destruct (decide (card_of (body_addr a i) = n)) as [E|Hne]; [left; by eapply Hcover|right].
        eapply Ha; [..|exact Hw|done]; try done. lia. }
    destruct (negb still && (OS + 512 * n + 512 <=? top0)) eqn:Hcl; [|exists g1, (W ∪ D), st1; split_and!; [done|done|by eexists]].
    apply andb_true_iff in Hcl as [Hns%negb_true_iff Hend%Z.leb_le]. destruct (i_cards _ _ _ Hi1) as [Hw1 _].
    assert (Hn1 : 0 <= n < Cards.n_cards (cards st1)) by (destruct Hw1 as (_ & -> & _); lia).
    destruct (set_clean_ok _ n Hw1 Hn1) as (cs & Hcs & _). rewrite Hcs. cbn [mbind option_bind].
    destruct (clean_inv g1 _ st1 cs n Hi1 Hcs Hn1 Hend) as [Hi2 He2].
    { intros a s i w Hin Hs Hin' Hc Hw. by apply (Hc1 Hns (body_addr a i) w (Hcover a s i Hin Hs Hin' Hc)). }
    eexists g1, (W ∪ D), _. split_and!; [reflexivity| |eexists; by eapply ext_trans]. destruct Hp1 as [_ P2 P3]. by split.
Qed.

Lemma scan_cards_ok g D st n N : pre g D st n -> N = Cards.n_cards (cards st) -> 0 <= n <= N -> exists g' D' st' m,
  scan_cards top0 st (zrange n N) = Some st' /\ pre g' D' st' m /\ (exists L, ext L g st g' st') /\ (m = N \/ top0 <= OS + 512 * m).
Proof.
  remember (Z.to_nat (N - n)) as k eqn:Hk. revert g D st n Hk. induction k as [|k IH]; intros g D st n Hk Hp HN Hn.
  - rewrite zrange_nil by lia. cbn [scan_cards]. exists g, D, st, n. split_and!; [done|done|exists ∅; apply ext_refl|left; lia].
  - rewrite zrange_cons by lia. cbn [scan_cards]. pose proof Hp as [Hi _ _]. destruct (i_cards _ _ _ Hi) as [(Hos & Hnc & _) _].
    rewrite Cards.card_base_eq, Hos. change (Geometry.b_start b) with OS.
    destruct (Z.leb_spec top0 (OS + 512 * n)) as [Hge|Hlt].
    + exists g, D, st, n. split_and!; [done|done|exists ∅; apply ext_refl|by right].
    + destruct (scan_card_ok g D st n Hp ltac:(lia) Hlt) as (g1 & D1 & st1 & -> & Hp1 & [L1 He1]). cbn [mbind option_bind].
      assert (HN1 : N = Cards.n_cards (cards st1)).
      { destruct (i_cards _ _ _ (p_inv _ _ _ _ Hp1)) as [(_ & -> & _) _]. lia. }
      destruct (IH g1 D1 st1 (n + 1) ltac:(lia) Hp1 HN1 ltac:(lia)) as (g2 & D2 & st2 & m & -> & Hp2 & [L2 He2] & Hm).
      exists g2, D2, st2, m. split_and!; [done|done|eexists; by eapply ext_trans|done].
Qed.

Lemma dirty_card_scan_ok g st : inv g ∅ st -> exists g' D' st',
  dirty_card_scan st top0 = Some st' /\ inv g' D' st' /\ (exists L, ext L g st g' st') /\
  (forall x, x ∈ D' -> exists a s i, a ∈ olds /\ objs !! a = Some s /\ i ∈ oop_slots s /\ x = body_addr a i) /\
  (forall a s i w, a ∈ olds -> objs !! a = Some s -> i ∈ oop_slots s -> M0 !! body_addr a i = Some w -> new_word w -> body_addr a i ∈ D').
Proof.
  intros Hi. assert (Hp : pre g ∅ st 0).
  { split; [done|by intros x ?%elem_of_empty|]. intros a s i w Ha Hs Hin Hc. pose proof (old_below a s i Ha Hs Hin).
    unfold card_of in Hc. assert (0 <= (body_addr a i - OS) / 512) by (apply Z.div_pos; lia). lia. }
  destruct (i_cards _ _ _ Hi) as [(Hos & Hnc & Hlen) _].
  destruct (scan_cards_ok g ∅ st 0 _ Hp eq_refl) as (g' & D' & st' & m & Heq & [Hi' Ho Ha] & He & Hm).
  { rewrite Hnc. unfold Cards.cards_for. lia. }
  exists g', D', st'. split_and!; [done|done|done| |].
  - intros x Hx. destruct (Ho x Hx) as (a & s & i & ? & ? & ? & ? & _). by exists a, s, i.
  - intros a s i w Hin Hs Hin' Hw Hnew. apply (Ha a s i w); try done. pose proof (old_below a s i Hin Hs Hin') as Hr.
    pose proof (OldGen.i_top _ _ (i_old _ _ _ Hi)) as Htb. cbn in Htb. assert (Ht0 : top0 <= Geometry.b_end b).
    { pose proof (OldGen.i_tiled _ _ (i_old _ _ _ Hi)) as Ht. cbn in Ht. unfold old_homes in Ht. rewrite map_app in Ht.
      apply tiled_split in Ht as (m' & H1 & H2). rewrite (tiled_fun _ _ _ _ H1 Htop0) in H2. apply OldGen.tiled_bounds in H2 as (? & _). lia. }
    pose proof (Cards.cards_for_covers b (body_addr a i) ltac:(unfold OS in *; lia)) as Hcf. unfold card_of, OS in *.
    destruct Hm as [->|Hm]; [lia|]. Z.div_mod_to_equations. lia.
Qed.
End cards.
End heap.
End ScavengeInv.
