(* ===== verification/ScavengeCorrect.v ===== *)
(** What a scavenge ([src/src/memory/scavenge.rs]) does to a heap: the objects
    reachable from the roots and from the old generation, and only those, get
    one copy each, every word that named one names its copy, and the heap is
    one the next scavenge can start from. *)
From S2P Require Import Prelude Oops OldSpace Heap Scavenge ScavengeInv.
From stdpp Require Import gmap.
#[local] Open Scope Z_scope.

Module ScavengeCorrect.
Import Heap Scavenge ScavengeInv.

Lemma threshold_total t cap : zlen t = 128 -> is_Some (AgeTable.compute_threshold t cap).
Proof.
  intros Hl. unfold AgeTable.compute_threshold. destruct (AgeTable.threshold_from_spec 128 t (cap / 2) 0) as (a & Ha & _); [by rewrite Hl|done|].
  replace (AgeTable.sum_upto t (0 - 1)) with 0 in Ha by (unfold AgeTable.sum_upto; by rewrite take_0). by exists a.
Qed.

(** Ageing a mark keeps its tag and its sentinel. *)
Lemma with_age_low m a i : 0 <= i < 3 -> Z.testbit (Mark.with_age m a) i = Z.testbit m i.
Proof.
  intros Hi. unfold Mark.with_age. rewrite Z.lor_spec, Z.land_spec. unfold u64, wrapU. rewrite Z.mod_pow2_bits_low by lia.
  rewrite Z.shiftl_spec_low by (change MARK_AGE_SHIFT with 5; lia). rewrite orb_false_r.
  assert (Hc : i = 0 \/ i = 1 \/ i = 2) by lia. by destruct Hc as [->|[->| ->]]; apply andb_true_r.
Qed.
Lemma older_mark mk : Mark.from_word mk = Some mk -> Mark.from_word (older mk) = Some (older mk).
Proof.
  unfold older. generalize (Z.min (saturating_add8 (Mark.age mk) 1) MARK_AGE_MAX). intros a. unfold Mark.from_word.
  assert (Hl : forall c, (forall i, 3 <= i -> Z.testbit c i = false) -> Z.land (Mark.with_age mk a) c = Z.land mk c).
  { intros c Hc. apply Z.bits_inj'. intros i Hi. rewrite !Z.land_spec. destruct (decide (i < 3)); [by rewrite with_age_low by lia|].
    rewrite Hc by lia. by rewrite !andb_false_r. }
  rewrite !Hl; [by repeat case_match|..]; intros i Hi; apply Z.bits_above_log2; (done || (eapply Z.lt_le_trans; [|exact Hi]; done)).
Qed.

Lemma older_gc_mark mk : Mark.gc_mark (older mk) = Mark.gc_mark mk.
Proof.
  unfold older. set (n := Z.min (saturating_add8 (Mark.age mk) 1) MARK_AGE_MAX). unfold Mark.gc_mark. f_equal. f_equal.
  assert (Hn : 0 <= n < 128).
  { unfold n, saturating_add8, MARK_AGE_MAX, Mark.age. pose proof (wrapU_in 8 (Z.shiftr (Z.land mk MARK_AGE_MASK) MARK_AGE_SHIFT) ltac:(lia)) as Hu. unfold inU in Hu. lia. }
  apply Z.bits_inj'. intros i Hi. rewrite !Z.land_spec. change MARK_GC_MARK_MASK with (Z.shiftl 1 44). rewrite Z.shiftl_spec by done.
  destruct (decide (i = 44)) as [->|Hne].
  - unfold Mark.with_age. rewrite Z.lor_spec, Z.land_spec. replace (Z.testbit (u64 (Z.shiftl n MARK_AGE_SHIFT)) 44) with false; [by rewrite orb_false_r, !andb_true_r|].
    symmetry. unfold u64, wrapU. rewrite Z.mod_pow2_bits_low by lia. rewrite Z.shiftl_spec by done. change (44 - MARK_AGE_SHIFT) with 39.
    destruct (decide (n = 0)) as [->|]; [by rewrite Z.bits_0|]. apply Z.bits_above_log2; [lia|]. apply (Z.le_lt_trans _ (Z.log2 127)); [apply Z.log2_le_mono; lia|done].
  - assert (Hb : Z.testbit 1 (i - 44) = false).
    { destruct (decide (i < 44)); [apply Z.testbit_neg_r; lia|]. apply Z.bits_above_log2; [done|]. change (Z.log2 1) with 0. lia. }
    by rewrite Hb, !andb_false_r.
Qed.

Definition disjoint_spaces (x y : Spaces.Eden) : Prop := Spaces.s_end x <= Spaces.s_start y \/ Spaces.s_end y <= Spaces.s_start x.

(** The young generation: [edens] and [froms] are its objects, end to end, in
    address order; no object carries the full collector's mark. *)
Record young_ok (st : gcstate) (objs : gmap Z shape) (edens froms : list Z) : Prop := {
  y_eden : OldGen.tiled (Spaces.s_start (eden st)) (map (fun a => (a, bytes objs a)) edens) (Spaces.s_top (eden st));
  y_from : OldGen.tiled (Spaces.s_start (from st)) (map (fun a => (a, bytes objs a)) froms) (Spaces.s_top (from st));
  y_young : forall a, is_young objs (OldGen.bounds (old st)) a <-> a ∈ edens ++ froms;
  y_tops : Spaces.s_top (eden st) <= Spaces.s_end (eden st) /\ Spaces.s_top (from st) <= Spaces.s_end (from st) /\ Spaces.s_top (to st) = Spaces.s_start (to st);
  y_bounds : 0 <= Spaces.s_start (eden st) <= Spaces.s_end (eden st) /\ Spaces.s_start (eden st) mod 8 = 0 /\ Spaces.s_end (eden st) <= OS (OldGen.bounds (old st));
  y_disjoint : disjoint_spaces (eden st) (from st) /\ disjoint_spaces (eden st) (to st) /\ disjoint_spaces (from st) (to st);
  y_unmarked : forall a s mk, objs !! a = Some s -> mem st !! a = Some mk -> Mark.gc_mark mk = false }.

Section cycle.
Context (st : gcstate) (objs : gmap Z shape) (olds : list Z).
#[local] Abbreviation b := (OldGen.bounds (old st)).
#[local] Abbreviation ts := (Spaces.s_start (to st)).
#[local] Abbreviation te := (Spaces.s_end (to st)).
#[local] Abbreviation M0 := (mem st).

(** A heap between two scavenges: [objs] are its objects with their shapes,
    [olds] those of the old generation in address order. *)
Record heap_ok : Prop := {
  h_wf : heap_wf M0 objs olds b (layout st) ts te;
  h_from : Spaces.s_start (from st) mod 8 = 0 /\ 0 <= Spaces.s_start (from st) <= Spaces.s_end (from st) /\ Spaces.s_end (from st) <= OS b;
  h_disjoint : Spaces.s_end (from st) <= ts \/ te <= Spaces.s_start (from st);
  h_old : OldGen.inv b (OldGen.MkState (old st) (offsets st) (map (fun a => (a, bytes objs a)) olds));
  h_cards : Cards.well_formed (cards st) b;
  h_remembered : forall a s i w, a ∈ olds -> objs !! a = Some s -> i ∈ oop_slots s -> M0 !! body_addr a i = Some w -> new_word b w ->
    Cards.is_dirty (cards st) (card_of b (body_addr a i)) = Some true;
  h_no_stall : pending_stall st = None }.

(** What [promotion_guarantee_met] promises. *)
Definition guaranteed : Prop :=
  promotion_guarantee_met st = true -> left objs b ∅ <= OldGen.committed_end (old st) - OldGen.top (old st).

Context (roots code_roots : list Z).
Inductive reachable : Z -> Prop :=
  | reach_root w : w ∈ roots ++ code_roots -> Oop.is_mem w = true -> is_young objs b (Oop.mem_addr w) -> reachable (Oop.mem_addr w)
  | reach_old a s i w : a ∈ olds -> objs !! a = Some s -> i ∈ oop_slots s -> M0 !! body_addr a i = Some w ->
      Oop.is_mem w = true -> is_young objs b (Oop.mem_addr w) -> reachable (Oop.mem_addr w)
  | reach_young a s i w : reachable a -> objs !! a = Some s -> i ∈ oop_slots s -> M0 !! body_addr a i = Some w ->
      Oop.is_mem w = true -> is_young objs b (Oop.mem_addr w) -> reachable (Oop.mem_addr w).

Context (Hok : heap_ok) (Hg : guaranteed) (Hroots : Forall (valid objs) (roots ++ code_roots)).
#[local] Abbreviation Inv := (inv M0 objs olds b (layout st) ts te st reachable).
#[local] Abbreviation Ext := (ext objs olds).
#[local] Abbreviation Home := (home olds).

Lemma reachable_closed a s i w : objs !! a = Some s -> reachable a \/ OS b <= a -> i ∈ oop_slots s ->
  M0 !! body_addr a i = Some w -> live objs b reachable w.
Proof.
  intros Hs [Ha|Ha] Hi Hw Hm Hy; [by eapply reach_young|]. eapply reach_old; try done. by apply (wf_olds _ _ _ _ _ _ _ (h_wf Hok)).
Qed.
Lemma root_live w : w ∈ roots ++ code_roots -> valid objs w /\ live objs b reachable w.
Proof. intros Hw. split; [by eapply Forall_forall in Hroots|]. intros Hm Hy. by apply reach_root. Qed.

Definition no_copies : ghost := MkGhost ∅ [] [].
Definition started : gcstate :=
  with_to_top (with_stats st (AgeTable.clear (age_table st)) (bytes_promoted st) (bytes_copied st)) ts.

Lemma started_inv : Inv no_copies ∅ started.
Proof.
  pose proof (h_wf Hok) as Hwf. destruct (wf_to _ _ _ _ _ _ _ Hwf) as [Ht _].
  assert (Hh : forall a p, Home no_copies (a, p) -> p = a /\ a ∈ olds).
  { intros a p [H|H]; [by apply elem_of_nil in H|]. unfold old_homes in H. cbn [no_copies ol] in H. rewrite app_nil_r in H.
    apply list_elem_of_fmap in H as (x & [= -> ->] & Hx). done. }
  split.
  - cbn. split_and!; try done; lia.
  - intros a p. cbn. rewrite lookup_empty. split; [done|by intros ?%elem_of_nil].
  - by intros a p ?%elem_of_nil.
  - done.
  - unfold old_homes. cbn [no_copies ol started old offsets with_to_top with_stats]. rewrite app_nil_r, map_map. exact (h_old Hok).
  - done.
  - intros a s Hs Hlt. cbn. by rewrite lookup_empty.
  - intros a p s i [-> Ha]%Hh Hs Hr. destruct (wf_words _ _ _ _ _ _ _ Hwf a s i Hs ltac:(lia)) as [w Hw]. by exists w, w.
  - intros a p [-> Ha]%Hh. destruct (proj1 (wf_olds _ _ _ _ _ _ _ Hwf a) Ha) as [[s Hs] _].
    destruct (wf_mark _ _ _ _ _ _ _ Hwf a s Hs) as (mk & Hmk & _). exists mk. split; [done|].
    apply (wf_olds _ _ _ _ _ _ _ Hwf) in Ha as [_ Ha]. by rewrite decide_False by lia.
  - intros x Hx. by apply elem_of_empty in Hx.
  - split; [exact (h_cards Hok)|]. by intros a p i ?%elem_of_nil.
  - exact (h_remembered Hok).
  - intros Hpg. split; [by apply Hg|exact (h_no_stall Hok)].
Qed.

Lemma scavenge_roots_ok rs : forall g D s1, Inv g D s1 -> (forall w, w ∈ rs -> w ∈ roots ++ code_roots) -> exists g' s2 rs',
  scavenge_roots s1 rs = Some (s2, rs') /\ Inv g' D s2 /\ Ext ∅ g s1 g' s2 /\ Forall2 (done_word objs b (phi g') (stalled s2)) rs rs'.
Proof.
  induction rs as [|w rs IH]; intros g D s1 Hi Hin; cbn [scavenge_roots].
  - exists g, s1, []. split_and!; [done|done|apply ext_refl|constructor].
  - destruct (root_live w (Hin w ltac:(left))) as [Hv Hl].
    destruct (scavenge_oop_ok _ _ _ _ _ _ _ _ (h_wf Hok) _ g D s1 w Hi Hv Hl) as (g1 & s2 & w' & -> & Hi1 & He1 & Hd). cbn [mbind option_bind].
    destruct (IH g1 D s2 Hi1) as (g2 & s3 & rs' & -> & Hi2 & He2 & Hrs); [intros; apply Hin; by right|]. cbn [mbind option_bind].
    exists g2, s3, (w' :: rs'). pose proof (ext_trans _ _ _ _ _ _ _ _ _ _ He1 He2) as He. rewrite (left_id_L ∅ (∪)) in He.
    split_and!; [done|done|done|]. constructor; [|done]. eapply done_word_mono; [exact He2|exact Hi2|exact Hd].
Qed.
(** The state when the Cheney loop is over. *)
Record complete (g : ghost) (s1 : gcstate) : Prop := {
  c_inv : exists D, Inv g D s1;
  c_stall : stalled s1 = false;
  c_slots : forall a p s i w, Home g (a, p) -> objs !! a = Some s -> i ∈ oop_slots s -> M0 !! body_addr a i = Some w ->
    mem s1 !! body_addr p i = Some (reloc (phi g) w) /\ settled objs b (phi g) w;
  c_other : forall a p s i, Home g (a, p) -> objs !! a = Some s -> -1 <= i < size_words s - 2 -> i ∉ oop_slots s ->
    mem s1 !! body_addr p i = M0 !! body_addr a i }.

Lemma done_words_settled f rs rs' : Forall2 (done_word objs b f false) rs rs' -> rs' = map (reloc f) rs /\ Forall (settled objs b f) rs.
Proof. induction 1 as [|w w' rs rs' [[-> Hs]|[? _]] _ [-> IH]]; [done| |done]. split; [done|by constructor]. Qed.

Lemma take_stall_ok g D s1 : Inv g D s1 -> stalled s1 = true -> exists e s2, take_stall s1 = Some (Stalled e s2) /\ promotion_guarantee_met st = false.
Proof.
  intros Hi Hst. unfold take_stall, stalled in *. destruct (pending_stall s1) as [e|] eqn:Hp; [|done]. cbn [mbind option_bind].
  exists e, (with_stall s1 None). split; [done|]. destruct (promotion_guarantee_met st) eqn:E; [|done]. destruct (i_room _ _ _ _ _ _ _ _ _ _ _ _ Hi E). congruence.
Qed.

Lemma old_home_iff g D s1 a : Inv g D s1 -> (exists p, Home g (a, p) /\ OS b <= a) <-> a ∈ olds.
Proof.
  intros Hi. split.
  - intros (p & Hh & Ha). apply (wf_olds _ _ _ _ _ _ _ (h_wf Hok)). split; [|done]. by eapply (home_obj _ _ _ _ _ _ _ _ (h_wf Hok)).
  - intros Ha. exists a. split; [by apply old_home|]. by apply (wf_olds _ _ _ _ _ _ _ (h_wf Hok)).
Qed.

Lemma complete_intro g D s1 : Inv g D s1 -> stalled s1 = false ->
  (forall a p s, (a, p) ∈ tl g ++ ol g -> objs !! a = Some s -> slots_of p s ⊆ D) ->
  (forall a s i w, a ∈ olds -> objs !! a = Some s -> i ∈ oop_slots s -> M0 !! body_addr a i = Some w -> new_word b w -> body_addr a i ∈ D) ->
  complete g s1.
Proof.
  intros Hi Hst Hsc Hcards. pose proof (h_wf Hok) as Hwf. split; [by exists D|done| |].
  - intros a p s i w Hh Hs Hin Hw. pose proof (oop_slots_range _ _ _ _ _ _ _ Hwf a s i Hs Hin) as Hr.
    destruct (i_home _ _ _ _ _ _ _ _ _ _ _ _ Hi a p s i Hh Hs Hr) as (w0 & w1 & H1 & H2 & H3). rewrite Hw in H1. injection H1 as <-.
    case_decide as HD; [destruct H3 as [[-> ?]|[Ht _]]; [done|congruence]|]. subst w1.
    assert (Ha : a ∈ olds /\ p = a).
    { unfold home, old_homes in Hh. rewrite elem_of_app in Hh. destruct Hh as [Hh|[Hh|Hh]].
      - destruct HD. eapply (Hsc a p s); [apply elem_of_app; by left|done|]. apply elem_of_slots_of. by exists i.
      - apply list_elem_of_fmap in Hh as (x & [= -> ->] & Hx). done.
      - destruct HD. eapply (Hsc a p s); [apply elem_of_app; by right|done|]. apply elem_of_slots_of. by exists i. }
    destruct Ha as [Ha ->]. assert (Hn : ~ new_word b w) by (intros Hn; by apply HD, (Hcards a s i w)). unfold reloc, settled, new_word in *.
    destruct (Oop.is_mem w) eqn:Hm; [|done]. destruct (phi g !! Oop.mem_addr w) as [q|] eqn:E.
    + apply (i_phi _ _ _ _ _ _ _ _ _ _ _ _ Hi) in E. destruct (i_young _ _ _ _ _ _ _ _ _ _ _ _ Hi _ _ E) as [[_ Hlt] _]. by destruct Hn.
    + split; [done|]. intros _ [_ Hlt]. by destruct Hn.
  - intros a p s i Hh Hs Hr Hni. destruct (i_home _ _ _ _ _ _ _ _ _ _ _ _ Hi a p s i Hh Hs Hr) as (w0 & w1 & H1 & H2 & H3). rewrite H1, H2.
    rewrite decide_False in H3; [by subst|]. intros HD. destruct (i_done _ _ _ _ _ _ _ _ _ _ _ _ Hi _ HD) as (a' & p' & s' & j & Hh' & Hs' & Hj & He).
    pose proof (oop_slots_range _ _ _ _ _ _ _ Hwf a' s' j Hs' Hj).
    destruct (slot_inj _ _ _ _ _ _ _ _ Hwf _ g D s1 a p s i a' p' s' j Hi Hh Hs ltac:(lia) Hh' Hs' ltac:(lia) He) as [[= -> ->] ->]. rewrite Hs in Hs'. by injection Hs' as <-.
Qed.

(** The whole cycle up to the swap. *)
Lemma cycle_ok : exists r, scavenge st roots code_roots = Some r /\
  ((exists e s1, r = Stalled e s1 /\ promotion_guarantee_met st = false) \/
   (exists g s1 s2, complete g s1 /\ finish s1 = Some s2 /\ r = Scavenged s2 (map (reloc (phi g)) roots) (map (reloc (phi g)) code_roots) /\
      Forall (settled objs b (phi g)) (roots ++ code_roots))).
Proof.
  pose proof (h_wf Hok) as Hwf. unfold scavenge. fold started.
  change (with_to_top _ _) with started.
  destruct (scavenge_roots_ok roots _ _ _ started_inv ltac:(intros; apply elem_of_app; by left)) as (g1 & s1 & r1 & -> & Hi1 & He1 & Hr1).
  cbn [mbind option_bind].
  assert (Htop0 : OldGen.tiled (OS b) (map (place objs) (same olds)) (OldGen.top (old st))).
  { pose proof (OldGen.i_tiled _ _ (h_old Hok)) as Ht. cbn in Ht. unfold same. rewrite map_map. exact Ht. }
  destruct (dirty_card_scan_ok _ _ _ _ _ _ _ _ Hwf _ reachable_closed _ Htop0 g1 s1 Hi1) as (g2 & D2 & s2 & -> & Hi2 & [L2 He2] & Hon & Hall).
  cbn [mbind option_bind].
  destruct (scavenge_roots_ok code_roots _ _ _ Hi2 ltac:(intros; apply elem_of_app; by right)) as (g3 & s3 & r3 & -> & Hi3 & He3 & Hr3).
  cbn [mbind option_bind]. destruct (stalled s3) eqn:Hst3.
  { destruct (take_stall_ok _ _ _ Hi3 Hst3) as (e & s4 & Ht & Hp). unfold stalled in Hst3. destruct (pending_stall s3); [|done]. rewrite Ht.
    eexists. split; [done|]. left. by exists e, s4. }
  assert (Hnone : pending_stall s3 = None) by (unfold stalled in Hst3; by destruct (pending_stall s3)). rewrite Hnone.
  pose proof (i_static _ _ _ _ _ _ _ _ _ _ _ _ Hi3) as (_ & Hts & Hte & _). rewrite Hts.
  assert (Hl : loop M0 objs olds b (layout st) ts te st reachable g3 D2 s3 [] (tl g3) [] (ol g3) ts (OldGen.top (old st))).
  { split; try done; [by rewrite app_nil_r|by intros a p s ?%elem_of_nil|]. intros a p s Hin Hs i Hir HD.
    destruct (Hon _ HD) as (a' & s' & j & Ha' & Hs' & Hj & He). destruct (i_young _ _ _ _ _ _ _ _ _ _ _ _ Hi3 _ _ Hin) as [[_ Hlt] _].
    pose proof (oop_slots_range _ _ _ _ _ _ _ Hwf a s i Hs Hir). pose proof (oop_slots_range _ _ _ _ _ _ _ Hwf a' s' j Hs' Hj).
    assert (Hh : Home g3 (a, p)) by (unfold home, old_homes; rewrite !elem_of_app in *; tauto).
    destruct (slot_inj _ _ _ _ _ _ _ _ Hwf _ g3 D2 s3 a p s i a' a' s' j Hi3 Hh Hs ltac:(lia) (old_home _ _ _ Ha') Hs' ltac:(lia) He) as [[= -> ->] _].
    apply (wf_olds _ _ _ _ _ _ _ Hwf) in Ha' as [_ ?]. lia. }
  destruct (cheney_ok _ _ _ _ _ _ _ _ Hwf _ reachable_closed (cheney_fuel s3 (OldGen.top (old st))) _ _ _ _ _ _ _ _ _ Hl)
    as (g4 & D4 & r4 & -> & [L4 He4] & HD & Hr4).
  { unfold cheney_fuel. rewrite Hts, Hte. pose proof (Z.div_mod (te - ts + (OldGen.committed_end (old s3) - OldGen.top (old st))) 8).
    pose proof (OldGen.i_top _ _ (i_old _ _ _ _ _ _ _ _ _ _ _ _ Hi3)) as Ht3. cbn in Ht3. destruct (wf_to _ _ _ _ _ _ _ Hwf) as [Ht0 _].
    pose proof (OldGen.i_tiled _ _ (i_old _ _ _ _ _ _ _ _ _ _ _ _ Hi3)) as Ho. cbn in Ho. unfold old_homes in Ho. rewrite map_app in Ho.
    apply tiled_split in Ho as (m & H1 & H2). rewrite (tiled_fun _ _ _ _ H1 Htop0) in H2. apply OldGen.tiled_bounds in H2 as (? & _).
    assert (0 <= (te - ts + (OldGen.committed_end (old s3) - OldGen.top (old st))) / 8) by (apply Z.div_pos; lia).
    pose proof (Z.mod_pos_bound (te - ts + (OldGen.committed_end (old s3) - OldGen.top (old st))) 8 ltac:(lia)). lia. }
  cbn [mbind option_bind]. destruct r4 as [s4|s4].
  - destruct Hr4 as [Hi4 Hst4]. destruct (take_stall_ok _ _ _ Hi4 Hst4) as (e & s5 & -> & Hp). eexists. split; [done|]. left. by exists e, s5.
  - destruct Hr4 as (Hi4 & Hst4 & Hsc). pose proof (i_static _ _ _ _ _ _ _ _ _ _ _ _ Hi4) as (_ & _ & _ & _ & _ & _ & _ & Hage).
    destruct (threshold_total (age_table s4) (Spaces.s_end (to s4) - Spaces.s_start (to s4)) Hage) as [thr Hthr].
    assert (Hf : exists s5, finish s4 = Some s5) by (unfold finish; rewrite Hthr; by eexists). destruct Hf as [s5 Hf]. rewrite Hf. cbn [mbind option_bind].
    pose proof (ext_trans _ _ _ _ _ _ _ _ _ _ He3 He4) as He34. pose proof (ext_trans _ _ _ _ _ _ _ _ _ _ He2 He34) as He24.
    assert (H1 : Forall2 (done_word objs b (phi g4) false) roots r1).
    { rewrite <- Hst4. eapply Forall2_impl; [exact Hr1|]. intros w w' Hw. eapply done_word_mono; [exact He24|exact Hi4|exact Hw]. }
    assert (H3 : Forall2 (done_word objs b (phi g4) false) code_roots r3).
    { rewrite <- Hst4. rewrite <- Hst3 in Hr3. eapply Forall2_impl; [exact Hr3|]. intros w w' Hw. eapply done_word_mono; [exact He4|exact Hi4|exact Hw]. }
    destruct (done_words_settled _ _ _ H1) as [-> S1]. destruct (done_words_settled _ _ _ H3) as [-> S3].
    eexists. split; [reflexivity|]. right. exists g4, s4, s5. split_and!; [|done|done|by apply Forall_app].
    apply (complete_intro g4 D4 s4 Hi4 Hst4); [exact Hsc|]. intros a s i w Ha Hs Hi Hw Hn. apply HD. by eapply Hall.
Qed.
(** ** The objects afterwards *)
(** Where object [a] ends up under the relocation [f]. *)
Definition placed (f : gmap Z Z) (a p : Z) : Prop := f !! a = Some p \/ (a ∈ olds /\ p = a).

(** Words: an oop slot is relocated, any other word copied; the mark is the
    old one, older by one in a survivor. *)
Definition word_after (f : gmap Z Z) (s : shape) (i w : Z) : Z := if decide (i ∈ oop_slots s) then reloc f w else w.

Section complete.
Context (g : ghost) (s1 : gcstate) (Hc : complete g s1).
#[local] Abbreviation f := (phi g).

Lemma placed_home a p : placed f a p <-> Home g (a, p).
Proof.
  destruct (c_inv _ _ Hc) as [D Hi]. unfold placed, home, old_homes. rewrite (i_phi _ _ _ _ _ _ _ _ _ _ _ _ Hi), !elem_of_app.
  assert (Hs : (a, p) ∈ map (fun x => (x, x)) olds <-> a ∈ olds /\ p = a).
  { split; [by intros (x & [= -> ->] & Hx)%list_elem_of_fmap|]. intros [Ha ->]. apply list_elem_of_fmap. by exists a. }
  rewrite Hs. tauto.
Qed.

Lemma reachable_young a : reachable a -> is_young objs b a.
Proof. by intros []. Qed.

Lemma relocated_iff a : Forall (settled objs b f) (roots ++ code_roots) -> is_Some (f !! a) <-> reachable a.
Proof.
  intros Hset. destruct (c_inv _ _ Hc) as [D Hi]. split.
  - intros [p Hp]. apply (i_phi _ _ _ _ _ _ _ _ _ _ _ _ Hi) in Hp. by eapply (i_young _ _ _ _ _ _ _ _ _ _ _ _ Hi).
  - induction 1 as [w Hw Hm Hy|a s i w Ha Hs Hin Hw Hm Hy|a s i w _ IH Hs Hin Hw Hm Hy].
    + rewrite Forall_forall in Hset. by apply (Hset w Hw).
    + by apply (c_slots _ _ Hc a a s i w (old_home _ _ _ Ha) Hs Hin Hw).
    + destruct IH as [p Hp]. apply (c_slots _ _ Hc a p s i w); try done. apply placed_home. by left.
Qed.

Lemma words_after a p s i w : placed f a p -> objs !! a = Some s -> -1 <= i < size_words s - 2 -> M0 !! body_addr a i = Some w ->
  mem s1 !! body_addr p i = Some (word_after f s i w).
Proof.
  intros Hh%placed_home Hs Hr Hw. unfold word_after. case_decide as Hin; [by apply (c_slots _ _ Hc a p s i w)|].
  by rewrite (c_other _ _ Hc a p s i Hh Hs Hr Hin).
Qed.
(** *** The heap the next scavenge finds *)
Definition homes_of : list (Z * Z) := tl g ++ old_homes olds g.
Definition objs_after : gmap Z shape := list_to_map (omap (fun e => (fun s => (e.2, s)) <$> objs !! e.1) homes_of).
Definition olds_after : list Z := map snd (old_homes olds g).

Lemma elem_of_homes_of e : e ∈ homes_of <-> Home g e.
Proof. unfold homes_of, home. by rewrite elem_of_app. Qed.

Lemma home_unique a a' p : Home g (a, p) -> Home g (a', p) -> a = a'.
Proof.
  intros H1 H2. destruct (c_inv _ _ Hc) as [D Hi]. destruct (decide (a = a')) as [|Hne]; [done|]. pose proof (h_wf Hok) as Hwf.
  destruct (bytes_pos _ _ _ _ _ _ _ Hwf a (home_obj _ _ _ _ _ _ _ _ Hwf _ _ _ _ _ _ Hi H1)).
  destruct (bytes_pos _ _ _ _ _ _ _ Hwf a' (home_obj _ _ _ _ _ _ _ _ Hwf _ _ _ _ _ _ Hi H2)).
  destruct (homes_apart _ _ _ _ _ _ _ _ Hwf _ _ _ _ a p a' p Hi H1 H2); [congruence|lia|lia].
Qed.

Lemma objs_after_spec p s : objs_after !! p = Some s <-> exists a, Home g (a, p) /\ objs !! a = Some s.
Proof.
  unfold objs_after. set (l := omap _ homes_of).
  assert (Hl : forall p s, (p, s) ∈ l <-> exists a, Home g (a, p) /\ objs !! a = Some s).
  { intros q t. unfold l. rewrite list_elem_of_omap. split.
    - intros ([a p'] & Hin & Ha). apply elem_of_homes_of in Hin. cbn [fst snd] in Ha. destruct (objs !! a) eqn:E; [|done].
      injection Ha as -> ->. by exists a.
    - intros (a & Hh & Ha). exists (a, q). split; [by apply elem_of_homes_of|]. cbn [fst snd]. by rewrite Ha. }
  rewrite <- Hl. split; [apply elem_of_list_to_map_2|]. intros Hin. apply elem_of_list_to_map_1'; [|done]. intros t Ht.
  apply Hl in Hin as (a & Hh & Ha), Ht as (a' & Hh' & Ha'). rewrite (home_unique _ _ _ Hh Hh') in Ha. congruence.
Qed.

Lemma bytes_after a p : Home g (a, p) -> bytes objs_after p = bytes objs a.
Proof.
  intros Hh. destruct (c_inv _ _ Hc) as [D Hi]. destruct (home_obj _ _ _ _ _ _ _ _ (h_wf Hok) _ _ _ _ _ _ Hi Hh) as [s Hs]. unfold bytes. rewrite Hs.
  by rewrite (proj2 (objs_after_spec p s)) by (by exists a).
Qed.

Lemma home_young a p : Home g (a, p) -> p < OS b -> (a, p) ∈ tl g /\ ts <= p /\ p + bytes objs a <= Spaces.s_top (to s1) /\ p mod 8 = 0.
Proof.
  intros [Hh|Hh] Hlt; destruct (c_inv _ _ Hc) as [D Hi].
  - split; [done|]. pose proof (home_tl _ _ _ _ _ _ _ _ (h_wf Hok) _ _ _ _ _ _ Hi Hh). tauto.
  - pose proof (home_old _ _ _ _ _ _ _ _ (h_wf Hok) _ _ _ _ _ _ Hi Hh). lia.
Qed.

Lemma reloc_valid w : valid objs w -> settled objs b f w -> valid objs_after (reloc f w).
Proof.
  intros [Hraw Hv] Hs. destruct (c_inv _ _ Hc) as [D Hi]. unfold reloc, settled in *. destruct (Oop.is_mem w) eqn:Hm; [|split; [done|by rewrite Hm]].
  specialize (Hv eq_refl). specialize (Hs eq_refl). assert (Hin : forall a q, Home g (a, q) -> is_Some (objs_after !! q)).
  { intros a q Hh. destruct (home_obj _ _ _ _ _ _ _ _ (h_wf Hok) _ _ _ _ _ _ Hi Hh) as [t Ht]. exists t. apply objs_after_spec. by exists a. }
  destruct (f !! Oop.mem_addr w) as [q|] eqn:E.
  - destruct (aligned_mem q (phi_aligned _ _ _ _ _ _ _ _ (h_wf Hok) _ _ _ _ _ _ Hi E)) as (H1 & H2 & _ & H3). split; [done|]. intros _. rewrite H3.
    eapply Hin. apply placed_home. by left.
  - split; [done|]. intros _. eapply (Hin (Oop.mem_addr w)), old_home, (wf_olds _ _ _ _ _ _ _ (h_wf Hok)). split; [done|].
    destruct (decide (OS b <= Oop.mem_addr w)); [done|]. destruct Hs; [|done]. split; [done|lia].
Qed.

(** The klass of an object, after. *)
Lemma klass_after a p s : Home g (a, p) -> objs !! a = Some s -> exists kp ks, mem s1 !! body_addr p (-1) = Some (oop_of kp) /\
  Oop.is_mem (oop_of kp) = true /\ objs_after !! kp = Some ks /\ 4 <= size_words ks /\ shape_with (mem s1) p kp = Some s /\
  klass_of_oop (mem s1) (oop_of kp) = Some kp.
Proof.
  intros Hh Hs. pose proof (h_wf Hok) as Hwf. destruct (c_inv _ _ Hc) as [D Hi].
  destruct (wf_klass _ _ _ _ _ _ _ Hwf a s Hs) as (k & ks & Hk & Hm & Hks & H4 & Hsh & Hko).
  destruct (c_slots _ _ Hc a p s (-1) _ Hh Hs ltac:(left) Hk) as [Hw Hset]. unfold reloc, settled in *. rewrite Hm in *. specialize (Hset eq_refl).
  replace (Oop.mem_addr (oop_of k)) with k in * by (unfold oop_of, Oop.mem_addr; lia).
  assert (Hkp : exists kp, mem s1 !! body_addr p (-1) = Some (oop_of kp) /\ Home g (k, kp)).
  { destruct (f !! k) as [kp|] eqn:E; [exists kp; split; [done|]; apply placed_home; by left|]. exists k. split; [done|]. apply old_home, (wf_olds _ _ _ _ _ _ _ Hwf).
    split; [by eexists|]. destruct (decide (OS b <= k)); [done|]. destruct Hset; [|done]. split; [by eexists|lia]. }
  destruct Hkp as (kp & Hw' & Hhk). pose proof (home_loc _ _ _ _ _ _ _ _ Hwf _ _ _ _ _ _ Hi Hhk) as Hlk.
  destruct (is_klass_shape _ _ _ _ _ _ _ _ Hwf _ g D s1 a p s kp Hi Hs (home_loc _ _ _ _ _ _ _ _ Hwf _ _ _ _ _ _ Hi Hh)) as [H1 H2]; [by exists k, ks|].
  exists kp, ks. split_and!; try done; [by eapply loc_mem|]. apply objs_after_spec. by exists k.
Qed.
Lemma elem_of_olds_after p : p ∈ olds_after <-> exists a, Home g (a, p) /\ OS b <= p.
Proof.
  destruct (c_inv _ _ Hc) as [D Hi]. unfold olds_after. split.
  - intros ([a q] & -> & Hin)%list_elem_of_fmap. exists a. split; [by right|]. pose proof (home_old _ _ _ _ _ _ _ _ (h_wf Hok) _ _ _ _ _ _ Hi Hin). cbn. lia.
  - intros (a & [Hh|Hh] & Hge); [|apply list_elem_of_fmap; by exists (a, p)]. destruct (bytes_pos _ _ _ _ _ _ _ (h_wf Hok) a).
    { eapply (home_obj _ _ _ _ _ _ _ _ (h_wf Hok) _ _ _ _ _ _ Hi). by left. }
    pose proof (home_tl _ _ _ _ _ _ _ _ (h_wf Hok) _ _ _ _ _ _ Hi Hh). pose proof (i_static _ _ _ _ _ _ _ _ _ _ _ _ Hi) as (_ & _ & _ & ? & _).
    pose proof (wf_to _ _ _ _ _ _ _ (h_wf Hok)). lia.
Qed.

Lemma bytes_nonneg_after p s : objs_after !! p = Some s -> 0 <= bytes objs_after p.
Proof.
  destruct (c_inv _ _ Hc) as [D Hi]. intros (a & Hh & _)%objs_after_spec. rewrite (bytes_after a p Hh).
  destruct (bytes_pos _ _ _ _ _ _ _ (h_wf Hok) a (home_obj _ _ _ _ _ _ _ _ (h_wf Hok) _ _ _ _ _ _ Hi Hh)). lia.
Qed.
Lemma wf_after : heap_wf (mem s1) objs_after olds_after b (layout st) (Spaces.s_start (from st)) (Spaces.s_end (from st)).
Proof.
  pose proof (h_wf Hok) as Hwf. destruct (c_inv _ _ Hc) as [D Hi]. destruct (h_from Hok) as (F1 & F2 & F3).
  assert (Hyoung : forall p s, objs_after !! p = Some s -> p < OS b -> exists a, (a, p) ∈ tl g /\ objs !! a = Some s /\
    p mod 8 = 0 /\ ts <= p /\ p + bytes objs_after p <= te).
  { intros p s (a & Hh & Hs)%objs_after_spec Hlt. destruct (home_young a p Hh Hlt) as (Hin & H1 & H2 & H3).
    rewrite (bytes_after a p Hh). pose proof (i_static _ _ _ _ _ _ _ _ _ _ _ _ Hi) as (_ & _ & _ & ? & _). exists a. split_and!; try done. lia. }
  pose proof (wf_layout _ _ _ _ _ _ _ Hwf) as (L1 & L2 & L3 & L4 & L5). pose proof (wf_to _ _ _ _ _ _ _ Hwf) as (T1 & T2).
  split.
  - by split_and!.
  - lia.
  - intros p. rewrite elem_of_olds_after. split.
    + intros (a & Hh & Hge). split; [|done]. destruct (home_obj _ _ _ _ _ _ _ _ Hwf _ _ _ _ _ _ Hi Hh) as [s Hs]. exists s. apply objs_after_spec. by exists a.
    + intros ([s (a & Hh & _)%objs_after_spec] & Hge). by exists a.
  - intros p s i (a & Hh & Hs)%objs_after_spec Hr. destruct (decide (i = -2)) as [->|Hne].
    + destruct (i_mark_home _ _ _ _ _ _ _ _ _ _ _ _ Hi a p Hh) as (mk & _ & Hmk). rewrite body_addr_eq. replace (p + 16 + 8 * -2) with p by lia. rewrite Hmk. by eexists.
    + destruct (i_home _ _ _ _ _ _ _ _ _ _ _ _ Hi a p s i Hh Hs ltac:(lia)) as (w0 & w & _ & Hw & _). by exists w.
  - intros p s (a & Hh & Hs)%objs_after_spec. destruct (i_mark_home _ _ _ _ _ _ _ _ _ _ _ _ Hi a p Hh) as (mk & Hmk0 & Hmk).
    destruct (wf_mark _ _ _ _ _ _ _ Hwf a s Hs) as (mk' & E & Hf). rewrite Hmk0 in E. injection E as <-.
    eexists. split; [exact Hmk|]. case_decide; [by apply older_mark|done].
  - intros p s (a & Hh & Hs)%objs_after_spec. destruct (klass_after a p s Hh Hs) as (kp & ks & ?). by exists kp, ks.
  - intros p s i w (a & Hh & Hs)%objs_after_spec Hin Hw. assert (Hin' : i ∈ oop_slots s) by (by right).
    pose proof (oop_slots_range _ _ _ _ _ _ _ Hwf a s i Hs Hin') as Hr. destruct (wf_words _ _ _ _ _ _ _ Hwf a s i Hs ltac:(lia)) as [w0 Hw0].
    destruct (c_slots _ _ Hc a p s i w0 Hh Hs Hin' Hw0) as [Hw' Hset]. rewrite Hw in Hw'. injection Hw' as ->.
    apply reloc_valid; [by eapply (wf_slots _ _ _ _ _ _ _ Hwf)|done].
  - intros p s Hs Hlt. pose proof (bytes_nonneg_after p s Hs). destruct (Hyoung p s Hs Hlt) as (a & _ & _ & H8 & Hge & Hle). pose proof (h_disjoint Hok). split_and!; [done|lia|lia|lia].
  - intros p p' [[s Hs] Hlt] [[s' Hs'] Hlt'] Hne. apply objs_after_spec in Hs as (a & Hh & Hs), Hs' as (a' & Hh' & Hs').
    rewrite (bytes_after a p Hh), (bytes_after a' p' Hh'). eapply (homes_apart _ _ _ _ _ _ _ _ Hwf _ g D s1 a p a' p' Hi Hh Hh'). congruence.
  - intros p s (a & Hh & Hs)%objs_after_spec. rewrite (bytes_after a p Hh). by eapply (wf_small _ _ _ _ _ _ _ Hwf).
Qed.

Lemma heap_after s2 : finish s1 = Some s2 -> mem s2 = mem s1 /\ OldGen.bounds (old s2) = b /\
  from s2 = to s1 /\ to s2 = Spaces.reset (from st) /\ eden s2 = Spaces.reset (eden st) /\
  heap_wf (mem s2) objs_after olds_after b (layout s2) (Spaces.s_start (to s2)) (Spaces.s_end (to s2)) /\ old s2 = old s1 /\ offsets s2 = offsets s1 /\
  cards s2 = cards s1 /\ pending_stall s2 = pending_stall s1.
Proof.
  destruct (c_inv _ _ Hc) as [D Hi]. pose proof (i_static _ _ _ _ _ _ _ _ _ _ _ _ Hi) as (Hlay & Hts & Hte & Htop & Hed & Hfr & _).
  unfold finish. destruct (AgeTable.compute_threshold _ _); [|done]. cbn [mbind option_bind]. intros [= <-]. cbn. rewrite Hfr, Hed, Hlay.
  split_and!; try done; [|apply wf_after]. apply (OldGen.i_bounds _ _ (i_old _ _ _ _ _ _ _ _ _ _ _ _ Hi)).
Qed.
Lemma remembered_after p s i w : p ∈ olds_after -> objs_after !! p = Some s -> i ∈ oop_slots s -> mem s1 !! body_addr p i = Some w -> new_word b w ->
  Cards.is_dirty (cards s1) (card_of b (body_addr p i)) = Some true.
Proof.
  intros Hin (a & Hh & Hs)%objs_after_spec Hi' Hw Hnew. apply elem_of_olds_after in Hin as (_ & _ & Hge). destruct (c_inv _ _ Hc) as [D Hi].
  pose proof (h_wf Hok) as Hwf. pose proof (oop_slots_range _ _ _ _ _ _ _ Hwf a s i Hs Hi') as Hr. destruct (obj_shape _ _ _ _ _ _ _ Hwf a s Hs) as (_ & _ & _ & Hb).
  destruct Hh as [Hh|Hh].
  { pose proof (home_tl _ _ _ _ _ _ _ _ Hwf _ _ _ _ _ _ Hi Hh) as Ht. pose proof (wf_to _ _ _ _ _ _ _ Hwf).
    pose proof (i_static _ _ _ _ _ _ _ _ _ _ _ _ Hi) as (_ & _ & _ & ? & _). lia. }
  pose proof (home_old _ _ _ _ _ _ _ _ Hwf _ _ _ _ _ _ Hi Hh) as Ho. pose proof (OldGen.i_top _ _ (i_old _ _ _ _ _ _ _ _ _ _ _ _ Hi)) as Htop. cbn in Htop.
  unfold old_homes in Hh. apply elem_of_app in Hh as [Hh|Hh].
  - apply list_elem_of_fmap in Hh as (x & [= -> ->] & Hx). by eapply (i_rs _ _ _ _ _ _ _ _ _ _ _ _ Hi x s i w).
  - destruct (i_cards _ _ _ _ _ _ _ _ _ _ _ _ Hi) as [(H1 & H2 & _) Hd]. rewrite body_addr_eq in *.
    pose proof (Cards.cards_for_covers b (p + 16 + 8 * i) ltac:(unfold OS in *; lia)) as Hcf. unfold card_of, OS in *.
    assert (0 <= (p + 16 + 8 * i - Geometry.b_start b) / 512) by (apply Z.div_pos; lia).
    apply (Hd a p); [done|rewrite H2; lia| |]; rewrite Cards.card_base_eq, H1; Z.div_mod_to_equations; lia.
Qed.

End complete.
End cycle.

Lemma heap_ok_after st objs olds roots code_roots g s1 s2 : heap_ok st objs olds -> complete st objs olds roots code_roots g s1 ->
  finish s1 = Some s2 -> heap_ok s2 (objs_after objs olds g) (olds_after olds g).
Proof.
  intros Hok Hc Hf. destruct (heap_after _ _ _ _ _ Hok _ _ Hc s2 Hf) as (Hm & Hb & Hfr & Hto & _ & Hwf' & Ho & Hof & Hcs & Hps). destruct (c_inv _ _ _ _ _ _ _ Hc) as [D Hi]. pose proof (h_wf _ _ _ Hok) as Hwf.
  pose proof (i_static _ _ _ _ _ _ _ _ _ _ _ _ Hi) as (_ & Hts & Hte & _). pose proof (wf_to _ _ _ _ _ _ _ Hwf) as (T1 & T2).
  split; rewrite ?Hb, ?Hm, ?Hfr, ?Hto, ?Hcs, ?Hts, ?Hte.
  - rewrite Hm, Hto in Hwf'. exact Hwf'.
  - split_and!; try lia. apply (wf_layout _ _ _ _ _ _ _ Hwf).
  - cbn. pose proof (h_disjoint _ _ _ Hok). lia.
  - rewrite Ho, Hof. unfold olds_after. rewrite map_map. pose proof (i_old _ _ _ _ _ _ _ _ _ _ _ _ Hi) as Hold.
    erewrite map_ext_in; [exact Hold|]. intros [a p] Hin%list_elem_of_In. unfold place. cbn. f_equal. apply (bytes_after _ _ _ _ _ Hok _ _ Hc). by right.
  - apply (i_cards _ _ _ _ _ _ _ _ _ _ _ _ Hi).
  - intros p s i w Hin Hs Hi' Hw Hn. by eapply remembered_after.
  - rewrite Hps. pose proof (c_stall _ _ _ _ _ _ _ Hc) as Hst. unfold stalled in Hst. by destruct (pending_stall s1).
Qed.

Lemma young_ok_after st objs edens froms olds roots code_roots g s1 s2 : heap_ok st objs olds -> young_ok st objs edens froms ->
  complete st objs olds roots code_roots g s1 -> finish s1 = Some s2 -> young_ok s2 (objs_after objs olds g) [] (map snd (tl g)).
Proof.
  intros Hok Hy Hc Hf. destruct (heap_after _ _ _ _ _ Hok _ _ Hc s2 Hf) as (Hm & Hb & Hfr & Hto & Hed & _). destruct (c_inv _ _ _ _ _ _ _ Hc) as [D Hi].
  pose proof (h_wf _ _ _ Hok) as Hwf. pose proof (i_static _ _ _ _ _ _ _ _ _ _ _ _ Hi) as (_ & Hts & Hte & Htop & _).
  destruct Hy as [Y1 Y2 Y3 Y4 Y5 Y6 Y7]. split; rewrite ?Hb, ?Hm, ?Hfr, ?Hto, ?Hed, ?Hts.
  - done.
  - rewrite map_map. pose proof (i_to _ _ _ _ _ _ _ _ _ _ _ _ Hi) as Ht. erewrite map_ext_in; [exact Ht|]. intros [a p] Hin%list_elem_of_In.
    unfold place. cbn. f_equal. apply (bytes_after _ _ _ _ _ Hok _ _ Hc). by left.
  - intros p. cbn [app]. split.
    + intros [[s Hs] Hlt]. apply (objs_after_spec _ _ _ _ _ Hok _ _ Hc) in Hs as (a & Hh & _).
      destruct (home_young _ _ _ _ _ Hok _ _ Hc a p Hh Hlt) as (Hin & _). apply list_elem_of_fmap. by exists (a, p).
    + intros ([a q] & -> & Hin)%list_elem_of_fmap. cbn [snd]. assert (Hh : home olds g (a, q)) by (by left).
      destruct (home_obj _ _ _ _ _ _ _ _ Hwf _ _ _ _ _ _ Hi Hh) as [s Hs]. split; [exists s; apply (objs_after_spec _ _ _ _ _ Hok _ _ Hc); by exists a|].
      pose proof (home_tl _ _ _ _ _ _ _ _ Hwf _ _ _ _ _ _ Hi Hin). pose proof (bytes_pos _ _ _ _ _ _ _ Hwf a ltac:(by eexists)).
      pose proof (wf_to _ _ _ _ _ _ _ Hwf). unfold OS in *. lia.
  - cbn. rewrite Hte. split_and!; try done; tauto || lia.
  - done.
  - unfold disjoint_spaces in *. cbn. rewrite Hts, Hte. tauto.
  - intros p s mk (a & Hh & Hs)%(objs_after_spec _ _ _ _ _ Hok _ _ Hc) Hmk. destruct (i_mark_home _ _ _ _ _ _ _ _ _ _ _ _ Hi a p Hh) as (k & Hk & Hk').
    rewrite Hmk in Hk'. injection Hk' as ->. case_decide; [rewrite older_gc_mark|]; by eapply Y7.
Qed.

(** C2. A scavenge either stops for want of room — which it never does when
    the promotion guarantee was met — or relocates the live heap: there is a
    map from the young objects reachable from the roots and from the old
    generation, and from no others, to fresh places; every root names the new
    place of what it named; every object, moved or old, holds in each oop
    slot the relocated oop and in every other word what it held before; the
    copies in a survivor space are one collection older, the others keep
    their mark, and no two objects overlap.  The run never reads outside the
    heap, never trips an assertion and terminates. *)
Theorem scavenge_correct st objs olds roots code_roots (Hok : heap_ok st objs olds) (Hg : guaranteed st objs)
    (Hroots : Forall (valid objs) (roots ++ code_roots)) :
  exists r, scavenge st roots code_roots = Some r /\
  match r with
  | Stalled _ _ => promotion_guarantee_met st = false
  | Scavenged st' roots' code_roots' => exists f,
      (forall a, is_Some (f !! a) <-> reachable st objs olds roots code_roots a) /\
      roots' = map (reloc f) roots /\ code_roots' = map (reloc f) code_roots /\
      (forall a p s, placed olds f a p -> objs !! a = Some s ->
         (forall i w, -1 <= i < size_words s - 2 -> mem st !! body_addr a i = Some w ->
            mem st' !! body_addr p i = Some (word_after f s i w)) /\
         (exists mk, mem st !! a = Some mk /\ mem st' !! p = Some (if decide (p < OS (OldGen.bounds (old st))) then older mk else mk)) /\
         (Spaces.s_start (from st') <= p /\ p + bytes objs a <= Spaces.s_top (from st') \/
          OS (OldGen.bounds (old st)) <= p /\ p + bytes objs a <= OldGen.top (old st'))) /\
      (forall a p a' p', placed olds f a p -> placed olds f a' p' -> a <> a' -> p + bytes objs a <= p' \/ p' + bytes objs a' <= p)
  end.
Proof.
  destruct (cycle_ok st objs olds roots code_roots Hok Hg Hroots) as (r & Hr & [(e & s1 & -> & Hp)|(g & s1 & s2 & Hc & Hf & -> & Hset)]); eexists; (split; [exact Hr|]); [done|].
  destruct (heap_after _ _ _ _ _ Hok _ _ Hc _ Hf) as (Hm & _ & Hfr & _ & _ & _ & Ho & _). destruct (c_inv _ _ _ _ _ _ _ Hc) as [D Hi]. pose proof (h_wf _ _ _ Hok) as Hwf.
  exists (phi g). split_and!; [|done|done| |].
  - intros a. by eapply relocated_iff.
  - intros a p s Hpl Hs. rewrite Hm, Hfr, Ho. split_and!.
    + intros i w Hr' Hw. by eapply words_after.
    + eapply (i_mark_home _ _ _ _ _ _ _ _ _ _ _ _ Hi). by eapply placed_home.
    + assert (Hh : home olds g (a, p)) by (by eapply placed_home). destruct Hh as [Hh|Hh]; [left|right].
      * pose proof (home_tl _ _ _ _ _ _ _ _ Hwf _ _ _ _ _ _ Hi Hh). pose proof (i_static _ _ _ _ _ _ _ _ _ _ _ _ Hi) as (_ & -> & _). tauto.
      * pose proof (home_old _ _ _ _ _ _ _ _ Hwf _ _ _ _ _ _ Hi Hh). tauto.
  - intros a p a' p' H1 H2 Hne. eapply (homes_apart _ _ _ _ _ _ _ _ Hwf _ g D s1 a p a' p' Hi); [by eapply placed_home..|congruence].
Qed.

(** C15. A scavenge re-establishes the heap it started from: the objects after
    it are again laid out, tagged and described by their klasses as the next
    scavenge needs, the offset table finds every header of the old generation,
    every old slot that names a young object lies in a dirty card, the roots
    are words that scavenge may be given, the young objects all lie below the
    top of the new from-space, end to end, and eden and the new to-space are
    empty. *)
Theorem scavenge_preserves st objs edens froms olds roots code_roots st' roots' code_roots' (Hok : heap_ok st objs olds)
    (Hy : young_ok st objs edens froms) (Hg : guaranteed st objs)
    (Hroots : Forall (valid objs) (roots ++ code_roots))
    (Hrun : scavenge st roots code_roots = Some (Scavenged st' roots' code_roots')) :
  exists objs' froms' olds', heap_ok st' objs' olds' /\ young_ok st' objs' [] froms' /\
    Forall (valid objs') (roots' ++ code_roots') /\
    eden st' = Spaces.reset (eden st) /\ to st' = Spaces.reset (from st).
Proof.
  destruct (cycle_ok st objs olds roots code_roots Hok Hg Hroots) as (r & Hr & [(e & s1 & -> & Hp)|(g & s1 & s2 & Hc & Hf & -> & Hset)]); rewrite Hrun in Hr; [done|].
  injection Hr as -> -> ->. destruct (heap_after _ _ _ _ _ Hok _ _ Hc _ Hf) as (_ & Hb & Hfr & Hto & Hed & _). destruct (c_inv _ _ _ _ _ _ _ Hc) as [D Hi].
  exists (objs_after objs olds g), (map snd (tl g)), (olds_after olds g). split_and!; [by eapply heap_ok_after|by eapply young_ok_after| |done|done].
  rewrite <- map_app. apply Forall_forall. intros w (w0 & -> & Hw)%list_elem_of_fmap. rewrite Forall_forall in Hroots, Hset.
  eapply reloc_valid; try done; [by apply Hroots|by apply Hset].
Qed.

(** ** A small heap *)
(** The metaclass at 65536 is its own klass; 65568 is a klass of three-word
    objects; 65600 is an old instance whose card is dirty.  In eden, 8192 (of
    age 6) and 8216 name each other and 8240 is garbage. *)
Definition demo_bounds : Geometry.SpaceBounds := Geometry.MkBounds 65536 73728.
Definition demo_objects : list (Z * shape) :=
  [(65536, MkShape Klass 4 0); (65568, MkShape Klass 4 0); (65600, MkShape Slots 3 0);
   (8192, MkShape Slots 3 0); (8216, MkShape Slots 3 0); (8240, MkShape Slots 3 0)].
Definition demo_objs : gmap Z shape := list_to_map demo_objects.
Definition demo_olds : list Z := [65536; 65568; 65600].
Definition demo_words : list (Z * list Z) :=
  let mk := MARK_PRISTINE in
  [(65536, [mk; 65537; 16; 16]); (65568, [mk; 65537; 0; 12]); (65600, [mk; 65569; 8193]);
   (8192, [Mark.with_age mk 6; 65569; 8217]); (8216, [mk; 65569; 8193]); (8240, [mk; 65569; 28])].
Definition demo_mem : memory :=
  list_to_map (mjoin (map (fun e => imap (fun n w => (e.1 + 8 * Z.of_nat n, w)) e.2) demo_words)).
Definition demo_old : option OldGen.state :=
  g ← OldGen.new demo_bounds 69632;
  OldGen.run [OldGen.Alloc 32; OldGen.Alloc 32; OldGen.Alloc 24] (OldGen.MkState g (Offsets.new demo_bounds) []).
Definition demo_start : option gcstate :=
  o ← demo_old;
  cs ← Cards.dirty_for_slot (Cards.new 4096 demo_bounds) 65616;
  let eden := Geometry.MkBounds 8192 65536 in
  Some (MkGC demo_mem (Geometry.MkLayout eden (Geometry.MkBounds 0 4096) (Geometry.MkBounds 4096 8192) demo_bounds 65536)
    (Spaces.MkSpace 8192 8264 65536) (Spaces.MkSpace 0 0 4096) (Spaces.MkSpace 4096 4096 8192)
    (OldGen.gen o) (OldGen.offsets o) cs AgeTable.new 7 true None 0 0).

(** Decides a property of every object of the demo. *)
Lemma demo_forall (P : Z -> shape -> Prop) `{!forall a s, Decision (P a s)} :
  bool_decide (Forall (fun e => P e.1 e.2) demo_objects) = true -> forall a s, demo_objs !! a = Some s -> P a s.
Proof.
  intros Hall%bool_decide_eq_true a s Hs. rewrite Forall_forall in Hall. apply (Hall (a, s)). by apply elem_of_list_to_map_2 in Hs.
Qed.
#[local] Instance shape_eq_dec : EqDecision shape.
Proof. solve_decision. Defined.
#[local] Instance valid_dec w : Decision (valid demo_objs w).
Proof. unfold valid. apply _. Defined.

Definition demo_klass (a : Z) : Z := if decide (a < 65600 /\ 65536 <= a) then 65536 else 65568.

Lemma demo_wf lay : Geometry.old_start lay = 65536 -> heap_wf demo_mem demo_objs demo_olds demo_bounds lay 4096 8192.
Proof.
  intros Hlay. split.
  - rewrite Hlay. split_and!; done.
  - split_and!; done.
  - intros a. split.
    + intros Ha. repeat (apply elem_of_cons in Ha as [->|Ha]); [split; [by eexists|done]..|by apply elem_of_nil in Ha].
    + intros [[s Hs] Hge]. revert Hge. by refine (demo_forall (fun a _ => OS demo_bounds <= a -> a ∈ demo_olds) _ a s Hs).
  - intros a s i Hs Hr. assert (H : Forall (fun i => is_Some (demo_mem !! body_addr a i)) (zrange (-2) (size_words s - 2))).
    { by refine (demo_forall (fun a s => Forall (fun i => is_Some (demo_mem !! body_addr a i)) (zrange (-2) (size_words s - 2))) _ a s Hs). }
    rewrite Forall_forall in H. apply H, elem_of_zrange. lia.
  - intros a s Hs. assert (H : is_Some (demo_mem !! a) /\ demo_mem !! a ≫= Mark.from_word = demo_mem !! a).
    { by refine (demo_forall (fun a _ => is_Some (demo_mem !! a) /\ demo_mem !! a ≫= Mark.from_word = demo_mem !! a) _ a s Hs). }
    destruct H as [[w Hw] H]. rewrite Hw in H. by exists w.
  - intros a s Hs. exists (demo_klass a), (MkShape Klass 4 0). 
    by refine (demo_forall (fun a s => demo_mem !! body_addr a (-1) = Some (oop_of (demo_klass a)) /\ Oop.is_mem (oop_of (demo_klass a)) = true /\
      demo_objs !! demo_klass a = Some (MkShape Klass 4 0) /\ 4 <= 4 /\ shape_with demo_mem a (demo_klass a) = Some s /\
      klass_of_oop demo_mem (oop_of (demo_klass a)) = Some (demo_klass a)) _ a s Hs).
  - intros a s i w Hs Hi Hw. assert (H : Forall (fun i => valid demo_objs (default 0 (demo_mem !! body_addr a i))) (body_slots s)).
    { by refine (demo_forall (fun a s => Forall (fun i => valid demo_objs (default 0 (demo_mem !! body_addr a i))) (body_slots s)) _ a s Hs). }
    rewrite Forall_forall in H. specialize (H i Hi). by rewrite Hw in H.
  - intros a s Hs Hlt. revert Hlt. by refine (demo_forall (fun a _ => a < OS demo_bounds -> a mod 8 = 0 /\ 0 <= a /\
      a + bytes demo_objs a <= OS demo_bounds /\ (a + bytes demo_objs a <= 4096 \/ 8192 <= a)) _ a s Hs).
  - intros a a' [[s Hs] Hlt] [[s' Hs'] Hlt']. revert Hlt Hlt'. assert (H : Forall (fun e => a < OS demo_bounds -> e.1 < OS demo_bounds -> a <> e.1 ->
      a + bytes demo_objs a <= e.1 \/ e.1 + bytes demo_objs e.1 <= a) demo_objects).
    { by refine (demo_forall (fun a _ => Forall (fun e => a < OS demo_bounds -> e.1 < OS demo_bounds -> a <> e.1 ->
      a + bytes demo_objs a <= e.1 \/ e.1 + bytes demo_objs e.1 <= a) demo_objects) _ a s Hs). }
    rewrite Forall_forall in H. apply (H (a', s')). by apply elem_of_list_to_map_2 in Hs'.
  - intros a s Hs. assert (H : bool_decide (Forall (fun e => bytes demo_objs e.1 <= 32) demo_objects) = true) by (vm_compute; reflexivity).
    apply bool_decide_eq_true in H. rewrite Forall_forall in H. apply elem_of_list_to_map_2, H in Hs. cbn [fst] in Hs. lia.
Qed.

Lemma demo_old_ok o : demo_old = Some o -> OldGen.inv demo_bounds o /\ OldGen.objects o = map (fun a => (a, bytes demo_objs a)) demo_olds /\
  OldGen.bounds (OldGen.gen o) = demo_bounds /\ OldGen.committed_end (OldGen.gen o) = 69632 /\ OldGen.top (OldGen.gen o) = 65624.
Proof.
  intros Ho. assert (Hg : exists g, OldGen.new demo_bounds 69632 = Some g) by (vm_compute; by eexists). destruct Hg as [g Hg].
  unfold demo_old in Ho. rewrite Hg in Ho. cbn [mbind option_bind] in Ho.
  destruct (OldGen.run_inv demo_bounds [OldGen.Alloc 32; OldGen.Alloc 32; OldGen.Alloc 24] ltac:(done) eq_refl eq_refl ltac:(repeat constructor; done)
    _ (OldGen.inv_new _ _ _ Hg ltac:(done))) as (o' & Ho' & Hinv). rewrite Ho' in Ho. injection Ho as ->. split; [done|].
  assert (H : (fun o => (OldGen.objects o, OldGen.bounds (OldGen.gen o), OldGen.committed_end (OldGen.gen o), OldGen.top (OldGen.gen o))) <$> demo_old =
    Some (map (fun a => (a, bytes demo_objs a)) demo_olds, demo_bounds, 69632, 65624)) by (vm_compute; reflexivity).
  unfold demo_old in H. rewrite Hg in H. cbn [mbind option_bind] in H. rewrite Ho' in H. by injection H.
Qed.

Lemma demo_ok : exists st, demo_start = Some st /\ heap_ok st demo_objs demo_olds /\ guaranteed st demo_objs /\
  OldGen.bounds (old st) = demo_bounds.
Proof.
  unfold demo_start. assert (Ho : exists o, demo_old = Some o) by (vm_compute; by eexists). destruct Ho as [o Ho]. rewrite Ho. cbn [mbind option_bind].
  destruct (demo_old_ok o Ho) as (Hinv & Hobjs & Hb & Hce & Htop).
  destruct (Cards.dirty_for_slot (Cards.new 4096 demo_bounds) 65616) as [cs|] eqn:Hcs; [|by vm_compute in Hcs]. cbn [mbind option_bind].
  eexists. split; [reflexivity|]. cbn [old]. split_and!; [|intros _; cbn [old]; rewrite Hb, Hce, Htop; by vm_compute|done].
  split; cbn [mem layout eden from to old offsets cards pending_stall]; rewrite ?Hb.
  - by apply demo_wf.
  - by split_and!.
  - by left.
  - rewrite <- Hobjs. by destruct o.
  - vm_compute in Hcs. injection Hcs as <-. done.
  - intros a s i w Ha Hs Hi _ _. assert (Hc : card_of demo_bounds (body_addr a i) = 0).
    { pose proof (oop_slots_range _ _ _ _ _ _ _ (demo_wf (Geometry.MkLayout demo_bounds demo_bounds demo_bounds demo_bounds 65536) eq_refl) a s i Hs Hi) as Hr.
      rewrite body_addr_eq. unfold card_of, OS. change (Geometry.b_start demo_bounds) with 65536. apply Z.div_small.
      repeat (apply elem_of_cons in Ha as [->|Ha]; [vm_compute in Hs; injection Hs as <-; unfold size_words in Hr; cbn in Hr; lia|]). by apply elem_of_nil in Ha. }
    rewrite Hc. vm_compute in Hcs. by injection Hcs as <-.
  - reflexivity.
Qed.

Definition demo_roots : list Z := [8217; 40].
Lemma demo_roots_valid : Forall (valid demo_objs) (demo_roots ++ []).
Proof. apply (bool_decide_unpack _). vm_compute. exact I. Qed.

Lemma scavenge_correct_witness : exists st, demo_start = Some st /\ exists r, scavenge st demo_roots [] = Some r /\
  match r with
  | Stalled _ _ => promotion_guarantee_met st = false
  | Scavenged st' roots' code_roots' => exists f,
      (forall a, is_Some (f !! a) <-> reachable st demo_objs demo_olds demo_roots [] a) /\
      roots' = map (reloc f) demo_roots /\ code_roots' = map (reloc f) [] /\
      (forall a p s, placed demo_olds f a p -> demo_objs !! a = Some s ->
         (forall i w, -1 <= i < size_words s - 2 -> mem st !! body_addr a i = Some w ->
            mem st' !! body_addr p i = Some (word_after f s i w)) /\
         (exists mk, mem st !! a = Some mk /\ mem st' !! p = Some (if decide (p < OS (OldGen.bounds (old st))) then older mk else mk)) /\
         (Spaces.s_start (from st') <= p /\ p + bytes demo_objs a <= Spaces.s_top (from st') \/
          OS (OldGen.bounds (old st)) <= p /\ p + bytes demo_objs a <= OldGen.top (old st'))) /\
      (forall a p a' p', placed demo_olds f a p -> placed demo_olds f a' p' -> a <> a' ->
         p + bytes demo_objs a <= p' \/ p' + bytes demo_objs a' <= p)
  end.
Proof.
  destruct demo_ok as (st & Hst & Hok & Hg & Hb). exists st. split; [exact Hst|].
  apply (scavenge_correct st demo_objs demo_olds demo_roots [] Hok Hg demo_roots_valid).
Defined.

Definition demo_result : option (gcstate * list Z * list Z) :=
  st ← demo_start; r ← scavenge st demo_roots [];
  match r with Stalled _ _ => None | Scavenged st' r c => Some (st', r, c) end.

Lemma demo_young_ok : exists st, demo_start = Some st /\ young_ok st demo_objs [8192; 8216; 8240] [].
Proof.
  unfold demo_start. assert (Ho : exists o, demo_old = Some o) by (vm_compute; by eexists). destruct Ho as [o Ho]. rewrite Ho. cbn [mbind option_bind].
  destruct (demo_old_ok o Ho) as (_ & _ & Hb & _ & _).
  destruct (Cards.dirty_for_slot (Cards.new 4096 demo_bounds) 65616) as [cs|] eqn:Hcs; [|by vm_compute in Hcs]. cbn [mbind option_bind].
  eexists. split; [reflexivity|]. split; cbn [mem layout eden from to old offsets cards pending_stall]; rewrite ?Hb.
  - by split_and!.
  - done.
  - intros a. split.
    + intros [[s Hs] Hlt]. revert Hlt. by refine (demo_forall (fun a _ => a < OS demo_bounds -> a ∈ [8192; 8216; 8240] ++ []) _ a s Hs).
    + intros Ha. repeat (apply elem_of_cons in Ha as [->|Ha]; [split; [by eexists|done]|]). by apply elem_of_nil in Ha.
  - by split_and!.
  - by split_and!.
  - unfold disjoint_spaces. cbn. split_and!; [by right|by right|by left].
  - intros a s mk Hs Hmk. assert (H : Mark.gc_mark (default 0 (demo_mem !! a)) = false).
    { apply elem_of_list_to_map_2 in Hs. repeat (apply elem_of_cons in Hs as [[= -> ->]|Hs]; [by vm_compute|]). by apply elem_of_nil in Hs. }
    by rewrite Hmk in H.
Qed.

Lemma scavenge_preserves_witness : exists st' roots' code_roots', demo_result = Some (st', roots', code_roots') /\
  exists objs' froms' olds', heap_ok st' objs' olds' /\ young_ok st' objs' [] froms' /\
    Forall (valid objs') (roots' ++ code_roots') /\
    eden st' = Spaces.MkSpace 8192 8192 65536 /\ to st' = Spaces.MkSpace 0 0 4096.
Proof.
  destruct demo_ok as (st & Hst & Hok & Hg & Hb). destruct demo_young_ok as (st2 & Hst2 & Hy). rewrite Hst in Hst2. injection Hst2 as <-.
  unfold demo_result. rewrite Hst. cbn [mbind option_bind].
  assert (Hs : (fun st => (eden st, from st)) <$> demo_start = Some (Spaces.MkSpace 8192 8264 65536, Spaces.MkSpace 0 0 4096)) by (vm_compute; reflexivity).
  rewrite Hst in Hs. injection Hs as He Hf.
  assert (Hrun : is_Some demo_result) by (vm_compute; by eexists). unfold demo_result in Hrun. rewrite Hst in Hrun. cbn [mbind option_bind] in Hrun.
  destruct (scavenge st demo_roots []) as [[e s1|st' roots' code_roots']|] eqn:Hr; cbn [mbind option_bind] in *; [by destruct Hrun|..|by destruct Hrun].
  exists st', roots', code_roots'. split; [reflexivity|].
  destruct (scavenge_preserves st demo_objs [8192; 8216; 8240] [] demo_olds demo_roots [] st' roots' code_roots' Hok Hy Hg demo_roots_valid Hr)
    as (objs' & froms' & olds' & H1 & H2 & H3 & H4 & H5). exists objs', froms', olds'. rewrite H4, H5, He, Hf. split; [exact H1|]. split; [exact H2|]. split; [exact H3|]. split; reflexivity.
Defined.
End ScavengeCorrect.
