(* ===== verification/FullGc.v ===== *)
(** The full collection ([src/src/memory/fullgc.rs]): mark, compute forwarding
    addresses, rewrite references, slide, restore marks.

    As in the scavenger the root slots are lists of words: [roots] for
    [for_each_root], [code_roots] for what [each_code_root] visits whether or
    not the customization keys count, [keys] for the key classes of the
    compiled methods, which are weak.  The flush of the methods whose key died,
    the flush of the lookup cache, the debug-only walks, poisoning, tracing and
    the statistics that only report are left out. *)
From S2P Require Import Prelude Oops OldSpace Heap Scavenge.
From stdpp Require Import gmap.
#[local] Open Scope Z_scope.

Module FullGc.
Import Heap Scavenge.

Definition FORMAT_UNTAGGED_BIT : Z := Z.shiftl 1 8.
Definition U32_MAX : Z := Z.ones 32.

(** ** Visiting the oop fields of an object *)
(** [for_each_oop_field] with a visitor that threads a state holding the
    memory. *)
Section visit.
Context {S : Type} (get : S -> memory) (put : S -> memory -> S) (f : S -> Z -> option (S * Z)).

Definition visit_slot (s : S) (slot : Z) : option S :=
  w ← get s !! slot; o ← Oop.from_raw w; '(s, v) ← f s o; Some (put s (<[slot := v]> (get s))).
Fixpoint visit_slots (s : S) (slots : list Z) : option S :=
  match slots with [] => Some s | x :: slots => s ← visit_slot s x; visit_slots s slots end.
Definition visit_fields (s : S) (a k : Z) : option S :=
  nis ← non_indexable_size (get s) k;
  named ← named_words nis;
  fmt ← format (get s) k;
  match fmt with
  | Slots | Klass | IndexableBytes | Method => visit_slots s (map (body_addr a) (zrange 0 named))
  | Double | Process => Some s
  | IndexableOops | Closure | Context =>
      s ← visit_slots s (map (body_addr a) (zrange 0 named));
      len ← raw_size_slot (get s) a nis;
      visit_slots s (map (fun i => body_addr a (named + 1 + i)) (zrange 0 len))
  end.
End visit.

(** ** Marking *)
Record marking := MkMarking { k_mem : memory; k_stack : list Z; k_bytes : Z }.

Definition mark_push (s : marking) (oop : Z) : option marking :=
  if negb (Oop.is_mem oop) then Some s
  else
    let a := Oop.mem_addr oop in
    mk ← mark (k_mem s) a;
    if Mark.gc_mark mk then Some s
    else
      let m := set_mark (k_mem s) a (Mark.with_gc_mark mk true) in
      n ← instance_size_words m a;
      Some (MkMarking m (a :: k_stack s) (k_bytes s + n * 8)).
Fixpoint mark_roots (s : marking) (roots : list Z) : option marking :=
  match roots with [] => Some s | r :: roots => s ← mark_push s r; mark_roots s roots end.

Definition mark_visit (s : marking) (o : Z) : option (marking * Z) := s ← mark_push s o; Some (s, o).
Definition mark_put (s : marking) (m : memory) : marking := MkMarking m (k_stack s) (k_bytes s).
Definition mark_object (s : marking) (a : Z) : option marking :=
  kf ← klass_oop (k_mem s) a;
  s ← mark_push s kf;
  k ← klass_of_oop (k_mem s) kf;
  visit_fields k_mem mark_put mark_visit s a k.

(** The worklist; the vector's last element is the list's head. *)
Fixpoint mark_loop (fuel : nat) (s : marking) : option marking :=
  match k_stack s with
  | [] => Some s
  | a :: stack =>
      match fuel with
      | O => None
      | Datatypes.S fuel => s ← mark_object (MkMarking (k_mem s) stack (k_bytes s)) a; mark_loop fuel s
      end
  end.

Definition used (e : Spaces.Eden) : Z := Spaces.s_top e - Spaces.s_start e.
Definition old_used (g : OldGen.OldGen) : Z := OldGen.top g - Geometry.b_start (OldGen.bounds g).
(** An object is pushed once, and takes at least two words. *)
Definition mark_fuel (st : gcstate) : nat := Z.to_nat ((used (eden st) + used (from st) + old_used (old st)) / 16).
Definition mark_heap (st : gcstate) (roots code_roots : list Z) : option marking :=
  s ← mark_roots (MkMarking (mem st) [] 0) roots;
  s ← mark_roots s code_roots;
  mark_loop (mark_fuel st) s.

(** The keys of the methods that stay: those of unmarked classes are flushed. *)
Fixpoint weak_sweep (m : memory) (keys : list Z) : option (list Z) :=
  match keys with
  | [] => Some []
  | k :: keys =>
      a ← mem_oop k; mk ← mark m a; keys ← weak_sweep m keys;
      Some (if Mark.gc_mark mk then k :: keys else keys)
  end.

(** ** Forwarding addresses *)
Record CompactEntry := MkEntry { e_old : Z; e_new : Z; e_size : Z }.
Abbreviation side_marks := (gmap Z Z).

Definition stateful (mk : Z) : bool := negb (Mark.hash mk =? 0) || negb (Mark.age mk =? 0) || Mark.near_death mk.

(** One object of the walk: memory, side map, entry of the plan. *)
Definition forward_object (m : memory) (side : side_marks) (addr pointer : Z) : option (memory * side_marks * option CompactEntry * Z) :=
  size_words ← instance_size_words m addr;
  mk ← mark m addr;
  if Mark.gc_mark mk then
    if U32_MAX <? size_words then None
    else
      let side := if stateful mk then <[pointer := Mark.with_gc_mark mk false]> side else side in
      Some (install_forwarding m addr (oop_of pointer), side, Some (MkEntry addr pointer size_words), size_words * 8)
  else Some (m, side, None, size_words * 8).

Fixpoint forwarding_loop (fuel : nat) (m : memory) (side : side_marks) (addr top pointer : Z) :
    option (memory * side_marks * list CompactEntry * Z) :=
  if addr <? top then
    match fuel with
    | O => None
    | Datatypes.S fuel =>
        '(m, side, e, n) ← forward_object m side addr pointer;
        let pointer := match e with Some _ => pointer + n | None => pointer end in
        '(m, side, plan, pointer) ← forwarding_loop fuel m side (addr + n) top pointer;
        Some (m, side, match e with Some e => e :: plan | None => plan end, pointer)
    end
  else Some (m, side, [], pointer).
Definition forwarding_compute (m : memory) (side : side_marks) (start top : Z) : option (memory * side_marks * list CompactEntry * Z) :=
  forwarding_loop (Z.to_nat ((top - start) / 16)) m side start top start.

(** ** Rewriting references *)
(** The assertion that the target was forwarded is the [None]. *)
Definition forward_chase (m : memory) (oop : Z) : option Z :=
  if negb (Oop.is_mem oop) then Some oop
  else f ← is_forwarded m (Oop.mem_addr oop); if f : bool then forwardee m (Oop.mem_addr oop) else None.
Fixpoint chase_all (m : memory) (roots : list Z) : option (list Z) :=
  match roots with [] => Some [] | r :: roots => r ← forward_chase m r; roots ← chase_all m roots; Some (r :: roots) end.

Definition chase_visit (m : memory) (o : Z) : option (memory * Z) := v ← forward_chase m o; Some (m, v).
(** [KlassOop::from_oop_unchecked]: the klass is taken as it stands. *)
Definition rewrite_entry (m : memory) (e : CompactEntry) : option memory :=
  kf ← klass_oop m (e_old e);
  m ← visit_fields id (fun _ m => m) chase_visit m (e_old e) (Oop.mem_addr kf);
  v ← forward_chase m kf;
  Some (set_klass_raw m (e_old e) v).
Fixpoint rewrite_entries (m : memory) (plan : list CompactEntry) : option memory :=
  match plan with [] => Some m | e :: plan => m ← rewrite_entry m e; rewrite_entries m plan end.

(** ** Sliding *)
(** [ptr::copy]: all words are read before any is written. *)
Fixpoint read_words (n : nat) (m : memory) (src : Z) : option (list Z) :=
  match n with O => Some [] | Datatypes.S n => w ← m !! src; ws ← read_words n m (src + 8); Some (w :: ws) end.
Fixpoint write_words (m : memory) (dst : Z) (ws : list Z) : memory :=
  match ws with [] => m | w :: ws => write_words (<[dst := w]> m) (dst + 8) ws end.
Definition move_words (n : nat) (m : memory) (src dst : Z) : option memory := ws ← read_words n m src; Some (write_words m dst ws).

Fixpoint slide_young (m : memory) (plan : list CompactEntry) : option memory :=
  match plan with
  | [] => Some m
  | e :: plan => m ← move_words (Z.to_nat (e_size e)) m (e_old e) (e_new e); slide_young m plan
  end.
Fixpoint slide_entries (m : memory) (t : Offsets.OffsetTable) (plan : list CompactEntry) : option (memory * Offsets.OffsetTable) :=
  match plan with
  | [] => Some (m, t)
  | e :: plan =>
      m ← move_words (Z.to_nat (e_size e)) m (e_old e) (e_new e);
      t ← Offsets.record_object t (e_new e) (e_size e * 8);
      slide_entries m t plan
  end.
Definition slide_old (m : memory) (t : Offsets.OffsetTable) (top : Z) (plan : list CompactEntry) : option (memory * Offsets.OffsetTable) :=
  t ← Offsets.clear_through t top; slide_entries m t plan.

(** ** Marks and cards *)
Definition has_untagged_contents (m : memory) (k : Z) : option bool :=
  raw ← raw_body_word m k KLASS_FORMAT_INDEX; v ← smi_field raw; Some (negb (Z.land v FORMAT_UNTAGGED_BIT =? 0)).
Definition restored (side : side_marks) (new : Z) (untagged : bool) : Z :=
  Mark.with_gc_mark (Mark.with_tagged_contents (default Mark.pristine (side !! new)) (negb untagged)) false.
Fixpoint restore_marks (m : memory) (side : side_marks) (plan : list CompactEntry) : option memory :=
  match plan with
  | [] => Some m
  | e :: plan =>
      k ← klass m (e_new e);
      u ← has_untagged_contents m k;
      restore_marks (set_mark m (e_new e) (restored side (e_new e) u)) side plan
  end.

Fixpoint clean_all (cs : Cards.CardTable) (is_ : list Z) : option Cards.CardTable :=
  match is_ with [] => Some cs | i :: is_ => cs ← Cards.set_clean cs i; clean_all cs is_ end.
Definition post (cs : Cards.CardTable) (start top : Z) : option Cards.CardTable :=
  cs ← (if start <? top then last_ ← Cards.card_index cs (top - 1); clean_all cs (zrange 0 (last_ + 1)) else Some cs);
  Cards.record_multistores cs start top.

(** ** The collection *)
Definition with_tops (st : gcstate) (m : memory) (eden_top from_top old_top : Z) (t : Offsets.OffsetTable) (cs : Cards.CardTable) : gcstate :=
  MkGC m (layout st) (Spaces.MkSpace (Spaces.s_start (eden st)) eden_top (Spaces.s_end (eden st)))
    (Spaces.MkSpace (Spaces.s_start (from st)) from_top (Spaces.s_end (from st))) (to st)
    (OldGen.MkOld (OldGen.bounds (old st)) (OldGen.committed_end (old st)) old_top) t cs (AgeTable.clear (age_table st))
    (tenuring_threshold st) (promotion_guarantee_met st) (pending_stall st) (bytes_promoted st) (bytes_copied st).

Record collected := MkCollected { g_state : gcstate; g_roots : list Z; g_code_roots : list Z; g_keys : list Z; g_marked : Z }.

(** The collection, once the assertion of [gc_enabled] has held. *)
Definition full_gc (st : gcstate) (roots code_roots keys : list Z) : option collected :=
  if negb (Spaces.s_top (to st) =? Spaces.s_start (to st)) then None
  else
    s ← mark_heap st roots code_roots;
    keys ← weak_sweep (k_mem s) keys;
    let old_start := Geometry.b_start (OldGen.bounds (old st)) in
    '(m, side, eden_plan, eden_top) ← forwarding_compute (k_mem s) ∅ (Spaces.s_start (eden st)) (Spaces.s_top (eden st));
    '(m, side, from_plan, from_top) ← forwarding_compute m side (Spaces.s_start (from st)) (Spaces.s_top (from st));
    '(m, side, old_plan, old_top) ← forwarding_compute m side old_start (OldGen.top (old st));
    roots ← chase_all m roots;
    m ← rewrite_entries m (eden_plan ++ from_plan ++ old_plan);
    code_roots ← chase_all m code_roots;
    keys ← chase_all m keys;
    m ← slide_young m eden_plan;
    m ← slide_young m from_plan;
    '(m, t) ← slide_old m (offsets st) (OldGen.top (old st)) old_plan;
    m ← restore_marks m side eden_plan;
    m ← restore_marks m side from_plan;
    m ← restore_marks m side old_plan;
    cs ← post (cards st) old_start old_top;
    let live := (eden_top - Spaces.s_start (eden st)) + (from_top - Spaces.s_start (from st)) + (old_top - old_start) in
    if negb (live =? k_bytes s) then None
    else Some (MkCollected (with_tops st m eden_top from_top old_top t cs) roots code_roots keys (k_bytes s)).
(** The function of the source: it panics until genesis has finished. *)
Definition checked_full_gc (gc_enabled : bool) (st : gcstate) (roots code_roots keys : list Z) : option collected :=
  if gc_enabled then full_gc st roots code_roots keys else None.
End FullGc.
