(* ===== verification/FullGcInv.v ===== *)
(** The phases of a full collection ([src/src/memory/fullgc.rs]): what memory
    holds after each of them, relative to what it held before. *)
From S2P Require Import Prelude Oops OldSpace Heap Scavenge ScavengeInv ScavengeCorrect FullGc.
From stdpp Require Import gmap.
#[local] Open Scope Z_scope.

Module FullGcInv.
Import Heap Scavenge ScavengeInv ScavengeCorrect FullGc.

(** ** Visiting *)
Section visit.
Context {S : Type} (get : S -> memory) (put : S -> memory -> S) (f : S -> Z -> option (S * Z)).
Lemma visit_slots_app l k s : visit_slots get put f s (l ++ k) = s ← visit_slots get put f s l; visit_slots get put f s k.
Proof. revert s. induction l as [|x l IH]; intros s; cbn; [done|]. destruct (visit_slot get put f s x); cbn; [apply IH|done]. Qed.

(** The fields are the body slots of the shape, provided the named ones leave
    the size slot alone. *)
Lemma visit_fields_eq s a k sh : shape_with (get s) a k = Some sh ->
  (forall s', visit_slots get put f s (slots_at a (named_slots sh)) = Some s' -> oop_tail (s_format sh) = true ->
     raw_size_slot (get s') a (s_nis sh) = Some (s_len sh)) ->
  visit_fields get put f s a k = visit_slots get put f s (slots_at a (body_slots sh)).
Proof.
  intros Hsh Hlen. destruct (shape_fields _ _ _ _ Hsh) as (_ & Hn & Hw & Hf & _). unfold visit_fields.
  rewrite Hn. cbn [mbind option_bind]. rewrite Hw. cbn [mbind option_bind]. rewrite Hf. cbn [mbind option_bind].
  unfold body_slots. rewrite slots_at_app, visit_slots_app. unfold named_slots, tail_slots, slots_at, HEADER_WORDS in *.
  destruct (s_format sh) eqn:Hfmt; cbn [oop_tail map] in *; rewrite ?map_map;
    try (by destruct (visit_slots get put f s _)); try done;
    (destruct (visit_slots get put f s (map (body_addr a) (zrange 0 (s_nis sh - 2)))) as [s'|] eqn:Hs; [|done]);
    cbn [mbind option_bind]; by rewrite (Hlen s' eq_refl eq_refl).
Qed.
End visit.

(** ** Marks *)
(** Equal but for the contents flag and the collector's own bits. *)
Definition agree (x y : Z) : Prop := forall i, 0 <= i < 44 -> i <> 4 -> Z.testbit x i = Z.testbit y i.
Lemma agree_trans x y z : agree x y -> agree y z -> agree x z.
Proof. intros H1 H2 i Hi Hn. by rewrite H1, H2. Qed.
Lemma agree_sym x y : agree x y -> agree y x.
Proof. intros H i Hi Hn. by rewrite H. Qed.

Lemma agree_land x y c : agree x y -> 0 <= c < 2 ^ 44 -> Z.testbit c 4 = false -> Z.land x c = Z.land y c.
Proof.
  intros H Hc H4. apply Z.bits_inj'. intros i Hi. rewrite !Z.land_spec. destruct (decide (i = 4)) as [->|Hn]; [by rewrite H4, !andb_false_r|].
  destruct (decide (i < 44)); [by rewrite H by lia|]. by rewrite (testbit_high 44 c i), !andb_false_r by (unfold inU in *; lia).
Qed.
Lemma agree_from_word x y : agree x y -> Mark.from_word y = Some y -> Mark.from_word x = Some x.
Proof. intros H. unfold Mark.from_word. rewrite !(agree_land x y) by (done || (split; [done|reflexivity])). by repeat case_match. Qed.
Lemma agree_fields x y : agree x y -> Mark.hash x = Mark.hash y /\ Mark.age x = Mark.age y /\ Mark.near_death x = Mark.near_death y.
Proof. intros H. unfold Mark.hash, Mark.age, Mark.near_death. by rewrite !(agree_land x y) by (done || (split; [done|reflexivity])). Qed.

Lemma flag_bit k m (v : bool) i : 0 <= k < 64 -> 0 <= i < 64 -> i <> k ->
  Z.testbit (if v then Z.lor m (Z.shiftl 1 k) else Z.land m (not64 (Z.shiftl 1 k))) i = Z.testbit m i.
Proof.
  intros Hk Hi Hn. assert (Hb : Z.testbit (Z.shiftl 1 k) i = false).
  { rewrite Z.shiftl_spec by lia. destruct (decide (i < k)); [apply Z.testbit_neg_r; lia|]. apply Z.bits_above_log2; [done|]. change (Z.log2 1) with 0. lia. }
  destruct v; [by rewrite Z.lor_spec, Hb, orb_false_r|]. unfold not64. rewrite Z.land_spec, Z.lxor_spec, Hb, Z.ones_spec_low by lia. apply andb_true_r.
Qed.
Lemma agree_gc m v : agree (Mark.with_gc_mark m v) m.
Proof. intros i Hi Hn. apply (flag_bit 44 m v i); lia. Qed.
Lemma agree_tagged m v : agree (Mark.with_tagged_contents m v) m.
Proof. intros i Hi Hn. apply (flag_bit 4 m v i); lia. Qed.
Lemma gc_mark_set mk v : Mark.gc_mark (Mark.with_gc_mark mk v) = v.
Proof.
  unfold Mark.gc_mark, Mark.with_gc_mark. change MARK_GC_MARK_MASK with (Z.shiftl 1 44). rewrite flag_get by done. destruct v; [by rewrite Z.lor_spec, orb_true_r|].
  rewrite Z.land_spec. change (Z.testbit (not64 (Z.shiftl 1 44)) 44) with false. apply andb_false_r.
Qed.
Lemma stateful_agree x y : agree x y -> stateful x = stateful y.
Proof. intros (H1 & H2 & H3)%agree_fields. unfold stateful. by rewrite H1, H2, H3. Qed.

(** The mark of a moved object. *)
Definition kept (mk : Z) : Z := Mark.with_gc_mark (Mark.with_gc_mark mk true) false.
Definition mark_after (mk : Z) (untagged : bool) : Z :=
  Mark.with_gc_mark (Mark.with_tagged_contents (if stateful mk then kept mk else Mark.pristine) (negb untagged)) false.
Lemma kept_agree mk : agree (kept mk) mk.
Proof. eapply agree_trans; apply agree_gc. Qed.
Lemma mark_after_ok mk u : Mark.from_word mk = Some mk -> let mk' := mark_after mk u in
  Mark.from_word mk' = Some mk' /\ Mark.gc_mark mk' = false /\ Mark.hash mk' = Mark.hash mk /\ Mark.age mk' = Mark.age mk /\ Mark.near_death mk' = Mark.near_death mk.
Proof.
  intros Hf mk'. assert (Ha : agree mk' (if stateful mk then kept mk else Mark.pristine)) by (eapply agree_trans; [apply agree_gc|apply agree_tagged]).
  destruct (agree_fields _ _ Ha) as (H1 & H2 & H3). split_and!; [|apply gc_mark_set|..]; destruct (stateful mk) eqn:E.
  - eapply agree_from_word; [|exact Hf]. eapply agree_trans; [exact Ha|apply kept_agree].
  - by eapply agree_from_word.
  - rewrite H1. apply (agree_fields _ _ (kept_agree mk)).
  - rewrite H1. unfold stateful in E. apply orb_false_iff in E as [[E%negb_false_iff%Z.eqb_eq _]%orb_false_iff _]. by rewrite E.
  - rewrite H2. apply (agree_fields _ _ (kept_agree mk)).
  - rewrite H2. unfold stateful in E. apply orb_false_iff in E as [[_ E%negb_false_iff%Z.eqb_eq]%orb_false_iff _]. by rewrite E.
  - rewrite H3. apply (agree_fields _ _ (kept_agree mk)).
  - rewrite H3. unfold stateful in E. apply orb_false_iff in E as [_ E]. by rewrite E.
Qed.

(** ** Words that survive *)
Section heap.
Context (M0 : memory) (objs : gmap Z shape) (olds : list Z) (b : Geometry.SpaceBounds) (lay : Geometry.HeapLayout) (ts te : Z).
Context (Hwf : heap_wf M0 objs olds b lay ts te).
#[local] Abbreviation sizes := (fun a => bytes objs a).

(** Object [a] stands at [p], its words that are no references unchanged. *)
Definition smis (m : memory) (a p : Z) : Prop := forall s i w, objs !! a = Some s -> -1 <= i < size_words s - 2 ->
  M0 !! body_addr a i = Some w -> Oop.is_mem w = false -> m !! body_addr p i = Some w.

Lemma shape_at m a p s k ks kp : objs !! a = Some s -> objs !! k = Some ks -> 4 <= size_words ks -> shape_with M0 a k = Some s ->
  smis m a p -> smis m k kp -> shape_with m p kp = Some s.
Proof.
  intros Hs Hks H4 Hsh Hp Hk. destruct (obj_shape _ _ _ _ _ _ _ Hwf a s Hs) as (B1 & B2 & B3 & _). revert Hsh.
  unfold shape_with, non_indexable_size, format, raw_body_word, KLASS_FORMAT_INDEX, KLASS_NON_INDEXABLE_SIZE_INDEX.
  destruct (M0 !! body_addr k 1) as [nw|] eqn:Hn; [|done]. cbn [mbind option_bind].
  destruct (smi_field nw) as [nv|] eqn:Hnv; [|done]. cbn [mbind option_bind].
  destruct (M0 !! body_addr k 0) as [fw|] eqn:Hf; [|done]. cbn [mbind option_bind].
  destruct (smi_field fw) as [fv|] eqn:Hfv; [|done]. cbn [mbind option_bind].
  rewrite (Hk ks 1 nw Hks ltac:(lia) Hn (smi_field_not_mem _ _ Hnv)). rewrite (Hk ks 0 fw Hks ltac:(lia) Hf (smi_field_not_mem _ _ Hfv)).
  cbn [mbind option_bind]. rewrite Hnv, Hfv. cbn [mbind option_bind].
  destruct (from_smi_value_checked fv) as [f|]; [|done]. cbn [mbind option_bind]. case_decide as H2; [|done].
  destruct (indexable f) eqn:Hix; [|done]. unfold raw_size_slot, named_words. destruct (Z.ltb_spec (u64 nv) HEADER_WORDS); [done|]. cbn [mbind option_bind].
  unfold raw_body_word, HEADER_WORDS. destruct (M0 !! body_addr a (u64 nv - 2)) as [lw|] eqn:Hlw; [|done]. cbn [mbind option_bind].
  destruct (smi_field lw) as [lv|] eqn:Hlv; [|done]. cbn [mbind option_bind]. intros [= Hsh].
  assert (Hr : -1 <= u64 nv - 2 < size_words s - 2).
  { pose proof (u64_nonneg lv). rewrite <- Hsh. unfold size_words. cbn [s_format s_nis s_len].
    assert (0 <= (u64 lv + 7) / 8) by (apply Z.div_pos; lia). destruct f; try done; lia. }
  rewrite (Hp s _ lw Hs Hr Hlw (smi_field_not_mem _ _ Hlv)). cbn [mbind option_bind]. rewrite Hlv. cbn [mbind option_bind]. by rewrite Hsh.
Qed.

(** The klass of an object, and its klass's klass. *)
Definition klass_word (a k : Z) : Prop := M0 !! body_addr a (-1) = Some (oop_of k).
Lemma object_klass a s : objs !! a = Some s -> exists k ks kk kks, klass_word a k /\ Oop.is_mem (oop_of k) = true /\ objs !! k = Some ks /\
  4 <= size_words ks /\ shape_with M0 a k = Some s /\ klass_of_oop M0 (oop_of k) = Some k /\
  klass_word k kk /\ Oop.is_mem (oop_of kk) = true /\ objs !! kk = Some kks /\ 4 <= size_words kks.
Proof.
  intros Hs. destruct (wf_klass _ _ _ _ _ _ _ Hwf a s Hs) as (k & ks & H1 & H2 & H3 & H4 & H5 & H6).
  destruct (wf_klass _ _ _ _ _ _ _ Hwf k ks H3) as (kk & kks & G1 & G2 & G3 & G4 & _). by exists k, ks, kk, kks.
Qed.

Lemma klass_of_at m k kp kk kks kkp : klass_of_oop M0 (oop_of k) = Some k -> klass_word k kk -> objs !! kk = Some kks -> 4 <= size_words kks ->
  Oop.is_mem (oop_of k) = true -> Oop.is_mem (oop_of kk) = true -> Oop.is_mem (oop_of kp) = true -> Oop.is_mem (oop_of kkp) = true ->
  m !! body_addr kp (-1) = Some (oop_of kkp) -> smis m kk kkp -> klass_of_oop m (oop_of kp) = Some kp.
Proof.
  intros Hko Hkw Hkks H4 Hm Hmk Hmp Hmkp Hkp Hs. unfold klass_of_oop, klass_oop in *.
  change (k + KLASS_OFFSET) with (body_addr k (-1)) in *. change (kp + KLASS_OFFSET) with (body_addr kp (-1)).
  destruct (mem_oop_of k Hm) as [Hk _]. destruct (mem_oop_of kp Hmp) as [-> _]. destruct (mem_oop_of kk Hmk) as [Hkk Hkr]. destruct (mem_oop_of kkp Hmkp) as [Hkkp Hkpr].
  rewrite Hk in Hko. cbn [mbind option_bind] in *. unfold klass_oop in *. change (k + KLASS_OFFSET) with (body_addr k (-1)) in *. change (kp + KLASS_OFFSET) with (body_addr kp (-1)). rewrite Hkw in Hko. rewrite Hkp. cbn [mbind option_bind] in *.
  rewrite Hkr in Hko. rewrite Hkpr. cbn [mbind option_bind] in *. unfold format_of_klass_field in *. rewrite Hkk in Hko. rewrite Hkkp. cbn [mbind option_bind] in *.
  unfold raw_body_word, KLASS_FORMAT_INDEX in *. destruct (M0 !! body_addr kk 0) as [fw|] eqn:Hfw; [|done]. cbn [mbind option_bind] in *.
  destruct (SmallInt.try_from fw) as [fs|] eqn:Hfs; [|done]. rewrite (Hs kks 0 fw Hkks ltac:(lia) Hfw (try_from_not_mem _ _ Hfs)). cbn [mbind option_bind] in *. rewrite Hfs.
  cbn [mbind option_bind] in *. destruct (from_smi_value_checked (SmallInt.value fs)); [|done]. cbn [mbind option_bind] in *. by case_decide.
Qed.
Context (Hapart : forall a a', is_Some (objs !! a) -> is_Some (objs !! a') -> a <> a' -> a + bytes objs a <= a' \/ a' + bytes objs a' <= a).

Lemma word_inj a s i a' s' i' : objs !! a = Some s -> -2 <= i < size_words s - 2 -> objs !! a' = Some s' -> -2 <= i' < size_words s' - 2 ->
  body_addr a i = body_addr a' i' -> a = a' /\ i = i'.
Proof.
  intros Hs Hr Hs' Hr' He. rewrite !body_addr_eq in He. destruct (obj_shape _ _ _ _ _ _ _ Hwf a s Hs) as (_ & _ & _ & Hb), (obj_shape _ _ _ _ _ _ _ Hwf a' s' Hs') as (_ & _ & _ & Hb').
  destruct (decide (a = a')) as [->|Hne]; [lia|]. destruct (Hapart a a'); [by eexists|by eexists|done|lia|lia].
Qed.
Lemma mark_addr a : body_addr a (-2) = a.
Proof. rewrite body_addr_eq. lia. Qed.
Lemma slot_in a s i : objs !! a = Some s -> i ∈ oop_slots s -> -1 <= i < size_words s - 2.
Proof. apply (oop_slots_range _ _ _ _ _ _ _ Hwf). Qed.
Lemma slot_word_valid a s i : objs !! a = Some s -> i ∈ oop_slots s -> exists w, M0 !! body_addr a i = Some w /\ valid objs w.
Proof.
  intros Hs Hi. destruct (wf_words _ _ _ _ _ _ _ Hwf a s i Hs) as [w Hw]; [pose proof (slot_in a s i Hs Hi); lia|]. exists w. split; [done|].
  by eapply (slot_valid _ _ _ _ _ _ _ Hwf).
Qed.
Lemma set_mark_eq m a mk : set_mark m a mk = <[a := mk]> m.
Proof. unfold set_mark. change MARK_OFFSET with 0. by rewrite Z.add_0_r. Qed.
Lemma mark_eq m a : mark m a = m !! a ≫= Mark.from_word.
Proof. unfold mark, mark_word_raw. change MARK_OFFSET with 0. by rewrite Z.add_0_r. Qed.

(** Nothing but marks has changed. *)
Definition bodies (m : memory) : Prop := forall a s i, objs !! a = Some s -> -1 <= i < size_words s - 2 -> m !! body_addr a i = M0 !! body_addr a i.

Lemma bodies_smis m a : bodies m -> smis m a a.
Proof. intros Hb s i w Hs Hr Hw _. by rewrite (Hb a s i Hs Hr). Qed.
Lemma bodies_set m a mk : bodies m -> is_Some (objs !! a) -> bodies (<[a := mk]> m).
Proof.
  intros Hb [s Hs] a' s' i Hs' Hr. rewrite lookup_insert_ne; [by eapply Hb|]. intros He. rewrite <- (mark_addr a) in He.
  destruct (obj_shape _ _ _ _ _ _ _ Hwf a s Hs) as (_ & _ & Hz & _).
  destruct (word_inj a s (-2) a' s' i Hs ltac:(lia) Hs' ltac:(lia) He). lia.
Qed.

Lemma bodies_klass m a s : bodies m -> objs !! a = Some s -> exists k, klass_word a k /\ Oop.is_mem (oop_of k) = true /\ klass_oop m a = Some (oop_of k) /\
  klass_of_oop m (oop_of k) = Some k /\ klass m a = Some k /\ shape_with m a k = Some s /\ instance_size_words m a = Some (size_words s).
Proof.
  intros Hb Hs. destruct (object_klass a s Hs) as (k & ks & kk & kks & H1 & H2 & H3 & H4 & H5 & H6 & H7 & H8 & H9 & H10).
  destruct (obj_shape _ _ _ _ _ _ _ Hwf a s Hs) as (_ & _ & Hz & _). destruct (mem_oop_of k H2) as [Hmo Hfr].
  assert (Hko : klass_oop m a = Some (oop_of k)).
  { unfold klass_oop. change (a + KLASS_OFFSET) with (body_addr a (-1)). rewrite (Hb a s (-1) Hs ltac:(lia)), H1. cbn [mbind option_bind]. done. }
  assert (Hk : klass_of_oop m (oop_of k) = Some k).
  { eapply klass_of_at; try done; [|by apply bodies_smis]. rewrite (Hb k ks (-1) H3 ltac:(lia)). exact H7. }
  assert (Hsh : shape_with m a k = Some s) by (eapply (shape_at m a a s k ks k); try done; by apply bodies_smis).
  assert (Hkl : klass m a = Some k) by (unfold klass; rewrite Hko; exact Hk).
  exists k. split_and!; try done. unfold instance_size_words. rewrite Hkl. cbn [mbind option_bind]. by apply size_of_shape.
Qed.

(** ** Marking *)
Context (all : list Z) (Hall : forall a, a ∈ all <-> is_Some (objs !! a)) (Hndall : NoDup all).
Context (Hclear : forall a s mk, objs !! a = Some s -> M0 !! a = Some mk -> Mark.gc_mark mk = false).
Context (alive : Z -> Prop).
Context (Halive : forall a s i w, alive a -> objs !! a = Some s -> i ∈ oop_slots s -> M0 !! body_addr a i = Some w -> Oop.is_mem w = true -> alive (Oop.mem_addr w)).

Definition sum (w : Z -> Z) (K : gset Z) (l : list Z) : Z := foldr (fun a n => (if decide (a ∈ K) then w a else 0) + n) 0 l.
Abbreviation total := (sum (bytes objs)).

Lemma sum_app w K l k : sum w K (l ++ k) = sum w K l + sum w K k.
Proof. induction l as [|x l IH]; cbn; [done|]. fold (sum w K (l ++ k)) (sum w K l). rewrite IH. lia. Qed.
Lemma sum_insert w K l a : NoDup l -> a ∉ K -> sum w ({[a]} ∪ K) l = sum w K l + (if decide (a ∈ l) then w a else 0).
Proof.
  intros Hl Ha. induction Hl as [|x l Hx Hl IH]; cbn [sum foldr].
  - rewrite decide_False; [done|apply not_elem_of_nil].
  - fold (sum w ({[a]} ∪ K) l) (sum w K l). rewrite IH. destruct (decide (x = a)) as [->|Hne].
    + rewrite decide_True by (apply elem_of_union; left; by apply elem_of_singleton). rewrite (decide_False (P := a ∈ K)) by done.
      rewrite decide_False by done. rewrite decide_True by left. lia.
    + assert (Hiff : x ∈ {[a]} ∪ K <-> x ∈ K) by (rewrite elem_of_union, elem_of_singleton; split; [by intros [->|]|by right]).
      assert (Hil : a ∈ x :: l <-> a ∈ l) by (rewrite elem_of_cons; split; [by intros [->|]|by right]).
      destruct (decide (x ∈ K)); [rewrite decide_True by tauto|rewrite decide_False by tauto];
        (destruct (decide (a ∈ l)); [rewrite decide_True by tauto|rewrite decide_False by tauto]); lia.
Qed.
Lemma sum_le w K l : (forall a, a ∈ l -> 0 <= w a) -> 0 <= sum w K l <= foldr (fun a n => w a + n) 0 l.
Proof.
  induction l as [|x l IH]; intros Hw; cbn; [lia|]. fold (sum w K l). pose proof (Hw x ltac:(left)). specialize (IH ltac:(intros; apply Hw; by right)). case_decide; lia.
Qed.

Definition closed (K : gset Z) (a : Z) : Prop := forall s i w, objs !! a = Some s -> i ∈ oop_slots s -> M0 !! body_addr a i = Some w -> Oop.is_mem w = true ->
  Oop.mem_addr w ∈ K.

(** [K] are the marked objects; those that [opened] admits are being scanned. *)
Record marks (K : gset Z) (opened : Z -> Prop) (s : marking) : Prop := {
  k_bodies : bodies (k_mem s);
  k_marks : forall a mk, is_Some (objs !! a) -> M0 !! a = Some mk -> k_mem s !! a = Some (if decide (a ∈ K) then Mark.with_gc_mark mk true else mk);
  k_alive : forall a, a ∈ K -> is_Some (objs !! a) /\ alive a;
  k_pending : forall a, a ∈ k_stack s -> a ∈ K;
  k_total : k_bytes s = total K all;
  k_closed : forall a, a ∈ K -> a ∈ k_stack s \/ opened a \/ closed K a }.

(** Objects still to be pushed or popped. *)
Definition work (K : gset Z) (s : marking) : Z := zlen all - sum (fun _ => 1) K all + zlen (k_stack s).

Lemma mark_push_ok K opened s o : marks K opened s -> valid objs o -> (Oop.is_mem o = true -> alive (Oop.mem_addr o)) -> exists K' s',
  mark_push s o = Some s' /\ marks K' opened s' /\ K ⊆ K' /\ (Oop.is_mem o = true -> Oop.mem_addr o ∈ K') /\ work K' s' = work K s.
Proof.
  intros [M1 M2 M3 M4 M5 M6] [Hraw Hv] Hl. unfold mark_push. destruct (Oop.is_mem o) eqn:Hm; cbn [negb]; [|by exists K, s].
  specialize (Hv eq_refl). specialize (Hl eq_refl). set (a := Oop.mem_addr o) in *. destruct Hv as [sh Hs].
  destruct (wf_mark _ _ _ _ _ _ _ Hwf a sh Hs) as (mk & Hmk & Hf). rewrite mark_eq, (M2 a mk ltac:(by eexists) Hmk). cbn [mbind option_bind].
  destruct (decide (a ∈ K)) as [Hin|Hout].
  - rewrite (agree_from_word _ mk) by (done || apply agree_gc). cbn [mbind option_bind]. rewrite gc_mark_set. by exists K, s.
  - rewrite Hf. cbn [mbind option_bind]. rewrite (Hclear a sh mk Hs Hmk), set_mark_eq.
    pose proof (bodies_set (k_mem s) a (Mark.with_gc_mark mk true) M1 ltac:(by eexists)) as Hb.
    destruct (bodies_klass _ a sh Hb Hs) as (k & _ & _ & _ & _ & _ & _ & ->). cbn [mbind option_bind].
    destruct (obj_shape _ _ _ _ _ _ _ Hwf a sh Hs) as (_ & _ & _ & Hbytes).
    assert (Hina : a ∈ all) by (apply Hall; by eexists).
    eexists ({[a]} ∪ K), _. split_and!; [reflexivity| |by apply union_subseteq_r|intros _; apply elem_of_union; left; by apply elem_of_singleton|].
    + split; cbn [k_mem k_stack k_bytes].
      * done.
      * intros a' mk' Ha' Hmk'. destruct (decide (a' = a)) as [->|Hne].
        -- rewrite lookup_insert_eq. rewrite decide_True by (apply elem_of_union; left; by apply elem_of_singleton). congruence.
        -- rewrite lookup_insert_ne by done. rewrite (M2 a' mk' Ha' Hmk'). f_equal. apply decide_ext. rewrite elem_of_union, elem_of_singleton. tauto.
      * intros a' [->%elem_of_singleton|Ha']%elem_of_union; [split; [by eexists|done]|by apply M3].
      * intros a' [->|Ha']%elem_of_cons; apply elem_of_union; [left; by apply elem_of_singleton|right; by apply M4].
      * rewrite sum_insert, decide_True by done. lia.
      * intros a' [->%elem_of_singleton|Ha']%elem_of_union; [left; left|]. destruct (M6 a' Ha') as [?|[?|Hc]]; [left; by right|by right; left|right; right].
        intros s' i w H1 H2 H3 H4. apply elem_of_union. right. by eapply Hc.
    + unfold work. cbn [k_stack]. rewrite sum_insert, decide_True by done. unfold zlen. cbn [length]. lia.
Qed.
Lemma mark_roots_ok roots : forall K opened s, marks K opened s -> (forall o, o ∈ roots -> valid objs o /\ (Oop.is_mem o = true -> alive (Oop.mem_addr o))) ->
  exists K' s', mark_roots s roots = Some s' /\ marks K' opened s' /\ K ⊆ K' /\ work K' s' = work K s /\
    (forall o, o ∈ roots -> Oop.is_mem o = true -> Oop.mem_addr o ∈ K').
Proof.
  induction roots as [|o roots IH]; intros K opened s Hm Hr; cbn [mark_roots].
  - exists K, s. split_and!; try done. by intros o ?%elem_of_nil.
  - destruct (Hr o ltac:(left)) as [Hv Hl]. destruct (mark_push_ok K opened s o Hm Hv Hl) as (K1 & s1 & -> & Hm1 & HK1 & Hin1 & Hw1). cbn [mbind option_bind].
    destruct (IH K1 opened s1 Hm1) as (K2 & s2 & -> & Hm2 & HK2 & Hw2 & Hin2); [intros; apply Hr; by right|].
    exists K2, s2. split_and!; [done|done|by etransitivity|congruence|]. intros o' [->|Ho]%elem_of_cons Hmm; [by apply HK2, Hin1|by apply Hin2].
Qed.



Lemma mark_slots_ok a s is_ : forall K opened st, marks K opened st -> objs !! a = Some s -> alive a -> (forall i, i ∈ is_ -> i ∈ oop_slots s) ->
  exists K' st', visit_slots k_mem mark_put mark_visit st (slots_at a is_) = Some st' /\ marks K' opened st' /\ K ⊆ K' /\ work K' st' = work K st /\
    (forall i w, i ∈ is_ -> M0 !! body_addr a i = Some w -> Oop.is_mem w = true -> Oop.mem_addr w ∈ K').
Proof.
  induction is_ as [|i is_ IH]; intros K opened st Hm Hs Ha Hin; cbn [slots_at map visit_slots].
  - exists K, st. split_and!; try done. by intros i w ?%elem_of_nil.
  - assert (Hi : i ∈ oop_slots s) by (apply Hin; left). destruct (slot_word_valid a s i Hs Hi) as (w & Hw & Hv). pose proof (slot_in a s i Hs Hi) as Hr.
    destruct (mark_push_ok K opened st w Hm Hv) as (K1 & s1 & Hp & Hm1 & HK1 & Hin1 & Hw1); [by eapply Halive|].
    assert (Hvs : visit_slot k_mem mark_put mark_visit st (body_addr a i) = Some s1).
    { unfold visit_slot, mark_visit. rewrite (k_bodies _ _ _ Hm a s i Hs Hr), Hw. cbn [mbind option_bind]. rewrite (proj1 Hv). cbn [mbind option_bind].
      rewrite Hp. cbn [mbind option_bind]. unfold mark_put. rewrite insert_id; [by destruct s1|]. by rewrite (k_bodies _ _ _ Hm1 a s i Hs Hr). }
    rewrite Hvs. cbn [mbind option_bind]. fold (slots_at a is_). destruct (IH K1 opened s1 Hm1 Hs Ha) as (K2 & s2 & -> & Hm2 & HK2 & Hw2 & Hin2); [intros; apply Hin; by right|].
    exists K2, s2. split_and!; [done|done|by etransitivity|congruence|]. intros j w' [->|Hj]%elem_of_cons Hw' Hmm; [|by eapply Hin2].
    rewrite Hw in Hw'. injection Hw' as <-. by apply HK2, Hin1.
Qed.

Lemma mark_object_ok K a stack st : marks K (fun _ => False) st -> k_stack st = a :: stack -> exists K' st',
  mark_object (MkMarking (k_mem st) stack (k_bytes st)) a = Some st' /\ marks K' (fun _ => False) st' /\ K ⊆ K' /\ work K' st' = work K st - 1.
Proof.
  intros Hm Hst. pose proof Hm as [M1 M2 M3 M4 M5 M6]. destruct (M3 a) as [[s Hs] Ha]; [apply M4; rewrite Hst; left|].
  destruct (bodies_klass _ a s M1 Hs) as (k & Hkw & Hkm & Hko & _ & _ & _ & _). unfold mark_object. cbn [k_mem]. rewrite Hko. cbn [mbind option_bind].
  assert (Hm0 : marks K (fun x => x = a) (MkMarking (k_mem st) stack (k_bytes st))).
  { split; try done; cbn [k_stack].
    - intros x Hx. apply M4. rewrite Hst. by right.
    - intros x Hx. destruct (M6 x Hx) as [Hin|[[]|Hc]]; [|by right; right]. rewrite Hst in Hin. apply elem_of_cons in Hin as [->|Hin]; [by right; left|by left]. }
  assert (Hvk : valid objs (oop_of k)).
  { destruct (slot_word_valid a s (-1) Hs ltac:(left)) as (w & Hw & Hv). unfold klass_word in Hkw. congruence. }
  destruct (mark_push_ok K _ _ (oop_of k) Hm0 Hvk) as (K1 & s1 & -> & Hm1 & HK1 & Hin1 & Hw1).
  { intros _. eapply Halive; [done|done|left|exact Hkw|done]. }
  cbn [mbind option_bind]. destruct (bodies_klass _ a s (k_bodies _ _ _ Hm1) Hs) as (k' & Hkw' & _ & _ & Hkk & _ & Hsh & _).
  assert (k' = k) as -> by (unfold klass_word, oop_of in *; rewrite Hkw in Hkw'; injection Hkw'; lia). rewrite Hkk. cbn [mbind option_bind].
  assert (Hsub : forall i, i ∈ body_slots s -> i ∈ oop_slots s) by (intros; by right).
  destruct (mark_slots_ok a s (body_slots s) K1 _ s1 Hm1 Hs Ha Hsub) as (K2 & s2 & Hv & Hm2 & HK2 & Hw2 & Hin2).
  rewrite (visit_fields_eq _ _ _ _ _ _ _ Hsh).
  2: { intros s' Hs' Ht. destruct (mark_slots_ok a s (named_slots s) K1 _ s1 Hm1 Hs Ha) as (K3 & s3 & Hv3 & Hm3 & _); [intros; apply Hsub, elem_of_app; by left|].
       rewrite Hs' in Hv3. injection Hv3 as <-. destruct (bodies_klass _ a s (k_bodies _ _ _ Hm3) Hs) as (k3 & _ & _ & _ & _ & _ & Hsh3 & _).
       destruct (shape_fields _ _ _ _ Hsh3) as (_ & _ & _ & _ & Hlen). apply Hlen. by destruct (s_format s). }
  exists K2, s2. split_and!; [done| |by etransitivity|].
  - destruct Hm2 as [A1 A2 A3 A4 A5 A6]. split; try done. intros x Hx. destruct (A6 x Hx) as [?|[->|?]]; [by left| |by right; right]. right. right.
    intros s' i w Hs' Hi Hw Hmm. rewrite Hs in Hs'. injection Hs' as <-. apply elem_of_cons in Hi as [->|Hi]; [|by eapply Hin2].
    unfold klass_word in Hkw. rewrite Hkw in Hw. injection Hw as <-. by apply HK2, Hin1.
  - rewrite Hw2, Hw1. unfold work. cbn [k_stack]. rewrite Hst. unfold zlen. cbn [length]. lia.
Qed.

Lemma sum_count K l : 0 <= sum (fun _ => 1) K l <= zlen l.
Proof. unfold zlen. induction l as [|x l IH]; cbn [sum foldr length]; [lia|]. fold (sum (fun _ => 1) K l). case_decide; lia. Qed.

Lemma mark_loop_ok fuel : forall K st, marks K (fun _ => False) st -> work K st <= Z.of_nat fuel -> exists K' st',
  mark_loop fuel st = Some st' /\ marks K' (fun _ => False) st' /\ K ⊆ K' /\ k_stack st' = [].
Proof.
  induction fuel as [|fuel IH]; intros K st Hm Hf; pose proof (sum_count K all) as Hs.
  - unfold work in Hf. destruct (k_stack st) as [|a stack] eqn:Hst; [|unfold zlen in *; cbn [length] in Hf; lia]. exists K, st. cbn. rewrite Hst. by split_and!.
  - cbn [mark_loop]. destruct (k_stack st) as [|a stack] eqn:Hst; [by exists K, st|].
    destruct (mark_object_ok K a stack st Hm Hst) as (K1 & s1 & -> & Hm1 & HK1 & Hw1). cbn [mbind option_bind].
    destruct (IH K1 s1 Hm1 ltac:(lia)) as (K2 & s2 & -> & Hm2 & HK2 & Hst2). exists K2, s2. split_and!; try done. by etransitivity.
Qed.
(** ** Forwarding addresses *)
Context (K : gset Z).
Definition marked_word (a mk : Z) : Z := if decide (a ∈ K) then Mark.with_gc_mark mk true else mk.
Fixpoint plan_of (l : list Z) (p : Z) : list CompactEntry :=
  match l with
  | [] => []
  | a :: l => if decide (a ∈ K) then MkEntry a p (bytes objs a / 8) :: plan_of l (p + bytes objs a) else plan_of l p
  end.
Definition forwarded (plan : list CompactEntry) (m m' : memory) : Prop :=
  (forall e, e ∈ plan -> m' !! e_old e = Some (oop_of (e_new e))) /\ (forall x, x ∉ map e_old plan -> m' !! x = m !! x).
Definition saved (plan : list CompactEntry) (side side' : side_marks) : Prop :=
  (forall e mk, e ∈ plan -> M0 !! e_old e = Some mk -> side' !! e_new e = if stateful mk then Some (kept mk) else side !! e_new e) /\
  (forall x, x ∉ map e_new plan -> side' !! x = side !! x).

Lemma forwarded_nil m : forwarded [] m m.
Proof. split; [by intros e ?%elem_of_nil|done]. Qed.
Lemma saved_nil side : saved [] side side.
Proof. split; [by intros e mk ?%elem_of_nil|done]. Qed.

Lemma plan_olds l : forall p e, e ∈ plan_of l p -> e_old e ∈ l /\ e_old e ∈ K /\ e_size e = bytes objs (e_old e) / 8.
Proof.
  induction l as [|a l IH]; intros p e; cbn [plan_of]; [by intros ?%elem_of_nil|]. case_decide as Hk.
  - intros [->|He]%elem_of_cons; [split_and!; [left|done|done]|]. destruct (IH _ _ He) as (? & ? & ?). split_and!; [by right|done|done].
  - intros He. destruct (IH _ _ He) as (? & ? & ?). split_and!; [by right|done|done].
Qed.
Lemma plan_news l : forall p e, (forall a, a ∈ l -> 0 < bytes objs a) -> e ∈ plan_of l p -> p <= e_new e /\ e_new e + bytes objs (e_old e) <= p + total K l.
Proof.
  induction l as [|a l IH]; intros p e Hb; cbn [plan_of sum foldr]; [by intros ?%elem_of_nil|]. fold (total K l). pose proof (Hb a ltac:(left)).
  pose proof (sum_le (bytes objs) K l) as Hs. case_decide as Hk.
  - intros [->|He]%elem_of_cons; cbn [e_new e_old]; [specialize (Hs ltac:(intros x Hx; specialize (Hb x ltac:(by right)); lia)); lia|].
    destruct (IH _ _ ltac:(intros; apply Hb; by right) He). lia.
  - intros He. destruct (IH _ _ ltac:(intros; apply Hb; by right) He). lia.
Qed.
Lemma elem_of_plan l : forall p a, a ∈ l -> a ∈ K -> exists e, e ∈ plan_of l p /\ e_old e = a.
Proof.
  induction l as [|x l IH]; intros p a; [by intros ?%elem_of_nil|]. cbn [plan_of]. intros [->|Ha]%elem_of_cons Hk.
  - rewrite decide_True by done. eexists. split; [left|done].
  - case_decide; destruct (IH (if decide (x ∈ K) then p + bytes objs x else p) a Ha Hk) as (e & He & Heq); case_decide; try done; exists e; (split; [|done]); [by right|done].
Qed.

Lemma mark_of_marked m a mk : M0 !! a = Some mk -> is_Some (objs !! a) -> m !! a = Some (marked_word a mk) -> mark m a = Some (marked_word a mk) /\
  Mark.gc_mark (marked_word a mk) = bool_decide (a ∈ K).
Proof.
  intros Hmk [s Hs] Hm. destruct (wf_mark _ _ _ _ _ _ _ Hwf a s Hs) as (mk' & E & Hf). rewrite Hmk in E. injection E as <-.
  rewrite mark_eq, Hm. cbn [mbind option_bind]. unfold marked_word. case_decide as Hk.
  - rewrite (agree_from_word _ mk) by (done || apply agree_gc). rewrite gc_mark_set. by rewrite bool_decide_true.
  - rewrite Hf, bool_decide_false by done. by rewrite (Hclear a s mk).
Qed.
Lemma bytes_size a s : objs !! a = Some s -> bytes objs a / 8 = size_words s /\ size_words s * 8 = bytes objs a.
Proof. intros Hs. destruct (obj_shape _ _ _ _ _ _ _ Hwf a s Hs) as (_ & _ & _ & ->). split; [rewrite Z.mul_comm; by apply Z.div_mul|lia]. Qed.

Lemma forward_object_ok m side a s mk p : objs !! a = Some s -> M0 !! a = Some mk -> bodies m -> m !! a = Some (marked_word a mk) ->
  bytes objs a / 8 <= U32_MAX ->
  exists m' side', forward_object m side a p = Some (m', side', if decide (a ∈ K) then Some (MkEntry a p (bytes objs a / 8)) else None, bytes objs a) /\
    bodies m' /\ forwarded (plan_of [a] p) m m' /\ saved (plan_of [a] p) side side'.
Proof.
  intros Hs Hmk Hb Hm Hsz. destruct (mark_of_marked m a mk Hmk ltac:(by eexists) Hm) as [Hmark Hgc]. destruct (bytes_size a s Hs) as [H1 H2].
  destruct (bodies_klass m a s Hb Hs) as (k & _ & _ & _ & _ & _ & _ & Hsize). unfold forward_object. rewrite Hsize. cbn [mbind option_bind].
  rewrite Hmark. cbn [mbind option_bind]. rewrite Hgc, H2. cbn [plan_of]. unfold bool_decide. case_decide as Hk.
  - destruct (Z.ltb_spec U32_MAX (size_words s)); [lia|]. eexists _, _. rewrite H1. split; [reflexivity|]. unfold install_forwarding. change MARK_OFFSET with 0. rewrite Z.add_0_r.
    assert (Hst : stateful (marked_word a mk) = stateful mk) by (apply stateful_agree; unfold marked_word; rewrite decide_True by done; apply agree_gc).
    rewrite Hst. split_and!; [apply bodies_set; [done|by eexists]|split|split].
    + intros e ->%list_elem_of_singleton. apply lookup_insert_eq.
    + intros x Hx. apply lookup_insert_ne. intros <-. apply Hx. left.
    + intros e mk' ->%list_elem_of_singleton Hmk'. cbn [e_new e_old] in *. rewrite Hmk in Hmk'. injection Hmk' as <-. destruct (stateful mk); [|done].
      rewrite lookup_insert_eq. unfold marked_word, kept. by rewrite decide_True by done.
    + intros x Hx. destruct (stateful mk); [|done]. apply lookup_insert_ne. intros <-. apply Hx. left.
  - eexists _, _. split; [reflexivity|]. split_and!; [done|apply forwarded_nil|apply saved_nil].
Qed.

Lemma forwarded_app p1 p2 m m1 m2 : forwarded p1 m m1 -> forwarded p2 m1 m2 -> (forall e, e ∈ p1 -> e_old e ∉ map e_old p2) -> forwarded (p1 ++ p2) m m2.
Proof.
  intros [A1 A2] [B1 B2] Hd. split.
  - intros e [He|He]%elem_of_app; [|by apply B1]. rewrite B2; [by apply A1|by apply Hd].
  - intros x Hx. rewrite map_app, elem_of_app in Hx. rewrite B2, A2; tauto.
Qed.
Lemma saved_app p1 p2 s0 s1 s2 : saved p1 s0 s1 -> saved p2 s1 s2 -> (forall e, e ∈ p1 -> e_new e ∉ map e_new p2) -> (forall e, e ∈ p2 -> e_new e ∉ map e_new p1) ->
  saved (p1 ++ p2) s0 s2.
Proof.
  intros [A1 A2] [B1 B2] Hd Hd'. split.
  - intros e mk [He|He]%elem_of_app Hmk; [rewrite B2 by (by apply Hd); by apply A1|]. rewrite (B1 e mk He Hmk), A2; [done|by apply Hd'].
  - intros x Hx. rewrite map_app, elem_of_app in Hx. rewrite B2, A2; tauto.
Qed.

Lemma plan_of_app l k : forall p, plan_of (l ++ k) p = plan_of l p ++ plan_of k (p + total K l).
Proof.
  induction l as [|a l IH]; intros p; cbn [app plan_of sum foldr]; [by rewrite Z.add_0_r|]. fold (total K l). case_decide; rewrite IH; cbn [app].
  - by rewrite Z.add_assoc.
  - done.
Qed.
Lemma tiled_objs addr l top : OldGen.tiled addr (map (fun a => (a, bytes objs a)) l) top -> forall a, a ∈ l -> addr <= a /\ a + bytes objs a <= top /\ a mod 8 = addr mod 8 /\ 0 < bytes objs a.
Proof.
  intros (_ & _ & Hb)%OldGen.tiled_bounds a Ha. destruct (Hb a (bytes objs a)) as (? & ? & ? & ?); [|done]. apply list_elem_of_fmap. by exists a.
Qed.

Lemma plan_olds_eq l : forall p, map e_old (plan_of l p) = filter (fun a => a ∈ K) l.
Proof. induction l as [|a l IH]; intros p; cbn [plan_of]; [done|]. rewrite filter_cons. case_decide; cbn [map]; by rewrite IH. Qed.
Lemma plan_bytes l : (forall a, a ∈ l -> is_Some (objs !! a)) -> forall p e, e ∈ plan_of l p -> 8 * e_size e = bytes objs (e_old e) /\ 2 <= e_size e.
Proof.
  intros Ho p e He. destruct (plan_olds _ _ _ He) as (Hl & _ & ->). destruct (Ho _ Hl) as [s Hs]. destruct (bytes_size _ s Hs) as [-> H2].
  destruct (obj_shape _ _ _ _ _ _ _ Hwf _ s Hs) as (_ & _ & H3 & _). lia.
Qed.
Lemma plan_tiled l : (forall a, a ∈ l -> is_Some (objs !! a)) -> forall p, OldGen.tiled p (map (fun e => (e_new e, 8 * e_size e)) (plan_of l p)) (p + total K l).
Proof.
  induction l as [|a l IH]; intros Ho p; cbn [plan_of sum foldr]; [cbn; lia|]. fold (total K l). specialize (IH ltac:(intros; apply Ho; by right)).
  destruct (bytes_pos _ _ _ _ _ _ _ Hwf a (Ho a ltac:(left))) as [H16 H8]. case_decide.
  - cbn [map OldGen.tiled e_new e_size]. assert (He : 8 * (bytes objs a / 8) = bytes objs a) by (pose proof (Z.div_mod (bytes objs a) 8); lia). rewrite He.
    split_and!; [done|lia|done|]. rewrite Z.add_assoc. apply IH.
  - apply IH.
Qed.
Lemma tiled_total addr l top : OldGen.tiled addr (map (fun a => (a, bytes objs a)) l) top -> foldr (fun a n => bytes objs a + n) 0 l = top - addr.
Proof. revert addr. induction l as [|a l IH]; intros addr; cbn; [lia|]. intros (<- & _ & _ & Ht). rewrite (IH _ Ht). lia. Qed.
Lemma total_le addr l top : OldGen.tiled addr (map (fun a => (a, bytes objs a)) l) top -> 0 <= total K l <= top - addr.
Proof.
  intros Ht. rewrite <- (tiled_total _ _ _ Ht). apply sum_le. intros a Ha. pose proof (tiled_objs _ _ _ Ht a Ha). lia.
Qed.
Lemma tiled_count addr l top : OldGen.tiled addr (map (fun a => (a, bytes objs a)) l) top -> (forall a, a ∈ l -> is_Some (objs !! a)) -> 16 * zlen l <= top - addr.
Proof.
  revert addr. induction l as [|a l IH]; intros addr; cbn; [unfold zlen; cbn; lia|]. intros (<- & _ & _ & Ht) Ho. specialize (IH _ Ht ltac:(intros; apply Ho; by right)).
  destruct (bytes_pos _ _ _ _ _ _ _ Hwf a (Ho a ltac:(left))). rewrite zlen_cons. lia.
Qed.
Lemma tiled_NoDup addr l top : OldGen.tiled addr (map (fun a => (a, bytes objs a)) l) top -> NoDup l.
Proof.
  revert addr. induction l as [|a l IH]; intros addr; [constructor|]. intros (<- & Hpos & _ & Ht). constructor; [|by eapply IH].
  intros Hin. pose proof (tiled_objs _ _ _ Ht a Hin). lia.
Qed.
Lemma plan_within addr l top : OldGen.tiled addr (map (fun a => (a, bytes objs a)) l) top -> (forall a, a ∈ l -> is_Some (objs !! a)) -> forall e, e ∈ plan_of l addr ->
  addr <= e_new e /\ e_new e + 8 * e_size e <= top /\ addr <= e_old e /\ e_old e + 8 * e_size e <= top.
Proof.
  intros Ht Ho e He. destruct (plan_bytes l Ho addr e He) as [-> _]. pose proof (total_le _ _ _ Ht).
  destruct (plan_news l addr e) as [H1 H2]; [intros a Ha; by apply (tiled_objs _ _ _ Ht)|done|]. destruct (plan_olds _ _ _ He) as (Hl & _).
  destruct (tiled_objs _ _ _ Ht _ Hl) as (? & ? & _). lia.
Qed.

Lemma forwarding_loop_ok l : forall fuel m side addr top p, OldGen.tiled addr (map (fun a => (a, bytes objs a)) l) top -> (forall a, a ∈ l -> is_Some (objs !! a)) ->
  bodies m -> (forall a mk, a ∈ l -> M0 !! a = Some mk -> m !! a = Some (marked_word a mk)) -> (forall a, a ∈ l -> bytes objs a / 8 <= U32_MAX) ->
  zlen l <= Z.of_nat fuel ->
  exists m' side', forwarding_loop fuel m side addr top p = Some (m', side', plan_of l p, p + total K l) /\ bodies m' /\
    forwarded (plan_of l p) m m' /\ saved (plan_of l p) side side'.
Proof.
  induction l as [|a l IH]; intros fuel m side addr top p Ht Ho Hb Hm Hsz Hf.
  - cbn in Ht. subst addr. exists m, side. cbn [plan_of sum foldr]. rewrite Z.add_0_r. split_and!; [destruct fuel; cbn; by rewrite Z.ltb_irrefl|done|apply forwarded_nil|apply saved_nil].
  - pose proof (tiled_objs _ _ _ Ht) as Hin. destruct Ht as (<- & Hpos & _ & Ht). destruct (Ho a ltac:(left)) as [s Hs].
    destruct (bytes_pos _ _ _ _ _ _ _ Hwf a ltac:(by eexists)) as [H16 _]. pose proof (Hin a ltac:(left)) as (_ & Hle & _).
    destruct (wf_mark _ _ _ _ _ _ _ Hwf a s Hs) as (mk & Hmk & _). rewrite zlen_cons in Hf. pose proof (zlen_nonneg l). destruct fuel as [|fuel]; [lia|]. cbn [forwarding_loop]. destruct (Z.ltb_spec a top); [|lia].
    destruct (forward_object_ok m side a s mk p Hs Hmk Hb (Hm a mk ltac:(left) Hmk) (Hsz a ltac:(left))) as (m1 & side1 & -> & Hb1 & Hf1 & Hs1). cbn [mbind option_bind].
    assert (Hnot : forall x, x ∈ l -> a + bytes objs a <= x) by (intros x Hx; by apply (tiled_objs _ _ _ Ht)).
    destruct (IH fuel m1 side1 (a + bytes objs a) top (if decide (a ∈ K) then p + bytes objs a else p) Ht) as (m2 & side2 & E2 & Hb2 & Hf2 & Hs2).
    + intros; apply Ho; by right.
    + done.
    + intros x mk' Hx Hmk'. rewrite (proj2 Hf1); [apply Hm; [by right|done]|]. cbn [plan_of]. specialize (Hnot x Hx).
      case_decide; [intros ->%list_elem_of_singleton; cbn in *; lia|by intros ?%elem_of_nil].
    + intros; apply Hsz; by right.
    + lia.
    + exists m2, side2. change (a :: l) with ([a] ++ l). rewrite plan_of_app. cbn [sum foldr app plan_of] in *.
      assert (Hp : (p + ((if decide (a ∈ K) then bytes objs a else 0) + 0)) = if decide (a ∈ K) then p + bytes objs a else p) by (case_decide; lia).
      rewrite Hp. split_and!.
      * fold (total K l). case_decide; rewrite E2; cbn [mbind option_bind app]; by rewrite Z.add_assoc, ?Z.add_0_r.
      * done.
      * eapply forwarded_app; [exact Hf1|exact Hf2|]. intros e He (e' & Heq & He')%list_elem_of_fmap. apply plan_olds in He' as (Hl & _). specialize (Hnot _ Hl).
        case_decide; [apply list_elem_of_singleton in He as ->; cbn in *; lia|by apply elem_of_nil in He].
      * assert (Hd : forall e e', e ∈ (if decide (a ∈ K) then [MkEntry a p (bytes objs a / 8)] else []) -> e' ∈ plan_of l (if decide (a ∈ K) then p + bytes objs a else p) -> e_new e <> e_new e').
        { intros e e' He He'. apply plan_news in He' as [Hge _]; [|intros x Hx; by apply (tiled_objs _ _ _ Ht)].
          case_decide; [apply list_elem_of_singleton in He as ->; cbn [e_new]; lia|by apply elem_of_nil in He]. }
        eapply saved_app; [exact Hs1|exact Hs2|..].
        -- intros e He (e' & Heq & He')%list_elem_of_fmap. by eapply (Hd e e').
        -- intros e He (e' & Heq & He')%list_elem_of_fmap. by eapply (Hd e' e).
Qed.
(** ** Rewriting *)
(** [F] is where the marked objects go. *)
Context (F : gmap Z Z) (HFobj : forall a p, F !! a = Some p -> is_Some (objs !! a) /\ p mod 8 = 0).
Context (HFclosed : forall a s i w, is_Some (F !! a) -> objs !! a = Some s -> i ∈ oop_slots s -> M0 !! body_addr a i = Some w -> Oop.is_mem w = true ->
  is_Some (F !! Oop.mem_addr w)).
Definition in_F (w : Z) : Prop := Oop.is_mem w = true -> is_Some (F !! Oop.mem_addr w).
Definition fwd (m : memory) : Prop := forall a p, F !! a = Some p -> m !! a = Some (oop_of p).

Lemma forward_chase_ok m w : fwd m -> in_F w -> forward_chase m w = Some (reloc F w).
Proof.
  intros Hf Hw. unfold forward_chase, reloc. destruct (Oop.is_mem w) eqn:Hm; [|done]. destruct (Hw Hm) as [p Hp]. cbn [negb]. rewrite Hp.
  unfold is_forwarded, forwardee, mark_word_raw. change MARK_OFFSET with 0. rewrite Z.add_0_r, (Hf _ _ Hp). cbn [fmap option_fmap option_map mbind option_bind].
  by destruct (aligned_mem p (proj2 (HFobj _ _ Hp))) as (_ & _ & -> & _).
Qed.
Lemma chase_all_ok m ws : fwd m -> Forall in_F ws -> chase_all m ws = Some (map (reloc F) ws).
Proof.
  intros Hf. induction 1 as [|w ws Hw _ IH]; [done|]. cbn [chase_all map]. rewrite (forward_chase_ok m w Hf Hw). cbn [mbind option_bind]. by rewrite IH.
Qed.
Lemma fwd_set m a s i v : fwd m -> objs !! a = Some s -> -1 <= i < size_words s - 2 -> fwd (<[body_addr a i := v]> m).
Proof.
  intros Hf Hs Hr x p Hp. rewrite lookup_insert_ne; [by apply Hf|]. intros He. destruct (proj1 (HFobj _ _ Hp)) as [t Ht].
  rewrite <- (mark_addr x) in He. destruct (obj_shape _ _ _ _ _ _ _ Hwf x t Ht) as (_ & _ & Hz & _).
  destruct (word_inj a s i x t (-2) Hs ltac:(lia) Ht ltac:(lia) He). lia.
Qed.

Lemma chase_slots_ok a s is_ : objs !! a = Some s -> is_Some (F !! a) -> forall m, NoDup is_ -> (forall i, i ∈ is_ -> i ∈ oop_slots s) -> fwd m ->
  (forall i, i ∈ is_ -> m !! body_addr a i = M0 !! body_addr a i) -> exists m', visit_slots id (fun _ m => m) chase_visit m (slots_at a is_) = Some m' /\ fwd m' /\
    (forall i w, i ∈ is_ -> M0 !! body_addr a i = Some w -> m' !! body_addr a i = Some (reloc F w)) /\ (forall x, x ∉ slots_at a is_ -> m' !! x = m !! x).
Proof.
  intros Hs Ha. induction is_ as [|i is_ IH]; intros m Hnd Hin Hf Hm; cbn [slots_at map visit_slots].
  - exists m. split_and!; try done. by intros i w ?%elem_of_nil.
  - apply NoDup_cons in Hnd as [Hi Hnd]. assert (His : i ∈ oop_slots s) by (apply Hin; left). destruct (slot_word_valid a s i Hs His) as (w & Hw & Hv).
    pose proof (slot_in a s i Hs His) as Hr. set (m1 := <[body_addr a i := reloc F w]> m).
    assert (Hvs : visit_slot id (fun _ m => m) chase_visit m (body_addr a i) = Some m1).
    { unfold visit_slot, chase_visit, id. rewrite (Hm i ltac:(left)), Hw. cbn [mbind option_bind]. rewrite (proj1 Hv). cbn [mbind option_bind].
      rewrite forward_chase_ok; [done|done|]. intros Hmm. by eapply HFclosed. }
    assert (Hne : forall j, j ∈ is_ -> body_addr a i <> body_addr a j) by (intros j Hj He; rewrite !body_addr_eq in He; assert (i = j) by lia; congruence).
    rewrite Hvs. cbn [mbind option_bind]. destruct (IH m1 Hnd ltac:(intros; apply Hin; by right) (fwd_set _ _ _ _ _ Hf Hs Hr)) as (m' & E & Hf' & H1 & H2).
    { intros j Hj. unfold m1. rewrite lookup_insert_ne by (by apply Hne). apply Hm. by right. }
    exists m'. split_and!; [done|done|..].
    + intros j w' [->|Hj]%elem_of_cons Hw'; [|by apply H1]. rewrite Hw in Hw'. injection Hw' as <-. rewrite H2; [apply lookup_insert_eq|].
      intros (j & He & Hj)%elem_of_slots_at. by eapply Hne.
    + intros x Hx. apply not_elem_of_cons in Hx as [Hx1 Hx2]. rewrite H2 by done. by apply lookup_insert_ne.
Qed.

Lemma word_after_smi s i w : Oop.is_mem w = false -> word_after F s i w = w.
Proof. intros Hm. unfold word_after, reloc. rewrite Hm. by case_decide. Qed.

(** The objects of [R] have been rewritten, the others not yet. *)
Record rewritten (R : list Z) (m : memory) : Prop := {
  r_fwd : fwd m;
  r_words : forall a s i w, objs !! a = Some s -> -1 <= i < size_words s - 2 -> M0 !! body_addr a i = Some w ->
    m !! body_addr a i = Some (if decide (a ∈ R) then word_after F s i w else w) }.
Lemma rewritten_smis R m a : rewritten R m -> smis m a a.
Proof. intros Hm s i w Hs Hr Hw Hsmi. rewrite (r_words _ _ Hm a s i w Hs Hr Hw), word_after_smi by done. by case_decide. Qed.
Lemma rewritten_ext R R' m : rewritten R m -> (forall a, a ∈ R <-> a ∈ R') -> rewritten R' m.
Proof.
  intros Hm Hr. split; [by apply (r_fwd _ _ Hm)|]. intros a s i w Hs Hi Hw. rewrite (r_words _ _ Hm a s i w Hs Hi Hw). f_equal. specialize (Hr a).
  destruct (decide (a ∈ R)), (decide (a ∈ R')); tauto.
Qed.

(** A visit that also keeps the size slot: its words that are no oops. *)
Lemma chase_fields_ok R m a s k : rewritten R m -> objs !! a = Some s -> is_Some (F !! a) -> a ∉ R -> klass_word a k ->
  exists m', visit_fields id (fun _ m => m) chase_visit m a k = Some m' /\ fwd m' /\
    (forall i w, i ∈ body_slots s -> M0 !! body_addr a i = Some w -> m' !! body_addr a i = Some (reloc F w)) /\
    (forall x, x ∉ slots_at a (body_slots s) -> m' !! x = m !! x).
Proof.
  intros Hm Hs Ha HaR Hkw. destruct (object_klass a s Hs) as (k' & ks & kk & kks & H1 & H2 & H3 & H4 & H5 & _).
  assert (k' = k) as -> by (unfold klass_word, oop_of in *; rewrite Hkw in H1; injection H1; lia).
  assert (Hsh : shape_with m a k = Some s) by (eapply (shape_at m a a s k ks k); try done; by eapply rewritten_smis).
  pose proof (oop_slots_NoDup _ _ _ _ _ _ _ Hwf a s Hs) as Hnd. apply NoDup_cons in Hnd as [_ Hnd].
  assert (Hw0 : forall i, i ∈ body_slots s -> m !! body_addr a i = M0 !! body_addr a i).
  { intros i Hi. destruct (slot_word_valid a s i Hs ltac:(by right)) as (w & Hw & _). rewrite Hw, (r_words _ _ Hm a s i w Hs (slot_in a s i Hs ltac:(by right)) Hw). by rewrite decide_False. }
  rewrite (visit_fields_eq id (fun _ m => m) chase_visit m a k s Hsh).
  - apply (chase_slots_ok a s (body_slots s) Hs Ha m Hnd); [intros; by right|apply (r_fwd _ _ Hm)|done].
  - intros m1 Hm1 Ht. pose proof Hnd as Hnd1. unfold body_slots in Hnd1. apply NoDup_app in Hnd1 as (Hnd1 & _).
    destruct (chase_slots_ok a s (named_slots s) Hs Ha m Hnd1) as (m2 & E & _ & _ & Hrest).
    { intros i Hi. right. apply elem_of_app. by left. }
    { apply (r_fwd _ _ Hm). }
    { intros i Hi. apply Hw0, elem_of_app. by left. }
    rewrite Hm1 in E. injection E as <-. destruct (shape_fields _ _ _ _ Hsh) as (B1 & _ & _ & _ & Hlen).
    unfold id in *. assert (Hix : indexable (s_format s) = true) by (by destruct (s_format s)). specialize (Hlen Hix).
    unfold raw_size_slot, named_words, raw_body_word in *. destruct (Z.ltb_spec (s_nis s) HEADER_WORDS); [unfold HEADER_WORDS in *; lia|].
    cbn [mbind option_bind] in *. rewrite Hrest; [exact Hlen|]. intros (i & He & Hi)%elem_of_slots_at. rewrite !body_addr_eq in He.
    destruct (obj_shape _ _ _ _ _ _ _ Hwf a s Hs) as (C1 & C2 & _). destruct (elem_of_body_slots s i C1 C2) as [_ Hn]; [apply elem_of_app; by left|].
    apply Hn; [done|]. unfold HEADER_WORDS in He. lia.
Qed.
Lemma rewrite_entry_ok R m e s : rewritten R m -> objs !! e_old e = Some s -> is_Some (F !! e_old e) -> e_old e ∉ R ->
  exists m', rewrite_entry m e = Some m' /\ rewritten (e_old e :: R) m'.
Proof.
  set (a := e_old e). intros Hm Hs Ha HaR. destruct (object_klass a s Hs) as (k & ks & _ & _ & Hkw & Hkm & _). destruct (obj_shape _ _ _ _ _ _ _ Hwf a s Hs) as (_ & _ & Hz & _).
  destruct (mem_oop_of k Hkm) as [_ Hfr]. unfold rewrite_entry. fold a. unfold klass_oop. change (a + KLASS_OFFSET) with (body_addr a (-1)).
  assert (Hk : m !! body_addr a (-1) = Some (oop_of k)) by (rewrite (r_words _ _ Hm a s (-1) (oop_of k) Hs ltac:(lia) Hkw); by rewrite decide_False).
  rewrite Hk. cbn [mbind option_bind]. rewrite Hfr. cbn [mbind option_bind]. replace (Oop.mem_addr (oop_of k)) with k by (unfold oop_of, Oop.mem_addr; lia).
  destruct (chase_fields_ok R m a s k Hm Hs Ha HaR Hkw) as (m1 & -> & Hf1 & Hin & Hout). cbn [mbind option_bind].
  assert (Hkin : in_F (oop_of k)) by (intros Hmm; eapply HFclosed; [exact Ha|exact Hs|left|exact Hkw|done]).
  rewrite (forward_chase_ok m1 _ Hf1 Hkin). cbn [mbind option_bind]. eexists. split; [reflexivity|]. unfold set_klass_raw. change (a + KLASS_OFFSET) with (body_addr a (-1)).
  split; [eapply (fwd_set m1 a s (-1)); [done|done|lia]|]. intros a' s' i w Hs' Hr Hw. destruct (decide (body_addr a (-1) = body_addr a' i)) as [He|Hne].
  - destruct (word_inj a s (-1) a' s' i Hs ltac:(lia) Hs' ltac:(lia) He) as [<- <-]. rewrite lookup_insert_eq. rewrite decide_True by left. f_equal.
    unfold klass_word in Hkw. rewrite Hkw in Hw. injection Hw as <-. unfold word_after. by rewrite decide_True by left.
  - rewrite lookup_insert_ne by done. destruct (decide (a' = a)) as [->|Hna].
    + rewrite Hs in Hs'. injection Hs' as <-. rewrite decide_True by left. unfold word_after. case_decide as Hio.
      * apply elem_of_cons in Hio as [->|Hio]; [done|]. by apply Hin.
      * rewrite Hout; [|intros (j & He & Hj)%elem_of_slots_at; rewrite !body_addr_eq in He; assert (i = j) by lia; subst; by apply Hio; right].
        rewrite (r_words _ _ Hm a s i w Hs Hr Hw). by rewrite decide_False.
    + rewrite Hout; [|intros (j & He & Hj)%elem_of_slots_at; destruct (word_inj a' s' i a s j Hs' ltac:(lia) Hs) as [-> _]; [|done|done]; pose proof (slot_in a s j Hs ltac:(by right)); lia].
      rewrite (r_words _ _ Hm a' s' i w Hs' Hr Hw). f_equal. assert (Hiff : a' ∈ a :: R <-> a' ∈ R) by (rewrite elem_of_cons; tauto).
      destruct (decide (a' ∈ R)), (decide (a' ∈ a :: R)); tauto.
Qed.
Lemma rewrite_entries_ok plan : forall R m, rewritten R m -> NoDup (map e_old plan) -> (forall e, e ∈ plan -> is_Some (F !! e_old e) /\ e_old e ∉ R) ->
  exists m', rewrite_entries m plan = Some m' /\ rewritten (map e_old plan ++ R) m'.
Proof.
  induction plan as [|e plan IH]; intros R m Hm Hnd He; cbn [rewrite_entries map app]; [by exists m|]. apply NoDup_cons in Hnd as [Hn Hnd].
  destruct (He e ltac:(left)) as [HF HR]. pose proof HF as [p Hp]. destruct (proj1 (HFobj _ _ Hp)) as [s Hs].
  destruct (rewrite_entry_ok R m e s Hm Hs HF HR) as (m1 & -> & Hm1). cbn [mbind option_bind].
  destruct (IH (e_old e :: R) m1 Hm1 Hnd) as (m' & -> & Hm').
  { intros e' He'. destruct (He e' ltac:(by right)) as [HF' HR']. split; [done|]. rewrite not_elem_of_cons. split; [|done].
    intros Heq. apply Hn. rewrite <- Heq. apply list_elem_of_fmap. by exists e'. }
  exists m'. split; [done|]. eapply rewritten_ext; [exact Hm'|]. intros a. rewrite !elem_of_app, !elem_of_cons, elem_of_app. tauto.
Qed.
(** ** After the slide *)
Context (HFapart : forall a p a' p', F !! a = Some p -> F !! a' = Some p' -> a <> a' -> p + bytes objs a <= p' \/ p' + bytes objs a' <= p).
Definition carried (m : memory) : Prop := forall a p s i w, F !! a = Some p -> objs !! a = Some s -> -1 <= i < size_words s - 2 ->
  M0 !! body_addr a i = Some w -> m !! body_addr p i = Some (word_after F s i w).
Lemma carried_smis m a p : carried m -> F !! a = Some p -> smis m a p.
Proof. intros Hc Hp s i w Hs Hr Hw Hsmi. rewrite (Hc a p s i w Hp Hs Hr Hw). by rewrite word_after_smi. Qed.

Lemma has_untagged_at m k ks kp : objs !! k = Some ks -> 4 <= size_words ks -> is_Some (format M0 k) -> smis m k kp ->
  exists u, has_untagged_contents M0 k = Some u /\ has_untagged_contents m kp = Some u.
Proof.
  intros Hks H4 [f Hf] Hs. unfold has_untagged_contents, format, raw_body_word, KLASS_FORMAT_INDEX in *.
  destruct (M0 !! body_addr k 0) as [fw|] eqn:Hfw; [|done]. cbn [mbind option_bind] in *. destruct (smi_field fw) as [v|] eqn:Hv; [|done].
  rewrite (Hs ks 0 fw Hks ltac:(lia) Hfw (smi_field_not_mem _ _ Hv)). cbn [mbind option_bind]. rewrite Hv. cbn [mbind option_bind]. by eexists.
Qed.
Lemma carried_klass m a p s : carried m -> F !! a = Some p -> objs !! a = Some s -> exists k ks kp u, klass_word a k /\ F !! k = Some kp /\ objs !! k = Some ks /\
  4 <= size_words ks /\ m !! body_addr p (-1) = Some (oop_of kp) /\ Oop.is_mem (oop_of kp) = true /\ shape_with m p kp = Some s /\
  klass_of_oop m (oop_of kp) = Some kp /\ klass m p = Some kp /\ has_untagged_contents M0 k = Some u /\ has_untagged_contents m kp = Some u.
Proof.
  intros Hc Hp Hs. destruct (object_klass a s Hs) as (k & ks & kk & kks & H1 & H2 & H3 & H4 & H5 & H6 & H7 & H8 & H9 & H10).
  assert (Hmem : forall x, Oop.mem_addr (oop_of x) = x) by (intros; unfold oop_of, Oop.mem_addr; lia). pose proof (obj_shape _ _ _ _ _ _ _ Hwf) as Hshape.
  assert (Hnext : forall x xs y q, objs !! x = Some xs -> F !! x = Some q -> klass_word x y -> Oop.is_mem (oop_of y) = true -> exists yp, F !! y = Some yp /\
    m !! body_addr q (-1) = Some (oop_of yp) /\ Oop.is_mem (oop_of yp) = true).
  { intros x xs y q Hxs Hq Hy Hm. destruct (HFclosed x xs (-1) (oop_of y) ltac:(by eexists) Hxs ltac:(left) Hy Hm) as [yp Hyp]. rewrite Hmem in Hyp. exists yp.
    destruct (Hshape x xs Hxs) as (_ & _ & Hz & _). split_and!; [done| |apply aligned_mem; by eapply HFobj]. rewrite (Hc x q xs (-1) (oop_of y) Hq Hxs ltac:(lia) Hy).
    unfold word_after, reloc. rewrite decide_True by left. by rewrite Hm, Hmem, Hyp. }
  destruct (Hnext a s k p Hs Hp H1 H2) as (kp & Hkp & Hkw & Hkm). destruct (Hnext k ks kk kp H3 Hkp H7 H8) as (kkp & Hkkp & Hkkw & Hkkm).
  assert (Hkl : klass_of_oop m (oop_of kp) = Some kp) by (eapply klass_of_at; try done; by apply carried_smis).
  assert (Hsh : shape_with m p kp = Some s) by (eapply (shape_at m a p s k ks kp); try done; by apply carried_smis).
  assert (Hfmt : is_Some (format M0 k)) by (destruct (shape_fields _ _ _ _ H5) as (_ & _ & _ & Hf & _); by eexists).
  destruct (has_untagged_at m k ks kp H3 H4 Hfmt ltac:(by apply carried_smis)) as (u & Hu0 & Hu).
  exists k, ks, kp, u. split_and!; try done. unfold klass, klass_oop. change (p + KLASS_OFFSET) with (body_addr p (-1)). rewrite Hkw. cbn [mbind option_bind].
  destruct (mem_oop_of kp Hkm) as [_ ->]. done.
Qed.

Lemma carried_mark m a p mk : carried m -> F !! a = Some p -> carried (<[p := mk]> m).
Proof.
  intros Hc Hp a' p' s' i w Hp' Hs' Hr Hw. rewrite lookup_insert_ne; [by eapply Hc|]. rewrite body_addr_eq. intros He.
  destruct (bytes_pos _ _ _ _ _ _ _ Hwf a ltac:(by eapply HFobj)). destruct (obj_shape _ _ _ _ _ _ _ Hwf a' s' Hs') as (_ & _ & _ & Hb).
  destruct (decide (a = a')) as [->|Hne]; [rewrite Hp in Hp'; injection Hp' as ->; lia|]. destruct (HFapart a p a' p' Hp Hp' Hne); lia.
Qed.
Lemma restore_marks_ok side plan : forall m, carried m -> (forall e, e ∈ plan -> F !! e_old e = Some (e_new e)) -> NoDup (map e_new plan) ->
  exists m', restore_marks m side plan = Some m' /\ carried m' /\ (forall x, x ∉ map e_new plan -> m' !! x = m !! x) /\
    (forall e, e ∈ plan -> exists k u, klass_word (e_old e) k /\ has_untagged_contents M0 k = Some u /\ m' !! e_new e = Some (restored side (e_new e) u)).
Proof.
  induction plan as [|e plan IH]; intros m Hc Hp Hnd; cbn [restore_marks].
  - exists m. split_and!; try done. by intros e ?%elem_of_nil.
  - apply NoDup_cons in Hnd as [Hn Hnd]. pose proof (Hp e ltac:(left)) as He. destruct (proj1 (HFobj _ _ He)) as [s Hs].
    destruct (carried_klass m _ _ s Hc He Hs) as (k & ks & kp & u & H1 & _ & _ & _ & _ & _ & _ & _ & -> & Hu0 & Hu). cbn [mbind option_bind].
    rewrite Hu. cbn [mbind option_bind]. rewrite set_mark_eq.
    destruct (IH (<[e_new e := restored side (e_new e) u]> m)) as (m' & -> & Hc' & Ho & Hm'); [by eapply carried_mark|intros; apply Hp; by right|done|].
    exists m'. split_and!; [done|done|..].
    + intros x Hx. apply not_elem_of_cons in Hx as [Hx1 Hx2]. rewrite Ho by done. by apply lookup_insert_ne.
    + intros e' [->|He']%elem_of_cons; [|by apply Hm']. exists k, u. split_and!; [done|done|]. rewrite Ho by done. apply lookup_insert_eq.
Qed.
End heap.

(** ** Sliding *)
Lemma read_words_ok n : forall m src, (forall i, 0 <= i < Z.of_nat n -> is_Some (m !! (src + 8 * i))) ->
  exists ws, read_words n m src = Some ws /\ length ws = n /\ forall j w, ws !! j = Some w -> m !! (src + 8 * Z.of_nat j) = Some w.
Proof.
  induction n as [|n IH]; intros m src Hm; cbn [read_words]; [by exists []|]. destruct (Hm 0 ltac:(lia)) as [w Hw]. rewrite Z.add_0_r in Hw. rewrite Hw. cbn [mbind option_bind].
  destruct (IH m (src + 8)) as (ws & -> & Hl & Hws).
  { intros i Hi. replace (src + 8 + 8 * i) with (src + 8 * (i + 1)) by lia. apply Hm. lia. }
  cbn [mbind option_bind]. exists (w :: ws). split_and!; [done|by cbn; f_equal|]. intros [|j] w'; cbn [lookup list_lookup].
  - intros [= <-]. by rewrite Z.add_0_r.
  - intros H. apply Hws in H. by replace (src + 8 * Z.of_nat (S j)) with (src + 8 + 8 * Z.of_nat j) by lia.
Qed.
Lemma write_words_ok ws : forall m dst, (forall j w, ws !! j = Some w -> write_words m dst ws !! (dst + 8 * Z.of_nat j) = Some w) /\
  (forall x, x < dst \/ dst + 8 * zlen ws <= x -> write_words m dst ws !! x = m !! x).
Proof.
  induction ws as [|w ws IH]; intros m dst; cbn [write_words]; [split; [by intros [|]|done]|]. destruct (IH (<[dst := w]> m) (dst + 8)) as [H1 H2].
  pose proof (zlen_nonneg ws). rewrite zlen_cons. split.
  - intros [|j] w'; cbn [lookup list_lookup].
    + intros [= <-]. rewrite H2 by lia. replace (dst + 8 * Z.of_nat 0) with dst by lia. apply lookup_insert_eq.
    + intros Hj. replace (dst + 8 * Z.of_nat (S j)) with (dst + 8 + 8 * Z.of_nat j) by lia. by apply H1.
  - intros x Hx. rewrite H2 by lia. apply lookup_insert_ne. lia.
Qed.
Lemma move_words_ok n m src dst : (forall i, 0 <= i < Z.of_nat n -> is_Some (m !! (src + 8 * i))) -> exists m', move_words n m src dst = Some m' /\
  (forall i, 0 <= i < Z.of_nat n -> m' !! (dst + 8 * i) = m !! (src + 8 * i)) /\ (forall x, x < dst \/ dst + 8 * Z.of_nat n <= x -> m' !! x = m !! x).
Proof.
  intros Hm. destruct (read_words_ok n m src Hm) as (ws & Hr & Hl & Hws). unfold move_words. rewrite Hr. cbn [mbind option_bind]. eexists. split; [reflexivity|].
  destruct (write_words_ok ws m dst) as [H1 H2]. split.
  - intros i Hi. destruct (lookup_lt_is_Some_2 ws (Z.to_nat i) ltac:(lia)) as [w Hw]. pose proof (H1 _ _ Hw) as A. pose proof (Hws _ _ Hw) as B. rewrite Z2Nat.id in A, B by lia. congruence.
  - intros x Hx. apply H2. unfold zlen. rewrite Hl. done.
Qed.

(** Moving [e] spares where [e'] is and where it goes. *)
Definition spares (e e' : CompactEntry) : Prop := let apart x n y m := x + 8 * n <= y \/ y + 8 * m <= x in
  apart (e_new e) (e_size e) (e_old e') (e_size e') /\ apart (e_new e) (e_size e) (e_new e') (e_size e').
Fixpoint slidable (plan : list CompactEntry) : Prop :=
  match plan with [] => True | e :: plan => (forall e', e' ∈ plan -> spares e e') /\ slidable plan end.
Lemma slidable_app p q : slidable p -> slidable q -> (forall e e', e ∈ p -> e' ∈ q -> spares e e') -> slidable (p ++ q).
Proof.
  intros Hp Hq Hc. induction p as [|e p IH]; [done|]. destruct Hp as [H1 H2]. split.
  - intros e' [He|He]%elem_of_app; [by apply H1|apply Hc; [left|done]].
  - apply IH; [done|]. intros; apply Hc; [by right|done].
Qed.
Lemma slidable_pair p e e' : slidable p -> e ∈ p -> e' ∈ p -> e <> e' -> spares e e' \/ spares e' e.
Proof.
  induction p as [|x p IH]; [by intros _ ?%elem_of_nil|]. intros [H1 H2] [->|He]%elem_of_cons [->|He']%elem_of_cons Hne; [done|left; by apply H1|right; by apply H1|by apply IH].
Qed.
Lemma slidable_NoDup p : slidable p -> (forall e, e ∈ p -> 0 < e_size e) -> NoDup (map e_new p).
Proof.
  induction p as [|e p IH]; intros Hs Hz; [constructor|]. destruct Hs as [H1 H2]. constructor; [|apply IH; [done|intros; apply Hz; by right]].
  intros (e' & He & Hin)%list_elem_of_fmap. pose proof (Hz e ltac:(left)). pose proof (Hz e' ltac:(by right)). destruct (H1 e' Hin) as [_ [?|?]]; lia.
Qed.
(** Downwards and in order, nothing is in the way. *)
Fixpoint downwards (n o : Z) (plan : list CompactEntry) : Prop :=
  match plan with
  | [] => True
  | e :: plan => n <= e_new e /\ o <= e_old e /\ e_new e <= e_old e /\ 0 <= e_size e /\ downwards (e_new e + 8 * e_size e) (e_old e + 8 * e_size e) plan
  end.
Lemma downwards_in plan : forall n o e, downwards n o plan -> e ∈ plan -> n <= e_new e /\ o <= e_old e.
Proof.
  induction plan as [|x plan IH]; intros n o e; [by intros _ ?%elem_of_nil|]. intros (H1 & H2 & H3 & H4 & Hd) [->|He]%elem_of_cons; [done|].
  destruct (IH _ _ _ Hd He). lia.
Qed.
Lemma downwards_slidable plan : forall n o, downwards n o plan -> slidable plan.
Proof.
  induction plan as [|e plan IH]; intros n o; [done|]. intros (H1 & H2 & H3 & H4 & Hd). split; [|by eapply IH].
  intros e' He'. destruct (downwards_in _ _ _ _ Hd He'). split; left; lia.
Qed.
Lemma slide_young_app p q m : slide_young m (p ++ q) = m' ← slide_young m p; slide_young m' q.
Proof. revert m. induction p as [|e p IH]; intros m; cbn; [done|]. destruct (move_words _ m _ _); cbn; [apply IH|done]. Qed.

Lemma slide_young_ok plan : forall m, slidable plan -> (forall e i, e ∈ plan -> 0 <= i < e_size e -> is_Some (m !! (e_old e + 8 * i))) ->
  (forall e, e ∈ plan -> 0 <= e_size e) -> exists m', slide_young m plan = Some m' /\
    (forall e i, e ∈ plan -> 0 <= i < e_size e -> m' !! (e_new e + 8 * i) = m !! (e_old e + 8 * i)) /\
    (forall x, (forall e, e ∈ plan -> x < e_new e \/ e_new e + 8 * e_size e <= x) -> m' !! x = m !! x).
Proof.
  induction plan as [|e plan IH]; intros m Hsl Hm Hsz; cbn [slide_young].
  - exists m. split_and!; try done. by intros e i ?%elem_of_nil.
  - destruct Hsl as [Hs1 Hsl]. pose proof (Hsz e ltac:(left)) as Hz. destruct (move_words_ok (Z.to_nat (e_size e)) m (e_old e) (e_new e)) as (m1 & -> & H1 & H2).
    { intros i Hi. apply Hm; [left|lia]. }
    cbn [mbind option_bind]. rewrite Z2Nat.id in * by done.
    assert (Hsrc : forall e' i, e' ∈ plan -> 0 <= i < e_size e' -> m1 !! (e_old e' + 8 * i) = m !! (e_old e' + 8 * i)).
    { intros e' i He' Hi. apply H2. destruct (Hs1 e' He') as [[?|?] _]; lia. }
    destruct (IH m1 Hsl) as (m' & -> & H3 & H4); [intros e' i He' Hi; rewrite Hsrc by done; apply Hm; [by right|done]|intros; apply Hsz; by right|].
    exists m'. split_and!; [done|..].
    + intros e' i [->|He']%elem_of_cons Hi; [|rewrite H3 by done; by apply Hsrc]. rewrite H4; [by apply H1|].
      intros e2 He2. destruct (Hs1 e2 He2) as [_ [?|?]]; lia.
    + intros x Hx. rewrite H4; [apply H2, Hx; left|]. intros; apply Hx; by right.
Qed.

(** ** The offset table *)
Fixpoint record_all (t : Offsets.OffsetTable) (plan : list CompactEntry) : option Offsets.OffsetTable :=
  match plan with [] => Some t | e :: plan => t ← Offsets.record_object t (e_new e) (e_size e * 8); record_all t plan end.
Lemma slide_entries_eq plan : forall m t m' t', slide_young m plan = Some m' -> record_all t plan = Some t' -> slide_entries m t plan = Some (m', t').
Proof.
  induction plan as [|e plan IH]; intros m t m' t'; cbn; [by intros [= ->] [= ->]|]. destruct (move_words _ m _ _) as [m1|]; [|done].
  destruct (Offsets.record_object _ _ _) as [t1|]; [|done]. cbn [mbind option_bind]. apply IH.
Qed.
Lemma record_all_ok b plan : forall t a top, Offsets.well_formed t b -> OldGen.tiled a (map (fun e => (e_new e, 8 * e_size e)) plan) top ->
  Geometry.b_start b <= a -> a mod 8 = 0 -> top <= Geometry.b_end b -> exists t', record_all t plan = Some t' /\ Offsets.well_formed t' b /\
    (forall e, e ∈ plan -> Offsets.recorded t' (e_new e) (8 * e_size e)) /\ (forall x s, x + s <= a -> Offsets.recorded t x s -> Offsets.recorded t' x s).
Proof.
  induction plan as [|e plan IH]; intros t a top Hw Ht Hs H8 He; cbn [record_all].
  - exists t. split_and!; try done. by intros e ?%elem_of_nil.
  - destruct Ht as (Ha & Hpos & Hm & Ht). subst a. pose proof (OldGen.tiled_bounds _ _ _ Ht) as (Hle & _).
    destruct (Offsets.record_object_ok t b (e_new e) (e_size e * 8) Hw H8 Hs ltac:(lia) ltac:(lia)) as (t1 & -> & Hw1 & Hr1 & Ho1). cbn [mbind option_bind].
    destruct (IH t1 _ top Hw1 Ht ltac:(lia)) as (t' & -> & Hw' & Hr' & Ho'); [rewrite Z.add_mod, H8, Hm by done; done|done|].
    exists t'. split_and!; [done|done|..].
    + intros e' [->|He']%elem_of_cons; [|by apply Hr']. apply Ho'; [lia|]. by rewrite Z.mul_comm.
    + intros x s' Hx Hr. apply Ho'; [lia|]. by apply Ho1.
Qed.
Lemma clear_through_ok b t top : Offsets.well_formed t b -> top <= Geometry.b_end b -> exists t', Offsets.clear_through t top = Some t' /\ Offsets.well_formed t' b.
Proof.
  intros (H1 & H2 & H3) Ht. unfold Offsets.clear_through. destruct (Z.leb_spec top (Offsets.old_start t)); [by exists t|].
  rewrite Offsets.offset_index_eq by lia. cbn [mbind option_bind].
  destruct (zset_all_ok (fun _ => 0) (zrange 0 ((top - 1 - Offsets.old_start t) / 512 + 1)) (Offsets.entries t)) as (es & -> & Hl & _).
  { intros i Hi%elem_of_zrange. rewrite H3, H2. pose proof (Cards.cards_for_covers b (top - 1) ltac:(lia)). rewrite H1 in *. lia. }
  eexists. split; [reflexivity|]. split_and!; cbn; [done|done|lia].
Qed.
(** ** The cards *)
Lemma card_clean_ok cs b i : Cards.well_formed cs b -> 0 <= i < Cards.n_cards cs -> exists cs', Cards.set_clean cs i = Some cs' /\ Cards.well_formed cs' b.
Proof.
  intros (H1 & H2 & H3) Hi. unfold Cards.set_clean, Cards.store. rewrite zset_ok by lia. cbn [mbind option_bind]. eexists. split; [reflexivity|].
  split_and!; cbn; [done|done|]. by rewrite zlen_insert.
Qed.
Lemma clean_all_ok b is_ : forall cs, Cards.well_formed cs b -> (forall i, i ∈ is_ -> 0 <= i < Cards.cards_for b) ->
  exists cs', clean_all cs is_ = Some cs' /\ Cards.well_formed cs' b.
Proof.
  induction is_ as [|i is_ IH]; intros cs Hw Hi; cbn [clean_all]; [by exists cs|].
  destruct (card_clean_ok cs b i Hw) as (cs1 & -> & Hw1); [destruct Hw as (_ & -> & _); apply Hi; left|]. cbn [mbind option_bind]. apply IH; [done|]. intros; apply Hi; by right.
Qed.
Lemma post_ok b cs top : Cards.well_formed cs b -> Geometry.b_start b <= top <= Geometry.b_end b -> exists cs', post cs (Geometry.b_start b) top = Some cs' /\
  Cards.well_formed cs' b /\ forall x, Geometry.b_start b <= x < top -> Cards.is_dirty cs' (card_of b x) = Some true.
Proof.
  intros Hw Ht. unfold post. destruct (Z.ltb_spec (Geometry.b_start b) top) as [Hlt|Hge].
  - pose proof Hw as (H1 & H2 & H3). rewrite Cards.card_index_eq by lia. cbn [mbind option_bind]. pose proof (Cards.cards_for_covers b (top - 1) ltac:(lia)) as Hc.
    destruct (clean_all_ok b (zrange 0 ((top - 1 - Cards.old_start cs) / 512 + 1)) cs Hw) as (cs1 & -> & Hw1); [intros i Hi%elem_of_zrange; rewrite H1 in Hi; lia|].
    cbn [mbind option_bind]. destruct (Cards.record_multistores_ok cs1 b (Geometry.b_start b) top Hw1 ltac:(lia) ltac:(lia)) as (cs2 & -> & Hw2 & Hd).
    exists cs2. split_and!; [done|done|]. intros x Hx. pose proof (Cards.cards_for_covers b x ltac:(lia)) as Hcx. destruct Hw1 as (G1 & G2 & G3).
    assert (0 <= (x - Geometry.b_start b) / 512) by (apply Z.div_pos; lia). unfold card_of, OS. rewrite Hd by lia. rewrite decide_True; [done|].
    rewrite Cards.card_base_eq, G1. change CARD_SIZE with 512. Z.div_mod_to_equations; lia.
  - cbn [mbind option_bind]. unfold Cards.record_multistores. destruct (Z.leb_spec top (Geometry.b_start b)); [|lia]. exists cs. split_and!; [done|done|lia].
Qed.
End FullGcInv.
