(* ===== verification/FullGcCorrect.v ===== *)
(** What a full collection ([src/src/memory/fullgc.rs]) does to a heap: the
    objects reachable from the roots, and only those, stay, each in its space
    and in its order, without gaps; every word that named one names it at its
    new place; and the heap is one the next collection can start from. *)
From S2P Require Import Prelude Oops OldSpace Heap Scavenge ScavengeInv ScavengeCorrect FullGc FullGcInv.
From stdpp Require Import gmap.
#[local] Open Scope Z_scope.

Module FullGcCorrect.
Import Heap Scavenge ScavengeInv ScavengeCorrect FullGc FullGcInv.

Section collection.
Context (st : gcstate) (objs : gmap Z shape) (edens froms olds : list Z) (roots code_roots keys : list Z).
#[local] Abbreviation b := (OldGen.bounds (old st)).
#[local] Abbreviation M0 := (mem st).
#[local] Abbreviation es := (Spaces.s_start (eden st)).
#[local] Abbreviation et := (Spaces.s_top (eden st)).
#[local] Abbreviation fs := (Spaces.s_start (from st)).
#[local] Abbreviation ft := (Spaces.s_top (from st)).
#[local] Abbreviation os := (Geometry.b_start (OldGen.bounds (old st))).
#[local] Abbreviation ot := (OldGen.top (old st)).

(** Reachable from the roots, in whatever generation. *)
Inductive alive : Z -> Prop :=
  | alive_root w : w ∈ roots ++ code_roots -> Oop.is_mem w = true -> alive (Oop.mem_addr w)
  | alive_slot a s i w : alive a -> objs !! a = Some s -> i ∈ oop_slots s -> M0 !! body_addr a i = Some w ->
      Oop.is_mem w = true -> alive (Oop.mem_addr w).

Context (Hok : heap_ok st objs olds) (Hy : young_ok st objs edens froms).
Context (Hroots : Forall (valid objs) (roots ++ code_roots)) (Hkeys : Forall (fun k => valid objs k /\ Oop.is_mem k = true) keys).
Context (Hsmall : forall a s, objs !! a = Some s -> size_words s <= U32_MAX).
#[local] Abbreviation Hwf := (h_wf st objs olds Hok).

Definition everything : list Z := edens ++ froms ++ olds.

Lemma tiled_olds : OldGen.tiled os (map (fun a => (a, bytes objs a)) olds) ot.
Proof. exact (OldGen.i_tiled _ _ (h_old _ _ _ Hok)). Qed.
Lemma old_range : os <= ot <= Geometry.b_end b.
Proof.
  pose proof (OldGen.i_top _ _ (h_old _ _ _ Hok)) as H. cbn in H. pose proof (OldGen.tiled_bounds _ _ _ tiled_olds) as (? & _). lia.
Qed.
Lemma eden_objs a : a ∈ edens -> is_Some (objs !! a) /\ a < os.
Proof. intros Ha. apply (y_young _ _ _ _ Hy). apply elem_of_app. by left. Qed.
Lemma from_objs a : a ∈ froms -> is_Some (objs !! a) /\ a < os.
Proof. intros Ha. apply (y_young _ _ _ _ Hy). apply elem_of_app. by right. Qed.
Lemma old_objs a : a ∈ olds -> is_Some (objs !! a) /\ os <= a.
Proof. apply (wf_olds _ _ _ _ _ _ _ Hwf). Qed.
Lemma elem_of_everything a : a ∈ everything <-> is_Some (objs !! a).
Proof.
  unfold everything. rewrite app_assoc, elem_of_app, <- (y_young _ _ _ _ Hy a), (wf_olds _ _ _ _ _ _ _ Hwf a). unfold is_young.
  split; [tauto|]. intros Ha. destruct (decide (a < os)); [left; by split|right; split; [done|unfold OS; lia]].
Qed.

(** The three ranges, each below its own end and apart from the others. *)
Lemma ranges : (es mod 8 = 0 /\ fs mod 8 = 0 /\ os mod 8 = 0) /\ (et <= fs \/ ft <= es) /\ et <= os /\ ft <= os /\ es <= et /\ fs <= ft.
Proof.
  destruct Hy as [Y1 Y2 Y3 (Y41 & Y42 & Y43) (Y51 & Y52 & Y53) (Y6 & _) _]. pose proof (wf_layout _ _ _ _ _ _ _ Hwf) as (_ & _ & L3 & _). pose proof (h_from _ _ _ Hok) as (F1 & F2 & F3).
  pose proof (OldGen.tiled_bounds _ _ _ Y1) as (? & _). pose proof (OldGen.tiled_bounds _ _ _ Y2) as (? & _). unfold disjoint_spaces, OS in *. split_and!; try done; lia.
Qed.
Lemma NoDup_everything : NoDup everything.
Proof.
  pose proof ranges as (_ & Hd & H1 & H2 & _). destruct Hy as [Y1 Y2 _ _ _ _ _]. unfold everything. rewrite !NoDup_app.
  split_and!; [by eapply tiled_NoDup| |by eapply tiled_NoDup| |eapply tiled_NoDup; exact tiled_olds].
  - intros a Ha [Ha'|Ha']%elem_of_app.
    + pose proof (tiled_objs _ _ _ _ Y1 a Ha). pose proof (tiled_objs _ _ _ _ Y2 a Ha'). lia.
    + pose proof (proj2 (eden_objs a Ha)). pose proof (proj2 (old_objs a Ha')). lia.
  - intros a Ha Ha'. pose proof (proj2 (from_objs a Ha)). pose proof (proj2 (old_objs a Ha')). lia.
Qed.
Lemma apart a a' : is_Some (objs !! a) -> is_Some (objs !! a') -> a <> a' -> a + bytes objs a <= a' \/ a' + bytes objs a' <= a.
Proof.
  intros Ha Ha' Hne. assert (Hyoung : forall x, is_Some (objs !! x) -> x < os -> x + bytes objs x <= os) by (intros x [s Hs] Hx; by apply (wf_young _ _ _ _ _ _ _ Hwf x s Hs Hx)).
  destruct (decide (a < os)) as [Hl|Hl], (decide (a' < os)) as [Hl'|Hl'].
  - by apply (wf_apart _ _ _ _ _ _ _ Hwf).
  - left. specialize (Hyoung a Ha Hl). lia.
  - right. specialize (Hyoung a' Ha' Hl'). lia.
  - assert (Hin : forall x, is_Some (objs !! x) -> ~ x < os -> (x, bytes objs x) ∈ map (fun a => (a, bytes objs a)) olds).
    { intros x Hx Hge. apply list_elem_of_fmap. exists x. split; [done|]. apply (wf_olds _ _ _ _ _ _ _ Hwf). split; [done|unfold OS; lia]. }
    apply Hin, list_elem_of_lookup_1 in Ha as [i Hi]; [|done]. apply Hin, list_elem_of_lookup_1 in Ha' as [j Hj]; [|done].
    eapply (tiled_apart _ _ _ i j _ _ _ _ tiled_olds Hi Hj). congruence.
Qed.
Lemma unmarked a s mk : objs !! a = Some s -> M0 !! a = Some mk -> Mark.gc_mark mk = false.
Proof. apply (y_unmarked _ _ _ _ Hy). Qed.

Lemma sum_empty w l : sum w ∅ l = 0.
Proof. unfold sum. induction l as [|x l IH]; cbn [foldr]; [done|]. rewrite IH. case_decide as Hx; [by apply elem_of_empty in Hx|done]. Qed.

(** ** Marking *)
Lemma marked_ok : exists K s, mark_heap st roots code_roots = Some s /\ marks M0 objs everything alive K (fun _ => False) s /\ k_stack s = [] /\
  (forall a, a ∈ K <-> alive a) /\ k_bytes s = sum (bytes objs) K everything.
Proof.
  pose proof elem_of_everything as Hall. pose proof NoDup_everything as Hnd.
  assert (H0 : marks M0 objs everything alive ∅ (fun _ => False) (MkMarking M0 [] 0)).
  { split; cbn [k_mem k_stack k_bytes].
    - done.
    - intros a mk _ Hmk. case_decide as Ha; [by apply elem_of_empty in Ha|done].
    - intros a Ha. by apply elem_of_empty in Ha.
    - intros a Ha. by apply elem_of_nil in Ha.
    - by rewrite sum_empty.
    - intros a Ha. by apply elem_of_empty in Ha. }
  assert (Hin : forall o, o ∈ roots ++ code_roots -> valid objs o /\ (Oop.is_mem o = true -> alive (Oop.mem_addr o))).
  { intros o Ho. split; [by eapply Forall_forall in Hroots|]. intros Hm. by apply alive_root. }
  destruct (mark_roots_ok _ _ _ _ _ _ _ Hwf apart everything Hall Hnd unmarked alive roots _ _ _ H0) as (K1 & s1 & E1 & H1 & _ & W1 & R1).
  { intros o Ho. apply Hin, elem_of_app. by left. }
  destruct (mark_roots_ok _ _ _ _ _ _ _ Hwf apart everything Hall Hnd unmarked alive code_roots _ _ _ H1) as (K2 & s2 & E2 & H2 & S2 & W2 & R2).
  { intros o Ho. apply Hin, elem_of_app. by right. }
  assert (Hwork : work everything K2 s2 <= Z.of_nat (mark_fuel st)).
  { rewrite W2, W1. unfold work. rewrite sum_empty. cbn [k_stack]. unfold mark_fuel, used, old_used, everything. change (zlen (@nil Z)) with 0; rewrite !zlen_app.
    pose proof ranges as (_ & _ & _ & _ & Rg1 & Rg2). pose proof old_range.
    pose proof (tiled_count _ _ _ _ _ _ _ Hwf _ _ _ (y_eden _ _ _ _ Hy) (fun a Ha => proj1 (eden_objs a Ha))).
    pose proof (tiled_count _ _ _ _ _ _ _ Hwf _ _ _ (y_from _ _ _ _ Hy) (fun a Ha => proj1 (from_objs a Ha))).
    pose proof (tiled_count _ _ _ _ _ _ _ Hwf _ _ _ tiled_olds (fun a Ha => proj1 (old_objs a Ha))).
    rewrite Z2Nat.id by (apply Z.div_pos; lia). rewrite Z.sub_0_r, Z.add_0_r. apply Z.div_le_lower_bound; lia. }
  assert (Hslot : forall a s i w, alive a -> objs !! a = Some s -> i ∈ oop_slots s -> M0 !! body_addr a i = Some w -> Oop.is_mem w = true -> alive (Oop.mem_addr w)).
  { intros. by eapply alive_slot. }
  destruct (mark_loop_ok _ _ _ _ _ _ _ Hwf apart everything Hall Hnd unmarked alive Hslot _ _ _ H2 Hwork) as (K & s & E & H & HS & Hst).
  exists K, s. split_and!; [|done|done| |apply (k_total _ _ _ _ _ _ _ H)].
  - unfold mark_heap. rewrite E1. cbn [mbind option_bind]. rewrite E2. exact E.
  - assert (Hc : forall a, a ∈ K -> closed M0 objs K a).
    { intros a Ha. destruct (k_closed _ _ _ _ _ _ _ H a Ha) as [Hs|[[]|Hc]]; [|done]. rewrite Hst in Hs. by apply elem_of_nil in Hs. }
    intros a. split; [by intros Ha; apply (k_alive _ _ _ _ _ _ _ H)|]. induction 1 as [w [Hw|Hw]%elem_of_app Hm|a s' i w _ IH Hs Hi Hw Hm].
    + by apply HS, S2, R1.
    + by apply HS, R2.
    + by eapply (Hc a IH).
Qed.
(** ** The plan *)
Section plan.
Context (K : gset Z) (HK : forall a, a ∈ K <-> alive a).
Definition plan : list CompactEntry := plan_of objs K edens es ++ plan_of objs K froms fs ++ plan_of objs K olds os.
Definition dest : gmap Z Z := list_to_map (map (fun e => (e_old e, e_new e)) plan).

Lemma eden_is a : a ∈ edens -> is_Some (objs !! a). Proof. intros Ha. apply (eden_objs a Ha). Qed.
Lemma from_is a : a ∈ froms -> is_Some (objs !! a). Proof. intros Ha. apply (from_objs a Ha). Qed.
Lemma old_is a : a ∈ olds -> is_Some (objs !! a). Proof. intros Ha. apply (old_objs a Ha). Qed.

Lemma alive_obj a : alive a -> is_Some (objs !! a).
Proof.
  destruct marked_ok as (K' & s & _ & Hm & _ & Hiff & _). intros Ha. apply Hiff in Ha. by apply (k_alive _ _ _ _ _ _ _ Hm).
Qed.
Lemma plan_olds_all : map e_old plan = filter (fun a => a ∈ K) everything.
Proof. unfold plan, everything. by rewrite !map_app, !filter_app, !plan_olds_eq. Qed.
Lemma plan_NoDup : NoDup (map e_old plan).
Proof. rewrite plan_olds_all. apply NoDup_filter, NoDup_everything. Qed.
Lemma plan_elem e : e ∈ plan -> 8 * e_size e = bytes objs (e_old e) /\ 2 <= e_size e /\ e_old e ∈ K.
Proof.
  unfold plan. rewrite !elem_of_app. intros [He|[He|He]].
  - destruct (plan_bytes _ _ _ _ _ _ _ Hwf K edens eden_is _ _ He). split_and!; try done. by eapply plan_olds.
  - destruct (plan_bytes _ _ _ _ _ _ _ Hwf K froms from_is _ _ He). split_and!; try done. by eapply plan_olds.
  - destruct (plan_bytes _ _ _ _ _ _ _ Hwf K olds old_is _ _ He). split_and!; try done. by eapply plan_olds.
Qed.
Lemma dest_plan a p : dest !! a = Some p <-> exists e, e ∈ plan /\ e_old e = a /\ e_new e = p.
Proof.
  unfold dest. split.
  - intros Hp. apply elem_of_list_to_map_2, list_elem_of_fmap in Hp as (e & [= -> ->] & He). by exists e.
  - intros (e & He & <- & <-). apply elem_of_list_to_map_1; [|apply list_elem_of_fmap; by exists e]. rewrite map_map. exact plan_NoDup.
Qed.
Lemma dest_entry e : e ∈ plan -> dest !! e_old e = Some (e_new e).
Proof. intros He. apply dest_plan. by exists e. Qed.
Lemma dest_alive a : is_Some (dest !! a) <-> alive a.
Proof.
  rewrite <- HK. split.
  - intros [p (e & He & <- & _)%dest_plan]. by apply plan_elem.
  - intros Ha. assert (Hin : a ∈ map e_old plan).
    { rewrite plan_olds_all. apply list_elem_of_filter. split; [done|]. by apply elem_of_everything, alive_obj, HK. }
    apply list_elem_of_fmap in Hin as (e & -> & He). exists (e_new e). by apply dest_entry.
Qed.

(** Where the entries lie. *)
Lemma eden_within e : e ∈ plan_of objs K edens es -> es <= e_new e /\ e_new e + 8 * e_size e <= et /\ es <= e_old e /\ e_old e + 8 * e_size e <= et.
Proof. apply (plan_within _ _ _ _ _ _ _ Hwf K _ _ _ (y_eden _ _ _ _ Hy) eden_is). Qed.
Lemma from_within e : e ∈ plan_of objs K froms fs -> fs <= e_new e /\ e_new e + 8 * e_size e <= ft /\ fs <= e_old e /\ e_old e + 8 * e_size e <= ft.
Proof. apply (plan_within _ _ _ _ _ _ _ Hwf K _ _ _ (y_from _ _ _ _ Hy) from_is). Qed.
Lemma old_within e : e ∈ plan_of objs K olds os -> os <= e_new e /\ e_new e + 8 * e_size e <= ot /\ os <= e_old e /\ e_old e + 8 * e_size e <= ot.
Proof. apply (plan_within _ _ _ _ _ _ _ Hwf K _ _ _ tiled_olds old_is). Qed.

Lemma plan_downwards l : (forall a, a ∈ l -> is_Some (objs !! a)) -> forall addr top p, OldGen.tiled addr (map (fun a => (a, bytes objs a)) l) top -> p <= addr ->
  downwards p addr (plan_of objs K l p).
Proof.
  induction l as [|a l IH]; intros Ho addr top p; [done|]. cbn [plan_of map OldGen.tiled]. intros (<- & Hpos & H8 & Ht) Hp.
  assert (Ho' : forall x, x ∈ l -> is_Some (objs !! x)) by (intros; apply Ho; by right). case_decide.
  - cbn [downwards e_new e_old e_size]. assert (He : 8 * (bytes objs a / 8) = bytes objs a) by (pose proof (Z.div_mod (bytes objs a) 8); lia). rewrite He.
    split_and!; [lia|lia|lia|apply Z.div_pos; lia|]. eapply IH; [done|exact Ht|lia].
  - specialize (IH Ho' _ _ p Ht ltac:(lia)). revert IH. generalize (plan_of objs K l p). intros [|e q]; cbn; [done|]. intros (? & ? & ?). split_and!; [done|lia|tauto..].
Qed.
Lemma plan_slidable : slidable plan.
Proof.
  pose proof ranges as (_ & Hd & H1 & H2 & _). unfold plan.
  assert (Hs : forall l addr top, (forall a, a ∈ l -> is_Some (objs !! a)) -> OldGen.tiled addr (map (fun a => (a, bytes objs a)) l) top -> slidable (plan_of objs K l addr)).
  { intros l addr top Ho Ht. eapply downwards_slidable, plan_downwards; [done|exact Ht|done]. }
  apply slidable_app; [by eapply Hs; [apply eden_is|apply Hy]|apply slidable_app; [by eapply Hs; [apply from_is|apply Hy]|by eapply Hs; [apply old_is|apply tiled_olds]|]|].
  - intros e e' He%from_within He'%old_within. unfold spares. lia.
  - intros e e' He%eden_within [He'%from_within|He'%old_within]%elem_of_app; unfold spares; lia.
Qed.
Lemma plan_news_NoDup : NoDup (map e_new plan).
Proof. apply slidable_NoDup; [apply plan_slidable|]. intros e He. destruct (plan_elem e He) as (_ & ? & _). lia. Qed.

Lemma dest_obj a p : dest !! a = Some p -> is_Some (objs !! a) /\ p mod 8 = 0.
Proof.
  intros Hp. split; [apply alive_obj, dest_alive; by eexists|]. apply dest_plan in Hp as (e & He & _ & <-). pose proof ranges as ((H1 & H2 & H3) & _).
  assert (Hal : forall l addr, (forall a, a ∈ l -> is_Some (objs !! a)) -> e ∈ plan_of objs K l addr -> addr mod 8 = 0 -> e_new e mod 8 = 0).
  { intros l addr Ho Hin H8. pose proof (plan_tiled _ _ _ _ _ _ _ Hwf K l Ho addr) as Ht. apply OldGen.tiled_bounds in Ht as (_ & _ & Ht).
    destruct (Ht (e_new e) (8 * e_size e)) as (_ & _ & -> & _); [|done]. apply list_elem_of_fmap. by exists e. }
  unfold plan in He. rewrite !elem_of_app in He. destruct He as [He|[He|He]].
  - exact (Hal _ _ eden_is He H1).
  - exact (Hal _ _ from_is He H2).
  - exact (Hal _ _ old_is He H3).
Qed.
Lemma dest_apart a p a' p' : dest !! a = Some p -> dest !! a' = Some p' -> a <> a' -> p + bytes objs a <= p' \/ p' + bytes objs a' <= p.
Proof.
  intros (e & He & <- & <-)%dest_plan (e' & He' & <- & <-)%dest_plan Hne.
  destruct (plan_elem e He) as (<- & _), (plan_elem e' He') as (<- & _). destruct (slidable_pair _ e e' plan_slidable He He') as [[_ H]|[_ H]]; [congruence|exact H|tauto].
Qed.
Lemma dest_closed a s i w : is_Some (dest !! a) -> objs !! a = Some s -> i ∈ oop_slots s -> M0 !! body_addr a i = Some w -> Oop.is_mem w = true ->
  is_Some (dest !! Oop.mem_addr w).
Proof. intros Ha Hs Hi Hw Hm. apply dest_alive. eapply alive_slot; [by apply dest_alive|done..]. Qed.
(** ** The phases *)
Lemma forwarding_compute_ok l m side addr top : OldGen.tiled addr (map (fun a => (a, bytes objs a)) l) top -> (forall a, a ∈ l -> is_Some (objs !! a)) ->
  bodies M0 objs m -> (forall a mk, a ∈ l -> M0 !! a = Some mk -> m !! a = Some (marked_word K a mk)) ->
  exists m' side', forwarding_compute m side addr top = Some (m', side', plan_of objs K l addr, addr + sum (bytes objs) K l) /\ bodies M0 objs m' /\
    forwarded (plan_of objs K l addr) m m' /\ saved M0 (plan_of objs K l addr) side side'.
Proof.
  intros Ht Ho Hb Hm. apply (forwarding_loop_ok _ _ _ _ _ _ _ Hwf apart unmarked K l _ m side addr top addr Ht Ho Hb Hm).
  - intros a Ha. destruct (Ho a Ha) as [s Hs]. destruct (bytes_size _ _ _ _ _ _ _ Hwf a s Hs) as [-> _]. by eapply Hsmall.
  - pose proof (tiled_count _ _ _ _ _ _ _ Hwf _ _ _ Ht Ho). pose proof (zlen_nonneg l). rewrite Z2Nat.id by (apply Z.div_pos; lia). apply Z.div_le_lower_bound; lia.
Qed.
Lemma not_in_plan l p a : a ∉ l -> a ∉ map e_old (plan_of objs K l p).
Proof. rewrite plan_olds_eq. intros Hn Ha. by apply list_elem_of_filter in Ha as [_ ?]. Qed.

Lemma forwarding_ok s : marks M0 objs everything alive K (fun _ => False) s -> exists m1 side1 m2 side2 m3 side3,
  forwarding_compute (k_mem s) ∅ es et = Some (m1, side1, plan_of objs K edens es, es + sum (bytes objs) K edens) /\
  forwarding_compute m1 side1 fs ft = Some (m2, side2, plan_of objs K froms fs, fs + sum (bytes objs) K froms) /\
  forwarding_compute m2 side2 os ot = Some (m3, side3, plan_of objs K olds os, os + sum (bytes objs) K olds) /\
  bodies M0 objs m3 /\ fwd dest m3 /\ (forall e mk, e ∈ plan -> M0 !! e_old e = Some mk -> side3 !! e_new e = if stateful mk then Some (kept mk) else None).
Proof.
  intros Hm. pose proof NoDup_everything as Hnd. unfold everything in Hnd. rewrite !NoDup_app in Hnd. destruct Hnd as (_ & N1 & _ & N2 & _).
  assert (Hmk : forall a mk, is_Some (objs !! a) -> M0 !! a = Some mk -> k_mem s !! a = Some (marked_word K a mk)) by apply (k_marks _ _ _ _ _ _ _ Hm).
  destruct (forwarding_compute_ok edens (k_mem s) ∅ es et (y_eden _ _ _ _ Hy) eden_is (k_bodies _ _ _ _ _ _ _ Hm)) as (m1 & side1 & E1 & B1 & F1 & S1).
  { intros a mk Ha. apply Hmk, (eden_is a Ha). }
  destruct (forwarding_compute_ok froms m1 side1 fs ft (y_from _ _ _ _ Hy) from_is B1) as (m2 & side2 & E2 & B2 & F2 & S2).
  { intros a mk Ha E. rewrite (proj2 F1); [by apply Hmk; [apply from_is|]|]. apply not_in_plan. intros Ha'. eapply N1; [exact Ha'|]. apply elem_of_app. by left. }
  destruct (forwarding_compute_ok olds m2 side2 os ot tiled_olds old_is B2) as (m3 & side3 & E3 & B3 & F3 & S3).
  { intros a mk Ha E. rewrite (proj2 F2), (proj2 F1); [by apply Hmk; [apply old_is|]|..]; apply not_in_plan; intros Ha'; [eapply N1; [exact Ha'|]; apply elem_of_app; by right|by eapply N2]. }
  exists m1, side1, m2, side2, m3, side3. split_and!; try done.
  - assert (HF : forwarded plan (k_mem s) m3).
    { unfold plan. eapply forwarded_app; [exact F1|eapply forwarded_app; [exact F2|exact F3|]|].
      - intros e (He & _)%plan_olds. apply not_in_plan. by apply N2.
      - intros e (He & _)%plan_olds. rewrite map_app, elem_of_app. intros [H|H]; eapply not_in_plan; try exact H; intros Ha; (eapply N1; [exact He|]); apply elem_of_app; tauto. }
    intros a p (e & He & <- & <-)%dest_plan. by apply (proj1 HF).
  - pose proof plan_news_NoDup as Hnn. unfold plan in Hnn. rewrite !map_app, !NoDup_app in Hnn. destruct Hnn as (_ & D1 & _ & D2 & _).
    assert (HS : saved M0 plan ∅ side3).
    { unfold plan. eapply saved_app; [exact S1|eapply saved_app; [exact S2|exact S3|..]|..].
      - intros e He. apply D2, list_elem_of_fmap. by exists e.
      - intros e He H. eapply D2; [exact H|]. apply list_elem_of_fmap. by exists e.
      - intros e He. rewrite map_app. apply D1, list_elem_of_fmap. by exists e.
      - intros e He H. eapply D1; [exact H|]. rewrite <- map_app. apply list_elem_of_fmap. by exists e. }
    intros e mk He Hmk'. rewrite (proj1 HS e mk He Hmk'). by rewrite lookup_empty.
Qed.
Lemma plan_words m : rewritten M0 objs dest (map e_old plan) m -> forall e i s, e ∈ plan -> objs !! e_old e = Some s -> -1 <= i < size_words s - 2 -> exists w,
  M0 !! body_addr (e_old e) i = Some w /\ m !! body_addr (e_old e) i = Some (word_after dest s i w).
Proof.
  intros Hm e i s He Hs Hr. destruct (wf_words _ _ _ _ _ _ _ Hwf _ s i Hs ltac:(lia)) as [w Hw]. exists w. split; [done|].
  rewrite (r_words _ _ _ _ _ Hm _ s i w Hs Hr Hw). rewrite decide_True; [done|]. apply list_elem_of_fmap. by exists e.
Qed.
Lemma slide_ok m : rewritten M0 objs dest (map e_old plan) m -> exists m1 m2 m3, slide_young m (plan_of objs K edens es) = Some m1 /\
  slide_young m1 (plan_of objs K froms fs) = Some m2 /\ slide_young m2 (plan_of objs K olds os) = Some m3 /\ carried M0 objs dest m3.
Proof.
  intros Hm. assert (Hat : forall a i, a + 8 * i = body_addr a (i - 2)) by (intros; rewrite body_addr_eq; lia).
  assert (Hsize : forall e, e ∈ plan -> exists s, objs !! e_old e = Some s /\ e_size e = size_words s).
  { intros e He. destruct (plan_elem e He) as (H8 & _ & HeK). destruct (alive_obj _ (proj1 (HK _) HeK)) as [s Hs]. exists s. split; [done|].
    destruct (bytes_size _ _ _ _ _ _ _ Hwf _ s Hs). lia. }
  destruct (slide_young_ok plan m plan_slidable) as (m3 & E & H1 & _).
  - intros e i He Hi. destruct (Hsize e He) as (s & Hs & Hz). rewrite Hat. destruct (decide (i = 0)) as [->|Hi0].
    + change (0 - 2) with (-2). rewrite mark_addr, (r_fwd _ _ _ _ _ Hm _ _ (dest_entry e He)). by eexists.
    + destruct (plan_words m Hm e (i - 2) s He Hs ltac:(lia)) as (w & _ & ->). by eexists.
  - intros e He. destruct (plan_elem e He) as (_ & ? & _). lia.
  - unfold plan in E. rewrite slide_young_app in E. destruct (slide_young m _) as [m1|]; [|done]. cbn [mbind option_bind] in E.
    rewrite slide_young_app in E. destruct (slide_young m1 _) as [m2|] eqn:E2; [|done]. cbn [mbind option_bind] in E.
    exists m1, m2, m3. split_and!; try done. intros a p s i w (e & He & <- & <-)%dest_plan Hs Hr Hw.
    destruct (Hsize e He) as (s' & Hs' & Hz). rewrite Hs in Hs'. injection Hs' as <-. pose proof (H1 e (i + 2) He ltac:(lia)) as Hmove. rewrite !Hat in Hmove.
    replace (i + 2 - 2) with i in Hmove by lia. rewrite Hmove. destruct (plan_words m Hm e i s He Hs Hr) as (w' & Hw' & ->). congruence.
Qed.
Lemma table_ok : exists t t', Offsets.clear_through (offsets st) ot = Some t /\ record_all t (plan_of objs K olds os) = Some t' /\ Offsets.well_formed t' b /\
  forall e, e ∈ plan_of objs K olds os -> Offsets.recorded t' (e_new e) (8 * e_size e).
Proof.
  pose proof (OldGen.i_table _ _ (h_old _ _ _ Hok)) as Ht. cbn in Ht. pose proof old_range as Hot.
  destruct (clear_through_ok b _ ot Ht ltac:(lia)) as (t & E & Hw). 
  pose proof (total_le objs K _ _ _ tiled_olds). pose proof ranges as ((_ & _ & H8) & _).
  destruct (record_all_ok b _ t _ _ Hw (plan_tiled _ _ _ _ _ _ _ Hwf K olds old_is os)) as (t' & E' & Hw' & Hr & _); [done|done|lia|]. by exists t, t'.
Qed.
Lemma restore_marks_app m side p q : restore_marks m side (p ++ q) = m' ← restore_marks m side p; restore_marks m' side q.
Proof.
  revert m. induction p as [|e p IH]; intros m; cbn [app restore_marks]; [done|]. destruct (klass m (e_new e)) as [k|]; [|done]. cbn [mbind option_bind].
  destruct (has_untagged_contents m k) as [u|]; [|done]. cbn [mbind option_bind]. apply IH.
Qed.
Lemma weak_sweep_ok m ks : (forall a mk, is_Some (objs !! a) -> M0 !! a = Some mk -> m !! a = Some (marked_word K a mk)) ->
  Forall (fun k => valid objs k /\ Oop.is_mem k = true) ks -> weak_sweep m ks = Some (filter (fun k => Oop.mem_addr k ∈ K) ks).
Proof.
  intros Hm. induction 1 as [|k ks [[_ Hv] Hk] _ IH]; [done|]. cbn [weak_sweep]. unfold mem_oop. rewrite Hk. cbn [mbind option_bind].
  pose proof (Hv Hk) as [s Hs]. destruct (wf_mark _ _ _ _ _ _ _ Hwf _ s Hs) as (mk & Hmk & _).
  destruct (mark_of_marked _ _ _ _ _ _ _ Hwf unmarked K m _ mk Hmk (Hv Hk) (Hm _ _ (Hv Hk) Hmk)) as [-> Hg]. cbn [mbind option_bind]. rewrite IH. cbn [mbind option_bind].
  rewrite Hg. destruct (decide (Oop.mem_addr k ∈ K)) as [Hin|Hin].
  - by rewrite bool_decide_true, filter_cons_True.
  - by rewrite bool_decide_false, filter_cons_False.
Qed.
End plan.

(** ** The collection *)
Definition survivors (F : gmap Z Z) (l : list Z) : list Z := filter (fun a => is_Some (F !! a)) l.
Definition at_ (F : gmap Z Z) (a : Z) : Z := default 0 (F !! a).
Definition packed (F : gmap Z Z) (l : list Z) (start top : Z) : Prop :=
  OldGen.tiled start (map (fun a => (at_ F a, bytes objs a)) (survivors F l)) top.

Record outcome_ok (F : gmap Z Z) (r : collected) : Prop := {
  o_alive : forall a, is_Some (F !! a) <-> alive a;
  o_roots : g_roots r = map (reloc F) roots /\ g_code_roots r = map (reloc F) code_roots /\
    g_keys r = map (reloc F) (filter (fun k => is_Some (F !! Oop.mem_addr k)) keys);
  o_aligned : forall a p, F !! a = Some p -> is_Some (objs !! a) /\ p mod 8 = 0;
  o_apart : forall a p a' p', F !! a = Some p -> F !! a' = Some p' -> a <> a' -> p + bytes objs a <= p' \/ p' + bytes objs a' <= p;
  o_words : carried M0 objs F (mem (g_state r));
  o_marks : forall a p mk, F !! a = Some p -> M0 !! a = Some mk -> exists k u, klass_word M0 a k /\ has_untagged_contents M0 k = Some u /\
    mem (g_state r) !! p = Some (mark_after mk u);
  o_eden : packed F edens es (Spaces.s_top (eden (g_state r)));
  o_from : packed F froms fs (Spaces.s_top (from (g_state r)));
  o_old : packed F olds os (OldGen.top (old (g_state r)));
  o_tops : Spaces.s_top (eden (g_state r)) <= et /\ Spaces.s_top (from (g_state r)) <= ft /\ OldGen.top (old (g_state r)) <= ot;
  o_table : Offsets.well_formed (offsets (g_state r)) b /\ forall a p, a ∈ olds -> F !! a = Some p -> Offsets.recorded (offsets (g_state r)) p (bytes objs a);
  o_cards : Cards.well_formed (cards (g_state r)) b /\
    forall x, os <= x < OldGen.top (old (g_state r)) -> Cards.is_dirty (cards (g_state r)) (card_of b x) = Some true;
  o_state : exists m t cs e f o, g_state r = with_tops st m e f o t cs;
  o_live : g_marked r = (Spaces.s_top (eden (g_state r)) - es) + (Spaces.s_top (from (g_state r)) - fs) + (OldGen.top (old (g_state r)) - os) }.

Lemma packed_ok K (HK : forall a, a ∈ K <-> alive a) l start : (forall a, a ∈ l -> is_Some (objs !! a)) ->
  (forall e, e ∈ plan_of objs K l start -> e ∈ plan K) -> packed (dest K) l start (start + sum (bytes objs) K l).
Proof.
  intros Ho Hp. unfold packed. pose proof (plan_tiled _ _ _ _ _ _ _ Hwf K l Ho start) as Ht.
  assert (He : survivors (dest K) l = map e_old (plan_of objs K l start)).
  { rewrite plan_olds_eq. unfold survivors. apply list_filter_iff. intros a. by rewrite (dest_alive K HK), HK. }
  rewrite He, map_map. erewrite map_ext_in; [exact Ht|]. intros e Hin%list_elem_of_In. cbn. unfold at_. rewrite (dest_entry K e (Hp e Hin)).
  destruct (plan_elem K e (Hp e Hin)) as (-> & _). done.
Qed.

Lemma full_gc_ok : exists F r, full_gc st roots code_roots keys = Some r /\ outcome_ok F r.
Proof.
  destruct marked_ok as (K & s & Emark & Hm & _ & HK & Hbytes). exists (dest K).
  assert (Hword : forall a mk, is_Some (objs !! a) -> M0 !! a = Some mk -> k_mem s !! a = Some (marked_word K a mk)) by apply (k_marks _ _ _ _ _ _ _ Hm).
  pose proof (weak_sweep_ok K (k_mem s) keys Hword Hkeys) as Esweep.
  destruct (forwarding_ok K s Hm) as (m1 & side1 & m2 & side2 & m3 & side3 & E1 & E2 & E3 & Hb & Hf & Hside).
  pose proof (dest_obj K HK) as Hobj. pose proof (dest_closed K HK) as Hclosed.
  assert (Hin : forall w, valid objs w -> (Oop.is_mem w = true -> alive (Oop.mem_addr w)) -> in_F (dest K) w) by (intros w _ Hw Hmm; by apply (dest_alive K HK), Hw).
  assert (Hin_roots : Forall (in_F (dest K)) (roots ++ code_roots)).
  { apply Forall_forall. intros w Hw. intros Hmm. apply (dest_alive K HK). by apply alive_root. }
  apply Forall_app in Hin_roots as [Hr1 Hr2].
  assert (Hr3 : Forall (in_F (dest K)) (filter (fun k => Oop.mem_addr k ∈ K) keys)).
  { apply Forall_forall. intros k [Hk _]%list_elem_of_filter _. by apply (dest_alive K HK), HK. }
  assert (Hrew : rewritten M0 objs (dest K) [] m3).
  { split; [done|]. intros a s' i w Hs Hr Hw. rewrite (Hb a s' i Hs Hr), Hw. by rewrite decide_False by apply not_elem_of_nil. }
  destruct (rewrite_entries_ok _ _ _ _ _ _ _ Hwf apart (dest K) Hobj Hclosed (plan K) [] m3 Hrew (plan_NoDup K)) as (m4 & E4 & Hrew4).
  { intros e He. split; [rewrite (dest_entry K e He); by eexists|apply not_elem_of_nil]. }
  rewrite app_nil_r in Hrew4. destruct (slide_ok K HK m4 Hrew4) as (m5 & m6 & m7 & E5 & E6 & E7 & Hcarr).
  destruct (table_ok K) as (t0 & t & Et0 & Et & Ht & Hrec).
  destruct (restore_marks_ok _ _ _ _ _ _ _ Hwf (dest K) Hobj Hclosed (dest_apart K) side3 (plan K) m7 Hcarr (dest_entry K) (plan_news_NoDup K))
    as (m & E8 & Hcarr8 & _ & Hmk8).
  unfold plan in E4, E8. rewrite restore_marks_app in E8. destruct (restore_marks m7 _ _) as [m8|] eqn:E81; [|done]. cbn [mbind option_bind] in E8.
  rewrite restore_marks_app in E8. destruct (restore_marks m8 _ _) as [m9|] eqn:E82; [|done]. cbn [mbind option_bind] in E8.
  pose proof (total_le objs K _ _ _ (y_eden _ _ _ _ Hy)) as Te. pose proof (total_le objs K _ _ _ (y_from _ _ _ _ Hy)) as Tf. pose proof (total_le objs K _ _ _ tiled_olds) as To.
  pose proof old_range as Hot. destruct (post_ok b (cards st) (os + sum (bytes objs) K olds) (h_cards _ _ _ Hok) ltac:(lia)) as (cs & E9 & Hcs & Hdirty).
  eexists. split.
  - unfold full_gc. destruct (y_tops _ _ _ _ Hy) as (_ & _ & ->). rewrite Z.eqb_refl. cbn [negb]. rewrite Emark. cbn [mbind option_bind]. rewrite Esweep. cbn [mbind option_bind].
    rewrite E1. cbn [mbind option_bind]. rewrite E2. cbn [mbind option_bind]. rewrite E3. cbn [mbind option_bind].
    rewrite (chase_all_ok objs _ Hobj m3 roots Hf Hr1). cbn [mbind option_bind]. rewrite E4. cbn [mbind option_bind].
    rewrite (chase_all_ok objs _ Hobj m4 code_roots (r_fwd _ _ _ _ _ Hrew4) Hr2). cbn [mbind option_bind].
    rewrite (chase_all_ok objs _ Hobj m4 _ (r_fwd _ _ _ _ _ Hrew4) Hr3). cbn [mbind option_bind]. rewrite E5. cbn [mbind option_bind]. rewrite E6. cbn [mbind option_bind].
    unfold slide_old. rewrite Et0. cbn [mbind option_bind]. rewrite (slide_entries_eq _ _ _ _ _ E7 Et). cbn [mbind option_bind].
    rewrite E81. cbn [mbind option_bind]. rewrite E82. cbn [mbind option_bind]. rewrite E8. cbn [mbind option_bind]. rewrite E9. cbn [mbind option_bind].
    rewrite Hbytes. unfold everything. rewrite !sum_app. set (x := sum _ K edens). set (y := sum _ K froms). set (z := sum _ K olds).
    replace (es + x - es + (fs + y - fs) + (os + z - os)) with (x + (y + z)) by lia. rewrite Z.eqb_refl. cbn [negb]. reflexivity.
  - split; cbn [g_roots g_code_roots g_keys g_state g_marked with_tops mem eden from old offsets cards Spaces.s_top OldGen.top].
    + apply (dest_alive K HK).
    + split_and!; try done. f_equal. apply list_filter_iff. intros k. by rewrite (dest_alive K HK), HK.
    + exact Hobj.
    + apply dest_apart.
    + exact Hcarr8.
    + intros a p mk (e & He & <- & <-)%dest_plan Hmk. destruct (Hmk8 e He) as (k & u & H1 & H2 & H3). exists k, u. split_and!; try done.
      rewrite H3. unfold restored, mark_after. rewrite (Hside e mk He Hmk). by destruct (stateful mk).
    + apply (packed_ok K HK); [apply eden_is|]. intros e He. apply elem_of_app. by left.
    + apply (packed_ok K HK); [apply from_is|]. intros e He. apply elem_of_app. right. apply elem_of_app. by left.
    + apply (packed_ok K HK); [apply old_is|]. intros e He. apply elem_of_app. right. apply elem_of_app. by right.
    + lia.
    + split; [done|]. intros a p Ha (e & He & <- & <-)%dest_plan. destruct (plan_elem K e He) as (<- & _). apply Hrec.
      unfold plan in He. rewrite !elem_of_app in He. destruct He as [He|[He|He]]; [| |done].
      * apply plan_olds in He as (He & _). pose proof (proj2 (eden_objs _ He)). pose proof (proj2 (old_objs _ Ha)). lia.
      * apply plan_olds in He as (He & _). pose proof (proj2 (from_objs _ He)). pose proof (proj2 (old_objs _ Ha)). lia.
    + done.
    + by eexists _, _, _, _, _, _.
    + lia.
Qed.

(** ** The heap afterwards *)
Section after.
Context (F : gmap Z Z) (r : collected) (Ho : outcome_ok F r).
#[local] Abbreviation st' := (g_state r).
#[local] Abbreviation M' := (mem (g_state r)).
Definition objs_left : gmap Z shape := list_to_map (omap (fun e => (fun s => (e.2, s)) <$> objs !! e.1) (map_to_list F)).
Definition news (l : list Z) : list Z := map (at_ F) (survivors F l).

Lemma moved_inj a a' p : F !! a = Some p -> F !! a' = Some p -> a = a'.
Proof.
  intros H H'. destruct (decide (a = a')) as [|Hne]; [done|]. destruct (bytes_pos _ _ _ _ _ _ _ Hwf a (proj1 (o_aligned _ _ Ho _ _ H))).
  destruct (bytes_pos _ _ _ _ _ _ _ Hwf a' (proj1 (o_aligned _ _ Ho _ _ H'))). destruct (o_apart _ _ Ho a p a' p H H' Hne); lia.
Qed.
Lemma objs_left_spec p s : objs_left !! p = Some s <-> exists a, F !! a = Some p /\ objs !! a = Some s.
Proof.
  unfold objs_left. set (l := omap _ _).
  assert (Hl : forall p s, (p, s) ∈ l <-> exists a, F !! a = Some p /\ objs !! a = Some s).
  { intros q t. unfold l. rewrite list_elem_of_omap. split.
    - intros ([a p'] & Hin%elem_of_map_to_list & Ha). cbn [fst snd] in Ha. destruct (objs !! a) eqn:E; [|done]. injection Ha as -> ->. by exists a.
    - intros (a & Hh & Ha). exists (a, q). split; [by apply elem_of_map_to_list|]. cbn [fst snd]. by rewrite Ha. }
  rewrite <- Hl. split; [apply elem_of_list_to_map_2|]. intros Hin. apply elem_of_list_to_map_1'; [|done]. intros t Ht.
  apply Hl in Hin as (a & Hh & Ha), Ht as (a' & Hh' & Ha'). rewrite (moved_inj _ _ _ Hh Hh') in Ha. congruence.
Qed.
Lemma bytes_left a p : F !! a = Some p -> bytes objs_left p = bytes objs a.
Proof.
  intros Hp. destruct (proj1 (o_aligned _ _ Ho _ _ Hp)) as [s Hs]. unfold bytes. rewrite Hs. by rewrite (proj2 (objs_left_spec p s)) by (by exists a).
Qed.
Lemma elem_of_news l p : p ∈ news l <-> exists a, a ∈ l /\ F !! a = Some p.
Proof.
  unfold news, survivors, at_. rewrite list_elem_of_fmap. split.
  - intros (a & -> & [[q Hq] Ha]%list_elem_of_filter). exists a. by rewrite Hq.
  - intros (a & Ha & Hp). exists a. rewrite Hp. split; [done|]. apply list_elem_of_filter. split; [by eexists|done].
Qed.
Lemma news_tiled l start top : packed F l start top -> OldGen.tiled start (map (fun p => (p, bytes objs_left p)) (news l)) top.
Proof.
  unfold packed, news. rewrite map_map. intros Ht. erewrite map_ext_in; [exact Ht|]. intros a Hin%list_elem_of_In. apply list_elem_of_filter in Hin as [[p Hp] _].
  unfold at_. rewrite Hp. cbn. by rewrite (bytes_left a p Hp).
Qed.
Lemma news_range l start top p : packed F l start top -> p ∈ news l -> start <= p /\ p + bytes objs_left p <= top.
Proof.
  intros Ht Hp. apply news_tiled, OldGen.tiled_bounds in Ht as (_ & _ & Hb). destruct (Hb p (bytes objs_left p)) as (? & ? & _); [|done].
  apply list_elem_of_fmap. by exists p.
Qed.
Lemma news_where p : is_Some (objs_left !! p) -> p ∈ news edens \/ p ∈ news froms \/ p ∈ news olds.
Proof.
  intros [s (a & Hp & Hs)%objs_left_spec]. assert (Ha : a ∈ everything) by (apply elem_of_everything; by eexists).
  unfold everything in Ha. rewrite !elem_of_app in Ha. rewrite !elem_of_news. destruct Ha as [Ha|[Ha|Ha]]; [left|right; left|right; right]; by exists a.
Qed.
Lemma news_is l p : p ∈ news l -> is_Some (objs_left !! p).
Proof. intros (a & _ & Hp)%elem_of_news. destruct (proj1 (o_aligned _ _ Ho _ _ Hp)) as [s Hs]. exists s. apply objs_left_spec. by exists a. Qed.

Lemma reloc_left w : valid objs w -> (Oop.is_mem w = true -> alive (Oop.mem_addr w)) -> valid objs_left (reloc F w) /\ Oop.is_mem (reloc F w) = Oop.is_mem w.
Proof.
  intros [Hraw Hv] Ha. unfold reloc. destruct (Oop.is_mem w) eqn:Hm; [|split; [split; [done|by rewrite Hm]|done]]. destruct (proj2 (o_alive _ _ Ho _) (Ha eq_refl)) as [p Hp]. rewrite Hp.
  destruct (o_aligned _ _ Ho _ _ Hp) as [[s Hs] H8]. destruct (aligned_mem p H8) as (H1 & H2 & _ & H3). split; [split; [done|]|done].
  intros _. rewrite H3. exists s. apply objs_left_spec. by exists (Oop.mem_addr w).
Qed.
Lemma moved_closed a s i w : is_Some (F !! a) -> objs !! a = Some s -> i ∈ oop_slots s -> M0 !! body_addr a i = Some w -> Oop.is_mem w = true -> is_Some (F !! Oop.mem_addr w).
Proof. intros Ha Hs Hi Hw Hm. apply (o_alive _ _ Ho). eapply alive_slot; [by apply (o_alive _ _ Ho)|done..]. Qed.

Lemma bytes_pos_left p : is_Some (objs_left !! p) -> 16 <= bytes objs_left p.
Proof. intros [s (a & Hp & Hs)%objs_left_spec]. rewrite (bytes_left a p Hp). apply (bytes_pos _ _ _ _ _ _ _ Hwf a). by eexists. Qed.

Lemma wf_left : heap_wf M' objs_left (news olds) b (layout st) (Spaces.s_start (to st)) (Spaces.s_end (to st)).
Proof.
  pose proof (wf_layout _ _ _ _ _ _ _ Hwf) as (L1 & L2 & L3 & L4 & L5). destruct (o_tops _ _ Ho) as (T1 & T2 & T3). pose proof ranges as (_ & _ & R1 & R2 & _).
  destruct (y_tops _ _ _ _ Hy) as (Y1 & Y2 & _). destruct (y_disjoint _ _ _ _ Hy) as (_ & D1 & D2). unfold disjoint_spaces in *.
  pose proof (y_bounds _ _ _ _ Hy) as (B1 & _ & _). pose proof (h_from _ _ _ Hok) as (_ & B2 & _). pose proof (wf_to _ _ _ _ _ _ _ Hwf) as (To1 & To2).
  assert (Hyoung : forall p, is_Some (objs_left !! p) -> p < os -> 0 <= p /\ p + bytes objs_left p <= os /\ (p + bytes objs_left p <= Spaces.s_start (to st) \/ Spaces.s_end (to st) <= p)).
  { intros p Hp Hlt. pose proof (bytes_pos_left p Hp). destruct (news_where p Hp) as [Hn|[Hn|Hn]].
    - destruct (news_range _ _ _ _ (o_eden _ _ Ho) Hn). lia.
    - destruct (news_range _ _ _ _ (o_from _ _ Ho) Hn). lia.
    - destruct (news_range _ _ _ _ (o_old _ _ Ho) Hn). lia. }
  split.
  - by split_and!.
  - done.
  - intros p. split.
    + intros Hn. split; [by eapply news_is|]. by destruct (news_range _ _ _ _ (o_old _ _ Ho) Hn).
    + intros [Hp Hge]. unfold OS in Hge. pose proof (bytes_pos_left p Hp). destruct (news_where p Hp) as [Hn|[Hn|Hn]]; [| |done].
      * destruct (news_range _ _ _ _ (o_eden _ _ Ho) Hn). lia.
      * destruct (news_range _ _ _ _ (o_from _ _ Ho) Hn). lia.
  - intros p s i (a & Hp & Hs)%objs_left_spec Hr. destruct (decide (i = -2)) as [->|Hne].
    + destruct (wf_mark _ _ _ _ _ _ _ Hwf a s Hs) as (mk & Hmk & _). destruct (o_marks _ _ Ho a p mk Hp Hmk) as (k & u & _ & _ & Hm). rewrite mark_addr, Hm. by eexists.
    + destruct (wf_words _ _ _ _ _ _ _ Hwf a s i Hs ltac:(lia)) as [w Hw]. rewrite (o_words _ _ Ho a p s i w Hp Hs ltac:(lia) Hw). by eexists.
  - intros p s (a & Hp & Hs)%objs_left_spec. destruct (wf_mark _ _ _ _ _ _ _ Hwf a s Hs) as (mk & Hmk & Hf). destruct (o_marks _ _ Ho a p mk Hp Hmk) as (k & u & _ & _ & Hm).
    eexists. split; [exact Hm|]. by destruct (mark_after_ok mk u Hf).
  - intros p s (a & Hp & Hs)%objs_left_spec.
    destruct (carried_klass _ _ _ _ _ _ _ Hwf F (o_aligned _ _ Ho) moved_closed M' a p s (o_words _ _ Ho) Hp Hs) as (k & ks & kp & u & _ & Hkp & Hks & H4 & H1 & H2 & H3 & H5 & _).
    exists kp, ks. split_and!; try done. apply objs_left_spec. by exists k.
  - intros p s i w (a & Hp & Hs)%objs_left_spec Hi Hw. assert (Hi' : i ∈ oop_slots s) by (by right). destruct (slot_word_valid _ _ _ _ _ _ _ Hwf a s i Hs Hi') as (w0 & Hw0 & Hv).
    pose proof (slot_in _ _ _ _ _ _ _ Hwf a s i Hs Hi') as Hr. rewrite (o_words _ _ Ho a p s i w0 Hp Hs Hr Hw0) in Hw. injection Hw as <-. unfold word_after.
    rewrite decide_True by done. apply reloc_left; [done|]. intros Hm. apply (o_alive _ _ Ho). by eapply moved_closed; [eexists; exact Hp|..].
  - intros p s Hs Hlt. destruct (Hyoung p ltac:(by eexists) Hlt) as (? & ? & ?). split_and!; try done. apply objs_left_spec in Hs as (a & Hp & _). by eapply (o_aligned _ _ Ho).
  - intros p p' [[s (a & Hp & _)%objs_left_spec] _] [[s' (a' & Hp' & _)%objs_left_spec] _] Hne. rewrite (bytes_left a p Hp), (bytes_left a' p' Hp').
    apply (o_apart _ _ Ho a p a' p' Hp Hp'). congruence.
  - intros p s (a & Hp & Hs)%objs_left_spec. rewrite (bytes_left a p Hp). by eapply (wf_small _ _ _ _ _ _ _ Hwf).
Qed.

Lemma heap_ok_left : heap_ok (g_state r) objs_left (news olds).
Proof.
  pose proof wf_left as Hw. pose proof (news_tiled _ _ _ (o_old _ _ Ho)) as Ht. pose proof (o_table _ _ Ho) as [Tw Tr]. pose proof (o_cards _ _ Ho) as [Cw Cd]. pose proof (o_tops _ _ Ho) as (_ & _ & T3).
  pose proof (OldGen.i_top _ _ (h_old _ _ _ Hok)) as Htop. cbn in Htop. destruct (o_state _ _ Ho) as (m & t & cs & e & f & o & Est).
  rewrite Est in *. cbn [with_tops mem layout eden from to old offsets cards pending_stall OldGen.bounds OldGen.top OldGen.committed_end Spaces.s_start Spaces.s_end] in *.
  split; cbn [with_tops mem layout eden from to old offsets cards pending_stall OldGen.bounds OldGen.top OldGen.committed_end Spaces.s_start Spaces.s_end].
  - exact Hw.
  - apply (h_from _ _ _ Hok).
  - apply (h_disjoint _ _ _ Hok).
  - split; cbn [OldGen.gen OldGen.offsets OldGen.objects OldGen.bounds OldGen.top OldGen.committed_end]; [done|exact Ht|lia|exact Tw|].
    intros x s (p & [= -> ->] & Hin)%list_elem_of_fmap. apply elem_of_news in Hin as (a & Ha & Hp). rewrite (bytes_left a p Hp). by apply Tr.
  - exact Cw.
  - intros p s i w Hin Hs Hi _ _. apply Cd. pose proof (slot_in _ _ _ _ _ _ _ Hw p s i Hs Hi) as Hr. destruct (obj_shape _ _ _ _ _ _ _ Hw p s Hs) as (_ & _ & _ & Hb).
    pose proof (OldGen.tiled_bounds _ _ _ Ht) as (_ & _ & Hall). destruct (Hall p (bytes objs_left p)) as (? & ? & _); [apply list_elem_of_fmap; by exists p|]. rewrite body_addr_eq. lia.
  - apply (h_no_stall _ _ _ Hok).
Qed.

Lemma young_ok_left : young_ok (g_state r) objs_left (news edens) (news froms).
Proof.
  pose proof (news_tiled _ _ _ (o_eden _ _ Ho)) as Te. pose proof (news_tiled _ _ _ (o_from _ _ Ho)) as Tf. pose proof (o_tops _ _ Ho) as (T1 & T2 & _).
  pose proof ranges as (_ & _ & R1 & R2 & _). pose proof (o_marks _ _ Ho) as Hmarks.
  assert (Hyoung : forall p, is_young objs_left b p <-> p ∈ news edens ++ news froms).
  { intros p. rewrite elem_of_app. split.
    - intros [Hp Hlt]. unfold OS in Hlt. destruct (news_where p Hp) as [Hn|[Hn|Hn]]; [by left|by right|]. destruct (news_range _ _ _ _ (o_old _ _ Ho) Hn). lia.
    - intros [Hn|Hn]; (split; [by eapply news_is|]); pose proof (bytes_pos_left p ltac:(by eapply news_is)); unfold OS;
        [destruct (news_range _ _ _ _ (o_eden _ _ Ho) Hn)|destruct (news_range _ _ _ _ (o_from _ _ Ho) Hn)]; lia. }
  destruct (o_state _ _ Ho) as (m & t & cs & e & f & o & Est). rewrite Est in *.
  cbn [with_tops mem layout eden from to old offsets cards pending_stall OldGen.bounds OldGen.top OldGen.committed_end Spaces.s_start Spaces.s_end Spaces.s_top] in *.
  destruct (y_tops _ _ _ _ Hy) as (Y1 & Y2 & Y3).
  split; cbn [with_tops mem layout eden from to old offsets cards pending_stall OldGen.bounds OldGen.top OldGen.committed_end Spaces.s_start Spaces.s_end Spaces.s_top].
  - exact Te.
  - exact Tf.
  - exact Hyoung.
  - split_and!; [lia|lia|done].
  - apply (y_bounds _ _ _ _ Hy).
  - apply (y_disjoint _ _ _ _ Hy).
  - intros p s mk (a & Hp & Hs)%objs_left_spec Hmk. destruct (wf_mark _ _ _ _ _ _ _ Hwf a s Hs) as (mk0 & Hmk0 & Hf). destruct (Hmarks a p mk0 Hp Hmk0) as (k & u & _ & _ & Hm).
    rewrite Hmk in Hm. injection Hm as ->. by destruct (mark_after_ok mk0 u Hf) as (_ & ? & _).
Qed.

Lemma roots_left : Forall (valid objs_left) (g_roots r ++ g_code_roots r) /\ Forall (fun k => valid objs_left k /\ Oop.is_mem k = true) (g_keys r).
Proof.
  destruct (o_roots _ _ Ho) as (-> & -> & ->). rewrite <- map_app. split; apply Forall_forall.
  - intros w (w0 & -> & Hw)%list_elem_of_fmap. apply reloc_left; [by eapply Forall_forall in Hroots|]. intros Hm. by apply alive_root.
  - intros w (w0 & -> & [Hs Hw]%list_elem_of_filter)%list_elem_of_fmap. rewrite Forall_forall in Hkeys. destruct (Hkeys w0 Hw) as [Hv Hm].
    destruct (reloc_left w0 Hv) as [H1 H2]; [intros _; by apply (o_alive _ _ Ho)|]. split; [done|congruence].
Qed.
Lemma small_left p s : objs_left !! p = Some s -> size_words s <= U32_MAX.
Proof. intros (a & _ & Hs)%objs_left_spec. by eapply Hsmall. Qed.
End after.
End collection.

(** What the guarantee counts is what the young spaces hold. *)
Lemma left_used st objs edens froms olds : heap_ok st objs olds -> young_ok st objs edens froms ->
  left objs (OldGen.bounds (old st)) ∅ = used (eden st) + used (from st).
Proof.
  intros Hok Hy. unfold left. set (w := fun a => if decide (a < OS (OldGen.bounds (old st)) /\ (∅ : gmap Z Z) !! a = None) then bytes objs a else 0).
  assert (Hp : (map_to_list objs).*1 ≡ₚ everything edens froms olds).
  { apply NoDup_Permutation; [apply NoDup_fst_map_to_list|by eapply NoDup_everything|]. intros a. rewrite (elem_of_everything st objs edens froms olds Hok Hy), list_elem_of_fmap. split.
    - intros ([x s] & -> & Hx%elem_of_map_to_list). by eexists.
    - intros [s Hs]. exists (a, s). split; [done|]. by apply elem_of_map_to_list. }
  assert (Hperm : forall l k, l ≡ₚ k -> foldr (fun a n => w a + n) 0 l = foldr (fun a n => w a + n) 0 k) by (induction 1; cbn [foldr]; lia).
  change (foldr _ 0 _) with (foldr (fun a n => w a + n) 0 (map_to_list objs).*1). rewrite (Hperm _ _ Hp). unfold everything.
  assert (Happ : forall l k, foldr (fun a n => w a + n) 0 (l ++ k) = foldr (fun a n => w a + n) 0 l + foldr (fun a n => w a + n) 0 k).
  { induction l as [|x l IH]; intros k; cbn [app foldr]; [done|]. rewrite IH. lia. }
  assert (Hyoung : forall l, (forall a, a ∈ l -> a < OS (OldGen.bounds (old st))) -> foldr (fun a n => w a + n) 0 l = foldr (fun a n => bytes objs a + n) 0 l).
  { induction l as [|x l IH]; intros Hl; cbn [foldr]; [done|]. rewrite IH by (intros; apply Hl; by right). unfold w at 1. rewrite decide_True; [done|]. split; [apply Hl; left|by rewrite lookup_empty]. }
  assert (Hold : foldr (fun a n => w a + n) 0 olds = 0).
  { assert (Hl : forall a, a ∈ olds -> ~ a < OS (OldGen.bounds (old st))) by (intros a Ha; pose proof (proj2 (old_objs st objs olds Hok a Ha)); unfold OS; lia).
    revert Hl. generalize olds. induction olds0 as [|x l IH]; intros Hl; cbn [foldr]; [done|]. rewrite IH by (intros; apply Hl; by right). unfold w. rewrite decide_False; [done|].
    intros [? _]. by apply (Hl x); [left|]. }
  rewrite !Happ, Hold, !Hyoung, (tiled_total _ _ _ _ (y_eden _ _ _ _ Hy)), (tiled_total _ _ _ _ (y_from _ _ _ _ Hy)); [unfold used; lia|..].
  - intros a Ha. apply (from_objs st objs edens froms Hy a Ha).
  - intros a Ha. apply (eden_objs st objs edens froms Hy a Ha).
Qed.
Lemma mark_after_tagged mk u : Mark.tagged_contents (mark_after mk u) = negb u.
Proof.
  unfold mark_after. generalize (if stateful mk then kept mk else Mark.pristine). intros x. unfold Mark.tagged_contents. change MARK_TAGGED_CONTENTS_MASK with (Z.shiftl 1 4).
  rewrite flag_get by done. unfold Mark.with_gc_mark. change MARK_GC_MARK_MASK with (Z.shiftl 1 44). rewrite (flag_bit 44 _ false 4) by lia.
  unfold Mark.with_tagged_contents. change MARK_TAGGED_CONTENTS_MASK with (Z.shiftl 1 4). destruct u; cbn [negb].
  - rewrite Z.land_spec. change (Z.testbit (not64 (Z.shiftl 1 4)) 4) with false. apply andb_false_r.
  - rewrite Z.lor_spec. apply orb_true_r.
Qed.

(** What the collector relies on and leaves behind: the heap and the young
    generation in order, and no object too large for the plan's size field. *)
Definition sizes_ok (objs : gmap Z shape) : Prop := forall a s, objs !! a = Some s -> size_words s <= U32_MAX.
Definition keys_ok (objs : gmap Z shape) (keys : list Z) : Prop := Forall (fun k => valid objs k /\ Oop.is_mem k = true) keys.

(** C3. A full collection always succeeds.  There is a map from the objects
    reachable from the roots, and from no others, to new places such that
    every root and every surviving weak key names the new place of what it
    named; a key survives when its class does; each object holds in its oop
    slots the relocated oops and in every other word what it held; its
    identity hash, age and near-death flag are kept, the collector's bit is
    clear and the contents flag is what its klass says; every space is packed
    from its start, its objects in their order, and grows no higher; and the
    bytes marked are the bytes placed. *)
Theorem full_gc_correct st objs edens froms olds roots code_roots keys (Hok : heap_ok st objs olds) (Hy : young_ok st objs edens froms)
    (Hroots : Forall (valid objs) (roots ++ code_roots)) (Hkeys : keys_ok objs keys) (Hsmall : sizes_ok objs) :
  exists F r, full_gc st roots code_roots keys = Some r /\
    (forall a, is_Some (F !! a) <-> alive st objs roots code_roots a) /\
    g_roots r = map (reloc F) roots /\ g_code_roots r = map (reloc F) code_roots /\
    g_keys r = map (reloc F) (filter (fun k => is_Some (F !! Oop.mem_addr k)) keys) /\
    (forall a p s, F !! a = Some p -> objs !! a = Some s ->
      (forall i w, -1 <= i < size_words s - 2 -> mem st !! body_addr a i = Some w -> mem (g_state r) !! body_addr p i = Some (word_after F s i w)) /\
      (exists mk mk' k u, mem st !! a = Some mk /\ mem (g_state r) !! p = Some mk' /\ Mark.hash mk' = Mark.hash mk /\ Mark.age mk' = Mark.age mk /\
         Mark.near_death mk' = Mark.near_death mk /\ Mark.gc_mark mk' = false /\ klass (mem st) a = Some k /\ has_untagged_contents (mem st) k = Some u /\
         Mark.tagged_contents mk' = negb u)) /\
    packed objs F edens (Spaces.s_start (eden st)) (Spaces.s_top (eden (g_state r))) /\ Spaces.s_top (eden (g_state r)) <= Spaces.s_top (eden st) /\
    packed objs F froms (Spaces.s_start (from st)) (Spaces.s_top (from (g_state r))) /\ Spaces.s_top (from (g_state r)) <= Spaces.s_top (from st) /\
    packed objs F olds (Geometry.b_start (OldGen.bounds (old st))) (OldGen.top (old (g_state r))) /\ OldGen.top (old (g_state r)) <= OldGen.top (old st) /\
    g_marked r = used (eden (g_state r)) + used (from (g_state r)) + old_used (old (g_state r)).
Proof.
  destruct (full_gc_ok st objs edens froms olds roots code_roots keys Hok Hy Hroots Hkeys Hsmall) as (F & r & Hrun & Ho). exists F, r.
  destruct (o_roots _ _ _ _ _ _ _ _ _ _ Ho) as (R1 & R2 & R3). destruct (o_tops _ _ _ _ _ _ _ _ _ _ Ho) as (T1 & T2 & T3). pose proof (h_wf _ _ _ Hok) as Hwf.
  split; [done|]. split; [apply (o_alive _ _ _ _ _ _ _ _ _ _ Ho)|]. do 3 (split; [done|]). split.
  - intros a p s Hp Hs. split; [intros i w Hr Hw; by eapply (o_words _ _ _ _ _ _ _ _ _ _ Ho)|]. destruct (wf_mark _ _ _ _ _ _ _ Hwf a s Hs) as (mk & Hmk & Hf).
    destruct (o_marks _ _ _ _ _ _ _ _ _ _ Ho a p mk Hp Hmk) as (k & u & Hk & Hu & Hm). destruct (mark_after_ok mk u Hf) as (_ & A1 & A2 & A3 & A4).
    exists mk, (mark_after mk u), k, u. split_and!; try done; [|apply mark_after_tagged].
    destruct (bodies_klass _ _ _ _ _ _ _ Hwf (mem st) a s) as (k' & Hk' & _ & _ & _ & Hkl & _); [by intros ? ? ? ? ?|done|].
    unfold klass_word, oop_of in *. rewrite Hk in Hk'. injection Hk' as Hk'. by replace k with k' by lia.
  - destruct (o_state _ _ _ _ _ _ _ _ _ _ Ho) as (m & t & cs & e & f & o & Est). pose proof (o_live _ _ _ _ _ _ _ _ _ _ Ho) as Hl.
    split_and!; try apply Ho; [done..|]. rewrite Hl, Est. unfold used, old_used. cbn. lia.
Qed.

(** C16. A full collection re-establishes the heap it started from, in both
    generations: objects, marks, klasses, the offset table, the remembered
    set, the spaces and the promotion guarantee are again what either collector
    needs; the roots and the surviving keys are words it may be given. *)
Theorem full_gc_preserves st objs edens froms olds roots code_roots keys r (Hok : heap_ok st objs olds) (Hy : young_ok st objs edens froms)
    (Hroots : Forall (valid objs) (roots ++ code_roots)) (Hkeys : keys_ok objs keys) (Hsmall : sizes_ok objs)
    (Hrun : full_gc st roots code_roots keys = Some r) :
  exists objs' edens' froms' olds', heap_ok (g_state r) objs' olds' /\ young_ok (g_state r) objs' edens' froms' /\
    Forall (valid objs') (g_roots r ++ g_code_roots r) /\ keys_ok objs' (g_keys r) /\ sizes_ok objs' /\
    (guaranteed st objs -> guaranteed (g_state r) objs').
Proof.
  destruct (full_gc_ok st objs edens froms olds roots code_roots keys Hok Hy Hroots Hkeys Hsmall) as (F & r' & Hrun' & Ho).
  rewrite Hrun in Hrun'. injection Hrun' as <-. exists (objs_left objs F), (news F edens), (news F froms), (news F olds).
  pose proof (heap_ok_left _ _ _ _ _ _ _ _ Hok Hy _ _ Ho) as Hok'. pose proof (young_ok_left _ _ _ _ _ _ _ _ Hok Hy _ _ Ho) as Hy'.
  destruct (roots_left _ _ _ _ _ _ _ _ Hok Hroots Hkeys _ _ Ho) as [Hr' Hk']. split_and!; try done.
  - intros p s. by eapply small_left.
  - unfold guaranteed. rewrite (left_used _ _ _ _ _ Hok' Hy'), (left_used _ _ _ _ _ Hok Hy). intros Hg. destruct (o_state _ _ _ _ _ _ _ _ _ _ Ho) as (m & t & cs & e & f & o & Est).
    destruct (o_tops _ _ _ _ _ _ _ _ _ _ Ho) as (T1 & T2 & T3). rewrite Est in *. cbn in *. intros Hp. specialize (Hg Hp). unfold used in *. cbn. lia.
Qed.

(** ** The small heap of the scavenger, collected *)
Definition demo_keys : list Z := [65569].
Lemma demo_keys_ok : keys_ok demo_objs demo_keys.
Proof. apply (bool_decide_unpack _). vm_compute. exact I. Qed.
Lemma demo_sizes_ok : sizes_ok demo_objs.
Proof.
  intros a s Hs%elem_of_list_to_map_2. change U32_MAX with 4294967295.
  repeat (apply elem_of_cons in Hs as [[= -> ->]|Hs]; [by unfold size_words; cbn; lia|]). by apply elem_of_nil in Hs.
Qed.
Lemma demo_heap : exists st, demo_start = Some st /\ heap_ok st demo_objs demo_olds /\ young_ok st demo_objs [8192; 8216; 8240] [].
Proof. destruct demo_ok as (st & Hst & Hok & _). destruct demo_young_ok as (st2 & Hst2 & Hy). rewrite Hst in Hst2. injection Hst2 as <-. by exists st. Qed.

Definition demo_collected : option collected := st ← demo_start; full_gc st demo_roots [] demo_keys.
Example demo_moves : (fun r => (g_roots r, g_keys r, Spaces.s_top (eden (g_state r)), OldGen.top (old (g_state r)), g_marked r)) <$> demo_collected =
  Some ([8217; 40], [65569], 8240, 65600, 112).
Proof. vm_compute. reflexivity. Qed.

Lemma full_gc_correct_witness : exists st F r, demo_start = Some st /\ full_gc st demo_roots [] demo_keys = Some r /\
  (forall a, is_Some (F !! a) <-> alive st demo_objs demo_roots [] a) /\ g_roots r = map (reloc F) demo_roots.
Proof.
  destruct demo_heap as (st & Hst & Hok & Hy).
  destruct (full_gc_correct st demo_objs [8192; 8216; 8240] [] demo_olds demo_roots [] demo_keys Hok Hy demo_roots_valid demo_keys_ok demo_sizes_ok)
    as (F & r & H1 & H2 & H3 & _). exists st, F, r. split; [exact Hst|]. split; [exact H1|]. split; [exact H2|exact H3].
Defined.

Lemma full_gc_preserves_witness : exists r, demo_collected = Some r /\ exists objs' edens' froms' olds', heap_ok (g_state r) objs' olds' /\
  young_ok (g_state r) objs' edens' froms' /\ Forall (valid objs') (g_roots r ++ g_code_roots r) /\ keys_ok objs' (g_keys r) /\ sizes_ok objs'.
Proof.
  destruct demo_heap as (st & Hst & Hok & Hy). unfold demo_collected. rewrite Hst. cbn [mbind option_bind].
  assert (Hrun : is_Some demo_collected) by (vm_compute; by eexists). unfold demo_collected in Hrun. rewrite Hst in Hrun. cbn [mbind option_bind] in Hrun.
  destruct Hrun as [r Hr]. exists r. split; [exact Hr|].
  destruct (full_gc_preserves st demo_objs [8192; 8216; 8240] [] demo_olds demo_roots [] demo_keys r Hok Hy demo_roots_valid demo_keys_ok demo_sizes_ok Hr)
    as (objs' & edens' & froms' & olds' & H1 & H2 & H3 & H4 & H5 & _). exists objs', edens', froms', olds'. split; [exact H1|]. split; [exact H2|]. split; [exact H3|]. split; [exact H4|exact H5].
Defined.
End FullGcCorrect.
