(* ===== verification/Survival.v ===== *)
(** What a collection is to the mutator: some objects survive, each at one new
    place, with the words it had; nothing else is promised.  Both collectors
    ([src/src/memory/scavenge.rs], [src/src/memory/fullgc.rs]) keep this
    contract. *)
From S2P Require Import Prelude Oops OldSpace Heap Scavenge ScavengeInv ScavengeCorrect FullGc FullGcInv FullGcCorrect.
From stdpp Require Import gmap.
#[local] Open Scope Z_scope.

Module Survival.
Import Heap Scavenge ScavengeInv ScavengeCorrect FullGc FullGcInv FullGcCorrect.

(** The state of the heap between two operations of the mutator. *)
Record heap (st : gcstate) (objs : gmap Z shape) (edens froms olds : list Z) : Prop := {
  hp_ok : heap_ok st objs olds;
  hp_young : young_ok st objs edens froms;
  hp_sizes : sizes_ok objs;
  hp_end : Geometry.b_end (OldGen.bounds (old st)) < 2 ^ 63 }.

(** [F] takes the objects that survive to their places. *)
Record survives (M M' : memory) (objs objs' : gmap Z shape) (F : gmap Z Z) : Prop := {
  sv_obj : forall a p, F !! a = Some p -> exists s, objs !! a = Some s /\ objs' !! p = Some s /\ Oop.is_mem (oop_of p) = true;
  sv_inj : forall a a' p, F !! a = Some p -> F !! a' = Some p -> a = a';
  sv_closed : forall a s i w, is_Some (F !! a) -> objs !! a = Some s -> i ∈ oop_slots s -> M !! body_addr a i = Some w -> in_F F w;
  sv_words : forall a p s i w, F !! a = Some p -> objs !! a = Some s -> -1 <= i < size_words s - 2 -> M !! body_addr a i = Some w ->
    M' !! body_addr p i = Some (word_after F s i w) }.

Definition collects (st : gcstate) (objs : gmap Z shape) (st' : gcstate) (ws ws' : list Z) : Prop := exists objs' edens' froms' olds' F,
  heap st' objs' edens' froms' olds' /\ survives (mem st) (mem st') objs objs' F /\ Forall (in_F F) ws /\ ws' = map (reloc F) ws.

(** ** The full collection *)
Lemma full_gc_collects st objs edens froms olds roots code_roots keys : heap st objs edens froms olds -> Forall (valid objs) (roots ++ code_roots) ->
  keys_ok objs keys -> exists r, full_gc st roots code_roots keys = Some r /\
    (exists objs' edens' froms' olds' F, heap (g_state r) objs' edens' froms' olds' /\ survives (mem st) (mem (g_state r)) objs objs' F /\
       Forall (in_F F) (roots ++ code_roots) /\ g_roots r = map (reloc F) roots /\ g_code_roots r = map (reloc F) code_roots /\ keys_ok objs' (g_keys r)) /\
    used (eden (g_state r)) + used (from (g_state r)) <= used (eden st) + used (from st) /\ OldGen.free_bytes (old st) <= OldGen.free_bytes (old (g_state r)).
Proof.
  intros [Hok Hy Hs He] Hroots Hkeys. destruct (full_gc_ok st objs edens froms olds roots code_roots keys Hok Hy Hroots Hkeys Hs) as (F & r & Hrun & Ho). exists r.
  destruct (o_state _ _ _ _ _ _ _ _ _ _ Ho) as (m & t & cs & e & f & o & Est). destruct (o_tops _ _ _ _ _ _ _ _ _ _ Ho) as (T1 & T2 & T3).
  split_and!; [done| |rewrite Est in *; cbn in *; unfold used; cbn; lia|rewrite Est in *; unfold OldGen.free_bytes; cbn in *; lia].
  destruct (o_roots _ _ _ _ _ _ _ _ _ _ Ho) as (R1 & R2 & _). destruct (roots_left _ _ _ _ _ _ _ _ Hok Hroots Hkeys _ _ Ho) as [_ Hk'].
  exists (objs_left objs F), (news F edens), (news F froms), (news F olds), F. split_and!; try done.
  - split; [by eapply heap_ok_left|by eapply young_ok_left|intros p s; by eapply small_left|by rewrite Est].
  - split.
    + intros a p Hp. destruct (o_aligned _ _ _ _ _ _ _ _ _ _ Ho a p Hp) as [[s Hsh] H8]. exists s. split_and!; [done| |by apply aligned_mem].
      eapply objs_left_spec; [done..|]. by exists a.
    + by eapply moved_inj.
    + intros a s i w Ha Hsh Hi Hw Hm. by eapply moved_closed.
    + intros a p s i w Hp Hsh Hr Hw. by eapply (o_words _ _ _ _ _ _ _ _ _ _ Ho).
  - apply Forall_forall. intros w Hw Hm. apply (o_alive _ _ _ _ _ _ _ _ _ _ Ho). by apply alive_root.
Qed.

(** ** The scavenge *)
(** Old objects stay where they are. *)
Definition stays (olds : list Z) : gmap Z Z := list_to_map (same olds).
Lemma stays_spec olds a p : NoDup olds -> stays olds !! a = Some p <-> a ∈ olds /\ p = a.
Proof.
  intros Hnd. unfold stays, same. split.
  - intros H. apply elem_of_list_to_map_2, list_elem_of_fmap in H as (x & [= -> ->] & Hx). done.
  - intros [Ha ->]. apply elem_of_list_to_map_1; [|apply list_elem_of_fmap; by exists a]. rewrite map_map. by rewrite map_id.
Qed.
Lemma olds_NoDup st objs olds : heap_ok st objs olds -> NoDup olds.
Proof. intros Hok. eapply tiled_NoDup. exact (tiled_olds st objs olds Hok). Qed.

Lemma settled_stays st objs olds roots code_roots g s1 w : heap_ok st objs olds -> complete st objs olds roots code_roots g s1 -> valid objs w ->
  settled objs (OldGen.bounds (old st)) (phi g) w -> in_F (phi g ∪ stays olds) w /\ reloc (phi g ∪ stays olds) w = reloc (phi g) w.
Proof.
  intros Hok Hc [_ Hv] Hs. unfold in_F, reloc, settled in *. destruct (Oop.is_mem w) eqn:Hm; [|done]. specialize (Hv eq_refl). specialize (Hs eq_refl).
  destruct (phi g !! Oop.mem_addr w) as [p|] eqn:E; [by rewrite (lookup_union_Some_l _ _ _ _ E)|]. rewrite lookup_union_r by done.
  assert (Ha : Oop.mem_addr w ∈ olds).
  { apply (wf_olds _ _ _ _ _ _ _ (h_wf _ _ _ Hok)). split; [done|]. destruct (decide (OS (OldGen.bounds (old st)) <= Oop.mem_addr w)); [done|].
    destruct Hs; [split; [done|lia]|done]. }
  rewrite (proj2 (stays_spec olds _ _ (olds_NoDup _ _ _ Hok)) (conj Ha eq_refl)). split; [by eexists|]. unfold oop_of, Oop.mem_addr, MEM_TAG. lia.
Qed.
Lemma placed_union st objs olds roots code_roots g s1 a p : heap_ok st objs olds -> complete st objs olds roots code_roots g s1 ->
  (phi g ∪ stays olds) !! a = Some p <-> home olds g (a, p).
Proof.
  intros Hok Hc. rewrite <- (placed_home st objs olds roots code_roots g s1 Hc). unfold placed.
  rewrite lookup_union_Some_raw, (stays_spec olds a p (olds_NoDup _ _ _ Hok)). destruct (c_inv _ _ _ _ _ _ _ Hc) as [D Hi].
  assert (Hy : a ∈ olds -> phi g !! a = None).
  { intros Ha. destruct (phi g !! a) as [q|] eqn:E; [|done]. apply (i_phi _ _ _ _ _ _ _ _ _ _ _ _ Hi) in E. destruct (i_young _ _ _ _ _ _ _ _ _ _ _ _ Hi _ _ E) as [[_ Hlt] _].
    apply (wf_olds _ _ _ _ _ _ _ (h_wf _ _ _ Hok)) in Ha as [_ ?]. lia. }
  tauto.
Qed.

Lemma scavenge_collects st objs edens froms olds roots code_roots : heap st objs edens froms olds -> guaranteed st objs -> Forall (valid objs) (roots ++ code_roots) ->
  exists r, scavenge st roots code_roots = Some r /\
    match r with
    | Stalled _ _ => promotion_guarantee_met st = false
    | Scavenged st' roots' code_roots' => exists objs' edens' froms' olds' F, heap st' objs' edens' froms' olds' /\ survives (mem st) (mem st') objs objs' F /\
        Forall (in_F F) (roots ++ code_roots) /\ roots' = map (reloc F) roots /\ code_roots' = map (reloc F) code_roots
    end.
Proof.
  intros [Hok Hy Hs He] Hg Hroots. destruct (cycle_ok st objs olds roots code_roots Hok Hg Hroots) as (r & Hr & [(e & s1 & -> & Hp)|(g & s1 & s2 & Hc & Hf & -> & Hset)]);
    eexists; (split; [exact Hr|]); [done|]. pose proof (h_wf _ _ _ Hok) as Hwf. destruct (c_inv _ _ _ _ _ _ _ Hc) as [D Hi].
  destruct (heap_after _ _ _ _ _ Hok _ _ Hc _ Hf) as (Hm & Hb & _).
  set (F := phi g ∪ stays olds). assert (HF : forall a p, F !! a = Some p <-> home olds g (a, p)) by (intros; by eapply placed_union).
  assert (Hrel : forall w, w ∈ roots ++ code_roots -> in_F F w /\ reloc F w = reloc (phi g) w).
  { intros w Hw. rewrite Forall_forall in Hroots, Hset. eapply settled_stays; [done|exact Hc|by apply Hroots|by apply Hset]. }
  assert (Hmap : forall l, (forall w, w ∈ l -> w ∈ roots ++ code_roots) -> map (reloc (phi g)) l = map (reloc F) l).
  { intros l Hl. apply map_ext_in. intros w Hw%list_elem_of_In. symmetry. by apply Hrel, Hl. }
  exists (ScavengeCorrect.objs_after objs olds g), [], (map snd (tl g)), (olds_after olds g), F. split_and!.
  - split; [by eapply heap_ok_after|by eapply young_ok_after| |by rewrite Hb]. intros p s (a & _ & Hsh)%(ScavengeCorrect.objs_after_spec _ _ _ _ _ Hok _ _ Hc). by eapply Hs.
  - split.
    + intros a p Hh%HF. destruct (home_obj _ _ _ _ _ _ _ _ Hwf _ _ _ _ _ _ Hi Hh) as [s Hsh]. exists s. split_and!; [done|apply (ScavengeCorrect.objs_after_spec _ _ _ _ _ Hok _ _ Hc); by exists a|].
      apply aligned_mem. destruct Hh as [Hh|Hh]; [pose proof (home_tl _ _ _ _ _ _ _ _ Hwf _ _ _ _ _ _ Hi Hh)|pose proof (home_old _ _ _ _ _ _ _ _ Hwf _ _ _ _ _ _ Hi Hh)]; tauto.
    + intros a a' p H%HF H'%HF. by eapply (home_unique st objs olds roots code_roots Hok g s1 Hc).
    + intros a s i w [p Hh%HF] Hsh Hin Hw. destruct (c_slots _ _ _ _ _ _ _ Hc a p s i w Hh Hsh Hin Hw) as [_ Hst].
      eapply settled_stays; [done|exact Hc|by eapply (slot_valid _ _ _ _ _ _ _ Hwf)|done].
    + intros a p s i w Hh%HF Hsh Hr' Hw. rewrite Hm. rewrite (words_after st objs olds roots code_roots g s1 Hc a p s i w); [|by eapply placed_home|done..].
      f_equal. unfold word_after. case_decide as Hin; [|done]. destruct (c_slots _ _ _ _ _ _ _ Hc a p s i w Hh Hsh Hin Hw) as [_ Hst].
      symmetry. eapply settled_stays; [done|exact Hc|by eapply (slot_valid _ _ _ _ _ _ _ Hwf)|done].
  - apply Forall_forall. intros w Hw. by apply Hrel.
  - apply Hmap. intros w Hw. apply elem_of_app. by left.
  - apply Hmap. intros w Hw. apply elem_of_app. by right.
Qed.
End Survival.
