(* ===== verification/Mutator.v ===== *)
(** What the mutator does to the heap: reading and storing a word
    ([src/src/oops/heap.rs], [src/src/memory/store.rs]) and allocating
    ([src/src/memory/alloc.rs]), with the collections an allocation may run.

    The roots are the words of [nil_obj], of the handle that protects the klass
    during an allocation (or the slot of a primitive's receiver), and of every other slot the enumerations visit
    ([roots], [code_roots], [keys]).  A process exit is [Exits]; a panic is
    [None]. *)
From S2P Require Import Prelude Oops OldSpace Heap Scavenge FullGc.
From stdpp Require Import gmap.
#[local] Open Scope Z_scope.

Module Mutator.
Import Heap Scavenge FullGc.

Definition OLD_GROWTH_SEGMENT : Z := Z.shiftl 16 20.

(** ** Reading and storing *)
Definition body_word_count (m : memory) (a : Z) : option Z :=
  n ← instance_size_words m a; if n <? HEADER_WORDS then None else Some (n - HEADER_WORDS).
(** The debug assertion of the body accessors. *)
Definition in_bounds (m : memory) (a index : Z) : option unit := bound ← body_word_count m a; if index <? bound then Some tt else None.
Definition body_oop (m : memory) (a index : Z) : option Z := _ ← in_bounds m a index; w ← raw_body_word m a index; Oop.from_raw w.
Definition set_body_oop (m : memory) (a index v : Z) : option memory := _ ← in_bounds m a index; Some (set_raw_body_word m a index v).
Definition tail_start_word (m : memory) (a : Z) : option Z :=
  k ← klass m a; nis ← non_indexable_size m k; named ← named_words nis; Some (named + 1).

Definition is_old (st : gcstate) (a : Z) : bool := Geometry.is_old (layout st) a.
Definition store (st : gcstate) (obj word_offset val : Z) : option gcstate :=
  _ ← in_bounds (mem st) obj word_offset;
  let slot := body_addr obj word_offset in
  m ← set_body_oop (mem st) obj word_offset val;
  let st := with_mem st m in
  if is_old st obj && Oop.is_mem val && Geometry.is_new (layout st) (Oop.mem_addr val)
  then cs ← Cards.dirty_for_slot (cards st) slot; Some (with_cards st cs)
  else Some st.
Definition store_tail_oop (st : gcstate) (obj i val : Z) : option gcstate := s ← tail_start_word (mem st) obj; store st obj (s + i) val.
Definition post_write_barrier (st : gcstate) (obj : Z) : option gcstate :=
  if is_old st obj
  then n ← instance_size_words (mem st) obj; cs ← Cards.record_multistores (cards st) obj (obj + n * 8); Some (with_cards st cs)
  else Some st.

(** ** The state of an allocation *)
Record vmstate := MkVm {
  gc : gcstate; nil_obj : Z; roots : list Z; code_roots : list Z; keys : list Z;
  gc_enabled : bool; gc_stress : bool; gc_stress_full_period : option Z; full_stress_alloc_count : Z }.
Definition with_gc (vm : vmstate) (st : gcstate) : vmstate :=
  MkVm st (nil_obj vm) (roots vm) (code_roots vm) (keys vm) (gc_enabled vm) (gc_stress vm) (gc_stress_full_period vm) (full_stress_alloc_count vm).
Definition with_roots (vm : vmstate) (st : gcstate) (nl : Z) (roots code_roots keys : list Z) : vmstate :=
  MkVm st nl roots code_roots keys (gc_enabled vm) (gc_stress vm) (gc_stress_full_period vm) (full_stress_alloc_count vm).
Definition with_count (vm : vmstate) (n : Z) : vmstate :=
  MkVm (gc vm) (nil_obj vm) (roots vm) (code_roots vm) (keys vm) (gc_enabled vm) (gc_stress vm) (gc_stress_full_period vm) n.

Inductive run (A : Type) := Exits (requested : Z) (phase : GcPhase) | Runs (a : A).
Arguments Exits {A} _ _.
Arguments Runs {A} _.
Definition M (A : Type) := option (run A).
Definition bind {A B} (c : M A) (f : A -> M B) : M B :=
  match c with None => None | Some (Exits n p) => Some (Exits n p) | Some (Runs a) => f a end.
Definition lift {A} (c : option A) : M A := a ← c; Some (Runs a).
#[local] Notation "'let!' x := c 'in' k" := (bind c (fun x => k)) (at level 10, x pattern, k at level 200).

(** ** Collections *)
(** [stall_exit] is the [Exits]. *)
Definition scavenge_now (vm : vmstate) (klass : Z) : M (vmstate * Z) :=
  match checked_scavenge (gc_enabled vm) (gc vm) (nil_obj vm :: klass :: roots vm) (code_roots vm ++ keys vm) with
  | None => None
  | Some (Stalled (requested, phase) _) => Some (Exits requested phase)
  | Some (Scavenged st (nl :: klass :: rs) cs) =>
      let n := length (code_roots vm) in Some (Runs (with_roots vm st nl rs (take n cs) (drop n cs), klass))
  | Some (Scavenged _ _ _) => None
  end.
Definition full_gc_now (vm : vmstate) (klass : Z) : option (vmstate * Z) :=
  r ← checked_full_gc (gc_enabled vm) (gc vm) (nil_obj vm :: klass :: roots vm) (code_roots vm) (keys vm);
  match g_roots r with
  | nl :: klass :: rs => Some (with_roots vm (g_state r) nl rs (g_code_roots r) (g_keys r), klass)
  | _ => None
  end.

(** [Universe::grow_old]: the bytes committed. *)
Definition grow_old (st : gcstate) (segment : Z) : Z * gcstate :=
  let '(grown, g) := OldGen.grow (old st) segment in (grown, with_old st g (offsets st)).

(** Every turn but the last commits a whole segment. *)
Fixpoint grow_until (fuel : nat) (worst_case : Z) (st : gcstate) : option gcstate :=
  if OldGen.free_bytes (old st) <? worst_case then
    match fuel with
    | O => None
    | Datatypes.S fuel => let '(grown, st) := grow_old st OLD_GROWTH_SEGMENT in if grown =? 0 then Some st else grow_until fuel worst_case st
    end
  else Some st.
Definition grow_fuel (st : gcstate) : nat :=
  Z.to_nat ((Geometry.b_end (OldGen.bounds (old st)) - OldGen.committed_end (old st)) / OLD_GROWTH_SEGMENT + 2).
Definition with_guarantee (st : gcstate) (met : bool) : gcstate :=
  MkGC (mem st) (layout st) (eden st) (from st) (to st) (old st) (offsets st) (cards st) (age_table st) (tenuring_threshold st) met
    (pending_stall st) (bytes_promoted st) (bytes_copied st).
Definition ensure_promotion_guarantee (vm : vmstate) (klass : Z) : option (vmstate * Z) :=
  let worst_case := used (eden (gc vm)) + used (from (gc vm)) in
  '(vm, klass) ← (if OldGen.free_bytes (old (gc vm)) <? worst_case then
                    '(vm, klass) ← full_gc_now vm klass;
                    st ← grow_until (grow_fuel (gc vm)) worst_case (gc vm); Some (with_gc vm st, klass)
                  else Some (vm, klass));
  Some (with_gc vm (with_guarantee (gc vm) (worst_case <=? OldGen.free_bytes (old (gc vm)))), klass).

(** ** Allocation *)
Definition checked_mul (a b : Z) : option Z := if decide (inU 64 (a * b)) then Some (a * b) else None.
Definition checked_add (a b : Z) : option Z := if decide (inU 64 (a + b)) then Some (a + b) else None.

Fixpoint fill_words (n : nat) (m : memory) (addr w : Z) : memory :=
  match n with O => m | Datatypes.S n => fill_words n (<[addr := w]> m) (addr + 8) w end.
Definition init_object_at (m : memory) (addr words klass : Z) (tagged : bool) (nil_fill : Z) : option memory :=
  let m := set_mark m addr (Mark.with_tagged_contents Mark.pristine tagged) in
  let m := set_klass_raw m addr klass in
  if words <? HEADER_WORDS then None
  else Some (fill_words (Z.to_nat (words - HEADER_WORDS)) m (body_addr addr 0) (if tagged then nil_fill else 0)).

(** The inner option is the [None] of a full eden. *)
Definition try_bump_eden (e : Spaces.Eden) (words : Z) : option (option Z * Spaces.Eden) :=
  size ← checked_mul words WORD_SIZE;
  new_top ← checked_add (Spaces.s_top e) size;
  if Spaces.s_end e <? new_top then Some (None, e) else Some (Some (Spaces.s_top e), Spaces.MkSpace (Spaces.s_start e) new_top (Spaces.s_end e)).
Definition with_eden (st : gcstate) (e : Spaces.Eden) : gcstate :=
  MkGC (mem st) (layout st) e (from st) (to st) (old st) (offsets st) (cards st) (age_table st) (tenuring_threshold st) (promotion_guarantee_met st)
    (pending_stall st) (bytes_promoted st) (bytes_copied st).

(** A bump and the initialisation of the object. *)
Definition bump_alloc (vm : vmstate) (words klass : Z) (tagged : bool) : option (option (vmstate * Z)) :=
  '(addr, e) ← try_bump_eden (eden (gc vm)) words;
  match addr with
  | None => Some None
  | Some addr =>
      m ← init_object_at (mem (gc vm)) addr words klass tagged (nil_obj vm);
      Some (Some (with_gc vm (with_mem (with_eden (gc vm) e) m), addr))
  end.
Definition try_old_alloc (vm : vmstate) (words size_bytes klass : Z) (tagged : bool) : option (option (vmstate * Z)) :=
  let st := gc vm in
  r ← OldGen.allocate (old st) (offsets st) tt size_bytes (fun _ m => m);
  let st := with_old st (OldGen.r_old r) (OldGen.r_offsets r) in
  match OldGen.r_addr r with
  | None => Some None
  | Some addr =>
      m ← init_object_at (mem st) addr words klass tagged (nil_obj vm);
      cs ← Cards.record_multistores (cards st) addr (addr + size_bytes);
      Some (Some (with_gc vm (with_cards (with_mem st m) cs), addr))
  end.
(** The attempt, and once more after one segment of growth, which stays. *)
Definition old_alloc_growing (vm : vmstate) (words size_bytes klass : Z) (tagged : bool) : option (vmstate * Z + vmstate) :=
  r ← try_old_alloc vm words size_bytes klass tagged;
  match r with
  | Some r => Some (inl r)
  | None =>
      let '(grown, st) := grow_old (gc vm) OLD_GROWTH_SEGMENT in
      let vm := with_gc vm st in
      if 0 <? grown then
        r ← try_old_alloc vm words size_bytes klass tagged;
        Some (match r with Some r => inl r | None => inr vm end)
      else Some (inr vm)
  end.

(** The collections the stress options ask for. *)
Definition stress (vm : vmstate) (klass : Z) : M (vmstate * Z) :=
  let! (vm, klass) := (if gc_stress vm && gc_enabled vm
                        then let! (vm, klass) := lift (ensure_promotion_guarantee vm klass) in scavenge_now vm klass
                        else Some (Runs (vm, klass))) in
  match gc_stress_full_period vm with
  | Some period =>
      if gc_enabled vm then
        let! n := lift (checked_add (full_stress_alloc_count vm) 1) in
        if period <=? n then lift (full_gc_now (with_count vm 0) klass) else Some (Runs (with_count vm n, klass))
      else Some (Runs (vm, klass))
  | None => Some (Runs (vm, klass))
  end.

(** The two retries: eden after a guarded scavenge, and the last resort. *)
Definition alloc_scavenging (vm : vmstate) (words klass : Z) (tagged : bool) : M (vmstate * Z + vmstate * Z) :=
  if gc_enabled vm then
    let! (vm, klass) := lift (ensure_promotion_guarantee vm klass) in
    let! (vm, klass) := scavenge_now vm klass in
    let! r := lift (bump_alloc vm words klass tagged) in
    Some (Runs (match r with Some r => inl r | None => inr (vm, klass) end))
  else Some (Runs (inr (vm, klass))).
Definition alloc_last_resort (vm : vmstate) (words size_bytes klass : Z) (tagged : bool) : M (vmstate * Z) :=
  let! (vm, klass) := lift (full_gc_now vm klass) in
  let! r := lift (bump_alloc vm words klass tagged) in
  match r with
  | Some r => Some (Runs r)
  | None =>
      let! r := lift (old_alloc_growing vm words size_bytes klass tagged) in
      Some (match r with inl r => Runs r | inr _ => Exits size_bytes Mutator end)
  end.

Definition alloc_words (vm : vmstate) (words klass : Z) (tagged : bool) : M (vmstate * Z) :=
  if words <? HEADER_WORDS then None
  else
    let! size_bytes := lift (checked_mul words WORD_SIZE) in
    let! (vm, klass) := stress vm klass in
    let! r := lift (bump_alloc vm words klass tagged) in
    match r with
    | Some r => Some (Runs r)
    | None =>
        let! r := alloc_scavenging vm words klass tagged in
        match r with
        | inl r => Some (Runs r)
        | inr (vm, klass) =>
            let! r := lift (old_alloc_growing vm words size_bytes klass tagged) in
            match r with inl r => Some (Runs r) | inr vm => alloc_last_resort vm words size_bytes klass tagged end
        end
    end.

Definition alloc_slots (vm : vmstate) (klass : Z) : M (vmstate * Z) :=
  let! words := lift (non_indexable_size (mem (gc vm)) klass) in alloc_words vm words (oop_of klass) true.
(** [tail] words follow the size slot, which holds [n]. *)
Definition alloc_indexable (vm : vmstate) (klass n tail : Z) (tagged : bool) : M (vmstate * Z) :=
  let! nis := lift (non_indexable_size (mem (gc vm)) klass) in
  let! w := lift (checked_add nis 1) in
  let! words := lift (checked_add w tail) in
  let! (vm, obj) := alloc_words vm words (oop_of klass) tagged in
  let! size_idx := lift (named_words nis) in
  let! s := lift (SmallInt.try_new (i64 n)) in
  Some (Runs (with_gc vm (with_mem (gc vm) (set_raw_body_word (mem (gc vm)) obj size_idx s)), obj)).
Definition alloc_indexable_oops (vm : vmstate) (klass n : Z) : M (vmstate * Z) := alloc_indexable vm klass n n true.
Definition alloc_indexable_bytes (vm : vmstate) (klass nbytes : Z) : M (vmstate * Z) := alloc_indexable vm klass nbytes ((nbytes + 7) / 8) false.
(** ** The collector's primitives (runtime/primitives.rs) *)
(** They answer the receiver, read from its slot after the collection. *)
Definition prim_gc_scavenge (vm : vmstate) (receiver : Z) : M (vmstate * Z) := scavenge_now vm receiver.
Definition prim_gc_full (vm : vmstate) (receiver : Z) : M (vmstate * Z) := lift (full_gc_now vm receiver).
End Mutator.
