(* ===== verification/Extension.v ===== *)
(** A heap and one object more: what a fresh object must look like for the
    heap to stay well formed, wherever it is placed
    ([src/src/memory/alloc.rs]), and what a word written over an oop may be
    ([src/src/memory/store.rs]). *)
From S2P Require Import Prelude Oops OldSpace Heap Scavenge ScavengeInv ScavengeCorrect FullGc FullGcInv FullGcCorrect Survival Mutator.
From stdpp Require Import gmap.
#[local] Open Scope Z_scope.

Module Extension.
Import Heap Scavenge ScavengeInv ScavengeCorrect FullGc FullGcInv FullGcCorrect Survival Mutator.

Section extend.
Context (M M' : memory) (objs : gmap Z shape) (olds olds' : list Z) (b : Geometry.SpaceBounds) (lay : Geometry.HeapLayout) (ts te addr : Z) (s : shape).
Context (Hwf : heap_wf M objs olds b lay ts te).
#[local] Abbreviation size := (8 * size_words s).
#[local] Abbreviation objs' := (<[addr := s]> objs).

(** The memory holds the object at [addr] and is otherwise as before. *)
Record fresh : Prop := {
  f_new : forall a, is_Some (objs !! a) -> a + bytes objs a <= addr \/ addr + size <= a;
  f_same : forall x, x < addr \/ addr + size <= x -> M' !! x = M !! x;
  f_mark : exists mk, M' !! addr = Some mk /\ Mark.from_word mk = Some mk /\ Mark.gc_mark mk = false;
  f_words : forall i, -1 <= i < size_words s - 2 -> is_Some (M' !! body_addr addr i);
  f_klass : exists k ks, M' !! body_addr addr (-1) = Some (oop_of k) /\ Oop.is_mem (oop_of k) = true /\ objs !! k = Some ks /\ 4 <= size_words ks /\
    shape_with M' addr k = Some s /\ klass_of_oop M (oop_of k) = Some k;
  f_slots : forall i w, i ∈ body_slots s -> M' !! body_addr addr i = Some w -> valid objs w;
  f_small : size_words s <= U32_MAX }.
Context (Hf : fresh).

Lemma fresh_size : 2 <= s_nis s /\ 0 <= s_len s /\ 2 <= size_words s.
Proof.
  destruct (f_klass Hf) as (k & ks & _ & _ & _ & _ & Hsh & _). destruct (shape_bounds _ _ _ _ Hsh) as [H1 H2]. split_and!; [done|done|].
  unfold size_words. assert (0 <= (s_len s + 7) / 8) by (apply Z.div_pos; lia). destruct (s_format s); lia.
Qed.
Lemma fresh_none : objs !! addr = None.
Proof.
  destruct (objs !! addr) as [t|] eqn:E; [|done]. destruct (bytes_pos _ _ _ _ _ _ _ Hwf addr ltac:(by eexists)). pose proof fresh_size.
  destruct (f_new Hf addr ltac:(by eexists)); lia.
Qed.
Lemma bytes_new : bytes objs' addr = size.
Proof. unfold bytes. by rewrite lookup_insert_eq. Qed.
Lemma bytes_other a : a <> addr -> bytes objs' a = bytes objs a.
Proof. intros Hne. unfold bytes. by rewrite lookup_insert_ne. Qed.
Lemma same_word a t i : objs !! a = Some t -> -2 <= i < size_words t - 2 -> M' !! body_addr a i = M !! body_addr a i.
Proof.
  intros Ht Hr. destruct (obj_shape _ _ _ _ _ _ _ Hwf a t Ht) as (_ & _ & _ & Hb). apply (f_same Hf). rewrite body_addr_eq.
  destruct (f_new Hf a ltac:(by eexists)); lia.
Qed.
Lemma same_smis a : smis M objs M' a a.
Proof. intros t i w Ht Hr Hw _. by rewrite (same_word a t i Ht ltac:(lia)). Qed.
Lemma klass_kept k ks : objs !! k = Some ks -> klass_of_oop M (oop_of k) = Some k -> klass_of_oop M' (oop_of k) = Some k.
Proof.
  intros Hks Hk. destruct (object_klass _ _ _ _ _ _ _ Hwf k ks Hks) as (kk & kks & _ & _ & H1 & H2 & H3 & H4 & _). destruct (obj_shape _ _ _ _ _ _ _ Hwf k ks Hks) as (_ & _ & Hz & _).
  eapply (klass_of_at M objs M' k k kk kks kk); try done.
  - unfold klass_of_oop, mem_oop in Hk. by destruct (Oop.is_mem (oop_of k)).
  - unfold klass_of_oop, mem_oop in Hk. by destruct (Oop.is_mem (oop_of k)).
  - by rewrite (same_word k ks (-1) Hks ltac:(lia)).
  - apply same_smis.
Qed.
Lemma valid_kept w : valid objs w -> valid objs' w.
Proof. intros [H1 H2]. split; [done|]. intros Hm. destruct (decide (Oop.mem_addr w = addr)) as [->|Hne]; [rewrite lookup_insert_eq; by eexists|]. rewrite lookup_insert_ne by done. by apply H2. Qed.
Lemma lookup_kept a t : objs !! a = Some t -> objs' !! a = Some t.
Proof. intros H. rewrite lookup_insert_ne; [done|]. intros <-. by rewrite fresh_none in H. Qed.

Lemma wf_extend : (forall a, a ∈ olds' <-> is_Some (objs' !! a) /\ OS b <= a) ->
  (addr < OS b -> addr mod 8 = 0 /\ 0 <= addr /\ addr + size <= OS b /\ (addr + size <= ts \/ te <= addr)) -> heap_wf M' objs' olds' b lay ts te.
Proof.
  intros Holds Hyoung. pose proof fresh_size as (Z1 & Z2 & Z3).
  assert (Hcase : forall (P : Z -> shape -> Prop), P addr s -> (forall a t, objs !! a = Some t -> P a t) -> forall a t, objs' !! a = Some t -> P a t).
  { intros P H1 H2 a t [[-> ->]|[_ Ha]]%lookup_insert_Some; [done|by apply H2]. }
  assert (Hne : forall a t, objs !! a = Some t -> a <> addr) by (intros a t Ha ->; by rewrite fresh_none in Ha).
  split; try apply Hwf.
  - exact Holds.
  - intros a t i Ha. revert i. pattern a, t. revert a t Ha. apply Hcase.
    + intros i Hr. destruct (decide (i = -2)) as [->|]; [destruct (f_mark Hf) as (mk & E & _); rewrite mark_addr, E; by eexists|]. apply (f_words Hf). lia.
    + intros a t Ha i Hr. rewrite (same_word a t i Ha Hr). by eapply (wf_words _ _ _ _ _ _ _ Hwf).
  - apply Hcase.
    + destruct (f_mark Hf) as (mk & E & Em & _). by exists mk.
    + intros a t Ha. destruct (obj_shape _ _ _ _ _ _ _ Hwf a t Ha) as (_ & _ & Hz & _). pose proof (same_word a t (-2) Ha ltac:(lia)) as E. rewrite !mark_addr in E. rewrite E.
      by eapply (wf_mark _ _ _ _ _ _ _ Hwf).
  - apply Hcase.
    + destruct (f_klass Hf) as (k & ks & H1 & H2 & H3 & H4 & H5 & H6). exists k, ks. split_and!; try done; [by apply lookup_kept|by eapply klass_kept].
    + intros a t Ha. destruct (wf_klass _ _ _ _ _ _ _ Hwf a t Ha) as (k & ks & H1 & H2 & H3 & H4 & H5 & H6). destruct (obj_shape _ _ _ _ _ _ _ Hwf a t Ha) as (_ & _ & Hz & _).
      exists k, ks. split_and!; [by rewrite (same_word a t (-1) Ha ltac:(lia))|done|by apply lookup_kept|done| |by eapply klass_kept].
      eapply (shape_at _ _ _ _ _ _ _ Hwf M' a a t k ks k); try done; apply same_smis.
  - intros a t i w Ha. revert i w. pattern a, t. revert a t Ha. apply Hcase.
    + intros i w Hi Hw. by apply valid_kept, (f_slots Hf i).
    + intros a t Ha i w Hi Hw. assert (Hi' : i ∈ oop_slots t) by (by right). pose proof (slot_in _ _ _ _ _ _ _ Hwf a t i Ha Hi').
      rewrite (same_word a t i Ha ltac:(lia)) in Hw. apply valid_kept. by eapply (wf_slots _ _ _ _ _ _ _ Hwf).
  - apply (Hcase (fun a _ => a < OS b -> a mod 8 = 0 /\ 0 <= a /\ a + bytes objs' a <= OS b /\ (a + bytes objs' a <= ts \/ te <= a))).
    + rewrite bytes_new. apply Hyoung.
    + intros a t Ha. rewrite (bytes_other a (Hne a t Ha)). by eapply (wf_young _ _ _ _ _ _ _ Hwf).
  - intros a a' [Ha Hlt] [Ha' Hlt'] Hd. assert (Hb : forall x, x <> addr -> is_Some (objs' !! x) -> is_Some (objs !! x)) by (intros x Hx; by rewrite lookup_insert_ne).
    destruct (decide (a = addr)) as [->|Hn], (decide (a' = addr)) as [->|Hn']; [done|..].
    + rewrite bytes_new, (bytes_other a' Hn'). destruct (f_new Hf a' (Hb a' Hn' Ha')); lia.
    + rewrite bytes_new, (bytes_other a Hn). destruct (f_new Hf a (Hb a Hn Ha)); lia.
    + rewrite !bytes_other by done. apply (wf_apart _ _ _ _ _ _ _ Hwf); [|..|done]; (split; [by apply Hb|done]).
  - apply (Hcase (fun a _ => bytes objs' a + 7 < 2 ^ 64)).
    + rewrite bytes_new. pose proof (f_small Hf) as Hs. change U32_MAX with 4294967295 in Hs. change (2 ^ 64) with 18446744073709551616. lia.
    + intros a t Ha. rewrite (bytes_other a (Hne a t Ha)). by eapply (wf_small _ _ _ _ _ _ _ Hwf).
Qed.
Lemma sizes_extend : sizes_ok objs -> sizes_ok objs'.
Proof. intros Hs a t [[_ <-]|[_ Ha]]%lookup_insert_Some; [apply (f_small Hf)|by eapply Hs]. Qed.
Lemma unmarked_extend : (forall a t mk, objs !! a = Some t -> M !! a = Some mk -> Mark.gc_mark mk = false) ->
  forall a t mk, objs' !! a = Some t -> M' !! a = Some mk -> Mark.gc_mark mk = false.
Proof.
  intros Hu a t mk [[<- _]|[_ Ha]]%lookup_insert_Some Hmk.
  - destruct (f_mark Hf) as (mk' & E & _ & Hg). congruence.
  - destruct (obj_shape _ _ _ _ _ _ _ Hwf a t Ha) as (_ & _ & Hz & _). pose proof (same_word a t (-2) Ha ltac:(lia)) as E. rewrite !mark_addr in E. rewrite E in Hmk. by eapply Hu.
Qed.
Lemma tiled_extend l start top : (forall a, a ∈ l -> a <> addr) -> OldGen.tiled start (map (fun a => (a, bytes objs a)) l) top ->
  OldGen.tiled start (map (fun a => (a, bytes objs' a)) l) top.
Proof. intros Hn Ht. erewrite map_ext_in; [exact Ht|]. intros a Ha%list_elem_of_In. by rewrite bytes_other by (by apply Hn). Qed.
End extend.
(** ** In eden *)
Lemma eden_end_below st objs edens froms olds : heap st objs edens froms olds ->
  Spaces.s_start (eden st) <= Spaces.s_top (eden st) <= Spaces.s_end (eden st) /\ Spaces.s_end (eden st) <= OS (OldGen.bounds (old st)) /\
  Spaces.s_top (eden st) mod 8 = 0 /\ 0 <= Spaces.s_start (eden st).
Proof.
  intros [Hok Hy _ _]. destruct (y_tops _ _ _ _ Hy) as (T1 & _). destruct (y_bounds _ _ _ _ Hy) as (B1 & B2 & B3). pose proof (y_eden _ _ _ _ Hy) as Ht.
  apply OldGen.tiled_bounds in Ht as (? & ? & _). split_and!; lia.
Qed.
Lemma eden_top_free st objs edens froms olds size : heap st objs edens froms olds -> Spaces.s_top (eden st) + size <= Spaces.s_end (eden st) -> 0 <= size ->
  forall a, is_Some (objs !! a) -> a + bytes objs a <= Spaces.s_top (eden st) \/ Spaces.s_top (eden st) + size <= a.
Proof.
  intros Hh Hsz H0 a Ha. destruct (eden_end_below _ _ _ _ _ Hh) as (E1 & E2 & _). destruct Hh as [Hok Hy _ _]. apply (elem_of_everything st objs edens froms olds Hok Hy) in Ha.
  unfold everything in Ha. rewrite !elem_of_app in Ha. destruct Ha as [Ha|[Ha|Ha]].
  - left. by apply (tiled_objs _ _ _ _ (y_eden _ _ _ _ Hy)).
  - pose proof (tiled_objs _ _ _ _ (y_from _ _ _ _ Hy) a Ha). destruct (y_disjoint _ _ _ _ Hy) as [[?|?] _]; destruct (y_tops _ _ _ _ Hy) as (_ & ? & _); lia.
  - right. pose proof (old_objs st objs olds Hok a Ha) as [_ ?]. unfold OS in E2. lia.
Qed.

Lemma heap_extend_eden st objs edens froms olds M' s : heap st objs edens froms olds -> let addr := Spaces.s_top (eden st) in let size := 8 * size_words s in
  addr + size <= Spaces.s_end (eden st) -> fresh (mem st) M' objs addr s ->
  heap (MkGC M' (layout st) (Spaces.MkSpace (Spaces.s_start (eden st)) (addr + size) (Spaces.s_end (eden st))) (from st) (to st) (old st) (offsets st) (cards st)
          (age_table st) (tenuring_threshold st) (promotion_guarantee_met st) (pending_stall st) (bytes_promoted st) (bytes_copied st))
    (<[addr := s]> objs) (edens ++ [addr]) froms olds.
Proof.
  intros Hh addr size Hroom Hf. destruct (eden_end_below _ _ _ _ _ Hh) as (E1 & E2 & E3 & E4). pose proof Hh as [Hok Hy Hs He]. pose proof (h_wf _ _ _ Hok) as Hwf.
  destruct (fresh_size _ _ _ _ _ Hf) as (Z1 & Z2 & Z3). pose proof (fresh_none _ _ _ _ _ _ _ _ _ _ Hwf Hf) as Hnone.
  assert (Hin : forall a, is_Some (objs !! a) -> a <> addr) by (intros a [t Ha] ->; congruence).
  assert (Hlt : addr < OS (OldGen.bounds (old st))) by (unfold addr, size in *; lia).
  pose proof (y_disjoint _ _ _ _ Hy) as (D1 & D2 & D3). pose proof (y_tops _ _ _ _ Hy) as (T1 & T2 & T3).
  assert (Hwf' : heap_wf M' (<[addr := s]> objs) olds (OldGen.bounds (old st)) (layout st) (Spaces.s_start (to st)) (Spaces.s_end (to st))).
  { eapply (wf_extend _ _ _ _ _ _ _ _ _ _ _ Hwf Hf).
    - intros a. rewrite (wf_olds _ _ _ _ _ _ _ Hwf a). split.
      + intros [Ha Hge]. split; [|done]. rewrite lookup_insert_ne; [done|]. intros <-. by apply (Hin addr).
      + intros [Ha Hge]. split; [|done]. rewrite lookup_insert_ne in Ha; [done|]. intros <-. lia.
    - intros _. unfold disjoint_spaces in D2. unfold size, addr in *. split_and!; lia. }
  assert (Hold : forall a, a ∈ olds -> a <> addr) by (intros a Ha; apply Hin, (old_objs st objs olds Hok a Ha)).
  split; [split|split|by eapply sizes_extend|done]; cbn.
  - exact Hwf'.
  - apply (h_from _ _ _ Hok).
  - apply (h_disjoint _ _ _ Hok).
  - erewrite map_ext_in; [exact (h_old _ _ _ Hok)|]. intros a Ha%list_elem_of_In. by rewrite bytes_other by (by apply Hold).
  - apply (h_cards _ _ _ Hok).
  - intros a t i w Ha Ht Hi Hw. rewrite lookup_insert_ne in Ht by (intros <-; by apply (Hold addr)). rewrite (same_word _ _ _ _ _ _ _ _ _ _ Hwf Hf a t i Ht) in Hw.
    + by eapply (h_remembered _ _ _ Hok).
    + pose proof (slot_in _ _ _ _ _ _ _ Hwf a t i Ht Hi). lia.
  - apply (h_no_stall _ _ _ Hok).
  - rewrite map_app. cbn [map]. rewrite bytes_new. apply OldGen.tiled_app; [|unfold size in *; lia|unfold size; rewrite Z.mul_comm; by apply Z.mod_mul].
    apply tiled_extend; [|apply (y_eden _ _ _ _ Hy)]. intros a Ha. apply Hin, (eden_objs st objs edens froms Hy a Ha).
  - apply tiled_extend; [|apply (y_from _ _ _ _ Hy)]. intros a Ha. apply Hin, (from_objs st objs edens froms Hy a Ha).
  - intros a. pose proof (y_young _ _ _ _ Hy a) as Ya. unfold is_young in *. rewrite !elem_of_app, list_elem_of_singleton in *. destruct (decide (a = addr)) as [->|Hne].
    + rewrite lookup_insert_eq. split; [intros _; left; by right|intros _; by split; [eexists|]].
    + rewrite lookup_insert_ne by done. tauto.
  - split_and!; [done|lia|done].
  - apply (y_bounds _ _ _ _ Hy).
  - by split_and!.
  - eapply (unmarked_extend _ _ _ _ _ _ _ _ _ _ Hwf Hf). apply (y_unmarked _ _ _ _ Hy).
Qed.
(** ** In the old generation *)
(** The bookkeeping of an allocation does not look at what fills the object. *)
Lemma allocate_fill {A} g t (x : A) n fill : OldGen.allocate g t x n fill =
  r ← OldGen.allocate g t tt n (fun _ m => m);
  Some (OldGen.MkResult (OldGen.r_addr r) (OldGen.r_old r) (OldGen.r_offsets r) match OldGen.r_addr r with Some a => fill a x | None => x end).
Proof.
  unfold OldGen.allocate. destruct (OldGen.align8 n) as [k|]; [|done]. cbn [mbind option_bind]. destruct (OldGen.checked_add _ _) as [nt|]; [|done].
  destruct (_ <? _); [done|]. destruct (Offsets.record_object _ _ _); done.
Qed.
Lemma old_allocate_ok st objs olds size : heap_ok st objs olds -> 0 < size -> size mod 8 = 0 -> inU 64 (size + 7) -> let b := OldGen.bounds (old st) in
  exists r, OldGen.allocate (old st) (offsets st) tt size (fun _ m => m) = Some r /\ OldGen.committed_end (OldGen.r_old r) = OldGen.committed_end (old st) /\
    match OldGen.r_addr r with
    | None => OldGen.r_old r = old st /\ OldGen.r_offsets r = offsets st
    | Some addr => addr = OldGen.top (old st) /\ OldGen.top (OldGen.r_old r) = addr + size /\
        OldGen.inv b (OldGen.MkState (OldGen.r_old r) (OldGen.r_offsets r) (map (fun a => (a, bytes objs a)) olds ++ [(addr, size)]))
    end.
Proof.
  intros Hok Hp H8 Hu b. pose proof (wf_layout _ _ _ _ _ _ _ (h_wf _ _ _ Hok)) as (_ & L2 & L3 & L4 & _).
  destruct (OldGen.exec_inv b (OldGen.Alloc size) _ L2 L3 L4 (h_old _ _ _ Hok)) as (st1 & E & Hi); [by split|].
  cbn [OldGen.exec OldGen.gen OldGen.offsets OldGen.objects] in E. rewrite allocate_fill in E.
  destruct (OldGen.allocate (old st) (offsets st) tt size (fun _ m => m)) as [r|] eqn:Er; [|done]. cbn [mbind option_bind] in E. injection E as <-. exists r. split; [done|].
  assert (Ha : OldGen.align8 size = Some size).
  { rewrite OldGen.align8_eq by (done || lia). f_equal. pose proof (Z.div_mod size 8 ltac:(done)). rewrite H8 in *. Z.div_mod_to_equations. lia. }
  unfold OldGen.allocate in Er. rewrite Ha in *. cbn [mbind option_bind] in Er. unfold OldGen.checked_add in Er. case_decide as Hin; [|by injection Er as <-].
  destruct (_ <? _); [by injection Er as <-|]. destruct (Offsets.record_object _ _ _) as [t|]; [|done]. cbn [mbind option_bind] in Er. injection Er as <-. done.
Qed.
Lemma old_room st objs edens froms olds size r addr : heap st objs edens froms olds -> OldGen.allocate (old st) (offsets st) tt size (fun _ m => m) = Some r ->
  OldGen.r_addr r = Some addr -> 0 <= size -> size mod 8 = 0 -> inU 64 (size + 7) -> OldGen.top (old st) + size <= Geometry.b_end (OldGen.bounds (old st)).
Proof.
  intros Hh Er Ea H0 H8 Hu. pose proof (OldGen.i_top _ _ (h_old _ _ _ (hp_ok _ _ _ _ _ Hh))) as Ht. cbn in Ht. unfold OldGen.allocate in Er.
  rewrite OldGen.align8_eq in Er by (done || lia). cbn [mbind option_bind] in Er. replace (8 * ((size + 7) / 8)) with size in Er by (Z.div_mod_to_equations; lia).
  unfold OldGen.checked_add in Er. case_decide; [|by injection Er as <-]. destruct (Z.ltb_spec (OldGen.committed_end (old st)) (OldGen.top (old st) + size)); [by injection Er as <-|lia].
Qed.
Lemma old_top_free st objs edens froms olds size : heap st objs edens froms olds -> 0 <= size ->
  forall a, is_Some (objs !! a) -> a + bytes objs a <= OldGen.top (old st) \/ OldGen.top (old st) + size <= a.
Proof.
  intros [Hok Hy _ _] Hsz a Ha. left. pose proof (old_range st objs olds Hok). apply (elem_of_everything st objs edens froms olds Hok Hy) in Ha.
  unfold everything in Ha. rewrite !elem_of_app in Ha. assert (Hyoung : a ∈ edens \/ a ∈ froms -> a + bytes objs a <= OS (OldGen.bounds (old st))).
  { intros H'. assert (Hin : is_young objs (OldGen.bounds (old st)) a) by (apply (y_young _ _ _ _ Hy), elem_of_app; tauto).
    destruct Hin as [[t Ht] Hlt]. by apply (wf_young _ _ _ _ _ _ _ (h_wf _ _ _ Hok) a t Ht Hlt). }
  unfold OS in Hyoung. destruct Ha as [Ha|[Ha|Ha]]; [specialize (Hyoung ltac:(by left)); lia|specialize (Hyoung ltac:(by right)); lia|].
  by apply (tiled_objs _ _ _ _ (tiled_olds st objs olds Hok)).
Qed.

Lemma heap_extend_old st objs edens froms olds M' s r : heap st objs edens froms olds -> let addr := OldGen.top (old st) in let size := 8 * size_words s in
  OldGen.allocate (old st) (offsets st) tt size (fun _ m => m) = Some r -> OldGen.r_addr r = Some addr -> fresh (mem st) M' objs addr s ->
  exists cs, Cards.record_multistores (cards st) addr (addr + size) = Some cs /\
    heap (with_cards (with_mem (with_old st (OldGen.r_old r) (OldGen.r_offsets r)) M') cs) (<[addr := s]> objs) edens froms (olds ++ [addr]).
Proof.
  intros Hh addr size Er Ea Hf. pose proof Hh as [Hok Hy Hs He]. pose proof (h_wf _ _ _ Hok) as Hwf. set (b := OldGen.bounds (old st)) in *.
  destruct (fresh_size _ _ _ _ _ Hf) as (Z1 & Z2 & Z3). pose proof (fresh_none _ _ _ _ _ _ _ _ _ _ Hwf Hf) as Hnone. pose proof (f_small _ _ _ _ _ Hf) as Hsm.
  change U32_MAX with 4294967295 in Hsm. assert (Hin : forall a, is_Some (objs !! a) -> a <> addr) by (intros a [t Ha] ->; congruence).
  destruct (old_allocate_ok st objs olds size Hok) as (r' & Er' & Hce & Hr); [unfold size; lia|unfold size; rewrite Z.mul_comm; by apply Z.mod_mul|unfold size, inU; change (2 ^ 64) with 18446744073709551616; lia|].
  rewrite Er in Er'. injection Er' as <-. rewrite Ea in Hr. destruct Hr as (_ & Htop & Hinv). fold b in Hinv.
  pose proof (OldGen.i_bounds _ _ Hinv) as Hb. cbn in Hb. pose proof (OldGen.i_top _ _ Hinv) as Ht. cbn in Ht. rewrite Htop in Ht. pose proof (old_range st objs olds Hok) as Hor.
  destruct (Cards.record_multistores_ok (cards st) b addr (addr + size) (h_cards _ _ _ Hok)) as (cs & Ecs & Hcw & Hd); [unfold addr, b; lia|unfold size in *; lia|]. exists cs. split; [done|].
  assert (Hge : OS b <= addr) by (unfold OS, addr, b; lia).
  assert (Hwf' : heap_wf M' (<[addr := s]> objs) (olds ++ [addr]) b (layout st) (Spaces.s_start (to st)) (Spaces.s_end (to st))).
  { eapply (wf_extend _ _ _ _ _ _ _ _ _ _ _ Hwf Hf); [|lia]. intros a. rewrite elem_of_app, list_elem_of_singleton, (wf_olds _ _ _ _ _ _ _ Hwf a). destruct (decide (a = addr)) as [->|Hne].
    - rewrite lookup_insert_eq. split; [intros _; split; [by eexists|done]|by right].
    - rewrite lookup_insert_ne by done. tauto. }
  assert (Hold : forall a, a ∈ olds -> a <> addr) by (intros a Ha; apply Hin, (old_objs st objs olds Hok a Ha)).
  split; [split|split|by eapply sizes_extend|by cbn; rewrite Hb]; cbn; rewrite ?Hb.
  - exact Hwf'.
  - apply (h_from _ _ _ Hok).
  - apply (h_disjoint _ _ _ Hok).
  - rewrite map_app. cbn [map]. rewrite bytes_new. erewrite map_ext_in; [exact Hinv|]. intros a Ha%list_elem_of_In. by rewrite bytes_other by (by apply Hold).
  - exact Hcw.
  - intros a t i w Ha Ht' Hi Hw Hn. pose proof (slot_in _ _ _ _ _ _ _ Hwf' a t i Ht' Hi) as Hr. pose proof (h_cards _ _ _ Hok) as (C1 & C2 & C3). fold b in C1, C2.
    destruct (decide (a = addr)) as [->|Hne].
    + rewrite lookup_insert_eq in Ht'. injection Ht' as <-. assert (Hx : addr <= body_addr addr i < addr + size) by (rewrite body_addr_eq; unfold size; lia).
      pose proof (Cards.cards_for_covers b (body_addr addr i) ltac:(unfold OS in *; lia)) as Hcf. assert (0 <= (body_addr addr i - OS b) / 512) by (apply Z.div_pos; lia).
      unfold card_of. rewrite Hd by (rewrite C2; unfold OS in *; lia). rewrite decide_True; [done|]. rewrite Cards.card_base_eq, C1. change CARD_SIZE with 512. unfold OS in *. Z.div_mod_to_equations; lia.
    + rewrite lookup_insert_ne in Ht' by done. apply elem_of_app in Ha as [Ha|Ha]; [|by apply list_elem_of_singleton in Ha].
      rewrite (same_word _ _ _ _ _ _ _ _ _ _ Hwf Hf a t i Ht' ltac:(lia)) in Hw. pose proof (h_remembered _ _ _ Hok a t i w Ha Ht' Hi Hw Hn) as Hdirty. fold b in Hdirty.
      pose proof (tiled_objs _ _ _ _ (tiled_olds st objs olds Hok) a Ha) as (A1 & A2 & _). destruct (obj_shape _ _ _ _ _ _ _ Hwf a t Ht') as (_ & _ & _ & Hby).
      assert (Hx : OS b <= body_addr a i < Geometry.b_end b) by (rewrite body_addr_eq; unfold OS, b in *; lia). pose proof (Cards.cards_for_covers b (body_addr a i) Hx) as Hcf.
      assert (0 <= (body_addr a i - OS b) / 512) by (apply Z.div_pos; lia). unfold card_of in *. rewrite Hd by (rewrite C2; unfold OS in *; lia). by case_decide.
  - apply (h_no_stall _ _ _ Hok).
  - apply tiled_extend; [|apply (y_eden _ _ _ _ Hy)]. intros a Ha. apply Hin, (eden_objs st objs edens froms Hy a Ha).
  - apply tiled_extend; [|apply (y_from _ _ _ _ Hy)]. intros a Ha. apply Hin, (from_objs st objs edens froms Hy a Ha).
  - intros a. pose proof (y_young _ _ _ _ Hy a) as Ya. fold b in Ya. unfold is_young in *. destruct (decide (a = addr)) as [->|Hne]; [|by rewrite lookup_insert_ne].
    split; [lia|]. intros Ha. apply Ya in Ha as [Ha _]. by apply Hin in Ha.
  - apply (y_tops _ _ _ _ Hy).
  - apply (y_bounds _ _ _ _ Hy).
  - apply (y_disjoint _ _ _ _ Hy).
  - eapply (unmarked_extend _ _ _ _ _ _ _ _ _ _ Hwf Hf). apply (y_unmarked _ _ _ _ Hy).
Qed.
(** ** Storing *)
(** A klass is a klass: what [KlassOop::try_from] checks is the format its own
    klass gives it. *)
Lemma klass_has_format M objs olds b lay ts te k ks : heap_wf M objs olds b lay ts te -> objs !! k = Some ks -> klass_of_oop M (oop_of k) = Some k -> s_format ks = Klass.
Proof.
  intros Hwf Hks Hk. destruct (object_klass _ _ _ _ _ _ _ Hwf k ks Hks) as (kk & kks & _ & _ & H1 & H2 & H3 & H4 & Hsh & _).
  destruct (mem_oop_of kk H2) as [Hmo Hfr]. unfold klass_of_oop in Hk. destruct (mem_oop (oop_of k)) as [k'|] eqn:E; [|done]. cbn [mbind option_bind] in Hk.
  assert (k' = k) as -> by (unfold mem_oop in E; destruct (Oop.is_mem (oop_of k)); [injection E as <-; unfold Oop.mem_addr, oop_of; lia|done]).
  unfold klass_oop in Hk. change (k + KLASS_OFFSET) with (body_addr k (-1)) in Hk. unfold klass_word in H1. rewrite H1 in Hk. cbn [mbind option_bind] in Hk. rewrite Hfr in Hk. cbn [mbind option_bind] in Hk.
  destruct (shape_fields _ _ _ _ Hsh) as (_ & _ & _ & Hf & _). unfold format_of_klass_field in Hk. rewrite Hmo in Hk. cbn [mbind option_bind] in Hk.
  unfold format, smi_field in Hf. destruct (raw_body_word M kk KLASS_FORMAT_INDEX) as [w|]; [|done]. cbn [mbind option_bind] in *. destruct (Oop.from_raw w) as [o|] eqn:Eo; [|done].
  assert (o = w) as -> by (unfold Oop.from_raw in Eo; repeat (case_match; [done|]); by injection Eo). cbn [mbind option_bind] in *.
  destruct (SmallInt.try_from w) as [v|]; [|done]. cbn [mbind option_bind] in *. destruct (from_smi_value_checked (SmallInt.value v)) as [f|]; [|done]. cbn [mbind option_bind] in *.
  case_decide; [|done]. congruence.
Qed.

Section store.
Context (M : memory) (objs : gmap Z shape) (olds : list Z) (b : Geometry.SpaceBounds) (lay : Geometry.HeapLayout) (ts te a i v : Z) (s : shape).
Context (Hwf : heap_wf M objs olds b lay ts te) (Hapart : forall a a', is_Some (objs !! a) -> is_Some (objs !! a') -> a <> a' -> a + bytes objs a <= a' \/ a' + bytes objs a' <= a).
Context (Hs : objs !! a = Some s) (Hi : i ∈ body_slots s) (Hk : s_format s = Klass -> 2 <= i) (Hv : valid objs v).
#[local] Abbreviation M' := (<[body_addr a i := v]> M).

Lemma slot_bounds : 0 <= i < size_words s - 2 /\ (indexable (s_format s) = true -> i <> s_nis s - 2).
Proof. destruct (obj_shape _ _ _ _ _ _ _ Hwf a s Hs) as (H1 & H2 & _). by apply elem_of_body_slots. Qed.
Lemma stored_word x t j : objs !! x = Some t -> -2 <= j < size_words t - 2 -> (x, j) <> (a, i) -> M' !! body_addr x j = M !! body_addr x j.
Proof.
  intros Ht Hr Hne. apply lookup_insert_ne. intros He. pose proof slot_bounds. destruct (word_inj _ _ _ _ _ _ _ Hwf Hapart a s i x t j Hs ltac:(lia) Ht Hr He) as [-> ->]. done.
Qed.
Lemma klass_word_same k ks j : objs !! k = Some ks -> s_format ks = Klass -> 4 <= size_words ks -> 0 <= j < 2 -> M' !! body_addr k j = M !! body_addr k j.
Proof. intros Hks Hf H4 Hj. apply (stored_word k ks); [done|lia|]. intros [= -> ->]. rewrite Hks in Hs. injection Hs as ->. specialize (Hk Hf). lia. Qed.

Lemma stored_shape x t k ks : objs !! x = Some t -> objs !! k = Some ks -> s_format ks = Klass -> 4 <= size_words ks -> shape_with M x k = Some t -> shape_with M' x k = Some t.
Proof.
  intros Ht Hks Hf H4 Hsh. pose proof Hsh as Hsh0. revert Hsh. unfold shape_with, non_indexable_size, format, raw_body_word, KLASS_FORMAT_INDEX, KLASS_NON_INDEXABLE_SIZE_INDEX.
  rewrite !(klass_word_same k ks) by (done || lia). destruct (M !! body_addr k 1) as [nw|]; [|done]. cbn [mbind option_bind]. destruct (smi_field nw) as [nv|]; [|done]. cbn [mbind option_bind].
  destruct (M !! body_addr k 0) as [fw|]; [|done]. cbn [mbind option_bind]. destruct (smi_field fw) as [fv|]; [|done]. cbn [mbind option_bind].
  destruct (from_smi_value_checked fv) as [f|]; [|done]. cbn [mbind option_bind]. case_decide as H2; [|done]. destruct (indexable f) eqn:Hix; [|done].
  unfold raw_size_slot, named_words. destruct (Z.ltb_spec (u64 nv) HEADER_WORDS); [done|]. cbn [mbind option_bind]. unfold raw_body_word, HEADER_WORDS. intros Hsh.
  assert (Hn : s_nis t = u64 nv /\ s_format t = f).
  { destruct (M !! body_addr x (u64 nv - 2)) as [lw|]; [|done]. cbn [mbind option_bind] in Hsh. destruct (smi_field lw); [|done]. cbn [mbind option_bind] in Hsh. by injection Hsh as <-. }
  destruct Hn as [Hn Hft]. rewrite (stored_word x t); [done|done| |].
  - destruct (obj_shape _ _ _ _ _ _ _ Hwf x t Ht) as (_ & Hl & _). rewrite <- Hn. unfold size_words. rewrite Hft. assert (0 <= (s_len t + 7) / 8) by (apply Z.div_pos; lia). rewrite Hn in *. unfold HEADER_WORDS in *. destruct f; try done; lia.
  - intros [= -> Hie]. destruct slot_bounds as [_ Hne]. assert (t = s) as -> by congruence. apply Hne; [by rewrite Hft|]. lia.
Qed.
Lemma stored_klass k ks : objs !! k = Some ks -> klass_of_oop M (oop_of k) = Some k -> klass_of_oop M' (oop_of k) = Some k.
Proof.
  intros Hks Hko. destruct (object_klass _ _ _ _ _ _ _ Hwf k ks Hks) as (kk & kks & _ & _ & H1 & H2 & H3 & H4 & _ & H6 & _). pose proof (klass_has_format _ _ _ _ _ _ _ _ _ Hwf H3 H6) as Hf.
  destruct (obj_shape _ _ _ _ _ _ _ Hwf k ks Hks) as (_ & _ & Hz & _).
  assert (Hm : Oop.is_mem (oop_of k) = true) by (unfold klass_of_oop, mem_oop in Hko; by destruct (Oop.is_mem (oop_of k))). destruct (mem_oop_of k Hm) as [Hmo _]. destruct (mem_oop_of kk H2) as [Hmk Hfr].
  assert (Hw : M' !! body_addr k (-1) = M !! body_addr k (-1)) by (apply (stored_word k ks); [done|lia|intros [= _ Hi1]; pose proof slot_bounds; lia]).
  unfold klass_of_oop in *. rewrite Hmo in *. cbn [mbind option_bind] in *. unfold klass_oop in *. change (k + KLASS_OFFSET) with (body_addr k (-1)) in *. rewrite Hw.
  unfold klass_word in H1. rewrite H1 in *. cbn [mbind option_bind] in *. rewrite Hfr in *. cbn [mbind option_bind] in *. unfold format_of_klass_field in *. rewrite Hmk in *. cbn [mbind option_bind] in *.
  unfold raw_body_word, KLASS_FORMAT_INDEX in *. by rewrite (klass_word_same kk kks) by (done || lia).
Qed.

Lemma wf_store : heap_wf M' objs olds b lay ts te.
Proof.
  pose proof slot_bounds as [Hr _]. assert (Hmark : forall x t, objs !! x = Some t -> M' !! x = M !! x).
  { intros x t Ht. destruct (obj_shape _ _ _ _ _ _ _ Hwf x t Ht) as (_ & _ & Hz & _). rewrite <- (mark_addr x) at 1 2. apply (stored_word x t); [done|lia|]. intros [= _ Hi1]. lia. }
  split; try apply Hwf.
  - intros x t j Ht Hj. destruct (decide ((x, j) = (a, i))) as [[= -> ->]|Hne]; [rewrite lookup_insert_eq; by eexists|]. rewrite (stored_word x t j Ht Hj Hne). by eapply (wf_words _ _ _ _ _ _ _ Hwf).
  - intros x t Ht. rewrite (Hmark x t Ht). by eapply (wf_mark _ _ _ _ _ _ _ Hwf).
  - intros x t Ht. destruct (wf_klass _ _ _ _ _ _ _ Hwf x t Ht) as (k & ks & H1 & H2 & H3 & H4 & H5 & H6). destruct (obj_shape _ _ _ _ _ _ _ Hwf x t Ht) as (_ & _ & Hz & _).
    exists k, ks. split_and!; [|done|done|done| |by eapply stored_klass].
    + rewrite (stored_word x t (-1)); [done|done|lia|]. intros [= _ Hi1]. lia.
    + eapply stored_shape; [done|done|by eapply klass_has_format|done..].
  - intros x t j w Ht Hj Hw. destruct (decide ((x, j) = (a, i))) as [[= -> ->]|Hne]; [rewrite lookup_insert_eq in Hw; by injection Hw as <-|].
    assert (Hj' : j ∈ oop_slots t) by (by right). pose proof (slot_in _ _ _ _ _ _ _ Hwf x t j Ht Hj'). rewrite (stored_word x t j Ht ltac:(lia) Hne) in Hw. by eapply (wf_slots _ _ _ _ _ _ _ Hwf).
Qed.
End store.

Lemma heap_apart st objs edens froms olds : heap st objs edens froms olds ->
  forall a a', is_Some (objs !! a) -> is_Some (objs !! a') -> a <> a' -> a + bytes objs a <= a' \/ a' + bytes objs a' <= a.
Proof. intros [Hok Hy _ _]. exact (apart _ _ _ Hok). Qed.
Lemma body_word_count_of st objs edens froms olds a s : heap st objs edens froms olds -> objs !! a = Some s ->
  body_word_count (mem st) a = Some (size_words s - 2) /\ klass (mem st) a <> None /\ instance_size_words (mem st) a = Some (size_words s).
Proof.
  intros Hh Hs. pose proof (h_wf _ _ _ (hp_ok _ _ _ _ _ Hh)) as Hwf.
  destruct (bodies_klass _ _ _ _ _ _ _ Hwf (mem st) a s) as (k & _ & _ & _ & _ & Hk & _ & Hsz); [by intros ? ? ? ? ?|done|].
  split_and!; [|by rewrite Hk|done]. unfold body_word_count. rewrite Hsz. cbn [mbind option_bind]. destruct (obj_shape _ _ _ _ _ _ _ Hwf a s Hs) as (_ & _ & H2 & _).
  unfold HEADER_WORDS. destruct (Z.ltb_spec (size_words s) 2); [lia|done].
Qed.

(** A store into an oop slot succeeds, changes that word and no other, and
    keeps the heap, the remembered set included. *)
Lemma heap_store st objs edens froms olds a s i v : heap st objs edens froms olds -> objs !! a = Some s -> i ∈ body_slots s -> (s_format s = Klass -> 2 <= i) ->
  valid objs v -> exists cs, store st a i v = Some (with_cards (with_mem st (<[body_addr a i := v]> (mem st))) cs) /\
    heap (with_cards (with_mem st (<[body_addr a i := v]> (mem st))) cs) objs edens froms olds.
Proof.
  intros Hh Hs Hi Hk Hv. pose proof Hh as [Hok Hy Hsz He]. pose proof (h_wf _ _ _ Hok) as Hwf. pose proof (heap_apart _ _ _ _ _ Hh) as Hap.
  destruct (slot_bounds _ _ _ _ _ _ _ _ _ _ Hwf Hs Hi) as [Hr _]. destruct (body_word_count_of _ _ _ _ _ _ _ Hh Hs) as (Hcount & _ & _).
  set (b := OldGen.bounds (old st)) in *. set (m' := <[body_addr a i := v]> (mem st)).
  pose proof (wf_store _ _ _ _ _ _ _ _ _ _ _ Hwf Hap Hs Hi Hk Hv) as Hwf'. pose proof (stored_word _ _ _ _ _ _ _ _ _ v _ Hwf Hap Hs Hi Hk) as Hother. fold m' in Hwf', Hother.
  assert (Hb : in_bounds (mem st) a i = Some tt) by (unfold in_bounds; rewrite Hcount; cbn [mbind option_bind]; destruct (Z.ltb_spec i (size_words s - 2)); [done|lia]).
  assert (Hkeep : forall cs, Cards.well_formed cs b ->
    (forall x t j w, x ∈ olds -> objs !! x = Some t -> j ∈ oop_slots t -> m' !! body_addr x j = Some w -> new_word b w -> Cards.is_dirty cs (card_of b (body_addr x j)) = Some true) ->
    heap (with_cards (with_mem st m') cs) objs edens froms olds).
  { intros cs Hcw Hcd. split; [split|split|done|done]; cbn; try done.
    - apply (h_from _ _ _ Hok).
    - apply (h_disjoint _ _ _ Hok).
    - apply (h_old _ _ _ Hok).
    - apply (h_no_stall _ _ _ Hok).
    - apply (y_eden _ _ _ _ Hy).
    - apply (y_from _ _ _ _ Hy).
    - apply (y_young _ _ _ _ Hy).
    - apply (y_tops _ _ _ _ Hy).
    - apply (y_bounds _ _ _ _ Hy).
    - apply (y_disjoint _ _ _ _ Hy).
    - intros x t mk Ht.
      rewrite <- (mark_addr x) at 1. destruct (obj_shape _ _ _ _ _ _ _ Hwf x t Ht) as (_ & _ & H2 & _).
      rewrite (Hother x t (-2) Ht) by (lia || (intros [= _ Hj]; lia)). rewrite mark_addr. by apply (y_unmarked _ _ _ _ Hy x t). }
  assert (Hold : forall x t j w, (x, j) <> (a, i) -> objs !! x = Some t -> j ∈ oop_slots t -> m' !! body_addr x j = Some w -> mem st !! body_addr x j = Some w).
  { intros x t j w Hne Ht Hj Hw. pose proof (slot_in _ _ _ _ _ _ _ Hwf x t j Ht Hj). by rewrite (Hother x t j Ht ltac:(lia) Hne) in Hw. }
  unfold store, set_body_oop. rewrite Hb. cbn [mbind option_bind]. unfold set_raw_body_word. fold m'. unfold is_old, Geometry.is_old, Geometry.is_new.
  destruct (wf_layout _ _ _ _ _ _ _ Hwf) as (Hlay & _). cbn [with_mem layout cards]. rewrite Hlay. fold b.
  destruct (_ && _ && _) eqn:Hbar.
  - apply andb_true_iff in Hbar as [[Ha%Z.leb_le Hm]%andb_true_iff Hlt%Z.ltb_lt]. assert (Hao : a ∈ olds) by (apply (wf_olds _ _ _ _ _ _ _ Hwf); split; [by eexists|done]).
    pose proof (tiled_objs _ _ _ _ (tiled_olds st objs olds Hok) a Hao) as (A1 & A2 & _). destruct (obj_shape _ _ _ _ _ _ _ Hwf a s Hs) as (_ & _ & _ & Hby).
    pose proof (old_range st objs olds Hok) as Hor. pose proof (h_cards _ _ _ Hok) as Hcards. pose proof Hcards as (C1 & C2 & _). fold b in C1, C2, Hcards.
    assert (Hx : OS b <= body_addr a i < Geometry.b_end b) by (rewrite body_addr_eq; unfold OS, b in *; lia).
    destruct (Cards.record_multistores_ok (cards st) b (body_addr a i) (body_addr a i + 1) Hcards) as (cs & Ecs & Hcw & Hdirty); [unfold OS in Hx; lia|lia|].
    rewrite Cards.dirty_for_slot_eq, Ecs. cbn [mbind option_bind]. exists cs. split; [done|]. apply Hkeep; [done|]. intros x t j w Hxo Ht Hj Hw Hn.
    pose proof (tiled_objs _ _ _ _ (tiled_olds st objs olds Hok) x Hxo) as (X1 & X2 & _). destruct (obj_shape _ _ _ _ _ _ _ Hwf x t Ht) as (_ & _ & _ & Hbx).
    pose proof (slot_in _ _ _ _ _ _ _ Hwf x t j Ht Hj) as Hjr.
    assert (Hy' : OS b <= body_addr x j < Geometry.b_end b) by (rewrite body_addr_eq; unfold OS, b in *; lia).
    pose proof (Cards.cards_for_covers b (body_addr x j) ltac:(unfold OS in *; lia)) as Hcf. assert (0 <= (body_addr x j - OS b) / 512) by (apply Z.div_pos; lia).
    unfold card_of. rewrite Hdirty by (rewrite C2; unfold OS in *; lia). destruct (decide ((x, j) = (a, i))) as [[= -> ->]|Hne].
    + rewrite decide_True; [done|]. rewrite Cards.card_base_eq, C1. change CARD_SIZE with 512. unfold OS in *. Z.div_mod_to_equations; lia.
    + case_decide; [done|]. apply (h_remembered _ _ _ Hok x t j w); [done..|by apply (Hold x t j w)|done].
  - exists (cards st). split; [by destruct st|]. apply Hkeep; [apply (h_cards _ _ _ Hok)|]. intros x t j w Hxo Ht Hj Hw Hn.
    destruct (decide ((x, j) = (a, i))) as [[= -> ->]|Hne]; [|apply (h_remembered _ _ _ Hok x t j w); [done..|by apply (Hold x t j w)|done]]. exfalso.
    unfold m' in Hw. rewrite lookup_insert_eq in Hw. injection Hw as <-. destruct Hn as [Hm Hlt]. apply (wf_olds _ _ _ _ _ _ _ Hwf) in Hxo as [_ Hge].
    rewrite Hm, (proj2 (Z.leb_le _ _) Hge), (proj2 (Z.ltb_lt _ _) Hlt) in Hbar. done.
Qed.
End Extension.
