(* ===== verification/ObjectGraph.v ===== *)
(** The mutator's view of memory: objects with names that never change and are
    never reclaimed, and roots that hold them.  The operations are those of
    [src/src/memory/store.rs], [src/src/memory/alloc.rs] and the collection
    primitive, as the rest of the virtual machine uses them; a collection does
    nothing to a graph. *)
From S2P Require Import Prelude Oops OldSpace Heap Scavenge ScavengeInv FullGc Mutator.
From stdpp Require Import gmap.
#[local] Open Scope Z_scope.

Module ObjectGraph.
Import Heap Scavenge ScavengeInv FullGc Mutator.

(** ** Objects *)
Inductive aval := AWord (w : Z) | ARef (id : nat).
(** The words of an object by body index; the klass is at [-1]. *)
Record aobj := MkObj { o_shape : shape; o_words : gmap Z aval }.
Record graph := MkGraph { g_objs : list aobj; g_nil : aval; g_roots : list aval }.

Definition klass_body_word (ko : aobj) (i : Z) : option Z :=
  match o_words ko !! i with Some (AWord w) => smi_field w | _ => None end.
(** The format and the non-indexable size that the object [kv] names gives to
    its instances, when it is a klass. *)
Definition instance_layout (G : graph) (kv : aval) : option (Format * Z) :=
  match kv with
  | ARef id =>
      ko ← g_objs G !! id;
      if decide (s_format (o_shape ko) = Klass /\ 4 <= size_words (o_shape ko)) then
        f ← klass_body_word ko KLASS_FORMAT_INDEX; f ← from_smi_value_checked f;
        n ← klass_body_word ko KLASS_NON_INDEXABLE_SIZE_INDEX;
        if decide (2 <= u64 n) then Some (f, u64 n) else None
      else None
  | AWord _ => None
  end.

(** A new object: its klass, then the words of its body. *)
Definition new_object (s : shape) (kv : aval) (body : list aval) : aobj := MkObj s (map_seqZ (-1) (kv :: body)).
Definition push_object (G : graph) (o : aobj) : graph :=
  MkGraph (g_objs G ++ [o]) (g_nil G) (ARef (length (g_objs G)) :: g_roots G).
Definition named_body (s : shape) (v : aval) : list aval := replicate (Z.to_nat (s_nis s - HEADER_WORDS)) v.

(** ** Operations *)
(** Roots are numbered from the newest.  A result becomes the newest root. *)
Inductive op := Load (r : nat) (i : Z) | Store (r : nat) (i : Z) (v : nat) | StoreTail (r : nat) (i : Z) (v : nat)
  | NewSlots (k : nat) | NewOops (k : nat) (n : Z) | NewBytes (k : nat) (n : Z) | Drop (n : nat) | GcFull (r : nat).

Definition root_object (G : graph) (r : nat) : option (nat * aobj) :=
  v ← g_roots G !! r; match v with ARef id => o ← g_objs G !! id; Some (id, o) | AWord _ => None end.
Definition set_word (G : graph) (id : nat) (o : aobj) (i : Z) (v : aval) : graph :=
  MkGraph (<[id := MkObj (o_shape o) (<[i := v]> (o_words o))]> (g_objs G)) (g_nil G) (g_roots G).
(** The two words that lay out a klass's instances are not stored this way. *)
Definition storable (s : shape) (i : Z) : Prop := i ∈ body_slots s /\ (s_format s = Klass -> 2 <= i).
#[export] Instance storable_dec s i : Decision (storable s i).
Proof. unfold storable. apply _. Defined.
Definition tail_index (s : shape) (i : Z) : Z := s_nis s - HEADER_WORDS + 1 + i.
Definition store_word (G : graph) (r : nat) (index : shape -> Z) (v : nat) : option graph :=
  '(id, o) ← root_object G r; x ← g_roots G !! v;
  if decide (storable (o_shape o) (index (o_shape o))) then Some (set_word G id o (index (o_shape o)) x) else None.

(** [None]: not something the mutator may ask. *)
Definition step (G : graph) (o : op) : option graph :=
  match o with
  | Load r i =>
      '(_, o) ← root_object G r; if decide (i ∈ body_slots (o_shape o)) then v ← o_words o !! i; Some (MkGraph (g_objs G) (g_nil G) (v :: g_roots G)) else None
  | Store r i v => store_word G r (fun _ => i) v
  | StoreTail r i v => '(_, o) ← root_object G r; if oop_tail (s_format (o_shape o)) then store_word G r (fun s => tail_index s i) v else None
  | NewSlots k =>
      kv ← g_roots G !! k; '(f, nis) ← instance_layout G kv;
      let s := MkShape f nis 0 in
      if decide ((f = Slots \/ f = Klass) /\ size_words s <= U32_MAX) then Some (push_object G (new_object s kv (named_body s (g_nil G)))) else None
  | NewOops k n =>
      kv ← g_roots G !! k; '(f, nis) ← instance_layout G kv; sz ← SmallInt.try_new n;
      let s := MkShape f nis n in
      if decide (oop_tail f = true /\ 0 <= n /\ size_words s <= U32_MAX)
      then Some (push_object G (new_object s kv (named_body s (g_nil G) ++ [AWord sz] ++ replicate (Z.to_nat n) (g_nil G)))) else None
  | NewBytes k n =>
      kv ← g_roots G !! k; '(f, nis) ← instance_layout G kv; sz ← SmallInt.try_new n;
      let s := MkShape f nis n in
      if decide ((f = IndexableBytes \/ f = Method) /\ 0 <= n /\ size_words s <= U32_MAX)
      then Some (push_object G (new_object s kv (named_body s (AWord 0) ++ [AWord sz] ++ replicate (Z.to_nat ((n + 7) / 8)) (AWord 0)))) else None
  | Drop n => Some (MkGraph (g_objs G) (g_nil G) (drop n (g_roots G)))
  | GcFull r => v ← g_roots G !! r; Some (MkGraph (g_objs G) (g_nil G) (v :: g_roots G))
  end.
Fixpoint steps (G : graph) (ops : list op) : option graph :=
  match ops with [] => Some G | o :: ops => G ← step G o; steps G ops end.

(** ** The same operations on the heap *)
#[local] Notation "'let!' x := c 'in' k" := (bind c (fun x => k)) (at level 10, x pattern, k at level 200).
Definition set_roots (vm : vmstate) (rs : list Z) : vmstate := with_roots vm (gc vm) (nil_obj vm) rs (code_roots vm) (keys vm).
Definition push_root (vm : vmstate) (w : Z) : vmstate := set_roots vm (w :: roots vm).
Definition push_new (r : vmstate * Z) : vmstate := push_root r.1 (oop_of r.2).
Definition root (vm : vmstate) (r : nat) : option Z := roots vm !! r.
Definition root_addr (vm : vmstate) (r : nat) : option Z := w ← root vm r; mem_oop w.
Definition root_klass (vm : vmstate) (r : nat) : option Z := w ← root vm r; klass_of_oop (mem (gc vm)) w.

Definition exec (vm : vmstate) (o : op) : M vmstate :=
  match o with
  | Load r i => lift (a ← root_addr vm r; w ← body_oop (mem (gc vm)) a i; Some (push_root vm w))
  | Store r i v => lift (a ← root_addr vm r; w ← root vm v; st ← store (gc vm) a i w; Some (with_gc vm st))
  | StoreTail r i v => lift (a ← root_addr vm r; w ← root vm v; st ← store_tail_oop (gc vm) a i w; Some (with_gc vm st))
  | NewSlots k => let! k := lift (root_klass vm k) in let! r := alloc_slots vm k in Some (Runs (push_new r))
  | NewOops k n => let! k := lift (root_klass vm k) in let! r := alloc_indexable_oops vm k n in Some (Runs (push_new r))
  | NewBytes k n => let! k := lift (root_klass vm k) in let! r := alloc_indexable_bytes vm k n in Some (Runs (push_new r))
  | Drop n => Some (Runs (set_roots vm (drop n (roots vm))))
  | GcFull r => let! w := lift (root vm r) in let! (vm, w) := prim_gc_full vm w in Some (Runs (push_root vm w))
  end.
Fixpoint execs (vm : vmstate) (ops : list op) : M vmstate :=
  match ops with [] => Some (Runs vm) | o :: ops => let! vm := exec vm o in execs vm ops end.
End ObjectGraph.
