(* ===== verification/Simulation.v ===== *)
(** A heap that shows a graph: where each object the program can still reach
    is, and that collections, stores and new objects keep it so. *)
From S2P Require Import Prelude Oops OldSpace Heap Scavenge ScavengeInv ScavengeCorrect FullGc FullGcInv FullGcCorrect Survival Mutator Extension ObjectGraph.
From stdpp Require Import gmap.
#[local] Open Scope Z_scope.

Module Simulation.
Import Heap Scavenge ScavengeInv ScavengeCorrect FullGc FullGcInv FullGcCorrect Survival Mutator Extension ObjectGraph.

(** ** Values and objects *)
(** [at_ id] is where the object [id] is, if it is anywhere. *)
Section values.
Context (at_ : gmap nat Z).
Definition shows (v : aval) (w : Z) : Prop :=
  match v with AWord x => w = x /\ Oop.is_mem x = false /\ Oop.from_raw x = Some x | ARef id => exists p, at_ !! id = Some p /\ w = oop_of p end.
Definition shows_word (s : shape) (i : Z) (v : aval) (w : Z) : Prop := if decide (i ∈ oop_slots s) then shows v w else v = AWord w.
Definition shows_object (M : memory) (o : aobj) (p : Z) : Prop :=
  forall i, -1 <= i < size_words (o_shape o) - 2 -> exists v w, o_words o !! i = Some v /\ M !! body_addr p i = Some w /\ shows_word (o_shape o) i v w.
End values.

Record shown (G : list aobj) (at_ : gmap nat Z) (M : memory) (objs : gmap Z shape) : Prop := {
  sh_object : forall id p, at_ !! id = Some p ->
    Oop.is_mem (oop_of p) = true /\ exists o, G !! id = Some o /\ objs !! p = Some (o_shape o) /\ shows_object at_ M o p;
  sh_inj : forall id id' p, at_ !! id = Some p -> at_ !! id' = Some p -> id = id' }.

Lemma shows_valid G at_ M objs v w : shown G at_ M objs -> shows at_ v w -> valid objs w.
Proof.
  intros Hs Hv. destruct v as [x|id]; cbn in Hv.
  - destruct Hv as (-> & Hm & Hf). split; [done|congruence].
  - destruct Hv as (p & Hp & ->). destruct (sh_object _ _ _ _ Hs id p Hp) as (Hm & o & _ & Ho & _). destruct (mem_oop_of p Hm) as [_ Hfr]. split; [done|].
    intros _. unfold Oop.mem_addr, oop_of. replace (p + MEM_TAG - MEM_TAG) with p by lia. by eexists.
Qed.
Lemma shows_mono at_ at' v w : at_ ⊆ at' -> shows at_ v w -> shows at' v w.
Proof. intros Hs. destruct v; [done|]. intros (p & Hp & ->). exists p. split; [by eapply lookup_weaken|done]. Qed.
Lemma shows_word_mono at_ at' s i v w : at_ ⊆ at' -> shows_word at_ s i v w -> shows_word at' s i v w.
Proof. intros Hs. unfold shows_word. case_decide; [by apply shows_mono|done]. Qed.

(** ** A collection *)
Definition moved (F : gmap Z Z) (at_ : gmap nat Z) : gmap nat Z := omap (F !!.) at_.
Lemma moved_lookup F at_ id q : moved F at_ !! id = Some q <-> exists p, at_ !! id = Some p /\ F !! p = Some q.
Proof. unfold moved. rewrite lookup_omap. destruct (at_ !! id) as [p|]; cbn; split; [by exists p|by intros (? & [= ->] & ?)|done|by intros (? & ? & ?)]. Qed.

Section collect.
Context (G : list aobj) (at_ : gmap nat Z) (M M' : memory) (objs objs' : gmap Z shape) (F : gmap Z Z).
Context (Hs : shown G at_ M objs) (Hsv : survives M M' objs objs' F).

Lemma shows_moved v w : shows at_ v w -> in_F F w -> shows (moved F at_) v (reloc F w).
Proof.
  destruct v as [x|id]; cbn [shows].
  - intros (-> & Hm & Hf) _. unfold reloc. by rewrite Hm.
  - intros (p & Hp & ->) Hin. destruct (sh_object _ _ _ _ Hs id p Hp) as (Hm & _). destruct (Hin Hm) as [q Hq]. unfold reloc. rewrite Hm, Hq.
    exists q. split; [|done]. apply moved_lookup. exists p. split; [done|]. rewrite <- Hq. f_equal. unfold Oop.mem_addr, oop_of. lia.
Qed.
Lemma shown_moved : shown G (moved F at_) M' objs'.
Proof.
  split.
  - intros id q (p & Hp & Hq)%moved_lookup. destruct (sh_object _ _ _ _ Hs id p Hp) as (Hm & o & Ho & Hsh & Hw). destruct (sv_obj _ _ _ _ _ Hsv p q Hq) as (s & H1 & H2 & H3).
    assert (s = o_shape o) as -> by congruence. split; [done|]. exists o. split_and!; [done..|]. intros i Hi. destruct (Hw i Hi) as (v & w & Hv & Hmw & Hsw). exists v, (word_after F (o_shape o) i w).
    split_and!; [done|by eapply (sv_words _ _ _ _ _ Hsv)|]. unfold shows_word, word_after in *. case_decide as Hin; [|done]. apply shows_moved; [done|].
    eapply (sv_closed _ _ _ _ _ Hsv); [by eexists|done..].
  - intros id id' q (p & Hp & Hq)%moved_lookup (p' & Hp' & Hq')%moved_lookup. assert (p = p') as <- by (by eapply (sv_inj _ _ _ _ _ Hsv)). by eapply (sh_inj _ _ _ _ Hs).
Qed.
Lemma valid_reloc w : valid objs w -> in_F F w -> valid objs' (reloc F w) /\ Oop.is_mem (reloc F w) = Oop.is_mem w.
Proof.
  intros [Hf Hv] Hin. unfold reloc. destruct (Oop.is_mem w) eqn:Hm; [|split; [split; [done|congruence]|done]]. destruct (Hin Hm) as [q Hq]. rewrite Hq.
  destruct (sv_obj _ _ _ _ _ Hsv _ q Hq) as (s & _ & H2 & H3). destruct (mem_oop_of q H3) as [_ Hfr]. split; [split; [done|]|done]. intros _. unfold Oop.mem_addr, oop_of.
  replace (q + MEM_TAG - MEM_TAG) with q by lia. by eexists.
Qed.
Lemma Forall2_moved vs ws : Forall2 (shows at_) vs ws -> Forall (in_F F) ws -> Forall2 (shows (moved F at_)) vs (map (reloc F) ws).
Proof. induction 1 as [|v w vs ws Hv _ IH]; cbn; [by constructor|]. intros [Hw Hws]%Forall_cons. constructor; [by apply shows_moved|by apply IH]. Qed.
Lemma valid_all_reloc ws : Forall (valid objs) ws -> Forall (in_F F) ws -> Forall (valid objs') (map (reloc F) ws).
Proof. induction 1 as [|w ws Hv _ IH]; cbn; [by constructor|]. intros [Hw Hws]%Forall_cons. constructor; [by apply valid_reloc|by apply IH]. Qed.
Lemma keys_reloc ks : keys_ok objs ks -> Forall (in_F F) ks -> keys_ok objs' (map (reloc F) ks).
Proof.
  unfold keys_ok. induction 1 as [|w ks [Hv Hm] _ IH]; cbn; [by constructor|]. intros [Hw Hws]%Forall_cons. constructor; [|by apply IH].
  destruct (valid_reloc w Hv Hw) as [? E]. split; [done|congruence].
Qed.
End collect.

(** ** A store *)
Lemma shown_store st objs edens froms olds G at_ id p o i v w : heap st objs edens froms olds -> shown G at_ (mem st) objs -> at_ !! id = Some p -> G !! id = Some o ->
  i ∈ body_slots (o_shape o) -> shows at_ v w -> shown (<[id := MkObj (o_shape o) (<[i := v]> (o_words o))]> G) at_ (<[body_addr p i := w]> (mem st)) objs.
Proof.
  intros Hh Hs Hp Ho Hi Hv. pose proof (h_wf _ _ _ (hp_ok _ _ _ _ _ Hh)) as Hwf. pose proof (heap_apart _ _ _ _ _ Hh) as Hap.
  destruct (sh_object _ _ _ _ Hs id p Hp) as (Hm & o' & Ho' & Hsh & Hw). assert (o' = o) as -> by congruence. assert (Hr : 0 <= i < size_words (o_shape o) - 2) by (by eapply (slot_bounds _ _ _ _ _ _ _ _ _ _ Hwf Hsh)).
  split; [|by apply (sh_inj _ _ _ _ Hs)]. intros id2 p2 Hp2. destruct (sh_object _ _ _ _ Hs id2 p2 Hp2) as (Hm2 & o2 & Ho2 & Hsh2 & Hw2). split; [done|].
  assert (Hrest : forall j, -1 <= j < size_words (o_shape o2) - 2 -> (p2, j) <> (p, i) -> <[body_addr p i := w]> (mem st) !! body_addr p2 j = mem st !! body_addr p2 j).
  { intros j Hj Hne. apply lookup_insert_ne. intros He. destruct (word_inj _ _ _ _ _ _ _ Hwf Hap p (o_shape o) i p2 (o_shape o2) j) as [-> ->]; [done|lia|done|lia|done|done]. }
  destruct (decide (id2 = id)) as [->|Hne].
  - assert (p2 = p) as -> by congruence. assert (o2 = o) as -> by congruence. eexists. split_and!; [apply list_lookup_insert_eq; by eapply lookup_lt_Some|done|].
    intros j Hj. cbn [o_words o_shape] in *. destruct (decide (j = i)) as [->|Hji].
    + exists v, w. split_and!; [by rewrite lookup_insert_eq..|]. unfold shows_word. rewrite decide_True; [done|by right].
    + destruct (Hw2 j Hj) as (v2 & w2 & E1 & E2 & E3). exists v2, w2. split_and!; [by rewrite lookup_insert_ne|rewrite Hrest; [done..|congruence]|done].
  - exists o2. split_and!; [by rewrite list_lookup_insert_ne|done|]. intros j Hj. destruct (Hw2 j Hj) as (v2 & w2 & E1 & E2 & E3). exists v2, w2.
    split_and!; [done| |done]. rewrite Hrest; [done..|]. intros [= -> ->]. by apply Hne, (sh_inj _ _ _ _ Hs id2 id p).
Qed.

(** ** A new object *)
Lemma shown_new M M' objs olds b lay ts te G at_ addr o : heap_wf M objs olds b lay ts te -> shown G at_ M objs -> fresh M M' objs addr (o_shape o) -> Oop.is_mem (oop_of addr) = true ->
  shows_object at_ M' o addr -> let at' := <[length G := addr]> at_ in shown (G ++ [o]) at' M' (<[addr := o_shape o]> objs) /\ at_ ⊆ at'.
Proof.
  intros Hwf Hs Hf Hm Hw at'. assert (Hlen : at_ !! length G = None).
  { destruct (at_ !! length G) as [p|] eqn:E; [|done]. destruct (sh_object _ _ _ _ Hs _ p E) as (_ & o' & Ho' & _). apply lookup_lt_Some in Ho'. lia. }
  pose proof (fresh_none _ _ _ _ _ _ _ _ _ _ Hwf Hf) as Hnone. assert (Hsub : at_ ⊆ at') by (by apply insert_subseteq). split; [|done].
  assert (Hold : forall id p, at_ !! id = Some p -> p <> addr) by (intros id p Hp ->; destruct (sh_object _ _ _ _ Hs id _ Hp) as (_ & ? & _ & ? & _); congruence).
  assert (Hcase : forall id p, at' !! id = Some p -> (id = length G /\ p = addr) \/ (id <> length G /\ at_ !! id = Some p)).
  { intros id p [[<- <-]|[? ?]]%lookup_insert_Some; [by left|right; split; [congruence|done]]. }
  split.
  - intros id p [[-> ->]|[Hne Hp]]%Hcase.
    + split; [done|]. exists o. split_and!; [by apply list_lookup_middle|by rewrite lookup_insert_eq|]. intros i Hi. destruct (Hw i Hi) as (v & w & ? & ? & ?). exists v, w. split_and!; [done..|by eapply shows_word_mono].
    + destruct (sh_object _ _ _ _ Hs id p Hp) as (Hmp & o' & Ho' & Hsh & Hwo). split; [done|]. exists o'. split_and!; [by apply lookup_app_l_Some|rewrite lookup_insert_ne; [done|intros E; by apply (Hold id p Hp)]|].
      intros i Hi. destruct (Hwo i Hi) as (v & w & E1 & E2 & E3). exists v, w. split_and!; [done| |by eapply shows_word_mono].
      by rewrite (same_word _ _ _ _ _ _ _ _ _ _ Hwf Hf p (o_shape o') i Hsh ltac:(lia)).
  - intros id id' p [[-> ->]|[Hne Hp]]%Hcase [[-> E]|[Hne' Hp']]%Hcase; [done|by destruct (Hold _ _ Hp')|by destruct (Hold _ _ Hp)|by eapply (sh_inj _ _ _ _ Hs)].
Qed.
End Simulation.
