(* ===== verification/MutatorCorrect.v ===== *)
(** The heap behaves as a graph whose objects never move and are never
    reclaimed: every operation of the mutator, with the collections it runs,
    is the operation of the graph, unless the program runs out of memory. *)
From S2P Require Import Prelude Oops OldSpace Heap Scavenge ScavengeInv ScavengeCorrect FullGc FullGcInv FullGcCorrect Survival Mutator Extension ObjectGraph Simulation.
From stdpp Require Import gmap.
#[local] Open Scope Z_scope.

Module MutatorCorrect.
Import Heap Scavenge ScavengeInv ScavengeCorrect FullGc FullGcInv FullGcCorrect Survival Mutator Extension ObjectGraph Simulation.
#[local] Notation "'let!' x := c 'in' k" := (bind c (fun x => k)) (at level 10, x pattern, k at level 200).

(** ** The words of a new object *)
Lemma fill_words_lookup n m a w x : fill_words n m a w !! x = if decide (a <= x < a + 8 * Z.of_nat n /\ (x - a) mod 8 = 0) then Some w else m !! x.
Proof.
  revert m a. induction n as [|n IH]; intros m a; cbn [fill_words]; [by rewrite decide_False by lia|]. rewrite IH.
  destruct (decide (x = a)) as [->|Hne].
  - rewrite decide_False by lia. rewrite lookup_insert_eq, decide_True; [done|]. rewrite Z.sub_diag. split; [lia|done].
  - rewrite lookup_insert_ne by done. repeat case_decide; try done; exfalso; Z.div_mod_to_equations; lia.
Qed.
Lemma init_object_ok m addr words k (tagged : bool) nl : 2 <= words -> exists m', init_object_at m addr words k tagged nl = Some m' /\
  (exists mk, m' !! addr = Some mk /\ Mark.from_word mk = Some mk /\ Mark.gc_mark mk = false) /\ m' !! body_addr addr (-1) = Some k /\
  (forall i, 0 <= i < words - 2 -> m' !! body_addr addr i = Some (if tagged then nl else 0)) /\
  (forall x, x < addr \/ addr + 8 * words <= x -> m' !! x = m !! x).
Proof.
  intros Hw. unfold init_object_at, HEADER_WORDS. destruct (Z.ltb_spec words 2); [lia|]. eexists. split; [done|].
  unfold set_mark, set_klass_raw. change MARK_OFFSET with 0. change KLASS_OFFSET with 8. rewrite body_addr_eq, !Z.add_0_r. split_and!.
  - exists (Mark.with_tagged_contents Mark.pristine tagged). rewrite fill_words_lookup, decide_False, lookup_insert_ne, lookup_insert_eq by lia. split; [done|]. by destruct tagged.
  - rewrite body_addr_eq, fill_words_lookup, decide_False by lia. replace (addr + 16 + 8 * -1) with (addr + 8) by lia. apply lookup_insert_eq.
  - intros i Hi. rewrite body_addr_eq, fill_words_lookup, decide_True; [done|]. split; [lia|]. replace (addr + 16 + 8 * i - (addr + 16)) with (i * 8) by lia. by apply Z.mod_mul.
  - intros x Hx. rewrite fill_words_lookup, decide_False by lia. rewrite !lookup_insert_ne by lia. done.
Qed.

(** ** The states that show a graph *)
(** The counter of the stress option stays below its period. *)
Definition count_ok (vm : vmstate) : Prop :=
  match gc_stress_full_period vm with Some p => inU 64 p /\ 0 <= full_stress_alloc_count vm < Z.max p 1 | None => True end.
(** [kvs] and [ks]: the words a handle or a slot protects besides the roots.
    [ss_enabled]: genesis has finished, and both collectors may run. *)
Record shows_state (G : graph) (kvs : list aval) (vm : vmstate) (ks : list Z) (objs : gmap Z shape) (edens froms olds : list Z) (at_ : gmap nat Z) : Prop := {
  ss_heap : heap (gc vm) objs edens froms olds;
  ss_objects : shown (g_objs G) at_ (mem (gc vm)) objs;
  ss_roots : Forall2 (shows at_) (g_nil G :: kvs ++ g_roots G) (nil_obj vm :: ks ++ roots vm);
  ss_code : Forall (valid objs) (code_roots vm);
  ss_keys : keys_ok objs (keys vm);
  ss_count : count_ok vm;
  ss_enabled : gc_enabled vm = true }.
Definition refines (G : graph) (kvs : list aval) (vm : vmstate) (ks : list Z) : Prop :=
  exists objs edens froms olds at_, shows_state G kvs vm ks objs edens froms olds at_.

(** ** Collections *)
(** What an allocation does before it finds room: collections, with the
    protected word, and the counting of the stress option. *)
Inductive collecting (vm0 : vmstate) (k0 : Z) : vmstate -> Z -> Prop :=
  | c_start : collecting vm0 k0 vm0 k0
  | c_full vm k vm' k' : collecting vm0 k0 vm k -> full_gc_now vm k = Some (vm', k') -> collecting vm0 k0 vm' k'
  | c_ensure vm k vm' k' : collecting vm0 k0 vm k -> ensure_promotion_guarantee vm k = Some (vm', k') -> collecting vm0 k0 vm' k'
  | c_scavenge vm k vm' k' : collecting vm0 k0 vm k -> scavenge_now vm k = Some (Runs (vm', k')) -> collecting vm0 k0 vm' k'
  | c_grow vm k : collecting vm0 k0 vm k -> collecting vm0 k0 (with_gc vm (snd (grow_old (gc vm) OLD_GROWTH_SEGMENT))) k
  | c_count vm k n : collecting vm0 k0 vm k -> collecting vm0 k0 (with_count vm n) k.

Section collections.
Context (G : graph) (kv : aval).

Lemma roots_valid vm k objs edens froms olds at_ : shows_state G [kv] vm [k] objs edens froms olds at_ -> Forall (valid objs) (nil_obj vm :: k :: roots vm).
Proof.
  intros Hs. pose proof (ss_roots _ _ _ _ _ _ _ _ _ Hs) as Hr. cbn [app] in Hr. apply Forall_forall. intros w Hw. apply list_elem_of_lookup_1 in Hw as [i Hi].
  destruct (Forall2_lookup_r _ _ _ _ _ Hr Hi) as (v & _ & Hv). by eapply (shows_valid _ _ _ _ _ _ (ss_objects _ _ _ _ _ _ _ _ _ Hs)).
Qed.

Lemma full_gc_now_ok vm k : refines G [kv] vm [k] -> exists vm' k', full_gc_now vm k = Some (vm', k') /\ refines G [kv] vm' [k'] /\
  used (eden (gc vm')) + used (from (gc vm')) <= used (eden (gc vm)) + used (from (gc vm)) /\ gc_enabled vm' = gc_enabled vm /\ gc_stress vm' = gc_stress vm /\
  gc_stress_full_period vm' = gc_stress_full_period vm /\ full_stress_alloc_count vm' = full_stress_alloc_count vm.
Proof.
  intros (objs & edens & froms & olds & at_ & Hs). pose proof (roots_valid _ _ _ _ _ _ _ Hs) as Hv.
  destruct (full_gc_collects (gc vm) objs edens froms olds (nil_obj vm :: k :: roots vm) (code_roots vm) (keys vm)) as (r & Hrun & (objs' & edens' & froms' & olds' & F & Hh & Hsv & Hin & R1 & R2 & Hk) & Hu & _).
  - apply (ss_heap _ _ _ _ _ _ _ _ _ Hs).
  - apply Forall_app. split; [done|apply (ss_code _ _ _ _ _ _ _ _ _ Hs)].
  - apply (ss_keys _ _ _ _ _ _ _ _ _ Hs).
  - apply Forall_app in Hin as [Hi1 Hi2]. exists (with_roots vm (g_state r) (reloc F (nil_obj vm)) (map (reloc F) (roots vm)) (g_code_roots r) (g_keys r)), (reloc F k).
    unfold full_gc_now, checked_full_gc. rewrite (ss_enabled _ _ _ _ _ _ _ _ _ Hs), Hrun. cbn [mbind option_bind]. rewrite R1. cbn [map]. split; [done|]. split; [|split_and!; try done; apply (ss_enabled _ _ _ _ _ _ _ _ _ Hs)].
    exists objs', edens', froms', olds', (moved F at_). pose proof (ss_objects _ _ _ _ _ _ _ _ _ Hs) as Hsh. split; cbn.
    + done.
    + by eapply shown_moved.
    + change (reloc F (nil_obj vm) :: reloc F k :: map (reloc F) (roots vm)) with (map (reloc F) (nil_obj vm :: k :: roots vm)). eapply Forall2_moved; [done| |done].
      exact (ss_roots _ _ _ _ _ _ _ _ _ Hs).
    + rewrite R2. eapply valid_all_reloc; [done|apply (ss_code _ _ _ _ _ _ _ _ _ Hs)|done].
    + done.
    + apply (ss_count _ _ _ _ _ _ _ _ _ Hs).
    + apply (ss_enabled _ _ _ _ _ _ _ _ _ Hs).
Qed.

(** What the promotion guarantee says, of the state alone. *)
Definition promised (st : gcstate) : Prop := promotion_guarantee_met st = true -> used (eden st) + used (from st) <= OldGen.free_bytes (old st).
Lemma promised_guaranteed st objs edens froms olds : heap st objs edens froms olds -> promised st -> guaranteed st objs.
Proof. intros [Hok Hy _ _] Hp Hm. rewrite (left_used _ _ _ _ _ Hok Hy). by apply Hp. Qed.

Lemma scavenge_now_ok vm k : refines G [kv] vm [k] -> promised (gc vm) -> exists r, scavenge_now vm k = Some r /\
  match r with
  | Exits _ _ => promotion_guarantee_met (gc vm) = false
  | Runs (vm', k') => refines G [kv] vm' [k'] /\ gc_enabled vm' = gc_enabled vm /\ gc_stress_full_period vm' = gc_stress_full_period vm /\ full_stress_alloc_count vm' = full_stress_alloc_count vm
  end.
Proof.
  intros (objs & edens & froms & olds & at_ & Hs) Hp. pose proof (roots_valid _ _ _ _ _ _ _ Hs) as Hv. pose proof (ss_heap _ _ _ _ _ _ _ _ _ Hs) as Hh.
  pose proof (ss_keys _ _ _ _ _ _ _ _ _ Hs) as Hk.
  destruct (scavenge_collects (gc vm) objs edens froms olds (nil_obj vm :: k :: roots vm) (code_roots vm ++ keys vm) Hh (promised_guaranteed _ _ _ _ _ Hh Hp)) as (r & Hrun & Hr).
  { rewrite !Forall_app. split_and!; [done|apply (ss_code _ _ _ _ _ _ _ _ _ Hs)|]. eapply Forall_impl; [exact Hk|]. by intros ? [? _]. }
  unfold scavenge_now, checked_scavenge. rewrite (ss_enabled _ _ _ _ _ _ _ _ _ Hs), Hrun. destruct r as [[n p] e|st' roots' code_roots']; [by eexists|].
  destruct Hr as (objs' & edens' & froms' & olds' & F & Hh' & Hsv & Hin & -> & ->). rewrite !Forall_app in Hin. destruct Hin as (Hi1 & Hi2 & Hi3).
  cbn [map]. eexists. split; [done|]. cbn beta match. split; [|split_and!; try done; apply (ss_enabled _ _ _ _ _ _ _ _ _ Hs)]. exists objs', edens', froms', olds', (moved F at_). pose proof (ss_objects _ _ _ _ _ _ _ _ _ Hs) as Hsh. split; cbn.
  - done.
  - by eapply shown_moved.
  - change (reloc F (nil_obj vm) :: reloc F k :: map (reloc F) (roots vm)) with (map (reloc F) (nil_obj vm :: k :: roots vm)). eapply Forall2_moved; [done| |done].
    exact (ss_roots _ _ _ _ _ _ _ _ _ Hs).
  - rewrite map_app, take_app_length' by (by rewrite length_map). eapply valid_all_reloc; [done|apply (ss_code _ _ _ _ _ _ _ _ _ Hs)|done].
  - rewrite map_app, drop_app_length' by (by rewrite length_map). by eapply keys_reloc.
  - apply (ss_count _ _ _ _ _ _ _ _ _ Hs).
  - apply (ss_enabled _ _ _ _ _ _ _ _ _ Hs).
Qed.

(** ** Growth *)
Lemma heap_grow st objs edens froms olds segment : heap st objs edens froms olds -> inU 64 segment -> heap (snd (grow_old st segment)) objs edens froms olds.
Proof.
  intros [Hok Hy Hs He] Hseg. pose proof (wf_layout _ _ _ _ _ _ _ (h_wf _ _ _ Hok)) as (_ & L2 & L3 & L4 & _).
  destruct (OldGen.exec_inv (OldGen.bounds (old st)) (OldGen.Grow segment) _ L2 L3 L4 (h_old _ _ _ Hok) Hseg) as (st1 & [= <-] & Hi). cbn in Hi.
  unfold grow_old. destruct (OldGen.grow (old st) segment) as [n g] eqn:Eg. cbn [snd] in *. pose proof (OldGen.i_bounds _ _ Hi) as Hb. cbn in Hb.
  split; [split|split|done|]; cbn; rewrite ?Hb; try done; try (by apply Hok); try (by apply Hy); try (by apply (h_wf _ _ _ Hok)).
Qed.
(** Each turn commits a whole segment, but the last. *)
Lemma grow_until_ok objs edens froms olds need : forall fuel st, heap st objs edens froms olds ->
  (Geometry.b_end (OldGen.bounds (old st)) - OldGen.committed_end (old st) + (OLD_GROWTH_SEGMENT - 1)) / OLD_GROWTH_SEGMENT < Z.of_nat fuel ->
  exists st', grow_until fuel need st = Some st' /\ heap st' objs edens froms olds /\ mem st' = mem st /\ eden st' = eden st /\ from st' = from st /\
    (need <= OldGen.free_bytes (old st') \/ OldGen.committed_end (old st') = Geometry.b_end (OldGen.bounds (old st'))).
Proof.
  induction fuel as [|fuel IH]; intros st Hh Hf.
  - pose proof (OldGen.i_top _ _ (h_old _ _ _ (hp_ok _ _ _ _ _ Hh))) as Ht. cbn in Ht.
    change OLD_GROWTH_SEGMENT with 16777216 in Hf. Z.div_mod_to_equations; lia.
  - cbn [grow_until]. destruct (Z.ltb_spec (OldGen.free_bytes (old st)) need) as [Hlt|Hge]; [|exists st; split_and!; [done..|by left]].
    assert (Hseg : inU 64 OLD_GROWTH_SEGMENT) by (split; [done|reflexivity]). pose proof (heap_grow _ _ _ _ _ _ Hh Hseg) as Hg. pose proof (OldGen.i_top _ _ (h_old _ _ _ (hp_ok _ _ _ _ _ Hh))) as Ht. cbn in Ht.
    pose proof (hp_end _ _ _ _ _ Hh) as He. destruct (wf_layout _ _ _ _ _ _ _ (h_wf _ _ _ (hp_ok _ _ _ _ _ Hh))) as (_ & L2 & _).
    pose proof (old_range st objs olds (hp_ok _ _ _ _ _ Hh)) as Hot. unfold OS in L2.
    assert (Hnew : Z.min (OldGen.saturating_add (OldGen.committed_end (old st)) (Z.max OLD_GROWTH_SEGMENT 1)) (Geometry.b_end (OldGen.bounds (old st)))
                   = Z.min (OldGen.committed_end (old st) + OLD_GROWTH_SEGMENT) (Geometry.b_end (OldGen.bounds (old st)))).
    { unfold OldGen.saturating_add. change OldGen.USIZE_MAX with 18446744073709551615. change OLD_GROWTH_SEGMENT with 16777216. change (2 ^ 63) with 9223372036854775808 in He. lia. }
    unfold grow_old in *. destruct (OldGen.grow (old st) OLD_GROWTH_SEGMENT) as [n g] eqn:Eg. unfold OldGen.grow in Eg. rewrite Hnew in Eg. cbn [snd] in Hg.
    destruct (Z.eqb_spec (Z.min (OldGen.committed_end (old st) + OLD_GROWTH_SEGMENT) (Geometry.b_end (OldGen.bounds (old st))) - OldGen.committed_end (old st)) 0) as [E|E];
      injection Eg as <- <-.
    + cbn [Z.eqb]. exists (with_old st (old st) (offsets st)). split_and!; [done..|]. right. cbn. change OLD_GROWTH_SEGMENT with 16777216 in *. lia.
    + destruct (Z.eqb_spec (Z.min (OldGen.committed_end (old st) + OLD_GROWTH_SEGMENT) (Geometry.b_end (OldGen.bounds (old st))) - OldGen.committed_end (old st)) 0); [done|].
      destruct (IH _ Hg) as (st' & E1 & E2 & E3 & E4 & E5 & E6).
      { cbn. change OLD_GROWTH_SEGMENT with 16777216 in *. set (be := Geometry.b_end (OldGen.bounds (old st))) in *. set (ce := OldGen.committed_end (old st)) in *.
        Z.div_mod_to_equations; lia. }
      by exists st'.
Qed.

Lemma refines_gc G' kvs vm ks objs edens froms olds at_ st edens' froms' olds' : shows_state G' kvs vm ks objs edens froms olds at_ -> heap st objs edens' froms' olds' ->
  mem st = mem (gc vm) -> shows_state G' kvs (with_gc vm st) ks objs edens' froms' olds' at_.
Proof. intros [? ? ? ? ? ?] Hh Hm. split; cbn; try done. by rewrite Hm. Qed.
Lemma heap_flag st objs edens froms olds met : heap st objs edens froms olds -> heap (with_guarantee st met) objs edens froms olds.
Proof. intros [[] [] ? ?]. by split; [split|split|..]. Qed.

(** What the stress options see is not changed by a collection. *)
Definition same_options (vm vm' : vmstate) : Prop :=
  gc_enabled vm' = gc_enabled vm /\ gc_stress_full_period vm' = gc_stress_full_period vm /\ full_stress_alloc_count vm' = full_stress_alloc_count vm.
Definition all_committed (st : gcstate) : Prop := OldGen.committed_end (old st) = Geometry.b_end (OldGen.bounds (old st)).

(** What a guarantee not met has done: after a full collection, the whole
    reservation is committed, and the old generation still has less free than
    the young objects took. *)
Definition unguaranteed (vm : vmstate) (k : Z) (vm' : vmstate) (k' : Z) : Prop :=
  exists vm1 st, full_gc_now vm k = Some (vm1, k') /\ refines G [kv] vm1 [k'] /\
    grow_until (grow_fuel (gc vm1)) (used (eden (gc vm)) + used (from (gc vm))) (gc vm1) = Some st /\ all_committed st /\
    OldGen.free_bytes (old st) < used (eden (gc vm)) + used (from (gc vm)) /\ vm' = with_gc vm1 (with_guarantee st false).
Lemma ensure_ok vm k : refines G [kv] vm [k] -> exists vm' k', ensure_promotion_guarantee vm k = Some (vm', k') /\ refines G [kv] vm' [k'] /\ promised (gc vm') /\
  (promotion_guarantee_met (gc vm') = false -> unguaranteed vm k vm' k') /\ same_options vm vm'.
Proof.
  intros HR. unfold ensure_promotion_guarantee. set (worst := used (eden (gc vm)) + used (from (gc vm))).
  destruct (Z.ltb_spec (OldGen.free_bytes (old (gc vm))) worst) as [Hlt|Hge].
  - destruct (full_gc_now_ok vm k HR) as (vm1 & k1 & E & HR1 & Hu & O1 & _ & O2 & O3). rewrite E. cbn [mbind option_bind]. pose proof HR1 as (objs & edens & froms & olds & at_ & Hs).
    pose proof (ss_heap _ _ _ _ _ _ _ _ _ Hs) as Hh.
    destruct (grow_until_ok objs edens froms olds worst (grow_fuel (gc vm1)) (gc vm1) Hh) as (st & Eg & Hh' & Hm & He & Hf & Hor).
    { unfold grow_fuel. pose proof (OldGen.i_top _ _ (h_old _ _ _ (hp_ok _ _ _ _ _ Hh))) as Ht. cbn in Ht. change OLD_GROWTH_SEGMENT with 16777216. Z.div_mod_to_equations; lia. }
    rewrite Eg. cbn [mbind option_bind]. eexists _, _. split; [done|]. split; [|split; [|split; [|by split_and!]]].
    + exists objs, edens, froms, olds, at_. apply (refines_gc _ _ vm1 _ _ _ _ _ _ _ _ _ _ Hs); [by apply heap_flag|done].
    + unfold promised. cbn. rewrite He, Hf. intros Hle%Z.leb_le. lia.
    + cbn. intros Hle. exists vm1, st. split_and!; try done; rewrite ?Hle; try done; apply Z.leb_gt in Hle; [|done]. destruct Hor as [?|?]; [lia|done].
  - cbn [mbind option_bind]. destruct HR as (objs & edens & froms & olds & at_ & Hs). eexists _, _. split; [done|]. split; [|split; [|split; [|done]]].
    + exists objs, edens, froms, olds, at_. apply (refines_gc _ _ vm _ _ _ _ _ _ _ _ _ _ Hs); [by apply heap_flag, (ss_heap _ _ _ _ _ _ _ _ _ Hs)|done].
    + unfold promised. cbn. intros Hle%Z.leb_le. done.
    + cbn. intros Hle%Z.leb_gt. lia.
Qed.

(** Neither eden nor the old generation grown by one segment has room. *)
Definition no_room (vm : vmstate) (size : Z) : Prop :=
  Spaces.remaining (eden (gc vm)) < size /\ OldGen.free_bytes (snd (OldGen.grow (old (gc vm)) OLD_GROWTH_SEGMENT)) < size.
Context (vm0 : vmstate) (k0 : Z).
Definition during (vm : vmstate) (k : Z) : Prop := refines G [kv] vm [k] /\ collecting vm0 k0 vm k.
#[local] Abbreviation R := during.
(** The allocation of [size] bytes gives up, reporting [n] bytes: it has just
    collected everything, and either the whole reservation is committed, the
    old generation has less free than the young objects took, and the scavenge
    stalls on a survivor of [n] bytes; or there is no room for the object. *)
Definition exhausted (size n : Z) (p : GcPhase) : Prop := exists vm k, R vm k /\
  ((exists vm' k', unguaranteed vm k vm' k' /\ scavenge_now vm' k' = Some (Exits n p)) \/
   (exists vm' k', full_gc_now vm k = Some (vm', k') /\ refines G [kv] vm' [k'] /\ no_room vm' size /\ n = size /\ p = Scavenge.Mutator)).

Lemma guarded_scavenge_ok vm k size : R vm k -> exists r, (let! (vm, k) := lift (ensure_promotion_guarantee vm k) in scavenge_now vm k) = Some r /\
  match r with Exits n p => exhausted size n p | Runs (vm', k') => R vm' k' /\ same_options vm vm' end.
Proof.
  intros [HR Hc]. destruct (ensure_ok vm k HR) as (vm1 & k1 & E & HR1 & Hp & Hflag & O1 & O2 & O3). rewrite E. cbn [lift bind mbind option_bind].
  pose proof (c_ensure _ _ _ _ _ _ Hc E) as Hc1.
  destruct (scavenge_now_ok vm1 k1 HR1 Hp) as (r & Er & Hr). exists r. split; [done|]. destruct r as [n p|[vm2 k2]].
  - exists vm, k. split; [done|]. left. exists vm1, k1. by split; [apply Hflag|].
  - destruct Hr as (HR2 & P1 & P2 & P3). split; [split; [done|by eapply c_scavenge]|]. unfold same_options. by rewrite P1, P2, P3.
Qed.

Lemma stress_ok vm k size : R vm k -> exists r, stress vm k = Some r /\
  match r with Exits n p => exhausted size n p | Runs (vm', k') => R vm' k' end.
Proof.
  intros HR. unfold stress. set (first := if gc_stress vm && gc_enabled vm then _ else _).
  assert (H1 : exists r, first = Some r /\ match r with Exits n p => exhausted size n p | Runs (vm', k') => R vm' k' /\ same_options vm vm' end).
  { unfold first. destruct (_ && _); [|by eexists]. by apply guarded_scavenge_ok. }
  destruct H1 as (r & -> & Hr). destruct r as [n p|[vm1 k1]]; cbn [bind]; [by eexists|]. destruct Hr as [HR1 _].
  destruct (gc_stress_full_period vm1) as [period|] eqn:Ep; [|by eexists]. destruct (gc_enabled vm1); [|by eexists].
  destruct HR1 as [(objs & edens & froms & olds & at_ & Hs) Hcol]. pose proof (ss_count _ _ _ _ _ _ _ _ _ Hs) as Hc. unfold count_ok in Hc. rewrite Ep in Hc. destruct Hc as [Hper Hc].
  unfold checked_add. rewrite decide_True by (unfold inU in *; change (2 ^ 64) with 18446744073709551616 in *; lia). cbn [lift bind mbind option_bind].
  assert (Hcount : forall n, 0 <= n < Z.max period 1 -> R (with_count vm1 n) k1).
  { intros n Hn. split; [|by apply c_count]. exists objs, edens, froms, olds, at_. destruct Hs. split; cbn; try done. unfold count_ok. cbn. by rewrite Ep. }
  destruct (Z.leb_spec period (full_stress_alloc_count vm1 + 1)) as [Hle|Hlt].
  - destruct (Hcount 0 ltac:(lia)) as [HR0 Hc0]. destruct (full_gc_now_ok (with_count vm1 0) k1 HR0) as (vm2 & k2 & E & HR2 & _). rewrite E. eexists. split; [done|]. split; [done|by eapply c_full].
  - eexists. split; [done|]. apply Hcount. lia.
Qed.

(** ** The place of a new object *)
(** The object is laid out from a state that shows the graph; written to show
    an object of its size, the memory is a heap again. *)
Record placed (words : Z) (tagged : bool) (vm' : vmstate) (addr : Z) (vm : vmstate) (k : Z) (objs : gmap Z shape) (edens froms olds : list Z) (at_ : gmap nat Z) : Prop := {
  pl_state : shows_state G [kv] vm [k] objs edens froms olds at_;
  pl_init : init_object_at (mem (gc vm)) addr words k tagged (nil_obj vm) = Some (mem (gc vm'));
  pl_roots : nil_obj vm' = nil_obj vm /\ roots vm' = roots vm /\ code_roots vm' = code_roots vm /\ keys vm' = keys vm;
  pl_count : count_ok vm';
  pl_enabled : gc_enabled vm' = true;
  pl_mem : Oop.is_mem (oop_of addr) = true;
  pl_new : forall a, is_Some (objs !! a) -> a + bytes objs a <= addr \/ addr + 8 * words <= a;
  pl_heap : forall M' s, size_words s = words -> fresh (mem (gc vm)) M' objs addr s ->
    exists edens' froms' olds', heap (with_mem (gc vm') M') (<[addr := s]> objs) edens' froms' olds' }.
Definition places (words : Z) (tagged : bool) (r : vmstate * Z) : Prop :=
  exists vm k objs edens froms olds at_, placed words tagged r.1 r.2 vm k objs edens froms olds at_.

Lemma bump_alloc_ok vm k words tagged : refines G [kv] vm [k] -> 2 <= words <= U32_MAX -> exists r, bump_alloc vm words k tagged = Some r /\
  match r with None => Spaces.remaining (eden (gc vm)) < 8 * words | Some r => places words tagged r end.
Proof.
  intros (objs & edens & froms & olds & at_ & Hs) Hw. change U32_MAX with 4294967295 in Hw. pose proof (ss_heap _ _ _ _ _ _ _ _ _ Hs) as Hh.
  destruct (eden_end_below _ _ _ _ _ Hh) as (E1 & E2 & E3 & E4). pose proof (hp_end _ _ _ _ _ Hh) as He. pose proof (old_range _ _ _ (hp_ok _ _ _ _ _ Hh)) as Hor. unfold OS in E2.
  change (2 ^ 63) with 9223372036854775808 in He.
  unfold bump_alloc, try_bump_eden, checked_mul, checked_add, WORD_SIZE. rewrite decide_True by (unfold inU; change (2 ^ 64) with 18446744073709551616; lia). cbn [mbind option_bind].
  rewrite decide_True by (unfold inU; change (2 ^ 64) with 18446744073709551616; lia). cbn [mbind option_bind].
  destruct (Z.ltb_spec (Spaces.s_end (eden (gc vm))) (Spaces.s_top (eden (gc vm)) + words * 8)) as [Hlt|Hge].
  - cbn [mbind option_bind]. eexists. split; [done|]. unfold Spaces.remaining. lia.
  - cbn [mbind option_bind]. destruct (init_object_ok (mem (gc vm)) (Spaces.s_top (eden (gc vm))) words k tagged (nil_obj vm)) as (m' & Em & _); [lia|].
    rewrite Em. cbn [mbind option_bind]. eexists. split; [done|]. exists vm, k, objs, edens, froms, olds, at_. cbn [fst snd]. split; cbn.
    + done.
    + done.
    + done.
    + apply (ss_count _ _ _ _ _ _ _ _ _ Hs).
    + apply (ss_enabled _ _ _ _ _ _ _ _ _ Hs).
    + apply aligned_mem; lia.
    + apply (eden_top_free _ _ _ _ _ (8 * words) Hh); lia.
    + intros M' s Hsz Hf. exists (edens ++ [Spaces.s_top (eden (gc vm))]), froms, olds. pose proof (heap_extend_eden _ _ _ _ _ M' s Hh) as Hx. cbv zeta in Hx. rewrite Hsz in Hx.
      rewrite (Z.mul_comm words 8). apply Hx; [lia|done].
Qed.

Lemma try_old_alloc_ok vm k words tagged : refines G [kv] vm [k] -> 2 <= words <= U32_MAX -> exists r, try_old_alloc vm words (words * 8) k tagged = Some r /\
  match r with None => OldGen.free_bytes (old (gc vm)) < 8 * words | Some r => places words tagged r end.
Proof.
  intros (objs & edens & froms & olds & at_ & Hs) Hw. change U32_MAX with 4294967295 in Hw. pose proof (ss_heap _ _ _ _ _ _ _ _ _ Hs) as Hh.
  pose proof (hp_end _ _ _ _ _ Hh) as He. pose proof (old_range _ _ _ (hp_ok _ _ _ _ _ Hh)) as Hor. change (2 ^ 63) with 9223372036854775808 in He.
  destruct (wf_layout _ _ _ _ _ _ _ (h_wf _ _ _ (hp_ok _ _ _ _ _ Hh))) as (_ & L2 & L3 & _). unfold OS in L2, L3.
  pose proof (OldGen.i_tiled _ _ (h_old _ _ _ (hp_ok _ _ _ _ _ Hh))) as Ht. cbn in Ht. apply OldGen.tiled_bounds in Ht as (_ & Hmod & _).
  assert (Hu : inU 64 (words * 8 + 7)) by (unfold inU; change (2 ^ 64) with 18446744073709551616; lia). assert (H8 : (words * 8) mod 8 = 0) by (by apply Z.mod_mul).
  destruct (old_allocate_ok (gc vm) objs olds (words * 8) (hp_ok _ _ _ _ _ Hh)) as (r & Er & Hce & Hr); [lia|done|done|]. unfold try_old_alloc. rewrite Er. cbn [mbind option_bind].
  destruct (OldGen.r_addr r) as [addr|] eqn:Ea.
  - destruct Hr as (-> & Htop & _). cbn [with_old mem]. destruct (init_object_ok (mem (gc vm)) (OldGen.top (old (gc vm))) words k tagged (nil_obj vm)) as (m' & Em & _); [lia|].
    rewrite Em. cbn [mbind option_bind with_old cards].
    destruct (Cards.record_multistores_ok (cards (gc vm)) (OldGen.bounds (old (gc vm))) (OldGen.top (old (gc vm))) (OldGen.top (old (gc vm)) + words * 8)) as (cs & Ecs & _).
    + apply (h_cards _ _ _ (hp_ok _ _ _ _ _ Hh)).
    + lia.
    + split; [lia|]. eapply old_room; [exact Hh|exact Er|exact Ea|lia|done|done].
    + rewrite Ecs. cbn [mbind option_bind]. eexists. split; [done|]. exists vm, k, objs, edens, froms, olds, at_. cbn [fst snd]. split; cbn.
      * done.
      * done.
      * done.
      * apply (ss_count _ _ _ _ _ _ _ _ _ Hs).
      * apply (ss_enabled _ _ _ _ _ _ _ _ _ Hs).
      * apply aligned_mem. lia.
      * apply (old_top_free _ _ _ _ _ (8 * words) Hh). lia.
      * intros M' s Hsz Hf. exists edens, froms, (olds ++ [OldGen.top (old (gc vm))]). rewrite (Z.mul_comm words 8) in Er, Ecs. rewrite <- Hsz in Er, Ecs.
        destruct (heap_extend_old _ _ _ _ _ M' s r Hh Er Ea Hf) as (cs' & Ecs' & Hx). rewrite Ecs in Ecs'. injection Ecs' as <-. exact Hx.
  - eexists. split; [done|]. unfold OldGen.allocate in Er. rewrite OldGen.align8_eq in Er by (done || lia). cbn [mbind option_bind] in Er.
    replace (8 * ((words * 8 + 7) / 8)) with (words * 8) in Er by (Z.div_mod_to_equations; lia). unfold OldGen.checked_add in Er.
    rewrite decide_True in Er by (unfold inU; change (2 ^ 64) with 18446744073709551616; lia). unfold OldGen.free_bytes.
    destruct (Z.ltb_spec (OldGen.committed_end (old (gc vm))) (OldGen.top (old (gc vm)) + words * 8)); [lia|].
    destruct (Offsets.record_object _ _ _) as [t|]; [|done]. cbn [mbind option_bind] in Er. injection Er as <-. done.
Qed.

Lemma old_alloc_growing_ok vm k words tagged : R vm k -> 2 <= words <= U32_MAX -> exists r, old_alloc_growing vm words (words * 8) k tagged = Some r /\
  match r with inl r => places words tagged r | inr vm' => R vm' k /\ OldGen.free_bytes (snd (OldGen.grow (old (gc vm)) OLD_GROWTH_SEGMENT)) < 8 * words end.
Proof.
  intros [HR Hc] Hw. unfold old_alloc_growing. destruct (try_old_alloc_ok vm k words tagged HR Hw) as (r & -> & Hr). cbn [mbind option_bind]. destruct r as [r|]; [by eexists|].
  pose proof HR as (objs & edens & froms & olds & at_ & Hs). assert (Hseg : inU 64 OLD_GROWTH_SEGMENT) by (split; [done|reflexivity]).
  pose proof (heap_grow _ _ _ _ _ _ (ss_heap _ _ _ _ _ _ _ _ _ Hs) Hseg) as Hg. pose proof (c_grow _ _ _ _ Hc) as Hc'. unfold grow_old in *.
  destruct (OldGen.grow (old (gc vm)) OLD_GROWTH_SEGMENT) as [n g] eqn:Eg. cbn [snd] in *.
  assert (HR' : R (with_gc vm (with_old (gc vm) g (offsets (gc vm)))) k).
  { split; [|done]. exists objs, edens, froms, olds, at_. by apply (refines_gc _ _ vm _ _ _ _ _ _ _ _ _ _ Hs). }
  destruct (Z.ltb_spec 0 n) as [Hn|Hn].
  - destruct (try_old_alloc_ok _ k words tagged (proj1 HR') Hw) as (r & -> & Hr'). cbn [mbind option_bind]. eexists. split; [done|]. by destruct r.
  - eexists. split; [done|]. split; [done|]. assert (Hle : OldGen.free_bytes g <= OldGen.free_bytes (old (gc vm))); [|exact (Z.le_lt_trans _ _ _ Hle Hr)]. unfold OldGen.grow in Eg.
    destruct (_ =? 0); injection Eg as <- <-; [done|]. unfold OldGen.free_bytes. cbn [OldGen.committed_end OldGen.top]. lia.
Qed.

Lemma alloc_scavenging_ok vm k words tagged : R vm k -> 2 <= words <= U32_MAX -> exists r, alloc_scavenging vm words k tagged = Some r /\
  match r with Exits n p => exhausted (8 * words) n p | Runs (inl r) => places words tagged r | Runs (inr (vm', k')) => R vm' k' end.
Proof.
  intros HR Hw. unfold alloc_scavenging. destruct (gc_enabled vm); [|by eexists].
  destruct (guarded_scavenge_ok vm k (8 * words) HR) as (r & Er & Hr). destruct (lift (ensure_promotion_guarantee vm k)) as [[n p|[vm1 k1]]|]; cbn [bind] in *; [|rewrite Er|done].
  - injection Er as <-. by eexists.
  - destruct r as [n p|[vm2 k2]]; cbn [bind]; [by eexists|]. destruct Hr as [HR2 _]. destruct (bump_alloc_ok vm2 k2 words tagged (proj1 HR2) Hw) as (r & -> & Hr). cbn [lift bind mbind option_bind].
    destruct r as [r|]; by eexists.
Qed.
Lemma alloc_last_resort_ok vm k words tagged : R vm k -> 2 <= words <= U32_MAX -> exists r, alloc_last_resort vm words (words * 8) k tagged = Some r /\
  match r with Exits n p => exhausted (8 * words) n p | Runs r => places words tagged r end.
Proof.
  intros [HR Hc] Hw. unfold alloc_last_resort. destruct (full_gc_now_ok vm k HR) as (vm1 & k1 & E & HR1 & _). rewrite E. cbn [lift bind mbind option_bind].
  destruct (bump_alloc_ok vm1 k1 words tagged HR1 Hw) as (r & -> & Hr). cbn [lift bind mbind option_bind]. destruct r as [r|]; [by eexists|].
  assert (HR1' : R vm1 k1) by (split; [done|by eapply c_full]).
  destruct (old_alloc_growing_ok vm1 k1 words tagged HR1' Hw) as (r & -> & Hr'). cbn [lift bind mbind option_bind]. eexists. split; [done|].
  destruct r as [r|vm2]; [done|]. exists vm, k. split; [done|]. right. exists vm1, k1. destruct Hr' as [_ Hr']. rewrite (Z.mul_comm words 8). by split_and!.
Qed.
Lemma alloc_words_ok vm k words tagged : R vm k -> 2 <= words <= U32_MAX -> exists r, alloc_words vm words k tagged = Some r /\
  match r with Exits n p => exhausted (8 * words) n p | Runs r => places words tagged r end.
Proof.
  intros HR Hw. unfold alloc_words, HEADER_WORDS. destruct (Z.ltb_spec words 2); [lia|]. unfold checked_mul, WORD_SIZE. change U32_MAX with 4294967295 in Hw.
  rewrite decide_True by (unfold inU; change (2 ^ 64) with 18446744073709551616; lia). cbn [lift bind mbind option_bind].
  destruct (stress_ok vm k (8 * words) HR) as (r & -> & Hr). destruct r as [n p|[vm1 k1]]; cbn [bind]; [by eexists|].
  destruct (bump_alloc_ok vm1 k1 words tagged (proj1 Hr) Hw) as (r & -> & Hr1). cbn [lift bind mbind option_bind]. destruct r as [r|]; [by eexists|].
  destruct (alloc_scavenging_ok vm1 k1 words tagged Hr Hw) as (r & -> & Hr2). destruct r as [n p|[r|[vm2 k2]]]; cbn [bind]; [by eexists|by eexists|].
  destruct (old_alloc_growing_ok vm2 k2 words tagged Hr2 Hw) as (r & -> & Hr3). cbn [lift bind mbind option_bind]. destruct r as [r|vm3]; [by eexists|].
  destruct Hr3 as [Hr3 _]. by apply alloc_last_resort_ok.
Qed.
End collections.

(** ** Klasses *)
Lemma is_klass M objs olds b lay ts te k ks : heap_wf M objs olds b lay ts te -> objs !! k = Some ks -> Oop.is_mem (oop_of k) = true -> s_format ks = Klass ->
  klass_of_oop M (oop_of k) = Some k.
Proof.
  intros Hwf Hks Hm Hf. destruct (object_klass _ _ _ _ _ _ _ Hwf k ks Hks) as (kk & kks & _ & _ & H1 & H2 & _ & _ & Hsh & _). destruct (mem_oop_of k Hm) as [Hmo _]. destruct (mem_oop_of kk H2) as [Hmk Hfr].
  destruct (shape_fields _ _ _ _ Hsh) as (_ & _ & _ & Hfmt & _). rewrite Hf in Hfmt.
  unfold klass_of_oop. rewrite Hmo. cbn [mbind option_bind]. unfold klass_oop. change (k + KLASS_OFFSET) with (body_addr k (-1)). unfold klass_word in H1. rewrite H1. cbn [mbind option_bind]. rewrite Hfr. cbn [mbind option_bind].
  unfold format_of_klass_field. rewrite Hmk. cbn [mbind option_bind]. unfold format, smi_field in Hfmt. destruct (raw_body_word M kk KLASS_FORMAT_INDEX) as [w|]; [|done]. cbn [mbind option_bind] in *.
  destruct (Oop.from_raw w) as [o|] eqn:Eo; [|done]. assert (o = w) as -> by (unfold Oop.from_raw in Eo; repeat (case_match; [done|]); by injection Eo). cbn [mbind option_bind] in *.
  destruct (SmallInt.try_from w) as [v|]; [|done]. cbn [mbind option_bind] in *. rewrite Hfmt. cbn [mbind option_bind]. by rewrite decide_True.
Qed.
Lemma klass_body_word_shown at_ M ko p i v : shows_object at_ M ko p -> -1 <= i < size_words (o_shape ko) - 2 -> klass_body_word ko i = Some v ->
  exists w, M !! body_addr p i = Some w /\ smi_field w = Some v.
Proof.
  intros Hw Hi Hk. destruct (Hw i Hi) as (x & w & Hx & Hm & Hs). unfold klass_body_word in Hk. rewrite Hx in Hk. destruct x as [x|]; [|done]. exists w. split; [done|].
  unfold shows_word in Hs. case_decide; [by destruct Hs as [-> _]|by injection Hs as ->].
Qed.
Lemma layout_shown G kvs vm ks objs edens froms olds at_ kv k f nis : shows_state G kvs vm ks objs edens froms olds at_ -> shows at_ kv k -> instance_layout G kv = Some (f, nis) ->
  exists p pks, k = oop_of p /\ Oop.is_mem k = true /\ objs !! p = Some pks /\ 4 <= size_words pks /\ klass_of_oop (mem (gc vm)) k = Some p /\ non_indexable_size (mem (gc vm)) p = Some nis /\
    format (mem (gc vm)) p = Some f /\ 2 <= nis.
Proof.
  intros Hs Hk Hl. destruct kv as [|id]; [done|]. destruct Hk as (p & Hp & ->). destruct (sh_object _ _ _ _ (ss_objects _ _ _ _ _ _ _ _ _ Hs) id p Hp) as (Hm & ko & Hko & Hsh & Hw).
  cbn [instance_layout] in Hl. rewrite Hko in Hl. cbn [mbind option_bind] in Hl. case_decide as Hkl; [|done]. destruct Hkl as [Hf H4].
  destruct (klass_body_word ko KLASS_FORMAT_INDEX) as [fv|] eqn:Ef; [|done]. cbn [mbind option_bind] in Hl. destruct (from_smi_value_checked fv) as [f'|] eqn:Ef'; [|done]. cbn [mbind option_bind] in Hl.
  destruct (klass_body_word ko KLASS_NON_INDEXABLE_SIZE_INDEX) as [nv|] eqn:En; [|done]. cbn [mbind option_bind] in Hl. case_decide; [|done]. injection Hl as -> <-.
  destruct (klass_body_word_shown at_ _ ko p KLASS_FORMAT_INDEX _ Hw ltac:(unfold KLASS_FORMAT_INDEX; lia) Ef) as (w0 & M0 & F0).
  destruct (klass_body_word_shown at_ _ ko p KLASS_NON_INDEXABLE_SIZE_INDEX _ Hw ltac:(unfold KLASS_NON_INDEXABLE_SIZE_INDEX; lia) En) as (w1 & M1 & F1).
  exists p, (o_shape ko). split_and!; try done.
  - eapply is_klass; [apply (h_wf _ _ _ (hp_ok _ _ _ _ _ (ss_heap _ _ _ _ _ _ _ _ _ Hs)))|done..].
  - unfold non_indexable_size, raw_body_word. rewrite M1. cbn [mbind option_bind]. by rewrite F1.
  - unfold format, raw_body_word. rewrite M0. cbn [mbind option_bind]. by rewrite F0.
Qed.

(** ** A new object, written *)
(** [M'] is the memory once the object's words are written, [body] what they
    show. *)
Record written (at_ : gmap nat Z) (M M' : memory) (addr k : Z) (s : shape) (body : list aval) : Prop := {
  wr_mark : exists mk, M' !! addr = Some mk /\ Mark.from_word mk = Some mk /\ Mark.gc_mark mk = false;
  wr_klass : M' !! body_addr addr (-1) = Some k;
  wr_same : forall x, x < addr \/ addr + 8 * size_words s <= x -> M' !! x = M !! x;
  wr_body : forall i, 0 <= i < size_words s - 2 -> exists v w, body !! Z.to_nat i = Some v /\ M' !! body_addr addr i = Some w /\ shows_word at_ s i v w;
  wr_size : if indexable (s_format s) then raw_size_slot M' addr (s_nis s) = Some (s_len s) else s_len s = 0 }.

Lemma placed_refines G kv words tagged vm' addr vm k objs edens froms olds at_ s body M' : placed G kv words tagged vm' addr vm k objs edens froms olds at_ ->
  instance_layout G kv = Some (s_format s, s_nis s) -> size_words s = words -> size_words s <= U32_MAX -> written at_ (mem (gc vm)) M' addr k s body ->
  refines (push_object G (new_object s kv body)) [] (push_new (with_gc vm' (with_mem (gc vm') M'), addr)) [].
Proof.
  intros Hpl Hlay <- Hsmall Hwr. pose proof (pl_state _ _ _ _ _ _ _ _ _ _ _ _ _ Hpl) as Hs. pose proof (ss_heap _ _ _ _ _ _ _ _ _ Hs) as Hh. pose proof (h_wf _ _ _ (hp_ok _ _ _ _ _ Hh)) as Hwf.
  pose proof (ss_roots _ _ _ _ _ _ _ _ _ Hs) as Hr. cbn [app] in Hr. apply Forall2_cons in Hr as [Hnil Hr]. apply Forall2_cons in Hr as [Hkv Hr].
  destruct (layout_shown _ _ _ _ _ _ _ _ _ _ _ _ _ Hs Hkv Hlay) as (p & pks & -> & Hm & Hp & H4 & Hko & Hnis & Hfmt & H2).
  assert (Hword : forall i, 0 <= i < size_words pks - 2 -> M' !! body_addr p i = mem (gc vm) !! body_addr p i).
  { intros i Hi. destruct (obj_shape _ _ _ _ _ _ _ Hwf p pks Hp) as (_ & _ & _ & Hb). apply (wr_same _ _ _ _ _ _ _ Hwr). rewrite body_addr_eq.
    destruct (pl_new _ _ _ _ _ _ _ _ _ _ _ _ _ Hpl p ltac:(by eexists)); lia. }
  assert (Hshape : shape_with M' addr p = Some s).
  { unfold shape_with, non_indexable_size, format, raw_body_word in *. unfold KLASS_NON_INDEXABLE_SIZE_INDEX, KLASS_FORMAT_INDEX in *. rewrite !Hword by lia. rewrite Hnis, Hfmt. cbn [mbind option_bind].
    rewrite decide_True by done. pose proof (wr_size _ _ _ _ _ _ _ Hwr) as Hz. destruct s as [f nis n]. cbn [s_format s_nis s_len] in *. destruct (indexable f); [by rewrite Hz|by subst]. }
  assert (Hf : fresh (mem (gc vm)) M' objs addr s).
  { split; try apply Hwr; try done.
    - apply (pl_new _ _ _ _ _ _ _ _ _ _ _ _ _ Hpl).
    - intros i Hi. destruct (decide (i = -1)) as [->|]; [rewrite (wr_klass _ _ _ _ _ _ _ Hwr); by eexists|]. destruct (wr_body _ _ _ _ _ _ _ Hwr i ltac:(lia)) as (v & w & _ & E & _). by eexists.
    - exists p, pks. split_and!; try done. apply (wr_klass _ _ _ _ _ _ _ Hwr).
    - intros i w Hi Hw. destruct (shape_bounds _ _ _ _ Hshape) as [B1 B2]. pose proof (elem_of_body_slots _ _ B1 B2 Hi) as [Hir _]. destruct (wr_body _ _ _ _ _ _ _ Hwr i Hir) as (v & w' & _ & E & Hv).
      assert (w' = w) as -> by congruence. unfold shows_word in Hv. rewrite decide_True in Hv by (by right). by eapply (shows_valid _ _ _ _ _ _ (ss_objects _ _ _ _ _ _ _ _ _ Hs)). }
  destruct (pl_heap _ _ _ _ _ _ _ _ _ _ _ _ _ Hpl M' s eq_refl Hf) as (edens' & froms' & olds' & Hh').
  destruct (shown_new _ _ _ _ _ _ _ _ (g_objs G) at_ addr (new_object s kv body) Hwf (ss_objects _ _ _ _ _ _ _ _ _ Hs) Hf) as [Hsh Hsub].
  { apply (pl_mem _ _ _ _ _ _ _ _ _ _ _ _ _ Hpl). }
  { intros i Hi. cbn [new_object o_shape o_words] in *. destruct (decide (i = -1)) as [->|Hne].
    - exists kv, (oop_of p). split_and!; [by rewrite lookup_map_seqZ_Some|apply (wr_klass _ _ _ _ _ _ _ Hwr)|]. unfold shows_word. rewrite decide_True; [done|left].
    - destruct (wr_body _ _ _ _ _ _ _ Hwr i ltac:(lia)) as (v & w & E & ? & ?). exists v, w. split_and!; [|done..]. rewrite lookup_map_seqZ_Some. split; [lia|].
      replace (Z.to_nat (i - -1)) with (Datatypes.S (Z.to_nat i)) by lia. done. }
  cbn [o_shape new_object] in Hsh. destruct (pl_roots _ _ _ _ _ _ _ _ _ _ _ _ _ Hpl) as (R1 & R2 & R3 & R4). pose proof (fresh_none _ _ _ _ _ _ _ _ _ _ Hwf Hf) as Hnone.
  assert (Hvalid : forall w, valid objs w -> valid (<[addr := s]> objs) w) by (intros w; by apply valid_kept).
  exists (<[addr := s]> objs), edens', froms', olds', (<[length (g_objs G) := addr]> at_). split; cbn.
  - exact Hh'.
  - exact Hsh.
  - rewrite R1, R2. repeat constructor.
    + by eapply shows_mono.
    + exists addr. by rewrite lookup_insert_eq.
    + eapply Forall2_impl; [exact Hr|]. intros x y. by apply shows_mono.
  - rewrite R3. eapply Forall_impl; [exact (ss_code _ _ _ _ _ _ _ _ _ Hs)|]. exact Hvalid.
  - rewrite R4. eapply Forall_impl; [exact (ss_keys _ _ _ _ _ _ _ _ _ Hs)|]. intros x [? ?]. split; [by apply Hvalid|done].
  - apply (pl_count _ _ _ _ _ _ _ _ _ _ _ _ _ Hpl).
  - apply (pl_enabled _ _ _ _ _ _ _ _ _ _ _ _ _ Hpl).
Qed.

(** *** Filled with nil, or with zeroes *)
Definition fill (tagged : bool) (G : graph) : aval := if tagged then g_nil G else AWord 0.
Lemma fill_shown G kvs vm ks objs edens froms olds at_ tagged : shows_state G kvs vm ks objs edens froms olds at_ -> shows at_ (fill tagged G) (if tagged then nil_obj vm else 0).
Proof. intros Hs. pose proof (ss_roots _ _ _ _ _ _ _ _ _ Hs) as Hr. apply Forall2_cons in Hr as [Hn _]. by destruct tagged. Qed.
Lemma replicate_at {A} n (x : A) l i : (i < n)%nat -> (replicate n x ++ l) !! i = Some x.
Proof. intros Hi. rewrite lookup_app_l by (by rewrite length_replicate). by apply lookup_replicate_2. Qed.
Lemma named_at s v l i : 0 <= i < s_nis s - 2 -> (named_body s v ++ l) !! Z.to_nat i = Some v.
Proof. intros Hi. apply replicate_at. unfold HEADER_WORDS. lia. Qed.
Lemma tail_at s v x l i : 2 <= s_nis s -> s_nis s - 2 <= i -> (named_body s v ++ x :: l) !! Z.to_nat i = (x :: l) !! Z.to_nat (i - (s_nis s - 2)).
Proof. intros H2 Hi. unfold named_body, HEADER_WORDS. rewrite lookup_app_r; rewrite length_replicate; [f_equal; lia|lia]. Qed.

Lemma protect G vm k kv : refines G [] vm [] -> g_roots G !! k = Some kv -> exists w, roots vm !! k = Some w /\ refines G [kv] vm [w] /\
  forall f nis, instance_layout G kv = Some (f, nis) -> exists p, w = oop_of p /\ klass_of_oop (mem (gc vm)) w = Some p /\ non_indexable_size (mem (gc vm)) p = Some nis /\ 2 <= nis.
Proof.
  intros (objs & edens & froms & olds & at_ & Hs) Hk. pose proof (ss_roots _ _ _ _ _ _ _ _ _ Hs) as Hr. cbn [app] in Hr. apply Forall2_cons in Hr as [Hn Hr].
  destruct (Forall2_lookup_l _ _ _ _ _ Hr Hk) as (w & Hw & Hv). exists w. split_and!; [done| |].
  - exists objs, edens, froms, olds, at_. destruct Hs. split; try done. cbn [app]. by repeat constructor.
  - intros f nis Hl. destruct (layout_shown _ _ _ _ _ _ _ _ _ _ _ _ _ Hs Hv Hl) as (p & _ & -> & _ & _ & _ & ? & ? & _ & ?). by exists p.
Qed.
(** A named slot is never the size slot, and every word of the tail of an
    object of bytes is raw. *)
Lemma size_slot_raw s : 2 <= s_nis s -> 0 <= s_len s -> indexable (s_format s) = true -> s_nis s - 2 ∉ oop_slots s.
Proof. intros H2 Hl Hx [?|Hin]%elem_of_cons; [lia|]. destruct (elem_of_body_slots s _ H2 Hl Hin) as [_ Hne]. by apply Hne. Qed.
Lemma bytes_tail_raw s i : oop_tail (s_format s) = false -> s_nis s - 2 <= i -> 2 <= s_nis s -> i ∉ oop_slots s.
Proof.
  intros Ht Hi H2 [?|Hin]%elem_of_cons; [lia|]. unfold body_slots, tail_slots, named_slots in Hin. rewrite Ht, app_nil_r in Hin.
  destruct (s_format s); try done; try (by apply elem_of_nil in Hin); apply elem_of_zrange in Hin; unfold HEADER_WORDS in Hin; lia.
Qed.

(** The program exits where the collections that the allocation for the klass
    at root [k] made from [vm] leave no room. *)
Definition exhausts (G : graph) (kv : aval) (vm : vmstate) (k : nat) (size n : Z) (p : GcPhase) : Prop := exists w, roots vm !! k = Some w /\ exhausted G kv vm w size n p.

(** *** [alloc_slots] *)
Lemma alloc_slots_ok G vm k kv f nis : refines G [] vm [] -> g_roots G !! k = Some kv -> instance_layout G kv = Some (f, nis) -> f = Slots \/ f = Klass -> nis <= U32_MAX ->
  let s := MkShape f nis 0 in exists r, (let! k := lift (root_klass vm k) in let! r := alloc_slots vm k in Some (Runs (push_new r))) = Some r /\
  match r with Exits n p => exhausts G kv vm k (8 * nis) n p | Runs vm' => refines (push_object G (new_object s kv (named_body s (g_nil G)))) [] vm' [] end.
Proof.
  intros HR Hk Hl Hf Hsm s. destruct (protect G vm k kv HR Hk) as (w & Hw & HRk & Hlay). destruct (Hlay f nis Hl) as (p & -> & Hko & Hnis & H2).
  assert (Hsz : size_words s = nis) by (by destruct Hf as [-> | ->]). assert (Hix : indexable f = false) by (by destruct Hf as [-> | ->]).
  unfold root_klass, root. rewrite Hw. cbn [mbind option_bind]. rewrite Hko. cbn [lift bind mbind option_bind]. unfold alloc_slots. rewrite Hnis. cbn [lift bind mbind option_bind].
  destruct (alloc_words_ok G kv vm (oop_of p) vm (oop_of p) nis true) as (r & -> & Hr); [split; [done|constructor]|lia|].
  destruct r as [n ph|[vm1 addr]]; cbn [bind]; [eexists; split; [done|by exists (oop_of p)]|]. eexists. split; [done|].
  destruct Hr as (vm0 & k0 & objs & edens & froms & olds & at_ & Hpl). cbn [fst snd] in Hpl. pose proof (pl_state _ _ _ _ _ _ _ _ _ _ _ _ _ Hpl) as Hs.
  destruct (init_object_ok (mem (gc vm0)) addr nis k0 true (nil_obj vm0) H2) as (m' & Em & W1 & W2 & W3 & W4). rewrite (pl_init _ _ _ _ _ _ _ _ _ _ _ _ _ Hpl) in Em. injection Em as <-.
  assert (Hwr : written at_ (mem (gc vm0)) (mem (gc vm1)) addr k0 s (named_body s (g_nil G))).
  { split; [done|done|by rewrite Hsz| |unfold s; cbn; by rewrite Hix]. intros i Hi. rewrite Hsz in Hi. exists (g_nil G), (nil_obj vm0). split_and!; [|by apply W3|].
    - rewrite <- (app_nil_r (named_body _ _)). by apply named_at.
    - unfold shows_word. rewrite decide_True; [by apply (fill_shown _ _ _ _ _ _ _ _ _ true Hs)|]. right. apply elem_of_app. left. unfold named_slots, s, HEADER_WORDS. destruct Hf as [-> | ->]; cbn; apply elem_of_zrange; lia. }
  replace vm1 with (with_gc vm1 (with_mem (gc vm1) (mem (gc vm1)))) by (destruct vm1 as [[] ? ? ? ? ? ? ? ?]; done). eapply placed_refines; [done..|by rewrite Hsz|by destruct vm1 as [[] ? ? ? ? ? ? ? ?]].
Qed.

(** *** The indexable allocations *)
Lemma size_smi n sz : SmallInt.try_new n = Some sz -> 0 <= n -> SmallInt.try_new (i64 n) = Some sz /\ smi_field sz = Some n /\ u64 n = n.
Proof.
  intros Hn H0. assert (Hr : SMI_MIN <= n <= SMI_MAX) by (destruct (decide (SMI_MIN <= n <= SMI_MAX)) as [|Hd]; [done|by rewrite SmallInt.try_new_none in Hn]).
  pose proof (SmallInt.range_inS n Hr) as Hin. rewrite wrapS_id by done. split; [done|]. rewrite SmallInt.try_new_eq in Hn by done. injection Hn as <-. split.
  - unfold smi_field, SmallInt.try_from. assert (Ht : Oop.tag (u64 (4 * n)) = 0) by (apply Z.eqb_eq; exact (SmallInt.smi_tag_u64 n)).
    unfold Oop.from_raw. change (Z.land (u64 (4 * n)) TAG_MASK) with (Oop.tag (u64 (4 * n))). rewrite Ht. cbn [Z.eqb mbind option_bind RESERVED_TAG MARK_TAG].
    unfold Oop.is_smi. rewrite Ht. cbn [Z.eqb INT_TAG mbind option_bind]. by rewrite SmallInt.value_u64.
  - unfold wrapU. apply Z.mod_small. change SMI_MAX with 2305843009213693951 in Hr. change (2 ^ 64) with 18446744073709551616. lia.
Qed.
Lemma alloc_indexable_ok G vm k kv f nis n sz tail : refines G [] vm [] -> g_roots G !! k = Some kv -> instance_layout G kv = Some (f, nis) -> let s := MkShape f nis n in
  indexable f = true -> SmallInt.try_new n = Some sz -> 0 <= n -> 0 <= tail -> size_words s = nis + 1 + tail -> size_words s <= U32_MAX -> let tagged := oop_tail f in
  exists r, (let! k := lift (root_klass vm k) in let! r := alloc_indexable vm k n tail tagged in Some (Runs (push_new r))) = Some r /\
  match r with
  | Exits n p => exhausts G kv vm k (8 * size_words s) n p
  | Runs vm' => refines (push_object G (new_object s kv (named_body s (fill tagged G) ++ [AWord sz] ++ replicate (Z.to_nat tail) (fill tagged G)))) [] vm' []
  end.
Proof.
  intros HR Hk Hl s Hix Hsz Hn Ht Hsize Hsm tagged. destruct (protect G vm k kv HR Hk) as (w & Hw & HRk & Hlay). destruct (Hlay f nis Hl) as (p & -> & Hko & Hnis & H2).
  destruct (size_smi n sz Hsz Hn) as (Hsz' & Hfield & Hu). change U32_MAX with 4294967295 in *.
  unfold root_klass, root. rewrite Hw. cbn [mbind option_bind]. rewrite Hko. cbn [lift bind mbind option_bind]. unfold alloc_indexable. rewrite Hnis. cbn [lift bind mbind option_bind].
  unfold checked_add. rewrite !decide_True by (unfold inU; change (2 ^ 64) with 18446744073709551616; lia). cbn [lift bind mbind option_bind].
  rewrite decide_True by (unfold inU; change (2 ^ 64) with 18446744073709551616; lia). cbn [lift bind mbind option_bind]. rewrite <- Hsize.
  destruct (alloc_words_ok G kv vm (oop_of p) vm (oop_of p) (size_words s) tagged) as (r & -> & Hr); [split; [done|constructor]|change U32_MAX with 4294967295; lia|].
  destruct r as [m ph|[vm1 addr]]; cbn [bind]; [eexists; split; [done|by exists (oop_of p)]|].
  unfold named_words, HEADER_WORDS. destruct (Z.ltb_spec nis 2); [lia|]. cbn [lift bind mbind option_bind]. rewrite Hsz'. cbn [lift bind mbind option_bind]. eexists. split; [done|].
  destruct Hr as (vm0 & k0 & objs & edens & froms & olds & at_ & Hpl). cbn [fst snd] in Hpl. pose proof (pl_state _ _ _ _ _ _ _ _ _ _ _ _ _ Hpl) as Hs.
  destruct (init_object_ok (mem (gc vm0)) addr (size_words s) k0 tagged (nil_obj vm0)) as (m' & Em & (mk & W0 & W0') & W2 & W3 & W4); [lia|].
  rewrite (pl_init _ _ _ _ _ _ _ _ _ _ _ _ _ Hpl) in Em. injection Em as <-. pose proof (fill_shown _ _ _ _ _ _ _ _ _ tagged Hs) as Hfill.
  eapply (placed_refines _ _ _ _ _ _ _ _ _ _ _ _ at_); [done|done|done|done|]. unfold set_raw_body_word. split.
  - exists mk. rewrite lookup_insert_ne by (rewrite body_addr_eq; lia). done.
  - rewrite lookup_insert_ne; [done|]. rewrite !body_addr_eq. lia.
  - intros x Hx. rewrite lookup_insert_ne; [by apply W4|]. rewrite body_addr_eq. lia.
  - intros i Hi. destruct (decide (i = nis - 2)) as [->|Hne].
    + exists (AWord sz), sz. split_and!; [|by rewrite lookup_insert_eq|].
      * cbn [app]. rewrite tail_at by (cbn; lia). cbn [s_nis s]. by rewrite Z.sub_diag.
      * unfold shows_word. rewrite decide_False; [done|]. by apply (size_slot_raw s).
    + exists (fill tagged G), (if tagged then nil_obj vm0 else 0). split_and!.
      * destruct (decide (i < nis - 2)); [apply named_at; cbn; lia|]. cbn [app]. rewrite tail_at by (cbn; lia). cbn [s_nis s].
        replace (Z.to_nat (i - (nis - 2))) with (Datatypes.S (Z.to_nat (i - (nis - 1)))) by lia. cbn. apply lookup_replicate_2. lia.
      * rewrite lookup_insert_ne; [by apply W3|]. rewrite !body_addr_eq. lia.
      * unfold shows_word. case_decide as Hin; [done|]. unfold tagged in *. destruct (oop_tail f) eqn:Hot; [|done]. destruct Hin. right. apply elem_of_app.
        destruct (decide (i < nis - 2)); [left|right].
        -- unfold named_slots, s, HEADER_WORDS. cbn [s_format s_nis]. destruct f; try done; apply elem_of_zrange; lia.
        -- unfold tail_slots, s. cbn [s_format s_nis s_len]. rewrite Hot. apply list_elem_of_fmap. exists (i - (nis - 1)). split; [unfold HEADER_WORDS; lia|]. apply elem_of_zrange.
           unfold size_words, s in Hi. cbn [s_format s_nis s_len] in Hi. destruct f; try done; lia.
  - cbn [s_format s_nis s_len s]. rewrite Hix. unfold raw_size_slot, named_words, HEADER_WORDS. destruct (Z.ltb_spec nis 2); [lia|]. cbn [mbind option_bind]. unfold raw_body_word.
    rewrite lookup_insert_eq. cbn [mbind option_bind]. rewrite Hfield. cbn [mbind option_bind]. by rewrite Hu.
Qed.

(** ** Loads and stores *)
Lemma root_shown G vm r v objs edens froms olds at_ : shows_state G [] vm [] objs edens froms olds at_ -> g_roots G !! r = Some v ->
  exists w, roots vm !! r = Some w /\ shows at_ v w.
Proof. intros Hs Hr. pose proof (ss_roots _ _ _ _ _ _ _ _ _ Hs) as Hf. cbn [app] in Hf. apply Forall2_cons in Hf as [_ Hf]. by eapply Forall2_lookup_l. Qed.
Lemma object_shown G vm r id o objs edens froms olds at_ : shows_state G [] vm [] objs edens froms olds at_ -> root_object G r = Some (id, o) ->
  exists p, at_ !! id = Some p /\ g_objs G !! id = Some o /\ objs !! p = Some (o_shape o) /\ shows_object at_ (mem (gc vm)) o p /\ root_addr vm r = Some p /\ Oop.is_mem (oop_of p) = true.
Proof.
  intros Hs Ho. unfold root_object in Ho. destruct (g_roots G !! r) as [v|] eqn:Ev; [|done]. cbn [mbind option_bind] in Ho. destruct v as [|id']; [done|].
  destruct (g_objs G !! id') as [o'|] eqn:Eo; [|done]. cbn [mbind option_bind] in Ho. injection Ho as -> ->. destruct (root_shown _ _ _ _ _ _ _ _ _ Hs Ev) as (w & Hw & p & Hp & ->).
  destruct (sh_object _ _ _ _ (ss_objects _ _ _ _ _ _ _ _ _ Hs) id p Hp) as (Hm & o' & Ho' & Hsh & Hwo). assert (o' = o) as -> by congruence. destruct (mem_oop_of p Hm) as [Hmo _].
  exists p. split_and!; try done. unfold root_addr, root. rewrite Hw. cbn [mbind option_bind]. done.
Qed.

Lemma load_ok G vm r i id o v : refines G [] vm [] -> root_object G r = Some (id, o) -> i ∈ body_slots (o_shape o) -> o_words o !! i = Some v ->
  exists vm', exec vm (Load r i) = Some (Runs vm') /\ refines (MkGraph (g_objs G) (g_nil G) (v :: g_roots G)) [] vm' [].
Proof.
  intros (objs & edens & froms & olds & at_ & Hs) Ho Hi Hv. destruct (object_shown _ _ _ _ _ _ _ _ _ _ Hs Ho) as (p & Hp & _ & Hsh & Hwo & Hra & _). pose proof (ss_heap _ _ _ _ _ _ _ _ _ Hs) as Hh.
  pose proof (h_wf _ _ _ (hp_ok _ _ _ _ _ Hh)) as Hwf. assert (Hr : 0 <= i < size_words (o_shape o) - 2) by (by eapply (slot_bounds _ _ _ _ _ _ _ _ _ _ Hwf Hsh)).
  destruct (Hwo i ltac:(lia)) as (v' & w & Hv' & Hw & Hsw). assert (v' = v) as -> by congruence. unfold shows_word in Hsw. rewrite decide_True in Hsw by (by right).
  pose proof (shows_valid _ _ _ _ _ _ (ss_objects _ _ _ _ _ _ _ _ _ Hs) Hsw) as [Hfr _]. destruct (body_word_count_of _ _ _ _ _ _ _ Hh Hsh) as (Hc & _).
  exists (push_root vm w). split.
  - cbn [exec]. rewrite Hra. cbn [mbind option_bind]. unfold body_oop, in_bounds. rewrite Hc. cbn [mbind option_bind]. destruct (Z.ltb_spec i (size_words (o_shape o) - 2)); [|lia]. cbn [mbind option_bind].
    unfold raw_body_word. rewrite Hw. cbn [mbind option_bind]. by rewrite Hfr.
  - exists objs, edens, froms, olds, at_. destruct Hs. split; cbn; try done. cbn [app] in ss_roots0. apply Forall2_cons in ss_roots0 as [? ?]. by repeat constructor.
Qed.

Lemma store_word_ok G vm r index v G' : refines G [] vm [] -> store_word G r index v = Some G' -> exists id o a w st, root_object G r = Some (id, o) /\ root_addr vm r = Some a /\ root vm v = Some w /\
  store (gc vm) a (index (o_shape o)) w = Some st /\ refines G' [] (with_gc vm st) [] /\ tail_start_word (mem (gc vm)) a = Some (s_nis (o_shape o) - 1).
Proof.
  intros (objs & edens & froms & olds & at_ & Hs) HG. unfold store_word in HG. destruct (root_object G r) as [[id o]|] eqn:Ho; [|done]. cbn [mbind option_bind] in HG.
  destruct (g_roots G !! v) as [x|] eqn:Ex; [|done]. cbn [mbind option_bind] in HG. case_decide as Hst; [|done]. injection HG as <-. destruct Hst as [Hi Hk].
  destruct (object_shown _ _ _ _ _ _ _ _ _ _ Hs Ho) as (p & Hp & Hgo & Hsh & Hwo & Hra & _). destruct (root_shown _ _ _ _ _ _ _ _ _ Hs Ex) as (w & Hw & Hxw). pose proof (ss_heap _ _ _ _ _ _ _ _ _ Hs) as Hh.
  pose proof (shows_valid _ _ _ _ _ _ (ss_objects _ _ _ _ _ _ _ _ _ Hs) Hxw) as Hvw. destruct (heap_store _ _ _ _ _ p (o_shape o) (index (o_shape o)) w Hh Hsh Hi Hk Hvw) as (cs & Est & Hh').
  exists id, o, p, w. eexists. split_and!; [done..|exact Est| |].
  - exists objs, edens, froms, olds, at_. split; cbn; try apply Hs; [done|]. eapply shown_store; [exact Hh|apply Hs|done..].
  - pose proof (h_wf _ _ _ (hp_ok _ _ _ _ _ Hh)) as Hwf. destruct (bodies_klass _ _ _ _ _ _ _ Hwf (mem (gc vm)) p (o_shape o)) as (kk & _ & _ & _ & _ & Hkk & Hshp & _); [by intros ? ? ? ? ?|done|].
    unfold tail_start_word. rewrite Hkk. cbn [mbind option_bind]. destruct (shape_fields _ _ _ _ Hshp) as (_ & Hnis & Hnamed & _).
    rewrite Hnis. cbn [mbind option_bind]. rewrite Hnamed. cbn [mbind option_bind]. f_equal. lia.
Qed.

(** ** Every operation *)
(** The request of [o], and that the collections for it leave no room. *)
Definition fails_for_room (G G' : graph) (vm : vmstate) (n : Z) (p : GcPhase) : Prop :=
  exists ob kv k, g_objs G' = g_objs G ++ [ob] /\ g_roots G !! k = Some kv /\ exhausts G kv vm k (8 * size_words (o_shape ob)) n p.
Lemma step_ok G vm o G' : refines G [] vm [] -> step G o = Some G' -> exists r, exec vm o = Some r /\
  match r with Exits n p => fails_for_room G G' vm n p | Runs vm' => refines G' [] vm' [] end.
Proof.
  intros HR Hstep. destruct o as [r i|r i v|r i v|k|k n|k n|n|r]; cbn [step] in Hstep.
  - destruct (root_object G r) as [[id o]|] eqn:Ho; [|done]. cbn [mbind option_bind] in Hstep. case_decide as Hi; [|done]. destruct (o_words o !! i) as [v|] eqn:Hv; [|done]. injection Hstep as <-.
    destruct (load_ok G vm r i id o v HR Ho Hi Hv) as (vm' & E & HR'). by eexists.
  - destruct (store_word_ok _ _ _ _ _ _ HR Hstep) as (id & o & a & w & st & _ & E1 & E2 & E3 & HR' & _). cbn [exec]. rewrite E1. cbn [mbind option_bind]. rewrite E2. cbn [mbind option_bind].
    rewrite E3. by eexists.
  - destruct (root_object G r) as [[id o]|] eqn:Ho; [|done]. cbn [mbind option_bind] in Hstep. destruct (oop_tail _); [|done].
    destruct (store_word_ok _ _ _ _ _ _ HR Hstep) as (id' & o' & a & w & st & Ho' & E1 & E2 & E3 & HR' & E4). cbn [exec]. rewrite E1. cbn [mbind option_bind]. rewrite E2. cbn [mbind option_bind].
    unfold store_tail_oop. rewrite E4. cbn [mbind option_bind]. unfold tail_index, HEADER_WORDS in E3. replace (s_nis (o_shape o') - 2 + 1 + i) with (s_nis (o_shape o') - 1 + i) in E3 by lia. rewrite E3. by eexists.
  - destruct (g_roots G !! k) as [kv|] eqn:Ek; [|done]. cbn [mbind option_bind] in Hstep. destruct (instance_layout G kv) as [[f nis]|] eqn:El; [|done]. cbn [mbind option_bind] in Hstep.
    case_decide as Hc; [|done]. destruct Hc as [Hf Hsm]. injection Hstep as <-. destruct (alloc_slots_ok G vm k kv f nis HR Ek El Hf) as (r & E & Hr); [by destruct Hf as [-> | ->]|].
    exists r. split; [exact E|]. destruct r; [|done]. eexists _, kv, k. split_and!; [done..|]. by destruct Hf as [-> | ->].
  - destruct (g_roots G !! k) as [kv|] eqn:Ek; [|done]. cbn [mbind option_bind] in Hstep. destruct (instance_layout G kv) as [[f nis]|] eqn:El; [|done]. cbn [mbind option_bind] in Hstep.
    destruct (SmallInt.try_new n) as [sz|] eqn:En; [|done]. cbn [mbind option_bind] in Hstep. case_decide as Hc; [|done]. destruct Hc as (Hf & Hn & Hsm). injection Hstep as <-.
    destruct (alloc_indexable_ok G vm k kv f nis n sz n HR Ek El) as (r & E & Hr); [by destruct f|done|done|done|by destruct f|done|]. rewrite Hf in *.
    exists r. split; [exact E|]. destruct r; [|done]. by eexists _, kv, k.
  - destruct (g_roots G !! k) as [kv|] eqn:Ek; [|done]. cbn [mbind option_bind] in Hstep. destruct (instance_layout G kv) as [[f nis]|] eqn:El; [|done]. cbn [mbind option_bind] in Hstep.
    destruct (SmallInt.try_new n) as [sz|] eqn:En; [|done]. cbn [mbind option_bind] in Hstep. case_decide as Hc; [|done]. destruct Hc as (Hf & Hn & Hsm). injection Hstep as <-.
    assert (Hot : oop_tail f = false) by (by destruct Hf as [-> | ->]).
    destruct (alloc_indexable_ok G vm k kv f nis n sz ((n + 7) / 8) HR Ek El) as (r & E & Hr); [by destruct Hf as [-> | ->]|done|done|apply Z.div_pos; lia|by destruct Hf as [-> | ->]|done|]. rewrite Hot in *.
    exists r. split; [exact E|]. destruct r; [|done]. by eexists _, kv, k.
  - injection Hstep as <-. eexists. split; [done|]. destruct HR as (objs & edens & froms & olds & at_ & Hs). exists objs, edens, froms, olds, at_. destruct Hs. split; cbn; try done.
    cbn [app] in ss_roots0. apply Forall2_cons in ss_roots0 as [? ?]. constructor; [done|by apply Forall2_drop].
  - destruct (g_roots G !! r) as [v|] eqn:Ev; [|done]. injection Hstep as <-. destruct (protect G vm r v HR Ev) as (w & Hw & HRk & _). cbn [exec]. unfold root. rewrite Hw. cbn [lift bind mbind option_bind].
    destruct (full_gc_now_ok G v vm w HRk) as (vm' & w' & E & HR' & _). unfold prim_gc_full. rewrite E. cbn [lift bind mbind option_bind]. eexists. split; [done|].
    destruct HR' as (objs & edens & froms & olds & at_ & Hs). exists objs, edens, froms, olds, at_. by destruct Hs.
Qed.

(** C1. Collections are invisible.  Once genesis has enabled the collectors,
    whatever loads, stores, allocations and forced full collections the program
    performs, the heap, with the scavenges, compactions and growth the
    allocations run, keeps showing the graph that the same operations make of
    objects that never move and are never reclaimed: every root and every
    reachable word is what the graph says.  No operation panics.  The program
    exits only at an allocation, straight after a full collection, and only
    where either the whole reservation is committed, the old generation still
    has less free than the young objects took, and the scavenge that follows
    stalls on a survivor it has to promote; or neither the compacted eden nor
    the compacted old generation, grown by one segment, has room for the new
    object.  The size reported is that of the survivor, or of the object. *)
Theorem mutator_refines G vm ops G' (Hstart : refines G [] vm []) (Hsteps : steps G ops = Some G') :
  exists r, execs vm ops = Some r /\
  match r with
  | Runs vm' => refines G' [] vm' []
  | Exits n p => exists before o after G1 G2 vm1, ops = before ++ o :: after /\ steps G before = Some G1 /\ execs vm before = Some (Runs vm1) /\ refines G1 [] vm1 [] /\
      step G1 o = Some G2 /\ fails_for_room G1 G2 vm1 n p
  end.
Proof.
  revert G vm Hstart Hsteps. induction ops as [|o ops IH]; intros G vm HR Hs; cbn [steps execs] in *.
  - injection Hs as <-. by eexists.
  - destruct (step G o) as [G1|] eqn:E; [|done]. cbn [mbind option_bind] in Hs. destruct (step_ok G vm o G1 HR E) as (r & Er & Hr). rewrite Er. cbn [bind].
    destruct r as [n p|vm1]; [eexists; split; [done|]; by exists [], o, ops, G, G1, vm|]. destruct (IH G1 vm1 Hr Hs) as (r & Er1 & Hr1). exists r. split; [done|].
    destruct r as [n p|vm2]; [|done]. destruct Hr1 as (before & o' & after & G2 & G3 & vm2 & -> & H1 & H2 & H3 & H4 & H5).
    exists (o :: before), o', after, G2, G3, vm2. cbn [steps execs]. rewrite E, Er. by split_and!.
Qed.

(** ** The demo heap as a graph *)
Definition demo_graph : graph :=
  let obj f nis ws := MkObj (MkShape f nis 0) (map_seqZ (-1) ws) in
  MkGraph [obj Klass 4 [ARef 0; AWord 16; AWord 16]; obj Klass 4 [ARef 0; AWord 0; AWord 12]; obj Slots 3 [ARef 1; ARef 3];
           obj Slots 3 [ARef 1; ARef 4]; obj Slots 3 [ARef 1; ARef 3]; obj Slots 3 [ARef 1; AWord 28]] (ARef 2) [ARef 4; ARef 1].
Definition demo_at : gmap nat Z := list_to_map [(0%nat, 65536); (1%nat, 65568); (2%nat, 65600); (3%nat, 8192); (4%nat, 8216); (5%nat, 8240)].
Definition demo_vm (st : gcstate) : vmstate := MkVm st 65601 [8217; 65569] [] demo_keys true true (Some 2) 0.
Lemma demo_shown : shown (g_objs demo_graph) demo_at demo_mem demo_objs.
Proof.
  split.
  - intros id p Hp%elem_of_list_to_map_2.
    repeat (apply elem_of_cons in Hp as [[= -> ->]|Hp]; [split; [done|]; eexists; split_and!; [reflexivity|reflexivity|]; intros i Hi; unfold size_words in Hi; cbn in Hi;
      assert (i = -1 \/ i = 0 \/ i = 1) as [-> | [-> | ->]] by lia; try lia;
      (eexists _, _; split_and!; [reflexivity|reflexivity|]; vm_compute; first [by eexists|done])|]).
    by apply elem_of_nil in Hp.
  - intros id id' p Hp%elem_of_list_to_map_2 Hp'%elem_of_list_to_map_2.
    repeat (apply elem_of_cons in Hp as [[= -> ->]|Hp]; [repeat (apply elem_of_cons in Hp' as [Hp'|Hp']; [congruence|]); by apply elem_of_nil in Hp'|]). by apply elem_of_nil in Hp.
Qed.
Lemma demo_refines : exists st, demo_start = Some st /\ refines demo_graph [] (demo_vm st) [].
Proof.
  destruct demo_heap as (st & Hst & Hok & Hy). exists st. split; [done|]. exists demo_objs, [8192; 8216; 8240], [], demo_olds, demo_at.
  assert (Hst' : (fun st => (mem st, OldGen.bounds (old st))) <$> demo_start = Some (demo_mem, demo_bounds)) by (vm_compute; reflexivity). rewrite Hst in Hst'. injection Hst' as Hm Hb.
  split; cbn [demo_vm gc nil_obj roots code_roots keys gc_stress_full_period full_stress_alloc_count].
  - split; [done|done|apply demo_sizes_ok|by rewrite Hb].
  - rewrite Hm. apply demo_shown.
  - repeat constructor; cbn [shows]; eexists; split; reflexivity.
  - constructor.
  - apply demo_keys_ok.
  - split; [split|]; done.
  - done.
Qed.

(** Under stress, every allocation scavenges and every second one compacts. *)
Definition demo_ops_mutator : list op := [NewSlots 1; Store 0 0 1; NewSlots 2; Store 0 0 1; GcFull 1; Load 1 0; Load 0 0].
Definition demo_final : option (list Z) :=
  st ← demo_start; match execs (demo_vm st) demo_ops_mutator with Some (Runs vm) => Some (roots vm) | _ => None end.
Lemma mutator_refines_witness : exists st G' vm', demo_start = Some st /\ steps demo_graph demo_ops_mutator = Some G' /\ execs (demo_vm st) demo_ops_mutator = Some (Runs vm') /\
  refines G' [] vm' [] /\ g_roots G' = [ARef 4; ARef 6; ARef 6; ARef 7; ARef 6; ARef 4; ARef 1] /\ roots vm' = [25; 1; 1; 8193; 1; 25; 65569].
Proof.
  destruct demo_refines as (st & Hst & HR). assert (HG : is_Some (steps demo_graph demo_ops_mutator)) by (vm_compute; by eexists). destruct HG as [G' HG].
  assert (Hroots : g_roots <$> steps demo_graph demo_ops_mutator = Some [ARef 4; ARef 6; ARef 6; ARef 7; ARef 6; ARef 4; ARef 1]) by (vm_compute; reflexivity).
  rewrite HG in Hroots. injection Hroots as Hroots. destruct (mutator_refines demo_graph (demo_vm st) demo_ops_mutator G' HR HG) as (r & Er & Hr).
  assert (Hrun : demo_final = Some [25; 1; 1; 8193; 1; 25; 65569]) by (vm_compute; reflexivity). unfold demo_final in Hrun. rewrite Hst in Hrun. cbn [mbind option_bind] in Hrun. rewrite Er in Hrun.
  destruct r as [n p|vm']; [done|]. injection Hrun as Hrun. exists st, G', vm'. by split_and!.
Defined.

(** ** The primitive that scavenges at once *)
(** The demo heap with no more committed than the old generation uses. *)
Definition full_old (st : gcstate) : gcstate := with_old st (OldGen.MkOld (OldGen.bounds (old st)) (OldGen.top (old st)) (OldGen.top (old st))) (offsets st).
Lemma heap_full_old st objs edens froms olds : heap st objs edens froms olds -> heap (full_old st) objs edens froms olds.
Proof.
  intros [Hok Hy Hs He]. pose proof (h_old _ _ _ Hok) as [I1 I2 I3 I4 I5]. cbn in *.
  split; [split|split|done|done]; cbn; try (by apply Hok); try (by apply Hy). split; cbn; try done. lia.
Qed.
Definition demo_full_vm (st : gcstate) : vmstate := demo_vm (full_old st).

(** C40. [gcScavenge] scavenges without establishing the promotion guarantee
    that the scavenger's assertion relies on: in a well-formed state whose
    flag says the guarantee holds, the primitive's scavenge fails its
    assertion, while the scavenge that an allocation runs, which commits
    another segment first, succeeds. *)
Theorem gc_scavenge_unguarded : exists vm k kv G, refines G [kv] vm [k] /\ promotion_guarantee_met (gc vm) = true /\ ~ promised (gc vm) /\
  prim_gc_scavenge vm k = None /\
  exists vm' k', (let! (vm, k) := lift (ensure_promotion_guarantee vm k) in scavenge_now vm k) = Some (Runs (vm', k')) /\ refines G [kv] vm' [k'].
Proof.
  destruct demo_refines as (st & Hst & HR). set (vm := demo_full_vm st). exists vm, 65569, (ARef 1), demo_graph.
  assert (Hvm : refines demo_graph [ARef 1] vm [65569]).
  { destruct (protect demo_graph (demo_vm st) 1 (ARef 1) HR eq_refl) as (w & Hw & (objs & edens & froms & olds & at_ & Hs) & _). injection Hw as <-.
    exists objs, edens, froms, olds, at_. exact (refines_gc _ _ (demo_vm st) _ _ _ _ _ _ (full_old st) _ _ _ Hs (heap_full_old _ _ _ _ _ (ss_heap _ _ _ _ _ _ _ _ _ Hs)) eq_refl). }
  assert (Hrun : (fun st => (promotion_guarantee_met st, used (eden st) + used (from st), match prim_gc_scavenge (demo_full_vm st) 65569 with None => true | _ => false end,
    match (let! (vm, k) := lift (ensure_promotion_guarantee (demo_full_vm st) 65569) in scavenge_now vm k) with Some (Runs _) => true | _ => false end)) <$> demo_start = Some (true, 72, true, true)) by (vm_compute; reflexivity).
  rewrite Hst in Hrun. cbn [fmap option_fmap option_map] in Hrun. injection Hrun as H1 H2 H3 H4. split_and!; [done|exact H1| |by destruct (prim_gc_scavenge _ _)|].
  - intros Hp. specialize (Hp H1). cbn in Hp, H2. unfold OldGen.free_bytes in Hp. cbn in Hp. rewrite H2 in Hp. lia.
  - destruct (guarded_scavenge_ok demo_graph (ARef 1) vm 65569 vm 65569 0) as (r & Er & Hr); [split; [done|constructor]|]. fold vm in H4. rewrite Er in H4. destruct r as [|[vm' k']]; [done|].
    exists vm', k'. split; [done|apply Hr].
Qed.
End MutatorCorrect.
