(* ===== verification/Process.v ===== *)
(** The process stack of the interpreter and the frames on it
    ([src/src/interpreter/stack.rs]), with the machine state they live in.

    A value is a tagged word or a reference to an object; references never
    change, which the heap guarantees to the program through every collection
    ([MutatorCorrect]).  Objects are what their klass's format makes of them.
    A process exit is [FatalExit]; a panic is [None]. *)
From S2P Require Import Prelude Oops Packed Heap ObjectGraph.
#[local] Open Scope Z_scope.

Module Process.
Import ObjectGraph.

Definition FRAME_METHOD : Z := 0.
Definition FRAME_SAVED_FP : Z := 1.
Definition FRAME_SAVED_BCI : Z := 2.
Definition FRAME_CONTEXT : Z := 3.
Definition FRAME_RECEIVER : Z := 4.
Definition FRAME_SERIAL : Z := 5.
Definition FRAME_MARKER : Z := 6.
Definition FRAME_TEMPS_BASE : Z := 7.
Definition ENTRY_FRAME_SENTINEL : Z := -1.
Definition FRAME_SERIAL_BITS : Z := 32.
Definition FRAME_SERIAL_MASK : Z := Z.shiftl 1 FRAME_SERIAL_BITS - 1.
Definition FRAME_MARKER_KIND_SHIFT : Z := FRAME_SERIAL_BITS.
Definition FRAME_MARKER_KIND_MASK : Z := Z.shiftl 1 FRAME_MARKER_KIND_SHIFT.

(** ** Values and objects *)
#[export] Instance aval_eq_dec : EqDecision aval.
Proof. solve_decision. Defined.

Definition smi_value (v : aval) : option Z := match v with AWord w => SmallInt.value <$> SmallInt.try_from w | ARef _ => None end.
Definition smi (n : Z) : option aval := AWord <$> SmallInt.new n.

(** The fields of a compiled method or block; flags and counters are the words
    of [Packed]. *)
Record method := MkMethod { m_flags : Z; m_primitive : Z; m_counters : Z; m_code : list Z; m_literals : list aval }.
Record closure := MkClosure { c_method : nat; c_home : Z; c_copied : list aval }.
Record context := MkContext { x_home_hint : aval; x_slots : list aval }.
Inductive object := OMethod (m : method) | OClosure (c : closure) | OContext (x : context) | OArray (elems : list aval) | OFields (ivars : list aval).

Definition argc (m : method) : option Z := MethodFlags.argc (m_flags m).
Definition ntemps (m : method) : option Z := MethodFlags.ntemps (m_flags m).
Definition nctx (m : method) : option Z := MethodFlags.nctx (m_flags m).
Definition has_ctx (m : method) : option bool := MethodFlags.has_ctx (m_flags m).
Definition is_block (m : method) : option bool := MethodFlags.is_block (m_flags m).
Definition captures_ctx (m : method) : option bool := MethodFlags.captures_ctx (m_flags m).

Section try_from.
Context (objs : list object).
Definition method_at (v : aval) : option (nat * method) := match v with ARef id => match objs !! id with Some (OMethod m) => Some (id, m) | _ => None end | _ => None end.
Definition closure_at (v : aval) : option (nat * closure) := match v with ARef id => match objs !! id with Some (OClosure c) => Some (id, c) | _ => None end | _ => None end.
Definition context_at (v : aval) : option (nat * context) := match v with ARef id => match objs !! id with Some (OContext x) => Some (id, x) | _ => None end | _ => None end.
Definition array_at (v : aval) : option (nat * list aval) := match v with ARef id => match objs !! id with Some (OArray l) => Some (id, l) | _ => None end | _ => None end.
End try_from.

(** ** The stack *)
Record ProcessStack := MkStack { slots : list aval; sp : Z; fp : Z; has_frame : bool }.
Definition with_capacity (capacity : Z) : ProcessStack := MkStack (replicate (Z.to_nat capacity) (AWord 0)) 0 0 false.
Definition activate_frame (st : ProcessStack) (fp : Z) : ProcessStack := MkStack (slots st) (sp st) fp true.
Definition deactivate (st : ProcessStack) : ProcessStack := MkStack (slots st) (sp st) (fp st) false.
Definition restore_baseline (st : ProcessStack) (sp fp : Z) (has_frame : bool) : ProcessStack := MkStack (slots st) sp fp has_frame.
Definition save_activation (st : ProcessStack) : Z * bool := (fp st, has_frame st).
Definition restore_activation (st : ProcessStack) (saved : Z * bool) : ProcessStack := MkStack (slots st) (sp st) saved.1 saved.2.
Definition set_sp (st : ProcessStack) (sp : Z) : ProcessStack := MkStack (slots st) sp (fp st) (has_frame st).

Definition get (st : ProcessStack) (i : Z) : option aval := zlookup (slots st) i.
Definition set (st : ProcessStack) (i : Z) (v : aval) : option ProcessStack := l ← zset (slots st) i v; Some (MkStack l (sp st) (fp st) (has_frame st)).
(** The inner option is the [StackOverflow]. *)
Definition try_push (st : ProcessStack) (v : aval) : option (option ProcessStack) :=
  if zlen (slots st) <=? sp st then Some None
  else st' ← set st (sp st) v; Some (Some (set_sp st' (sp st + 1))).
Definition top (st : ProcessStack) : option aval := get st (sp st - 1).
Definition ntemps_at_fp (objs : list object) (st : ProcessStack) : option Z :=
  v ← get st (fp st + FRAME_METHOD); match method_at objs v with Some (_, m) => ntemps m | None => Some 0 end.
Definition pop (objs : list object) (st : ProcessStack) : option (aval * ProcessStack) :=
  floor ← (if has_frame st then n ← ntemps_at_fp objs st; Some (fp st + FRAME_TEMPS_BASE + n) else Some 0 : option Z);
  if sp st <=? floor then None else v ← get st (sp st - 1); Some (v, set_sp st (sp st - 1)).

(** ** Frames *)
(** A frame is its [fp]. *)
Inductive MarkerKind := Ensure | IfCurtailed.
Module Frame.
Definition method (objs : list object) (st : ProcessStack) (fp : Z) : option (nat * method) := v ← get st (fp + FRAME_METHOD); method_at objs v.
Definition saved_fp (st : ProcessStack) (fp : Z) : option Z := v ← get st (fp + FRAME_SAVED_FP); smi_value v.
Definition saved_bci (st : ProcessStack) (fp : Z) : option Z := v ← get st (fp + FRAME_SAVED_BCI); n ← smi_value v; Some (u64 n).
Definition context (st : ProcessStack) (fp : Z) : option aval := get st (fp + FRAME_CONTEXT).
Definition set_context (st : ProcessStack) (fp : Z) (c : aval) : option ProcessStack := set st (fp + FRAME_CONTEXT) c.
Definition serial_word (st : ProcessStack) (fp : Z) : option Z := v ← get st (fp + FRAME_SERIAL); smi_value v.
Definition serial (st : ProcessStack) (fp : Z) : option Z := w ← serial_word st fp; Some (u32 (Z.land w FRAME_SERIAL_MASK)).
Definition marker (st : ProcessStack) (fp : Z) : option aval := get st (fp + FRAME_MARKER).
Definition marker_kind (st : ProcessStack) (fp : Z) : option MarkerKind :=
  w ← serial_word st fp; Some (if Z.land w FRAME_MARKER_KIND_MASK =? 0 then Ensure else IfCurtailed).
Definition set_marker (st : ProcessStack) (fp : Z) (m : aval) (kind : MarkerKind) : option ProcessStack :=
  w ← serial_word st fp;
  let serial_bits := Z.land w FRAME_SERIAL_MASK in
  let kind_bit := match kind with Ensure => 0 | IfCurtailed => FRAME_MARKER_KIND_MASK end in
  s ← smi (Z.lor serial_bits kind_bit);
  st ← set st (fp + FRAME_SERIAL) s; set st (fp + FRAME_MARKER) m.
Definition clear_marker (st : ProcessStack) (fp : Z) (nil : aval) : option ProcessStack := set st (fp + FRAME_MARKER) nil.
Definition receiver (st : ProcessStack) (fp : Z) : option aval := get st (fp + FRAME_RECEIVER).
Definition temp_index (objs : list object) (st : ProcessStack) (fp t : Z) : option Z :=
  '(_, m) ← method objs st fp; a ← argc m; n ← ntemps m;
  if a + n <=? t then None
  else if t <? a then if fp <? a then None else Some (fp - a + t) else Some (fp + FRAME_TEMPS_BASE + (t - a)).
Definition temp (objs : list object) (st : ProcessStack) (fp t : Z) : option aval := i ← temp_index objs st fp t; get st i.
Definition set_temp (objs : list object) (st : ProcessStack) (fp t : Z) (v : aval) : option ProcessStack := i ← temp_index objs st fp t; set st i v.
Definition receiver_slot (objs : list object) (st : ProcessStack) (fp : Z) : option Z :=
  '(_, m) ← method objs st fp; a ← argc m; if fp - a - 1 <? 0 then None else Some (fp - a - 1).
End Frame.

(** The receiver of an activation whose receiver-argument slot holds [arg]: a
    block's is the first capture of its closure. *)
Definition activation_receiver (objs : list object) (block : bool) (arg : aval) : option aval :=
  if block then match closure_at objs arg with Some (_, c) => c_copied c !! 0%nat | None => None end else Some arg.
(** The checks the deoptimizer runs on the frames it builds. *)
Definition verify (objs : list object) (st : ProcessStack) (fp : Z) : option unit :=
  if sp st <? fp + FRAME_TEMPS_BASE then None
  else
    '(_, m) ← Frame.method objs st fp; _ ← Frame.saved_fp st fp; _ ← Frame.saved_bci st fp; _ ← Frame.serial_word st fp;
    a ← argc m; n ← ntemps m; block ← is_block m;
    if fp <=? a then None
    else
      arg ← get st (fp - a - 1); r ← Frame.receiver st fp;
      expected ← activation_receiver objs block arg;
      if decide (r = expected) then if sp st <? fp + FRAME_TEMPS_BASE + n then None else Some tt else None.

(** ** The machine *)
Record NlrState := MkNlr { n_home : HomeRef.home_ref; n_value : aval; n_closure : option aval }.
Record vm := MkVm {
  objs : list object; nil_obj : aval; true_obj : aval; false_obj : aval; stack : ProcessStack; next_frame_serial : Z;
  regs_method : option nat; regs_bci : Z; prim_arg_base : Z; nlr_state : option NlrState; curtailing_on_error : bool; exit_requested : bool }.
Definition with_objs (v : vm) (os : list object) : vm :=
  MkVm os (nil_obj v) (true_obj v) (false_obj v) (stack v) (next_frame_serial v) (regs_method v) (regs_bci v) (prim_arg_base v) (nlr_state v) (curtailing_on_error v) (exit_requested v).
Definition with_stack (v : vm) (st : ProcessStack) : vm :=
  MkVm (objs v) (nil_obj v) (true_obj v) (false_obj v) st (next_frame_serial v) (regs_method v) (regs_bci v) (prim_arg_base v) (nlr_state v) (curtailing_on_error v) (exit_requested v).
Definition with_serial (v : vm) (n : Z) : vm :=
  MkVm (objs v) (nil_obj v) (true_obj v) (false_obj v) (stack v) n (regs_method v) (regs_bci v) (prim_arg_base v) (nlr_state v) (curtailing_on_error v) (exit_requested v).
Definition with_regs (v : vm) (m : option nat) (bci : Z) : vm :=
  MkVm (objs v) (nil_obj v) (true_obj v) (false_obj v) (stack v) (next_frame_serial v) m bci (prim_arg_base v) (nlr_state v) (curtailing_on_error v) (exit_requested v).
Definition with_prim_arg_base (v : vm) (base : Z) : vm :=
  MkVm (objs v) (nil_obj v) (true_obj v) (false_obj v) (stack v) (next_frame_serial v) (regs_method v) (regs_bci v) base (nlr_state v) (curtailing_on_error v) (exit_requested v).
Definition with_nlr (v : vm) (n : option NlrState) : vm :=
  MkVm (objs v) (nil_obj v) (true_obj v) (false_obj v) (stack v) (next_frame_serial v) (regs_method v) (regs_bci v) (prim_arg_base v) n (curtailing_on_error v) (exit_requested v).
Definition with_curtailing (v : vm) (b : bool) : vm :=
  MkVm (objs v) (nil_obj v) (true_obj v) (false_obj v) (stack v) (next_frame_serial v) (regs_method v) (regs_bci v) (prim_arg_base v) (nlr_state v) b (exit_requested v).

Inductive result (A : Type) := FatalExit (code : Z) | Done (a : A).
Arguments FatalExit {A} _.
Arguments Done {A} _.
Definition M (A : Type) := vm -> option (result (A * vm)).
Definition ret {A} (a : A) : M A := fun v => Some (Done (a, v)).
Definition bind {A B} (c : M A) (f : A -> M B) : M B :=
  fun v => match c v with None => None | Some (FatalExit n) => Some (FatalExit n) | Some (Done (a, v)) => f a v end.
Definition panic {A} : M A := fun _ => None.
Definition fatal_exit {A} (code : Z) : M A := fun _ => Some (FatalExit code).
(** What can panic, read from the state; and a change of the stack. *)
Definition read {A} (f : vm -> option A) : M A := fun v => a ← f v; Some (Done (a, v)).
Definition write (f : vm -> vm) : M unit := fun v => Some (Done (tt, f v)).
Definition update (f : vm -> option ProcessStack) : M unit := fun v => st ← f v; Some (Done (tt, with_stack v st)).

Declare Scope process_scope.
Notation "'let!' x := c 'in' k" := (bind c (fun x => k)) (at level 10, x pattern, k at level 200) : process_scope.
Notation "c ;; k" := (bind c (fun _ => k)) (at level 100, right associativity) : process_scope.
#[local] Open Scope process_scope.

(** [ProcessStack::push]: overflow exits with code 70. *)
Definition push (v : aval) : M unit := fun s =>
  st ← try_push (stack s) v; match st with Some st => Some (Done (tt, with_stack s st)) | None => Some (FatalExit 70) end.
Definition pop_value : M aval := fun s => '(v, st) ← pop (objs s) (stack s); Some (Done (v, with_stack s st)).
Fixpoint push_all (vs : list aval) : M unit := match vs with [] => ret tt | v :: vs => push v ;; push_all vs end.
Definition push_smi (n : Z) : M unit := let! v := read (fun _ => smi n) in push v.

(** [sp -= n]. *)
Definition drop_top (n : Z) : M unit :=
  update (fun s => if sp (stack s) <? n then None else Some (set_sp (stack s) (sp (stack s) - n))).
Definition truncate (n : Z) : M unit := update (fun s => Some (set_sp (stack s) n)).
Definition nil : M aval := fun s => Some (Done (nil_obj s, s)).
Definition set_bci (bci : Z) : M unit := write (fun s => with_regs s (regs_method s) bci).

(** The serial counter is a [u32]; wrapping is asserted against. *)
Definition alloc_frame_serial : M Z := fun s =>
  if decide (inU 32 (next_frame_serial s + 1)) then Some (Done (next_frame_serial s, with_serial s (next_frame_serial s + 1))) else None.
Definition alloc (o : object) : M nat := fun s => Some (Done (length (objs s), with_objs s (objs s ++ [o]))).
Definition set_object (id : nat) (o : object) : M unit := write (fun s => with_objs s (<[id := o]> (objs s))).
Definition the_method (v : aval) : M (nat * method) := read (fun s => method_at (objs s) v).
Definition the_closure (v : aval) : M (nat * closure) := read (fun s => closure_at (objs s) v).
End Process.
