(* ===== verification/Activation.v ===== *)
(** Activation of methods and blocks, block closures and contexts
    ([src/src/interpreter/blocks.rs], [mod.rs], [send.rs]), and the primitives
    that activate blocks ([src/src/runtime/primitives.rs]), as the interpreter
    runs them without the compiler.  The other primitives and the foreign calls
    are an argument. *)
From S2P Require Import Prelude Oops Packed Heap ObjectGraph Process.
#[local] Open Scope Z_scope.

Module Activation.
Import ObjectGraph Process.
#[local] Open Scope process_scope.

Inductive PrimResult := Ok (v : aval) | Fail | Activated.
Inductive PrimitiveOutcome := Fallthrough | Result (v : aval) | OutcomeActivated.

(** ** Frames *)
(** The slots every frame has, which methods and blocks push alike. *)
Definition push_fixed_slots (id : nat) (saved_fp saved_bci : Z) (receiver : vm -> option aval) (nt : vm -> option Z) : M unit :=
  let! fp_new := read (fun s => Some (sp (stack s))) in
  push (ARef id) ;;
  push_smi saved_fp ;;
  push_smi (i64 saved_bci) ;;
  let! n := nil in push n ;;
  let! r := read receiver in push r ;;
  let! serial := alloc_frame_serial in push_smi serial ;;
  push n ;;
  let! k := read nt in
  push_all (replicate (Z.to_nat k) n) ;;
  update (fun s => Some (activate_frame (stack s) fp_new)).
Definition push_frame (id : nat) (argc saved_fp saved_bci : Z) : M unit :=
  let! fp_new := read (fun s => Some (sp (stack s))) in
  push_fixed_slots id saved_fp saved_bci (fun s => get (stack s) (fp_new - argc - 1))
    (fun s => '(_, m) ← method_at (objs s) (ARef id); ntemps m).

Definition alloc_context (nctx : Z) : M nat := let! n := nil in alloc (OContext (MkContext n (replicate (Z.to_nat nctx) n))).
Definition maybe_alloc_context (id : nat) (fp : Z) (enclosing : aval) : M unit :=
  let! hc := read (fun s => '(_, m) ← method_at (objs s) (ARef id); has_ctx m) in
  if negb hc then ret tt
  else
    let! nc := read (fun s => '(_, m) ← method_at (objs s) (ARef id); nctx m) in
    let! ctx := alloc_context nc in
    let! x := read (fun s => context_at (objs s) (ARef ctx)) in
    set_object ctx (OContext (MkContext enclosing (x_slots x.2))) ;;
    update (fun s => Frame.set_context (stack s) fp (ARef ctx)).

Definition activate_entry (id : nat) (argc : Z) : M unit :=
  push_frame id argc ENTRY_FRAME_SENTINEL 0 ;;
  let! n := nil in
  let! fp := read (fun s => Some (fp (stack s))) in
  maybe_alloc_context id fp n.

(** ** Blocks *)
(** Captured values go to the first temporaries after the arguments. *)
Fixpoint copy_captures (fp : Z) (i : Z) (vs : list aval) : M unit :=
  match vs with
  | [] => ret tt
  | v :: vs => update (fun s => Frame.set_temp (objs s) (stack s) fp i v) ;; copy_captures fp (i + 1) vs
  end.

Definition value_base (captures : bool) : nat := if captures then 2%nat else 1%nat.
(** [ncopied() - value_base], which underflows when the closure is too small. *)
Definition value_captures (c : closure) (captures : bool) : option (list aval) :=
  if decide (value_base captures <= length (c_copied c))%nat then Some (drop (value_base captures) (c_copied c)) else None.

Definition activate_block_interp (closure : aval) (argc : Z) : M PrimResult :=
  let! c := the_closure closure in
  let! blk := the_method (ARef (c_method c.2)) in
  let! a := read (fun _ => Process.argc blk.2) in
  if negb (a =? argc) then ret Fail
  else
    let! fp_new := read (fun s => Some (sp (stack s))) in
    let! saved_fp := read (fun s => Some (i64 (fp (stack s)))) in
    let! saved_bci := read (fun s => Some (regs_bci s)) in
    push_fixed_slots blk.1 saved_fp saved_bci (fun _ => c_copied c.2 !! 0%nat) (fun _ => ntemps blk.2) ;;
    let! captures := read (fun _ => captures_ctx blk.2) in
    let! enclosing := read (fun s => if captures then c_copied c.2 !! 1%nat else Some (nil_obj s)) in
    let! hc := read (fun _ => has_ctx blk.2) in
    (if hc then maybe_alloc_context blk.1 fp_new enclosing
     else update (fun s => Frame.set_context (stack s) fp_new enclosing)) ;;
    let! c := read (fun s => i ← Frame.receiver_slot (objs s) (stack s) fp_new; v ← get (stack s) i; closure_at (objs s) v) in
    let! blk := the_method (ARef (c_method c.2)) in
    let! vs := read (fun _ => value_captures c.2 captures) in
    copy_captures fp_new argc vs ;;
    write (fun s => with_regs s (Some blk.1) 0) ;;
    ret Activated.

(** A closure made by a block has the home of the closure that runs. *)
Definition home_ref_for_new_closure (s : vm) : option Z :=
  let f := fp (stack s) in
  '(_, m) ← Frame.method (objs s) (stack s) f;
  b ← is_block m;
  match b with
  | true => i ← Frame.receiver_slot (objs s) (stack s) f; v ← get (stack s) i; '(_, c) ← closure_at (objs s) v; Some (c_home c)
  | false => n ← Frame.serial (stack s) f; HomeRef.pack_home_ref (HomeRef.MkHomeRef 0 n f)
  end.

(** The [k] slots from [base] on. *)
Definition read_slots (st : ProcessStack) (base : Z) (k : Z) : option (list aval) := mapM (get st) (zrange base (base + k)).

Definition make_closure (id : nat) (n_value_captures : Z) : M nat :=
  let! blk := the_method (ARef id) in
  let! b := read (fun _ => is_block blk.2) in
  if negb b then panic
  else
    let! captures := read (fun _ => captures_ctx blk.2) in
    let! base := read (fun s => if sp (stack s) <? n_value_captures then None else Some (sp (stack s) - n_value_captures)) in
    let! vs := read (fun s => read_slots (stack s) base n_value_captures) in
    truncate base ;;
    let! self := read (fun s => Frame.receiver (stack s) (fp (stack s))) in
    let! ctx := read (fun s => if captures then c ← Frame.context (stack s) (fp (stack s)); Some [c] else Some []) in
    let! home := read home_ref_for_new_closure in
    alloc (OClosure (MkClosure id home (self :: ctx ++ vs))).

(** [depth] hops along the chain of contexts. *)
Fixpoint ctx_hops (os : list object) (depth : nat) (c : aval) : option aval :=
  match depth with 0%nat => Some c | S d => '(_, x) ← context_at os c; ctx_hops os d (x_home_hint x) end.
Definition ctx_temp_walk (s : vm) (depth : Z) : option (nat * context) :=
  c ← Frame.context (stack s) (fp (stack s)); c ← ctx_hops (objs s) (Z.to_nat depth) c; context_at (objs s) c.

(** ** Primitives that activate a block *)
Definition set_method (id : nat) (m : method) : M unit := set_object id (OMethod m).
Definition bump_invocation (id : nat) : M unit :=
  let! m := the_method (ARef id) in
  let! w := read (fun _ =>
    c ← Counters.counters (m_counters m.2);
    let inv := Z.land c COUNTERS_INVOCATION_MASK in
    let bumped := Z.min (inv + 1) COUNTERS_INVOCATION_MAX in
    Counters.set_counters (Z.lor (Z.land c (Z.lnot COUNTERS_INVOCATION_MASK)) bumped)) in
  set_method id (MkMethod (m_flags m.2) (m_primitive m.2) w (m_code m.2) (m_literals m.2)).

Definition activate_block (closure : aval) (argc : Z) : M PrimResult :=
  let! c := the_closure closure in
  let! blk := the_method (ARef (c_method c.2)) in
  let! a := read (fun _ => Process.argc blk.2) in
  if negb (a =? argc) then ret Fail else bump_invocation blk.1 ;; activate_block_interp closure argc.

(** [ClosureOop::try_from(args[i])]. *)
Definition closure_arg (args : list aval) (i : nat) : M (option aval) :=
  read (fun s => v ← args !! i; Some (match closure_at (objs s) v with Some _ => Some v | None => None end)).

Definition prim_value (argc : Z) (args : list aval) : M PrimResult :=
  let! cl := closure_arg args 0 in match cl with None => ret Fail | Some cl => activate_block cl argc end.

Definition prim_value_with_arguments (args : list aval) : M PrimResult :=
  let! cl := closure_arg args 0 in
  match cl with
  | None => ret Fail
  | Some cl =>
      let! arr := read (fun s => v ← args !! 1%nat; Some (array_at (objs s) v)) in
      match arr with
      | None => ret Fail
      | Some (_, elems) =>
          let! c := the_closure cl in
          let! blk := the_method (ARef (c_method c.2)) in
          let! a := read (fun _ => Process.argc blk.2) in
          if negb (zlen elems =? a) then ret Fail
          else
            let! base := read (fun s => Some (prim_arg_base s)) in
            truncate (base + 1) ;; push_all elems ;; activate_block_interp cl (zlen elems)
      end
  end.

Definition prim_ensure_like (args : list aval) (kind : MarkerKind) : M PrimResult :=
  let! protected := closure_arg args 0 in
  match protected with
  | None => ret Fail
  | Some protected =>
      let! handler := closure_arg args 1 in
      match handler with
      | None => ret Fail
      | Some handler =>
          let argc_of cl := let! c := the_closure cl in let! m := the_method (ARef (c_method c.2)) in read (fun _ => Process.argc m.2) in
          let! a := argc_of protected in
          let! b := (if negb (a =? 0) then ret 0 else argc_of handler) in
          if negb (a =? 0) || negb (b =? 0) then ret Fail
          else
            drop_top 1 ;;
            let! r := activate_block_interp protected 0 in
            match r with
            | Activated => update (fun s => Frame.set_marker (stack s) (fp (stack s)) handler kind) ;; ret Activated
            | other => ret other
            end
      end
  end.

(** ** Methods *)
(** The end of [activate_method]: a frame for the method's bytecode. *)
Definition activate_body (id : nat) (argc : Z) : M unit :=
  let! saved_fp := read (fun s => Some (i64 (fp (stack s)))) in
  let! saved_bci := read (fun s => Some (regs_bci s)) in
  push_frame id argc saved_fp saved_bci ;;
  let! n := nil in
  let! fp := read (fun s => Some (fp (stack s))) in
  maybe_alloc_context id fp n ;;
  write (fun s => with_regs s (Some id) 0).

Definition PRIM_ID_FFI : Z := -1.
Definition prim_fails (m : method) : option bool := MethodFlags.prim_fails (m_flags m).

Section methods.
(** The rest of the table of primitives, and foreign calls. *)
Context (other_primitives : Z -> option (list aval -> M PrimResult)).
Context (dispatch_ffi_primitive : nat -> Z -> M PrimitiveOutcome).

Definition prim_by_id (id : Z) : option (list aval -> M PrimResult) :=
  if id =? 50 then Some (prim_value 0)
  else if id =? 51 then Some (prim_value 1)
  else if id =? 52 then Some (prim_value 2)
  else if id =? 53 then Some (prim_value 3)
  else if id =? 54 then Some prim_value_with_arguments
  else if id =? 60 then Some (fun args => prim_ensure_like args Ensure)
  else if id =? 61 then Some (fun args => prim_ensure_like args IfCurtailed)
  else other_primitives id.

Definition try_primitive (id : nat) (argc : Z) : M PrimitiveOutcome :=
  let! m := the_method (ARef id) in
  let prim_id := m_primitive m.2 in
  if prim_id =? 0 then ret Fallthrough
  else if prim_id =? PRIM_ID_FFI then dispatch_ffi_primitive id argc
  else
    let! f := read (fun _ => prim_by_id (u16 prim_id)) in
    let! base := read (fun s => let base := sp (stack s) - argc - 1 in if base <? 0 then None else Some base) in
    let! args := read (fun s => if 5 <? argc then None else read_slots (stack s) base (argc + 1)) in
    write (fun s => with_prim_arg_base s base) ;;
    let! r := f args in
    match r with
    | Ok v => truncate base ;; ret (Result v)
    | Fail =>
        let! m := the_method (ARef id) in
        let! fails := read (fun _ => prim_fails m.2) in
        if fails then ret Fallthrough else panic
    | Activated => ret OutcomeActivated
    end.

Definition activate_method (id : nat) (argc : Z) : M unit :=
  bump_invocation id ;;
  let! o := try_primitive id argc in
  match o with
  | Result v => push v
  | OutcomeActivated => ret tt
  | Fallthrough => activate_body id argc
  end.
End methods.
End Activation.
