(* ===== verification/FrameList.v ===== *)
(** The process stack as a list of frames, innermost first.

    A frame owns its receiver and arguments, its header, its temporaries and its
    operands; the words of the frames in order, over those of the activations
    below, are the words of the stack. *)
From S2P Require Import Prelude Oops Packed Heap ObjectGraph Process.
#[local] Open Scope Z_scope.

Module FrameList.
Import ObjectGraph Process.

Record fr := MkFr {
  f_method : nat; f_arg0 : aval; f_args : list aval; f_bci : Z; f_ctx : aval; f_receiver : aval;
  f_serial : Z; f_kind : MarkerKind; f_marker : aval; f_temps : list aval; f_operands : list aval }.

Definition smi_word (n : Z) : aval := AWord (u64 (4 * n)).
Definition kind_bit (k : MarkerKind) : Z := match k with Ensure => 0 | IfCurtailed => FRAME_MARKER_KIND_MASK end.
Definition header (link : Z) (f : fr) : list aval :=
  [ARef (f_method f); smi_word link; smi_word (f_bci f); f_ctx f; f_receiver f; smi_word (Z.lor (f_serial f) (kind_bit (f_kind f))); f_marker f].
Definition caller_part (f : fr) : list aval := f_arg0 f :: f_args f.
Definition frame_words (link : Z) (f : fr) : list aval := caller_part f ++ header link f ++ f_temps f ++ f_operands f.
Definition frame_size (f : fr) : Z := 8 + zlen (f_args f) + zlen (f_temps f) + zlen (f_operands f).

(** Frames [fs] over [n] words; the outermost is linked to [link]. *)
Fixpoint body_size (fs : list fr) : Z := match fs with [] => 0 | f :: r => body_size r + frame_size f end.
Definition top (n link : Z) (fs : list fr) : Z :=
  match fs with [] => link | f :: r => n + body_size r + 1 + zlen (f_args f) end.
Fixpoint body (n link : Z) (fs : list fr) : list aval :=
  match fs with [] => [] | f :: r => body n link r ++ frame_words (top n link r) f end.

Lemma frame_words_len link f : zlen (frame_words link f) = frame_size f.
Proof. unfold frame_words, caller_part, frame_size. rewrite !zlen_app, zlen_cons. change (zlen (header link f)) with 7. lia. Qed.
Lemma body_len n link fs : zlen (body n link fs) = body_size fs.
Proof. induction fs as [|f r IH]; [done|]. cbn [body body_size]. by rewrite zlen_app, IH, frame_words_len. Qed.
Lemma body_size_app pre fs : body_size (pre ++ fs) = body_size fs + body_size pre.
Proof. induction pre as [|f r IH]; cbn [app body_size]; [lia|]. rewrite IH. lia. Qed.
Lemma top_app n link pre fs : top n link (pre ++ fs) = top (n + body_size fs) (top n link fs) pre.
Proof. destruct pre as [|f r]; [done|]. cbn [app top]. rewrite body_size_app. lia. Qed.
Lemma body_app n link pre fs :
  body n link (pre ++ fs) = body n link fs ++ body (n + body_size fs) (top n link fs) pre.
Proof. induction pre as [|f r IH]; cbn [app body]; [by rewrite app_nil_r|]. by rewrite IH, top_app, app_assoc. Qed.
Lemma frame_size_pos f : 8 <= frame_size f.
Proof. unfold frame_size. pose proof (zlen_nonneg (f_args f)). pose proof (zlen_nonneg (f_temps f)). pose proof (zlen_nonneg (f_operands f)). lia. Qed.
Lemma body_size_pos fs : 8 * Z.of_nat (length fs) <= body_size fs.
Proof. induction fs as [|f r IH]; cbn [body_size length]; [lia|]. pose proof (frame_size_pos f). lia. Qed.

(** ** Words *)
Definition smi_range (n : Z) : Prop := - 2 ^ 60 <= n < 2 ^ 60.
Lemma smi_eq n : smi_range n -> smi n = Some (smi_word n).
Proof. unfold smi_range. intros Hn. unfold smi, SmallInt.new. rewrite SmallInt.try_new_eq; [done|]. change SMI_MIN with (- 2 ^ 61). change SMI_MAX with (2 ^ 61 - 1). lia. Qed.
Lemma smi_value_word n : smi_range n -> smi_value (smi_word n) = Some n.
Proof.
  unfold smi_range. intros Hn. cbn. unfold SmallInt.try_from. rewrite SmallInt.smi_tag_u64. cbn. f_equal. apply SmallInt.value_u64.
  change SMI_MIN with (- 2 ^ 61). change SMI_MAX with (2 ^ 61 - 1). lia.
Qed.

Lemma serial_bits n k : inU 32 n -> Z.land (Z.lor n (kind_bit k)) FRAME_SERIAL_MASK = n.
Proof.
  intros Hn. change FRAME_SERIAL_MASK with (Z.ones 32).
  rewrite Z.land_ones by lia. unfold inU in Hn. destruct k; cbn [kind_bit].
  - rewrite Z.lor_0_r. apply Z.mod_small. lia.
  - change FRAME_MARKER_KIND_MASK with (Z.shiftl 1 32).
    rewrite <- Z.land_ones by lia. rewrite Z.land_lor_distr_l. change (Z.land (Z.shiftl 1 32) (Z.ones 32)) with 0.
    rewrite Z.lor_0_r, Z.land_ones by lia. apply Z.mod_small. lia.
Qed.
Lemma kind_bits n k : inU 32 n ->
  (if Z.land (Z.lor n (kind_bit k)) FRAME_MARKER_KIND_MASK =? 0 then Ensure else IfCurtailed) = k.
Proof.
  intros Hn. rewrite Z.land_lor_distr_l.
  assert (Z.land n FRAME_MARKER_KIND_MASK = 0) as ->.
  { apply Z.bits_inj'. intros i Hi. rewrite Z.land_spec, Z.bits_0. change FRAME_MARKER_KIND_MASK with (2 ^ 32).
    rewrite Z.pow2_bits_eqb by lia. destruct (Z.eqb_spec 32 i) as [<-|]; [|apply andb_false_r].
    by rewrite (testbit_high 32 n 32) by (done || lia). }
  by destruct k.
Qed.
Lemma serial_range n k : inU 32 n -> smi_range (Z.lor n (kind_bit k)).
Proof.
  intros Hn. assert (inU 33 (Z.lor n (kind_bit k))) as Hl; [|unfold inU, smi_range in *; lia].
  apply inU_lor; [lia|unfold inU in *; lia|]. destruct k; by vm_compute.
Qed.

(** ** A stack that shows a list of frames *)
Definition frame_ok (os : list object) (f : fr) : Prop :=
  inU 32 (f_serial f) /\ inU 32 (f_bci f) /\
  exists m, os !! f_method f = Some (OMethod m) /\ argc m = Some (zlen (f_args f)) /\ ntemps m = Some (zlen (f_temps f)).
Abbreviation entry_link := (-1).
Definition fp_of (base : list aval) (fs : list fr) : Z := top (zlen base) entry_link fs.
Record stack_shows (cap : Z) (os : list object) (base : list aval) (fs : list fr) (st : ProcessStack) : Prop := {
  ss_slots : exists junk, slots st = base ++ body (zlen base) entry_link fs ++ junk;
  ss_sp : sp st = zlen base + body_size fs;
  ss_cap : zlen (slots st) = cap;
  ss_fp : fs <> [] -> fp st = fp_of base fs;
  ss_has : has_frame st = match fs with [] => false | _ => true end;
  ss_ok : Forall (frame_ok os) fs }.

Lemma method_at_ok os f : frame_ok os f -> exists m, method_at os (ARef (f_method f)) = Some (f_method f, m) /\
  argc m = Some (zlen (f_args f)) /\ ntemps m = Some (zlen (f_temps f)).
Proof. intros (_ & _ & m & E & Ha & Hn). exists m. cbn. by rewrite E. Qed.

Definition with_temps (f : fr) (ts : list aval) : fr :=
  MkFr (f_method f) (f_arg0 f) (f_args f) (f_bci f) (f_ctx f) (f_receiver f) (f_serial f) (f_kind f) (f_marker f) ts (f_operands f).
Definition with_args (f : fr) (ts : list aval) : fr :=
  MkFr (f_method f) (f_arg0 f) ts (f_bci f) (f_ctx f) (f_receiver f) (f_serial f) (f_kind f) (f_marker f) (f_temps f) (f_operands f).
Definition with_context (f : fr) (c : aval) : fr :=
  MkFr (f_method f) (f_arg0 f) (f_args f) (f_bci f) c (f_receiver f) (f_serial f) (f_kind f) (f_marker f) (f_temps f) (f_operands f).
Definition with_marker (f : fr) (k : MarkerKind) (m : aval) : fr :=
  MkFr (f_method f) (f_arg0 f) (f_args f) (f_bci f) (f_ctx f) (f_receiver f) (f_serial f) k m (f_temps f) (f_operands f).

Section shows.
Context {cap : Z} {os : list object} {base : list aval} {pre rest : list fr} {f : fr} {st : ProcessStack}.
Context (Hs : stack_shows cap os base (pre ++ f :: rest) st).
Abbreviation link := (fp_of base rest).
Abbreviation start := (zlen base + body_size rest).

Lemma shows_split : exists tail, slots st = (base ++ body (zlen base) entry_link rest) ++ frame_words link f ++ tail /\
  forall f' : fr, frame_size f' = frame_size f -> length (f_args f') = length (f_args f) ->
    (base ++ body (zlen base) entry_link rest) ++ frame_words link f' ++ tail =
    base ++ body (zlen base) entry_link (pre ++ f' :: rest) ++ drop (length (base ++ body (zlen base) entry_link (pre ++ f :: rest))) (slots st).
Proof using Hs.
  destruct (ss_slots _ _ _ _ _ Hs) as [junk E].
  exists (body (zlen base + body_size (f :: rest)) (fp_of base (f :: rest)) pre ++ junk). split.
  - rewrite E, body_app. cbn [body]. by rewrite <- !app_assoc.
  - intros f' Hsz Hl. assert (drop (length (base ++ body (zlen base) entry_link (pre ++ f :: rest))) (slots st) = junk) as ->
      by (rewrite E, app_assoc; by apply drop_app_length').
    rewrite !body_app. cbn [body body_size]. rewrite Hsz.
    replace (top (zlen base) entry_link (f' :: rest)) with (fp_of base (f :: rest))
      by (unfold fp_of; cbn [top]; unfold zlen; by rewrite Hl).
    by rewrite <- !app_assoc.
Qed.
Lemma shows_start_len : zlen (base ++ body (zlen base) entry_link rest) = start.
Proof. by rewrite zlen_app, body_len. Qed.
Lemma start_nonneg : 0 <= start.
Proof. pose proof (zlen_nonneg base). pose proof (body_size_pos rest). lia. Qed.
Lemma fp_of_cons : fp_of base (f :: rest) = start + 1 + zlen (f_args f).
Proof. done. Qed.
Lemma shows_frame_ok : frame_ok os f.
Proof using Hs. pose proof (ss_ok _ _ _ _ _ Hs) as Ho. rewrite Forall_app, Forall_cons in Ho. by destruct Ho as (_ & ? & _). Qed.

Lemma get_word j : 0 <= j < frame_size f -> get st (start + j) = zlookup (frame_words link f) j.
Proof using Hs.
  intros Hj. destruct shows_split as (tail & E & _). unfold get. rewrite E.
  rewrite zlookup_app_r by (rewrite shows_start_len; lia). rewrite shows_start_len.
  replace (start + j - start) with j by lia. apply zlookup_app_l. rewrite frame_words_len. lia.
Qed.
Lemma set_word j v f' : 0 <= j < frame_size f -> frame_words link f' = zinsert (frame_words link f) j v ->
  length (f_args f') = length (f_args f) -> frame_ok os f' ->
  exists st', set st (start + j) v = Some st' /\ stack_shows cap os base (pre ++ f' :: rest) st' /\ fp st' = fp st.
Proof using Hs.
  intros Hj Hw Hl Hok.
  assert (frame_size f' = frame_size f) as Hsz by (by rewrite <- (frame_words_len link), Hw, zlen_insert, frame_words_len).
  destruct shows_split as (tail & E & Hsp). unfold set, zset.
  pose proof start_nonneg as Hst.
  assert (start + j < zlen (slots st)) as Hlt.
  { rewrite E, !zlen_app, body_len, frame_words_len. pose proof (zlen_nonneg tail). lia. }
  destruct (Z.leb_spec 0 (start + j)); [|lia]. destruct (Z.ltb_spec (start + j) (zlen (slots st))); [|lia]. cbn [andb].
  cbn [mbind option_bind]. eexists. split; [done|]. split; [|done].
  assert (zinsert (slots st) (start + j) v = base ++ body (zlen base) entry_link (pre ++ f' :: rest) ++
            drop (length (base ++ body (zlen base) entry_link (pre ++ f :: rest))) (slots st)) as Ei.
  { rewrite <- (Hsp f' Hsz Hl), E. rewrite zinsert_app_r by (rewrite shows_start_len; lia). rewrite shows_start_len.
    replace (start + j - start) with j by lia. rewrite zinsert_app_l by (rewrite frame_words_len; lia). by rewrite <- Hw. }
  split.
  - cbn [slots]. eexists. exact Ei.
  - cbn [sp]. rewrite (ss_sp _ _ _ _ _ Hs), !body_size_app. cbn [body_size]. by rewrite Hsz.
  - cbn [slots]. rewrite zlen_insert. apply (ss_cap _ _ _ _ _ Hs).
  - intros _. cbn [Process.fp]. rewrite (ss_fp _ _ _ _ _ Hs) by (by destruct pre). unfold fp_of. rewrite !top_app.
    cbn [body_size top]. rewrite Hsz. unfold zlen. by rewrite Hl.
  - cbn [has_frame]. rewrite (ss_has _ _ _ _ _ Hs). by destruct pre.
  - pose proof (ss_ok _ _ _ _ _ Hs) as Ho. rewrite Forall_app, Forall_cons in *. by destruct Ho as (? & _ & ?).
Qed.

(** ** The parts of a frame *)
Lemma get_header k : 0 <= k < 7 -> get st (fp_of base (f :: rest) + k) = zlookup (header link f) k.
Proof using Hs.
  intros Hk. rewrite fp_of_cons. replace (start + 1 + zlen (f_args f) + k) with (start + (zlen (caller_part f) + k))
    by (unfold caller_part; rewrite zlen_cons; lia).
  pose proof (zlen_nonneg (f_temps f)). pose proof (zlen_nonneg (f_operands f)). pose proof (zlen_nonneg (f_args f)).
  rewrite get_word by (unfold frame_size, caller_part; rewrite zlen_cons; lia).
  unfold frame_words. rewrite zlookup_mid_off by lia. apply zlookup_app_l. done || (change (zlen (header link f)) with 7; lia).
Qed.
Lemma get_caller j : 0 <= j <= zlen (f_args f) -> get st (start + j) = zlookup (caller_part f) j.
Proof using Hs.
  intros Hj. pose proof (zlen_nonneg (f_temps f)). pose proof (zlen_nonneg (f_operands f)).
  rewrite get_word by (unfold frame_size; lia). unfold frame_words. apply zlookup_app_l. unfold caller_part. rewrite zlen_cons. lia.
Qed.
Lemma get_temp j : 0 <= j < zlen (f_temps f) -> get st (fp_of base (f :: rest) + FRAME_TEMPS_BASE + j) = zlookup (f_temps f) j.
Proof using Hs.
  intros Hj. rewrite fp_of_cons. change FRAME_TEMPS_BASE with 7.
  replace (start + 1 + zlen (f_args f) + 7 + j) with (start + (zlen (caller_part f) + (zlen (header link f) + j)))
    by (change (zlen (header link f)) with 7; unfold caller_part; rewrite zlen_cons; lia).
  pose proof (zlen_nonneg (f_args f)). pose proof (zlen_nonneg (f_operands f)).
  rewrite get_word by (change (zlen (header link f)) with 7; unfold frame_size, caller_part; rewrite zlen_cons; lia).
  unfold frame_words. change (zlen (header link f)) with 7. rewrite zlookup_mid_off by lia.
  change 7 with (zlen (header link f)). rewrite zlookup_mid_off by lia. apply zlookup_app_l. lia.
Qed.

Lemma zinsert_words j v (a b c : list aval) : 0 <= j < zlen b -> zinsert (a ++ b ++ c) (zlen a + j) v = a ++ zinsert b j v ++ c.
Proof. intros Hj. rewrite zinsert_app_r by lia. replace (zlen a + j - zlen a) with j by lia. by rewrite zinsert_app_l by lia. Qed.

Lemma set_header k v f' : 0 <= k < 7 -> header link f' = zinsert (header link f) k v -> caller_part f' = caller_part f ->
  f_temps f' = f_temps f -> f_operands f' = f_operands f -> frame_ok os f' ->
  exists st', set st (fp_of base (f :: rest) + k) v = Some st' /\ stack_shows cap os base (pre ++ f' :: rest) st' /\ fp st' = fp st.
Proof using Hs.
  intros Hk Hh Hc Ht Ho Hok. rewrite fp_of_cons.
  replace (start + 1 + zlen (f_args f) + k) with (start + (zlen (caller_part f) + k)) by (unfold caller_part; rewrite zlen_cons; lia).
  pose proof (zlen_nonneg (f_temps f)). pose proof (zlen_nonneg (f_operands f)). pose proof (zlen_nonneg (f_args f)).
  apply set_word; [unfold frame_size, caller_part; rewrite zlen_cons; lia| | |done].
  - unfold frame_words. rewrite Hc, Ht, Ho, Hh. rewrite zinsert_words; [done|]. by change (zlen (header link f)) with 7.
  - unfold caller_part in Hc. by injection Hc as _ ->.
Qed.

Lemma frame_ok_temps g ts : frame_ok os g -> length ts = length (f_temps g) -> frame_ok os (with_temps g ts).
Proof. intros (? & ? & m & E & Ha & Hn) Hl. split_and!; [done..|]. exists m. split_and!; [done..|]. cbn. unfold zlen in *. by rewrite Hl. Qed.
Lemma frame_ok_args g ts : frame_ok os g -> length ts = length (f_args g) -> frame_ok os (with_args g ts).
Proof. intros (? & ? & m & E & Ha & Hn) Hl. split_and!; [done..|]. exists m. split_and!; [done| |done]. cbn. unfold zlen in *. by rewrite Hl. Qed.

Lemma set_temp_slot j v : 0 <= j < zlen (f_temps f) ->
  exists st', set st (fp_of base (f :: rest) + FRAME_TEMPS_BASE + j) v = Some st' /\
    stack_shows cap os base (pre ++ with_temps f (zinsert (f_temps f) j v) :: rest) st' /\ fp st' = fp st.
Proof using Hs.
  intros Hj. rewrite fp_of_cons. change FRAME_TEMPS_BASE with 7.
  replace (start + 1 + zlen (f_args f) + 7 + j) with (start + (zlen (caller_part f ++ header link f) + j))
    by (rewrite zlen_app; change (zlen (header link f)) with 7; unfold caller_part; rewrite zlen_cons; lia).
  pose proof (zlen_nonneg (f_args f)). pose proof (zlen_nonneg (f_operands f)).
  apply set_word; [|..|done|].
  - rewrite zlen_app. change (zlen (header link f)) with 7. unfold frame_size, caller_part. rewrite zlen_cons. lia.
  - unfold frame_words at 2. rewrite app_assoc, zinsert_words by done. by rewrite <- app_assoc.
  - apply frame_ok_temps; [apply shows_frame_ok|]. pose proof (zlen_insert (f_temps f) j v). unfold zlen in *. lia.
Qed.
Lemma set_arg_slot j v : 0 <= j < zlen (f_args f) ->
  exists st', set st (fp_of base (f :: rest) - zlen (f_args f) + j) v = Some st' /\
    stack_shows cap os base (pre ++ with_args f (zinsert (f_args f) j v) :: rest) st' /\ fp st' = fp st.
Proof using Hs.
  intros Hj. rewrite fp_of_cons. replace (start + 1 + zlen (f_args f) - zlen (f_args f) + j) with (start + (1 + j)) by lia.
  pose proof (zlen_nonneg (f_temps f)). pose proof (zlen_nonneg (f_operands f)).
  assert (length (zinsert (f_args f) j v) = length (f_args f)) as Hl by (pose proof (zlen_insert (f_args f) j v); unfold zlen in *; lia).
  apply set_word; [unfold frame_size; lia| |done|apply frame_ok_args; [apply shows_frame_ok|done]].
  unfold frame_words, caller_part. cbn [with_args f_arg0 f_args]. change (f_arg0 f :: f_args f) with ([f_arg0 f] ++ f_args f).
  rewrite <- app_assoc. change 1 with (zlen [f_arg0 f]). rewrite zinsert_words by done. done.
Qed.
End shows.

(** ** The accessors of a frame *)
Section accessors.
Context {cap : Z} {os : list object} {base : list aval} {pre rest : list fr} {f : fr} {st : ProcessStack}.
Context (Hcap : cap <= 2 ^ 22) (Hs : stack_shows cap os base (pre ++ f :: rest) st).
Abbreviation at_f := (fp_of base (f :: rest)).

Lemma shows_bound : zlen base + body_size (pre ++ f :: rest) <= cap.
Proof using Hs.
  destruct (ss_slots _ _ _ _ _ Hs) as [junk E]. rewrite <- (ss_cap _ _ _ _ _ Hs), E, !zlen_app, body_len.
  pose proof (zlen_nonneg junk). lia.
Qed.
Lemma fp_of_range : 0 < at_f /\ at_f + 7 <= cap /\ -1 <= fp_of base rest < at_f.
Proof using Hs.
  pose proof shows_bound as Hb. rewrite body_size_app in Hb. cbn [body_size] in Hb. rewrite fp_of_cons.
  pose proof (zlen_nonneg base). pose proof (body_size_pos rest). pose proof (body_size_pos pre). unfold frame_size in Hb.
  pose proof (zlen_nonneg (f_args f)). pose proof (zlen_nonneg (f_temps f)). pose proof (zlen_nonneg (f_operands f)).
  split_and!; [lia..| |]; destruct rest as [|g r]; unfold fp_of; cbn [top body_size]; [lia| |lia|].
  all: pose proof (body_size_pos r); pose proof (zlen_nonneg (f_args g)); pose proof (zlen_nonneg (f_temps g));
    pose proof (zlen_nonneg (f_operands g)); unfold frame_size; lia.
Qed.
Lemma link_range : smi_range (fp_of base rest).
Proof using Hcap Hs. pose proof fp_of_range. unfold smi_range. lia. Qed.
Lemma frame_method_eq : exists m, Frame.method os st at_f = Some (f_method f, m) /\ argc m = Some (zlen (f_args f)) /\
  ntemps m = Some (zlen (f_temps f)) /\ os !! f_method f = Some (OMethod m).
Proof using Hs.
  destruct (shows_frame_ok Hs) as (_ & _ & m & E & Ha & Hn). exists m. split_and!; [|done..].
  unfold Frame.method. change FRAME_METHOD with 0. rewrite (get_header Hs 0) by lia.
  change (method_at os (ARef (f_method f)) = Some (f_method f, m)). cbn. by rewrite E.
Qed.
Lemma saved_fp_eq : Frame.saved_fp st at_f = Some (fp_of base rest).
Proof using Hcap Hs. unfold Frame.saved_fp. change FRAME_SAVED_FP with 1. rewrite (get_header Hs 1) by lia. apply smi_value_word, link_range. Qed.
Lemma saved_bci_eq : Frame.saved_bci st at_f = Some (f_bci f).
Proof using Hs.
  unfold Frame.saved_bci. change FRAME_SAVED_BCI with 2. rewrite (get_header Hs 2) by lia. destruct (shows_frame_ok Hs) as (_ & Hb & _). unfold inU in Hb.
  cbn [zlookup mbind option_bind]. change (zlookup (header (fp_of base rest) f) 2) with (Some (smi_word (f_bci f))). cbn [mbind option_bind].
  rewrite smi_value_word by (unfold smi_range; lia). cbn. f_equal. apply wrapU_id. unfold inU. lia.
Qed.
Lemma context_eq : Frame.context st at_f = Some (f_ctx f).
Proof using Hs. unfold Frame.context. change FRAME_CONTEXT with 3. by rewrite (get_header Hs 3) by lia. Qed.
Lemma receiver_eq : Frame.receiver st at_f = Some (f_receiver f).
Proof using Hs. unfold Frame.receiver. change FRAME_RECEIVER with 4. by rewrite (get_header Hs 4) by lia. Qed.
Lemma marker_eq : Frame.marker st at_f = Some (f_marker f).
Proof using Hs. unfold Frame.marker. change FRAME_MARKER with 6. by rewrite (get_header Hs 6) by lia. Qed.
Lemma serial_word_eq : Frame.serial_word st at_f = Some (Z.lor (f_serial f) (kind_bit (f_kind f))).
Proof using Hs.
  unfold Frame.serial_word. change FRAME_SERIAL with 5. rewrite (get_header Hs 5) by lia.
  change (zlookup (header (fp_of base rest) f) 5) with (Some (smi_word (Z.lor (f_serial f) (kind_bit (f_kind f))))). cbn [mbind option_bind].
  apply smi_value_word, serial_range. by destruct (shows_frame_ok Hs).
Qed.
Lemma serial_eq : Frame.serial st at_f = Some (f_serial f).
Proof using Hs.
  unfold Frame.serial. rewrite serial_word_eq. cbn. destruct (shows_frame_ok Hs) as (Hn & _). rewrite serial_bits by done.
  f_equal. by apply wrapU_id.
Qed.
Lemma marker_kind_eq : Frame.marker_kind st at_f = Some (f_kind f).
Proof using Hs.
  unfold Frame.marker_kind. rewrite serial_word_eq. cbn [mbind option_bind]. destruct (shows_frame_ok Hs) as (Hn & _). by rewrite kind_bits.
Qed.
Lemma receiver_slot_eq : Frame.receiver_slot os st at_f = Some (zlen base + body_size rest).
Proof using Hs.
  unfold Frame.receiver_slot. destruct frame_method_eq as (m & -> & Ha & _ & _). cbn [mbind option_bind]. rewrite Ha. cbn [mbind option_bind]. rewrite fp_of_cons.
  pose proof (start_nonneg (base:=base) (rest:=rest)).
  destruct (Z.ltb_spec (zlen base + body_size rest + 1 + zlen (f_args f) - zlen (f_args f) - 1) 0); [lia|]. f_equal. lia.
Qed.
Lemma get_receiver_slot : get st (zlen base + body_size rest) = Some (f_arg0 f).
Proof using Hs. pose proof (get_caller Hs 0) as E. rewrite Z.add_0_r in E. rewrite E; [done|]. pose proof (zlen_nonneg (f_args f)). lia. Qed.

(** Arguments are numbered before temporaries. *)
Definition locals (g : fr) : list aval := f_args g ++ f_temps g.
Definition with_local (g : fr) (t : Z) (v : aval) : fr :=
  if t <? zlen (f_args g) then with_args g (zinsert (f_args g) t v) else with_temps g (zinsert (f_temps g) (t - zlen (f_args g)) v).
Lemma temp_index_eq t : Frame.temp_index os st at_f t =
  if zlen (locals f) <=? t then None
  else Some (if t <? zlen (f_args f) then at_f - zlen (f_args f) + t else at_f + FRAME_TEMPS_BASE + (t - zlen (f_args f))).
Proof using Hs.
  unfold Frame.temp_index. destruct frame_method_eq as (m & -> & Ha & Hn & _). cbn [mbind option_bind]. rewrite Ha, Hn. cbn [mbind option_bind].
  unfold locals. rewrite zlen_app. destruct (_ <=? t); [done|]. destruct (t <? zlen (f_args f)); [|done].
  pose proof fp_of_range. rewrite fp_of_cons in *. pose proof (start_nonneg (base:=base) (rest:=rest)).
  destruct (Z.ltb_spec (zlen base + body_size rest + 1 + zlen (f_args f)) (zlen (f_args f))); [lia|done].
Qed.
Lemma temp_eq t : 0 <= t -> Frame.temp os st at_f t = zlookup (locals f) t.
Proof using Hs.
  intros Ht. unfold Frame.temp. rewrite temp_index_eq. destruct (Z.leb_spec (zlen (locals f)) t) as [Hl|Hl].
  { cbn. unfold zlookup, zlen in *. destruct (Z.ltb_spec t 0); [done|]. rewrite lookup_ge_None_2; [done|lia]. }
  cbn [mbind option_bind]. unfold locals in *. rewrite zlen_app in Hl. destruct (Z.ltb_spec t (zlen (f_args f))).
  - rewrite fp_of_cons. replace (zlen base + body_size rest + 1 + zlen (f_args f) - zlen (f_args f) + t)
      with (zlen base + body_size rest + (1 + t)) by lia.
    rewrite (get_caller Hs) by lia. rewrite zlookup_app_l by lia. unfold caller_part.
    change (f_arg0 f :: f_args f) with ([f_arg0 f] ++ f_args f). change 1 with (zlen [f_arg0 f]). by rewrite zlookup_mid_off.
  - rewrite (get_temp Hs) by lia. by rewrite zlookup_app_r by lia.
Qed.
Lemma set_temp_eq t v : 0 <= t < zlen (locals f) -> exists st', Frame.set_temp os st at_f t v = Some st' /\
  stack_shows cap os base (pre ++ with_local f t v :: rest) st' /\ fp st' = fp st.
Proof using Hs.
  intros Ht. unfold Frame.set_temp. rewrite temp_index_eq. destruct (Z.leb_spec (zlen (locals f)) t); [lia|]. cbn [mbind option_bind].
  unfold locals, with_local in *. rewrite zlen_app in *. destruct (Z.ltb_spec t (zlen (f_args f))).
  - apply (set_arg_slot Hs). lia.
  - apply (set_temp_slot Hs). lia.
Qed.
Lemma set_context_eq c : exists st', Frame.set_context st at_f c = Some st' /\
  stack_shows cap os base (pre ++ with_context f c :: rest) st' /\ fp st' = fp st.
Proof using Hs. apply (set_header Hs 3); [lia|done..|apply (shows_frame_ok Hs)]. Qed.
Lemma clear_marker_eq v : exists st', Frame.clear_marker st at_f v = Some st' /\
  stack_shows cap os base (pre ++ with_marker f (f_kind f) v :: rest) st' /\ fp st' = fp st.
Proof using Hs. apply (set_header Hs 6); [lia|done..|apply (shows_frame_ok Hs)]. Qed.
End accessors.
Lemma set_marker_eq {cap os base pre rest f st} m k : cap <= 2 ^ 22 -> stack_shows cap os base (pre ++ f :: rest) st ->
  exists st', Frame.set_marker st (fp_of base (f :: rest)) m k = Some st' /\
    stack_shows cap os base (pre ++ with_marker f k m :: rest) st' /\ fp st' = fp st.
Proof.
  intros Hcap Hs. unfold Frame.set_marker. rewrite (serial_word_eq Hs). cbn [mbind option_bind].
  pose proof (shows_frame_ok Hs) as Hok. pose proof (proj1 Hok) as Hn. rewrite serial_bits by done.
  change (match k with Ensure => 0 | IfCurtailed => FRAME_MARKER_KIND_MASK end) with (kind_bit k).
  rewrite smi_eq by by apply serial_range. cbn [mbind option_bind].
  change FRAME_SERIAL with 5. change FRAME_MARKER with 6.
  destruct (set_header Hs 5 (smi_word (Z.lor (f_serial f) (kind_bit k))) (with_marker f k (f_marker f))) as (st1 & -> & Hs1 & E1); [lia|done..|].
  cbn [mbind option_bind]. destruct (set_header Hs1 6 m (with_marker f k m)) as (st2 & E2 & Hs2 & E3); [lia|done..|].
  exists st2. split_and!; [exact E2|done|]. by rewrite E3.
Qed.

(** ** The words in use *)
Record in_use (cap : Z) (img : list aval) (st : ProcessStack) : Prop := {
  iu_slots : exists junk, slots st = img ++ junk; iu_sp : sp st = zlen img; iu_cap : zlen (slots st) = cap }.
Definition image (base : list aval) (fs : list fr) : list aval := base ++ body (zlen base) entry_link fs.
Lemma image_len base fs : zlen (image base fs) = zlen base + body_size fs.
Proof. unfold image. by rewrite zlen_app, body_len. Qed.
Lemma image_cons base f r : image base (f :: r) = image base r ++ frame_words (fp_of base r) f.
Proof. unfold image. cbn [body]. by rewrite app_assoc. Qed.
Lemma shows_in_use cap os base fs st : stack_shows cap os base fs st -> in_use cap (image base fs) st.
Proof.
  intros [[junk E] Hsp Hc _ _ _]. split; [exists junk|by rewrite image_len|done]. by rewrite E; unfold image; rewrite <- app_assoc.
Qed.
Lemma in_use_shows cap os base fs st : in_use cap (image base fs) st -> (fs <> [] -> fp st = fp_of base fs) ->
  has_frame st = match fs with [] => false | _ => true end -> Forall (frame_ok os) fs -> stack_shows cap os base fs st.
Proof.
  intros [[junk E] Hsp Hc] Hfp Hh Ho. split; [exists junk| |done..]; [by rewrite E; unfold image; rewrite <- app_assoc|by rewrite Hsp, image_len].
Qed.
Lemma in_use_le cap img st : in_use cap img st -> zlen img <= cap.
Proof. intros [[junk E] _ <-]. rewrite E, zlen_app. pose proof (zlen_nonneg junk). lia. Qed.
Lemma in_use_push cap img st v : in_use cap img st -> zlen img < cap ->
  exists st', try_push st v = Some (Some st') /\ in_use cap (img ++ [v]) st' /\ fp st' = fp st /\ has_frame st' = has_frame st.
Proof.
  intros [[junk E] Hsp Hc] Hr. unfold try_push. destruct (Z.leb_spec (zlen (slots st)) (sp st)); [lia|].
  unfold set, zset. rewrite Hsp. pose proof (zlen_nonneg img). destruct (Z.leb_spec 0 (zlen img)); [|lia].
  destruct (Z.ltb_spec (zlen img) (zlen (slots st))); [|lia]. cbn [andb mbind option_bind]. eexists. split; [done|]. split; [|done].
  destruct junk as [|x junk]; [rewrite E, app_nil_r in Hc; lia|]. split; cbn [slots sp set_sp].
  - exists junk. rewrite E, zinsert_app_r by lia. rewrite Z.sub_diag. cbn. by rewrite <- app_assoc.
  - by rewrite zlen_snoc.
  - by rewrite zlen_insert.
Qed.
Lemma in_use_full cap img st v : in_use cap img st -> cap <= zlen img -> try_push st v = Some None.
Proof. intros [_ Hsp Hc] Hr. unfold try_push. destruct (Z.leb_spec (zlen (slots st)) (sp st)); [done|lia]. Qed.
Lemma in_use_truncate cap img rest st : in_use cap (img ++ rest) st -> in_use cap img (set_sp st (zlen img)).
Proof. intros [[junk E] Hsp Hc]. split; [exists (rest ++ junk)|done|done]. cbn. by rewrite E, <- app_assoc. Qed.
Lemma in_use_get cap img st i : in_use cap img st -> i < zlen img -> get st i = zlookup img i.
Proof. intros [[junk E] _ _] Hi. unfold get. rewrite E. by apply zlookup_app_l. Qed.
Lemma in_use_set cap img st i v : in_use cap img st -> 0 <= i < zlen img -> exists st', set st i v = Some st' /\
  in_use cap (zinsert img i v) st' /\ fp st' = fp st /\ has_frame st' = has_frame st.
Proof.
  intros [[junk E] Hsp Hc] Hi. unfold set. rewrite zset_ok by (rewrite E, zlen_app; pose proof (zlen_nonneg junk); lia).
  cbn. eexists. split; [done|]. split; [|done]. split; cbn.
  - exists junk. by rewrite E, zinsert_app_l by lia.
  - by rewrite zlen_insert.
  - by rewrite zlen_insert.
Qed.
Lemma in_use_activate cap img st n : in_use cap img st -> in_use cap img (activate_frame st n).
Proof. by intros []. Qed.
Lemma in_use_deactivate cap img st : in_use cap img st -> in_use cap img (deactivate st).
Proof. by intros []. Qed.

Definition set_operands (f : fr) (ops : list aval) : fr :=
  MkFr (f_method f) (f_arg0 f) (f_args f) (f_bci f) (f_ctx f) (f_receiver f) (f_serial f) (f_kind f) (f_marker f) (f_temps f) ops.
Lemma image_operands base f r ops : image base (set_operands f ops :: r) = image base (set_operands f [] :: r) ++ ops.
Proof.
  rewrite !image_cons. unfold frame_words, set_operands, caller_part, header. cbn [f_method f_arg0 f_args f_bci f_ctx f_receiver f_serial f_kind f_marker f_temps f_operands].
  by rewrite app_nil_r, <- !app_assoc.
Qed.
Lemma set_operands_id f : set_operands f (f_operands f) = f.
Proof. by destruct f. Qed.
Lemma frame_ok_operands os f ops : frame_ok os f -> frame_ok os (set_operands f ops).
Proof. done. Qed.
Lemma fp_of_operands base f r ops : fp_of base (set_operands f ops :: r) = fp_of base (f :: r).
Proof. done. Qed.
End FrameList.
