(* ===== verification/MachineLogic.v ===== *)
(** Running the machine's computations: a weakest-precondition predicate for its
    monad, whose rules the proofs about activations and returns are made of. *)
From S2P Require Import Prelude Oops Packed Heap ObjectGraph Process FrameList Activation.
#[local] Open Scope Z_scope.

Module MachineLogic.
Import ObjectGraph Process FrameList Activation.
#[local] Open Scope process_scope.

(** [c] from [s] does not panic; it ends in [Q], or the process exits in [E]. *)
Definition wp {A} (E : Z -> Prop) (c : M A) (s : vm) (Q : A -> vm -> Prop) : Prop :=
  match c s with Some (Done (a, s')) => Q a s' | Some (FatalExit n) => E n | None => False end.

Section rules.
Context (E : Z -> Prop).
Lemma wp_ret {A} (a : A) s (Q : A -> vm -> Prop) : Q a s -> wp E (ret a) s Q.
Proof. done. Qed.
Lemma wp_bind {A B} (c : M A) (f : A -> M B) s Q : wp E c s (fun a s' => wp E (f a) s' Q) -> wp E (bind c f) s Q.
Proof. unfold wp, bind. by destruct (c s) as [[n|[a s']]|]. Qed.
Lemma wp_mono {A} (c : M A) s (Q Q' : A -> vm -> Prop) : wp E c s Q -> (forall a s', Q a s' -> Q' a s') -> wp E c s Q'.
Proof. unfold wp. intros Hc HQ. destruct (c s) as [[n|[a s']]|]; auto. Qed.
Lemma wp_read {A} (f : vm -> option A) a s (Q : A -> vm -> Prop) : f s = Some a -> Q a s -> wp E (read f) s Q.
Proof. unfold wp, read. by intros ->. Qed.
Lemma wp_write (f : vm -> vm) s (Q : unit -> vm -> Prop) : Q tt (f s) -> wp E (write f) s Q.
Proof. done. Qed.
Lemma wp_update (f : vm -> option ProcessStack) st s (Q : unit -> vm -> Prop) :
  f s = Some st -> Q tt (with_stack s st) -> wp E (update f) s Q.
Proof. unfold wp, update. by intros ->. Qed.
Lemma wp_nil s (Q : aval -> vm -> Prop) : Q (nil_obj s) s -> wp E nil s Q.
Proof. done. Qed.
Lemma wp_alloc o s (Q : nat -> vm -> Prop) : Q (length (objs s)) (with_objs s (objs s ++ [o])) -> wp E (alloc o) s Q.
Proof. done. Qed.
Lemma wp_set_object id o s (Q : unit -> vm -> Prop) : Q tt (with_objs s (<[id := o]> (objs s))) -> wp E (set_object id o) s Q.
Proof. done. Qed.
Lemma wp_alloc_frame_serial s (Q : Z -> vm -> Prop) : inU 32 (next_frame_serial s + 1) ->
  Q (next_frame_serial s) (with_serial s (next_frame_serial s + 1)) -> wp E alloc_frame_serial s Q.
Proof. intros Hn HQ. unfold wp, alloc_frame_serial. by destruct (decide _). Qed.
Lemma wp_drop_top n s (Q : unit -> vm -> Prop) : n <= sp (stack s) ->
  Q tt (with_stack s (set_sp (stack s) (sp (stack s) - n))) -> wp E (drop_top n) s Q.
Proof. intros Hn HQ. unfold wp, drop_top, update. by destruct (Z.ltb_spec (sp (stack s)) n); [lia|]. Qed.

(** A pushed value extends the words in use; a full stack exits. *)
Definition pushed (cap : Z) (img : list aval) (s : vm) (st : ProcessStack) : Prop :=
  in_use cap img st /\ fp st = fp (stack s) /\ has_frame st = has_frame (stack s).
Lemma wp_push cap img v s (Q : unit -> vm -> Prop) : in_use cap img (stack s) -> (cap <= zlen img -> E 70) ->
  (forall st, pushed cap (img ++ [v]) s st -> Q tt (with_stack s st)) -> wp E (push v) s Q.
Proof.
  intros Hi Hfull HQ. unfold wp, push. destruct (decide (zlen img < cap)) as [Hlt|Hge].
  - destruct (in_use_push _ _ _ v Hi Hlt) as (st & -> & Hst & Hf & Hh). cbn. by apply HQ.
  - rewrite (in_use_full _ _ _ v Hi) by lia. cbn. apply Hfull. lia.
Qed.
Lemma wp_push_all cap vs : forall img s (Q : unit -> vm -> Prop), in_use cap img (stack s) ->
  (cap < zlen img + zlen vs -> E 70) ->
  (forall st, pushed cap (img ++ vs) s st -> Q tt (with_stack s st)) -> wp E (push_all vs) s Q.
Proof.
  induction vs as [|v vs IH]; intros img s Q Hi Hfull HQ; cbn [push_all].
  - apply wp_ret. specialize (HQ (stack s)). replace (with_stack s (stack s)) with s in HQ by by destruct s.
    apply HQ. split; [by rewrite app_nil_r|done].
  - rewrite zlen_cons in Hfull. pose proof (zlen_nonneg vs). apply wp_bind. apply (wp_push cap img); [done|intros; apply Hfull; lia|].
    intros st (Hst & Hf & Hh). apply (IH (img ++ [v])); [done|rewrite zlen_snoc; intros; apply Hfull; lia|].
    cbn [with_stack stack]. intros st' (Hst' & Hf' & Hh').
    change (with_stack (with_stack s st) st') with (with_stack s st'). apply HQ.
    split_and!; [by rewrite <- app_assoc in Hst'|cbn in *; congruence..].
Qed.
Lemma wp_push_smi cap img n s (Q : unit -> vm -> Prop) : smi_range n -> in_use cap img (stack s) -> (cap <= zlen img -> E 70) ->
  (forall st, pushed cap (img ++ [smi_word n]) s st -> Q tt (with_stack s st)) -> wp E (push_smi n) s Q.
Proof. intros Hn Hi Hfull HQ. apply wp_bind. eapply wp_read; [by apply smi_eq|]. by eapply wp_push. Qed.
Lemma wp_truncate cap img rest s (Q : unit -> vm -> Prop) n : in_use cap (img ++ rest) (stack s) -> n = zlen img ->
  (forall st, pushed cap img s st -> Q tt (with_stack s st)) -> wp E (truncate n) s Q.
Proof. intros Hi -> HQ. eapply wp_update; [done|]. apply HQ. split; [by eapply in_use_truncate|done]. Qed.
End rules.

(** The exits of a computation that needs [k] slots. *)
Definition overflow (cap k : Z) : Z -> Prop := fun n => n = 70 /\ cap < k.
Lemma overflow_le cap k k' n : k <= k' -> overflow cap k n -> overflow cap k' n.
Proof. unfold overflow. intros Hk [-> Hc]. lia. Qed.
End MachineLogic.
