(* ===== verification/Unwind.v ===== *)
(** Returns, non-local returns and the handlers of [ensure:] and
    [ifCurtailed:] ([src/src/interpreter/unwind.rs]).

    Loops along the chain of saved frame pointers take one step more than the
    frame pointer they start from, which every well-formed chain allows. *)
From S2P Require Import Prelude Oops Packed Heap ObjectGraph Process Activation.
#[local] Open Scope Z_scope.

Module Unwind.
Import ObjectGraph Process Activation.
#[local] Open Scope process_scope.

Definition BCI_RESUME_ENSURE_RET : Z := 0x7FFF0001.
Definition BCI_RESUME_UNWIND : Z := 0x7FFF0002.
Definition BCI_RESUME_CANNOT_RETURN : Z := 0x7FFF0003.
Definition ENTRY_FP : Z := u64 ENTRY_FRAME_SENTINEL.

Inductive MarkerClass := NoMarker | Handler (closure : aval) | Token (elems : list aval).
Definition classify (os : list object) (nl m : aval) : option MarkerClass :=
  if decide (m = nl) then Some NoMarker
  else match closure_at os m, array_at os m with
       | Some _, _ => Some (Handler m)
       | None, Some (_, l) => Some (Token l)
       | None, None => None
       end.
Definition marker_class (s : vm) (fp : Z) : option MarkerClass := m ← Frame.marker (stack s) fp; classify (objs s) (nil_obj s) m.

Inductive UnwindStep := RanHandler | ReturnedFromHome (r : option aval) | CannotReturn | Escaped.

(** ** Scanning and popping frames *)
Definition home_is_live (s : vm) (home : HomeRef.home_ref) : option bool :=
  if negb (HomeRef.proc home =? 0) then Some false
  else if sp (stack s) <=? HomeRef.fp home + FRAME_MARKER then Some false
  else
    v ← get (stack s) (HomeRef.fp home + FRAME_SERIAL);
    Some (match smi_value v with
          | Some w => u32 (Z.land w FRAME_SERIAL_MASK) =? HomeRef.serial home
          | None => false
          end).

Inductive ScanResult := Marked (fp : Z) (handler : aval) | ReachedHome | CrossedBoundary (fp : Z).
Fixpoint innermost_marked_frame (n : nat) (s : vm) (fp home_fp : Z) : option ScanResult :=
  match n with
  | O => None
  | S n =>
      if fp =? home_fp then Some ReachedHome
      else
        c ← marker_class s fp;
        match c with
        | Handler h => Some (Marked fp h)
        | _ =>
            saved ← Frame.saved_fp (stack s) fp;
            if saved =? ENTRY_FRAME_SENTINEL then Some (CrossedBoundary fp) else innermost_marked_frame n s (u64 saved) home_fp
        end
  end.

(** The loop of [pop_frames_above]: the target is on the chain. *)
Fixpoint find_frame (n : nat) (st : ProcessStack) (fp target_fp : Z) : option unit :=
  match n with
  | O => None
  | S n =>
      if fp =? target_fp then Some tt
      else saved ← Frame.saved_fp st fp; if saved =? ENTRY_FRAME_SENTINEL then None else find_frame n st (u64 saved) target_fp
  end.
Definition chain_fuel (fp : Z) : nat := S (Z.to_nat fp).
Definition pop_frames_above (target_fp : Z) : M unit :=
  let! _ := read (fun s => find_frame (chain_fuel (fp (stack s))) (stack s) (fp (stack s)) target_fp) in
  update (fun s => Some (activate_frame (stack s) target_fp)) ;;
  let! n := read (fun s => '(_, m) ← Frame.method (objs s) (stack s) target_fp; ntemps m) in
  truncate (target_fp + FRAME_TEMPS_BASE + n).

Definition alloc_unwind_token (home : HomeRef.home_ref) (value : aval) : M nat :=
  let! home_smi := read (fun _ => AWord <$> HomeRef.pack_home_ref home) in
  push value ;;
  let! n := nil in
  let! token := alloc (OArray [n; n]) in
  let! value := pop_value in
  set_object token (OArray [home_smi; value]) ;;
  ret token.

Section unwind.
Context (other_primitives : Z -> option (list aval -> M PrimResult)).
Context (dispatch_ffi_primitive : nat -> Z -> M PrimitiveOutcome).
(** The method a receiver's klass finds for a selector; the error that ends a
    run that understands no message. *)
Context (lookup : vm -> aval -> aval -> option nat) (sel_cannot_return : aval).
Context (dnu_fallback : M Empty_set).

Definition expect_activated (r : PrimResult) : M unit := match r with Activated => ret tt | _ => panic end.

Definition cannot_return (closure value : aval) : M (option UnwindStep) :=
  push closure ;;
  push value ;;
  let! found := read (fun s => Some (lookup s closure sel_cannot_return)) in
  match found with
  | Some m =>
      set_bci BCI_RESUME_CANNOT_RETURN ;;
      activate_method other_primitives dispatch_ffi_primitive m 1 ;;
      ret None
  | None => let! e := dnu_fallback in match (e : Empty_set) with end
  end.
Definition current_closure (s : vm) : option aval :=
  i ← Frame.receiver_slot (objs s) (stack s) (fp (stack s)); v ← get (stack s) i; _ ← closure_at (objs s) v; Some v.
Definition cannot_return_current_closure (value : aval) : M (option UnwindStep) :=
  let! cl := read current_closure in cannot_return cl value.

Definition intercept_ensure_return (fp : Z) (handler result : aval) : M (option aval) :=
  let! n := nil in
  update (fun s => Frame.clear_marker (stack s) fp n) ;;
  push result ;;
  push handler ;;
  set_bci BCI_RESUME_ENSURE_RET ;;
  let! r := activate_block_interp handler 0 in
  expect_activated r ;;
  ret None.

Definition park_nlr (home : HomeRef.home_ref) (value : aval) (closure : option aval) : M UnwindStep :=
  let! parked := read (fun s => Some (nlr_state s)) in
  match parked with
  | Some _ => panic
  | None => write (fun s => with_nlr s (Some (MkNlr home value closure))) ;; ret Escaped
  end.

(** The cycle of returns, the innermost being [do_return]. *)
Section continuation.
Context (do_return : aval -> M (option aval)).

Definition continue_unwind (home : HomeRef.home_ref) (value : aval) (originating_closure : option aval) : M UnwindStep :=
  let! fp0 := read (fun s => Some (fp (stack s))) in
  if fp0 =? ENTRY_FP then park_nlr home value originating_closure
  else
    let! live := read (fun s => home_is_live s home) in
    if negb live then
      if HomeRef.proc home =? 1 then panic
      else
        let! cl := read (fun s => Some (match originating_closure with
                                        | Some c => match closure_at (objs s) c with Some _ => Some c | None => None end
                                        | None => None
                                        end)) in
        let! nested := (match cl with Some c => cannot_return c value | None => cannot_return_current_closure value end) in
        ret (match nested with None => CannotReturn | Some step => step end)
    else
      let! found := read (fun s => innermost_marked_frame (chain_fuel fp0) s fp0 (HomeRef.fp home)) in
      match found with
      | ReachedHome =>
          pop_frames_above (HomeRef.fp home) ;;
          let! r := do_return value in
          ret (ReturnedFromHome r)
      | CrossedBoundary entry_fp =>
          let! base := read (fun s => Frame.receiver_slot (objs s) (stack s) entry_fp) in
          truncate base ;;
          update (fun s => Some (deactivate (stack s))) ;;
          park_nlr home value originating_closure
      | Marked mfp handler =>
          pop_frames_above mfp ;;
          let! token := alloc_unwind_token home value in
          update (fun s => Frame.set_marker (stack s) mfp (ARef token) Ensure) ;;
          push handler ;;
          set_bci BCI_RESUME_UNWIND ;;
          let! r := activate_block_interp handler 0 in
          expect_activated r ;;
          ret RanHandler
      end.

Definition resume_ensure_ret : M (option aval) := drop_top 1 ;; let! result := pop_value in do_return result.

Definition resume_unwind : M (option aval) :=
  drop_top 1 ;;
  let! fp := read (fun s => Some (fp (stack s))) in
  let! token := read (fun s => marker_class s fp) in
  match token with
  | Token elems =>
      let! n := nil in
      update (fun s => Frame.clear_marker (stack s) fp n) ;;
      let! home := read (fun _ => h ← elems !! 0%nat; match h with AWord w => HomeRef.unpack_home_ref <$> SmallInt.try_from w | ARef _ => None end) in
      let! value := read (fun _ => elems !! 1%nat) in
      let! step := continue_unwind home value None in
      ret (match step with
           | ReturnedFromHome r => r
           | RanHandler | CannotReturn => None
           | Escaped => Some (AWord NLR_SENTINEL)
           end)
  | _ => panic
  end.

Definition pop_and_deliver (result : aval) : M (option aval) :=
  let! fp := read (fun s => Some (fp (stack s))) in
  let! base := read (fun s => Frame.receiver_slot (objs s) (stack s) fp) in
  let! saved_fp := read (fun s => Frame.saved_fp (stack s) fp) in
  let! saved_bci := read (fun s => Frame.saved_bci (stack s) fp) in
  update (fun s => set (stack s) base result) ;;
  truncate (base + 1) ;;
  if saved_fp =? ENTRY_FRAME_SENTINEL then
    truncate base ;;
    update (fun s => Some (deactivate (stack s))) ;;
    ret (Some result)
  else
    update (fun s => Some (activate_frame (stack s) (u64 saved_fp))) ;;
    if saved_bci =? BCI_RESUME_ENSURE_RET then resume_ensure_ret
    else if saved_bci =? BCI_RESUME_UNWIND then resume_unwind
    else if saved_bci =? BCI_RESUME_CANNOT_RETURN then fatal_exit 1
    else
      let! m := read (fun s => Frame.method (objs s) (stack s) (Process.fp (stack s))) in
      write (fun s => with_regs s (Some m.1) saved_bci) ;;
      ret None.

Definition return_from_frame (result : aval) : M (option aval) :=
  let! fp := read (fun s => Some (fp (stack s))) in
  let! c := read (fun s => marker_class s fp) in
  match c with
  | NoMarker => pop_and_deliver result
  | Token _ => panic
  | Handler h =>
      let! kind := read (fun s => Frame.marker_kind (stack s) fp) in
      match kind with
      | IfCurtailed => let! n := nil in update (fun s => Frame.clear_marker (stack s) fp n) ;; pop_and_deliver result
      | Ensure => intercept_ensure_return fp h result
      end
  end.
End continuation.

(** Each turn of the cycle has left a frame. *)
Fixpoint do_return_fuel (n : nat) (result : aval) : M (option aval) :=
  match n with O => panic | S n => return_from_frame (do_return_fuel n) result end.
Definition do_return (result : aval) : M (option aval) := fun s => do_return_fuel (chain_fuel (fp (stack s))) result s.
Definition unwind (home : HomeRef.home_ref) (value : aval) (originating_closure : option aval) : M UnwindStep :=
  continue_unwind do_return home value originating_closure.

(** ** Errors *)
Section errors.
Context (dispatch : M aval).

Definition run_block_to_completion (closure : aval) : M unit :=
  let! c := the_closure closure in
  let! blk := the_method (ARef (c_method c.2)) in
  let! a := read (fun _ => argc blk.2) in
  if negb (a =? 0) then ret tt
  else
    let! saved := read (fun s => Some (save_activation (stack s))) in
    let! saved_regs := read (fun s => Some (regs_method s, regs_bci s)) in
    push closure ;;
    update (fun s => Some (MkStack (slots (stack s)) (sp (stack s)) ENTRY_FP (has_frame (stack s)))) ;;
    set_bci 0 ;;
    let! r := activate_block_interp closure 0 in
    (match r with Activated => dispatch ;; ret tt | _ => ret tt end) ;;
    update (fun s => Some (restore_activation (stack s) saved)) ;;
    write (fun s => with_regs s saved_regs.1 saved_regs.2).

(** The handlers of the frames from [fp] on, innermost first; their markers
    are cleared. *)
Definition saved_fp_opt (st : ProcessStack) (fp : Z) : option Z :=
  if zlen (slots st) <=? fp + FRAME_SAVED_FP then None else v ← get st (fp + FRAME_SAVED_FP); smi_value v.
Fixpoint collect_handlers (n : nat) (fp : Z) : M (list aval) :=
  match n with
  | O => panic
  | S n =>
      let! c := read (fun s => marker_class s fp) in
      let! h := (match c with
                 | Handler h => let! nl := nil in update (fun s => Frame.clear_marker (stack s) fp nl) ;; ret [h]
                 | _ => ret []
                 end) in
      let! saved := read (fun s => Some (saved_fp_opt (stack s) fp)) in
      match saved with
      | None => ret h
      | Some saved_fp =>
          if saved_fp =? ENTRY_FRAME_SENTINEL then ret h else let! hs := collect_handlers n (u64 saved_fp) in ret (h ++ hs)
      end
  end.
Fixpoint run_blocks (hs : list aval) : M unit :=
  match hs with
  | [] => ret tt
  | h :: hs =>
      let! c := read (fun s => Some (closure_at (objs s) h)) in
      (match c with Some _ => run_block_to_completion h | None => ret tt end) ;;
      run_blocks hs
  end.

Definition run_curtailment_blocks_on_error : M unit :=
  let! already := read (fun s => Some (curtailing_on_error s)) in
  if already then ret tt
  else
    write (fun s => with_curtailing s true) ;;
    let! fp := read (fun s => Some (fp (stack s))) in
    let! handlers := (if fp =? ENTRY_FP then ret [] else collect_handlers (chain_fuel fp) fp) in
    run_blocks handlers ;;
    write (fun s => with_curtailing s false).
End errors.
End unwind.
End Unwind.
