(* ===== verification/ActivationCorrect.v ===== *)
(** Activations add a frame: methods and blocks, their contexts and captured
    values, in the terms of [FrameList]. *)
From S2P Require Import Prelude Oops Packed Heap ObjectGraph Process FrameList Activation MachineLogic.
#[local] Open Scope Z_scope.

Module ActivationCorrect.
Import ObjectGraph Process FrameList Activation MachineLogic.
#[local] Open Scope process_scope.

Definition new_frame (id : nat) (a0 : aval) (args : list aval) (bci : Z) (recv : aval) (serial : Z) (nl : aval) (nt : Z) : fr :=
  MkFr id a0 args bci nl recv serial Ensure nl (replicate (Z.to_nat nt) nl) [].

(** One push of a sequence whose pushes so far are in the hypotheses. *)
Ltac wp_pushed H := let st := fresh "st" in let Hi := fresh "Hi" in let Hf := fresh "Hf" in let Hh := fresh "Hh" in
  intros st (Hi & Hf & Hh); cbn [with_stack with_serial stack objs next_frame_serial nil_obj] in *.
Ltac room := rewrite ?zlen_app, ?zlen_snoc, ?zlen_cons, ?zlen_nil in *; intros; match goal with HE : _ -> _ 70 |- _ => apply HE; lia end.

Section frames.
Context (E : Z -> Prop) (cap : Z).

Lemma wp_push_fixed_slots s img a0 args id nt recv saved_fp saved_bci receiver ntf (Q : unit -> vm -> Prop) :
  in_use cap (img ++ a0 :: args) (stack s) ->
  (forall st rest, in_use cap ((img ++ a0 :: args) ++ rest) st -> receiver (with_stack s st) = Some recv) ->
  (forall s', objs s' = objs s -> ntf s' = Some nt) -> 0 <= nt ->
  smi_range saved_fp -> inU 32 saved_bci -> inU 32 (next_frame_serial s) -> inU 32 (next_frame_serial s + 1) ->
  (cap < zlen img + 8 + zlen args + nt -> E 70) ->
  (forall st, in_use cap (img ++ frame_words saved_fp (new_frame id a0 args saved_bci recv (next_frame_serial s) (nil_obj s) nt)) st ->
     fp st = zlen img + 1 + zlen args -> has_frame st = true -> Q tt (with_serial (with_stack s st) (next_frame_serial s + 1))) ->
  wp E (push_fixed_slots id saved_fp saved_bci receiver ntf) s Q.
Proof.
  intros Hi Hrecv Hnt Hnt0 Hsf Hsb Hn Hn1 Hroom HQ. unfold push_fixed_slots. pose proof (zlen_nonneg args) as Ha0.
  assert (zlen (img ++ a0 :: args) = zlen img + 1 + zlen args) as Hlen by (rewrite zlen_app, zlen_cons; lia).
  assert (sp (stack s) = zlen img + 1 + zlen args) as Hsp by (rewrite (iu_sp _ _ _ Hi); exact Hlen).
  assert (i64 saved_bci = saved_bci) as Hb by (apply wrapS_id; [lia|unfold inU, inS in *; lia]).
  apply wp_bind. eapply wp_read; [done|]. apply wp_bind. eapply wp_push; [exact Hi|room|]. wp_pushed Hi.
  apply wp_bind. eapply wp_push_smi; [done|cbn; eassumption|room|]. wp_pushed Hi.
  apply wp_bind. rewrite Hb. eapply wp_push_smi; [unfold smi_range, inU in *; lia|cbn; eassumption|room|]. wp_pushed Hi.
  apply wp_bind, wp_nil. apply wp_bind. eapply wp_push; [cbn; eassumption|room|]. wp_pushed Hi.
  apply wp_bind. eapply wp_read with (a := recv).
  { change (receiver (with_stack s st2) = Some recv). eapply Hrecv. rewrite <- !app_assoc. rewrite <- !app_assoc in Hi3. exact Hi3. }
  apply wp_bind. eapply wp_push; [cbn; eassumption|room|]. wp_pushed Hi.
  apply wp_bind. apply wp_alloc_frame_serial; [done|]. apply wp_bind. cbn [next_frame_serial with_stack].
  eapply wp_push_smi; [unfold smi_range, inU in *; lia|cbn; eassumption|room|]. wp_pushed Hi.
  apply wp_bind. eapply wp_push; [cbn; eassumption|room|]. wp_pushed Hi.
  apply wp_bind. eapply wp_read; [by apply Hnt|].
  apply wp_bind. eapply wp_push_all; [cbn; eassumption| |].
  { unfold zlen at 2. rewrite length_replicate. room. } wp_pushed Hi.
  eapply wp_update; [done|]. rewrite Hsp.
  change (Q tt (with_serial (with_stack s (activate_frame st6 (zlen img + 1 + zlen args))) (next_frame_serial s + 1))).
  apply HQ; [|done..]. apply in_use_activate. replace (img ++ frame_words _ _) with
    (((((((((img ++ a0 :: args) ++ [ARef id]) ++ [smi_word saved_fp]) ++ [smi_word saved_bci]) ++ [nil_obj s]) ++ [recv]) ++
       [smi_word (next_frame_serial s)]) ++ [nil_obj s]) ++ replicate (Z.to_nat nt) (nil_obj s)); [exact Hi7|].
  unfold frame_words, caller_part, header, new_frame. cbn [f_method f_arg0 f_args f_bci f_ctx f_receiver f_serial f_kind f_marker f_temps f_operands kind_bit].
  rewrite Z.lor_0_r, app_nil_r, <- !app_assoc. done.
Qed.

Lemma wp_push_frame s img a0 args id m nt saved_fp saved_bci (Q : unit -> vm -> Prop) :
  in_use cap (img ++ a0 :: args) (stack s) -> method_at (objs s) (ARef id) = Some (id, m) -> ntemps m = Some nt -> 0 <= nt ->
  smi_range saved_fp -> inU 32 saved_bci -> inU 32 (next_frame_serial s) -> inU 32 (next_frame_serial s + 1) ->
  (cap < zlen img + 8 + zlen args + nt -> E 70) ->
  (forall st, in_use cap (img ++ frame_words saved_fp (new_frame id a0 args saved_bci a0 (next_frame_serial s) (nil_obj s) nt)) st ->
     fp st = zlen img + 1 + zlen args -> has_frame st = true -> Q tt (with_serial (with_stack s st) (next_frame_serial s + 1))) ->
  wp E (push_frame id (zlen args) saved_fp saved_bci) s Q.
Proof.
  intros Hi Hm Hnt Hnt0 Hsf Hsb Hn Hn1 Hroom HQ. unfold push_frame. apply wp_bind. eapply wp_read; [done|].
  eapply wp_push_fixed_slots with (recv := a0); try done; [|intros s' ->; rewrite Hm; exact Hnt].
  intros st rest Hst. cbn [stack with_stack]. rewrite (iu_sp _ _ _ Hi), zlen_app, zlen_cons.
  pose proof (zlen_nonneg rest). pose proof (zlen_nonneg args).
  replace (zlen img + (1 + zlen args) - zlen args - 1) with (zlen img) by lia.
  rewrite (in_use_get _ _ _ _ Hst) by (rewrite !zlen_app, zlen_cons; lia). rewrite <- !app_assoc. cbn [app]. by rewrite zlookup_mid.
Qed.
End frames.

(** ** Methods and the heap *)
(** A method keeps everything but its counters. *)
Definition object_le (o o' : object) : Prop :=
  match o, o' with
  | OMethod m, OMethod m' => m_flags m' = m_flags m /\ m_primitive m' = m_primitive m /\ m_code m' = m_code m /\ m_literals m' = m_literals m
  | OClosure c, OClosure c' => c' = c
  | OContext x, OContext x' => length (x_slots x') = length (x_slots x) /\ x_home_hint x' = x_home_hint x
  | OArray l, OArray l' => length l' = length l
  | OFields l, OFields l' => length l' = length l
  | _, _ => False
  end.
Definition heap_le (os os' : list object) : Prop := forall id o, os !! id = Some o -> exists o', os' !! id = Some o' /\ object_le o o'.
#[export] Instance object_le_pre : PreOrder object_le.
Proof. split; [by intros []; cbn|]. intros [] [] []; cbn; intuition congruence. Qed.
#[export] Instance heap_le_pre : PreOrder heap_le.
Proof.
  split; [intros os id o; by exists o|]. intros a b c Hab Hbc id o Ho. destruct (Hab _ _ Ho) as (o' & Ho' & Hle).
  destruct (Hbc _ _ Ho') as (o'' & Ho'' & Hle'). exists o''. split; [done|by etrans].
Qed.
Lemma heap_le_app os ys : heap_le os (os ++ ys).
Proof. intros id o Ho. exists o. split; [by apply lookup_app_l_Some|done]. Qed.
Lemma heap_le_prefix os os' : os `prefix_of` os' -> heap_le os os'.
Proof. intros [ys ->]. apply heap_le_app. Qed.
Lemma heap_le_insert os id o o' : os !! id = Some o -> object_le o o' -> heap_le os (<[id := o']> os).
Proof.
  intros Ho Hle k x Hk. destruct (decide (k = id)) as [->|Hne].
  - rewrite Ho in Hk. injection Hk as <-. exists o'. split; [|done]. apply list_lookup_insert_eq. by eapply lookup_lt_Some.
  - exists x. by rewrite list_lookup_insert_ne.
Qed.
Lemma frame_ok_le os os' f : heap_le os os' -> frame_ok os f -> frame_ok os' f.
Proof.
  intros Hle (? & ? & m & E & Ha & Hn). split_and!; [done..|]. destruct (Hle _ _ E) as (o' & E' & Hm). destruct o' as [m'| | | |]; try done.
  exists m'. unfold argc, ntemps in *. destruct Hm as (-> & _). done.
Qed.
Lemma shows_le cap os os' base fs st : heap_le os os' -> stack_shows cap os base fs st -> stack_shows cap os' base fs st.
Proof. intros Hle [? ? ? ? ? Ho]. split; try done. eapply Forall_impl; [exact Ho|]. intros f. by apply frame_ok_le. Qed.
Lemma closure_at_le os os' v x : heap_le os os' -> closure_at os v = Some x -> closure_at os' v = Some x.
Proof.
  intros Hle. destruct v as [w|id]; [done|]. cbn. destruct (os !! id) as [o|] eqn:E; [|done]. destruct (Hle _ _ E) as (o' & -> & Ho).
  destruct o, o'; try done. cbn in Ho. by subst.
Qed.

(** The flags of a method are read or are not together. *)
Lemma flags_total m a : argc m = Some a -> exists nt hc bl pf cc nc,
  ntemps m = Some nt /\ has_ctx m = Some hc /\ is_block m = Some bl /\ prim_fails m = Some pf /\ captures_ctx m = Some cc /\ nctx m = Some nc.
Proof.
  unfold argc, ntemps, has_ctx, is_block, prim_fails, captures_ctx, nctx, MethodFlags.argc, MethodFlags.ntemps, MethodFlags.has_ctx,
    MethodFlags.is_block, MethodFlags.prim_fails, MethodFlags.captures_ctx, MethodFlags.nctx.
  destruct (MethodFlags.flags_value (m_flags m)); [|done]. intros _. cbn. by repeat eexists.
Qed.

(** ** Contexts *)
Section contexts.
Context (E : Z -> Prop) (cap : Z) (Hcap : cap <= 2 ^ 22).
Definition fresh_context (enclosing : aval) (nc : Z) (nl : aval) : object := OContext (MkContext enclosing (replicate (Z.to_nat nc) nl)).

Lemma wp_maybe_alloc_context s base f r id m enclosing nc (hc : bool) (Q : unit -> vm -> Prop) :
  stack_shows cap (objs s) base (f :: r) (stack s) -> method_at (objs s) (ARef id) = Some (id, m) ->
  has_ctx m = Some hc -> nctx m = Some nc -> (hc = false -> Q tt s) ->
  (hc = true -> forall st, let os := objs s ++ [fresh_context enclosing nc (nil_obj s)] in
     stack_shows cap os base (with_context f (ARef (length (objs s))) :: r) st -> fp st = fp (stack s) ->
     Q tt (with_stack (with_objs s os) st)) ->
  wp E (maybe_alloc_context id (fp_of base (f :: r)) enclosing) s Q.
Proof using Hcap.
  intros Hs Hm Hhc Hnc Hno Hyes. unfold maybe_alloc_context. apply wp_bind. eapply wp_read; [rewrite Hm; exact Hhc|].
  destruct hc; cbn [negb]; [|by apply wp_ret, Hno]. apply wp_bind. eapply wp_read; [rewrite Hm; exact Hnc|].
  apply wp_bind. unfold alloc_context. apply wp_bind, wp_nil, wp_alloc. apply wp_bind. eapply wp_read.
  { cbn [objs with_objs context_at]. rewrite lookup_app_r by lia. by rewrite Nat.sub_diag. }
  cbn [snd x_slots]. apply wp_bind, wp_set_object. cbn [objs with_objs].
  assert (<[length (objs s):=OContext (MkContext enclosing (replicate (Z.to_nat nc) (nil_obj s)))]>
            (objs s ++ [OContext (MkContext (nil_obj s) (replicate (Z.to_nat nc) (nil_obj s)))]) =
          objs s ++ [fresh_context enclosing nc (nil_obj s)]) as ->.
  { rewrite insert_app_r_alt by lia. by rewrite Nat.sub_diag. }
  pose proof (shows_le _ _ _ _ _ _ (heap_le_app _ [fresh_context enclosing nc (nil_obj s)]) Hs) as Hs'.
  destruct (set_context_eq (pre := []) Hs' (ARef (length (objs s)))) as (st & Est & Hst & Hfp).
  eapply wp_update; [exact Est|]. by apply (Hyes eq_refl st).
Qed.
End contexts.

(** ** Activation *)
(** Receiver and arguments lie on top of the words of the frames. *)
Record ready (cap : Z) (s : vm) (base : list aval) (fs : list fr) (a0 : aval) (args : list aval) : Prop := {
  rd_use : in_use cap (image base fs ++ a0 :: args) (stack s);
  rd_fp : i64 (fp (stack s)) = fp_of base fs;
  rd_ok : Forall (frame_ok (objs s)) fs;
  rd_bci : inU 32 (regs_bci s);
  rd_serial : inU 32 (next_frame_serial s) /\ inU 32 (next_frame_serial s + 1) }.

Lemma fp_of_bound cap os base fs st : cap <= 2 ^ 22 -> Forall (frame_ok os) fs -> in_use cap (image base fs) st -> smi_range (fp_of base fs).
Proof.
  intros Hcap Ho Hi. pose proof (in_use_le _ _ _ Hi) as Hl. rewrite image_len in Hl. unfold smi_range, fp_of.
  destruct fs as [|f r]; cbn [top]; [lia|]. cbn [body_size] in Hl. pose proof (zlen_nonneg base). pose proof (body_size_pos r).
  pose proof (zlen_nonneg (f_args f)). unfold frame_size in Hl. pose proof (zlen_nonneg (f_temps f)). pose proof (zlen_nonneg (f_operands f)). lia.
Qed.
Lemma ready_link cap s base fs a0 args : cap <= 2 ^ 22 -> ready cap s base fs a0 args -> smi_range (fp_of base fs).
Proof.
  intros Hcap [Hu _ Ho _ _]. eapply fp_of_bound; [done|done|]. by eapply in_use_truncate.
Qed.

(** The machine after an activation: a frame more, its method current. *)
Definition activated (cap : Z) (s : vm) (base : list aval) (fs : list fr) (os : list object) (f : fr) (s' : vm) : Prop :=
  exists st, s' = with_regs (with_serial (with_stack (with_objs s os) st) (next_frame_serial s + 1)) (Some (f_method f)) 0 /\
    stack_shows cap os base (f :: fs) st.
Definition context_after (hc : bool) (os : list object) (enclosing : aval) : aval := if hc then ARef (length os) else enclosing.
Definition heap_after (hc : bool) (os : list object) (enclosing : aval) (nc : Z) (nl : aval) : list object :=
  if hc then os ++ [fresh_context enclosing nc nl] else os.
Definition activation_frame (s : vm) (id : nat) (a0 : aval) (args : list aval) (ctx recv : aval) (temps : list aval) : fr :=
  MkFr id a0 args (regs_bci s) ctx recv (next_frame_serial s) Ensure (nil_obj s) temps [].

Section activation.
Context (E : Z -> Prop) (cap : Z) (Hcap : cap <= 2 ^ 22).

Lemma wp_activate_body s base fs a0 args id m nt nc (hc : bool) (Q : unit -> vm -> Prop) :
  ready cap s base fs a0 args -> method_at (objs s) (ARef id) = Some (id, m) ->
  argc m = Some (zlen args) -> ntemps m = Some nt -> 0 <= nt -> has_ctx m = Some hc -> nctx m = Some nc ->
  (cap < zlen base + body_size fs + 8 + zlen args + nt -> E 70) ->
  (forall s', activated cap s base fs (heap_after hc (objs s) (nil_obj s) nc (nil_obj s))
     (activation_frame s id a0 args (context_after hc (objs s) (nil_obj s)) a0 (replicate (Z.to_nat nt) (nil_obj s))) s' -> Q tt s') ->
  wp E (activate_body id (zlen args)) s Q.
Proof using Hcap.
  intros Hr Hm Ha Hnt Hnt0 Hhc Hnc Hroom HQ. pose proof (ready_link _ _ _ _ _ _ Hcap Hr) as Hlink. destruct Hr as [Hu Hfp Ho Hb [Hn Hn1]].
  unfold activate_body. apply wp_bind. eapply wp_read; [done|]. apply wp_bind. eapply wp_read; [done|]. apply wp_bind. rewrite Hfp.
  eapply wp_push_frame; [done..|rewrite image_len; exact Hroom|]. intros st Hst Hstfp Hsth.
  set (f := new_frame id a0 args (regs_bci s) a0 (next_frame_serial s) (nil_obj s) nt).
  assert (frame_ok (objs s) f) as Hf.
  { split_and!; [done..|]. exists m. cbn in Hm. destruct (objs s !! id) as [[]|] eqn:Eo; try done. injection Hm as ->. split_and!; [done..|].
    cbn. unfold zlen. rewrite length_replicate. rewrite Hnt. f_equal. lia. }
  assert (stack_shows cap (objs s) base (f :: fs) st) as Hshow.
  { apply in_use_shows; [by rewrite image_cons| |done|by constructor]. intros _. rewrite Hstfp, image_len. done. }
  apply wp_bind, wp_nil. apply wp_bind. eapply wp_read; [done|]. cbn [stack with_serial with_stack].
  rewrite Hstfp, image_len. change (zlen base + body_size fs + 1 + zlen args) with (fp_of base (f :: fs)). apply wp_bind.
  eapply wp_maybe_alloc_context; [done|exact Hshow|exact Hm|done..| |].
  - intros ->. apply wp_write. apply HQ. exists st. split; [|exact Hshow]. by destruct s.
  - intros -> st' os' Hs' _. apply wp_write. apply HQ. exists st'. by split.
Qed.

(** ** Blocks *)
Lemma with_local_temp f k v : 0 <= k -> with_local f (zlen (f_args f) + k) v = with_temps f (zinsert (f_temps f) k v).
Proof. intros Hk. unfold with_local. destruct (Z.ltb_spec (zlen (f_args f) + k) (zlen (f_args f))); [lia|]. do 2 f_equal. lia. Qed.
Lemma with_temps_twice f a b : with_temps (with_temps f a) b = with_temps f b.
Proof. done. Qed.

Lemma wp_copy_captures base r vs : forall done_ rest s f (Q : unit -> vm -> Prop),
  f_temps f = done_ ++ rest -> (length vs <= length rest)%nat -> stack_shows cap (objs s) base (f :: r) (stack s) ->
  (forall st, stack_shows cap (objs s) base (with_temps f (done_ ++ vs ++ drop (length vs) rest) :: r) st -> Q tt (with_stack s st)) ->
  wp E (copy_captures (fp_of base (f :: r)) (zlen (f_args f) + zlen done_) vs) s Q.
Proof using Hcap.
  induction vs as [|v vs IH]; intros done_ rest s f Q Ht Hl Hs HQ; cbn [copy_captures].
  - apply wp_ret. replace s with (with_stack s (stack s)) by by destruct s. apply HQ. cbn. rewrite drop_0, <- Ht.
    by replace (with_temps f (f_temps f)) with f by by destruct f.
  - destruct rest as [|x rest]; [cbn in Hl; lia|]. cbn [length] in Hl. apply wp_bind.
    pose proof (zlen_nonneg done_) as Hd. pose proof (zlen_nonneg (f_args f)) as Ha.
    destruct (set_temp_eq (pre := []) Hs (zlen (f_args f) + zlen done_) v) as (st & Est & Hst & _).
    { unfold locals. rewrite Ht, !zlen_app, zlen_cons. pose proof (zlen_nonneg rest). lia. }
    eapply wp_update; [exact Est|]. rewrite with_local_temp in Hst by done. rewrite Ht, zinsert_app_r in Hst by lia.
    rewrite Z.sub_diag in Hst. change (zinsert (x :: rest) 0 v) with (v :: rest) in Hst.
    set (f1 := with_temps f (done_ ++ v :: rest)) in *.
    change (fp_of base (f :: r)) with (fp_of base (f1 :: r)). change (f_args f) with (f_args f1).
    replace (zlen (f_args f1) + zlen done_ + 1) with (zlen (f_args f1) + zlen (done_ ++ [v])) by (rewrite zlen_snoc; lia).
    apply (IH (done_ ++ [v]) rest); [by unfold f1; cbn; rewrite <- app_assoc|lia|exact Hst|].
    intros st' Hst'. change (with_stack (with_stack s st) st') with (with_stack s st'). apply HQ.
    rewrite <- app_assoc in Hst'. exact Hst'.
Qed.

(** A closure whose captures fit the block it activates. *)
Record closure_fits (os : list object) (c : closure) (m : method) (cc : bool) (self enclosing : aval) (vals : list aval) (nt : Z) (nl : aval) : Prop := {
  cf_method : method_at os (ARef (c_method c)) = Some (c_method c, m);
  cf_captures : captures_ctx m = Some cc;
  cf_ntemps : ntemps m = Some nt;
  cf_copied : c_copied c = self :: (if cc then [enclosing] else []) ++ vals;
  cf_enclosing : cc = false -> enclosing = nl;
  cf_fit : zlen vals <= nt }.

Lemma wp_activate_block_interp s base fs cl c args m nt nc (hc cc : bool) self enclosing vals (Q : PrimResult -> vm -> Prop) :
  ready cap s base fs (ARef cl) args -> closure_at (objs s) (ARef cl) = Some (cl, c) ->
  closure_fits (objs s) c m cc self enclosing vals nt (nil_obj s) -> argc m = Some (zlen args) -> has_ctx m = Some hc -> nctx m = Some nc ->
  (cap < zlen base + body_size fs + 8 + zlen args + nt -> E 70) ->
  (forall s', activated cap s base fs (heap_after hc (objs s) enclosing nc (nil_obj s))
     (activation_frame s (c_method c) (ARef cl) args (context_after hc (objs s) enclosing) self
        (vals ++ replicate (Z.to_nat (nt - zlen vals)) (nil_obj s))) s' -> Q Activated s') ->
  wp E (activate_block_interp (ARef cl) (zlen args)) s Q.
Proof using Hcap.
  intros Hr Hc [Hm Hcc Hnt Hcop Henc Hfit] Ha Hhc Hnc Hroom HQ. pose proof (ready_link _ _ _ _ _ _ Hcap Hr) as Hlink.
  destruct Hr as [Hu Hfp Ho Hb [Hn Hn1]]. pose proof (zlen_nonneg vals) as Hv0. unfold activate_block_interp.
  apply wp_bind. eapply wp_read; [exact Hc|]. apply wp_bind. cbn [snd]. eapply wp_read; [exact Hm|]. apply wp_bind. cbn [fst snd].
  eapply wp_read; [exact Ha|]. rewrite Z.eqb_refl. cbn [negb]. apply wp_bind. eapply wp_read; [done|].
  apply wp_bind. eapply wp_read; [done|]. apply wp_bind. eapply wp_read; [done|]. apply wp_bind. rewrite Hfp.
  eapply wp_push_fixed_slots with (recv := self) (nt := nt);
    [exact Hu|intros; by rewrite Hcop|done|lia|done..|rewrite image_len; exact Hroom|].
  intros st Hst Hstfp Hsth.
  set (f := new_frame (c_method c) (ARef cl) args (regs_bci s) self (next_frame_serial s) (nil_obj s) nt) in *.
  assert (frame_ok (objs s) f) as Hf.
  { split_and!; [done..|]. exists m. cbn in Hm. destruct (objs s !! c_method c) as [[]|] eqn:Eo; try done. injection Hm as ->. split_and!; [done..|].
    cbn. unfold zlen. rewrite length_replicate. rewrite Hnt. f_equal. lia. }
  assert (stack_shows cap (objs s) base (f :: fs) st) as Hshow.
  { apply in_use_shows; [by rewrite image_cons| |done|by constructor]. intros _. by rewrite Hstfp, image_len. }
  rewrite (iu_sp _ _ _ Hu), zlen_app, zlen_cons, image_len.
  replace (zlen base + body_size fs + (1 + zlen args)) with (fp_of base (f :: fs)) by (rewrite fp_of_cons; change (f_args f) with args; lia).
  apply wp_bind. eapply wp_read; [exact Hcc|]. apply wp_bind. eapply wp_read with (a := enclosing).
  { rewrite Hcop. destruct cc; [done|]. cbn. by rewrite Henc. }
  apply wp_bind. eapply wp_read; [exact Hhc|]. apply wp_bind.
  set (os' := heap_after hc (objs s) enclosing nc (nil_obj s)).
  assert (heap_le (objs s) os') as Hle by (unfold os', heap_after; destruct hc; [apply heap_le_app|done]).
  assert (forall st', stack_shows cap os' base (with_context f (context_after hc (objs s) enclosing) :: fs) st' ->
    wp E (let! c := read (fun s => i ← Frame.receiver_slot (objs s) (stack s) (fp_of base (f :: fs)); v ← get (stack s) i; closure_at (objs s) v) in
          let! blk := the_method (ARef (c_method c.2)) in
          let! vs := read (fun _ => value_captures c.2 cc) in
          copy_captures (fp_of base (f :: fs)) (zlen args) vs ;; write (fun s => with_regs s (Some blk.1) 0) ;; ret Activated)
      (with_stack (with_objs (with_serial (with_stack s st) (next_frame_serial s + 1)) os') st') Q) as Hrest.
  { intros st' Hs'. set (f1 := with_context f (context_after hc (objs s) enclosing)) in *.
    change (fp_of base (f :: fs)) with (fp_of base (f1 :: fs)).
    apply wp_bind. eapply wp_read with (a := (cl, c)).
    { cbn [objs stack with_stack with_objs]. rewrite (receiver_slot_eq (pre := []) Hs'). cbn [mbind option_bind].
      rewrite (get_receiver_slot (pre := []) Hs'). cbn [mbind option_bind]. by apply (closure_at_le _ _ _ _ Hle). }
    cbn [snd]. assert (exists m', method_at os' (ARef (c_method c)) = Some (c_method c, m')) as (m' & Hm').
    { cbn in Hm. destruct (objs s !! c_method c) as [o|] eqn:Eo; [|done]. destruct (Hle _ _ Eo) as (o' & Eo' & Hoo). cbn. rewrite Eo'.
      destruct o as [| | | |], o' as [| | | |]; try done. by eexists. }
    apply wp_bind. eapply wp_read; [exact Hm'|]. cbn [fst]. apply wp_bind. eapply wp_read with (a := vals).
    { unfold value_captures. rewrite Hcop. destruct cc; cbn; (case_decide as Hd; [done|cbn in Hd; lia]). }
    apply wp_bind. replace (zlen args) with (zlen (f_args f1) + zlen (@Datatypes.nil aval)) by (change (f_args f1) with args; rewrite zlen_nil; lia).
    eapply (wp_copy_captures base fs vals [] (f_temps f1) _ f1); [done| |exact Hs'|].
    { unfold f1; cbn. rewrite length_replicate. unfold zlen in *. lia. }
    intros st2 Hs2. apply wp_bind, wp_write. apply wp_ret. apply HQ. exists st2. split; [done|]. cbn [app] in Hs2.
    replace (drop (length vals) (f_temps f1)) with (replicate (Z.to_nat (nt - zlen vals)) (nil_obj s)) in Hs2; [exact Hs2|].
    unfold f1; cbn. rewrite drop_replicate. f_equal. unfold zlen. lia. }
  destruct hc; cbn [heap_after context_after] in *.
  - eapply wp_maybe_alloc_context; [done|exact Hshow|exact Hm|done..|]. cbn [objs with_serial with_stack nil_obj]. intros _ st' Hs' _. by apply Hrest.
  - assert (stack_shows cap (objs s) base (f :: fs) st) as Hs1 by done.
    destruct (set_context_eq (pre := []) Hs1 enclosing) as (st' & Est & Hst' & _). eapply wp_update; [exact Est|].
    cbn [objs with_serial with_stack]. specialize (Hrest st' Hst').
    replace (with_stack (with_serial (with_stack s st) (next_frame_serial s + 1)) st') with
      (with_stack (with_objs (with_serial (with_stack s st) (next_frame_serial s + 1)) os') st'); [exact Hrest|]. by destruct s.
Qed.

(** ** A closure that can be activated, whatever its captures *)
Lemma ntemps_bound m nt : ntemps m = Some nt -> 0 <= nt <= 255.
Proof.
  unfold ntemps, MethodFlags.ntemps. destruct (MethodFlags.flags_value (m_flags m)) as [v|]; [|done]. cbn [mbind option_bind].
  intros [= <-]. change METHOD_FLAGS_NTEMPS_MASK with (Z.shiftl (Z.ones 8) 4). change METHOD_FLAGS_NTEMPS_SHIFT with 4.
  rewrite Z.shiftr_land, Z.shiftr_shiftl_l by lia. change (Z.shiftl (Z.ones 8) (4 - 4)) with (Z.ones 8). rewrite Z.land_ones by lia.
  pose proof (Z.mod_pos_bound (Z.shiftr v 4) (2 ^ 8) ltac:(lia)). lia.
Qed.
Definition activatable (os : list object) (nl : aval) (cl : nat) (n : Z) : Prop :=
  exists c m (cc : bool) self enclosing vals nt, closure_at os (ARef cl) = Some (cl, c) /\
    closure_fits os c m cc self enclosing vals nt nl /\ argc m = Some n.
Definition fresh_frame (s : vm) (cl : nat) (args : list aval) (f : fr) : Prop :=
  f_arg0 f = ARef cl /\ f_args f = args /\ f_bci f = regs_bci s /\ f_marker f = nil_obj s /\ f_operands f = [] /\ f_serial f = next_frame_serial s.
Definition max_frame : Z := 8 + 255.

Lemma wp_activate_closure s base fs cl args (Q : PrimResult -> vm -> Prop) :
  ready cap s base fs (ARef cl) args -> activatable (objs s) (nil_obj s) cl (zlen args) ->
  (cap < zlen base + body_size fs + zlen args + max_frame -> E 70) ->
  (forall f os s', fresh_frame s cl args f -> objs s `prefix_of` os -> activated cap s base fs os f s' -> Q Activated s') ->
  wp E (activate_block_interp (ARef cl) (zlen args)) s Q.
Proof using Hcap.
  intros Hr (c & m & cc & self & enclosing & vals & nt & Hc & Hfit & Ha) Hroom HQ.
  destruct (flags_total _ _ Ha) as (nt' & hc & bl & pf & cc' & nc & _ & Hhc & _ & _ & _ & Hnc).
  pose proof (ntemps_bound _ _ (cf_ntemps _ _ _ _ _ _ _ _ _ Hfit)) as Hb.
  eapply wp_activate_block_interp; [done..| |]; [intros; apply Hroom; unfold max_frame; lia|].
  intros s' Hs'. eapply HQ; [| |exact Hs']; [by split_and!|]. unfold heap_after. destruct hc; [by eexists|done].
Qed.

(** [ensure:] and [ifCurtailed:] run the protected block in a frame of its own,
    which holds the handler. *)
Lemma wp_prim_ensure_like s base fs p h kind (Q : PrimResult -> vm -> Prop) :
  in_use cap (image base fs ++ [ARef p; ARef h]) (stack s) -> i64 (fp (stack s)) = fp_of base fs -> Forall (frame_ok (objs s)) fs ->
  inU 32 (regs_bci s) -> inU 32 (next_frame_serial s) /\ inU 32 (next_frame_serial s + 1) ->
  activatable (objs s) (nil_obj s) p 0 -> activatable (objs s) (nil_obj s) h 0 ->
  (cap < zlen base + body_size fs + max_frame -> E 70) ->
  (forall f os s', fresh_frame s p [] f -> objs s `prefix_of` os -> activated cap s base fs os (with_marker f kind (ARef h)) s' -> Q Activated s') ->
  wp E (prim_ensure_like [ARef p; ARef h] kind) s Q.
Proof using Hcap.
  intros Hu Hfp Ho Hb Hn Hp Hh Hroom HQ. unfold prim_ensure_like.
  pose proof Hp as (c & m & cc & self & enclosing & vals & nt & Hc & Hfit & Ha).
  pose proof Hh as (c' & m' & cc' & self' & enclosing' & vals' & nt' & Hc' & Hfit' & Ha').
  apply wp_bind. eapply wp_read; [cbn [lookup list_lookup mbind option_bind]; by rewrite Hc|].
  apply wp_bind. eapply wp_read; [cbn [lookup list_lookup mbind option_bind]; by rewrite Hc'|].
  do 2 apply wp_bind. eapply wp_read; [exact Hc|]. apply wp_bind. eapply wp_read; [apply (cf_method _ _ _ _ _ _ _ _ _ Hfit)|].
  eapply wp_read; [exact Ha|]. cbn [Z.eqb negb]. apply wp_bind.
  apply wp_bind. eapply wp_read; [exact Hc'|]. apply wp_bind. eapply wp_read; [apply (cf_method _ _ _ _ _ _ _ _ _ Hfit')|].
  eapply wp_read; [exact Ha'|]. cbn [Z.eqb negb orb]. apply wp_bind.
  assert (sp (stack s) = zlen (image base fs ++ [ARef p]) + 1) as Hsp.
  { rewrite (iu_sp _ _ _ Hu), !zlen_app. change (zlen [ARef p; ARef h]) with 2. change (zlen [ARef p]) with 1. lia. }
  pose proof (zlen_nonneg (image base fs ++ [ARef p])) as Hpos.
  apply wp_drop_top; [lia|]. replace (sp (stack s) - 1) with (zlen (image base fs ++ [ARef p])) by lia.
  change [ARef p; ARef h] with ([ARef p] ++ [ARef h]) in Hu. rewrite app_assoc in Hu. apply in_use_truncate in Hu.
  apply wp_bind. change 0 with (zlen (@Datatypes.nil aval)). eapply wp_activate_closure; [by split|exact Hp|rewrite zlen_nil; intros; apply Hroom; lia|].
  intros f os s' Hf Hle (st & -> & Hst). cbn [stack with_stack with_objs objs nil_obj next_frame_serial] in *.
  apply wp_bind. destruct (set_marker_eq (pre := []) (ARef h) kind Hcap Hst) as (st' & Est & Hst' & _).
  eapply wp_update.
  { cbn [stack with_regs with_serial with_stack]. rewrite (ss_fp _ _ _ _ _ Hst) by done. exact Est. }
  apply wp_ret. eapply HQ; [exact Hf|exact Hle|]. exists st'. by split.
Qed.
End activation.
End ActivationCorrect.
