(* ===== verification/UnwindCorrect.v ===== *)
(** Returns and non-local returns in the terms of [FrameList]: a return
    delivers its value to the caller, and every armed handler that an unwind
    passes runs once, innermost first. *)
From S2P Require Import Prelude Oops Packed Heap ObjectGraph Process FrameList Activation MachineLogic ActivationCorrect Unwind.
#[local] Open Scope Z_scope.

Module UnwindCorrect.
Import ObjectGraph Process FrameList Activation MachineLogic ActivationCorrect Unwind.
#[local] Open Scope process_scope.

Definition push_operand (f : fr) (v : aval) : fr := set_operands f (f_operands f ++ [v]).
Definition class_of (os : list object) (nl : aval) (f : fr) : option MarkerClass := classify os nl (f_marker f).
Definition unmarked (nl : aval) (f : fr) : Prop := f_marker f = nl.
(** The handlers that an unwind past these frames runs, in order. *)
Definition armed (os : list object) (nl : aval) (f : fr) : list aval := match class_of os nl f with Some (Handler h) => [h] | _ => [] end.
Definition pending (os : list object) (nl : aval) (fs : list fr) : list aval := fs ≫= armed os nl.

Section steps.
Context (E : Z -> Prop) (cap : Z) (Hcap : cap <= 2 ^ 22).

(** ** Operands *)
Lemma shows_operands os base f r ops st : stack_shows cap os base (set_operands f ops :: r) st -> forall st' ops',
  in_use cap (image base (set_operands f [] :: r) ++ ops') st' -> fp st' = fp st -> has_frame st' = true ->
  stack_shows cap os base (set_operands f ops' :: r) st'.
Proof.
  intros Hs st' ops' Hi Hf Hh. apply in_use_shows; [by rewrite image_operands| |done|].
  - intros _. rewrite Hf. apply (ss_fp _ _ _ _ _ Hs). done.
  - pose proof (ss_ok _ _ _ _ _ Hs) as Ho. rewrite Forall_cons in *. exact Ho.
Qed.
Lemma shows_use os base f ops r st : stack_shows cap os base (set_operands f ops :: r) st -> in_use cap (image base (set_operands f [] :: r) ++ ops) st.
Proof. intros Hs. rewrite <- image_operands. by eapply shows_in_use. Qed.
Lemma wp_push_operand s base f r v (Q : unit -> vm -> Prop) : stack_shows cap (objs s) base (f :: r) (stack s) ->
  (cap <= zlen base + body_size (f :: r) -> E 70) ->
  (forall st, stack_shows cap (objs s) base (push_operand f v :: r) st -> Q tt (with_stack s st)) -> wp E (push v) s Q.
Proof.
  intros Hs Hroom HQ. eapply wp_push; [exact (shows_in_use _ _ _ _ _ Hs)|by rewrite image_len|]. intros st (Hi & Hf & Hh). apply HQ.
  rewrite <- (set_operands_id f) in Hs. unfold push_operand. eapply shows_operands; [exact Hs| |exact Hf|by rewrite Hh, (ss_has _ _ _ _ _ Hs)].
  rewrite app_assoc, <- image_operands, set_operands_id. exact Hi.
Qed.
Lemma wp_pop_value s base f r v ops (Q : aval -> vm -> Prop) : stack_shows cap (objs s) base (set_operands f (ops ++ [v]) :: r) (stack s) ->
  (forall st, stack_shows cap (objs s) base (set_operands f ops :: r) st -> Q v (with_stack s st)) -> wp E pop_value s Q.
Proof.
  intros Hs HQ. pose proof (shows_use _ _ _ _ _ _ Hs) as Hi. rewrite app_assoc in Hi.
  pose proof (iu_sp _ _ _ Hi) as Hsp. rewrite zlen_snoc, zlen_app, image_len in Hsp. cbn [body_size] in Hsp.
  unfold wp, pop_value, pop. rewrite (ss_has _ _ _ _ _ Hs). unfold ntemps_at_fp. rewrite (ss_fp _ _ _ _ _ Hs) by done.
  change FRAME_METHOD with 0. rewrite (get_header (pre := []) Hs 0) by lia. change (zlookup (header (fp_of base r) (set_operands f (ops ++ [v]))) 0) with (Some (ARef (f_method f))).
  cbn [mbind option_bind]. destruct (method_at_ok _ _ (shows_frame_ok (pre := []) Hs)) as (m & Em & _ & Hn).
  cbn [f_method set_operands] in Em. rewrite Em, Hn. cbn [mbind option_bind f_temps set_operands]. rewrite fp_of_cons. cbn [f_args set_operands].
  unfold frame_size in Hsp. cbn [f_args f_temps f_operands set_operands] in Hsp. change (zlen (@Datatypes.nil aval)) with 0 in Hsp. pose proof (zlen_nonneg ops). change FRAME_TEMPS_BASE with 7.
  destruct (Z.leb_spec (sp (stack s)) (zlen base + body_size r + 1 + zlen (f_args f) + 7 + zlen (f_temps f))); [lia|].
  assert (sp (stack s) - 1 = zlen (image base (set_operands f [] :: r) ++ ops)) as ->.
  { rewrite (iu_sp _ _ _ Hi), zlen_snoc. lia. }
  rewrite (in_use_get _ _ _ _ Hi) by (rewrite zlen_snoc; lia). rewrite zlookup_mid. cbn [mbind option_bind].
  apply HQ. eapply shows_operands; [exact Hs|by eapply in_use_truncate|done|]. cbn. by rewrite (ss_has _ _ _ _ _ Hs).
Qed.
Lemma wp_drop_operand s base f r v ops (Q : unit -> vm -> Prop) : stack_shows cap (objs s) base (set_operands f (ops ++ [v]) :: r) (stack s) ->
  (forall st, stack_shows cap (objs s) base (set_operands f ops :: r) st -> Q tt (with_stack s st)) -> wp E (drop_top 1) s Q.
Proof.
  intros Hs HQ. pose proof (shows_use _ _ _ _ _ _ Hs) as Hi. rewrite app_assoc in Hi.
  pose proof (iu_sp _ _ _ Hi) as Hsp. rewrite zlen_snoc in Hsp. pose proof (zlen_nonneg (image base (set_operands f [] :: r) ++ ops)).
  apply wp_drop_top; [lia|]. apply HQ. replace (sp (stack s) - 1) with (zlen (image base (set_operands f [] :: r) ++ ops)) by lia.
  eapply shows_operands; [exact Hs|by eapply in_use_truncate|done|]. cbn. by rewrite (ss_has _ _ _ _ _ Hs).
Qed.
Lemma push_operand_eq f v : push_operand f v = set_operands f (f_operands f ++ [v]).
Proof. done. Qed.

(** ** Markers *)
Lemma marker_class_eq s base pre f r : stack_shows cap (objs s) base (pre ++ f :: r) (stack s) ->
  marker_class s (fp_of base (f :: r)) = class_of (objs s) (nil_obj s) f.
Proof. intros Hs. unfold marker_class. by rewrite (marker_eq Hs). Qed.

(** ** Delivery *)
Lemma wp_pop_and_deliver_entry k s base f result (Q : option aval -> vm -> Prop) prims ffi lookup sel dnu :
  stack_shows cap (objs s) base [f] (stack s) ->
  (forall st, stack_shows cap (objs s) base [] st -> Q (Some result) (with_stack s st)) ->
  wp E (pop_and_deliver prims ffi lookup sel dnu k result) s Q.
Proof using Hcap.
  intros Hs HQ. unfold pop_and_deliver. pose proof (ss_fp _ _ _ _ _ Hs ltac:(done)) as Hfp.
  apply wp_bind. eapply wp_read; [by rewrite Hfp|]. apply wp_bind. eapply wp_read; [apply (receiver_slot_eq (pre := []) Hs)|].
  apply wp_bind. eapply wp_read; [apply (saved_fp_eq (pre := []) Hcap Hs)|]. apply wp_bind. eapply wp_read; [apply (saved_bci_eq (pre := []) Hs)|].
  pose proof (shows_in_use _ _ _ _ _ Hs) as Hi. cbn [body_size]. rewrite Z.add_0_r.
  rewrite image_cons in Hi. change (image base []) with (base ++ @Datatypes.nil aval) in Hi. rewrite app_nil_r in Hi.
  destruct (in_use_set _ _ _ (zlen base) result Hi) as (st & Est & Hst & _).
  { pose proof (zlen_nonneg base). rewrite zlen_app, frame_words_len. pose proof (frame_size_pos f). lia. }
  apply wp_bind. eapply wp_update; [exact Est|]. rewrite zinsert_app_r in Hst by lia.
  apply wp_bind. unfold truncate. eapply wp_update; [done|]. cbn [fp_of top]. change (-1 =? ENTRY_FRAME_SENTINEL) with true. cbn iota.
  apply wp_bind. eapply wp_update; [done|]. apply wp_bind. eapply wp_update; [done|]. apply wp_ret.
  set (st' := deactivate _). change (Q (Some result) (with_stack s st')). apply HQ.
  apply in_use_shows; [|done..]. change (image base []) with (base ++ @Datatypes.nil aval). rewrite app_nil_r.
  exact (in_use_deactivate _ _ _ (in_use_truncate _ _ _ _ Hst)).
Qed.

Lemma wp_pop_and_deliver k s base f g r result (Q : option aval -> vm -> Prop) prims ffi lookup sel dnu :
  stack_shows cap (objs s) base (f :: g :: r) (stack s) ->
  (forall st, stack_shows cap (objs s) base (push_operand g result :: r) st ->
     wp E (if f_bci f =? BCI_RESUME_ENSURE_RET then resume_ensure_ret k
           else if f_bci f =? BCI_RESUME_UNWIND then resume_unwind prims ffi lookup sel dnu k
           else if f_bci f =? BCI_RESUME_CANNOT_RETURN then fatal_exit 1
           else write (fun s => with_regs s (Some (f_method g)) (f_bci f)) ;; ret None) (with_stack s st) Q) ->
  wp E (pop_and_deliver prims ffi lookup sel dnu k result) s Q.
Proof using Hcap.
  intros Hs HQ. unfold pop_and_deliver. pose proof (ss_fp _ _ _ _ _ Hs ltac:(done)) as Hfp.
  apply wp_bind. eapply wp_read; [by rewrite Hfp|]. apply wp_bind. eapply wp_read; [apply (receiver_slot_eq (pre := []) Hs)|].
  apply wp_bind. eapply wp_read; [apply (saved_fp_eq (pre := []) Hcap Hs)|]. apply wp_bind. eapply wp_read; [apply (saved_bci_eq (pre := []) Hs)|].
  pose proof (shows_in_use _ _ _ _ _ Hs) as Hi. rewrite image_cons in Hi.
  assert (zlen base + body_size (g :: r) = zlen (image base (g :: r))) as -> by by rewrite image_len.
  destruct (in_use_set _ _ _ (zlen (image base (g :: r))) result Hi) as (st & Est & Hst & _).
  { pose proof (zlen_nonneg (image base (g :: r))). rewrite zlen_app, frame_words_len. pose proof (frame_size_pos f). lia. }
  apply wp_bind. eapply wp_update; [exact Est|]. rewrite zinsert_app_r, Z.sub_diag in Hst by lia.
  assert (in_use cap (image base (g :: r) ++ [result]) (set_sp st (zlen (image base (g :: r)) + 1))) as Hst1.
  { change (zinsert (frame_words (fp_of base (g :: r)) f) 0 result) with
      ([result] ++ f_args f ++ header (fp_of base (g :: r)) f ++ f_temps f ++ f_operands f) in Hst.
    rewrite <- (zlen_snoc _ result). eapply in_use_truncate. rewrite <- app_assoc. exact Hst. }
  pose proof (fp_of_range (pre := [f]) Hs) as (Hr1 & Hr2 & _).
  apply wp_bind. eapply wp_update; [done|]. destruct (Z.eqb_spec (fp_of base (g :: r)) ENTRY_FRAME_SENTINEL) as [He|_].
  { change ENTRY_FRAME_SENTINEL with (-1) in He. lia. }
  assert (u64 (fp_of base (g :: r)) = fp_of base (g :: r)) as Hu by (apply wrapU_id; unfold inU; lia). rewrite Hu.
  apply wp_bind. eapply wp_update; [done|]. set (st' := activate_frame _ _).
  change (with_stack (with_stack (with_stack s st) _) st') with (with_stack s st').
  pose proof (ss_ok _ _ _ _ _ Hs) as Ho.
  assert (stack_shows cap (objs s) base (push_operand g result :: r) st') as Hshow.
  { rewrite push_operand_eq. apply in_use_shows; [|done..|].
    - rewrite image_operands, app_assoc, <- image_operands, set_operands_id. exact (in_use_activate _ _ _ _ Hst1).
    - rewrite !Forall_cons in *. by destruct Ho as (_ & ? & ?). }
  specialize (HQ st' Hshow). destruct (f_bci f =? BCI_RESUME_ENSURE_RET); [done|]. destruct (f_bci f =? BCI_RESUME_UNWIND); [done|].
  destruct (f_bci f =? BCI_RESUME_CANNOT_RETURN); [done|]. apply wp_bind. destruct (frame_method_eq (pre := []) Hshow) as (m & Em & _).
  eapply wp_read; [exact Em|]. exact HQ.
Qed.

(** ** The chain of frames *)
Definition quiet (os : list object) (nl : aval) (f : fr) : Prop := is_Some (class_of os nl f) /\ armed os nl f = [].
Definition classified (os : list object) (nl : aval) (fs : list fr) : Prop := Forall (fun f => is_Some (class_of os nl f)) fs.
Lemma fp_of_length base fs : fs <> [] -> (length fs <= Z.to_nat (fp_of base fs))%nat.
Proof.
  destruct fs as [|f r]; [done|]. intros _. rewrite fp_of_cons. pose proof (zlen_nonneg base). pose proof (body_size_pos r).
  pose proof (zlen_nonneg (f_args f)). cbn [length]. lia.
Qed.
Lemma chain_enough base pre f r : (length pre < chain_fuel (fp_of base (pre ++ f :: r)))%nat.
Proof.
  unfold chain_fuel. pose proof (fp_of_length base (pre ++ f :: r) ltac:(by destruct pre)) as Hl. rewrite length_app in Hl. cbn in Hl. lia.
Qed.
Lemma fp_of_lt os base pre f g r st : stack_shows cap os base (pre ++ f :: g :: r) st -> fp_of base (g :: r) < fp_of base (f :: g :: r).
Proof. intros Hs. by pose proof (fp_of_range Hs) as (_ & _ & _ & ?). Qed.
Lemma fp_of_above os base pre f mid h r st : stack_shows cap os base (pre ++ f :: mid ++ h :: r) st -> fp_of base (h :: r) < fp_of base (f :: mid ++ h :: r).
Proof.
  revert pre f. induction mid as [|g mid IH]; intros pre f Hs; [by eapply fp_of_lt|].
  change (f :: (g :: mid) ++ h :: r) with (f :: g :: (mid ++ h :: r)) in Hs. pose proof (fp_of_lt _ _ _ _ _ _ _ Hs).
  replace (pre ++ f :: g :: mid ++ h :: r) with ((pre ++ [f]) ++ g :: mid ++ h :: r) in Hs by by rewrite <- app_assoc.
  pose proof (IH _ _ Hs). cbn [app] in *. lia.
Qed.

Lemma fp_of_u64 os base pre f r st : stack_shows cap os base (pre ++ f :: r) st ->
  u64 (fp_of base (f :: r)) = fp_of base (f :: r) /\ (fp_of base (f :: r) =? ENTRY_FRAME_SENTINEL) = false.
Proof using Hcap.
  intros Hs. pose proof (fp_of_range Hs) as (? & ? & _). split; [apply wrapU_id; unfold inU; lia|].
  apply Z.eqb_neq. change ENTRY_FRAME_SENTINEL with (-1). lia.
Qed.
Lemma shows_shift os base pre f r st : stack_shows cap os base (pre ++ f :: r) st -> stack_shows cap os base ((pre ++ [f]) ++ r) st.
Proof. by rewrite <- app_assoc. Qed.
Lemma scan_step n s base pre f g r target : stack_shows cap (objs s) base (pre ++ f :: g :: r) (stack s) ->
  quiet (objs s) (nil_obj s) f -> target < fp_of base (f :: g :: r) ->
  innermost_marked_frame (S n) s (fp_of base (f :: g :: r)) target = innermost_marked_frame n s (fp_of base (g :: r)) target.
Proof using Hcap.
  intros Hs [[c Hc] Hq] Ht. cbn [innermost_marked_frame].
  destruct (Z.eqb_spec (fp_of base (f :: g :: r)) target); [lia|]. rewrite (marker_class_eq _ _ _ _ _ Hs), Hc. cbn [mbind option_bind].
  unfold armed in Hq. rewrite Hc in Hq. rewrite (saved_fp_eq Hcap Hs).
  destruct (fp_of_u64 _ _ _ _ _ _ (shows_shift _ _ _ _ _ _ Hs)) as [Hu He].
  destruct c; try done; cbn [mbind option_bind]; by rewrite He, Hu.
Qed.
Lemma scan_quiet n s base target mid : forall pre g r, stack_shows cap (objs s) base (pre ++ mid ++ g :: r) (stack s) ->
  Forall (quiet (objs s) (nil_obj s)) mid -> target <= fp_of base (g :: r) ->
  innermost_marked_frame (length mid + n) s (fp_of base (mid ++ g :: r)) target = innermost_marked_frame n s (fp_of base (g :: r)) target.
Proof using Hcap.
  induction mid as [|f mid IH]; intros pre g r Hs Hq Ht; [done|]. apply Forall_cons in Hq as [Hf Hq]. cbn [length Nat.add app] in *.
  pose proof (shows_shift _ _ _ _ _ _ Hs) as Hs'. pose proof (fp_of_above _ _ _ _ _ _ _ _ Hs).
  destruct mid as [|f' mid].
  - cbn [app length Nat.add] in *. apply (scan_step _ _ _ _ _ _ _ _ Hs Hf). lia.
  - cbn [app] in *. rewrite (scan_step _ _ _ _ _ _ _ _ Hs Hf) by lia. by apply (IH (pre ++ [f])).
Qed.
Lemma scan_home s base pre mid h r : stack_shows cap (objs s) base (pre ++ mid ++ h :: r) (stack s) -> Forall (quiet (objs s) (nil_obj s)) mid ->
  innermost_marked_frame (chain_fuel (fp_of base (mid ++ h :: r))) s (fp_of base (mid ++ h :: r)) (fp_of base (h :: r)) = Some ReachedHome.
Proof using Hcap.
  intros Hs Hq. pose proof (chain_enough base mid h r) as Hf.
  replace (chain_fuel (fp_of base (mid ++ h :: r))) with (length mid + S (chain_fuel (fp_of base (mid ++ h :: r)) - length mid - 1))%nat by lia.
  rewrite (scan_quiet _ _ _ _ _ pre) by (done || lia). cbn [innermost_marked_frame]. by rewrite Z.eqb_refl.
Qed.
Lemma scan_marked s base pre mid m mid' h r hd : stack_shows cap (objs s) base (pre ++ mid ++ m :: mid' ++ h :: r) (stack s) ->
  Forall (quiet (objs s) (nil_obj s)) mid -> class_of (objs s) (nil_obj s) m = Some (Handler hd) ->
  innermost_marked_frame (chain_fuel (fp_of base (mid ++ m :: mid' ++ h :: r))) s (fp_of base (mid ++ m :: mid' ++ h :: r)) (fp_of base (h :: r)) =
  Some (Marked (fp_of base (m :: mid' ++ h :: r)) hd).
Proof using Hcap.
  intros Hs Hq Hm. pose proof (chain_enough base mid m (mid' ++ h :: r)) as Hf.
  assert (stack_shows cap (objs s) base ((pre ++ mid) ++ m :: mid' ++ h :: r) (stack s)) as Hs' by by rewrite <- app_assoc.
  pose proof (fp_of_above _ _ _ _ _ _ _ _ Hs').
  replace (chain_fuel (fp_of base (mid ++ m :: mid' ++ h :: r))) with (length mid + S (chain_fuel (fp_of base (mid ++ m :: mid' ++ h :: r)) - length mid - 1))%nat by lia.
  rewrite (scan_quiet _ _ _ _ _ pre) by (done || lia). cbn [innermost_marked_frame].
  destruct (Z.eqb_spec (fp_of base (m :: mid' ++ h :: r)) (fp_of base (h :: r))); [lia|].
  rewrite (marker_class_eq _ _ _ _ _ Hs'), Hm. done.
Qed.

Lemma find_frame_ok st os base mid : forall n pre h r, stack_shows cap os base (pre ++ mid ++ h :: r) st -> (length mid < n)%nat ->
  find_frame n st (fp_of base (mid ++ h :: r)) (fp_of base (h :: r)) = Some tt.
Proof using Hcap.
  induction mid as [|f mid IH]; intros n pre h r Hs Hn; (destruct n as [|n]; [lia|]); cbn [find_frame app]; [by rewrite Z.eqb_refl|].
  cbn [app length] in *. pose proof (fp_of_above _ _ _ _ _ _ _ _ Hs).
  destruct (Z.eqb_spec (fp_of base (f :: mid ++ h :: r)) (fp_of base (h :: r))); [lia|]. rewrite (saved_fp_eq Hcap Hs). cbn [mbind option_bind].
  pose proof (shows_shift _ _ _ _ _ _ Hs) as Hs'.
  assert (exists g r', mid ++ h :: r = g :: r') as (g & r' & Eg) by (destruct mid; by eexists _, _). rewrite Eg in *.
  destruct (fp_of_u64 _ _ _ _ _ _ Hs') as [Hu He]. rewrite He, Hu. rewrite <- Eg in *. apply (IH n (pre ++ [f])); [done|lia].
Qed.
Lemma wp_pop_frames_above s base mid h r (Q : unit -> vm -> Prop) : stack_shows cap (objs s) base (mid ++ h :: r) (stack s) ->
  (forall st, stack_shows cap (objs s) base (set_operands h [] :: r) st -> Q tt (with_stack s st)) ->
  wp E (pop_frames_above (fp_of base (h :: r))) s Q.
Proof using Hcap.
  intros Hs HQ. unfold pop_frames_above. pose proof (ss_fp _ _ _ _ _ Hs ltac:(by destruct mid)) as Hfp.
  apply wp_bind. eapply wp_read. { rewrite Hfp. apply (find_frame_ok _ _ _ _ _ [] _ _ Hs). apply chain_enough. }
  apply wp_bind. eapply wp_update; [done|]. cbn [stack with_stack]. apply wp_bind.
  destruct (frame_method_eq (pre := mid) Hs) as (m & Em & _ & Hn & _).
  eapply wp_read with (a := zlen (f_temps h)). { cbn [objs stack with_stack]. change (Frame.method (objs s) (activate_frame (stack s) ?x)) with (Frame.method (objs s) (stack s)). rewrite Em. exact Hn. }
  unfold truncate. eapply wp_update; [done|]. cbn [stack with_stack].
  change (with_stack (with_stack s ?a) ?b) with (with_stack s b). apply HQ.
  pose proof (shows_in_use _ _ _ _ _ Hs) as Hi. pose proof (ss_ok _ _ _ _ _ Hs) as Ho. rewrite Forall_app, Forall_cons in Ho. destruct Ho as (_ & Hoh & Hor).
  apply in_use_shows; [|done|done|by constructor].
  assert (exists tail, image base (mid ++ h :: r) = image base (set_operands h [] :: r) ++ tail) as [tail Et].
  { unfold image. rewrite body_app, app_assoc. fold (image base (h :: r)). 
    assert (image base (h :: r) = image base (set_operands h [] :: r) ++ f_operands h) as -> by (by rewrite <- image_operands, set_operands_id).
    rewrite <- app_assoc. by eexists. }
  rewrite Et in Hi. apply in_use_truncate in Hi.
  assert (fp_of base (h :: r) + FRAME_TEMPS_BASE + zlen (f_temps h) = zlen (image base (set_operands h [] :: r))) as ->; [|exact (in_use_activate _ _ _ _ Hi)].
  rewrite image_len, fp_of_cons. cbn [body_size]. unfold frame_size. cbn [f_args f_temps f_operands set_operands]. rewrite zlen_nil. change FRAME_TEMPS_BASE with 7. lia.
Qed.

(** ** The home of a closure *)
Lemma home_live s base pre h r serial : stack_shows cap (objs s) base (pre ++ h :: r) (stack s) ->
  home_is_live s (HomeRef.MkHomeRef 0 serial (fp_of base (h :: r))) = Some (f_serial h =? serial).
Proof using Hcap.
  intros Hs. unfold home_is_live. cbn [HomeRef.proc HomeRef.fp HomeRef.serial]. change (negb (0 =? 0)) with false. cbn iota.
  pose proof (ss_sp _ _ _ _ _ Hs) as Hsp. rewrite body_size_app in Hsp. cbn [body_size] in Hsp. pose proof (body_size_pos pre).
  rewrite fp_of_cons in *. unfold frame_size in Hsp. pose proof (zlen_nonneg (f_temps h)). pose proof (zlen_nonneg (f_operands h)).
  change FRAME_MARKER with 6. destruct (Z.leb_spec (sp (stack s)) (zlen base + body_size r + 1 + zlen (f_args h) + 6)); [lia|].
  change FRAME_SERIAL with 5. pose proof (get_header Hs 5 ltac:(lia)) as Hg. rewrite fp_of_cons in Hg. rewrite Hg.
  change (zlookup (header (fp_of base r) h) 5) with (Some (smi_word (Z.lor (f_serial h) (kind_bit (f_kind h))))). cbn [mbind option_bind].
  destruct (shows_frame_ok Hs) as (Hn & _). rewrite smi_value_word by by apply serial_range. rewrite serial_bits by done.
  by rewrite wrapU_id.
Qed.

(** ** Unwinding *)
Definition home_of (base : list aval) (h : fr) (r : list fr) : HomeRef.home_ref := HomeRef.MkHomeRef 0 (f_serial h) (fp_of base (h :: r)).
Definition token_object (home : HomeRef.home_ref) (value : aval) (o : object) : Prop :=
  exists w, HomeRef.pack_home_ref home = Some w /\ o = OArray [AWord w; value].
Lemma home_of_ok os base pre h r st : stack_shows cap os base (pre ++ h :: r) st -> HomeRef.home_ok (home_of base h r).
Proof using Hcap.
  intros Hs. pose proof (fp_of_range Hs) as (? & ? & _). destruct (shows_frame_ok Hs) as (? & _). split_and!; [done..|].
  unfold home_of, inU. cbn [HomeRef.fp]. lia.
Qed.

Lemma wp_alloc_unwind_token s base m r home value (Q : nat -> vm -> Prop) : HomeRef.home_ok home ->
  stack_shows cap (objs s) base (m :: r) (stack s) -> (cap < zlen base + body_size (m :: r) + 1 -> E 70) ->
  (forall o st, token_object home value o -> stack_shows cap (objs s ++ [o]) base (m :: r) st ->
     Q (length (objs s)) (with_stack (with_objs s (objs s ++ [o])) st)) ->
  wp E (alloc_unwind_token home value) s Q.
Proof.
  intros Hh Hs Hroom HQ. destruct (HomeRef.pack_home_ref_ok home Hh) as (w & Ew & _).
  unfold alloc_unwind_token. apply wp_bind. eapply wp_read; [by rewrite Ew|].
  apply wp_bind. eapply wp_push_operand; [exact Hs|intros; apply Hroom; lia|]. intros st Hst.
  apply wp_bind, wp_nil. apply wp_bind, wp_alloc. cbn [objs with_stack nil_obj].
  apply wp_bind. eapply (wp_pop_value _ base m r value (f_operands m)).
  { cbn [objs stack with_stack with_objs]. eapply shows_le; [|exact Hst]. apply heap_le_app. }
  cbn [objs with_objs with_stack]. intros st2 Hst2. rewrite set_operands_id in Hst2. apply wp_bind, wp_set_object. apply wp_ret.
  cbn [objs with_objs with_stack].
  assert (<[length (objs s):=OArray [AWord w; value]]> (objs s ++ [OArray [nil_obj s; nil_obj s]]) = objs s ++ [OArray [AWord w; value]]) as ->.
  { rewrite insert_app_r_alt by lia. by rewrite Nat.sub_diag. }
  change (Q (length (objs s)) (with_stack (with_objs s (objs s ++ [OArray [AWord w; value]])) st2)).
  apply HQ; [by exists w|]. destruct Hst2 as [? ? ? ? ? Ho]. split; try done.
  pose proof (ss_ok _ _ _ _ _ Hs) as Ho'. eapply Forall_impl; [exact Ho'|]. intros f. apply frame_ok_le, heap_le_app.
Qed.

Lemma method_at_le os os' v id m : heap_le os os' -> method_at os v = Some (id, m) ->
  exists m', method_at os' v = Some (id, m') /\ m_flags m' = m_flags m /\ m_primitive m' = m_primitive m.
Proof.
  intros Hle. destruct v as [w|k]; [done|]. cbn. destruct (os !! k) as [o|] eqn:Eo; [|done]. destruct (Hle _ _ Eo) as (o' & -> & Ho).
  destruct o, o'; try done. intros [= <- <-]. destruct Ho as (Hf & Hp & _). by eexists.
Qed.
Lemma activatable_le os os' nl cl n : heap_le os os' -> activatable os nl cl n -> activatable os' nl cl n.
Proof.
  intros Hle (c & m & cc & self & enclosing & vals & nt & Hc & [Hm Hcc Hnt Hcop He Hf] & Ha).
  destruct (method_at_le _ _ _ _ _ Hle Hm) as (m' & Hm' & Hfl & _).
  exists c, m', cc, self, enclosing, vals, nt. split; [by apply (closure_at_le _ _ _ _ Hle)|]. unfold captures_ctx, ntemps, argc in *. rewrite <- Hfl in *.
  split; [by split|done].
Qed.
Lemma class_of_handler os nl f h : class_of os nl f = Some (Handler h) -> h = f_marker f /\ exists hd, h = ARef hd.
Proof.
  unfold class_of, classify. case_decide; [done|]. destruct (closure_at os (f_marker f)) eqn:Ec.
  - intros [= <-]. split; [done|]. destruct (f_marker f) as [w|hd]; [done|by exists hd].
  - by destruct (array_at os (f_marker f)) as [[]|].
Qed.

(** A closure has just been activated: its frame is on top, nothing else of the
    stack changed, and the interpreter continues at its first bytecode. *)
Record running (s : vm) (base : list aval) (fs : list fr) (hd : nat) (bci : Z) (f : fr) (s' : vm) : Prop := {
  rn_shows : stack_shows cap (objs s') base (f :: fs) (stack s');
  rn_closure : f_arg0 f = ARef hd;
  rn_args : f_args f = [];
  rn_bci : f_bci f = bci;
  rn_marker : f_marker f = nil_obj s;
  rn_regs : regs_method s' = Some (f_method f) /\ regs_bci s' = 0;
  rn_objs : objs s `prefix_of` objs s';
  rn_nil : nil_obj s' = nil_obj s;
  rn_nlr : nlr_state s' = nlr_state s;
  rn_serial : next_frame_serial s' = next_frame_serial s + 1 }.

(** Pushing a handler and activating it, as returns and unwinds do. *)
Lemma wp_run_handler {A} s base g r hd bci (k : M A) (Q : A -> vm -> Prop) :
  stack_shows cap (objs s) base (g :: r) (stack s) -> inU 32 bci -> inU 32 (next_frame_serial s) /\ inU 32 (next_frame_serial s + 1) ->
  activatable (objs s) (nil_obj s) hd 0 -> (cap < zlen base + body_size (g :: r) + max_frame -> E 70) ->
  (forall f s', running s base (g :: r) hd bci f s' -> wp E k s' Q) ->
  wp E (push (ARef hd) ;; set_bci bci ;; let! x := activate_block_interp (ARef hd) 0 in expect_activated x ;; k) s Q.
Proof using Hcap.
  intros Hs Hb Hn Ha Hroom HQ. pose proof (fp_of_u64 _ _ [] _ _ _ Hs) as [Hu _]. pose proof (fp_of_range (pre := []) Hs) as (Hr1 & Hr2 & _).
  apply wp_bind. eapply wp_push; [exact (shows_in_use _ _ _ _ _ Hs)|rewrite image_len; intros; apply Hroom; unfold max_frame; lia|].
  intros st (Hi & Hf & Hh). apply wp_bind, wp_write. apply wp_bind. change 0 with (zlen (@Datatypes.nil aval)).
  pose proof (ss_fp _ _ _ _ _ Hs ltac:(done)) as Hfp.
  eapply wp_activate_closure with (base := base) (fs := g :: r) (cap := cap); [done|..].
  - split; [exact Hi| |exact (ss_ok _ _ _ _ _ Hs)|exact Hb|exact Hn]. cbn [stack with_regs with_stack]. rewrite Hf, Hfp.
    apply wrapS_id; [lia|]. unfold inS. lia.
  - exact Ha.
  - rewrite zlen_nil. intros. apply Hroom. lia.
  - intros f os s' (H1 & H2 & H3 & H4 & H5 & H6) Hle (st' & -> & Hst').
    apply wp_bind, wp_ret. apply (HQ f). by split.
Qed.

Section unwinding.
Context (prims : Z -> option (list aval -> M PrimResult)) (ffi : nat -> Z -> M PrimitiveOutcome) (lookup : vm -> aval -> aval -> option nat)
  (sel : aval) (dnu : M Empty_set) (k : aval -> M (option aval)).
Context (base : list aval) (h : fr) (r : list fr) (value : aval).

Lemma wp_continue_home s mid (cl : option aval) (Q : UnwindStep -> vm -> Prop) :
  stack_shows cap (objs s) base (mid ++ h :: r) (stack s) -> Forall (quiet (objs s) (nil_obj s)) mid ->
  (forall st, stack_shows cap (objs s) base (set_operands h [] :: r) st -> wp E (k value) (with_stack s st) (fun o s' => Q (ReturnedFromHome o) s')) ->
  wp E (continue_unwind prims ffi lookup sel dnu k (home_of base h r) value cl) s Q.
Proof using Hcap.
  intros Hs Hq HQ. unfold continue_unwind. pose proof (ss_fp _ _ _ _ _ Hs ltac:(by destruct mid)) as Hfp.
  apply wp_bind. eapply wp_read; [by rewrite Hfp|].
  assert (exists g r', mid ++ h :: r = g :: r') as (g & r' & Eg) by (destruct mid; by eexists _, _).
  assert ((fp_of base (mid ++ h :: r) =? ENTRY_FP) = false) as ->.
  { rewrite Eg in *. pose proof (fp_of_range (pre := []) Hs) as (? & ? & _). apply Z.eqb_neq. change ENTRY_FP with (2 ^ 64 - 1). lia. }
  apply wp_bind. eapply wp_read; [apply (home_live _ _ _ _ _ _ Hs)|]. rewrite Z.eqb_refl. cbn [negb].
  apply wp_bind. eapply wp_read; [apply (scan_home _ _ [] _ _ _ Hs Hq)|]. cbn [HomeRef.fp home_of].
  apply wp_bind. eapply wp_pop_frames_above; [exact Hs|]. intros st Hst. apply wp_bind.
  eapply wp_mono; [apply (HQ st Hst)|]. intros o s' Ho. by apply wp_ret.
Qed.

Definition awaiting (m : fr) (tok : nat) : fr := with_marker (set_operands m []) Ensure (ARef tok).
Lemma wp_continue_handler s mid m mid' hd (cl : option aval) (Q : UnwindStep -> vm -> Prop) :
  stack_shows cap (objs s) base (mid ++ m :: mid' ++ h :: r) (stack s) -> Forall (quiet (objs s) (nil_obj s)) mid ->
  class_of (objs s) (nil_obj s) m = Some (Handler (ARef hd)) -> activatable (objs s) (nil_obj s) hd 0 ->
  inU 32 (next_frame_serial s) /\ inU 32 (next_frame_serial s + 1) ->
  (cap < zlen base + body_size (m :: mid' ++ h :: r) + max_frame -> E 70) ->
  (forall o f s', token_object (home_of base h r) value o -> running (with_objs s (objs s ++ [o])) base (awaiting m (length (objs s)) :: mid' ++ h :: r) hd BCI_RESUME_UNWIND f s' ->
     Q RanHandler s') ->
  wp E (continue_unwind prims ffi lookup sel dnu k (home_of base h r) value cl) s Q.
Proof using Hcap.
  intros Hs Hq Hm Ha Hn Hroom HQ. unfold continue_unwind. pose proof (ss_fp _ _ _ _ _ Hs ltac:(by destruct mid)) as Hfp.
  apply wp_bind. eapply wp_read; [by rewrite Hfp|].
  assert (stack_shows cap (objs s) base ((mid ++ m :: mid') ++ h :: r) (stack s)) as Hs' by by rewrite <- app_assoc.
  assert (exists g r', mid ++ m :: mid' ++ h :: r = g :: r') as (g & r' & Eg) by (destruct mid; by eexists _, _).
  assert ((fp_of base (mid ++ m :: mid' ++ h :: r) =? ENTRY_FP) = false) as ->.
  { rewrite Eg in *. pose proof (fp_of_range (pre := []) Hs) as (? & ? & _). apply Z.eqb_neq. change ENTRY_FP with (2 ^ 64 - 1). lia. }
  apply wp_bind. eapply wp_read; [apply (home_live _ _ _ _ _ _ Hs')|]. rewrite Z.eqb_refl. cbn [negb].
  apply wp_bind. eapply wp_read; [apply (scan_marked _ _ [] _ _ _ _ _ _ Hs Hq Hm)|].
  apply wp_bind. eapply wp_pop_frames_above; [exact Hs|]. intros st Hst.
  pose proof (body_size_pos (mid' ++ h :: r)) as Hbs. pose proof (zlen_nonneg (f_operands m)) as Hop.
  assert (body_size (set_operands m [] :: mid' ++ h :: r) <= body_size (m :: mid' ++ h :: r)) as Hle.
  { cbn [body_size]. unfold frame_size. cbn [f_args f_temps f_operands set_operands]. rewrite zlen_nil. lia. }
  apply wp_bind. eapply (wp_alloc_unwind_token _ base (set_operands m []) (mid' ++ h :: r)); [by eapply home_of_ok|exact Hst|intros; apply Hroom; unfold max_frame; lia|].
  intros o st1 Ho Hst1. apply wp_bind.
  destruct (set_marker_eq (pre := []) (ARef (length (objs s))) Ensure Hcap Hst1) as (st2 & Est & Hst2 & _).
  eapply wp_update; [exact Est|]. eapply (wp_run_handler _ base (awaiting m (length (objs s))) (mid' ++ h :: r)).
  - exact Hst2.
  - by vm_compute.
  - exact Hn.
  - eapply activatable_le; [|exact Ha]. apply heap_le_app.
  - intros. apply Hroom. change (body_size (awaiting m (length (objs s)) :: mid' ++ h :: r)) with (body_size (set_operands m [] :: mid' ++ h :: r)) in *. lia.
  - intros f s' Hrun. apply wp_ret. apply (HQ o f); [done|]. destruct Hrun. by split.
Qed.

(** The frame that awaited a handler goes on unwinding. *)
Lemma wp_resume_unwind s m mid tok v o (Q : option aval -> vm -> Prop) : HomeRef.home_ok (home_of base h r) ->
  stack_shows cap (objs s) base (push_operand (awaiting m tok) v :: mid ++ h :: r) (stack s) ->
  objs s !! tok = Some o -> token_object (home_of base h r) value o -> nil_obj s <> ARef tok ->
  (forall st, stack_shows cap (objs s) base (with_marker (set_operands m []) Ensure (nil_obj s) :: mid ++ h :: r) st ->
     wp E (continue_unwind prims ffi lookup sel dnu k (home_of base h r) value None) (with_stack s st)
       (fun step s' => Q (match step with ReturnedFromHome r => r | RanHandler | CannotReturn => None | Escaped => Some (AWord NLR_SENTINEL) end) s')) ->
  wp E (resume_unwind prims ffi lookup sel dnu k) s Q.
Proof using Hcap.
  intros Hh Hs Htok (w & Ew & ->) Hnil HQ. unfold resume_unwind. destruct (HomeRef.pack_home_ref_ok _ Hh) as (w' & Ew' & [_ Hsmi] & Hun).
  rewrite Ew in Ew'. injection Ew' as <-.
  apply wp_bind. eapply (wp_drop_operand _ base (awaiting m tok) (mid ++ h :: r) v []); [exact Hs|]. intros st Hst.
  apply wp_bind. eapply wp_read; [done|]. cbn [stack with_stack]. pose proof (ss_fp _ _ _ _ _ Hst ltac:(done)) as Hfp. rewrite Hfp.
  apply wp_bind. eapply wp_read with (a := Token [AWord w; value]).
  { unfold marker_class. cbn [stack with_stack objs nil_obj]. rewrite (marker_eq (pre := []) Hst). cbn [mbind option_bind f_marker set_operands awaiting with_marker].
    unfold classify. rewrite decide_False by congruence. cbn. by rewrite Htok. }
  apply wp_bind, wp_nil. apply wp_bind. destruct (clear_marker_eq (pre := []) Hst (nil_obj s)) as (st1 & Est & Hst1 & _).
  eapply wp_update; [exact Est|]. apply wp_bind. eapply wp_read with (a := home_of base h r).
  { cbn. unfold SmallInt.try_from. by rewrite Hsmi, <- Hun. }
  apply wp_bind. eapply wp_read; [done|]. apply wp_bind. eapply wp_mono; [apply HQ; exact Hst1|]. intros step s' Hstep. by apply wp_ret.
Qed.
End unwinding.
End steps.
End UnwindCorrect.
