(* ===== verification/NonLocalReturn.v ===== *)
(** A whole non-local return: the handlers it passes, the code they run, and
    the delivery of the value. *)
From S2P Require Import Prelude Oops Packed Heap ObjectGraph Process FrameList Activation MachineLogic ActivationCorrect Unwind UnwindCorrect.
#[local] Open Scope Z_scope.

Module NonLocalReturn.
Import ObjectGraph Process FrameList Activation MachineLogic ActivationCorrect Unwind UnwindCorrect.
#[local] Open Scope process_scope.

(** ** Markers in a growing heap *)
Lemma array_at_le os os' v x : heap_le os os' -> array_at os v = Some x -> exists l, array_at os' v = Some (x.1, l).
Proof.
  intros Hle. destruct v as [w|id]; [done|]. cbn. destruct (os !! id) as [o|] eqn:Eo; [|done]. destruct (Hle _ _ Eo) as (o' & -> & Ho).
  destruct o, o'; try done. intros [= <-]. by eexists.
Qed.
Lemma classify_le os os' nl m c : heap_le os os' -> classify os nl m = Some c ->
  exists c', classify os' nl m = Some c' /\ match c with Token _ => exists l, c' = Token l | _ => c' = c end.
Proof.
  intros Hle. unfold classify. case_decide; [intros [= <-]; by eexists|]. destruct (closure_at os m) eqn:Ec.
  - intros [= <-]. rewrite (closure_at_le _ _ _ _ Hle Ec). by eexists.
  - destruct (array_at os m) as [[i l]|] eqn:Ea; [|done]. intros [= <-]. destruct (array_at_le _ _ _ _ Hle Ea) as (l' & El). rewrite El.
    destruct (closure_at os' m) as [x|] eqn:Ec'; [|eexists; split; [done|by eexists]]. exfalso.
    destruct m as [w|id]; [done|]. cbn in *. destruct (os' !! id) as [[]|]; done.
Qed.
Lemma armed_le os os' nl f : heap_le os os' -> is_Some (class_of os nl f) -> armed os' nl f = armed os nl f /\ is_Some (class_of os' nl f).
Proof.
  intros Hle [c Hc]. unfold armed, class_of in *. destruct (classify_le _ _ _ _ _ Hle Hc) as (c' & Hc' & Hcc). rewrite Hc, Hc'.
  split; [|done]. destruct c; [by subst..|]. by destruct Hcc as [l ->].
Qed.
Lemma pending_step os nl f fs : pending os nl (f :: fs) = armed os nl f ++ pending os nl fs.
Proof. done. Qed.
Lemma pending_le os os' nl fs : heap_le os os' -> classified os nl fs -> pending os' nl fs = pending os nl fs /\ classified os' nl fs.
Proof.
  intros Hle. induction 1 as [|f fs Hf _ IH]; [split; [done|constructor]|]. rewrite !pending_step. destruct IH as [-> Hfs]. destruct (armed_le _ _ _ _ Hle Hf) as [-> Hc].
  split; [done|by constructor].
Qed.
Lemma pending_nil os nl fs : classified os nl fs -> pending os nl fs = [] -> Forall (quiet os nl) fs.
Proof. induction 1 as [|f fs Hf _ IH]; [constructor|]. rewrite pending_step. intros [Hq Hp]%app_eq_nil. constructor; [by split|by apply IH]. Qed.
Lemma pending_cons os nl fs hd hs : classified os nl fs -> pending os nl fs = hd :: hs -> exists mid m rest,
  fs = mid ++ m :: rest /\ Forall (quiet os nl) mid /\ class_of os nl m = Some (Handler hd) /\ pending os nl rest = hs /\ classified os nl rest.
Proof.
  induction 1 as [|f fs Hf Hfs IH]; [done|]. rewrite pending_step. destruct (armed os nl f) as [|x l] eqn:Ea.
  - intros Hp. destruct (IH Hp) as (mid & m & rest & -> & Hq & Hm & Hr & Hcl). exists (f :: mid), m, rest. split_and!; [done| |done..].
    constructor; [by split|done].
  - intros Hp. exists [], f, fs. pose proof Ea as Ea'. unfold armed in Ea. destruct Hf as [c Hc]. rewrite Hc in Ea. destruct c; [done| |done]. injection Ea as <- <-.
    cbn in Hp. injection Hp as <- Hp. split_and!; [done|constructor|done..].
Qed.

Lemma nil_quiet os nl f : f_marker f = nl -> quiet os nl f.
Proof. intros Hm. unfold quiet, armed, class_of, classify. rewrite decide_True by done. split; [by eexists|done]. Qed.
Lemma token_quiet os nl m tok home value o : os !! tok = Some o -> token_object home value o -> nl <> ARef tok -> quiet os nl (awaiting m tok).
Proof.
  intros Ho (w & _ & ->) Hn. unfold quiet, armed, class_of, classify. cbn [f_marker awaiting with_marker]. rewrite decide_False by congruence.
  cbn [closure_at array_at]. rewrite Ho. split; [by eexists|done].
Qed.

(** ** Guest code *)
(** What a handler runs, from its first bytecode to the value it returns. *)
Definition guest := vm -> aval * vm.
(** Guest code that ends in its own frame: it leaves the frames below alone; it
    may allocate, and change what it can reach, which an unwind's token is not;
    it makes at most [calls] activations. *)
Definition guest_ok (cap : Z) (base : list aval) (calls : Z) (g : guest) : Prop := 0 <= calls /\ forall s f fs,
  stack_shows cap (objs s) base (f :: fs) (stack s) -> f_marker f = nil_obj s -> exists f',
    stack_shows cap (objs (g s).2) base (f' :: fs) (stack (g s).2) /\
    f_bci f' = f_bci f /\ f_marker f' = nil_obj s /\ nil_obj (g s).2 = nil_obj s /\ heap_le (objs s) (objs (g s).2) /\
    (forall b tok, head fs = Some b -> f_marker b = ARef tok -> objs (g s).2 !! tok = objs s !! tok) /\
    next_frame_serial s <= next_frame_serial (g s).2 <= next_frame_serial s + calls.

Section driver.
Context (prims : Z -> option (list aval -> M PrimResult)) (ffi : nat -> Z -> M PrimitiveOutcome) (lookup : vm -> aval -> aval -> option nat)
  (sel : aval) (dnu : M Empty_set) (g : guest).
Abbreviation do_return := (do_return prims ffi lookup sel dnu).
Abbreviation unwind := (unwind prims ffi lookup sel dnu).

(** [n] handlers run one after the other; the closures that ran are listed. *)
Fixpoint run_handlers (n : nat) (o : option aval) : M (list aval * option aval) :=
  match n with
  | O => ret ([], o)
  | S n =>
      let! h := read current_closure in
      let! v := (fun s => Some (Done (g s))) in
      let! o := do_return v in
      let! t := run_handlers n o in
      ret (h :: t.1, t.2)
  end.
Definition non_local_return (n : nat) (home : HomeRef.home_ref) (value : aval) (closure : option aval) : M (list aval * option aval) :=
  let! step := unwind home value closure in
  match step with ReturnedFromHome o => run_handlers n o | RanHandler => run_handlers n None | _ => panic end.
(** The first handler runs [g0] and then returns from a method itself, to
    [home2] with [value2]; the [n] handlers that this return passes run [g]. *)
Definition handler_returns (g0 : guest) (n : nat) (home : HomeRef.home_ref) (value : aval) (closure : option aval) (home2 : HomeRef.home_ref) (value2 : aval) : M (list aval * option aval) :=
  let! step := unwind home value closure in
  match step with
  | RanHandler =>
      let! h := read current_closure in
      let! _ := (fun s => Some (Done (g0 s))) in
      let! t := non_local_return n home2 value2 (Some h) in
      ret (h :: t.1, t.2)
  | _ => panic
  end.
Definition return_through (n : nat) (value : aval) : M (list aval * option aval) := let! o := do_return value in run_handlers n o.
End driver.

(** The value is where the home frame's caller expects it, or leaves the
    activation. *)
Definition delivered (cap : Z) (base : list aval) (h : fr) (r : list fr) (value : aval) (o : option aval) (s : vm) : Prop :=
  match r with
  | [] => o = Some value /\ stack_shows cap (objs s) base [] (stack s)
  | c :: r => o = None /\ stack_shows cap (objs s) base (push_operand c value :: r) (stack s) /\
      regs_method s = Some (f_method c) /\ regs_bci s = f_bci h
  end.
Definition plain_bci (b : Z) : Prop := b < BCI_RESUME_ENSURE_RET.
Definition nil_ok (s : vm) : Prop := match nil_obj s with ARef id => (id < length (objs s))%nat | AWord _ => True end.
(** Serial numbers are left for [n] activations. *)
Definition serials_left (s : vm) (n : Z) : Prop := 0 <= next_frame_serial s /\ next_frame_serial s + n < 2 ^ 32.
Definition serials_for (calls : Z) (hs : list aval) : Z := (1 + calls) * Z.of_nat (length hs).
Definition handlers_ok (s : vm) (hs : list aval) : Prop :=
  Forall (fun v => exists hd, v = ARef hd /\ activatable (objs s) (nil_obj s) hd 0) hs.

Section unwinding.
Context (E : Z -> Prop) (cap : Z) (Hcap : cap <= 2 ^ 22).
Context (prims : Z -> option (list aval -> M PrimResult)) (ffi : nat -> Z -> M PrimitiveOutcome) (lookup : vm -> aval -> aval -> option nat)
  (sel : aval) (dnu : M Empty_set).
Context (base : list aval) (h : fr) (r : list fr) (value : aval) (Hplain : plain_bci (f_bci h)).
(** The stack never needs more than [limit] slots. *)
Context (limit : Z) (Hroom : cap < limit -> E 70) (calls : Z) (Hcalls : 0 <= calls).
Abbreviation fuelled := (do_return_fuel prims ffi lookup sel dnu).
Abbreviation full := (do_return prims ffi lookup sel dnu).

Lemma wp_full v s (Q : option aval -> vm -> Prop) : wp E (fuelled (S (Z.to_nat (fp (stack s)))) v) s Q -> wp E (full v) s Q.
Proof. unfold wp, Unwind.do_return, chain_fuel. intros H. exact H. Qed.
Lemma wp_guest (c : guest) s (Q : aval -> vm -> Prop) : Q (c s).1 (c s).2 -> wp E (fun s => Some (Done (c s))) s Q.
Proof. unfold wp. by destruct (c s). Qed.

Lemma wp_unmarked n s f fs v (Q : option aval -> vm -> Prop) : stack_shows cap (objs s) base (f :: fs) (stack s) -> f_marker f = nil_obj s ->
  wp E (pop_and_deliver prims ffi lookup sel dnu (fuelled n) v) s Q -> wp E (fuelled (S n) v) s Q.
Proof using Hcap.
  intros Hs Hm HQ. cbn [do_return_fuel]. unfold return_from_frame. pose proof (ss_fp _ _ _ _ _ Hs ltac:(done)) as Hfp.
  apply wp_bind. eapply wp_read; [by rewrite Hfp|]. apply wp_bind. eapply wp_read with (a := NoMarker); [|exact HQ].
  rewrite (marker_class_eq cap _ _ [] _ _ Hs). unfold class_of, classify. by rewrite decide_True.
Qed.
Lemma wp_leave k s f fs v : stack_shows cap (objs s) base (f :: fs) (stack s) -> plain_bci (f_bci f) ->
  wp E (pop_and_deliver prims ffi lookup sel dnu k v) s (delivered cap base f fs v).
Proof using Hcap.
  intros Hs Hp. unfold plain_bci in Hp. destruct fs as [|c fs].
  - eapply wp_pop_and_deliver_entry; [done|exact Hs|]. intros st Hst. by split.
  - eapply wp_pop_and_deliver; [done|exact Hs|]. intros st Hst.
    unfold BCI_RESUME_UNWIND, BCI_RESUME_CANNOT_RETURN, BCI_RESUME_ENSURE_RET in *.
    destruct (Z.eqb_spec (f_bci f) 0x7FFF0001); [lia|]. destruct (Z.eqb_spec (f_bci f) 0x7FFF0002); [lia|].
    destruct (Z.eqb_spec (f_bci f) 0x7FFF0003); [lia|]. apply wp_bind, wp_write. apply wp_ret. by split_and!.
Qed.

Lemma wp_deliver n s f fs v : stack_shows cap (objs s) base (f :: fs) (stack s) -> f_marker f = nil_obj s -> plain_bci (f_bci f) ->
  wp E (fuelled (S n) v) s (delivered cap base f fs v).
Proof using Hcap. intros Hs Hm Hp. eapply wp_unmarked; [exact Hs|exact Hm|]. by apply wp_leave. Qed.
Lemma wp_curtailed n s f fs hd v : stack_shows cap (objs s) base (f :: fs) (stack s) -> class_of (objs s) (nil_obj s) f = Some (Handler hd) ->
  f_kind f = IfCurtailed -> plain_bci (f_bci f) -> wp E (fuelled (S n) v) s (delivered cap base f fs v).
Proof using Hcap.
  intros Hs Hm Hk Hp. cbn [do_return_fuel]. unfold return_from_frame. pose proof (ss_fp _ _ _ _ _ Hs ltac:(done)) as Hfp.
  apply wp_bind. eapply wp_read; [by rewrite Hfp|]. apply wp_bind. eapply wp_read; [rewrite (marker_class_eq cap _ _ [] _ _ Hs); exact Hm|].
  apply wp_bind. eapply wp_read; [apply (marker_kind_eq (pre := []) Hs)|]. rewrite Hk.
  apply wp_bind, wp_nil. apply wp_bind. destruct (clear_marker_eq (pre := []) Hs (nil_obj s)) as (st & Est & Hst & _).
  eapply wp_update; [exact Est|]. exact (wp_leave _ (with_stack s st) (with_marker f (f_kind f) (nil_obj s)) fs v Hst Hp).
Qed.

(** A continuation that delivers from the home frame. *)
Definition delivers (k : aval -> M (option aval)) : Prop := forall s, stack_shows cap (objs s) base (set_operands h [] :: r) (stack s) ->
  f_marker h = nil_obj s -> wp E (k value) s (delivered cap base h r value).
Lemma fuelled_delivers n : delivers (fuelled (S n)).
Proof using Hcap Hplain. intros s Hs Hm. exact (wp_deliver n s (set_operands h []) r value Hs Hm Hplain). Qed.
Lemma full_delivers : delivers full.
Proof using Hcap Hplain. intros s Hs Hm. apply wp_full. by eapply fuelled_delivers. Qed.

(** A handler runs; [hs] are to follow. *)
Definition suspended (hd : aval) (hs : list aval) (s : vm) : Prop := exists f m tok o mid,
  stack_shows cap (objs s) base (f :: awaiting m tok :: mid ++ h :: r) (stack s) /\ f_arg0 f = hd /\ is_Some (closure_at (objs s) hd) /\
  f_bci f = BCI_RESUME_UNWIND /\ f_marker f = nil_obj s /\ token_object (home_of base h r) value o /\ objs s !! tok = Some o /\
  nil_obj s <> ARef tok /\ classified (objs s) (nil_obj s) mid /\ pending (objs s) (nil_obj s) mid = hs /\ handlers_ok s hs /\
  f_marker h = nil_obj s /\ nil_ok s /\ zlen base + body_size (awaiting m tok :: mid ++ h :: r) + max_frame <= limit /\
  serials_left s (calls + serials_for calls hs).

Lemma handlers_ok_le s s' hs : heap_le (objs s) (objs s') -> nil_obj s' = nil_obj s -> handlers_ok s hs -> handlers_ok s' hs.
Proof. unfold handlers_ok. intros Hle -> Hh. eapply Forall_impl; [exact Hh|]. intros v (hd & -> & Ha). exists hd. split; [done|]. by eapply activatable_le. Qed.
Lemma nil_ok_le s s' : heap_le (objs s) (objs s') -> nil_obj s' = nil_obj s -> nil_ok s -> nil_ok s'.
Proof.
  unfold nil_ok. intros Hle ->. destruct (nil_obj s) as [w|id]; [done|]. intros Hl. destruct (lookup_lt_is_Some_2 _ _ Hl) as [o Ho].
  destruct (Hle _ _ Ho) as (o' & Ho' & _). by eapply lookup_lt_Some.
Qed.

Lemma wp_unwind_step k s idle fs cl : delivers k -> stack_shows cap (objs s) base (idle ++ fs ++ h :: r) (stack s) -> Forall (quiet (objs s) (nil_obj s)) idle -> classified (objs s) (nil_obj s) fs ->
  handlers_ok s (pending (objs s) (nil_obj s) fs) -> serials_left s (serials_for calls (pending (objs s) (nil_obj s) fs)) -> f_marker h = nil_obj s -> nil_ok s ->
  zlen base + body_size (fs ++ h :: r) + max_frame <= limit ->
  wp E (continue_unwind prims ffi lookup sel dnu k (home_of base h r) value cl) s (fun step s' =>
    match pending (objs s) (nil_obj s) fs with
    | [] => exists o, step = ReturnedFromHome o /\ delivered cap base h r value o s'
    | hd :: hs => step = RanHandler /\ suspended hd hs s'
    end).
Proof using Hcap Hroom Hcalls.
  intros Hk Hs Hidle Hcl Hok Hser Hh Hnil Hsz. destruct (pending (objs s) (nil_obj s) fs) as [|hd hs] eqn:Ep.
  - rewrite app_assoc in Hs. eapply wp_continue_home; [done|exact Hs|apply Forall_app; split; [done|by apply pending_nil]|]. intros st Hst. eapply wp_mono; [apply Hk; [exact Hst|done]|].
    intros o s' Hd. by exists o.
  - destruct (pending_cons _ _ _ _ _ Hcl Ep) as (mid & m & rest & -> & Hq & Hm & Hrest & Hclr).
    apply Forall_cons in Hok as [(hdn & -> & Ha) Hoks].
    rewrite <- app_assoc in Hs, Hsz. cbn [app] in Hs, Hsz. rewrite app_assoc in Hs. rewrite body_size_app in Hsz. pose proof (body_size_pos mid).
    assert (inU 32 (next_frame_serial s) /\ inU 32 (next_frame_serial s + 1)) as Hser1.
    { unfold serials_left, serials_for, inU in *. cbn [length] in Hser. nia. }
    eapply wp_continue_handler; [done|exact Hs|by apply Forall_app|exact Hm|done|exact Hser1|intros; apply Hroom; lia|].
    intros o f s' Htok [Hsh Harg _ Hbci Hmk _ Hpre Hn _ Hsn]. cbn [next_frame_serial objs nil_obj with_objs] in *. split; [done|].
    pose proof (heap_le_prefix _ _ Hpre) as Hle'. pose proof (transitivity (heap_le_app (objs s) [o]) Hle') as Hle.
    destruct (pending_le _ _ (nil_obj s) _ Hle Hclr) as [Hp' Hc'].
    exists f, m, (length (objs s)), o, rest. rewrite Hn. split_and!; try done.
    + destruct Ha as (c & ? & ? & ? & ? & ? & ? & Hc & _). exists (hdn, c). by apply (closure_at_le _ _ _ _ Hle).
    + destruct Hpre as [ys ->]. rewrite <- app_assoc. cbn. rewrite lookup_app_r by lia. by rewrite Nat.sub_diag.
    + unfold nil_ok in Hnil. destruct (nil_obj s); [done|]. intros [= ->]. lia.
    + by rewrite Hp'.
    + by eapply handlers_ok_le.
    + by eapply nil_ok_le.
    + assert (body_size (awaiting m (length (objs s)) :: rest ++ h :: r) <= body_size (m :: rest ++ h :: r)); [|lia].
      cbn [body_size]. unfold frame_size. cbn [f_args f_temps f_operands set_operands awaiting with_marker]. rewrite zlen_nil. pose proof (zlen_nonneg (f_operands m)). lia.
    + unfold serials_left, serials_for in *. cbn [length] in Hser. rewrite Hsn. lia.
Qed.

Context (g : guest) (Hg : guest_ok cap base calls g).
Lemma wp_one_handler {A} s hd hs (k : aval -> option aval -> M A) (Q : A -> vm -> Prop) : suspended hd hs s ->
  (forall o s', match hs with [] => delivered cap base h r value o s' | hd' :: hs' => o = None /\ suspended hd' hs' s' end -> wp E (k hd o) s' Q) ->
  wp E (let! x := read current_closure in let! v := (fun s => Some (Done (g s))) in let! o := full v in k x o) s Q.
Proof using Hcap Hroom Hplain Hcalls Hg.
  intros (f & m & tok & o & mid & Hs & Ha & [c Hc] & Hb & Hm & Ht & Hot & Hnt & Hcl & Hp & Hok & Hh & Hnil & Hsz & Hser) HQ.
  pose proof (ss_fp _ _ _ _ _ Hs ltac:(done)) as Hfp.
  apply wp_bind. eapply wp_read with (a := hd).
  { unfold current_closure. rewrite Hfp, (receiver_slot_eq (pre := []) Hs). cbn [mbind option_bind]. rewrite (get_receiver_slot (pre := []) Hs), Ha.
    cbn [mbind option_bind]. by rewrite Hc. }
  apply wp_bind. destruct (proj2 Hg s f _ Hs Hm) as (f' & Hs1 & Hb1 & Hm1 & Hn1 & Hle & Htok & Hser1).
  apply wp_guest. destruct (g s) as [v s1]. cbn [fst snd] in *. apply wp_bind, wp_full. pose proof (ss_fp _ _ _ _ _ Hs1 ltac:(done)) as Hfp1.
  pose proof (fp_of_range (pre := []) Hs1) as (Hpos & _). rewrite Hfp1.
  destruct (Z.to_nat (fp_of base (f' :: awaiting m tok :: mid ++ h :: r))) as [|n] eqn:En; [lia|].
  eapply wp_unmarked; [exact Hs1|by rewrite Hm1, Hn1|]. eapply wp_pop_and_deliver; [done|exact Hs1|]. intros st Hst.
  rewrite Hb1, Hb. change (BCI_RESUME_UNWIND =? BCI_RESUME_ENSURE_RET) with false. rewrite Z.eqb_refl. cbn iota.
  eapply (wp_resume_unwind E cap Hcap _ _ _ _ _ _ base h r value _ m mid tok v o); [|exact Hst|..].
  { eapply (home_of_ok cap Hcap _ base (f' :: awaiting m tok :: mid)). exact Hs1. }
  { cbn [objs with_stack]. by rewrite (Htok (awaiting m tok) tok eq_refl eq_refl). }
  { exact Ht. }
  { cbn [nil_obj with_stack]. by rewrite Hn1. }
  cbn [objs nil_obj with_stack]. intros st2 Hst2. destruct (pending_le _ _ (nil_obj s) _ Hle Hcl) as [Hp' Hc'].
  set (m' := with_marker (set_operands m []) Ensure (nil_obj s1)) in *.
  assert (class_of (objs s1) (nil_obj s) m' = Some NoMarker) as Hcm.
  { unfold class_of, classify, m'. cbn [f_marker with_marker]. by rewrite decide_True. }
  assert (pending (objs s1) (nil_obj s1) (m' :: mid) = hs) as Hpm.
  { rewrite Hn1, pending_step. unfold armed. by rewrite Hcm, Hp', Hp. }
  eapply wp_mono; [eapply (wp_unwind_step _ _ [] (m' :: mid)); [apply fuelled_delivers|exact Hst2|constructor|..]|].
  - cbn [objs nil_obj with_stack]. rewrite Hn1. constructor; [by eexists|exact Hc'].
  - cbn [objs nil_obj with_stack]. rewrite Hpm. eapply handlers_ok_le; [exact Hle|exact Hn1|exact Hok].
  - cbn [objs nil_obj with_stack]. rewrite Hpm. unfold serials_left in *. cbn [next_frame_serial with_stack]. lia.
  - cbn [nil_obj with_stack]. by rewrite Hn1.
  - eapply nil_ok_le; [exact Hle|exact Hn1|exact Hnil].
  - etransitivity; [|exact Hsz]. change (body_size ((m' :: mid) ++ h :: r)) with (body_size (awaiting m tok :: mid ++ h :: r)). lia.
  - cbn [objs nil_obj with_stack]. intros step s'. rewrite Hpm. destruct hs as [|hd' hs].
    + intros (o' & -> & Hd). by apply HQ.
    + intros [-> Hsus]. by apply HQ.
Qed.

Lemma wp_run_handlers x hs : forall s hd, suspended hd hs s ->
  wp E (run_handlers prims ffi lookup sel dnu g (S (length hs)) x) s (fun t s' => t.1 = hd :: hs /\ delivered cap base h r value t.2 s').
Proof using Hcap Hroom Hplain Hcalls Hg.
  revert x. induction hs as [|hd' hs IH]; intros x s hd Hsus; cbn [length]; cbn [run_handlers];
    (eapply wp_one_handler; [exact Hsus|]).
  - intros o s' Hd. apply wp_bind, wp_ret, wp_ret. by split.
  - intros o s' [-> Hsus']. apply wp_bind. eapply wp_mono; [apply (IH None _ _ Hsus')|]. intros t s'' [Ht Hd]. apply wp_ret. cbn [fst snd]. by rewrite Ht.
Qed.

(** ** The handler of a normal return *)
Definition intercepting (hd : aval) (f : fr) (fs : list fr) (s : vm) : Prop := exists x,
  stack_shows cap (objs s) base (x :: push_operand f value :: fs) (stack s) /\ f_arg0 x = hd /\ is_Some (closure_at (objs s) hd) /\
  f_bci x = BCI_RESUME_ENSURE_RET /\ f_marker x = nil_obj s /\ f_marker f = nil_obj s /\ serials_left s calls.

Lemma wp_intercept s f fs hd : stack_shows cap (objs s) base (f :: fs) (stack s) -> class_of (objs s) (nil_obj s) f = Some (Handler (ARef hd)) ->
  f_kind f = Ensure -> activatable (objs s) (nil_obj s) hd 0 -> serials_left s (1 + calls) ->
  zlen base + body_size (f :: fs) + 1 + max_frame <= limit ->
  wp E (full value) s (fun o s' => o = None /\ intercepting (ARef hd) (with_marker f Ensure (nil_obj s)) fs s').
Proof using Hcap Hroom Hcalls.
  intros Hs Hm Hk Ha Hser Hsz. apply wp_full. cbn [do_return_fuel].
  unfold return_from_frame. pose proof (ss_fp _ _ _ _ _ Hs ltac:(done)) as Hfp.
  apply wp_bind. eapply wp_read; [by rewrite Hfp|]. apply wp_bind. eapply wp_read; [rewrite (marker_class_eq cap _ _ [] _ _ Hs); exact Hm|].
  apply wp_bind. eapply wp_read; [apply (marker_kind_eq (pre := []) Hs)|]. rewrite Hk. unfold intercept_ensure_return.
  apply wp_bind, wp_nil. apply wp_bind. destruct (clear_marker_eq (pre := []) Hs (nil_obj s)) as (st & Est & Hst & _). rewrite Hk in Hst.
  eapply wp_update; [exact Est|]. apply wp_bind. eapply (wp_push_operand E cap _ base (with_marker f Ensure (nil_obj s)) fs).
  { exact Hst. } { change (body_size (with_marker f Ensure (nil_obj s) :: fs)) with (body_size (f :: fs)). intros. apply Hroom. unfold max_frame in Hsz. lia. }
  cbn [objs with_stack]. intros st1 Hst1.
  assert (body_size (push_operand (with_marker f Ensure (nil_obj s)) value :: fs) = body_size (f :: fs) + 1) as Hbs.
  { cbn [body_size]. unfold frame_size, push_operand. cbn [f_args f_temps f_operands set_operands with_marker]. rewrite zlen_snoc. lia. }
  eapply (wp_run_handler E cap Hcap _ base (push_operand (with_marker f Ensure (nil_obj s)) value) fs);
    [exact Hst1|by vm_compute|unfold serials_left, inU in *; cbn [next_frame_serial with_stack]; lia|exact Ha|intros; apply Hroom; lia|].
  intros x s' [Hsh Harg _ Hbci Hmk _ Hpre Hn _ Hsn]. cbn [next_frame_serial objs nil_obj with_stack] in *. apply wp_ret. split; [done|].
  exists x. rewrite Hn. split_and!; try done.
  - destruct Ha as (c & ? & ? & ? & ? & ? & ? & Hc & _). exists (hd, c). apply (closure_at_le _ _ _ _ (heap_le_prefix _ _ Hpre)). exact Hc.
  - unfold serials_left in *. rewrite Hsn. lia.
Qed.
Lemma wp_intercepted s hd f fs x : intercepting hd f fs s -> plain_bci (f_bci f) ->
  wp E (run_handlers prims ffi lookup sel dnu g 1 x) s (fun t s' => t.1 = [hd] /\ delivered cap base f fs value t.2 s').
Proof using Hcap Hg.
  intros (y & Hs & Ha & [c Hc] & Hb & Hm & Hmf & Hser) Hp. pose proof (ss_fp _ _ _ _ _ Hs ltac:(done)) as Hfp. cbn [run_handlers].
  apply wp_bind. eapply wp_read with (a := hd).
  { unfold current_closure. rewrite Hfp, (receiver_slot_eq (pre := []) Hs). cbn [mbind option_bind]. rewrite (get_receiver_slot (pre := []) Hs), Ha.
    cbn [mbind option_bind]. by rewrite Hc. }
  apply wp_bind. destruct (proj2 Hg s y _ Hs Hm) as (y' & Hs1 & Hb1 & Hm1 & Hn1 & Hle & _).
  apply wp_guest. destruct (g s) as [v s1]. cbn [fst snd] in *. apply wp_bind, wp_full.
  pose proof (ss_fp _ _ _ _ _ Hs1 ltac:(done)) as Hfp1. pose proof (fp_of_range (pre := []) Hs1) as (Hpos & _). rewrite Hfp1.
  destruct (Z.to_nat (fp_of base (y' :: push_operand f value :: fs))) as [|n] eqn:En; [lia|].
  eapply wp_unmarked; [exact Hs1|by rewrite Hm1, Hn1|]. eapply wp_pop_and_deliver; [done|exact Hs1|]. intros st Hst.
  rewrite Hb1, Hb, Z.eqb_refl. unfold resume_ensure_ret. apply wp_bind.
  eapply (wp_drop_operand E cap _ base f fs v (f_operands f ++ [value])); [exact Hst|]. intros st2 Hst2.
  apply wp_bind. eapply (wp_pop_value E cap _ base f fs value (f_operands f)); [exact Hst2|]. intros st3 Hst3. rewrite set_operands_id in Hst3.
  eapply wp_mono; [eapply wp_deliver; [exact Hst3|cbn; by rewrite Hn1|exact Hp]|].
  intros o s' Hd. apply wp_bind, wp_ret, wp_ret. by split.
Qed.
End unwinding.

(** ** What returning means *)
(** The handlers a normal return from [f] runs: an [ensure:] handler is run, an
    [ifCurtailed:] handler is not. *)
Definition return_handlers (os : list object) (nl : aval) (f : fr) : list aval :=
  match f_kind f with Ensure => armed os nl f | IfCurtailed => [] end.

(** C11. A normal return leaves its frame.  When the frame is armed with an
    [ensure:] handler, that handler runs first, exactly once, its own value is
    dropped, and the value of the protected block is what is delivered; an
    [ifCurtailed:] handler does not run.  The value then replaces the receiver
    and the arguments on the caller's operands, and the caller continues after
    its send; from an entry frame it leaves the activation.  Nothing panics,
    and the process exits only when the stack has no room for the handler. *)
Theorem return_runs_ensure cap prims ffi lookup sel dnu g calls base f fs value s :
  cap <= 2 ^ 22 -> stack_shows cap (objs s) base (f :: fs) (stack s) -> classified (objs s) (nil_obj s) [f] ->
  (forall tok, class_of (objs s) (nil_obj s) f <> Some (Token tok)) ->
  handlers_ok s (return_handlers (objs s) (nil_obj s) f) -> plain_bci (f_bci f) -> guest_ok cap base calls g -> serials_left s (1 + calls) ->
  wp (overflow cap (zlen base + body_size (f :: fs) + 1 + max_frame))
    (return_through prims ffi lookup sel dnu g (length (return_handlers (objs s) (nil_obj s) f)) value) s
    (fun t s' => t.1 = return_handlers (objs s) (nil_obj s) f /\ delivered cap base f fs value t.2 s').
Proof.
  intros Hcap Hs Hcl Hnt Hok Hp Hg Hser. unfold return_through. apply Forall_cons in Hcl as [[c Hc] _].
  unfold return_handlers, armed in *. rewrite Hc in *. destruct c as [|h|l]; [| |exfalso; by apply (Hnt l)].
  - assert (f_marker f = nil_obj s) as Hm.
    { unfold class_of, classify in Hc. case_decide; [done|]. destruct (closure_at _ _); [done|]. by destruct (array_at _ _) as [[]|]. }
    replace (match f_kind f with Ensure => [] | IfCurtailed => [] end) with (@Datatypes.nil aval) by by destruct (f_kind f).
    cbn [length run_handlers]. apply wp_bind, wp_full. eapply wp_mono; [by eapply wp_deliver|]. intros o s' Hd. apply wp_ret. by split.
  - destruct (f_kind f) eqn:Ek.
    + apply Forall_cons in Hok as [(hd & -> & Ha) _]. cbn [length]. apply wp_bind.
      set (limit := zlen base + body_size (f :: fs) + 1 + max_frame).
      assert (cap < limit -> overflow cap limit 70) as Hroom by by split.
      eapply wp_mono; [eapply (wp_intercept _ cap Hcap prims ffi lookup sel dnu base value limit Hroom calls (proj1 Hg) s f fs hd Hs Hc Ek Ha Hser); reflexivity|].
      intros o s' [-> Hi]. exact (wp_intercepted _ cap Hcap prims ffi lookup sel dnu base value calls g Hg _ _ _ _ None Hi Hp).
    + cbn [length run_handlers]. apply wp_bind, wp_full. eapply wp_mono; [by eapply wp_curtailed|]. intros o s' Hd. apply wp_ret. by split.
Qed.

(** The frames of [idle] are passed over. *)
Lemma wp_non_local_return E cap prims ffi lookup sel dnu g calls base idle inner h outer value closure limit s :
  cap <= 2 ^ 22 -> (cap < limit -> E 70) -> stack_shows cap (objs s) base (idle ++ inner ++ h :: outer) (stack s) ->
  Forall (quiet (objs s) (nil_obj s)) idle -> classified (objs s) (nil_obj s) inner ->
  f_marker h = nil_obj s -> plain_bci (f_bci h) -> nil_ok s -> guest_ok cap base calls g ->
  let hs := pending (objs s) (nil_obj s) inner in
  handlers_ok s hs -> serials_left s (serials_for calls hs) -> zlen base + body_size (inner ++ h :: outer) + max_frame <= limit ->
  wp E (non_local_return prims ffi lookup sel dnu g (length hs) (home_of base h outer) value closure) s
    (fun t s' => t.1 = hs /\ delivered cap base h outer value t.2 s').
Proof.
  intros Hcap Hroom Hs Hidle Hcl Hh Hp Hnil Hg hs Hok Hser Hsz. unfold non_local_return, unwind. apply wp_bind. eapply wp_mono.
  { eapply (wp_unwind_step E cap Hcap prims ffi lookup sel dnu base h outer value limit Hroom calls (proj1 Hg)
      (do_return prims ffi lookup sel dnu) s idle inner closure); try done. by apply full_delivers. }
  fold hs. intros step s' Hstep. destruct hs as [|hd hs'] eqn:Ehs.
  - destruct Hstep as (o & -> & Hd). apply wp_ret. by split.
  - destruct Hstep as [-> Hsus]. cbn [length]. by apply (wp_run_handlers _ cap Hcap prims ffi lookup sel dnu base h outer value Hp limit Hroom calls (proj1 Hg) g Hg).
Qed.

(** C10. A non-local return runs every armed handler between the frame that
    starts it and the home frame of the block, [ensure:] and [ifCurtailed:]
    alike, exactly once and innermost first, and then delivers its value where
    a return of the home frame would, provided each handler returns normally:
    it may call, allocate and change objects, and what it answers is dropped.
    The closure's home reference names the frame however deep below the top it
    is.  Nothing panics, and the process exits only when the stack has no room
    for a handler. *)
Theorem non_local_return_runs_handlers cap prims ffi lookup sel dnu g calls base inner h outer value closure s :
  cap <= 2 ^ 22 -> stack_shows cap (objs s) base (inner ++ h :: outer) (stack s) -> classified (objs s) (nil_obj s) inner ->
  f_marker h = nil_obj s -> plain_bci (f_bci h) -> nil_ok s -> guest_ok cap base calls g ->
  let hs := pending (objs s) (nil_obj s) inner in
  handlers_ok s hs -> serials_left s (serials_for calls hs) ->
  wp (overflow cap (zlen base + body_size (inner ++ h :: outer) + max_frame))
    (non_local_return prims ffi lookup sel dnu g (length hs) (home_of base h outer) value closure) s
    (fun t s' => t.1 = hs /\ delivered cap base h outer value t.2 s').
Proof. intros Hcap Hs Hcl Hh Hp Hnil Hg hs Hok Hser. apply (wp_non_local_return _ cap prims ffi lookup sel dnu g calls base [] inner h outer value closure (zlen base + body_size (inner ++ h :: outer) + max_frame)); try done; by split. Qed.

(** C12. A handler's own non-local return abandons the one that runs it.  When
    the innermost armed handler of a non-local return, instead of returning
    normally, makes a non-local return to the frame of any method further out,
    nearer or farther than the home that the first was for, then exactly the
    handlers up to that frame run, after it and innermost first, and that value
    is delivered where a return of that frame would; the value and the home of
    the first return play no part any more, and the handlers beyond do not run.
    Nothing panics, and the process exits only when the stack has no room. *)
Theorem handler_return_abandons cap prims ffi lookup sel dnu g0 g calls0 calls base idle m mid h outer between h2 outer2 hd value value2 closure s :
  cap <= 2 ^ 22 -> stack_shows cap (objs s) base (idle ++ m :: mid ++ h :: outer) (stack s) ->
  Forall (quiet (objs s) (nil_obj s)) idle -> class_of (objs s) (nil_obj s) m = Some (Handler (ARef hd)) -> activatable (objs s) (nil_obj s) hd 0 ->
  mid ++ h :: outer = between ++ h2 :: outer2 -> classified (objs s) (nil_obj s) between ->
  f_marker h2 = nil_obj s -> plain_bci (f_bci h2) -> nil_ok s -> guest_ok cap base calls0 g0 -> guest_ok cap base calls g ->
  let hs := pending (objs s) (nil_obj s) between in
  handlers_ok s hs -> serials_left s (1 + calls0 + serials_for calls hs) ->
  wp (overflow cap (zlen base + body_size (m :: mid ++ h :: outer) + max_frame))
    (handler_returns prims ffi lookup sel dnu g g0 (length hs) (home_of base h outer) value closure (home_of base h2 outer2) value2) s
    (fun t s' => t.1 = ARef hd :: hs /\ delivered cap base h2 outer2 value2 t.2 s').
Proof.
  intros Hcap Hs Hidle Hm Ha Hsplit Hcl Hh Hp Hnil Hg0 Hg hs Hok Hser. set (limit := zlen base + body_size (m :: mid ++ h :: outer) + max_frame).
  assert (cap < limit -> overflow cap limit 70) as Hroom by by split. destruct Hg0 as [Hc0 Hg0]. pose proof (proj1 Hg) as Hc1.
  assert (inU 32 (next_frame_serial s) /\ inU 32 (next_frame_serial s + 1)) as Hser1 by (unfold serials_left, serials_for, inU in *; nia).
  unfold handler_returns, unwind. apply wp_bind. eapply (wp_continue_handler _ cap Hcap); [exact Hs|done|exact Hm|done|exact Hser1|intros; apply Hroom; unfold limit; lia|].
  intros o f s1 Htok [Hsh Harg _ Hbci Hmk _ Hpre Hn _ Hsn]. cbn [next_frame_serial objs nil_obj with_objs] in *.
  pose proof (heap_le_prefix _ _ Hpre) as Hle'. pose proof (transitivity (heap_le_app (objs s) [o]) Hle') as Hle1. set (tok := length (objs s)) in *.
  assert (is_Some (closure_at (objs s1) (ARef hd))) as [c Hc].
  { destruct Ha as (c & ? & ? & ? & ? & ? & ? & Hc & _). exists (hd, c). by apply (closure_at_le _ _ _ _ Hle1). }
  assert (objs s1 !! tok = Some o) as Hot1 by (destruct Hpre as [ys ->]; rewrite <- app_assoc, lookup_app_r by done; by rewrite Nat.sub_diag).
  pose proof (ss_fp _ _ _ _ _ Hsh ltac:(done)) as Hfp. apply wp_bind. eapply wp_read with (a := ARef hd).
  { unfold current_closure. rewrite Hfp, (receiver_slot_eq (pre := []) Hsh). cbn [mbind option_bind]. rewrite (get_receiver_slot (pre := []) Hsh), Harg.
    cbn [mbind option_bind]. by rewrite Hc. }
  apply wp_bind. destruct (Hg0 s1 f _ Hsh ltac:(congruence)) as (f' & Hs2 & _ & Hm2 & Hn2 & Hle2 & Htok2 & Hser2).
  apply wp_guest. destruct (g0 s1) as [v s2]. cbn [fst snd] in *. specialize (Htok2 _ tok eq_refl eq_refl). rewrite Hot1 in Htok2.
  assert (nil_obj s2 = nil_obj s) as Hn02 by congruence. pose proof (transitivity Hle1 Hle2) as Hle. destruct (pending_le _ _ (nil_obj s) _ Hle Hcl) as [Hp' Hcl'].
  assert (Forall (quiet (objs s2) (nil_obj s2)) [f'; awaiting m tok]) as Hq2.
  { rewrite Hn02. constructor; [apply nil_quiet; congruence|]. constructor; [|constructor]. eapply token_quiet; [exact Htok2|exact Htok|].
    unfold nil_ok in Hnil. destruct (nil_obj s); [done|]. intros [= ->]. unfold tok in *. lia. }
  apply wp_bind. change (f' :: awaiting m tok :: mid ++ h :: outer) with ([f'; awaiting m tok] ++ mid ++ h :: outer) in Hs2. rewrite Hsplit in Hs2.
  replace (length hs) with (length (pending (objs s2) (nil_obj s2) between)) by by rewrite Hn02, Hp'.
  eapply wp_mono; [eapply (wp_non_local_return _ cap prims ffi lookup sel dnu g calls base [f'; awaiting m tok] between h2 outer2 value2 (Some (ARef hd)) limit s2);
    [done|done|exact Hs2|exact Hq2|by rewrite Hn02|congruence|done|by eapply nil_ok_le|done|..]|].
  - rewrite Hn02, Hp'. by eapply handlers_ok_le.
  - rewrite Hn02, Hp'. fold hs. unfold serials_left in *. lia.
  - unfold limit. cbn [body_size]. rewrite <- Hsplit. pose proof (frame_size_pos m). lia.
  - rewrite Hn02, Hp'. intros t s3 [-> Hd]. by apply wp_ret.
Qed.

(** ** A machine *)
(** A method has sent [value] to a block of another method's, protected by a
    handler; the objects are nil, a method, a block, and three closures. *)
Definition flags_word (block : bool) : Z := default 0 (MethodFlags.set_flags 0 0 false block true false 0).
Definition demo_method (block : bool) : object := OMethod (MkMethod (flags_word block) 0 0 [] []).
Definition demo_closure (home : Z) : object := OClosure (MkClosure 2 home [ARef 0]).
Definition demo_frame (m : nat) (a0 : aval) (bci serial : Z) (kind : MarkerKind) (marker : aval) : fr :=
  MkFr m a0 [] bci (ARef 0) (ARef 0) serial kind marker [] [].
Definition demo_caller : fr := demo_frame 1 (ARef 0) 0 0 Ensure (ARef 0).
Definition demo_home : fr := demo_frame 1 (ARef 0) 4 1 Ensure (ARef 0).
Definition demo_protected (kind : MarkerKind) : fr := demo_frame 2 (ARef 3) 6 2 kind (ARef 4).
Definition demo_block : fr := demo_frame 2 (ARef 5) 3 3 Ensure (ARef 0).
Definition demo_cap : Z := 400.
Definition demo_vm (fs : list fr) : vm :=
  MkVm [OFields []; demo_method false; demo_method true; demo_closure 0; demo_closure 0; demo_closure 0] (ARef 0) (ARef 0) (ARef 0)
    (MkStack (body 0 entry_link fs ++ replicate (Z.to_nat (demo_cap - body_size fs)) (AWord 0)) (body_size fs) (fp_of [] fs) true)
    4 (Some 2%nat) 3 0 None false false.
Definition demo_guest (v : aval) : guest := fun s => (v, s).
Definition run_return (n : nat) : M (list aval * option aval) :=
  return_through (fun _ => None) (fun _ _ => ret Fallthrough) (fun _ _ _ => None) (AWord 0) (fatal_exit 1) (demo_guest (AWord 8)) n (AWord 4).
Definition run_nlr (n : nat) (h : fr) (r : list fr) : M (list aval * option aval) :=
  non_local_return (fun _ => None) (fun _ _ => ret Fallthrough) (fun _ _ _ => None) (AWord 0) (fatal_exit 1) (demo_guest (AWord 8))
    n (home_of [] h r) (AWord 4) None.

Lemma demo_guest_ok cap base v : guest_ok cap base 0 (demo_guest v).
Proof. split; [done|]. intros s f fs Hs Hm. exists f. cbn. split_and!; done || lia. Qed.
Lemma demo_activatable : forall fs, activatable (objs (demo_vm fs)) (ARef 0) 4 0.
Proof. intros fs. eexists _, _, false, (ARef 0), (ARef 0), [], 0. split_and!; [done|split; done|done]. Qed.
Lemma demo_shows fs : fs <> [] -> body_size fs <= demo_cap -> Forall (frame_ok (objs (demo_vm []))) fs ->
  stack_shows demo_cap (objs (demo_vm fs)) [] fs (stack (demo_vm fs)).
Proof.
  intros Hne Hsz Ho. split; cbn [stack demo_vm slots sp fp has_frame objs].
  - eexists. done.
  - done.
  - rewrite zlen_app, body_len. unfold zlen. rewrite length_replicate. lia.
  - done.
  - by destruct fs.
  - exact Ho.
Qed.
Lemma demo_frame_ok : forall k, Forall (frame_ok (objs (demo_vm []))) [demo_block; demo_protected k; demo_home; demo_caller].
Proof. intros k. repeat constructor; try done; (eexists; split_and!; done). Qed.

Definition demo_rest : list fr := [demo_home; demo_caller].
Definition demo_armed : list fr := demo_protected Ensure :: demo_rest.
Lemma demo_return_handlers : return_handlers (objs (demo_vm demo_armed)) (nil_obj (demo_vm demo_armed)) (demo_protected Ensure) = [ARef 4].
Proof. by vm_compute. Qed.
Lemma return_runs_ensure_witness : wp (overflow demo_cap (0 + body_size demo_armed + 1 + max_frame)) (run_return 1) (demo_vm demo_armed)
  (fun t s' => t.1 = [ARef 4] /\ delivered demo_cap [] (demo_protected Ensure) demo_rest (AWord 4) t.2 s').
Proof.
  pose proof (demo_frame_ok Ensure) as Ho. apply Forall_cons in Ho as [_ Ho].
  pose proof (return_runs_ensure demo_cap (fun _ => None) (fun _ _ => ret Fallthrough) (fun _ _ _ => None) (AWord 0) (fatal_exit 1)
    (demo_guest (AWord 8)) 0 [] (demo_protected Ensure) demo_rest (AWord 4) (demo_vm demo_armed)) as H.
  rewrite demo_return_handlers in H. apply H; clear H.
  - done.
  - by apply demo_shows.
  - repeat constructor. by eexists.
  - done.
  - repeat constructor. exists 4%nat. split; [done|apply demo_activatable].
  - done.
  - apply demo_guest_ok.
  - done.
Defined.
Definition demo_inner : list fr := [demo_block; demo_protected IfCurtailed].
Definition demo_stack : list fr := demo_inner ++ [demo_home; demo_caller].
Lemma demo_pending : pending (objs (demo_vm demo_stack)) (nil_obj (demo_vm demo_stack)) demo_inner = [ARef 4].
Proof. by vm_compute. Qed.
Lemma non_local_return_runs_handlers_witness : wp (overflow demo_cap (0 + body_size demo_stack + max_frame))
  (run_nlr 1 demo_home [demo_caller]) (demo_vm demo_stack)
  (fun t s' => t.1 = [ARef 4] /\ delivered demo_cap [] demo_home [demo_caller] (AWord 4) t.2 s').
Proof.
  pose proof (non_local_return_runs_handlers demo_cap (fun _ => None) (fun _ _ => ret Fallthrough) (fun _ _ _ => None) (AWord 0) (fatal_exit 1)
    (demo_guest (AWord 8)) 0 [] demo_inner demo_home [demo_caller] (AWord 4) None (demo_vm demo_stack)) as H.
  cbn zeta in H. rewrite demo_pending in H. apply H; clear H.
  - done.
  - by apply demo_shows, demo_frame_ok.
  - repeat constructor; by eexists.
  - done.
  - done.
  - by apply Nat.ltb_lt.
  - apply demo_guest_ok.
  - repeat constructor. exists 4%nat. split; [done|apply demo_activatable].
  - done.
Defined.
(** The handler returns from the caller of the home method, with 9. *)
Definition run_abandoning : M (list aval * option aval) :=
  handler_returns (fun _ => None) (fun _ _ => ret Fallthrough) (fun _ _ _ => None) (AWord 0) (fatal_exit 1) (demo_guest (AWord 8)) (demo_guest (AWord 8)) 0
    (home_of [] demo_home [demo_caller]) (AWord 4) None (home_of [] demo_caller []) (AWord 36).
Lemma handler_return_abandons_witness : wp (overflow demo_cap (0 + body_size [demo_protected IfCurtailed; demo_home; demo_caller] + max_frame))
  run_abandoning (demo_vm demo_stack) (fun t s' => t.1 = [ARef 4] /\ delivered demo_cap [] demo_caller [] (AWord 36) t.2 s').
Proof.
  apply (handler_return_abandons demo_cap (fun _ => None) (fun _ _ => ret Fallthrough) (fun _ _ _ => None) (AWord 0) (fatal_exit 1)
    (demo_guest (AWord 8)) (demo_guest (AWord 8)) 0 0 [] [demo_block] (demo_protected IfCurtailed) [] demo_home [demo_caller] [demo_home] demo_caller [] 4
    (AWord 4) (AWord 36) None (demo_vm demo_stack)).
  - done.
  - by apply demo_shows, demo_frame_ok.
  - constructor; [by apply nil_quiet|constructor].
  - done.
  - apply demo_activatable.
  - done.
  - repeat constructor; by eexists.
  - done.
  - done.
  - by apply Nat.ltb_lt.
  - apply demo_guest_ok.
  - apply demo_guest_ok.
  - constructor.
  - done.
Defined.
End NonLocalReturn.
