(* ===== verification/Closures.v ===== *)
(** Closures: what [push_closure] captures is what the block finds, and the
    home a closure carries is the frame of the method it was written in. *)
From S2P Require Import Prelude Oops Packed Heap ObjectGraph Process FrameList Activation MachineLogic ActivationCorrect Unwind UnwindCorrect NonLocalReturn.
#[local] Open Scope Z_scope.

Module Closures.
Import ObjectGraph Process FrameList Activation MachineLogic ActivationCorrect Unwind UnwindCorrect NonLocalReturn.
#[local] Open Scope process_scope.

Lemma read_slots_in_use cap vs : forall img st, in_use cap (img ++ vs) st -> read_slots st (zlen img) (zlen vs) = Some vs.
Proof.
  unfold read_slots. induction vs as [|v vs IH]; intros img st Hi; [rewrite zlen_nil; by rewrite zrange_nil by lia|].
  rewrite zlen_cons. pose proof (zlen_nonneg vs). rewrite zrange_cons by lia. cbn [mapM].
  rewrite (in_use_get _ _ _ _ Hi) by (rewrite zlen_app, zlen_cons; lia). rewrite zlookup_mid. cbn [mbind option_bind].
  specialize (IH (img ++ [v]) st). rewrite <- app_assoc in IH. specialize (IH Hi). rewrite zlen_snoc in IH.
  replace (zlen img + (1 + zlen vs)) with (zlen img + 1 + zlen vs) by lia. by rewrite IH.
Qed.

(** The home a closure made by frame [f] over [fs] carries. *)
Definition closure_home (os : list object) (base : list aval) (f : fr) (fs : list fr) : option Z :=
  '(_, m) ← method_at os (ARef (f_method f));
  b ← is_block m;
  match b with
  | true => '(_, c) ← closure_at os (f_arg0 f); Some (c_home c)
  | false => HomeRef.pack_home_ref (home_of base f fs)
  end.
Lemma home_ref_eq cap s base f fs : cap <= 2 ^ 22 -> stack_shows cap (objs s) base (f :: fs) (stack s) ->
  home_ref_for_new_closure s = closure_home (objs s) base f fs.
Proof.
  intros Hcap Hs. unfold home_ref_for_new_closure, closure_home. rewrite (ss_fp _ _ _ _ _ Hs) by done.
  destruct (frame_method_eq (pre := []) Hs) as (m & -> & _ & _ & Eo). cbn [mbind option_bind method_at]. rewrite Eo. cbn [mbind option_bind].
  destruct (is_block m) as [[]|]; cbn [mbind option_bind]; [|by rewrite (serial_eq (pre := []) Hs)|done].
  rewrite (receiver_slot_eq (pre := []) Hs). cbn [mbind option_bind]. by rewrite (get_receiver_slot (pre := []) Hs).
Qed.

Definition captured (f : fr) (cc : bool) (vals : list aval) : list aval := f_receiver f :: (if cc then [f_ctx f] else []) ++ vals.
Section making.
Context (E : Z -> Prop) (cap : Z) (Hcap : cap <= 2 ^ 22).
Lemma wp_make_closure s base f fs ops vals id m (cc : bool) home (Q : nat -> vm -> Prop) :
  stack_shows cap (objs s) base (set_operands f (ops ++ vals) :: fs) (stack s) -> objs s !! id = Some (OMethod m) ->
  is_block m = Some true -> captures_ctx m = Some cc -> closure_home (objs s) base f fs = Some home ->
  (forall st, let os := objs s ++ [OClosure (MkClosure id home (captured f cc vals))] in
     stack_shows cap os base (set_operands f ops :: fs) st -> Q (length (objs s)) (with_stack (with_objs s os) st)) ->
  wp E (make_closure id (zlen vals)) s Q.
Proof using Hcap.
  intros Hs Ho Hb Hcc Hhome HQ. unfold make_closure. pose proof (shows_use _ _ _ _ _ _ _ Hs) as Hi. rewrite app_assoc in Hi.
  pose proof (iu_sp _ _ _ Hi) as Hsp. rewrite zlen_app in Hsp. pose proof (zlen_nonneg (image base (set_operands f [] :: fs) ++ ops)).
  apply wp_bind. eapply wp_read with (a := (id, m)); [cbn; by rewrite Ho|]. cbn [snd]. apply wp_bind. eapply wp_read; [exact Hb|]. cbn [negb].
  apply wp_bind. eapply wp_read; [exact Hcc|]. apply wp_bind. eapply wp_read with (a := zlen (image base (set_operands f [] :: fs) ++ ops)).
  { destruct (Z.ltb_spec (sp (stack s)) (zlen vals)); [lia|]. f_equal. lia. }
  apply wp_bind. eapply wp_read; [exact (read_slots_in_use _ _ _ _ Hi)|]. apply wp_bind. eapply wp_update; [done|].
  set (st := set_sp (stack s) _).
  assert (stack_shows cap (objs s) base (set_operands f ops :: fs) st) as Hst.
  { eapply (shows_operands cap _ _ f); [exact Hs|exact (in_use_truncate _ _ _ _ Hi)|done|]. cbn. apply (ss_has _ _ _ _ _ Hs). }
  pose proof (ss_fp _ _ _ _ _ Hst ltac:(done)) as Hfp.
  apply wp_bind. eapply wp_read; [cbn [stack with_stack]; rewrite Hfp; apply (receiver_eq (pre := []) Hst)|].
  apply wp_bind. eapply wp_read with (a := if cc then [f_ctx f] else []).
  { destruct cc; [|done]. cbn [stack with_stack]. rewrite Hfp, (context_eq (pre := []) Hst). done. }
  apply wp_bind. eapply wp_read.
  { rewrite (home_ref_eq cap _ base (set_operands f ops) fs Hcap) by exact Hst. exact Hhome. }
  apply wp_alloc. cbn [objs with_stack]. change (with_objs (with_stack s st) ?os) with (with_stack (with_objs s os) st).
  apply HQ. eapply shows_le; [apply heap_le_app|exact Hst].
Qed.
End making.

(** The closure that a frame makes of a block. *)
Definition made (os : list object) (f : fr) (cl id : nat) (home : Z) (cc : bool) (vals : list aval) : Prop :=
  os !! cl = Some (OClosure (MkClosure id home (captured f cc vals))).
Lemma made_fits os f cl id home (cc : bool) vals m nt nl : made os f cl id home cc vals -> os !! id = Some (OMethod m) -> captures_ctx m = Some cc ->
  ntemps m = Some nt -> zlen vals <= nt ->
  closure_at os (ARef cl) = Some (cl, MkClosure id home (captured f cc vals)) /\
  closure_fits os (MkClosure id home (captured f cc vals)) m cc (f_receiver f) (if cc then f_ctx f else nl) vals nt nl.
Proof.
  unfold made. intros Hc Ho Hcc Hnt Hl. split; [cbn; by rewrite Hc|]. split; [cbn; by rewrite Ho|done|done| | |done].
  - cbn. unfold captured. by destruct cc.
  - by intros ->.
Qed.

(** The frame of a block activated with [args]: it sees the receiver of the
    frame that made the closure, its arguments, the captured values and then
    nil; its context is linked to the maker's, or is the maker's. *)
Definition block_frame (s : vm) (f : fr) (cl id : nat) (args vals : list aval) (nt : Z) (cc hc : bool) : fr :=
  activation_frame s id (ARef cl) args (context_after hc (objs s) (if cc then f_ctx f else nil_obj s)) (f_receiver f)
    (vals ++ replicate (Z.to_nat (nt - zlen vals)) (nil_obj s)).

(** What the code of a block finds in its frame. *)
Definition finds (s : vm) (self : aval) (args vals : list aval) (enclosing : aval) (hc : bool) : Prop :=
  let fp := fp (stack s) in
  Frame.receiver (stack s) fp = Some self /\
  (forall i v, (args ++ vals) !! i = Some v -> Frame.temp (objs s) (stack s) fp (Z.of_nat i) = Some v) /\
  exists c, Frame.context (stack s) fp = Some c /\ (if hc then ctx_hops (objs s) 1 c = Some enclosing else c = enclosing).

Lemma block_frame_finds cap s base f fs cl id args vals nt nc (cc hc : bool) s' :
  let enclosing := if cc then f_ctx f else nil_obj s in
  activated cap s base fs (heap_after hc (objs s) enclosing nc (nil_obj s)) (block_frame s f cl id args vals nt cc hc) s' ->
  finds s' (f_receiver f) args vals enclosing hc.
Proof.
  intros enclosing (st & -> & Hs). unfold finds. cbn [stack objs with_regs with_serial with_stack with_objs].
  rewrite (ss_fp _ _ _ _ _ Hs) by done. split_and!.
  - by rewrite (receiver_eq (pre := []) Hs).
  - intros i v Hi. rewrite (temp_eq (pre := []) Hs) by lia. unfold zlookup. destruct (Z.ltb_spec (Z.of_nat i) 0); [lia|]. rewrite Nat2Z.id.
    unfold locals, block_frame, activation_frame. cbn [f_args f_temps]. rewrite app_assoc. by apply lookup_app_l_Some.
  - exists (context_after hc (objs s) enclosing). rewrite (context_eq (pre := []) Hs). split; [done|]. destruct hc; [|done].
    cbn [ctx_hops context_after heap_after context_at]. rewrite lookup_app_r by lia. by rewrite Nat.sub_diag.
Qed.

(** C14. Making a closure takes the captured values off the operands and does
    nothing else to the stack.  Whenever and wherever the closure is activated
    later, with as many arguments as its block takes, the block's code finds
    the receiver of the frame that made the closure, its arguments, then the
    captured values in the order they were pushed, and the maker's context as
    its own or as the one its own is linked to.  A closure made by a method
    carries that very frame as its home; one made by a block carries the home
    of the closure that the block runs for. *)
Theorem closure_captures cap s base f fs ops vals id m (cc hc : bool) nt nc home :
  cap <= 2 ^ 22 -> stack_shows cap (objs s) base (set_operands f (ops ++ vals) :: fs) (stack s) -> objs s !! id = Some (OMethod m) ->
  is_block m = Some true -> captures_ctx m = Some cc -> has_ctx m = Some hc -> nctx m = Some nc -> ntemps m = Some nt -> zlen vals <= nt ->
  closure_home (objs s) base f fs = Some home ->
  (forall fm, objs s !! f_method f = Some (OMethod fm) -> is_block fm = Some false -> HomeRef.unpack_home_ref home = home_of base f fs) /\
  (forall fm c, objs s !! f_method f = Some (OMethod fm) -> is_block fm = Some true -> closure_at (objs s) (f_arg0 f) = Some c -> home = c_home c.2) /\
  wp (fun _ => False) (make_closure id (zlen vals)) s (fun cl s1 =>
    stack_shows cap (objs s1) base (set_operands f ops :: fs) (stack s1) /\
    (exists c, closure_at (objs s1) (ARef cl) = Some (cl, c) /\ c_home c = home) /\
    forall s2 base2 fs2 args, heap_le (objs s1) (objs s2) -> nil_obj s2 = nil_obj s1 -> ready cap s2 base2 fs2 (ARef cl) args -> argc m = Some (zlen args) ->
      wp (overflow cap (zlen base2 + body_size fs2 + 8 + zlen args + nt)) (activate_block_interp (ARef cl) (zlen args)) s2 (fun x s3 =>
        x = Activated /\ finds s3 (f_receiver f) args vals (if cc then f_ctx f else nil_obj s2) hc)).
Proof.
  intros Hcap Hs Ho Hb Hcc Hhc Hnc Hnt Hl Hhome. pose proof (shows_frame_ok (pre := []) Hs) as Hf. split_and!.
  - intros fm Ef Hbf. unfold closure_home, method_at in Hhome. rewrite Ef in Hhome. cbn [mbind option_bind] in Hhome. rewrite Hbf in Hhome.
    cbn [mbind option_bind] in Hhome. destruct (HomeRef.pack_home_ref_ok (home_of base f fs)) as (w & Ew & _ & Hu); [exact (home_of_ok cap Hcap _ base [] _ _ _ Hs)|congruence].
  - intros fm [k c] Ef Hbf Ec. unfold closure_home, method_at in Hhome. rewrite Ef in Hhome. cbn [mbind option_bind] in Hhome. rewrite Hbf in Hhome.
    cbn [mbind option_bind] in Hhome. rewrite Ec in Hhome. cbn in Hhome. by injection Hhome.
  - eapply wp_make_closure; [exact Hcap|exact Hs|exact Ho|exact Hb|exact Hcc|exact Hhome|]. intros st os Hst.
    assert (made os f (length (objs s)) id home cc vals) as Hmade by (unfold made, os; rewrite lookup_app_r by lia; by rewrite Nat.sub_diag).
    assert (os !! id = Some (OMethod m)) as Ho1 by (by apply lookup_app_l_Some).
    cbn [objs stack with_stack with_objs]. split_and!; [exact Hst|eexists; split; [unfold closure_at; by rewrite Hmade|done]|].
    intros s2 base2 fs2 args Hle Hnil Hr Ha. rewrite Hnil in *. cbn [nil_obj with_stack with_objs] in *.
    destruct (made_fits os f _ id home cc vals m nt (nil_obj s) Hmade Ho1 Hcc Hnt Hl) as [Hc Hfit].
    destruct (method_at_le os (objs s2) (ARef id) id m Hle) as (m' & Hm' & Hfl & _); [cbn; by rewrite Ho1|].
    assert (closure_fits (objs s2) (MkClosure id home (captured f cc vals)) m' cc (f_receiver f) (if cc then f_ctx f else nil_obj s) vals nt (nil_obj s)) as Hfit2.
    { destruct Hfit as [_ F2 F3 F4 F5 F6]. unfold captures_ctx, ntemps in *. rewrite <- Hfl in *. by split. }
    unfold argc, has_ctx, nctx in *. rewrite <- Hfl in *.
    eapply (wp_activate_block_interp _ cap Hcap s2 base2 fs2 _ _ args m' nt nc hc cc); [exact Hr|exact (closure_at_le _ _ _ _ Hle Hc)|rewrite Hnil; exact Hfit2|done..| |].
    + intros Hov. by split.
    + intros s3 Hs3. split; [done|]. rewrite Hnil in Hs3. change (nil_obj s) with (nil_obj s) in Hs3. rewrite <- Hnil in Hs3 |- *.
      exact (block_frame_finds cap s2 base2 f fs2 _ id args vals nt nc cc hc s3 Hs3).
Qed.

(** A method makes a closure of a block with one argument, one captured value
    and a context of its own. *)
Definition demo_block_method : object := OMethod (MkMethod (default 0 (MethodFlags.set_flags 1 1 true true false true 2)) 0 0 [] []).
Definition demo_making : list fr := [set_operands demo_home [AWord 12]; demo_caller].
Definition demo_maker : vm := with_objs (demo_vm demo_making) (objs (demo_vm demo_making) ++ [demo_block_method]).
Lemma demo_maker_shows : stack_shows demo_cap (objs demo_maker) [] demo_making (stack demo_maker).
Proof.
  eapply shows_le; [apply heap_le_app|]. apply demo_shows; [done|by vm_compute|].
  pose proof (demo_frame_ok Ensure) as Ho. rewrite !Forall_cons in Ho. destruct Ho as (_ & _ & H1 & H2 & _).
  constructor; [exact H1|constructor; [exact H2|constructor]].
Qed.
Lemma closure_captures_witness : exists home, wp (fun _ => False) (make_closure 6 (zlen [AWord 12])) demo_maker
  (fun cl s1 => exists c, closure_at (objs s1) (ARef cl) = Some (cl, c) /\ c_home c = home) /\
  HomeRef.unpack_home_ref home = home_of [] demo_home [demo_caller].
Proof.
  eexists. eassert (H : _) by (eapply (closure_captures demo_cap demo_maker [] demo_home [demo_caller] [] [AWord 12] 6);
    [done|exact demo_maker_shows|reflexivity|vm_compute; reflexivity..|done|vm_compute; reflexivity]).
  destruct H as (Hm & _ & Hwp). split; [|eapply Hm; [reflexivity|by vm_compute]].
  eapply wp_mono; [exact Hwp|]. by intros cl s1 (_ & ? & _).
Defined.

End Closures.
