(* ===== verification/Curtailment.v ===== *)
(** Errors run the handlers they curtail: [run_curtailment_blocks_on_error]
    ([src/src/interpreter/unwind.rs]) on the frame list. *)
From S2P Require Import Prelude Oops Packed Heap ObjectGraph Process FrameList Activation MachineLogic ActivationCorrect Unwind UnwindCorrect NonLocalReturn.
#[local] Open Scope Z_scope.

Module Curtailment.
Import ObjectGraph Process FrameList Activation MachineLogic ActivationCorrect Unwind UnwindCorrect NonLocalReturn.
#[local] Open Scope process_scope.

(** The frame without its handler. *)
Definition disarm (os : list object) (nl : aval) (f : fr) : fr :=
  match armed os nl f with [] => f | _ => with_marker f (f_kind f) nl end.
Lemma disarm_header os nl f : f_args (disarm os nl f) = f_args f /\ frame_size (disarm os nl f) = frame_size f.
Proof. unfold disarm. by destruct (armed os nl f). Qed.
Lemma disarm_armed os nl f : armed os nl (disarm os nl f) = [].
Proof.
  unfold disarm. destruct (armed os nl f) eqn:Ea; [done|]. unfold armed, class_of, classify. cbn [f_marker with_marker]. by rewrite decide_True.
Qed.
Lemma pending_disarmed os nl fs : pending os nl (map (disarm os nl) fs) = [].
Proof. induction fs as [|f fs IH]; [done|]. cbn [map]. by rewrite pending_step, disarm_armed, IH. Qed.
Lemma disarm_size os nl fs : body_size (map (disarm os nl) fs) = body_size fs.
Proof. induction fs as [|f fs IH]; [done|]. cbn [map body_size]. by rewrite IH, (proj2 (disarm_header os nl f)). Qed.
Lemma disarm_fp os nl base fs : fp_of base (map (disarm os nl) fs) = fp_of base fs.
Proof. destruct fs as [|f fs]; [done|]. unfold fp_of. cbn [map top]. by rewrite disarm_size, (proj1 (disarm_header os nl f)). Qed.

Section errors.
Context (cap : Z) (Hcap : cap <= 2 ^ 22).
Abbreviation disarmed s := (disarm (objs s) (nil_obj s)).

(** ** Collecting *)
Lemma saved_fp_opt_eq os base pre f r st : stack_shows cap os base (pre ++ f :: r) st -> saved_fp_opt st (fp_of base (f :: r)) = Some (fp_of base r).
Proof using Hcap.
  intros Hs. unfold saved_fp_opt. rewrite (ss_cap _ _ _ _ _ Hs). pose proof (fp_of_range Hs) as (? & ? & _). change FRAME_SAVED_FP with 1.
  destruct (Z.leb_spec cap (fp_of base (f :: r) + 1)); [lia|]. exact (saved_fp_eq Hcap Hs).
Qed.
Lemma clear_armed s base pre f r : stack_shows cap (objs s) base (pre ++ f :: r) (stack s) -> is_Some (class_of (objs s) (nil_obj s) f) ->
  exists st, (let! c := read (fun s => marker_class s (fp_of base (f :: r))) in
     match c with
     | Handler h => let! nl := nil in update (fun s => Frame.clear_marker (stack s) (fp_of base (f :: r)) nl) ;; ret [h]
     | _ => ret []
     end) s = Some (Done (armed (objs s) (nil_obj s) f, with_stack s st)) /\
    stack_shows cap (objs s) base (pre ++ disarmed s f :: r) st /\ fp st = fp (stack s).
Proof.
  intros Hs [c Hc]. unfold bind, read. rewrite (marker_class_eq _ _ _ _ _ _ Hs), Hc. cbn [mbind option_bind].
  unfold disarm, armed. rewrite Hc. destruct c as [|h|l].
  1, 3: exists (stack s); split; [by destruct s|done].
  unfold nil, update. destruct (clear_marker_eq Hs (nil_obj s)) as (st & Est & Hst & Hf). rewrite Est. by exists st.
Qed.
Lemma collect_eq base fs : forall n pre s, stack_shows cap (objs s) base (pre ++ fs) (stack s) -> classified (objs s) (nil_obj s) fs ->
  fs <> [] -> (length fs <= n)%nat ->
  exists st, collect_handlers n (fp_of base fs) s = Some (Done (pending (objs s) (nil_obj s) fs, with_stack s st)) /\
    stack_shows cap (objs s) base (pre ++ map (disarmed s) fs) st /\ fp st = fp (stack s).
Proof using Hcap.
  induction fs as [|f fs IH]; intros n pre s Hs Hc Hne Hn; [done|]. apply Forall_cons in Hc as [Hf Hc].
  destruct n as [|n]; [cbn in Hn; lia|]. cbn [collect_handlers].
  destruct (clear_armed _ _ _ _ _ Hs Hf) as (st & E & Hst & Hfp). unfold bind in E |- *. destruct (read _ s) as [[?|[c s0]]|]; try done. rewrite E.
  unfold read. cbn [mbind option_bind stack with_stack]. destruct (disarm_header (objs s) (nil_obj s) f) as [Ha Hsz].
  assert (fp_of base (f :: fs) = fp_of base (disarmed s f :: fs)) as Efp by (unfold fp_of; cbn [top]; by rewrite Ha).
  rewrite Efp, (saved_fp_opt_eq _ _ _ _ _ _ Hst). rewrite pending_step. cbn [map].
  destruct fs as [|g fs].
  - change (fp_of base [] =? ENTRY_FRAME_SENTINEL) with true. cbn [map pending mbind list_bind]. rewrite app_nil_r. by exists st.
  - pose proof (shows_shift _ _ _ _ _ _ _ Hst) as Hst'. destruct (fp_of_u64 cap Hcap _ _ _ _ _ _ Hst') as [Hu ->]. rewrite Hu.
    destruct (IH n (pre ++ [disarmed s f]) (with_stack s st) Hst' Hc ltac:(done) ltac:(cbn in *; lia)) as (st2 & -> & Hst2 & Hfp2).
    exists st2. split; [done|]. split; [by rewrite <- app_assoc in Hst2|]. cbn [stack with_stack] in Hfp2. congruence.
Qed.

(** ** Running *)
(** What runs a block on an entry frame of its own ends there: the frame is
    gone and the words below it are as they were.  A block that is still running
    when an error is raised never comes back here: the error leaves the whole
    computation. *)
Definition dispatch_ok (calls : Z) (g : guest) : Prop := 0 <= calls /\ forall s img f,
  stack_shows cap (objs s) img [f] (stack s) -> f_marker f = nil_obj s ->
  in_use cap img (stack (g s).2) /\ nil_obj (g s).2 = nil_obj s /\ heap_le (objs s) (objs (g s).2) /\
  curtailing_on_error (g s).2 = curtailing_on_error s /\ next_frame_serial s <= next_frame_serial (g s).2 <= next_frame_serial s + calls.
Definition as_dispatch (g : guest) : M aval := fun s => Some (Done (g s)).
(** A block has run: the frames and the registers are as before. *)
Definition calm (base : list aval) (fs : list fr) (n : Z) (s s' : vm) : Prop :=
  stack_shows cap (objs s') base fs (stack s') /\ heap_le (objs s) (objs s') /\ nil_obj s' = nil_obj s /\
  regs_method s' = regs_method s /\ regs_bci s' = regs_bci s /\ curtailing_on_error s' = curtailing_on_error s /\
  next_frame_serial s <= next_frame_serial s' <= next_frame_serial s + n.

Context (E : Z -> Prop) (g : guest) (calls : Z) (Hg : dispatch_ok calls g).
Lemma wp_run_block s base f fs hd : stack_shows cap (objs s) base (f :: fs) (stack s) -> activatable (objs s) (nil_obj s) hd 0 ->
  serials_left s 1 -> (cap < zlen base + body_size (f :: fs) + max_frame -> E 70) ->
  wp E (run_block_to_completion (as_dispatch g) (ARef hd)) s (fun _ s' => calm base (f :: fs) (1 + calls) s s').
Proof using Hcap Hg.
  intros Hs Ha [Hn0 Hn1] Hroom. pose proof Ha as (c & m & cc & self & enclosing & vals & nt & Hc & Hfit & Hargc).
  unfold run_block_to_completion. apply wp_bind. eapply wp_read; [exact Hc|]. apply wp_bind.
  eapply wp_read; [apply (cf_method _ _ _ _ _ _ _ _ _ Hfit)|]. apply wp_bind. eapply wp_read; [exact Hargc|]. cbn [Z.eqb negb].
  apply wp_bind. eapply wp_read; [done|]. apply wp_bind. eapply wp_read; [done|]. apply wp_bind.
  eapply wp_push; [exact (shows_in_use _ _ _ _ _ Hs)|rewrite image_len; intros; apply Hroom; unfold max_frame; lia|]. intros st (Hi & Hf & Hh).
  apply wp_bind. eapply wp_update; [done|]. apply wp_bind, wp_write. apply wp_bind. change 0 with (zlen (@Datatypes.nil aval)).
  eapply wp_activate_closure with (base := image base (f :: fs)) (fs := []) (cap := cap); [done|..].
  - split; [|done|constructor|done|unfold inU; cbn; lia]. unfold image at 1. cbn [body]. rewrite app_nil_r.
    destruct Hi as [[junk Ej] Hsp Hz]. split; [by exists junk|done..].
  - exact Ha.
  - change (zlen (@Datatypes.nil aval)) with 0. rewrite image_len. intros. apply Hroom. cbn [body_size] in *. lia.
  - intros h os s' (_ & _ & _ & Hm & _) Hpre (st2 & -> & Hst2). apply wp_bind. apply wp_bind. unfold wp, as_dispatch.
    match goal with |- context [g ?x] => set (s2 := x) end. destruct Hg as [Hc0 Hd].
    destruct (Hd s2 (image base (f :: fs)) h) as (Hi2 & Hnl2 & Hle2 & Hcu2 & Hse2); [exact Hst2|exact Hm|].
    destruct (g s2) as [v s3] eqn:Es3. cbn [fst snd] in *. apply wp_ret. apply wp_bind. eapply wp_update; [done|]. apply wp_write.
    assert (heap_le (objs s) (objs s3)) as Hle by (etransitivity; [by apply heap_le_prefix|exact Hle2]).
    split; [|split; [exact Hle|]].
    + cbn [objs stack with_regs with_stack]. apply in_use_shows.
      * destruct Hi2 as [[junk Ej] Hsp Hz]. split; [by exists junk|done..].
      * intros _. exact (ss_fp _ _ _ _ _ Hs ltac:(done)).
      * exact (ss_has _ _ _ _ _ Hs).
      * exact (ss_ok _ _ _ _ _ (shows_le _ _ _ _ _ _ Hle Hs)).
    + cbn in Hnl2, Hcu2, Hse2 |- *. split_and!; try done; lia.
Qed.

Lemma calm_refl base fs s n : 0 <= n -> stack_shows cap (objs s) base fs (stack s) -> calm base fs n s s.
Proof. intros Hn Hs. split_and!; done || lia. Qed.
Lemma calm_trans base fs n n' s s' s2 : calm base fs n s s' -> calm base fs n' s' s2 -> calm base fs (n + n') s s2.
Proof.
  intros (_ & Hle & Hnl & Hr & Hb & Hc & Hn) (Hs & Hle' & Hnl' & Hr' & Hb' & Hc' & Hn'). split; [done|]. split; [by etransitivity|].
  split_and!; try congruence; lia.
Qed.
Lemma wp_run_blocks base f fs hs : forall s, stack_shows cap (objs s) base (f :: fs) (stack s) -> handlers_ok s hs ->
  serials_left s (serials_for calls hs) -> (cap < zlen base + body_size (f :: fs) + max_frame -> E 70) ->
  wp E (run_blocks (as_dispatch g) hs) s (fun _ s' => calm base (f :: fs) (serials_for calls hs) s s').
Proof using Hcap Hg.
  induction hs as [|h hs IH]; intros s Hs Hh Hn Hroom; cbn [run_blocks].
  - apply wp_ret. apply calm_refl; [unfold serials_for; cbn [length]; lia|done].
  - apply Forall_cons in Hh as [(hd & -> & Ha) Hh]. pose proof Ha as (c & _ & _ & _ & _ & _ & _ & Hc & _).
    destruct Hn as [Hn0 Hn1]. destruct Hg as [Hc0 _]. unfold serials_for in Hn1 |- *. cbn [length] in Hn1 |- *.
    apply wp_bind. eapply wp_read; [done|]. rewrite Hc. apply wp_bind. eapply wp_mono; [apply wp_run_block; [exact Hs|exact Ha|split; nia|exact Hroom]|].
    intros u s1 H1. pose proof H1 as (Hs1 & Hle1 & Hnl1 & _ & _ & _ & Hse1). eapply wp_mono.
    + apply IH; [exact Hs1|by eapply handlers_ok_le|unfold serials_left, serials_for; nia|exact Hroom].
    + intros u2 s2 H2. replace ((1 + calls) * Z.of_nat (S (length hs))) with ((1 + calls) + serials_for calls hs) by (unfold serials_for; lia).
      exact (calm_trans _ _ _ _ _ _ _ H1 H2).
Qed.
End errors.

(** C13. An error that ends a computation runs the handlers of [ensure:] and
    [ifCurtailed:] in the frames of the activation it is raised in: the frames
    from the top of the stack down to the entry frame that the interpreter was
    entered through.  [run_curtailment_blocks_on_error] takes the armed handlers
    of these frames, and each is disarmed before any block runs, so none runs
    twice; it runs exactly these blocks, innermost first, each on an entry frame
    of its own where it is assumed to finish, and afterwards the frames are as
    they were without their handlers, and so are the registers: only the
    stack's room for a frame can make it exit.  The words [base] below the entry
    frame are as they were: handlers of the activations there stay armed and do
    not run.  An error inside a handler runs none. *)
Theorem error_runs_handlers cap g calls base f fs s :
  cap <= 2 ^ 22 -> dispatch_ok cap calls g -> stack_shows cap (objs s) base (f :: fs) (stack s) ->
  let hs := pending (objs s) (nil_obj s) (f :: fs) in
  let disarmed := map (disarm (objs s) (nil_obj s)) (f :: fs) in
  classified (objs s) (nil_obj s) (f :: fs) -> handlers_ok s hs -> serials_left s (serials_for calls hs) ->
  if curtailing_on_error s then run_curtailment_blocks_on_error (as_dispatch g) s = Some (Done (tt, s))
  else
    (exists st, stack_shows cap (objs s) base disarmed st /\ pending (objs s) (nil_obj s) disarmed = [] /\
       run_curtailment_blocks_on_error (as_dispatch g) s =
       (run_blocks (as_dispatch g) hs ;; write (fun s => with_curtailing s false)) (with_stack (with_curtailing s true) st)) /\
    wp (overflow cap (zlen base + body_size (f :: fs) + max_frame)) (run_curtailment_blocks_on_error (as_dispatch g)) s
      (fun _ s' => calm cap base disarmed (serials_for calls hs) s s').
Proof.
  intros Hcap Hg Hs hs disarmed Hc Hok Hn. destruct (curtailing_on_error s) eqn:Ecu.
  { unfold run_curtailment_blocks_on_error, bind, read at 1. cbn [mbind option_bind]. by rewrite Ecu. }
  pose proof (ss_fp _ _ _ _ _ Hs ltac:(done)) as Hfp. destruct (fp_of_u64 cap Hcap _ _ [] _ _ _ Hs) as [Hu _].
  pose proof (fp_of_range (pre := []) Hs) as (Hr1 & Hr2 & _).
  destruct (collect_eq cap Hcap base (f :: fs) (chain_fuel (fp (stack s))) [] (with_curtailing s true) Hs Hc ltac:(done)) as (st & E & Hst & Hf).
  { rewrite Hfp. pose proof (fp_of_length base (f :: fs) ltac:(done)). unfold chain_fuel. lia. }
  assert (run_curtailment_blocks_on_error (as_dispatch g) s =
    (run_blocks (as_dispatch g) hs ;; write (fun s => with_curtailing s false)) (with_stack (with_curtailing s true) st)) as Er.
  { unfold run_curtailment_blocks_on_error, bind, read, write. cbn [mbind option_bind]. rewrite Ecu. cbn [mbind option_bind stack with_curtailing].
    rewrite Hfp in E |- *. destruct (Z.eqb_spec (fp_of base (f :: fs)) ENTRY_FP) as [He|_].
    { exfalso. change ENTRY_FP with (2 ^ 64 - 1) in He. lia. }
    rewrite E. done. }
  split; [by exists st; split_and!; [exact Hst|apply pending_disarmed|exact Er]|].
  unfold wp. rewrite Er. fold (wp (overflow cap (zlen base + body_size (f :: fs) + max_frame))
    (run_blocks (as_dispatch g) hs ;; write (fun s => with_curtailing s false)) (with_stack (with_curtailing s true) st)
    (fun _ s' => calm cap base disarmed (serials_for calls hs) s s')).
  apply wp_bind. cbn [app map] in Hst. eapply wp_mono.
  - eapply (wp_run_blocks cap Hcap _ g calls Hg base (disarm (objs s) (nil_obj s) f) (map (disarm (objs s) (nil_obj s)) fs));
      [exact Hst|exact Hok|exact Hn|]. intros Hfull. split; [done|]. by rewrite <- (disarm_size (objs s) (nil_obj s) (f :: fs)).
  - intros _ s1 (H1 & H2 & H3 & H4 & H5 & H6 & H7). apply wp_write. unfold calm. rewrite Ecu. exact (conj H1 (conj H2 (conj H3 (conj H4 (conj H5 (conj eq_refl H7)))))).
Qed.

(** A block that does nothing: its entry frame is left. *)
Definition demo_dispatch : guest := fun s =>
  (AWord 8, with_stack s (deactivate (set_sp (stack s) (default 0 (Frame.receiver_slot (objs s) (stack s) (fp (stack s))))))).
Lemma demo_dispatch_ok : dispatch_ok demo_cap 0 demo_dispatch.
Proof.
  split; [done|]. intros s img f Hs _. cbn [demo_dispatch snd stack with_stack objs nil_obj curtailing_on_error next_frame_serial].
  split; [|split_and!; done || lia]. pose proof (receiver_slot_eq (pre := []) Hs) as Er. rewrite <- (ss_fp _ _ _ _ _ Hs) in Er by done.
  rewrite Er. cbn [default body_size]. rewrite Z.add_0_r. apply in_use_deactivate. eapply (in_use_truncate _ img).
  pose proof (shows_in_use _ _ _ _ _ Hs) as Hi. exact Hi.
Qed.
Lemma demo_stack_pending : pending (objs (demo_vm demo_stack)) (nil_obj (demo_vm demo_stack))
  [demo_block; demo_protected IfCurtailed; demo_home; demo_caller] = [ARef 4].
Proof. reflexivity. Qed.
Lemma error_runs_handlers_witness :
  wp (overflow demo_cap (0 + body_size demo_stack + max_frame)) (run_curtailment_blocks_on_error (as_dispatch demo_dispatch)) (demo_vm demo_stack)
    (fun _ s' => calm demo_cap [] (map (disarm (objs (demo_vm demo_stack)) (ARef 0)) demo_stack) 1 (demo_vm demo_stack) s').
Proof.
  pose proof (error_runs_handlers demo_cap demo_dispatch 0 [] demo_block [demo_protected IfCurtailed; demo_home; demo_caller] (demo_vm demo_stack)) as H.
  cbn zeta in H. rewrite demo_stack_pending in H. cbn [curtailing_on_error demo_vm] in H. apply H; clear H.
  - done.
  - exact demo_dispatch_ok.
  - apply demo_shows; [done|done|apply demo_frame_ok].
  - repeat constructor; eexists; reflexivity.
  - repeat constructor. exists 4%nat. split; [done|apply demo_activatable].
  - done.
Defined.
End Curtailment.
