(* ===== verification/Interpreter.v ===== *)
(** The interpreter's dispatch loop ([src/src/interpreter/mod.rs]) and sends
    ([send.rs]), without the compiler, tracing and the debugger.

    One turn of the loop is [step]; the loop itself need not end. *)
From S2P Require Import Prelude Oops Packed Bytecode Heap ObjectGraph Process Activation Unwind.
#[local] Open Scope Z_scope.

Module Interpreter.
Import ObjectGraph Process Activation Unwind.
#[local] Open Scope process_scope.

(** Where the loop goes on, or the value it ends with. *)
Inductive control := Continue (method : nat) (bci : Z) | Return (v : aval).

(** What the loop calls of other components: the rest of the primitives and
    foreign calls, the selectors the machine sends itself, the lookup from a
    receiver's klass, the inline caches and the method a send site finds. *)
Record services := MkServices {
  other_primitives : Z -> option (list aval -> M PrimResult);
  dispatch_ffi_primitive : nat -> Z -> M PrimitiveOutcome;
  sel_cannot_return : aval; sel_must_be_boolean : aval; sel_does_not_understand : aval;
  lookup_method : vm -> aval -> aval -> option nat;
  ic_argc : vm -> nat -> Z -> option Z;
  ic_selector : vm -> nat -> Z -> option aval;
  send_target : nat -> Z -> bool -> aval -> M (option nat);
  dnu_fallback : M Empty_set }.

Section interpreter.
Context (sv : services).
Definition absurd {A} (c : M Empty_set) : M A := let! e := c in match (e : Empty_set) with end.
Definition activate (m : nat) (argc : Z) : M unit := activate_method (other_primitives sv) (dispatch_ffi_primitive sv) m argc.
Definition do_return_ (result : aval) : M (option aval) :=
  do_return (other_primitives sv) (dispatch_ffi_primitive sv) (lookup_method sv) (sel_cannot_return sv) (dnu_fallback sv) result.
Definition continue_unwind_ (home : HomeRef.home_ref) (value : aval) (closure : option aval) : M UnwindStep :=
  unwind (other_primitives sv) (dispatch_ffi_primitive sv) (lookup_method sv) (sel_cannot_return sv) (dnu_fallback sv) home value closure.

(** ** Sends *)
Definition dnu (rcvr selector : aval) (argc : Z) : M unit :=
  let! args_start := read (fun s => if sp (stack s) <? argc then None else Some (sp (stack s) - argc)) in
  let! args := read (fun s => read_slots (stack s) args_start argc) in
  let! array := alloc (OArray args) in
  truncate args_start ;;
  push (ARef array) ;;
  let! n := nil in
  let! msg := alloc (OFields [n; n]) in
  let! parked := pop_value in
  set_object msg (OFields [selector; parked]) ;;
  push (ARef msg) ;;
  let! found := read (fun s => Some (lookup_method sv s rcvr (sel_does_not_understand sv))) in
  match found with Some m => activate m 1 | None => absurd (dnu_fallback sv) end.

Definition send_generic (argc ic_idx : Z) (is_super : bool) : M unit :=
  let! caller := read regs_method in
  let! rcvr := read (fun s => get (stack s) (sp (stack s) - argc - 1)) in
  let! target := send_target sv caller ic_idx is_super rcvr in
  match target with
  | Some m => activate m argc
  | None =>
      let! caller := read regs_method in
      let! sel := read (fun s => ic_selector sv s caller ic_idx) in
      let! rcvr := read (fun s => get (stack s) (sp (stack s) - argc - 1)) in
      dnu rcvr sel argc
  end.

Definition must_be_boolean_send (method : nat) (branch_bci : Z) (t : aval) : M unit :=
  push t ;;
  write (fun s => with_regs s (Some method) branch_bci) ;;
  let! found := read (fun s => Some (lookup_method sv s t (sel_must_be_boolean sv))) in
  match found with Some m => activate m 0 | None => absurd (dnu_fallback sv) end.

(** ** Objects *)
(** Named instance variables; the machine's own kinds of object have none. *)
Definition fields_at (os : list object) (v : aval) : option (nat * list aval) :=
  match v with ARef id => match os !! id with Some (OFields l) => Some (id, l) | _ => None end | AWord _ => None end.
Definition ivar (os : list object) (v : aval) (i : Z) : option aval := '(_, l) ← fields_at os v; zlookup l i.
Definition set_ivar (os : list object) (v : aval) (i : Z) (x : aval) : option (list object) :=
  '(id, l) ← fields_at os v; l ← zset l i x; Some (<[id := OFields l]> os).
Definition set_ctx_slot (os : list object) (id : nat) (x : context) (i : Z) (v : aval) : option (list object) :=
  l ← zset (x_slots x) i v; Some (<[id := OContext (MkContext (x_home_hint x) l)]> os).
Definition update_objs (f : vm -> option (list object)) : M unit := fun s => os ← f s; Some (Done (tt, with_objs s os)).

Definition bytecode_byte_of (m : nat) (bci : Z) : M Z := read (fun s => '(_, x) ← method_at (objs s) (ARef m); bytecode_byte (m_code x) bci).
Definition read_u16_of (m : nat) (bci : Z) : M Z := read (fun s => '(_, x) ← method_at (objs s) (ARef m); read_u16 (m_code x) bci).
Definition literal (m : nat) (i : Z) : M aval := read (fun s => '(_, x) ← method_at (objs s) (ARef m); zlookup (m_literals x) i).
Definition frame_receiver : M aval := read (fun s => Frame.receiver (stack s) (fp (stack s))).
Definition top_value : M aval := read (fun s => top (stack s)).
Definition set_current_temp (t : Z) (v : aval) : M unit := update (fun s => Frame.set_temp (objs s) (stack s) (fp (stack s)) t v).
Definition current_method : M nat := read (fun s => '(id, _) ← Frame.method (objs s) (stack s) (fp (stack s)); Some id).

(** ** Control *)
(** After a return: the registers say where to go on. *)
Definition resume (result : option aval) : M control :=
  match result with
  | Some v => ret (Return v)
  | None => let! m := read regs_method in let! bci := read (fun s => Some (regs_bci s)) in ret (Continue m bci)
  end.
Definition resume_step (st : UnwindStep) : M control :=
  match st with
  | ReturnedFromHome r => resume r
  | Escaped => ret (Return (AWord NLR_SENTINEL))
  | RanHandler | CannotReturn => resume None
  end.
(** After a send: a frame was pushed, or the caller goes on at [bci]. *)
Definition after_send (fp_before : Z) (bci : M Z) : M control :=
  let! f := read (fun s => Some (fp (stack s))) in
  let! m := current_method in
  if negb (f =? fp_before) then ret (Continue m 0) else let! b := bci in ret (Continue m b).

Definition jump_back (method : nat) (target : Z) : M control :=
  let! m := the_method (ARef method) in
  let! w := read (fun _ => Counters.bump_loop_counter (m_counters m.2)) in
  set_method method (MkMethod (m_flags m.2) (m_primitive m.2) w.1 (m_code m.2) (m_literals m.2)) ;;
  (if w.2 then
     write (fun s => with_regs s (Some method) target) ;;
     let! f := current_method in
     let! m := the_method (ARef f) in
     let! w := read (fun _ => Counters.reset_loop_counter (m_counters m.2)) in
     set_method f (MkMethod (m_flags m.2) (m_primitive m.2) w (m_code m.2) (m_literals m.2))
   else ret tt) ;;
  ret (Continue method target).

Definition branch (method : nat) (bci d : Z) (taken other : vm -> aval) : M control :=
  let next := bci + 3 in
  let! t := pop_value in
  let! yes := read (fun s => Some (taken s)) in
  let! no := read (fun s => Some (other s)) in
  if decide (t = yes) then ret (Continue method (next + d))
  else if decide (t = no) then ret (Continue method next)
  else
    let! fp_before := read (fun s => Some (fp (stack s))) in
    must_be_boolean_send method bci t ;;
    after_send fp_before (read (fun s => Some (regs_bci s))).

Definition send (method : nat) (ic_idx next : Z) (is_super : bool) : M control :=
  let! argc := read (fun s => ic_argc sv s method ic_idx) in
  let! fp_before := read (fun s => Some (fp (stack s))) in
  write (fun s => with_regs s (Some method) next) ;;
  send_generic argc ic_idx is_super ;;
  let! quit := read (fun s => Some (exit_requested s)) in
  if quit then
    let! v := read (fun s => if 0 <? sp (stack s) then top (stack s) else Some (nil_obj s)) in
    ret (Return v)
  else after_send fp_before (ret next).

Definition nlr_tos (method : nat) (bci : Z) : M control :=
  let! value := pop_value in
  let! m := the_method (ARef method) in
  let! b := read (fun _ => is_block m.2) in
  if negb b then panic
  else
    write (fun s => with_regs s (Some method) bci) ;;
    let! cl := read current_closure in
    let! c := the_closure cl in
    let! st := continue_unwind_ (HomeRef.unpack_home_ref (c_home c.2)) value (Some cl) in
    resume_step st.

(** ** One turn of the loop *)
Definition step (method : nat) (bci : Z) : M control :=
  let byte i := bytecode_byte_of method (bci + i) in
  let next n := ret (Continue method (bci + n)) in
  let! op := byte 0 in
  if op =? OP_PUSH_SELF then let! r := frame_receiver in push r ;; next 1
  else if op =? OP_PUSH_NIL then let! n := nil in push n ;; next 1
  else if op =? OP_PUSH_TRUE then let! v := read (fun s => Some (true_obj s)) in push v ;; next 1
  else if op =? OP_PUSH_FALSE then let! v := read (fun s => Some (false_obj s)) in push v ;; next 1
  else if op =? OP_PUSH_SMI_I8 then let! v := byte 1 in push_smi (i8 v) ;; next 2
  else if op =? OP_PUSH_LITERAL then let! idx := byte 1 in let! l := literal method idx in push l ;; next 2
  else if op =? OP_PUSH_TEMP then
    let! t := byte 1 in let! v := read (fun s => Frame.temp (objs s) (stack s) (fp (stack s)) t) in push v ;; next 2
  else if op =? OP_STORE_TEMP then let! t := byte 1 in let! v := top_value in set_current_temp t v ;; next 2
  else if op =? OP_STORE_TEMP_POP then let! t := byte 1 in let! v := pop_value in set_current_temp t v ;; next 2
  else if op =? OP_PUSH_INSTVAR then
    let! i := byte 1 in let! r := frame_receiver in let! v := read (fun s => ivar (objs s) r i) in push v ;; next 2
  else if op =? OP_STORE_INSTVAR_POP then
    let! i := byte 1 in let! r := frame_receiver in let! v := pop_value in update_objs (fun s => set_ivar (objs s) r i v) ;; next 2
  else if op =? OP_PUSH_GLOBAL then
    let! i := byte 1 in let! a := literal method i in let! v := read (fun s => ivar (objs s) a 1) in push v ;; next 2
  else if op =? OP_STORE_GLOBAL_POP then
    let! i := byte 1 in let! a := literal method i in let! v := pop_value in update_objs (fun s => set_ivar (objs s) a 1 v) ;; next 2
  else if op =? OP_POP then let! _ := pop_value in next 1
  else if op =? OP_DUP then let! v := top_value in push v ;; next 1
  else if op =? OP_PUSH_CTX_TEMP then
    let! depth := byte 1 in let! idx := byte 2 in let! x := read (fun s => ctx_temp_walk s depth) in
    let! v := read (fun _ => zlookup (x_slots x.2) idx) in push v ;; next 3
  else if op =? OP_STORE_CTX_TEMP_POP then
    let! depth := byte 1 in let! idx := byte 2 in let! x := read (fun s => ctx_temp_walk s depth) in
    let! v := pop_value in update_objs (fun s => set_ctx_slot (objs s) x.1 x.2 idx v) ;; next 3
  else if op =? OP_PUSH_CLOSURE then
    let! lit := byte 1 in let! n := byte 2 in let! l := literal method lit in let! blk := the_method l in
    let! c := make_closure blk.1 n in push (ARef c) ;; let! m := current_method in ret (Continue m (bci + 3))
  else if op =? OP_PUSH_LITERAL_W then let! idx := read_u16_of method (bci + 1) in let! l := literal method idx in push l ;; next 3
  else if op =? OP_SEND then let! ic := byte 1 in send method ic (bci + 2) false
  else if op =? OP_SEND_SUPER then let! ic := byte 1 in send method ic (bci + 2) true
  else if op =? OP_SEND_W then let! ic := read_u16_of method (bci + 1) in send method ic (bci + 3) false
  else if op =? OP_SEND_SUPER_W then let! ic := read_u16_of method (bci + 1) in send method ic (bci + 3) true
  else if op =? OP_JUMP_FWD then let! d := read_u16_of method (bci + 1) in next (3 + d)
  else if op =? OP_JUMP_BACK then let! d := read_u16_of method (bci + 1) in if bci + 3 <? d then panic else jump_back method (bci + 3 - d)
  else if op =? OP_BR_TRUE_FWD then let! d := read_u16_of method (bci + 1) in branch method bci d true_obj false_obj
  else if op =? OP_BR_FALSE_FWD then let! d := read_u16_of method (bci + 1) in branch method bci d false_obj true_obj
  else if op =? OP_RETURN_TOS then let! r := pop_value in let! x := do_return_ r in resume x
  else if op =? OP_RETURN_SELF then let! r := frame_receiver in let! x := do_return_ r in resume x
  else if op =? OP_BLOCK_RETURN_TOS then let! r := pop_value in let! x := do_return_ r in resume x
  else if op =? OP_NLR_TOS then nlr_tos method bci
  else panic.

(** The loop, for at most [n] turns. *)
Fixpoint dispatch_from (n : nat) (method : nat) (bci : Z) : M control :=
  match n with
  | O => ret (Continue method bci)
  | S n => let! c := step method bci in match c with Continue m b => dispatch_from n m b | Return v => ret (Return v) end
  end.
End interpreter.
End Interpreter.
