(* ===== verification/InterpreterCorrect.v ===== *)
(** The interpreter runs the instructions of a method on the frame list: each
    one changes the running frame the way the instruction says, and nothing of
    the frames below. *)
From S2P Require Import Prelude Oops Packed Bytecode Heap ObjectGraph Process FrameList Activation MachineLogic ActivationCorrect Unwind UnwindCorrect NonLocalReturn Closures Interpreter.
#[local] Open Scope Z_scope.

Module InterpreterCorrect.
Import ObjectGraph Process FrameList Activation MachineLogic ActivationCorrect Unwind UnwindCorrect NonLocalReturn Closures Interpreter.
#[local] Open Scope process_scope.

Section exec.
Context (sv : services).
(** The loop's turn for an instruction that is already decoded. *)
Definition exec (method : nat) (bci next : Z) (i : Instr) : M control :=
  let continue := ret (Continue method next) in
  match i with
  | PushSelf => let! r := frame_receiver in push r ;; continue
  | PushNil => let! n := nil in push n ;; continue
  | PushTrue => let! v := read (fun s => Some (true_obj s)) in push v ;; continue
  | PushFalse => let! v := read (fun s => Some (false_obj s)) in push v ;; continue
  | PushSmi v => push_smi v ;; continue
  | PushLiteral k => let! l := literal method k in push l ;; continue
  | PushTemp t => let! v := read (fun s => Frame.temp (objs s) (stack s) (fp (stack s)) t) in push v ;; continue
  | StoreTemp t => let! v := top_value in set_current_temp t v ;; continue
  | StoreTempPop t => let! v := pop_value in set_current_temp t v ;; continue
  | PushInstvar k => let! r := frame_receiver in let! v := read (fun s => ivar (objs s) r k) in push v ;; continue
  | StoreInstvarPop k => let! r := frame_receiver in let! v := pop_value in update_objs (fun s => set_ivar (objs s) r k v) ;; continue
  | PushGlobal k => let! a := literal method k in let! v := read (fun s => ivar (objs s) a 1) in push v ;; continue
  | StoreGlobalPop k => let! a := literal method k in let! v := pop_value in update_objs (fun s => set_ivar (objs s) a 1 v) ;; continue
  | Pop => let! _ := pop_value in continue
  | Dup => let! v := top_value in push v ;; continue
  | PushCtxTemp d k =>
      let! x := read (fun s => ctx_temp_walk s d) in let! v := read (fun _ => zlookup (x_slots x.2) k) in push v ;; continue
  | StoreCtxTempPop d k =>
      let! x := read (fun s => ctx_temp_walk s d) in let! v := pop_value in update_objs (fun s => set_ctx_slot (objs s) x.1 x.2 k v) ;; continue
  | PushClosure lit n =>
      let! l := literal method lit in let! blk := the_method l in
      let! c := make_closure blk.1 n in push (ARef c) ;; let! m := current_method in ret (Continue m next)
  | Send ic is_super => send sv method ic next is_super
  | JumpFwd d => ret (Continue method (next + d))
  | JumpBack d => if next <? d then panic else jump_back method (next - d)
  | BrTrueFwd d => branch sv method bci d true_obj false_obj
  | BrFalseFwd d => branch sv method bci d false_obj true_obj
  | ReturnTos | BlockReturnTos => let! r := pop_value in let! x := do_return_ sv r in resume x
  | ReturnSelf => let! r := frame_receiver in let! x := do_return_ sv r in resume x
  | NlrTos => nlr_tos sv method bci
  end.

Lemma bind_read {A B} (f : vm -> option A) (k : A -> M B) s a : f s = Some a -> bind (read f) k s = k a s.
Proof. unfold bind, read. by intros ->. Qed.
Lemma bytecode_byte_at s m x i b : objs s !! m = Some (OMethod x) -> bytecode_byte (m_code x) i = Some b ->
  ('(_, x) ← method_at (objs s) (ARef m); bytecode_byte (m_code x) i) = Some b.
Proof. intros Ho Hb. cbn [method_at]. rewrite Ho. exact Hb. Qed.
Lemma read_u16_at s m x i v : objs s !! m = Some (OMethod x) -> read_u16 (m_code x) i = Some v ->
  ('(_, x) ← method_at (objs s) (ARef m); read_u16 (m_code x) i) = Some v.
Proof. intros Ho Hb. cbn [method_at]. rewrite Ho. exact Hb. Qed.

Ltac known E op := apply Z.eqb_eq in E; subst op.
(** An instruction without operands, with one or two bytes, with a word. *)
Ltac plain_case := intros [= <- <-]; reflexivity.
Ltac byte_case Ho := unfold op1; let b := fresh "b" in let Eb := fresh "Eb" in
  destruct (bytecode_byte _ (_ + 1)) as [b|] eqn:Eb; [|done]; cbn [mbind option_bind]; intros [= <- <-];
  unfold bytecode_byte_of at 1; rewrite (bind_read _ _ _ b) by (exact (bytecode_byte_at _ _ _ _ _ Ho Eb)); reflexivity.
Ltac bytes_case Ho := unfold op2; let b := fresh "b" in let Eb := fresh "Eb" in let c := fresh "c" in let Ec := fresh "Ec" in
  destruct (bytecode_byte _ (_ + 1)) as [b|] eqn:Eb; [|done]; cbn [mbind option_bind];
  destruct (bytecode_byte _ (_ + 2)) as [c|] eqn:Ec; [|done]; cbn [mbind option_bind]; intros [= <- <-];
  unfold bytecode_byte_of at 1; rewrite (bind_read _ _ _ b) by (exact (bytecode_byte_at _ _ _ _ _ Ho Eb));
  unfold bytecode_byte_of at 1; rewrite (bind_read _ _ _ c) by (exact (bytecode_byte_at _ _ _ _ _ Ho Ec)); reflexivity.
Ltac word_case Ho := unfold op16; let b := fresh "b" in let Eb := fresh "Eb" in
  destruct (read_u16 _ (_ + 1)) as [b|] eqn:Eb; [|done]; cbn [mbind option_bind]; intros [= <- <-];
  unfold read_u16_of at 1; rewrite (bind_read _ _ _ b) by (exact (read_u16_at _ _ _ _ _ Ho Eb)); try rewrite Z.add_assoc; reflexivity.

Lemma step_decoded m bci s x i next : objs s !! m = Some (OMethod x) -> decode_at (m_code x) bci = Some (i, next) ->
  step sv m bci s = exec m bci next i s.
Proof.
  intros Ho. unfold decode_at. destruct (bytecode_byte (m_code x) bci) as [op|] eqn:Eop; [|done]. cbn [mbind option_bind].
  unfold step. rewrite Z.add_0_r. unfold bytecode_byte_of at 1. rewrite (bind_read _ _ _ op) by (exact (bytecode_byte_at _ _ _ _ _ Ho Eop)).
  destruct (op =? OP_PUSH_SELF); [plain_case|].
  destruct (op =? OP_PUSH_NIL); [plain_case|].
  destruct (op =? OP_PUSH_TRUE); [plain_case|].
  destruct (op =? OP_PUSH_FALSE); [plain_case|].
  destruct (op =? OP_PUSH_SMI_I8); [byte_case Ho|].
  destruct (op =? OP_PUSH_LITERAL); [byte_case Ho|].
  destruct (op =? OP_PUSH_TEMP); [byte_case Ho|].
  destruct (op =? OP_STORE_TEMP); [byte_case Ho|].
  destruct (op =? OP_STORE_TEMP_POP); [byte_case Ho|].
  destruct (op =? OP_PUSH_INSTVAR); [byte_case Ho|].
  destruct (op =? OP_STORE_INSTVAR_POP); [byte_case Ho|].
  destruct (op =? OP_PUSH_GLOBAL); [byte_case Ho|].
  destruct (op =? OP_STORE_GLOBAL_POP); [byte_case Ho|].
  destruct (op =? OP_POP); [plain_case|].
  destruct (op =? OP_DUP); [plain_case|].
  destruct (op =? OP_PUSH_CTX_TEMP); [bytes_case Ho|].
  destruct (op =? OP_STORE_CTX_TEMP_POP); [bytes_case Ho|].
  destruct (op =? OP_PUSH_CLOSURE); [bytes_case Ho|].
  destruct (op =? OP_PUSH_LITERAL_W); [word_case Ho|].
  destruct (op =? OP_SEND); [byte_case Ho|].
  destruct (op =? OP_SEND_SUPER); [byte_case Ho|].
  destruct (op =? OP_SEND_W); [word_case Ho|].
  destruct (op =? OP_SEND_SUPER_W); [word_case Ho|].
  destruct (op =? OP_JUMP_FWD); [word_case Ho|].
  destruct (op =? OP_JUMP_BACK); [word_case Ho|].
  destruct (op =? OP_BR_TRUE_FWD); [word_case Ho|].
  destruct (op =? OP_BR_FALSE_FWD); [word_case Ho|].
  destruct (op =? OP_RETURN_TOS); [plain_case|].
  destruct (op =? OP_RETURN_SELF); [plain_case|].
  destruct (op =? OP_BLOCK_RETURN_TOS); [plain_case|].
  destruct (op =? OP_NLR_TOS); [plain_case|].
  done.
Qed.
End exec.

(** ** What an instruction does to the running frame *)
Definition unsnoc (l : list aval) : option (list aval * aval) := match reverse l with [] => None | v :: r => Some (reverse r, v) end.
Lemma unsnoc_Some l ops v : unsnoc l = Some (ops, v) -> l = ops ++ [v].
Proof.
  unfold unsnoc. intros H. rewrite <- (reverse_involutive l). destruct (reverse l) as [|x r]; [done|]. injection H as <- <-.
  by rewrite reverse_cons.
Qed.
Definition counted (x : method) (w : Z) : object := OMethod (MkMethod (m_flags x) (m_primitive x) w (m_code x) (m_literals x)).

(** Instructions that stay in the frame: its new contents, the objects, and
    where control goes; [None] when the frame or an object is not what the
    instruction needs, and for sends and returns. *)
Definition local_step (s : vm) (base : list aval) (f : fr) (fs : list fr) (x : method) (i : Instr) (next : Z) : option (fr * list object * Z) :=
  let pushing v := Some (push_operand f v, objs s, next) in
  let popping k := '(ops, v) ← unsnoc (f_operands f); k (set_operands f ops) v in
  let storing g t v := if decide (0 <= t < zlen (locals g)) then Some (with_local g t v, objs s, next) else None in
  let jumping taken other d := popping (fun g v => if decide (v = taken) then Some (g, objs s, next + d) else if decide (v = other) then Some (g, objs s, next) else None) in
  match i with
  | PushSelf => pushing (f_receiver f)
  | PushNil => pushing (nil_obj s)
  | PushTrue => pushing (true_obj s)
  | PushFalse => pushing (false_obj s)
  | PushSmi v => if decide (smi_range v) then pushing (smi_word v) else None
  | PushLiteral k => l ← zlookup (m_literals x) k; pushing l
  | PushTemp t => if decide (0 <= t) then v ← zlookup (locals f) t; pushing v else None
  | StoreTemp t => '(_, v) ← unsnoc (f_operands f); storing f t v
  | StoreTempPop t => popping (fun g v => storing g t v)
  | PushInstvar k => v ← ivar (objs s) (f_receiver f) k; pushing v
  | StoreInstvarPop k => popping (fun g v => os ← set_ivar (objs s) (f_receiver f) k v; Some (g, os, next))
  | PushGlobal k => a ← zlookup (m_literals x) k; v ← ivar (objs s) a 1; pushing v
  | StoreGlobalPop k => a ← zlookup (m_literals x) k; popping (fun g v => os ← set_ivar (objs s) a 1 v; Some (g, os, next))
  | Pop => popping (fun g _ => Some (g, objs s, next))
  | Dup => '(_, v) ← unsnoc (f_operands f); pushing v
  | PushCtxTemp d k => c ← ctx_hops (objs s) (Z.to_nat d) (f_ctx f); '(_, c) ← context_at (objs s) c; v ← zlookup (x_slots c) k; pushing v
  | StoreCtxTempPop d k =>
      c ← ctx_hops (objs s) (Z.to_nat d) (f_ctx f); '(id, c) ← context_at (objs s) c;
      popping (fun g v => os ← set_ctx_slot (objs s) id c k v; Some (g, os, next))
  | PushClosure lit n =>
      l ← zlookup (m_literals x) lit; '(id, blk) ← method_at (objs s) l; b ← is_block blk; cc ← captures_ctx blk; home ← closure_home (objs s) base f fs;
      let k := (length (f_operands f) - Z.to_nat n)%nat in
      if b && (0 <=? n) && (n <=? zlen (f_operands f)) then
        Some (set_operands f (take k (f_operands f) ++ [ARef (length (objs s))]),
              objs s ++ [OClosure (MkClosure id home (captured f cc (drop k (f_operands f))))], next)
      else None
  | JumpFwd d => Some (f, objs s, next + d)
  | JumpBack d =>
      if next <? d then None
      else
        '(w, limit) ← Counters.bump_loop_counter (m_counters x);
        w ← (if (limit : bool) then Counters.reset_loop_counter w else Some w);
        Some (f, <[f_method f := counted x w]> (objs s), next - d)
  | BrTrueFwd d => jumping (true_obj s) (false_obj s) d
  | BrFalseFwd d => jumping (false_obj s) (true_obj s) d
  | Send _ _ | ReturnTos | ReturnSelf | BlockReturnTos | NlrTos => None
  end.

(** What a local step leaves as it was. *)
Definition same_machine (s s' : vm) : Prop :=
  nil_obj s' = nil_obj s /\ true_obj s' = true_obj s /\ false_obj s' = false_obj s /\ next_frame_serial s' = next_frame_serial s /\
  prim_arg_base s' = prim_arg_base s /\ nlr_state s' = nlr_state s /\ curtailing_on_error s' = curtailing_on_error s /\ exit_requested s' = exit_requested s.
(** The registers, which only a backward jump that finds its counter at the
    limit writes: it leaves the method and the jump's target there. *)
Definition registers (s : vm) : option nat * Z := (regs_method s, regs_bci s).
Definition registers_after (s : vm) (m : nat) (x : method) (i : Instr) (next : Z) : option nat * Z :=
  match i with
  | JumpBack d => match Counters.bump_loop_counter (m_counters x) with Some (_, true) => (Some m, next - d) | _ => registers s end
  | _ => registers s
  end.
(** With [same_machine] and [rg], the registers, this is all of the machine. *)
Definition local_after (cap : Z) (s : vm) (base : list aval) (f : fr) (fs : list fr) (os : list object) (rg : option nat * Z) (s' : vm) : Prop :=
  objs s' = os /\ registers s' = rg /\ same_machine s s' /\ stack_shows cap os base (f :: fs) (stack s').

Section local.
Context (sv : services) (E : Z -> Prop) (cap : Z) (Hcap : cap <= 2 ^ 22).

Lemma wp_update_objs (u : vm -> option (list object)) os s (Q : unit -> vm -> Prop) : u s = Some os -> Q tt (with_objs s os) -> wp E (update_objs u) s Q.
Proof. unfold wp, update_objs. by intros ->. Qed.
Lemma heap_le_fields os id l l' : os !! id = Some (OFields l) -> length l' = length l -> heap_le os (<[id := OFields l']> os).
Proof. intros Ho Hl. by eapply heap_le_insert. Qed.
Lemma zset_length {A} (l l' : list A) i v : zset l i v = Some l' -> length l' = length l.
Proof. intros [_ ->]%zset_Some. pose proof (zlen_insert l i v). unfold zlen in *. lia. Qed.
Lemma set_ivar_le os v i x os' : set_ivar os v i x = Some os' -> heap_le os os'.
Proof.
  unfold set_ivar, fields_at. destruct v as [w|id]; [done|]. destruct (os !! id) as [[| | | |l]|] eqn:Eo; try done. cbn [mbind option_bind].
  destruct (zset l i x) as [l'|] eqn:Ez; [|done]. intros [= <-]. eapply heap_le_fields; [done|by eapply zset_length].
Qed.
Lemma set_ctx_slot_le os id x i v os' : os !! id = Some (OContext x) -> set_ctx_slot os id x i v = Some os' -> heap_le os os'.
Proof.
  intros Ho. unfold set_ctx_slot. destruct (zset (x_slots x) i v) as [l'|] eqn:Ez; [|done]. intros [= <-].
  eapply heap_le_insert; [exact Ho|]. split; [by eapply zset_length|done].
Qed.
Lemma context_at_lookup os v id x : context_at os v = Some (id, x) -> os !! id = Some (OContext x).
Proof. destruct v as [w|k]; [done|]. cbn. destruct (os !! k) as [[]|] eqn:Eo; try done. by intros [= -> ->]. Qed.
Lemma method_at_lookup os v id x : method_at os v = Some (id, x) -> os !! id = Some (OMethod x) /\ v = ARef id.
Proof. destruct v as [w|k]; [done|]. cbn. destruct (os !! k) as [[]|] eqn:Eo; try done. by intros [= -> ->]. Qed.

Context (s : vm) (base : list aval) (f : fr) (fs : list fr) (Hs : stack_shows cap (objs s) base (f :: fs) (stack s)).
Context (Hroom : cap < zlen base + body_size (f :: fs) + 1 -> E 70).

Lemma running_fp : fp (stack s) = fp_of base (f :: fs).
Proof using Hs. by apply (ss_fp _ _ _ _ _ Hs). Qed.
(** Finishing a turn. *)
Definition goes_on_with (rg : option nat * Z) (m : nat) (f' : fr) (os : list object) (next : Z) (c : control) (s' : vm) : Prop :=
  c = Continue m next /\ local_after cap s base f' fs os rg s'.
#[local] Abbreviation goes_on := (goes_on_with (registers s)).
Lemma goes_on_stack m f' next st : stack_shows cap (objs s) base (f' :: fs) st -> goes_on m f' (objs s) next (Continue m next) (with_stack s st).
Proof. intros Hst. by split_and!. Qed.
Lemma wp_push_goes_on m v next : wp E (push v ;; ret (Continue m next)) s (goes_on m (push_operand f v) (objs s) next).
Proof using Hs Hroom.
  apply wp_bind. eapply wp_push_operand; [exact Hs|intros; apply Hroom; lia|]. intros st Hst. apply wp_ret. by apply goes_on_stack.
Qed.
Lemma wp_pop_running {A} ops v (k : aval -> M A) (Q : A -> vm -> Prop) : unsnoc (f_operands f) = Some (ops, v) ->
  (forall st, stack_shows cap (objs s) base (set_operands f ops :: fs) st -> wp E (k v) (with_stack s st) Q) -> wp E (let! x := pop_value in k x) s Q.
Proof using Hs.
  intros Hu HQ. apply unsnoc_Some in Hu. apply wp_bind. eapply wp_pop_value; [|exact HQ]. rewrite <- Hu, set_operands_id. exact Hs.
Qed.
Lemma top_running ops v : unsnoc (f_operands f) = Some (ops, v) -> Process.top (stack s) = Some v.
Proof using Hs.
  intros Hu. apply unsnoc_Some in Hu. pose proof (shows_in_use _ _ _ _ _ Hs) as Hi. rewrite <- (set_operands_id f), image_operands, Hu, app_assoc in Hi.
  unfold Process.top. rewrite (iu_sp _ _ _ Hi), zlen_snoc. set (img := _ ++ ops) in *. pose proof (zlen_nonneg img).
  replace (zlen img + 1 - 1) with (zlen img) by lia. rewrite (in_use_get _ _ _ _ Hi) by (rewrite zlen_snoc; lia). by rewrite zlookup_mid.
Qed.
Lemma receiver_running : Frame.receiver (stack s) (fp (stack s)) = Some (f_receiver f).
Proof using Hs. rewrite running_fp. apply (receiver_eq (pre := []) Hs). Qed.
Lemma walk_running d c x : ctx_hops (objs s) (Z.to_nat d) (f_ctx f) = Some c -> context_at (objs s) c = Some x -> ctx_temp_walk s d = Some x.
Proof using Hs. intros Hc Hx. unfold ctx_temp_walk. rewrite running_fp, (context_eq (pre := []) Hs). cbn [mbind option_bind]. rewrite Hc. exact Hx. Qed.
Lemma literal_running m x k l : objs s !! m = Some (OMethod x) -> zlookup (m_literals x) k = Some l ->
  ('(_, x) ← method_at (objs s) (ARef m); zlookup (m_literals x) k) = Some l.
Proof. intros Ho Hl. cbn [method_at]. rewrite Ho. exact Hl. Qed.

Lemma objs_after_shows os g st : heap_le (objs s) os -> stack_shows cap (objs s) base (g :: fs) st -> stack_shows cap os base (g :: fs) st.
Proof. intros Hle Hst. by eapply shows_le. Qed.
Lemma goes_on_objs m g os next st : heap_le (objs s) os -> stack_shows cap (objs s) base (g :: fs) st ->
  goes_on m g os next (Continue m next) (with_objs (with_stack s st) os).
Proof. intros Hle Hst. split; [done|]. split_and!; [done..|]. by apply objs_after_shows. Qed.

Lemma set_temp_running t v g st : stack_shows cap (objs s) base (g :: fs) st -> 0 <= t < zlen (locals g) ->
  exists st', Frame.set_temp (objs s) st (fp st) t v = Some st' /\ stack_shows cap (objs s) base (with_local g t v :: fs) st'.
Proof.
  intros Hst Ht. rewrite (ss_fp _ _ _ _ _ Hst) by done. destruct (set_temp_eq (pre := []) Hst t v Ht) as (st' & Est & Hst' & _). by exists st'.
Qed.
Lemma wp_branch m bci d taken other next f' os bci' :
  next = bci + 3 ->
  ('(ops, v) ← unsnoc (f_operands f);
   if decide (v = taken s) then Some (set_operands f ops, objs s, next + d)
   else if decide (v = other s) then Some (set_operands f ops, objs s, next) else None) = Some (f', os, bci') ->
  (forall st, taken (with_stack s st) = taken s) -> (forall st, other (with_stack s st) = other s) ->
  wp E (branch sv m bci d taken other) s (goes_on m f' os bci').
Proof using Hs.
  intros -> Hl Ht Ho. destruct (unsnoc (f_operands f)) as [[ops v]|] eqn:Eu; [|done]. cbn [mbind option_bind] in Hl. unfold branch.
  eapply wp_pop_running; [exact Eu|]. intros st Hst. apply wp_bind. eapply wp_read; [done|]. apply wp_bind. eapply wp_read; [done|].
  rewrite Ht, Ho. destruct (decide (v = taken s)).
  - injection Hl as <- <- <-. apply wp_ret. by apply goes_on_stack.
  - destruct (decide (v = other s)); [|done]. injection Hl as <- <- <-. apply wp_ret. by apply goes_on_stack.
Qed.

Lemma wp_jump_back m x d next f' os bci' : f_method f = m -> objs s !! m = Some (OMethod x) ->
  local_step s base f fs x (JumpBack d) next = Some (f', os, bci') ->
  wp E (if next <? d then panic else jump_back m (next - d)) s (goes_on_with (registers_after s m x (JumpBack d) next) m f' os bci').
Proof using Hs.
  intros Hm Ho Hl. cbn [local_step registers_after] in *. destruct (next <? d); [done|].
  destruct (Counters.bump_loop_counter (m_counters x)) as [[w limit]|] eqn:Ew; [|done]. cbn [mbind option_bind] in Hl. rewrite Hm in Hl.
  assert (forall w, heap_le (objs s) (<[m:=counted x w]> (objs s))) as Hle by (intros w'; eapply heap_le_insert; [exact Ho|by split_and!]).
  unfold jump_back. apply wp_bind. eapply wp_read with (a := (m, x)); [cbn; by rewrite Ho|]. cbn [snd]. apply wp_bind. eapply wp_read; [exact Ew|]. cbn [fst snd].
  apply wp_bind. apply wp_set_object. apply wp_bind. change (OMethod _) with (counted x w). destruct limit.
  - destruct (Counters.reset_loop_counter w) as [w2|] eqn:Ew2; [|done]. injection Hl as <- <- <-.
    assert (<[m:=counted x w]> (objs s) !! m = Some (counted x w)) as Ho1 by (apply list_lookup_insert_eq; by eapply lookup_lt_Some).
    apply wp_bind, wp_write. apply wp_bind. unfold current_method. eapply wp_read with (a := m).
    { cbn [objs stack with_regs with_objs]. rewrite running_fp.
      pose proof (shows_le _ _ _ _ _ _ (Hle w) Hs) as Hs'. destruct (frame_method_eq (pre := []) Hs') as (m' & -> & _). cbn. by rewrite Hm. }
    apply wp_bind. eapply wp_read with (a := (m, MkMethod (m_flags x) (m_primitive x) w (m_code x) (m_literals x))); [cbn [objs with_regs with_objs method_at]; by rewrite Ho1|].
    cbn [snd m_counters m_flags m_primitive m_code m_literals]. apply wp_bind. eapply wp_read; [exact Ew2|]. apply wp_set_object.
    cbn [objs with_regs with_objs]. rewrite list_insert_insert. apply wp_ret.
    split; [done|]. split_and!; [by rewrite decide_True|done..|]. rewrite decide_True by done. cbn [stack with_regs with_objs]. eapply shows_le; [|exact Hs]. apply Hle.
  - cbn [mbind option_bind] in Hl. injection Hl as <- <- <-. apply wp_ret, wp_ret. split; [done|]. split_and!; [done..|]. eapply shows_le; [|exact Hs]. apply Hle.
Qed.

Lemma wp_push_closure m x lit n next f' os bci' : f_method f = m -> objs s !! m = Some (OMethod x) ->
  local_step s base f fs x (PushClosure lit n) next = Some (f', os, bci') ->
  wp E (let! l := literal m lit in let! blk := the_method l in
        let! c := make_closure blk.1 n in push (ARef c) ;; let! m := current_method in ret (Continue m next)) s (goes_on m f' os bci').
Proof using Hcap Hs Hroom.
  intros Hm Ho Hl. cbn [local_step] in Hl. destruct (zlookup (m_literals x) lit) as [l|] eqn:El; [|done]. cbn [mbind option_bind] in Hl.
  destruct (method_at (objs s) l) as [[id blk]|] eqn:Eb; [|done]. cbn [mbind option_bind] in Hl.
  destruct (is_block blk) as [b|] eqn:Ebl; [|done]. destruct (captures_ctx blk) as [cc|] eqn:Ecc; [|done]. cbn [mbind option_bind] in Hl.
  destruct (closure_home (objs s) base f fs) as [home|] eqn:Eh; [|done]. cbn [mbind option_bind] in Hl.
  destruct (b && (0 <=? n) && (n <=? zlen (f_operands f))) eqn:Econd; [|done]. apply andb_true_iff in Econd as [[-> Hn0%Z.leb_le]%andb_true_iff Hn1%Z.leb_le].
  set (k := (length (f_operands f) - Z.to_nat n)%nat) in *. injection Hl as <- <- <-.
  destruct (method_at_lookup _ _ _ _ Eb) as [Hid ->].
  apply wp_bind. eapply wp_read; [by eapply literal_running|]. apply wp_bind. eapply wp_read; [exact Eb|]. cbn [fst]. apply wp_bind.
  assert (zlen (drop k (f_operands f)) = n) as Hk by (unfold zlen in *; rewrite length_drop; unfold k; lia).
  rewrite <- Hk.
  eapply (wp_make_closure E cap Hcap s base f fs (take k (f_operands f))); [|exact Hid|exact Ebl|exact Ecc|exact Eh|].
  { rewrite take_drop, set_operands_id. exact Hs. }
  intros st os Hst. apply wp_bind. eapply (wp_push_operand E cap _ base (set_operands f (take k (f_operands f))) fs); [exact Hst| |].
  { intros. apply Hroom. cbn [body_size] in *. unfold frame_size in *. cbn [f_args f_temps f_operands set_operands] in *.
    assert (zlen (take k (f_operands f)) <= zlen (f_operands f)); [|lia]. unfold zlen. rewrite length_take. lia. }
  cbn [objs with_stack with_objs]. intros st2 Hst2. apply wp_bind. unfold current_method. eapply wp_read with (a := m).
  { cbn [objs stack with_stack with_objs]. rewrite (ss_fp _ _ _ _ _ Hst2) by done.
    destruct (frame_method_eq (pre := []) Hst2) as (m' & Em & _). rewrite Em. cbn. by rewrite Hm. }
  apply wp_ret. split; [done|]. split_and!; [done..|]. exact Hst2.
Qed.

Lemma exec_local m x bci i next f' os bci' : f_method f = m -> objs s !! m = Some (OMethod x) ->
  (match i with BrTrueFwd _ | BrFalseFwd _ => next = bci + 3 | _ => True end) ->
  local_step s base f fs x i next = Some (f', os, bci') ->
  wp E (exec sv m bci next i) s (goes_on_with (registers_after s m x i next) m f' os bci').
Proof using Hcap Hs Hroom.
  intros Hm Ho Hn Hl. destruct i as [| | | |k|k|t|t|t|k|k|k|k| | |d k|d k|lit n|ic is_super|d|d|d|d| | | |]; cbn [exec]; try done.
  - cbn in Hl. injection Hl as <- <- <-. apply wp_bind. eapply wp_read; [exact receiver_running|]. apply wp_push_goes_on.
  - cbn in Hl. injection Hl as <- <- <-. apply wp_bind, wp_nil. apply wp_push_goes_on.
  - cbn in Hl. injection Hl as <- <- <-. apply wp_bind. eapply wp_read; [done|]. apply wp_push_goes_on.
  - cbn in Hl. injection Hl as <- <- <-. apply wp_bind. eapply wp_read; [done|]. apply wp_push_goes_on.
  - cbn [local_step] in Hl. case_decide as Hk; [|done]. injection Hl as <- <- <-. unfold push_smi.
    assert (forall c : M control, wp E (let! v := read (fun _ => smi k) in push v ;; c) s (goes_on m (push_operand f (smi_word k)) (objs s) next) ->
      wp E ((let! v := read (fun _ => smi k) in push v) ;; c) s (goes_on m (push_operand f (smi_word k)) (objs s) next)) as Hassoc.
    { intros c. unfold wp, bind. by rewrite smi_eq. }
    apply Hassoc. apply wp_bind. eapply wp_read; [by apply smi_eq|]. apply wp_push_goes_on.
  - cbn [local_step] in Hl. destruct (zlookup (m_literals x) k) as [l|] eqn:El; [|done]. injection Hl as <- <- <-.
    apply wp_bind. eapply wp_read; [by eapply literal_running|]. apply wp_push_goes_on.
  - cbn [local_step] in Hl. case_decide; [|done]. destruct (zlookup (locals f) t) as [v|] eqn:Ev; [|done]. injection Hl as <- <- <-.
    apply wp_bind. eapply wp_read; [rewrite running_fp, (temp_eq (pre := []) Hs) by done; exact Ev|]. apply wp_push_goes_on.
  - cbn [local_step] in Hl. destruct (unsnoc (f_operands f)) as [[ops v]|] eqn:Eu; [|done]. cbn [mbind option_bind] in Hl. case_decide; [|done]. injection Hl as <- <- <-.
    apply wp_bind. eapply wp_read; [by eapply top_running|]. apply wp_bind.
    destruct (set_temp_running t v f _ Hs ltac:(done)) as (st & Est & Hst). eapply wp_update; [exact Est|]. apply wp_ret. by apply goes_on_stack.
  - cbn [local_step] in Hl. destruct (unsnoc (f_operands f)) as [[ops v]|] eqn:Eu; [|done]. cbn [mbind option_bind] in Hl. case_decide; [|done]. injection Hl as <- <- <-.
    eapply wp_pop_running; [exact Eu|]. intros st Hst. apply wp_bind.
    destruct (set_temp_running t v _ _ Hst ltac:(done)) as (st' & Est & Hst'). eapply wp_update; [exact Est|]. apply wp_ret.
    change (with_stack (with_stack s st) st') with (with_stack s st'). by apply goes_on_stack.
  - cbn [local_step] in Hl. destruct (ivar (objs s) (f_receiver f) k) as [v|] eqn:Ev; [|done]. injection Hl as <- <- <-.
    apply wp_bind. eapply wp_read; [exact receiver_running|]. apply wp_bind. eapply wp_read; [exact Ev|]. apply wp_push_goes_on.
  - cbn [local_step] in Hl. destruct (unsnoc (f_operands f)) as [[ops v]|] eqn:Eu; [|done]. cbn [mbind option_bind] in Hl.
    destruct (set_ivar (objs s) (f_receiver f) k v) as [os1|] eqn:Ei; [|done]. injection Hl as <- <- <-.
    apply wp_bind. eapply wp_read; [exact receiver_running|]. eapply wp_pop_running; [exact Eu|]. intros st Hst. apply wp_bind. eapply wp_update_objs; [exact Ei|].
    apply wp_ret. apply goes_on_objs; [by eapply set_ivar_le|done].
  - cbn [local_step] in Hl. destruct (zlookup (m_literals x) k) as [a|] eqn:El; [|done]. cbn [mbind option_bind] in Hl.
    destruct (ivar (objs s) a 1) as [v|] eqn:Ev; [|done]. injection Hl as <- <- <-.
    apply wp_bind. eapply wp_read; [by eapply literal_running|]. apply wp_bind. eapply wp_read; [exact Ev|]. apply wp_push_goes_on.
  - cbn [local_step] in Hl. destruct (zlookup (m_literals x) k) as [a|] eqn:El; [|done]. cbn [mbind option_bind] in Hl.
    destruct (unsnoc (f_operands f)) as [[ops v]|] eqn:Eu; [|done]. cbn [mbind option_bind] in Hl.
    destruct (set_ivar (objs s) a 1 v) as [os1|] eqn:Ei; [|done]. injection Hl as <- <- <-.
    apply wp_bind. eapply wp_read; [by eapply literal_running|]. eapply wp_pop_running; [exact Eu|]. intros st Hst. apply wp_bind. eapply wp_update_objs; [exact Ei|].
    apply wp_ret. apply goes_on_objs; [by eapply set_ivar_le|done].
  - cbn [local_step] in Hl. destruct (unsnoc (f_operands f)) as [[ops v]|] eqn:Eu; [|done]. injection Hl as <- <- <-.
    eapply wp_pop_running; [exact Eu|]. intros st Hst. apply wp_ret. by apply goes_on_stack.
  - cbn [local_step] in Hl. destruct (unsnoc (f_operands f)) as [[ops v]|] eqn:Eu; [|done]. injection Hl as <- <- <-.
    apply wp_bind. eapply wp_read; [by eapply top_running|]. apply wp_push_goes_on.
  - cbn [local_step] in Hl. destruct (ctx_hops (objs s) (Z.to_nat d) (f_ctx f)) as [c|] eqn:Ec; [|done]. cbn [mbind option_bind] in Hl.
    destruct (context_at (objs s) c) as [[id y]|] eqn:Ex; [|done]. cbn [mbind option_bind] in Hl. destruct (zlookup (x_slots y) k) as [v|] eqn:Ev; [|done]. injection Hl as <- <- <-.
    apply wp_bind. eapply wp_read; [by eapply walk_running|]. apply wp_bind. eapply wp_read; [exact Ev|]. apply wp_push_goes_on.
  - cbn [local_step] in Hl. destruct (ctx_hops (objs s) (Z.to_nat d) (f_ctx f)) as [c|] eqn:Ec; [|done]. cbn [mbind option_bind] in Hl.
    destruct (context_at (objs s) c) as [[id y]|] eqn:Ex; [|done]. cbn [mbind option_bind] in Hl. destruct (unsnoc (f_operands f)) as [[ops v]|] eqn:Eu; [|done].
    cbn [mbind option_bind] in Hl. destruct (set_ctx_slot (objs s) id y k v) as [os1|] eqn:Ei; [|done]. injection Hl as <- <- <-.
    apply wp_bind. eapply wp_read; [by eapply walk_running|]. eapply wp_pop_running; [exact Eu|]. intros st Hst. apply wp_bind. eapply wp_update_objs; [exact Ei|].
    apply wp_ret. apply goes_on_objs; [eapply set_ctx_slot_le; [by eapply context_at_lookup|done]|done].
  - by eapply wp_push_closure.
  - cbn in Hl. injection Hl as <- <- <-. apply wp_ret. replace s with (with_stack s (stack s)) at 2 by by destruct s. by apply goes_on_stack.
  - by eapply wp_jump_back.
  - eapply wp_branch; [exact Hn|exact Hl|done..].
  - eapply wp_branch; [exact Hn|exact Hl|done..].
Qed.
End local.

Lemma decode_branch code bci i next : decode_at code bci = Some (i, next) ->
  match i with BrTrueFwd _ | BrFalseFwd _ => next = bci + 3 | _ => True end.
Proof.
  unfold decode_at. destruct (bytecode_byte code bci) as [op|]; [|done]. cbn [mbind option_bind]. unfold op1, op2, op16.
  repeat match goal with |- (if ?b then _ else _) = _ -> _ => destruct b; [try (by intros [= <- <-])|] end; try done.
  all: repeat match goal with |- (mbind _ ?x) = _ -> _ => destruct x; [cbn [mbind option_bind]|done] end; by intros [= <- <-].
Qed.

(** Everything of a frame but its arguments, temporaries and operands. *)
Definition same_frame (f g : fr) : Prop :=
  f_method g = f_method f /\ f_arg0 g = f_arg0 f /\ f_bci g = f_bci f /\ f_ctx g = f_ctx f /\ f_receiver g = f_receiver f /\
  f_serial g = f_serial f /\ f_kind g = f_kind f /\ f_marker g = f_marker f /\
  length (f_args g) = length (f_args f) /\ length (f_temps g) = length (f_temps f).
#[export] Instance same_frame_pre : PreOrder same_frame.
Proof. split; [by intros f; split_and!|]. unfold same_frame. intros a b c. intuition congruence. Qed.
Lemma same_frame_operands f ops : same_frame f (set_operands f ops).
Proof. by split_and!. Qed.
Lemma same_frame_local f t v : same_frame f (with_local f t v).
Proof.
  unfold with_local. destruct (t <? _); split_and!; try done; unfold with_args, with_temps; cbn.
  - pose proof (zlen_insert (f_args f) t v). unfold zlen in *. lia.
  - pose proof (zlen_insert (f_temps f) (t - zlen (f_args f)) v). unfold zlen in *. lia.
Qed.
Lemma local_step_frame s base f fs x i next f' os bci' : local_step s base f fs x i next = Some (f', os, bci') -> same_frame f f'.
Proof.
  intros Hl. destruct i; cbn [local_step] in Hl; try done;
    repeat (match type of Hl with
      | mbind _ ?o = _ => destruct o as [?|] eqn:?; [cbn [mbind option_bind] in Hl|done]
      | (if decide ?P then _ else _) = _ => destruct (decide P)
      | (if ?b then _ else _) = _ => destruct b
      | (let '(_, _) := ?p in _) = _ => destruct p
      | match ?p with (_, _) => _ end = _ => destruct p
      end; try done);
    injection Hl as <- <- <-;
    repeat first [apply same_frame_operands | done | etransitivity; [|apply same_frame_local]].
Qed.

(** ** Runs *)
(** [n] turns in the running frame, with room for [room] operands. *)
Fixpoint local_run (n : nat) (room : Z) (s : vm) (base : list aval) (f : fr) (fs : list fr) (bci : Z) : option (fr * list object * Z * (option nat * Z)) :=
  match n with
  | O => Some (f, objs s, bci, registers s)
  | S n =>
      if zlen (f_operands f) <? room then
        '(_, x) ← method_at (objs s) (ARef (f_method f)); '(i, next) ← decode_at (m_code x) bci;
        '(g, os, bci) ← local_step s base f fs x i next;
        let rg := registers_after s (f_method f) x i next in
        local_run n room (with_regs (with_objs s os) rg.1 rg.2) base g fs bci
      else None
  end.

Lemma local_step_ext s s' base f fs x i next : objs s' = objs s -> same_machine s s' ->
  local_step s' base f fs x i next = local_step s base f fs x i next.
Proof. intros Ho (Hn & Ht & Hf & _). unfold local_step. by rewrite Ho, Hn, Ht, Hf. Qed.
Lemma local_run_ext n room base fs : forall s s' f bci, objs s' = objs s -> registers s' = registers s -> same_machine s s' ->
  local_run n room s' base f fs bci = local_run n room s base f fs bci.
Proof.
  induction n as [|n IH]; intros s s' f bci Ho Hrg Hm; cbn [local_run]; rewrite Ho; [by rewrite Hrg|]. destruct (_ <? room); [|done].
  destruct (method_at _ _) as [[id x]|]; [|done]. cbn [mbind option_bind]. destruct (decode_at _ _) as [[i next]|]; [|done].
  cbn [mbind option_bind]. rewrite (local_step_ext s s') by done. destruct (local_step _ _ _ _ _ _ _) as [[[f' os] bci']|]; [|done].
  cbn [mbind option_bind]. assert (registers_after s' (f_method f) x i next = registers_after s (f_method f) x i next) as -> by (unfold registers_after; by rewrite Hrg).
  by apply IH.
Qed.
Lemma same_frame_room (base : list aval) f f' fs : same_frame f f' ->
  zlen base + body_size (set_operands f' [] :: fs) = zlen base + body_size (set_operands f [] :: fs).
Proof. intros (_ & _ & _ & _ & _ & _ & _ & _ & Ha & Ht). cbn [body_size]. unfold frame_size, zlen. cbn [f_args f_temps f_operands set_operands]. by rewrite Ha, Ht. Qed.

(** C7. Refinement of the dispatch loop: as long as the instructions of a
    method stay in its frame (pushes, stores, pops, context temporaries,
    instance variables, globals, closure creation, jumps and branches on
    booleans), [n] turns of the loop over the words of the process stack do to
    the running frame, to the objects, to the program counter and to the
    registers what the instructions say, whatever they are and in whatever
    order.  The registers change only at a backward jump whose counter has
    reached its limit, which leaves the method and the target there.  The frames
    below and everything else of the machine are as they were, and the loop
    panics nowhere: it can only exit because the stack has no room for the
    operands. *)
Theorem loop_refines_instructions sv cap base fs room n s f bci f' os bci' rg :
  cap <= 2 ^ 22 -> stack_shows cap (objs s) base (f :: fs) (stack s) ->
  local_run n room s base f fs bci = Some (f', os, bci', rg) ->
  wp (overflow cap (zlen base + body_size (set_operands f [] :: fs) + room)) (dispatch_from sv n (f_method f) bci) s
    (fun c s' => c = Continue (f_method f) bci' /\ same_frame f f' /\ local_after cap s base f' fs os rg s').
Proof.
  intros Hcap. revert s f bci. induction n as [|n IH]; intros s f bci Hs; cbn [local_run dispatch_from].
  { intros [= <- <- <- <-]. apply wp_ret. by split_and!. }
  destruct (Z.ltb_spec (zlen (f_operands f)) room) as [Hroom|]; [|done].
  destruct (method_at (objs s) _) as [[id x]|] eqn:Em; [|done]. cbn [mbind option_bind].
  destruct (decode_at (m_code x) bci) as [[i next]|] eqn:Ed; [|done]. cbn [mbind option_bind].
  destruct (local_step s base f fs x i next) as [[[g os1] bci1]|] eqn:El; [|done]. cbn [mbind option_bind]. intros Hr.
  apply method_at_lookup in Em as [Ho [= <-]]. pose proof (local_step_frame _ _ _ _ _ _ _ _ _ _ El) as Hfr.
  apply wp_bind. eapply wp_mono.
  { unfold wp at 1. rewrite (step_decoded sv _ _ _ _ _ _ Ho Ed).
    eapply (exec_local sv _ cap Hcap s base f fs Hs); [|done|exact Ho|by eapply decode_branch|exact El].
    intros Hfull. split; [done|]. cbn [body_size] in *. unfold frame_size in *. cbn [f_args f_temps f_operands set_operands] in *. rewrite zlen_nil. lia. }
  intros c s1 (-> & Hos & Hrg & Hsm & Hst). rewrite <- (same_frame_room base f g fs Hfr).
  pose proof Hfr as (Hm & _). rewrite <- Hm. eapply wp_mono.
  - apply (IH s1 g bci1); [by rewrite Hos|]. rewrite <- Hr. apply local_run_ext; [by rewrite Hos| |done]. rewrite Hrg. by destruct (registers_after _ _ _ _ _).
  - intros c s2 (-> & Hfr2 & Hos2 & Hrg2 & Hsm2 & Hst2). split; [done|]. split; [by etransitivity|]. split; [done|]. split; [done|]. split; [|done].
    destruct Hsm as (?&?&?&?&?&?&?&?), Hsm2 as (?&?&?&?&?&?&?&?). split_and!; congruence.
Qed.

(** A loop: it leaves 7 and drops it, then branches back on false. *)
Definition loop_code : list Z := concat (map Encoding.encode [PushSmi 7; Pop; PushFalse; BrTrueFwd 3; JumpBack 10; ReturnSelf]).
Definition loop_method (w : Z) : object := OMethod (MkMethod (flags_word false) 0 w loop_code []).
Definition loop_frame : fr := demo_frame 3 (ARef 0) 0 0 Ensure (ARef 0).
Definition loop_vm : vm :=
  MkVm [OFields []; OFields []; OFields []; loop_method 0] (ARef 0) (ARef 1) (ARef 2)
    (MkStack (body 0 entry_link [loop_frame] ++ replicate (Z.to_nat (demo_cap - body_size [loop_frame])) (AWord 0)) (body_size [loop_frame]) (fp_of [] [loop_frame]) true)
    4 (Some 3%nat) 0 0 None false false.
Definition loop_services : services :=
  MkServices (fun _ => None) (fun _ _ => ret Fallthrough) (AWord 0) (AWord 0) (AWord 0) (fun _ _ _ => None) (fun _ _ _ => None) (fun _ _ _ => None)
    (fun _ _ _ _ => ret None) (fatal_exit 1).
(** The counter one short of its limit, and stale registers. *)
Definition hot_word : Z := 4 * Z.shiftl (Layout.LOOP_COUNTER_LIMIT - 1) 16.
Definition hot_vm : vm := with_regs (with_objs loop_vm [OFields []; OFields []; OFields []; loop_method hot_word]) None 55.
Definition hot_after : list object := [OFields []; OFields []; OFields []; loop_method 0].
Lemma loop_refines_instructions_witness :
  wp (overflow demo_cap (0 + body_size [loop_frame] + 2)) (dispatch_from loop_services 5 3 0) hot_vm
    (fun c s' => c = Continue 3 0 /\ same_frame loop_frame loop_frame /\ local_after demo_cap hot_vm [] loop_frame [] hot_after (Some 3%nat, 0) s').
Proof.
  apply (loop_refines_instructions loop_services demo_cap [] [] 2 5 hot_vm loop_frame 0 loop_frame hot_after 0 (Some 3%nat, 0)); [done| |vm_compute; reflexivity].
  split; cbn [stack hot_vm loop_vm with_regs with_objs slots sp fp has_frame objs]; [eexists; done|done|vm_compute; reflexivity|done|done|].
  repeat constructor; try done. eexists. split_and!; done.
Defined.
End InterpreterCorrect.
