(* ===== verification/StaleHome.v ===== *)
(** A home that is gone and is taken for live: a program, run by the
    interpreter from its first instruction. *)
From S2P Require Import Prelude Oops Packed Bytecode Heap ObjectGraph Process Activation Unwind Interpreter.
#[local] Open Scope Z_scope.

Module StaleHome.
Import ObjectGraph Process Activation Unwind Interpreter.
#[local] Open Scope process_scope.

(** The objects: nil; [main] and [make]; the block of [make]; the primitive of
    [value]; and the program's [cannotReturn:], which
    loops, since it must not return. *)
Definition code (l : list Instr) : list Z := concat (map Encoding.encode l).
Definition method_of (argc ntemps : Z) (block : bool) (primitive : Z) (l : list Instr) (literals : list aval) : object :=
  OMethod (MkMethod (default 0 (MethodFlags.set_flags argc ntemps false block false (0 <? primitive) 0)) primitive 0 (code l) literals).
(** [make: ^[^4]]. *)
Definition make : object := method_of 0 0 false 0 [PushClosure 0 0; ReturnTos] [ARef 3].
Definition block : object := method_of 0 0 true 0 [PushSmi 4; NlrTos] [].
(** [main: | b | b := self make. ^ ... n ... b value], the number being the
    seventh of the operands below the block. *)
Definition main (n : Z) : object := method_of 0 1 false 0
  ([PushSelf; Send 0 false; StoreTempPop 0] ++ replicate 6 PushNil ++ [PushSmi n; PushTemp 0; Send 1 false; ReturnTos]) [].
Definition cannot_return_method : object := method_of 1 0 false 0 [JumpBack 3] [].
Definition program (n : Z) : vm :=
  MkVm [OFields []; main n; make; block; method_of 0 0 false 50 [] []; cannot_return_method] (ARef 0) (ARef 0) (ARef 0)
    (with_capacity 200) 1 None 0 0 None false false.
Definition services_of : services :=
  MkServices (fun _ => None) (fun _ _ => panic) (AWord 0) (AWord 0) (AWord 0) (fun _ _ _ => Some 5%nat) (fun _ _ _ => Some 0) (fun _ _ _ => None)
    (fun _ ic _ _ => ret (Some (if ic =? 0 then 2%nat else 4%nat))) panic.
Definition answer (n : Z) : option control :=
  match (push_all [ARef 0] ;; activate_entry 1 0 ;; dispatch_from services_of 30 1 0) (program n) with Some (Done (c, _)) => Some c | _ => None end.

(** Frames are numbered from 1 here, so [make]'s frame is number 2.  Whatever
    number but 2 the program has among its operands, the block's [^4] finds its
    home gone and the program's [cannotReturn:] runs.  Where the number is 2,
    and stands where the serial of [make]'s frame was, the home is taken for
    live: no message is sent, and the whole program is abandoned for a return
    that has no one to go to. *)
Definition outcome (n : Z) : option control := Some (if n =? 2 then Return (AWord NLR_SENTINEL) else Continue 5 0).
Lemma stale_home_taken_for_live : forall n, -128 <= n < 128 -> answer n = outcome n.
Proof.
  assert (map answer (zrange (-128) 128) = map outcome (zrange (-128) 128)) as H by (vm_compute; reflexivity).
  intros n Hn. by apply (proj1 map_ext_in_iff H n), list_elem_of_In, elem_of_zrange.
Qed.
End StaleHome.
