(* ===== verification/HoistedCapture.v ===== *)
(** The variables of dissolved blocks, and methods with more variables than a
    frame has slots: what the code generator makes of them, run by the
    interpreter.  This is also where the two meet: [machine_of] is the
    interpreter's view of the objects the code generator has made. *)
From Stdlib Require Import String Ascii.
From S2P Require Import Prelude Oops Packed Bytecode Builder Lexer Ast Capture World Codegen Heap ObjectGraph Process Activation Unwind Interpreter.
From stdpp Require Import gmap.
#[local] Set Warnings "-register-all".
#[local] Open Scope string_scope.
#[local] Open Scope Z_scope.
#[local] Open Scope list_scope.

Module HoistedCapture.
Import Ast.

(** ** From compiled objects to the interpreter's *)
Definition value_of (w : Z) : ObjectGraph.aval := match World.index_of w with Some n => ObjectGraph.ARef n | None => ObjectGraph.AWord w end.
Definition field (m : option Z) : Z := default 0 (SmallInt.value <$> m).
Definition object_of (o : World.object) : Process.object :=
  match o with
  | World.OMethod m => Process.OMethod (Process.MkMethod (BytecodeBuilder.m_flags m) (BytecodeBuilder.m_primitive m) (BytecodeBuilder.m_counters m)
      (BytecodeBuilder.m_code m) (value_of <$> BytecodeBuilder.m_literals m))
  | World.OSlots _ fs => Process.OFields (value_of <$> fs)
  | World.OOops _ fs es => Process.OFields (value_of <$> fs ++ es)
  | _ => Process.OFields []
  end.
(** The argument count of a send site, from its cache. *)
Definition site_argc (v : World.vmstate) (m : nat) (ic : Z) : option Z :=
  match World.objects v !! m with
  | Some (World.OMethod m) => w ← zlookup (BytecodeBuilder.m_ics m) (IC_STRIDE * ic + IC_META_OFFSET); s ← SmallInt.try_from w; Some (SmallInt.value s)
  | _ => None
  end.
(** Every send finds [target]. *)
Definition services_of (v : World.vmstate) (target : nat) : Interpreter.services :=
  Interpreter.MkServices (fun _ => None) (fun _ _ => Process.panic) (ObjectGraph.AWord 0) (ObjectGraph.AWord 0) (ObjectGraph.AWord 0)
    (fun _ _ _ => None) (fun _ m ic => site_argc v m ic) (fun _ _ _ => None) (fun _ _ _ _ => Process.ret (Some target)) Process.panic.
Definition machine_of (v : World.vmstate) (more : list Process.object) : Process.vm :=
  let o f := value_of (f (World.universe v)) in
  Process.MkVm ((object_of <$> World.objects v) ++ more) (o World.nil_obj) (o World.true_obj) (o World.false_obj) (Process.with_capacity 1000) 1 None 0 0 None false false.

(** Runs method [m] on [operands], its receiver first, for [n] turns, [value] being what every send
    finds: a method that is the primitive of the blocks' [value]. *)
Definition value_method : Process.object := Process.OMethod (Process.MkMethod (default 0 (MethodFlags.set_flags 0 0 false false true false 0)) 50 0 [0x41] []).
Definition run (n : nat) (v : World.vmstate) (m : nat) (operands : list ObjectGraph.aval) : option Interpreter.control :=
  let target := length (World.objects v) in
  let sv := services_of v target in
  let start := Process.bind (Process.push_all operands) (fun _ => Process.bind (Activation.activate_entry m (zlen operands - 1)) (fun _ => Interpreter.dispatch_from sv n m 0)) in
  match start (machine_of v [value_method]) with Some (Process.Done (c, _)) => Some c | _ => None end.

(** ** Two methods *)
Definition here : Span := MkSpan 1 1.
Definition boot : World.vmstate :=
  let nil := World.oop_at 0 in
  World.MkVm [World.OSlots 0 []; World.OSlots 0 []; World.OSlots 0 []; World.OKlass (World.MkKlass 25 Heap.Slots HEADER_WORDS nil nil nil nil)]
    (World.MkUniverse (World.oop_at 0) (World.oop_at 1) (World.oop_at 2) 17 25 33 41 49 57 65 73 81 89 97 105 113 121) (World.with_capacity 16) (World.oop_at 0) (fun _ => 1000).
Definition block (temps : list (list Z)) (body : list (Expr Z)) : Expr Z := Block (MkBlock [] temps body here 0).
Definition t : list Z := chars "t".
(** [t := 5. [t] value]. *)
Definition assign_and_capture : list (Expr Z) := [EAssign t (Lit (LInt 5) here) here; Send (block [] [Var t here]) (chars "value") [] false here].
(** [^true ifTrue: [outer | t := 5. [t] value]], with [t] declared by the method, or by the block. *)
Definition method (outer inner : list (list Z)) : MethodNode Z :=
  Ast.MkMethod (chars "m") [] None None outer [Return (Send (Lit LTrue here) (chars "ifTrue:") [block inner assign_and_capture] false here) here] false here.
Definition answer (m : MethodNode Z) : option Interpreter.control :=
  match Codegen.compile_method id boot (World.oop_at 3) false m with
  | Codegen.Ok (o, _, v) => n ← World.index_of o; run 30 v n [ObjectGraph.ARef 0]
  | _ => None
  end.

(** A temporary of a dissolved block that a block inside captures has two
    places: the outer code keeps it in a frame slot, the inner block reads it
    from the context, where it was never stored.  Of the two methods, which
    differ only in where [t] is declared, the first answers 5 and the second
    nil. *)
Lemma hoisted_capture_lost :
  answer (method [t] []) = Some (Interpreter.Return (ObjectGraph.AWord 20)) /\ SmallInt.value 20 = 5 /\
  answer (method [] [t]) = Some (Interpreter.Return (Process.nil_obj (machine_of boot []))).
Proof. by vm_compute. Qed.

(** [^true ifTrue: [|temps| nil]. ^t], with [t] declared by the block or nowhere. *)
Definition after_block (inner : list (list Z)) : MethodNode Z :=
  Ast.MkMethod (chars "m") [] None None []
    [Send (Lit LTrue here) (chars "ifTrue:") [block inner [Lit LNil here]] false here; Return (Var t here) here] false here.

(** The analysis adds the variables of a dissolved block to the scope around it
    for good, so a name that the block declares also resolves behind the block:
    [t] is nil there, where without the block's declaration it is undeclared. *)
Lemma dissolved_names_leak :
  answer (after_block [t]) = Some (Interpreter.Return (Process.nil_obj (machine_of boot []))) /\
  match Codegen.compile_method id boot (World.oop_at 3) false (after_block []) with Codegen.Err _ => True | _ => False end.
Proof. split; [by vm_compute|by vm_compute]. Qed.

(** [with: a and: b | 0 ... n-1 | n-1 := 5. ^a]. *)
Definition temps (n : nat) : list (list Z) := (fun i => [Z.of_nat i]) <$> seq 0 n.
Definition wide (n : nat) : MethodNode Z :=
  Ast.MkMethod (chars "with:and:") [chars "a"; chars "b"] None None (temps n) [EAssign [Z.of_nat n - 1] (Lit (LInt 5) here) here; Return (Var (chars "a") here) here] false here.
Definition answer2 (m : MethodNode Z) (a b : ObjectGraph.aval) : option Interpreter.control :=
  match Codegen.compile_method id boot (World.oop_at 3) false m with
  | Codegen.Ok (o, _, v) => n ← World.index_of o; run 30 v n [ObjectGraph.ARef 0; a; b]
  | _ => None
  end.
(** [^true ifTrue: [| n temporaries | nil]]. *)
Definition crowded (n : nat) := Codegen.compile_method id boot (World.oop_at 3) false
  (Ast.MkMethod (chars "m") [] None None [] [Return (Send (Lit LTrue here) (chars "ifTrue:") [block (temps n) [Lit LNil here]] false here) here] false here).

(** The limits the compiler checks do not keep frame slots within the byte
    that names them, nor the frame within its maximum.  With two parameters, a
    method of 254 temporaries answers its first argument; with one more, which
    the limits admit, the last temporary is the first parameter, and the method
    answers what it stored there.  A block of 127 temporaries can be dissolved;
    one of 128, counted by the analysis and again when it is dissolved, passes
    the check and stops the compiler with a failed assertion, not an error. *)
Lemma frame_slots_wrap :
  answer2 (wide 254) (ObjectGraph.ARef 1) (ObjectGraph.ARef 2) = Some (Interpreter.Return (ObjectGraph.ARef 1)) /\
  answer2 (wide 255) (ObjectGraph.ARef 1) (ObjectGraph.ARef 2) = Some (Interpreter.Return (ObjectGraph.AWord 20)) /\
  Codegen.check_limits here 2 255 0 = None /\
  (exists r, crowded 127 = Codegen.Ok r) /\ crowded 128 = Codegen.Panic /\ Codegen.check_limits here 0 128 0 = None.
Proof.
  split; [by vm_compute|]. split; [by vm_compute|]. split; [done|]. split; [|split; [by vm_compute|done]].
  destruct (crowded 127) as [r| |] eqn:E; [by exists r|exfalso; revert E; by vm_compute..].
Qed.
End HoistedCapture.
