(* ===== verification/StackTyping.v ===== *)
(** Stack types of bytecode: what an assembler session promises about the
    operand stack, and that the code it builds keeps the promise.

    A depth is the number of operands a frame has pushed; [None] is the depth
    of code that control does not reach.  [check] follows a session op by op
    with the depth at the current place and at each label; [typed_sound] says
    that the code of a session that checks, from its first byte on, runs no
    instruction without its operands, and never leaves itself. *)
From S2P Require Import Prelude Oops Packed Bytecode Builder.
From stdpp Require Import gmap.
Import Encoding.
#[local] Open Scope Z_scope.

Module StackTyping.
Import BytecodeBuilder.

(** ** Instructions *)
(** The operands an instruction takes, and those it leaves. *)
Definition takes (i : Instr) : nat :=
  match i with
  | StoreTemp _ | StoreTempPop _ | StoreInstvarPop _ | StoreGlobalPop _ | Pop | Dup | StoreCtxTempPop _ _ | BrTrueFwd _ | BrFalseFwd _
  | ReturnTos | BlockReturnTos | NlrTos => 1
  | PushClosure _ n => Z.to_nat n
  | _ => 0
  end.
Definition leaves (i : Instr) : nat :=
  match i with
  | PushSelf | PushNil | PushTrue | PushFalse | PushSmi _ | PushLiteral _ | PushTemp _ | PushInstvar _ | PushGlobal _ | PushCtxTemp _ _
  | PushClosure _ _ | StoreTemp _ => 1
  | Dup => 2
  | _ => 0
  end.
(** Control does not go on to the next instruction. *)
Definition ends (i : Instr) : bool := match i with JumpFwd _ | JumpBack _ => true | _ => is_return i end.

(** The argument count of a send site. *)
Definition site_argc (m : method) (ic : Z) : option nat :=
  w ← zlookup (m_ics m) (IC_STRIDE * ic + IC_META_OFFSET); s ← SmallInt.try_from w; Some (Z.to_nat (SmallInt.value s)).
(** [flows m i next d pc d']: after [i], before which there are [d] operands and
    behind which is [next], control may be at [pc] with [d'] operands. *)
Inductive flows (m : method) (i : Instr) (next : Z) (d : nat) : Z -> nat -> Prop :=
  | flows_on : ends i = false -> (forall ic su, i <> Send ic su) -> flows m i next d next (d - takes i + leaves i)
  | flows_send ic su argc : i = Send ic su -> site_argc m ic = Some argc -> flows m i next d next (d - S argc + 1)
  | flows_jump pc : jump_target i next = Some pc -> flows m i next d pc (d - takes i).
Inductive reaches (m : method) : Z -> nat -> Prop :=
  | reaches_start : reaches m 0 0
  | reaches_step pc d i next pc' d' : reaches m pc d -> decode_at (m_code m) pc = Some (i, next) -> flows m i next d pc' d' -> reaches m pc' d'.

(** An instruction finds its operands, its temporary, its literal, its site. *)
Definition temp_of (i : Instr) : option Z := match i with PushTemp t | StoreTemp t | StoreTempPop t => Some t | _ => None end.
Definition literal_of (i : Instr) : option Z := match i with PushLiteral l | PushGlobal l | StoreGlobalPop l | PushClosure l _ => Some l | _ => None end.
Record supplied (m : method) (slots : Z) (i : Instr) (d : nat) : Prop := {
  s_takes : (takes i <= d)%nat;
  s_temp : forall t, temp_of i = Some t -> 0 <= t < slots;
  s_literal : forall l, literal_of i = Some l -> is_Some (zlookup (m_literals m) l);
  s_send : forall ic su, i = Send ic su -> exists argc, site_argc m ic = Some argc /\ (argc < d)%nat }.
(** Wherever control gets in the code, there is an instruction, and it is
    supplied; [slots] is the number of the frame's arguments and temporaries. *)
Definition well_typed (m : method) (slots : Z) : Prop :=
  forall pc d, reaches m pc d -> exists i next, decode_at (m_code m) pc = Some (i, next) /\ supplied m slots i d.

(** ** Sessions *)
Record types := MkTypes { cur : option nat; at_label : list (option nat) }.
Definition start : types := MkTypes (Some 0%nat) [].

Definition sym_takes (s : sym) : nat :=
  match s with
  | SInstr i => takes i
  | SLit u _ => match u with UStoreGlobal => 1 | UClosure n => Z.to_nat n | _ => 0 end
  | SSend _ _ argc => S (Z.to_nat argc)
  | SJump k _ => match k with JTrue | JFalse => 1 | _ => 0 end
  end.
Definition sym_leaves (s : sym) : nat :=
  match s with
  | SInstr i => leaves i
  | SLit u _ => match u with UStoreGlobal => 0 | _ => 1 end
  | SSend _ _ _ => 1
  | SJump _ _ => 0
  end.
Definition sym_ends (s : sym) : bool := match s with SInstr i => ends i | SJump k _ => match k with JFwd | JBack => true | _ => false end | _ => false end.
(** The depth after [s], when it has its operands at the depth [c]. *)
Definition after (s : sym) (c : option nat) : option (option nat) :=
  match c with
  | None => Some None
  | Some d => if decide (sym_takes s <= d)%nat then Some (if sym_ends s then None else Some (d - sym_takes s + sym_leaves s)%nat) else None
  end.
Definition join (a b : option nat) : option (option nat) :=
  match a, b with Some x, Some y => if decide (x = y) then Some a else None | None, _ => Some b | _, None => Some a end.

Definition check_sym (s : sym) (T : types) : option types := c ← after s (cur T); Some (MkTypes c (at_label T)).
(** A forward jump tells its label the depth; a backward one must have it. *)
Definition check_jump (k : jump_kind) (l : nat) (T : types) : option types :=
  x ← at_label T !! l;
  match cur T with
  | None => Some T
  | Some d =>
      T' ← check_sym (SJump k l) T;
      let there := Some (d - sym_takes (SJump k l))%nat in
      match k with
      | JBack => if decide (x = there) then Some T' else None
      | _ => y ← join x there; Some (MkTypes (cur T') (<[l := y]> (at_label T)))
      end
  end.
Definition check (o : op) (T : types) : option types :=
  match o with
  | OPlain i => check_sym (SInstr i) T
  | OLiteral o => check_sym (SLit ULiteral o) T
  | OGlobal o => check_sym (SLit UGlobal o) T
  | OStoreGlobal o => check_sym (SLit UStoreGlobal o) T
  | OClosure o n => check_sym (SLit (UClosure n) o) T
  | OSend s a => check_sym (SSend false s a) T
  | OSendSuper s a => check_sym (SSend true s a) T
  | ONewLabel => Some (MkTypes (cur T) (at_label T ++ [None]))
  | OBind l => x ← at_label T !! l; y ← join (cur T) x; Some (MkTypes y (<[l := y]> (at_label T)))
  | OJumpFwd l => check_jump JFwd l T
  | OBrTrue l => check_jump JTrue l T
  | OBrFalse l => check_jump JFalse l T
  | OJumpBack l => check_jump JBack l T
  | ONote _ | OMove _ => Some T
  end.
Fixpoint check_all (ops : list op) (T : types) : option types :=
  match ops with [] => Some T | o :: ops => T ← check o T; check_all ops T end.

(** The temporaries a session names. *)
Definition names_temps (slots : Z) (o : op) : Prop := forall i t, o = OPlain i -> temp_of i = Some t -> 0 <= t < slots.

(** ** The types of a symbolic program *)
(** The depth at instruction [n], or, past the end, where the session is. *)
Definition depth_at (D : list (option nat)) (c : option nat) (n : nat) : option nat := if decide (n = length D) then c else default None (D !! n).
Record typed (p : program) (T : types) (D : list (option nat)) : Prop := {
  ty_length : length D = length (prog p);
  ty_entry : depth_at D (cur T) 0 = Some 0%nat;
  ty_labels : length (at_label T) = length (binds p);
  ty_takes : forall n s d, prog p !! n = Some s -> D !! n = Some (Some d) -> (sym_takes s <= d)%nat;
  ty_next : forall n s d, prog p !! n = Some s -> D !! n = Some (Some d) -> sym_ends s = false ->
    depth_at D (cur T) (S n) = Some (d - sym_takes s + sym_leaves s)%nat;
  ty_jump : forall n k l d, prog p !! n = Some (SJump k l) -> D !! n = Some (Some d) -> at_label T !! l = Some (Some (d - sym_takes (SJump k l))%nat);
  ty_bound : forall l t x, binds p !! l = Some (Some t) -> at_label T !! l = Some (Some x) -> (t <= length D)%nat /\ depth_at D (cur T) t = Some x }.

Lemma depth_at_end D c : depth_at D c (length D) = c.
Proof. unfold depth_at. by rewrite decide_True. Qed.
Lemma depth_at_lt D c n : (n < length D)%nat -> depth_at D c n = default None (D !! n).
Proof. intros H. unfold depth_at. rewrite decide_False by lia. done. Qed.
Lemma depth_at_snoc D c c' n : (n <= length D)%nat -> depth_at (D ++ [c]) c' n = depth_at D c n.
Proof.
  intros Hn. rewrite depth_at_lt by (rewrite length_app; cbn; lia). destruct (decide (n = length D)) as [->|].
  - by rewrite depth_at_end, list_lookup_middle.
  - rewrite depth_at_lt by lia. by rewrite lookup_app_l by lia.
Qed.
Lemma typed_start : typed (MkProgram [] []) start [].
Proof. split; try done; intros n; by intros. Qed.

(** Emitting a symbol at the present depth; [L'] is what the labels know then. *)
Lemma typed_emit p T D s c L' : typed p T D -> after s (cur T) = Some c -> length L' = length (at_label T) ->
  (forall l x, at_label T !! l = Some (Some x) -> L' !! l = Some (Some x)) ->
  (forall l t x, binds p !! l = Some (Some t) -> L' !! l = Some (Some x) -> at_label T !! l = Some (Some x)) ->
  (forall k l d, s = SJump k l -> cur T = Some d -> L' !! l = Some (Some (d - sym_takes s)%nat)) ->
  typed (MkProgram (prog p ++ [s]) (binds p)) (MkTypes c L') (D ++ [cur T]).
Proof.
  intros [HD He0 HL Ht Hn Hj Hb] Ha HL' Hmono Hbd Hjump. split; cbn [prog binds cur at_label].
  - rewrite !length_app. cbn. lia.
  - rewrite depth_at_snoc by lia. done.
  - congruence.
  - intros n s' d [Hs|[Hge Hs]]%lookup_app_Some [Hd|[Hge' Hd]]%lookup_app_Some.
    + eauto.
    + apply lookup_lt_Some in Hs. lia.
    + apply lookup_lt_Some in Hd. lia.
    + apply list_lookup_singleton_Some in Hs as [_ ->]. apply list_lookup_singleton_Some in Hd as [_ Hd]. rewrite Hd in Ha. cbn in Ha. by destruct (decide _) in Ha.
  - intros n s' d [Hs|[Hge Hs]]%lookup_app_Some Hd He.
    + pose proof (lookup_lt_Some _ _ _ Hs). rewrite lookup_app_l in Hd by lia. rewrite depth_at_snoc by lia. eauto.
    + apply list_lookup_singleton_Some in Hs as [Hn0 ->]. assert (n = length D) as -> by lia. rewrite list_lookup_middle in Hd by done. injection Hd as Hd.
      replace (S (length D)) with (length (D ++ [cur T])) by (rewrite length_app; cbn; lia). rewrite depth_at_end. rewrite Hd in Ha. cbn in Ha. destruct (decide _) in Ha; [|done]. rewrite He in Ha. by injection Ha as <-.
  - intros n k l d [Hs|[Hge Hs]]%lookup_app_Some Hd.
    + pose proof (lookup_lt_Some _ _ _ Hs). rewrite lookup_app_l in Hd by lia. eauto.
    + apply list_lookup_singleton_Some in Hs as [Hn0 Hs]. assert (n = length D) as -> by lia. rewrite list_lookup_middle in Hd by done. injection Hd as Hd. subst s; eapply Hjump; eauto.
  - intros l t x Hbl Hx. destruct (Hb l t x Hbl (Hbd _ _ _ Hbl Hx)) as [Hle Hdt]. rewrite length_app. split; [lia|]. by rewrite depth_at_snoc.
Qed.
Lemma typed_plain p T D s T' : typed p T D -> check_sym s T = Some T' -> (forall k l, s <> SJump k l) ->
  typed (MkProgram (prog p ++ [s]) (binds p)) T' (D ++ [cur T]).
Proof.
  intros HT Hc Hs. unfold check_sym in Hc. destruct (after s (cur T)) as [c|] eqn:Ha; [|done]. injection Hc as <-. apply typed_emit; try done. intros k l d ->. by destruct (Hs k l).
Qed.
#[export] Instance jump_kind_eq_dec : EqDecision jump_kind.
Proof. solve_decision. Defined.
Lemma join_l a b c x : join a b = Some c -> a = Some x -> c = Some x.
Proof. intros H ->. destruct b; cbn in H; [destruct (decide _)|]; congruence. Qed.
Lemma join_r a b c x : join a b = Some c -> b = Some x -> c = Some x.
Proof. intros H ->. destruct a; cbn in H; [destruct (decide _)|]; congruence. Qed.
Lemma typed_jump k p T D l T' p' : typed p T D -> check_jump k l T = Some T' -> spec_jump k l p = Some p' -> typed p' T' (D ++ [cur T]).
Proof.
  intros HT Hc Hp. assert (p' = MkProgram (prog p ++ [SJump k l]) (binds p)) as -> by (unfold spec_jump, snoc in Hp; repeat case_match; by simplify_eq).
  unfold check_jump in Hc. destruct (at_label T !! l) as [x|] eqn:Hl; [|done]. cbn [mbind option_bind] in Hc. destruct (cur T) as [d|] eqn:Hcur.
  - destruct (check_sym (SJump k l) T) as [T1|] eqn:E; [|done]. cbn [mbind option_bind] in Hc. unfold check_sym in E. destruct (after (SJump k l) (cur T)) as [c|] eqn:Ha; [|done]. injection E as <-. cbn [cur] in Hc.
    destruct (decide (k = JBack)) as [->|Hk].
    + destruct (decide (x = _)) as [->|] in Hc; [|done]. injection Hc as <-. rewrite <- Hcur. apply typed_emit; try done. intros k' l' d' [= <- <-] Hd'. rewrite Hcur in Hd'. injection Hd' as <-. exact Hl.
    + assert (exists y, join x (Some (d - sym_takes (SJump k l))%nat) = Some y /\ T' = MkTypes c (<[l := y]> (at_label T))) as (y & Hy & ->).
      { destruct k; try done; cbn [sym_takes] in *; destruct (join x _) as [y|]; try done; cbn [mbind option_bind] in Hc; injection Hc as <-; by exists y. }
      assert (binds p !! l = Some None) as Hun by (unfold spec_jump in Hp; by destruct (binds p !! l) as [[]|], k).
      pose proof (lookup_lt_Some _ _ _ Hl). rewrite <- Hcur. apply typed_emit; try done.
      * by rewrite length_insert.
      * intros l' x' Hx'. destruct (decide (l' = l)) as [->|Hne]; [|by rewrite list_lookup_insert_ne]. rewrite list_lookup_insert_eq by done. f_equal. rewrite Hl in Hx'. injection Hx' as ->. by eapply join_l.
      * intros l' t x' Hb Hx'. destruct (decide (l' = l)) as [->|Hne]; [congruence|]. by rewrite list_lookup_insert_ne in Hx'.
      * intros k' l' d' [= <- <-] Hd'. rewrite Hcur in Hd'. injection Hd' as <-. rewrite list_lookup_insert_eq by done. f_equal. by eapply join_r.
  - injection Hc as <-. rewrite <- Hcur. destruct T as [c L]. cbn [cur] in *. subst c. apply (typed_emit p (MkTypes None L)); try done.
Qed.
Lemma typed_bind p T D l x y t : typed p T D -> at_label T !! l = Some x -> join (cur T) x = Some y -> binds p !! l = Some None -> t = length (prog p) ->
  typed (MkProgram (prog p) (<[l := Some t]> (binds p))) (MkTypes y (<[l := y]> (at_label T))) D.
Proof.
  intros [HD He0 HL Ht Hn Hj Hb] Hl Hy Hun ->. pose proof (lookup_lt_Some _ _ _ Hl). pose proof (lookup_lt_Some _ _ _ Hun).
  assert (forall n z, depth_at D (cur T) n = Some z -> depth_at D y n = Some z) as Hmono.
  { intros n z. unfold depth_at. destruct (decide _); [|done]. intros Hz. by eapply join_l. }
  split; cbn [prog binds cur at_label]; try done.
  - by apply Hmono.
  - by rewrite !length_insert.
  - intros n s d Hs Hd He. apply Hmono. eauto.
  - intros n k l' d Hs Hd. pose proof (Hj _ _ _ _ Hs Hd) as Hx. destruct (decide (l' = l)) as [->|Hne]; [|by rewrite list_lookup_insert_ne].
    rewrite list_lookup_insert_eq by done. f_equal. rewrite Hl in Hx. injection Hx as ->. by eapply join_r.
  - intros l' t z Hbl Hz. destruct (decide (l' = l)) as [->|Hne].
    + rewrite list_lookup_insert_eq in Hbl, Hz by done. injection Hbl as <-. injection Hz as ->. rewrite <- HD. split; [done|]. by rewrite depth_at_end.
    + rewrite list_lookup_insert_ne in Hbl, Hz by done. destruct (Hb _ _ _ Hbl Hz). split; [done|]. by apply Hmono.
Qed.
Lemma typed_step o p T D p' T' : typed p T D -> check o T = Some T' -> spec o p = Some p' -> exists D', typed p' T' D'.
Proof.
  intros HT Hc Hp. destruct o; cbn [check spec] in Hc, Hp; unfold snoc in Hp; try (injection Hp as <-; eexists; by eapply typed_plain); try (eexists; by eapply typed_jump).
  - injection Hp as <-. injection Hc as <-. exists D. destruct HT as [HD He0 HL Ht Hn Hj Hb]. split; cbn [prog binds cur at_label]; try done.
    + rewrite !length_app. cbn. lia.
    + intros n k l d Hs Hd. eapply lookup_app_l_Some. eauto.
    + intros l t x Hbl Hx. assert (binds p !! l = Some (Some t)) as Hbl'. { apply lookup_app_Some in Hbl as [?|[_ Hbl]]; [done|]. by apply list_lookup_singleton_Some in Hbl as [_ ?]. }
      pose proof (lookup_lt_Some _ _ _ Hbl'). rewrite lookup_app_l in Hx by lia. eauto.
  - destruct (at_label T !! l) as [x|] eqn:Hl; [|done]. cbn [mbind option_bind] in Hc. destruct (join (cur T) x) as [y|] eqn:Hy; [|done]. injection Hc as <-.
    destruct (binds p !! l) as [[]|] eqn:Hun; [done| |done]. injection Hp as <-. exists D. by eapply typed_bind.
  - injection Hc as <-. injection Hp as <-. by exists D.
  - injection Hc as <-. injection Hp as <-. exists D. destruct HT as [HD He0 HL Ht Hn Hj Hb].
    assert (forall s, sym_takes (sym_move f s) = sym_takes s /\ sym_leaves (sym_move f s) = sym_leaves s /\ sym_ends (sym_move f s) = sym_ends s) as Hs by (by intros []).
    split; cbn [prog binds]; try done.
    + by rewrite length_fmap.
    + intros n s d (s0 & -> & H0)%list_lookup_fmap_Some Hd. destruct (Hs s0) as (-> & _). eauto.
    + intros n s d (s0 & -> & H0)%list_lookup_fmap_Some Hd. destruct (Hs s0) as (-> & -> & ->). eauto.
    + intros n k l d (s0 & E & H0)%list_lookup_fmap_Some Hd. destruct s0; try done. injection E as -> ->. eauto.
Qed.
Lemma typed_run ops : forall p T D p' T', typed p T D -> check_all ops T = Some T' -> spec_run ops p = Some p' -> exists D', typed p' T' D'.
Proof.
  induction ops as [|o ops IH]; intros p T D p' T' HT Hc Hp; cbn [check_all spec_run] in *; [simplify_eq; by exists D|].
  destruct (check o T) as [T1|] eqn:E1; [|done]. destruct (spec o p) as [p1|] eqn:E2; [|done]. cbn [mbind option_bind] in *. destruct (typed_step _ _ _ _ _ _ HT E1 E2) as [D1 HT1]. by eapply IH.
Qed.

(** ** Soundness *)
Lemma decode_addr is_ n i : Forall instr_ok is_ -> is_ !! n = Some i -> decode_at (concat (encode <$> is_)) (addr is_ n) = Some (i, addr is_ (S n)).
Proof.
  intros Hok Hi. unfold addr. erewrite (take_S_r _ _ _ Hi). rewrite fmap_app, concat_app, zlen_app. cbn [fmap list_fmap concat]. rewrite app_nil_r.
  eapply decode_encode_at; [|by eapply Forall_lookup_1]. erewrite <- (take_drop_middle is_ n i Hi) at 1. by rewrite fmap_app, concat_app.
Qed.
(** The instructions of the emitters that take no oop and no label. *)
Lemma run_plain ops : forall b b' i, run ops b = Some b' -> OPlain i ∈ ops -> exists b1 b2, plain i b1 = Some b2.
Proof.
  induction ops as [|o ops IH]; intros b b' i Hr Hin; [by apply not_elem_of_nil in Hin|]. cbn [run] in Hr. destruct (exec o b) as [b1|] eqn:E; [|done]. cbn [mbind option_bind] in Hr.
  apply elem_of_cons in Hin as [<-|Hin]; [by exists b, b1|by eapply IH].
Qed.
Lemma spec_instrs ops : forall p p' i, spec_run ops p = Some p' -> SInstr i ∈ prog p' -> SInstr i ∈ prog p \/ OPlain i ∈ ops.
Proof.
  induction ops as [|o ops IH]; intros p p' i Hr Hin; cbn [spec_run] in Hr; [simplify_eq; by left|]. destruct (spec o p) as [p1|] eqn:E; [|done]. cbn [mbind option_bind] in Hr.
  destruct (IH _ _ _ Hr Hin) as [H1|H1]; [|right; by right]. assert (prog p1 = prog p \/ (exists f, prog p1 = sym_move f <$> prog p) \/ exists s, prog p1 = prog p ++ [s] /\ forall j, s = SInstr j -> o = OPlain j) as [E1|[(f & E1)|(s & E1 & Hs)]].
  { destruct o; cbn [spec] in E; unfold spec_jump, snoc in E; repeat case_match; simplify_eq; cbn [prog]; auto; [..|right; left; by eexists]; right; right; eexists; (split; [done|]); by intros ? [= ->]. }
  all: rewrite E1 in H1.
  - by left.
  - apply list_elem_of_fmap in H1 as (s & Hs & H1). destruct s; try done. injection Hs as <-. by left.
  - apply elem_of_app in H1 as [H1|H1%list_elem_of_singleton]; [by left|]. right. rewrite (Hs i) by done. left.
Qed.
Lemma plain_kind i b b' : plain i b = Some b' -> literal_of i = None /\ (forall ic su, i <> Send ic su) /\ forall next, jump_target i next = None.
Proof. by destruct i. Qed.
Lemma site_of nil m p is_ n su sel argc i : denotes nil m p is_ n (SSend su sel argc) i -> instr_ok i -> exists ic, i = Send ic su /\ site_argc m ic = Some (Z.to_nat argc).
Proof.
  intros (ic & meta & -> & Hm & Hl) Hok. exists ic. split; [done|]. unfold site_argc. cbn in Hok. assert (zlookup (m_ics m) (IC_STRIDE * ic + IC_META_OFFSET) = Some meta) as ->.
  { unfold zlookup. change IC_STRIDE with 4 in *. change IC_META_OFFSET with 1. unfold inU in Hok. destruct (Z.ltb_spec (4 * ic + 1) 0); [lia|]. replace (Z.to_nat (4 * ic + 1)) with (Z.to_nat (4 * ic) + 1)%nat by lia.
    rewrite <- lookup_drop. change (Some meta) with ([sel; meta; nil; nil] !! 1%nat). rewrite <- Hl. by rewrite lookup_take_lt by lia. }
  cbn [mbind option_bind]. destruct (SmallInt.try_new_smi_ok _ _ Hm) as [[_ Hs] <-]. unfold SmallInt.try_from. by rewrite Hs.
Qed.
(** An instruction takes, leaves and ends as the symbol it stands for. *)
Lemma denotes_types nil m p is_ n s i : denotes nil m p is_ n s i -> instr_ok i -> (forall ic su, i <> Send ic su) ->
  takes i = sym_takes s /\ leaves i = sym_leaves s /\ ends i = sym_ends s.
Proof.
  intros Hd Hok Hs. destruct s as [i'|u o|su sel argc|k l].
  - by rewrite Hd.
  - destruct Hd as (idx & -> & _). by destruct u.
  - destruct (site_of _ _ _ _ _ _ _ _ _ Hd Hok) as (ic & -> & _). by destruct (Hs ic su).
  - destruct Hd as (d & t & -> & _). by destruct k.
Qed.

Section sound.
Context (ops : list op) (nil selector argc ntemps slots : Z) (b : builder) (m : method) (T : types).
Context (Hrun : run ops new = Some b) (Hfit : run_fits ops new = true) (Hfin : finish id nil selector argc ntemps b = Some m).
Context (Hck : check_all ops start = Some T) (Hend : cur T = None) (Hslots : Forall (names_temps slots) ops).
Lemma check_all_app ops1 ops2 T0 : check_all (ops1 ++ ops2) T0 = T1 ← check_all ops1 T0; check_all ops2 T1.
Proof. clear. revert T0. induction ops1 as [|o ops1 IH]; intros T0; cbn [check_all app]; [done|]. destruct (check o T0); [apply IH|done]. Qed.
(** The code of a session that checks is well typed. *)
Lemma typed_sound : well_typed m slots.
Proof using ops nil selector argc ntemps b T Hrun Hfit Hfin Hck Hend Hslots.
  destruct (build_spec _ _ _ _ _ _ _ _ Hrun Hfit Hfin) as (p & is_ & Hp & Hcode & Hok & Hlen & Hden & (il & Hlast & _)).
  assert (check_all (ops ++ [OMove id]) start = Some T) as Hck' by by rewrite check_all_app, Hck.
  destruct (typed_run _ _ _ _ _ _ typed_start Hck' Hp) as (D & HT). pose proof (ty_length _ _ _ HT) as HD.
  assert (forall n x, depth_at D (cur T) n = Some x -> (n <= length D)%nat -> (n < length is_)%nat /\ D !! n = Some (Some x)) as Hat.
  { intros n x Hx Hle. unfold depth_at in Hx. rewrite Hend in Hx. destruct (decide (n = length D)); [done|]. destruct (D !! n) as [[y|]|] eqn:E; try done. cbn in Hx. injection Hx as ->. split; [lia|done]. }
  assert (forall n i, is_ !! n = Some i -> prog p !! n = Some (SInstr i) -> literal_of i = None /\ (forall ic su, i <> Send ic su) /\ (forall next, jump_target i next = None) /\
    (forall t, temp_of i = Some t -> 0 <= t < slots)) as Hplain.
  { intros n i _ Hs. apply list_elem_of_lookup_2 in Hs. destruct (spec_instrs _ _ _ _ Hp Hs) as [Hin|Hin]; [by apply not_elem_of_nil in Hin|].
    apply elem_of_app in Hin as [Hin|Hin%list_elem_of_singleton]; [|done]. destruct (run_plain _ _ _ _ Hrun Hin) as (b1 & b2 & (H1 & H2 & H3)%plain_kind).
    split_and!; try done. intros t Ht. rewrite Forall_forall in Hslots. by eapply Hslots. }
  assert (forall pc d, reaches m pc d -> exists n, pc = addr is_ n /\ (n < length is_)%nat /\ D !! n = Some (Some d)) as Hinv.
  { induction 1 as [|pc d i next pc' d' Hr (n & -> & Hn & Hd) Hdec Hfl].
    - exists 0%nat. split; [done|]. apply Hat; [apply HT|lia].
    - destruct (lookup_lt_is_Some_2 (prog p) n) as [s Hs]; [lia|]. destruct (Hden _ _ Hs) as (i' & Hi & Hde). pose proof (Forall_lookup_1 _ _ _ _ Hok Hi) as Hoki.
      rewrite Hcode, (decode_addr _ _ _ Hok Hi) in Hdec. injection Hdec as <- <-. inversion Hfl as [He Hns|ic su ac -> Hsite|pc1 Hj]; subst.
      + destruct (denotes_types _ _ _ _ _ _ _ Hde Hoki Hns) as (-> & -> & Ee). rewrite Ee in He. exists (S n). split; [done|]. pose proof (lookup_lt_Some _ _ _ Hd). apply Hat; [by eapply ty_next|lia].
      + destruct s as [i0|u o|su0 sel a|k l]; [by destruct (Hplain n _ Hi ltac:(by rewrite Hde)) as (_ & Hx & _); destruct (Hx ic su)|by destruct Hde as (? & ? & _); destruct u| |by destruct Hde as (? & ? & ? & _); destruct k].
        destruct (site_of _ _ _ _ _ _ _ _ _ Hde Hoki) as (ic' & [= <- <-] & Hsite'). rewrite Hsite in Hsite'. injection Hsite' as ->. exists (S n). split; [done|]. pose proof (lookup_lt_Some _ _ _ Hd).
        apply Hat; [exact (ty_next _ _ _ HT _ _ _ Hs Hd eq_refl)|lia].
      + destruct s as [i0|u o|su0 sel a|k l]; [by destruct (Hplain n _ Hi ltac:(by rewrite Hde)) as (_ & _ & Hx & _); rewrite Hx in Hj|by destruct Hde as (? & -> & _); destruct u|by destruct Hde as (? & ? & -> & _)|].
        destruct Hde as (d0 & t & -> & Hb & Ht). rewrite Hj in Ht. injection Ht as ->. exists t. split; [done|]. pose proof (ty_jump _ _ _ HT _ _ _ _ Hs Hd) as Hl.
        assert (takes (jump_instr k d0) = sym_takes (SJump k l)) as -> by by destruct k. destruct (ty_bound _ _ _ HT _ _ _ Hb Hl). by apply Hat. }
  intros pc d Hr. destruct (Hinv _ _ Hr) as (n & -> & Hn & Hd). destruct (lookup_lt_is_Some_2 (prog p) n) as [s Hs]; [lia|]. destruct (Hden _ _ Hs) as (i & Hi & Hde). pose proof (Forall_lookup_1 _ _ _ _ Hok Hi) as Hoki.
  exists i, (addr is_ (S n)). rewrite Hcode. split; [by apply decode_addr|]. pose proof (ty_takes _ _ _ HT _ _ _ Hs Hd) as Htk. destruct s as [i0|u o|su sel a|k l].
  - cbn in Hde. subst i0. destruct (Hplain n _ Hi Hs) as (H1 & H2 & _ & H4). split; [done|done|by rewrite H1|]. intros ic su ->. by destruct (H2 ic su).
  - destruct Hde as (idx & -> & Hz). split; [by destruct u|by destruct u| |by destruct u]. intros l Hl. assert (l = idx) as -> by (destruct u; by injection Hl). by rewrite Hz.
  - destruct (site_of _ _ _ _ _ _ _ _ _ Hde Hoki) as (ic & -> & Hsite). split; try done; [cbn; lia|]. intros ic' su' [= <- <-]. exists (Z.to_nat a). split; [done|]. cbn [sym_takes] in Htk. lia.
  - destruct Hde as (d0 & t & -> & _). split; [by destruct k|by destruct k|by destruct k|by destruct k].
Qed.
End sound.
(** Well-typedness is about the code, the literals and the caches. *)
Lemma well_typed_same m m' slots : m_code m' = m_code m -> m_ics m' = m_ics m -> m_literals m' = m_literals m -> well_typed m slots -> well_typed m' slots.
Proof.
  intros Hc Hi Hl Hw. assert (forall ic, site_argc m' ic = site_argc m ic) as Hs by (intros ic; unfold site_argc; by rewrite Hi).
  assert (forall pc d, reaches m' pc d -> reaches m pc d) as Hr.
  { induction 1 as [|pc d i next pc' d' _ IH Hd Hf]; [constructor|]. rewrite Hc in Hd. eapply reaches_step; [exact IH|exact Hd|]. inversion Hf as [He Hn|ic su argc E Ha|pc1 Hj]; subst; [by apply flows_on|by eapply flows_send; [|rewrite <- Hs]|by apply flows_jump]. }
  intros pc d Hpd. destruct (Hw pc d (Hr _ _ Hpd)) as (i & next & Hd & [H1 H2 H3 H4]). exists i, next. rewrite Hc. split; [done|]. split; [done|done|by rewrite Hl|]. intros ic su E. rewrite Hs. by eapply H4.
Qed.
End StackTyping.
