(* ===== verification/Cfg.v ===== *)
(** Basic blocks of bytecode ([src/src/compiler/decode.rs]), and that their
    graph has the paths of the instructions.

    A [BTreeSet] is its elements in order.  [None] is a panic: an undefined
    opcode, a jump to no leader, a failed assertion, an underflow. *)
From S2P Require Import Prelude Oops Packed Bytecode Builder StackTyping.
From stdpp Require Import sorting.
Import Encoding.
#[local] Open Scope Z_scope.

Module Cfg.
(** ** Walking over code *)
(** [while bci < end { let (instr, next) = decode_at(m, bci); ...; bci = next }]. *)
Fixpoint sweep_from {A} (fuel : nat) (m : list Z) (end_ : Z) (f : Z -> Instr -> Z -> A -> option A) (bci : Z) (a : A) : option A :=
  match fuel with
  | O => None
  | S fuel =>
      if bci <? end_ then
        '(i, next) ← decode_at m bci;
        a ← f bci i next a;
        sweep_from fuel m end_ f next a
      else Some a
  end.
(** An instruction has a byte at least. *)
Definition sweep {A} (m : list Z) (start end_ : Z) (f : Z -> Instr -> Z -> A -> option A) (a : A) : option A :=
  sweep_from (S (Z.to_nat (end_ - start))) m end_ f start a.

(** ** Blocks *)
Inductive Terminator :=
  | Fallthrough (next : nat)
  | Jump (target : nat) (is_backward : bool)
  | Branch (if_true if_false : nat)
  | Return.
Record BasicBlock := MkBlock { bci_start : Z; bci_end : Z; is_loop_header : bool; terminator : Terminator }.

(** [BTreeSet::insert]. *)
Fixpoint set_insert (x : Z) (s : list Z) : list Z :=
  match s with
  | [] => [x]
  | y :: s' => if x <? y then x :: s else if x =? y then s else y :: set_insert x s'
  end.
Definition checked_sub (a b : Z) : option Z := if a <? b then None else Some (a - b).
Definition find_leaders (m : list Z) : option (list Z) :=
  sweep m 0 (zlen m) (fun _ i next leaders =>
    match i with
    | JumpFwd d | BrTrueFwd d | BrFalseFwd d => Some (set_insert next (set_insert (next + d) leaders))
    | JumpBack d => t ← checked_sub next d; Some (set_insert next (set_insert t leaders))
    | ReturnTos | ReturnSelf | BlockReturnTos | NlrTos => Some (set_insert next leaders)
    | _ => Some leaders
    end) (set_insert 0 []).

(** [binary_search] in a sorted list without duplicates. *)
Definition index_of (starts : list Z) (bci : Z) : option nat := fst <$> list_find (.= bci) starts.
Definition last_of (m : list Z) (start end_ : Z) : option (option (Instr * Z)) :=
  sweep m start end_ (fun _ i next _ => Some (Some (i, next))) None.
Definition terminator_of (starts : list Z) (n : nat) (end_ : Z) (last : option (Instr * Z)) : option Terminator :=
  match last with
  | None => Some (Fallthrough (S n))
  | Some (JumpFwd d, next) => t ← index_of starts (next + d); Some (Jump t false)
  | Some (JumpBack d, next) => t ← checked_sub next d; t ← index_of starts t; Some (Jump t true)
  | Some (BrTrueFwd d, next) => t ← index_of starts (next + d); f ← index_of starts next; Some (Branch t f)
  | Some (BrFalseFwd d, next) => t ← index_of starts next; f ← index_of starts (next + d); Some (Branch t f)
  | Some ((ReturnTos | ReturnSelf | BlockReturnTos | NlrTos), _) => Some Return
  | Some (_, next) => if next =? end_ then Some (Fallthrough (S n)) else None
  end.
Fixpoint blocks_from (m : list Z) (starts : list Z) (n : nat) (rest : list Z) : option (list BasicBlock) :=
  match rest with
  | [] => Some []
  | start :: rest =>
      let end_ := default (zlen m) (head rest) in
      last ← last_of m start end_;
      t ← terminator_of starts n end_ last;
      bs ← blocks_from m starts (S n) rest;
      Some (MkBlock start end_ false t :: bs)
  end.
Definition loops_to (n : nat) (b : BasicBlock) : bool := match terminator b with Jump t true => Nat.eqb t n | _ => false end.
Definition mark_headers (bs : list BasicBlock) : list BasicBlock :=
  imap (fun n b => MkBlock (bci_start b) (bci_end b) (existsb (loops_to n) bs) (terminator b)) bs.
Definition decode (m : list Z) : option (list BasicBlock) :=
  leaders ← find_leaders m;
  let starts := filter (fun bci => bci < zlen m) leaders in
  bs ← blocks_from m starts 0 starts;
  Some (mark_headers bs).

(** ** Walks *)
Lemma decode_at_next m pc i next : decode_at m pc = Some (i, next) -> 0 <= pc < next.
Proof.
  unfold decode_at, bytecode_byte. destruct (zlookup m pc) as [op|] eqn:E; [|done]. apply zlookup_lt in E. cbn [mbind option_bind].
  unfold op1, op2, op16, read_u16, bytecode_byte. intros Hd. repeat match type of Hd with (if ?b then _ else _) = _ => destruct b end; try done.
  all: repeat match type of Hd with context [zlookup ?l ?x] => destruct (zlookup l x); cbn [mbind option_bind] in Hd; [|done] end; injection Hd as <- <-; lia.
Qed.
(** The addresses a walk from [start] visits. *)
Inductive visits (m : list Z) (start end_ : Z) : Z -> Prop :=
  | visits_start : start < end_ -> visits m start end_ start
  | visits_next pc i next : visits m start end_ pc -> decode_at m pc = Some (i, next) -> next < end_ -> visits m start end_ next.
Lemma visits_bounds m start end_ pc : visits m start end_ pc -> start <= pc < end_.
Proof. induction 1 as [|pc i next _ IH Hd Hn]; [lia|]. apply decode_at_next in Hd. lia. Qed.
Lemma visits_cons m start end_ i next pc : start < end_ -> decode_at m start = Some (i, next) -> visits m start end_ pc -> pc = start \/ visits m next end_ pc.
Proof.
  intros Hs Hd Hv. induction Hv as [|pc j n Hv IH Hp Hn]; [by left|right]. destruct IH as [->|IH]; [|by eapply visits_next].
  rewrite Hd in Hp. injection Hp as <- <-. by constructor.
Qed.
Lemma visits_later m start end_ i next pc : decode_at m start = Some (i, next) -> visits m next end_ pc -> visits m start end_ pc.
Proof.
  intros Hd Hv. assert (start < end_). { apply visits_bounds in Hv. apply decode_at_next in Hd. lia. }
  induction Hv as [Hn|pc j n _ IH Hp Hn]; [|by eapply visits_next]. eapply visits_next; [by constructor|done|done].
Qed.

Section walk.
Context {A : Type} (m : list Z) (end_ : Z) (f : Z -> Instr -> Z -> A -> option A).
(** Fuel for the bytes that are left is enough. *)
Lemma sweep_fuel fuel bci a : (S (Z.to_nat (end_ - bci)) <= fuel)%nat -> sweep_from fuel m end_ f bci a = sweep m bci end_ f a.
Proof.
  unfold sweep. remember (S (Z.to_nat (end_ - bci))) as n eqn:En. assert (n >= S (Z.to_nat (end_ - bci)))%nat as Hn by lia. clear En.
  revert n fuel bci a Hn. induction n as [|n IH]; intros [|fuel] bci a Hn Hf; try lia. cbn [sweep_from]. destruct (Z.ltb_spec bci end_) as [Hb|]; [|done].
  destruct (decode_at m bci) as [[i next]|] eqn:E; [|done]. cbn [mbind option_bind]. destruct (f bci i next a) as [a'|]; [|done]. cbn [mbind option_bind].
  apply decode_at_next in E. apply IH; lia.
Qed.
Lemma sweep_step bci a i next : decode_at m bci = Some (i, next) -> bci < end_ -> sweep m bci end_ f a = a ← f bci i next a; sweep m next end_ f a.
Proof.
  intros E Hlt. unfold sweep at 1. cbn [sweep_from]. destruct (Z.ltb_spec bci end_); [|lia]. rewrite E. cbn [mbind option_bind].
  destruct (f bci i next a) as [a'|]; [|done]. cbn [mbind option_bind]. apply sweep_fuel. apply decode_at_next in E. lia.
Qed.
Lemma sweep_end bci a : end_ <= bci -> sweep m bci end_ f a = Some a.
Proof. intros Hle. unfold sweep. cbn [sweep_from]. by destruct (Z.ltb_spec bci end_); [lia|]. Qed.
Lemma sweep_inv (P : Z -> A -> Prop) bci a z : P bci a -> (forall pc i next a a', pc < end_ -> visits m bci end_ pc -> decode_at m pc = Some (i, next) -> P pc a -> f pc i next a = Some a' -> P next a') ->
  sweep m bci end_ f a = Some z -> exists pc, end_ <= pc /\ P pc z.
Proof.
  remember (Z.to_nat (end_ - bci)) as n eqn:En. assert (Z.to_nat (end_ - bci) <= n)%nat as Hn by lia. clear En. revert bci a Hn.
  induction n as [|n IH]; intros bci a Hn Hp Hstep Hz; (destruct (decide (end_ <= bci)) as [|Hlt]; [rewrite sweep_end in Hz by done; injection Hz as ->; by exists bci|]); [lia|].
  destruct (decode_at m bci) as [[i next]|] eqn:E; [|unfold sweep in Hz; cbn [sweep_from] in Hz; destruct (Z.ltb_spec bci end_); [by rewrite E in Hz|lia]].
  rewrite (sweep_step _ _ _ _ E) in Hz by lia. destruct (f bci i next a) as [a'|] eqn:Ef; [|done]. cbn [mbind option_bind] in Hz.
  pose proof (decode_at_next _ _ _ _ E). apply (IH next a'); [lia| | |done].
  - apply (Hstep bci i next a a'); [lia|constructor; lia|done..].
  - intros pc j nx b b' Hpc Hv. apply Hstep; [done|]. by eapply visits_later.
Qed.
Lemma sweep_total start : (forall pc, visits m start end_ pc -> exists i next, decode_at m pc = Some (i, next) /\ forall a, is_Some (f pc i next a)) -> forall a, is_Some (sweep m start end_ f a).
Proof.
  remember (Z.to_nat (end_ - start)) as n eqn:En. assert (Z.to_nat (end_ - start) <= n)%nat as Hn by lia. clear En. revert start Hn.
  induction n as [|n IH]; intros start Hn Hf a; (destruct (decide (end_ <= start)) as [|Hlt]; [rewrite sweep_end by done; by eexists|]); [lia|].
  destruct (Hf start) as (i & next & Hd & Hs); [constructor; lia|]. rewrite (sweep_step _ _ _ _ Hd) by lia. destruct (Hs a) as [a' ->]. cbn [mbind option_bind].
  pose proof (decode_at_next _ _ _ _ Hd). apply IH; [lia|]. intros pc Hv. apply Hf. by eapply visits_later.
Qed.
End walk.

(** Addresses visited are in the order of the instructions. *)
Lemma visits_after m start end_ q i n pc : visits m start end_ q -> decode_at m q = Some (i, n) -> visits m start end_ pc -> pc <= q \/ visits m n end_ pc.
Proof.
  intros Hq. revert i n. induction Hq as [Hs|q j q' Hq IH Hd Hn]; intros i n Hdq Hpc.
  - destruct (visits_cons _ _ _ _ _ _ Hs Hdq Hpc) as [->|Hv]; [left; lia|by right].
  - destruct (IH _ _ Hd Hpc) as [Hle|Hv]; [left; apply decode_at_next in Hd; lia|]. destruct (visits_cons _ _ _ _ _ _ Hn Hdq Hv) as [->|Hv']; [left; lia|by right].
Qed.
Lemma visits_ordered m start end_ q i n pc : visits m start end_ q -> decode_at m q = Some (i, n) -> visits m start end_ pc -> q < pc -> n <= pc.
Proof. intros Hq Hd Hpc Hlt. destruct (visits_after _ _ _ _ _ _ _ Hq Hd Hpc) as [|Hv%visits_bounds]; lia. Qed.

(** ** Leaders *)
Lemma set_insert_elem x y l : y ∈ set_insert x l <-> y = x \/ y ∈ l.
Proof.
  induction l as [|z l IH]; cbn [set_insert]; [by rewrite list_elem_of_singleton, elem_of_nil; tauto|].
  destruct (Z.ltb_spec x z); [by rewrite elem_of_cons|]. destruct (Z.eqb_spec x z) as [->|]; [rewrite elem_of_cons; tauto|]. rewrite !elem_of_cons, IH. tauto.
Qed.
Lemma set_insert_sorted x l : StronglySorted Z.lt l -> StronglySorted Z.lt (set_insert x l).
Proof.
  induction 1 as [|z l Hs IH Hz]; cbn [set_insert]; [by repeat constructor|]. destruct (Z.ltb_spec x z).
  - constructor; [by constructor|]. constructor; [done|]. eapply Forall_impl; [exact Hz|]. cbn. lia.
  - destruct (Z.eqb_spec x z); [by constructor|]. constructor; [done|]. rewrite Forall_forall. intros y Hy%set_insert_elem. rewrite Forall_forall in Hz. destruct Hy as [->|Hy]; [lia|by apply Hz].
Qed.
(** The places an instruction makes leaders. *)
Definition leads (i : Instr) (next x : Z) : Prop := jump_target i next = Some x \/ x = next /\ (is_return i = true \/ is_Some (jump_target i next)).
Lemma leaders_exact m ls : find_leaders m = Some ls ->
  StronglySorted Z.lt ls /\ forall x, x ∈ ls <-> x = 0 \/ exists pc i next, visits m 0 (zlen m) pc /\ decode_at m pc = Some (i, next) /\ leads i next x.
Proof.
  intros Hls. unfold find_leaders in Hls.
  set (before pc x := exists q i next, q < pc /\ visits m 0 (zlen m) q /\ decode_at m q = Some (i, next) /\ leads i next x).
  assert (exists pc, zlen m <= pc /\ StronglySorted Z.lt ls /\ forall x, x ∈ ls <-> x = 0 \/ before pc x) as (pc & Hpc & Hs & Hx).
  { eapply (sweep_inv _ _ _ (fun pc ls => StronglySorted Z.lt ls /\ forall x, x ∈ ls <-> x = 0 \/ before pc x)); [| |exact Hls].
    - split; [by repeat constructor|]. intros x. cbn. rewrite list_elem_of_singleton. split; [by left|]. intros [->|(q & i & n & Hq & Hv & _)]; [done|apply visits_bounds in Hv; lia].
    - clear Hls ls. intros pc i next ls ls' Hpc Hv Hd (Hs & Hx) Hstep. pose proof (decode_at_next _ _ _ _ Hd) as Hnext.
      assert (forall x, before next x <-> before pc x \/ leads i next x) as Hsplit.
      { intros x. split.
        - intros (q & i0 & n & Hq & Hvq & Hdq & Hl). destruct (decide (q < pc)) as [Hlt|Hge]; [left; by exists q, i0, n|right]. assert (q = pc) as ->; [|rewrite Hd in Hdq; by injection Hdq as <- <-].
          destruct (decide (q = pc)); [done|]. pose proof (visits_ordered _ _ _ _ _ _ _ Hv Hd Hvq). lia.
        - intros [(q & i0 & n & Hq & Hr)|Hl]; [exists q, i0, n; split; [lia|done]|exists pc, i, next; split; [lia|done]]. }
      enough (StronglySorted Z.lt ls' /\ forall x, x ∈ ls' <-> x ∈ ls \/ leads i next x) as [Hs' Hx'].
      { split; [done|]. intros x. rewrite Hx', Hx, Hsplit. tauto. }
      unfold leads, checked_sub in *. destruct i; cbn [jump_target is_return] in *; try (injection Hstep as <-; split; [done|]; intros x; split; [by left|]; intros [|[|[_ [|[]]]]]; done).
      2: { destruct (_ <? _); [done|]. cbn [mbind option_bind] in Hstep. injection Hstep as <-. split; [by do 2 apply set_insert_sorted|]. intros x. rewrite !set_insert_elem. split; [intros [->|[->|]]; eauto|intros [|[[= ->]|[-> _]]]; auto]. }
      all: injection Hstep as <-; split; [repeat apply set_insert_sorted; done|]; intros x; rewrite !set_insert_elem; first [split; [intros [->|[->|]]; eauto|intros [|[[= ->]|[-> _]]]; auto]|split; [intros [->|]; eauto|intros [|[|[-> _]]]; done || auto]]. }
  split; [done|]. intros x. rewrite Hx. split; (intros [->|(q & i & n & H)]; [by left|right; exists q, i, n]); [by destruct H|]. destruct H as (Hv & Hr). split; [|done]. apply visits_bounds in Hv. lia.
Qed.

(** ** Blocks *)
(** A jump within the code goes to an instruction. *)
Definition aligned (m : list Z) : Prop := forall pc i next t, visits m 0 (zlen m) pc -> decode_at m pc = Some (i, next) ->
  jump_target i next = Some t -> t < zlen m -> visits m 0 (zlen m) t.
Definition successors (t : Terminator) : list nat := match t with Fallthrough n | Jump n _ => [n] | Branch a b => [a; b] | Return => [] end.
(** Control goes from the instruction at [pc] to [pc']. *)
Definition succeeds (i : Instr) (next pc' : Z) : Prop := StackTyping.ends i = false /\ pc' = next \/ jump_target i next = Some pc'.
(** Where a branch goes when the condition is [c]. *)
Definition branch_target (i : Instr) (next : Z) (c : bool) : option Z :=
  match i with
  | BrTrueFwd d => Some (if c then next + d else next)
  | BrFalseFwd d => Some (if c then next else next + d)
  | _ => None
  end.

Lemma decode_at_len m pc i next : decode_at m pc = Some (i, next) -> next <= zlen m.
Proof.
  unfold decode_at, bytecode_byte. destruct (zlookup m pc) as [op|] eqn:E; [|done]. apply zlookup_lt in E. cbn [mbind option_bind].
  unfold op1, op2, op16, read_u16, bytecode_byte. intros Hd. repeat match type of Hd with (if ?b then _ else _) = _ => destruct b end; try done.
  all: repeat match type of Hd with context [zlookup ?l ?x] => let F := fresh in destruct (zlookup l x) eqn:F; cbn [mbind option_bind] in Hd; [apply zlookup_lt in F|done] end; injection Hd as <- <-; lia.
Qed.
Lemma visits_onward m a b end_ pc : visits m a (zlen m) b -> end_ <= zlen m -> visits m b end_ pc -> visits m a (zlen m) pc.
Proof. intros Hb He. induction 1 as [|q i n _ IH Hd Hn]; [done|]. eapply visits_next; [done..|lia]. Qed.
Lemma index_of_lookup starts x n : index_of starts x = Some n -> starts !! n = Some x.
Proof. unfold index_of. destruct (list_find _ _) as [[k y]|] eqn:E; [|done]. cbn. intros [= ->]. by apply list_find_Some in E as (E & -> & _). Qed.
Lemma ascending_lookup l : StronglySorted Z.lt l -> forall i j x y, l !! i = Some x -> l !! j = Some y -> (i < j)%nat -> x < y.
Proof.
  induction 1 as [|z l Hs IH Hz]; intros [|i] [|j] x y Hi Hj Hlt; try done; try lia; cbn in Hi, Hj.
  - injection Hi as <-. rewrite Forall_forall in Hz. apply Hz. by eapply list_elem_of_lookup_2.
  - eapply IH; [done..|lia].
Qed.
Lemma sorted_filter (P : Z -> Prop) `{!forall x, Decision (P x)} l : StronglySorted Z.lt l -> StronglySorted Z.lt (filter P l).
Proof.
  induction 1 as [|z l Hs IH Hz]; [constructor|]. rewrite filter_cons. case_decide; [|done]. constructor; [done|].
  rewrite Forall_forall in *. intros x [_ Hx]%list_elem_of_filter. by apply Hz.
Qed.
Lemma last_visited m start end_ last : start < end_ -> last_of m start end_ = Some last ->
  exists pc i next, visits m start end_ pc /\ decode_at m pc = Some (i, next) /\ end_ <= next /\ last = Some (i, next).
Proof.
  intros Hlt Hl. assert (exists pc, end_ <= pc /\ (pc = start \/ exists q i, visits m start end_ q /\ decode_at m q = Some (i, pc) /\ last = Some (i, pc))) as (pc & Hpc & [->|(q & i & Hv & Hd & ->)]); [|lia|by exists q, i, pc].
  eapply (sweep_inv _ _ _ (fun pc l => pc = start \/ exists q i, visits m start end_ q /\ decode_at m q = Some (i, pc) /\ l = Some (i, pc))); [by left| |exact Hl].
  intros pc i next a a' _ Hv Hd _ [= <-]. right. by exists pc, i.
Qed.
Lemma blocks_from_at m starts n rest bs : blocks_from m starts n rest = Some bs -> length bs = length rest /\ forall k b, bs !! k = Some b ->
  rest !! k = Some (bci_start b) /\ bci_end b = default (zlen m) (rest !! S k) /\
  exists last, last_of m (bci_start b) (bci_end b) = Some last /\ terminator_of starts (n + k) (bci_end b) last = Some (terminator b).
Proof.
  revert n bs. induction rest as [|start rest IH]; intros n bs Hb; cbn [blocks_from] in Hb; [injection Hb as <-; done|].
  destruct (last_of _ _ _) as [last|] eqn:El; [|done]. cbn [mbind option_bind] in Hb. destruct (terminator_of _ _ _ _) as [t|] eqn:Et; [|done]. cbn [mbind option_bind] in Hb.
  destruct (blocks_from _ _ _ rest) as [bs'|] eqn:Eb; [|done]. cbn [mbind option_bind] in Hb. injection Hb as <-. destruct (IH _ _ Eb) as [Hlen Hk]. split; [cbn; lia|].
  intros [|k] b Hb; cbn in Hb.
  - injection Hb as <-. cbn. rewrite Nat.add_0_r. split; [done|]. split; [by destruct rest|by exists last].
  - destruct (Hk _ _ Hb) as (H1 & H2 & H3). replace (n + S k)%nat with (S n + k)%nat by lia. done.
Qed.
Lemma loops_marked n (f : nat -> bool) bs : existsb (loops_to n) (imap (fun k b => MkBlock (bci_start b) (bci_end b) (f k) (terminator b)) bs) = existsb (loops_to n) bs.
Proof. revert f. induction bs as [|b bs IH]; intros f; [done|]. cbn [imap existsb]. f_equal. exact (IH (f ∘ S)). Qed.

Section blocks.
Context (m : list Z) (bs : list BasicBlock) (Hal : aligned m) (Hdec : decode m = Some bs).
Definition in_block (b : BasicBlock) (pc : Z) : Prop := visits m (bci_start b) (bci_end b) pc.
Lemma decode_blocks : exists starts, StronglySorted Z.lt starts /\
  (forall x, x ∈ starts <-> x < zlen m /\ (x = 0 \/ exists pc i next, visits m 0 (zlen m) pc /\ decode_at m pc = Some (i, next) /\ leads i next x)) /\
  length bs = length starts /\ forall n b, bs !! n = Some b -> starts !! n = Some (bci_start b) /\ bci_end b = default (zlen m) (starts !! S n) /\
  is_loop_header b = existsb (loops_to n) bs /\ exists last, last_of m (bci_start b) (bci_end b) = Some last /\ terminator_of starts n (bci_end b) last = Some (terminator b).
Proof using Hdec.
  unfold decode in Hdec. destruct (find_leaders m) as [ls|] eqn:El; [|done]. cbn [mbind option_bind] in Hdec. set (starts := filter _ ls) in Hdec.
  destruct (blocks_from _ _ _ _) as [bs0|] eqn:Eb; [|done]. cbn [mbind option_bind] in Hdec. injection Hdec as Hbs. exists starts. destruct (leaders_exact _ _ El) as [Hs Hx]. destruct (blocks_from_at _ _ _ _ _ Eb) as [Hlen Hk].
  assert (forall n, existsb (loops_to n) bs = existsb (loops_to n) bs0) as Hloop.
  { intros n. rewrite <- Hbs. exact (loops_marked n (fun k => existsb (loops_to k) bs0) bs0). }
  split_and!.
  - by apply sorted_filter.
  - intros x. unfold starts. rewrite list_elem_of_filter, Hx. done.
  - rewrite <- Hbs. unfold mark_headers. by rewrite length_imap.
  - intros n b Hb. rewrite <- Hbs in Hb. unfold mark_headers in Hb. rewrite list_lookup_imap in Hb. destruct (bs0 !! n) as [b0|] eqn:E0; [|done]. injection Hb as <-. cbn. destruct (Hk _ _ E0) as (H1 & H2 & H3). rewrite Hloop. by split_and!.
Qed.
(** Where the blocks are: each begins where the one before ends. *)
Lemma block_at n b : bs !! n = Some b -> bci_start b < bci_end b /\ visits m 0 (zlen m) (bci_start b) /\ bci_end b <= zlen m /\
  match bs !! S n with Some b' => bci_end b = bci_start b' | None => bci_end b = zlen m end.
Proof using Hal Hdec.
  intros Hb. destruct decode_blocks as (starts & Hs & Hx & Hlen & Hk). destruct (Hk _ _ Hb) as (H1 & H2 & _). assert (forall x, x ∈ starts -> visits m 0 (zlen m) x) as Hv.
  { intros x (Hlt & [->|(pc & i & next & Hv & Hd & [Hl|[-> _]])])%Hx; [by constructor|by eapply Hal|by eapply visits_next]. }
  assert (bci_start b ∈ starts) as Hin by by eapply list_elem_of_lookup_2. pose proof (Hv _ Hin) as Hvs. apply Hx in Hin as [Hlt _]. destruct (bs !! S n) as [b'|] eqn:E.
  - destruct (Hk _ _ E) as (H3 & _). rewrite H2, H3. cbn. assert (bci_start b' ∈ starts) as [Hlt' _]%Hx by by eapply list_elem_of_lookup_2. split_and!; [eapply (ascending_lookup _ Hs n (S n)); eauto|done|lia|done].
  - apply lookup_ge_None in E. rewrite H2, (lookup_ge_None_2 starts) by lia. cbn. by split_and!.
Qed.
Lemma blocks_ordered n1 n2 b1 b2 : bs !! n1 = Some b1 -> bs !! n2 = Some b2 -> (n1 < n2)%nat -> bci_end b1 <= bci_start b2.
Proof using Hal Hdec.
  intros H1 H2 Hlt. destruct (block_at _ _ H1) as (_ & _ & _ & Hn). destruct decode_blocks as (starts & Hs & _ & Hlen & Hk). destruct (bs !! S n1) as [b'|] eqn:E.
  - rewrite Hn. destruct (Hk _ _ E) as (E1 & _). destruct (Hk _ _ H2) as (E2 & _). destruct (decide (S n1 = n2)) as [<-|]; [rewrite E1 in E2; injection E2; lia|]. enough (bci_start b' < bci_start b2) by lia. eapply (ascending_lookup _ Hs (S n1) n2); [done..|lia].
  - apply lookup_ge_None in E. apply lookup_lt_Some in H2. lia.
Qed.
Lemma in_block_visited n b pc : bs !! n = Some b -> in_block b pc -> visits m 0 (zlen m) pc.
Proof using Hal Hdec. intros Hb Hv. destruct (block_at _ _ Hb) as (_ & H1 & H2 & _). by eapply visits_onward. Qed.
(** What leads elsewhere is the last instruction of its block. *)
Lemma leads_ends n b pc i next x : bs !! n = Some b -> in_block b pc -> decode_at m pc = Some (i, next) -> leads i next x -> bci_end b <= next.
Proof using Hal Hdec.
  intros Hb Hv Hd Hl. pose proof (in_block_visited _ _ _ Hb Hv) as Hvg. assert (leads i next next) as Hln. { right. split; [done|]. destruct Hl as [Hl|[_ Hl]]; [right; by rewrite Hl|done]. }
  destruct (decide (bci_end b <= next)); [done|]. destruct (block_at _ _ Hb) as (_ & _ & He & Hn). pose proof (decode_at_next _ _ _ _ Hd). pose proof (visits_bounds _ _ _ _ Hv). destruct decode_blocks as (starts & Hs & Hx & Hlen & Hk).
  assert (next ∈ starts) as [k Hkn]%list_elem_of_lookup. { apply Hx. split; [lia|]. right. by exists pc, i, next. }
  destruct (lookup_lt_is_Some_2 bs k) as [b' Hb']; [apply lookup_lt_Some in Hkn; lia|]. destruct (Hk _ _ Hb') as (E & _). rewrite Hkn in E. injection E as ->.
  assert (k <> n) by (intros ->; rewrite Hb in Hb'; injection Hb' as <-; lia). destruct (decide (k < n)%nat) as [Hlt|]; [|assert (n < k)%nat as Hlt by lia]; [pose proof (blocks_ordered _ _ _ _ Hb' Hb Hlt); destruct (block_at _ _ Hb') as (? & _); lia|].
  pose proof (blocks_ordered _ _ _ _ Hb Hb' Hlt). lia.
Qed.
Lemma block_end n b pc i next : bs !! n = Some b -> in_block b pc -> decode_at m pc = Some (i, next) -> bci_end b <= next -> next = bci_end b.
Proof using Hal Hdec.
  intros Hb Hv Hd Hle. pose proof (in_block_visited _ _ _ Hb Hv) as Hvg. destruct (block_at _ _ Hb) as (_ & _ & _ & Hn). pose proof (decode_at_len _ _ _ _ Hd). destruct (bs !! S n) as [b'|] eqn:E; [|lia].
  destruct (block_at _ _ E) as (_ & Hv' & _ & _). pose proof (visits_bounds _ _ _ _ Hv). pose proof (visits_ordered _ _ _ _ _ _ _ Hvg Hd Hv'). lia.
Qed.
Lemma block_term n b pc i next : bs !! n = Some b -> in_block b pc -> decode_at m pc = Some (i, next) -> bci_end b <= next ->
  exists starts, terminator_of starts n (bci_end b) (Some (i, next)) = Some (terminator b) /\ (forall k b', bs !! k = Some b' -> starts !! k = Some (bci_start b')) /\ length bs = length starts.
Proof using Hal Hdec.
  intros Hb Hv Hd Hle. destruct (block_at _ _ Hb) as (Hlt & _). destruct decode_blocks as (starts & Hs & Hx & Hlen & Hk). destruct (Hk _ _ Hb) as (_ & _ & _ & last & Hl & Ht). exists starts.
  destruct (last_visited _ _ _ _ Hlt Hl) as (q & j & nx & Hvq & Hdq & Hle' & ->). assert (q = pc) as ->.
  { pose proof (visits_bounds _ _ _ _ Hv). pose proof (visits_bounds _ _ _ _ Hvq). destruct (decide (q = pc)); [done|]. destruct (decide (q < pc)); [pose proof (visits_ordered _ _ _ _ _ _ _ Hvq Hdq Hv)|pose proof (visits_ordered _ _ _ _ _ _ _ Hv Hd Hvq)]; lia. }
  rewrite Hd in Hdq. injection Hdq as <- <-. split; [done|]. split; [intros k b' Hb'; by apply Hk|done].
Qed.
Lemma target_block starts t k : (forall k b', bs !! k = Some b' -> starts !! k = Some (bci_start b')) -> length bs = length starts -> index_of starts t = Some k -> exists b', bs !! k = Some b' /\ bci_start b' = t.
Proof using m bs Hal Hdec.
  intros Hk Hlen Hi%index_of_lookup. destruct (lookup_lt_is_Some_2 bs k) as [b' Hb']; [apply lookup_lt_Some in Hi; lia|]. exists b'. split; [done|]. apply Hk in Hb'. rewrite Hi in Hb'. by injection Hb'.
Qed.
Lemma inside n b pc i next : bs !! n = Some b -> in_block b pc -> decode_at m pc = Some (i, next) -> next < bci_end b -> StackTyping.ends i = false /\ jump_target i next = None.
Proof using Hal Hdec.
  intros Hb Hv Hd Hlt. assert (forall x, ~ leads i next x) as Hno by (intros x Hl; pose proof (leads_ends _ _ _ _ _ _ Hb Hv Hd Hl); lia).
  destruct (jump_target i next) as [t|] eqn:E; [destruct (Hno t); by left|]. split; [|done]. destruct (is_return i) eqn:E'; [destruct (Hno next); right; auto|]. by destruct i.
Qed.
Lemma outside n b pc i next pc' : bs !! n = Some b -> in_block b pc -> decode_at m pc = Some (i, next) -> bci_end b <= next -> pc' < zlen m ->
  succeeds i next pc' <-> exists k b', k ∈ successors (terminator b) /\ bs !! k = Some b' /\ bci_start b' = pc'.
Proof using Hal Hdec.
  intros Hb Hv Hd Hle Hpc'. pose proof (block_end _ _ _ _ _ Hb Hv Hd Hle) as ->. destruct (block_term _ _ _ _ _ Hb Hv Hd Hle) as (starts & Ht & Hk & Hlen). destruct (block_at _ _ Hb) as (_ & _ & _ & Hn).
  assert (forall t k, index_of starts t = Some k -> pc' = t <-> exists b', bs !! k = Some b' /\ bci_start b' = pc') as Htgt.
  { intros t k Hi. destruct (target_block _ _ _ Hk Hlen Hi) as (b' & Hb' & <-). split; [intros ->; by exists b'|]. intros (b2 & Hb2 & <-). rewrite Hb' in Hb2. by injection Hb2 as ->. }
  assert (pc' = bci_end b <-> exists b', bs !! S n = Some b' /\ bci_start b' = pc') as Hft.
  { destruct (bs !! S n) as [b'|]; split; [intros ->; by exists b'|intros (b2 & [= <-] & <-); done|lia|by intros (b2 & ? & _)]. }
  assert (forall k, (exists k' b', k' ∈ [k] /\ bs !! k' = Some b' /\ bci_start b' = pc') <-> exists b', bs !! k = Some b' /\ bci_start b' = pc') as Hone.
  { intros k. split; [intros (k' & b' & ->%list_elem_of_singleton & H); by exists b'|intros (b' & H); exists k, b'; split; [by left|done]]. }
  assert (forall k1 k2, (exists k' b', k' ∈ [k1; k2] /\ bs !! k' = Some b' /\ bci_start b' = pc') <-> (exists b', bs !! k1 = Some b' /\ bci_start b' = pc') \/ exists b', bs !! k2 = Some b' /\ bci_start b' = pc') as Htwo.
  { intros k1 k2. split.
    - intros (k' & b' & [->| ->%list_elem_of_singleton]%elem_of_cons & H); [left|right]; by exists b'.
    - intros [(b' & H)|(b' & H)]; [exists k1, b'; split; [by left|done]|exists k2, b'; split; [right; by left|done]]. }
  unfold succeeds. destruct i; cbn [StackTyping.ends is_return jump_target terminator_of mbind option_bind] in *.
  all: try (rewrite Z.eqb_refl in Ht; injection Ht as <-; cbn [successors]; rewrite Hone, <- Hft; split; [intros [[_ ->]|]; done|auto]).
  all: try (injection Ht as <-; cbn [successors]; split; [by intros [[? _]|]|by intros (k & b' & ?%elem_of_nil & _)]).
  - destruct (index_of starts (bci_end b + d)) as [k|] eqn:E; [|done]. injection Ht as <-. cbn [successors]. rewrite Hone, <- (Htgt _ _ E). split; [intros [[? _]|[= ->]]; done|intros ->; by right].
  - destruct (checked_sub (bci_end b) d) as [t|] eqn:Ec; [|done]. unfold checked_sub in Ec. destruct (_ <? _); [done|]. injection Ec as <-. cbn [mbind option_bind] in Ht.
    destruct (index_of starts (bci_end b - d)) as [k|] eqn:E; [|done]. injection Ht as <-. cbn [successors]. rewrite Hone, <- (Htgt _ _ E). split; [intros [[? _]|[= ->]]; done|intros ->; by right].
  - destruct (index_of starts (bci_end b + d)) as [k1|] eqn:E1; [|done]. cbn [mbind option_bind] in Ht. destruct (index_of starts (bci_end b)) as [k2|] eqn:E2; [|done]. injection Ht as <-. cbn [successors].
    rewrite Htwo, <- (Htgt _ _ E1), <- (Htgt _ _ E2). split; [intros [[_ ->]|[= ->]]; auto|intros [->| ->]; auto].
  - destruct (index_of starts (bci_end b)) as [k1|] eqn:E1; [|done]. cbn [mbind option_bind] in Ht. destruct (index_of starts (bci_end b + d)) as [k2|] eqn:E2; [|done]. injection Ht as <-. cbn [successors].
    rewrite Htwo, <- (Htgt _ _ E1), <- (Htgt _ _ E2). split; [intros [[_ ->]|[= ->]]; auto|intros [->| ->]; auto].
Qed.
Lemma visited_in_block pc : visits m 0 (zlen m) pc -> exists n b, bs !! n = Some b /\ in_block b pc.
Proof using Hal Hdec.
  induction 1 as [H0|pc i next Hv (n & b & Hb & Hin) Hd Hlt].
  - destruct decode_blocks as (starts & _ & Hx & Hlen & Hk). assert (0 ∈ starts) as [n Hn]%list_elem_of_lookup by (apply Hx; auto). destruct (lookup_lt_is_Some_2 bs n) as [b Hb]; [apply lookup_lt_Some in Hn; lia|].
    exists n, b. split; [done|]. destruct (Hk _ _ Hb) as (E & _). rewrite Hn in E. injection E as E. unfold in_block. rewrite <- E. constructor. destruct (block_at _ _ Hb). lia.
  - destruct (decide (next < bci_end b)) as [Hlt'|Hge]; [exists n, b; split; [done|]; by eapply visits_next|]. pose proof (block_end _ _ _ _ _ Hb Hin Hd ltac:(lia)) as ->.
    destruct (block_at _ _ Hb) as (_ & _ & _ & Hn). destruct (bs !! S n) as [b'|] eqn:E; [|lia]. exists (S n), b'. split; [done|]. unfold in_block. rewrite Hn. constructor. by destruct (block_at _ _ E).
Qed.
Lemma block_unique n1 n2 b1 b2 pc : bs !! n1 = Some b1 -> bs !! n2 = Some b2 -> in_block b1 pc -> in_block b2 pc -> n1 = n2.
Proof using Hal Hdec.
  intros H1 H2 [E1 F1]%visits_bounds [E2 F2]%visits_bounds. destruct (lt_eq_lt_dec n1 n2) as [[Hlt|]|Hlt]; [|done|]; [pose proof (blocks_ordered _ _ _ _ H1 H2 Hlt)|pose proof (blocks_ordered _ _ _ _ H2 H1 Hlt)]; lia.
Qed.
Lemma header_exact n b : bs !! n = Some b -> is_loop_header b = true <-> exists pc d next, visits m 0 (zlen m) pc /\ decode_at m pc = Some (JumpBack d, next) /\ next - d = bci_start b.
Proof using Hal Hdec.
  intros Hb. destruct decode_blocks as (starts & _ & _ & _ & Hk). destruct (Hk _ _ Hb) as (_ & _ & -> & _). clear Hk starts. rewrite existsb_exists. split.
  - intros (b' & Hin & Hl). apply list_elem_of_In, list_elem_of_lookup in Hin as [n' Hb']. unfold loops_to in Hl. destruct (terminator b') as [|t []| |] eqn:Et; try done. apply Nat.eqb_eq in Hl. subst t.
    destruct (block_at _ _ Hb') as (Hlt & _). destruct decode_blocks as (starts & Hs & Hx & Hlen & Hk). destruct (Hk _ _ Hb') as (_ & _ & _ & last & Hl & Ht). destruct (last_visited _ _ _ _ Hlt Hl) as (q & j & nx & Hvq & Hdq & Hle' & ->).
    rewrite Et in Ht. destruct j; cbn [terminator_of mbind option_bind] in Ht; repeat case_match; try done.
    1: by destruct (index_of starts (nx + d)).
    2: by destruct (index_of starts (nx + d)); cbn [mbind option_bind] in Ht; [destruct (index_of starts nx)|].
    2: by destruct (index_of starts nx); cbn [mbind option_bind] in Ht; [destruct (index_of starts (nx + d))|].
    unfold checked_sub in Ht. destruct (_ <? _); [done|]. cbn [mbind option_bind] in Ht. destruct (index_of starts (nx - d)) as [k|] eqn:E; [|done]. injection Ht as ->. exists q, d, nx. split; [by eapply in_block_visited|]. split; [done|].
    apply index_of_lookup in E. destruct (Hk _ _ Hb) as (E' & _). rewrite E in E'. by injection E'.
  - intros (pc & d & next & Hv & Hd & Ht). destruct (visited_in_block _ Hv) as (n' & b' & Hb' & Hin). exists b'. split; [apply list_elem_of_In; by eapply list_elem_of_lookup_2|].
    assert (leads (JumpBack d) next (next - d)) as Hle%(leads_ends _ _ _ _ _ _ Hb' Hin Hd) by by left. destruct (block_term _ _ _ _ _ Hb' Hin Hd Hle) as (starts & Htm & Hk & Hlen). cbn [terminator_of] in Htm.
    destruct (checked_sub next d) as [t|] eqn:Ec; [|done]. unfold checked_sub in Ec. destruct (_ <? _); [done|]. injection Ec as <-. cbn [mbind option_bind] in Htm. destruct (index_of starts (next - d)) as [k|] eqn:E; [|done]. injection Htm as Htm. unfold loops_to. rewrite <- Htm. apply Nat.eqb_eq.
    destruct (target_block _ _ _ Hk Hlen E) as (b2 & Hb2 & Heq). eapply block_unique; [exact Hb2|exact Hb| |]; [unfold in_block; constructor; by destruct (block_at _ _ Hb2)|]. unfold in_block. rewrite Heq, Ht. constructor. by destruct (block_at _ _ Hb).
Qed.
Lemma branch_arms n b pc i next c t : bs !! n = Some b -> in_block b pc -> decode_at m pc = Some (i, next) -> branch_target i next c = Some t ->
  exists k1 k2 b', terminator b = Branch k1 k2 /\ bs !! (if c then k1 else k2) = Some b' /\ bci_start b' = t.
Proof using Hal Hdec.
  intros Hb Hv Hd Hc. assert (leads i next next) as Hle%(leads_ends _ _ _ _ _ _ Hb Hv Hd) by (right; split; [done|right]; by destruct i).
  destruct (block_term _ _ _ _ _ Hb Hv Hd Hle) as (starts & Ht & Hk & Hlen).
  assert (forall x k, index_of starts x = Some k -> exists b', bs !! k = Some b' /\ bci_start b' = x) as Htgt by (intros x k; by apply (target_block _ _ _ Hk Hlen)).
  destruct i; cbn [terminator_of branch_target] in *; try done; injection Hc as <-.
  - destruct (index_of starts (next + d)) as [k1|] eqn:E1; [|done]. cbn [mbind option_bind] in Ht. destruct (index_of starts next) as [k2|] eqn:E2; [|done]. injection Ht as <-.
    destruct c; [destruct (Htgt _ _ E1) as (b' & ? & ?)|destruct (Htgt _ _ E2) as (b' & ? & ?)]; by exists k1, k2, b'.
  - destruct (index_of starts next) as [k1|] eqn:E1; [|done]. cbn [mbind option_bind] in Ht. destruct (index_of starts (next + d)) as [k2|] eqn:E2; [|done]. injection Ht as <-.
    destruct c; [destruct (Htgt _ _ E1) as (b' & ? & ?)|destruct (Htgt _ _ E2) as (b' & ? & ?)]; by exists k1, k2, b'.
Qed.
End blocks.

(** ** Decoding succeeds *)
Lemma index_of_elem starts x : x ∈ starts -> is_Some (index_of starts x).
Proof. intros Hx. unfold index_of. destruct (list_find_elem_of (.= x) starts x Hx eq_refl) as [[k y] ->]. by eexists. Qed.
(** Control stays in the code: wherever an instruction leads there is one. *)
Definition closed (m : list Z) : Prop := forall pc, visits m 0 (zlen m) pc ->
  exists i next, decode_at m pc = Some (i, next) /\ forall pc', succeeds i next pc' -> visits m 0 (zlen m) pc'.
Lemma closed_aligned m : closed m -> aligned m.
Proof. intros Hc pc i next t Hv Hd Ht _. destruct (Hc _ Hv) as (j & n & Hd' & H). rewrite Hd in Hd'. injection Hd' as <- <-. apply H. by right. Qed.

Section total.
Context (m : list Z) (Hcl : closed m).
Lemma find_leaders_total : is_Some (find_leaders m).
Proof using Hcl.
  apply sweep_total. intros pc Hv. destruct (Hcl _ Hv) as (i & next & Hd & Hs). exists i, next. split; [done|]. intros a. destruct i; try by eexists.
  unfold checked_sub. destruct (Z.ltb_spec next d); [|by eexists]. assert (visits m 0 (zlen m) (next - d)) as ?%visits_bounds; [apply Hs; by right|lia].
Qed.
Context (starts : list Z) (Hsorted : StronglySorted Z.lt starts)
  (Hstarts : forall x, x ∈ starts <-> x < zlen m /\ (x = 0 \/ exists pc i next, visits m 0 (zlen m) pc /\ decode_at m pc = Some (i, next) /\ leads i next x)).
Lemma start_visited x : x ∈ starts -> visits m 0 (zlen m) x.
Proof using Hcl Hstarts.
  intros (Hlt & [->|(pc & i & next & Hv & Hd & [Hl|[-> _]])])%Hstarts; [by constructor|by eapply (closed_aligned _ Hcl)|by eapply visits_next].
Qed.
Lemma lead_found pc i next x : visits m 0 (zlen m) pc -> decode_at m pc = Some (i, next) -> leads i next x -> x < zlen m -> is_Some (index_of starts x).
Proof using Hstarts. intros Hv Hd Hl Hlt. apply index_of_elem, Hstarts. split; [done|]. right. by exists pc, i, next. Qed.
Lemma terminator_total pc i next n : visits m 0 (zlen m) pc -> decode_at m pc = Some (i, next) -> is_Some (terminator_of starts n next (Some (i, next))).
Proof using Hcl Hstarts.
  intros Hv Hd. destruct (Hcl _ Hv) as (j & n' & Hd' & Hs). rewrite Hd in Hd'. injection Hd' as <- <-.
  assert (forall t, jump_target i next = Some t -> 0 <= t /\ is_Some (index_of starts t)) as Hjump.
  { intros t Ht. assert (visits m 0 (zlen m) t) as ?%visits_bounds by (apply Hs; by right). split; [lia|]. apply (lead_found pc i next); [done..|by left|lia]. }
  assert (StackTyping.ends i = false -> is_Some (jump_target i next) -> is_Some (index_of starts next)) as Hnext.
  { intros He Ht. assert (visits m 0 (zlen m) next) as ?%visits_bounds by (apply Hs; by left). apply (lead_found pc i next); [done..|by right; auto|lia]. }
  destruct i; cbn [terminator_of jump_target StackTyping.ends is_return mbind option_bind] in *; rewrite ?Z.eqb_refl; try by eexists.
  - destruct (Hjump _ eq_refl) as [_ [k ->]]. by eexists.
  - destruct (Hjump _ eq_refl) as [H0 [k Hk]]. unfold checked_sub. destruct (Z.ltb_spec next d); [lia|]. cbn [mbind option_bind]. rewrite Hk. by eexists.
  - destruct (Hjump _ eq_refl) as [_ [k ->]], (Hnext eq_refl) as [k' ->]; [by eexists|]. by eexists.
  - destruct (Hjump _ eq_refl) as [_ [k ->]], (Hnext eq_refl) as [k' ->]; [by eexists|]. by eexists.
Qed.
Lemma blocks_from_total rest : forall n, drop n starts = rest -> is_Some (blocks_from m starts n rest).
Proof using Hcl Hstarts Hsorted.
  induction rest as [|x rest IH]; intros n Hr; [by eexists|]. cbn [blocks_from]. pose proof (f_equal (.!! 0%nat) Hr) as H0. pose proof (f_equal (.!! 1%nat) Hr) as H1. rewrite !lookup_drop in H0, H1. cbn in H0, H1.
  rewrite Nat.add_0_r in H0. rewrite Nat.add_1_r in H1. set (end_ := default (zlen m) (head rest)). assert (x ∈ starts) as Hx by by eapply list_elem_of_lookup_2. pose proof (start_visited _ Hx) as Hv. pose proof (visits_bounds _ _ _ _ Hv).
  assert (x < end_ <= zlen m /\ (end_ = zlen m \/ visits m 0 (zlen m) end_)) as ([Hlt Hle] & Hend).
  { unfold end_. destruct rest as [|y rest]; cbn; [split; [lia|by left]|]. cbn in H1. assert (visits m 0 (zlen m) y) as Hvy by (apply start_visited; by eapply list_elem_of_lookup_2).
    pose proof (visits_bounds _ _ _ _ Hvy). pose proof (ascending_lookup _ Hsorted n (S n) _ _ H0 H1). split; [lia|by right]. }
  assert (forall pc, visits m x end_ pc -> visits m 0 (zlen m) pc) as Hin by (intros pc; by apply visits_onward).
  destruct (sweep_total m end_ (fun _ i next _ => Some (Some (i, next))) x ltac:(intros pc Hpc; destruct (Hcl _ (Hin _ Hpc)) as (i & next & Hd & _); exists i, next; split; [done|by eexists]) None) as [last Hlast].
  unfold last_of at 1. rewrite Hlast. cbn [mbind option_bind]. destruct (last_visited _ _ _ _ Hlt Hlast) as (pc & i & next & Hpc & Hd & Hge & ->). pose proof (visits_bounds _ _ _ _ Hpc).
  assert (next = end_) as <-.
  { destruct Hend as [->|Hend]; [pose proof (decode_at_len _ _ _ _ Hd); lia|]. pose proof (visits_ordered _ _ _ _ _ _ _ (Hin _ Hpc) Hd Hend). lia. }
  destruct (terminator_total pc i next n (Hin _ Hpc) Hd) as [t ->]. cbn [mbind option_bind]. destruct (IH (S n)) as [bs ->]; [|by eexists].
  rewrite <- Nat.add_1_r, <- drop_drop, Hr. done.
Qed.
End total.
Lemma decode_total m : closed m -> is_Some (decode m).
Proof.
  intros Hcl. unfold decode. destruct (find_leaders_total m Hcl) as [ls Hls]. rewrite Hls. cbn [mbind option_bind]. destruct (leaders_exact _ _ Hls) as [Hs Hx].
  destruct (blocks_from_total m Hcl (filter (fun bci => bci < zlen m) ls)) with (filter (fun bci => bci < zlen m) ls) 0%nat as [bs ->]; [|..|done|by eexists].
  - by apply sorted_filter.
  - intros x. by rewrite list_elem_of_filter, Hx.
Qed.

(** The addresses visited, computed. *)
Lemma visits_decoded fuel m a l pc : decode_from fuel m a = Some l -> visits m a (zlen m) pc <-> pc ∈ fst <$> l.
Proof.
  revert a l. induction fuel as [|fuel IH]; intros a l Hl; [done|]. cbn [decode_from] in Hl. destruct (Z.ltb_spec a (zlen m)); [|injection Hl as <-; split; [intros ?%visits_bounds; lia|by intros ?%elem_of_nil]].
  destruct (decode_at m a) as [[i next]|] eqn:E; [|done]. cbn [mbind option_bind] in Hl. destruct (decode_from fuel m next) as [l'|] eqn:El; [|done]. injection Hl as <-. cbn [fmap list_fmap fst]. rewrite elem_of_cons, <- (IH _ _ El). split.
  - intros Hv. destruct (visits_cons _ _ _ _ _ _ ltac:(done) E Hv) as [->|]; auto.
  - intros [->|Hv]; [by constructor|by eapply visits_later].
Qed.
Definition closedb (m : list Z) : bool :=
  match decode_all m with
  | Some l => forallb (fun '(pc, i) => match decode_at m pc with
      | Some (_, next) => (StackTyping.ends i || bool_decide (next ∈ fst <$> l)) && match jump_target i next with Some t => bool_decide (t ∈ fst <$> l) | None => true end
      | None => false end) l
  | None => false
  end.
Lemma decoded_at fuel m a l pc i : decode_from fuel m a = Some l -> (pc, i) ∈ l -> exists next, decode_at m pc = Some (i, next).
Proof.
  revert a l. induction fuel as [|fuel IH]; intros a l Hl Hin; [done|]. cbn [decode_from] in Hl. destruct (a <? zlen m); [|injection Hl as <-; by apply elem_of_nil in Hin].
  destruct (decode_at m a) as [[j next]|] eqn:E; [|done]. cbn [mbind option_bind] in Hl. destruct (decode_from fuel m next) as [l'|] eqn:El; [|done]. injection Hl as <-. apply elem_of_cons in Hin as [[= -> ->]|Hin]; [by exists next|by eapply IH].
Qed.
Lemma closedb_ok m : closedb m = true -> closed m.
Proof.
  unfold closedb. destruct (decode_all m) as [l|] eqn:El; [|done]. intros Ha pc Hv. apply (visits_decoded _ _ _ _ pc El) in Hv. apply list_elem_of_fmap in Hv as ([q i] & -> & Hin). cbn [fst] in *.
  destruct (decoded_at _ _ _ _ _ _ El Hin) as (next & Hd). exists i, next. split; [done|]. rewrite forallb_forall in Ha. specialize (Ha _ (proj1 (list_elem_of_In _ _) Hin)). cbv beta iota in Ha. rewrite Hd in Ha.
  apply andb_true_iff in Ha as [Hn Hj]. intros pc' [[He ->]|Ht]; apply (visits_decoded _ _ _ _ _ El).
  - rewrite He in Hn. by apply bool_decide_eq_true in Hn.
  - rewrite Ht in Hj. by apply bool_decide_eq_true in Hj.
Qed.

(** C30. The graph of basic blocks has the paths of the instructions.  Of any
    code that control does not leave, decoding makes blocks, without a panic.
    Every instruction is in exactly one of them; from one that is not the last
    of its block control goes to the next and nowhere else; from the last it
    goes to the first instructions of the block's successors, to all of them
    and nowhere else, a branch to the first of its two where the condition is
    true; and the headers of loops are the targets of the backward jumps. *)
Theorem cfg_exact m (Hcl : closed m) : exists bs, decode m = Some bs /\
  (forall pc, visits m 0 (zlen m) pc <-> exists n b, bs !! n = Some b /\ visits m (bci_start b) (bci_end b) pc) /\
  (forall n1 n2 b1 b2 pc, bs !! n1 = Some b1 -> bs !! n2 = Some b2 -> visits m (bci_start b1) (bci_end b1) pc -> visits m (bci_start b2) (bci_end b2) pc -> n1 = n2) /\
  forall n b, bs !! n = Some b ->
    (forall pc i next, visits m (bci_start b) (bci_end b) pc -> decode_at m pc = Some (i, next) ->
      forall pc', succeeds i next pc' <-> if decide (next < bci_end b) then pc' = next
        else exists k b', k ∈ successors (terminator b) /\ bs !! k = Some b' /\ bci_start b' = pc') /\
    (forall pc i next c t, visits m (bci_start b) (bci_end b) pc -> decode_at m pc = Some (i, next) -> branch_target i next c = Some t ->
      exists k1 k2 b', terminator b = Branch k1 k2 /\ bs !! (if c then k1 else k2) = Some b' /\ bci_start b' = t) /\
    (is_loop_header b = true <-> exists pc d next, visits m 0 (zlen m) pc /\ decode_at m pc = Some (JumpBack d, next) /\ next - d = bci_start b).
Proof.
  pose proof (closed_aligned _ Hcl) as Hal. destruct (decode_total m Hcl) as [bs Hdec]. exists bs. split; [done|]. split; [|split; [intros n1 n2 b1 b2 pc; by apply block_unique|]].
  - intros pc. split; [by apply visited_in_block|]. intros (n & b & Hb & Hv). by eapply in_block_visited.
  - intros n b Hb. split; [|split; [intros pc i next c t; by apply (branch_arms _ _ Hal Hdec n)|by apply (header_exact _ _ Hal Hdec n)]]. intros pc i next Hv Hd pc'. destruct (decide _) as [Hlt|Hge].
    + destruct (inside _ _ Hal Hdec _ _ _ _ _ Hb Hv Hd Hlt) as [He Hj]. unfold succeeds. rewrite He, Hj. split; [by intros [[_ ->]|]|auto].
    + assert (pc' < zlen m -> succeeds i next pc' <-> exists k b', k ∈ successors (terminator b) /\ bs !! k = Some b' /\ bci_start b' = pc') as Hout by (intros; apply (outside _ _ Hal Hdec _ _ _ _ _ _ Hb Hv Hd); [lia|done]).
      split; [intros Hs; apply Hout; [|done]|intros (k & b' & Hk & Hb' & <-); apply Hout; [|by exists k, b']].
      * destruct (Hcl pc) as (j & nx & Hd' & Hv'); [by eapply in_block_visited|]. rewrite Hd in Hd'. injection Hd' as <- <-. by apply Hv', visits_bounds in Hs as [_ ?].
      * destruct (block_at _ _ Hal Hdec _ _ Hb') as (_ & [_ ?]%visits_bounds & _). lia.
Qed.
(** [[:x | x foo] whileTrue: [...]] in small: a loop with a branch out of it. *)
Definition looping : list Z := concat (encode <$> [PushTemp 0; BrFalseFwd 5; PushSelf; Pop; JumpBack 10; ReturnSelf]).
Lemma cfg_exact_witness : exists bs, decode looping = Some bs /\ length bs = 3%nat /\ (forall pc, visits looping 0 (zlen looping) pc <-> exists n b, bs !! n = Some b /\ visits looping (bci_start b) (bci_end b) pc).
Proof.
  destruct (cfg_exact looping (closedb_ok looping ltac:(vm_compute; reflexivity))) as (bs & Hdec & Hv & _). exists bs. split; [done|]. split; [|done].
  assert (length <$> decode looping = Some 3%nat) as Hlen by (vm_compute; reflexivity). rewrite Hdec in Hlen. by injection Hlen.
Defined.
End Cfg.
