(* ===== verification/Emission.v ===== *)
(** What the emitters of [Codegen] do to an assembler session: the operations
    they add to it, what they change besides, and the stack types on the way.

    [emits c T B Q] is about a run of [c] from a place with the stack types [T]
    in a unit that has [B] frame slots at least: when [c] answers, it has run a
    session that checks from [T], and [Q] holds of the answer and of the types
    and the slots where it stops.  [steps B c p q] says that [c] takes [p]
    operands and leaves [q], or ends in code that control does not leave. *)
From Stdlib Require Import String Ascii.
From S2P Require Import Prelude Oops Packed Bytecode Builder Lexer Ast Capture World Codegen StackTyping.
From stdpp Require Import gmap.
#[local] Set Warnings "-register-all".
#[local] Open Scope string_scope.
#[local] Open Scope Z_scope.
#[local] Open Scope list_scope.

Module Emission.
Import Encoding BytecodeBuilder StackTyping Codegen.
#[local] Open Scope codegen_scope.

(** ** Objects *)
(** [v'] has no method that [v] has not. *)
Definition quiet (v v' : World.vmstate) : Prop := forall n b, World.objects v' !! n = Some (World.OMethod b) -> World.objects v !! n = Some (World.OMethod b).
#[export] Instance quiet_pre : PreOrder quiet.
Proof. split; [by intros v n b|]. intros v1 v2 v3 H1 H2 n b H. by apply H1, H2. Qed.
Definition no_method (o : World.object) : Prop := match o with World.OMethod _ => False | _ => True end.
Lemma quiet_alloc o v : no_method o -> quiet v (World.alloc o v).2.
Proof.
  intros Ho n b. cbn. intros [H|[_ H]]%lookup_app_Some; [done|]. apply list_lookup_singleton_Some in H as [_ ->]. done.
Qed.
Lemma quiet_at_put o i x v v' : World.at_put o i x v = Some v' -> quiet v v'.
Proof.
  unfold World.at_put, World.set_object. destruct (World.object_at v o) as [[]|]; try done. destruct (zset elems i x); [|done]. cbn [mbind option_bind].
  destruct (World.index_of o) as [k|]; [|done]. intros [= <-] n b. cbn. destruct (decide (n = k)) as [->|Hne]; [|by rewrite list_lookup_insert_ne].
  intros Hb. assert (k < length (World.objects v))%nat by (apply lookup_lt_Some in Hb; by rewrite length_insert in Hb). by rewrite list_lookup_insert_eq in Hb.
Qed.
Lemma quiet_put_smi o i x v v' : World.put_smi o i x v = Some v' -> quiet v v'.
Proof. unfold World.put_smi. destruct (SmallInt.new x); [|done]. apply quiet_at_put. Qed.
Lemma quiet_at_put_all o l : forall i v v', World.at_put_all o i l v = Some v' -> quiet v v'.
Proof.
  induction l as [|x l IH]; intros i v v'; cbn [World.at_put_all]; [by intros [= <-]|]. destruct (World.at_put o i x v) as [v1|] eqn:E; [|done]. cbn [mbind option_bind]. intros H.
  etransitivity; [by eapply quiet_at_put|by eapply IH].
Qed.
Lemma quiet_intern bytes v o v' : World.intern bytes v = Some (World.Fits (o, v')) -> quiet v v'.
Proof.
  unfold World.intern. destruct (World.probe _ _ _ _) as [[sym|]|]; [by intros [= _ <-]| |done]. cbn [mbind option_bind].
  unfold World.alloc_indexable_bytes_raw, World.alloc_words_raw. destruct (World.try_bump_eden _ _); [|done].
  destruct (World.alloc _ v) as [sym v1] eqn:Ea. destruct (World.insert _ _ _) as [t|]; [|done]. cbn [mbind option_bind]. destruct (if _ : bool then _ else _) as [t'|]; [|done]. cbn [mbind option_bind]. intros [= _ <-] n b Hb. cbn in Hb.
  revert Hb. replace v1 with (World.alloc (World.OBytes (World.symbol_klass (World.universe v)) (Mark.with_hash MARK_PRISTINE (Z.lor (u32 (World.content_hash bytes)) 1)) [] bytes) v).2 by by rewrite Ea. by apply quiet_alloc.
Qed.
Lemma quiet_global_declare name v o v' : World.global_declare name v = Some (o, v') -> quiet v v'.
Proof.
  unfold World.global_declare. destruct (World.global_lookup v name) as [[a|]|]; [by intros [= _ <-]| |done]. cbn [mbind option_bind].
  destruct (World.ensure_capacity v) as [v1|] eqn:E; [|done]. cbn [mbind option_bind]. assert (quiet v v1) as H1.
  { unfold World.ensure_capacity in E. destruct (World.as_array v (World.smalltalk v)) as [es|].
    - destruct (World.tally_of es); [|done]. cbn [mbind option_bind] in E. destruct (_ <? 0); [done|]. destruct (_ <? _); [by injection E as <-|].
      destruct (World.alloc_indexable_oops _ _ v) as [g v2] eqn:Ea. assert (quiet v v2) as H2 by (replace v2 with (World.alloc_indexable_oops (World.system_dictionary_klass (World.universe v)) (1 + (zlen es - 1) * 2) v).2 by (by rewrite Ea); by apply quiet_alloc).
      destruct (World.put_smi g _ _ v2) as [v3|] eqn:E3; [|done]. cbn [mbind option_bind] in E. destruct (World.assocs_of es); [|done]. cbn [mbind option_bind] in E. destruct (World.at_put_all _ _ _ v3) as [v4|] eqn:E4; [|done]. injection E as <-.
      etransitivity; [exact H2|]. etransitivity; [by eapply quiet_put_smi|]. by eapply quiet_at_put_all in E4.
    - destruct (World.alloc_indexable_oops _ _ v) as [g v2] eqn:Ea. assert (quiet v v2) as H2 by (replace v2 with (World.alloc_indexable_oops (World.system_dictionary_klass (World.universe v)) (1 + World.INITIAL_CAPACITY) v).2 by (by rewrite Ea); by apply quiet_alloc).
      destruct (World.put_smi g _ _ v2) as [v3|] eqn:E3; [|done]. injection E as <-. etransitivity; [exact H2|]. by eapply quiet_put_smi in E3. }
  destruct (World.alloc_slots _ _ v1) as [a v2] eqn:Ea. assert (quiet v1 v2) as H2 by (replace v2 with (World.alloc_slots (World.association_klass (World.universe v1)) [name; World.nil_obj (World.universe v1)] v1).2 by (by rewrite Ea); by apply quiet_alloc).
  destruct (World.as_array v2 _) as [es|]; [|done]. cbn [mbind option_bind]. destruct (World.tally_of es); [|done]. cbn [mbind option_bind].
  destruct (World.at_put _ _ a v2) as [v3|] eqn:E3; [|done]. cbn [mbind option_bind]. destruct (World.put_smi _ _ _ v3) as [v4|] eqn:E4; [|done]. intros [= _ <-].
  etransitivity; [exact H1|]. etransitivity; [exact H2|]. etransitivity; [by eapply quiet_at_put|by eapply quiet_put_smi].
Qed.

(** ** Sessions *)
Lemma intern_frame o b idx b' : intern_literal o b = Some (idx, b') -> labels b' = labels b /\ zlen (literals b) <= zlen (literals b').
Proof.
  assert (forall b', intern_fresh o b = (idx, b') -> labels b' = labels b /\ zlen (literals b) <= zlen (literals b')) as Hf.
  { intros b1 [= _ <-]. cbn [labels literals]. rewrite zlen_snoc. split; [done|lia]. }
  unfold intern_literal. intros H. destruct (literal_index b !! o) as [i|]; [destruct (zlookup (literals b) i) as [l|]; [|done]; cbn [mbind option_bind] in H; destruct (l =? o)|];
    simplify_eq; first [by apply Hf|by split].
Qed.
Lemma send_frame w n s a b b' : BytecodeBuilder.emit_send w n s a b = Some b' -> labels b' = labels b /\ literals b' = literals b.
Proof. unfold BytecodeBuilder.emit_send, add_send. case_match; [done|]. cbn [mbind option_bind]. intros [= <-]. by case_match. Qed.
Lemma fwd_frame w l b b' : emit_fwd_jump w l b = Some b' -> length (labels b') = length (labels b) /\ literals b' = literals b.
Proof.
  unfold emit_fwd_jump. cbn zeta. intros H. destruct (labels _ !! l) as [[t|ss]|]; [|injection H as <-; cbn; by rewrite length_insert|done]. repeat (case_match; [done|]).
  destruct (patch16 _ _ _); [|done]. by injection H as <-.
Qed.
(** What every operation leaves alone. *)
Lemma exec_frame o b b' : exec o b = Some b' ->
  length (labels b') = (length (labels b) + match o with ONewLabel => 1 | _ => 0 end)%nat /\ zlen (literals b) <= zlen (literals b').
Proof.
  intros H. destruct o; cbn [exec] in H; unfold push_literal, push_global, store_global_pop, intern_block_literal in H.
  1: destruct i; cbn [plain] in H; simplify_eq; cbn; split; lia.
  1-4: match type of H with context [intern_literal ?o ?b0] => destruct (intern_literal o b0) as [[idx b1]|] eqn:E; [|done] end; cbn [mbind option_bind] in H; destruct (intern_frame _ _ _ _ E) as [H1 H2];
    unfold push_closure in H; repeat (case_match; try done); injection H as <-; unfold emit_literal_ref; try (destruct (idx <=? 255)); cbn; rewrite H1; split; lia.
  1-2: destruct (send_frame _ _ _ _ _ _ H) as [-> ->]; split; lia.
  1: injection H as <-; cbn; rewrite length_app; cbn; split; lia.
  1: unfold bind in H; case_match; try done; case_match; try done; destruct (patch_sites _ _ _); [|done]; injection H as <-; cbn; rewrite length_insert; split; lia.
  1-3: destruct (fwd_frame _ _ _ _ H) as [-> ->]; split; lia.
  1: unfold jump_back in H; repeat (case_match; try done); injection H as <-; cbn; split; lia.
  1: injection H as <-; unfold note_line; repeat case_match; cbn; split; lia.
  injection H as <-. unfold zlen. cbn. rewrite length_fmap. split; lia.
Qed.
Lemma run_literals ops : forall b b', run ops b = Some b' -> zlen (literals b) <= zlen (literals b').
Proof.
  induction ops as [|o ops IH]; intros b b'; cbn [run]; [by intros [= <-]|]. destruct (exec o b) as [b1|] eqn:E; [|done]. cbn [mbind option_bind]. intros H%IH.
  destruct (exec_frame _ _ _ E). lia.
Qed.
Lemma run_app ops ops' : forall b, run (ops ++ ops') b = b1 ← run ops b; run ops' b1.
Proof. induction ops as [|o ops IH]; intros b; cbn [run app]; [done|]. destruct (exec o b); [apply IH|done]. Qed.
Lemma run_fits_app ops ops' : forall b b1, run ops b = Some b1 -> run_fits ops b = true -> run_fits ops' b1 = true -> run_fits (ops ++ ops') b = true.
Proof.
  induction ops as [|o ops IH]; intros b b1; cbn [run run_fits app]; [by intros [= <-]|]. destruct (exec o b) as [b2|]; [|done]. cbn [mbind option_bind].
  intros H [-> H2]%andb_true_iff H3. cbn [andb]. by eapply IH.
Qed.
Lemma check_labels o T T' : check o T = Some T' -> length (at_label T') = (length (at_label T) + match o with ONewLabel => 1 | _ => 0 end)%nat.
Proof.
  assert (forall s, check_sym s T = Some T' -> at_label T' = at_label T) as Hs by (intros s; unfold check_sym; destruct (after _ _); [|done]; by intros [= <-]).
  assert (forall k l, check_jump k l T = Some T' -> length (at_label T') = length (at_label T)) as Hj.
  { intros k l. unfold check_jump. destruct (at_label T !! l) as [x|]; [|done]. cbn [mbind option_bind]. destruct (cur T); [|by intros [= <-]]. destruct (check_sym (SJump k l) T) as [T1|] eqn:E; [|done]. cbn [mbind option_bind].
    assert (at_label T1 = at_label T) by (revert E; unfold check_sym; destruct (after _ _); [|done]; by intros [= <-]).
    destruct k; [..|case_match; [|done]; intros [= <-]; by f_equal]; destruct (join _ _); try done; cbn [mbind option_bind]; intros [= <-]; cbn; by rewrite length_insert. }
  destruct o; cbn [check]; intros H; try (rewrite (Hs _ H)); try (rewrite (Hj _ _ H)); rewrite ?Nat.add_0_r; try done.
  - injection H as <-. cbn. by rewrite length_app.
  - destruct (at_label T !! l); [|done]. cbn [mbind option_bind] in H. destruct (join _ _); [|done]. injection H as <-. cbn. by rewrite length_insert.
  - by injection H as <-.
  - by injection H as <-.
Qed.

Section emission.
Context (Good : nat -> method -> Prop).
Definition methods_good (v : World.vmstate) : Prop := forall n b, World.objects v !! n = Some (World.OMethod b) -> Good n b.
Lemma quiet_good v v' : quiet v v' -> methods_good v -> methods_good v'.
Proof. intros H Hg n b Hb. by eapply Hg, H. Qed.

(** From [s] to [s'], [ops] has been run; the literals are as many as every
    kind of operand can name. *)
Record session (s s' : st) (ops : list op) : Prop := {
  se_run : run ops (bb s) = Some (bb s');
  se_fits : zlen (literals (bb s')) <= 255 -> run_fits ops (bb s) = true;
  se_slots : next_hoist_slot s <= next_hoist_slot s';
  se_temps : Forall (names_temps (next_hoist_slot s')) ops;
  se_vm : methods_good (vm s) -> methods_good (vm s') }.
Lemma names_temps_mono a b o : a <= b -> names_temps a o -> names_temps b o.
Proof. intros Hab Ha i t Hi Ht. specialize (Ha i t Hi Ht). lia. Qed.
Lemma session_nil s s' : bb s' = bb s -> next_hoist_slot s <= next_hoist_slot s' -> (methods_good (vm s) -> methods_good (vm s')) -> session s s' [].
Proof. intros H1 H2 H3. split; [by rewrite H1|done|done|constructor|done]. Qed.
Lemma session_app s s1 s2 ops1 ops2 : session s s1 ops1 -> session s1 s2 ops2 -> session s s2 (ops1 ++ ops2).
Proof.
  intros [A1 A2 A3 A4 A5] [B1 B2 B3 B4 B5]. split.
  - by rewrite run_app, A1.
  - intros Hl. pose proof (run_literals _ _ _ B1). eapply run_fits_app; [exact A1|apply A2; lia|by apply B2].
  - lia.
  - apply Forall_app. split; [|done]. eapply Forall_impl; [exact A4|]. intros o. by apply names_temps_mono.
  - auto.
Qed.

(** ** Emitting *)
Definition stands (T : types) (B : Z) (s : st) : Prop := length (at_label T) = length (labels (bb s)) /\ B <= next_hoist_slot s.
Definition emits {A} (c : M A) (T : types) (B : Z) (Q : A -> types -> Z -> Prop) : Prop := forall s a s', c s = Ok (a, s') -> stands T B s ->
  exists ops T' B', session s s' ops /\ check_all ops T = Some T' /\ stands T' B' s' /\ B <= B' /\ Q a T' B'.

Lemma emits_mono {A} (c : M A) T B (Q Q' : A -> types -> Z -> Prop) : emits c T B Q -> (forall a T' B', B <= B' -> Q a T' B' -> Q' a T' B') -> emits c T B Q'.
Proof. intros Hc HQ s a s' E Hs. destruct (Hc s a s' E Hs) as (ops & T' & B' & H1 & H2 & H3 & H4 & H5). exists ops, T', B'. do 4 (split; [done|]). by apply HQ. Qed.
Lemma emits_ret {A} (a : A) T B (Q : A -> types -> Z -> Prop) : Q a T B -> emits (ret a) T B Q.
Proof. intros HQ s a' s' [= <- <-] Hs. exists [], T, B. do 4 (split; [by first [apply session_nil|done]|]). done. Qed.
Lemma emits_seq {A C} (c : M A) (k : A -> M C) T B Q : emits c T B (fun a T' B' => B <= B' -> emits (k a) T' B' Q) -> emits (seq c k) T B Q.
Proof.
  intros Hc s a s' E Hs. unfold seq in E. destruct (c s) as [[a1 s1]| |] eqn:E1; try done. destruct (Hc s a1 s1 E1 Hs) as (ops1 & T1 & B1 & H1 & H2 & H3 & H4 & H5).
  destruct (H5 H4 s1 a s' E H3) as (ops2 & T2 & B2 & H6 & H7 & H8 & H9 & H10). exists (ops1 ++ ops2), T2, B2. split; [by eapply session_app|]. split; [by rewrite check_all_app, H2|]. split; [done|]. split; [lia|done].
Qed.
Lemma emits_panic {A} T B (Q : A -> types -> Z -> Prop) : emits panic T B Q.
Proof. by intros s a s'. Qed.
Lemma emits_fail {A} span msg T B (Q : A -> types -> Z -> Prop) : emits (fail span msg) T B Q.
Proof. by intros s a s'. Qed.
(** A computation that leaves the builder and the frame alone. *)
Definition silent {A} (c : M A) (P : A -> Prop) : Prop := forall s a s', c s = Ok (a, s') ->
  bb s' = bb s /\ next_hoist_slot s' = next_hoist_slot s /\ quiet (vm s) (vm s') /\ P a.
Definition any {A} (a : A) : Prop := True.
Lemma silent_ret {A} (a : A) (P : A -> Prop) : P a -> silent (ret a) P.
Proof. intros HP s a' s' [= <- <-]. by split. Qed.
Lemma silent_seq {A C} (c : M A) (k : A -> M C) P Q : silent c P -> (forall a, P a -> silent (k a) Q) -> silent (seq c k) Q.
Proof.
  intros Hc Hk s a s' E. unfold seq in E. destruct (c s) as [[a1 s1]| |] eqn:E1; try done. destruct (Hc _ _ _ E1) as (H1 & H2 & H3 & H4). destruct (Hk _ H4 _ _ _ E) as (H5 & H6 & H7 & H8).
  split; [congruence|]. split; [congruence|]. split; [by etransitivity|done].
Qed.
Lemma silent_lift {A} (o : option A) (P : A -> Prop) : (forall a, o = Some a -> P a) -> silent (lift o) P.
Proof. intros HP s a s' E. unfold lift in E. destruct o; [|done]. injection E as <- <-. split; [done|]. split; [done|]. split; [done|by apply HP]. Qed.
Lemma silent_read {A} (f : st -> A) : silent (read f) any.
Proof. intros s a s' [= <- <-]. by split. Qed.
Lemma silent_vm {A} (f : World.vmstate -> option (A * World.vmstate)) : (forall v a v', f v = Some (a, v') -> quiet v v') -> silent (on_vm f) any.
Proof. intros Hf s a s' E. unfold on_vm in E. destruct (f (vm s)) as [[a' v]|] eqn:Ef; [|done]. injection E as <- <-. split; [done|]. split; [done|]. split; [by eapply Hf|done]. Qed.
Lemma silent_alloc f : (forall v, quiet v (f v).2) -> silent (alloc f) any.
Proof. intros Hf. apply silent_vm. intros v a v' [= E]. specialize (Hf v). by rewrite E in Hf. Qed.
Lemma silent_update_vm f : (forall v v', f v = Some v' -> quiet v v') -> silent (update_vm f) any.
Proof. intros Hf. apply silent_vm. intros v a v' E. destruct (f v) as [v1|] eqn:E1; [|done]. injection E as _ <-. by apply Hf. Qed.
Lemma silent_update_cache f : silent (update_cache f) any.
Proof. intros s a s' [= _ <-]. by split. Qed.
Lemma silent_intern name : silent (Codegen.intern name) any.
Proof. apply silent_vm. intros v a v' E. destruct (World.intern _ v) as [[[o v1]|code]|] eqn:Ei; try done. injection E as <- <-. by eapply quiet_intern. Qed.
Lemma emits_silent {A} (c : M A) P T B (Q : A -> types -> Z -> Prop) : silent c P -> (forall a, P a -> Q a T B) -> emits c T B Q.
Proof.
  intros Hc HQ s a s' E [Hs1 Hs2]. destruct (Hc _ _ _ E) as (H1 & H2 & H3 & H4). exists [], T, B. split; [apply session_nil; [done|lia|by apply quiet_good]|]. split; [done|]. split; [split; [by rewrite H1|lia]|]. split; [done|by apply HQ].
Qed.
Lemma emits_slot T B (Q : Z -> types -> Z -> Prop) : (forall x B', 0 <= B -> B < B' -> 0 <= x < B' -> inU 8 x -> Q x T B') -> 0 <= B -> emits fresh_slot T B Q.
Proof.
  intros HQ HB s a s' [= <- <-] [Hs1 Hs2]. exists [], T, (next_hoist_slot s + 1). split; [apply session_nil; cbn; [done|lia|done]|]. split; [done|]. split; [split; cbn; [done|lia]|]. split; [lia|].
  apply HQ; [done|lia| |apply Z.mod_pos_bound; lia]. unfold u8, wrapU. pose proof (Z.mod_pos_bound (next_hoist_slot s) (2 ^ 8) ltac:(lia)). pose proof (Z.mod_le (next_hoist_slot s) (2 ^ 8) ltac:(lia) ltac:(lia)). lia.
Qed.
(** A call of the builder that is one operation. *)
Lemma emits_exec {A} (c : M A) o T B T' (Q : A -> types -> Z -> Prop) :
  (forall s a s', c s = Ok (a, s') -> vm s' = vm s /\ next_hoist_slot s' = next_hoist_slot s /\ exec o (bb s) = Some (bb s') /\ (length (at_label T) = length (labels (bb s)) -> Q a T' B)) ->
  check o T = Some T' -> names_temps B o -> (forall b, zlen (literals b) <= 255 -> op_fits o b = true) -> emits c T B Q.
Proof.
  intros Hc Hk Ht Hf s a s' E [Hs1 Hs2]. destruct (Hc s a s' E) as (E1 & E2 & E3 & HQ). destruct (exec_frame _ _ _ E3) as [F1 F2]. exists [o], T', B. split; [split|].
  - cbn [run]. by rewrite E3.
  - intros Hl. cbn [run_fits]. rewrite Hf by lia. by rewrite E3.
  - lia.
  - constructor; [|constructor]. eapply names_temps_mono; [|exact Ht]. lia.
  - by rewrite E1.
  - split; [cbn [check_all]; by rewrite Hk|]. split; [split|split; [done|by apply HQ]]; [|lia]. rewrite F1, (check_labels _ _ _ Hk). lia.
Qed.

(** ** Labels *)
(** [T] comes after [T0], and knows [x] of a label that [T0] has not yet. *)
Record knows (T0 : types) (l : nat) (x : option nat) (T : types) : Prop := {
  kn_prefix : at_label T0 `prefix_of` at_label T;
  kn_at : at_label T !! l = Some x;
  kn_new : (length (at_label T0) <= l)%nat }.
Lemma knows_prefix T0 l x T T' : knows T0 l x T -> at_label T `prefix_of` at_label T' -> knows T0 l x T'.
Proof. intros [H1 H2 H3] Hp. split; [by etransitivity|by eapply prefix_lookup_Some|done]. Qed.
Lemma knows_insert T0 l x y T T' : knows T0 l x T -> at_label T' = <[l := y]> (at_label T) ->
  knows T0 l y T' /\ (forall l' x', l' <> l -> knows T0 l' x' T -> knows T0 l' x' T').
Proof.
  intros [[L HL] H2 H3] E. assert (at_label T0 `prefix_of` at_label T') as Hp.
  { exists (<[(l - length (at_label T0))%nat := y]> L). by rewrite E, HL, insert_app_r_alt by done. }
  split; [split; [done| |done]|]. { rewrite E, list_lookup_insert_eq; [done|by eapply lookup_lt_Some]. }
  intros l' x' Hl' [H4 H5 H6]. split; [done| |done]. by rewrite E, list_lookup_insert_ne.
Qed.
Lemma emits_label T0 T B (Q : nat -> types -> Z -> Prop) : at_label T0 `prefix_of` at_label T ->
  (forall l T', cur T' = cur T -> knows T0 l None T' -> (forall l' x, knows T0 l' x T -> l' <> l /\ knows T0 l' x T') -> Q l T' B) -> emits Codegen.new_label T B Q.
Proof.
  intros Hp HQ. eapply (emits_exec _ ONewLabel); [|done|by intros ? ?|done]. intros s a s' E. unfold Codegen.new_label in E. injection E as <- <-. do 3 (split; [done|]).
  intros HL. assert (at_label T `prefix_of` at_label T ++ [None]) as Hp' by by eexists. apply HQ; [done| |].
  - split; cbn [at_label]; [by etransitivity| |rewrite <- HL; by apply prefix_length]. by rewrite <- HL, list_lookup_middle.
  - intros l' x H. split; [|by eapply knows_prefix]. destruct H as [_ H _]. apply lookup_lt_Some in H. lia.
Qed.
Lemma try_emit_exec o f : (forall b, exec o b = f b) -> forall s a s', try_emit f s = Ok (a, s') ->
  vm s' = vm s /\ next_hoist_slot s' = next_hoist_slot s /\ exec o (bb s) = Some (bb s').
Proof. intros Hf s a s' E. unfold try_emit in E. destruct (f (bb s)) as [b|] eqn:Eb; [|done]. injection E as <- <-. cbn. by rewrite Hf. Qed.
Lemma emits_bind T0 l x y T B (Q : unit -> types -> Z -> Prop) : knows T0 l x T -> join (cur T) x = Some y ->
  (forall T', cur T' = y -> knows T0 l y T' -> (forall l' x', l' <> l -> knows T0 l' x' T -> knows T0 l' x' T') -> Q tt T' B) -> emits (try_emit (bind l)) T B Q.
Proof.
  intros Hk Hj HQ. destruct (knows_insert _ _ _ y T (MkTypes y (<[l := y]> (at_label T))) Hk eq_refl) as [H1 H2].
  eapply (emits_exec _ (OBind l) _ _ (MkTypes y (<[l := y]> (at_label T)))); [| |by intros ? ?|done].
  - intros s [] s' E. destruct (try_emit_exec (OBind l) _ (fun _ => eq_refl) _ _ _ E) as (E1 & E2 & E3). do 3 (split; [done|]). intros _. by apply HQ.
  - cbn [check]. rewrite (kn_at _ _ _ _ Hk). cbn [mbind option_bind]. by rewrite Hj.
Qed.
Definition jump_op (k : jump_kind) (l : nat) : op := match k with JFwd => OJumpFwd l | JTrue => OBrTrue l | JFalse => OBrFalse l | JBack => OJumpBack l end.
Definition jump_call (k : jump_kind) : nat -> builder -> option builder := match k with JFwd => jump_fwd | JTrue => br_true_fwd | JFalse => br_false_fwd | JBack => jump_back end.
Definition jump_takes (k : jump_kind) : nat := match k with JTrue | JFalse => 1 | _ => 0 end.
Definition room (p : nat) (c : option nat) : Prop := c = None \/ exists d, c = Some (p + d)%nat.
Definition moved (p q : nat) (c c' : option nat) : Prop := c' = None \/ exists d, c = Some (p + d)%nat /\ c' = Some (q + d)%nat.
Definition minus (c : option nat) (k : nat) : option nat := (fun d => (d - k)%nat) <$> c.
Lemma emits_jump k T B T' (Q : unit -> types -> Z -> Prop) l : check_jump k l T = Some T' -> Q tt T' B -> emits (try_emit (jump_call k l)) T B Q.
Proof.
  intros Hk HQ. eapply (emits_exec _ (jump_op k l) _ _ T'); [|by destruct k|by destruct k; intros ? ?|by destruct k].
  intros s [] s' E. destruct (try_emit_exec (jump_op k l) (jump_call k l) ltac:(by destruct k) _ _ _ E) as (E1 & E2 & E3). by do 3 (split; [done|]).
Qed.
(** A forward jump to a label of which nothing is known yet. *)
Lemma emits_forward k T0 l T B (Q : unit -> types -> Z -> Prop) : k <> JBack -> knows T0 l None T -> room (jump_takes k) (cur T) ->
  (forall T', cur T' = (match k with JFwd => None | _ => minus (cur T) (jump_takes k) end) -> knows T0 l (minus (cur T) (jump_takes k)) T' ->
    (forall l' x', l' <> l -> knows T0 l' x' T -> knows T0 l' x' T') -> Q tt T' B) -> emits (try_emit (jump_call k l)) T B Q.
Proof.
  intros Hk Hl Hr HQ. destruct Hr as [Hc|[d Hc]].
  - assert (check_jump k l T = Some T) as E by (unfold check_jump; by rewrite (kn_at _ _ _ _ Hl), Hc). eapply emits_jump; [exact E|]. apply HQ; [rewrite Hc; by destruct k|by rewrite Hc|done].
  - set (z := Some d). assert (minus (cur T) (jump_takes k) = z) as Hz by (rewrite Hc; unfold minus, z; cbn; f_equal; lia).
    set (T' := MkTypes (match k with JFwd => None | _ => z end) (<[l := z]> (at_label T))).
    assert (check_jump k l T = Some T') as E.
    { unfold check_jump. rewrite (kn_at _ _ _ _ Hl), Hc. cbn [mbind option_bind]. unfold check_sym. rewrite Hc. unfold after. rewrite decide_True by (destruct k; cbn; lia). cbn [mbind option_bind].
      unfold T', z. destruct k; try done; cbn [sym_ends sym_takes sym_leaves join mbind option_bind cur at_label jump_takes] in *; repeat f_equal; lia. }
    destruct (knows_insert _ _ _ z T T' Hl eq_refl) as [H1 H2]. eapply emits_jump; [exact E|]. apply HQ; [by rewrite Hz|by rewrite Hz|done].
Qed.
Lemma emits_back T0 l x T B (Q : unit -> types -> Z -> Prop) : knows T0 l x T -> cur T = None \/ cur T = x ->
  (forall T', cur T' = None -> at_label T' = at_label T -> Q tt T' B) -> emits (try_emit (jump_back l)) T B Q.
Proof.
  intros Hl Hc HQ. change (jump_back l) with (jump_call JBack l). destruct (cur T) as [d|] eqn:E.
  - destruct Hc as [|<-]; [done|]. eapply (emits_jump _ _ _ (MkTypes None (at_label T))); [|by apply HQ]. unfold check_jump. rewrite (kn_at _ _ _ _ Hl), E. cbn [mbind option_bind]. unfold check_sym. rewrite E. unfold after.
    rewrite decide_True by (cbn; lia). cbn [mbind option_bind sym_takes]. by rewrite decide_True by (f_equal; lia).
  - eapply (emits_jump _ _ _ T); [|by apply HQ]. unfold check_jump. by rewrite (kn_at _ _ _ _ Hl), E.
Qed.

(** ** Pieces of code *)
Lemma join_None_r c : join c None = Some c.
Proof. by destruct c. Qed.
Lemma moved_room p q c c' : moved p q c c' -> room q c'.
Proof. intros [->|(d & _ & ->)]; [by left|right; by exists d]. Qed.
Lemma moved_moved p q r c c' c'' : moved p q c c' -> moved q r c' c'' -> moved p r c c''.
Proof.
  intros H1 [->|(d & -> & ->)]; [by left|]. destruct H1 as [?|(d' & -> & [= H])]; [done|]. right. exists d'. split; [done|]. f_equal. lia.
Qed.
Lemma moved_refl p c : room p c -> moved p p c c.
Proof. intros [->|[d ->]]; [by left|right; by exists d]. Qed.
Lemma moved_join p q c a b : moved p q c a -> moved p q c b -> exists y, join a b = Some y /\ moved p q c y.
Proof.
  intros [->|(d & Hc & ->)] Hb; [by exists b|]. destruct Hb as [->|(d' & Hc' & ->)]; [eexists; split; [done|right; eauto]|].
  rewrite Hc in Hc'. injection Hc' as Hd. assert (d' = d) as -> by lia. cbn. rewrite decide_True by done. eexists. split; [done|right; eauto].
Qed.
Lemma moved_minus p c : room (S p) c -> moved (S p) p c (minus c 1).
Proof. intros [->|[d ->]]; [by left|]. right. exists d. split; [done|]. cbn. f_equal. lia. Qed.
Definition advances (p q : nat) (T T' : types) : Prop := moved p q (cur T) (cur T') /\ at_label T `prefix_of` at_label T'.
Lemma advances_trans p q r T1 T2 T3 : advances p q T1 T2 -> advances q r T2 T3 -> advances p r T1 T3.
Proof. intros [H1 H2] [H3 H4]. split; [by eapply moved_moved|by etransitivity]. Qed.

Definition steps (B : Z) (c : M unit) (p q : nat) : Prop := forall T B1, B <= B1 -> room p (cur T) -> emits c T B1 (fun _ T' _ => advances p q T T').
Lemma steps_mono B B' c p q : B <= B' -> steps B c p q -> steps B' c p q.
Proof. intros HB Hc T B1 H. apply Hc. lia. Qed.
Lemma steps_ret B p : steps B (ret tt) p p.
Proof. intros T B1 _ Hr. apply emits_ret. split; [by apply moved_refl|done]. Qed.
Lemma steps_seq B c k p q r : steps B c p q -> steps B k q r -> steps B (c ;; k) p r.
Proof.
  intros Hc Hk T B1 HB Hr. apply emits_seq. eapply emits_mono; [by apply Hc|]. intros [] T1 B2 H2 [H3 H4] _. eapply emits_mono; [apply Hk; [lia|by eapply moved_room]|].
  intros [] T2 B3 H5 H6. by eapply advances_trans.
Qed.
Lemma steps_frame B c p q k : steps B c p q -> steps B c (p + k) (q + k).
Proof.
  intros Hc T B1 HB Hr. eapply emits_mono; [apply Hc; [done|]|].
  - destruct Hr as [->|[d ->]]; [by left|right; exists (k + d)%nat; f_equal; lia].
  - intros [] T' B' _ [Hm H2]. split; [|done]. destruct Hm as [->|(d & H1 & ->)]; [by left|]. destruct Hr as [Hr|[d' Hr]]; rewrite H1 in Hr; [done|]. injection Hr as Hr.
    right. exists d'. rewrite H1. split; f_equal; lia.
Qed.
(** A computation that leaves the code alone. *)
Lemma steps_let {A} B (c : M A) k p q (P : A -> Z -> Prop) : (forall T B1, B <= B1 -> emits c T B1 (fun a T' B' => T' = T /\ P a B')) ->
  (forall a B', B <= B' -> P a B' -> steps B' (k a) p q) -> steps B (seq c k) p q.
Proof.
  intros Hc Hk T B1 HB Hr. apply emits_seq. eapply emits_mono; [by apply Hc|]. intros a T' B' HB' [-> HP] _. eapply Hk; [|exact HP|done|done]. lia.
Qed.
Lemma steps_silent {A} B (c : M A) k p q P : silent c P -> (forall a, P a -> steps B (k a) p q) -> steps B (seq c k) p q.
Proof.
  intros Hc Hk. eapply (steps_let _ _ _ _ _ (fun a _ => P a)).
  - intros T B1 _. apply emits_silent with (1 := Hc). by intros a Ha.
  - intros a B' HB Ha. eapply steps_mono; [exact HB|by apply Hk].
Qed.
Lemma steps_ext B c c' p q : (forall s, c s = c' s) -> steps B c' p q -> steps B c p q.
Proof. intros He Hc T B1 HB Hr s a s' E. rewrite He in E. exact (Hc T B1 HB Hr s a s' E). Qed.

(** *** Single operations *)
Lemma check_sym_room s T p q : room p (cur T) -> (sym_takes s <= p)%nat -> sym_ends s = true \/ q = (p - sym_takes s + sym_leaves s)%nat ->
  exists T', check_sym s T = Some T' /\ advances p q T T'.
Proof.
  intros Hr Hp Hq. unfold check_sym, advances. destruct Hr as [->|[d ->]]; cbn [after mbind option_bind].
  - eexists. split; [done|]. split; [by left|done].
  - rewrite decide_True by lia. cbn [mbind option_bind]. eexists. split; [done|]. split; [|done]. destruct (sym_ends s) eqn:E; [by left|]. destruct Hq as [| ->]; [done|]. right. exists d. cbn. split; f_equal; lia.
Qed.
Definition calls (c : M unit) (o : op) : Prop := forall s a s', c s = Ok (a, s') -> vm s' = vm s /\ next_hoist_slot s' = next_hoist_slot s /\ exec o (bb s) = Some (bb s').
Lemma steps_op B c o s p q : calls c o -> (forall T, check o T = check_sym s T) -> names_temps B o -> (forall b, zlen (literals b) <= 255 -> op_fits o b = true) ->
  (sym_takes s <= p)%nat -> sym_ends s = true \/ q = (p - sym_takes s + sym_leaves s)%nat -> steps B c p q.
Proof.
  intros Hc Hk Ht Hf Hp Hq T B1 HB Hr. destruct (check_sym_room s T p q Hr Hp Hq) as (T' & E & Ha). eapply (emits_exec _ o _ _ T'); [| |by eapply names_temps_mono|done].
  - intros s0 a s' E0. destruct (Hc _ _ _ E0) as (E1 & E2 & E3). by do 3 (split; [done|]).
  - by rewrite Hk.
Qed.
Lemma calls_emit o f : (forall b, exec o b = Some (f b)) -> calls (emit f) o.
Proof. intros Hf s a s' [= <- <-]. cbn. by rewrite Hf. Qed.
Lemma calls_try o f : (forall b, exec o b = f b) -> calls (try_emit f) o.
Proof. intros Hf s a s'. by apply try_emit_exec. Qed.
Lemma steps_plain B i f p q : (forall b, plain i b = Some (f b)) -> instr_ok i -> (forall t, temp_of i = Some t -> 0 <= t < B) ->
  (takes i <= p)%nat -> ends i = true \/ q = (p - takes i + leaves i)%nat -> steps B (emit f) p q.
Proof.
  intros Hf Hi Ht Hp Hq. apply (steps_op _ _ (OPlain i) (SInstr i)); try done; [by apply calls_emit| |].
  - intros i' t [= <-]. apply Ht.
  - intros b _. cbn. by apply bool_decide_eq_true.
Qed.
Lemma steps_literal B o : steps B (try_emit (push_literal o)) 0 1.
Proof. apply (steps_op _ _ (OLiteral o) (SLit ULiteral o)); [by apply calls_try|done|by intros ? ?|intros b Hb; cbn; lia|cbn; lia|by right]. Qed.
Lemma steps_global B o : steps B (try_emit (push_global o)) 0 1.
Proof. apply (steps_op _ _ (OGlobal o) (SLit UGlobal o)); [by apply calls_try|done|by intros ? ?|intros b Hb; cbn; lia|cbn; lia|by right]. Qed.
Lemma steps_store_global B o : steps B (try_emit (store_global_pop o)) 1 0.
Proof. apply (steps_op _ _ (OStoreGlobal o) (SLit UStoreGlobal o)); [by apply calls_try|done|by intros ? ?|intros b Hb; cbn; lia|cbn; lia|by right]. Qed.
Lemma steps_send B (su : bool) sel argc n : argc = Z.of_nat n -> inU 8 argc -> steps B (try_emit ((if su then send_super else send) sel argc)) (S n) 1.
Proof.
  intros -> Hn. assert (bool_decide (inU 8 (Z.of_nat n)) = true) by by apply bool_decide_eq_true.
  destruct su; [apply (steps_op _ _ (OSendSuper sel (Z.of_nat n)) (SSend true sel (Z.of_nat n)))|apply (steps_op _ _ (OSend sel (Z.of_nat n)) (SSend false sel (Z.of_nat n)))].
  all: first [by apply calls_try|done|by intros ? ?|cbn; lia|right; cbn; lia].
Qed.
Lemma steps_note B stmt_line p : steps B (emit (note_line stmt_line)) p p.
Proof.
  intros T B1 _ Hr. eapply (emits_exec _ (ONote stmt_line) _ _ T); [|done|by intros ? ?|done]. intros s a s' E. injection E as <- <-. do 3 (split; [done|]). intros _. split; [by apply moved_refl|done].
Qed.

(** *** Conditionals and loops *)
Definition arms (T0 : types) (x1 x2 : option nat) (l1 l2 : nat) (T : types) : Prop := knows T0 l1 x1 T /\ knows T0 l2 x2 T /\ l1 <> l2.
Lemma arms_prefix T0 x1 x2 l1 l2 T T' : arms T0 x1 x2 l1 l2 T -> at_label T `prefix_of` at_label T' -> arms T0 x1 x2 l1 l2 T'.
Proof. intros (H1 & H2 & H3) Hp. split; [by eapply knows_prefix|]. split; [by eapply knows_prefix|done]. Qed.
Lemma emits_arm {A} B0 c p q (k : unit -> M A) T0 x1 x2 l1 l2 T B Q : steps B0 c p q -> B0 <= B -> arms T0 x1 x2 l1 l2 T -> room p (cur T) ->
  (forall T' B', B <= B' -> arms T0 x1 x2 l1 l2 T' -> moved p q (cur T) (cur T') -> emits (k tt) T' B' Q) -> emits (seq c k) T B Q.
Proof.
  intros Hc HB Ha Hr HK. apply emits_seq. eapply emits_mono; [by apply Hc|]. intros [] T' B' HB' [Hm Hp] _. apply HK; [done|by eapply arms_prefix|done].
Qed.
Lemma emits_labels {A} (k : nat -> nat -> M A) T0 B Q : (forall l1 l2 T, arms T0 None None l1 l2 T -> cur T = cur T0 -> emits (k l1 l2) T B Q) ->
  emits (seq Codegen.new_label (fun l1 => seq Codegen.new_label (k l1))) T0 B Q.
Proof.
  intros HK. apply emits_seq. apply (emits_label T0); [done|]. intros l1 T1 E1 K1 _ _. apply emits_seq. apply (emits_label T0); [apply K1|].
  intros l2 T2 E2 K2 Hold _. destruct (Hold _ _ K1) as [Hne K3]. apply HK; [by split|congruence].
Qed.
(** A branch to [l1]. *)
Lemma emits_branch {A} k (K : unit -> M A) T0 x2 l1 l2 T p B Q : k = JTrue \/ k = JFalse -> arms T0 None x2 l1 l2 T -> room (S p) (cur T) ->
  (forall T', arms T0 (cur T') x2 l1 l2 T' -> moved (S p) p (cur T) (cur T') -> emits (K tt) T' B Q) -> emits (seq (try_emit (jump_call k l1)) K) T B Q.
Proof.
  intros Hk (H1 & H2 & H3) Hr HK. assert (jump_takes k = 1%nat) as Ek by by destruct Hk as [->| ->]. apply emits_seq. apply (emits_forward _ T0); [by destruct Hk as [->| ->]|done| |].
  - rewrite Ek. destruct Hr as [Hr|[d Hr]]; [by left|]. right. exists (p + d)%nat. rewrite Hr. f_equal.
  - rewrite Ek. intros T' Hc Hl Ho _. assert (cur T' = minus (cur T) 1) as Hc' by (rewrite Hc; by destruct Hk as [->| ->]). apply HK.
    + split; [by rewrite Hc'|]. split; [apply Ho; [congruence|done]|done].
    + rewrite Hc'. by apply moved_minus.
Qed.
Lemma arms_sym T0 x1 x2 l1 l2 T : arms T0 x1 x2 l1 l2 T -> arms T0 x2 x1 l2 l1 T.
Proof. intros (H1 & H2 & H3). by split; [|split; [|congruence]]. Qed.
Lemma emits_bind_l1 {A} (K : unit -> M A) T0 x1 x2 y l1 l2 T B Q : arms T0 x1 x2 l1 l2 T -> join (cur T) x1 = Some y ->
  (forall T', arms T0 y x2 l1 l2 T' -> cur T' = y -> emits (K tt) T' B Q) -> emits (seq (try_emit (bind l1)) K) T B Q.
Proof.
  intros (H1 & H2 & H3) Hy HK. apply emits_seq. eapply (emits_bind T0); [done|exact Hy|]. intros T' Hc Hl Ho _. apply HK; [|done]. split; [done|]. split; [apply Ho; [congruence|done]|done].
Qed.
Lemma emits_last (c : M unit) T B Q : emits (c ;; ret tt) T B Q -> emits c T B Q.
Proof. intros H s a s' E Hs. apply (H s a s'); [|done]. unfold seq. rewrite E. by destruct a. Qed.
(** The end of the first arm: a jump to [l2]. *)
Lemma emits_else {A} (K : unit -> M A) T0 x1 l1 l2 T B Q : arms T0 x1 None l1 l2 T ->
  (forall T', arms T0 x1 (cur T) l1 l2 T' -> cur T' = None -> emits (K tt) T' B Q) -> emits (seq (try_emit (jump_fwd l2)) K) T B Q.
Proof.
  intros (H1 & H2 & H3) HK. apply emits_seq. change (jump_fwd l2) with (jump_call JFwd l2). assert (minus (cur T) 0 = cur T) as E by (destruct (cur T) as [d|]; [|done]; cbn; f_equal; lia).
  apply (emits_forward _ T0); [done|done| |].
  - destruct (cur T) as [d|]; [right; by exists d|by left].
  - cbn [jump_takes]. rewrite E. intros T' Hc Hl Ho _. apply HK; [|done]. split; [by apply Ho|]. split; [done|done].
Qed.
Lemma steps_cond B k thn els p q c : (forall s, c s = (let! l1 := Codegen.new_label in let! l2 := Codegen.new_label in
    try_emit (jump_call k l1) ;; thn ;; try_emit (jump_fwd l2) ;; try_emit (bind l1) ;; els ;; try_emit (bind l2)) s) ->
  k = JTrue \/ k = JFalse -> steps B thn p q -> steps B els p q -> steps B c (S p) q.
Proof.
  intros E Hk Ht He. apply (steps_ext _ _ _ _ _ E). clear E. intros T B1 HB Hr. apply emits_labels. intros l1 l2 T1 Ha1 Hc1. eapply emits_branch; [exact Hk|done|by rewrite Hc1|]. intros T2 Ha2 Hm2. rewrite Hc1 in Hm2.
  eapply emits_arm; [exact Ht|done|exact Ha2|by eapply moved_room|]. intros T3 B3 HB3 Ha3 Hm3. eapply emits_else; [exact Ha3|]. intros T4 Ha4 Hc4.
  eapply emits_bind_l1; [exact Ha4|by rewrite Hc4|]. intros T5 Ha5 Hc5. eapply emits_arm; [exact He|lia|exact Ha5|rewrite Hc5; by eapply moved_room|]. intros T6 B6 HB6 Ha6 Hm6. rewrite Hc5 in Hm6.
  destruct (moved_join (S p) q (cur T) (cur T6) (cur T3)) as (y & Hy & Hmy); [by eapply moved_moved|by eapply moved_moved|].
  apply emits_last. eapply emits_bind_l1; [by apply arms_sym|exact Hy|]. intros T7 Ha7 Hc7. apply emits_ret. split; [by rewrite Hc7|apply Ha7].
Qed.
(** A loop, whose exit is a branch to its end. *)
Lemma steps_loop B k test body p q c last : (forall s, c s = ((let! l0 := Codegen.new_label in let! l2 := Codegen.new_label in
    try_emit (bind l0) ;; test ;; try_emit (jump_call k l2) ;; body ;; try_emit (jump_back l0) ;; try_emit (bind l2)) ;; last) s) ->
  k = JTrue \/ k = JFalse -> steps B test p (S p) -> steps B body p p -> steps B last p q -> steps B c p q.
Proof.
  intros E Hk Ht Hb Hl. apply (steps_ext _ _ _ _ _ E). clear E. eapply steps_seq; [|exact Hl]. clear Hl. intros T B1 HB Hr. apply emits_labels. intros l0 l2 T1 Ha1 Hc1. eapply emits_bind_l1; [exact Ha1|apply join_None_r|]. intros T2 Ha2 Hc2. rewrite Hc1 in Hc2.
  eapply emits_arm; [exact Ht|done|exact Ha2|by rewrite Hc2|]. intros T3 B3 HB3 Ha3 Hm3. rewrite Hc2 in Hm3. eapply emits_branch; [exact Hk|by apply arms_sym|by eapply moved_room|]. intros T4 Ha4%arms_sym Hm4.
  assert (moved p p (cur T) (cur T4)) as Hx by by eapply moved_moved. eapply emits_arm; [exact Hb|lia|exact Ha4|by eapply moved_room|]. intros T5 B5 HB5 Ha5 Hm5.
  apply emits_seq. eapply emits_back; [apply Ha5| |].
  - rewrite Hc1. destruct (moved_moved _ _ _ _ _ _ Hx Hm5) as [?|(d & -> & ->)]; [by left|by right].
  - intros T6 Hc6 Hl6 _. apply emits_last. eapply emits_bind_l1; [eapply arms_sym, arms_prefix; [exact Ha5|by rewrite Hl6]|by rewrite Hc6|]. intros T7 Ha7 Hc7. apply emits_ret. split; [by rewrite Hc7|apply Ha7].
Qed.
(** A loop without an exit. *)
Lemma steps_forever B body p q r c last : (forall s, c s = ((let! l0 := Codegen.new_label in try_emit (bind l0) ;; body ;; try_emit (jump_back l0)) ;; last) s) ->
  steps B body p p -> steps B last q r -> steps B c p r.
Proof.
  intros E Hb Hl. apply (steps_ext _ _ _ _ _ E). clear E. eapply steps_seq; [|exact Hl]. clear Hl. intros T B1 HB Hr. apply emits_seq. apply (emits_label T); [done|]. intros l0 T1 Hc1 K1 _ _. apply emits_seq. eapply (emits_bind T); [exact K1|apply join_None_r|]. intros T2 Hc2 K2 _ _. rewrite Hc1 in Hc2, K2.
  apply emits_seq. eapply emits_mono; [apply Hb; [done|by rewrite Hc2]|]. intros [] T3 B3 HB3 [Hm3 Hp3] _. eapply emits_back; [by eapply knows_prefix| |].
  - rewrite Hc2 in Hm3. destruct Hm3 as [?|(d & -> & ->)]; [by left|by right].
  - intros T4 Hc4 Hl4. split; [by left|]. rewrite Hl4. etransitivity; [apply K2|done].
Qed.
End emission.
End Emission.
