(* ===== verification/CodegenTyped.v ===== *)
(** The code generator keeps the promises of the assembler: the code of every
    method and block it makes is well typed.

    The proof is by induction on trees: an expression takes no operand and
    leaves one, or, in a cascade, takes the receiver and leaves the answer
    ([typed_expr]).  What it needs is that the tree is one of the parser's
    ([legal]), that the analysis has placed its variables ([ready]), and that
    no message has more arguments than a byte counts ([narrow]). *)
From Stdlib Require Import String Ascii.
From S2P Require Import Prelude Oops Packed Bytecode Builder Lexer Ast Capture CaptureCorrect World Codegen HoistedCapture StackTyping Emission.
From stdpp Require Import gmap.
#[local] Set Warnings "-register-all".
#[local] Open Scope string_scope.
#[local] Open Scope Z_scope.
#[local] Open Scope list_scope.

Module CodegenTyped.
Import Ast Encoding BytecodeBuilder StackTyping Codegen Emission CaptureCorrect.
#[local] Open Scope codegen_scope.

(** ** Trees *)
Section trees.
Context {F : Type}.
(** No message has more arguments than its send site can count. *)
Fixpoint narrow (e : Expr F) : bool :=
  match e with
  | EAssign _ v _ | Return v _ => narrow v
  | Send r _ args _ _ => (zlen args <? 256) && narrow r && forallb narrow args
  | Cascade r segs _ => narrow r && forallb narrow segs
  | DynArray es _ => forallb narrow es
  | Block (MkBlock _ _ body _ _) => forallb narrow body
  | _ => true
  end.
(** [legal p e]: a tree that takes [p] operands, the receiver of its cascade or none. *)
Inductive legal : nat -> Expr F -> Prop :=
  | legal_expr e : expr_ok e = true -> legal 0 e
  | legal_marker e : is_cascade_rcvr e = true -> legal 1 e
  | legal_seg sup e : seg_ok sup e = true -> legal 1 e.

(** Both are about the tree up to the numbers of its scopes. *)
Lemma forallb_map_eq {A B} (f : B -> bool) (g : A -> B) h l : Forall (fun x => f (g x) = h x) l -> forallb f (map g l) = forallb h l.
Proof. induction 1 as [|x l Hx _ IH]; cbn; [done|]. by rewrite Hx, IH. Qed.
Lemma narrow_unnumbered e : narrow (unnumbered e) = narrow e.
Proof.
  induction e as [s|n s|v s|n v s IH|r sel args su s IHr IHa|r segs s IHr IHs|s|es s IH|ps ts body s sid IH|v s IH] using Expr_induction; cbn [unnumbered narrow]; try done.
  - rewrite IHr, (forallb_map_eq _ _ _ _ IHa). unfold zlen. by rewrite length_map.
  - by rewrite IHr, (forallb_map_eq _ _ _ _ IHs).
  - by apply forallb_map_eq.
  - by apply forallb_map_eq.
Qed.
Lemma is_self_unnumbered (e : Expr F) : is_self (unnumbered e) = is_self e.
Proof. by destruct e as [| | | | | | | |[]|]. Qed.
Lemma is_rcvr_unnumbered (e : Expr F) : is_cascade_rcvr (unnumbered e) = is_cascade_rcvr e.
Proof. by destruct e as [| | | | | | | |[]|]. Qed.
Definition same_shape (e : Expr F) : Prop := expr_ok (unnumbered e) = expr_ok e /\ (forall sup, seg_ok sup (unnumbered e) = seg_ok sup e) /\ stmt_ok (unnumbered e) = stmt_ok e.
Lemma shape_unnumbered e : same_shape e.
Proof.
  assert (forall l, Forall same_shape l -> forallb expr_ok (map unnumbered l) = forallb expr_ok l) as Hl.
  { intros l H. apply forallb_map_eq. eapply Forall_impl; [exact H|]. by intros x []. }
  induction e as [s|n s|v s|n v s IH|r sel args su s IHr IHa|r segs s IHr IHs|s|es s IH|ps ts body s sid IH|v s IH] using Expr_induction; try (by split_and!).
  - destruct IH as (IH & _). assert (expr_ok (unnumbered (EAssign n v s)) = expr_ok (EAssign n v s)) as E by (cbn; by rewrite IH). by split_and!.
  - destruct IHr as (IH1 & IH2 & _). assert (expr_ok (unnumbered (Send r sel args su s)) = expr_ok (Send r sel args su s)) as E.
    { cbn [unnumbered expr_ok]. unfold arity_ok. rewrite IH1, (Hl _ IHa), is_self_unnumbered. by rewrite length_map. }
    split; [done|]. split; [|done]. intros sup. cbn [unnumbered seg_ok]. unfold arity_ok. by rewrite IH2, (Hl _ IHa), is_rcvr_unnumbered, length_map.
  - destruct IHr as (IH1 & _). assert (expr_ok (unnumbered (Cascade r segs s)) = expr_ok (Cascade r segs s)) as E; [|by split_and!]. cbn [unnumbered expr_ok]. rewrite IH1, length_map, is_self_unnumbered. f_equal.
    apply forallb_map_eq. eapply Forall_impl; [exact IHs|]. intros e (_ & H & _). apply H.
  - assert (expr_ok (unnumbered (DynArray es s)) = expr_ok (DynArray es s)) as E by (cbn; by apply Hl). by split_and!.
  - assert (expr_ok (unnumbered (Block (MkBlock ps ts body s sid))) = expr_ok (Block (MkBlock ps ts body s sid))) as E; [|by split_and!]. cbn. f_equal.
    apply (forallb_map_eq stmt_ok). eapply Forall_impl; [exact IH|]. intros e (_ & _ & H). exact H.
  - destruct IH as (IH & _). by split_and!.
Qed.

(** A property of a tree and of every tree in it. *)
Fixpoint everywhere (P : Expr F -> Prop) (e : Expr F) : Prop :=
  P e /\ match e with
         | EAssign _ v _ | Return v _ => everywhere P v
         | Send r _ args _ _ => everywhere P r /\ All (everywhere P) args
         | Cascade r segs _ => everywhere P r /\ All (everywhere P) segs
         | DynArray es _ => All (everywhere P) es
         | Block (MkBlock _ _ body _ _) => All (everywhere P) body
         | _ => True
         end.
Lemma everywhere_here P e : everywhere P e -> P e.
Proof. by destruct e as [| | | | | | | |[]|]; intros []. Qed.
End trees.

(** ** Variables *)
Section unit.
Context {F : Type} (to_bits : F -> Z) (cx : Ctx) (Good : nat -> method -> Prop).
Abbreviation steps := (Emission.steps Good).
Abbreviation emits := (Emission.emits Good).
Implicit Types e : Expr F.

Definition slot_ok (B slot : Z) : Prop := 0 <= slot < B /\ inU 8 slot.
Definition names_ok (B : Z) (h : gmap (list Z) Z) : Prop := forall n slot, h !! n = Some slot -> slot_ok B slot.
Definition hoist_ok (B : Z) (hoist : list HoistScope) : Prop := Forall (fun h => names_ok B (h_names h)) hoist.
(** The variables of the scope and of the dissolved blocks around it have
    slots below [B]. *)
Record ready (hoist : list HoistScope) (sid : nat) (B : Z) : Prop := {
  rd_hoist : hoist_ok B hoist;
  rd_scope : exists s, capture cx !! sid = Some s /\ Z.of_nat (Capture.argc s + Capture.frame_temp_count s) <= B }.
Lemma slot_ok_mono B B' slot : B <= B' -> slot_ok B slot -> slot_ok B' slot.
Proof. intros HB [H1 H2]. split; [lia|done]. Qed.
Lemma hoist_ok_mono B B' hoist : B <= B' -> hoist_ok B hoist -> hoist_ok B' hoist.
Proof. intros HB H. eapply Forall_impl; [exact H|]. intros h Hh n slot Hs. eapply slot_ok_mono; [exact HB|by eapply Hh]. Qed.
Lemma ready_mono hoist sid B B' : B <= B' -> ready hoist sid B -> ready hoist sid B'.
Proof. intros HB [H1 (s & H2 & H3)]. split; [by eapply hoist_ok_mono|]. exists s. split; [done|lia]. Qed.
Lemma ready_hoist hoist hoist' sid B : ready hoist sid B -> hoist_ok B hoist' -> ready hoist' sid B.
Proof. by intros [_ H] Hh; split. Qed.
Lemma ready_bound hoist sid B : ready hoist sid B -> 0 <= B.
Proof. intros [_ (s & _ & H)]. lia. Qed.
Lemma hoisted_ok B hoist name slot : hoist_ok B hoist -> hoisted hoist name = Some slot -> slot_ok B slot.
Proof.
  induction 1 as [|h hoist Hh _ IH]; cbn [hoisted]; [done|]. destruct (h_names h !! name) as [x|] eqn:E; [|exact IH]. intros [= <-]. by eapply Hh.
Qed.

(** What the analysis says of a name used in a scope, and of a block. *)
Definition resolves (sid : nat) (name : list Z) : Prop := exists r, Capture.resolve (capture cx) sid name = Some r /\ place_ok (capture cx) sid name r.
Definition has_scope (sc : nat) (ps ts : list (list Z)) (sid : nat) : Prop := exists s, capture cx !! sid = Some s /\ Capture.parent s = Some sc /\ Capture.argc s = length ps.
Abbreviation placed := (CaptureCorrect.placed resolves has_scope).

Definition ref_ok (B : Z) (r : VarRef) : Prop :=
  match r with Local s => slot_ok B s | Captured d x => inU 8 d /\ inU 8 x | InstVar i => inU 8 i | Global _ => True end.
Lemma u8_in x : inU 8 (u8 x).
Proof. apply Z.mod_pos_bound. lia. Qed.
Lemma resolve_outer_silent B name span w : silent (resolve_outer cx name span w) (ref_ok B).
Proof.
  apply silent_seq with any; [apply silent_intern|]. intros sym _. destruct (if cx_class_side cx then None else _) as [idx|]; [apply silent_ret, u8_in|].
  eapply silent_seq; [apply silent_read|]. intros v _. eapply silent_seq; [by apply (silent_lift _ any)|]. intros [assoc|] _; [by apply silent_ret|].
  eapply silent_seq; [by apply (silent_lift _ any)|]. intros [g|] _; [by apply silent_ret|]. destruct (_ && _).
  - eapply silent_seq; [apply silent_vm; intros v0 a v'; apply quiet_global_declare|]. intros a _. by apply silent_ret.
  - by intros s a s'.
Qed.
Lemma resolve_var_silent hoist sid B name span w : ready hoist sid B -> resolves sid name -> silent (resolve_var cx hoist sid name span w) (ref_ok B).
Proof.
  intros [Hh (s & Hs & HB)] (r & Hr & Hp). unfold resolve_var. destruct (hoisted hoist name) as [slot|] eqn:E; [apply silent_ret; by eapply hoisted_ok|].
  eapply silent_seq; [by apply (silent_lift _ (fun r' => r' = r)); intros r'; rewrite Hr; intros [= ->]|]. intros ? ->. destruct r as [[f|d x]|]; [| |by apply resolve_outer_silent].
  - destruct Hp as (s' & v & Hs' & _ & _ & _ & Hf). rewrite Hs in Hs'. injection Hs' as <-. apply silent_ret. split; [|apply u8_in].
    unfold u8, wrapU. pose proof (Z.mod_pos_bound (Z.of_nat f) (2 ^ 8) ltac:(lia)). pose proof (Z.mod_le (Z.of_nat f) (2 ^ 8) ltac:(lia) ltac:(lia)). lia.
  - destruct Hp as (d' & s' & v & k & j & _ & _ & _ & _ & _ & _ & -> & ->). apply silent_ret. split; apply u8_in.
Qed.
(** One instruction. *)
Ltac plain i := apply (steps_plain _ _ i); first [done|by intros ? [= <-]|by right|by left|cbn; lia|right; cbn; lia|cbn [instr_ok]; unfold inS; lia].
Lemma emit_load_steps hoist sid B name span : ready hoist sid B -> resolves sid name -> steps B (emit_load cx hoist sid name span) 0 1.
Proof.
  intros Hr Hn. eapply steps_silent; [by apply (resolve_var_silent _ _ B)|]. intros [slot|d x|i|a] Ha; cbn in Ha; [| | |apply steps_global].
  - destruct Ha. plain (PushTemp slot).
  - plain (PushCtxTemp d x).
  - plain (PushInstvar i).
Qed.
Lemma emit_store_steps hoist sid B name span : ready hoist sid B -> resolves sid name -> steps B (emit_store cx hoist sid name span) 1 0.
Proof.
  intros Hr Hn. eapply steps_silent; [by apply (resolve_var_silent _ _ B)|]. intros [slot|d x|i|a] Ha; cbn in Ha; [| | |apply steps_store_global].
  - destruct Ha. plain (StoreTempPop slot).
  - plain (StoreCtxTempPop d x).
  - plain (StoreInstvarPop i).
Qed.

(** ** Literals *)
Lemma cached_silent found make insert : (forall v, quiet v (make v).2) -> silent (cached found make insert) any.
Proof.
  intros Hm. eapply silent_seq; [apply silent_read|]. intros c _. destruct (found c); [by apply silent_ret|]. eapply silent_seq; [by apply silent_alloc|]. intros o _.
  eapply silent_seq; [apply silent_update_cache|]. intros [] _. by apply silent_ret.
Qed.
Lemma literal_silent : forall lit : Literal F, silent (build_literal_value to_bits lit) any.
Proof.
  fix IH 1. intros [v|neg ds|v|c|s|s|items|bytes| | |]; cbn [build_literal_value].
  - by apply silent_lift.
  - eapply silent_seq; [apply silent_read|]. intros k _. apply cached_silent. intros v. by apply quiet_alloc.
  - apply cached_silent. intros v'. by apply quiet_alloc.
  - eapply silent_seq; [apply silent_read|]. intros k _. eapply silent_seq; [by apply (silent_lift _ any)|]. intros code _. apply cached_silent. intros v. by apply quiet_alloc.
  - eapply silent_seq; [apply silent_read|]. intros k _. apply cached_silent. intros v. by apply quiet_alloc.
  - apply silent_intern.
  - eapply silent_seq; [apply silent_read|]. intros k _. eapply silent_seq; [apply silent_alloc; intros v; by apply quiet_alloc|]. intros arr _.
    eapply (silent_seq _ _ any); [|intros [] _; by apply silent_ret]. generalize 0. induction items as [|it items IHl]; intros i; [by apply silent_ret|].
    eapply silent_seq; [apply IH|]. intros v _. eapply silent_seq; [apply silent_update_vm; intros v1 v2; apply quiet_at_put|]. intros [] _. apply IHl.
  - eapply silent_seq; [apply silent_read|]. intros k _. apply silent_alloc. intros v. by apply quiet_alloc.
  - apply silent_read.
  - apply silent_read.
  - apply silent_read.
Qed.
Lemma emit_literal_steps B (lit : Literal F) : steps B (emit_literal to_bits lit) 0 1.
Proof.
  assert (steps B (let! o := build_literal_value to_bits lit in try_emit (push_literal o)) 0 1) as H by (eapply steps_silent; [apply literal_silent|]; intros o _; apply steps_literal).
  destruct lit as [v| | | | | | | | | |]; try exact H; cbn [emit_literal].
  - destruct ((-128 <=? v) && (v <=? 127)) eqn:E; [|exact H]. plain (PushSmi v).
  - plain PushNil.
  - plain PushTrue.
  - plain PushFalse.
Qed.

(** ** Statements *)
#[local] Abbreviation X := (emit_expr to_bits cx).
Definition typed_expr (e : Expr F) : Prop := forall ib hoist sid B p,
  legal p e -> narrow e = true -> placed sid e -> ready hoist sid B -> steps B (X ib hoist sid e) p 1.
(** A tree in its scope, an operand or a statement of it. *)
Record tree (p sid : nat) (e : Expr F) : Prop := { tr_typed : everywhere typed_expr e; tr_legal : legal p e; tr_narrow : narrow e = true; tr_placed : placed sid e }.
Record stmt (sid : nat) (e : Expr F) : Prop := { st_typed : everywhere typed_expr e; st_ok : stmt_ok e = true; st_narrow : narrow e = true; st_placed : placed sid e }.
Lemma tree_steps ib hoist B p sid e : ready hoist sid B -> tree p sid e -> steps B (X ib hoist sid e) p 1.
Proof. intros Hr [H1 H2 H3 H4]. by apply (everywhere_here _ _ H1). Qed.
Lemma stmt_tree sid e : stmt sid e -> match e with Return v _ => tree 0 sid v | _ => tree 0 sid e end.
Proof. intros [H1 H2 H3 H4]. destruct e; try (split; try done; by apply legal_expr). cbn in *. destruct H1 as [_ H1]. split; try done. by apply legal_expr. Qed.
Lemma assign_tree sid n v s : tree 0 sid (EAssign n v s) -> resolves sid n /\ tree 0 sid v.
Proof.
  intros [[_ H1] H2 H3 [H4 H5]]. split; [done|]. inversion H2 as [e He| |]; subst. cbn in He. apply andb_true_iff in He as [_ He]. split; try done. by apply legal_expr.
Qed.

Lemma emit_return_steps B is_block q : steps B (emit_return is_block) 1 q.
Proof. destruct is_block; [plain NlrTos|plain ReturnTos]. Qed.
Lemma return_steps ib hoist sid B v is_block q : ready hoist sid B -> tree 0 sid v -> steps B (X ib hoist sid v ;; emit_return is_block) 0 q.
Proof. intros Hr Hv. eapply steps_seq; [by apply tree_steps|apply emit_return_steps]. Qed.
Lemma discard_steps ib hoist sid B e is_block : ready hoist sid B -> stmt sid e -> steps B (emit_statement_discard cx X ib hoist sid e is_block) 0 0.
Proof.
  intros Hr He%stmt_tree. eapply steps_seq; [apply steps_note|]. destruct e as [| | |n v s| | | | | |v s]; try (eapply steps_seq; [by apply tree_steps|]; plain Pop).
  - apply assign_tree in He as [Hn Hv]. eapply steps_seq; [by apply tree_steps|by apply emit_store_steps].
  - by apply return_steps.
Qed.
Lemma value_steps ib hoist sid B e : ready hoist sid B -> tree 0 sid e -> steps B (emit_statement_value cx X ib hoist sid e) 0 1.
Proof.
  intros Hr He. eapply steps_seq; [apply steps_note|]. destruct e as [| | |n v s| | | | | |v s]; try (by apply tree_steps).
  apply assign_tree in He as [Hn Hv]. eapply steps_seq; [by apply tree_steps|]. eapply steps_seq; [plain Dup|]. by apply (steps_frame _ _ _ 1 0 1), emit_store_steps.
Qed.
Lemma seq_steps ib hoist sid B body : ready hoist sid B -> Forall (stmt sid) body -> steps B (emit_statement_seq cx X ib hoist sid body) 0 1.
Proof.
  intros Hr. induction 1 as [|e body He Hb IH]; [plain PushNil|]. destruct body as [|e' body].
  - apply stmt_tree in He. destruct e; try (by apply value_steps). by apply return_steps.
  - cbn [emit_statement_seq]. eapply steps_seq; [by apply discard_steps|exact IH].
Qed.
Lemma fresh_slots_emits names : forall h T B, 0 <= B -> Emission.emits Good (fresh_slots names h) T B (fun h' T' B' => T' = T /\ (names_ok B h -> names_ok B' h')).
Proof.
  induction names as [|n names IH]; intros h T B HB; [by apply emits_ret|]. apply emits_seq. apply emits_slot; [|done]. intros x B' _ HB' Hx Hx8 _.
  eapply emits_mono; [apply IH; lia|]. intros h' T' B2 HB2 [-> Hh]. split; [done|]. intros H. apply Hh. intros n' slot. destruct (decide (n' = n)) as [->|Hne]; [rewrite lookup_insert_eq; intros [= <-]; by split|].
  rewrite lookup_insert_ne by done. intros Hs. eapply slot_ok_mono; [|by eapply H]. lia.
Qed.
(** A body with the variables of its block. *)
Lemma hoist_steps {hoist sid B params temps} (k : list HoistScope -> M unit) p q : ready hoist sid B ->
  (forall h B', B <= B' -> names_ok B' (h_names h) -> ready (h :: hoist) sid B' -> steps B' (k (h :: hoist)) p q) -> steps B (seq (push_hoist_scope hoist params temps) k) p q.
Proof.
  intros Hr Hk. eapply (steps_let _ _ _ _ _ _ (fun hs B' => exists h, hs = h :: hoist /\ names_ok B' (h_names h))).
  - intros T B1 HB. apply emits_seq. eapply emits_mono; [apply fresh_slots_emits; apply ready_bound in Hr; lia|]. intros h T' B' HB' [-> Hh] _. apply emits_ret. split; [done|]. exists (MkHoist h). split; [done|]. apply Hh. intros n slot. by rewrite lookup_empty.
  - intros hs B' HB (h & -> & Hh). apply Hk; [done|done|]. eapply ready_hoist; [by eapply ready_mono|]. constructor; [done|]. eapply hoist_ok_mono; [exact HB|apply Hr].
Qed.

(** ** Dissolved blocks *)
(** The block of an operand that is dissolved into scope [sid]. *)
Record arm (sid : nat) (ns : list nat) (e : Expr F) : Prop := {
  ar_argc : Capture.argc_in ns e = true;
  ar_body : Forall (stmt sid) (body_of e) }.
Lemma arm_steps ib hoist sid B e : ready hoist sid B -> arm sid [0%nat] e -> steps B (with_block e (emit_dissolved_body cx X ib hoist sid)) 0 1.
Proof.
  intros Hr [Ha Hb]. destruct e as [| | | | | | | |[ps ts body s k]|]; try done. cbn [with_block emit_dissolved_body]. eapply hoist_steps; [exact Hr|].
  intros h B' _ _ Hr'. by apply seq_steps.
Qed.
Lemma notnil_steps ib hoist sid B e : ready hoist sid B -> arm sid [0; 1]%nat e -> steps B (with_block e (emit_ifnotnil_arm cx X ib hoist sid)) 1 1.
Proof.
  intros Hr [Ha Hb]. destruct e as [| | | | | | | |[ps ts body s k]|]; try done. cbn [with_block emit_ifnotnil_arm]. destruct ps as [|p ps].
  - eapply steps_seq; [plain Pop|]. eapply hoist_steps; [exact Hr|]. intros h B' _ _ Hr'. by apply seq_steps.
  - eapply hoist_steps; [exact Hr|]. intros h B' _ Hh Hr'. eapply steps_silent; [apply (silent_lift _ (slot_ok B')); intros slot Hs; by eapply (hoisted_ok B' [h]); [constructor|]|].
    intros slot [H1 H2]. eapply steps_seq; [plain (StoreTempPop slot)|by apply seq_steps].
Qed.

(** ** Messages *)
(** What is dissolved, by selector. *)
Inductive inlined (p sid : nat) : list Z -> Expr F -> list (Expr F) -> Prop :=
  | in_if sel r a : sel ∈ chars <$> ["ifTrue:"; "ifFalse:"; "and:"; "or:"; "timesRepeat:"; "ifNil:"] -> tree p sid r -> arm sid [0%nat] a -> inlined p sid sel r [a]
  | in_notnil r a : tree p sid r -> arm sid [0; 1]%nat a -> inlined p sid (chars "ifNotNil:") r [a]
  | in_while sel r a : sel ∈ chars <$> ["whileTrue:"; "whileFalse:"] -> p = 0%nat -> arm sid [0%nat] r -> arm sid [0%nat] a -> inlined p sid sel r [a]
  | in_repeat r : p = 0%nat -> arm sid [0%nat] r -> inlined p sid (chars "repeat") r []
  | in_ifelse sel r a b : sel ∈ chars <$> ["ifTrue:ifFalse:"; "ifFalse:ifTrue:"] -> tree p sid r -> arm sid [0%nat] a -> arm sid [0%nat] b -> inlined p sid sel r [a; b]
  | in_nil_notnil r a b : tree p sid r -> arm sid [0%nat] a -> arm sid [0; 1]%nat b -> inlined p sid (chars "ifNil:ifNotNil:") r [a; b]
  | in_notnil_nil r a b : tree p sid r -> arm sid [0; 1]%nat a -> arm sid [0%nat] b -> inlined p sid (chars "ifNotNil:ifNil:") r [a; b]
  | in_to_do r a b : tree p sid r -> tree 0 sid a -> arm sid [1%nat] b -> inlined p sid (chars "to:do:") r [a; b].
Lemma sel_in_elem sels sel : Capture.sel_in sels sel = true -> sel ∈ chars <$> sels.
Proof. unfold Capture.sel_in. rewrite existsb_exists. intros (x & Hx & He%bool_decide_eq_true). subst. apply list_elem_of_fmap. exists x. split; [done|]. by apply list_elem_of_In. Qed.
Lemma sel_in_sub (sels sels' : list string) sel : Capture.sel_in sels sel = true -> bool_decide (Forall (fun s => s ∈ sels') sels) = true -> sel ∈ chars <$> sels'.
Proof. intros H%sel_in_elem Hs%bool_decide_eq_true. apply list_elem_of_fmap in H as (x & -> & Hx). apply list_elem_of_fmap_2. rewrite Forall_forall in Hs. by apply Hs. Qed.
Lemma sel_in_one s sel : Capture.sel_in [s] sel = true -> sel = chars s.
Proof. intros H%sel_in_elem. by apply list_elem_of_singleton in H. Qed.
(** An operand of a send that is one of the parser's. *)
Record operand_ok (p : nat) (e : Expr F) : Prop := { oo_typed : everywhere typed_expr e; oo_legal : legal p e; oo_narrow : narrow e = true }.
Lemma operand_tree p sid e : operand_ok p e -> operand placed sid false e -> tree p sid e.
Proof. intros [H1 H2 H3] H4. by split. Qed.
Lemma operand_arm p sid ns e : operand_ok p e -> Capture.argc_in ns e = true -> operand placed sid true e -> arm sid ns e /\ p = 0%nat.
Proof.
  intros [H1 H2 H3] Ha Hp. destruct e as [| | | | | | | |[ps ts body s k]|]; try done. inversion H2 as [? He| |]; subst; try done. split; [|done]. split; [done|].
  destruct H1 as [_ H1]. cbn [narrow] in H3. cbn [expr_ok block_ok] in He. apply andb_true_iff in He as [_ He]. cbn [operand] in Hp. cbn [body_of]. rewrite All_Forall in H1, Hp. apply forallb_True, Is_true_true in H3 || apply forallb_forall in H3 || idtac.
  apply Forall_forall. intros x Hx. rewrite Forall_forall in H1, Hp. rewrite forallb_forall in H3, He. pose proof Hx as Hx'%list_elem_of_In.
  split; [by apply H1|exact (He x Hx')|by apply H3|by apply Hp].
Qed.
Lemma inlined_of p sid sel r args ps : Capture.inline_block_positions sel r args = Some ps -> operand_ok p r -> Forall (operand_ok 0) args ->
  operand placed sid (Capture.at_pos Capture.Receiver (Some ps)) r -> operands placed sid (Some ps) 0 args -> inlined p sid sel r args.
Proof.
  intros E Hr Ha Pr Pa. unfold Capture.inline_block_positions, Capture.inline_positions in E.
  destruct args as [|a [|b [|]]]; try done.
  - destruct (Capture.sel_in _ sel && _) eqn:E1; [|done]. injection E as <-. apply andb_true_iff in E1 as [->%sel_in_one E1]. destruct (operand_arm _ _ _ _ Hr E1 Pr). by apply in_repeat.
  - apply Forall_cons in Ha as [Ha _]. destruct Pa as [Pa _].
    repeat match type of E with (if ?c then _ else _) = _ => let E' := fresh "C" in destruct c eqn:E'; [|] end; try done; injection E as <-;
      repeat match goal with H : (_ && _) = true |- _ => apply andb_true_iff in H as [? ?] end; (eapply operand_arm in Pa as [Pa _]; [|done|done]).
    2: destruct (operand_arm _ _ _ _ Hr ltac:(eassumption) Pr); by apply in_while; [by eapply sel_in_sub|..].
    all: apply (operand_tree _ _ _ Hr) in Pr.
    1-3: apply in_if; [by eapply sel_in_sub|done|done].
    match goal with H : Capture.sel_in _ _ = true |- _ => apply sel_in_one in H as -> end. by apply in_notnil.
  - apply Forall_cons in Ha as [Ha [Hb _]%Forall_cons]. destruct Pa as (Pa & Pb & _).
    repeat match type of E with (if ?c then _ else _) = _ => let E' := fresh "C" in destruct c eqn:E'; [|] end; try done; injection E as <-;
      repeat match goal with H : (_ && _) = true |- _ => apply andb_true_iff in H as [? ?] end; apply (operand_tree _ _ _ Hr) in Pr; (eapply operand_arm in Pb as [Pb _]; [|done|done]).
    1-3: (eapply operand_arm in Pa as [Pa _]; [|done|done]).
    1: by apply in_ifelse; [by eapply sel_in_sub|..].
    all: match goal with H : Capture.sel_in _ _ = true |- _ => apply sel_in_one in H as -> end.
    + by apply in_nil_notnil.
    + by apply in_notnil_nil.
    + apply (operand_tree _ _ _ Ha) in Pa. by apply in_to_do.
Qed.

(** The emitter of a selector, by computing the tests on it. *)
Ltac choose_arm := unfold emit_inlined, is_sel; repeat match goal with |- context [Capture.sel_in ?l ?s] => let b := eval vm_compute in (Capture.sel_in l s) in change (Capture.sel_in l s) with b end; cbv beta iota zeta.
Ltac reassoc := intros; cbn [jump_call]; unfold seq, ret; repeat match goal with |- context [match ?c ?s with Ok _ => _ | Err _ => _ | Panic => _ end] => destruct (c s) as [[? ?]| |] end; repeat match goal with u : unit |- _ => destruct u end; reflexivity.
Lemma send_sym_steps B sel n : inU 8 (Z.of_nat n) -> steps B (send_sym sel (Z.of_nat n)) (S n) 1.
Proof. intros Hn. eapply steps_silent; [apply silent_intern|]. intros o _. by apply (steps_send _ _ false). Qed.
Lemma nil_test_steps ib hoist sid B p r : ready hoist sid B -> tree p sid r -> steps B (emit_nil_test X ib hoist sid r) p 2.
Proof.
  intros Hr Ht. eapply steps_seq; [by apply tree_steps|]. eapply steps_seq; [plain Dup|]. eapply (steps_seq _ _ _ _ 2 3); [plain PushNil|]. apply (steps_frame _ _ _ 2 1 1), (send_sym_steps _ _ 1). done.
Qed.
Lemma loop_test_steps B i lim p : slot_ok B i -> slot_ok B lim -> steps B (emit_loop_test i lim) p (S p).
Proof.
  intros [Hi1 Hi2] [Hl1 Hl2]. eapply (steps_seq _ _ _ _ _ (S p)); [plain (PushTemp i)|]. eapply (steps_seq _ _ _ _ _ (S (S p))); [plain (PushTemp lim)|].
  replace (S (S p)) with (2 + p)%nat by lia. apply (steps_frame _ _ _ 2 1 p), (send_sym_steps _ _ 1). done.
Qed.
Lemma loop_step_steps B i p : slot_ok B i -> steps B (emit_loop_step i) p p.
Proof.
  intros [Hi1 Hi2]. eapply (steps_seq _ _ _ _ _ (S p)); [plain (PushTemp i)|]. eapply (steps_seq _ _ _ _ _ (S (S p))); [plain (PushSmi 1)|].
  eapply (steps_seq _ _ _ _ _ (S p)); [|plain (StoreTempPop i)]. replace (S (S p)) with (2 + p)%nat by lia. apply (steps_frame _ _ _ 2 1 p), (send_sym_steps _ _ 1). done.
Qed.
Lemma slot_steps B (k : Z -> M unit) p q : 0 <= B -> (forall x B', B <= B' -> slot_ok B' x -> steps B' (k x) p q) -> steps B (seq fresh_slot k) p q.
Proof.
  intros HB Hk. apply (steps_let _ _ _ _ _ _ (fun x B' => slot_ok B' x)); [|done].
  intros T B1 H1. apply emits_slot; [|lia]. intros x B' _ _ Hx Hx8. by split.
Qed.
(** A loop from [i] to [lim] around a dissolved body. *)
Lemma counting_steps ib hoist hoist' sid B i lim body p : ready hoist sid B -> hoist_ok B hoist' -> slot_ok B i -> slot_ok B lim -> Forall (stmt sid) body ->
  steps B (let! l0 := Codegen.new_label in let! l2 := Codegen.new_label in
    try_emit (bind l0) ;; emit_loop_test i lim ;; try_emit (br_false_fwd l2) ;; emit_statement_seq cx X ib hoist' sid body ;; emit pop ;;
    emit_loop_step i ;; try_emit (jump_back l0) ;; try_emit (bind l2)) p p.
Proof.
  intros Hr Hh Hi Hl Hb. apply (steps_loop _ _ JFalse (emit_loop_test i lim) (emit_statement_seq cx X ib hoist' sid body ;; emit pop ;; emit_loop_step i) p p _ (ret tt)); [|by right| | |apply steps_ret].
  - reassoc.
  - by apply loop_test_steps.
  - eapply (steps_seq _ _ _ _ _ (S p)); [apply (steps_frame _ _ _ 0 1 p), seq_steps; [by eapply ready_hoist|done]|]. eapply (steps_seq _ _ _ _ _ p); [plain Pop|by apply loop_step_steps].
Qed.

Section inlined_steps.
Context (ib : bool) (hoist : list HoistScope) (sid : nat) (B : Z) (Hr : ready hoist sid B).
Abbreviation arm_code := (emit_dissolved_body cx X ib hoist sid).
Lemma popped_arm_steps e : arm sid [0%nat] e -> steps B (emit pop ;; with_block e arm_code) 1 1.
Proof using Hr. intros He. eapply (steps_seq _ _ _ _ _ 0); [plain Pop|by apply arm_steps]. Qed.
Lemma while_steps (k : jump_kind) r a : k = JTrue \/ k = JFalse -> arm sid [0%nat] r -> arm sid [0%nat] a ->
  steps B (let! l0 := Codegen.new_label in let! l2 := Codegen.new_label in
    try_emit (bind l0) ;; with_block r arm_code ;; try_emit (jump_call k l2) ;; with_block a arm_code ;; emit pop ;; try_emit (jump_back l0) ;; try_emit (bind l2) ;; emit push_nil) 0 1.
Proof using Hr.
  intros Hk H1 H2. apply (steps_loop _ _ k (with_block r arm_code) (with_block a arm_code ;; emit pop) 0 _ _ (emit push_nil)); [reassoc|done|by apply arm_steps| |plain PushNil].
  eapply steps_seq; [by apply arm_steps|plain Pop].
Qed.
Lemma arm_block ns e : arm sid ns e -> exists ps ts body s k, e = Block (MkBlock ps ts body s k) /\ length ps ∈ ns /\ Forall (stmt sid) body.
Proof. intros [Ha Hb]. destruct e as [| | | | | | | |[ps ts body s k]|]; try done. exists ps, ts, body, s, k. split; [done|]. split; [|done]. by apply bool_decide_eq_true in Ha. Qed.
Lemma inlined_steps p sel r args : inlined p sid sel r args -> steps B (emit_inlined cx X ib hoist sid sel r args) p 1.
Proof using Hr.
  pose proof (ready_bound _ _ _ Hr) as HB. pose proof popped_arm_steps as Hpop.
  intros [sel' r' a Hsel Ht Ha|r' a Ht Ha|sel' r' a Hsel -> H1 H2|r' -> H1|sel' r' a b Hsel Ht Ha Hb|r' a b Ht Ha Hb|r' a b Ht Ha Hb|r' a b Ht Ha Hb]; try (cbn [fmap list_fmap] in Hsel; repeat (apply elem_of_cons in Hsel as [->|Hsel]; [|]); [..|by apply elem_of_nil in Hsel]).
  all: choose_arm; unfold arg_block0, arg_block1.
  1-4: eapply steps_seq; [by apply tree_steps|].
  - apply (steps_cond _ _ JFalse (with_block a arm_code) (emit push_nil)); [reassoc|by right|by apply arm_steps|plain PushNil].
  - apply (steps_cond _ _ JTrue (with_block a arm_code) (emit push_nil)); [reassoc|by left|by apply arm_steps|plain PushNil].
  - apply (steps_cond _ _ JFalse (with_block a arm_code) (emit push_false)); [reassoc|by right|by apply arm_steps|plain PushFalse].
  - apply (steps_cond _ _ JTrue (with_block a arm_code) (emit push_true)); [reassoc|by left|by apply arm_steps|plain PushTrue].
  - destruct (arm_block _ _ Ha) as (ps & ts & body & s & k & -> & _ & Hbody). cbn [with_block]. eapply steps_seq; [by apply tree_steps|]. eapply (steps_seq _ _ _ _ _ 2); [plain Dup|].
    apply slot_steps; [done|]. intros lim B1 HB1 Hlim. destruct Hlim as [Hl1 Hl2]. eapply (steps_seq _ _ _ _ _ 1); [plain (StoreTempPop lim)|].
    apply slot_steps; [lia|]. intros i B2 HB2 Hi. destruct Hi as [Hi1 Hi2]. eapply (steps_seq _ _ _ _ _ 2); [plain (PushSmi 1)|]. eapply (steps_seq _ _ _ _ _ 1); [plain (StoreTempPop i)|].
    eapply counting_steps; [eapply ready_mono; [|exact Hr]; lia|eapply hoist_ok_mono; [|apply Hr]; lia|by split|split; [lia|done]|done].
  - eapply steps_seq; [by apply nil_test_steps|]. by apply (steps_cond _ _ JFalse (emit pop ;; with_block a arm_code) (ret tt)); [reassoc|by right|apply Hpop|apply steps_ret].
  - eapply steps_seq; [by apply nil_test_steps|]. by apply (steps_cond _ _ JTrue (with_block a (emit_ifnotnil_arm cx X ib hoist sid)) (ret tt)); [reassoc|by left|apply notnil_steps|apply steps_ret].
  - apply (while_steps JFalse); auto.
  - apply (while_steps JTrue); auto.
  - apply (steps_forever _ _ (with_block r' arm_code ;; emit pop) 0 0 _ _ (emit push_nil)); [reassoc| |plain PushNil]. eapply steps_seq; [by apply arm_steps|plain Pop].
  - eapply steps_seq; [by apply tree_steps|]. by apply (steps_cond _ _ JFalse (with_block a arm_code) (with_block b arm_code)); [reassoc|by right|apply arm_steps..].
  - eapply steps_seq; [by apply tree_steps|]. by apply (steps_cond _ _ JFalse (with_block b arm_code) (with_block a arm_code)); [reassoc|by right|apply arm_steps..].
  - eapply steps_seq; [by apply nil_test_steps|]. by apply (steps_cond _ _ JFalse (emit pop ;; with_block a arm_code) (with_block b (emit_ifnotnil_arm cx X ib hoist sid))); [reassoc|by right|apply Hpop|apply notnil_steps].
  - eapply steps_seq; [by apply nil_test_steps|]. by apply (steps_cond _ _ JTrue (with_block a (emit_ifnotnil_arm cx X ib hoist sid)) (emit pop ;; with_block b arm_code)); [reassoc|by left|apply notnil_steps|apply Hpop].
  - destruct (arm_block _ _ Hb) as (ps & ts & body & s & k & -> & Hps%list_elem_of_singleton & Hbody). destruct ps as [|v [|]]; try done. eapply steps_seq; [by apply tree_steps|]. eapply (steps_seq _ _ _ _ _ 2); [plain Dup|].
    apply slot_steps; [done|]. intros i B1 HB1 Hi. destruct Hi as [Hi1 Hi2]. eapply (steps_seq _ _ _ _ _ 1); [plain (StoreTempPop i)|].
    eapply (steps_seq _ _ _ _ _ 2); [apply (steps_frame _ _ _ 0 1 1), tree_steps; [by eapply ready_mono|done]|].
    apply slot_steps; [lia|]. intros lim B2 HB2 Hlim. destruct Hlim as [Hl1 Hl2]. eapply (steps_seq _ _ _ _ _ 1); [plain (StoreTempPop lim)|].
    eapply counting_steps; [eapply ready_mono; [|exact Hr]; lia| |split; [lia|done]|by split|done]. constructor; [|eapply hoist_ok_mono; [|apply Hr]; lia].
    intros n slot Hs. cbn [h_names] in Hs. apply lookup_singleton_Some in Hs as [_ <-]. split; [lia|done].
Qed.
End inlined_steps.

Lemma args_steps ib hoist sid B args : ready hoist sid B -> Forall (tree 0 sid) args -> forall p, steps B (emit_args X ib hoist sid args) p (length args + p).
Proof.
  intros Hr. induction 1 as [|a args Ha _ IH]; intros p; [apply steps_ret|]. cbn [emit_args length]. eapply (steps_seq _ _ _ _ _ (S p)); [apply (steps_frame _ _ _ 0 1 p); by apply tree_steps|].
  replace (S (length args) + p)%nat with (length args + S p)%nat by lia. apply IH.
Qed.
Lemma u8_of_nat n : Z.of_nat n < 256 -> u8 (Z.of_nat n) = Z.of_nat n.
Proof. intros H. apply Z.mod_small. lia. Qed.
Lemma call_steps B (su : bool) sel (args : list (Expr F)) : zlen args < 256 ->
  steps B (let! sel := Codegen.intern sel in try_emit ((if su then send_super else send) sel (u8 (zlen args)))) (S (length args)) 1.
Proof. intros Hn. eapply steps_silent; [apply silent_intern|]. intros o _. unfold zlen in *. apply steps_send; [by apply u8_of_nat|apply u8_in]. Qed.
Lemma segments_steps ib hoist sid B segs : ready hoist sid B -> Forall (tree 1 sid) segs -> steps B (emit_segments X ib hoist sid segs) 1 1.
Proof.
  intros Hr. induction 1 as [|e segs He Hs IH]; [apply steps_ret|]. destruct segs as [|e' segs]; [by apply tree_steps|]. cbn [emit_segments].
  eapply (steps_seq _ _ _ _ _ 2); [plain Dup|]. eapply (steps_seq _ _ _ _ _ 2); [apply (steps_frame _ _ _ 1 1 1); by apply tree_steps|]. eapply (steps_seq _ _ _ _ _ 1); [plain Pop|exact IH].
Qed.
Lemma elems_steps ib hoist sid B at_put es : ready hoist sid B -> Forall (tree 0 sid) es -> forall i, steps B (emit_elems to_bits X ib hoist sid at_put i es) 1 1.
Proof.
  intros Hr. induction 1 as [|e es He Hs IH]; intros i; [apply steps_ret|]. cbn [emit_elems].
  eapply (steps_seq _ _ _ _ _ 2); [plain Dup|]. eapply (steps_seq _ _ _ _ _ 3); [apply (steps_frame _ _ _ 0 1 2), emit_literal_steps|]. eapply (steps_seq _ _ _ _ _ 4); [apply (steps_frame _ _ _ 0 1 3); by apply tree_steps|].
  eapply (steps_seq _ _ _ _ _ 2); [by apply (steps_frame _ _ _ 3 1 1), (steps_send _ _ false _ _ 2)|]. eapply (steps_seq _ _ _ _ _ 1); [plain Pop|apply IH].
Qed.
Lemma array_steps ib hoist sid B es : ready hoist sid B -> Forall (tree 0 sid) es -> steps B (emit_array to_bits X ib hoist sid es) 0 1.
Proof.
  intros Hr Hes. eapply steps_silent; [apply silent_read|]. intros k _. eapply steps_silent; [apply silent_intern|]. intros n _. eapply steps_silent; [apply silent_intern|]. intros ap _.
  eapply steps_seq; [apply steps_literal|]. eapply (steps_seq _ _ _ _ _ 2); [apply (steps_frame _ _ _ 0 1 1), emit_literal_steps|]. eapply (steps_seq _ _ _ _ _ 1); [by apply (steps_send _ _ false _ _ 1)|]. by apply elems_steps.
Qed.
Lemma legal_send p (r : Expr F) sel args su s : legal p (Send r sel args su s) -> legal p r /\ forallb expr_ok args = true.
Proof.
  inversion 1 as [e He|e He|sup e He]; subst; [|done|]; cbn in He.
  - do 3 apply andb_true_iff in He as [He ?]. by split; [apply legal_expr|].
  - apply andb_true_iff in He as [He ?]. apply andb_true_iff in He as [He ?]. split; [|done]. apply orb_true_iff in He as [[He _]%andb_true_iff|[He _]%andb_true_iff]; [by apply legal_marker|by eapply legal_seg].
Qed.
(** The parts of a list, from the facts about all of it. *)
Lemma trees_of sid es : All (everywhere typed_expr) es -> forallb expr_ok es = true -> forallb narrow es = true -> All (placed sid) es -> Forall (tree 0 sid) es.
Proof.
  intros H1%All_Forall H2 H3 H4%All_Forall. apply Forall_forall. intros e He. rewrite Forall_forall in H1, H4. rewrite forallb_forall in H2, H3. pose proof He as He'%list_elem_of_In.
  split; [by apply H1|by apply legal_expr, H2|by apply H3|by apply H4].
Qed.
Lemma operands_all sid (args : list (Expr F)) : forall i, operands placed sid None i args -> All (placed sid) args.
Proof. induction args as [|a args IH]; intros i; [done|]. intros [H1 H2]. split; [done|by eapply IH]. Qed.
Lemma send_steps ib hoist sid B p r sel args su s : ready hoist sid B -> everywhere typed_expr r -> All (everywhere typed_expr) args ->
  legal p (Send r sel args su s) -> narrow (Send r sel args su s) = true -> placed sid (Send r sel args su s) -> steps B (emit_send cx X ib hoist sid r sel args su) p 1.
Proof.
  intros Hr Tr Ta [Lr La]%legal_send Hn [Pr Pa]. cbn in Hn. apply andb_true_iff in Hn as [[Hlen Nr]%andb_true_iff Na]. unfold emit_send.
  destruct (if su then None else Capture.inline_block_positions sel r args) as [ps|] eqn:E.
  - destruct su; [done|]. apply inlined_steps; [done|]. eapply inlined_of; [exact E|by split| |exact Pr|exact Pa].
    apply Forall_forall. intros a Ha. pose proof Ha as Ha'%list_elem_of_In. rewrite All_Forall, Forall_forall in Ta. rewrite forallb_forall in La, Na. split; [by apply Ta|by apply legal_expr, La|by apply Na].
  - eapply steps_seq; [apply tree_steps; [done|by split]|]. apply operands_all in Pa. eapply steps_seq; [apply args_steps; [done|by apply trees_of]|].
    replace (length args + 1)%nat with (S (length args)) by lia. apply call_steps. lia.
Qed.

(** ** Bodies *)
(** [finishes B c p]: [c] takes [p] operands and control does not leave it. *)
Definition finishes (B : Z) (c : M unit) (p : nat) : Prop := forall T B1, B <= B1 -> room p (cur T) -> Emission.emits Good c T B1 (fun _ T' _ => cur T' = None).
Lemma finishes_seq B c k p q : steps B c p q -> finishes B k q -> finishes B (c ;; k) p.
Proof.
  intros Hc Hk T B1 HB Hr. apply emits_seq. eapply emits_mono; [by apply Hc|]. intros [] T' B' HB' [Hm _] _. apply Hk; [lia|by eapply moved_room].
Qed.
Lemma finishes_plain B i f p : (forall b, plain i b = Some (f b)) -> instr_ok i -> temp_of i = None -> (takes i <= p)%nat -> ends i = true -> finishes B (emit f) p.
Proof.
  intros Hf Hi Ht Hp He T B1 HB Hr. destruct (check_sym_room (SInstr i) T p 0 Hr Hp) as (T' & E & _); [by left|]. eapply (emits_exec _ _ (OPlain i) _ _ T'); [|exact E| |intros b _; by apply bool_decide_eq_true].
  - intros s [] s' E0. injection E0 as <-. cbn [vm next_hoist_slot with_bb bb]. do 2 (split; [done|]). split; [apply Hf|]. intros _. unfold check_sym in E. destruct (after (SInstr i) (cur T)) as [c|] eqn:Ea; [|done]. injection E as <-. cbn [cur].
    unfold after in Ea. destruct (cur T); [|by injection Ea as <-]. destruct (decide _) in Ea; [|done]. cbn [sym_ends] in Ea. rewrite He in Ea. by injection Ea as <-.
  - intros i' t [= <-]. by rewrite Ht.
Qed.
Lemma finishes_ext B c c' p : (forall s, c s = c' s) -> finishes B c' p -> finishes B c p.
Proof. intros He Hc T B1 HB Hr s a s' E. rewrite He in E. exact (Hc T B1 HB Hr s a s' E). Qed.
Lemma emit_return_finishes B is_block : finishes B (emit_return is_block) 1.
Proof. destruct is_block; [by apply (finishes_plain _ NlrTos)|by apply (finishes_plain _ ReturnTos)]. Qed.
Lemma values_finish ib hoist sid B is_block body : ready hoist sid B -> Forall (stmt sid) body -> finishes B (emit_values cx X ib hoist sid is_block body) 0.
Proof.
  intros Hr. induction 1 as [|e body He Hb IH].
  - destruct is_block; [|by apply (finishes_plain _ ReturnSelf)]. apply (finishes_ext _ _ (emit push_nil ;; emit block_return_tos)); [done|]. eapply (finishes_seq _ _ _ _ 1); [plain PushNil|by apply (finishes_plain _ BlockReturnTos)].
  - destruct body as [|e' body]; [|cbn [emit_values]; eapply finishes_seq; [by apply discard_steps|exact IH]].
    apply stmt_tree in He. destruct e; try (eapply finishes_seq; [by apply value_steps|]; destruct is_block; [by apply (finishes_plain _ BlockReturnTos)|by apply (finishes_plain _ ReturnTos)]).
    eapply finishes_seq; [by apply tree_steps|apply emit_return_finishes].
Qed.
Lemma body_finishes ib hoist sid B body kind : ready hoist sid B -> Forall (stmt sid) body -> finishes B (emit_body cx X ib hoist sid body kind) 0.
Proof.
  intros Hr Hb. destruct kind; [|by apply values_finish..]. eapply (finishes_seq _ _ _ _ 0); [|by apply (finishes_plain _ ReturnSelf)].
  induction Hb as [|e body He Hb IH]; [apply steps_ret|]. eapply steps_seq; [by apply discard_steps|exact IH].
Qed.
Lemma move_params_steps B vars : forall i, 0 <= i -> i + Z.of_nat (length vars) <= B -> steps B (move_params i vars) 0 0.
Proof.
  induction vars as [|[n slot] vars IH]; intros i Hi HB; [apply steps_ret|]. cbn [length] in HB. cbn [move_params]. eapply (steps_seq _ _ _ _ _ 0); [|apply IH; lia].
  destruct (Capture.captured slot); [|apply steps_ret]. pose proof (u8_in i). assert (0 <= u8 i < B).
  { unfold u8, wrapU in *. pose proof (Z.mod_pos_bound i (2 ^ 8) ltac:(lia)). pose proof (Z.mod_le i (2 ^ 8) ltac:(lia) ltac:(lia)). lia. }
  eapply (steps_seq _ _ _ _ _ 1); [plain (PushTemp (u8 i))|]. eapply steps_silent; [by apply (silent_lift _ any)|]. intros c _. pose proof (u8_in (Z.of_nat c)).
  apply (steps_plain _ _ (StoreCtxTempPop 0 (u8 (Z.of_nat c)))); first [done|by right|by (split; [by vm_compute|done])].
Qed.
Lemma prologue_steps B info : Z.of_nat (Capture.argc info) <= B -> steps B (emit_prologue info) 0 0.
Proof.
  intros HB. unfold emit_prologue. destruct (Capture.has_ctx info); [|apply steps_ret]. apply move_params_steps; [done|]. rewrite length_take. lia.
Qed.

(** ** Units *)
(** Code that is well typed in the frame its flags ask for. *)
Definition unit_typed (m : method) : Prop := exists a t, MethodFlags.argc (m_flags m) = Some a /\ MethodFlags.ntemps (m_flags m) = Some t /\ well_typed m (a + t).
Definition small_typed (m : method) : Prop := zlen (m_literals m) <= 255 -> unit_typed m.
Lemma set_flags_ranges a t hc ib pf cc n w : MethodFlags.set_flags a t hc ib pf cc n = Some w -> a <= METHOD_ARGC_MAX /\ t <= METHOD_NTEMPS_MAX /\ n <= 255.
Proof.
  unfold MethodFlags.set_flags. destruct (negb _) eqn:E; [done|]. intros _. apply negb_false_iff in E. do 2 apply andb_true_iff in E as [E ?].
  change METHOD_ARGC_MAX with 15. change METHOD_NTEMPS_MAX with 255. change (Z.shiftl 1 METHOD_FLAGS_ARGC_BITS) with 16 in *. change (Z.shiftl 1 METHOD_FLAGS_NTEMPS_BITS) with 256 in *. change (Z.shiftl 1 METHOD_FLAGS_NCTX_BITS) with 256 in *. lia.
Qed.
Lemma finish_unit_typed v slots ops T s1 s2 s3 argc info is_block pf cc sel m : session Good (MkSt v empty_cache new slots) s1 ops -> check_all ops start = Some T -> cur T = None ->
  0 <= argc <= slots -> bb s2 = bb s1 -> next_hoist_slot s2 = next_hoist_slot s1 -> finish_unit argc info is_block pf cc sel s2 = Ok (m, s3) -> s3 = s2 /\ small_typed m.
Proof.
  intros [Hrun Hfit Hslots Htemps _] Hck Hend Ha Hbb Hnext E. cbn [bb next_hoist_slot] in *. unfold finish_unit, universe, seq, read, ret, lift in E.
  rewrite Hbb, Hnext in E. destruct (finish id _ sel argc _ (bb s1)) as [built|] eqn:Ef; [|done]. destruct (MethodFlags.set_flags argc _ _ _ _ _ _) as [flags|] eqn:Eg; [|done]. injection E as <- <-. split; [done|].
  intros Hlen. destruct (set_flags_ranges _ _ _ _ _ _ _ _ Eg) as (R1 & R2 & R3). destruct (MethodFlags.method_flags_roundtrip argc (next_hoist_slot s1 - argc) (Capture.has_ctx info) is_block pf cc (Z.of_nat (Capture.nctx info))) as (w & Ew & _ & Fa & Ft & _); [lia|lia|lia|].
  rewrite Eg in Ew. injection Ew as <-. exists argc, (next_hoist_slot s1 - argc). split; [exact Fa|]. split; [exact Ft|].
  apply (well_typed_same built); [done..|]. destruct (finish_checks _ _ _ _ _ _ _ Ef) as (_ & _ & _ & _ & Hl). cbn [set_method_flags m_literals] in Hlen. rewrite Hl, list_fmap_id in Hlen.
  eapply (typed_sound ops); try done; [by apply Hfit|]. by replace (argc + (next_hoist_slot s1 - argc)) with (next_hoist_slot s1) by lia.
Qed.
Context (Hgood : forall n m, small_typed m -> Good n m).
Lemma good_alloc v m : methods_good Good v -> small_typed m -> methods_good Good (World.alloc (World.OMethod m) v).2.
Proof using Hgood.
  intros Hv Hm n b. cbn. intros [H|[_ H]]%lookup_app_Some; [by apply Hv|]. apply list_lookup_singleton_Some in H as [_ E]. injection E as <-. by apply Hgood.
Qed.
Lemma start_session v slots k s1 u : finishes slots k 0 -> k (MkSt v empty_cache new slots) = Ok (u, s1) ->
  exists ops T, session Good (MkSt v empty_cache new slots) s1 ops /\ check_all ops start = Some T /\ cur T = None.
Proof.
  intros Hk E. destruct (Hk start slots (Z.le_refl _) ltac:(right; by exists 0%nat) _ _ _ E) as (ops & T & B' & H1 & H2 & _ & _ & H3); [done|]. by exists ops, T.
Qed.
Lemma limits_silent span argc info : silent (limits span argc info) any.
Proof. unfold limits. destruct (check_limits _ _ _ _); [by intros s a s'|by apply silent_ret]. Qed.
(** What is compiled for a block. *)
Lemma block_unit_good v v' argc slots info c o : 0 <= argc <= slots -> finishes slots c 0 ->
  in_unit slots (c ;; let! sel := Codegen.intern (chars "aBlock") in let! m := finish_unit argc info true false (Capture.captures_ctx info) sel in alloc (World.alloc (World.OMethod m))) v = Ok (o, v') ->
  bb v' = bb v /\ next_hoist_slot v' = next_hoist_slot v /\ (methods_good Good (vm v) -> methods_good Good (vm v')).
Proof using Hgood.
  intros Ha Hc E. unfold in_unit in E. destruct (seq _ _ _) as [[o1 s3]| |] eqn:E0; try done. injection E as <- <-. split; [done|]. split; [done|]. cbn [vm with_vm]. intros Hv.
  unfold seq in E0. destruct (c _) as [[u s1]| |] eqn:E1; try done. destruct (start_session _ _ _ _ _ Hc E1) as (ops & T & Hs & Hck & Hend).
  destruct (Codegen.intern _ s1) as [[sel s2]| |] eqn:E2; try done. destruct (silent_intern _ _ _ _ E2) as (Hbb & Hn & Hq & _).
  destruct (finish_unit _ _ _ _ _ _ s2) as [[m s2']| |] eqn:E3; try done. destruct (finish_unit_typed _ _ _ _ _ _ _ _ _ _ _ _ _ _ Hs Hck Hend Ha Hbb Hn E3) as [-> Hm].
  unfold alloc, on_vm in E0. injection E0 as <- <-. cbn [vm with_vm]. apply good_alloc; [|done]. eapply quiet_good; [exact Hq|]. by apply (se_vm _ _ _ _ Hs).
Qed.
Lemma closure_steps B blk : steps B (let! lit := (fun s => match intern_block_literal blk (bb s) with Some (lit, b) => Ok (lit, with_bb s b) | None => Panic end) in try_emit (push_closure lit 0)) 0 1.
Proof.
  apply (steps_op _ _ _ (OClosure blk 0) (SLit (UClosure 0) blk)); [|done|by intros ? ?|done|cbn; lia|by right].
  intros s a s' E. unfold seq in E. destruct (intern_block_literal blk (bb s)) as [[lit b]|] eqn:El; [|done]. unfold try_emit in E. cbn [bb with_bb] in E. destruct (push_closure lit 0 b) as [b'|] eqn:Ep; [|done]. injection E as <- <-.
  do 2 (split; [done|]). cbn [exec bb with_bb]. rewrite El. exact Ep.
Qed.
Lemma block_steps B ps ts body s sid : All (everywhere typed_expr) body -> expr_ok (Block (MkBlock ps ts body s sid)) = true -> forallb narrow body = true ->
  (exists sc, has_scope sc ps ts (Z.to_nat sid)) -> All (placed (Z.to_nat sid)) body -> steps B (emit_block_literal cx X (MkBlock ps ts body s sid)) 0 1.
Proof using Hgood.
  intros Ht Hok Hn (sc & info & Hinfo & _ & Hargc) Hp. cbn [emit_block_literal]. eapply steps_silent; [apply (silent_lift _ (fun i => i = info)); intros i; destruct (sid <? 0); [done|]; rewrite Hinfo; by intros [= ->]|]. intros ? ->. cbv zeta.
  eapply steps_silent; [apply limits_silent|]. intros [] _. set (slots := frame_slots info (zlen ps)). assert (Forall (stmt (Z.to_nat sid)) body) as Hb.
  { cbn in Hok. apply andb_true_iff in Hok as [_ Hok]. apply All_Forall in Ht, Hp. apply Forall_forall. intros e He. rewrite Forall_forall in Ht, Hp. rewrite forallb_forall in Hok, Hn. pose proof He as He'%list_elem_of_In.
    split; [by apply Ht|exact (Hok e He')|by apply Hn|by apply Hp]. }
  assert (finishes slots (emit_prologue info ;; emit_body cx X true [] (Z.to_nat sid) body BlockBody) 0) as Hf.
  { assert (Z.of_nat (Capture.argc info + Capture.frame_temp_count info) <= slots) by (unfold slots, frame_slots, zlen; lia).
    eapply finishes_seq; [apply prologue_steps; lia|]. apply body_finishes; [|done]. split; [constructor|]. by exists info. }
  eapply (steps_let _ _ _ _ _ _ (fun _ _ => True)); [|intros built B' _ _; apply closure_steps]. intros T B1 HB st0 o st1 E [Hs1 Hs2].
  assert (in_unit slots ((emit_prologue info ;; emit_body cx X true [] (Z.to_nat sid) body BlockBody) ;; let! sel := Codegen.intern (chars "aBlock") in
    let! m := finish_unit (zlen ps) info true false (Capture.captures_ctx info) sel in alloc (World.alloc (World.OMethod m))) st0 = Ok (o, st1)) as E'.
  { rewrite <- E. unfold in_unit. f_equal. unfold seq. by destruct (emit_prologue info _) as [[? ?]| |]. }
  assert (0 <= zlen ps <= slots) as Hps by (unfold slots, frame_slots, zlen; lia). destruct (block_unit_good _ _ _ _ _ _ _ Hps Hf E') as (H1 & H2 & H3). exists [], T, B1.
  split; [by apply session_nil; [|lia|]|]. split; [done|]. split; [split; [by rewrite H1|lia]|]. done.
Qed.

(** Every expression keeps its promise. *)
Lemma all_typed e : everywhere typed_expr e.
Proof using Hgood.
  assert (forall l, Forall (everywhere typed_expr) l -> All (everywhere typed_expr) l) as HA by (intros l; apply All_Forall).
  induction e as [s|n s|v s|n v s IH|r sel args su s IHr IHa|r segs s IHr IHs|s|es s IH|ps ts body s sid IH|v s IH] using Expr_induction; cbn [everywhere]; (split; [intros ib hoist sc B p Hl Hn Hp Hr|auto]); cbn [emit_expr].
  - inversion Hl; subst; try done. plain PushSelf.
  - inversion Hl; subst; try done. by apply emit_load_steps.
  - inversion Hl; subst; try done. apply emit_literal_steps.
  - inversion Hl as [? He| |]; subst; try done. cbn in He. apply andb_true_iff in He as [_ He]. destruct Hp as [Hp1 Hp2]. eapply steps_seq; [apply (tree_steps _ _ _ 0 sc); [done|split; [done|by apply legal_expr|done|done]]|].
    eapply (steps_seq _ _ _ _ _ 2); [plain Dup|]. by apply (steps_frame _ _ _ 1 0 1), emit_store_steps.
  - apply (send_steps _ _ _ _ _ _ _ _ _ s); auto.
  - inversion Hl as [? He| |]; subst; try done. cbn in He, Hn. apply andb_true_iff in He as [[He _]%andb_true_iff Hs]. apply andb_true_iff in Hn as [Hn1 Hn2]. destruct Hp as [Hp1 Hp2%All_Forall].
    eapply steps_seq; [apply (tree_steps _ _ _ 0 sc); [done|split; [done|by apply legal_expr|done|done]]|]. apply (segments_steps _ _ sc); [done|]. apply Forall_forall. intros e He'. rewrite Forall_forall in IHs, Hp2. rewrite forallb_forall in Hs, Hn2.
    pose proof He' as He''%list_elem_of_In. split; [by apply IHs|by eapply legal_seg, Hs|by apply Hn2|by apply Hp2].
  - inversion Hl; subst; try done. apply steps_ret.
  - inversion Hl as [? He| |]; subst; try done. apply (array_steps _ _ sc); [done|]. apply trees_of; auto.
  - inversion Hl as [? He| |]; subst; try done. destruct Hp as [Hp1 Hp2]. apply block_steps; auto. by exists sc.
  - intros T B1 HB Hro. apply emits_panic.
Qed.
End unit.

(** ** Methods *)
Section methods.
Context {F : Type} (to_bits : F -> Z).
(** A primitive does not change what the code is. *)
Lemma set_primitive_typed m id m' : set_primitive m id = Some m' -> small_typed m -> small_typed m'.
Proof.
  unfold set_primitive. destruct (SmallInt.new id); [|done]. intros [= <-] Hm Hl. destruct (Hm Hl) as (a & t & Ha & Ht & Hw). exists a, t. split; [done|]. split; [done|]. by eapply well_typed_same; [..|exact Hw].
Qed.
Lemma emit_method_good cx Good scope0 (m : MethodNode F) v o lines s : (forall n b, small_typed b -> Good n b) -> ffi m = None ->
  capture cx !! 0%nat = Some scope0 -> Z.of_nat (Capture.argc scope0) = zlen (m_params m) -> forallb stmt_ok (m_body m) = true -> forallb narrow (m_body m) = true ->
  All (CaptureCorrect.placed (resolves cx) (has_scope cx) 0) (m_body m) ->
  emit_method to_bits cx scope0 m (MkSt v empty_cache new (frame_slots scope0 (zlen (m_params m)))) = Ok ((o, lines), s) ->
  methods_good Good v -> methods_good Good (vm s).
Proof.
  intros Hgood Hffi Hsc Hargc Hok Hn Hp E Hv. set (slots := frame_slots scope0 (zlen (m_params m))) in *. unfold emit_method in E. rewrite Hffi in E. unfold seq in E. assert (0 <= zlen (m_params m) <= slots) as Hargs by (unfold slots, frame_slots, zlen; lia).
  destruct (limits _ _ _ _) as [[u0 s0]| |] eqn:E0; try done. assert (s0 = MkSt v empty_cache new slots) as ->. { unfold limits in E0. destruct (check_limits _ _ _ _); [done|]. unfold ret in E0. congruence. }
  assert (finishes Good slots (emit_prologue scope0 ;; emit_body cx (emit_expr to_bits cx) false [] 0 (m_body m) (if top_level cx then DoIt else Method)) 0) as Hf.
  { assert (Z.of_nat (Capture.argc scope0 + Capture.frame_temp_count scope0) <= slots) by (unfold slots, frame_slots, zlen in *; lia).
    eapply finishes_seq; [apply prologue_steps; lia|]. apply body_finishes; [split; [constructor|by exists scope0]|]. apply All_Forall in Hp. apply Forall_forall. intros e He. rewrite Forall_forall in Hp. rewrite forallb_forall in Hok, Hn.
    pose proof He as He'%list_elem_of_In. split; [by apply all_typed|exact (Hok e He')|by apply Hn|by apply Hp]. }
  destruct (emit_prologue scope0 _) as [[u1 s1]| |] eqn:E1; try done. destruct (emit_body _ _ _ _ _ _ _ s1) as [[u2 s2]| |] eqn:E2; try done.
  destruct (start_session Good v slots _ s2 u2 Hf) as (ops & T & Hs & Hck & Hend); [unfold seq; by rewrite E1|]. cbn [read] in E. unfold read in E.
  destruct (Codegen.intern _ s2) as [[sel s3]| |] eqn:E3; try done. destruct (silent_intern _ _ _ _ E3) as (Hbb & Hnext & Hq & _).
  destruct (finish_unit _ _ _ _ _ _ s3) as [[b s3']| |] eqn:E4; try done. destruct (finish_unit_typed _ _ _ _ _ _ _ _ _ _ _ _ _ _ _ Hs Hck Hend Hargs Hbb Hnext E4) as [-> Hb].
  set (pr := match primitive m with Some pid => lift (set_primitive b pid) | None => ret b end) in E. destruct (pr s3) as [[b' s4]| |] eqn:E5; try done. unfold pr in E5. assert (s4 = s3 /\ small_typed b') as [-> Hb'].
  { destruct (primitive m) as [pid|]; [|by injection E5 as <- <-]. unfold lift in E5. destruct (set_primitive b pid) as [b1|] eqn:Eb; [|done]. injection E5 as <- <-. split; [done|]. by eapply set_primitive_typed. }
  unfold alloc, on_vm, ret in E. injection E as _ _ <-. cbn [vm with_vm]. apply good_alloc; [done| |done]. eapply quiet_good; [exact Hq|]. by apply (se_vm _ _ _ _ Hs).
Qed.

(** C8. The code generator makes well-typed code.  From a tree of the parser's,
    whose messages have fewer than 256 arguments, and unless the method is a
    foreign one, every method and block it makes is well typed in the frame its
    flags ask for, if it has no more literals than an operand byte counts.
    Wherever control gets in the code, from its start on, there is an
    instruction; it finds its operands on the stack, its temporary in the frame
    and its literal or send site in the method, and control never runs off the
    end.  So in every scope of every method the arms of conditionals leave what
    their join expects, loops leave the stack as they found it, and every path
    ends in a return, wherever blocks have been dissolved. *)
Theorem compile_typed (m : MethodNode F) v holder class_side top_level o lines v' :
  method_ok m = true -> ffi m = None -> forallb narrow (m_body m) = true ->
  compile_method_inner to_bits v holder class_side top_level m = Ok ((o, lines), v') ->
  forall n b, World.objects v' !! n = Some (World.OMethod b) ->
    World.objects v !! n = Some (World.OMethod b) \/ (zlen (m_literals b) <= 255 -> unit_typed b).
Proof.
  intros Hok Hffi Hn E. unfold compile_method_inner in E. destruct (analyze_spec m) as (body & scopes & Ea & Hbody & _ & Hp & s0 & Hs0 & Hargc). rewrite Ea in E.
  destruct (if class_side then _ else _) as [names|]; [|done]. rewrite Hs0 in E. cbn [m_params] in E. destruct (emit_method _ _ _ _ _) as [[[o' l'] s]| |] eqn:Em; try done. injection E as _ _ <-.
  assert (forallb stmt_ok body = forallb stmt_ok (m_body m)) as Eok.
  { rewrite <- (forallb_map_eq stmt_ok unnumbered stmt_ok body), Hbody by (apply Forall_forall; intros e _; apply shape_unnumbered). apply forallb_map_eq, Forall_forall. intros e _. apply shape_unnumbered. }
  assert (forallb narrow body = forallb narrow (m_body m)) as Enar.
  { rewrite <- (forallb_map_eq narrow unnumbered narrow body), Hbody by (apply Forall_forall; intros e _; apply narrow_unnumbered). apply forallb_map_eq, Forall_forall. intros e _. apply narrow_unnumbered. }
  intros n b Hb. eapply (emit_method_good _ (fun n b => World.objects v !! n = Some (World.OMethod b) \/ small_typed b) _ _ _ _ _ _ _ _ _ _ _ _ _ Em); [|exact Hb]. intros k c Hk. by left.
  Unshelve. all: cbn [capture m_body ffi m_params]; try done.
  - intros k c Hc. by right.
  - unfold zlen. by rewrite Hargc.
  - rewrite Eok. unfold method_ok in Hok. do 3 (apply andb_true_iff in Hok as [Hok _]). by apply andb_true_iff in Hok as [_ Hok].
  - by rewrite Enar.
Qed.
End methods.

(** [m: n | s | s := 0. 1 to: n do: [:i | i < 3 ifTrue: [s := s + i]]. ^[s]]. *)
Definition summing : MethodNode Z :=
  let here := HoistedCapture.here in let var n := Var (chars n) here in let call r sel args := Send r (chars sel) args false here in
  Ast.MkMethod (chars "m:") [chars "n"] None None [chars "s"]
    [EAssign (chars "s") (Lit (LInt 0) here) here;
     call (Lit (LInt 1) here) "to:do:" [var "n"; Block (MkBlock [chars "i"] []
       [call (call (var "i") "<" [Lit (LInt 3) here]) "ifTrue:" [Block (MkBlock [] [] [EAssign (chars "s") (call (var "s") "+" [var "i"]) here] here 0)]] here 0)];
     Return (Block (MkBlock [] [] [var "s"] here 0)) here] false here.
Definition summing_world : World.vmstate :=
  match compile_method (fun x => x) HoistedCapture.boot (World.oop_at 3) false summing with Ok (_, v) => v | _ => HoistedCapture.boot end.
(** The block and the method, which are what is new of the world's methods. *)
Lemma compile_typed_witness : Forall (fun n => exists b, World.objects summing_world !! n = Some (World.OMethod b) /\ unit_typed b) [8; 10]%nat.
Proof.
  assert (exists o l, compile_method_inner (fun x => x) HoistedCapture.boot (World.oop_at 3) false false summing = Ok (o, l, summing_world)) as (o & l & E) by (eexists _, _; vm_compute; reflexivity).
  pose proof (compile_typed (fun x => x) summing HoistedCapture.boot (World.oop_at 3) false false o l summing_world eq_refl eq_refl eq_refl E) as H.
  assert (forall n b, World.objects summing_world !! n = Some (World.OMethod b) -> World.objects HoistedCapture.boot !! n = None -> zlen (m_literals b) <= 255 -> unit_typed b) as Hnew.
  { intros n b Hb Ho. destruct (H n b Hb) as [Hold|]; [by rewrite Ho in Hold|done]. }
  constructor; [|constructor; [|constructor]].
  - eexists. split; [vm_compute; reflexivity|]. apply (Hnew 8%nat); [vm_compute; reflexivity|reflexivity|vm_compute; congruence].
  - eexists. split; [vm_compute; reflexivity|]. apply (Hnew 10%nat); [vm_compute; reflexivity|reflexivity|vm_compute; congruence].
Defined.
End CodegenTyped.
