(* ===== verification/TypedRun.v ===== *)
(** Well-typed code in the interpreter: in the frame its flags ask for, no
    instruction misses its operands, its temporary or its literal, and control
    stays in the code.

    [CodegenTyped] says which methods are well typed; here one of them runs in
    a frame of [FrameList].  What the types do not speak of -- the fields of
    objects, contexts, the values that branches test -- is [data_ok]. *)
From S2P Require Import Prelude Oops Packed Bytecode Builder StackTyping ObjectGraph Process FrameList Activation MachineLogic UnwindCorrect NonLocalReturn Closures Interpreter InterpreterCorrect.
#[local] Open Scope Z_scope.

Module TypedRun.
Import Encoding ObjectGraph Process FrameList Activation MachineLogic UnwindCorrect NonLocalReturn Closures Interpreter InterpreterCorrect StackTyping.

(** What an instruction needs of the objects, the operands being there. *)
Definition data_ok (s : vm) (base : list aval) (f : fr) (fs : list fr) (x : method) (i : Instr) : Prop :=
  match i with
  | PushInstvar k | StoreInstvarPop k => is_Some (ivar (objs s) (f_receiver f) k)
  | PushGlobal k | StoreGlobalPop k => forall a, zlookup (m_literals x) k = Some a -> is_Some (ivar (objs s) a 1)
  | PushCtxTemp d k | StoreCtxTempPop d k => exists c id y,
      ctx_hops (objs s) (Z.to_nat d) (f_ctx f) = Some c /\ context_at (objs s) c = Some (id, y) /\ is_Some (zlookup (x_slots y) k)
  | PushClosure lit n => 0 <= n /\ forall l, zlookup (m_literals x) lit = Some l -> exists id blk cc,
      method_at (objs s) l = Some (id, blk) /\ is_block blk = Some true /\ captures_ctx blk = Some cc /\ is_Some (closure_home (objs s) base f fs)
  | BrTrueFwd _ | BrFalseFwd _ => forall v, list.last (f_operands f) = Some v -> v = true_obj s \/ v = false_obj s
  | JumpBack _ => exists w limit, Counters.bump_loop_counter (m_counters x) = Some (w, limit) /\ (limit = true -> is_Some (Counters.reset_loop_counter w))
  | _ => True
  end.
(** Neither a send nor a return. *)
Definition stays (i : Instr) : bool := match i with Send _ _ => false | _ => negb (is_return i) end.

(** The interpreter's [x] is the assembler's [b]. *)
Record twin (b : BytecodeBuilder.method) (x : method) : Prop := {
  tw_code : m_code x = BytecodeBuilder.m_code b;
  tw_literals : zlen (m_literals x) = zlen (BytecodeBuilder.m_literals b) }.
Lemma zlookup_is_Some_lt {A} (l : list A) i : is_Some (zlookup l i) <-> 0 <= i < zlen l.
Proof.
  unfold zlookup, zlen. destruct (Z.ltb_spec i 0); [split; [by intros []|lia]|]. rewrite lookup_lt_is_Some. lia.
Qed.
Lemma twin_literal b x k : twin b x -> is_Some (zlookup (BytecodeBuilder.m_literals b) k) -> is_Some (zlookup (m_literals x) k).
Proof. intros [_ H]. by rewrite !zlookup_is_Some_lt, H. Qed.

(** ** One instruction *)
Lemma unsnoc_pos l : (1 <= length l)%nat -> exists ops v, unsnoc l = Some (ops, v) /\ l = ops ++ [v] /\ length l = S (length ops) /\ list.last l = Some v.
Proof.
  intros Hl. destruct (unsnoc l) as [[ops v]|] eqn:E; [|unfold unsnoc in E; destruct (reverse l) eqn:Er; [|done]; apply (f_equal length) in Er; rewrite length_reverse in Er; cbn in Er; lia].
  pose proof (unsnoc_Some _ _ _ E) as ->. exists ops, v. split; [done|]. split; [done|]. rewrite length_app, last_snoc. cbn. split; [lia|done].
Qed.
Lemma set_ivar_ok os v i x : is_Some (ivar os v i) -> is_Some (set_ivar os v i x).
Proof.
  unfold ivar, set_ivar. destruct (fields_at os v) as [[id l]|]; [|by intros []]. cbn [mbind option_bind]. intros H%zlookup_is_Some_lt. by rewrite zset_ok.
Qed.
Lemma length_push f v : length (f_operands (push_operand f v)) = (length (f_operands f) + 1)%nat.
Proof. unfold push_operand, set_operands. cbn. by rewrite length_app. Qed.
Lemma locals_same f f' : same_frame f f' -> zlen (locals f') = zlen (locals f).
Proof. intros (_ & _ & _ & _ & _ & _ & _ & _ & Ha & Ht). unfold locals, zlen. by rewrite !length_app, Ha, Ht. Qed.
Lemma with_local_operands f t v : f_operands (with_local f t v) = f_operands f.
Proof. unfold with_local. by destruct (t <? _). Qed.

Section step.
Context (s : vm) (base : list aval) (f : fr) (fs : list fr) (x : method) (b : BytecodeBuilder.method) (slots : Z) (Htw : twin b x) (Hslots : zlen (locals f) = slots).
Lemma branch_progress i next d ops taken other (v : aval) : jump_target i next = Some (next + d) -> takes i = 1%nat -> leaves i = 0%nat -> ends i = false -> (forall ic su, i <> Send ic su) ->
  length (f_operands f) = S (length ops) -> v = taken \/ v = other -> exists f' os pc,
    (if decide (v = taken) then Some (set_operands f ops, objs s, next + d) else if decide (v = other) then Some (set_operands f ops, objs s, next) else None) = Some (f', os, pc) /\
    flows b i next (length (f_operands f)) pc (length (f_operands f')).
Proof.
  intros Hj Ht Hl He Hs Hlen Hv. destruct (decide (v = taken)).
  - eexists _, _, _. split; [done|]. replace (length (f_operands (set_operands f ops))) with (length (f_operands f) - takes i)%nat by (cbn; lia). by apply flows_jump.
  - destruct Hv as [|Hv]; [done|]. rewrite decide_True by done. eexists _, _, _. split; [done|]. replace (length (f_operands (set_operands f ops))) with (length (f_operands f) - takes i + leaves i)%nat by (cbn; lia). by apply flows_on.
Qed.
Lemma local_progress i next : stays i = true -> supplied b slots i (length (f_operands f)) -> data_ok s base f fs x i ->
  (forall d, i = JumpBack d -> d <= next) -> (forall v, i = PushSmi v -> smi_range v) ->
  exists f' os pc, local_step s base f fs x i next = Some (f', os, pc) /\ flows b i next (length (f_operands f)) pc (length (f_operands f')).
Proof using Htw Hslots.
  intros Hst [Ht Htmp Hlit _] Hd Hback Hsmi.
  assert (forall f' os, length (f_operands f') = (length (f_operands f) - takes i + leaves i)%nat -> ends i = false -> (forall ic su, i <> Send ic su) ->
    local_step s base f fs x i next = Some (f', os, next) -> exists f' os pc, local_step s base f fs x i next = Some (f', os, pc) /\ flows b i next (length (f_operands f)) pc (length (f_operands f'))) as Hon.
  { intros f' os Hl He Hs E. exists f', os, next. split; [done|]. rewrite Hl. by apply flows_on. }
  assert (forall v, ends i = false -> (forall ic su, i <> Send ic su) -> takes i = 0%nat -> leaves i = 1%nat -> local_step s base f fs x i next = Some (push_operand f v, objs s, next) ->
    exists f' os pc, local_step s base f fs x i next = Some (f', os, pc) /\ flows b i next (length (f_operands f)) pc (length (f_operands f'))) as Hpush.
  { intros v He Hs H0 H1 E. apply (Hon (push_operand f v) (objs s)); [rewrite length_push; lia|done..]. }
  destruct i as [| | | |k|k|t|t|t|k|k|k|k| | |d k|d k|lit n|ic is_super|d|d|d|d| | | |]; try done; cbn [takes] in Ht; cbn [data_ok] in Hd;
    try (destruct (unsnoc_pos (f_operands f)) as (ops & v & Eu & El & Hlen & Hlast); [lia|]).
  - by eapply Hpush.
  - by eapply Hpush.
  - by eapply Hpush.
  - by eapply Hpush.
  - eapply Hpush; [done..|]. cbn [local_step]. by rewrite decide_True by by apply Hsmi.
  - destruct (twin_literal b x k Htw) as [l El]; [by apply Hlit|]. eapply Hpush; [done..|]. cbn [local_step]. by rewrite El.
  - assert (is_Some (zlookup (locals f) t)) as [v Ev] by (apply zlookup_is_Some_lt; rewrite Hslots; by apply Htmp). eapply Hpush; [done..|]. cbn [local_step]. rewrite decide_True by (specialize (Htmp t eq_refl); lia). by rewrite Ev.
  - eapply (Hon (with_local f t v)); [rewrite with_local_operands; cbn; lia|done..|]. cbn [local_step]. rewrite Eu. cbn [mbind option_bind]. rewrite decide_True by (specialize (Htmp t eq_refl); lia). done.
  - eapply (Hon (with_local (set_operands f ops) t v)); [rewrite with_local_operands; cbn; lia|done..|]. cbn [local_step]. rewrite Eu. cbn [mbind option_bind].
    rewrite decide_True; [done|]. specialize (Htmp t eq_refl). by change (locals (set_operands f ops)) with (locals f); rewrite Hslots.
  - destruct Hd as [v Ev]. eapply Hpush; [done..|]. cbn [local_step]. by rewrite Ev.
  - destruct (set_ivar_ok _ _ _ v Hd) as [os Eos]. eapply (Hon (set_operands f ops) os); [cbn; lia|done..|]. cbn [local_step]. rewrite Eu. cbn [mbind option_bind]. by rewrite Eos.
  - destruct (twin_literal b x k Htw) as [l El]; [by apply Hlit|]. destruct (Hd l El) as [v Ev]. eapply Hpush; [done..|]. cbn [local_step]. rewrite El. cbn [mbind option_bind]. by rewrite Ev.
  - destruct (twin_literal b x k Htw) as [l El']; [by apply Hlit|]. destruct (set_ivar_ok _ _ _ v (Hd l El')) as [os Eos]. eapply (Hon (set_operands f ops) os); [cbn; lia|done..|]. cbn [local_step]. rewrite El'. cbn [mbind option_bind]. rewrite Eu. cbn [mbind option_bind]. by rewrite Eos.
  - eapply (Hon (set_operands f ops)); [cbn; lia|done..|]. cbn [local_step]. by rewrite Eu.
  - eapply (Hon (push_operand f v)); [rewrite length_push; cbn; lia|done..|]. cbn [local_step]. by rewrite Eu.
  - destruct Hd as (c & id & y & Ec & Ey & [v Ev]). eapply Hpush; [done..|]. cbn [local_step]. rewrite Ec. cbn [mbind option_bind]. rewrite Ey. cbn [mbind option_bind]. by rewrite Ev.
  - destruct Hd as (c & id & y & Ec & Ey & Hk%zlookup_is_Some_lt). assert (is_Some (set_ctx_slot (objs s) id y k v)) as [os Eos] by (unfold set_ctx_slot; by rewrite zset_ok).
    eapply (Hon (set_operands f ops) os); [cbn; lia|done..|]. cbn [local_step]. rewrite Ec. cbn [mbind option_bind]. rewrite Ey. cbn [mbind option_bind]. rewrite Eu. cbn [mbind option_bind]. by rewrite Eos.
  - destruct Hd as [Hn Hd]. destruct (twin_literal b x lit Htw) as [l El]; [by apply Hlit|]. destruct (Hd l El) as (id & blk & cc & Eb & Ei & Ec & [home Eh]).
    assert (true && (0 <=? n) && (n <=? zlen (f_operands f)) = true) as Hc by (unfold zlen; lia).
    eapply Hon; [| | |cbn [local_step]; rewrite El; cbn [mbind option_bind]; rewrite Eb; cbn [mbind option_bind]; rewrite Ei; cbn [mbind option_bind]; rewrite Ec; cbn [mbind option_bind]; rewrite Eh; cbn [mbind option_bind]; rewrite Hc; reflexivity]; [|done..].
    cbn. rewrite length_app, length_take. cbn. lia.
  - exists f, (objs s), (next + d). split; [done|]. replace (length (f_operands f)) with (length (f_operands f) - takes (JumpFwd d))%nat at 2 by (cbn; lia). by apply flows_jump.
  - destruct Hd as (w & limit & Ew & Hw). specialize (Hback d eq_refl). cbn [local_step]. destruct (Z.ltb_spec next d); [lia|]. rewrite Ew. cbn [mbind option_bind].
    assert (exists w', (if limit then Counters.reset_loop_counter w else Some w) = Some w') as [w' Ew'] by (destruct limit; [by destruct (Hw eq_refl) as [w' ?]; exists w'|by exists w]).
    rewrite Ew'. cbn [mbind option_bind]. eexists f, _, (next - d). split; [done|]. replace (length (f_operands f)) with (length (f_operands f) - takes (JumpBack d))%nat at 2 by (cbn; lia). by apply flows_jump.
  - cbn [local_step]. rewrite Eu. cbn [mbind option_bind]. by apply branch_progress; [..|apply Hd].
  - cbn [local_step]. rewrite Eu. cbn [mbind option_bind]. apply branch_progress; try done. destruct (Hd v Hlast); auto.
Qed.
End step.

(** ** The loop *)
Lemma decode_nonneg code pc i next : decode_at code pc = Some (i, next) -> 0 <= pc.
Proof. unfold decode_at, bytecode_byte, zlookup. by destruct (Z.ltb_spec pc 0). Qed.
Lemma decode_smi code pc v next : decode_at code pc = Some (PushSmi v, next) -> smi_range v.
Proof.
  unfold decode_at. destruct (bytecode_byte code pc) as [op|]; [|done]. cbn [mbind option_bind]. unfold op1, op2, op16.
  repeat match goal with |- (if ?b then _ else _) = _ -> _ => destruct b; [try done|] end; try done.
  all: repeat match goal with |- (mbind _ ?x) = _ -> _ => destruct x; [cbn [mbind option_bind]|done] end; try done.
  intros [= <- _]. unfold smi_range, i8, wrapS. pose proof (Z.mod_pos_bound (z + 2 ^ (8 - 1)) (2 ^ 8) ltac:(lia)). lia.
Qed.

(** C9. Well-typed code does not go wrong.  A machine whose running frame is
    that of a well-typed method, with the operands its types ask for where it
    stands, finds an instruction there, with its operands, its temporary and
    its literal.  An instruction that stays in the frame, on the data that it
    is for, is a turn of the loop that ends, or exits because the stack is
    full: it never pops what is not the frame's, and it leaves the frame where
    its types ask for the operands that it has, with everything below as it
    was.  A send has its receiver and its arguments, and an answer in their
    place is what the code after it expects; a return has its result. *)
Theorem typed_code_runs sv cap base fs s f x b slots pc :
  cap <= 2 ^ 22 -> stack_shows cap (objs s) base (f :: fs) (stack s) -> objs s !! f_method f = Some (OMethod x) ->
  twin b x -> well_typed b slots -> zlen (locals f) = slots -> reaches b pc (length (f_operands f)) ->
  exists i next, decode_at (m_code x) pc = Some (i, next) /\ supplied b slots i (length (f_operands f)) /\
    match i with
    | Send ic _ => exists argc, site_argc b ic = Some argc /\ reaches b next (length (f_operands f) - S argc + 1)
    | ReturnSelf | ReturnTos | BlockReturnTos | NlrTos => True
    | _ => data_ok s base f fs x i ->
        wp (overflow cap (zlen base + body_size (f :: fs) + 1)) (step sv (f_method f) pc) s
          (fun c s' => exists f' os pc', c = Continue (f_method f) pc' /\ same_frame f f' /\ local_after cap s base f' fs os (registers_after s (f_method f) x i next) s' /\
            zlen (locals f') = slots /\ reaches b pc' (length (f_operands f')))
    end.
Proof.
  intros Hcap Hs Ho Htw Hw Hsl Hr. destruct (Hw _ _ Hr) as (i & next & Hdec & Hsup). exists i, next. pose proof Hdec as Hdecx. rewrite <- (tw_code _ _ Htw) in Hdecx. split; [done|]. split; [done|].
  assert (stays i = true -> data_ok s base f fs x i -> wp (overflow cap (zlen base + body_size (f :: fs) + 1)) (step sv (f_method f) pc) s
    (fun c s' => exists f' os pc', c = Continue (f_method f) pc' /\ same_frame f f' /\ local_after cap s base f' fs os (registers_after s (f_method f) x i next) s' /\ zlen (locals f') = slots /\ reaches b pc' (length (f_operands f')))) as Hstay.
  { intros Hst Hd. destruct (local_progress s base f fs x b slots Htw Hsl i next Hst Hsup Hd) as (f' & os & pc' & El & Hf).
    - intros d ->. destruct (Hw (next - d) (length (f_operands f) - takes (JumpBack d))%nat) as (i' & n' & Hd' & _); [exact (reaches_step _ _ _ _ _ _ _ Hr Hdec (flows_jump b (JumpBack d) next _ (next - d) eq_refl))|]. apply decode_nonneg in Hd'. lia.
    - intros v ->. by eapply decode_smi.
    - pose proof (local_step_frame _ _ _ _ _ _ _ _ _ _ El) as Hfr. unfold wp. rewrite (step_decoded sv _ _ _ _ _ _ Ho Hdecx). eapply wp_mono; [eapply (exec_local sv _ cap Hcap s base f fs Hs); [|done|exact Ho|by eapply decode_branch|exact El]; intros; by split; [|lia]|].
      intros c s' [-> Hl]. exists f', os, pc'. split; [done|]. split; [done|]. split; [done|]. split; [by rewrite (locals_same _ _ Hfr)|exact (reaches_step _ _ _ _ _ _ _ Hr Hdec Hf)]. }
  destruct i; try (by apply Hstay); try done. destruct (s_send _ _ _ _ Hsup _ _ eq_refl) as (argc & Ha & _). exists argc. split; [done|]. exact (reaches_step _ _ _ _ _ _ _ Hr Hdec (flows_send b _ _ _ _ _ _ eq_refl Ha)).
Qed.

(** The loop of [InterpreterCorrect], assembled. *)
Definition loop_session : list BytecodeBuilder.op :=
  [BytecodeBuilder.ONewLabel; BytecodeBuilder.ONewLabel; BytecodeBuilder.OBind 0; BytecodeBuilder.OPlain (PushSmi 7); BytecodeBuilder.OPlain Pop; BytecodeBuilder.OPlain PushFalse; BytecodeBuilder.OBrTrue 1;
   BytecodeBuilder.OJumpBack 0; BytecodeBuilder.OBind 1; BytecodeBuilder.OPlain ReturnSelf].
Definition loop_builder : BytecodeBuilder.builder := Eval vm_compute in default BytecodeBuilder.new (BytecodeBuilder.run loop_session BytecodeBuilder.new).
Definition the_loop : BytecodeBuilder.method := Eval vm_compute in default (BytecodeBuilder.MkMethod [] 0 0 0 0 0 [] []) (BytecodeBuilder.finish id 1 9 0 0 loop_builder).
Lemma loop_typed : well_typed the_loop 0.
Proof.
  assert (check_all loop_session start = Some (MkTypes None [Some 0; Some 0]%nat)) as Hck by (vm_compute; reflexivity).
  assert (BytecodeBuilder.run loop_session BytecodeBuilder.new = Some loop_builder) as Hrun by (vm_compute; reflexivity).
  assert (BytecodeBuilder.finish id 1 9 0 0 loop_builder = Some the_loop) as Hfin by (vm_compute; reflexivity).
  eapply (typed_sound loop_session 1 9 0 0 0 loop_builder the_loop); [exact Hrun|vm_compute; reflexivity|exact Hfin|exact Hck|done|].
  repeat (constructor; [intros i t Hi Ht; by inversion Hi; subst|]). constructor.
Qed.
(** Its first turn, and what comes after it. *)
Lemma typed_code_runs_witness : exists i next, decode_at loop_code 0 = Some (i, next) /\
  wp (overflow demo_cap (0 + body_size [loop_frame] + 1)) (step loop_services 3 0) loop_vm
    (fun c s' => exists f' os pc', c = Continue 3 pc' /\ same_frame loop_frame f' /\ local_after demo_cap loop_vm [] f' [] os (Some 3%nat, 0) s' /\ zlen (locals f') = 0 /\ reaches the_loop pc' (length (f_operands f'))).
Proof.
  assert (stack_shows demo_cap (objs loop_vm) [] [loop_frame] (stack loop_vm)) as Hs.
  { split; cbn [stack loop_vm slots sp fp has_frame objs]; [eexists; done|done|vm_compute; reflexivity|done|done|]. repeat constructor; try done. eexists. split_and!; done. }
  assert (objs loop_vm !! f_method loop_frame = Some (OMethod (MkMethod (flags_word false) 0 0 loop_code []))) as Ho by reflexivity.
  assert (twin the_loop (MkMethod (flags_word false) 0 0 loop_code [])) as Ht by (split; vm_compute; reflexivity).
  destruct (typed_code_runs loop_services demo_cap [] [] loop_vm loop_frame (MkMethod (flags_word false) 0 0 loop_code []) the_loop 0 0 ltac:(done) Hs Ho Ht loop_typed eq_refl (reaches_start _)) as (i & next & Hd & _ & Hi).
  exists i, next. split; [exact Hd|]. vm_compute in Hd. injection Hd as <- <-. exact (Hi I).
Defined.
End TypedRun.
